(* ===== verification/_CoqProject ===== *)
-Q . S2P
Prelude.v
Memblock.v
MemblockList.v
MemblockArray.v
MemblockRange.v
MemblockFree.v
MemblockSearch.v
MemblockAlloc.v
PageTable.v
PageTableMap.v
Pte.v
PtTree.v
PteDesc.v
BootSpace.v
BootBlock.v
BootMap.v
BootMapSpec.v
BootStart.v
Loader.v
LoaderSafety.v
Sched.v
SchedFair.v
CString.v
CStringSpec.v
CStringScan.v
Printk.v
PrintkSpec.v
Uaccess.v
Syscall.v
SchedRun.v
Irq.v
Timer.v
Kmalloc.v
Vmap.v
VmapHeap.v
VmapFold.v
VmapSpec.v
VSpace.v
Smp.v
PerCpu.v
Gic.v
GicSpec.v
Process.v
AddressSpace.v
UserInit.v
Idle.v
Physmem.v
Kobj.v
KobjLogic.v
Rbtree.v
RbTrees.v
RbtreeSpec.v
RbtreeErase.v
RbtreePlain.v
VmapArea.v
VmapAug.v
VmapTree.v
VmapList.v
VmapSpace.v
VmapSearch.v
VmapFree.v
KobjAlloc.v
VmapAlloc.v
VmapVm.v
VmapVmSpec.v
VmapInit.v
VmapState.v
VmapRefine.v
VmapFault.v
Vmalloc.v
VunmapSpec.v
Fixmap.v
FixmapSpec.v
FixmapInit.v
FixmapMap.v
FixmapDemo.v
FixmapTop.v
FixmapFdt.v
