(* ===== verification/Prelude.v ===== *)
(** * Quest OS: verification library

    Quest OS is a small AArch64 kernel: it boots on QEMU's [virt] board, sets
    up memory, interrupts, the timer and the other processors, loads user
    programs from a package linked into the image and runs them in turn.
    This library models the kernel's own C code (under src/src and
    src/include) and proves what makes each part correct.

    ** The parts and how they interact

    [mm/pm.c] gives the RAM to the boot allocator [mm/memblock.c] and reserves
    the image; every later block comes from that allocator: translation
    tables ([arch/aarch64/mmu.c]), the heap ([mm/kmalloc.c]), per-CPU areas
    ([smp/percpu.c]), stacks and process memory ([schedule/process.c], whose
    translation tables [mm/vm.c] builds on the heap).  Before there is a
    linear map, devices and the device tree are reached through the fixed map
    ([mm/fixmap.c], [mm/early_ioremap.c], [driver/fdt.c]); [mm/vm.c] also
    hands out ranges of kernel addresses, kept in red-black trees
    ([linux_porting/lib/rbtree.c]).  The boot processor starts the others through hotplug states
    ([smp/cpuhp.c], [smp/smp.c], [arch/aarch64/psci.c]); drivers register
    callbacks there ([driver/gic-v3.c], [arch/aarch64/arch_timer.c]).  An
    interrupt goes from [exception.c] through the controller driver and the
    descriptors ([kernel/irqdesc.c]) to the handler; the tick asks for a
    reschedule, which [schedule/sched.c] does with the round-robin class.  A
    user program enters through a service call ([syscall/]), whose arguments
    are copied from user memory ([mm/uaccess.c]) and printed by
    [kernel/printk.c].

    ** Files

    - [Prelude]: machine integers, the [outcome] monad ([Done], [Bug] for an
      access or assertion that fails, [Fuel]), shared lemmas, hints, tactics.
    - [Memblock]: memblock.c, data and operations.  [MemblockList]: sorted
      region lists, the reference model.  [MemblockArray], [MemblockRange]:
      the in-place array code refines the lists.  [MemblockFree],
      [MemblockSearch]: the lockstep iterators and the top-down search.
      [MemblockAlloc]: the state invariant, the specification as two sets of
      addresses, the refinement.  [Physmem]: pm.c and the states reachable
      from boot.
    - [PageTable], [PageTableMap]: pg_map_range of mmu.c against the table
      walk of the architecture.  [BootSpace]: the address spaces its calls
      build, as lists of regions.  [BootBlock]: a block entry written where
      a page was meant.  [BootMap]: map_kernel.c, mapping.c and
      mmio.c.  [BootMapSpec], [BootStart]: the kernel's address space from
      the identity map to the linear map.
    - [Kmalloc]: kmalloc.c over the allocator and the bytes of memory.
    - [Pte]: the bits of one entry (pg_table.h).  [PtTree]: trees of tables in
      any memory and what writing a leaf, linking a table or exchanging
      equivalent entries does to translation.  [PteDesc]: entries as address
      and attributes.  [Vmap]: the mapper of vm.c, with contiguous entries
      and blocks, on the bytes of the heap.  [VmapHeap]: the heap under it.
      [VmapFold]: folding sixteen entries.  [VmapSpec]: every level of the
      mapper.  [VSpace]: address spaces as lists of regions.
    - [Fixmap]: fixmap.c, early_ioremap.c, the mapper of mmu.c that works
      through the fixed map, and the mapping of the device tree in fdt.c.
      [FixmapSpec]: page updates, device slots.  [FixmapInit]: the set-up.
      [FixmapMap], [FixmapTop]: the levels of the mapper, its entry points.
      [FixmapFdt]: the device tree.
      [FixmapDemo]: an image on which the theorems are tried.
    - [Kobj]: programs on words of the kernel heap.  [KobjLogic]: a separation
      logic for them, on Iris, with its adequacy theorem.  [KobjAlloc]: the
      heap as a resource of that logic.
    - [Rbtree]: rbtree.c and rbtree_augmented.h.  [RbTrees]: red-black trees as
      values.  [RbtreeSpec], [RbtreeErase]: the code computes the functions
      on values.  [RbtreePlain]: the statements about heaps.
    - [VmapArea]: the areas of vm.c in trees and lists (and list.h).
      [VmapAug], [VmapTree], [VmapList], [VmapSpace], [VmapSearch],
      [VmapFree]: largest free sizes, trees, lists, both together, the
      search, the operations on free areas.  [VmapAlloc]: split and
      allocation.  [VmapVm], [VmapVmSpec], [VmapInit]: descriptors, lazy
      release, purge and set-up.  [VmapState], [VmapRefine], [VmapFault]: the
      same as statements about heaps.  [Vmalloc], [VunmapSpec]: vmalloc,
      vfree and the removal of translations.
    - [PerCpu]: percpu.c.  [Smp]: hotplug states and the bring-up of the
      processors as an interleaved machine.
    - [Irq]: irqdesc.c and the interrupt handlers.  [Timer]: arch_timer.c.
      [Gic], [GicSpec]: gic-v3.c over a device that answers reads as it likes.
    - [Sched], [SchedFair]: sched.c and sched_round_robin.c.
    - [Loader], [LoaderSafety]: the package parser of process.c.  [Process]:
      segment protections, user stack, register frame.  [AddressSpace]: the
      memory of one process and its set-up.  [UserInit]: the loop over all
      processes.  [Idle]: the idle threads.
    - [CString], [CStringSpec], [CStringScan]: string.c, ctype.c, strto.c.
      [Printk], [PrintkSpec]: printk.c.
    - [Uaccess], [Syscall]: uaccess.c and the system calls.  [SchedRun]: one
      processor over time, as steps between its idle loop and user processes,
      with the part of exception_entry.S that switches back.

    ** What the theorems show

    - Allocation: the search returns the highest aligned free block or none,
      the entry points refine operations on sets, and from boot on no block
      overlaps another or the image, as long as the region array has room
      ([MemblockAlloc], [Physmem]); the heap
      returns its blocks whole ([Kmalloc]), per-CPU variables are separate.
    - Mapping: pg_map_range makes the walk give exactly the requested
      translation, changes nothing else and stays within its table budget,
      where no block entry gets attributes with type bits;
      a range mapped before can be mapped again without a pool.
    - Start of the kernel: the image is mapped at its linked address, its
      relocations applied, its code executable and not writable and the rest
      the other way round; the tables fit into the pools of the linker
      script; the linear map then holds all of memory.  This is for images
      whose segments span no aligned 2 MiB block, which the linker script
      does not ensure; the device tree of the boot loader is such a block,
      and its mapping is lost ([BootStart]).
    - Address spaces: the mapper of vm.c on a free range gives exactly the
      requested translation and disturbs neither the others nor live memory;
      the tables of a process translate exactly its segments, metadata and
      stack; after the loop over the processes each finds, through its own
      tables, its arguments at its first stack pointer, and no two share a
      table or a stack.  The ranges are whole pages and start below 512 GiB,
      and the segments of a process do not meet, which the loader does not
      ensure ([VmapSpec], [AddressSpace], [UserInit]).
    - Fixed map: set-up changes no translation; a device window translates to
      its registers and nothing else changes, over the whole life of the
      seven slots and for requests of up to 2^43 bytes; the mapper gives exactly the requested translation where
      page tables exist and cannot add one; the device tree is mapped
      byte for byte, read-only, and reserved ([FixmapTop], [FixmapFdt]).
    - Trees: insertion and removal give balanced trees in order, without a
      fault and without a write outside them ([RbtreePlain]).
    - Kernel addresses: the allocator takes the lowest fitting range, set-up
      builds its state from the image, running out of addresses faults
      ([VmapRefine], [VmapFault]); vunmap removes exactly the translations
      of its range ([VunmapSpec]).
    - Loading: no byte outside the package is read whatever the package
      holds, unless an image wraps the offset of its program headers, and
      what is registered satisfies the checks; the initial stack
      has the layout a C runtime expects; segments get the protection of
      their flags.
    - Scheduling: round robin picks the first runnable process after the
      cursor, no runnable process waits more than a round; in every run of a
      processor one of its processes is marked running while it is in user
      mode, and a process that exited never runs again ([SchedRun]).
    - Interrupts: descriptors refine a map of handlers; a timer interrupt
      reaches its handler, is ended once and leads to a reschedule; the
      distributor is configured; every processor finds its redistributor.
    - Start-up: the interleaved bring-up ends, with every reachable processor
      online and its callbacks run once and in order.
    - Library routines: copies for every overlap, first occurrences, bounded
      concatenation, numbers printed and read back, the deferred log replayed
      once and in order.

    ** Bounds and fuel

    Loops that are not structural take fuel and the theorems show that the
    fuel is enough: a table loop visits at most 512 entries ([TABLE_FUEL] is
    513, for all three mappers and for vunmap); a red-black tree in a 64-bit
    memory is less than 128 levels deep ([RB_FUEL] is 140), and the search
    for a free area enters every node a bounded number of times
    ([search_fuel]); the tables the latter
    may need are a hypothesis, as the number of blocks the heap can still
    give ([supply], executable); a scan of a C string reads a fresh address each step ([scan_fuel]
    is one more than the size of memory); a 64-bit number has at most 64
    digits; the format interpreter consumes its format; the polling loop of
    the controller is bounded by its own counter of 10^6; the search for a
    redistributor by the number of frames; the loop over the processes by
    the size of the table; the relocation loop by the number of entries
    ([RELA_FUEL]).

    ** Not modelled

    Assembly (vectors, context switch, early boot but for the calls it makes
    in [BootStart], and the way out of exceptions in [SchedRun]), barriers, TLB and cache
    maintenance (their effect is outside a sequential memory), spinlocks
    (only the boot processor and the bring-up run concurrently in the model),
    console output of messages other than the log itself; the boot sequence
    [main.c], calls of the other parts in order; libfdt and the boot loader's
    part of fdt.c; the firmware configuration device and the UART registers;
    the boot loader; user programs.  Of the ports of Linux containers only
    the red-black tree is modelled, without its traversals, which no modelled
    code calls; the array of blocks that a purge looks in (xarray.c) is a
    parameter.  The purge of lazily freed areas, the merging of free areas,
    vmalloc and vfree are modelled without a theorem of their own. *)

From stdpp Require Export base list list_numbers numbers option gmap.
From Stdlib Require Export ZArith Lia.

#[global] Open Scope Z_scope.

(** ** Machine integers

    Registers and C integers are kept as [Z]; [u64], [u32], [u16], [u8] are
    the conversions to the unsigned types, [s32] and [s64] the (two's
    complement) conversions to the signed ones. *)

Definition u64 (x : Z) : Z := x mod 2 ^ 64.
Definition u32 (x : Z) : Z := x mod 2 ^ 32.
Definition u16 (x : Z) : Z := x mod 2 ^ 16.
Definition u8 (x : Z) : Z := x mod 2 ^ 8.
Definition s32 (x : Z) : Z := (x + 2 ^ 31) mod 2 ^ 32 - 2 ^ 31.
Definition s64 (x : Z) : Z := (x + 2 ^ 63) mod 2 ^ 64 - 2 ^ 63.

Definition ULLONG_MAX : Z := 2 ^ 64 - 1.
Definition U32_MAX : Z := 2 ^ 32 - 1.

(** The page size of the configuration ([CONFIG_PAGE_SHIFT] is 12). *)
Definition PAGE_SHIFT : Z := 12.
Definition PAGE_SIZE : Z := 4096.

(** Error numbers of [asm-generic/errno-base.h]. *)
Definition EPERM : Z := 1.
Definition ENOENT : Z := 2.
Definition ENOMEM : Z := 12.
Definition EFAULT : Z := 14.
Definition EBUSY : Z := 16.
Definition EEXIST : Z := 17.
Definition ENODEV : Z := 19.
Definition EINVAL : Z := 22.
Definition ENOSYS : Z := 38.
Definition EOPNOTSUPP : Z := 95.

(** Alignment macros.  [align_mask x a] is [x & ~(a - 1)] at 64 bits. *)
Definition align_mask (x a : Z) : Z := u64 (Z.land x (Z.lnot (a - 1))).

(** [round_down] of [linux/math.h]. *)
Definition round_down (x a : Z) : Z := align_mask x a.

(** [round_up] of [linux/math.h]: [((x - 1) | (a - 1)) + 1] at 64 bits. *)
Definition round_up (x a : Z) : Z := u64 (Z.lor (u64 (x - 1)) (a - 1) + 1).

(** [ALIGN] and [ALIGN_UP]: [(x + a - 1) & ~(a - 1)] at 64 bits. *)
Definition ALIGN_UP (x a : Z) : Z := align_mask (u64 (x + a - 1)) a.
Definition ALIGN_DOWN (x a : Z) : Z := align_mask x a.
Definition PAGE_ALIGN (x : Z) : Z := ALIGN_UP x PAGE_SIZE.

(** ** Outcomes

    [Done] is a normal return, [Bug] a failed [BUG_ON] (the code prints and
    then spins forever), [Fuel] the exhaustion of the fuel of a loop; the
    theorems that matter show that [Fuel] and [Bug] do not occur. *)
Inductive outcome (A : Type) : Type :=
  | Done (a : A)
  | Bug
  | Fuel.
Arguments Done {A} a.
Arguments Bug {A}.
Arguments Fuel {A}.

Definition obind {A B} (c : outcome A) (k : A -> outcome B) : outcome B :=
  match c with
  | Done a => k a
  | Bug => Bug
  | Fuel => Fuel
  end.

Declare Scope outcome_scope.
Delimit Scope outcome_scope with outcome.
Notation "'let!' x ':=' c 'in' k" := (obind c (fun x => k))
  (at level 10, x pattern, c at level 100, k at level 200) : outcome_scope.
#[global] Open Scope outcome_scope.

Lemma obind_Done {A B} (c : outcome A) (k : A -> outcome B) b :
  obind c k = Done b <-> exists a, c = Done a /\ k a = Done b.
Proof.
  destruct c; simpl; split; try (intros H; discriminate H).
  - eauto.
  - intros (a' & [= ->] & Hk). exact Hk.
  - intros (a' & [=] & _).
  - intros (a' & [=] & _).
Qed.

(** ** Shared tactics and hints *)

Create HintDb quest.
Create Rewrite HintDb quest.

(** Case analysis on every boolean comparison of integers or naturals that
    guards the goal or a hypothesis, with the comparison kept as a fact. *)
Ltac bool_facts :=
  repeat match goal with
  | H : (_ <? _)%Z = true |- _ => apply Z.ltb_lt in H
  | H : (_ <? _)%Z = false |- _ => apply Z.ltb_ge in H
  | H : (_ <=? _)%Z = true |- _ => apply Z.leb_le in H
  | H : (_ <=? _)%Z = false |- _ => apply Z.leb_gt in H
  | H : (_ =? _)%Z = true |- _ => apply Z.eqb_eq in H
  | H : (_ =? _)%Z = false |- _ => apply Z.eqb_neq in H
  | H : (_ <? _)%nat = true |- _ => apply Nat.ltb_lt in H
  | H : (_ <? _)%nat = false |- _ => apply Nat.ltb_ge in H
  | H : (_ <=? _)%nat = true |- _ => apply Nat.leb_le in H
  | H : (_ <=? _)%nat = false |- _ => apply Nat.leb_gt in H
  | H : (_ =? _)%nat = true |- _ => apply Nat.eqb_eq in H
  | H : (_ =? _)%nat = false |- _ => apply Nat.eqb_neq in H
  | H : (_ && _)%bool = true |- _ => apply andb_true_iff in H; destruct H
  | H : (_ || _)%bool = false |- _ => apply orb_false_iff in H; destruct H
  | H : negb _ = true |- _ => apply negb_true_iff in H
  | H : negb _ = false |- _ => apply negb_false_iff in H
  end.

Ltac case_if :=
  match goal with
  | |- context [if ?b then _ else _] =>
      let E := fresh "E" in destruct b eqn:E; bool_facts
  | H : context [if ?b then _ else _] |- _ =>
      let E := fresh "E" in destruct b eqn:E; bool_facts
  end.

(** Equality of returned tuples, component by component. *)
Ltac tuple_eq :=
  repeat match goal with
  | |- Done _ = Done _ => f_equal
  | |- (_, _) = (_, _) => f_equal
  end; try done; simpl; lia.

(** Replace [u64 e] by [e] when [lia] sees that [e] is in range. *)
Lemma u64_small x : 0 <= x < 2 ^ 64 -> u64 x = x.
Proof. intros H. apply Z.mod_small, H. Qed.

Lemma u32_small x : 0 <= x < 2 ^ 32 -> u32 x = x.
Proof. intros H. apply Z.mod_small, H. Qed.

Lemma u64_range x : 0 <= u64 x < 2 ^ 64.
Proof. apply Z.mod_pos_bound. reflexivity. Qed.

Lemma u32_range x : 0 <= u32 x < 2 ^ 32.
Proof. apply Z.mod_pos_bound. reflexivity. Qed.

Lemma u64_idem x : u64 (u64 x) = u64 x.
Proof. apply u64_small, u64_range. Qed.

Lemma u64_add_l x y : u64 (u64 x + y) = u64 (x + y).
Proof. apply Zplus_mod_idemp_l. Qed.

Lemma u64_add_r x y : u64 (x + u64 y) = u64 (x + y).
Proof. apply Zplus_mod_idemp_r. Qed.

Lemma u64_sub_l x y : u64 (u64 x - y) = u64 (x - y).
Proof. apply Zminus_mod_idemp_l. Qed.

Lemma u64_sub_r x y : u64 (x - u64 y) = u64 (x - y).
Proof. apply Zminus_mod_idemp_r. Qed.

#[export] Hint Resolve u64_range u32_range : quest.
#[export] Hint Rewrite u64_idem u64_add_l u64_add_r u64_sub_l u64_sub_r : quest.

Ltac u64_norm := repeat (rewrite u64_small by lia).
Ltac u64_hyps :=
  repeat match goal with
  | H : context [u64 ?e] |- _ => rewrite (u64_small e) in H by lia
  end.

(** ** Powers of two and alignment *)

Definition is_pow2 (a : Z) : Prop := exists k, 0 <= k < 64 /\ a = 2 ^ k.

Lemma is_pow2_PAGE_SIZE : is_pow2 PAGE_SIZE.
Proof. exists 12. split; [lia | reflexivity]. Qed.

Lemma is_pow2_range a : is_pow2 a -> 0 < a < 2 ^ 64.
Proof.
  intros (k & Hk & ->). split.
  - apply Z.pow_pos_nonneg; lia.
  - apply Z.pow_lt_mono_r; lia.
Qed.

Lemma land_lnot_pow2 x k :
  0 <= k -> Z.land x (Z.lnot (2 ^ k - 1)) = x - x mod 2 ^ k.
Proof.
  intros Hk. rewrite <- Z.ldiff_land.
  replace (2 ^ k - 1) with (Z.ones k) by (rewrite Z.ones_equiv; lia).
  rewrite Z.ldiff_ones_r, Z.shiftl_mul_pow2, Z.shiftr_div_pow2 by lia.
  pose proof (Z.div_mod x (2 ^ k)). lia.
Qed.

Lemma lor_split_ldiff x m : Z.lor x m = Z.ldiff x m + m.
Proof.
  assert (H0 : Z.land (Z.ldiff x m) m = 0) by apply Z.land_ldiff.
  rewrite Z.add_nocarry_lxor by exact H0.
  rewrite Z.lxor_lor by exact H0.
  apply Z.bits_inj'. intros n Hn. rewrite !Z.lor_spec, Z.ldiff_spec.
  destruct (Z.testbit x n), (Z.testbit m n); reflexivity.
Qed.

Lemma lor_pow2_pred x k :
  0 <= k -> Z.lor x (2 ^ k - 1) = x - x mod 2 ^ k + 2 ^ k - 1.
Proof.
  intros Hk. rewrite lor_split_ldiff, Z.ldiff_land, land_lnot_pow2 by lia. lia.
Qed.

Lemma align_mask_pow2 x a :
  is_pow2 a -> 0 <= x < 2 ^ 64 -> align_mask x a = x - x mod a.
Proof.
  intros (k & Hk & ->) Hx. unfold align_mask. rewrite land_lnot_pow2 by lia.
  apply u64_small.
  pose proof (Z.mod_le x (2 ^ k)). pose proof (Z.mod_pos_bound x (2 ^ k)).
  assert (0 < 2 ^ k) by (apply Z.pow_pos_nonneg; lia). lia.
Qed.

Lemma mod_sub_mod x a : 0 < a -> (x - x mod a) mod a = 0.
Proof.
  intros Ha. rewrite Zminus_mod_idemp_r, Z.sub_diag. apply Z.mod_0_l. lia.
Qed.

(** [round_down] is the greatest multiple of [a] below [x]. *)
Lemma round_down_spec x a :
  is_pow2 a -> 0 <= x < 2 ^ 64 ->
  round_down x a mod a = 0 /\ round_down x a <= x < round_down x a + a
  /\ 0 <= round_down x a.
Proof.
  intros Ha Hx. pose proof (is_pow2_range a Ha) as Hr.
  unfold round_down. rewrite align_mask_pow2 by assumption.
  pose proof (Z.mod_pos_bound x a). pose proof (Z.mod_le x a).
  split; [apply mod_sub_mod; lia | lia].
Qed.

(** [round_up] is the least multiple of [a] above [x], when it fits. *)
Lemma round_up_val x a :
  is_pow2 a -> 0 < x < 2 ^ 64 ->
  round_up x a = u64 ((x - 1) - (x - 1) mod a + a).
Proof.
  intros (k & Hk & ->) Hx. unfold round_up. rewrite (u64_small (x - 1)) by lia.
  rewrite lor_pow2_pred by lia. f_equal. lia.
Qed.

Lemma round_up_spec x a :
  is_pow2 a -> 0 < x < 2 ^ 64 -> round_up x a <> 0 ->
  round_up x a mod a = 0 /\ x <= round_up x a < x + a.
Proof.
  intros Ha Hx Hne. pose proof (is_pow2_range a Ha) as Hr.
  rewrite round_up_val in * by assumption.
  set (q := (x - 1) - (x - 1) mod a + a) in *.
  assert (Hq : q mod a = 0).
  { unfold q. replace (x - 1 - (x - 1) mod a + a)
      with ((x - 1 - (x - 1) mod a) + 1 * a) by lia.
    rewrite Z_mod_plus_full. apply mod_sub_mod. lia. }
  pose proof (Z.mod_pos_bound (x - 1) a).
  pose proof (Z.mod_le (x - 1) a).
  destruct (Z.lt_ge_cases q (2 ^ 64)) as [Hlt | Hge].
  - rewrite u64_small in * by lia. lia.
  - exfalso. apply Hne. destruct Ha as (k & Hk & Hak).
    assert (Hdiv : (2 ^ 64) mod a = 0).
    { subst a. replace (2 ^ 64) with (2 ^ (64 - k) * 2 ^ k).
      - apply Z.mod_mul. lia.
      - rewrite <- Z.pow_add_r by lia. f_equal. lia. }
    assert (Hq64 : q <= 2 ^ 64).
    { assert (Hz : (x - 1) - (x - 1) mod a <= 2 ^ 64 - a).
      { pose proof (Z.div_mod (x - 1) a). pose proof (Z.div_mod (2 ^ 64) a).
        assert ((x - 1) / a < 2 ^ 64 / a).
        { apply Z.div_lt_upper_bound; lia. }
        assert (a * ((x - 1) / a) <= a * (2 ^ 64 / a - 1))
          by (apply Z.mul_le_mono_nonneg_l; lia).
        lia. }
      lia. }
    replace q with (2 ^ 64) by lia. reflexivity.
Qed.

Lemma testbit_above x k n : 0 <= x < 2 ^ k -> k <= n -> Z.testbit x n = false.
Proof.
  intros Hx Hn. destruct (Z.lt_ge_cases k 0) as [Hk | Hk].
  { rewrite Z.pow_neg_r in Hx by lia. lia. }
  rewrite <- (Z.mod_small x (2 ^ k)) by lia. apply Z.mod_pow2_bits_high. lia.
Qed.

(** Fields that do not overlap can be added. *)
Lemma lor_fields lo hi k : 0 <= k -> 0 <= lo < 2 ^ k -> Z.lor lo (hi * 2 ^ k) = lo + hi * 2 ^ k.
Proof.
  intros Hk Hlo. symmetry. apply Z.add_nocarry_lor. apply Z.bits_inj'. intros n Hn.
  rewrite Z.land_spec, Z.bits_0. rewrite <- Z.shiftl_mul_pow2 by lia.
  destruct (Z.lt_ge_cases n k).
  - rewrite Z.shiftl_spec_low by lia. apply andb_false_r.
  - by rewrite (testbit_above lo k n) by lia.
Qed.

(** ** Generic list lemmas *)

(** [memmove] of [n] elements inside an array. *)
Definition arr_move {A} (dst src n : nat) (l : list A) : list A :=
  take dst l ++ take n (drop src l) ++ drop (dst + n) l.

Lemma length_arr_move {A} dst src n (l : list A) :
  (dst + n <= length l)%nat -> (src + n <= length l)%nat ->
  length (arr_move dst src n l) = length l.
Proof.
  intros Hd Hs. unfold arr_move.
  rewrite !length_app, !length_take, !length_drop. lia.
Qed.
