(* ===== verification/Memblock.v ===== *)
(** * The boot memory allocator: [src/src/mm/memblock.c]

    The data and every operation of the allocator, as the C code writes them:
    region arrays with their live prefix of [cnt] entries, the in-place
    insertion, removal, merging and isolation of regions, the two-array
    iterators over free ranges, the searches built on them, the doubling of
    a full array and the allocation entry points.

    A region array is a list of [tmax] slots.  [memmove] is [arr_move].
    Functions that can hit a [BUG_ON], or that loop, return an [outcome].
    [memblock_double_array], [memblock_add_range] and
    [memblock_isolate_range] call each other: the last two take the doubling
    function as an argument and [memblock_double_array] ties the knot with a
    fuel that bounds the nesting depth. *)

From S2P Require Import Prelude.

(** ** Data *)

Definition PHYS_ADDR_MAX : Z := 2 ^ 64 - 1.
Definition NUMA_NO_NODE : Z := -1.
(** [1 << CONFIG_NODES_SHIFT]. *)
Definition MAX_NUMNODES : Z := 16.
Definition SMP_CACHE_BYTES : Z := 64.
Definition INIT_MEMBLOCK_REGIONS : nat := 128.
(** [sizeof(struct memblock_region)]: two 64-bit and two 32-bit fields. *)
Definition sizeof_region : Z := 24.

Definition MEMBLOCK_ALLOC_ANYWHERE : Z := 2 ^ 64 - 1.
Definition MEMBLOCK_ALLOC_ACCESSIBLE : Z := 0.
Definition MEMBLOCK_ALLOC_NOLEAKTRACE : Z := 1.

Definition MEMBLOCK_NONE : Z := 0.
Definition MEMBLOCK_MIRROR : Z := 2.
Definition MEMBLOCK_NOMAP : Z := 4.
Definition MEMBLOCK_DRIVER_MANAGED : Z := 8.
Definition MEMBLOCK_RSRV_KERN : Z := 32.
Definition MEMBLOCK_KHO_SCRATCH : Z := 64.

Record memblock_region := mkRegion {
  rbase : Z;
  rsize : Z;
  rflags : Z;
  rnid : Z;
}.

(** [tarray] is the address of the region array: [None] for the array that
    is statically allocated in the image. *)
Record memblock_type := mkType {
  tcnt : nat;
  tmax : nat;
  ttotal_size : Z;
  tregions : list memblock_region;
  tarray : option Z;
}.

Record memblock := mkMemblock {
  bottom_up : bool;
  current_limit : Z;
  memory : memblock_type;
  reserved : memblock_type;
  memblock_can_resize : bool;
  system_has_some_mirror : bool;
  memblock_memory_in_slab : Z;
  memblock_reserved_in_slab : Z;
}.

(** The two [struct memblock_type *] the code passes around. *)
Inductive type_ptr := MEMORY | RESERVED.

#[export] Instance type_ptr_eq_dec : EqDecision type_ptr.
Proof. solve_decision. Defined.
#[export] Instance memblock_region_eq_dec : EqDecision memblock_region.
Proof. solve_decision. Defined.

Definition zero_region : memblock_region := mkRegion 0 0 0 0.

#[export] Instance memblock_region_inhabited : Inhabited memblock_region :=
  populate zero_region.

Definition get_type (s : memblock) (p : type_ptr) : memblock_type :=
  match p with MEMORY => memory s | RESERVED => reserved s end.

Definition set_type (s : memblock) (p : type_ptr) (t : memblock_type) : memblock :=
  match p with
  | MEMORY =>
      mkMemblock (bottom_up s) (current_limit s) t (reserved s)
        (memblock_can_resize s) (system_has_some_mirror s)
        (memblock_memory_in_slab s) (memblock_reserved_in_slab s)
  | RESERVED =>
      mkMemblock (bottom_up s) (current_limit s) (memory s) t
        (memblock_can_resize s) (system_has_some_mirror s)
        (memblock_memory_in_slab s) (memblock_reserved_in_slab s)
  end.

Definition set_in_slab (s : memblock) (p : type_ptr) (v : Z) : memblock :=
  match p with
  | MEMORY =>
      mkMemblock (bottom_up s) (current_limit s) (memory s) (reserved s)
        (memblock_can_resize s) (system_has_some_mirror s)
        v (memblock_reserved_in_slab s)
  | RESERVED =>
      mkMemblock (bottom_up s) (current_limit s) (memory s) (reserved s)
        (memblock_can_resize s) (system_has_some_mirror s)
        (memblock_memory_in_slab s) v
  end.

(** The static initialiser: two empty arrays of 128 zeroed slots. *)
Definition init_type : memblock_type :=
  mkType 0 INIT_MEMBLOCK_REGIONS 0 (replicate INIT_MEMBLOCK_REGIONS zero_region) None.

Definition memblock_init : memblock :=
  mkMemblock false MEMBLOCK_ALLOC_ANYWHERE init_type init_type true false 0 0.

(** [type->regions[i]]. *)
Definition region_at (t : memblock_type) (i : nat) : memblock_region :=
  tregions t !!! i.

Definition memblock_allow_resize (s : memblock) : memblock :=
  mkMemblock (bottom_up s) (current_limit s) (memory s) (reserved s)
    true (system_has_some_mirror s)
    (memblock_memory_in_slab s) (memblock_reserved_in_slab s).

(** ** Linear map addresses ([include/memory.h]) *)

Definition RAM_BASE : Z := 0x40000000.
Definition RAM_SIZE : Z := 0x40000000.
Definition PAGE_OFFSET : Z := 2 ^ 64 - 2 ^ 48.
Definition LINER_MAP_OFFSET : Z := PAGE_OFFSET - RAM_BASE.
Definition virt_to_phys (x : Z) : Z := u64 (x - LINER_MAP_OFFSET).
Definition phys_to_virt (x : Z) : Z := u64 (x + LINER_MAP_OFFSET).

(** ** Region arrays *)

Definition memblock_cap_size (base size : Z) : Z :=
  Z.min size (u64 (PHYS_ADDR_MAX - base)).

Definition memblock_insert_region (t : memblock_type) (idx : nat)
    (base size nid flags : Z) : outcome memblock_type :=
  if (tmax t <=? tcnt t)%nat then Bug
  else
    let moved := arr_move (S idx) idx (tcnt t - idx) (tregions t) in
    Done (mkType (S (tcnt t)) (tmax t) (u64 (ttotal_size t + size))
            (<[idx := mkRegion base size flags nid]> moved) (tarray t)).

Definition memblock_remove_region (t : memblock_type) (r : nat) : memblock_type :=
  let total := u64 (ttotal_size t - rsize (region_at t r)) in
  let moved := arr_move r (S r) (tcnt t - S r) (tregions t) in
  let cnt := (tcnt t - 1)%nat in
  if (cnt =? 0)%nat then
    mkType cnt (tmax t) total
      (<[0%nat := mkRegion 0 0 0 MAX_NUMNODES]> moved) (tarray t)
  else mkType cnt (tmax t) total moved (tarray t).

(** [this->size += next->size], the [memmove] over [next], [type->cnt--]. *)
Definition absorb_next (t : memblock_type) (i : nat) : memblock_type :=
  let this := region_at t i in
  let next := region_at t (S i) in
  let this' := mkRegion (rbase this) (u64 (rsize this + rsize next))
                 (rflags this) (rnid this) in
  let regs := <[i := this']> (tregions t) in
  mkType (tcnt t - 1) (tmax t) (ttotal_size t)
    (arr_move (S i) (S (S i)) (tcnt t - (i + 2)) regs) (tarray t).

(** The loop of [memblock_merge_regions]; [end_rgn - i] decreases. *)
Fixpoint merge_loop (fuel : nat) (t : memblock_type) (i end_rgn : nat)
    : outcome memblock_type :=
  match fuel with
  | O => Fuel
  | S fuel' =>
      if (i <? end_rgn)%nat then
        let this := region_at t i in
        let next := region_at t (S i) in
        if negb (u64 (rbase this + rsize this) =? rbase next)
           || negb (rnid this =? rnid next)
           || negb (rflags this =? rflags next)
        then
          if rbase next <? u64 (rbase this + rsize this) then Bug
          else merge_loop fuel' t (S i) end_rgn
        else merge_loop fuel' (absorb_next t i) i (end_rgn - 1)
      else Done t
  end.

Definition memblock_merge_regions (t : memblock_type) (start_rgn end_rgn : nat)
    : outcome memblock_type :=
  let i := (if (start_rgn =? 0)%nat then 0 else start_rgn - 1)%nat in
  let end_rgn :=
    if (tcnt t =? 0)%nat then end_rgn else Nat.min end_rgn (tcnt t - 1) in
  merge_loop (S (end_rgn - i)) t i end_rgn.

(** Split the region at [idx] at the address [at_]: the region becomes the
    top half, and the bottom half is inserted before it. *)
Definition split_region (t : memblock_type) (idx : nat) (at_ : Z) : outcome memblock_type :=
  let rgn := region_at t idx in
  let rb := rbase rgn in
  let rgn' := mkRegion at_ (u64 (rsize rgn - u64 (at_ - rb))) (rflags rgn) (rnid rgn) in
  let t1 := mkType (tcnt t) (tmax t) (u64 (ttotal_size t - u64 (at_ - rb)))
              (<[idx := rgn']> (tregions t)) (tarray t) in
  memblock_insert_region t1 idx rb (u64 (at_ - rb)) (rnid rgn') (rflags rgn').

(** The loop of [memblock_isolate_range].  The result is the array and the
    two out parameters.  A split from above redoes the same index. *)
Fixpoint isolate_loop (fuel : nat) (t : memblock_type) (idx : nat)
    (base end_ : Z) (start_rgn end_rgn : nat)
    : outcome (memblock_type * nat * nat) :=
  match fuel with
  | O => Fuel
  | S fuel' =>
      if (idx <? tcnt t)%nat then
        let rgn := region_at t idx in
        let rb := rbase rgn in
        let rend := u64 (rb + rsize rgn) in
        if end_ <=? rb then Done (t, start_rgn, end_rgn)
        else if rend <=? base then
          isolate_loop fuel' t (S idx) base end_ start_rgn end_rgn
        else if rb <? base then
          let! t2 := split_region t idx base in
          isolate_loop fuel' t2 (S idx) base end_ start_rgn end_rgn
        else if end_ <? rend then
          let! t2 := split_region t idx end_ in
          isolate_loop fuel' t2 idx base end_ start_rgn end_rgn
        else
          isolate_loop fuel' t (S idx) base end_
            (if (end_rgn =? 0)%nat then idx else start_rgn) (S idx)
      else Done (t, start_rgn, end_rgn)
  end.

(** The removal loop of [memblock_remove_range], from [end_rgn - 1] down to
    [start_rgn]; [n] is the number of regions left to remove. *)
Fixpoint remove_regions (t : memblock_type) (start_rgn n : nat) : memblock_type :=
  match n with
  | O => t
  | S n' => remove_regions (memblock_remove_region t (start_rgn + n')) start_rgn n'
  end.

(** One pass of [memblock_add_range] over the array: with [insert] false it
    only counts.  The result is the array, the index and the base where the
    scan stopped, the number of new regions, and the merge window. *)
Fixpoint add_loop (fuel : nat) (insert : bool) (t : memblock_type) (idx : nat)
    (base end_ nid flags : Z) (nr_new : nat) (start_rgn end_rgn : Z)
    : outcome (memblock_type * nat * Z * nat * Z * Z) :=
  match fuel with
  | O => Fuel
  | S fuel' =>
      if (idx <? tcnt t)%nat then
        let rgn := region_at t idx in
        let rb := rbase rgn in
        let rend := u64 (rb + rsize rgn) in
        if end_ <=? rb then Done (t, idx, base, nr_new, start_rgn, end_rgn)
        else if rend <=? base then
          add_loop fuel' insert t (S idx) base end_ nid flags nr_new start_rgn end_rgn
        else if base <? rb then
          if insert then
            let! t' := memblock_insert_region t idx base (u64 (rb - base)) nid flags in
            add_loop fuel' insert t' (S (S idx)) (Z.min rend end_) end_ nid flags
              (S nr_new) (if start_rgn =? -1 then Z.of_nat idx else start_rgn)
              (Z.of_nat idx + 1)
          else
            add_loop fuel' insert t (S idx) (Z.min rend end_) end_ nid flags
              (S nr_new) start_rgn end_rgn
        else
          add_loop fuel' insert t (S idx) (Z.min rend end_) end_ nid flags
            nr_new start_rgn end_rgn
      else Done (t, idx, base, nr_new, start_rgn, end_rgn)
  end.

(** The pass with its tail, "insert the remaining portion". *)
Definition add_pass (insert : bool) (t : memblock_type) (base end_ nid flags : Z)
    : outcome (memblock_type * nat * Z * Z) :=
  let! (t1, idx, base1, nr_new, start_rgn, end_rgn) :=
    add_loop (S (tcnt t)) insert t 0 base end_ nid flags 0 (-1) (-1) in
  if base1 <? end_ then
    if insert then
      let start_rgn := if start_rgn =? -1 then Z.of_nat idx else start_rgn in
      let! t2 := memblock_insert_region t1 idx base1 (u64 (end_ - base1)) nid flags in
      Done (t2, S nr_new, start_rgn, Z.of_nat idx + 1)
    else Done (t1, S nr_new, start_rgn, end_rgn)
  else Done (t1, nr_new, start_rgn, end_rgn).

(** The pass with [insert] set and what follows it in the code. *)
Definition add_commit (t : memblock_type) (base end_ nid flags : Z)
    : outcome memblock_type :=
  let! (t1, nr_new, start_rgn, end_rgn) := add_pass true t base end_ nid flags in
  if (nr_new =? 0)%nat then Done t1
  else memblock_merge_regions t1 (Z.to_nat start_rgn) (Z.to_nat end_rgn).

(** ** Operations that may resize an array *)

(** [memblock_double_array(type, start, size)]: return code and state. *)
Definition double_fn : Type := memblock -> type_ptr -> Z -> Z -> outcome (Z * memblock).

(** [while (type->cnt + extra > type->max) if (double < 0) return -ENOMEM].
    The array at least doubles at each turn, so 64 turns exhaust the 64-bit
    address space. *)
Fixpoint grow_loop (fuel : nat) (dbl : double_fn) (s : memblock) (p : type_ptr)
    (extra : nat) (start size : Z) : outcome (Z * memblock) :=
  match fuel with
  | O => Fuel
  | S fuel' =>
      if (tmax (get_type s p) <? tcnt (get_type s p) + extra)%nat then
        let! (r, s') := dbl s p start size in
        if r <? 0 then Done (- ENOMEM, s')
        else grow_loop fuel' dbl s' p extra start size
      else Done (0, s)
  end.

Definition GROW_FUEL : nat := 64.

Definition memblock_isolate_range (dbl : double_fn) (s : memblock) (p : type_ptr)
    (base size : Z) : outcome (Z * memblock * nat * nat) :=
  let size := memblock_cap_size base size in
  let end_ := u64 (base + size) in
  if size =? 0 then Done (0, s, 0%nat, 0%nat)
  else
    let! (r, s1) := grow_loop GROW_FUEL dbl s p 2 base size in
    if r <? 0 then Done (r, s1, 0%nat, 0%nat)
    else
      let t := get_type s1 p in
      let! (t', start_rgn, end_rgn) :=
        isolate_loop (tcnt t + 4) t 0 base end_ 0 0 in
      Done (0, set_type s1 p t', start_rgn, end_rgn).

Definition memblock_remove_range (dbl : double_fn) (s : memblock) (p : type_ptr)
    (base size : Z) : outcome (Z * memblock) :=
  let! (ret, s1, start_rgn, end_rgn) := memblock_isolate_range dbl s p base size in
  if negb (ret =? 0) then Done (ret, s1)
  else Done (0, set_type s1 p
                  (remove_regions (get_type s1 p) start_rgn (end_rgn - start_rgn))).

Definition memblock_add_range (dbl : double_fn) (s : memblock) (p : type_ptr)
    (base size nid flags : Z) : outcome (Z * memblock) :=
  let obase := base in
  let size := memblock_cap_size base size in
  let end_ := u64 (base + size) in
  let t := get_type s p in
  if size =? 0 then Done (0, s)
  else if rsize (region_at t 0) =? 0 then
    Done (0, set_type s p
               (mkType 1 (tmax t) size
                  (<[0%nat := mkRegion base size flags nid]> (tregions t)) (tarray t)))
  else if (tcnt t * 2 + 1 <=? tmax t)%nat then
    let! t2 := add_commit t base end_ nid flags in
    Done (0, set_type s p t2)
  else
    let! (_, nr_new, _, _) := add_pass false t base end_ nid flags in
    if (nr_new =? 0)%nat then Done (0, s)
    else
      let! (r, s1) := grow_loop GROW_FUEL dbl s p nr_new obase size in
      if r <? 0 then Done (r, s1)
      else
        let! t2 := add_commit (get_type s1 p) base end_ nid flags in
        Done (0, set_type s1 p t2).

(** ** Iteration over ranges *)

Definition memblock_is_mirror (m : memblock_region) : bool :=
  negb (Z.land (rflags m) MEMBLOCK_MIRROR =? 0).
Definition memblock_is_nomap (m : memblock_region) : bool :=
  negb (Z.land (rflags m) MEMBLOCK_NOMAP =? 0).
Definition memblock_is_driver_managed (m : memblock_region) : bool :=
  negb (Z.land (rflags m) MEMBLOCK_DRIVER_MANAGED =? 0).
Definition memblock_is_kho_scratch (m : memblock_region) : bool :=
  negb (Z.land (rflags m) MEMBLOCK_KHO_SCRATCH =? 0).

Definition numa_valid_node (nid : Z) : bool := (0 <=? nid) && (nid <? MAX_NUMNODES).

Definition has_flag (flags f : Z) : bool := negb (Z.land flags f =? 0).

Definition choose_memblock_flags (s : memblock) : Z :=
  if system_has_some_mirror s then MEMBLOCK_MIRROR else MEMBLOCK_NONE.

Definition should_skip_region (p : type_ptr) (m : memblock_region) (nid flags : Z) : bool :=
  if bool_decide (p = RESERVED) then false
  else if numa_valid_node nid && negb (nid =? rnid m) then true
  else if has_flag flags MEMBLOCK_MIRROR && negb (memblock_is_mirror m) then true
  else if negb (has_flag flags MEMBLOCK_NOMAP) && memblock_is_nomap m then true
  else if negb (has_flag flags MEMBLOCK_DRIVER_MANAGED) && memblock_is_driver_managed m
  then true
  else if has_flag flags MEMBLOCK_KHO_SCRATCH && negb (memblock_is_kho_scratch m)
  then true
  else false.

(** The loop variable packs the two indices in one [u64]. *)
Definition pack_idx (idx_a idx_b : Z) : Z :=
  Z.lor (u32 idx_a) (u64 (Z.shiftl (u64 idx_b) 32)).
Definition idx_a_of (idx : Z) : Z := s32 (Z.land idx 0xffffffff).
Definition idx_b_of (idx : Z) : Z := s32 (Z.shiftr idx 32).

(** The area before reserved region [j]: [r_start] and [r_end]. *)
Definition gap_start (t : memblock_type) (j : nat) : Z :=
  match j with
  | O => 0
  | S j' => u64 (rbase (region_at t j') + rsize (region_at t j'))
  end.
Definition gap_end (t : memblock_type) (j : nat) : Z :=
  if (j <? tcnt t)%nat then rbase (region_at t j) else PHYS_ADDR_MAX.

(** What a scan over the areas of [type_b] ends with: leave the loop at an
    index, or stop at an index whose area intersects the region. *)
Inductive scan_result :=
  | ScanNext (idx_b : Z)
  | ScanFound (idx_b : nat).

(** [for (; idx_b < type_b->cnt + 1; idx_b++)], [n] turns left. *)
Fixpoint scan_fwd (n : nat) (tb : memblock_type) (idx_b : nat) (m_start m_end : Z)
    : scan_result :=
  match n with
  | O => ScanNext (Z.of_nat idx_b)
  | S n' =>
      if m_end <=? gap_start tb idx_b then ScanNext (Z.of_nat idx_b)
      else if m_start <? gap_end tb idx_b then ScanFound idx_b
      else scan_fwd n' tb (S idx_b) m_start m_end
  end.

(** [for (; idx_a < type_a->cnt; idx_a++)], [n] turns left.  The result is
    the new loop variable and the range found. *)
Fixpoint next_fwd (n : nat) (s : memblock) (idx_a : nat) (idx_b : Z) (nid flags : Z)
    (pa : type_ptr) (pb : option type_ptr) : Z * option (Z * Z * Z) :=
  match n with
  | O => (ULLONG_MAX, None)
  | S n' =>
      let m := region_at (get_type s pa) idx_a in
      let m_start := rbase m in
      let m_end := u64 (rbase m + rsize m) in
      if should_skip_region pa m nid flags then
        next_fwd n' s (S idx_a) idx_b nid flags pa pb
      else
        match pb with
        | None =>
            (pack_idx (Z.of_nat (S idx_a)) idx_b, Some (m_start, m_end, rnid m))
        | Some pb' =>
            let tb := get_type s pb' in
            match scan_fwd (tcnt tb + 1 - Z.to_nat idx_b) tb (Z.to_nat idx_b)
                    m_start m_end with
            | ScanNext idx_b' => next_fwd n' s (S idx_a) idx_b' nid flags pa pb
            | ScanFound j =>
                let r_start := gap_start tb j in
                let r_end := gap_end tb j in
                let idx' :=
                  if m_end <=? r_end then pack_idx (Z.of_nat (S idx_a)) (Z.of_nat j)
                  else pack_idx (Z.of_nat idx_a) (Z.of_nat (S j)) in
                (idx', Some (Z.max m_start r_start, Z.min m_end r_end, rnid m))
            end
        end
  end.

Definition __next_mem_range (s : memblock) (idx nid flags : Z) (pa : type_ptr)
    (pb : option type_ptr) : Z * option (Z * Z * Z) :=
  let idx_a := Z.to_nat (idx_a_of idx) in
  next_fwd (tcnt (get_type s pa) - idx_a) s idx_a (idx_b_of idx) nid flags pa pb.

(** [for (; idx_b >= 0; idx_b--)]: [n] is [idx_b + 1]. *)
Fixpoint scan_rev (n : nat) (tb : memblock_type) (m_start m_end : Z) : scan_result :=
  match n with
  | O => ScanNext (-1)
  | S idx_b =>
      if gap_end tb idx_b <=? m_start then ScanNext (Z.of_nat idx_b)
      else if gap_start tb idx_b <? m_end then ScanFound idx_b
      else scan_rev idx_b tb m_start m_end
  end.

(** [for (; idx_a >= 0; idx_a--)]: [n] is [idx_a + 1]. *)
Fixpoint next_rev (n : nat) (s : memblock) (idx_b : Z) (nid flags : Z)
    (pa : type_ptr) (pb : option type_ptr) : Z * option (Z * Z * Z) :=
  match n with
  | O => (ULLONG_MAX, None)
  | S idx_a =>
      let m := region_at (get_type s pa) idx_a in
      let m_start := rbase m in
      let m_end := u64 (rbase m + rsize m) in
      if should_skip_region pa m nid flags then next_rev idx_a s idx_b nid flags pa pb
      else
        match pb with
        | None =>
            (pack_idx (Z.of_nat idx_a - 1) idx_b, Some (m_start, m_end, rnid m))
        | Some pb' =>
            let tb := get_type s pb' in
            match scan_rev (Z.to_nat (idx_b + 1)) tb m_start m_end with
            | ScanNext idx_b' => next_rev idx_a s idx_b' nid flags pa pb
            | ScanFound j =>
                let r_start := gap_start tb j in
                let r_end := gap_end tb j in
                let idx' :=
                  if r_start <=? m_start
                  then pack_idx (Z.of_nat idx_a - 1) (Z.of_nat j)
                  else pack_idx (Z.of_nat idx_a) (Z.of_nat j - 1) in
                (idx', Some (Z.max m_start r_start, Z.min m_end r_end, rnid m))
            end
        end
  end.

Definition __next_mem_range_rev (s : memblock) (idx nid flags : Z) (pa : type_ptr)
    (pb : option type_ptr) : Z * option (Z * Z * Z) :=
  let '(idx_a, idx_b) :=
    if idx =? ULLONG_MAX then
      (Z.of_nat (tcnt (get_type s pa)) - 1,
       match pb with Some pb' => Z.of_nat (tcnt (get_type s pb')) | None => 0 end)
    else (idx_a_of idx, idx_b_of idx) in
  next_rev (Z.to_nat (idx_a + 1)) s idx_b nid flags pa pb.

(** ** Searching free areas *)

Definition clamp (v lo hi : Z) : Z := Z.min (Z.max v lo) hi.

(** The bodies of the two search loops: a candidate, or go on. *)
Definition cand_bottom_up (start end_ size align ts te : Z) : option Z :=
  let this_start := clamp ts start end_ in
  let this_end := clamp te start end_ in
  let cand := round_up this_start align in
  if (cand <? this_end) && (size <=? u64 (this_end - cand)) then Some cand else None.

Definition cand_top_down (start end_ size align ts te : Z) : option Z :=
  let this_start := clamp ts start end_ in
  let this_end := clamp te start end_ in
  if this_end <? size then None
  else
    let cand := round_down (u64 (this_end - size)) align in
    if this_start <=? cand then Some cand else None.

(** [for (i = i0, next(&i); i != ULLONG_MAX; next(&i)) body]. *)
Fixpoint for_each_range (fuel : nat) (next : Z -> Z * option (Z * Z * Z))
    (body : Z -> Z -> option Z) (idx : Z) : outcome Z :=
  match fuel with
  | O => Fuel
  | S fuel' =>
      match next idx with
      | (idx', Some (ts, te, _)) =>
          if idx' =? ULLONG_MAX then Done 0
          else
            match body ts te with
            | Some cand => Done cand
            | None => for_each_range fuel' next body idx'
            end
      | (_, None) => Done 0
      end
  end.

(** At most one range per region and per area is produced. *)
Definition range_fuel (s : memblock) : nat :=
  tcnt (memory s) + tcnt (reserved s) + 3.

Definition __memblock_find_range_bottom_up (s : memblock)
    (start end_ size align nid flags : Z) : outcome Z :=
  for_each_range (range_fuel s)
    (fun idx => __next_mem_range s idx nid flags MEMORY (Some RESERVED))
    (cand_bottom_up start end_ size align) 0.

Definition __memblock_find_range_top_down (s : memblock)
    (start end_ size align nid flags : Z) : outcome Z :=
  for_each_range (range_fuel s)
    (fun idx => __next_mem_range_rev s idx nid flags MEMORY (Some RESERVED))
    (cand_top_down start end_ size align) ULLONG_MAX.

Definition memblock_find_in_range_node (s : memblock)
    (size align start end_ nid flags : Z) : outcome Z :=
  let end_ :=
    if (end_ =? MEMBLOCK_ALLOC_ACCESSIBLE) || (end_ =? MEMBLOCK_ALLOC_NOLEAKTRACE)
    then current_limit s else end_ in
  let start := Z.max start PAGE_SIZE in
  let end_ := Z.max start end_ in
  if bottom_up s
  then __memblock_find_range_bottom_up s start end_ size align nid flags
  else __memblock_find_range_top_down s start end_ size align nid flags.

Definition memblock_find_in_range (s : memblock) (start end_ size align : Z)
    : outcome Z :=
  let flags := choose_memblock_flags s in
  let! ret := memblock_find_in_range_node s size align start end_ NUMA_NO_NODE flags in
  if (ret =? 0) && has_flag flags MEMBLOCK_MIRROR then
    memblock_find_in_range_node s size align start end_ NUMA_NO_NODE
      (Z.land flags (Z.lnot MEMBLOCK_MIRROR))
  else Done ret.

(** ** Doubling a region array *)

Definition memblock_phys_free (dbl : double_fn) (s : memblock) (base size : Z)
    : outcome (Z * memblock) :=
  memblock_remove_range dbl s RESERVED base size.

Definition memblock_free (dbl : double_fn) (s : memblock) (ptr size : Z)
    : outcome memblock :=
  if ptr =? 0 then Done s
  else let! (_, s') := memblock_phys_free dbl s (virt_to_phys ptr) size in Done s'.

Definition __memblock_reserve (dbl : double_fn) (s : memblock)
    (base size nid flags : Z) : outcome (Z * memblock) :=
  memblock_add_range dbl s RESERVED base size nid flags.

Definition memblock_reserve_kern (dbl : double_fn) (s : memblock) (base size : Z) :=
  __memblock_reserve dbl s base size NUMA_NO_NODE MEMBLOCK_RSRV_KERN.

(** The part of the doubling that moves the array: [memcpy], [memset],
    [type->max <<= 1]. *)
Definition move_array (t : memblock_type) (new_array : Z) : memblock_type :=
  mkType (tcnt t) (2 * tmax t) (ttotal_size t)
    (tregions t ++ replicate (tmax t) zero_region) (Some new_array).

Fixpoint memblock_double_array (fuel : nat) : double_fn :=
  fun s p new_area_start new_area_size =>
  match fuel with
  | O => Fuel
  | S fuel' =>
      if negb (memblock_can_resize s) then Done (-1, s)
      else
        let t := get_type s p in
        let old_size := u64 (Z.of_nat (tmax t) * sizeof_region) in
        let new_size := u64 (Z.shiftl old_size 1) in
        let old_alloc_size := PAGE_ALIGN old_size in
        let new_alloc_size := PAGE_ALIGN new_size in
        let '(new_area_start, new_area_size) :=
          match p with
          | MEMORY => (0, 0)
          | RESERVED => (new_area_start, new_area_size)
          end in
        let! addr0 :=
          memblock_find_in_range s (u64 (new_area_start + new_area_size))
            (current_limit s) new_alloc_size PAGE_SIZE in
        let! addr :=
          if (addr0 =? 0) && negb (new_area_size =? 0) then
            memblock_find_in_range s 0 (Z.min new_area_start (current_limit s))
              new_alloc_size PAGE_SIZE
          else Done addr0 in
        if addr =? 0 then Done (-1, s)
        else
          let s1 := set_type s p (move_array t (phys_to_virt addr)) in
          let! s2 :=
            match tarray t with
            | None => Done s1
            | Some old_array =>
                memblock_free (memblock_double_array fuel') s1 old_array old_alloc_size
            end in
          let! (r, s3) :=
            memblock_reserve_kern (memblock_double_array fuel') s2 addr new_alloc_size in
          if negb (r =? 0) then Bug
          else Done (0, set_in_slab s3 p 0)
  end.

(** ** Entry points *)

(** Nesting depth of array doublings: doubling the memory array can double
    the reserved array once, which then has room for its own entries. *)
Definition DOUBLE_FUEL : nat := 8.
Definition dbl_array : double_fn := memblock_double_array DOUBLE_FUEL.

Definition memblock_reserve (s : memblock) (base size : Z) : outcome (Z * memblock) :=
  __memblock_reserve dbl_array s base size NUMA_NO_NODE 0.

Definition memblock_add (s : memblock) (base size : Z) : outcome (Z * memblock) :=
  memblock_add_range dbl_array s MEMORY base size MAX_NUMNODES 0.

(** One turn of the [again:] loop of [memblock_alloc_range_nid]: the
    allocated address, or 0 when this turn found nothing. *)
Definition alloc_attempt (s : memblock) (size align start end_ nid : Z)
    (exact_nid : bool) (flags : Z) : outcome (Z * memblock) :=
  let! found := memblock_find_in_range_node s size align start end_ nid flags in
  let! (ok, s1) :=
    if found =? 0 then Done (false, s)
    else
      let! (r, s1) := __memblock_reserve dbl_array s found size nid MEMBLOCK_RSRV_KERN in
      Done (r =? 0, s1) in
  if (ok : bool) then Done (found, s1)
  else if numa_valid_node nid && negb exact_nid then
    let! found := memblock_find_in_range_node s1 size align start end_ NUMA_NO_NODE flags in
    if found =? 0 then Done (0, s1)
    else
      let! (r, s2) := memblock_reserve_kern dbl_array s1 found size in
      if r =? 0 then Done (found, s2) else Done (0, s2)
  else Done (0, s1).

Definition memblock_alloc_range_nid (s : memblock) (size align start end_ nid : Z)
    (exact_nid : bool) : outcome (Z * memblock) :=
  let flags := choose_memblock_flags s in
  let align := if align =? 0 then SMP_CACHE_BYTES else align in
  let! (found, s1) := alloc_attempt s size align start end_ nid exact_nid flags in
  if negb (found =? 0) then Done (found, s1)
  else if has_flag flags MEMBLOCK_MIRROR then
    alloc_attempt s1 size align start end_ nid exact_nid
      (Z.land flags (Z.lnot MEMBLOCK_MIRROR))
  else Done (0, s1).

Definition memblock_phys_alloc_range (s : memblock) (size align start end_ : Z)
    : outcome (Z * memblock) :=
  memblock_alloc_range_nid s size align start end_ NUMA_NO_NODE false.

(** Test scenario: 1 GiB of RAM with the kernel image reserved. *)
Example memblock_smoke :
  (let! (_, s) := memblock_add memblock_init RAM_BASE RAM_SIZE in
   let! (_, s) := memblock_reserve s 0x70000000 0x200000 in
   let! (a, s) := memblock_phys_alloc_range s 4096 4096 0 0 in
   let! (b, s) := memblock_phys_alloc_range s 100 0 0 0 in
   Done (a, b, map (fun r => (rbase r, rsize r)) (take (tcnt (reserved s)) (tregions (reserved s)))))
  = Done (0x7ffff000, 0x7fffef80, [(0x70000000, 0x200000); (0x7fffef80, 100); (0x7ffff000, 4096)]).
Proof. vm_compute. reflexivity. Qed.
