(* ===== verification/MemblockList.v ===== *)
(** * Sorted region lists: the reference model of the memblock arrays

    The live prefix of a region array is a list of non-empty, disjoint
    regions in increasing order ([sorted_from]).  This file states what a
    list covers, the reference versions of the three list transformations of
    memblock ([fill]: add a range around existing regions, [cut]: take a
    range away, merging of neighbours) and their laws. *)

From S2P Require Import Prelude Memblock.

(** ** Well-formed lists *)

Definition rend (r : memblock_region) : Z := rbase r + rsize r.

Fixpoint sorted_from (lo : Z) (l : list memblock_region) : Prop :=
  match l with
  | [] => True
  | r :: l' =>
      lo <= rbase r /\ 0 < rsize r /\ rend r <= PHYS_ADDR_MAX /\ sorted_from (rend r) l'
  end.

Fixpoint covered (l : list memblock_region) (a : Z) : Prop :=
  match l with
  | [] => False
  | r :: l' => rbase r <= a < rend r \/ covered l' a
  end.

Fixpoint sum_sizes (l : list memblock_region) : Z :=
  match l with
  | [] => 0
  | r :: l' => rsize r + sum_sizes l'
  end.

(** The largest end of a list whose regions start at [lo] or above. *)
Fixpoint last_end (lo : Z) (l : list memblock_region) : Z :=
  match l with
  | [] => lo
  | r :: l' => last_end (rend r) l'
  end.

Definition mergeable (r1 r2 : memblock_region) : Prop :=
  rend r1 = rbase r2 /\ rnid r1 = rnid r2 /\ rflags r1 = rflags r2.

(** No two neighbours can be merged. *)
Fixpoint minimal (l : list memblock_region) : Prop :=
  match l with
  | r1 :: ((r2 :: _) as l') => ~ mergeable r1 r2 /\ minimal l'
  | _ => True
  end.

Lemma sorted_from_weaken lo lo' l : lo' <= lo -> sorted_from lo l -> sorted_from lo' l.
Proof. destruct l; simpl; [done |]. intros. intuition lia. Qed.

Lemma sorted_from_app lo l1 l2 :
  sorted_from lo (l1 ++ l2) <-> sorted_from lo l1 /\ sorted_from (last_end lo l1) l2.
Proof.
  revert lo. induction l1 as [|r l1 IH]; intros lo; simpl; [tauto |].
  rewrite IH. tauto.
Qed.

Lemma last_end_app lo l1 l2 : last_end lo (l1 ++ l2) = last_end (last_end lo l1) l2.
Proof. revert lo. induction l1; simpl; auto. Qed.

Lemma last_end_bounds lo l :
  sorted_from lo l -> lo <= last_end lo l /\ (lo <= PHYS_ADDR_MAX -> last_end lo l <= PHYS_ADDR_MAX).
Proof.
  revert lo. induction l as [|r l IH]; intros lo; simpl; [lia |].
  intros (H1 & H2 & H3 & H4). specialize (IH _ H4). unfold rend in *. lia.
Qed.

Lemma covered_app l1 l2 a : covered (l1 ++ l2) a <-> covered l1 a \/ covered l2 a.
Proof. induction l1; simpl; [tauto |]. rewrite IHl1. tauto. Qed.

Lemma covered_bounds lo l a : sorted_from lo l -> covered l a -> lo <= a < last_end lo l.
Proof.
  revert lo. induction l as [|r l IH]; intros lo; simpl; [done |].
  intros (H1 & H2 & H3 & H4) [Ha | Ha].
  - pose proof (last_end_bounds _ _ H4). lia.
  - specialize (IH _ H4 Ha). unfold rend in *. lia.
Qed.

Lemma covered_elem l a :
  covered l a <-> exists r, r ∈ l /\ rbase r <= a < rend r.
Proof.
  induction l as [|r l IH]; simpl.
  - split; [done |]. intros (r & Hr & _). by apply elem_of_nil in Hr.
  - rewrite IH. split.
    + intros [H | (r' & Hr' & H)].
      * exists r. split; [apply elem_of_cons; auto | done].
      * exists r'. split; [apply elem_of_cons; auto | done].
    + intros (r' & [-> | Hr']%elem_of_cons & H); eauto.
Qed.

Lemma sum_sizes_app l1 l2 : sum_sizes (l1 ++ l2) = sum_sizes l1 + sum_sizes l2.
Proof. induction l1; simpl; lia. Qed.

Lemma sum_sizes_bounds lo l :
  sorted_from lo l -> 0 <= sum_sizes l <= last_end lo l - lo.
Proof.
  revert lo. induction l as [|r l IH]; intros lo; simpl; [lia |].
  intros (H1 & H2 & H3 & H4). specialize (IH _ H4). unfold rend in *. lia.
Qed.

Lemma minimal_cons r1 r2 l : minimal (r1 :: r2 :: l) <-> ~ mergeable r1 r2 /\ minimal (r2 :: l).
Proof. reflexivity. Qed.

Lemma minimal_tail r l : minimal (r :: l) -> minimal l.
Proof. destruct l; simpl; tauto. Qed.

Lemma minimal_app_r l1 l2 : minimal (l1 ++ l2) -> minimal l2.
Proof. induction l1; simpl; [done |]. intros H. apply IHl1, (minimal_tail _ _ H). Qed.

Lemma minimal_app_l l1 l2 : minimal (l1 ++ l2) -> minimal l1.
Proof.
  induction l1 as [|r1 [|r2 l1] IH]; simpl; try done.
  intros (H1 & H2). split; [done |]. apply IH, H2.
Qed.

(** Two minimal lists that overlap in one element make a minimal list. *)
Lemma minimal_glue l1 r l2 : minimal (l1 ++ [r]) -> minimal (r :: l2) -> minimal (l1 ++ r :: l2).
Proof.
  induction l1 as [|r1 [|r2 l1] IH]; simpl; try done.
  - intros (H1 & _) H2. split; done.
  - intros (H1 & H2) H3. split; [done |]. apply IH; done.
Qed.

(** Sorted lists survive arithmetic at 64 bits. *)
Lemma sorted_rend_u64 lo r l :
  0 <= lo -> sorted_from lo (r :: l) -> u64 (rbase r + rsize r) = rend r.
Proof.
  simpl. unfold rend, PHYS_ADDR_MAX. intros H0 (H1 & H2 & H3 & _).
  apply u64_small. lia.
Qed.

(** ** Adding a range *)

Section Fill.
Context (end_ nid flags : Z).

Definition gap_region (base stop : Z) : memblock_region :=
  mkRegion base (stop - base) flags nid.

(** One scan: the regions kept and inserted so far, the regions after the
    range, and the part of the range that is left. *)
Fixpoint fill_scan (l : list memblock_region) (base : Z)
    : list memblock_region * list memblock_region * Z :=
  match l with
  | [] => ([], [], base)
  | r :: l' =>
      if end_ <=? rbase r then ([], r :: l', base)
      else if rend r <=? base then
        let '(m, s, b) := fill_scan l' base in (r :: m, s, b)
      else
        let '(m, s, b) := fill_scan l' (Z.min (rend r) end_) in
        ((if base <? rbase r then [gap_region base (rbase r)] else []) ++ r :: m, s, b)
  end.

Definition fill (l : list memblock_region) (base : Z) : list memblock_region :=
  let '(m, s, b) := fill_scan l base in
  m ++ (if b <? end_ then [gap_region b end_] else []) ++ s.

(** The number of regions a scan inserts. *)
Fixpoint gaps (l : list memblock_region) (base : Z) : nat :=
  match l with
  | [] => 0%nat
  | r :: l' =>
      if end_ <=? rbase r then 0%nat
      else if rend r <=? base then gaps l' base
      else ((if (base <? rbase r)%Z then 1 else 0) + gaps l' (Z.min (rend r) end_))%nat
  end.

Lemma fill_scan_length l base :
  let '(m, s, b) := fill_scan l base in
  length (m ++ s) = (length l + gaps l base)%nat /\ (gaps l base <= length l)%nat.
Proof.
  revert base. induction l as [|r l IH]; intros base; simpl; [lia |].
  case_if; [simpl; lia |]. case_if.
  - specialize (IH base). destruct (fill_scan l base) as [[m s] b]. simpl. lia.
  - specialize (IH (Z.min (rend r) end_)).
    destruct (fill_scan l (Z.min (rend r) end_)) as [[m s] b].
    case_if; simpl; lia.
Qed.

Lemma fill_nil base : fill [] base = if base <? end_ then [gap_region base end_] else [].
Proof. unfold fill. simpl. by rewrite app_nil_r. Qed.

Lemma fill_cons r l base :
  fill (r :: l) base =
    if end_ <=? rbase r
    then (if base <? end_ then [gap_region base end_] else []) ++ r :: l
    else if rend r <=? base then r :: fill l base
    else (if base <? rbase r then [gap_region base (rbase r)] else [])
         ++ r :: fill l (Z.min (rend r) end_).
Proof.
  unfold fill. simpl. case_if; [done |]. case_if.
  - by destruct (fill_scan l base) as [[m s] b].
  - destruct (fill_scan l (Z.min (rend r) end_)) as [[m s] b].
    by rewrite <- app_assoc.
Qed.

(** The filled list is sorted. *)
Lemma fill_sorted l lo base :
  sorted_from lo l -> base <= end_ -> end_ <= PHYS_ADDR_MAX ->
  lo <= base \/ base = end_ ->
  sorted_from lo (fill l base).
Proof.
  revert lo base. induction l as [|r l IH]; intros lo base Hs Hbe Hmax Hlo.
  - rewrite fill_nil. case_if; simpl; [| done].
    unfold gap_region, rend; simpl. repeat split; lia.
  - rewrite fill_cons. simpl in Hs. destruct Hs as (H1 & H2 & H3 & H4).
    case_if; [| case_if].
    + case_if; simpl; unfold gap_region, rend in *; simpl; repeat split; try lia; try done.
    + simpl. repeat split; try done. apply IH; try done. lia.
    + assert (Hrec : sorted_from (rend r) (fill l (Z.min (rend r) end_)))
        by (apply IH; try done; lia).
      case_if; simpl; unfold gap_region, rend in *; simpl; repeat split; try lia; try done.
Qed.

(** The filled list covers the old regions and the range. *)
Lemma fill_covered l lo base a :
  sorted_from lo l -> base <= end_ ->
  covered (fill l base) a <-> covered l a \/ base <= a < end_.
Proof.
  revert lo base. induction l as [|r l IH]; intros lo base Hs Hbe.
  - rewrite fill_nil. case_if; simpl; unfold gap_region, rend; simpl; lia.
  - rewrite fill_cons. simpl in Hs. destruct Hs as (H1 & H2 & H3 & H4).
    case_if; [| case_if].
    + rewrite covered_app. case_if; simpl; unfold gap_region, rend; simpl; intuition lia.
    + simpl. rewrite (IH (rend r)) by (try done; lia). tauto.
    + rewrite covered_app. simpl. rewrite (IH (rend r)) by (try done; lia).
      unfold rend in *.
      case_if; simpl; unfold gap_region, rend; simpl; intuition lia.
Qed.

(** A scan that inserts nothing leaves the list as it is. *)
Lemma fill_scan_id l base :
  gaps l base = 0%nat -> let '(m, s, _) := fill_scan l base in m ++ s = l.
Proof.
  revert base. induction l as [|r l IH]; intros base; simpl; [done |].
  case_if; [done |]. case_if.
  - intros Hg. specialize (IH base Hg). destruct (fill_scan l base) as [[m s] b].
    simpl. by f_equal.
  - case_if; simpl; [done |]. intros Hg. specialize (IH _ Hg).
    destruct (fill_scan l (Z.min (rend r) end_)) as [[m s] b]. simpl. by f_equal.
Qed.

Lemma fill_length l base :
  length (fill l base) =
    let '(_, _, b) := fill_scan l base in
    (length l + gaps l base + (if (b <? end_)%Z then 1 else 0))%nat.
Proof.
  unfold fill. pose proof (fill_scan_length l base) as H.
  destruct (fill_scan l base) as [[m s] b]. destruct H as [H _].
  rewrite length_app in H. rewrite !length_app. case_if; simpl; lia.
Qed.

Lemma fill_id l base : length (fill l base) = length l -> fill l base = l.
Proof.
  rewrite fill_length. pose proof (fill_scan_id l base) as H. unfold fill.
  destruct (fill_scan l base) as [[m s] b]. intros Hl.
  case_if; [lia |]. apply H. lia.
Qed.
End Fill.

(** ** Removing a range *)

Definition low_part (r : memblock_region) (base : Z) : memblock_region :=
  mkRegion (rbase r) (base - rbase r) (rflags r) (rnid r).
Definition high_part (r : memblock_region) (stop : Z) : memblock_region :=
  mkRegion stop (rend r - stop) (rflags r) (rnid r).

(** What is left of a region outside [base, end_). *)
Definition cut_region (base end_ : Z) (r : memblock_region) : list memblock_region :=
  if (end_ <=? rbase r) || (rend r <=? base) then [r]
  else (if rbase r <? base then [low_part r base] else [])
       ++ (if end_ <? rend r then [high_part r end_] else []).

Definition cut (base end_ : Z) (l : list memblock_region) : list memblock_region :=
  l ≫= cut_region base end_.

Lemma cut_app base end_ l1 l2 : cut base end_ (l1 ++ l2) = cut base end_ l1 ++ cut base end_ l2.
Proof. apply bind_app. Qed.

Lemma cut_cons base end_ r l : cut base end_ (r :: l) = cut_region base end_ r ++ cut base end_ l.
Proof. reflexivity. Qed.

(** Regions above the range stay as they are. *)
Lemma cut_above base end_ lo l : sorted_from lo l -> end_ <= lo -> cut base end_ l = l.
Proof.
  revert lo. induction l as [|r l IH]; intros lo; [done |].
  intros (H1 & H2 & H3 & H4) Hlo. rewrite cut_cons. unfold cut_region.
  rewrite (proj2 (Z.leb_le end_ (rbase r))) by lia. simpl.
  f_equal. eapply IH; [exact H4 |]. unfold rend. lia.
Qed.

Lemma cut_sorted base end_ lo l :
  sorted_from lo l -> base <= end_ -> sorted_from lo (cut base end_ l).
Proof.
  revert lo. induction l as [|r l IH]; intros lo; [done |].
  intros (H1 & H2 & H3 & H4) Hbe. rewrite cut_cons. specialize (IH _ H4 Hbe).
  unfold cut_region. unfold rend in *.
  destruct ((end_ <=? rbase r) || (rbase r + rsize r <=? base)) eqn:E; bool_facts.
  - simpl. unfold rend. repeat split; done.
  - case_if; case_if; unfold low_part, high_part, rend; simpl; unfold rend;
      repeat split; simpl; try lia;
      (eapply sorted_from_weaken; [| exact IH]); lia.
Qed.

Lemma cut_covered base end_ lo l a :
  sorted_from lo l -> base <= end_ ->
  covered (cut base end_ l) a <-> covered l a /\ ~ (base <= a < end_).
Proof.
  revert lo. induction l as [|r l IH]; intros lo; [simpl; tauto |].
  intros (H1 & H2 & H3 & H4) Hbe. rewrite cut_cons, covered_app, (IH _ H4 Hbe). cbn [covered].
  unfold cut_region. unfold rend in *.
  destruct ((end_ <=? rbase r) || (rbase r + rsize r <=? base)) eqn:E; bool_facts.
  - apply orb_true_iff in E. simpl. unfold rend.
    destruct E; bool_facts; intuition lia.
  - case_if; case_if; unfold low_part, high_part, rend; simpl; unfold rend; simpl;
      intuition lia.
Qed.
