(* ===== verification/MemblockArray.v ===== *)
(** * Region arrays refine region lists

    Each in-place array operation of [memblock.c] is related to a
    transformation of the list of live regions: insertion and removal by
    [memmove], the insertion pass of [memblock_add_range] to [fill],
    isolation followed by removal to [cut], and merging to a list with the
    same coverage and no mergeable neighbours. *)

From S2P Require Import Prelude Memblock MemblockList.

(** The live regions of an array. *)
Definition live (t : memblock_type) : list memblock_region := take (tcnt t) (tregions t).

(** The shape of an array: the count fits and every slot exists. *)
Definition arr_ok (t : memblock_type) : Prop :=
  (tcnt t <= tmax t)%nat /\ length (tregions t) = tmax t.

(** The invariant of a [struct memblock_type]. *)
Record wf_type (t : memblock_type) : Prop := {
  wf_arr : arr_ok t;
  wf_room : (1 <= tmax t)%nat;
  wf_sorted : sorted_from 0 (live t);
  wf_total : ttotal_size t = sum_sizes (live t);
  wf_empty : tcnt t = 0%nat -> rsize (region_at t 0) = 0;
}.

Lemma length_live t : arr_ok t -> length (live t) = tcnt t.
Proof. intros [H1 H2]. unfold live. rewrite length_take. lia. Qed.

Lemma region_at_live t i : (i < tcnt t)%nat -> region_at t i = live t !!! i.
Proof.
  intros Hi. unfold region_at, live.
  by rewrite !list_lookup_total_alt, lookup_take_lt by lia.
Qed.

Lemma region_at_zip t pre r post :
  arr_ok t -> live t = pre ++ r :: post -> region_at t (length pre) = r.
Proof.
  intros Hok Hl. assert (length pre < tcnt t)%nat.
  { rewrite <- length_live, Hl, length_app by done. simpl. lia. }
  by rewrite region_at_live, Hl, list_lookup_total_middle by lia.
Qed.

Lemma region_at_zip2 t pre r1 r2 post :
  arr_ok t -> live t = pre ++ r1 :: r2 :: post -> region_at t (S (length pre)) = r2.
Proof.
  intros Hok Hl. rewrite <- (region_at_zip t (pre ++ [r1]) r2 post).
  - f_equal. rewrite length_app. simpl. lia.
  - done.
  - by rewrite Hl, <- app_assoc.
Qed.

Lemma zip_lt t pre r post : arr_ok t -> live t = pre ++ r :: post -> (length pre < tcnt t)%nat.
Proof. intros Hok Hl. rewrite <- length_live, Hl, length_app by done. simpl. lia. Qed.

Lemma zip_end t pre : arr_ok t -> live t = pre ++ [] -> length pre = tcnt t.
Proof. intros Hok Hl. by rewrite <- length_live, Hl, app_nil_r by done. Qed.

(** ** Writing a slot *)

Definition set_region (t : memblock_type) (i : nat) (r : memblock_region) (total : Z)
    : memblock_type :=
  mkType (tcnt t) (tmax t) total (<[i := r]> (tregions t)) (tarray t).

Lemma set_region_zip t pre r r' post total :
  arr_ok t -> live t = pre ++ r :: post ->
  arr_ok (set_region t (length pre) r' total)
  /\ live (set_region t (length pre) r' total) = pre ++ r' :: post.
Proof.
  intros Hok Hl. pose proof (zip_lt _ _ _ _ Hok Hl). unfold set_region.
  split.
  - destruct Hok. split; simpl; [done |]. by rewrite length_insert.
  - unfold live. simpl. rewrite take_insert_lt by lia.
    change (take (tcnt t) (tregions t)) with (live t). rewrite Hl.
    by rewrite insert_app_r_alt, Nat.sub_diag by lia.
Qed.

(** ** Insertion *)

Lemma take_arr_move_insert {A} (l : list A) (i c : nat) x :
  (i <= c)%nat -> (c < length l)%nat ->
  take (S c) (<[i := x]> (arr_move (S i) i (c - i) l)) = take i l ++ x :: take (c - i) (drop i l).
Proof.
  intros Hi Hc. unfold arr_move.
  destruct (drop i l) as [|y ys] eqn:Hd.
  { apply (f_equal length) in Hd. rewrite length_drop in Hd. simpl in Hd. lia. }
  assert (Hy : l !! i = Some y).
  { rewrite <- (Nat.add_0_r i), <- lookup_drop, Hd. done. }
  assert (Hlen : length (take (c - i) (y :: ys)) = (c - i)%nat).
  { rewrite length_take. apply (f_equal length) in Hd.
    rewrite length_drop in Hd. simpl in *. lia. }
  rewrite (take_S_r _ _ y Hy), <- app_assoc.
  rewrite insert_app_r_alt by (rewrite length_take; lia).
  rewrite length_take, Nat.min_l, Nat.sub_diag by lia. simpl.
  rewrite take_app, length_take, Nat.min_l, take_take, Nat.min_r by lia. f_equal.
  replace (S c - i)%nat with (S (c - i)) by lia. simpl. f_equal.
  by rewrite take_app_length' by lia.
Qed.

Lemma insert_region_zip t pre post base size nid flags :
  arr_ok t -> (tcnt t < tmax t)%nat -> live t = pre ++ post ->
  exists t', memblock_insert_region t (length pre) base size nid flags = Done t'
    /\ arr_ok t' /\ tmax t' = tmax t /\ tarray t' = tarray t
    /\ tcnt t' = S (tcnt t) /\ ttotal_size t' = u64 (ttotal_size t + size)
    /\ live t' = pre ++ mkRegion base size flags nid :: post.
Proof.
  intros Hok Hroom Hl. unfold memblock_insert_region.
  assert (Hle : (length pre <= tcnt t)%nat).
  { rewrite <- (length_live t Hok), Hl, length_app. lia. }
  destruct Hok as [Hc Hlen].
  rewrite (proj2 (Nat.leb_gt _ _)) by lia.
  eexists. split; [reflexivity |]. simpl.
  assert (Hm : length (arr_move (S (length pre)) (length pre) (tcnt t - length pre) (tregions t))
               = length (tregions t)) by (apply length_arr_move; lia).
  repeat split; simpl.
  - lia.
  - rewrite length_insert. lia.
  - unfold live. simpl. rewrite take_arr_move_insert by lia.
    assert (Hpre : take (length pre) (tregions t) = pre).
    { transitivity (take (length pre) (live t)).
      - unfold live. by rewrite take_take, Nat.min_l by lia.
      - by rewrite Hl, take_app_length. }
    rewrite Hpre. do 2 f_equal.
    transitivity (drop (length pre) (live t)).
    + unfold live. by rewrite skipn_firstn_comm.
    + by rewrite Hl, drop_app_length.
Qed.

(** ** Removal *)

Lemma take_arr_move_remove {A} (l : list A) (r c : nat) :
  (r < c)%nat -> (c <= length l)%nat ->
  take (c - 1) (arr_move r (S r) (c - S r) l) = take r l ++ take (c - S r) (drop (S r) l).
Proof.
  intros Hr Hc. unfold arr_move.
  rewrite app_assoc. apply take_app_length'.
  rewrite length_app, !length_take, length_drop. lia.
Qed.

(** Shift the regions above a slot down by one. *)
Lemma shift_down_zip t pre r post total :
  arr_ok t -> live t = pre ++ r :: post ->
  let t' := mkType (tcnt t - 1) (tmax t) total
              (arr_move (length pre) (S (length pre)) (tcnt t - S (length pre)) (tregions t))
              (tarray t) in
  arr_ok t' /\ live t' = pre ++ post.
Proof.
  intros Hok Hl t'. pose proof (zip_lt _ _ _ _ Hok Hl). destruct Hok as [Hc Hlen].
  split.
  - split; simpl; [lia |]. rewrite length_arr_move; lia.
  - unfold live. simpl. rewrite take_arr_move_remove by lia.
    assert (Hpre : take (length pre) (tregions t) = pre).
    { transitivity (take (length pre) (live t)).
      - unfold live. by rewrite take_take, Nat.min_l by lia.
      - by rewrite Hl, take_app_length. }
    rewrite Hpre. f_equal.
    transitivity (drop (S (length pre)) (live t)).
    + unfold live. by rewrite skipn_firstn_comm.
    + rewrite Hl. replace (S (length pre)) with (length (pre ++ [r])).
      * change (pre ++ r :: post) with (pre ++ [r] ++ post).
        by rewrite app_assoc, drop_app_length.
      * rewrite length_app. simpl. lia.
Qed.

Lemma remove_region_zip t pre r post :
  arr_ok t -> (1 <= tmax t)%nat -> live t = pre ++ r :: post ->
  let t' := memblock_remove_region t (length pre) in
  arr_ok t' /\ live t' = pre ++ post /\ tmax t' = tmax t /\ tarray t' = tarray t
  /\ ttotal_size t' = u64 (ttotal_size t - rsize r)
  /\ (tcnt t' = 0%nat -> rsize (region_at t' 0) = 0).
Proof.
  intros Hok Hmax Hl t'. unfold t', memblock_remove_region.
  rewrite (region_at_zip t pre r post Hok Hl).
  destruct (shift_down_zip t pre r post (u64 (ttotal_size t - rsize r)) Hok Hl) as [Hok' Hl'].
  case_if.
  - assert (Hnil : pre ++ post = []).
    { rewrite <- Hl'. unfold live. simpl. by rewrite E. }
    split; [| split; [| repeat split]].
    + destruct Hok' as [Hc' Hlen']. split; simpl in *; [lia |]. rewrite length_insert. lia.
    + unfold live. simpl. by rewrite E, Hnil.
    + intros _. unfold region_at. simpl. destruct Hok' as [_ Hlen']. simpl in Hlen'.
      rewrite list_lookup_total_alt, list_lookup_insert_eq by lia. done.
  - repeat split; try apply Hok'; done.
Qed.


Lemma sorted_remove lo pre r post :
  sorted_from lo (pre ++ r :: post) -> sorted_from lo (pre ++ post).
Proof.
  rewrite !sorted_from_app. simpl. intros (H1 & H2 & H3 & H4 & H5). split; [done |].
  eapply sorted_from_weaken; [| exact H5]. unfold rend. lia.
Qed.

Lemma sorted_sum_u64 l : sorted_from 0 l -> 0 <= sum_sizes l < 2 ^ 64.
Proof.
  intros H. pose proof (sum_sizes_bounds _ _ H). pose proof (last_end_bounds _ _ H) as [_ Hb].
  unfold PHYS_ADDR_MAX in *. lia.
Qed.

Lemma wf_remove_region t pre r post :
  wf_type t -> live t = pre ++ r :: post ->
  let t' := memblock_remove_region t (length pre) in
  wf_type t' /\ live t' = pre ++ post /\ tmax t' = tmax t /\ tarray t' = tarray t.
Proof.
  intros [Hok Hroom Hs Htot Hemp] Hl t'.
  destruct (remove_region_zip t pre r post Hok Hroom Hl) as (Hok' & Hl' & Hm' & Ha' & Ht' & He').
  fold t' in Hok', Hl', Hm', Ha', Ht', He'.
  assert (Hs' : sorted_from 0 (live t')).
  { rewrite Hl'. apply (sorted_remove 0 pre r post). by rewrite <- Hl. }
  split; [| done]. split; try done.
  - lia.
  - rewrite Ht', Htot, Hl', Hl, !sum_sizes_app. simpl.
    pose proof (sorted_sum_u64 _ Hs') as Hb. rewrite Hl', sum_sizes_app in Hb.
    rewrite u64_small; lia.
Qed.

(** The removal loop deletes a window of regions. *)
Lemma wf_remove_regions n t pre mid post :
  wf_type t -> length mid = n -> live t = pre ++ mid ++ post ->
  let t' := remove_regions t (length pre) n in
  wf_type t' /\ live t' = pre ++ post /\ tmax t' = tmax t /\ tarray t' = tarray t.
Proof.
  revert t mid post. induction n as [|n IH]; intros t mid post Hwf Hn Hl; simpl.
  - apply nil_length_inv in Hn. subst mid. done.
  - destruct (exists_last (l := mid)) as (mid' & r & ->); [by intros -> |].
    rewrite length_app in Hn. simpl in Hn.
    assert (Hmid : length (pre ++ mid') = (length pre + n)%nat)
      by (rewrite length_app; lia).
    rewrite <- Hmid.
    destruct (wf_remove_region t (pre ++ mid') r post Hwf) as (Hwf' & Hl' & Hm' & Ha').
    { by rewrite Hl, <- !app_assoc. }
    destruct (IH (memblock_remove_region t (length (pre ++ mid'))) mid' post)
      as (Hw & Hl2 & Hm2 & Ha2); [done | lia | by rewrite Hl', <- app_assoc |].
    repeat split; try apply Hw; congruence.
Qed.

(** ** Merging *)

Definition merged (r1 r2 : memblock_region) : memblock_region :=
  mkRegion (rbase r1) (rsize r1 + rsize r2) (rflags r1) (rnid r1).

Lemma sorted_merged lo pre r1 r2 post :
  mergeable r1 r2 -> sorted_from lo (pre ++ r1 :: r2 :: post) ->
  sorted_from lo (pre ++ merged r1 r2 :: post).
Proof.
  intros (Hm & _ & _). rewrite !sorted_from_app. unfold merged. simpl.
  intros (H1 & H2 & H3 & H4 & H5 & H6 & H7 & H8). split; [done |].
  unfold rend in *; simpl in *. repeat split; try lia.
  replace (rbase r1 + (rsize r1 + rsize r2)) with (rbase r2 + rsize r2) by lia. done.
Qed.

Lemma minimal_merged_l pre r1 r2 :
  minimal (pre ++ [r1]) -> minimal (pre ++ [merged r1 r2]).
Proof.
  induction pre as [|p [|q pre] IH]; simpl; try done.
  intros (H1 & H2). split; [exact H1 |]. apply IH, H2.
Qed.

Lemma minimal_merged_r r1 r2 post :
  mergeable r1 r2 -> minimal (r2 :: post) -> minimal (merged r1 r2 :: post).
Proof.
  destruct post as [|q post]; simpl; [done |].
  intros (Hm1 & Hm2 & Hm3) (H1 & H2). split; [| done].
  intros (G1 & G2 & G3). apply H1. unfold mergeable, merged, rend in *. simpl in *.
  repeat split; congruence || lia.
Qed.

Lemma covered_merged r1 r2 a :
  mergeable r1 r2 -> 0 < rsize r1 -> 0 < rsize r2 ->
  rbase (merged r1 r2) <= a < rend (merged r1 r2)
  <-> (rbase r1 <= a < rend r1 \/ rbase r2 <= a < rend r2).
Proof. intros (Hm & _ & _). unfold merged, rend in *. simpl. lia. Qed.

(** What merging preserves, and what it establishes. *)
Record merge_post (t t' : memblock_type) : Prop := {
  mp_wf : wf_type t';
  mp_covered : forall a, covered (live t') a <-> covered (live t) a;
  mp_minimal : minimal (live t');
  mp_max : tmax t' = tmax t;
  mp_array : tarray t' = tarray t;
}.

Lemma merge_test_true (this next : memblock_region) :
  rend this < 2 ^ 64 -> 0 <= rbase this -> 0 < rsize this ->
  (negb (u64 (rbase this + rsize this) =? rbase next)
   || negb (rnid this =? rnid next) || negb (rflags this =? rflags next)) = false
  <-> mergeable this next.
Proof.
  intros H1 H2 H3. unfold mergeable, rend in *. rewrite u64_small by lia.
  rewrite !orb_false_iff, !negb_false_iff, !Z.eqb_eq. tauto.
Qed.

Lemma absorb_next_zip t pre r1 r2 post :
  wf_type t -> live t = pre ++ r1 :: r2 :: post -> mergeable r1 r2 ->
  let t' := absorb_next t (length pre) in
  wf_type t' /\ live t' = pre ++ merged r1 r2 :: post /\ tcnt t' = (tcnt t - 1)%nat.
Proof.
  intros Hwf Hl Hm. assert (Hok : arr_ok t) by apply Hwf. unfold absorb_next.
  rewrite (region_at_zip _ _ _ _ Hok Hl), (region_at_zip2 _ _ _ _ _ Hok Hl).
  assert (Hsorted : sorted_from 0 (pre ++ r1 :: r2 :: post)) by (rewrite <- Hl; apply Hwf).
  pose proof (sorted_merged _ _ _ _ _ Hm Hsorted) as Hsm.
  assert (Hsz : u64 (rsize r1 + rsize r2) = rsize r1 + rsize r2).
  { pose proof (sorted_sum_u64 _ Hsm) as Hb. apply sorted_from_app in Hsorted as [Hp Hs2].
    pose proof (sum_sizes_bounds _ _ Hp). simpl in Hs2.
    rewrite sum_sizes_app in Hb. simpl in Hb.
    destruct Hs2 as (_ & ? & _ & _ & ? & _ & Hs3). pose proof (sum_sizes_bounds _ _ Hs3).
    apply u64_small. lia. }
  rewrite Hsz. fold (merged r1 r2).
  destruct (set_region_zip t pre r1 (merged r1 r2) (r2 :: post) (ttotal_size t) Hok Hl)
    as [Hok1 Hl1].
  rewrite (cons_middle (merged r1 r2) pre (r2 :: post)), app_assoc in Hl1.
  destruct (shift_down_zip _ _ _ _ (ttotal_size t) Hok1 Hl1) as [Hok2 Hl2].
  rewrite length_app, Nat.add_1_r in Hok2, Hl2. rewrite <- app_assoc in Hl2.
  simpl in Hok2, Hl2.
  replace (tcnt t - S (S (length pre)))%nat with (tcnt t - (length pre + 2))%nat in * by lia.
  split; [| done]. split; try done.
  - apply Hwf.
  - by rewrite Hl2.
  - rewrite Hl2. simpl. rewrite (wf_total _ Hwf), Hl, !sum_sizes_app. simpl. lia.
  - simpl. intros Hz. exfalso. pose proof (length_live t Hok) as Hlen.
    rewrite Hl, length_app in Hlen. simpl in Hlen. lia.
Qed.

Lemma drop_zip {A} (pre post : list A) r k :
  drop (length pre + 1 + k) (pre ++ r :: post) = drop k post.
Proof. by rewrite <- Nat.add_assoc, <- drop_drop, drop_app_length. Qed.

(** Dropping from a list whose head two elements were merged. *)
Lemma minimal_drop_merged e pre r1 r2 post :
  (length pre < e)%nat -> mergeable r1 r2 ->
  minimal (drop e (pre ++ r1 :: r2 :: post)) ->
  minimal (drop (e - 1) (pre ++ merged r1 r2 :: post)).
Proof.
  intros He Hm Hmin.
  replace e with (length pre + 1 + (e - length pre - 1))%nat in Hmin by lia.
  rewrite drop_zip in Hmin.
  replace (e - 1)%nat with (length pre + (e - length pre - 1))%nat by lia.
  rewrite <- drop_drop, drop_app_length.
  destruct (e - length pre - 1)%nat; simpl in *; [| done]. by apply minimal_merged_r.
Qed.

Lemma take_S_zip {A} (pre : list A) r post : take (S (length pre)) (pre ++ r :: post) = pre ++ [r].
Proof.
  rewrite cons_middle, app_assoc. apply take_app_length'. rewrite length_app. simpl. lia.
Qed.

Lemma merge_loop_spec fuel t pre r1 rest e :
  wf_type t -> live t = pre ++ r1 :: rest ->
  (length pre <= e)%nat -> (e < tcnt t)%nat -> (e - length pre < fuel)%nat ->
  minimal (pre ++ [r1]) -> minimal (drop e (live t)) ->
  exists t', merge_loop fuel t (length pre) e = Done t' /\ merge_post t t'.
Proof.
  revert t pre r1 rest e. induction fuel as [|fuel IH]; [lia |].
  intros t pre r1 rest e Hwf Hl He Hec Hf Hm1 Hm2. simpl.
  assert (Hok : arr_ok t) by apply Hwf.
  destruct (length pre <? e)%nat eqn:Hlt; bool_facts.
  2:{ (* the window is exhausted *)
    exists t. split; [done |]. split; try done.
    replace e with (length pre) in Hm2 by lia.
    rewrite Hl, drop_app_length in Hm2. rewrite Hl. by apply minimal_glue. }
  destruct rest as [|r2 rest].
  { exfalso. rewrite <- (length_live t Hok), Hl, length_app in Hec. simpl in Hec. lia. }
  rewrite (region_at_zip _ _ _ _ Hok Hl), (region_at_zip2 _ _ _ _ _ Hok Hl).
  pose proof (wf_sorted _ Hwf) as Hs. rewrite Hl in Hs.
  apply sorted_from_app in Hs as [Hpre Hs2]. pose proof (last_end_bounds _ _ Hpre) as [Hlo _].
  simpl in Hs2. destruct Hs2 as (G1 & G2 & G3 & G4 & G5 & G6 & G7).
  unfold PHYS_ADDR_MAX, rend in *.
  destruct (negb (u64 (rbase r1 + rsize r1) =? rbase r2)
   || negb (rnid r1 =? rnid r2) || negb (rflags r1 =? rflags r2)) eqn:Etest.
  - (* not mergeable: step over *)
    assert (Hnm : ~ mergeable r1 r2).
    { intros Hm. apply merge_test_true in Hm; [congruence | unfold rend; lia..]. }
    rewrite (u64_small (rbase r1 + rsize r1)), (proj2 (Z.ltb_ge _ _)) by lia.
    rewrite <- Nat.add_1_r, <- (length_app pre [r1] : _ = (_ + 1)%nat).
    apply (IH t (pre ++ [r1]) r2 rest e); rewrite ?length_app; simpl; try lia; try done.
    + by rewrite Hl, <- app_assoc.
    + rewrite <- app_assoc. apply minimal_glue; [done |]. simpl. done.
  - (* merge the two neighbours *)
    apply merge_test_true in Etest; [| unfold rend; lia..].
    destruct (absorb_next_zip t pre r1 r2 rest Hwf Hl Etest) as (Hwf2 & Hl2 & Hc2).
    destruct (IH (absorb_next t (length pre)) pre (merged r1 r2) rest (e - 1)%nat)
      as (t' & Hrun & [P1 P2 P3 P4 P5]); try done; try lia.
    + by apply minimal_merged_l.
    + rewrite Hl2. apply minimal_drop_merged; try done. by rewrite <- Hl.
    + exists t'. split; [done |]. split; try done.
      intros a. rewrite P2, Hl2, Hl, !covered_app. simpl.
      rewrite (covered_merged r1 r2 a) by (done || lia). tauto.
Qed.

(** [memblock_merge_regions]: if the list is minimal outside the window, it
    is minimal everywhere afterwards, and covers the same addresses. *)
Lemma merge_regions_spec t st en :
  wf_type t -> (st < tcnt t)%nat -> (st <= en)%nat ->
  minimal (take st (live t)) -> minimal (drop en (live t)) ->
  exists t', memblock_merge_regions t st en = Done t' /\ merge_post t t'.
Proof.
  intros Hwf Hst Hse Hm1 Hm2. unfold memblock_merge_regions.
  assert (Hok : arr_ok t) by apply Hwf.
  rewrite (proj2 (Nat.eqb_neq (tcnt t) 0)) by lia.
  set (i := (if (st =? 0)%nat then 0 else st - 1)%nat).
  assert (Hi : (st = 0 /\ i = 0 \/ st = S i)%nat) by (unfold i; case_if; lia).
  pose proof (length_live t Hok) as Hlen.
  assert (Hlt : (i < length (live t))%nat) by lia.
  destruct (lookup_lt_is_Some_2 _ _ Hlt) as [r Hr].
  pose proof (take_drop_middle _ _ _ Hr) as Hsplit.
  assert (Hli : length (take i (live t)) = i) by (rewrite length_take; lia).
  pose proof (merge_loop_spec (S (Nat.min en (tcnt t - 1) - i)) t (take i (live t)) r
                (drop (S i) (live t)) (Nat.min en (tcnt t - 1))) as Hspec.
  rewrite Hli in Hspec. apply Hspec; try done; try lia.
  - rewrite <- (take_S_r _ _ _ Hr).
    destruct (decide (S i = st)) as [-> | Hne]; [done |].
    replace i with 0%nat by lia. by destruct (live t).
  - destruct (Nat.min_spec en (tcnt t - 1)) as [[? ->] | [? ->]]; [done |].
    rewrite <- Hlen. clear -Hlen Hst.
    destruct (exists_last (l := live t)) as (l' & x & Hx).
    { intros Hn. rewrite Hn in Hlen. simpl in Hlen. lia. }
    rewrite Hx, length_app. simpl. by rewrite Nat.add_sub, drop_app_length.
Qed.
