(* ===== verification/MemblockRange.v ===== *)
(** * Adding and removing ranges

    [memblock_add_range] and [memblock_remove_range] on well-formed arrays:
    the passes over the array refine [fill] and [cut], the invariant is
    preserved, and the covered set changes by exactly the range. *)

From S2P Require Import Prelude Memblock MemblockList MemblockArray.

(** The invariant of the arrays between operations: well-formed, and no two
    neighbouring regions could be one. *)
Definition type_inv (t : memblock_type) : Prop := wf_type t /\ minimal (live t).

(** The addresses a region array stands for. *)
Definition covers (t : memblock_type) (a : Z) : Prop := covered (live t) a.

(** ** The insertion pass *)

(** The merge window [st, en) after the regions [pre] were scanned, with
    [rest] to go: -1 when nothing was inserted yet; otherwise the list is
    minimal below and above the window. *)
Definition window_ok (pre rest : list memblock_region) (st en : Z) : Prop :=
  minimal rest
  /\ (st = -1 /\ minimal (pre ++ rest)
      \/ 0 <= st < en /\ en <= Z.of_nat (length pre)
         /\ minimal (take (Z.to_nat st) pre)
         /\ minimal (drop (Z.to_nat en) (pre ++ rest))).

Lemma window_ok_keep pre r rest st en :
  window_ok pre (r :: rest) st en -> window_ok (pre ++ [r]) rest st en.
Proof.
  intros (H1 & H2). split; [by eapply minimal_tail |].
  rewrite <- app_assoc. simpl.
  destruct H2 as [[-> H2] | (H2 & H3 & H4 & H5)]; [by left | right].
  rewrite length_app. repeat split; try done; try (simpl; lia).
  rewrite take_app_le; [done | lia].
Qed.

Lemma window_ok_insert pre x rest st en :
  window_ok pre rest st en ->
  window_ok (pre ++ [x]) rest (if st =? -1 then Z.of_nat (length pre) else st)
    (Z.of_nat (length pre) + 1).
Proof.
  intros (H1 & H2). split; [done |]. right. rewrite length_app. simpl.
  assert (Hd : drop (Z.to_nat (Z.of_nat (length pre) + 1)) ((pre ++ [x]) ++ rest) = rest).
  { apply drop_app_length'. rewrite length_app. simpl. lia. }
  rewrite Hd. destruct H2 as [[-> H2] | (H2 & H3 & H4 & H5)].
  - simpl. repeat split; try lia; try done.
    rewrite Nat2Z.id, take_app_length. by eapply minimal_app_l.
  - rewrite (proj2 (Z.eqb_neq st (-1))) by lia.
    repeat split; try lia; try done. rewrite take_app_le; [done | lia].
Qed.

Section AddPass.
Context (end_ nid flags : Z).
Context (Hend : end_ <= PHYS_ADDR_MAX).

(** The state of the array after a scan of [rest]: [m] is what [rest]
    became up to the stopping point, [s] what follows it. *)
Record scan_post (t t' : memblock_type) (pre rest m s : list memblock_region)
    (base b st0 st en : Z) : Prop := {
  sp_scan : fill_scan end_ nid flags rest base = (m, s, b);
  sp_ok : arr_ok t';
  sp_live : live t' = (pre ++ m) ++ s;
  sp_b : 0 <= b <= end_;
  sp_max : tmax t' = tmax t;
  sp_array : tarray t' = tarray t;
  sp_total : ttotal_size t' = u64 (sum_sizes (live t'));
  sp_window : window_ok (pre ++ m) s st en;
  sp_cnt : tcnt t' = (tcnt t + gaps end_ rest base)%nat;
  sp_none : st = -1 -> st0 = -1 /\ gaps end_ rest base = 0%nat;
}.

Lemma scan_post_stop t pre rest base st en :
  fill_scan end_ nid flags rest base = ([], rest, base) -> gaps end_ rest base = 0%nat ->
  arr_ok t -> live t = pre ++ rest -> 0 <= base <= end_ ->
  ttotal_size t = u64 (sum_sizes (live t)) -> window_ok pre rest st en ->
  scan_post t t pre rest [] rest base base st st en.
Proof. intros. split; rewrite ?app_nil_r; try done. lia. Qed.

(** The three ways a scan passes over a region. *)
Lemma scan_below r rest base :
  rbase r < end_ -> rend r <= base ->
  gaps end_ (r :: rest) base = gaps end_ rest base
  /\ forall m s b, fill_scan end_ nid flags rest base = (m, s, b) ->
     fill_scan end_ nid flags (r :: rest) base = (r :: m, s, b).
Proof.
  intros H1 H2. simpl. rewrite (proj2 (Z.leb_gt end_ (rbase r))) by lia.
  rewrite (proj2 (Z.leb_le (rend r) base)) by lia. split; [done |].
  intros m s b ->. done.
Qed.

Lemma scan_gap r rest base :
  rbase r < end_ -> base < rend r -> base < rbase r ->
  gaps end_ (r :: rest) base = S (gaps end_ rest (Z.min (rend r) end_))
  /\ forall m s b, fill_scan end_ nid flags rest (Z.min (rend r) end_) = (m, s, b) ->
     fill_scan end_ nid flags (r :: rest) base
       = (gap_region nid flags base (rbase r) :: r :: m, s, b).
Proof.
  intros H1 H2 H3. simpl. rewrite (proj2 (Z.leb_gt end_ (rbase r))) by lia.
  rewrite (proj2 (Z.leb_gt (rend r) base)), (proj2 (Z.ltb_lt base (rbase r))) by lia.
  split; [done |]. intros m s b ->. done.
Qed.

Lemma scan_touch r rest base :
  rbase r < end_ -> base < rend r -> rbase r <= base ->
  gaps end_ (r :: rest) base = gaps end_ rest (Z.min (rend r) end_)
  /\ forall m s b, fill_scan end_ nid flags rest (Z.min (rend r) end_) = (m, s, b) ->
     fill_scan end_ nid flags (r :: rest) base = (r :: m, s, b).
Proof.
  intros H1 H2 H3. simpl. rewrite (proj2 (Z.leb_gt end_ (rbase r))) by lia.
  rewrite (proj2 (Z.leb_gt (rend r) base)), (proj2 (Z.ltb_ge base (rbase r))) by lia.
  split; [done |]. intros m s b ->. done.
Qed.

Lemma scan_above r rest base :
  end_ <= rbase r ->
  gaps end_ (r :: rest) base = 0%nat
  /\ fill_scan end_ nid flags (r :: rest) base = ([], r :: rest, base).
Proof. intros H. simpl. by rewrite (proj2 (Z.leb_le end_ (rbase r))) by lia. Qed.

(** A scan that kept [r] at the front continues one that starts after it. *)
Lemma scan_post_keep t t' pre r rest m s base base' b st0 st en :
  gaps end_ (r :: rest) base = gaps end_ rest base' ->
  (forall m s b, fill_scan end_ nid flags rest base' = (m, s, b) ->
     fill_scan end_ nid flags (r :: rest) base = (r :: m, s, b)) ->
  scan_post t t' (pre ++ [r]) rest m s base' b st0 st en ->
  scan_post t t' pre (r :: rest) (r :: m) s base b st0 st en.
Proof.
  intros Hg Hf [P1 P2 P3 P4 P5 P6 P7 P8 P9 P10]. rewrite <- (app_assoc pre [r] m) in P3, P8.
  split; try done; [by apply Hf | congruence | by rewrite Hg].
Qed.

Lemma add_loop_insert fuel t pre rest lo base nr st en :
  arr_ok t -> live t = pre ++ rest -> sorted_from lo rest -> 0 <= lo ->
  0 <= base <= end_ -> (length rest < fuel)%nat ->
  (tcnt t + gaps end_ rest base <= tmax t)%nat ->
  ttotal_size t = u64 (sum_sizes (live t)) -> window_ok pre rest st en ->
  exists t' m s b st' en',
    add_loop fuel true t (length pre) base end_ nid flags nr st en
      = Done (t', (length pre + length m)%nat, b, (nr + gaps end_ rest base)%nat, st', en')
    /\ scan_post t t' pre rest m s base b st st' en'.
Proof.
  revert t pre rest lo base nr st en.
  induction fuel as [|fuel IH]; [lia |].
  intros t pre rest lo base nr st en Hok Hl Hs Hlo Hb Hf Hroom Htot Hw.
  destruct rest as [|r rest].
  { exists t, [], [], base, st, en. simpl. rewrite !Nat.add_0_r.
    rewrite (proj2 (Nat.ltb_ge _ _)) by (rewrite (zip_end t pre Hok Hl); lia).
    split; [done |]. by apply scan_post_stop. }
  cbn [add_loop]. rewrite (proj2 (Nat.ltb_lt _ _)) by exact (zip_lt _ _ _ _ Hok Hl).
  rewrite (region_at_zip _ _ _ _ Hok Hl), (sorted_rend_u64 lo r rest Hlo Hs).
  simpl in Hs, Hf. destruct Hs as (G1 & G2 & G3 & G4).
  assert (Hrb : rbase r < rend r) by (unfold rend; lia).
  assert (Hpre : length (pre ++ [r]) = S (length pre)) by (rewrite length_app; simpl; lia).
  assert (Hzip : live t = (pre ++ [r]) ++ rest) by by rewrite Hl, <- app_assoc.
  destruct (end_ <=? rbase r) eqn:E1; bool_facts.
  { destruct (scan_above r rest base E1) as [Hg Hsc].
    exists t, [], (r :: rest), base, st, en. rewrite Hg, !Nat.add_0_r.
    split; [done |]. by apply scan_post_stop. }
  destruct (rend r <=? base) eqn:E2; bool_facts.
  { destruct (scan_below r rest base E1 E2) as [Hg Hsc]. rewrite Hg in Hroom.
    destruct (IH t (pre ++ [r]) rest (rend r) base nr st en)
      as (t' & m & s & b & st' & en' & Hrun & Hpost);
      try done; try lia; [by apply window_ok_keep |].
    rewrite Hpre in Hrun. exists t', (r :: m), s, b, st', en'. rewrite Hg, Hrun.
    split; [tuple_eq | by eapply scan_post_keep]. }
  destruct (base <? rbase r) eqn:E3; bool_facts.
  2:{ destruct (scan_touch r rest base E1 E2 E3) as [Hg Hsc]. rewrite Hg in Hroom.
    destruct (IH t (pre ++ [r]) rest (rend r) (Z.min (rend r) end_) nr st en)
      as (t' & m & s & b & st' & en' & Hrun & Hpost);
      try done; try lia; [by apply window_ok_keep |].
    rewrite Hpre in Hrun. exists t', (r :: m), s, b, st', en'. rewrite Hg, Hrun.
    split; [tuple_eq | by eapply scan_post_keep]. }
  (* insert the part below the region *)
  destruct (scan_gap r rest base E1 E2 E3) as [Hg Hsc]. rewrite Hg in Hroom.
  destruct (insert_region_zip t pre (r :: rest) base (u64 (rbase r - base)) nid flags)
    as (t1 & -> & Hok1 & Hm1 & Ha1 & Hc1 & Ht1 & Hl1); try done; [lia |].
  rewrite (u64_small (rbase r - base)) in * by (unfold PHYS_ADDR_MAX in *; lia).
  fold (gap_region nid flags base (rbase r)) in Hl1.
  set (g := gap_region nid flags base (rbase r)) in *.
  destruct (IH t1 ((pre ++ [g]) ++ [r]) rest (rend r) (Z.min (rend r) end_) (S nr)
              (if st =? -1 then Z.of_nat (length pre) else st) (Z.of_nat (length pre) + 1))
    as (t' & m & s & b & st' & en' & Hrun & [P1 P2 P3 P4 P5 P6 P7 P8 P9 P10]);
    try done; try lia.
  - rewrite Hl1, <- !app_assoc. done.
  - rewrite Ht1, Htot, Hl1, Hl, !sum_sizes_app, u64_add_l. f_equal. simpl. lia.
  - apply window_ok_keep. by eapply window_ok_insert.
  - rewrite !length_app in Hrun. simpl in Hrun.
    replace (length pre + 1 + 1)%nat with (S (S (length pre))) in Hrun by lia.
    exists t', (g :: r :: m), s, b, st', en'. cbn [obind]. rewrite Hg, Hrun.
    split; [tuple_eq |].
    rewrite <- !app_assoc in P3, P8. simpl in P3, P8.
    split; try done; try congruence; [by apply Hsc | by rewrite P3, <- !app_assoc | lia |].
    intros Hst. destruct (P10 Hst) as [Hc _]. exfalso. case_if; lia.
Qed.

(** The counting pass walks the same scan without changing the array. *)
Lemma add_loop_count fuel t pre rest lo base nr st en :
  arr_ok t -> live t = pre ++ rest -> sorted_from lo rest -> 0 <= lo ->
  (length rest < fuel)%nat ->
  exists idx m s b,
    add_loop fuel false t (length pre) base end_ nid flags nr st en
      = Done (t, idx, b, (nr + gaps end_ rest base)%nat, st, en)
    /\ fill_scan end_ nid flags rest base = (m, s, b).
Proof.
  revert pre rest lo base nr.
  induction fuel as [|fuel IH]; [lia |].
  intros pre rest lo base nr Hok Hl Hs Hlo Hf. destruct rest as [|r rest].
  { exists (length pre), [], [], base. simpl. rewrite Nat.add_0_r.
    by rewrite (proj2 (Nat.ltb_ge _ _)) by (rewrite (zip_end t pre Hok Hl); lia). }
  cbn [add_loop]. rewrite (proj2 (Nat.ltb_lt _ _)) by exact (zip_lt _ _ _ _ Hok Hl).
  rewrite (region_at_zip _ _ _ _ Hok Hl), (sorted_rend_u64 lo r rest Hlo Hs).
  simpl in Hs, Hf. destruct Hs as (G1 & G2 & G3 & G4).
  assert (Hrb : rbase r < rend r) by (unfold rend; lia).
  destruct (end_ <=? rbase r) eqn:E1; bool_facts.
  { destruct (scan_above r rest base E1) as [Hg Hsc]. rewrite Hg, Nat.add_0_r.
    by exists (length pre), [], (r :: rest), base. }
  assert (Hstep : forall base' nr',
    gaps end_ (r :: rest) base = (nr' - nr + gaps end_ rest base')%nat -> (nr <= nr')%nat ->
    (forall m s b, fill_scan end_ nid flags rest base' = (m, s, b) ->
       exists m', fill_scan end_ nid flags (r :: rest) base = (m', s, b)) ->
    exists idx m s b,
      add_loop fuel false t (S (length pre)) base' end_ nid flags nr' st en
        = Done (t, idx, b, (nr + gaps end_ (r :: rest) base)%nat, st, en)
      /\ fill_scan end_ nid flags (r :: rest) base = (m, s, b)).
  { intros base' nr' Hg Hnr Hsc.
    destruct (IH (pre ++ [r]) rest (rend r) base' nr') as (idx & m & s & b & Hrun & Hfs);
      try done; try lia; [by rewrite Hl, <- app_assoc |].
    rewrite length_app, Nat.add_1_r in Hrun. destruct (Hsc _ _ _ Hfs) as [m' Hm'].
    exists idx, m', s, b. rewrite Hrun, Hg. split; [tuple_eq | done]. }
  destruct (rend r <=? base) eqn:E2; bool_facts.
  { destruct (scan_below r rest base E1 E2) as [Hg Hsc]. apply Hstep; [lia | lia | eauto]. }
  destruct (base <? rbase r) eqn:E3; bool_facts.
  - destruct (scan_gap r rest base E1 E2 E3) as [Hg Hsc]. apply Hstep; [lia | lia | eauto].
  - destruct (scan_touch r rest base E1 E2 E3) as [Hg Hsc]. apply Hstep; [lia | lia | eauto].
Qed.

(** The number of regions [fill] adds. *)
Definition new_count (l : list memblock_region) (base : Z) : nat :=
  length (fill end_ nid flags l base) - length l.

Lemma new_count_scan l base m s b :
  fill_scan end_ nid flags l base = (m, s, b) ->
  new_count l base = (gaps end_ l base + (if (b <? end_)%Z then 1 else 0))%nat.
Proof. intros H. unfold new_count. rewrite fill_length, H. case_if; lia. Qed.

Lemma new_count_bound l base : (new_count l base <= S (length l))%nat.
Proof.
  pose proof (fill_scan_length end_ nid flags l base) as H.
  destruct (fill_scan end_ nid flags l base) as [[m s] b] eqn:Hf.
  rewrite (new_count_scan _ _ _ _ _ Hf). case_if; lia.
Qed.

(** What an insertion pass leaves for the merge. *)
Record pass_post (t t' : memblock_type) (base st en : Z) : Prop := {
  pp_live : live t' = fill end_ nid flags (live t) base;
  pp_ok : arr_ok t';
  pp_max : tmax t' = tmax t;
  pp_array : tarray t' = tarray t;
  pp_total : ttotal_size t' = u64 (sum_sizes (live t'));
  pp_window : new_count (live t) base = 0%nat /\ minimal (live t')
    \/ 0 <= st < en /\ en <= Z.of_nat (length (live t'))
       /\ minimal (take (Z.to_nat st) (live t')) /\ minimal (drop (Z.to_nat en) (live t'));
}.

Lemma add_pass_insert t base :
  wf_type t -> minimal (live t) -> 0 <= base <= end_ ->
  (tcnt t + new_count (live t) base <= tmax t)%nat ->
  exists t' st en,
    add_pass true t base end_ nid flags = Done (t', new_count (live t) base, st, en)
    /\ pass_post t t' base st en.
Proof.
  intros [Hok Hroom Hs Htot Hemp] Hmin Hb Hfit. unfold add_pass.
  destruct (add_loop_insert (S (tcnt t)) t [] (live t) 0 base 0 (-1) (-1))
    as (t1 & m & s & b & st & en & Hrun & [P1 P2 P3 P4 P5 P6 P7 P8 P9 P10]); try done; try lia.
  { rewrite (length_live t Hok). lia. }
  { pose proof (fill_scan_length end_ nid flags (live t) base) as Hlen.
    destruct (fill_scan end_ nid flags (live t) base) as [[m s] b] eqn:Hf.
    rewrite (new_count_scan _ _ _ _ _ Hf) in Hfit. lia. }
  { rewrite Htot. symmetry. apply u64_small, sorted_sum_u64, Hs. }
  { split; [done |]. by left. }
  cbn [length Nat.add] in Hrun. rewrite Hrun. cbn [obind]. simpl in P3, P8.
  rewrite (new_count_scan _ _ _ _ _ P1) in *.
  assert (Hfill : fill end_ nid flags (live t) base
                  = m ++ (if b <? end_ then [gap_region nid flags b end_] else []) ++ s)
    by (unfold fill; by rewrite P1).
  destruct (b <? end_) eqn:E; bool_facts.
  - destruct (insert_region_zip t1 m s b (u64 (end_ - b)) nid flags)
      as (t2 & -> & Hok2 & Hm2 & Ha2 & Hc2 & Ht2 & Hl2); try done; [lia |].
    rewrite (u64_small (end_ - b)) in * by (unfold PHYS_ADDR_MAX in *; lia).
    cbn [obind]. eexists _, _, _. split; [tuple_eq |].
    fold (gap_region nid flags b end_) in Hl2.
    split; try done; try congruence.
    + by rewrite Hl2, Hfill.
    + rewrite Ht2, P7, u64_add_l, Hl2, P3, !sum_sizes_app. f_equal. simpl. lia.
    + right. apply (window_ok_insert m (gap_region nid flags b end_)) in P8.
      destruct P8 as [_ [[P8 _] | (Q1 & Q2 & Q3 & Q4)]].
      { exfalso. case_if; lia. }
      rewrite Hl2. rewrite <- app_assoc in Q4. simpl in Q4. rewrite !length_app in *. simpl in *.
      repeat split; try done; try lia.
      rewrite cons_middle, app_assoc, take_app_le; [done |].
      rewrite length_app. simpl. case_if; lia.
  - eexists _, _, _. rewrite Nat.add_0_r. split; [done |].
    split; try done.
    + by rewrite P3, Hfill.
    + destruct P8 as [_ [[-> P8] | (Q1 & Q2 & Q3 & Q4)]].
      * left. rewrite (new_count_scan _ _ _ _ _ P1), P3. destruct (P10 eq_refl) as [_ ->].
        rewrite (proj2 (Z.ltb_ge b end_)) by lia. done.
      * right. rewrite P3, length_app. repeat split; try done; try lia.
        rewrite take_app_le; [done | lia].
Qed.

Lemma add_pass_count t base :
  wf_type t ->
  exists st en,
    add_pass false t base end_ nid flags = Done (t, new_count (live t) base, st, en).
Proof.
  intros [Hok Hroom Hs Htot Hemp]. unfold add_pass.
  destruct (add_loop_count (S (tcnt t)) t [] (live t) 0 base 0 (-1) (-1))
    as (idx & m & s & b & Hrun & Hfs); try done.
  { rewrite (length_live t Hok). lia. }
  cbn [length Nat.add] in Hrun. rewrite Hrun. cbn [obind]. rewrite (new_count_scan _ _ _ _ _ Hfs).
  case_if; eexists _, _; tuple_eq.
Qed.
End AddPass.

(** ** Adding a range *)

Lemma live_nil t : arr_ok t -> tcnt t = 0%nat -> live t = [].
Proof. intros Hok Hc. apply nil_length_inv. by rewrite length_live. Qed.

Lemma wf_nonempty t : wf_type t -> rsize (region_at t 0) = 0 <-> tcnt t = 0%nat.
Proof.
  intros Hwf. split; [| apply Hwf]. intros Hz.
  destruct (live t) as [|r l] eqn:Hl.
  - rewrite <- (length_live t) by apply Hwf. by rewrite Hl.
  - exfalso. rewrite (region_at_zip t [] r l (wf_arr _ Hwf) Hl : region_at t 0 = r) in Hz.
    pose proof (wf_sorted _ Hwf) as Hs. rewrite Hl in Hs. simpl in Hs. lia.
Qed.

(** Inserting and merging: the range is added, the invariant kept. *)
Lemma add_commit_spec t base end_ nid flags :
  type_inv t -> 0 <= base < end_ -> end_ <= PHYS_ADDR_MAX -> tcnt t <> 0%nat ->
  (tcnt t + new_count end_ nid flags (live t) base <= tmax t)%nat ->
  exists t', add_commit t base end_ nid flags = Done t' /\ type_inv t'
    /\ tmax t' = tmax t /\ tarray t' = tarray t
    /\ forall a, covers t' a <-> covers t a \/ base <= a < end_.
Proof.
  intros [Hwf Hmin] Hb He Hc Hfit. unfold add_commit.
  destruct (add_pass_insert end_ nid flags He t base Hwf Hmin ltac:(lia) Hfit)
    as (t1 & st & en & -> & [P1 P2 P3 P4 P5 P6]). cbn [obind].
  assert (Hs1 : sorted_from 0 (live t1)).
  { rewrite P1. apply fill_sorted; try done; try lia. apply Hwf. }
  assert (Hlen : (tcnt t <= tcnt t1)%nat).
  { rewrite <- (length_live t1 P2), <- (length_live t) by apply Hwf. rewrite P1, fill_length.
    destruct (fill_scan end_ nid flags (live t) base) as [[? ?] ?]. lia. }
  assert (Hwf1 : wf_type t1).
  { split; try done.
    - rewrite P3. apply Hwf.
    - rewrite P5. by apply u64_small, sorted_sum_u64.
    - lia. }
  assert (Hcov : forall a, covers t1 a <-> covers t a \/ base <= a < end_).
  { intros a. unfold covers. rewrite P1. apply (fill_covered end_ nid flags _ 0); [apply Hwf | lia]. }
  destruct (new_count end_ nid flags (live t) base =? 0)%nat eqn:E; bool_facts.
  - assert (Hid : live t1 = live t).
    { rewrite P1. apply fill_id. unfold new_count in E.
      pose proof (fill_length end_ nid flags (live t) base).
      destruct (fill_scan end_ nid flags (live t) base) as [[? ?] ?]. lia. }
    exists t1. split; [done |]. split; [split; [done | by rewrite Hid] | done].
  - destruct P6 as [[? _] | (Hw1 & Hw2 & Hw3 & Hw4)]; [done |].
    destruct (merge_regions_spec t1 (Z.to_nat st) (Z.to_nat en)) as (t2 & -> & [M1 M2 M3 M4 M5]);
      try done; try lia.
    { rewrite <- (length_live t1 P2). lia. }
    exists t2. split; [done |]. split; [done |].
    split; [congruence |]. split; [congruence |].
    intros a. unfold covers. rewrite M2. apply Hcov.
Qed.

Lemma cap_size_bounds base size :
  0 <= base <= PHYS_ADDR_MAX -> 0 <= size ->
  memblock_cap_size base size = Z.min size (PHYS_ADDR_MAX - base)
  /\ u64 (base + memblock_cap_size base size) = base + memblock_cap_size base size
  /\ base + memblock_cap_size base size <= PHYS_ADDR_MAX
  /\ 0 <= memblock_cap_size base size.
Proof.
  intros Hb Hs. unfold memblock_cap_size, PHYS_ADDR_MAX in *.
  rewrite (u64_small (2 ^ 64 - 1 - base)) by lia.
  split; [done |]. split; [apply u64_small |]; lia.
Qed.

(** The range an argument pair denotes, capped as the code caps it. *)
Definition in_range (base size a : Z) : Prop :=
  base <= a < base + Z.min size (PHYS_ADDR_MAX - base).

Lemma get_set_type s p t : get_type (set_type s p t) p = t.
Proof. by destruct p. Qed.

Lemma get_set_type_ne s p q t : p <> q -> get_type (set_type s p t) q = get_type s q.
Proof. by destruct p, q. Qed.

#[export] Hint Rewrite get_set_type : quest.

(** ** Isolating and removing a range *)

Lemma sorted_split lo pre r post x :
  rbase r < x < rend r -> sorted_from lo (pre ++ r :: post) ->
  sorted_from lo (pre ++ low_part r x :: high_part r x :: post).
Proof.
  intros Hx. rewrite !sorted_from_app. intros (H1 & H2). split; [done |].
  simpl in *. destruct H2 as (G1 & G2 & G3 & G4). unfold low_part, high_part, rend in *.
  simpl. repeat split; try lia.
  replace (x + (rbase r + rsize r - x)) with (rbase r + rsize r) by lia. done.
Qed.

Lemma split_region_spec t pre r post x :
  wf_type t -> live t = pre ++ r :: post -> rbase r < x < rend r -> (tcnt t < tmax t)%nat ->
  exists t', split_region t (length pre) x = Done t' /\ wf_type t'
    /\ live t' = pre ++ low_part r x :: high_part r x :: post
    /\ tcnt t' = S (tcnt t) /\ tmax t' = tmax t /\ tarray t' = tarray t.
Proof.
  intros Hwf Hl Hx Hfit. assert (Hok : arr_ok t) by apply Hwf.
  pose proof (wf_sorted _ Hwf) as Hs. rewrite Hl in Hs.
  pose proof (sorted_split _ _ _ _ _ Hx Hs) as Hs'.
  apply sorted_from_app in Hs as [Hp Hs2]. pose proof (last_end_bounds _ _ Hp) as [Hlo _].
  simpl in Hs2. destruct Hs2 as (G1 & G2 & G3 & G4).
  unfold split_region. rewrite (region_at_zip _ _ _ _ Hok Hl). simpl.
  unfold rend, PHYS_ADDR_MAX in *.
  rewrite (u64_small (x - rbase r)), (u64_small (rsize r - (x - rbase r))) by lia.
  replace (rsize r - (x - rbase r)) with (rend r - x) by (unfold rend; lia).
  fold (high_part r x).
  destruct (set_region_zip t pre r (high_part r x) post (u64 (ttotal_size t - (x - rbase r))) Hok Hl)
    as [Hok1 Hl1].
  destruct (insert_region_zip _ _ _ (rbase r) (x - rbase r) (rnid r) (rflags r) Hok1 Hfit Hl1)
    as (t' & Hrun & Hok2 & Hm2 & Ha2 & Hc2 & Ht2 & Hl2).
  fold (low_part r x) in Hl2. exists t'. split; [exact Hrun |].
  split; [| done]. split; try done.
  - rewrite Hm2. apply Hwf.
  - by rewrite Hl2.
  - rewrite Ht2. simpl. rewrite u64_add_l, (wf_total _ Hwf), Hl, Hl2, !sum_sizes_app. simpl.
    pose proof (sorted_sum_u64 _ Hs') as Hb. rewrite sum_sizes_app in Hb. simpl in Hb.
    unfold rend in *. rewrite u64_small; lia.
  - lia.
Qed.

(** The window of contained regions [B] after the regions [A]. *)
Definition iso_window (A B : list memblock_region) (st en : nat) : Prop :=
  (B = [] /\ st = 0%nat /\ en = 0%nat)
  \/ (B <> [] /\ st = length A /\ en = (length A + length B)%nat).

Lemma iso_window_snoc A B r st en idx :
  iso_window A B st en -> idx = length (A ++ B) ->
  iso_window A (B ++ [r]) (if (en =? 0)%nat then idx else st) (S idx).
Proof.
  intros Hw ->. right. rewrite !length_app. simpl.
  destruct Hw as [(-> & -> & ->) | (HB & -> & ->)]; simpl.
  - split; [done |]. lia.
  - split; [by destruct B |].
    rewrite (proj2 (Nat.eqb_neq _ _)) by (destruct B; simpl; done || lia). lia.
Qed.

(** The outcome of isolating [base, end_): regions [A] below, [B] inside,
    [C] above. *)
Record iso_post (t t' : memblock_type) (A B C : list memblock_region) (st en : nat) : Prop := {
  ip_wf : wf_type t';
  ip_live : live t' = A ++ B ++ C;
  ip_max : tmax t' = tmax t;
  ip_array : tarray t' = tarray t;
  ip_window : iso_window A B st en;
}.

Section Isolate.
Context (base end_ : Z) (Hrange : base < end_).

(** The last contained region: everything after it lies above the range. *)
Lemma isolate_loop_last fuel t A B r C lo st en :
  wf_type t -> live t = (A ++ B) ++ r :: C -> sorted_from lo (r :: C) -> 0 <= lo ->
  base <= rbase r -> rend r <= end_ -> sorted_from end_ C ->
  (2 <= fuel)%nat -> iso_window A B st en ->
  exists t' B' st' en',
    isolate_loop fuel t (length (A ++ B)) base end_ st en = Done (t', st', en')
    /\ iso_post t t' A B' C st' en'.
Proof.
  intros Hwf Hl Hs H0 Hb He HC Hf Hw. assert (Hok : arr_ok t) by apply Hwf.
  destruct fuel as [|[|fuel]]; [lia | lia |].
  remember (S fuel) as fuel1 eqn:Hfuel. cbn [isolate_loop].
  rewrite (proj2 (Nat.ltb_lt _ _)) by exact (zip_lt _ _ _ _ Hok Hl).
  rewrite (region_at_zip _ _ _ _ Hok Hl), (sorted_rend_u64 lo r C H0 Hs).
  simpl in Hs. destruct Hs as (G1 & G2 & G3 & G4).
  rewrite (proj2 (Z.leb_gt end_ (rbase r))), (proj2 (Z.leb_gt (rend r) base)),
    (proj2 (Z.ltb_ge (rbase r) base)), (proj2 (Z.ltb_ge end_ (rend r)))
    by (unfold rend in *; lia).
  exists t, (B ++ [r]), (if (en =? 0)%nat then length (A ++ B) else st), (S (length (A ++ B))).
  split; [| split; try done; [by rewrite Hl, <- !app_assoc | by apply iso_window_snoc]].
  rewrite Hfuel. cbn [isolate_loop].
  destruct (S (length (A ++ B)) <? tcnt t)%nat eqn:E; bool_facts; [| done].
  assert (Hzip : live t = ((A ++ B) ++ [r]) ++ C) by by rewrite Hl, <- !app_assoc.
  destruct C as [|c C].
  { exfalso. pose proof (zip_end _ _ Hok Hzip) as Hz.
    rewrite (length_app (A ++ B)) in Hz. simpl in Hz. lia. }
  replace (S (length (A ++ B))) with (length ((A ++ B) ++ [r]))
    by (rewrite (length_app (A ++ B)); simpl; lia).
  rewrite (region_at_zip _ _ _ _ Hok Hzip). simpl in HC.
  by rewrite (proj2 (Z.leb_le _ _)) by lia.
Qed.

(** Once the scan is at or above [base]. *)
Lemma isolate_loop_above fuel t A B rest lo st en :
  wf_type t -> live t = (A ++ B) ++ rest -> sorted_from lo rest -> base <= lo -> 0 <= lo ->
  (tcnt t < tmax t)%nat -> (length rest + 2 <= fuel)%nat -> iso_window A B st en ->
  exists t' B' st' en',
    isolate_loop fuel t (length (A ++ B)) base end_ st en = Done (t', st', en')
    /\ iso_post t t' A B' (cut base end_ rest) st' en'.
Proof.
  revert t B rest lo st en. induction fuel as [|fuel IH]; [lia |].
  intros t B rest lo st en Hwf Hl Hs Hlo H0 Hfit Hf Hw.
  assert (Hok : arr_ok t) by apply Hwf.
  assert (Hstop : forall rest, live t = (A ++ B) ++ rest -> cut base end_ rest = rest ->
    exists t' B' st' en', Done (t, st, en) = Done (t', st', en')
      /\ iso_post t t' A B' (cut base end_ rest) st' en').
  { intros rest' Hl' Hcut. exists t, B, st, en. split; [done |].
    split; try done. by rewrite Hcut, Hl', app_assoc. }
  cbn [isolate_loop]. destruct rest as [|r rest].
  { rewrite (proj2 (Nat.ltb_ge _ _)) by (rewrite (zip_end _ _ Hok Hl); lia). by apply Hstop. }
  rewrite (proj2 (Nat.ltb_lt _ _)) by exact (zip_lt _ _ _ _ Hok Hl).
  rewrite (region_at_zip _ _ _ _ Hok Hl), (sorted_rend_u64 lo r rest H0 Hs).
  destruct (end_ <=? rbase r) eqn:E1; bool_facts.
  { apply Hstop; [done |]. apply (cut_above _ _ (rbase r)); [| lia].
    simpl in Hs |- *. intuition lia. }
  simpl in Hs. destruct Hs as (G1 & G2 & G3 & G4). rewrite cut_cons. unfold cut_region.
  rewrite (proj2 (Z.leb_gt end_ (rbase r))), (proj2 (Z.leb_gt (rend r) base)),
    (proj2 (Z.ltb_ge (rbase r) base)) by (unfold rend; lia).
  simpl in Hf. destruct (end_ <? rend r) eqn:E2; bool_facts; simpl.
  - (* the region crosses the end: split, then the bottom half is contained *)
    destruct (split_region_spec t (A ++ B) r rest end_ Hwf Hl ltac:(lia) Hfit)
      as (t2 & -> & Hwf2 & Hl2 & Hc2 & Hm2 & Ha2). cbn [obind].
    assert (Hsp : sorted_from lo (low_part r end_ :: high_part r end_ :: rest)).
    { apply (sorted_split lo [] r rest end_); simpl; [lia | done]. }
    rewrite (cut_above _ _ (rend r) rest G4) by lia.
    destruct (isolate_loop_last fuel t2 A B _ _ lo st en Hwf2 Hl2 Hsp H0)
      as (t' & B' & st' & en' & Hrun & [Q1 Q2 Q3 Q4 Q5]); try done; try lia.
    { unfold low_part; simpl. lia. }
    { unfold low_part, rend; simpl. lia. }
    { simpl in Hsp. unfold high_part, low_part, rend in *. simpl in *.
      intuition lia. }
    exists t', B', st', en'. split; [done |]. split; try done; congruence.
  - (* contained *)
    destruct (IH t (B ++ [r]) rest (rend r)
                (if (en =? 0)%nat then length (A ++ B) else st) (S (length (A ++ B))))
      as (t' & B' & st' & en' & Hrun & Hpost); try done; try (unfold rend in *; lia).
    { by rewrite Hl, <- !app_assoc. }
    { by apply iso_window_snoc. }
    replace (length (A ++ B ++ [r])) with (S (length (A ++ B))) in Hrun
      by (rewrite !length_app; simpl; lia).
    by exists t', B', st', en'.
Qed.

Lemma cut_high r :
  base < rend r ->
  cut_region base end_ (high_part r base) = if end_ <? rend r then [high_part r end_] else [].
Proof.
  intros Hr. unfold cut_region.
  assert (He : rend (high_part r base) = rend r) by (unfold high_part, rend; simpl; lia).
  assert (Hh : high_part (high_part r base) end_ = high_part r end_)
    by (unfold high_part at 1; by rewrite He).
  rewrite He, Hh. change (rbase (high_part r base)) with base.
  rewrite (proj2 (Z.leb_gt end_ base)), (proj2 (Z.leb_gt (rend r) base)) by lia.
  by rewrite Z.ltb_irrefl.
Qed.

(** The whole scan: [A] are the regions and pieces below the range. *)
Lemma isolate_loop_spec fuel t A rest lo :
  wf_type t -> live t = A ++ rest -> sorted_from lo rest -> 0 <= lo ->
  (tcnt t + 2 <= tmax t)%nat -> (length rest + 3 <= fuel)%nat ->
  exists t' A' B C st' en',
    isolate_loop fuel t (length A) base end_ 0 0 = Done (t', st', en')
    /\ iso_post t t' A' B C st' en' /\ A' ++ C = A ++ cut base end_ rest.
Proof.
  revert A rest lo. induction fuel as [|fuel IH]; [lia |].
  intros A rest lo Hwf Hl Hs H0 Hfit Hf. assert (Hok : arr_ok t) by apply Hwf.
  assert (Habove : forall t1 A1 rest1 lo1 f, wf_type t1 -> live t1 = A1 ++ rest1 ->
    sorted_from lo1 rest1 -> base <= lo1 -> 0 <= lo1 -> (tcnt t1 < tmax t1)%nat ->
    (length rest1 + 2 <= f)%nat -> tmax t1 = tmax t -> tarray t1 = tarray t ->
    exists t' A' B C st' en',
      isolate_loop f t1 (length A1) base end_ 0 0 = Done (t', st', en')
      /\ iso_post t t' A' B C st' en' /\ A' ++ C = A1 ++ cut base end_ rest1).
  { intros t1 A1 rest1 lo1 f W1 W2 W3 W4 W5 W6 W7 W8 W9.
    destruct (isolate_loop_above f t1 A1 [] rest1 lo1 0 0)
      as (t' & B' & st' & en' & Hrun & [Q1 Q2 Q3 Q4 Q5]); rewrite ?app_nil_r; try done.
    { by left. }
    rewrite app_nil_r in Hrun.
    exists t', A1, B', (cut base end_ rest1), st', en'.
    split; [done |]. split; [split; congruence || done | done]. }
  destruct rest as [|r rest].
  { eapply (Habove t A [] (Z.max base 0)); try done; try lia. }
  pose proof Hs as Hs'. simpl in Hs'. destruct Hs' as (G1 & G2 & G3 & G4). simpl in Hf.
  destruct (Z.le_gt_cases base (rbase r)) as [Hbr | Hbr].
  { eapply (Habove t A (r :: rest) (rbase r)); simpl; try done; try lia. }
  cbn [isolate_loop]. rewrite (proj2 (Nat.ltb_lt _ _)) by exact (zip_lt _ _ _ _ Hok Hl).
  rewrite (region_at_zip _ _ _ _ Hok Hl), (sorted_rend_u64 lo r rest H0 Hs).
  rewrite (proj2 (Z.leb_gt _ _)) by lia. rewrite cut_cons. unfold cut_region.
  rewrite (proj2 (Z.leb_gt end_ (rbase r))) by lia.
  destruct (rend r <=? base) eqn:E; bool_facts; simpl.
  - destruct (IH (A ++ [r]) rest (rend r)) as (t' & A' & B & C & st' & en' & Hrun & Hpost & Hcut);
      try done; try (unfold rend in *; lia); [by rewrite Hl, <- app_assoc |].
    rewrite length_app, Nat.add_1_r in Hrun. exists t', A', B, C, st', en'.
    by rewrite Hcut, <- app_assoc.
  - rewrite (proj2 (Z.ltb_lt _ _)) by lia.
    destruct (split_region_spec t A r rest base Hwf Hl ltac:(lia) ltac:(lia))
      as (t2 & -> & Hwf2 & Hl2 & Hc2 & Hm2 & Ha2). cbn [obind].
    set (hi := high_part r base).
    destruct (Habove t2 (A ++ [low_part r base]) (hi :: rest) base fuel)
      as (t' & A' & B & C & st' & en' & Hrun & Hpost & Hcut); try done; try lia.
    { by rewrite Hl2, <- app_assoc. }
    { unfold hi, high_part. simpl. unfold rend in *. simpl.
      replace (base + (rbase r + rsize r - base)) with (rbase r + rsize r) by lia.
      repeat split; try done; lia. }
    { simpl. lia. }
    rewrite length_app, Nat.add_1_r in Hrun. exists t', A', B, C, st', en'.
    split; [done |]. split; [done |]. rewrite Hcut, <- app_assoc, cut_cons.
    unfold hi. by rewrite cut_high by lia.
Qed.
End Isolate.

Lemma remove_iso t t' A B C st en :
  iso_post t t' A B C st en ->
  let t2 := remove_regions t' st (en - st) in
  wf_type t2 /\ live t2 = A ++ C /\ tmax t2 = tmax t /\ tarray t2 = tarray t.
Proof.
  intros [Q1 Q2 Q3 Q4 Q5].
  destruct Q5 as [(-> & -> & ->) | (_ & -> & ->)].
  - simpl. split; [done |]. by rewrite Q2.
  - replace (length A + length B - length A)%nat with (length B) by lia.
    destruct (wf_remove_regions (length B) t' A B C Q1 eq_refl Q2) as (W1 & W2 & W3 & W4).
    split; [done |]. split; [done |]. split; congruence.
Qed.

(** The first piece of a cut list starts where the list starts, or later. *)
Lemma cut_head base end_ lo l q l' :
  sorted_from lo l -> cut base end_ l = q :: l' ->
  lo < rbase q
  \/ exists r l1, l = r :: l1 /\ rbase q = rbase r /\ rnid q = rnid r /\ rflags q = rflags r.
Proof.
  revert lo. induction l as [|r l IH]; intros lo; [done |].
  intros (G1 & G2 & G3 & G4). rewrite cut_cons. unfold cut_region.
  destruct ((end_ <=? rbase r) || (rend r <=? base)) eqn:E; bool_facts.
  { intros [= <- <-]. right. by exists r, l. }
  case_if; simpl; [intros [= <- <-]; right; by exists r, l |].
  case_if; simpl; [intros [= <- <-]; left; simpl; lia |].
  intros Hq. left. destruct (IH _ G4 Hq) as [Hlt | (r2 & l2 & -> & -> & _)].
  - unfold rend in *. lia.
  - simpl in G4. unfold rend in *. lia.
Qed.

Lemma minimal_head_ext r p l :
  rend p = rend r -> rnid p = rnid r -> rflags p = rflags r ->
  minimal (r :: l) -> minimal (p :: l).
Proof.
  intros H1 H2 H3. destruct l as [|q l]; [done |]. rewrite !minimal_cons.
  unfold mergeable. rewrite H1, H2, H3. done.
Qed.

(** Cutting keeps a minimal list minimal: the pieces on both sides of the
    range do not touch. *)
Lemma cut_minimal base end_ lo l :
  base < end_ -> sorted_from lo l -> minimal l -> minimal (cut base end_ l).
Proof.
  intros Hbe. revert lo. induction l as [|r l IH]; intros lo Hs Hm; [done |].
  destruct Hs as (G1 & G2 & G3 & G4). specialize (IH _ G4 (minimal_tail _ _ Hm)).
  rewrite cut_cons. pose proof (cut_sorted base end_ _ _ G4 ltac:(lia)) as Hc.
  assert (Hr : minimal (r :: cut base end_ l)).
  { destruct (cut base end_ l) as [|q l'] eqn:Hq; [done |]. rewrite minimal_cons.
    split; [| done]. intros (M1 & M2 & M3).
    destruct (cut_head _ _ _ _ _ _ G4 Hq) as [Hlt | (r2 & l2 & -> & Q1 & Q2 & Q3)]; [lia |].
    rewrite minimal_cons in Hm. apply Hm. unfold mergeable. repeat split; congruence. }
  assert (Hlow : base < rend r -> minimal (low_part r base :: cut base end_ l)).
  { intros Hb. destruct (cut base end_ l) as [|q l'] eqn:Hq; [done |]. rewrite minimal_cons.
    split; [| done]. intros (M1 & _ & _). simpl in Hc.
    unfold low_part, rend in *. simpl in *. lia. }
  assert (Hhigh : minimal (high_part r end_ :: cut base end_ l)).
  { apply (minimal_head_ext r); try done. unfold high_part, rend. simpl. lia. }
  unfold cut_region.
  destruct ((end_ <=? rbase r) || (rend r <=? base)) eqn:E; bool_facts; [done |].
  case_if; case_if; cbn [app]; auto.
  rewrite minimal_cons. split; [| done]. intros (M1 & _ & _).
  unfold low_part, high_part, rend in *. simpl in *. lia.
Qed.

(** ** The two range operations *)

Lemma set_get_type s p : set_type s p (get_type s p) = s.
Proof. destruct s, p; reflexivity. Qed.

(** The special case for an empty array. *)
Lemma add_to_empty t base size nid flags :
  wf_type t -> tcnt t = 0%nat -> 0 < size -> 0 <= base -> base + size <= PHYS_ADDR_MAX ->
  let t' := mkType 1 (tmax t) size (<[0%nat := mkRegion base size flags nid]> (tregions t))
              (tarray t) in
  type_inv t' /\ forall a, covers t' a <-> covers t a \/ base <= a < base + size.
Proof.
  intros [[Hc Hlen] Hroom Hs Htot Hemp] H0 Hsz Hb He t'.
  assert (Hl : live t' = [mkRegion base size flags nid]).
  { unfold live, t'. simpl. destruct (tregions t); simpl in *; [lia |]. done. }
  unfold type_inv, covers. rewrite Hl, (live_nil t (conj Hc Hlen) H0).
  split; [split; [split |] |]; try done.
  - split; unfold t'; simpl; [lia | by rewrite length_insert].
  - rewrite Hl. simpl. unfold rend. simpl. lia.
  - rewrite Hl. simpl. lia.
  - intros a. simpl. unfold rend. simpl. intuition lia.
Qed.

(** [memblock_add_range] adds exactly the (capped) range to the covered
    addresses, keeps the invariant (sorted, disjoint, non-empty, minimal
    regions and an exact total) and returns 0, on every array with room to
    insert directly. *)
Lemma add_range_room dbl s p base size nid flags :
  type_inv (get_type s p) ->
  0 <= base <= PHYS_ADDR_MAX -> 0 <= size ->
  (tcnt (get_type s p) * 2 + 1 <= tmax (get_type s p))%nat ->
  exists t', memblock_add_range dbl s p base size nid flags = Done (0, set_type s p t')
    /\ type_inv t' /\ tmax t' = tmax (get_type s p) /\ tarray t' = tarray (get_type s p)
    /\ forall a, covers t' a <-> covers (get_type s p) a \/ in_range base size a.
Proof.
  intros Hinv Hb Hsz Hroom. destruct (cap_size_bounds base size Hb Hsz) as (C1 & C2 & C3 & C4).
  unfold memblock_add_range, in_range. rewrite C2, <- C1. clear C1 C2.
  set (sz := memblock_cap_size base size) in *. set (t := get_type s p) in *.
  destruct (sz =? 0) eqn:E0; bool_facts.
  { exists t. unfold t. rewrite set_get_type. do 4 (split; [done |]). intros a. intuition lia. }
  destruct (rsize (region_at t 0) =? 0) eqn:E1; bool_facts.
  { apply wf_nonempty in E1; [| apply Hinv].
    destruct (add_to_empty t base sz nid flags (proj1 Hinv) E1) as [H1 H2]; try lia.
    eexists. split; [reflexivity |]. done. }
  rewrite (proj2 (Nat.leb_le _ _)) by lia.
  destruct (add_commit_spec t base (base + sz) nid flags) as (t' & -> & G1 & G2 & G3 & G4);
    try done; try lia.
  { intros Hc. apply E1, wf_nonempty; [apply Hinv | done]. }
  { pose proof (new_count_bound (base + sz) nid flags (live t) base).
    rewrite (length_live t) in H by apply Hinv. lia. }
  exists t'. done.
Qed.

(** [memblock_remove_range] takes exactly the (capped) range away. *)
Lemma remove_range_room dbl s p base size :
  type_inv (get_type s p) ->
  0 <= base <= PHYS_ADDR_MAX -> 0 <= size ->
  (tcnt (get_type s p) + 2 <= tmax (get_type s p))%nat ->
  exists t', memblock_remove_range dbl s p base size = Done (0, set_type s p t')
    /\ type_inv t' /\ tmax t' = tmax (get_type s p) /\ tarray t' = tarray (get_type s p)
    /\ forall a, covers t' a <-> covers (get_type s p) a /\ ~ in_range base size a.
Proof.
  intros [Hwf Hmin] Hb Hsz Hroom.
  destruct (cap_size_bounds base size Hb Hsz) as (C1 & C2 & C3 & C4).
  unfold memblock_remove_range, memblock_isolate_range, in_range. rewrite C2, <- C1. clear C1 C2.
  set (sz := memblock_cap_size base size) in *. set (t := get_type s p) in *.
  destruct (sz =? 0) eqn:E0; bool_facts.
  { exists t. unfold t. simpl. rewrite !set_get_type. split; [done |]. split; [by split |].
    do 2 (split; [done |]). intros a. intuition lia. }
  unfold GROW_FUEL. cbn [grow_loop]. fold t.
  rewrite (proj2 (Nat.ltb_ge (tmax t) (tcnt t + 2))) by lia. cbn [obind Z.ltb]. fold t.
  change (0 <? 0) with false. cbn iota.
  destruct (isolate_loop_spec base (base + sz) ltac:(lia) (tcnt t + 4) t [] (live t) 0)
    as (t1 & A & B & C & st & en & Hrun & Hpost & Hcut); try done; try lia.
  { apply Hwf. }
  { rewrite (length_live t) by apply Hwf. lia. }
  cbn [length] in Hrun. rewrite Hrun. cbn [obind]. rewrite get_set_type. simpl.
  destruct (remove_iso _ _ _ _ _ _ _ Hpost) as (W1 & W2 & W3 & W4).
  exists (remove_regions t1 st (en - st)). split.
  { f_equal. f_equal. by destruct s, p. }
  simpl in Hcut. rewrite Hcut in W2.
  split; [split; [done |] |].
  { rewrite W2. apply (cut_minimal _ _ 0); [lia | apply Hwf | done]. }
  split; [done |]. split; [done |]. intros a. unfold covers. rewrite W2.
  rewrite (cut_covered _ _ 0); [done | apply Hwf | lia].
Qed.
