(* ===== verification/MemblockFree.v ===== *)
(** * Free ranges: iteration and search

    The reverse iterator of memblock walks two sorted arrays in lockstep.  It
    is shown to produce every intersection of a memory region with an area
    between reservations exactly once and in decreasing order, so that the
    top-down search returns the highest aligned address that fits, or 0 when
    there is none. *)

From S2P Require Import Prelude Memblock MemblockList MemblockArray MemblockRange.

(** ** The loop variable *)

Definition idx_ok (a b : Z) : Prop := -1 <= a < 2 ^ 31 /\ 0 <= b < 2 ^ 31.

Lemma pack_idx_val a b : idx_ok a b -> pack_idx a b = a mod 2 ^ 32 + b * 2 ^ 32.
Proof.
  intros [Ha Hb]. unfold pack_idx. rewrite (u64_small b) by lia.
  rewrite Z.shiftl_mul_pow2, (u64_small (b * 2 ^ 32)) by lia.
  apply lor_fields; [lia |]. apply u32_range.
Qed.

Lemma idx_a_pack a b : idx_ok a b -> idx_a_of (pack_idx a b) = a.
Proof.
  intros H. unfold idx_a_of. rewrite pack_idx_val by done. destruct H as [Ha Hb].
  change 0xffffffff with (Z.ones 32). rewrite Z.land_ones by lia.
  rewrite Z_mod_plus_full, Z.mod_mod by lia. unfold s32. rewrite Zplus_mod_idemp_l.
  rewrite Z.mod_small; lia.
Qed.

Lemma idx_b_pack a b : idx_ok a b -> idx_b_of (pack_idx a b) = b.
Proof.
  intros H. unfold idx_b_of. rewrite pack_idx_val by done. destruct H as [Ha Hb].
  rewrite Z.shiftr_div_pow2, Z.div_add by lia.
  rewrite (Z.div_small (a mod 2 ^ 32)) by (apply Z.mod_pos_bound; lia).
  unfold s32. rewrite Z.mod_small; lia.
Qed.

Lemma pack_idx_not_max a b : idx_ok a b -> pack_idx a b <> ULLONG_MAX.
Proof.
  intros H Heq. pose proof (idx_b_pack a b H) as Hb. rewrite Heq in Hb.
  destruct H as [_ H]. change (idx_b_of ULLONG_MAX) with (-1) in Hb. lia.
Qed.

(** ** Areas between reservations *)

Section Gaps.
Context (tb : memblock_type) (Hwf : wf_type tb).

Lemma live_lookup i : (i < tcnt tb)%nat ->
  exists pre post, live tb = pre ++ region_at tb i :: post /\ length pre = i.
Proof.
  intros Hi. assert (Hok : arr_ok tb) by apply Hwf.
  destruct (lookup_lt_is_Some_2 (live tb) i) as [r Hr].
  { by rewrite length_live. }
  exists (take i (live tb)), (drop (S i) (live tb)).
  rewrite region_at_live, (list_lookup_total_correct _ _ _ Hr) by done.
  rewrite take_drop_middle by done. split; [done |].
  rewrite length_take, length_live by done. lia.
Qed.

Lemma region_bounds i : (i < tcnt tb)%nat ->
  0 <= rbase (region_at tb i) /\ 0 < rsize (region_at tb i)
  /\ rend (region_at tb i) <= PHYS_ADDR_MAX
  /\ u64 (rbase (region_at tb i) + rsize (region_at tb i)) = rend (region_at tb i).
Proof.
  intros Hi. destruct (live_lookup i Hi) as (pre & post & Hl & Hlen).
  pose proof (wf_sorted _ Hwf) as Hs. rewrite Hl in Hs. apply sorted_from_app in Hs as [Hp Hs].
  pose proof (last_end_bounds _ _ Hp) as [Hlo _].
  rewrite (sorted_rend_u64 _ _ _ Hlo Hs). simpl in Hs. intuition lia.
Qed.

Lemma region_order i j : (i < j)%nat -> (j < tcnt tb)%nat ->
  rend (region_at tb i) <= rbase (region_at tb j).
Proof.
  intros Hij Hj. destruct (live_lookup j Hj) as (pre & post & Hl & Hlen).
  pose proof (wf_sorted _ Hwf) as Hs. rewrite Hl in Hs.
  assert (Hi : region_at tb i = pre !!! i).
  { rewrite region_at_live, Hl, lookup_total_app_l by lia. done. }
  rewrite Hi. apply sorted_from_app in Hs as [Hp Hs]. simpl in Hs.
  destruct (lookup_lt_is_Some_2 pre i) as [r Hr]; [lia |].
  rewrite (list_lookup_total_correct _ _ _ Hr).
  rewrite <- (take_drop_middle _ _ _ Hr), last_end_app in Hs.
  rewrite <- (take_drop_middle _ _ _ Hr), sorted_from_app in Hp.
  destruct Hp as [_ Hp]. simpl in Hp. simpl in Hs.
  pose proof (last_end_bounds (rend r) (drop (S i) pre)). intuition lia.
Qed.

Lemma gap_start_0 : gap_start tb 0 = 0.
Proof. done. Qed.

Lemma gap_start_S j : (j < tcnt tb)%nat -> gap_start tb (S j) = rend (region_at tb j).
Proof. intros Hj. simpl. apply region_bounds, Hj. Qed.

Lemma gap_end_lt j : (j < tcnt tb)%nat -> gap_end tb j = rbase (region_at tb j).
Proof. intros Hj. unfold gap_end. by rewrite (proj2 (Nat.ltb_lt _ _)) by lia. Qed.

Lemma gap_end_last : gap_end tb (tcnt tb) = PHYS_ADDR_MAX.
Proof. unfold gap_end. by rewrite Nat.ltb_irrefl. Qed.

Lemma gap_start_mono i j : (i <= j)%nat -> (j <= tcnt tb)%nat -> gap_start tb i <= gap_start tb j.
Proof.
  intros Hij Hj. destruct (decide (i = j)) as [-> | Hne]; [lia |].
  destruct j as [|j]; [lia |]. destruct i as [|i].
  - rewrite gap_start_0, gap_start_S by lia. pose proof (region_bounds j). unfold rend in *. lia.
  - rewrite !gap_start_S by lia. pose proof (region_bounds j). pose proof (region_order i j).
    unfold rend in *. lia.
Qed.

(** An area ends before the next one starts, with the region between. *)
Lemma gap_end_start i j : (i < j)%nat -> (j <= tcnt tb)%nat -> gap_end tb i < gap_start tb j.
Proof.
  intros Hij Hj. apply Z.lt_le_trans with (gap_start tb (S i)).
  - rewrite gap_end_lt, gap_start_S by lia. pose proof (region_bounds i). unfold rend in *. lia.
  - apply gap_start_mono; lia.
Qed.

Lemma gap_end_mono i j : (i <= j)%nat -> (j <= tcnt tb)%nat -> gap_end tb i <= gap_end tb j.
Proof.
  intros Hij Hj. destruct (decide (i = j)) as [-> | Hne]; [lia |].
  pose proof (gap_end_start i j ltac:(lia) Hj). enough (gap_start tb j <= gap_end tb j) by lia.
  destruct j as [|j]; [lia |]. rewrite gap_start_S by lia.
  destruct (decide (S j = tcnt tb)) as [He | He].
  - rewrite He, gap_end_last. apply region_bounds. lia.
  - rewrite gap_end_lt by lia. apply region_order; lia.
Qed.

(** Addresses in an area are not covered. *)
Lemma gap_free j a :
  (j <= tcnt tb)%nat -> gap_start tb j <= a < gap_end tb j -> ~ covers tb a.
Proof.
  intros Hj Ha Hcov. apply covered_elem in Hcov as (r & Hr & Hin).
  apply list_elem_of_lookup in Hr as [i Hi].
  assert (Hlt : (i < tcnt tb)%nat).
  { rewrite <- (length_live tb) by apply Hwf. by eapply lookup_lt_Some. }
  assert (Hreg : region_at tb i = r)
    by (rewrite region_at_live by done; by apply list_lookup_total_correct).
  rewrite <- Hreg in Hin. destruct (Nat.lt_ge_cases i j) as [Hij | Hij].
  - pose proof (gap_start_mono (S i) j ltac:(lia) Hj) as Hm. rewrite gap_start_S in Hm by lia. lia.
  - pose proof (gap_end_mono j i Hij ltac:(lia)) as Hm. rewrite (gap_end_lt i) in Hm by lia. lia.
Qed.

(** A range that avoids all regions lies in one area. *)
Lemma range_in_gap lo hi :
  0 <= lo < hi -> hi <= PHYS_ADDR_MAX -> (forall a, lo <= a < hi -> ~ covers tb a) ->
  exists j, (j <= tcnt tb)%nat /\ gap_start tb j <= lo /\ hi <= gap_end tb j.
Proof.
  intros Hlo Hhi Hfree.
  (* the first area whose end is above [lo] *)
  assert (Hex : exists j, (j <= tcnt tb)%nat /\ lo < gap_end tb j
            /\ forall i, (i < j)%nat -> gap_end tb i <= lo).
  { assert (Hind : forall n, (n <= S (tcnt tb))%nat ->
      (forall i, (i < n)%nat -> gap_end tb i <= lo)
      \/ exists j, (j < n)%nat /\ lo < gap_end tb j /\ forall i, (i < j)%nat -> gap_end tb i <= lo).
    { induction n as [|n IH]; intros Hn; [left; lia |].
      destruct IH as [IH | (j & J1 & J2 & J3)]; [lia | |].
      - destruct (Z.le_gt_cases (gap_end tb n) lo) as [Hle | Hgt].
        + left. intros i Hi. destruct (decide (i = n)) as [-> |]; [done | apply IH; lia].
        + right. exists n. split; [lia |]. done.
      - right. exists j. split; [lia |]. done. }
    destruct (Hind (S (tcnt tb)) ltac:(lia)) as [Hall | (j & J1 & J2 & J3)].
    - specialize (Hall (tcnt tb) ltac:(lia)). rewrite gap_end_last in Hall. lia.
    - exists j. split; [lia |]. done. }
  destruct Hex as (j & Hj & Hjlo & Hbelow). exists j. split; [done |].
  assert (Hcov : forall i, (i < tcnt tb)%nat -> forall a,
            rbase (region_at tb i) <= a < rend (region_at tb i) -> covers tb a).
  { intros i Hi a Ha. apply covered_elem. exists (region_at tb i). split; [| done].
    destruct (live_lookup i Hi) as (pre & post & Hl & _). rewrite Hl. apply elem_of_app. right.
    apply elem_of_cons. by left. }
  split.
  - destruct j as [|j]; [rewrite gap_start_0; lia |]. rewrite gap_start_S by lia.
    specialize (Hbelow j ltac:(lia)). rewrite gap_end_lt in Hbelow by lia.
    destruct (Z.le_gt_cases (rend (region_at tb j)) lo) as [| Hgt]; [done |].
    exfalso. apply (Hfree lo ltac:(lia)). apply (Hcov j); lia.
  - destruct (decide (j = tcnt tb)) as [-> | Hne]; [by rewrite gap_end_last |].
    rewrite gap_end_lt in * by lia.
    destruct (Z.le_gt_cases hi (rbase (region_at tb j))) as [| Hgt]; [done |].
    exfalso. apply (Hfree (rbase (region_at tb j)) ltac:(lia)).
    apply (Hcov j); [lia |]. pose proof (region_bounds j). unfold rend. lia.
Qed.
End Gaps.

(** ** The reverse iterator *)

Section Reverse.
Context (s : memblock) (nid flags : Z).
Context (Hmem : wf_type (memory s)) (Hres : wf_type (reserved s)).

Let ta := memory s.
Let tb := reserved s.

(** Memory region [i] is selected and meets area [j]. *)
Definition selected (i : nat) : Prop :=
  (i < tcnt ta)%nat /\ should_skip_region MEMORY (region_at ta i) nid flags = false.

Definition meets (i j : nat) : Prop :=
  gap_start tb j < rend (region_at ta i) /\ rbase (region_at ta i) < gap_end tb j.

Definition meet_start (i j : nat) : Z := Z.max (rbase (region_at ta i)) (gap_start tb j).
Definition meet_end (i j : nat) : Z := Z.min (rend (region_at ta i)) (gap_end tb j).

(** The pairs still to be visited when [idx_a + 1 = n] and [idx_b = jb]. *)
Definition remaining (n jb : nat) (i j : nat) : Prop :=
  selected i /\ (i < n)%nat /\ (j <= jb)%nat /\ meets i j.

Lemma scan_rev_spec i jb :
  (i < tcnt ta)%nat -> (jb <= tcnt tb)%nat ->
  match scan_rev (S jb) tb (rbase (region_at ta i)) (rend (region_at ta i)) with
  | ScanNext z =>
      exists j, z = Z.of_nat j /\ (j <= jb)%nat
        /\ (forall j', (j' <= jb)%nat -> ~ meets i j')
        /\ (forall j', (j < j')%nat -> (j' <= jb)%nat -> rend (region_at ta i) <= gap_start tb j')
  | ScanFound j =>
      (j <= jb)%nat /\ meets i j
      /\ (forall j', (j < j')%nat -> (j' <= jb)%nat -> rend (region_at ta i) <= gap_start tb j')
  end.
Proof.
  intros Hi. induction jb as [|jb IH]; intros Hjb; cbn [scan_rev].
  - case_if; [| case_if].
    + exists 0%nat. split; [done |]. split; [lia |]. split; [| lia].
      intros j' Hj'. replace j' with 0%nat by lia. unfold meets. lia.
    + split; [lia |]. split; [unfold meets; lia | lia].
    + exfalso. rewrite gap_start_0 in *. pose proof (region_bounds ta Hmem i Hi).
      unfold rend in *. lia.
  - case_if; [| case_if].
    + exists (S jb). split; [done |]. split; [lia |]. split; [| lia].
      intros j' Hj' [_ Hm]. pose proof (gap_end_mono tb Hres j' (S jb) Hj' Hjb). lia.
    + split; [lia |]. split; [unfold meets; lia | lia].
    + specialize (IH ltac:(lia)). cbn [scan_rev] in IH.
      destruct (if gap_end tb jb <=? rbase (region_at ta i) then _ else _) as [z | j].
      * destruct IH as (j & -> & J1 & J2 & J3). exists j. split; [done |]. split; [lia |].
        split.
        -- intros j' Hj' Hm. destruct (decide (j' = S jb)) as [-> | Hne].
           ++ destruct Hm. lia.
           ++ apply (J2 j'); [lia | done].
        -- intros j' H1 H2. destruct (decide (j' = S jb)) as [-> | Hne]; [done | apply J3; lia].
      * destruct IH as (J1 & J2 & J3). split; [lia |]. split; [done |].
        intros j' H1 H2. destruct (decide (j' = S jb)) as [-> | Hne]; [done | apply J3; lia].
Qed.

(** What one call of the iterator does: it returns the last remaining pair
    and leaves exactly the others, all of them below it. *)
Definition rev_step_ok (n jb : nat) (res : Z * option (Z * Z * Z)) : Prop :=
  match res with
  | (idx', None) => idx' = ULLONG_MAX /\ forall i j, ~ remaining n jb i j
  | (idx', Some (ts, te, _)) =>
      exists i j n' jb', remaining n jb i j
        /\ ts = meet_start i j /\ te = meet_end i j
        /\ idx' = pack_idx (Z.of_nat n' - 1) (Z.of_nat jb')
        /\ (n' <= n)%nat /\ (jb' <= jb)%nat /\ (n' + jb' < n + jb)%nat
        /\ (forall i' j', remaining n jb i' j' -> (i' = i /\ j' = j) \/ remaining n' jb' i' j')
        /\ (forall i' j', remaining n' jb' i' j' -> meet_end i' j' <= ts)
  end.

Lemma region_below i i' :
  (i' < i)%nat -> (i < tcnt ta)%nat -> rend (region_at ta i') <= rbase (region_at ta i).
Proof. intros. by apply region_order. Qed.

Lemma rev_step_mono n jb n0 jb0 res :
  (n0 <= n)%nat -> (jb0 <= jb)%nat ->
  (forall i j, remaining n jb i j -> remaining n0 jb0 i j) ->
  rev_step_ok n0 jb0 res -> rev_step_ok n jb res.
Proof.
  intros Hn Hjb Hsub. destruct res as [idx' [[[ts te] ?]|]]; simpl.
  - intros (i & j & n' & jb' & (R1 & R2 & R3 & R4) & E1 & E2 & E3 & L1 & L2 & L3 & Hcov & Hlow).
    exists i, j, n', jb'. split; [split; [done |]; split; [lia |]; split; [lia | done] |].
    do 3 (split; [done |]). do 3 (split; [lia |]). split; [| done].
    intros i' j' Hr. by apply Hcov, Hsub.
  - intros [-> Hnone]. split; [done |]. intros i j Hr. by apply (Hnone i j), Hsub.
Qed.

Lemma gap_start_end_lt i j :
  (j <= tcnt tb)%nat -> meets i j -> forall j', (j' < j)%nat ->
  gap_start tb j <= rbase (region_at ta i) -> ~ meets i j'.
Proof.
  intros Hj Hm j' Hj' Hle [_ Hm']. pose proof (gap_end_start tb Hres j' j Hj' Hj). lia.
Qed.

(** A pair was found: advance the array whose element starts higher. *)
Lemma rev_found_ok i j jb :
  selected i -> (j <= jb)%nat -> (jb <= tcnt tb)%nat -> meets i j ->
  (forall j', (j < j')%nat -> (j' <= jb)%nat -> rend (region_at ta i) <= gap_start tb j') ->
  rev_step_ok (S i) jb
    (if gap_start tb j <=? rbase (region_at ta i)
     then pack_idx (Z.of_nat i - 1) (Z.of_nat j) else pack_idx (Z.of_nat i) (Z.of_nat j - 1),
     Some (meet_start i j, meet_end i j, rnid (region_at ta i))).
Proof.
  intros Hsel Hj Hjb Hm Habove. pose proof Hsel as [Hi _].
  assert (Hrem : remaining (S i) jb i j) by (split; [done | split; [lia | by split]]).
  assert (Hup : forall i' j', (j < j')%nat -> ~ remaining (S i) jb i' j').
  { intros i' j' Hlt (Q1 & Q2 & Q3 & Q4 & Q5). specialize (Habove j' Hlt Q3).
    destruct (decide (i' = i)) as [-> | Hne]; [lia |].
    pose proof (region_below i i' ltac:(lia) Hi). pose proof (region_bounds ta Hmem i Hi).
    unfold rend in *. lia. }
  destruct (gap_start tb j <=? rbase (region_at ta i)) eqn:E; bool_facts; simpl.
  - exists i, j, i, j. do 4 (split; [done |]). do 3 (split; [lia |]). split.
    + intros i' j' Hr. pose proof Hr as (Q1 & Q2 & Q3 & Q4).
      destruct (Nat.lt_ge_cases j j') as [Hlt | Hge]; [by destruct (Hup i' j' Hlt) |].
      destruct (decide (i' = i)) as [-> | Hne].
      * left. split; [done |]. destruct (decide (j' = j)) as [| Hne']; [done |].
        exfalso. apply (gap_start_end_lt i j ltac:(lia) Hm j' ltac:(lia) E Q4).
      * right. split; [done |]. split; [lia |]. by split; [lia |].
    + intros i' j' (Q1 & Q2 & Q3 & Q4). pose proof (region_below i i' Q2 Hi).
      unfold meet_end, meet_start. lia.
  - assert (j <> 0%nat).
    { intros ->. rewrite gap_start_0 in E. pose proof (region_bounds ta Hmem i Hi). lia. }
    exists i, j, (S i), (j - 1)%nat. do 3 (split; [done |]).
    split; [f_equal; lia |]. do 3 (split; [lia |]). split.
    + intros i' j' Hr. pose proof Hr as (Q1 & Q2 & Q3 & Q4).
      destruct (Nat.lt_ge_cases j j') as [Hlt | Hge]; [by destruct (Hup i' j' Hlt) |].
      destruct (decide (j' = j)) as [-> | Hne].
      * left. split; [| done]. destruct (decide (i' = i)) as [| Hne']; [done |].
        exfalso. destruct Q4 as [Q4 _]. pose proof (region_below i i' ltac:(lia) Hi). lia.
      * right. split; [done |]. split; [lia |]. by split; [lia |].
    + intros i' j' (Q1 & Q2 & Q3 & Q4).
      pose proof (gap_end_start tb Hres j' j ltac:(lia) ltac:(lia)).
      unfold meet_end, meet_start. lia.
Qed.

Lemma next_rev_spec n jb :
  (n <= tcnt ta)%nat -> (jb <= tcnt tb)%nat ->
  rev_step_ok n jb (next_rev n s (Z.of_nat jb) nid flags MEMORY (Some RESERVED)).
Proof.
  revert jb. induction n as [|i IH]; intros jb Hn Hjb; cbn [next_rev].
  { split; [done |]. intros i j (_ & Hlt & _). lia. }
  cbn [get_type]. fold ta tb.
  destruct (region_bounds ta Hmem i ltac:(lia)) as (B1 & B2 & B3 & ->).
  destruct (should_skip_region MEMORY (region_at ta i) nid flags) eqn:Hskip.
  { apply (rev_step_mono _ _ i jb); [lia | lia | | apply IH; lia].
    intros i' j' (Q1 & Q2 & Q3 & Q4).
    assert (i' <> i) by (intros ->; destruct Q1; congruence).
    split; [done |]. split; [lia | done]. }
  assert (Hsel : selected i) by (split; [lia | done]).
  replace (Z.to_nat (Z.of_nat jb + 1)) with (S jb) by lia.
  pose proof (scan_rev_spec i jb ltac:(lia) Hjb) as Hscan.
  destruct (scan_rev (S jb) tb (rbase (region_at ta i)) (rend (region_at ta i))) as [z | j].
  - destruct Hscan as (j & -> & J1 & J2 & J3).
    apply (rev_step_mono _ _ i j); [lia | lia | | apply IH; lia].
    intros i' j' (Q1 & Q2 & Q3 & Q4).
    assert (i' <> i) by (intros ->; by apply (J2 j')).
    split; [done |]. split; [lia |]. split; [| done].
    destruct (Nat.lt_ge_cases j j') as [Hlt | Hge]; [| done].
    exfalso. specialize (J3 j' Hlt Q3). pose proof (region_below i i' ltac:(lia) ltac:(lia)).
    destruct Q4. unfold rend in *. lia.
  - destruct Hscan as (J1 & J2 & J3). by apply rev_found_ok.
Qed.
End Reverse.
