(* ===== verification/MemblockSearch.v ===== *)
(** * The top-down search

    [__memblock_find_range_top_down] on well-formed arrays: it terminates
    within its fuel and returns the highest aligned address whose block lies
    in one selected memory region and meets no reservation, or 0 when there
    is none. *)

From S2P Require Import Prelude Memblock MemblockList MemblockArray MemblockRange MemblockFree.

(** The indices of the iterators are C [int]s. *)
Definition counts_ok (s : memblock) : Prop :=
  Z.of_nat (tcnt (memory s)) < 2 ^ 31 /\ Z.of_nat (tcnt (reserved s)) < 2 ^ 31.

(** The block [a, a + size) lies in a selected region and is not reserved. *)
Definition fits (s : memblock) (nid flags size a : Z) : Prop :=
  (exists i, selected s nid flags i
     /\ rbase (region_at (memory s) i) <= a
     /\ a + size <= rend (region_at (memory s) i))
  /\ forall x, a <= x < a + size -> ~ covers (reserved s) x.

(** An acceptable answer of a search in [start, end). *)
Definition candidate (s : memblock) (start end_ size align nid flags a : Z) : Prop :=
  start <= a /\ a + size <= end_ /\ a mod align = 0 /\ fits s nid flags size a.

(** ** One range *)

Lemma round_down_greatest x a y :
  is_pow2 a -> 0 <= x < 2 ^ 64 -> y mod a = 0 -> y <= x -> y <= round_down x a.
Proof.
  intros Ha Hx Hy Hle. destruct (round_down_spec x a Ha Hx) as (R1 & R2 & R3).
  pose proof (is_pow2_range a Ha).
  assert (Hy' : y = a * (y / a)) by (apply Z.div_exact; lia).
  assert (Hr' : round_down x a = a * (round_down x a / a)) by (apply Z.div_exact; lia).
  revert R2 Hle. rewrite Hy', Hr'. generalize (y / a), (round_down x a / a). intros p q.
  intros R2 Hle. assert (p < q + 1) by (apply Z.mul_lt_mono_pos_l with a; lia). nia.
Qed.

Section OneRange.
Context (start end_ size align ts te : Z).
Context (Hal : is_pow2 align) (Hse : 0 <= start <= end_) (He : end_ < 2 ^ 64).
Context (Hsz : 0 < size).

Lemma cand_top_down_sound c :
  cand_top_down start end_ size align ts te = Some c ->
  Z.max ts start <= c /\ c + size <= Z.min te end_ /\ c mod align = 0.
Proof.
  unfold cand_top_down, clamp. case_if; [done |]. rewrite u64_small by lia.
  destruct (round_down_spec (Z.min (Z.max te start) end_ - size) align) as (R1 & R2 & R3);
    [done | lia |].
  case_if; [| done]. intros [= <-]. lia.
Qed.

Lemma cand_top_down_greatest a :
  Z.max ts start <= a -> a + size <= Z.min te end_ -> a mod align = 0 ->
  exists c, cand_top_down start end_ size align ts te = Some c /\ a <= c.
Proof.
  intros Ha1 Ha2 Ha3. unfold cand_top_down, clamp. case_if; [lia |].
  rewrite u64_small by lia.
  pose proof (round_down_greatest (Z.min (Z.max te start) end_ - size) align a) as Hg.
  specialize (Hg Hal ltac:(lia) Ha3 ltac:(lia)).
  rewrite (proj2 (Z.leb_le _ _)) by lia. eauto.
Qed.
End OneRange.

(** ** The search loop *)

Section Search.
Context (s : memblock) (nid flags : Z).
Context (Hmem : wf_type (memory s)) (Hres : wf_type (reserved s)) (Hcnt : counts_ok s).

Abbreviation next := (fun idx => __next_mem_range_rev s idx nid flags MEMORY (Some RESERVED)).

Lemma next_rev_start :
  next ULLONG_MAX
  = next_rev (tcnt (memory s)) s (Z.of_nat (tcnt (reserved s))) nid flags MEMORY (Some RESERVED).
Proof.
  unfold __next_mem_range_rev. rewrite Z.eqb_refl. cbn [get_type]. f_equal. lia.
Qed.

Lemma next_rev_packed n jb :
  (n <= tcnt (memory s))%nat -> (jb <= tcnt (reserved s))%nat ->
  next (pack_idx (Z.of_nat n - 1) (Z.of_nat jb))
  = next_rev n s (Z.of_nat jb) nid flags MEMORY (Some RESERVED).
Proof.
  intros Hn Hjb. destruct Hcnt as [C1 C2].
  assert (Hok : idx_ok (Z.of_nat n - 1) (Z.of_nat jb)) by (split; lia).
  unfold __next_mem_range_rev.
  rewrite (proj2 (Z.eqb_neq _ _) (pack_idx_not_max _ _ Hok)).
  rewrite idx_a_pack, idx_b_pack by done. f_equal. lia.
Qed.

(** The loop ends with the first pair its body accepts. *)
Lemma for_each_rev_spec body fuel : forall n jb idx,
  (n <= tcnt (memory s))%nat -> (jb <= tcnt (reserved s))%nat -> (n + jb < fuel)%nat ->
  next idx = next_rev n s (Z.of_nat jb) nid flags MEMORY (Some RESERVED) ->
  (exists i j r, for_each_range fuel next body idx = Done r
     /\ remaining s nid flags n jb i j /\ body (meet_start s i j) (meet_end s i j) = Some r
     /\ forall i' j', remaining s nid flags n jb i' j' ->
          body (meet_start s i' j') (meet_end s i' j') = None
          \/ (i' = i /\ j' = j) \/ meet_end s i' j' <= meet_start s i j)
  \/ (for_each_range fuel next body idx = Done 0
      /\ forall i j, remaining s nid flags n jb i j ->
           body (meet_start s i j) (meet_end s i j) = None).
Proof.
  induction fuel as [|fuel IH]; intros n jb idx Hn Hjb Hf Hidx; [lia |].
  cbn [for_each_range]. rewrite Hidx.
  pose proof (next_rev_spec s nid flags Hmem Hres n jb Hn Hjb) as Hstep.
  destruct (next_rev n s (Z.of_nat jb) nid flags MEMORY (Some RESERVED))
    as [idx' [[[ts te] nn]|]].
  2:{ right. destruct Hstep as [_ Hnone]. split; [done |]. intros i j Hr. by destruct (Hnone i j). }
  destruct Hstep as (i & j & n' & jb' & R & -> & -> & -> & L1 & L2 & L3 & Hcov & Hlow).
  assert (Hok : idx_ok (Z.of_nat n' - 1) (Z.of_nat jb')) by (destruct Hcnt; split; lia).
  rewrite (proj2 (Z.eqb_neq _ _) (pack_idx_not_max _ _ Hok)).
  destruct (body (meet_start s i j) (meet_end s i j)) as [c|] eqn:Hb.
  - left. exists i, j, c. do 3 (split; [done |]). intros i' j' Hr. right.
    destruct (Hcov i' j' Hr) as [? | Hr']; [by left | right; by apply Hlow].
  - destruct (IH n' jb' (pack_idx (Z.of_nat n' - 1) (Z.of_nat jb')))
      as [(i1 & j1 & r & E & (Q1 & Q2 & Q3 & Q4) & Hbr & Hmax) | [E Hnone]];
      try lia; [by apply next_rev_packed; lia | |].
    + left. exists i1, j1, r. split; [done |].
      split; [split; [done | split; [lia | split; [lia | done]]] |].
      split; [done |]. intros i' j' Hr.
      destruct (Hcov i' j' Hr) as [[-> ->] | Hr']; [by left | by apply Hmax].
    + right. split; [done |]. intros i' j' Hr.
      destruct (Hcov i' j' Hr) as [[-> ->] | Hr']; [done | by apply Hnone].
Qed.

(** Pairs and free blocks. *)
Lemma meet_fits i j size a :
  remaining s nid flags (tcnt (memory s)) (tcnt (reserved s)) i j -> 0 < size ->
  meet_start s i j <= a -> a + size <= meet_end s i j -> fits s nid flags size a.
Proof.
  intros (R1 & R2 & R3 & R4) Hsz Hlo Hhi. unfold meet_start, meet_end in *. split.
  - exists i. split; [done |]. lia.
  - intros x Hx. apply (gap_free (reserved s) Hres j); [done | lia].
Qed.

Lemma fits_meet size a :
  0 < size -> fits s nid flags size a ->
  exists i j, remaining s nid flags (tcnt (memory s)) (tcnt (reserved s)) i j
    /\ meet_start s i j <= a /\ a + size <= meet_end s i j.
Proof.
  intros Hsz ((i & Hsel & Hlo & Hhi) & Hfree). pose proof Hsel as [Hi _].
  destruct (region_bounds (memory s) Hmem i Hi) as (B1 & B2 & B3 & _).
  destruct (range_in_gap (reserved s) Hres a (a + size)) as (j & J1 & J2 & J3); try lia; [done |].
  exists i, j. unfold meet_start, meet_end.
  split; [split; [done |]; split; [done |]; split; [done |]; unfold meets; lia | lia].
Qed.

(** The search returns the highest candidate, or 0 if there is none. *)
Lemma find_top_down_spec start end_ size align :
  is_pow2 align -> 0 < start <= end_ -> end_ < 2 ^ 64 -> 0 < size ->
  exists r, __memblock_find_range_top_down s start end_ size align nid flags = Done r
    /\ ((r <> 0 /\ candidate s start end_ size align nid flags r
         /\ forall a, candidate s start end_ size align nid flags a -> a <= r)
        \/ (r = 0 /\ forall a, ~ candidate s start end_ size align nid flags a)).
Proof.
  intros Hal Hse He Hsz. unfold __memblock_find_range_top_down.
  destruct (for_each_rev_spec (cand_top_down start end_ size align) (range_fuel s)
              (tcnt (memory s)) (tcnt (reserved s)) ULLONG_MAX)
    as [(i & j & r & -> & R & Hb & Hmax) | [-> Hnone]];
    [done | done | unfold range_fuel; lia | apply next_rev_start | |].
  - exists r. split; [done |]. left.
    destruct (cand_top_down_sound start end_ size align _ _ Hal ltac:(lia) He Hsz _ Hb) as (S1 & S2 & S3).
    split; [lia |]. split.
    { split; [lia |]. split; [lia |]. split; [done |]. apply (meet_fits i j); [done | lia ..]. }
    intros a (A1 & A2 & A3 & A4). destruct (fits_meet size a Hsz A4) as (i' & j' & R' & M1 & M2).
    destruct (cand_top_down_greatest start end_ size align (meet_start s i' j') (meet_end s i' j')
      Hal ltac:(lia) He Hsz a) as (c & Hc & Hle); [lia | lia | done |].
    destruct (Hmax i' j' R') as [Hn | [[-> ->] | Hle']]; [congruence | | lia].
    rewrite Hb in Hc. injection Hc as ->. done.
  - exists 0. split; [done |]. right. split; [done |].
    intros a (A1 & A2 & A3 & A4). destruct (fits_meet size a Hsz A4) as (i' & j' & R' & M1 & M2).
    destruct (cand_top_down_greatest start end_ size align (meet_start s i' j') (meet_end s i' j')
      Hal ltac:(lia) He Hsz a) as (c & Hc & Hle); [lia | lia | done |].
    rewrite (Hnone i' j' R') in Hc. done.
Qed.
End Search.
