(* ===== verification/MemblockAlloc.v ===== *)
(** * Allocation: the contract of the boot allocator

    The state invariant of the allocator, its abstract specification (a set
    of memory addresses and a set of reserved ones) and the proof that the
    entry points refine it. *)

From S2P Require Import Prelude Memblock MemblockList MemblockArray MemblockRange.
From S2P Require Import MemblockFree MemblockSearch.

(** The state between calls.  No code of the kernel sets the bottom-up
    direction or marks a mirror region. *)
Record mb_inv (s : memblock) : Prop := {
  mi_memory : type_inv (memory s);
  mi_reserved : type_inv (reserved s);
  mi_counts : counts_ok s;
  mi_top_down : bottom_up s = false;
  mi_no_mirror : system_has_some_mirror s = false;
  mi_limit : 0 <= current_limit s < 2 ^ 64;
}.

(** The reserved array takes the fast path of [memblock_add_range]. *)
Definition has_room (t : memblock_type) : Prop := (tcnt t * 2 + 1 <= tmax t)%nat.

#[export] Instance has_room_dec t : Decision (has_room t).
Proof. unfold has_room. apply _. Defined.

Lemma wf_init : wf_type init_type.
Proof.
  split; [split; [vm_compute; lia | reflexivity] | vm_compute; lia | done | done | done].
Qed.

Lemma memblock_init_inv : mb_inv memblock_init.
Proof.
  split; try done; try (split; [apply wf_init | done]).
Qed.

(** The bounds [memblock_find_in_range_node] searches in. *)
Definition search_start (start : Z) : Z := Z.max start PAGE_SIZE.
Definition search_end (s : memblock) (start end_ : Z) : Z :=
  Z.max (search_start start)
    (if (end_ =? MEMBLOCK_ALLOC_ACCESSIBLE) || (end_ =? MEMBLOCK_ALLOC_NOLEAKTRACE)
     then current_limit s else end_).

Lemma find_node_spec s size align start end_ nid flags :
  mb_inv s -> is_pow2 align -> 0 <= start < 2 ^ 64 -> 0 <= end_ < 2 ^ 64 -> 0 < size ->
  exists r, memblock_find_in_range_node s size align start end_ nid flags = Done r
    /\ ((r <> 0
         /\ candidate s (search_start start) (search_end s start end_) size align nid flags r
         /\ forall a, candidate s (search_start start) (search_end s start end_) size align
                        nid flags a -> a <= r)
        \/ (r = 0 /\ forall a, ~ candidate s (search_start start) (search_end s start end_)
                                 size align nid flags a)).
Proof.
  intros [[Hm _] [Hr _] Hc Htd _ Hl] Hal Hs He Hsz.
  unfold memblock_find_in_range_node. rewrite Htd. fold (search_start start).
  fold (search_end s start end_).
  apply find_top_down_spec; try done; unfold search_end, search_start, PAGE_SIZE; [lia |].
  destruct (_ || _); lia.
Qed.

(** A candidate ends below the top of the address space. *)
Lemma fits_bounds s nid flags size a :
  wf_type (memory s) -> fits s nid flags size a -> 0 <= a /\ a + size <= PHYS_ADDR_MAX.
Proof.
  intros Hm ((i & [Hi _] & Hlo & Hhi) & _).
  destruct (region_bounds (memory s) Hm i Hi) as (B1 & B2 & B3 & _). lia.
Qed.

(** Adding to the reserved array keeps the invariant. *)
Lemma inv_set_reserved s t :
  mb_inv s -> type_inv t -> Z.of_nat (tcnt t) < 2 ^ 31 -> mb_inv (set_type s RESERVED t).
Proof.
  intros [H1 H2 H3 H4 H5 H6] Ht Hc. split; simpl; try done. destruct H3. split; done.
Qed.

Lemma has_room_counts t t' :
  has_room t -> type_inv t' -> tmax t' = tmax t -> Z.of_nat (tmax t) < 2 ^ 31 ->
  Z.of_nat (tcnt t') < 2 ^ 31.
Proof. intros Hr [[[Ha _] _ _ _ _] _] Hm Hb. lia. Qed.

(** What an allocation returns and does to the state. *)
Definition alloc_post (s : memblock) (size align start end_ nid : Z) (r : Z) (s' : memblock)
    : Prop :=
  let cand := candidate s (search_start start) (search_end s start end_) size align nid
                MEMBLOCK_NONE in
  (r <> 0 /\ cand r /\ (forall a, cand a -> a <= r)
   /\ mb_inv s' /\ memory s' = memory s /\ current_limit s' = current_limit s
   /\ tmax (reserved s') = tmax (reserved s)
   /\ forall a, covers (reserved s') a <-> covers (reserved s) a \/ r <= a < r + size)
  \/ (r = 0 /\ s' = s /\ forall a, ~ cand a).

Lemma alloc_range_spec s size align start end_ :
  mb_inv s -> has_room (reserved s) -> Z.of_nat (tmax (reserved s)) < 2 ^ 31 ->
  align = 0 \/ is_pow2 align -> 0 <= start < 2 ^ 64 -> 0 <= end_ < 2 ^ 64 -> 0 < size ->
  exists r s', memblock_phys_alloc_range s size align start end_ = Done (r, s')
    /\ alloc_post s size (if align =? 0 then SMP_CACHE_BYTES else align) start end_
         NUMA_NO_NODE r s'.
Proof.
  intros Hinv Hroom Hmax Hal Hs He Hsz.
  unfold memblock_phys_alloc_range, memblock_alloc_range_nid, choose_memblock_flags.
  rewrite (mi_no_mirror _ Hinv). set (al := if align =? 0 then SMP_CACHE_BYTES else align).
  assert (Hal' : is_pow2 al).
  { unfold al. case_if; [exists 6; split; [lia | reflexivity] |]. destruct Hal; done. }
  unfold alloc_attempt.
  destruct (find_node_spec s size al start end_ NUMA_NO_NODE MEMBLOCK_NONE) as (r & -> & Hr);
    try done. cbn [obind].
  destruct Hr as [(Hne & Hcand & Hmx) | [-> Hnone]].
  2:{ exists 0, s. split; [done | right; done]. }
  rewrite (proj2 (Z.eqb_neq r 0) Hne). unfold __memblock_reserve.
  destruct (fits_bounds s _ _ _ _ (proj1 (mi_memory _ Hinv)) (proj2 (proj2 (proj2 Hcand))))
    as [B1 B2].
  destruct (add_range_room dbl_array s RESERVED r size NUMA_NO_NODE MEMBLOCK_RSRV_KERN)
    as (t' & -> & Ht & Hm & _ & Hcov); try done; try lia; [apply Hinv |].
  cbn [obind Z.eqb]. rewrite (proj2 (Z.eqb_neq r 0) Hne). cbn [negb].
  exists r, (set_type s RESERVED t'). split; [done |]. left.
  do 3 (split; [done |]). split.
  { apply inv_set_reserved; [done | done |].
    by apply (has_room_counts (reserved s)). }
  do 3 (split; [done |]). intros a. simpl. rewrite (Hcov a). unfold in_range. simpl.
  rewrite Z.min_l by lia. done.
Qed.

(** ** Abstract specification: two sets of addresses *)

Record amem := mkAmem { a_memory : Z -> Prop; a_reserved : Z -> Prop }.

Definition abs (s : memblock) : amem := mkAmem (covers (memory s)) (covers (reserved s)).

(** Sets are compared by their elements. *)
Definition same_set (P Q : Z -> Prop) : Prop := forall a, P a <-> Q a.

#[export] Instance same_set_equiv : Equivalence same_set.
Proof.
  split; unfold same_set; [done | intros P Q H a; by rewrite H |].
  intros P Q R H1 H2 a. by rewrite H1.
Qed.

Definition block (base size : Z) (a : Z) : Prop := base <= a < base + size.
Definition disjoint_blocks (b1 b2 : Z * Z) : Prop :=
  forall a, ~ (block b1.1 b1.2 a /\ block b2.1 b2.2 a).

(** The calls the rest of the kernel makes. *)
Inductive mb_op :=
  | OpAdd (base size : Z)
  | OpReserve (base size : Z)
  | OpAlloc (size align start end_ : Z)
  | OpFree (base size : Z).

Definition run_op (s : memblock) (op : mb_op) : outcome (Z * memblock) :=
  match op with
  | OpAdd base size => memblock_add s base size
  | OpReserve base size => memblock_reserve s base size
  | OpAlloc size align start end_ => memblock_phys_alloc_range s size align start end_
  | OpFree base size => memblock_phys_free dbl_array s base size
  end.

(** Arguments in range, and an array with room for the operation. *)
Definition op_ok (s : memblock) (op : mb_op) : Prop :=
  Z.of_nat (tmax (memory s)) < 2 ^ 31 /\ Z.of_nat (tmax (reserved s)) < 2 ^ 31 /\
  match op with
  | OpAdd base size => 0 <= base <= PHYS_ADDR_MAX /\ 0 <= size /\ has_room (memory s)
  | OpReserve base size => 0 <= base <= PHYS_ADDR_MAX /\ 0 <= size /\ has_room (reserved s)
  | OpAlloc size align start end_ =>
      0 < size /\ (align = 0 \/ is_pow2 align) /\ 0 <= start < 2 ^ 64 /\ 0 <= end_ < 2 ^ 64
      /\ has_room (reserved s)
  | OpFree base size =>
      0 <= base <= PHYS_ADDR_MAX /\ 0 <= size
      /\ (tcnt (reserved s) + 2 <= tmax (reserved s))%nat
  end.

Definition abs_step (A : amem) (op : mb_op) (r : Z) (A' : amem) : Prop :=
  match op with
  | OpAdd base size =>
      r = 0 /\ same_set (a_memory A') (fun a => a_memory A a \/ in_range base size a)
      /\ same_set (a_reserved A') (a_reserved A)
  | OpReserve base size =>
      r = 0 /\ same_set (a_memory A') (a_memory A)
      /\ same_set (a_reserved A') (fun a => a_reserved A a \/ in_range base size a)
  | OpAlloc size align start end_ =>
      same_set (a_memory A') (a_memory A)
      /\ (r = 0 /\ same_set (a_reserved A') (a_reserved A)
          \/ r <> 0 /\ r mod (if align =? 0 then SMP_CACHE_BYTES else align) = 0
             /\ Z.max start PAGE_SIZE <= r /\ r + size <= PHYS_ADDR_MAX
             /\ (forall a, block r size a -> a_memory A a /\ ~ a_reserved A a)
             /\ same_set (a_reserved A') (fun a => a_reserved A a \/ block r size a))
  | OpFree base size =>
      r = 0 /\ same_set (a_memory A') (a_memory A)
      /\ same_set (a_reserved A') (fun a => a_reserved A a /\ ~ in_range base size a)
  end.

Lemma fits_memory s nid flags size a x :
  wf_type (memory s) -> fits s nid flags size a -> block a size x ->
  covers (memory s) x /\ ~ covers (reserved s) x.
Proof.
  intros Hm ((i & [Hi _] & Hlo & Hhi) & Hfree) Hx. unfold block in Hx. split; [| by apply Hfree].
  destruct (live_lookup (memory s) Hm i Hi) as (pre & post & Hl & _).
  apply covered_elem. exists (region_at (memory s) i). rewrite Hl.
  split; [apply elem_of_app; right; apply elem_of_cons; by left | unfold rend in *; lia].
Qed.

Lemma inv_set_type s p t :
  mb_inv s -> type_inv t -> Z.of_nat (tcnt t) < 2 ^ 31 -> mb_inv (set_type s p t).
Proof.
  intros [H1 H2 H3 H4 H5 H6] Ht Hc. destruct p, H3; split; simpl; try done; split; done.
Qed.

Lemma cnt_le_max t : type_inv t -> (tcnt t <= tmax t)%nat.
Proof. intros [[[H _] _ _ _ _] _]. done. Qed.

Lemma run_op_refines s op :
  mb_inv s -> op_ok s op ->
  exists r s', run_op s op = Done (r, s') /\ mb_inv s' /\ abs_step (abs s) op r (abs s')
    /\ tmax (memory s') = tmax (memory s) /\ tmax (reserved s') = tmax (reserved s).
Proof.
  intros Hinv (Hmm & Hmr & Hok). destruct op as [b n | b n | n al st en | b n]; simpl in Hok |- *.
  - destruct Hok as (H1 & H2 & H3).
    destruct (add_range_room dbl_array s MEMORY b n MAX_NUMNODES 0) as (t & E & T1 & T2 & T3 & T4);
      try done; [apply Hinv |].
    exists 0, (set_type s MEMORY t). split; [exact E |]. pose proof (cnt_le_max t T1).
    split; [apply inv_set_type; [done | done | simpl in *; lia] |]. simpl in *. done.
  - destruct Hok as (H1 & H2 & H3).
    destruct (add_range_room dbl_array s RESERVED b n NUMA_NO_NODE 0)
      as (t & E & T1 & T2 & T3 & T4); try done; [apply Hinv |].
    exists 0, (set_type s RESERVED t). split; [exact E |]. pose proof (cnt_le_max t T1).
    split; [apply inv_set_type; [done | done | simpl in *; lia] |]. simpl in *. done.
  - destruct Hok as (H1 & H2 & H3 & H4 & H5).
    destruct (alloc_range_spec s n al st en) as (r & s' & E & Hpost); try done.
    exists r, s'. split; [exact E |]. destruct Hpost as [P | (-> & -> & _)].
    + destruct P as (P1 & (C1 & C2 & C3 & C4) & _ & P3 & P4 & _ & P5 & P6).
      split; [done |]. rewrite P4, P5. split; [| done]. split; [done |]. right.
      split; [done |]. split; [done |]. split; [done |].
      assert (Hm : wf_type (memory s)) by apply Hinv.
      split; [by eapply (fits_bounds s) |]. split; [| done].
      intros a Ha. by eapply fits_memory.
    + split; [done |]. split; [| done]. split; [done |]. by left.
  - destruct Hok as (H1 & H2 & H3).
    destruct (remove_range_room dbl_array s RESERVED b n) as (t & E & T1 & T2 & T3 & T4);
      try done; [apply Hinv |].
    exists 0, (set_type s RESERVED t). split; [exact E |]. pose proof (cnt_le_max t T1).
    split; [apply inv_set_type; [done | done | simpl in *; lia] |]. simpl in *. done.
Qed.

(** ** Histories

    [history s l]: the state [s] is reached from the static initialiser by
    calls that had room, and [l] are the blocks allocated and not freed. *)
Inductive history : memblock -> list (Z * Z) -> Prop :=
  | hist_init : history memblock_init []
  | hist_add s l b n r s' :
      history s l -> op_ok s (OpAdd b n) -> run_op s (OpAdd b n) = Done (r, s') -> history s' l
  | hist_reserve s l b n r s' :
      history s l -> op_ok s (OpReserve b n) -> run_op s (OpReserve b n) = Done (r, s') ->
      history s' l
  | hist_alloc s l n al st en r s' :
      history s l -> op_ok s (OpAlloc n al st en) ->
      run_op s (OpAlloc n al st en) = Done (r, s') -> r <> 0 -> history s' ((r, n) :: l)
  | hist_nospace s l n al st en s' :
      history s l -> op_ok s (OpAlloc n al st en) ->
      run_op s (OpAlloc n al st en) = Done (0, s') -> history s' l
  | hist_free s l1 l2 b n r s' :
      history s (l1 ++ (b, n) :: l2) -> op_ok s (OpFree b n) ->
      run_op s (OpFree b n) = Done (r, s') -> history s' (l1 ++ l2).

(** What a history guarantees of the blocks it handed out. *)
Record blocks_ok (s : memblock) (l : list (Z * Z)) : Prop := {
  bo_reserved : forall b n a, (b, n) ∈ l -> block b n a -> covers (reserved s) a;
  bo_memory : forall b n a, (b, n) ∈ l -> block b n a -> covers (memory s) a;
  bo_below : forall b n, (b, n) ∈ l -> 0 <= b /\ b + n <= PHYS_ADDR_MAX;
  bo_disjoint : forall i j b1 b2, l !! i = Some b1 -> l !! j = Some b2 -> i <> j ->
                disjoint_blocks b1 b2;
}.

Lemma blocks_ok_mono s s' l :
  (forall a, covers (memory s) a -> covers (memory s') a) ->
  (forall a, covers (reserved s) a -> covers (reserved s') a) ->
  blocks_ok s l -> blocks_ok s' l.
Proof. intros Hm Hr [H1 H2 H3 H4]. split; eauto. Qed.

Lemma blocks_ok_alloc s l r n :
  blocks_ok s l -> 0 <= r -> r + n <= PHYS_ADDR_MAX ->
  (forall a, block r n a -> covers (memory s) a /\ ~ covers (reserved s) a) ->
  forall s', same_set (covers (memory s')) (covers (memory s)) ->
  same_set (covers (reserved s')) (fun a => covers (reserved s) a \/ block r n a) ->
  blocks_ok s' ((r, n) :: l).
Proof.
  intros [H1 H2 H3 H4] Hr Hn Hfree s' Hm Hres.
  assert (Hdis : forall b, b ∈ l -> disjoint_blocks (r, n) b /\ disjoint_blocks b (r, n)).
  { intros [b m] Hb. split; intros a [A1 A2]; simpl in *;
      [apply (proj2 (Hfree a A1)) | apply (proj2 (Hfree a A2))]; eauto. }
  split.
  - intros b m a Hin Ha. apply Hres. apply elem_of_cons in Hin as [[= -> ->] | Hin]; eauto.
  - intros b m a Hin Ha. apply Hm. apply elem_of_cons in Hin as [[= -> ->] | Hin]; eauto.
    by apply Hfree.
  - intros b m Hin. apply elem_of_cons in Hin as [[= -> ->] | Hin]; eauto.
  - intros [|i] [|j] b1 b2; simpl; intros E1 E2 Hne; [done | | | by eapply H4; eauto].
    + injection E1 as <-. by apply Hdis, list_elem_of_lookup; eauto.
    + injection E2 as <-. by apply Hdis, list_elem_of_lookup; eauto.
Qed.

Lemma blocks_ok_free s l1 b n l2 :
  blocks_ok s (l1 ++ (b, n) :: l2) ->
  forall s', same_set (covers (memory s')) (covers (memory s)) ->
  same_set (covers (reserved s')) (fun a => covers (reserved s) a /\ ~ in_range b n a) ->
  blocks_ok s' (l1 ++ l2).
Proof.
  intros [H1 H2 H3 H4] s' Hm Hres.
  assert (Hsub : forall x, x ∈ l1 ++ l2 -> x ∈ l1 ++ (b, n) :: l2).
  { intros x. rewrite !elem_of_app, elem_of_cons. tauto. }
  assert (Hskip : forall i x, (l1 ++ l2) !! i = Some x ->
    (l1 ++ (b, n) :: l2) !! (if decide (i < length l1)%nat then i else S i) = Some x).
  { intros i x Hx. case_decide as Hi.
    - rewrite lookup_app_l in * by lia. done.
    - rewrite lookup_app_r in * by lia. replace (S i - length l1)%nat with (S (i - length l1)) by lia.
      done. }
  assert (Hmid : (l1 ++ (b, n) :: l2) !! length l1 = Some (b, n)) by apply list_lookup_middle, eq_refl.
  split.
  - intros c m a Hin Ha. apply Hres. split; [eauto |].
    apply list_elem_of_lookup in Hin as [i Hi]. pose proof (Hskip i _ Hi) as Hi'.
    assert (Hd : disjoint_blocks (c, m) (b, n)).
    { eapply H4; [exact Hi' | exact Hmid |]. case_decide; lia. }
    unfold in_range. intros Hr. apply (Hd a). simpl. unfold block in *. lia.
  - intros c m a Hin Ha. apply Hm. eauto.
  - eauto.
  - intros i j b1 b2 E1 E2 Hne. eapply H4; [by apply Hskip | by apply Hskip |].
    repeat case_decide; lia.
Qed.

(** The invariant of histories, by induction on the calls. *)
Lemma history_blocks s l : history s l -> mb_inv s /\ blocks_ok s l.
Proof.
  induction 1 as [| s l b n r s' Hh [IHi IHb] Hok Hrun | s l b n r s' Hh [IHi IHb] Hok Hrun
    | s l n al st en r s' Hh [IHi IHb] Hok Hrun Hr | s l n al st en s' Hh [IHi IHb] Hok Hrun
    | s l1 l2 b n r s' Hh [IHi IHb] Hok Hrun].
  { split; [apply memblock_init_inv |]. split; try (intros ? ? ? []%not_elem_of_nil).
    - intros ? ? []%not_elem_of_nil.
    - intros i j b1 b2 [=]. }
  all: destruct (run_op_refines s _ IHi Hok) as (r1 & s1 & E & I1 & Hstep & _);
    rewrite Hrun in E; simplify_eq; (split; [done |]); simpl in Hstep.
  - destruct Hstep as (_ & S1 & S2). eapply blocks_ok_mono; [| | done]; intros a Ha;
      [apply S1; by left | by apply S2].
  - destruct Hstep as (_ & S1 & S2). eapply blocks_ok_mono; [| | done]; intros a Ha;
      [by apply S1 | apply S2; by left].
  - destruct Hstep as (S1 & [[? _] | (_ & _ & S2 & S3 & S4 & S5)]); [done |].
    apply (blocks_ok_alloc s); try done. unfold PAGE_SIZE in S2. lia.
  - destruct Hstep as (S1 & [[_ S2] | [? _]]); [| done].
    eapply blocks_ok_mono; [| | done]; intros a Ha; [by apply S1 | by apply S2].
  - destruct Hstep as (_ & S1 & S2). eapply blocks_ok_free; [done .. |]. done.
Qed.

(** ** Concrete states: the memory map of the board *)

Definition after (s : memblock) (op : mb_op) : memblock :=
  match run_op s op with Done (_, s') => s' | _ => s end.

Definition board : memblock := after memblock_init (OpAdd RAM_BASE RAM_SIZE).
Definition board_image : memblock := after board (OpReserve 0x70000000 0x200000).
Definition board_page : memblock := after board_image (OpAlloc 4096 0 0 0).
Definition board_two : memblock := after board_page (OpAlloc 100 0 0 0).

Ltac op_ok_tac :=
  unfold op_ok, has_room, PHYS_ADDR_MAX, is_pow2;
  repeat match goal with
  | |- _ /\ _ => split
  | |- _ = 0 \/ _ => left; reflexivity
  end; vm_compute; first [done | lia].

Lemma board_history : history board [].
Proof.
  apply (hist_add memblock_init [] RAM_BASE RAM_SIZE 0); [constructor | op_ok_tac | reflexivity].
Qed.

Lemma board_image_history : history board_image [].
Proof.
  apply (hist_reserve board [] 0x70000000 0x200000 0);
    [apply board_history | op_ok_tac | vm_compute; reflexivity].
Qed.

Lemma board_image_inv : mb_inv board_image.
Proof. exact (proj1 (history_blocks board_image [] board_image_history)). Qed.

(** ** Claims *)

(** C1: [memblock_phys_alloc_range] with room in the reserved array always
    returns; a non-zero result is the highest aligned address in the search
    bounds whose block lies in one mappable memory region and meets no
    reservation, and then exactly that block becomes reserved; the result is
    0 only when no such address exists, and then nothing changes. *)
Theorem alloc_highest_free_block s size align start end_ :
  mb_inv s -> has_room (reserved s) -> Z.of_nat (tmax (reserved s)) < 2 ^ 31 ->
  align = 0 \/ is_pow2 align -> 0 <= start < 2 ^ 64 -> 0 <= end_ < 2 ^ 64 -> 0 < size ->
  exists r s', memblock_phys_alloc_range s size align start end_ = Done (r, s')
    /\ alloc_post s size (if align =? 0 then SMP_CACHE_BYTES else align) start end_
         NUMA_NO_NODE r s'.
Proof. apply alloc_range_spec. Qed.

Lemma alloc_highest_free_block_witness :
  exists r s', memblock_phys_alloc_range board_image 8192 4096 0 0 = Done (r, s')
    /\ alloc_post board_image 8192 4096 0 0 NUMA_NO_NODE r s'.
Proof.
  apply (alloc_highest_free_block board_image 8192 4096 0 0);
    [apply board_image_inv | vm_compute; lia | vm_compute; done
    | right; exists 12; split; [lia | reflexivity] | lia | lia | lia].
Defined.

(** C9: every allocator call with room for its array (add, reserve,
    allocate, free) returns, keeps the invariant (sorted, disjoint,
    non-empty, unmergeable regions and an exact total) and refines the
    abstract machine on two sets of addresses. *)
Theorem memblock_refines_sets s op :
  mb_inv s -> op_ok s op ->
  exists r s', run_op s op = Done (r, s') /\ mb_inv s' /\ abs_step (abs s) op r (abs s').
Proof.
  intros Hinv Hok. destruct (run_op_refines s op Hinv Hok) as (r & s' & H1 & H2 & H3 & _).
  exists r, s'. done.
Qed.

Lemma memblock_refines_sets_witness :
  exists r s', run_op board_image (OpReserve 0x70100000 0x300000) = Done (r, s') /\ mb_inv s'
    /\ abs_step (abs board_image) (OpReserve 0x70100000 0x300000) r (abs s').
Proof.
  apply (memblock_refines_sets board_image (OpReserve 0x70100000 0x300000));
    [apply board_image_inv | op_ok_tac].
Defined.

(** In every history of allocator calls from the static initialiser, the
    blocks handed out and not yet freed are pairwise disjoint, lie in memory
    and stay reserved. *)
Lemma live_allocations_disjoint s l : history s l -> blocks_ok s l.
Proof. intros H. apply (history_blocks s l H). Qed.

Lemma live_allocations_disjoint_witness :
  blocks_ok board_two [(0x7fffef80, 100); (0x7ffff000, 4096)].
Proof.
  apply (live_allocations_disjoint board_two).
  apply (hist_alloc board_page [(0x7ffff000, 4096)] 100 0 0 0 0x7fffef80 board_two);
    [| op_ok_tac | vm_compute; reflexivity | done].
  apply (hist_alloc board_image [] 4096 0 0 0 0x7ffff000 board_page);
    [apply board_image_history | op_ok_tac | vm_compute; reflexivity | done].
Defined.

(** Freeing what was just allocated gives back the same reserved set:
    allocation and [memblock_phys_free] are inverse on the set of reserved
    addresses. *)
Lemma alloc_free_roundtrip s size align start end_ r s1 :
  mb_inv s -> op_ok s (OpAlloc size align start end_) ->
  memblock_phys_alloc_range s size align start end_ = Done (r, s1) -> r <> 0 ->
  op_ok s1 (OpFree r size) ->
  exists s2, memblock_phys_free dbl_array s1 r size = Done (0, s2)
    /\ same_set (covers (reserved s2)) (covers (reserved s))
    /\ same_set (covers (memory s2)) (covers (memory s)).
Proof.
  intros Hinv Hok Hrun Hne Hok'.
  destruct (run_op_refines s _ Hinv Hok) as (r0 & s0 & E & I1 & Hstep & _).
  simpl in E. rewrite Hrun in E. simplify_eq.
  destruct (run_op_refines s0 _ I1 Hok') as (r2 & s2 & E2 & I2 & Hfree & _).
  destruct Hfree as (-> & F1 & F2). exists s2. split; [exact E2 |].
  destruct Hstep as (S1 & [[? _] | (_ & _ & _ & Hb & Hblk & S2)]); [done |]. simpl in *.
  split; [| by rewrite F1, S1]. intros a. rewrite (F2 a), (S2 a). unfold in_range.
  specialize (Hblk a). unfold block in *. rewrite Z.min_l by lia. tauto.
Qed.

Lemma alloc_free_roundtrip_witness :
  exists s2, memblock_phys_free dbl_array board_page 0x7ffff000 4096 = Done (0, s2)
    /\ same_set (covers (reserved s2)) (covers (reserved board_image))
    /\ same_set (covers (memory s2)) (covers (memory board_image)).
Proof.
  apply (alloc_free_roundtrip board_image 4096 0 0 0 0x7ffff000 board_page);
    [apply board_image_inv | op_ok_tac | vm_compute; reflexivity | done | op_ok_tac].
Defined.
