(* ===== verification/PageTable.v ===== *)
(** * Page tables: [src/src/arch/aarch64/mmu.c], first half

    The boot-time mapper [pg_map_range] and its three helpers, which walk and
    build four-level translation tables through physical addresses and take
    new tables from a bump pointer.  Physical memory is a finite map from
    byte addresses of 64-bit words to their values; words never written are
    zero.  A [u64 *] into a table is the byte address of the entry.

    [walk] is not code of the kernel: it is the translation table walk of
    the architecture (stage 1, 4 KiB granule, 48-bit addresses), against
    which the mapper is specified. *)

From S2P Require Import Prelude.

(** ** Memory *)

Definition mem : Type := gmap Z Z.
Definition rd (m : mem) (a : Z) : Z := default 0 (m !! a).
Definition wr (m : mem) (a v : Z) : mem := <[a := v]> m.

Lemma rd_wr_eq m a v : rd (wr m a v) a = v.
Proof. unfold rd, wr, mem in *. by rewrite (lookup_insert_eq (M := gmap Z)). Qed.

Lemma rd_wr_ne m a b v : a <> b -> rd (wr m a v) b = rd m b.
Proof. intros H. unfold rd, wr, mem in *. by rewrite (lookup_insert_ne (M := gmap Z)). Qed.

(** ** Geometry ([pgtable-hwdef.h], [pg_table.h]) *)

Definition PMD_SHIFT : Z := 21.
Definition PUD_SHIFT : Z := 30.
Definition PGDIR_SHIFT : Z := 39.
Definition PG_TABLE_BITS : Z := 9.
Definition PG_ENTRY_BYTES : Z := 8.
Definition PA_BITS : Z := 48.

(** [x & PAGE_MASK]. *)
Definition page_mask (x : Z) : Z := align_mask x PAGE_SIZE.

Definition PG_TABLE_ENTRY_GET_ADDR (entry : Z) : Z :=
  Z.land (page_mask entry) (2 ^ PA_BITS - 1).

(** [PGD_ENTRY], [PUD_ENTRY], [PMD_ENTRY] and [PTE_ENTRY]: the address of
    the entry for [va] in the table at [base], for the shift of the level. *)
Definition table_entry (shift base va : Z) : Z :=
  u64 (base + PG_ENTRY_BYTES
              * Z.shiftr (Z.land va (Z.shiftl (2 ^ PG_TABLE_BITS - 1) shift)) shift).

Definition PG_DESC_TYPE_TABLE : Z := 3.
Definition PG_DESC_TYPE_BLOCK : Z := 1.
Definition PG_DESC_TYPE_PAGE : Z := 3.
Definition PG_DESC_APTABLE_RW1_0 : Z := Z.shiftl 1 61.
Definition PG_DESC_XNTABLE_UXNTABLE_NX : Z := Z.shiftl 1 60.
Definition PG_DESC_PXNTABLE_X : Z := 0.
Definition PG_TABLE_ENTRY_RWX : Z :=
  Z.lor (Z.lor PG_DESC_APTABLE_RW1_0 PG_DESC_XNTABLE_UXNTABLE_NX) PG_DESC_PXNTABLE_X.

Definition FLAGS_MAP_PUD_BLOCK : Z := 1.
Definition FLAGS_MAP_PMD_BLOCK : Z := 2.
Definition flag_set (flags f : Z) : bool := negb (Z.land flags f =? 0).

Definition entry_present (entry : Z) : bool := negb (Z.land entry 1 =? 0).

(** ** The mapper *)

(** [while (pte_entry_start <= pte_entry_end)]. *)
Fixpoint pte_loop (fuel : nat) (m : mem) (entry entry_end start attr : Z) : outcome mem :=
  match fuel with
  | O => Fuel
  | S fuel' =>
      if entry <=? entry_end then
        let m := wr m entry (Z.lor (Z.lor (page_mask start) attr) PG_DESC_TYPE_PAGE) in
        pte_loop fuel' m (entry + PG_ENTRY_BYTES) entry_end (u64 (start + PAGE_SIZE)) attr
      else Done m
  end.

(** A table has 512 entries. *)
Definition TABLE_FUEL : nat := 513.

Definition pte_map_range (m : mem) (pte start end_ va_start attr : Z) : outcome mem :=
  let va_end := u64 (va_start + u64 (end_ - start)) in
  let entry_start := table_entry PAGE_SHIFT pte va_start in
  let entry_end := table_entry PAGE_SHIFT pte (u64 (ALIGN_UP va_end PAGE_SIZE - 1)) in
  pte_loop TABLE_FUEL m entry_start entry_end start attr.

(** [u64 *pnext]: [None] is the null pointer, through which the code may not
    read, otherwise the page the next table is taken from. *)
Definition pool : Type := option Z.

(** What the helpers do to memory and to [*pnext]. *)
Definition map_fn : Type := mem -> pool -> Z -> Z -> Z -> Z -> outcome (mem * pool).

(** [if (!entry_present(entry)) { *entry = ...; *pnext += PAGE_SIZE; }]. *)
Definition table_link (m : mem) (pnext : pool) (entry : Z) : outcome (mem * pool) :=
  if negb (entry_present (rd m entry)) then
    match pnext with
    | None => Bug
    | Some page =>
        Done (wr m entry (Z.lor (page_mask page) (Z.lor PG_DESC_TYPE_TABLE PG_TABLE_ENTRY_RWX)),
              Some (u64 (page + PAGE_SIZE)))
    end
  else Done (m, pnext).

(** The body of the [do ... while] loops of [pmd_map_range],
    [pud_map_range] and [pg_map_range], up to the increment of the entry:
    [shift] is the shift of the level, [block] whether a block entry may be
    used there ([pg_map_range] never does), [next] the helper of the level
    below, called with the table of the entry, [start], [end] and
    [va_start].  The result is memory, [*pnext], [start] and [va_start]. *)
Definition table_step (shift : Z) (block : bool) (next : map_fn) (attr : Z)
    (m : mem) (pnext : pool) (entry start end_ va_start va_end : Z)
    : outcome (mem * pool * Z * Z) :=
  let low := 2 ^ shift - 1 in
  if (Z.land va_start low =? 0) && (Z.land start low =? 0)
     && (u64 (va_start + 2 ^ shift) <=? va_end) && block
  then
    let m := wr m entry (Z.lor (Z.lor start attr) PG_DESC_TYPE_BLOCK) in
    Done (m, pnext, u64 (start + 2 ^ shift), u64 (va_start + 2 ^ shift))
  else
    let! (m, pnext) := table_link m pnext entry in
    let map_size := u64 (align_mask (u64 (va_start + 2 ^ shift)) (2 ^ shift) - va_start) in
    let map_end := Z.min (u64 (start + map_size)) end_ in
    let map_size := u64 (map_end - start) in
    let! (m, pnext) :=
      next m pnext (PG_TABLE_ENTRY_GET_ADDR (rd m entry)) start map_end va_start in
    Done (m, pnext, map_end, u64 (va_start + map_size)).

Fixpoint table_loop (fuel : nat) (shift : Z) (block : bool) (next : map_fn) (attr : Z)
    (m : mem) (pnext : pool) (entry entry_end start end_ va_start va_end : Z)
    : outcome (mem * pool) :=
  match fuel with
  | O => Fuel
  | S fuel' =>
      let! (m, pnext, start, va_start) :=
        table_step shift block next attr m pnext entry start end_ va_start va_end in
      let entry := entry + PG_ENTRY_BYTES in
      if entry <=? entry_end
      then table_loop fuel' shift block next attr m pnext entry entry_end start end_ va_start va_end
      else Done (m, pnext)
  end.

Definition pmd_map_range (attr flags : Z) : map_fn :=
  fun m pnext pmd start end_ va_start =>
    let va_end := u64 (va_start + u64 (end_ - start)) in
    table_loop TABLE_FUEL PMD_SHIFT (flag_set flags FLAGS_MAP_PMD_BLOCK)
      (fun m pnext pte start end_ va_start =>
         let! m := pte_map_range m pte start end_ va_start attr in Done (m, pnext))
      attr m pnext (table_entry PMD_SHIFT pmd va_start)
      (table_entry PMD_SHIFT pmd (u64 (ALIGN_UP va_end (2 ^ PMD_SHIFT) - 1)))
      start end_ va_start va_end.

Definition pud_map_range (attr flags : Z) : map_fn :=
  fun m pnext pud start end_ va_start =>
    let va_end := u64 (va_start + u64 (end_ - start)) in
    table_loop TABLE_FUEL PUD_SHIFT (flag_set flags FLAGS_MAP_PUD_BLOCK)
      (pmd_map_range attr flags)
      attr m pnext (table_entry PUD_SHIFT pud va_start)
      (table_entry PUD_SHIFT pud (u64 (ALIGN_UP va_end (2 ^ PUD_SHIFT) - 1)))
      start end_ va_start va_end.

Definition pg_map_range (m : mem) (pgd : Z) (pnext : pool)
    (start end_ va_start attr flags : Z) : outcome (mem * pool) :=
  let start := ALIGN_DOWN start PAGE_SIZE in
  let end_ := ALIGN_UP end_ PAGE_SIZE in
  let va_start := ALIGN_DOWN va_start PAGE_SIZE in
  let va_end := u64 (va_start + u64 (end_ - start)) in
  table_loop TABLE_FUEL PGDIR_SHIFT false (pud_map_range attr flags)
    attr m pnext (table_entry PGDIR_SHIFT pgd va_start)
    (table_entry PGDIR_SHIFT pgd (u64 (ALIGN_UP va_end (2 ^ PGDIR_SHIFT) - 1)))
    start end_ va_start va_end.

(** ** The architecture: the table walk *)

(** Levels are counted from the pages up: 0 is the page table, 3 the
    directory.  [lshift n] is the shift of level [n]. *)
Definition lshift (n : nat) : Z := 12 + 9 * Z.of_nat n.
Definition lsize (n : nat) : Z := 2 ^ lshift n.
Definition lindex (n : nat) (va : Z) : Z := (va / lsize n) mod 512.

(** The output address bits of a descriptor of level [n], and the bits that
    are neither address nor type. *)
Definition addr_mask (n : nat) : Z := Z.shiftl (Z.ones (PA_BITS - lshift n)) (lshift n).
Definition desc_addr (n : nat) (e : Z) : Z := Z.land e (addr_mask n).
Definition desc_attr (e : Z) : Z := Z.land e (Z.lnot (Z.lor (addr_mask 0) 3)).

(** The physical address and the attributes of [va], if it is mapped. *)
Fixpoint walk (n : nat) (m : mem) (base va : Z) : option (Z * Z) :=
  let e := rd m (base + 8 * lindex n va) in
  match n with
  | O =>
      if Z.testbit e 0 && Z.testbit e 1
      then Some (desc_addr 0 e + va mod lsize 0, desc_attr e) else None
  | S n' =>
      if Z.testbit e 0 then
        if Z.testbit e 1 then walk n' m (desc_addr 0 e) va
        else if (n' =? 2)%nat then None
        else Some (desc_addr n e + va mod lsize n, desc_attr e)
      else None
  end.

(** The device window of the board as the boot code maps it. *)
Example pg_map_smoke :
  (let! (m, pnext) :=
     pg_map_range ∅ 0x1000 (Some 0x2000) 0x40000000 0x40403000 0xffff000000000000 0x700 3 in
   Done (pnext, map (walk 3 m 0x1000) [0xffff000000000000; 0xffff000000201234;
           0xffff000000402fff; 0xffff000000403000]))
  = Done (Some 0x5000, [Some (0x40000000, 0x700); Some (0x40201234, 0x700);
                   Some (0x40402fff, 0x700); None]).
Proof. vm_compute. reflexivity. Qed.
