(* ===== verification/PageTableMap.v ===== *)
(** * The boot-time mapper refines the table walk

    A ghost map [T] records which pages are translation tables: for each its
    level and the part of the address space it translates.  [pt_wf] says
    that memory is a tree of such tables; the mapper keeps it, maps exactly
    the range it was asked to, and takes no more tables from the pool than
    the spans of the range at each level ([SPAN_NR_ENTRIES] in the code). *)

From S2P Require Import Prelude PageTable.

(** ** Geometry *)

Lemma lsize_pos n : 0 < lsize n.
Proof. unfold lsize, lshift. apply Z.pow_pos_nonneg; lia. Qed.

Lemma lsize_S n : lsize (S n) = lsize n * 512.
Proof.
  unfold lsize, lshift. change 512 with (2 ^ 9). rewrite <- Z.pow_add_r by lia. f_equal. lia.
Qed.

Lemma lsize_0 : lsize 0 = 4096.
Proof. reflexivity. Qed.

Lemma mod_lsize_le k n x : (k <= n)%nat -> x mod lsize n = 0 -> x mod lsize k = 0.
Proof.
  intros Hk. induction Hk as [|n Hk IH]; [done |]. intros H. apply IH.
  rewrite lsize_S in H. pose proof (lsize_pos n).
  apply Z.mod_divide in H; [| lia]. apply Z.mod_divide; [lia |].
  destruct H as [c ->]. exists (c * 512). lia.
Qed.

Lemma div_slot n v q : v / lsize n = q <-> q * lsize n <= v < (q + 1) * lsize n.
Proof.
  pose proof (lsize_pos n). split.
  - intros <-. pose proof (Z.div_mod v (lsize n)). pose proof (Z.mod_pos_bound v (lsize n)). lia.
  - intros [H1 H2]. symmetry. apply (Z.div_unique_pos v (lsize n) q (v - q * lsize n)); lia.
Qed.

Lemma lindex_range n v : 0 <= lindex n v < 512.
Proof. apply Z.mod_pos_bound. lia. Qed.

Lemma slot_split n v : v / lsize n = v / lsize (S n) * 512 + lindex n v.
Proof.
  unfold lindex. pose proof (lsize_pos n). rewrite lsize_S, <- Z.div_div by lia.
  pose proof (Z.div_mod (v / lsize n) 512). lia.
Qed.

Lemma mod_multiple n x : x mod lsize n = 0 -> x = x / lsize n * lsize n.
Proof. intros H. pose proof (lsize_pos n). pose proof (Z.div_mod x (lsize n)). lia. Qed.

(** The last byte before a multiple is in the previous slot. *)
Lemma div_pred n x : x mod lsize n = 0 -> (x - 1) / lsize n = x / lsize n - 1.
Proof.
  intros H. apply div_slot. pose proof (mod_multiple n x H). pose proof (lsize_pos n). lia.
Qed.

Lemma table_entry_val n base va :
  (n <= 3)%nat -> 0 <= base -> base + 4096 <= 2 ^ 48 ->
  table_entry (lshift n) base va = base + 8 * lindex n va.
Proof.
  intros Hn Hb Hb'. unfold table_entry, PG_ENTRY_BYTES, PG_TABLE_BITS.
  assert (Hs : 0 <= lshift n) by (unfold lshift; lia).
  rewrite Z.shiftr_land, Z.shiftr_shiftl_l, Z.sub_diag by lia.
  change ((2 ^ 9 - 1) ≪ 0) with (Z.ones 9). rewrite Z.land_ones by lia.
  rewrite Z.shiftr_div_pow2 by lia. fold (lsize n). change (2 ^ 9) with 512.
  fold (lindex n va). pose proof (lindex_range n va). apply u64_small. lia.
Qed.

(** [PxD_ENTRY(t, PxD_ALIGN_UP(end) - 1)] is the entry of the last byte. *)
Lemma align_up_pred n ve :
  (n <= 3)%nat -> 0 < ve < 2 ^ 64 ->
  u64 (ALIGN_UP ve (lsize n) - 1) / lsize n = (ve - 1) / lsize n.
Proof.
  intros Hn Hve. assert (Hp : is_pow2 (lsize n)).
  { exists (lshift n). split; [unfold lshift; lia | reflexivity]. }
  pose proof (lsize_pos n) as Hpos.
  assert (Hdvd : exists c, 2 ^ 64 = c * lsize n /\ 0 < c).
  { exists (2 ^ (64 - lshift n)). unfold lsize. rewrite <- Z.pow_add_r by (unfold lshift; lia).
    split; [f_equal; lia | apply Z.pow_pos_nonneg; unfold lshift; lia]. }
  destruct Hdvd as (c & Hc & Hc0).
  set (q := (ve - 1) / lsize n).
  assert (Hq : q * lsize n <= ve - 1 < (q + 1) * lsize n) by (by apply div_slot).
  assert (Hq0 : 0 <= q) by (apply Z.div_pos; lia).
  assert (Hqc : q + 1 <= c).
  { assert (q * lsize n < c * lsize n) by lia.
    apply Z.mul_lt_mono_pos_r in H; lia. }
  assert (Hqm : (q + 1) * lsize n <= 2 ^ 64).
  { rewrite Hc. apply Z.mul_le_mono_pos_r; lia. }
  assert (Hup : ALIGN_UP ve (lsize n) = u64 ((q + 1) * lsize n)).
  { unfold ALIGN_UP. rewrite align_mask_pow2; [| done | apply u64_range].
    destruct (decide (ve + lsize n - 1 < 2 ^ 64)) as [Hlt | Hge].
    - rewrite (u64_small (ve + lsize n - 1)) by lia.
      assert (Hm : (ve + lsize n - 1) mod lsize n = ve - 1 - q * lsize n).
      { symmetry. apply (Z.mod_unique_pos _ _ (q + 1)); lia. }
      rewrite Hm. rewrite u64_small by lia. lia.
    - assert (q + 1 = c).
      { assert ((c - 1) * lsize n <= ve - 1) by lia.
        assert (c - 1 < q + 1) by (apply (Z.mul_lt_mono_pos_r (lsize n)); lia). lia. }
      assert (Hu : u64 (ve + lsize n - 1) = ve + lsize n - 1 - 2 ^ 64).
      { unfold u64. symmetry. apply (Z.mod_unique_pos _ _ 1); lia. }
      rewrite Hu, Z.mod_small by lia.
      rewrite H, <- Hc. change (u64 (2 ^ 64)) with 0. lia. }
  rewrite Hup, u64_sub_l, u64_small by lia. apply div_slot. lia.
Qed.

Lemma lindex_align_up n ve :
  (n <= 3)%nat -> 0 < ve < 2 ^ 64 ->
  lindex n (u64 (ALIGN_UP ve (lsize n) - 1)) = lindex n (ve - 1).
Proof. intros. unfold lindex. by rewrite align_up_pred. Qed.

(** ** Descriptors *)

Lemma addr_mask_spec n i :
  (n <= 3)%nat -> 0 <= i -> Z.testbit (addr_mask n) i = (lshift n <=? i) && (i <? 48).
Proof.
  intros Hn Hi. unfold addr_mask, PA_BITS. rewrite Z.shiftl_spec by lia.
  destruct (lshift n <=? i) eqn:E; bool_facts.
  - destruct (Z.ltb_spec i 48).
    + rewrite Z.ones_spec_low; [done | unfold lshift in *; lia].
    + rewrite Z.ones_spec_high; [done | unfold lshift in *; lia].
  - rewrite Z.testbit_neg_r; [done | lia].
Qed.

Lemma testbit_multiple n x i :
  x mod lsize n = 0 -> 0 <= i < lshift n -> Z.testbit x i = false.
Proof.
  intros Hx Hi. rewrite <- (Z.mod_pow2_bits_low x (lshift n)) by lia.
  unfold lsize in Hx. rewrite Hx. apply Z.bits_0.
Qed.

(** An aligned 48-bit address is its own address field. *)
Lemma desc_addr_self n x :
  (n <= 3)%nat -> x mod lsize n = 0 -> 0 <= x < 2 ^ 48 -> desc_addr n x = x.
Proof.
  intros Hn Hm Hx. unfold desc_addr. apply Z.bits_inj'. intros i Hi.
  rewrite Z.land_spec, addr_mask_spec by lia.
  destruct (Z.leb_spec (lshift n) i); simpl.
  - destruct (Z.ltb_spec i 48); [by rewrite andb_true_r |].
    by rewrite (testbit_above x 48 i) by lia.
  - rewrite andb_false_r. symmetry. by apply (testbit_multiple n).
Qed.

Lemma land_lor_3 a b c msk :
  Z.land (Z.lor (Z.lor a b) c) msk = Z.lor (Z.lor (Z.land a msk) (Z.land b msk)) (Z.land c msk).
Proof. by rewrite !Z.land_lor_distr_l. Qed.

(** Attributes touch neither the address nor the type of a descriptor. *)
Definition attr_ok (attr : Z) : Prop := Z.land attr (Z.lor (addr_mask 0) 3) = 0.

Lemma attr_ok_bit attr i :
  attr_ok attr -> 0 <= i -> (i < 2 \/ 12 <= i < 48) -> Z.testbit attr i = false.
Proof.
  intros H Hi Hr. pose proof (f_equal (fun z => Z.testbit z i) H) as Hb. simpl in Hb.
  rewrite Z.land_spec, Z.lor_spec, Z.bits_0, addr_mask_spec in Hb by lia.
  assert (Z.testbit 3 i = (i <? 2)) as E.
  { change 3 with (Z.ones 2). destruct (Z.ltb_spec i 2);
      [apply Z.ones_spec_low | apply Z.ones_spec_high]; lia. }
  rewrite E in Hb. change (lshift 0) with 12 in Hb.
  destruct (Z.leb_spec 12 i), (Z.ltb_spec i 48), (Z.ltb_spec i 2); simpl in Hb; try lia;
    by rewrite andb_true_r in Hb.
Qed.

Lemma attr_ok_addr attr n : (n <= 3)%nat -> attr_ok attr -> Z.land attr (addr_mask n) = 0.
Proof.
  intros Hn H. apply Z.bits_inj'. intros i Hi. rewrite Z.land_spec, Z.bits_0, addr_mask_spec by lia.
  destruct (Z.leb_spec (lshift n) i), (Z.ltb_spec i 48); try apply andb_false_r.
  rewrite (attr_ok_bit attr i); [done | done | done | unfold lshift in *; lia].
Qed.

Section LeafDesc.
Context (n : nat) (x attr ty : Z).
Context (Hn : (n <= 3)%nat) (Hx : x mod lsize n = 0) (Hr : 0 <= x < 2 ^ 48).
Context (Hattr : attr_ok attr) (Hty : ty = 1 \/ ty = 3).

Let e := Z.lor (Z.lor x attr) ty.

Lemma leaf_addr : desc_addr n e = x.
Proof.
  unfold desc_addr, e. rewrite land_lor_3.
  rewrite (attr_ok_addr attr n Hn Hattr), Z.lor_0_r.
  fold (desc_addr n x). rewrite desc_addr_self by done.
  assert (Z.land ty (addr_mask n) = 0) as ->; [| apply Z.lor_0_r].
  apply Z.bits_inj'. intros i Hi. rewrite Z.land_spec, Z.bits_0, addr_mask_spec by lia.
  destruct (Z.leb_spec (lshift n) i); simpl; [| apply andb_false_r].
  rewrite (testbit_above ty 2 i); [done | destruct Hty; lia | unfold lshift in *; lia].
Qed.

Lemma leaf_attr : desc_attr e = attr.
Proof.
  assert (Hx0 : x mod lsize 0 = 0) by (apply (mod_lsize_le 0 n); [lia | done]).
  unfold desc_attr, e. apply Z.bits_inj'. intros i Hi.
  rewrite Z.land_spec, !Z.lor_spec, Z.lnot_spec, Z.lor_spec, addr_mask_spec by lia.
  change (lshift 0) with 12.
  assert (Z.testbit 3 i = (i <? 2)) as ->.
  { change 3 with (Z.ones 2). destruct (Z.ltb_spec i 2);
      [apply Z.ones_spec_low | apply Z.ones_spec_high]; lia. }
  destruct (Z.ltb_spec i 2).
  { rewrite orb_true_r. simpl. rewrite andb_false_r, (attr_ok_bit attr); [done | done | lia | lia]. }
  rewrite (testbit_above ty 2 i), orb_false_r by (destruct Hty; lia).
  destruct (Z.leb_spec 12 i), (Z.ltb_spec i 48); simpl; try rewrite andb_true_r.
  - rewrite (attr_ok_bit attr i); [by rewrite andb_false_r | done | lia | lia].
  - rewrite (testbit_above x 48 i); [done | lia | lia].
  - rewrite (testbit_multiple 0 x i); [done | done | change (lshift 0) with 12; lia].
  - lia.
Qed.

Lemma leaf_bits : Z.testbit e 0 = true /\ Z.testbit e 1 = (ty =? 3).
Proof.
  assert (Hx0 : x mod lsize 0 = 0) by (apply (mod_lsize_le 0 n); [lia | done]).
  unfold e. rewrite !Z.lor_spec.
  rewrite !(testbit_multiple 0 x) by (try done; change (lshift 0) with 12; lia).
  rewrite !(attr_ok_bit attr) by (try done; lia).
  destruct Hty as [-> | ->]; done.
Qed.
End LeafDesc.

Lemma get_addr_desc e : PG_TABLE_ENTRY_GET_ADDR e = desc_addr 0 e.
Proof.
  unfold PG_TABLE_ENTRY_GET_ADDR, page_mask, align_mask, desc_addr, PAGE_SIZE.
  apply Z.bits_inj'. intros i Hi. rewrite !Z.land_spec, addr_mask_spec by lia.
  change (2 ^ PA_BITS - 1) with (Z.ones 48). change (lshift 0) with 12.
  change (4096 - 1) with (Z.ones 12). unfold u64.
  destruct (Z.ltb_spec i 48).
  - rewrite Z.mod_pow2_bits_low, Z.land_spec, Z.lnot_spec, (Z.ones_spec_low 48) by lia.
    destruct (Z.leb_spec 12 i).
    + rewrite Z.ones_spec_high by lia. simpl. by rewrite !andb_true_r.
    + rewrite Z.ones_spec_low by lia. simpl. by rewrite !andb_false_r.
  - by rewrite (Z.ones_spec_high 48), !andb_false_r by lia.
Qed.

Lemma entry_present_bit e : entry_present e = Z.testbit e 0.
Proof.
  unfold entry_present. change 1 with (Z.ones 1). rewrite Z.land_ones by lia.
  change (2 ^ 1) with 2. rewrite <- Z.bit0_mod. by destruct (Z.testbit e 0).
Qed.

(** The descriptor of a new table. *)
Lemma table_desc b :
  b mod 4096 = 0 -> 0 <= b < 2 ^ 48 ->
  let e := Z.lor (page_mask b) (Z.lor PG_DESC_TYPE_TABLE PG_TABLE_ENTRY_RWX) in
  desc_addr 0 e = b /\ Z.testbit e 0 = true /\ Z.testbit e 1 = true.
Proof.
  intros Hb Hr e.
  assert (He : e = Z.lor (Z.lor b PG_TABLE_ENTRY_RWX) 3).
  { unfold e, page_mask. rewrite align_mask_pow2; [| apply is_pow2_PAGE_SIZE | lia].
    change PAGE_SIZE with 4096. rewrite Hb, Z.sub_0_r, (Z.lor_comm PG_DESC_TYPE_TABLE). apply Z.lor_assoc. }
  rewrite He. assert (Ha : attr_ok PG_TABLE_ENTRY_RWX) by reflexivity.
  split; [by apply (leaf_addr 0); auto; lia |].
  destruct (leaf_bits 0 b PG_TABLE_ENTRY_RWX 3) as [B1 B2]; auto; lia.
Qed.

(** ** The tree of tables *)

Abbreviation tables := (gmap Z (nat * Z)).

Section Tree.
Context (limit : Z).

Record pt_wf (T : tables) (m : mem) (pnext : Z) : Prop := {
  pw_pool : pnext mod 4096 = 0 /\ 0 <= pnext <= limit /\ limit <= 2 ^ 48;
  pw_page : forall b k p, T !! b = Some (k, p) ->
    b mod 4096 = 0 /\ 0 <= b /\ b + 4096 <= 2 ^ 48 /\ (b + 4096 <= pnext \/ limit <= b);
  pw_inj : forall b1 b2 x, T !! b1 = Some x -> T !! b2 = Some x -> b1 = b2;
  pw_child : forall b k p i, T !! b = Some (S k, p) -> 0 <= i < 512 ->
    Z.testbit (rd m (b + 8 * i)) 0 = true -> Z.testbit (rd m (b + 8 * i)) 1 = true ->
    T !! desc_addr 0 (rd m (b + 8 * i)) = Some (k, p * 512 + i);
  pw_link : forall b k q, T !! b = Some (k, q) -> (k < 3)%nat ->
    exists b' p i, T !! b' = Some (S k, p) /\ 0 <= i < 512 /\ q = p * 512 + i
      /\ Z.testbit (rd m (b' + 8 * i)) 0 = true /\ Z.testbit (rd m (b' + 8 * i)) 1 = true
      /\ desc_addr 0 (rd m (b' + 8 * i)) = b;
  pw_fresh : forall a, pnext <= a < limit -> rd m a = 0;
}.

Lemma entry_inj T m pnext b1 b2 x1 x2 i j :
  pt_wf T m pnext -> T !! b1 = Some x1 -> T !! b2 = Some x2 -> 0 <= i < 512 -> 0 <= j < 512 ->
  b1 + 8 * i = b2 + 8 * j -> b1 = b2 /\ i = j.
Proof.
  intros Hwf H1 H2 Hi Hj He. destruct x1, x2.
  apply (pw_page _ _ _ Hwf) in H1 as (A1 & _), H2 as (A2 & _).
  pose proof (Z.div_mod b1 4096). pose proof (Z.div_mod b2 4096). lia.
Qed.

Lemma entry_differs T m pnext b k p i b' n v :
  pt_wf T m pnext -> T !! b = Some (k, p) -> 0 <= i < 512 -> T !! b' = Some (n, v / lsize (S n)) ->
  ((k <= n)%nat -> v / lsize k <> p * 512 + i) -> b + 8 * i <> b' + 8 * lindex n v.
Proof.
  intros Hwf Hb Hi Hb' Hno He.
  destruct (entry_inj T m pnext b b' _ _ i _ Hwf Hb Hb' Hi (lindex_range n v) He) as [-> E].
  rewrite Hb in Hb'. injection Hb' as -> ->. apply Hno; [lia |]. rewrite slot_split. lia.
Qed.

(** A write to an entry is invisible to walks that do not use its slot. *)
Lemma walk_wr_other T m pnext b k p i e :
  pt_wf T m pnext -> T !! b = Some (k, p) -> 0 <= i < 512 ->
  forall n b' v, T !! b' = Some (n, v / lsize (S n)) ->
  ((k <= n)%nat -> v / lsize k <> p * 512 + i) ->
  walk n (wr m (b + 8 * i) e) b' v = walk n m b' v.
Proof.
  intros Hwf Hb Hi. induction n as [|n IH]; intros b' v Hb' Hno; cbn [walk];
    rewrite rd_wr_ne by (by eapply entry_differs); [done |].
  destruct (Z.testbit _ 0) eqn:E0; [| done]. destruct (Z.testbit _ 1) eqn:E1; [| done].
  apply IH; [| intros Hk; apply Hno; lia].
  rewrite slot_split. eapply (pw_child _ _ _ Hwf); [exact Hb' | apply lindex_range | done | done].
Qed.

(** ** What a mapping does *)

Definition span (k : nat) (va ve : Z) : Z := (ve - 1) / lsize k - va / lsize k + 1.

Fixpoint need (n : nat) (va ve : Z) : Z :=
  match n with
  | O => 0
  | S n' => span n va ve + need n' va ve
  end.

Lemma span_split n k va nxt ve :
  (k <= n)%nat -> nxt mod lsize n = 0 -> span k va nxt + span k nxt ve = span k va ve.
Proof.
  intros Hk Hm. unfold span. rewrite (div_pred k nxt); [lia |]. by apply (mod_lsize_le k n).
Qed.

Lemma need_split n k va nxt ve :
  (k <= n)%nat -> nxt mod lsize n = 0 -> need k va nxt + need k nxt ve = need k va ve.
Proof.
  intros Hk Hm. induction k as [|k IH]; cbn [need]; [lia |].
  pose proof (span_split n (S k) va nxt ve Hk Hm). specialize (IH ltac:(lia)). lia.
Qed.

Lemma need_nonneg n va ve : va < ve -> 0 <= need n va ve.
Proof.
  intros H. induction n as [|n IH]; cbn [need]; [lia |].
  assert (va / lsize (S n) <= (ve - 1) / lsize (S n)).
  { apply Z.div_le_mono; [apply lsize_pos | lia]. }
  unfold span. lia.
Qed.

(** The slot [q] of level [k] has no address in [va, ve). *)
Definition slot_apart (k : nat) (q va ve : Z) : Prop :=
  (q + 1) * lsize k <= va \/ ve <= q * lsize k.

(** The address of no entry of a table. *)
Definition outside (T : tables) (a : Z) : Prop :=
  forall b x i, T !! b = Some x -> 0 <= i < 512 -> a <> b + 8 * i.

Lemma outside_sub T T' a :
  (forall b x, T !! b = Some x -> T' !! b = Some x) -> outside T' a -> outside T a.
Proof. intros Hs H b x i Hb. by eapply H, Hs. Qed.

Record map_post (n : nat) (T : tables) (m : mem) (pnext : Z)
    (T' : tables) (m' : mem) (pnext' : Z) (b va ve start attr : Z) : Prop := {
  mp_sub : forall b x, T !! b = Some x -> T' !! b = Some x;
  mp_new : forall b k q, T' !! b = Some (k, q) -> T !! b = Some (k, q)
    \/ (pnext <= b /\ b + 4096 <= pnext') /\ (k < n)%nat /\ ~ slot_apart (S k) q va ve;
  mp_wf : pt_wf T' m' pnext';
  mp_pnext : pnext <= pnext' <= pnext + 4096 * need n va ve;
  mp_entry : forall b k p i, T' !! b = Some (k, p) -> 0 <= i < 512 ->
    slot_apart k (p * 512 + i) va ve \/ (n < k)%nat -> rd m' (b + 8 * i) = rd m (b + 8 * i);
  mp_in : forall v, va <= v < ve -> walk n m' b v = Some (start + (v - va), attr);
  mp_out : forall b' k v, T !! b' = Some (k, v / lsize (S k)) ->
    ~ (va <= v < ve) -> walk k m' b' v = walk k m b' v;
  mp_mem : forall a, outside T' a -> rd m' a = rd m a;
}.

(** Two adjacent ranges mapped one after the other. *)
Lemma map_post_trans n T m pnext T1 m1 pnext1 T2 m2 pnext2 b p va nxt ve start attr :
  pt_wf T m pnext -> T !! b = Some (n, p) ->
  (forall v, va <= v < ve -> v / lsize (S n) = p) ->
  va < nxt < ve -> nxt mod lsize n = 0 ->
  map_post n T m pnext T1 m1 pnext1 b va nxt start attr ->
  map_post n T1 m1 pnext1 T2 m2 pnext2 b nxt ve (start + (nxt - va)) attr ->
  map_post n T m pnext T2 m2 pnext2 b va ve start attr.
Proof.
  intros Hwf Hb Hv Hn Hm [A1 A2 A3 A4 A5 A6 A7 A8] [B1 B2 B3 B4 B5 B6 B7 B8]. split.
  - auto.
  - intros c k q Hc. unfold slot_apart in *.
    apply B2 in Hc as [Hc | Hc]; [apply A2 in Hc as [Hc | Hc]; [by left |] |]; right; lia.
  - done.
  - rewrite <- (need_split n n va nxt ve) by (lia || done). lia.
  - intros c k q i Hc Hi Ha. unfold slot_apart in *.
    rewrite (B5 c k q i Hc Hi) by (destruct Ha as [[|]|]; [left; left; lia | left; right; lia | right; lia]).
    destruct (B2 c _ _ Hc) as [Hc' | Hc'].
    + apply (A5 c k q i Hc' Hi). destruct Ha as [[|]|]; [left; left; lia | left; right; lia | right; lia].
    + (* a table created by the second mapping: untouched by the first *)
      destruct (pw_pool _ _ _ A3) as (_ & L1 & _). destruct (pw_pool _ _ _ B3) as (_ & L2 & _).
      by rewrite (pw_fresh _ _ _ A3), (pw_fresh _ _ _ Hwf) by lia.
  - intros v Hr. destruct (decide (v < nxt)).
    + rewrite (B7 b n v); [apply A6; lia | rewrite Hv by lia; auto | lia].
    + rewrite B6 by lia. do 2 f_equal. lia.
  - intros c k v Hc Hr. rewrite (B7 c k v), (A7 c k v); auto; lia.
  - intros a Ha. rewrite B8, A8; [done | by eapply outside_sub | done].
Qed.

Lemma lindex_slot n v p i : 0 <= i < 512 -> v / lsize n = p * 512 + i -> lindex n v = i.
Proof.
  intros Hi Hv. unfold lindex. rewrite Hv. symmetry. by apply (Z.mod_unique_pos _ _ p); lia.
Qed.

Lemma entry_below_pool T m pnext b x i :
  pt_wf T m pnext -> T !! b = Some x -> 0 <= i < 512 -> ~ (pnext <= b + 8 * i < limit).
Proof. intros Hwf Hb Hi. destruct x. apply (pw_page _ _ _ Hwf) in Hb. lia. Qed.

(** An entry that points to no table: empty, a page or a block. *)
Definition not_table (e : Z) : Prop := Z.testbit e 0 = true -> Z.testbit e 1 = false.

(** Writing a page or block descriptor. *)
Lemma leaf_wf n T m pnext b p i e :
  pt_wf T m pnext -> T !! b = Some (n, p) -> 0 <= i < 512 ->
  (n <> 0%nat -> Z.testbit e 1 = false /\ not_table (rd m (b + 8 * i))) ->
  pt_wf T (wr m (b + 8 * i) e) pnext.
Proof.
  intros Hwf Hb Hi Hty. pose proof Hwf as [W1 W2 W3 W4 W5 W6]. split; try done.
  - intros b' k p' j Hb' Hj. destruct (decide (b + 8 * i = b' + 8 * j)) as [He | He].
    + destruct (entry_inj _ _ _ _ _ _ _ _ _ Hwf Hb Hb' Hi Hj He) as [-> ->].
      rewrite Hb in Hb'. injection Hb' as -> ->. rewrite rd_wr_eq.
      destruct Hty as [Hty _]; congruence.
    + rewrite rd_wr_ne by done. by apply W4.
  - intros b' k q Hb' Hk. destruct (W5 b' k q Hb' Hk) as (c & p' & j & L1 & L2 & L3 & L4).
    exists c, p', j. do 3 (split; [done |]).
    rewrite rd_wr_ne; [done |]. intros He.
    destruct (entry_inj _ _ _ _ _ _ _ _ _ Hwf Hb L1 Hi L2 He) as [-> ->].
    rewrite Hb in L1. injection L1 as -> ->. destruct Hty as [_ Hty]; [done |].
    destruct L4 as (L4 & L5 & _). specialize (Hty L4). congruence.
  - intros a Ha. rewrite rd_wr_ne; [by apply W6 |].
    pose proof (entry_below_pool T m pnext b _ i Hwf Hb Hi). lia.
Qed.

Lemma leaf_write n T m pnext b p i x attr ty va :
  pt_wf T m pnext -> T !! b = Some (n, p) -> (n <= 2)%nat -> 0 <= i < 512 ->
  x mod lsize n = 0 -> 0 <= x < 2 ^ 48 -> attr_ok attr ->
  (n = 0%nat /\ ty = 3 \/ n <> 0%nat /\ ty = 1 /\ not_table (rd m (b + 8 * i))) ->
  va = (p * 512 + i) * lsize n ->
  map_post n T m pnext T (wr m (b + 8 * i) (Z.lor (Z.lor x attr) ty)) pnext
    b va (va + lsize n) x attr.
Proof.
  intros Hwf Hb Hn Hi Hx Hr Ha Hty ->. set (q := p * 512 + i).
  assert (Hty' : ty = 1 \/ ty = 3) by tauto.
  destruct (leaf_bits n x attr ty ltac:(lia) Hx Ha Hty') as [B0 B1].
  pose proof (lsize_pos n) as Hpos. split.
  - done.
  - by left.
  - eapply leaf_wf; [done | done | done |]. intros Hnz. destruct Hty as [[? _] | (_ & -> & Hz)]; [done |].
    by rewrite B1.
  - pose proof (need_nonneg n (q * lsize n) (q * lsize n + lsize n)). lia.
  - intros b' k p' j Hb' Hj Hap. apply rd_wr_ne. intros He.
    destruct (entry_inj _ _ _ _ _ _ _ _ _ Hwf Hb Hb' Hi Hj He) as [-> ->].
    rewrite Hb in Hb'. injection Hb' as -> ->. fold q in Hap. unfold slot_apart in Hap. lia.
  - intros v Hv. assert (Hq : v / lsize n = q) by (apply div_slot; lia).
    assert (Hm : v mod lsize n = v - q * lsize n).
    { pose proof (Z.div_mod v (lsize n)). lia. }
    destruct n as [|n]; cbn [walk]; rewrite (lindex_slot _ v p i Hi Hq), rd_wr_eq, B0, B1.
    + destruct Hty as [[_ ->] | [? _]]; [| done].
      rewrite (leaf_addr 0 x), leaf_attr with (n := 0%nat) by (done || lia || auto). simpl. rewrite Hm. done.
    + destruct Hty as [[? _] | (_ & -> & _)]; [done |]. simpl (1 =? 3).
      cbn match. rewrite (proj2 (Nat.eqb_neq n 2)) by lia.
      rewrite (leaf_addr (S n) x), leaf_attr with (n := S n) by (done || lia || auto).
      rewrite Hm. done.
  - intros b' k v Hb' Hv. eapply walk_wr_other; [done | done | done | done |].
    intros _ Hq. apply div_slot in Hq. fold q in Hq. lia.
  - intros a Hout. apply rd_wr_ne. intros <-. by eapply Hout.
Qed.

(** ** Level 0 *)

(** The attributes of a call touch no address bit; the type bits they may
    carry are those of a page. *)
Definition attr_wf (attr : Z) : Prop := Z.land attr (addr_mask 0) = 0.

Lemma desc_attr_ok attr : attr_ok (desc_attr attr).
Proof.
  unfold attr_ok, desc_attr. rewrite <- Z.land_assoc, (Z.land_comm (Z.lnot _)), Z.land_lnot_diag.
  apply Z.land_0_r.
Qed.

Lemma desc_attr_typed attr : attr_wf attr -> Z.lor attr 3 = Z.lor (desc_attr attr) 3.
Proof.
  intros H. apply Z.bits_inj'. intros i Hi. unfold desc_attr.
  pose proof (f_equal (fun z => Z.testbit z i) H) as Hb. cbv beta in Hb.
  rewrite Z.land_spec, Z.bits_0 in Hb.
  rewrite !Z.lor_spec, Z.land_spec, Z.lnot_spec, Z.lor_spec by lia.
  by destruct (Z.testbit attr i), (Z.testbit (addr_mask 0) i), (Z.testbit 3 i).
Qed.

Lemma attr_ok_wf attr : attr_ok attr -> attr_wf attr /\ desc_attr attr = attr.
Proof.
  intros H. split; [by apply (attr_ok_addr attr 0 ltac:(lia)) |].
  unfold desc_attr. apply Z.bits_inj'. intros i Hi.
  pose proof (f_equal (fun z => Z.testbit z i) H) as Hb. cbv beta in Hb.
  rewrite Z.land_spec, Z.bits_0 in Hb. rewrite Z.land_spec, Z.lnot_spec by lia.
  by destruct (Z.testbit attr i), (Z.testbit (Z.lor (addr_mask 0) 3) i).
Qed.

Section Attr.
Context (attr : Z) (Hattr : attr_wf attr).
Abbreviation att := (desc_attr attr).

Lemma page_mask_id x : x mod 4096 = 0 -> 0 <= x < 2 ^ 64 -> page_mask x = x.
Proof.
  intros Hx Hr. unfold page_mask. rewrite align_mask_pow2 by (try apply is_pow2_PAGE_SIZE; lia).
  change PAGE_SIZE with 4096. lia.
Qed.

Lemma pte_loop_spec T pnext b p fuel : forall m i j start,
  pt_wf T m pnext -> T !! b = Some (0%nat, p) -> 0 <= i <= j -> j < 512 ->
  (Z.to_nat (j - i) + 1 < fuel)%nat ->
  start mod 4096 = 0 -> 0 <= start -> start + 4096 * (j - i + 1) <= 2 ^ 48 ->
  exists m', pte_loop fuel m (b + 8 * i) (b + 8 * j) start attr = Done m'
    /\ map_post 0 T m pnext T m' pnext b ((p * 512 + i) * 4096) ((p * 512 + j + 1) * 4096)
         start att.
Proof.
  induction fuel as [|fuel IH]; intros m i j start Hwf Hb Hij Hj Hf Hs0 Hs1 Hs2; [lia |].
  cbn [pte_loop]. rewrite (proj2 (Z.leb_le (b + 8 * i) (b + 8 * j))) by lia.
  rewrite page_mask_id by lia. unfold PG_ENTRY_BYTES, PAGE_SIZE.
  replace (b + 8 * i + 8) with (b + 8 * (i + 1)) by lia.
  rewrite <- Z.lor_assoc. change PG_DESC_TYPE_PAGE with 3.
  rewrite (desc_attr_typed attr Hattr), Z.lor_assoc.
  pose proof (leaf_write 0 T m pnext b p i start att 3 ((p * 512 + i) * 4096) Hwf Hb
    ltac:(lia) ltac:(lia) Hs0 ltac:(lia) (desc_attr_ok attr) (or_introl (conj eq_refl eq_refl)) eq_refl) as Hw.
  rewrite lsize_0 in Hw.
  destruct (decide (i = j)) as [<- | Hne].
  - destruct fuel as [|fuel]; [lia |]. cbn [pte_loop].
    rewrite (proj2 (Z.leb_gt (b + 8 * (i + 1)) (b + 8 * i))) by lia.
    eexists. split; [reflexivity |].
    replace ((p * 512 + i + 1) * 4096) with ((p * 512 + i) * 4096 + 4096) by lia. exact Hw.
  - rewrite u64_small by lia.
    destruct (IH _ (i + 1) j (start + 4096) (mp_wf _ _ _ _ _ _ _ _ _ _ _ _ Hw) Hb)
      as (m' & E & Hp); try lia.
    { rewrite Zplus_mod, Hs0. reflexivity. }
    exists m'. split; [exact E |].
    replace ((p * 512 + (i + 1)) * 4096) with ((p * 512 + i) * 4096 + 4096) in Hp by lia.
    eapply (map_post_trans 0); [exact Hwf | exact Hb | | | | exact Hw |].
    + intros v Hv. apply div_slot. change (lsize 1) with (512 * 4096). lia.
    + lia.
    + rewrite lsize_0. rewrite Z.add_mod, Z.mod_mul by lia. reflexivity.
    + replace (start + _) with (start + 4096) by lia. exact Hp.
Qed.

(** A page-aligned range inside one table of level [n].  The test
    [va_start + block <= va_end] of the code wraps around in the last block
    of the address space, so the range ends below it. *)
Record rng (n : nat) (p va ve start : Z) : Prop := {
  rg_lt : 0 <= va < ve;
  rg_top : ve <= 2 ^ 64 - 2 ^ 30;
  rg_lo : va / lsize (S n) = p;
  rg_hi : (ve - 1) / lsize (S n) = p;
  rg_va : va mod 4096 = 0;
  rg_ve : ve mod 4096 = 0;
  rg_start : start mod 4096 = 0;
  rg_pa : 0 <= start /\ start + (ve - va) <= 2 ^ 48;
}.

Lemma rng_inside n p va ve start v : rng n p va ve start -> va <= v < ve -> v / lsize (S n) = p.
Proof.
  intros H Hv. apply div_slot. pose proof (proj1 (div_slot _ _ _) (rg_lo _ _ _ _ _ H)).
  pose proof (proj1 (div_slot _ _ _) (rg_hi _ _ _ _ _ H)). lia.
Qed.

Context (blk : nat -> bool).

(** Where the mapper writes a block of level [k] for the slot [q], in a
    mapping of [lo, hi) whose physical addresses are at distance [d]. *)
Definition block_at (k : nat) (q lo hi d : Z) : Prop :=
  blk k = true /\ lo <= q * lsize k /\ (q + 1) * lsize k <= hi /\ d mod lsize k = 0.

(** The entry of the slot is a block where the mapper would write one and
    otherwise a table; it may be empty unless [full]. *)
Definition entry_ok (full : bool) (k : nat) (q lo hi d e : Z) : Prop :=
  if Z.testbit e 0
  then (block_at k q lo hi d -> Z.testbit e 1 = false)
       /\ (~ block_at k q lo hi d -> Z.testbit e 1 = true)
  else full = false.

(** Every entry for an address of the range, in the tables of the levels 1
    to [n], is so: the mapper may fill the range ([full = false]), or rewrite
    it without a new table ([full = true]). *)
Definition covered (full : bool) (n : nat) (T : tables) (m : mem) (lo hi d : Z) : Prop :=
  forall b k p i, T !! b = Some (S k, p) -> (S k <= n)%nat -> 0 <= i < 512 ->
    ~ slot_apart (S k) (p * 512 + i) lo hi ->
    entry_ok full (S k) (p * 512 + i) lo hi d (rd m (b + 8 * i)).

Lemma entry_ok_zero k q lo hi d : entry_ok false k q lo hi d 0.
Proof. done. Qed.

Lemma entry_ok_iff full k q lo hi lo' hi' d e :
  (block_at k q lo hi d <-> block_at k q lo' hi' d) ->
  entry_ok full k q lo hi d e -> entry_ok full k q lo' hi' d e.
Proof. unfold entry_ok. destruct (Z.testbit e 0); [| done]. tauto. Qed.

Lemma entry_ok_weaken full k q lo hi d e : entry_ok true k q lo hi d e -> entry_ok full k q lo hi d e.
Proof. unfold entry_ok. by destruct (Z.testbit e 0). Qed.

Lemma covered_weaken full n T m lo hi d : covered true n T m lo hi d -> covered full n T m lo hi d.
Proof. intros H b k p i Hb Hk Hi Ha. by apply entry_ok_weaken, H. Qed.

(** A multiple of the size of a level splits no slot of the levels below. *)
Lemma multiple_slot n k x q :
  (k <= n)%nat -> x mod lsize n = 0 -> (q + 1) * lsize k <= x \/ x <= q * lsize k.
Proof.
  intros Hk Hm. pose proof (mod_multiple k x (mod_lsize_le k n x Hk Hm)) as ->.
  pose proof (lsize_pos k). destruct (decide (q < x / lsize k)); [left | right];
    apply Z.mul_le_mono_nonneg_r; lia.
Qed.

(** A part of the range cut at multiples of the size of the level. *)
Definition part (n : nat) (lo hi lo' hi' : Z) : Prop :=
  lo <= lo' /\ hi' <= hi /\ (lo' = lo \/ lo' mod lsize n = 0) /\ (hi' = hi \/ hi' mod lsize n = 0).

Lemma block_at_part n k q lo hi lo' hi' d :
  part n lo hi lo' hi' -> (k <= n)%nat -> ~ slot_apart k q lo' hi' ->
  block_at k q lo hi d <-> block_at k q lo' hi' d.
Proof.
  intros (Hl & Hh & Cl & Ch) Hk Hap. unfold block_at, slot_apart in *.
  assert (lo' = lo \/ lo' <= q * lsize k).
  { destruct Cl as [| Cl]; [by left |]. pose proof (multiple_slot n k lo' q Hk Cl). lia. }
  assert (hi' = hi \/ (q + 1) * lsize k <= hi').
  { destruct Ch as [| Ch]; [by left |]. pose proof (multiple_slot n k hi' q Hk Ch). lia. }
  intuition lia.
Qed.

Lemma covered_sub full n n' T m lo hi lo' hi' d :
  (n' <= n)%nat -> part n' lo hi lo' hi' ->
  covered full n T m lo hi d -> covered full n' T m lo' hi' d.
Proof.
  intros Hn Hpart H b k p i Hb Hk Hi Hap.
  assert (Hap' : ~ slot_apart (S k) (p * 512 + i) lo hi).
  { destruct Hpart as (? & ? & _). unfold slot_apart in *. lia. }
  eapply entry_ok_iff, (H b k p i Hb ltac:(lia) Hi Hap'). by eapply block_at_part.
Qed.

(** The entries of the tables a mapping adds are empty outside its range. *)
Lemma covered_new n T m pnext T1 m1 pnext1 b0 lo nxt x attr' b k p i :
  pt_wf T m pnext -> map_post n T m pnext T1 m1 pnext1 b0 lo nxt x attr' ->
  T1 !! b = Some (k, p) -> 0 <= i < 512 -> slot_apart k (p * 512 + i) lo nxt ->
  rd m1 (b + 8 * i) = rd m (b + 8 * i)
  /\ (T !! b = Some (k, p)
      \/ pnext < pnext1 /\ rd m (b + 8 * i) = 0 /\ (k < n)%nat /\ ~ slot_apart (S k) p lo nxt).
Proof.
  intros Hwf Hp Hb Hi Ha. split.
  - apply (mp_entry _ _ _ _ _ _ _ _ _ _ _ _ Hp b k p i); auto.
  - destruct (mp_new _ _ _ _ _ _ _ _ _ _ _ _ Hp b _ _ Hb) as [Ho | (N1 & N2 & N3)];
      [by left | right].
    pose proof (pw_pool _ _ _ (mp_wf _ _ _ _ _ _ _ _ _ _ _ _ Hp)).
    split; [lia |]. split; [| done]. apply (pw_fresh _ _ _ Hwf). lia.
Qed.

(** Any range that a mapping leaves alone is covered as before. *)
Lemma covered_frame full n n' T m pnext T1 m1 pnext1 b0 lo nxt x attr' lo' hi' d :
  pt_wf T m pnext -> map_post n T m pnext T1 m1 pnext1 b0 lo nxt x attr' ->
  (full = true -> pnext1 = pnext) ->
  (forall b k p i, T1 !! b = Some (S k, p) -> (S k <= n')%nat -> 0 <= i < 512 ->
     ~ slot_apart (S k) (p * 512 + i) lo' hi' -> ~ slot_apart (S k) (p * 512 + i) lo nxt ->
     entry_ok full (S k) (p * 512 + i) lo' hi' d (rd m1 (b + 8 * i))) ->
  covered full n' T m lo' hi' d -> covered full n' T1 m1 lo' hi' d.
Proof.
  intros Hwf Hp Hfull Hboth H b k p i Hb Hk Hi Hap.
  destruct (decide ((p * 512 + i + 1) * lsize (S k) <= lo \/ nxt <= (p * 512 + i) * lsize (S k)))
    as [Ha | Ha]; [| by apply Hboth].
  destruct (covered_new _ _ _ _ _ _ _ _ _ _ _ _ _ _ _ _ Hwf Hp Hb Hi Ha) as [-> [Ho | (Hlt & -> & _)]].
  - by apply H.
  - destruct full; [| apply entry_ok_zero]. specialize (Hfull eq_refl). lia.
Qed.

(** The part of the range above a mapped piece. *)
Lemma covered_rest full n T m pnext T1 m1 pnext1 b0 lo nxt hi x attr' d :
  pt_wf T m pnext -> map_post n T m pnext T1 m1 pnext1 b0 lo nxt x attr' ->
  (full = true -> pnext1 = pnext) -> nxt mod lsize n = 0 -> lo <= nxt <= hi ->
  covered full n T m lo hi d -> covered full n T1 m1 nxt hi d.
Proof.
  intros Hwf Hp Hfull Hm Hle H. eapply covered_frame; [exact Hwf | exact Hp | done | |].
  - intros b k p i _ Hk _ H1 H2. exfalso. unfold slot_apart in *.
    pose proof (multiple_slot n (S k) nxt (p * 512 + i) Hk Hm). lia.
  - eapply covered_sub; [done | | exact H]. unfold part. auto with lia.
Qed.

(** A range disjoint from one just mapped: an entry used by both is a
    table, since neither range fills its slot. *)
Lemma covered_other full n n' T m pnext T1 m1 pnext1 b0 lo hi x attr' lo' hi' d d' :
  pt_wf T m pnext -> map_post n T m pnext T1 m1 pnext1 b0 lo hi x attr' ->
  (full = true -> pnext1 = pnext) -> (n' <= n)%nat -> hi <= lo' \/ hi' <= lo ->
  covered true n T1 m1 lo hi d -> covered full n' T m lo' hi' d' ->
  covered full n' T1 m1 lo' hi' d'.
Proof.
  intros Hwf Hp Hfull Hn Hdis H1 H. eapply covered_frame; [exact Hwf | exact Hp | done | | exact H].
  intros b k p i Hb Hk Hi Ha' Ha. specialize (H1 b k p i Hb ltac:(lia) Hi Ha).
  unfold entry_ok, block_at, slot_apart in *. pose proof (lsize_pos (S k)).
  destruct (Z.testbit (rd m1 (b + 8 * i)) 0); [| done].
  assert (Hno : Z.testbit (rd m1 (b + 8 * i)) 1 = true) by (apply H1; lia).
  split; [lia | done].
Qed.

(** Two adjacent ranges mapped one after the other. *)
Lemma covered_join n T m pnext T1 m1 pnext1 b0 lo nxt hi x attr' d :
  pt_wf T m pnext -> map_post n T m pnext T1 m1 pnext1 b0 nxt hi x attr' ->
  nxt mod lsize n = 0 -> lo <= nxt <= hi ->
  covered true n T m lo nxt d -> covered true n T1 m1 nxt hi d -> covered true n T1 m1 lo hi d.
Proof.
  intros Hwf Hp Hm Hle H1 H2 b k p i Hb Hk Hi Hap. pose proof (lsize_pos (S k)) as Hpos.
  destruct (multiple_slot n (S k) nxt (p * 512 + i) Hk Hm) as [Hlo | Hhi].
  - destruct (covered_new _ _ _ _ _ _ _ _ _ _ _ _ b (S k) p i Hwf Hp Hb Hi) as [-> Hold];
      [by left |].
    destruct Hold as [Ho | (_ & _ & Hlt & Ha)].
    + apply (entry_ok_iff _ _ _ lo nxt); [unfold block_at; intuition lia |].
      apply (H1 b k p i); [done | done | done |]. unfold slot_apart in *. lia.
    + exfalso. destruct (multiple_slot n (S (S k)) nxt p ltac:(lia) Hm) as [Hc | Hc].
      * apply Ha. by left.
      * rewrite lsize_S in Hc.
        assert (p * 512 * lsize (S k) <= (p * 512 + i) * lsize (S k)); [| lia].
        apply Z.mul_le_mono_nonneg_r; lia.
  - apply (entry_ok_iff _ _ _ nxt hi); [unfold block_at; intuition lia |].
    apply (H2 b k p i); [done | done | done |]. unfold slot_apart in *. lia.
Qed.

(** A page or block just written covers its slot. *)
Lemma covered_leaf n T m pnext b p i e d :
  pt_wf T m pnext -> T !! b = Some (n, p) -> (n <= 2)%nat -> 0 <= i < 512 ->
  (n <> 0%nat -> blk n = true /\ not_table (rd m (b + 8 * i)) /\ Z.testbit e 1 = false) ->
  d mod lsize n = 0 -> Z.testbit e 0 = true ->
  covered true n T (wr m (b + 8 * i) e) ((p * 512 + i) * lsize n) ((p * 512 + i + 1) * lsize n) d.
Proof.
  intros Hwf Hb Hn Hi Hty Hd E0 c k q j Hc Hk Hj Hap. set (s := p * 512 + i) in *.
  destruct Hty as (T1 & T2 & T3); [lia |]. unfold slot_apart in Hap. pose proof (lsize_pos (S k)).
  destruct (decide (S k = n)) as [<- | Hne].
  - assert (q * 512 + j = s) as Es.
    { assert (q * 512 + j < s + 1 /\ s < q * 512 + j + 1); [| lia].
      split; apply (Z.mul_lt_mono_pos_r (lsize (S k))); lia. }
    assert (q = p /\ j = i) as [-> ->] by lia.
    assert (c = b) as -> by (by eapply (pw_inj _ _ _ Hwf)).
    rewrite rd_wr_eq. unfold entry_ok. rewrite E0. split; [done |].
    intros Hno. exfalso. apply Hno. unfold block_at. fold s. split; [done | lia].
  - exfalso. assert (n = S (S k)) as -> by lia. rewrite (lsize_S (S k)) in Hap.
    assert (q = s) as ->.
    { assert (q * 512 + j < (s + 1) * 512 /\ s * 512 < q * 512 + j + 1); [| lia].
      split; apply (Z.mul_lt_mono_pos_r (lsize (S k))); lia. }
    destruct (pw_link _ _ _ Hwf c _ _ Hc ltac:(lia)) as (b' & p' & j' & L1 & L2 & L3 & L4 & L5 & _).
    assert (p' = p /\ j' = i) as [-> ->] by lia.
    assert (b' = b) as -> by (by eapply (pw_inj _ _ _ Hwf)).
    specialize (T2 L4). congruence.
Qed.

(** The tables that may ever be needed, each for one page of the pool. *)
Context (plan : gset (nat * Z)).

Definition budget (T : tables) (pnext : Z) : Prop :=
  (forall b x, T !! b = Some x -> x ∈ plan)
  /\ pnext + 4096 * (Z.of_nat (size plan) - Z.of_nat (size T)) <= limit.

(** The plan has the tables for every address of a range that is not mapped
    by a block. *)
Definition planned (n : nat) (va ve d : Z) : Prop :=
  forall k q, (k < n)%nat -> ~ slot_apart (S k) q va ve -> ~ block_at (S k) q va ve d ->
    (k, q) ∈ plan.

Lemma planned_sub n n' lo hi lo' hi' d :
  (n' <= n)%nat -> part n' lo hi lo' hi' -> planned n lo hi d -> planned n' lo' hi' d.
Proof.
  intros Hn Hpart H k q Hk Ha Hno. apply H; [lia | |].
  - destruct Hpart as (? & ? & _). unfold slot_apart in *. lia.
  - by rewrite (block_at_part n' (S k) q lo hi lo' hi' d Hpart).
Qed.

Lemma tables_le_plan (T : tables) (m : mem) (pnext : Z) (P : gset (nat * Z)) :
  pt_wf T m pnext -> (forall b x, T !! b = Some x -> x ∈ P) -> (size T <= size P)%nat.
Proof.
  intros Hwf Hin. rewrite <- length_map_to_list, <- (length_fmap snd).
  assert (Hnd : NoDup (map_to_list T).*2).
  { apply NoDup_fmap_2_strong; [| apply NoDup_map_to_list].
    intros [b1 x1] [b2 x2] H1%elem_of_map_to_list H2%elem_of_map_to_list ?; simpl in *; subst.
    f_equal. by eapply (pw_inj _ _ _ Hwf). }
  rewrite <- (size_list_to_set (C := gset (nat * Z))) by done. apply subseteq_size.
  intros x Hx. apply elem_of_list_to_set, list_elem_of_fmap in Hx as ([b y] & -> & Hx).
  apply elem_of_map_to_list in Hx. by eapply Hin.
Qed.

(** A planned table that does not exist yet has its page in the pool. *)
Lemma budget_link T m pnext x :
  pt_wf T m pnext -> budget T pnext -> x ∈ plan -> (forall c, T !! c <> Some x) ->
  pnext + 4096 <= limit /\ budget (<[pnext := x]> T) (pnext + 4096).
Proof.
  intros Hwf [B1 B2] Hx Hnew.
  assert (Hle : (size T <= size (plan ∖ {[x]}))%nat).
  { eapply tables_le_plan; [exact Hwf |]. intros b y Hb. apply elem_of_difference.
    split; [by eapply B1 |]. intros ->%elem_of_singleton. by eapply Hnew. }
  rewrite size_difference in Hle by set_solver. rewrite size_singleton in Hle.
  assert ((0 < size plan)%nat).
  { pose proof (subseteq_size {[x]} plan ltac:(set_solver)) as H. rewrite size_singleton in H. lia. }
  assert (Hnone : pnext + 4096 <= limit -> T !! pnext = None).
  { intros Hl. destruct (T !! pnext) as [[k q]|] eqn:E; [| done].
    apply (pw_page _ _ _ Hwf) in E. lia. }
  split; [lia |]. split.
  - intros b y Hb. apply lookup_insert_Some in Hb as [[_ <-] | [_ Hb]]; [done | by eapply B1].
  - rewrite map_size_insert_None by (apply Hnone; lia). lia.
Qed.

(** The pool passed to the mapper: none, or the pages from [pnext] on. *)
Context (null : bool).
Definition pool_of (pnext : Z) : pool := if null then None else Some pnext.

Record map_done (n : nat) (T : tables) (m : mem) (pnext : Z)
    (T' : tables) (m' : mem) (pnext' : Z) (b va ve start : Z) : Prop := {
  md_post : map_post n T m pnext T' m' pnext' b va ve start att;
  md_covered : covered true n T' m' va ve (start - va);
  md_null : null = true -> pnext' = pnext;
  md_budget : null = false -> budget T' pnext';
}.

Lemma map_done_trans n T m pnext T1 m1 pnext1 T2 m2 pnext2 b p va nxt ve start :
  pt_wf T m pnext -> T !! b = Some (n, p) ->
  (forall v, va <= v < ve -> v / lsize (S n) = p) ->
  va < nxt < ve -> nxt mod lsize n = 0 ->
  map_done n T m pnext T1 m1 pnext1 b va nxt start ->
  map_done n T1 m1 pnext1 T2 m2 pnext2 b nxt ve (start + (nxt - va)) ->
  map_done n T m pnext T2 m2 pnext2 b va ve start.
Proof.
  intros Hwf Hb Hv Hn Hm [A1 A2 A3 A4] [B1 B2 B3 B4]. split; [| | | done].
  - by eapply (map_post_trans n).
  - replace (start + (nxt - va) - nxt) with (start - va) in B2 by lia.
    eapply covered_join; [eapply mp_wf; exact A1 | exact B1 | done | lia | done | done].
  - intros E. rewrite B3, A3; done.
Qed.

(** Where blocks are written the attributes carry no type. *)
Definition plain (lo hi d : Z) : Prop := forall k q, block_at k q lo hi d -> att = attr.

Lemma plain_sub lo hi lo' hi' d : lo <= lo' -> hi' <= hi -> plain lo hi d -> plain lo' hi' d.
Proof. intros Hl Hh H k q (? & ? & ? & ?). apply (H k q). unfold block_at. intuition lia. Qed.

(** What a mapping helper of level [n] must do. *)
Definition map_ok (n : nat) (f : map_fn) : Prop :=
  forall T m pnext b p start end_ va,
    pt_wf T m pnext -> T !! b = Some (n, p) -> rng n p va (va + (end_ - start)) start ->
    covered null n T m va (va + (end_ - start)) (start - va) ->
    plain va (va + (end_ - start)) (start - va) ->
    (null = false -> budget T pnext /\ planned n va (va + (end_ - start)) (start - va)) ->
    exists T' m' pnext', f m (pool_of pnext) b start end_ va = Done (m', pool_of pnext')
      /\ map_done n T m pnext T' m' pnext' b va (va + (end_ - start)) start.
Lemma va_end_val n p va ve start end_ :
  rng n p va ve start -> ve = va + (end_ - start) ->
  u64 (va + u64 (end_ - start)) = ve.
Proof.
  intros [[? ?] ? _ _ _ _ _ [? ?]] ->. rewrite (u64_small (end_ - start)) by lia.
  apply u64_small. lia.
Qed.

Lemma pte_map_ok :
  map_ok 0 (fun m pnext pte start end_ va_start =>
              let! m := pte_map_range m pte start end_ va_start attr in Done (m, pnext)).
Proof.
  intros T m pnext b p start end_ va Hwf Hb Hr _ _ Hroom.
  destruct (pw_page _ _ _ Hwf b _ _ Hb) as (P1 & P2 & P3 & _).
  unfold pte_map_range. set (ve := va + (end_ - start)) in *.
  rewrite (va_end_val 0 p va ve start end_ Hr eq_refl). change PAGE_SHIFT with (lshift 0).
  change PAGE_SIZE with (lsize 0). pose proof Hr as [[R1 R2] R3 R4 R5 R6 R7 R8 [R9 R10]].
  rewrite !table_entry_val, lindex_align_up by lia.
  pose proof (slot_split 0 va) as S1. pose proof (slot_split 0 (ve - 1)) as S2.
  rewrite R4 in S1. rewrite R5 in S2. rewrite lsize_0 in S1, S2.
  set (i := lindex 0 va) in *. set (j := lindex 0 (ve - 1)) in *.
  pose proof (lindex_range 0 va : 0 <= i < 512). pose proof (lindex_range 0 (ve - 1) : 0 <= j < 512).
  assert (E1 : va = (p * 512 + i) * 4096) by (pose proof (Z.div_mod va 4096); lia).
  assert (E2 : ve = (p * 512 + j + 1) * 4096).
  { rewrite <- S2. pose proof (div_pred 0 ve R7) as Hd. rewrite lsize_0 in Hd.
    pose proof (Z.div_mod ve 4096). lia. }
  destruct (pte_loop_spec T pnext b p TABLE_FUEL m i j start) as (m' & -> & Hp);
    try done; try lia.
  { unfold TABLE_FUEL. lia. }
  exists T, m', pnext. split; [done |]. split; [rewrite E1, E2; exact Hp | | done | apply Hroom].
  intros ? ? ? ? _ Hk. lia.
Qed.

(** ** Linking a new table *)

(** No table exists yet for an empty entry. *)
Lemma no_table_yet n T m pnext b p i :
  pt_wf T m pnext -> T !! b = Some (S n, p) -> (n <= 2)%nat -> 0 <= i < 512 ->
  Z.testbit (rd m (b + 8 * i)) 0 = false -> forall c, T !! c <> Some (n, p * 512 + i).
Proof.
  intros Hwf Hb Hn Hi Hz c Hc.
  destruct (pw_link _ _ _ Hwf c _ _ Hc ltac:(lia)) as (b' & p' & j & L1 & L2 & L3 & L4 & _).
  assert (p' = p /\ j = i) as [-> ->] by lia.
  assert (b' = b) as -> by (by eapply (pw_inj _ _ _ Hwf)). congruence.
Qed.

Lemma link_wf n T m pnext b p i :
  pt_wf T m pnext -> T !! b = Some (S n, p) -> (n <= 2)%nat -> 0 <= i < 512 ->
  Z.testbit (rd m (b + 8 * i)) 0 = false -> pnext + 4096 <= limit ->
  let e := Z.lor (page_mask pnext) (Z.lor PG_DESC_TYPE_TABLE PG_TABLE_ENTRY_RWX) in
  pt_wf (<[pnext := (n, p * 512 + i)]> T) (wr m (b + 8 * i) e) (pnext + 4096).
Proof.
  intros Hwf Hb Hn Hi Hz Hl e. pose proof Hwf as [W1 W2 W3 W4 W5 W6].
  destruct W1 as (W1 & W1' & W1''). destruct (table_desc pnext W1 ltac:(lia)) as (D1 & D2 & D3).
  fold e in D1, D2, D3.
  assert (Hpn : forall c x, T !! c = Some x -> c <> pnext).
  { intros c [k q] Hc ->. apply W2 in Hc. lia. }
  pose proof (no_table_yet n T m pnext b p i Hwf Hb Hn Hi Hz) as Huniq.
  split.
  - rewrite Zplus_mod, W1. split; [reflexivity | lia].
  - intros c k q Hc. apply lookup_insert_Some in Hc as [[<- _] | [_ Hc]]; [lia |].
    apply W2 in Hc. lia.
  - intros c1 c2 x H1 H2.
    apply lookup_insert_Some in H1 as [[<- <-] | [_ H1]];
      apply lookup_insert_Some in H2 as [[<- Hx] | [_ H2]].
    + done.
    + by apply Huniq in H2.
    + subst x. by apply Huniq in H1.
    + by eapply W3.
  - intros c k q j Hc Hj. apply lookup_insert_Some in Hc as [[<- Hx] | [_ Hc]].
    { rewrite rd_wr_ne, W6, Z.bits_0; [done | lia |].
      pose proof (entry_below_pool T m pnext b _ i Hwf Hb Hi). lia. }
    destruct (decide (b + 8 * i = c + 8 * j)) as [He | He].
    + destruct (entry_inj _ _ _ _ _ _ _ _ _ Hwf Hb Hc Hi Hj He) as [-> ->].
      rewrite Hb in Hc. injection Hc as -> ->. rewrite rd_wr_eq, D1. intros _ _.
      apply lookup_insert_eq.
    + rewrite rd_wr_ne by done. intros E0 E1. pose proof (W4 c k q j Hc Hj E0 E1) as Hch.
      rewrite lookup_insert_ne; [done |]. symmetry. by eapply Hpn.
  - intros c k q Hc Hk. apply lookup_insert_Some in Hc as [[<- Hx] | [_ Hc]].
    + injection Hx as <- <-. exists b, p, i. rewrite rd_wr_eq.
      rewrite lookup_insert_ne by (symmetry; by eapply Hpn). done.
    + destruct (W5 c k q Hc Hk) as (b' & p' & j & L1 & L2 & L3 & L4 & L5 & L6).
      exists b', p', j. rewrite lookup_insert_ne by (symmetry; by eapply Hpn).
      rewrite rd_wr_ne; [done |]. intros He.
      destruct (entry_inj _ _ _ _ _ _ _ _ _ Hwf Hb L1 Hi L2 He) as [-> ->]. congruence.
  - intros a Ha. rewrite rd_wr_ne; [apply W6; lia |].
    pose proof (entry_below_pool T m pnext b _ i Hwf Hb Hi). lia.
Qed.

Lemma walk_zero n m b v : rd m (b + 8 * lindex n v) = 0 -> walk n m b v = None.
Proof. intros H. destruct n; cbn [walk]; by rewrite H. Qed.

Lemma link_walk n T m pnext b p i :
  pt_wf T m pnext -> T !! b = Some (S n, p) -> (n <= 2)%nat -> 0 <= i < 512 ->
  Z.testbit (rd m (b + 8 * i)) 0 = false -> pnext + 4096 <= limit ->
  let e := Z.lor (page_mask pnext) (Z.lor PG_DESC_TYPE_TABLE PG_TABLE_ENTRY_RWX) in
  forall k b' v, T !! b' = Some (k, v / lsize (S k)) ->
    walk k (wr m (b + 8 * i) e) b' v = walk k m b' v.
Proof.
  intros Hwf Hb Hn Hi Hz Hl e. pose proof Hwf as [[W1 W1'] W2 W3 W4 W5 W6].
  destruct (table_desc pnext W1 ltac:(lia)) as (D1 & D2 & D3). fold e in D1, D2, D3.
  pose proof (entry_below_pool T m pnext b _ i Hwf Hb Hi) as Hout.
  induction k as [|k IH]; intros b' v Hb'; cbn [walk].
  - rewrite rd_wr_ne; [done |]. eapply entry_differs; [exact Hwf | exact Hb | exact Hi | exact Hb' | lia].
  - destruct (decide (b + 8 * i = b' + 8 * lindex (S k) v)) as [He | He].
    + destruct (entry_inj _ _ _ _ _ _ _ _ _ Hwf Hb Hb' Hi (lindex_range _ v) He) as [-> E].
      rewrite Hb in Hb'. injection Hb' as -> ->. rewrite <- E, rd_wr_eq, D1, D2, D3, Hz.
      apply walk_zero. pose proof (lindex_range k v). rewrite rd_wr_ne by lia. apply W6. lia.
    + rewrite rd_wr_ne by done.
      set (d := rd m (b' + 8 * lindex (S k) v)) in *.
      destruct (Z.testbit d 0) eqn:E0; [| reflexivity].
      destruct (Z.testbit d 1) eqn:E1; [| reflexivity].
      apply IH. rewrite slot_split. apply (W4 _ _ _ _ Hb' (lindex_range _ v) E0 E1).
Qed.

(** ** Descending one level *)

(** The state in which a helper of level [n] is called for entry [i] of the
    table [b]: the entry points to a table of level [n]. *)
Record prep_ok (n : nat) (T : tables) (m : mem) (pnext b p i : Z)
    (T1 : tables) (m1 : mem) (pnext1 : Z) : Prop := {
  po_wf : pt_wf T1 m1 pnext1;
  po_sub : forall c x, T !! c = Some x -> T1 !! c = Some x;
  po_new : forall c x, T1 !! c = Some x ->
    T !! c = Some x \/ (pnext <= c /\ c + 4096 <= pnext1) /\ x = (n, p * 512 + i);
  po_pnext : pnext <= pnext1 <= pnext + 4096;
  po_entry : forall c j, c + 8 * j <> b + 8 * i -> rd m1 (c + 8 * j) = rd m (c + 8 * j);
  po_walk : forall k c v, T !! c = Some (k, v / lsize (S k)) -> walk k m1 c v = walk k m c v;
  po_mem : forall a, outside T a -> rd m1 a = rd m a;
  po_bits : Z.testbit (rd m1 (b + 8 * i)) 0 = true /\ Z.testbit (rd m1 (b + 8 * i)) 1 = true;
  po_child : T1 !! desc_addr 0 (rd m1 (b + 8 * i)) = Some (n, p * 512 + i);
}.

Lemma prep_existing n T m pnext b p i :
  pt_wf T m pnext -> T !! b = Some (S n, p) -> 0 <= i < 512 ->
  Z.testbit (rd m (b + 8 * i)) 0 = true -> Z.testbit (rd m (b + 8 * i)) 1 = true ->
  prep_ok n T m pnext b p i T m pnext.
Proof.
  intros Hwf Hb Hi E0 E1. split; auto; [lia |]. by apply (pw_child _ _ _ Hwf).
Qed.

Lemma prep_link n T m pnext b p i :
  pt_wf T m pnext -> T !! b = Some (S n, p) -> (n <= 2)%nat -> 0 <= i < 512 ->
  Z.testbit (rd m (b + 8 * i)) 0 = false -> pnext + 4096 <= limit ->
  let e := Z.lor (page_mask pnext) (Z.lor PG_DESC_TYPE_TABLE PG_TABLE_ENTRY_RWX) in
  prep_ok n T m pnext b p i (<[pnext := (n, p * 512 + i)]> T) (wr m (b + 8 * i) e) (pnext + 4096).
Proof.
  intros Hwf Hb Hn Hi Hz Hl e. destruct (pw_pool _ _ _ Hwf) as (W1 & W2 & W3).
  destruct (table_desc pnext W1 ltac:(lia)) as (D1 & D2 & D3). fold e in D1, D2, D3. split.
  - by apply link_wf.
  - intros c [k q] Hc. rewrite lookup_insert_ne; [done |]. intros <-.
    apply (pw_page _ _ _ Hwf) in Hc. lia.
  - intros c x Hc. apply lookup_insert_Some in Hc as [[<- <-] | [_ Hc]]; [right; split; [lia | done] | by left].
  - lia.
  - intros c j Hne. apply rd_wr_ne. lia.
  - intros k c v Hc. by eapply link_walk.
  - intros a Hout. apply rd_wr_ne. intros <-. by eapply Hout.
  - by rewrite rd_wr_eq.
  - rewrite rd_wr_eq, D1. apply lookup_insert_eq.
Qed.

Lemma prep_covered full n T m pnext b p i T1 m1 pnext1 lo hi d :
  pt_wf T m pnext -> T !! b = Some (S n, p) -> 0 <= i < 512 ->
  prep_ok n T m pnext b p i T1 m1 pnext1 -> (full = true -> pnext1 = pnext) ->
  covered full n T m lo hi d -> covered full n T1 m1 lo hi d.
Proof.
  intros Hwf Hb Hi [P1 P2 P3 P4 P5 P6 _ P7 P8] Hfull H c k q j Hc Hk Hj Hap.
  assert (Hsame : rd m1 (c + 8 * j) = rd m (c + 8 * j)).
  { apply P5. intros He. destruct (entry_inj _ _ _ _ _ _ _ _ _ P1 Hc (P2 _ _ Hb) Hj Hi He)
      as [-> ->]. rewrite (P2 _ _ Hb) in Hc. injection Hc as -> ->. lia. }
  rewrite Hsame. destruct (P3 c _ Hc) as [Ho | [Hn _]]; [by apply (H c k q j) |].
  pose proof (pw_pool _ _ _ P1). rewrite (pw_fresh _ _ _ Hwf) by lia.
  destruct full; [| apply entry_ok_zero]. specialize (Hfull eq_refl). lia.
Qed.

Lemma prep_lift n T m pnext b p i T1 m1 pnext1 T2 m2 pnext2 va nxt start :
  pt_wf T m pnext -> T !! b = Some (S n, p) -> 0 <= i < 512 ->
  va < nxt -> (forall v, va <= v < nxt -> v / lsize (S n) = p * 512 + i) ->
  prep_ok n T m pnext b p i T1 m1 pnext1 ->
  map_post n T1 m1 pnext1 T2 m2 pnext2 (desc_addr 0 (rd m1 (b + 8 * i))) va nxt start att ->
  map_post (S n) T m pnext T2 m2 pnext2 b va nxt start att.
Proof.
  intros Hwf Hb Hi Hlt Hslot [P1 P2 P3 P4 P5 P6 P9 [P7 P7'] P8] [A1 A2 A3 A4 A5 A6 A7 A8].
  assert (Hb2 : T2 !! b = Some (S n, p)) by auto.
  assert (Hent : rd m2 (b + 8 * i) = rd m1 (b + 8 * i)).
  { apply (A5 b (S n) p i Hb2 Hi). right. lia. }
  pose proof (pw_pool _ _ _ P1) as L1. pose proof (pw_pool _ _ _ A3) as L2. split.
  - auto.
  - intros c k q Hc. apply A2 in Hc as [Hc | (Hc & Hk & Ha)]; [| right; split; [lia | auto]].
    apply P3 in Hc as [Hc | (Hc & [= -> ->])]; [by left | right]. split; [lia |].
    split; [lia |]. pose proof (proj1 (div_slot _ _ _) (Hslot va ltac:(lia))).
    unfold slot_apart. lia.
  - done.
  - cbn [need]. assert (span (S n) va nxt = 1); [| lia].
    unfold span. rewrite !Hslot by lia. lia.
  - intros c k q j Hc Hj Hap.
    rewrite (A5 c k q j Hc Hj) by (destruct Hap; [by left | right; lia]).
    apply P5. intros He. destruct (entry_inj _ _ _ _ _ _ _ _ _ A3 Hc Hb2 Hj Hi He) as [-> ->].
    rewrite Hb2 in Hc. injection Hc as <- <-. destruct Hap as [Hap | Hap]; [| lia].
    pose proof (proj1 (div_slot _ _ _) (Hslot va ltac:(lia))). unfold slot_apart in Hap. lia.
  - intros v Hv. cbn [walk]. rewrite (lindex_slot (S n) v p i Hi (Hslot v Hv)).
    rewrite Hent, P7, P7'. by apply A6.
  - intros c k v Hc Hv. rewrite (A7 c k v); [by apply P6 | by apply P2 | done].
  - intros a Ha. rewrite A8, P9; [done | | done]. eapply outside_sub; [| exact Ha]. auto.
Qed.

(** The entry that was followed is a table, so one level more is covered. *)
Lemma covered_lift n T m pnext b p i va nxt d :
  pt_wf T m pnext -> T !! b = Some (S n, p) -> 0 <= i < 512 ->
  va < nxt -> (forall v, va <= v < nxt -> v / lsize (S n) = p * 512 + i) ->
  Z.testbit (rd m (b + 8 * i)) 0 = true -> Z.testbit (rd m (b + 8 * i)) 1 = true ->
  ~ block_at (S n) (p * 512 + i) va nxt d ->
  covered true n T m va nxt d -> covered true (S n) T m va nxt d.
Proof.
  intros Hwf Hb Hi Hlt Hslot E0 E1 Hno H c k q j Hc Hk Hj Hap.
  destruct (decide (S k <= n)%nat) as [Hle | Hgt]; [by apply (H c k q j) |].
  assert (k = n) as -> by lia. pose proof (lsize_pos (S n)). unfold slot_apart in Hap.
  set (v := Z.max va ((q * 512 + j) * lsize (S n))).
  assert (Hv : v / lsize (S n) = q * 512 + j) by (apply div_slot; lia).
  rewrite Hslot in Hv by lia. assert (q = p /\ j = i) as [-> ->] by lia.
  assert (c = b) as -> by (by eapply (pw_inj _ _ _ Hwf)).
  unfold entry_ok. by rewrite E0, E1.
Qed.

(** ** One level of the mapper *)

Lemma land_low n x : Z.land x (2 ^ lshift n - 1) = x mod lsize n.
Proof.
  replace (2 ^ lshift n - 1) with (Z.ones (lshift n)) by (rewrite Z.ones_equiv; lia).
  apply Z.land_ones. unfold lshift. lia.
Qed.

Lemma is_pow2_lsize n : (n <= 3)%nat -> is_pow2 (lsize n).
Proof. intros Hn. exists (lshift n). split; [unfold lshift; lia | reflexivity]. Qed.

Lemma u64_mod_lsize n x : (n <= 3)%nat -> u64 x mod lsize n = x mod lsize n.
Proof.
  intros Hn. unfold u64, lsize. apply Z.mod_mod_divide.
  exists (2 ^ (64 - lshift n)). rewrite <- Z.pow_add_r by (unfold lshift; lia). f_equal. lia.
Qed.

(** The distance to the end of the slot, computed modulo the word size. *)
Lemma to_slot_end n va :
  (n <= 3)%nat -> 0 <= va < 2 ^ 64 ->
  u64 (align_mask (u64 (va + lsize n)) (lsize n) - va)
  = (va / lsize n + 1) * lsize n - va.
Proof.
  intros Hn Hva. rewrite align_mask_pow2 by (apply is_pow2_lsize || apply u64_range; lia).
  rewrite u64_mod_lsize by lia.
  replace (u64 (va + lsize n) - (va + lsize n) mod lsize n - va)
    with (u64 (va + lsize n) - ((va + lsize n) mod lsize n + va)) by lia.
  rewrite u64_sub_l. pose proof (lsize_pos n).
  replace ((va + lsize n) mod lsize n) with (va mod lsize n)
    by (rewrite <- (Z_mod_plus_full va 1 (lsize n)); f_equal; lia).
  pose proof (Z.div_mod va (lsize n)). pose proof (Z.mod_pos_bound va (lsize n)).
  assert (lsize n <= 2 ^ 39) by (apply Z.pow_le_mono_r; unfold lshift; lia).
  rewrite u64_small; lia.
Qed.

(** Where the piece of the range that the current entry maps ends. *)
Definition piece_end (n : nat) (va ve : Z) : Z := Z.min ((va / lsize (S n) + 1) * lsize (S n)) ve.

Lemma piece_end_cases n va ve :
  piece_end n va ve = ve
  \/ piece_end n va ve < ve /\ piece_end n va ve = (va / lsize (S n) + 1) * lsize (S n)
     /\ piece_end n va ve mod lsize (S n) = 0.
Proof.
  unfold piece_end. destruct (Z.min_spec ((va / lsize (S n) + 1) * lsize (S n)) ve) as [[H E] | [H E]];
    rewrite E; [right | by left].
  split; [done |]. split; [done |]. apply Z.mod_mul. pose proof (lsize_pos (S n)). lia.
Qed.

Lemma need_piece n va ve : va < ve -> need (S n) va (piece_end n va ve) <= need (S n) va ve.
Proof.
  intros Hlt. destruct (piece_end_cases n va ve) as [-> | (H1 & H2 & H3)]; [lia |].
  rewrite <- (need_split (S n) (S n) va (piece_end n va ve) ve) by done.
  pose proof (need_nonneg (S n) (piece_end n va ve) ve H1). lia.
Qed.

Lemma rng_piece n p va ve start i :
  rng (S n) p va ve start -> va / lsize (S n) = p * 512 + i ->
  rng n (p * 512 + i) va (piece_end n va ve) start.
Proof.
  intros Hr Hq. pose proof Hr as [[R1 R2] R3 R4 R5 R6 R7 R8 [R9 R10]].
  pose proof (proj1 (div_slot (S n) va _) Hq) as Hsl. pose proof (lsize_pos (S n)).
  assert (Hpe : va < piece_end n va ve <= ve) by (unfold piece_end; rewrite Hq; lia).
  split; try done; try lia.
  - apply div_slot. unfold piece_end in *. rewrite Hq in *. lia.
  - destruct (piece_end_cases n va ve) as [-> | (_ & _ & H3)]; [done |].
    apply (mod_lsize_le 0 (S n)) in H3; [exact H3 | lia].
Qed.

Lemma rng_rest n p va ve start :
  rng (S n) p va ve start -> piece_end n va ve < ve ->
  rng (S n) p (piece_end n va ve) ve (start + (piece_end n va ve - va)).
Proof.
  intros Hr Hlt. pose proof Hr as [[R1 R2] R3 R4 R5 R6 R7 R8 [R9 R10]].
  pose proof (proj1 (div_slot (S n) va _) eq_refl) as Hsl.
  assert (Hpe : va < piece_end n va ve) by (unfold piece_end; lia).
  assert (Hm : piece_end n va ve mod 4096 = 0).
  { destruct (piece_end_cases n va ve) as [-> | (_ & _ & H3)]; [done |].
    apply (mod_lsize_le 0 (S n)) in H3; [exact H3 | lia]. }
  split; try done; try lia.
  - eapply rng_inside; [exact Hr | lia].
  - rewrite Zplus_mod, Zminus_mod, R8, Hm, R6. reflexivity.
Qed.

Section Level.
Context (n : nat) (next : map_fn).
Context (Hn : (n <= 2)%nat) (Hnext : map_ok n next).
Context (Hblk : blk (S n) = true -> (S n <= 2)%nat).

(** The test for a block entry. *)
Lemma block_test p va ve start :
  rng (S n) p va ve start ->
  (va mod lsize (S n) =? 0) && (start mod lsize (S n) =? 0)
    && (u64 (va + lsize (S n)) <=? ve) && blk (S n) = true
  <-> block_at (S n) (va / lsize (S n)) va ve (start - va).
Proof.
  intros [[R1 R2] R3 _ _ _ _ _ _]. pose proof (lsize_pos (S n)) as Hpos.
  pose proof (Z.div_mod va (lsize (S n))). pose proof (Z.mod_pos_bound va (lsize (S n)) Hpos).
  rewrite !andb_true_iff, !Z.eqb_eq, Z.leb_le. unfold block_at. split.
  - intros (((M1 & M2) & Hle) & Hb). rewrite u64_small in Hle.
    2: { assert (lsize (S n) <= 2 ^ 30); [| lia].
         apply Z.pow_le_mono_r; [lia |]. specialize (Hblk Hb). unfold lshift. lia. }
    split; [done |]. rewrite Zminus_mod, M1, M2. split_and!; [lia | lia | reflexivity].
  - intros (Hb & H1 & H2 & H3). assert (M1 : va mod lsize (S n) = 0) by lia.
    rewrite u64_small by lia. rewrite Zminus_mod, M1, Z.sub_0_r, Zmod_mod in H3.
    split_and!; [done | done | lia | done].
Qed.

Lemma block_at_piece va ve d :
  block_at (S n) (va / lsize (S n)) va (piece_end n va ve) d
  <-> block_at (S n) (va / lsize (S n)) va ve d.
Proof. unfold block_at, piece_end. intuition lia. Qed.

(** [table_link] makes the entry a table. *)
Lemma table_link_spec T m pnext b p i :
  pt_wf T m pnext -> T !! b = Some (S n, p) -> 0 <= i < 512 ->
  (Z.testbit (rd m (b + 8 * i)) 0 = true -> Z.testbit (rd m (b + 8 * i)) 1 = true) ->
  (Z.testbit (rd m (b + 8 * i)) 0 = false -> null = false) ->
  (null = false -> budget T pnext /\ (n, p * 512 + i) ∈ plan) ->
  exists T1 m1 pnext1,
    table_link m (pool_of pnext) (b + 8 * i) = Done (m1, pool_of pnext1)
    /\ prep_ok n T m pnext b p i T1 m1 pnext1 /\ (null = true -> pnext1 = pnext)
    /\ (null = false -> budget T1 pnext1).
Proof.
  intros Hwf Hb Hi E1 Hnull Hroom. unfold table_link. rewrite entry_present_bit.
  destruct (Z.testbit (rd m (b + 8 * i)) 0) eqn:E0; simpl.
  - exists T, m, pnext. split; [done |]. split; [by apply prep_existing; auto |].
    split; [done | apply Hroom].
  - specialize (Hnull eq_refl). destruct (Hroom Hnull) as [Hbud Hin].
    destruct (budget_link T m pnext (n, p * 512 + i) Hwf Hbud Hin) as [Hr Hbud'].
    { by eapply no_table_yet. }
    destruct (pw_pool _ _ _ Hwf) as (W1 & W2 & W3).
    unfold pool_of. rewrite Hnull, u64_small by (unfold PAGE_SIZE; lia).
    do 3 eexists. split; [done |]. split; [by apply prep_link |].
    split; [done | auto].
Qed.

(** The entry is a block. *)
Lemma block_entry_step T m pnext b p i va ve start :
  pt_wf T m pnext -> T !! b = Some (S n, p) -> rng (S n) p va ve start ->
  va / lsize (S n) = p * 512 + i -> 0 <= i < 512 ->
  block_at (S n) (p * 512 + i) va ve (start - va) -> plain va ve (start - va) ->
  entry_ok null (S n) (p * 512 + i) va ve (start - va) (rd m (b + 8 * i)) ->
  (null = false -> budget T pnext) ->
  piece_end n va ve = va + lsize (S n)
  /\ map_done (S n) T m pnext T (wr m (b + 8 * i) (Z.lor (Z.lor start attr) 1)) pnext
       b va (va + lsize (S n)) start.
Proof.
  intros Hwf Hb Hr Hq Hi Hat Hpl Hok Hroom. pose proof Hr as [[R1 R2] R3 _ _ _ _ _ [R9 R10]].
  pose proof Hat as (A1 & A2 & A3 & A4). pose proof (lsize_pos (S n)) as Hpos.
  pose proof (proj1 (div_slot (S n) va _) Hq) as Hsl.
  assert (Hva : va = (p * 512 + i) * lsize (S n)) by lia.
  assert (Hs : start mod lsize (S n) = 0).
  { rewrite Zminus_mod, Hva, Z.mod_mul, Z.sub_0_r, Zmod_mod in A4 by lia. done. }
  assert (Hold : not_table (rd m (b + 8 * i))).
  { intros E0. unfold entry_ok in Hok. rewrite E0 in Hok. by apply Hok. }
  pose proof (desc_attr_ok attr) as Ha. rewrite (Hpl _ _ Hat) in Ha.
  split; [unfold piece_end; rewrite Hq; lia |]. split; [rewrite (Hpl _ _ Hat) | | done | done].
  - apply (leaf_write (S n) T m pnext b p i start attr 1 va); try done; [by apply Hblk | lia |].
    right. done.
  - replace (va + lsize (S n)) with ((p * 512 + i + 1) * lsize (S n)) by lia. rewrite Hva at 1.
    destruct (leaf_bits (S n) start attr 1) as [B0 B1]; [lia | done | done | by left |].
    eapply covered_leaf; try done. by apply Hblk.
Qed.

(** The entry is a table, on which the helper of the level below is called. *)
Lemma descend_step T m pnext b p i start va ve :
  pt_wf T m pnext -> T !! b = Some (S n, p) -> rng (S n) p va ve start ->
  va / lsize (S n) = p * 512 + i -> 0 <= i < 512 ->
  ~ block_at (S n) (p * 512 + i) va ve (start - va) ->
  covered null (S n) T m va ve (start - va) ->
  plain va ve (start - va) ->
  (null = false -> budget T pnext /\ planned (S n) va ve (start - va)) ->
  exists T1 m1 pnext1 T2 m2 pnext2,
    table_link m (pool_of pnext) (b + 8 * i) = Done (m1, pool_of pnext1)
    /\ next m1 (pool_of pnext1) (PG_TABLE_ENTRY_GET_ADDR (rd m1 (b + 8 * i))) start
         (start + (piece_end n va ve - va)) va = Done (m2, pool_of pnext2)
    /\ prep_ok n T m pnext b p i T1 m1 pnext1
    /\ map_done (S n) T m pnext T2 m2 pnext2 b va (piece_end n va ve) start.
Proof.
  intros Hwf Hb Hr Hq Hi Hno Hcov Hpl Hroom. pose proof Hr as [[R1 R2] R3 _ _ _ _ _ _].
  pose proof (proj1 (div_slot (S n) va _) Hq) as Hsl. pose proof (lsize_pos (S n)) as Hpos.
  set (pe := piece_end n va ve). assert (Hpe : va < pe <= ve) by (unfold pe, piece_end; rewrite Hq; lia).
  assert (Hsp : forall v, va <= v < pe -> v / lsize (S n) = p * 512 + i).
  { intros v Hv. apply div_slot. unfold pe, piece_end in Hv. rewrite Hq in Hv. lia. }
  assert (Hpart : part n va ve va pe).
  { split; [lia |]. split; [lia |]. split; [by left |]. unfold pe.
    destruct (piece_end_cases n va ve) as [-> | (_ & _ & Hm)]; [by left | right].
    apply (mod_lsize_le n (S n)); [lia | exact Hm]. }
  assert (Hok := Hcov b n p i Hb (le_n _) Hi ltac:(unfold slot_apart; lia)). unfold entry_ok in Hok.
  destruct (table_link_spec T m pnext b p i) as (T1 & m1 & pnext1 & E & Hprep & Hnull1 & Hbud1); try done.
  { intros E0. rewrite E0 in Hok. by apply Hok. }
  { intros E0. by rewrite E0 in Hok. }
  { intros E0. destruct (Hroom E0) as [HB HP]. split; [done |]. apply HP; [lia | | done].
    unfold slot_apart. lia. }
  pose proof (po_pnext _ _ _ _ _ _ _ _ _ _ Hprep).
  destruct (Hnext T1 m1 pnext1 (desc_addr 0 (rd m1 (b + 8 * i))) (p * 512 + i) start
              (start + (pe - va)) va) as (T2 & m2 & pnext2 & E2 & [D1 D2 D3 D4]).
  all: replace (va + (start + (pe - va) - start)) with pe in * by lia.
  { by eapply po_wf. }
  { by eapply po_child. }
  { by eapply rng_piece. }
  { eapply prep_covered; [exact Hwf | exact Hb | done | exact Hprep | done |].
    eapply covered_sub; [| exact Hpart | exact Hcov]; lia. }
  { eapply plain_sub; [| | exact Hpl]; lia. }
  { intros E0. destruct (Hroom E0) as [HB HP]. split; [auto |].
    eapply planned_sub; [| exact Hpart | exact HP]; lia. }
  exists T1, m1, pnext1, T2, m2, pnext2. rewrite get_addr_desc. do 3 (split; [done |]).
  assert (Hp : map_post (S n) T m pnext T2 m2 pnext2 b va pe start att).
  { eapply prep_lift; [exact Hwf | exact Hb | done | lia | done | exact Hprep | exact D1]. }
  split; [exact Hp | | intros E0; rewrite D3, Hnull1; done | done].
  assert (Hb2 : T2 !! b = Some (S n, p)) by (by eapply mp_sub).
  assert (Hent : rd m2 (b + 8 * i) = rd m1 (b + 8 * i)).
  { eapply (mp_entry _ _ _ _ _ _ _ _ _ _ _ _ D1); [exact Hb2 | done | right; lia]. }
  destruct (po_bits _ _ _ _ _ _ _ _ _ _ Hprep) as [B0 B1].
  eapply covered_lift; [eapply mp_wf; exact Hp | exact Hb2 | done | lia | done | | | | done];
    [by rewrite Hent .. |].
  rewrite <- Hq. unfold pe. by rewrite block_at_piece, Hq.
Qed.

Lemma table_step_spec T m pnext b p start end_ va ve :
  ve = va + (end_ - start) ->
  pt_wf T m pnext -> T !! b = Some (S n, p) -> rng (S n) p va ve start ->
  covered null (S n) T m va ve (start - va) ->
  plain va ve (start - va) ->
  (null = false -> budget T pnext /\ planned (S n) va ve (start - va)) ->
  exists T1 m1 pnext1,
    table_step (lshift (S n)) (blk (S n)) next attr m (pool_of pnext) (b + 8 * lindex (S n) va)
      start end_ va ve
    = Done (m1, pool_of pnext1, start + (piece_end n va ve - va), piece_end n va ve)
    /\ map_done (S n) T m pnext T1 m1 pnext1 b va (piece_end n va ve) start.
Proof.
  intros Hve Hwf Hb Hr Hcov Hpl Hroom. pose proof Hr as [[R1 R2] R3 R4 R5 R6 R7 R8 [R9 R10]].
  pose proof (lsize_pos (S n)) as Hpos.
  pose proof (slot_split (S n) va) as Hq. rewrite R4 in Hq.
  set (i := lindex (S n) va) in *. pose proof (lindex_range (S n) va : 0 <= i < 512) as Hi.
  pose proof (proj1 (div_slot (S n) va _) Hq) as Hsl.
  assert (Hok := Hcov b n p i Hb (le_n _) Hi ltac:(unfold slot_apart; lia)).
  assert (Hpe : va < piece_end n va ve <= ve) by (unfold piece_end; rewrite Hq; lia).
  unfold table_step. rewrite !land_low. fold (lsize (S n)).
  pose proof (block_test p va ve start Hr) as Htest. rewrite Hq in Htest.
  destruct (_ && _) eqn:Eb.
  - apply proj1 in Htest. specialize (Htest eq_refl).
    destruct (block_entry_step T m pnext b p i va ve start) as [Hpv Hd]; try done.
    { apply Hroom. }
    pose proof Htest as (_ & _ & Hin & _). exists T. do 2 eexists. rewrite Hpv.
    split; [| exact Hd]. rewrite !u64_small by lia. unfold PG_DESC_TYPE_BLOCK. tuple_eq.
  - assert (Hno : ~ block_at (S n) (p * 512 + i) va ve (start - va)) by (intros ?%Htest; done).
    destruct (descend_step T m pnext b p i start va ve)
      as (T1 & m1 & pnext1 & T2 & m2 & pnext2 & -> & E2 & _ & Hd); try done.
    assert (Hl39 : lsize (S n) <= 2 ^ 39) by (apply Z.pow_le_mono_r; unfold lshift; lia).
    cbn [obind]. rewrite to_slot_end, Hq, (u64_small (start + _)) by lia.
    assert (Hend : Z.min (start + ((p * 512 + i + 1) * lsize (S n) - va)) end_
                   = start + (piece_end n va ve - va)) by (unfold piece_end; rewrite Hq; lia).
    rewrite Hend, E2. cbn [obind]. exists T2, m2, pnext2. split; [| exact Hd].
    rewrite (u64_small (start + _ - start)) by lia. rewrite u64_small by lia. tuple_eq.
Qed.
Lemma table_loop_spec fuel : forall T m pnext b p start end_ va ve,
  ve = va + (end_ - start) ->
  pt_wf T m pnext -> T !! b = Some (S n, p) -> rng (S n) p va ve start ->
  covered null (S n) T m va ve (start - va) ->
  plain va ve (start - va) ->
  (null = false -> budget T pnext /\ planned (S n) va ve (start - va)) ->
  lindex (S n) (ve - 1) - lindex (S n) va < Z.of_nat fuel ->
  exists T' m' pnext',
    table_loop fuel (lshift (S n)) (blk (S n)) next attr m (pool_of pnext)
      (b + 8 * lindex (S n) va) (b + 8 * lindex (S n) (ve - 1)) start end_ va ve
    = Done (m', pool_of pnext')
    /\ map_done (S n) T m pnext T' m' pnext' b va ve start.
Proof.
  induction fuel as [|fuel IH]; intros T m pnext b p start end_ va ve Hve Hwf Hb Hr Hcov Hpl Hroom Hf.
  all: pose proof Hr as [[R1 R2] R3 R4 R5 R6 R7 R8 [R9 R10]].
  all: pose proof (slot_split (S n) va) as Q1; pose proof (slot_split (S n) (ve - 1)) as Q2;
    rewrite R4 in Q1; rewrite R5 in Q2.
  all: assert (Hle : va / lsize (S n) <= (ve - 1) / lsize (S n))
    by (apply Z.div_le_mono; [apply lsize_pos | lia]).
  { lia. }
  cbn [table_loop].
  destruct (table_step_spec T m pnext b p start end_ va ve) as (T1 & m1 & pnext1 & -> & Hd);
    try done. cbn [obind]. unfold PG_ENTRY_BYTES.
  destruct (piece_end_cases n va ve) as [Epe | (Hlt & Epe & Hmod)].
  - (* the last entry *)
    assert (Hsame : (ve - 1) / lsize (S n) = va / lsize (S n)).
    { apply div_slot. pose proof (proj1 (div_slot (S n) va _) eq_refl).
      unfold piece_end in Epe. lia. }
    rewrite (proj2 (Z.leb_gt _ _)) by lia. exists T1, m1, pnext1. rewrite Epe in Hd. done.
  - pose proof (proj1 (div_slot (S n) va _) eq_refl) as Hsl.
    assert (Hnx : piece_end n va ve / lsize (S n) = va / lsize (S n) + 1).
    { apply div_slot. pose proof (lsize_pos (S n)). lia. }
    pose proof (rng_rest n p va ve start Hr Hlt) as Hr'.
    pose proof (slot_split (S n) (piece_end n va ve)) as Q3.
    rewrite (rg_lo _ _ _ _ _ Hr') in Q3.
    assert (Hle' : piece_end n va ve / lsize (S n) <= (ve - 1) / lsize (S n))
      by (apply Z.div_le_mono; [apply lsize_pos | lia]).
    rewrite (proj2 (Z.leb_le _ _)) by lia.
    replace (b + 8 * lindex (S n) va + 8) with (b + 8 * lindex (S n) (piece_end n va ve)) by lia.
    pose proof (need_split (S n) (S n) va (piece_end n va ve) ve ltac:(lia) Hmod) as Hns.
    pose proof Hd as [Hp _ Hnull Hbud]. pose proof (mp_pnext _ _ _ _ _ _ _ _ _ _ _ _ Hp).
    destruct (IH T1 m1 pnext1 b p (start + (piece_end n va ve - va)) end_ (piece_end n va ve) ve)
      as (T2 & m2 & pnext2 & E & Hd2); try done; try lia.
    + by eapply mp_wf.
    + by eapply mp_sub.
    + replace (start + (piece_end n va ve - va) - piece_end n va ve) with (start - va) by lia.
      eapply covered_rest; [exact Hwf | exact Hp | done | done | lia | done].
    + replace (start + (piece_end n va ve - va) - piece_end n va ve) with (start - va) by lia.
      eapply plain_sub; [| | exact Hpl]; lia.
    + intros E0. destruct (Hroom E0) as [_ HP]. split; [auto |].
      replace (start + (piece_end n va ve - va) - piece_end n va ve) with (start - va) by lia.
      eapply planned_sub; [done | | exact HP]. unfold part. auto with lia.
    + exists T2, m2, pnext2. split; [exact E |].
      eapply (map_done_trans (S n)); [exact Hwf | exact Hb | | | done | exact Hd | exact Hd2]; [| lia].
      intros v Hv. exact (rng_inside _ _ _ _ _ v Hr Hv).
Qed.
(** The functions of the upper levels, from the one below. *)
Lemma level_map_ok :
  map_ok (S n) (fun m pnext t start end_ va_start =>
    let va_end := u64 (va_start + u64 (end_ - start)) in
    table_loop TABLE_FUEL (lshift (S n)) (blk (S n)) next attr m pnext
      (table_entry (lshift (S n)) t va_start)
      (table_entry (lshift (S n)) t (u64 (ALIGN_UP va_end (lsize (S n)) - 1)))
      start end_ va_start va_end).
Proof.
  intros T m pnext b p start end_ va Hwf Hb Hr Hcov Hpl Hroom. cbv beta zeta.
  set (ve := va + (end_ - start)) in *.
  rewrite (va_end_val (S n) p va ve start end_ Hr eq_refl).
  destruct (pw_page _ _ _ Hwf b _ _ Hb) as (_ & P2 & P3 & _).
  pose proof Hr as [[R1 R2] R3 _ _ _ _ _ _].
  rewrite !table_entry_val, lindex_align_up by lia.
  apply (table_loop_spec TABLE_FUEL T m pnext b p start end_ va ve); try done.
  pose proof (lindex_range (S n) va). pose proof (lindex_range (S n) (ve - 1)).
  unfold TABLE_FUEL. lia.
Qed.
End Level.
End Attr.

(** ** The three helpers and the entry point *)

#[local] Opaque table_loop.

Section Mapper.
Context (attr flags : Z) (Hattr : attr_wf attr) (plan : gset (nat * Z)) (null : bool).

(** The levels at which the flags allow blocks. *)
Definition map_blk (n : nat) : bool :=
  match n with
  | 1%nat => flag_set flags FLAGS_MAP_PMD_BLOCK
  | 2%nat => flag_set flags FLAGS_MAP_PUD_BLOCK
  | _ => false
  end.

Lemma pmd_map_ok : map_ok attr map_blk plan null 1 (pmd_map_range attr flags).
Proof.
  exact (level_map_ok attr Hattr map_blk plan null 0 _ (le_S _ _ (le_S _ _ (le_n 0)))
           (pte_map_ok attr Hattr map_blk plan null) (fun _ => le_S _ _ (le_n 1))).
Qed.

Lemma pud_map_ok : map_ok attr map_blk plan null 2 (pud_map_range attr flags).
Proof.
  exact (level_map_ok attr Hattr map_blk plan null 1 (pmd_map_range attr flags) (le_S _ _ (le_n 1))
           pmd_map_ok (fun _ => le_n 2)).
Qed.

Lemma pgd_map_ok :
  map_ok attr map_blk plan null 3 (fun m pnext pgd start end_ va =>
    table_loop TABLE_FUEL PGDIR_SHIFT false (pud_map_range attr flags) attr m pnext
      (table_entry PGDIR_SHIFT pgd va)
      (table_entry PGDIR_SHIFT pgd
         (u64 (ALIGN_UP (u64 (va + u64 (end_ - start))) (2 ^ PGDIR_SHIFT) - 1)))
      start end_ va (u64 (va + u64 (end_ - start)))).
Proof.
  assert (Hno : map_blk 3 = true -> (3 <= 2)%nat) by done.
  exact (level_map_ok attr Hattr map_blk plan null 2 (pud_map_range attr flags) (le_n 2) pud_map_ok Hno).
Qed.
End Mapper.
End Tree.

(** The state the boot code starts from: an empty directory. *)
Lemma empty_root_wf limit root H pnext :
  root mod 4096 = 0 -> 0 <= root -> root + 4096 <= 2 ^ 48 ->
  root + 4096 <= pnext \/ limit <= root ->
  pnext mod 4096 = 0 -> 0 <= pnext <= limit -> limit <= 2 ^ 48 ->
  pt_wf limit {[root := (3%nat, H)]} ∅ pnext.
Proof.
  intros R1 R2 R3 R4 N1 N2 N3. split; try done.
  - intros b k p [<- _]%lookup_singleton_Some. done.
  - intros b1 b2 x [<- _]%lookup_singleton_Some [<- _]%lookup_singleton_Some. done.
  - intros b k q [_ [= <- <-]]%lookup_singleton_Some. lia.
Qed.

Lemma empty_root_covered blk n root H lo hi d : covered blk false n {[root := (3%nat, H)]} ∅ lo hi d.
Proof. intros b k p i _ _ _ _. done. Qed.

(** ** Plans *)

(** The tables of the levels below [n] for the addresses of a range. *)
Definition level_slots (k : nat) (va ve : Z) : list (nat * Z) :=
  (fun q => (k, q)) <$> seqZ (va / lsize (S k)) (span (S k) va ve).

Fixpoint range_slots (n : nat) (va ve : Z) : list (nat * Z) :=
  match n with
  | O => []
  | S n' => level_slots n' va ve ++ range_slots n' va ve
  end.

Lemma level_slots_spec k q va ve :
  va < ve -> ~ slot_apart (S k) q va ve -> (k, q) ∈ level_slots k va ve.
Proof.
  intros Hlt Ha. pose proof (lsize_pos (S k)) as Hpos.
  apply list_elem_of_fmap. exists q. split; [done |]. apply elem_of_seqZ.
  unfold span, slot_apart in *.
  assert (va / lsize (S k) <= q) by (apply Z.lt_succ_r, Z.div_lt_upper_bound; lia).
  assert (q <= (ve - 1) / lsize (S k)) by (apply Z.div_le_lower_bound; lia). lia.
Qed.

Lemma level_slots_length k va ve :
  va < ve -> Z.of_nat (length (level_slots k va ve)) = span (S k) va ve.
Proof.
  intros Hlt. unfold level_slots. rewrite length_fmap, length_seqZ, Z2Nat.id; [done |]. unfold span.
  pose proof (Z.div_le_mono va (ve - 1) (lsize (S k)) (lsize_pos (S k)) ltac:(lia)). lia.
Qed.

Lemma range_slots_spec n k q va ve :
  va < ve -> (k < n)%nat -> ~ slot_apart (S k) q va ve -> (k, q) ∈ range_slots n va ve.
Proof.
  intros Hlt Hk Ha. induction n as [|n IH]; [lia |]. cbn [range_slots]. apply elem_of_app.
  destruct (decide (k = n)) as [-> | Hne]; [left; by apply level_slots_spec | right; apply IH; lia].
Qed.

Lemma range_slots_length n va ve : va < ve -> Z.of_nat (length (range_slots n va ve)) = need n va ve.
Proof.
  intros Hlt. induction n as [|n IH]; [done |]. cbn [range_slots need].
  by rewrite length_app, Nat2Z.inj_add, IH, level_slots_length.
Qed.

Lemma size_list_to_set_le (l : list (nat * Z)) : (size (list_to_set l : gset (nat * Z)) <= length l)%nat.
Proof.
  induction l as [|x l IH]; [done |]. cbn [list_to_set length].
  rewrite size_union_alt, size_singleton.
  pose proof (subseteq_size ((list_to_set l : gset (nat * Z)) ∖ {[x]}) (list_to_set l)
    ltac:(intros y [Hy _]%elem_of_difference; exact Hy)). simpl in *. lia.
Qed.

(** The plan for one more range below the tables there are. *)
Definition plan_for (T : tables) (va ve : Z) : gset (nat * Z) :=
  list_to_set ((map_to_list T).*2 ++ range_slots 3 va ve).

Lemma budget_list limit T pnext l :
  pnext + 4096 * Z.of_nat (length l) <= limit ->
  budget limit (list_to_set ((map_to_list T).*2 ++ l)) T pnext.
Proof.
  intros Hroom. split.
  - intros b x Hb. apply elem_of_list_to_set, elem_of_app. left.
    apply list_elem_of_fmap. exists (b, x). split; [done |]. by apply elem_of_map_to_list.
  - pose proof (size_list_to_set_le ((map_to_list T).*2 ++ l)) as Hle.
    rewrite length_app, length_fmap, length_map_to_list in Hle. lia.
Qed.

Lemma plan_for_ok limit T pnext va ve :
  va < ve -> pnext + 4096 * need 3 va ve <= limit ->
  budget limit (plan_for T va ve) T pnext
  /\ forall blk d, planned blk (plan_for T va ve) 3 va ve d.
Proof.
  intros Hlt Hroom. split.
  - apply budget_list. by rewrite range_slots_length.
  - intros blk d k q Hk Ha _. apply elem_of_list_to_set, elem_of_app. right. by apply range_slots_spec.
Qed.

(** The arguments after the rounding at the start of [pg_map_range]. *)
Definition map_lo (va : Z) : Z := ALIGN_DOWN va PAGE_SIZE.
Definition map_hi (va start end_ : Z) : Z :=
  map_lo va + (ALIGN_UP end_ PAGE_SIZE - ALIGN_DOWN start PAGE_SIZE).

(** The hypotheses of a call: a well-formed tree below the directory [pgd]
    of the half [H] of the address space, a page-aligned range there whose
    entries are empty or of the kind the mapper writes, and either enough
    pages in the pool for the tables planned or, when there is no pool, no
    empty entry.  [mc_plain]: where a block is written the attributes carry no
    type bits, since the mapper ORs them into the entry and the walk would
    take the block for a table ([map_fdt] passes such attributes; see
    [BootStart]). *)
Record map_call (limit : Z) (plan : gset (nat * Z)) (T : tables) (m : mem) (null : bool)
    (pgd pnext start end_ va attr flags H : Z) : Prop := {
  mc_wf : pt_wf limit T m pnext;
  mc_root : T !! pgd = Some (3%nat, H);
  mc_attr : attr_wf attr;
  mc_rng : rng 3 H (map_lo va) (map_hi va start end_) (ALIGN_DOWN start PAGE_SIZE);
  mc_covered : covered (map_blk flags) null 3 T m (map_lo va) (map_hi va start end_)
    (ALIGN_DOWN start PAGE_SIZE - map_lo va);
  mc_plain : plain attr (map_blk flags) (map_lo va) (map_hi va start end_)
    (ALIGN_DOWN start PAGE_SIZE - map_lo va);
  mc_pool : null = false ->
    budget limit plan T pnext
    /\ planned (map_blk flags) plan 3 (map_lo va) (map_hi va start end_)
         (ALIGN_DOWN start PAGE_SIZE - map_lo va);
}.

Lemma pg_map_range_spec limit plan T m null pgd pnext start end_ va attr flags H :
  map_call limit plan T m null pgd pnext start end_ va attr flags H ->
  exists T' m' pnext',
    pg_map_range m pgd (pool_of null pnext) start end_ va attr flags
    = Done (m', pool_of null pnext')
    /\ map_done limit attr (map_blk flags) plan null 3 T m pnext T' m' pnext' pgd (map_lo va)
         (map_hi va start end_) (ALIGN_DOWN start PAGE_SIZE).
Proof.
  intros [H1 H2 H3 H4 H5 H6 H7].
  exact (pgd_map_ok limit attr flags H3 plan null T m pnext pgd H (ALIGN_DOWN start PAGE_SIZE)
           (ALIGN_UP end_ PAGE_SIZE) (map_lo va) H1 H2 H4 H5 H6 H7).
Qed.

(** A concrete call: 4 MiB and three pages of RAM at the linear map. *)
Definition board_plan : gset (nat * Z) :=
  plan_for {[0x1000 := (3%nat, 0xffff)]} 0xffff000000000000 0xffff000000403000.

Lemma board_map_call :
  map_call 0x10000 board_plan {[0x1000 := (3%nat, 0xffff)]} ∅ false 0x1000 0x2000 0x40000000 0x40403000
    0xffff000000000000 0x700 3 0xffff.
Proof.
  split.
  - apply empty_root_wf; first [reflexivity | lia | vm_compute; split; congruence].
  - reflexivity.
  - reflexivity.
  - split; vm_compute; first [reflexivity | split; congruence | congruence].
  - apply empty_root_covered.
  - by intros k q _.
  - intros _. split; [| intros ? ?]; apply (plan_for_ok 0x10000 {[0x1000 := (3%nat, 0xffff)]} 0x2000
      0xffff000000000000 0xffff000000403000); vm_compute; congruence.
Qed.

(** ** Claims *)

(** C6: after [pg_map_range], the architecture's table walk translates every
    address of the (page-rounded) range to its physical address with the
    requested attributes, for every mix of pages and blocks, as long as the
    attributes carry no type bits wherever a block is written, the entries of
    the range are empty or of the kind the mapper writes, and the pool has
    the tables planned. *)
Theorem pg_map_range_translates limit plan T m null pgd pnext start end_ va attr flags H :
  map_call limit plan T m null pgd pnext start end_ va attr flags H ->
  exists m' pnext', pg_map_range m pgd (pool_of null pnext) start end_ va attr flags
    = Done (m', pool_of null pnext')
    /\ forall v, map_lo va <= v < map_hi va start end_ ->
         walk 3 m' pgd v = Some (ALIGN_DOWN start PAGE_SIZE + (v - map_lo va), desc_attr attr).
Proof.
  intros Hc. destruct (pg_map_range_spec _ _ _ _ _ _ _ _ _ _ _ _ _ Hc) as (T' & m' & pnext' & E & [Hp _ _ _]).
  exists m', pnext'. split; [exact E |]. apply (mp_in _ _ _ _ _ _ _ _ _ _ _ _ _ Hp).
Qed.

Lemma pg_map_range_translates_witness :
  exists m' pnext',
    pg_map_range ∅ 0x1000 (Some 0x2000) 0x40000000 0x40403000 0xffff000000000000 0x700 3
    = Done (m', Some pnext')
    /\ forall v, 0xffff000000000000 <= v < 0xffff000000403000 ->
         walk 3 m' 0x1000 v = Some (0x40000000 + (v - 0xffff000000000000), 0x700).
Proof.
  exact (pg_map_range_translates 0x10000 board_plan {[0x1000 := (3%nat, 0xffff)]} ∅ false 0x1000 0x2000
           0x40000000 0x40403000 0xffff000000000000 0x700 3 0xffff board_map_call).
Defined.

(** [pg_map_range] changes the translation of no address outside the
    range, and leaves a well-formed tree for the next call. *)
Lemma pg_map_range_frame limit plan T m null pgd pnext start end_ va attr flags H :
  map_call limit plan T m null pgd pnext start end_ va attr flags H ->
  exists T' m' pnext', pg_map_range m pgd (pool_of null pnext) start end_ va attr flags
    = Done (m', pool_of null pnext')
    /\ pt_wf limit T' m' pnext' /\ T' !! pgd = Some (3%nat, H)
    /\ forall v, v / 2 ^ 48 = H -> ~ (map_lo va <= v < map_hi va start end_) ->
         walk 3 m' pgd v = walk 3 m pgd v.
Proof.
  intros Hc. destruct (pg_map_range_spec _ _ _ _ _ _ _ _ _ _ _ _ _ Hc) as (T' & m' & pnext' & E & [Hp _ _ _]).
  pose proof (mc_root _ _ _ _ _ _ _ _ _ _ _ _ _ Hc) as Hroot.
  exists T', m', pnext'. split; [exact E |]. split; [by eapply mp_wf |].
  split; [by eapply mp_sub |]. intros v Hv Hout.
  apply (mp_out _ _ _ _ _ _ _ _ _ _ _ _ _ Hp); [| done]. change (lsize 4) with (2 ^ 48).
  by rewrite Hv.
Qed.

Lemma pg_map_range_frame_witness :
  exists T' m' pnext',
    pg_map_range ∅ 0x1000 (Some 0x2000) 0x40000000 0x40403000 0xffff000000000000 0x700 3
    = Done (m', Some pnext')
    /\ pt_wf 0x10000 T' m' pnext' /\ T' !! 0x1000 = Some (3%nat, 0xffff)
    /\ forall v, v / 2 ^ 48 = 0xffff ->
         ~ (0xffff000000000000 <= v < 0xffff000000403000) ->
         walk 3 m' 0x1000 v = walk 3 ∅ 0x1000 v.
Proof.
  exact (pg_map_range_frame 0x10000 board_plan {[0x1000 := (3%nat, 0xffff)]} ∅ false 0x1000 0x2000
           0x40000000 0x40403000 0xffff000000000000 0x700 3 0xffff board_map_call).
Defined.

(** C28: [pg_map_range] terminates within its loops' bounds and takes from the
    pool at most one page per entry spanned at each of the three upper
    levels, the count behind [EARLY_PAGES]. *)
Theorem pg_map_range_pool_bound limit plan T m null pgd pnext start end_ va attr flags H :
  map_call limit plan T m null pgd pnext start end_ va attr flags H ->
  exists m' pnext', pg_map_range m pgd (pool_of null pnext) start end_ va attr flags
    = Done (m', pool_of null pnext')
    /\ pnext <= pnext' <= pnext + 4096 * (span 3 (map_lo va) (map_hi va start end_)
         + span 2 (map_lo va) (map_hi va start end_) + span 1 (map_lo va) (map_hi va start end_)).
Proof.
  intros Hc. destruct (pg_map_range_spec _ _ _ _ _ _ _ _ _ _ _ _ _ Hc) as (T' & m' & pnext' & E & [Hp _ _ _]).
  exists m', pnext'. split; [exact E |].
  pose proof (mp_pnext _ _ _ _ _ _ _ _ _ _ _ _ _ Hp) as Hb. cbn [need] in Hb. lia.
Qed.

Lemma pg_map_range_pool_bound_witness :
  exists m' pnext',
    pg_map_range ∅ 0x1000 (Some 0x2000) 0x40000000 0x40403000 0xffff000000000000 0x700 3
    = Done (m', Some pnext') /\ 0x2000 <= pnext' <= 0x2000 + 4096 * (1 + 1 + 3).
Proof.
  exact (pg_map_range_pool_bound 0x10000 board_plan {[0x1000 := (3%nat, 0xffff)]} ∅ false 0x1000 0x2000
           0x40000000 0x40403000 0xffff000000000000 0x700 3 0xffff board_map_call).
Defined.
