(* ===== verification/Pte.v ===== *)
(** * Translation table entries: [src/include/pg_table.h], [pgtable-hwdef.h],
    [pgtable-prot.h]

    The entries of the four levels ([pgd_t], [pud_t], [pmd_t], [pte_t]) are
    64-bit words.  This file holds the bits of an entry, the tests and the
    updates the kernel makes on one entry, and what the updates of the
    contiguous, dirty and access bits leave unchanged. *)

From S2P Require Import Prelude PageTable.

(** ** Bits *)

Definition PTE_VALID : Z := 1.
Definition PTE_TYPE_MASK : Z := 3.
Definition PTE_TYPE_PAGE : Z := 3.
Definition PXD_TYPE_TABLE : Z := 3.
Definition PXD_TYPE_SECT : Z := 1.
Definition PTE_USER : Z := 2 ^ 6.
Definition PTE_RDONLY : Z := 2 ^ 7.
Definition PTE_SHARED : Z := Z.shiftl 3 8.
Definition PTE_AF : Z := 2 ^ 10.
Definition PTE_NG : Z := 2 ^ 11.
Definition PTE_WRITE : Z := 2 ^ 51.
Definition PTE_CONT : Z := 2 ^ 52.
Definition PTE_PXN : Z := 2 ^ 53.
Definition PTE_UXN : Z := 2 ^ 54.
Definition PTE_DIRTY : Z := 2 ^ 55.
Definition PTE_SPECIAL : Z := 2 ^ 56.
Definition PTE_PRESENT_INVALID : Z := PTE_NG.
Definition PTE_SWBITS_MASK : Z := Z.lor (2 ^ 63) (Z.shiftl 15 55).
Definition PTE_ADDR_LOW : Z := Z.shiftl (2 ^ 38 - 1) 12.
Definition PTE_ATTRINDX_MASK : Z := Z.shiftl 7 2.
Definition PTE_ATTRINDX (t : Z) : Z := Z.shiftl t 2.
Definition MT_NORMAL : Z := 0.
Definition MT_NORMAL_TAGGED : Z := 1.
Definition PXD_TABLE_AF : Z := 2 ^ 10.
Definition PMD_TABLE_PXN : Z := 2 ^ 59.

Definition PMD_SIZE : Z := 2 ^ PMD_SHIFT.
Definition PUD_SIZE : Z := 2 ^ PUD_SHIFT.
Definition PGDIR_SIZE : Z := 2 ^ PGDIR_SHIFT.
Definition CONT_PTES : Z := 16.
Definition CONT_PTE_SIZE : Z := 0x10000.
Definition CONT_PMDS : Z := 16.
Definition CONT_PMD_SIZE : Z := 0x2000000.

(** ** Tests *)

(** [!!(e & bit)]. *)
Definition has (e bit : Z) : bool := negb (Z.land e bit =? 0).

Definition pte_none (e : Z) : bool := e =? 0.
Definition pte_valid (e : Z) : bool := has e PTE_VALID.
Definition pte_present_invalid (e : Z) : bool :=
  Z.land e (Z.lor PTE_VALID PTE_PRESENT_INVALID) =? PTE_PRESENT_INVALID.
Definition pte_present (e : Z) : bool := pte_valid e || pte_present_invalid e.
Definition pte_young (e : Z) : bool := has e PTE_AF.
Definition pte_special (e : Z) : bool := has e PTE_SPECIAL.
Definition pte_write (e : Z) : bool := has e PTE_WRITE.
Definition pte_rdonly (e : Z) : bool := has e PTE_RDONLY.
Definition pte_cont (e : Z) : bool := has e PTE_CONT.
Definition pte_valid_cont (e : Z) : bool := pte_valid e && pte_cont e.
Definition pte_hw_dirty (e : Z) : bool := pte_write e && negb (pte_rdonly e).
Definition pte_sw_dirty (e : Z) : bool := has e PTE_DIRTY.
Definition pte_dirty (e : Z) : bool := pte_sw_dirty e || pte_hw_dirty e.

(** [pud_table], [pmd_table] and [pud_sect], [pmd_sect]; an entry that is not
    a table is bad. *)
Definition pxd_table (e : Z) : bool := Z.land e PTE_TYPE_MASK =? PXD_TYPE_TABLE.
Definition pxd_sect (e : Z) : bool := Z.land e PTE_TYPE_MASK =? PXD_TYPE_SECT.
Definition pxd_bad (e : Z) : bool := negb (pxd_table e).

(** ** Frame numbers *)

Definition __pte_to_phys (e : Z) : Z := Z.land e PTE_ADDR_LOW.
Definition pte_pfn (e : Z) : Z := Z.shiftr (__pte_to_phys e) PAGE_SHIFT.
Definition pfn_pte (pfn prot : Z) : Z := Z.lor (u64 (Z.shiftl pfn PAGE_SHIFT)) prot.
Definition pte_pgprot (e : Z) : Z := Z.lxor (pfn_pte (pte_pfn e) 0) e.
Definition pte_advance_pfn (e nr : Z) : Z := pfn_pte (u64 (pte_pfn e + nr)) (pte_pgprot e).

(** ** Updates *)

Definition set_pte_bit (e bit : Z) : Z := Z.lor e bit.
Definition clear_pte_bit (e bit : Z) : Z := Z.ldiff e bit.
Definition pte_mkcont (e : Z) : Z := set_pte_bit e PTE_CONT.
Definition pte_mknoncont (e : Z) : Z := clear_pte_bit e PTE_CONT.
Definition pte_mkyoung (e : Z) : Z := set_pte_bit e PTE_AF.
Definition pte_mkold (e : Z) : Z := clear_pte_bit e PTE_AF.
Definition pte_mkdirty (e : Z) : Z :=
  let e := set_pte_bit e PTE_DIRTY in
  if pte_write e then clear_pte_bit e PTE_RDONLY else e.
Definition pte_mkclean (e : Z) : Z := set_pte_bit (clear_pte_bit e PTE_DIRTY) PTE_RDONLY.
(** [pud_mkhuge] and [pmd_mkhuge]: the type becomes a block, the valid bit is
    kept. *)
Definition pxd_mkhuge (e : Z) : Z := Z.lor (Z.ldiff e (Z.ldiff PTE_TYPE_MASK PTE_VALID)) 0.
(** [mk_pud_sect_prot] and [mk_pmd_sect_prot]. *)
Definition mk_sect_prot (prot : Z) : Z := Z.lor (Z.ldiff prot PTE_TYPE_MASK) PXD_TYPE_SECT.

(** [pgattr_change_is_safe] of [mmu.c]. *)
Definition normal_attr (e : Z) : bool :=
  (Z.land e PTE_ATTRINDX_MASK =? PTE_ATTRINDX MT_NORMAL)
  || (Z.land e PTE_ATTRINDX_MASK =? PTE_ATTRINDX MT_NORMAL_TAGGED).

Definition pgattr_change_is_safe (old new : Z) : bool :=
  let mask := Z.lor (Z.lor (Z.lor (Z.lor PTE_PXN PTE_RDONLY) PTE_WRITE) PTE_NG) PTE_SWBITS_MASK in
  if negb (pte_valid old) || negb (pte_valid new) then true
  else if negb (pte_pfn old =? pte_pfn new) then false
  else if has (Z.lor old new) PTE_CONT then false
  else if has (Z.ldiff old new) PTE_NG then false
  else
    let mask := if normal_attr old && normal_attr new then Z.lor mask PTE_ATTRINDX_MASK else mask in
    Z.ldiff (Z.lxor old new) mask =? 0.

(** ** Indices and ends

    [pgd_index], [pud_index], [pmd_index] and [pte_index] are [lindex] of the
    level; [addr_end] is [pgd_addr_end], [pud_addr_end], [pmd_addr_end] and
    [pte_cont_addr_end] for the size of the level. *)
Definition pxd_index (shift a : Z) : Z := Z.land (Z.shiftr a shift) 511.

Definition addr_end (size addr end_ : Z) : Z :=
  let boundary := align_mask (u64 (addr + size)) size in
  if u64 (boundary - 1) <? u64 (end_ - 1) then boundary else end_.

Definition IS_ALIGNED (x a : Z) : bool := Z.land x (a - 1) =? 0.

(** ** What the updates keep *)

Lemma has_pow2 e k : 0 <= k -> has e (2 ^ k) = Z.testbit e k.
Proof.
  intros Hk. unfold has. destruct (Z.testbit e k) eqn:E.
  - apply negb_true_iff, Z.eqb_neq. intros H.
    assert (Hb : Z.testbit (Z.land e (2 ^ k)) k = true) by (rewrite Z.land_spec, E, Z.pow2_bits_true; lia || done).
    rewrite H, Z.bits_0 in Hb. done.
  - apply negb_false_iff, Z.eqb_eq, Z.bits_inj'. intros n Hn. rewrite Z.land_spec, Z.bits_0.
    destruct (Z.eq_dec n k) as [-> | Hne]; [by rewrite E |].
    rewrite (Z.pow2_bits_false k n) by lia. apply andb_false_r.
Qed.
