(* ===== verification/PtTree.v ===== *)
(** * Trees of translation tables

    The part of the correctness of the mappers that does not depend on where
    tables come from.  Memory is seen through [r], the word at a physical
    address.  A ghost map [T] records which pages are tables: for each its
    level and the part of the address space it translates.  [tree T r] says
    that these words are a tree of tables; writing a leaf, linking a new
    table and exchanging an entry for an equivalent one keep it, with the
    stated effect on translation.

    Two entries of the last level are equivalent when they differ at most in
    the contiguous hint and the software dirty bit: the kernel folds sixteen
    entries into a contiguous block when it can. *)

From S2P Require Import Prelude PageTable PageTableMap Pte.

(** ** Translation *)

Definition hw_attr (a : Z) : Z := Z.ldiff a (Z.lor PTE_CONT PTE_DIRTY).

(** [walk] over any memory. *)
Fixpoint twalk (n : nat) (r : Z -> Z) (base va : Z) : option (Z * Z) :=
  let e := r (base + 8 * lindex n va) in
  match n with
  | O =>
      if Z.testbit e 0 && Z.testbit e 1
      then Some (desc_addr 0 e + va mod lsize 0, hw_attr (desc_attr e)) else None
  | S n' =>
      if Z.testbit e 0 then
        if Z.testbit e 1 then twalk n' r (desc_addr 0 e) va
        else if (n' =? 2)%nat then None
        else Some (desc_addr n e + va mod lsize n, hw_attr (desc_attr e))
      else None
  end.

Lemma twalk_walk n m : forall b v,
  twalk n (rd m) b v = (fun x => (x.1, hw_attr x.2)) <$> walk n m b v.
Proof.
  induction n as [|n IH]; intros b v; cbn [twalk walk].
  - by destruct (_ && _).
  - destruct (Z.testbit _ 0); [| done]. destruct (Z.testbit _ 1); [apply IH |].
    by destruct (n =? 2)%nat.
Qed.

(** ** Entries of the last level *)

(** A valid page the kernel wrote: the access flag is set and read-only is
    determined by the write and user bits. *)
Record pte_ok (e : Z) : Prop := {
  pk_range : 0 <= e < 2 ^ 64;
  pk_valid : Z.testbit e 0 = true;
  pk_page : Z.testbit e 1 = true;
  pk_young : Z.testbit e 10 = true;
  pk_rdonly : Z.testbit e 7 = negb (Z.testbit e 51) && Z.testbit e 6;
  pk_addr : forall i, 48 <= i < 50 -> Z.testbit e i = false;
}.

Record same_pte (e e' : Z) : Prop := {
  sp_old : pte_ok e;
  sp_new : pte_ok e';
  sp_addr : desc_addr 0 e = desc_addr 0 e';
  sp_attr : hw_attr (desc_attr e) = hw_attr (desc_attr e');
}.

(** Equivalent entries of a table of level [k]. *)
Definition esim (k : nat) (e e' : Z) : Prop := e = e' \/ k = 0%nat /\ same_pte e e'.

Lemma esim_refl k e : esim k e e.
Proof. by left. Qed.

Lemma esim_trans k e1 e2 e3 : esim k e1 e2 -> esim k e2 e3 -> esim k e1 e3.
Proof.
  intros [-> | [Hk [A1 A2 A3 A4]]]; [done |]. intros [-> | [_ [B1 B2 B3 B4]]]; [by right |].
  right. split; [done |]. split; [done | done | congruence | congruence].
Qed.

Lemma esim_zero k e : esim k 0 e -> e = 0.
Proof. intros [<- | [_ [[_ H _ _ _ _] _ _ _]]]; [done |]. by rewrite Z.bits_0 in H. Qed.

Lemma esim_bits k e e' : esim k e e' -> Z.testbit e 0 = Z.testbit e' 0 /\ Z.testbit e 1 = Z.testbit e' 1.
Proof. intros [-> | [_ [[_ A B _ _ _] [_ C D _ _ _] _ _]]]; [done |]. by rewrite A, B, C, D. Qed.

#[export] Hint Resolve esim_refl : quest.

(** ** Trees *)

Record tree (T : tables) (r : Z -> Z) : Prop := {
  tr_page : forall b k p, T !! b = Some (k, p) -> b mod 4096 = 0 /\ 0 <= b /\ b + 4096 <= 2 ^ 47;
  tr_inj : forall b1 b2 x, T !! b1 = Some x -> T !! b2 = Some x -> b1 = b2;
  tr_none : forall b k p i, T !! b = Some (k, p) -> 0 <= i < 512 ->
    Z.testbit (r (b + 8 * i)) 0 = false -> r (b + 8 * i) = 0;
  tr_child : forall b k p i, T !! b = Some (S k, p) -> 0 <= i < 512 ->
    Z.testbit (r (b + 8 * i)) 0 = true -> Z.testbit (r (b + 8 * i)) 1 = true ->
    T !! desc_addr 0 (r (b + 8 * i)) = Some (k, p * 512 + i)
    /\ __pte_to_phys (r (b + 8 * i)) = desc_addr 0 (r (b + 8 * i));
  tr_link : forall b k q, T !! b = Some (k, q) -> (k < 3)%nat ->
    exists b' p i, T !! b' = Some (S k, p) /\ 0 <= i < 512 /\ q = p * 512 + i
      /\ Z.testbit (r (b' + 8 * i)) 0 = true /\ Z.testbit (r (b' + 8 * i)) 1 = true
      /\ desc_addr 0 (r (b' + 8 * i)) = b;
  tr_pte : forall b p i, T !! b = Some (0%nat, p) -> 0 <= i < 512 ->
    r (b + 8 * i) = 0 \/ pte_ok (r (b + 8 * i));
}.

Lemma pxd_index_val n va : pxd_index (lshift n) va = lindex n va.
Proof.
  unfold pxd_index. change 511 with (Z.ones 9). rewrite Z.land_ones by lia.
  rewrite Z.shiftr_div_pow2 by (unfold lshift; lia). done.
Qed.

(** The type bits of an entry. *)
Lemma type_bits e : Z.land e PTE_TYPE_MASK = Z.b2z (Z.testbit e 0) + 2 * Z.b2z (Z.testbit e 1).
Proof.
  change PTE_TYPE_MASK with (Z.ones 2). rewrite Z.land_ones by lia. change (2 ^ 2) with (2 * 2).
  rewrite Z.rem_mul_r by lia. rewrite <- Z.bit0_mod. f_equal. f_equal. change (e / 2) with (e / 2 ^ 1).
  rewrite <- Z.shiftr_div_pow2 by lia. rewrite <- Z.bit0_mod, Z.shiftr_spec by lia. done.
Qed.

Lemma link_type e : Z.testbit e 0 = true -> Z.testbit e 1 = true ->
  pxd_sect e = false /\ pte_none e = false /\ pxd_bad e = false.
Proof.
  intros E0 E1. unfold pxd_bad, pxd_table, pxd_sect. rewrite type_bits, E0, E1. split; [done |]. split; [| done].
  apply Z.eqb_neq. intros ->. by rewrite Z.bits_0 in E0.
Qed.

Lemma pxd_sect_val e : Z.testbit e 1 = false -> pxd_sect e = Z.testbit e 0.
Proof. intros E1. unfold pxd_sect. rewrite type_bits, E1. by destruct (Z.testbit e 0). Qed.

Lemma pxd_bad_val e : Z.testbit e 1 = false -> pxd_bad e = true.
Proof. intros E1. unfold pxd_bad, pxd_table. rewrite type_bits, E1. by destruct (Z.testbit e 0). Qed.

(** The structure alone, whatever the attributes of the pages. *)
Record ptree (T : tables) (r : Z -> Z) : Prop := {
  pt_page : forall b k p, T !! b = Some (k, p) -> b mod 4096 = 0 /\ 0 <= b /\ b + 4096 <= 2 ^ 47;
  pt_inj : forall b1 b2 x, T !! b1 = Some x -> T !! b2 = Some x -> b1 = b2;
  pt_none : forall b k p i, T !! b = Some (k, p) -> 0 <= i < 512 ->
    Z.testbit (r (b + 8 * i)) 0 = false -> r (b + 8 * i) = 0;
  pt_child : forall b k p i, T !! b = Some (S k, p) -> 0 <= i < 512 ->
    Z.testbit (r (b + 8 * i)) 0 = true -> Z.testbit (r (b + 8 * i)) 1 = true ->
    T !! desc_addr 0 (r (b + 8 * i)) = Some (k, p * 512 + i)
    /\ __pte_to_phys (r (b + 8 * i)) = desc_addr 0 (r (b + 8 * i));
  pt_link : forall b k q, T !! b = Some (k, q) -> (k < 3)%nat ->
    exists b' p i, T !! b' = Some (S k, p) /\ 0 <= i < 512 /\ q = p * 512 + i
      /\ Z.testbit (r (b' + 8 * i)) 0 = true /\ Z.testbit (r (b' + 8 * i)) 1 = true
      /\ desc_addr 0 (r (b' + 8 * i)) = b;
}.

Lemma tree_ptree T r : tree T r -> ptree T r.
Proof. by intros []. Qed.

Definition levels (T : tables) : Prop := forall c k q, T !! c = Some (k, q) -> (k <= 3)%nat.

Lemma slot_addr k q i v : 0 <= i < 512 -> v / lsize k = q * 512 + i -> q = v / lsize (S k) /\ i = lindex k v.
Proof.
  intros Hi Hv. pose proof (slot_split k v) as Hs. pose proof (lindex_range k v). split; lia.
Qed.

(** Above a table every entry on the way to it links a table. *)
Lemma link_above T r v n b : ptree T r -> T !! b = Some (n, v / lsize (S n)) ->
  forall k c, (n < k <= 3)%nat -> T !! c = Some (k, v / lsize (S k)) ->
  Z.testbit (r (c + 8 * lindex k v)) 0 = true /\ Z.testbit (r (c + 8 * lindex k v)) 1 = true
  /\ (k = S n -> desc_addr 0 (r (c + 8 * lindex k v)) = b).
Proof.
  intros Ht Hb k. remember (k - S n)%nat as d eqn:Ed. revert n b Hb Ed.
  induction d as [|d IH]; intros n b Hb Ed c Hk Hc.
  all: destruct (pt_link _ _ Ht b n _ Hb ltac:(lia)) as (b' & p & i & L1 & L2 & L3 & L4 & L5 & L6).
  all: destruct (slot_addr (S n) p i v L2 ltac:(lia)) as [-> ->].
  - assert (k = S n) as -> by lia. rewrite (pt_inj _ _ Ht _ _ _ Hc L1). done.
  - destruct (IH (S n) b' L1 ltac:(lia) c ltac:(lia) Hc) as (? & ? & _). split; [done |]. split; [done | lia].
Qed.

(** Entries determine their table and index. *)
Lemma entry_place T r b1 b2 x1 x2 i j :
  tree T r -> T !! b1 = Some x1 -> T !! b2 = Some x2 -> 0 <= i < 512 -> 0 <= j < 512 ->
  b1 + 8 * i = b2 + 8 * j -> b1 = b2 /\ i = j.
Proof.
  intros Ht H1 H2 Hi Hj He. destruct x1, x2.
  apply (tr_page _ _ Ht) in H1 as (A1 & _), H2 as (A2 & _).
  pose proof (Z.div_mod b1 4096). pose proof (Z.div_mod b2 4096). lia.
Qed.

(** [r] and [r'] are equivalent on the tables [T], but for the entry [i] of
    [b] (and, when [b] is negative, without exception). *)
Definition agree_but (T : tables) (b i : Z) (r r' : Z -> Z) : Prop :=
  forall c k q j, T !! c = Some (k, q) -> 0 <= j < 512 -> (c <> b \/ j <> i) ->
    r' (c + 8 * j) = r (c + 8 * j).

Definition equiv (T : tables) (r r' : Z -> Z) : Prop :=
  forall c k q j, T !! c = Some (k, q) -> 0 <= j < 512 -> esim k (r (c + 8 * j)) (r' (c + 8 * j)).

Lemma equiv_tree T r r' : equiv T r r' -> tree T r -> tree T r'.
Proof.
  intros He [A1 A2 A3 A4 A5 A6]. split; [done | done | | | |].
  - intros b k p i Hb Hi Hz. pose proof (He b k p i Hb Hi) as Hs.
    destruct (esim_bits _ _ _ Hs) as [E0 _]. rewrite <- E0 in Hz.
    rewrite (A3 b k p i Hb Hi Hz) in Hs. by apply esim_zero in Hs.
  - intros b k p i Hb Hi. destruct (He b (S k) p i Hb Hi) as [<- | [? _]]; [| done]. by apply A4.
  - intros b k q Hb Hk. destruct (A5 b k q Hb Hk) as (b' & p & i & L1 & L2 & L3 & L4).
    exists b', p, i. destruct (He b' (S k) p i L1 L2) as [<- | [? _]]; [done | done].
  - intros b p i Hb Hi. destruct (He b _ p i Hb Hi) as [<- | [_ [_ H _ _]]]; [by apply (A6 b p) | by right].
Qed.

Lemma equiv_twalk T r r' : equiv T r r' -> tree T r ->
  forall n b v, T !! b = Some (n, v / lsize (S n)) -> twalk n r' b v = twalk n r b v.
Proof.
  intros He Ht. induction n as [|n IH]; intros b v Hb; cbn [twalk].
  - pose proof (He b _ _ _ Hb (lindex_range 0 v)) as Hs. destruct Hs as [<- | [_ [[_ A B _ _ _] [_ C D _ _ _] E F]]]; [done |].
    rewrite A, B, C, D, E, F. done.
  - pose proof (He b _ _ _ Hb (lindex_range (S n) v)) as Hs. destruct Hs as [<- | [? _]]; [| done].
    destruct (Z.testbit _ 0) eqn:E0; [| done]. destruct (Z.testbit _ 1) eqn:E1; [| done].
    apply IH. rewrite slot_split. exact (proj1 (tr_child _ _ Ht _ _ _ _ Hb (lindex_range _ v) E0 E1)).
Qed.

Lemma equiv_refl T r : equiv T r r.
Proof. intros c k q j _ _. by left. Qed.

Lemma equiv_trans T r1 r2 r3 : equiv T r1 r2 -> equiv T r2 r3 -> equiv T r1 r3.
Proof. intros H1 H2 c k q j Hc Hj. eapply esim_trans; [by apply (H1 c k q) | by apply (H2 c k q)]. Qed.

(** A write to an entry is invisible to walks that do not use its slot. *)
Lemma twalk_agree_but T r r' b k p i :
  tree T r -> T !! b = Some (k, p) -> 0 <= i < 512 -> agree_but T b i r r' ->
  forall n c v, T !! c = Some (n, v / lsize (S n)) ->
  ((k <= n)%nat -> v / lsize k <> p * 512 + i) ->
  twalk n r' c v = twalk n r c v.
Proof.
  intros Ht Hb Hi Ha.
  assert (Hother : forall n c v, T !! c = Some (n, v / lsize (S n)) ->
    ((k <= n)%nat -> v / lsize k <> p * 512 + i) -> r' (c + 8 * lindex n v) = r (c + 8 * lindex n v)).
  { intros n c v Hc Hno. apply (Ha c n _ _ Hc (lindex_range n v)).
    destruct (Z.eq_dec c b) as [-> |]; [| by left]. right. intros E.
    rewrite Hb in Hc. injection Hc as -> ->. apply Hno; [lia |]. rewrite slot_split. lia. }
  induction n as [|n IH]; intros c v Hc Hno; cbn [twalk]; rewrite Hother by done; [done |].
  destruct (Z.testbit _ 0) eqn:E0; [| done]. destruct (Z.testbit _ 1) eqn:E1; [| done].
  apply IH; [| intros Hk; apply Hno; lia].
  rewrite slot_split. exact (proj1 (tr_child _ _ Ht _ _ _ _ Hc (lindex_range _ v) E0 E1)).
Qed.

(** ** What a mapping does *)

(** The attributes of a page: no type or address bits, the access flag, and
    neither the contiguous, dirty nor special bits. *)
Record page_attr (a : Z) : Prop := {
  pa_ok : attr_ok a;
  pa_range : 0 <= a < 2 ^ 64;
  pa_young : Z.testbit a 10 = true;
  pa_rdonly : Z.testbit a 7 = negb (Z.testbit a 51) && Z.testbit a 6;
  pa_clear : forall i, In i [48; 49; 52; 55; 56] -> Z.testbit a i = false;
}.

Lemma hw_attr_id a : page_attr a -> hw_attr a = a.
Proof.
  intros H. unfold hw_attr. apply Z.bits_inj'. intros i Hi. rewrite Z.ldiff_spec, Z.lor_spec.
  unfold PTE_CONT, PTE_DIRTY. rewrite !Z.pow2_bits_eqb by lia.
  destruct (Z.eqb_spec 52 i) as [<- | _]; [by rewrite (pa_clear a H) by (simpl; tauto) |].
  destruct (Z.eqb_spec 55 i) as [<- | _]; [by rewrite (pa_clear a H) by (simpl; tauto) |].
  apply andb_true_r.
Qed.

(** The bits of a page entry. *)
Lemma page_bits x a i :
  x mod 4096 = 0 -> 0 <= i -> i < 12 \/ 48 <= i -> 0 <= x < 2 ^ 48 ->
  Z.testbit (Z.lor (Z.lor x a) 3) i = Z.testbit a i || (i <? 2).
Proof.
  intros Hx Hi Hr Hb. rewrite !Z.lor_spec. f_equal.
  - destruct Hr; [by rewrite (testbit_multiple 0 x) by (done || (change (lshift 0) with 12; lia)) |].
    by rewrite (testbit_above x 48) by lia.
  - change 3 with (Z.ones 2). destruct (Z.ltb_spec i 2); [apply Z.ones_spec_low | apply Z.ones_spec_high]; lia.
Qed.

Lemma page_pte_ok x a :
  x mod 4096 = 0 -> 0 <= x < 2 ^ 48 -> page_attr a -> pte_ok (Z.lor (Z.lor x a) 3).
Proof.
  intros Hx Hr [A1 A2 A3 A4 A5]. split.
  - split; [apply Z.lor_nonneg; split; [apply Z.lor_nonneg; lia | lia] |].
    destruct (Z.eq_dec (Z.lor (Z.lor x a) 3) 0) as [-> |]; [lia |].
    apply Z.log2_lt_pow2; [pose proof (Z.lor_nonneg (Z.lor x a) 3); pose proof (Z.lor_nonneg x a); lia |].
    rewrite !Z.log2_lor by (try apply Z.lor_nonneg; lia).
    assert (L : forall y, 0 <= y < 2 ^ 64 -> Z.log2 y < 64).
    { intros y Hy. destruct (Z.eq_dec y 0) as [-> |]; [done |]. apply Z.log2_lt_pow2; lia. }
    pose proof (L x). pose proof (L a A2). change (Z.log2 3) with 1. lia.
  - rewrite page_bits by lia. apply orb_true_r.
  - rewrite page_bits by lia. apply orb_true_r.
  - rewrite page_bits by lia. by rewrite A3.
  - rewrite !page_bits by lia. rewrite !orb_false_r. done.
  - intros i Hi. rewrite page_bits by lia. rewrite (proj2 (Z.ltb_ge i 2)), orb_false_r by lia.
    apply A5. assert (i = 48 \/ i = 49) as [-> | ->] by lia; simpl; tauto.
Qed.

Record mapping (n : nat) (T : tables) (r : Z -> Z) (T' : tables) (r' : Z -> Z)
    (b va ve start attr : Z) : Prop := {
  mp_sub : forall c x, T !! c = Some x -> T' !! c = Some x;
  mp_tree : tree T' r';
  mp_entry : forall c k q i, T !! c = Some (k, q) -> 0 <= i < 512 ->
    slot_apart k (q * 512 + i) va ve \/ (n < k)%nat -> esim k (r (c + 8 * i)) (r' (c + 8 * i));
  mp_zero : forall c k q i, T' !! c = Some (k, q) -> T !! c = None -> 0 <= i < 512 ->
    slot_apart k (q * 512 + i) va ve -> r' (c + 8 * i) = 0;
  mp_new : forall c k q, T' !! c = Some (k, q) -> T !! c = None -> (k < n)%nat;
  mp_in : forall v, va <= v < ve -> twalk n r' b v = Some (start + (v - va), attr);
  mp_out : forall c k v, T !! c = Some (k, v / lsize (S k)) -> ~ (va <= v < ve) ->
    twalk k r' c v = twalk k r c v;
}.

(** Two adjacent ranges mapped one after the other. *)
Lemma mapping_trans n T r T1 r1 T2 r2 b p va nxt ve start attr :
  T !! b = Some (n, p) -> (forall v, va <= v < ve -> v / lsize (S n) = p) -> va < nxt < ve ->
  mapping n T r T1 r1 b va nxt start attr ->
  mapping n T1 r1 T2 r2 b nxt ve (start + (nxt - va)) attr ->
  mapping n T r T2 r2 b va ve start attr.
Proof.
  intros Hb Hv Hn [A1 A2 A3 A4 A5 A6 A7] [B1 B2 B3 B4 B5 B6 B7]. split.
  - auto.
  - done.
  - intros c k q i Hc Hi Ha. unfold slot_apart in *.
    eapply esim_trans; [apply (A3 c k q i Hc Hi) | apply (B3 c k q i (A1 _ _ Hc) Hi)]; lia.
  - intros c k q i Hc Hno Hi Ha. unfold slot_apart in *.
    destruct (T1 !! c) as [[k1 q1]|] eqn:E; [| apply (B4 c k q i); [done | done | done | lia]].
    rewrite (B1 _ _ E) in Hc. injection Hc as -> ->.
    pose proof (B3 c k q i E Hi ltac:(left; lia)) as Hs.
    rewrite (A4 c k q i E Hno Hi ltac:(lia)) in Hs. by apply esim_zero in Hs.
  - intros c k q Hc Hno. destruct (T1 !! c) as [[k1 q1]|] eqn:E; [| by apply (B5 c k q)].
    rewrite (B1 _ _ E) in Hc. injection Hc as -> ->. by apply (A5 c k q).
  - intros v Hr. destruct (decide (v < nxt)).
    + rewrite (B7 b n v); [apply A6; lia | rewrite Hv by lia; auto | lia].
    + rewrite B6 by lia. do 2 f_equal. lia.
  - intros c k v Hc Hr. rewrite (B7 c k v), (A7 c k v); auto; lia.
Qed.

(** Equivalent states before and after. *)
Lemma mapping_equiv_l n T r0 r T' r' b va ve start attr :
  tree T r0 -> equiv T r0 r -> mapping n T r T' r' b va ve start attr ->
  mapping n T r0 T' r' b va ve start attr.
Proof.
  intros Ht He [A1 A2 A3 A4 A5 A6 A7]. split; try done.
  - intros c k q i Hc Hi Ha. eapply esim_trans; [by apply (He c k q) | by apply (A3 c k q)].
  - intros c k v Hc Hr. rewrite (A7 c k v Hc Hr). by apply (equiv_twalk T).
Qed.

Lemma mapping_equiv_r n T r T' r' r2 b va ve start attr :
  (forall v, va <= v < ve -> T' !! b = Some (n, v / lsize (S n))) ->
  mapping n T r T' r' b va ve start attr -> equiv T' r' r2 ->
  mapping n T r T' r2 b va ve start attr.
Proof.
  intros Hb [A1 A2 A3 A4 A5 A6 A7] He. split; try done.
  - by eapply equiv_tree.
  - intros c k q i Hc Hi Ha. eapply esim_trans; [by apply (A3 c k q) | by apply (He c k q); auto].
  - intros c k q i Hc Hno Hi Ha. pose proof (He c k q i Hc Hi) as Hs.
    rewrite (A4 c k q i) in Hs by done. by apply esim_zero in Hs.
  - intros v Hv. rewrite (equiv_twalk T' r' r2 He A2) by auto. by apply A6.
  - intros c k v Hc Hr. rewrite (equiv_twalk T' r' r2 He A2) by auto. by apply A7.
Qed.

(** ** Writing a leaf *)

Section Leaf.
Context (n : nat) (T : tables) (r r' : Z -> Z) (b p i x attr ty : Z).
Context (Ht : tree T r) (Hb : T !! b = Some (n, p)) (Hn : (n <= 2)%nat) (Hi : 0 <= i < 512).
Context (Hag : agree_but T b i r r') (Hz : r (b + 8 * i) = 0).
Context (Hx : x mod lsize n = 0) (Hr : 0 <= x < 2 ^ 48) (Ha : page_attr attr).
Context (Hty : ty = if (n =? 0)%nat then 3 else 1).
Context (He : r' (b + 8 * i) = Z.lor (Z.lor x attr) ty).

Lemma leaf_ty : ty = 1 \/ ty = 3.
Proof. rewrite Hty. destruct (n =? 0)%nat; tauto. Qed.

Lemma leaf_entry_bits : Z.testbit (r' (b + 8 * i)) 0 = true /\ Z.testbit (r' (b + 8 * i)) 1 = (n =? 0)%nat.
Proof.
  rewrite He. destruct (leaf_bits n x attr ty ltac:(lia) Hx (pa_ok _ Ha) leaf_ty) as [-> ->].
  split; [done |]. rewrite Hty. by destruct (n =? 0)%nat.
Qed.

Lemma leaf_tree : tree T r'.
Proof.
  destruct leaf_entry_bits as [B0 B1]. pose proof Ht as [A1 A2 A3 A4 A5 A6].
  assert (Hc : forall c k q j, T !! c = Some (k, q) -> 0 <= j < 512 ->
    c = b /\ j = i \/ r' (c + 8 * j) = r (c + 8 * j)).
  { intros c k q j Hc Hj. destruct (Z.eq_dec c b), (Z.eq_dec j i); [by left | | |];
      right; apply (Hag c k q); tauto. }
  split; [done | done | | | |].
  - intros c k q j Hc' Hj Hz'. destruct (Hc c k q j Hc' Hj) as [[-> ->] | E]; [congruence |].
    rewrite E in *. by apply (A3 c k q).
  - intros c k q j Hc' Hj. destruct (Hc c _ q j Hc' Hj) as [[-> ->] | E].
    + rewrite Hb in Hc'. injection Hc' as -> ->. rewrite B1. intros _ H. discriminate H.
    + rewrite E. by apply A4.
  - intros c k q Hc' Hk. destruct (A5 c k q Hc' Hk) as (b' & p' & j & L1 & L2 & L3 & L4 & L5).
    exists b', p', j. destruct (Hc b' _ p' j L1 L2) as [[-> ->] | ->]; [| done].
    rewrite Hz, Z.bits_0 in L4. done.
  - intros c q j Hc' Hj. destruct (Hc c _ q j Hc' Hj) as [[-> ->] | ->]; [| by apply (A6 c q)].
    rewrite Hb in Hc'. injection Hc' as -> ->. right. rewrite He, Hty. simpl.
    apply page_pte_ok; [by rewrite <- lsize_0 | done | done].
Qed.

Lemma leaf_mapping va : va = (p * 512 + i) * lsize n -> mapping n T r T r' b va (va + lsize n) x attr.
Proof.
  intros ->. set (q := p * 512 + i). destruct leaf_entry_bits as [B0 B1]. pose proof (lsize_pos n) as Hpos.
  split; [done | exact leaf_tree | | congruence | congruence | |].
  - intros c k q' j Hc Hj Hap. left. symmetry. apply (Hag c k q' j Hc Hj).
    destruct (Z.eq_dec c b) as [-> |]; [| by left]. right. intros ->.
    rewrite Hb in Hc. injection Hc as -> ->. fold q in Hap. unfold slot_apart in Hap. lia.
  - intros v Hv. assert (Hq : v / lsize n = q) by (apply div_slot; lia).
    assert (Hm : v mod lsize n = v - q * lsize n) by (pose proof (Z.div_mod v (lsize n)); lia).
    pose proof (leaf_addr n x attr ty ltac:(lia) Hx Hr (pa_ok _ Ha) leaf_ty) as Ead.
    pose proof (leaf_attr n x attr ty ltac:(lia) Hx Hr (pa_ok _ Ha) leaf_ty) as Eat.
    rewrite <- He in Ead, Eat. clear He. clear Hty. revert Ead Eat B0 B1 Hm Hq. clear -Hi Hn Ha.
    destruct n as [|k]; intros Ead Eat B0 B1 Hm Hq; cbn [twalk];
      rewrite (lindex_slot _ v p i Hi Hq), B0, B1, Ead, Eat, (hw_attr_id _ Ha), Hm; cbn match; [done |].
    by rewrite (proj2 (Nat.eqb_neq k 2)) by lia.
  - intros c k v Hc Hv. eapply twalk_agree_but; [exact Ht | exact Hb | exact Hi | exact Hag | exact Hc |].
    intros _ Hq. apply div_slot in Hq. fold q in Hq. lia.
Qed.
End Leaf.

(** ** Descending one level *)

(** The state in which the level below is called for entry [i] of the table
    [b] of level [S n]: the entry points to a table of level [n], and walks
    are as before. *)
Record prep (n : nat) (T : tables) (r : Z -> Z) (b p i : Z) (T1 : tables) (r1 : Z -> Z) : Prop := {
  po_tree : tree T1 r1;
  po_sub : forall c x, T !! c = Some x -> T1 !! c = Some x;
  po_entry : agree_but T b i r r1;
  po_zero : forall c k q j, T1 !! c = Some (k, q) -> T !! c = None -> 0 <= j < 512 -> r1 (c + 8 * j) = 0;
  po_new : forall c k q, T1 !! c = Some (k, q) -> T !! c = None -> k = n;
  po_walk : forall k c v, T !! c = Some (k, v / lsize (S k)) -> twalk k r1 c v = twalk k r c v;
  po_bits : Z.testbit (r1 (b + 8 * i)) 0 = true /\ Z.testbit (r1 (b + 8 * i)) 1 = true;
  po_child : T1 !! desc_addr 0 (r1 (b + 8 * i)) = Some (n, p * 512 + i);
}.

Lemma prep_there n T r b p i :
  tree T r -> T !! b = Some (S n, p) -> 0 <= i < 512 ->
  Z.testbit (r (b + 8 * i)) 0 = true -> Z.testbit (r (b + 8 * i)) 1 = true ->
  prep n T r b p i T r.
Proof.
  intros Ht Hb Hi E0 E1. split; try done; [congruence | congruence |].
  exact (proj1 (tr_child _ _ Ht _ _ _ _ Hb Hi E0 E1)).
Qed.

Section Link.
Context (n : nat) (T : tables) (r r' : Z -> Z) (b p i nb : Z).
Context (Ht : tree T r) (Hb : T !! b = Some (S n, p)) (Hn : (n <= 2)%nat) (Hi : 0 <= i < 512).
Context (Hag : agree_but T b i r r') (Hz : r (b + 8 * i) = 0).
Context (Hnb : T !! nb = None) (Hpage : nb mod 4096 = 0 /\ 0 <= nb /\ nb + 4096 <= 2 ^ 47).
Context (Hfresh : forall j, 0 <= j < 512 -> r' (nb + 8 * j) = 0).
Context (He : desc_addr 0 (r' (b + 8 * i)) = nb) (Hp : __pte_to_phys (r' (b + 8 * i)) = nb).
Context (H0 : Z.testbit (r' (b + 8 * i)) 0 = true) (H1 : Z.testbit (r' (b + 8 * i)) 1 = true).

Let T1 := <[nb := (n, p * 512 + i)]> T.

Lemma link_cases c x : T1 !! c = Some x -> c = nb /\ x = (n, p * 512 + i) \/ T !! c = Some x.
Proof. intros H. apply lookup_insert_Some in H as [[<- <-] | [_ H]]; auto. Qed.

Lemma link_old c x : T !! c = Some x -> T1 !! c = Some x.
Proof. intros H. unfold T1. rewrite lookup_insert_ne; [done |]. congruence. Qed.

Lemma link_other c k q j :
  T !! c = Some (k, q) -> 0 <= j < 512 -> c = b /\ j = i \/ r' (c + 8 * j) = r (c + 8 * j).
Proof.
  intros Hc Hj. destruct (Z.eq_dec c b), (Z.eq_dec j i); [by left | | |]; right; apply (Hag c k q); tauto.
Qed.

Lemma link_unique c : T !! c <> Some (n, p * 512 + i).
Proof.
  intros Hc. destruct (tr_link _ _ Ht c _ _ Hc ltac:(lia)) as (b' & p' & j & L1 & L2 & L3 & L4 & _).
  assert (p' = p /\ j = i) as [-> ->] by lia.
  assert (b' = b) as -> by (by eapply (tr_inj _ _ Ht)). rewrite Hz, Z.bits_0 in L4. done.
Qed.

Lemma link_tree : tree T1 r'.
Proof.
  pose proof Ht as [A1 A2 A3 A4 A5 A6]. split.
  - intros c k q [[-> [= -> ->]] | Hc]%link_cases; [done | by apply (A1 c k q)].
  - intros c1 c2 x [[-> ->] | H2]%link_cases [[-> E] | H3]%link_cases.
    + done.
    + by apply link_unique in H3.
    + subst x. by apply link_unique in H2.
    + by apply (A2 c1 c2 x).
  - intros c k q j [[-> [= -> ->]] | Hc]%link_cases Hj; [by rewrite Hfresh |].
    destruct (link_other c k q j Hc Hj) as [[-> ->] | ->]; [congruence |]. by apply (A3 c k q).
  - intros c k q j [[-> [= E ->]] | Hc]%link_cases Hj; [by rewrite Hfresh, Z.bits_0 |].
    destruct (link_other c _ q j Hc Hj) as [[-> ->] | ->].
    + rewrite Hb in Hc. injection Hc as -> ->. intros _ _. rewrite He, Hp.
      split; [apply lookup_insert_eq | done].
    + intros E0 E1. destruct (A4 c k q j Hc Hj E0 E1) as [? ?]. split; [by apply link_old | done].
  - intros c k q [[-> [= -> ->]] | Hc]%link_cases Hk.
    + exists b, p, i. split; [by apply link_old |]. done.
    + destruct (A5 c k q Hc Hk) as (b' & p' & j & L1 & L2 & L3 & L4 & L5).
      exists b', p', j. split; [by apply link_old |]. split; [done |]. split; [done |].
      destruct (link_other b' _ p' j L1 L2) as [[-> ->] | ->]; [| done].
      rewrite Hz, Z.bits_0 in L4. done.
  - intros c q j [[-> [= E ->]] | Hc]%link_cases Hj; [left; by apply Hfresh |].
    destruct (link_other c _ q j Hc Hj) as [[-> ->] | ->]; [congruence | by apply (A6 c q)].
Qed.

Lemma twalk_zero k f c v : f (c + 8 * lindex k v) = 0 -> twalk k f c v = None.
Proof. intros H. destruct k; cbn [twalk]; by rewrite H. Qed.

Lemma link_twalk k : forall c v, T !! c = Some (k, v / lsize (S k)) -> twalk k r' c v = twalk k r c v.
Proof.
  induction k as [|k IH]; intros c v Hc; cbn [twalk].
  - destruct (link_other c _ _ _ Hc (lindex_range 0 v)) as [[-> _] | ->]; [congruence | done].
  - destruct (link_other c _ _ _ Hc (lindex_range (S k) v)) as [[-> E] | ->].
    + rewrite Hb in Hc. injection Hc as -> ->. rewrite E, H0, H1, He, Hz, Z.bits_0.
      apply twalk_zero, Hfresh, lindex_range.
    + destruct (Z.testbit (r _) 0) eqn:E0; [| done]. destruct (Z.testbit (r _) 1) eqn:E1; [| done].
      apply IH. rewrite slot_split. exact (proj1 (tr_child _ _ Ht _ _ _ _ Hc (lindex_range _ v) E0 E1)).
Qed.

Lemma prep_linked : prep n T r b p i T1 r'.
Proof.
  split; [exact link_tree | exact link_old | exact Hag | | | exact link_twalk | done |].
  - intros c k q j [[-> _] | Hc]%link_cases Hno; [apply Hfresh | congruence].
  - intros c k q [[-> [= -> _]] | Hc]%link_cases Hno; [done | congruence].
  - rewrite He. apply lookup_insert_eq.
Qed.
End Link.

Lemma tree_prep_lift n T r b p i T1 r1 T2 r2 va nxt start attr :
  T !! b = Some (S n, p) -> 0 <= i < 512 -> va < nxt ->
  (forall v, va <= v < nxt -> v / lsize (S n) = p * 512 + i) ->
  prep n T r b p i T1 r1 ->
  mapping n T1 r1 T2 r2 (desc_addr 0 (r1 (b + 8 * i))) va nxt start attr ->
  mapping (S n) T r T2 r2 b va nxt start attr.
Proof.
  intros Hb Hi Hlt Hslot [P1 P2 P3 P4 P5 P6 [P7 P7'] P8] [A1 A2 A3 A4 A5 A6 A7].
  assert (Hent : r2 (b + 8 * i) = r1 (b + 8 * i)).
  { destruct (A3 b (S n) p i (P2 _ _ Hb) Hi ltac:(right; lia)) as [-> | [? _]]; done. }
  split.
  - auto.
  - done.
  - intros c k q j Hc Hj Hap.
    assert (E : r1 (c + 8 * j) = r (c + 8 * j)).
    { apply (P3 c k q j Hc Hj). destruct (Z.eq_dec c b) as [-> |]; [| by left]. right. intros ->.
      rewrite Hb in Hc. injection Hc as <- <-. destruct Hap as [Hap | Hap]; [| lia].
      pose proof (proj1 (div_slot _ _ _) (Hslot va ltac:(lia))). unfold slot_apart in Hap. lia. }
    rewrite <- E. apply (A3 c k q j (P2 _ _ Hc) Hj). destruct Hap; [by left | right; lia].
  - intros c k q j Hc Hno Hj Hap. destruct (T1 !! c) as [[k1 q1]|] eqn:E; [| by apply (A4 c k q)].
    rewrite (A1 _ _ E) in Hc. injection Hc as -> ->.
    pose proof (A3 c k q j E Hj ltac:(by left)) as Hs. rewrite (P4 c k q j) in Hs by done.
    by apply esim_zero in Hs.
  - intros c k q Hc Hno. destruct (T1 !! c) as [[k1 q1]|] eqn:E.
    + rewrite (A1 _ _ E) in Hc. injection Hc as -> ->. rewrite (P5 c k q E Hno). lia.
    + pose proof (A5 c k q Hc E). lia.
  - intros v Hv. cbn [twalk]. rewrite (lindex_slot (S n) v p i Hi (Hslot v Hv)).
    rewrite Hent, P7, P7'. by apply A6.
  - intros c k v Hc Hv. rewrite (A7 c k v); [by apply P6 | by apply P2 | done].
Qed.
