(* ===== verification/PteDesc.v ===== *)
(** * Page descriptors

    A page entry is an address, attributes and the page type.  The updates of
    [pg_table.h] (frame number, contiguous, dirty and access bits) act on
    the parts of such an entry; entries that the kernel folds into a
    contiguous block are equivalent to the ones they replace. *)

From S2P Require Import Prelude PageTable PageTableMap Pte PtTree.

Definition page_desc (x a : Z) : Z := Z.lor (Z.lor x a) 3.

(** Attribute bits: neither type nor address, nor the two bits the kernel
    counts as address besides. *)
Record attr_bits (a : Z) : Prop := {
  ab_ok : attr_ok a;
  ab_range : 0 <= a < 2 ^ 64;
  ab_high : Z.testbit a 48 = false /\ Z.testbit a 49 = false;
}.

Lemma page_attr_bits a : page_attr a -> attr_bits a.
Proof.
  intros H. split; [apply H | apply H |]. split; apply (pa_clear a H); simpl; tauto.
Qed.

Lemma addr_low_bit i : 0 <= i -> Z.testbit PTE_ADDR_LOW i = (12 <=? i) && (i <? 50).
Proof.
  intros Hi. change PTE_ADDR_LOW with (Z.shiftl (Z.ones 38) 12). rewrite Z.shiftl_spec by lia.
  destruct (Z.leb_spec 12 i); simpl.
  - destruct (Z.ltb_spec i 50); [apply Z.ones_spec_low | apply Z.ones_spec_high]; lia.
  - apply Z.testbit_neg_r. lia.
Qed.

Lemma bit_3 i : 0 <= i -> Z.testbit 3 i = (i <? 2).
Proof.
  intros Hi. change 3 with (Z.ones 2).
  destruct (Z.ltb_spec i 2); [apply Z.ones_spec_low | apply Z.ones_spec_high]; lia.
Qed.

Section Desc.
Context (x : Z) (Hx : x mod 4096 = 0) (Hr : 0 <= x < 2 ^ 48).

Lemma addr_bit i : 0 <= i -> i < 12 \/ 48 <= i -> Z.testbit x i = false.
Proof.
  intros Hi [H | H]; [apply (testbit_multiple 0); [done | change (lshift 0) with 12; lia] |].
  apply (testbit_above x 48); lia.
Qed.

Lemma attr_bit a i : attr_bits a -> 0 <= i -> i < 2 \/ 12 <= i < 50 -> Z.testbit a i = false.
Proof.
  intros [A1 A2 [A3 A4]] Hi Hc.
  destruct (Z.eq_dec i 48) as [-> |]; [done |]. destruct (Z.eq_dec i 49) as [-> |]; [done |].
  apply attr_ok_bit; [done | lia | lia].
Qed.

Lemma desc_phys a : attr_bits a -> __pte_to_phys (page_desc x a) = x.
Proof.
  intros Ha. apply Z.bits_inj'. intros i Hi. unfold __pte_to_phys, page_desc.
  rewrite Z.land_spec, !Z.lor_spec, addr_low_bit, bit_3 by lia.
  destruct (Z.leb_spec 12 i), (Z.ltb_spec i 50); simpl;
    rewrite ?andb_false_r, ?andb_true_r; try (rewrite addr_bit by lia; done).
  rewrite (attr_bit a) by (done || lia). rewrite (proj2 (Z.ltb_ge i 2)), !orb_false_r by lia. done.
Qed.

Lemma desc_pfn a : attr_bits a -> pte_pfn (page_desc x a) = x / 4096.
Proof. intros Ha. unfold pte_pfn. rewrite desc_phys by done. by rewrite Z.shiftr_div_pow2. Qed.

Lemma frame_val : u64 (Z.shiftl (x / 4096) PAGE_SHIFT) = x.
Proof.
  rewrite Z.shiftl_mul_pow2 by done. change (2 ^ PAGE_SHIFT) with 4096.
  pose proof (Z.div_mod x 4096). rewrite u64_small; lia.
Qed.

Lemma pfn_pte_desc a : pfn_pte (x / 4096) (Z.lor a 3) = page_desc x a.
Proof. unfold pfn_pte. rewrite frame_val. apply Z.lor_assoc. Qed.

Lemma desc_pgprot a : attr_bits a -> pte_pgprot (page_desc x a) = Z.lor a 3.
Proof.
  intros Ha. unfold pte_pgprot, pfn_pte. rewrite desc_pfn, frame_val, Z.lor_0_r by done.
  apply Z.bits_inj'. intros i Hi. unfold page_desc. rewrite Z.lxor_spec, !Z.lor_spec, bit_3 by lia.
  destruct (decide (i < 12 \/ 48 <= i)) as [Hc | Hc].
  - rewrite addr_bit by lia. by destruct (Z.testbit a i), (i <? 2).
  - rewrite (attr_bit a) by (done || lia). rewrite (proj2 (Z.ltb_ge i 2)) by lia.
    by destruct (Z.testbit x i).
Qed.

Lemma desc_range a : attr_bits a -> 0 <= page_desc x a < 2 ^ 64.
Proof.
  intros [_ A2 _]. unfold page_desc. split; [repeat (apply Z.lor_nonneg; split); lia |].
  assert (L : forall y, 0 <= y < 2 ^ 64 -> Z.log2 y < 64).
  { intros y Hy. destruct (Z.eq_dec y 0) as [-> |]; [done |]. apply Z.log2_lt_pow2; lia. }
  assert (0 <= Z.lor x a) by (apply Z.lor_nonneg; lia).
  assert (0 < Z.lor (Z.lor x a) 3).
  { assert (Z.lor (Z.lor x a) 3 <> 0) by (rewrite Z.lor_eq_0_iff; lia).
    assert (0 <= Z.lor (Z.lor x a) 3) by (apply Z.lor_nonneg; lia). lia. }
  apply Z.log2_lt_pow2; [done |]. rewrite !Z.log2_lor by lia.
  pose proof (L x). pose proof (L a). change (Z.log2 3) with 1. lia.
Qed.

Lemma desc_addr_page a : attr_bits a -> desc_addr 0 (page_desc x a) = x.
Proof. intros Ha. by apply (leaf_addr 0); [lia | | | apply Ha | right]. Qed.

Lemma desc_attr_page a : attr_bits a -> desc_attr (page_desc x a) = a.
Proof. intros Ha. by apply (leaf_attr 0); [lia | | | apply Ha | right]. Qed.

Lemma desc_bit a i : attr_bits a -> 0 <= i -> i < 12 \/ 50 <= i ->
  Z.testbit (page_desc x a) i = Z.testbit a i || (i <? 2).
Proof. intros _ Hi Hc. apply page_bits; lia || done. Qed.
End Desc.

(** The next frame. *)
Lemma advance_desc x a k :
  x mod 4096 = 0 -> 0 <= x -> 0 <= k -> x + 4096 * k < 2 ^ 48 -> attr_bits a ->
  pte_advance_pfn (page_desc x a) k = page_desc (x + 4096 * k) a.
Proof.
  intros Hx H0 Hk Hr Ha. unfold pte_advance_pfn. rewrite desc_pfn, desc_pgprot by (done || lia).
  assert (Hd : x / 4096 + k = (x + 4096 * k) / 4096).
  { rewrite (Z.mul_comm 4096 k), Z.div_add by lia. done. }
  assert (0 <= (x + 4096 * k) / 4096) by (apply Z.div_pos; lia).
  assert ((x + 4096 * k) / 4096 < 2 ^ 48) by (apply Z.div_lt_upper_bound; lia).
  rewrite Hd, u64_small by lia. apply pfn_pte_desc; [| lia].
  rewrite Z.add_mod, Hx, Z.mul_comm, Z.mod_mul by lia. done.
Qed.

(** ** Attribute updates *)

Lemma lor_desc x a b : Z.lor (page_desc x a) b = page_desc x (Z.lor a b).
Proof. unfold page_desc. rewrite <- !Z.lor_assoc. f_equal. f_equal. apply Z.lor_comm. Qed.

Lemma ldiff_desc x a k :
  x mod 4096 = 0 -> 0 <= x < 2 ^ 48 -> 2 <= k < 12 \/ 48 <= k ->
  Z.ldiff (page_desc x a) (2 ^ k) = page_desc x (Z.ldiff a (2 ^ k)).
Proof.
  intros Hx Hr Hk. apply Z.bits_inj'. intros i Hi. unfold page_desc.
  rewrite Z.ldiff_spec, !Z.lor_spec, Z.ldiff_spec, Z.pow2_bits_eqb, bit_3 by lia.
  destruct (Z.eqb_spec k i) as [<- | _]; simpl; [| by rewrite !andb_true_r].
  rewrite !andb_false_r, (addr_bit x Hx Hr) by lia. by rewrite (proj2 (Z.ltb_ge k 2)) by lia.
Qed.

Lemma attr_bits_lor a k : attr_bits a -> 2 <= k < 12 \/ 50 <= k < 64 -> attr_bits (Z.lor a (2 ^ k)).
Proof.
  intros [A1 A2 [A3 A4]] Hk.
  assert (H2 : 0 <= 2 ^ k < 2 ^ 64) by (split; [apply Z.pow_nonneg; lia | apply Z.pow_lt_mono_r; lia]).
  split.
  - unfold attr_ok in *. rewrite Z.land_lor_distr_l, A1, Z.lor_0_l. apply Z.bits_inj'. intros i Hi.
    rewrite Z.land_spec, Z.lor_spec, Z.bits_0, addr_mask_spec, bit_3, Z.pow2_bits_eqb by lia.
    change (lshift 0) with 12. destruct (Z.eqb_spec k i) as [<- | _]; [simpl | done].
    destruct (Z.leb_spec 12 k), (Z.ltb_spec k 48), (Z.ltb_spec k 2); lia || done.
  - split; [apply Z.lor_nonneg; lia |].
    destruct (Z.eq_dec (Z.lor a (2 ^ k)) 0) as [-> |]; [lia |].
    assert (0 <= Z.lor a (2 ^ k)) by (apply Z.lor_nonneg; lia).
    apply Z.log2_lt_pow2; [lia |]. rewrite Z.log2_lor, Z.log2_pow2 by lia.
    destruct (Z.eq_dec a 0) as [-> |]; [simpl; lia |].
    assert (Z.log2 a < 64) by (apply Z.log2_lt_pow2; lia). lia.
  - rewrite !Z.lor_spec, A3, A4, !Z.pow2_bits_false by lia. done.
Qed.

Lemma attr_bits_ldiff a b : attr_bits a -> attr_bits (Z.ldiff a b).
Proof.
  intros [A1 A2 [A3 A4]]. split.
  - unfold attr_ok in *. apply Z.bits_inj'. intros i Hi.
    pose proof (f_equal (fun z => Z.testbit z i) A1) as E. simpl in E.
    rewrite Z.land_spec, Z.bits_0 in E. rewrite Z.land_spec, Z.ldiff_spec, Z.bits_0.
    destruct (Z.testbit a i), (Z.testbit (Z.lor (addr_mask 0) 3) i), (Z.testbit b i); done.
  - assert (E : Z.ldiff (Z.ldiff a b) a = 0).
    { apply Z.bits_inj'. intros i Hi. rewrite !Z.ldiff_spec, Z.bits_0.
      by destruct (Z.testbit a i), (Z.testbit b i). }
    apply Z.ldiff_le in E; lia.
  - rewrite !Z.ldiff_spec, A3, A4. done.
Qed.

(** ** Folding *)

(** The conditions of [pte_ok] on the attributes. *)
Record user_attr (a : Z) : Prop := {
  ua_bits : attr_bits a;
  ua_young : Z.testbit a 10 = true;
  ua_rdonly : Z.testbit a 7 = negb (Z.testbit a 51) && Z.testbit a 6;
}.

Lemma page_user_attr a : page_attr a -> user_attr a.
Proof. intros H. split; [by apply page_attr_bits | apply H | apply H]. Qed.

Lemma desc_pte_ok x a : x mod 4096 = 0 -> 0 <= x < 2 ^ 48 -> user_attr a -> pte_ok (page_desc x a).
Proof.
  intros Hx Hr [A1 A2 A3]. pose proof (ab_high _ A1) as [B1 B2].
  split; [by apply desc_range | | | | |]; try (intros i Hi); unfold page_desc; rewrite !page_bits by lia.
  - apply orb_true_r.
  - apply orb_true_r.
  - by rewrite A2.
  - by rewrite !orb_false_r.
  - rewrite (proj2 (Z.ltb_ge i 2)), orb_false_r by lia. by assert (i = 48 \/ i = 49) as [-> | ->] by lia.
Qed.

Lemma pte_ok_desc e : pte_ok e ->
  exists x a, e = page_desc x a /\ x mod 4096 = 0 /\ 0 <= x < 2 ^ 48 /\ user_attr a.
Proof.
  intros [E1 E2 E3 E4 E5 E6]. exists (desc_addr 0 e), (desc_attr e).
  assert (Hbit : forall i, 0 <= i -> Z.testbit (desc_addr 0 e) i = Z.testbit e i && ((12 <=? i) && (i <? 48))).
  { intros i Hi. unfold desc_addr. rewrite Z.land_spec, addr_mask_spec by lia. done. }
  assert (Habit : forall i, 0 <= i ->
    Z.testbit (desc_attr e) i = Z.testbit e i && negb ((12 <=? i) && (i <? 48) || (i <? 2))).
  { intros i Hi. unfold desc_attr. rewrite Z.land_spec, Z.lnot_spec, Z.lor_spec, addr_mask_spec, bit_3 by lia.
    done. }
  assert (Hat : attr_bits (desc_attr e)).
  { split.
    - unfold attr_ok. apply Z.bits_inj'. intros i Hi.
      rewrite Z.land_spec, Z.lor_spec, Z.bits_0, Habit, addr_mask_spec, bit_3 by lia.
      change (lshift 0) with 12. by destruct (Z.testbit e i), (12 <=? i), (i <? 48), (i <? 2).
    - assert (E : Z.ldiff (desc_attr e) e = 0).
      { apply Z.bits_inj'. intros i Hi. rewrite Z.ldiff_spec, Z.bits_0, Habit by lia.
        by destruct (Z.testbit e i), (_ || _). }
      apply Z.ldiff_le in E; lia.
    - rewrite !Habit, !E6 by lia. done. }
  split; [| split; [| split; [| split; [done | |]]]].
  - apply Z.bits_inj'. intros i Hi. unfold page_desc. rewrite !Z.lor_spec, Hbit, Habit, bit_3 by lia.
    destruct (Z.leb_spec 12 i), (Z.ltb_spec i 48), (Z.ltb_spec i 2); simpl;
      rewrite ?andb_true_r, ?andb_false_r, ?orb_false_r; try lia; try done.
    assert (i = 0 \/ i = 1) as [-> | ->] by lia; [by rewrite E2 | by rewrite E3].
  - apply Z.bits_inj'. intros i Hi. rewrite Z.bits_0. change 4096 with (2 ^ 12).
    destruct (Z.lt_ge_cases i 12).
    + rewrite Z.mod_pow2_bits_low, Hbit by lia. rewrite (proj2 (Z.leb_gt 12 i)) by lia. apply andb_false_r.
    + apply Z.mod_pow2_bits_high. lia.
  - assert (Hle : Z.ldiff (desc_addr 0 e) (2 ^ 48 - 1) = 0).
    { change (2 ^ 48 - 1) with (Z.ones 48). apply Z.bits_inj'. intros i Hi.
      rewrite Z.ldiff_spec, Z.bits_0, Hbit by lia. destruct (Z.ltb_spec i 48).
      - rewrite Z.ones_spec_low by lia. apply andb_false_r.
      - by rewrite !andb_false_r. }
    apply Z.ldiff_le in Hle; lia.
  - rewrite Habit by lia. by rewrite E4.
  - rewrite !Habit by lia. simpl. by rewrite !andb_true_r.
Qed.

(** An entry without its access and dirty bits, as the fold compares it. *)
Definition stripped (a : Z) : Z := Z.ldiff (Z.lor (Z.ldiff a PTE_DIRTY) PTE_RDONLY) PTE_AF.

Lemma attr_bits_stripped a : attr_bits a -> attr_bits (stripped a).
Proof.
  intros H. apply attr_bits_ldiff. apply (attr_bits_lor _ 7); [| lia]. by apply attr_bits_ldiff.
Qed.

Lemma strip_desc x a : x mod 4096 = 0 -> 0 <= x < 2 ^ 48 ->
  pte_mkold (pte_mkclean (page_desc x a)) = page_desc x (stripped a).
Proof.
  intros Hx Hr. unfold pte_mkold, pte_mkclean, set_pte_bit, clear_pte_bit, stripped.
  unfold PTE_DIRTY, PTE_AF. by rewrite ldiff_desc, lor_desc, ldiff_desc by lia.
Qed.

Lemma stripped_bit a i : 0 <= i -> Z.testbit (stripped a) i
  = ((Z.testbit a i && negb (55 =? i)) || (7 =? i)) && negb (10 =? i).
Proof.
  intros Hi. unfold stripped, PTE_DIRTY, PTE_RDONLY, PTE_AF.
  rewrite Z.ldiff_spec, Z.lor_spec, Z.ldiff_spec, !Z.pow2_bits_eqb by lia. done.
Qed.

Lemma hw_attr_bit a i : 0 <= i -> Z.testbit (hw_attr a) i = Z.testbit a i && negb ((52 =? i) || (55 =? i)).
Proof.
  intros Hi. unfold hw_attr, PTE_CONT, PTE_DIRTY.
  by rewrite Z.ldiff_spec, Z.lor_spec, !Z.pow2_bits_eqb by lia.
Qed.

Lemma stripped_same a b : user_attr a -> user_attr b -> stripped a = stripped b -> hw_attr a = hw_attr b.
Proof.
  intros [_ A2 A3] [_ B2 B3] E.
  assert (Hb : forall i, 0 <= i -> i <> 7 -> i <> 10 -> i <> 55 -> Z.testbit a i = Z.testbit b i).
  { intros i Hi H1 H2 H3. pose proof (f_equal (fun z => Z.testbit z i) E) as Eb. simpl in Eb.
    rewrite !stripped_bit in Eb by lia.
    rewrite (proj2 (Z.eqb_neq 55 i)), (proj2 (Z.eqb_neq 7 i)), (proj2 (Z.eqb_neq 10 i)) in Eb by lia.
    simpl in Eb. by rewrite !andb_true_r, !orb_false_r in Eb. }
  apply Z.bits_inj'. intros i Hi. rewrite !hw_attr_bit by lia.
  destruct (Z.eq_dec i 55) as [-> |]; [by rewrite !andb_false_r |].
  destruct (Z.eq_dec i 10) as [-> |]; [by rewrite A2, B2 |].
  destruct (Z.eq_dec i 7) as [-> |]; [| by rewrite Hb by lia].
  rewrite A3, B3, (Hb 51), (Hb 6) by lia. done.
Qed.

(** The attributes a folded block gets: contiguous, and dirty when an entry
    of the block was. *)
Lemma hw_attr_cont a : hw_attr (Z.lor a PTE_CONT) = hw_attr a.
Proof.
  apply Z.bits_inj'. intros i Hi. rewrite !hw_attr_bit, Z.lor_spec by lia. unfold PTE_CONT.
  rewrite Z.pow2_bits_eqb by lia. destruct (52 =? i), (55 =? i); by rewrite ?andb_false_r, ?orb_false_r.
Qed.

Lemma hw_attr_dirty a : hw_attr (Z.lor a PTE_DIRTY) = hw_attr a.
Proof.
  apply Z.bits_inj'. intros i Hi. rewrite !hw_attr_bit, Z.lor_spec by lia. unfold PTE_DIRTY.
  rewrite Z.pow2_bits_eqb by lia. destruct (52 =? i), (55 =? i); by rewrite ?andb_false_r, ?orb_false_r.
Qed.

Lemma user_attr_lor a k : user_attr a -> 52 <= k < 64 -> user_attr (Z.lor a (2 ^ k)).
Proof.
  intros [A1 A2 A3] Hk. split; [apply attr_bits_lor; [done | lia] | |];
    rewrite !Z.lor_spec, !Z.pow2_bits_false, !orb_false_r by lia; done.
Qed.

(** Marking an entry of the kernel dirty only sets the software bit, and it
    is already young. *)
Lemma mkdirty_desc x a : x mod 4096 = 0 -> 0 <= x < 2 ^ 48 -> user_attr a ->
  pte_mkdirty (page_desc x a) = page_desc x (Z.lor a PTE_DIRTY).
Proof.
  intros Hx Hr Ha. unfold pte_mkdirty, set_pte_bit. rewrite lor_desc.
  pose proof (user_attr_lor a 55 Ha ltac:(lia)) as [U1 U2 U3]. fold PTE_DIRTY in U1, U2, U3.
  unfold pte_write, PTE_WRITE. rewrite has_pow2, desc_bit by (done || lia).
  change (51 <? 2) with false. rewrite orb_false_r.
  destruct (Z.testbit (Z.lor a PTE_DIRTY) 51) eqn:E; [| done]. cbn [negb andb] in U3.
  unfold clear_pte_bit, PTE_RDONLY. rewrite ldiff_desc by lia. f_equal.
  apply Z.bits_inj'. intros i Hi. rewrite Z.ldiff_spec, Z.pow2_bits_eqb by lia.
  destruct (Z.eqb_spec 7 i) as [<- | _]; [by rewrite U3 | apply andb_true_r].
Qed.

Lemma mkyoung_desc x a : user_attr a -> pte_mkyoung (page_desc x a) = page_desc x a.
Proof.
  intros [_ A2 _]. unfold pte_mkyoung, set_pte_bit. rewrite lor_desc. f_equal.
  apply Z.bits_inj'. intros i Hi. unfold PTE_AF. rewrite Z.lor_spec, Z.pow2_bits_eqb by lia.
  destruct (Z.eqb_spec 10 i) as [<- | _]; [by rewrite A2 | apply orb_false_r].
Qed.

Lemma same_pte_desc x a b : x mod 4096 = 0 -> 0 <= x < 2 ^ 48 -> user_attr a -> user_attr b ->
  hw_attr a = hw_attr b -> same_pte (page_desc x a) (page_desc x b).
Proof.
  intros Hx Hr Ha Hb E. pose proof (ua_bits _ Ha). pose proof (ua_bits _ Hb).
  split; [by apply desc_pte_ok | by apply desc_pte_ok | by rewrite !desc_addr_page |].
  by rewrite !desc_attr_page.
Qed.
