(* ===== verification/BootSpace.v ===== *)
(** * Address spaces built by the boot-time mapper

    The calls of [pg_map_range] that build one address space, seen from
    outside: a list of disjoint regions, each with the distance from its
    virtual to its physical addresses and its attributes.  A call with a
    pool adds a region; a call without one ([pnext] null) gives a region
    already there new attributes, takes no page and touches no other. *)

From S2P Require Import Prelude PageTable PageTableMap.

(** Rounding leaves page boundaries alone. *)
Lemma ALIGN_DOWN_id x : x mod 4096 = 0 -> 0 <= x < 2 ^ 64 -> ALIGN_DOWN x PAGE_SIZE = x.
Proof.
  intros Hm Hr. unfold ALIGN_DOWN. rewrite align_mask_pow2 by (try apply is_pow2_PAGE_SIZE; lia).
  change PAGE_SIZE with 4096. lia.
Qed.

Lemma ALIGN_UP_id x : x mod 4096 = 0 -> 0 <= x < 2 ^ 64 - 4096 -> ALIGN_UP x PAGE_SIZE = x.
Proof.
  intros Hm Hr. unfold ALIGN_UP.
  rewrite align_mask_pow2; [| apply is_pow2_PAGE_SIZE | apply u64_range].
  change PAGE_SIZE with 4096. rewrite u64_small by lia.
  replace (x + 4096 - 1) with (4095 + x / 4096 * 4096) by (pose proof (Z.div_mod x 4096); lia).
  rewrite Z.mod_add by lia. change (4095 mod 4096) with 4095.
  pose proof (Z.div_mod x 4096). lia.
Qed.

Record boot_region := BootRegion {
  br_lo : Z;
  br_hi : Z;
  br_off : Z;
  br_attr : Z;
}.

(** The flags every caller passes. *)
Definition MAP_BLOCKS : Z := Z.lor FLAGS_MAP_PUD_BLOCK FLAGS_MAP_PMD_BLOCK.
Abbreviation boot_blk := (map_blk MAP_BLOCKS).

Definition br_in (r : boot_region) (v : Z) : Prop := br_lo r <= v < br_hi r.
Definition br_clear (lo hi : Z) (r : boot_region) : Prop := hi <= br_lo r \/ br_hi r <= lo.

#[export] Instance br_in_dec r v : Decision (br_in r v).
Proof. unfold br_in. apply _. Defined.

(** What the translation should be: the first region that holds [v]. *)
Fixpoint br_walk (L : list boot_region) (v : Z) : option (Z * Z) :=
  match L with
  | [] => None
  | r :: L' => if decide (br_in r v) then Some (v + br_off r, desc_attr (br_attr r)) else br_walk L' v
  end.

(** Pairwise disjoint regions. *)
Fixpoint br_disjoint (L : list boot_region) : Prop :=
  match L with
  | [] => True
  | r :: L' => Forall (br_clear (br_lo r) (br_hi r)) L' /\ br_disjoint L'
  end.

Lemma br_clear_sym r s : br_clear (br_lo r) (br_hi r) s -> br_clear (br_lo s) (br_hi s) r.
Proof. unfold br_clear. tauto. Qed.

Lemma br_clear_not_in r s v : br_clear (br_lo r) (br_hi r) s -> br_in r v -> ~ br_in s v.
Proof. unfold br_clear, br_in. lia. Qed.

(** The order of disjoint regions does not matter. *)
Lemma br_disjoint_perm L L' : L ≡ₚ L' -> br_disjoint L -> br_disjoint L'.
Proof.
  induction 1 as [| r L L' HP IH | r s L | L1 L2 L3 _ IH1 _ IH2]; simpl.
  - done.
  - intros [H1 H2]. split; [by rewrite <- HP | auto].
  - intros ([H1 H2]%Forall_cons & H3 & H4). split; [| done].
    constructor; [by apply br_clear_sym | done].
  - auto.
Qed.

Lemma br_walk_perm L L' v : L ≡ₚ L' -> br_disjoint L -> br_walk L v = br_walk L' v.
Proof.
  induction 1 as [| r L L' HP IH | r s L | L1 L2 L3 HP IH1 _ IH2]; simpl.
  - done.
  - intros [_ H]. by rewrite IH.
  - intros ([H1 _]%Forall_cons & _). pose proof (br_clear_not_in _ _ v H1).
    repeat case_decide; tauto || done.
  - intros H. rewrite IH1, IH2; [done | by eapply br_disjoint_perm | done].
Qed.

Section Space.
Context (limit root half : Z) (plan : gset (nat * Z)).

Record boot_space (T : tables) (m : mem) (pnext : Z) (L : list boot_region) : Prop := {
  bs_wf : pt_wf limit T m pnext;
  bs_root : T !! root = Some (3%nat, half);
  bs_walk : forall v, v / 2 ^ 48 = half -> walk 3 m root v = br_walk L v;
  bs_full : Forall (fun r => covered boot_blk true 3 T m (br_lo r) (br_hi r) (br_off r)) L;
  bs_free : forall lo hi d, Forall (br_clear lo hi) L -> covered boot_blk false 3 T m lo hi d;
  bs_disjoint : br_disjoint L;
  bs_budget : budget limit plan T pnext;
  bs_levels : forall b k p, T !! b = Some (k, p) -> (k < 3)%nat \/ b = root;
}.

(** ** Tables used by a full range are never new *)

Lemma old_table T m pnext T1 m1 pnext1 b0 lo hi x a lo' hi' d' :
  pt_wf limit T m pnext -> map_post limit 3 T m pnext T1 m1 pnext1 b0 lo hi x a ->
  hi <= lo' \/ hi' <= lo -> covered boot_blk true 3 T m lo' hi' d' ->
  forall j k b q, (j + k = 3)%nat -> T1 !! b = Some (k, q) -> ~ slot_apart (S k) q lo' hi' ->
    T !! b = Some (k, q).
Proof.
  intros Hwf Hp Hdis Hfull. induction j as [|j IH]; intros k b q Hk Hb Ha.
  all: destruct (mp_new _ _ _ _ _ _ _ _ _ _ _ _ _ Hp b k q Hb) as [Ho | (_ & Hlt & Hnew)]; [done |].
  { lia. }
  pose proof (mp_wf _ _ _ _ _ _ _ _ _ _ _ _ _ Hp) as Hwf1.
  destruct (pw_link _ _ _ _ Hwf1 b k q Hb ltac:(lia)) as (c & p & i & L1 & L2 & -> & _).
  pose proof (lsize_pos (S k)) as Hpos. pose proof (lsize_S (S k)) as Hls.
  assert (Hc : T !! c = Some (S k, p)).
  { apply (IH (S k)); [lia | done |]. unfold slot_apart in *. rewrite Hls. nia. }
  specialize (Hfull c k p i Hc ltac:(lia) L2 Ha). unfold entry_ok, block_at, slot_apart in *.
  destruct (Z.testbit (rd m (c + 8 * i)) 0) eqn:E0; [| done].
  assert (E1 : Z.testbit (rd m (c + 8 * i)) 1 = true) by (apply Hfull; lia).
  pose proof (pw_child _ _ _ _ Hwf c k p i Hc L2 E0 E1) as Hch.
  assert (b = desc_addr 0 (rd m (c + 8 * i))) as ->; [| done].
  eapply (pw_inj _ _ _ _ Hwf1); [exact Hb |]. by eapply mp_sub.
Qed.

Lemma covered_other_full T m pnext T1 m1 pnext1 b0 lo hi x a d lo' hi' d' :
  pt_wf limit T m pnext -> map_post limit 3 T m pnext T1 m1 pnext1 b0 lo hi x a ->
  hi <= lo' \/ hi' <= lo -> covered boot_blk true 3 T1 m1 lo hi d ->
  covered boot_blk true 3 T m lo' hi' d' -> covered boot_blk true 3 T1 m1 lo' hi' d'.
Proof.
  intros Hwf Hp Hdis H1 H b k p i Hb Hk Hi Hap. pose proof (lsize_pos (S k)) as Hpos.
  destruct (decide ((p * 512 + i + 1) * lsize (S k) <= lo \/ hi <= (p * 512 + i) * lsize (S k)))
    as [Ha | Ha].
  - destruct (covered_new _ _ _ _ _ _ _ _ _ _ _ _ _ _ _ _ _ Hwf Hp Hb Hi Ha) as [-> _].
    apply (H b k p i); try done.
    eapply (old_table T m pnext) with (j := (3 - S k)%nat); try done; [lia |].
    unfold slot_apart in *. rewrite (lsize_S (S k)). nia.
  - specialize (H1 b k p i Hb Hk Hi Ha). unfold entry_ok, block_at, slot_apart in *.
    destruct (Z.testbit (rd m1 (b + 8 * i)) 0); [| done].
    assert (Hno : Z.testbit (rd m1 (b + 8 * i)) 1 = true) by (apply H1; lia).
    split; [lia | done].
Qed.

(** ** One call *)

(** The region a call maps. *)
Definition call_region (start end_ va attr : Z) : boot_region :=
  BootRegion (map_lo va) (map_hi va start end_) (ALIGN_DOWN start PAGE_SIZE - map_lo va) attr.

(** What a caller must ensure of the arguments. *)
Record call_args (start end_ va attr : Z) : Prop := {
  ca_attr : attr_wf attr;
  ca_rng : rng 3 half (map_lo va) (map_hi va start end_) (ALIGN_DOWN start PAGE_SIZE);
  ca_plain : plain attr boot_blk (map_lo va) (map_hi va start end_)
    (ALIGN_DOWN start PAGE_SIZE - map_lo va);
  ca_planned : planned boot_blk plan 3 (map_lo va) (map_hi va start end_)
    (ALIGN_DOWN start PAGE_SIZE - map_lo va);
}.

Lemma boot_space_perm T m pnext L L' : L ≡ₚ L' -> boot_space T m pnext L -> boot_space T m pnext L'.
Proof.
  intros HP [S1 S2 S3 S4 S5 S6 S7 S8].
  split; [done | done | | by rewrite <- HP | | by eapply br_disjoint_perm | done | done].
  - intros v Hv. rewrite S3 by done. by apply br_walk_perm.
  - intros lo hi d HL. apply S5. by rewrite HP.
Qed.

(** The space after a call, from what is known of it without the region. *)
Lemma boot_done null T m pnext T' m' pnext' L start end_ va attr :
  let lo := map_lo va in let hi := map_hi va start end_ in
  pt_wf limit T m pnext -> T !! root = Some (3%nat, half) ->
  map_done limit attr boot_blk plan null 3 T m pnext T' m' pnext' root lo hi (ALIGN_DOWN start PAGE_SIZE) ->
  (forall v, v / 2 ^ 48 = half -> ~ (lo <= v < hi) -> walk 3 m root v = br_walk L v) ->
  Forall (fun r => covered boot_blk true 3 T m (br_lo r) (br_hi r) (br_off r)) L ->
  (forall lo' hi' d, hi <= lo' \/ hi' <= lo -> Forall (br_clear lo' hi') L ->
     covered boot_blk false 3 T m lo' hi' d) ->
  Forall (br_clear lo hi) L -> br_disjoint L -> budget limit plan T' pnext' ->
  (forall b k p, T !! b = Some (k, p) -> (k < 3)%nat \/ b = root) ->
  boot_space T' m' pnext' (call_region start end_ va attr :: L).
Proof.
  intros lo hi Hwf Hroot [Hp Hc _ _] Hwalk Hfull Hfree Hclear Hdis Hbud Hlev. split; [.. | done |].
  - by eapply mp_wf.
  - by eapply mp_sub.
  - intros v Hv. cbn [br_walk]. case_decide as Hin; unfold br_in in Hin; simpl in Hin.
    + rewrite (mp_in _ _ _ _ _ _ _ _ _ _ _ _ _ Hp) by done.
      cbn [call_region br_off br_attr]. do 2 f_equal. unfold lo. lia.
    + rewrite (mp_out _ _ _ _ _ _ _ _ _ _ _ _ _ Hp root 3 v); [by apply Hwalk | | done].
      change (lsize 4) with (2 ^ 48). by rewrite Hv.
  - constructor; [exact Hc |]. apply Forall_forall. intros s Hs.
    eapply covered_other_full; [exact Hwf | exact Hp | | exact Hc |].
    + by eapply (proj1 (Forall_forall _ _) Hclear).
    + exact (proj1 (Forall_forall _ _) Hfull s Hs).
  - intros lo' hi' d [Hr HL]%Forall_cons.
    assert (Hap : hi <= lo' \/ hi' <= lo) by (destruct Hr; [right | left]; done).
    eapply covered_other; [exact Hwf | exact Hp | done | done | done | exact Hc | by apply Hfree].
  - by split.
  - intros b k p Hb. destruct (mp_new _ _ _ _ _ _ _ _ _ _ _ _ _ Hp b k p Hb) as [Ho | (_ & Hk & _)];
      [by eapply Hlev | by left].
Qed.

(** Only pages of the tree and of the pool are written. *)
Definition only_tables (T : tables) (m : mem) (pnext : Z) (T' : tables) (m' : mem) (pnext' : Z) : Prop :=
  (forall b x, T' !! b = Some x -> T !! b = Some x \/ pnext <= b /\ b + 4096 <= pnext')
  /\ (forall a, outside T' a -> rd m' a = rd m a).

Lemma post_only_tables T m pnext T' m' pnext' b va ve start a :
  map_post limit 3 T m pnext T' m' pnext' b va ve start a -> only_tables T m pnext T' m' pnext'.
Proof.
  intros Hp. split; [| apply (mp_mem _ _ _ _ _ _ _ _ _ _ _ _ _ Hp)].
  intros c [k q] Hc. destruct (mp_new _ _ _ _ _ _ _ _ _ _ _ _ _ Hp c k q Hc) as [? | [? _]]; auto.
Qed.

Lemma post_same_tables T m pnext T' m' b va ve start a :
  map_post limit 3 T m pnext T' m' pnext b va ve start a -> T' = T.
Proof.
  intros Hp. apply map_eq. intros c. destruct (T' !! c) as [x|] eqn:E.
  - destruct (proj1 (post_only_tables _ _ _ _ _ _ _ _ _ _ _ Hp) c x E) as [? | ?]; [done | lia].
  - destruct (T !! c) as [x|] eqn:E'; [| done].
    rewrite (mp_sub _ _ _ _ _ _ _ _ _ _ _ _ _ Hp c x E') in E. done.
Qed.

(** Mapping a new region. *)
Lemma boot_map T m pnext L start end_ va attr :
  boot_space T m pnext L -> call_args start end_ va attr ->
  Forall (br_clear (map_lo va) (map_hi va start end_)) L ->
  exists T' m' pnext',
    pg_map_range m root (Some pnext) start end_ va attr MAP_BLOCKS = Done (m', Some pnext')
    /\ pnext <= pnext' <= limit
    /\ only_tables T m pnext T' m' pnext'
    /\ boot_space T' m' pnext' (call_region start end_ va attr :: L).
Proof.
  intros [S1 S2 S3 S4 S5 S6 S7 S8] [A1 A2 A3 A4] Hclear.
  destruct (pg_map_range_spec limit plan T m false root pnext start end_ va attr MAP_BLOCKS half)
    as (T' & m' & pnext' & E & Hd); [by split; auto |].
  exists T', m', pnext'. split; [exact E |].
  pose proof (md_post _ _ _ _ _ _ _ _ _ _ _ _ _ _ _ _ Hd) as Hp.
  split.
  { pose proof (mp_pnext _ _ _ _ _ _ _ _ _ _ _ _ _ Hp).
    pose proof (pw_pool _ _ _ _ (mp_wf _ _ _ _ _ _ _ _ _ _ _ _ _ Hp)). lia. } split; [by eapply post_only_tables |].
  eapply boot_done; [exact S1 | done | exact Hd | auto | done | auto | done | done | | done].
  by apply (md_budget _ _ _ _ _ _ _ _ _ _ _ _ _ _ _ _ Hd).
Qed.

(** Mapping a region again, without a pool: the tables are all there. *)
Lemma boot_remap T m pnext r L start end_ va attr :
  boot_space T m pnext (r :: L) -> call_args start end_ va attr ->
  br_lo r = map_lo va -> br_hi r = map_hi va start end_ ->
  br_off r = ALIGN_DOWN start PAGE_SIZE - map_lo va ->
  exists T' m',
    pg_map_range m root None start end_ va attr MAP_BLOCKS = Done (m', None)
    /\ only_tables T m pnext T' m' pnext
    /\ boot_space T' m' pnext (call_region start end_ va attr :: L).
Proof.
  intros [S1 S2 S3 [F1 F2]%Forall_cons S5 [S6 S7] S8 S9] [A1 A2 A3 _] Elo Ehi Eoff.
  destruct (pg_map_range_spec limit plan T m true root pnext start end_ va attr MAP_BLOCKS half)
    as (T' & m' & pnext' & E & Hd).
  { split; try done. by rewrite <- Eoff, <- Elo, <- Ehi. }
  rewrite (md_null _ _ _ _ _ _ _ _ _ _ _ _ _ _ _ _ Hd eq_refl) in Hd.
  exists T', m'. split; [exact E |]. rewrite Elo, Ehi in S6.
  split; [eapply post_only_tables, md_post; exact Hd |].
  assert (T' = T) as ->.
  { eapply post_same_tables, md_post; exact Hd. }
  eapply boot_done; [exact S1 | done | exact Hd | | done | | done | done | done | done].
  - intros v Hv Hout. rewrite S3 by done. cbn [br_walk]. rewrite decide_False; [done |].
    unfold br_in. by rewrite Elo, Ehi.
  - intros lo' hi' d Hap HL. apply S5. constructor; [| done].
    unfold br_clear. rewrite Elo, Ehi. lia.
Qed.

(** An empty directory. *)
Lemma boot_space_empty T m pnext :
  pt_wf limit T m pnext -> T !! root = Some (3%nat, half) ->
  (forall i, 0 <= i < 512 -> rd m (root + 8 * i) = 0) -> (forall b k q, T !! b = Some (k, q) -> b = root) ->
  budget limit plan T pnext -> boot_space T m pnext [].
Proof.
  intros Hwf Hroot Hz Honly Hbud. split; try done.
  - intros v _. apply walk_zero. by apply Hz, lindex_range.
  - intros lo hi d _ b k p i Hb _ Hi _. rewrite (Honly _ _ _ Hb), Hz by done. apply entry_ok_zero.
  - intros b k p Hb. right. by eapply Honly.
Qed.

(** ** Spaces whose tables lie in one area

    The root and the pool of the kernel's tables are the pages of
    [area, limit); what the rest of memory holds does not matter. *)
Section Area.
Context (area : Z).

Definition area_space (m : mem) (pnext : Z) (L : list boot_region) : Prop :=
  exists T, boot_space T m pnext L
    /\ (forall b x, T !! b = Some x -> area <= b /\ b + 4096 <= limit)
    /\ area <= pnext.

Definition same_outside (m m' : mem) : Prop := forall a, ~ (area <= a < limit) -> rd m' a = rd m a.
Definition same_inside (m m' : mem) : Prop := forall a, area <= a < limit -> rd m' a = rd m a.

Lemma only_tables_outside T m pnext T' m' pnext' :
  (forall b x, T !! b = Some x -> area <= b /\ b + 4096 <= limit) ->
  area <= pnext -> pnext' <= limit -> only_tables T m pnext T' m' pnext' ->
  (forall b x, T' !! b = Some x -> area <= b /\ b + 4096 <= limit) /\ same_outside m m'.
Proof.
  intros Hin Hlo Hhi [H1 H2].
  assert (Hin' : forall b x, T' !! b = Some x -> area <= b /\ b + 4096 <= limit).
  { intros b x Hb. destruct (H1 b x Hb) as [Ho | Hn]; [by eapply Hin | lia]. }
  split; [done |]. intros a Ha. apply H2. intros b x i Hb Hi ->. specialize (Hin' b x Hb). lia.
Qed.

Lemma area_map m pnext L start end_ va attr :
  area_space m pnext L -> call_args start end_ va attr ->
  Forall (br_clear (map_lo va) (map_hi va start end_)) L ->
  exists m' pnext',
    pg_map_range m root (Some pnext) start end_ va attr MAP_BLOCKS = Done (m', Some pnext')
    /\ pnext <= pnext' <= limit
    /\ area_space m' pnext' (call_region start end_ va attr :: L) /\ same_outside m m'.
Proof.
  intros (T & HS & Hin & Hlo) Hargs Hclear.
  destruct (boot_map T m pnext L start end_ va attr HS Hargs Hclear)
    as (T' & m' & pnext' & E & Hpn & Honly & HS').
  destruct (only_tables_outside T m pnext T' m' pnext' Hin Hlo ltac:(lia) Honly) as [Hin' Hsame].
  exists m', pnext'. do 2 (split; [done |]). split; [| done].
  exists T'. split; [done |]. split; [done | lia].
Qed.

Lemma area_remap m pnext r L start end_ va attr :
  area_space m pnext (r :: L) -> call_args start end_ va attr ->
  br_lo r = map_lo va -> br_hi r = map_hi va start end_ ->
  br_off r = ALIGN_DOWN start PAGE_SIZE - map_lo va ->
  exists m',
    pg_map_range m root None start end_ va attr MAP_BLOCKS = Done (m', None)
    /\ area_space m' pnext (call_region start end_ va attr :: L) /\ same_outside m m'.
Proof.
  intros (T & HS & Hin & Hlo) Hargs E1 E2 E3.
  destruct (boot_remap T m pnext r L start end_ va attr HS Hargs E1 E2 E3)
    as (T' & m' & E & Honly & HS').
  pose proof (pw_pool _ _ _ _ (bs_wf _ _ _ _ HS)).
  destruct (only_tables_outside T m pnext T' m' pnext Hin Hlo ltac:(lia) Honly) as [Hin' Hsame].
  exists m'. split; [done |]. split; [| done]. exists T'. done.
Qed.

Lemma area_space_perm m pnext L L' : L ≡ₚ L' -> area_space m pnext L -> area_space m pnext L'.
Proof. intros HP (T & HS & H). exists T. split; [by eapply boot_space_perm | done]. Qed.

(** Writes elsewhere do not change the translation. *)
Lemma walk_agree T m m' pnext :
  pt_wf limit T m pnext -> (forall b x i, T !! b = Some x -> 0 <= i < 512 -> rd m' (b + 8 * i) = rd m (b + 8 * i)) ->
  forall n b v, T !! b = Some (n, v / lsize (S n)) -> walk n m' b v = walk n m b v.
Proof.
  intros Hwf Hsame. induction n as [|n IH]; intros b v Hb; cbn [walk];
    rewrite (Hsame b _ _ Hb (lindex_range _ v)); [done |].
  destruct (Z.testbit _ 0) eqn:E0; [| done]. destruct (Z.testbit _ 1) eqn:E1; [| done].
  apply IH. rewrite slot_split. eapply (pw_child _ _ _ _ Hwf); [exact Hb | apply lindex_range | done | done].
Qed.

Lemma area_space_agree m m' pnext L :
  same_inside m m' -> area_space m pnext L -> area_space m' pnext L.
Proof.
  intros Hsame (T & [S1 S2 S3 S4 S5 S6 S7 S8] & Hin & Hlo).
  assert (Hent : forall b x i, T !! b = Some x -> 0 <= i < 512 -> rd m' (b + 8 * i) = rd m (b + 8 * i)).
  { intros b x i Hb Hi. apply Hsame. specialize (Hin b x Hb). lia. }
  assert (Hcov : forall full lo hi d, covered boot_blk full 3 T m lo hi d ->
            covered boot_blk full 3 T m' lo hi d).
  { intros full lo hi d Hc b k p i Hb Hk Hi Ha. rewrite (Hent b _ i Hb Hi). by apply Hc. }
  exists T. split; [| done]. split; [| done | | | | done | done | done].
  - destruct S1 as [W1 W2 W3 W4 W5 W6]. split; try done.
    + intros b k p i Hb Hi. rewrite (Hent b _ i Hb Hi). by apply W4.
    + intros b k q Hb Hk. destruct (W5 b k q Hb Hk) as (b' & p & i & Hb' & Hi & Hq & Hrest).
      exists b', p, i. by rewrite (Hent b' _ i Hb' Hi).
    + intros a Ha. rewrite Hsame by lia. by apply W6.
  - intros v Hv. rewrite <- S3 by done. eapply walk_agree; [exact S1 | done |].
    change (lsize 4) with (2 ^ 48). by rewrite Hv.
  - eapply Forall_impl; [exact S4 |]. intros r. apply Hcov.
  - intros lo hi d HL. by apply Hcov, S5.
Qed.

Lemma area_space_walk m pnext L v :
  area_space m pnext L -> v / 2 ^ 48 = half -> walk 3 m root v = br_walk L v.
Proof. intros (T & HS & _) Hv. by apply (bs_walk _ _ _ _ HS). Qed.
End Area.
End Space.

(** ** Another pool, another root *)

Lemma boot_space_repool limit limit' root half plan plan' T m pnext pnext' L :
  boot_space limit root half plan T m pnext L ->
  pnext' mod 4096 = 0 -> 0 <= pnext' <= limit' -> limit' <= 2 ^ 48 ->
  (forall b x, T !! b = Some x -> b + 4096 <= pnext' \/ limit' <= b) ->
  (forall a, pnext' <= a < limit' -> rd m a = 0) -> budget limit' plan' T pnext' ->
  boot_space limit' root half plan' T m pnext' L.
Proof.
  intros [[W1 W2 W3 W4 W5 W6] S2 S3 S4 S5 S6 S7 S8] P1 P2 P3 Hout Hz Hbud. split; try done.
  split; try done. intros b k p Hb. destruct (W2 b k p Hb) as (? & ? & ? & _).
  pose proof (Hout b _ Hb). auto.
Qed.

(** The tree with its root table copied to another page: the old root is no
    longer part of it. *)
Lemma boot_space_move limit root root' half plan T m pnext L :
  boot_space limit root half plan T m pnext L -> T !! root' = None ->
  root' mod 4096 = 0 -> 0 <= root' -> root' + 4096 <= 2 ^ 48 ->
  root' + 4096 <= pnext \/ limit <= root' ->
  (forall i, 0 <= i < 512 -> rd m (root' + 8 * i) = rd m (root + 8 * i)) ->
  boot_space limit root' half plan (<[root' := (3%nat, half)]> (delete root T)) m pnext L.
Proof.
  intros [Hwf S2 S3 S4 S5 S6 S7 S8] Hnew A1 A2 A3 A4 Hcopy. pose proof Hwf as [W1 W2 W3 W4 W5 W6].
  set (T' := <[root' := (3%nat, half)]> (delete root T)).
  assert (Hne : root' <> root) by congruence.
  (* an entry of the new tree is one of the old *)
  assert (Hold : forall b k p, T' !! b = Some (k, p) ->
            exists b0, T !! b0 = Some (k, p) /\ (b = b0 \/ b = root' /\ b0 = root)
              /\ forall i, 0 <= i < 512 -> rd m (b + 8 * i) = rd m (b0 + 8 * i)).
  { intros b k p Hb. unfold T' in Hb. apply lookup_insert_Some in Hb as [[<- [= <- <-]] | [Hnb Hb]].
    - exists root. auto.
    - apply lookup_delete_Some in Hb as [_ Hb]. exists b. auto. }
  (* a table below the root is still there *)
  assert (Hkeep : forall b k p, T !! b = Some (k, p) -> (k < 3)%nat -> T' !! b = Some (k, p)).
  { intros b k p Hb Hk. unfold T'. rewrite lookup_insert_ne by congruence.
    rewrite lookup_delete_ne; [done |]. intros ->. rewrite S2 in Hb. injection Hb as <- _. lia. }
  assert (Hcov : forall full lo hi d, covered boot_blk full 3 T m lo hi d ->
            covered boot_blk full 3 T' m lo hi d).
  { intros full lo hi d Hc b k p i Hb Hk Hi Ha. destruct (Hold _ _ _ Hb) as (b0 & Hb0 & _ & Heq).
    rewrite Heq by done. by apply Hc. }
  split.
  - split; [done | | | | | done].
    + intros b k p Hb. destruct (Hold _ _ _ Hb) as (b0 & Hb0 & [-> | [-> ->]] & _); [by eapply W2 |].
      done.
    + intros b1 b2 [k p] H1 H2. destruct (Hold _ _ _ H1) as (c1 & C1 & D1 & _).
      destruct (Hold _ _ _ H2) as (c2 & C2 & D2 & _). assert (c1 = c2) as <- by (by eapply W3).
      assert (Hgone : T' !! root = None).
      { unfold T'. by rewrite lookup_insert_ne, lookup_delete_eq. }
      destruct D1 as [D1 | [D1 D1']], D2 as [D2 | [D2 D2']]; congruence.
    + intros b k p i Hb Hi. destruct (Hold _ _ _ Hb) as (b0 & Hb0 & _ & Heq). rewrite Heq by done.
      intros E0 E1. apply Hkeep; [by apply W4 |].
      destruct (S8 _ _ _ Hb0) as [Hk | ->]; [lia |]. rewrite S2 in Hb0. injection Hb0. lia.
    + intros b k q Hb Hk. destruct (Hold _ _ _ Hb) as (b0 & Hb0 & [-> | [-> ->]] & _).
      2: { rewrite S2 in Hb0. injection Hb0 as <- _. lia. }
      destruct (W5 b0 k q Hb0 Hk) as (b' & p & i & L1 & L2 & L3 & L4).
      destruct (decide (b' = root)) as [-> | Hnr].
      * exists root', p, i. rewrite Hcopy by done. split; [| done]. unfold T'.
        rewrite lookup_insert_eq. rewrite S2 in L1. done.
      * exists b', p, i. split; [| done]. unfold T'. rewrite lookup_insert_ne by congruence.
        by rewrite lookup_delete_ne by done.
  - unfold T'. by rewrite lookup_insert_eq.
  - intros v Hv. rewrite <- S3 by done. cbn [walk]. by rewrite Hcopy by apply lindex_range.
  - eapply Forall_impl; [exact S4 |]. intros r. apply Hcov.
  - intros lo hi d HL. by apply Hcov, S5.
  - done.
  - destruct S7 as [B1 B2]. split.
    + intros b [k p] Hb. destruct (Hold _ _ _ Hb) as (b0 & Hb0 & _). by eapply B1.
    + unfold T'. rewrite map_size_insert_None, map_size_delete_Some; [| by eexists |].
      * assert (size T <> 0)%nat; [| lia]. intros Hz%map_size_empty_iff. by rewrite Hz in S2.
      * rewrite lookup_delete_None. by right.
  - intros b k p Hb. destruct (Hold _ _ _ Hb) as (b0 & Hb0 & [-> | [-> _]] & _); [| by right].
    destruct (S8 _ _ _ Hb0) as [? | ->]; [by left |]. unfold T' in Hb.
    by rewrite lookup_insert_ne, lookup_delete_eq in Hb.
Qed.

(** ** A space from nothing *)

(** The plan below a new root: the tables of the two upper levels for the
    addresses of [lo, hi), and page tables for the given 2 MiB slots. *)
Definition root_plan (half lo hi : Z) (slots : list Z) : gset (nat * Z) :=
  list_to_set ((3%nat, half) :: level_slots 2 lo hi ++ level_slots 1 lo hi ++ ((pair 0%nat) <$> slots)).

Definition root_need (lo hi : Z) (slots : list Z) : Z :=
  span 3 lo hi + span 2 lo hi + Z.of_nat (length slots).

Lemma root_plan_planned half lo hi slots lo' hi' d :
  lo <= lo' -> lo' < hi' -> hi' <= hi ->
  (forall q, ~ slot_apart 1 q lo' hi' -> ~ block_at boot_blk 1 q lo' hi' d -> q ∈ slots) ->
  planned boot_blk (root_plan half lo hi slots) 3 lo' hi' d.
Proof.
  intros H1 H2 H3 Hs k q Hk Ha Hno.
  assert (Ha' : ~ slot_apart (S k) q lo hi) by (unfold slot_apart in *; lia).
  apply elem_of_list_to_set, list_elem_of_further, elem_of_app. rewrite elem_of_app.
  destruct k as [|[|[|k]]]; [| | | lia].
  - right; right. apply list_elem_of_fmap. exists q. auto.
  - right; left. apply level_slots_spec; [lia | done].
  - left. apply level_slots_spec; [lia | done].
Qed.

(** The slots at the ends of a range: the others are mapped by blocks when
    the distance allows. *)
Definition edges (lo hi : Z) : list Z := [lo / 2 ^ 21; (hi - 1) / 2 ^ 21].

Lemma edge_slot lo hi q :
  lo < hi -> ~ slot_apart 1 q lo hi -> ~ (lo <= q * 2 ^ 21 /\ (q + 1) * 2 ^ 21 <= hi) -> q ∈ edges lo hi.
Proof.
  intros Hlt Ha Hno. unfold slot_apart in Ha. change (lsize 1) with (2 ^ 21) in Ha. unfold edges.
  rewrite !elem_of_cons.
  destruct (decide (lo <= q * 2 ^ 21)).
  - right; left. apply (Z.div_unique_pos _ _ _ (hi - 1 - q * 2 ^ 21)); lia.
  - left. apply (Z.div_unique_pos _ _ _ (lo - q * 2 ^ 21)); lia.
Qed.

(** No aligned 2 MiB block in a range: the mapper writes pages only. *)
Definition no_chunk (lo hi : Z) : Prop := forall q, ~ (lo <= q * 2 ^ 21 /\ (q + 1) * 2 ^ 21 <= hi).

Lemma no_chunk_block lo hi k q d : no_chunk lo hi -> ~ block_at boot_blk k q lo hi d.
Proof.
  intros H (B1 & B2 & B3 & _).
  assert (Hk : (k = 1 \/ k = 2)%nat) by (destruct k as [|[|[|k]]]; auto; done).
  destruct Hk as [-> | ->].
  - apply (H q). done.
  - apply (H (q * 512)). change (lsize 2) with (512 * 2 ^ 21) in *. lia.
Qed.

Lemma area_empty limit dir half lo hi slots m :
  dir mod 4096 = 0 -> 0 <= dir -> limit <= 2 ^ 48 -> lo < hi ->
  dir + 4096 * (1 + root_need lo hi slots) <= limit -> (forall a, dir <= a < limit -> rd m a = 0) ->
  area_space limit dir half (root_plan half lo hi slots) dir m (dir + 4096) [].
Proof.
  intros HD Hdir Hlim Hlt Hroom Hz. unfold root_need in Hroom.
  pose proof (level_slots_length 1 lo hi Hlt) as L1. pose proof (level_slots_length 2 lo hi Hlt) as L2.
  exists {[dir := (3%nat, half)]}. split; [apply boot_space_empty |].
  - split.
    + rewrite Zplus_mod, HD. split; [reflexivity | lia].
    + intros b k p [<- _]%lookup_singleton_Some. split; [done | lia].
    + intros b1 b2 x [<- _]%lookup_singleton_Some [<- _]%lookup_singleton_Some. done.
    + intros b k p i [<- _]%lookup_singleton_Some Hi. by rewrite Hz, Z.bits_0 by lia.
    + intros b k q [_ [= <- <-]]%lookup_singleton_Some. lia.
    + intros a Ha. apply Hz. lia.
  - by rewrite lookup_singleton_eq.
  - intros i Hi. apply Hz. lia.
  - intros b k q [<- _]%lookup_singleton_Some. done.
  - split.
    + intros b x [_ <-]%lookup_singleton_Some. apply elem_of_list_to_set, list_elem_of_here.
    + rewrite map_size_singleton.
      pose proof (size_list_to_set_le ((3%nat, half) :: level_slots 2 lo hi ++ level_slots 1 lo hi
        ++ ((pair 0%nat) <$> slots))) as Hsz.
      cbn [length] in Hsz. rewrite !length_app, length_fmap in Hsz. unfold root_plan. lia.
  - split; [| lia]. intros b x [<- _]%lookup_singleton_Some. lia.
Qed.
