(* ===== verification/BootBlock.v ===== *)
(** * One block entry, whatever its attributes

    [pg_map_range] on one aligned block of 2 MiB links the tables down to the
    block's entry and writes it.  The block entry is the only word that
    depends on the attributes, so the call is described here without any
    assumption on them: with the type bits of a page among them the entry
    becomes a table descriptor, and the walk goes on into the mapped memory. *)

From S2P Require Import Prelude PageTable PageTableMap BootSpace.

Definition BLOCK : Z := 2 ^ 21.

(** ** Loops of one turn *)

Lemma table_loop_last fuel shift block next attr m pnext entry entry_end start end_ va ve m1 p1 s1 v1 :
  table_step shift block next attr m pnext entry start end_ va ve = Done (m1, p1, s1, v1) ->
  entry_end < entry + PG_ENTRY_BYTES ->
  table_loop (S fuel) shift block next attr m pnext entry entry_end start end_ va ve = Done (m1, p1).
Proof.
  intros E He. cbn [table_loop]. rewrite E. cbn [obind]. by rewrite (proj2 (Z.leb_gt _ _)) by lia.
Qed.

Section Block.
Context (x : Z) (Hx : x mod BLOCK = 0) (Hr : 0 <= x /\ x + BLOCK <= 2 ^ 46).

Lemma block_slot n : (1 <= n <= 3)%nat -> (x + BLOCK - 1) / lsize n = x / lsize n.
Proof.
  intros Hn. apply div_slot. pose proof (proj1 (div_slot n x _) eq_refl) as Hs.
  pose proof (Z.div_mod x BLOCK ltac:(done)) as Hd. rewrite Hx in Hd.
  assert (Hm : exists c, lsize n = c * BLOCK).
  { exists (2 ^ (9 * (Z.of_nat n - 1))). unfold lsize, BLOCK. rewrite <- Z.pow_add_r by lia. f_equal. unfold lshift. lia. }
  destruct Hm as [c Hc]. rewrite Hc in *. unfold BLOCK in *. nia.
Qed.

Lemma block_lindex n : (1 <= n <= 3)%nat -> lindex n (x + BLOCK - 1) = lindex n x.
Proof. intros Hn. unfold lindex. by rewrite block_slot. Qed.

(** The entries the loop of a level starts and ends at. *)
Lemma block_entries n b : (1 <= n <= 3)%nat -> 0 <= b -> b + 4096 <= 2 ^ 48 ->
  table_entry (lshift n) b x = b + 8 * lindex n x
  /\ table_entry (lshift n) b (u64 (ALIGN_UP (u64 (x + u64 (x + BLOCK - x))) (lsize n) - 1)) = b + 8 * lindex n x.
Proof.
  intros Hn Hb Hb'. unfold BLOCK in *. replace (x + 2 ^ 21 - x) with (2 ^ 21) by lia.
  rewrite (u64_small (2 ^ 21)), (u64_small (x + _)) by lia.
  rewrite !table_entry_val, lindex_align_up by lia. split; [done |]. by rewrite block_lindex.
Qed.

Lemma block_pmd attr m pnext b : 0 <= b -> b + 4096 <= 2 ^ 48 ->
  pmd_map_range attr MAP_BLOCKS m pnext b x (x + BLOCK) x
  = Done (wr m (b + 8 * lindex 1 x) (Z.lor (Z.lor x attr) PG_DESC_TYPE_BLOCK), pnext).
Proof.
  intros Hb Hb'. destruct (block_entries 1 b ltac:(lia) Hb Hb') as [E1 E2].
  unfold pmd_map_range. change PMD_SHIFT with (lshift 1). change (2 ^ lshift 1) with (lsize 1) at 1.
  cbv zeta. rewrite E1, E2. change TABLE_FUEL with (S 512).
  assert (Ev : u64 (x + u64 (x + BLOCK - x)) = x + BLOCK).
  { unfold BLOCK in *. replace (x + 2 ^ 21 - x) with (2 ^ 21) by lia. by rewrite (u64_small (2 ^ 21)), u64_small by lia. }
  rewrite Ev. eapply table_loop_last; [| unfold PG_ENTRY_BYTES; lia].
  unfold table_step. cbv zeta. rewrite !land_low. change (lsize 1) with BLOCK. rewrite Hx. change (2 ^ lshift 1) with BLOCK.
  rewrite !u64_small by (unfold BLOCK in *; lia). rewrite (proj2 (Z.leb_le _ _)) by lia. reflexivity.
Qed.

(** A level above: the entry is linked and the level below called. *)
Lemma block_descend n blk next attr m p b m1 p1 m2 p2 :
  (1 <= n <= 2)%nat -> 0 <= b -> b + 4096 <= 2 ^ 48 ->
  table_link m p (b + 8 * lindex (S n) x) = Done (m1, p1) ->
  next m1 p1 (desc_addr 0 (rd m1 (b + 8 * lindex (S n) x))) x (x + BLOCK) x = Done (m2, p2) ->
  table_loop TABLE_FUEL (lshift (S n)) blk next attr m p (table_entry (lshift (S n)) b x)
    (table_entry (lshift (S n)) b (u64 (ALIGN_UP (u64 (x + u64 (x + BLOCK - x))) (lsize (S n)) - 1)))
    x (x + BLOCK) x (u64 (x + u64 (x + BLOCK - x))) = Done (m2, p2).
Proof.
  intros Hn Hb Hb' El En. destruct (block_entries (S n) b ltac:(lia) Hb Hb') as [E1 E2]. rewrite E1, E2.
  assert (Hbig : BLOCK * 512 <= lsize (S n) <= 2 ^ 39).
  { change (BLOCK * 512) with (2 ^ 30). split; apply Z.pow_le_mono_r; unfold lshift; lia. }
  assert (Ev : u64 (x + u64 (x + BLOCK - x)) = x + BLOCK).
  { unfold BLOCK in *. replace (x + 2 ^ 21 - x) with (2 ^ 21) by lia. by rewrite (u64_small (2 ^ 21)), u64_small by lia. }
  rewrite Ev. change TABLE_FUEL with (S 512). eapply table_loop_last; [| unfold PG_ENTRY_BYTES; lia].
  unfold table_step. cbv zeta. fold (lsize (S n)). rewrite (u64_small (x + lsize (S n))) by (unfold BLOCK in *; lia).
  rewrite (proj2 (Z.leb_gt (x + lsize (S n)) _)) by (unfold BLOCK in *; lia). rewrite !andb_false_r. cbn [andb].
  rewrite El. cbn [obind].
  replace (align_mask (x + lsize (S n)) (lsize (S n))) with (align_mask (u64 (x + lsize (S n))) (lsize (S n)))
    by (rewrite u64_small; [done | unfold BLOCK in *; lia]).
  rewrite to_slot_end by (unfold BLOCK in *; lia).
  pose proof (proj1 (div_slot (S n) (x + BLOCK - 1) _) (block_slot (S n) ltac:(lia))) as Hs.
  pose proof (proj1 (div_slot (S n) x _) eq_refl) as Hs0.
  rewrite (u64_small (x + ((x / lsize (S n) + 1) * lsize (S n) - x))) by (unfold BLOCK in *; lia).
  rewrite Z.min_r by lia. rewrite get_addr_desc, En. reflexivity.
Qed.

(** ** The whole call *)

Context (limit root half : Z) (plan : gset (nat * Z)).

Record block_path (T : tables) (m : mem) (pnext : Z) (T' : tables) (m' : mem) (pnext' b2 b1 : Z) : Prop := {
  bp_pool : pnext <= pnext' <= limit;
  bp_new : forall b y, T' !! b = Some y -> T !! b = Some y \/ pnext <= b /\ b + 4096 <= pnext';
  bp_mem : forall a, outside T' a -> rd m' a = rd m a;
  bp_page : forall b y, T' !! b = Some y -> b mod 4096 = 0;
  bp_pgd : Z.testbit (rd m' (root + 8 * lindex 3 x)) 0 = true /\ Z.testbit (rd m' (root + 8 * lindex 3 x)) 1 = true
    /\ desc_addr 0 (rd m' (root + 8 * lindex 3 x)) = b2;
  bp_pud : Z.testbit (rd m' (b2 + 8 * lindex 2 x)) 0 = true /\ Z.testbit (rd m' (b2 + 8 * lindex 2 x)) 1 = true
    /\ desc_addr 0 (rd m' (b2 + 8 * lindex 2 x)) = b1;
  bp_root : T' !! root = Some (3%nat, half);
  bp_b2 : T' !! b2 = Some (2%nat, half * 512 + lindex 3 x);
  bp_b1 : T' !! b1 = Some (1%nat, (half * 512 + lindex 3 x) * 512 + lindex 2 x);
}.

(** The entry of a level above that of the block. *)
Lemma block_link n T m pnext b p : (1 <= n <= 2)%nat -> pt_wf limit T m pnext -> T !! b = Some (S n, p) -> x / lsize (S (S n)) = p ->
  covered boot_blk false (S n) T m x (x + BLOCK) 0 -> budget limit plan T pnext -> planned boot_blk plan (S n) x (x + BLOCK) 0 ->
  exists T1 m1 pnext1, table_link m (Some pnext) (b + 8 * lindex (S n) x) = Done (m1, Some pnext1)
    /\ prep_ok limit n T m pnext b p (lindex (S n) x) T1 m1 pnext1 /\ budget limit plan T1 pnext1
    /\ covered boot_blk false n T1 m1 x (x + BLOCK) 0.
Proof.
  intros Hn Hwf Hb Hp Hcov Hbud Hplan. pose proof (lindex_range (S n) x) as Hi. pose proof (slot_split (S n) x) as Hq. rewrite Hp in Hq.
  pose proof (proj1 (div_slot (S n) x _) Hq) as Hs. assert (Hpos : 0 < BLOCK) by done.
  assert (Hbig : BLOCK * 512 <= lsize (S n)) by (change (BLOCK * 512) with (2 ^ 30); apply Z.pow_le_mono_r; unfold lshift; lia).
  assert (Hno : ~ block_at boot_blk (S n) (p * 512 + lindex (S n) x) x (x + BLOCK) 0) by (intros (_ & H1 & H2 & _); lia).
  assert (Ha : ~ slot_apart (S n) (p * 512 + lindex (S n) x) x (x + BLOCK)) by (unfold slot_apart; lia).
  destruct (table_link_spec limit 0 eq_refl boot_blk plan false n ltac:(lia)) with (T := T) (m := m) (pnext := pnext) (b := b) (p := p) (i := lindex (S n) x)
    as (T1 & m1 & p1 & E & Hprep & _ & Hbud1); try done.
  - destruct n as [|[|[|n]]]; try lia; done.
  - intros E0. pose proof (Hcov b n p _ Hb (le_n _) Hi Ha) as Hok. unfold entry_ok in Hok. rewrite E0 in Hok. by apply Hok.
  - intros _. split; [done |]. by apply Hplan; [lia | |].
  - exists T1, m1, p1. split; [exact E |]. split; [exact Hprep |]. split; [by apply Hbud1 |].
    eapply prep_covered; [exact Hwf | exact Hb | exact Hi | exact Hprep | done |].
    intros c k q i Hc Hk. apply Hcov; [done | lia].
Qed.

Lemma map_one_block T m pnext L :
  boot_space limit root half plan T m pnext L -> x / 2 ^ 48 = half ->
  planned boot_blk plan 3 x (x + BLOCK) 0 -> Forall (br_clear x (x + BLOCK)) L ->
  exists T' m' pnext' b2 b1, block_path T m pnext T' m' pnext' b2 b1
    /\ forall attr, pg_map_range m root (Some pnext) x (x + BLOCK) x attr MAP_BLOCKS
         = Done (wr m' (b1 + 8 * lindex 1 x) (Z.lor (Z.lor x attr) PG_DESC_TYPE_BLOCK), Some pnext').
Proof.
  intros [S1 S2 S3 S4 S5 S6 S7 S8] Hhalf Hplan Hclear. specialize (S5 x (x + BLOCK) 0 Hclear).
  destruct (block_link 2 T m pnext root half ltac:(lia) S1 S2 Hhalf S5 S7 Hplan) as (T1 & m1 & p1 & E1 & P1 & B1 & C1).
  pose proof (po_wf _ _ _ _ _ _ _ _ _ _ _ P1) as W1. pose proof (po_child _ _ _ _ _ _ _ _ _ _ _ P1) as Hc2.
  set (b2 := desc_addr 0 (rd m1 (root + 8 * lindex 3 x))) in *.
  assert (Hp2 : x / lsize 3 = half * 512 + lindex 3 x) by (rewrite (slot_split 3 x); change (lsize 4) with (2 ^ 48); by rewrite Hhalf).
  destruct (block_link 1 T1 m1 p1 b2 _ ltac:(lia) W1 Hc2 Hp2 C1 B1) as (T2 & m2 & p2 & E2 & P2 & B2 & _).
  { intros k q Hk. apply Hplan. lia. }
  pose proof (po_wf _ _ _ _ _ _ _ _ _ _ _ P2) as W2. pose proof (po_child _ _ _ _ _ _ _ _ _ _ _ P2) as Hc1.
  set (b1 := desc_addr 0 (rd m2 (b2 + 8 * lindex 2 x))) in *.
  assert (Hr2 : T2 !! root = Some (3%nat, half)) by (apply (po_sub _ _ _ _ _ _ _ _ _ _ _ P2), (po_sub _ _ _ _ _ _ _ _ _ _ _ P1), S2).
  assert (Hb2 : T2 !! b2 = Some (2%nat, half * 512 + lindex 3 x)) by (by apply (po_sub _ _ _ _ _ _ _ _ _ _ _ P2)).
  assert (Hk3 : rd m2 (root + 8 * lindex 3 x) = rd m1 (root + 8 * lindex 3 x)).
  { apply (po_entry _ _ _ _ _ _ _ _ _ _ _ P2). intros He.
    destruct (entry_inj _ _ _ _ _ _ _ _ _ _ W2 Hr2 Hb2 (lindex_range 3 x) (lindex_range 2 x) He) as [Heq _].
    rewrite <- Heq in Hb2. rewrite Hr2 in Hb2. discriminate Hb2. }
  exists T2, m2, p2, b2, b1. split.
  - pose proof (po_pnext _ _ _ _ _ _ _ _ _ _ _ P1). pose proof (po_pnext _ _ _ _ _ _ _ _ _ _ _ P2).
    pose proof (pw_pool _ _ _ _ W2). split; [lia | | | | | | exact Hr2 | exact Hb2 | exact Hc1].
    + intros b y Hb. destruct (po_new _ _ _ _ _ _ _ _ _ _ _ P2 b y Hb) as [Hb' | [Hb' _]]; [| right; lia].
      destruct (po_new _ _ _ _ _ _ _ _ _ _ _ P1 b y Hb') as [? | [? _]]; [by left | right; lia].
    + intros a Ha. assert (Ha1 : outside T1 a) by (eapply outside_sub; [| exact Ha]; apply (po_sub _ _ _ _ _ _ _ _ _ _ _ P2)).
      rewrite (po_mem _ _ _ _ _ _ _ _ _ _ _ P2 a Ha1). apply (po_mem _ _ _ _ _ _ _ _ _ _ _ P1).
      eapply outside_sub; [| exact Ha1]. apply (po_sub _ _ _ _ _ _ _ _ _ _ _ P1).
    + intros b [k q] Hb. by apply (pw_page _ _ _ _ W2) in Hb as [? _].
    + rewrite Hk3. destruct (po_bits _ _ _ _ _ _ _ _ _ _ _ P1). done.
    + destruct (po_bits _ _ _ _ _ _ _ _ _ _ _ P2). done.
  - intros attr. destruct (pw_page _ _ _ _ S1 _ _ _ S2) as (_ & R1 & R2 & _).
    destruct (pw_page _ _ _ _ W2 _ _ _ Hb2) as (_ & Q1 & Q2 & _). destruct (pw_page _ _ _ _ W2 _ _ _ Hc1) as (_ & O1 & O2 & _).
    assert (Hd : ALIGN_DOWN x PAGE_SIZE = x /\ ALIGN_UP (x + BLOCK) PAGE_SIZE = x + BLOCK).
    { assert (Hp : x mod 4096 = 0) by (apply (mod_lsize_le 0 1); [lia | exact Hx]). unfold BLOCK in *.
      split; [apply ALIGN_DOWN_id | apply ALIGN_UP_id]; [done | lia | | lia].
      rewrite Zplus_mod, Hp. reflexivity. }
    unfold pg_map_range. destruct Hd as [-> ->]. cbv zeta.
    apply (block_descend 2 false (pud_map_range attr MAP_BLOCKS) attr m (Some pnext) root m1 (Some p1)); [lia | lia | lia | exact E1 |].
    fold b2. apply (block_descend 1 true (pmd_map_range attr MAP_BLOCKS) attr m1 (Some p1) b2 m2 (Some p2)); [lia | lia | lia | exact E2 |].
    fold b1. by apply block_pmd.
Qed.
End Block.
