(* ===== verification/BootMap.v ===== *)
(** * Mapping the kernel: [src/src/mm/map_kernel.c], [mapping.c], [mmio.c]

    The first C code of the kernel.  It runs from the identity map, so a
    linker symbol is the physical address of the image where it was loaded
    and memory is the word memory of [PageTable].  It maps the segments of
    the image at [IMAGE_VADDR], relocates the image through that mapping,
    takes the write permission from the code and installs the result as the
    kernel's address space.

    A store to a virtual address goes through the architecture's table walk
    from the root that the half of the address selects, and needs a valid,
    accessed and writable entry.  The translation look-aside buffer is not
    modelled: every store sees the tables as they are in memory. *)

From S2P Require Import Prelude PageTable PageTableMap BootSpace Memblock Pte.

(** ** Attributes ([pgtable-prot.h], [pg_table.h]) *)

(** [PROT_NORMAL] with [arm64_use_ng_mappings] as [ng]. *)
Definition PROT_DEFAULT (ng : bool) : Z :=
  Z.lor (Z.lor (Z.lor PTE_TYPE_PAGE (if ng then PTE_NG else 0)) PTE_SHARED) PTE_AF.
Definition PROT_NORMAL (ng : bool) : Z :=
  Z.lor (Z.lor (Z.lor (Z.lor (PROT_DEFAULT ng) PTE_PXN) PTE_UXN) PTE_WRITE) (PTE_ATTRINDX MT_NORMAL).
Definition _PAGE_KERNEL (ng : bool) : Z := PROT_NORMAL ng.
Definition _PAGE_KERNEL_ROX (ng : bool) : Z :=
  Z.lor (Z.ldiff (PROT_NORMAL ng) (Z.lor PTE_WRITE PTE_PXN)) PTE_RDONLY.

Definition NORMAL_ATTR_CACHEABLE_IDX : Z := 0.
Definition DEVICE_ATTR_nGnRnE_IDX : Z := 3.
Definition PG_DESC_PAGE_XN_UXN_NX : Z := Z.shiftl 1 54.
Definition PG_DESC_PAGE_PXN_NX : Z := Z.shiftl 1 53.
Definition PG_DESC_PAGE_AF_BIT : Z := Z.shiftl 1 10.
Definition PG_DESC_PAGE_SH_INNERSHAREABLE : Z := Z.shiftl 3 8.
Definition PG_DESC_PAGE_AP_RO1_0 : Z := Z.shiftl 2 6.

(** The part the four constants share: never executable by user code,
    accessed, inner shareable. *)
Definition page_entry (idx : Z) : Z :=
  Z.lor (Z.lor (Z.lor PG_DESC_PAGE_XN_UXN_NX PG_DESC_PAGE_AF_BIT) PG_DESC_PAGE_SH_INNERSHAREABLE)
        (Z.shiftl idx 2).
Definition PG_PAGE_ENTRY_NORMAL_CACHEABLE_RX : Z :=
  Z.lor (page_entry NORMAL_ATTR_CACHEABLE_IDX) PG_DESC_PAGE_AP_RO1_0.
Definition PG_PAGE_ENTRY_NORMAL_CACHEABLE_RW : Z :=
  Z.lor (page_entry NORMAL_ATTR_CACHEABLE_IDX) PG_DESC_PAGE_PXN_NX.
Definition PG_PAGE_ENTRY_NORMAL_CACHEABLE_RWX : Z := page_entry NORMAL_ATTR_CACHEABLE_IDX.
Definition PG_PAGE_ENTRY_DEVICE_RW : Z :=
  Z.lor (page_entry DEVICE_ATTR_nGnRnE_IDX) PG_DESC_PAGE_PXN_NX.

(** What the architecture lets the kernel do with a translated address. *)
Definition writable (attr : Z) : bool := Z.testbit attr 10 && negb (Z.testbit attr 7).
Definition executable (attr : Z) : bool := Z.testbit attr 10 && negb (Z.testbit attr 53).

(** ** The image *)

(** The linker symbols the code uses and its static buffers, as physical
    addresses. *)
Record image := Image {
  _stext : Z; _etext : Z;
  __start_rodata : Z; __init_begin : Z;
  __inittext_begin : Z; __inittext_end : Z;
  __initdata_begin : Z; __initdata_end : Z;
  _data : Z; kimage_end : Z;
  __bss_start : Z; __pi_init_pg_dir : Z; __pi_init_pg_end : Z;
  swapper_pg_dir : Z; __pi_init_idmap_pg_dir : Z; __pi_init_idmap_pg_end : Z;
  __pi_rela_start : Z; __pi_rela_end : Z;
  fdt_ptes : Z; g_ptep : Z; mmio_ptep : Z;
  use_ng : bool;
}.

Definition IMAGE_VADDR : Z := 2 ^ 64 - 2 ^ 47.
Definition MAX_FDT_SIZE : Z := 2 ^ 21.
Definition MMIO_BASE : Z := 0x08000000.
Definition MMIO_SIZE : Z := RAM_BASE - MMIO_BASE.

(** Memory and the root of the kernel's half of the address space. *)
Record boot_st := BootSt { bt_mem : mem; bt_ttbr1 : Z }.

Section Boot.
Context (im : image).

Definition map_segment (m : mem) (pgd : Z) (pg_dir : pool) (va_offset start end_ prot : Z)
    : outcome (mem * pool) :=
  pg_map_range m pgd pg_dir start end_ (u64 (start + va_offset)) prot
    (Z.lor FLAGS_MAP_PUD_BLOCK FLAGS_MAP_PMD_BLOCK).

Definition unmap_segment (m : mem) (pg_dir va_offset start end_ : Z) : outcome (mem * pool) :=
  map_segment m pg_dir None va_offset start end_ 0.

Definition map_fdt (m : mem) (fdt : Z) : outcome mem :=
  let efdt := u64 (fdt + MAX_FDT_SIZE) in
  let! (m, _) :=
    pg_map_range m (__pi_init_idmap_pg_dir im) (Some (fdt_ptes im)) fdt
      (if fdt <? _stext im then Z.min (_stext im) efdt else efdt)
      fdt (_PAGE_KERNEL (use_ng im)) (Z.lor FLAGS_MAP_PUD_BLOCK FLAGS_MAP_PMD_BLOCK) in
  Done m.

(** ** Stores through the tables *)

Definition translate (s : boot_st) (va : Z) : option (Z * Z) :=
  if va / 2 ^ 48 =? 0xffff then walk 3 (bt_mem s) (bt_ttbr1 s) va
  else if va / 2 ^ 48 =? 0 then walk 3 (bt_mem s) (__pi_init_idmap_pg_dir im) va
  else None.

(** A store of the word [x] to [va]; the model has whole words only. *)
Definition store64 (s : boot_st) (va x : Z) : outcome boot_st :=
  match translate s va with
  | Some (pa, attr) =>
      if writable attr && (pa mod 8 =? 0) then Done (BootSt (wr (bt_mem s) pa x) (bt_ttbr1 s)) else Bug
  | None => Bug
  end.

Definition ELF64_R_TYPE (info : Z) : Z := Z.land info 0xffffffff.
Definition R_AARCH64_RELATIVE : Z := 1027.
Definition RELA_SIZE : Z := 24.

(** The loop over the relocation entries: [r_offset], [r_info], [r_addend]. *)
Fixpoint rela_loop (fuel : nat) (s : boot_st) (rela : Z) : outcome boot_st :=
  match fuel with
  | O => Fuel
  | S fuel' =>
      if rela <? __pi_rela_end im then
        if negb (ELF64_R_TYPE (rd (bt_mem s) (rela + 8)) =? R_AARCH64_RELATIVE)
        then rela_loop fuel' s (rela + RELA_SIZE)
        else
          let! s := store64 s (rd (bt_mem s) rela) (rd (bt_mem s) (rela + 16)) in
          rela_loop fuel' s (rela + RELA_SIZE)
      else Done s
  end.

(** One step per entry and one to leave. *)
Definition RELA_FUEL : nat := Z.to_nat ((__pi_rela_end im - __pi_rela_start im) / RELA_SIZE + 2).

Definition relocate_kernel (s : boot_st) : outcome boot_st :=
  rela_loop RELA_FUEL s (__pi_rela_start im).

(** [memcpy] of [n] words from a physical to a virtual address. *)
Fixpoint copy_words (n : nat) (s : boot_st) (dst src : Z) : outcome boot_st :=
  match n with
  | O => Done s
  | S n' =>
      let! s := store64 s dst (rd (bt_mem s) src) in
      copy_words n' s (dst + 8) (src + 8)
  end.

(** [memset(start, 0, end - start)] of whole words. *)
Definition clear_words (m : mem) (start end_ : Z) : mem :=
  filter (fun '(a, _) => ~ (start <= a < end_)) m.

Definition idmap_cpu_replace_ttbr1 (s : boot_st) (pgd : Z) : boot_st := BootSt (bt_mem s) pgd.

(** ** The sequence *)

(** The five calls that map the segments. *)
Definition map_segments (m : mem) (va_offset : Z) : outcome (mem * pool) :=
  let pgd := __pi_init_pg_dir im in
  let data_prot := _PAGE_KERNEL (use_ng im) in
  let prot := data_prot in
  let pgdp := Some (u64 (pgd + PAGE_SIZE)) in
  let! (m, pgdp) := map_segment m pgd pgdp va_offset (_stext im) (_etext im) prot in
  let! (m, pgdp) := map_segment m pgd pgdp va_offset (__start_rodata im) (__init_begin im) data_prot in
  let! (m, pgdp) := map_segment m pgd pgdp va_offset (__inittext_begin im) (__inittext_end im) prot in
  let! (m, pgdp) := map_segment m pgd pgdp va_offset (__initdata_begin im) (__initdata_end im) data_prot in
  map_segment m pgd pgdp va_offset (_data im) (kimage_end im) data_prot.

(** From [unmap_segment] to the second [map_segment] of the code. *)
Definition protect_text (m : mem) (va_offset : Z) : outcome mem :=
  let pgd := __pi_init_pg_dir im in
  let text_prot := _PAGE_KERNEL_ROX (use_ng im) in
  let! (m, _) := unmap_segment m pgd va_offset (_stext im) (_etext im) in
  let! (m, _) := map_segment m pgd None va_offset (_stext im) (_etext im) text_prot in
  let! (m, _) := map_segment m pgd None va_offset (__inittext_begin im) (__inittext_end im) text_prot in
  Done m.

Definition map_kernel (s : boot_st) (va_offset : Z) : outcome boot_st :=
  let! (m, _) := map_segments (bt_mem s) va_offset in
  let s := idmap_cpu_replace_ttbr1 (BootSt m (bt_ttbr1 s)) (__pi_init_pg_dir im) in
  let! s := relocate_kernel s in
  let! m := protect_text (bt_mem s) va_offset in
  let! s := copy_words 512 (BootSt m (bt_ttbr1 s)) (u64 (swapper_pg_dir im + va_offset))
              (__pi_init_pg_dir im) in
  Done (idmap_cpu_replace_ttbr1 s (swapper_pg_dir im)).

Definition early_map_kernel (s : boot_st) (fdt : Z) : outcome boot_st :=
  let! m := map_fdt (bt_mem s) fdt in
  let m := clear_words m (__bss_start im) (__pi_init_pg_end im) in
  map_kernel (BootSt m (bt_ttbr1 s)) (u64 (IMAGE_VADDR - _stext im)).

(** Before the memory management unit is on: the identity map. *)
Definition mmu_init_idmap_table (m : mem) (pgd : Z) : outcome (mem * pool) :=
  let pnext := Some (u64 (pgd + PAGE_SIZE)) in
  let! (m, pnext) :=
    pg_map_range m pgd pnext (_stext im) (__initdata_begin im) (_stext im)
      PG_PAGE_ENTRY_NORMAL_CACHEABLE_RX (Z.lor FLAGS_MAP_PUD_BLOCK FLAGS_MAP_PMD_BLOCK) in
  pg_map_range m pgd pnext (__initdata_begin im) (kimage_end im) (__initdata_begin im)
    PG_PAGE_ENTRY_NORMAL_CACHEABLE_RWX (Z.lor FLAGS_MAP_PUD_BLOCK FLAGS_MAP_PMD_BLOCK).

(** From the kernel's own address space: the symbols are those of the same
    words, seen through it; [g_pnext] is their physical address. *)
Definition linear_mapping_init (m : mem) : outcome mem :=
  let! (m, _) :=
    pg_map_range m (swapper_pg_dir im) (Some (g_ptep im)) RAM_BASE (RAM_BASE + RAM_SIZE)
      (phys_to_virt RAM_BASE) PG_PAGE_ENTRY_NORMAL_CACHEABLE_RW
      (Z.lor FLAGS_MAP_PUD_BLOCK FLAGS_MAP_PMD_BLOCK) in
  Done m.

Definition map_mmio (m : mem) : outcome mem :=
  let! (m, _) :=
    pg_map_range m (__pi_init_idmap_pg_dir im) (Some (mmio_ptep im)) MMIO_BASE
      (MMIO_BASE + MMIO_SIZE) MMIO_BASE PG_PAGE_ENTRY_DEVICE_RW
      (Z.lor FLAGS_MAP_PUD_BLOCK FLAGS_MAP_PMD_BLOCK) in
  Done m.
End Boot.
