(* ===== verification/BootMapSpec.v ===== *)
(** * The kernel's address space after [early_map_kernel]

    The image is mapped segment by segment at [IMAGE_VADDR]; the relocations
    are applied through that mapping; code ends up readable and executable,
    everything else readable and writable; nothing else is mapped; and the
    pool the linker reserves for the tables is large enough. *)

From S2P Require Import Prelude PageTable PageTableMap BootSpace Memblock Pte BootMap.

(** ** Shared lemmas *)

Lemma page_shift_div k x : Z.shiftr x (lshift k) = x / lsize k.
Proof. rewrite Z.shiftr_div_pow2; [done | unfold lshift; lia]. Qed.

Lemma walk_root_copy m b b' v :
  (forall i, 0 <= i < 512 -> rd m (b' + 8 * i) = rd m (b + 8 * i)) -> walk 3 m b' v = walk 3 m b v.
Proof. intros H. cbn [walk]. by rewrite H by apply lindex_range. Qed.

Lemma page_kernel_wf ng : attr_wf (_PAGE_KERNEL ng) /\ attr_wf (_PAGE_KERNEL_ROX ng).
Proof. by destruct ng. Qed.

(** ** The layout of the image *)

Section Spec.
Context (im : image).

(** The kernel's address of a symbol, and the distance back. *)
Definition seg_va (x : Z) : Z := IMAGE_VADDR + (x - _stext im).
Definition kimage_off : Z := _stext im - IMAGE_VADDR.
Definition seg_region (lo hi attr : Z) : boot_region :=
  BootRegion (seg_va lo) (seg_va hi) kimage_off attr.

(** No 2 MiB block of the address space is inside the segment. *)
Definition no_block (lo hi : Z) : Prop := no_chunk (seg_va lo) (seg_va hi).

(** The pages the linker script reserves for the tables: [INIT_DIR_SIZE]. *)
Definition span_nr (shift : Z) : Z :=
  Z.shiftr (seg_va (kimage_end im)) shift - Z.shiftr IMAGE_VADDR shift + 1.
Definition INIT_DIR_PAGES : Z :=
  1 + (span_nr 48 + 1) + (span_nr 39 + 1) + (span_nr 30 + 1) + 6.

(** The layout of the linker script ([io_order] to [io_rela]), and one
    condition it does not ensure ([io_small]): no segment is so large that it
    spans an aligned block.  A block entry would get the type bits of a page
    with the attributes of the segments and not map it. *)
Record image_ok : Prop := {
  io_order : 0 <= _stext im /\ _stext im < _etext im /\ _etext im <= __start_rodata im
    /\ __start_rodata im < __init_begin im /\ __init_begin im <= __inittext_begin im
    /\ __inittext_begin im < __inittext_end im /\ __inittext_end im <= __initdata_begin im
    /\ __initdata_begin im < __initdata_end im /\ __initdata_end im <= _data im
    /\ _data im < kimage_end im /\ kimage_end im <= 2 ^ 46;
  io_pages : Forall (fun x => x mod 4096 = 0)
    [_stext im; _etext im; __start_rodata im; __init_begin im; __inittext_begin im;
     __inittext_end im; __initdata_begin im; __initdata_end im; _data im; kimage_end im;
     swapper_pg_dir im; __pi_init_pg_dir im; __pi_init_pg_end im];
  io_bss : _data im <= __bss_start im /\ __bss_start im <= __pi_init_pg_dir im
    /\ __pi_init_pg_end im <= kimage_end im;
  io_pool : __pi_init_pg_dir im + 4096 * INIT_DIR_PAGES <= __pi_init_pg_end im;
  io_swapper : __start_rodata im <= swapper_pg_dir im /\ swapper_pg_dir im + 4096 <= __init_begin im;
  io_rela : __initdata_begin im <= __pi_rela_start im /\ __pi_rela_start im <= __pi_rela_end im
    /\ __pi_rela_end im <= __initdata_end im
    /\ (__pi_rela_end im - __pi_rela_start im) mod RELA_SIZE = 0;
  io_small : no_block (_stext im) (_etext im) /\ no_block (__start_rodata im) (__init_begin im)
    /\ no_block (__inittext_begin im) (__inittext_end im)
    /\ no_block (__initdata_begin im) (__initdata_end im) /\ no_block (_data im) (kimage_end im);
}.

Context (Hok : image_ok).

Let limit := __pi_init_pg_end im.
Let dir := __pi_init_pg_dir im.
Let voff := u64 (IMAGE_VADDR - _stext im).

(** A page table for each end of each segment. *)
Definition kernel_slots : list Z :=
  edges (seg_va (_stext im)) (seg_va (_etext im))
  ++ edges (seg_va (__start_rodata im)) (seg_va (__init_begin im))
  ++ edges (seg_va (__inittext_begin im)) (seg_va (__inittext_end im))
  ++ edges (seg_va (__initdata_begin im)) (seg_va (__initdata_end im))
  ++ edges (seg_va (_data im)) (seg_va (kimage_end im)).

Definition kernel_plan : gset (nat * Z) :=
  root_plan 0xffff IMAGE_VADDR (seg_va (kimage_end im)) kernel_slots.

Abbreviation kspace := (area_space limit dir 0xffff kernel_plan dir).

(** ** One segment *)

(** A segment of the image. *)
Record segment (lo hi : Z) : Prop := {
  sg_in : _stext im <= lo /\ lo < hi /\ hi <= kimage_end im;
  sg_lo : lo mod 4096 = 0;
  sg_hi : hi mod 4096 = 0;
  sg_block : no_block lo hi;
  sg_plan : edges (seg_va lo) (seg_va hi) ⊆ kernel_slots;
}.

Lemma seg_bounds lo hi : segment lo hi ->
  IMAGE_VADDR <= seg_va lo /\ seg_va lo < seg_va hi /\ seg_va hi <= IMAGE_VADDR + 2 ^ 46
  /\ seg_va hi <= seg_va (kimage_end im) /\ 0 <= lo < hi /\ hi <= 2 ^ 46
  /\ lo mod 4096 = 0 /\ hi mod 4096 = 0.
Proof.
  intros [S1 S2 S3 _ _]. pose proof (io_order Hok). unfold seg_va. lia.
Qed.

Lemma seg_va_mod x : x mod 4096 = 0 -> seg_va x mod 4096 = 0.
Proof.
  intros Hx. pose proof (io_pages Hok) as Hp. apply Forall_cons in Hp as [Hs _].
  unfold seg_va. rewrite Zplus_mod, Zminus_mod, Hx, Hs. reflexivity.
Qed.

(** The address [map_segment] computes. *)
Lemma seg_call_va lo hi : segment lo hi -> u64 (lo + voff) = seg_va lo.
Proof.
  intros Hs. pose proof (seg_bounds _ _ Hs). unfold voff. rewrite u64_add_r.
  unfold seg_va, IMAGE_VADDR in *. rewrite u64_small; lia.
Qed.

Lemma seg_map_lo lo hi : segment lo hi -> map_lo (seg_va lo) = seg_va lo.
Proof.
  intros Hs. pose proof (seg_bounds _ _ Hs). unfold map_lo, IMAGE_VADDR in *.
  apply ALIGN_DOWN_id; [apply seg_va_mod, (sg_lo _ _ Hs) | lia].
Qed.

Lemma seg_map_hi lo hi : segment lo hi -> map_hi (seg_va lo) lo hi = seg_va hi.
Proof.
  intros Hs. pose proof (seg_bounds _ _ Hs). unfold map_hi. rewrite (seg_map_lo lo hi Hs).
  rewrite ALIGN_UP_id, ALIGN_DOWN_id by lia. unfold seg_va. lia.
Qed.

Lemma seg_off lo hi : segment lo hi -> ALIGN_DOWN lo PAGE_SIZE - seg_va lo = kimage_off.
Proof.
  intros Hs. pose proof (seg_bounds _ _ Hs). rewrite ALIGN_DOWN_id by lia.
  unfold seg_va, kimage_off. lia.
Qed.

Lemma seg_call_region lo hi attr :
  segment lo hi -> call_region lo hi (seg_va lo) attr = seg_region lo hi attr.
Proof.
  intros Hs. unfold call_region, seg_region.
  by rewrite (seg_map_hi lo hi Hs), (seg_map_lo lo hi Hs), (seg_off lo hi Hs).
Qed.

(** No block entry is ever written. *)
Lemma seg_planned lo hi :
  segment lo hi -> planned boot_blk kernel_plan 3 (seg_va lo) (seg_va hi) kimage_off.
Proof.
  intros Hs. pose proof (seg_bounds _ _ Hs). apply root_plan_planned; try lia.
  intros q Ha _. apply (sg_plan _ _ Hs), edge_slot; [lia | done | apply (sg_block _ _ Hs)].
Qed.

Lemma seg_args lo hi attr :
  segment lo hi -> attr_wf attr -> call_args 0xffff kernel_plan lo hi (seg_va lo) attr.
Proof.
  intros Hs Ha. pose proof (seg_bounds _ _ Hs) as HB.
  assert (Hhalf : forall v, seg_va lo <= v < seg_va hi -> v / lsize 4 = 0xffff).
  { intros v Hv. apply div_slot. change (lsize 4) with (2 ^ 48). unfold IMAGE_VADDR in *. lia. }
  split; rewrite ?(seg_map_hi lo hi Hs), ?(seg_map_lo lo hi Hs), ?(seg_off lo hi Hs).
  - done.
  - rewrite ALIGN_DOWN_id by lia.
    pose proof (seg_va_mod _ (sg_lo _ _ Hs)). pose proof (seg_va_mod _ (sg_hi _ _ Hs)).
    unfold IMAGE_VADDR in HB. split; try done; try lia.
    + apply Hhalf. lia.
    + apply Hhalf. lia.
  - intros k q Hat. by apply (no_chunk_block _ _ _ _ _ (sg_block _ _ Hs)) in Hat.
  - by apply seg_planned.
Qed.

(** Regions of segments. *)
Definition seg_clear (lo hi : Z) (r : boot_region) : Prop := br_clear (seg_va lo) (seg_va hi) r.

Lemma map_segment_ok m pnext L lo hi attr :
  kspace m pnext L -> segment lo hi -> attr_wf attr -> Forall (seg_clear lo hi) L ->
  exists m' pnext', map_segment m dir (Some pnext) voff lo hi attr = Done (m', Some pnext')
    /\ kspace m' pnext' (seg_region lo hi attr :: L) /\ same_outside limit dir m m'.
Proof.
  intros HS Hs Ha HL. unfold map_segment. rewrite (seg_call_va lo hi Hs).
  destruct (area_map limit dir 0xffff kernel_plan dir m pnext L lo hi (seg_va lo) attr)
    as (m' & pnext' & E & _ & HS' & Hsame); [done | by apply seg_args | |].
  - by rewrite (seg_map_hi lo hi Hs), (seg_map_lo lo hi Hs).
  - rewrite (seg_call_region lo hi attr Hs) in HS'. exists m', pnext'. done.
Qed.

Lemma remap_segment_ok m pnext L lo hi attr0 attr :
  kspace m pnext (seg_region lo hi attr0 :: L) -> segment lo hi -> attr_wf attr ->
  exists m', map_segment m dir None voff lo hi attr = Done (m', None)
    /\ kspace m' pnext (seg_region lo hi attr :: L) /\ same_outside limit dir m m'.
Proof.
  intros HS Hs Ha. unfold map_segment. rewrite (seg_call_va lo hi Hs).
  destruct (area_remap limit dir 0xffff kernel_plan dir m pnext (seg_region lo hi attr0) L
              lo hi (seg_va lo) attr) as (m' & E & HS' & Hsame); [done | by apply seg_args | ..].
  - by rewrite (seg_map_lo lo hi Hs).
  - by rewrite (seg_map_hi lo hi Hs).
  - by rewrite (seg_map_lo lo hi Hs), (seg_off lo hi Hs).
  - rewrite (seg_call_region lo hi attr Hs) in HS'. exists m'. done.
Qed.

(** ** The five segments *)

Lemma segments :
  segment (_stext im) (_etext im) /\ segment (__start_rodata im) (__init_begin im)
  /\ segment (__inittext_begin im) (__inittext_end im)
  /\ segment (__initdata_begin im) (__initdata_end im) /\ segment (_data im) (kimage_end im).
Proof.
  pose proof (io_order Hok). destruct (io_small Hok) as (N1 & N2 & N3 & N4 & N5).
  pose proof (io_pages Hok) as Hp. rewrite !Forall_cons in Hp.
  destruct Hp as (? & ? & ? & ? & ? & ? & ? & ? & ? & ? & _).
  split_and!; split; try done; try lia; intros q Hq; unfold kernel_slots; rewrite !elem_of_app; tauto.
Qed.

(** The image as it is mapped, with the attributes of code and of the rest. *)
Definition kernel_regions (text inittext rest : Z) : list boot_region :=
  [seg_region (_data im) (kimage_end im) rest;
   seg_region (__initdata_begin im) (__initdata_end im) rest;
   seg_region (__inittext_begin im) (__inittext_end im) inittext;
   seg_region (__start_rodata im) (__init_begin im) rest;
   seg_region (_stext im) (_etext im) text].

(** [INIT_DIR_SIZE] is enough. *)
Lemma pool_enough :
  1 + root_need IMAGE_VADDR (seg_va (kimage_end im)) kernel_slots <= INIT_DIR_PAGES.
Proof.
  assert (Hs : forall k, span k IMAGE_VADDR (seg_va (kimage_end im)) <= span_nr (lshift k)).
  { intros k. unfold span, span_nr. rewrite !page_shift_div.
    pose proof (Z.div_le_mono (seg_va (kimage_end im) - 1) (seg_va (kimage_end im)) (lsize k)
      (lsize_pos k) ltac:(lia)). lia. }
  pose proof (Hs 2%nat). pose proof (Hs 3%nat). pose proof (io_order Hok).
  assert (1 <= span_nr 48).
  { unfold span_nr. rewrite !Z.shiftr_div_pow2 by lia.
    pose proof (Z.div_le_mono IMAGE_VADDR (seg_va (kimage_end im)) (2 ^ 48) ltac:(lia)
      ltac:(unfold seg_va; lia)). lia. }
  unfold INIT_DIR_PAGES, root_need. change (length kernel_slots) with 10%nat.
  change (lshift 2) with 30 in *. change (lshift 3) with 39 in *. lia.
Qed.

Lemma dir_below_end : dir + 4096 <= limit.
Proof.
  pose proof (io_pool Hok). pose proof pool_enough. pose proof (io_order Hok).
  assert (Hlt : IMAGE_VADDR < seg_va (kimage_end im)) by (unfold seg_va; lia).
  pose proof (level_slots_length 1 _ _ Hlt). pose proof (level_slots_length 2 _ _ Hlt).
  unfold root_need in *. unfold dir, limit. lia.
Qed.

Lemma kspace_empty m :
  (forall a, dir <= a < limit -> rd m a = 0) -> kspace m (dir + 4096) [].
Proof.
  intros Hz. pose proof (io_order Hok) as HO. pose proof (io_bss Hok) as HB.
  pose proof (io_pages Hok) as HP. rewrite !Forall_cons in HP.
  pose proof (io_pool Hok). pose proof pool_enough.
  apply area_empty; try done; unfold dir, limit, seg_va in *; [by apply HP | lia ..].
Qed.

Lemma same_outside_trans m1 m2 m3 :
  same_outside limit dir m1 m2 -> same_outside limit dir m2 m3 -> same_outside limit dir m1 m3.
Proof. intros H1 H2 a Ha. by rewrite H2, H1. Qed.

Ltac seg_apart := repeat constructor; unfold seg_clear, br_clear; simpl; unfold seg_va; lia.

Lemma kernel_segments_ok m :
  (forall a, dir <= a < limit -> rd m a = 0) ->
  exists m' pnext', map_segments im m voff = Done (m', Some pnext')
    /\ kspace m' pnext' (kernel_regions (_PAGE_KERNEL (use_ng im)) (_PAGE_KERNEL (use_ng im))
                           (_PAGE_KERNEL (use_ng im)))
    /\ same_outside limit dir m m'.
Proof.
  intros Hz. destruct segments as (G1 & G2 & G3 & G4 & G5).
  destruct (page_kernel_wf (use_ng im)) as [Ha _]. pose proof (io_order Hok) as HO.
  pose proof (io_bss Hok). pose proof (io_pool Hok). pose proof (kspace_empty m Hz) as HS.
  unfold map_segments. rewrite u64_small.
  2: { unfold PAGE_SIZE. pose proof dir_below_end. unfold dir, limit in *. lia. }
  fold dir. change PAGE_SIZE with 4096.
  destruct (map_segment_ok m (dir + 4096) [] _ _ _ HS G1 Ha) as (m1 & p1 & -> & H1 & O1); [done |].
  cbn [obind].
  destruct (map_segment_ok m1 p1 _ _ _ _ H1 G2 Ha) as (m2 & p2 & -> & H2 & O2).
  { seg_apart. }
  cbn [obind].
  destruct (map_segment_ok m2 p2 _ _ _ _ H2 G3 Ha) as (m3 & p3 & -> & H3 & O3).
  { seg_apart. }
  cbn [obind].
  destruct (map_segment_ok m3 p3 _ _ _ _ H3 G4 Ha) as (m4 & p4 & -> & H4 & O4).
  { seg_apart. }
  cbn [obind].
  destruct (map_segment_ok m4 p4 _ _ _ _ H4 G5 Ha) as (m5 & p5 & -> & H5 & O5).
  { seg_apart. }
  exists m5, p5. split; [done |]. split; [exact H5 |].
  eauto using same_outside_trans.
Qed.

(** ** Permissions *)

Lemma protect_text_ok m pnext prot :
  kspace m pnext (kernel_regions prot prot prot) ->
  exists m', protect_text im m voff = Done m'
    /\ kspace m' pnext (kernel_regions (_PAGE_KERNEL_ROX (use_ng im)) (_PAGE_KERNEL_ROX (use_ng im)) prot)
    /\ same_outside limit dir m m'.
Proof.
  intros HS. destruct segments as (G1 & _ & G3 & _ & _).
  destruct (page_kernel_wf (use_ng im)) as [_ Ha].
  unfold protect_text, unmap_segment. fold dir.
  set (D := seg_region (_data im) (kimage_end im) prot) in *.
  set (I := seg_region (__initdata_begin im) (__initdata_end im) prot) in *.
  set (R := seg_region (__start_rodata im) (__init_begin im) prot) in *.
  assert (HP : forall t it, kernel_regions t it prot
            ≡ₚ seg_region (_stext im) (_etext im) t
               :: [D; I; seg_region (__inittext_begin im) (__inittext_end im) it; R]).
  { intros t it. unfold kernel_regions. fold D I R. apply (Permutation_app_comm [_; _; _; _] [_]). }
  assert (HQ : forall t it, kernel_regions t it prot
            ≡ₚ seg_region (__inittext_begin im) (__inittext_end im) it
               :: [R; seg_region (_stext im) (_etext im) t; D; I]).
  { intros t it. unfold kernel_regions. fold D I R. apply (Permutation_app_comm [_; _] [_; _; _]). }
  destruct (remap_segment_ok m pnext _ _ _ _ 0 (area_space_perm _ _ _ _ _ _ _ _ _ (HP _ _) HS) G1)
    as (m1 & -> & H1 & O1); [done |]. cbn [obind].
  destruct (remap_segment_ok m1 pnext _ _ _ _ _ H1 G1 Ha) as (m2 & -> & H2 & O2). cbn [obind].
  apply (area_space_perm _ _ _ _ _ _ _ _ _ (symmetry (HP _ _))) in H2.
  destruct (remap_segment_ok m2 pnext _ _ _ _ _ (area_space_perm _ _ _ _ _ _ _ _ _ (HQ _ _) H2) G3 Ha)
    as (m3 & -> & H3 & O3). cbn [obind].
  exists m3. split; [done |]. split; [| eauto using same_outside_trans].
  eapply area_space_perm; [symmetry; apply HQ | exact H3].
Qed.

(** ** Stores into the image *)

(** A word of the image that is no word of the tables. *)
Record image_word (pa : Z) : Prop := {
  iw_seg : _stext im <= pa < _etext im \/ __start_rodata im <= pa < __init_begin im
    \/ __inittext_begin im <= pa < __inittext_end im
    \/ __initdata_begin im <= pa < __initdata_end im \/ _data im <= pa < kimage_end im;
  iw_align : pa mod 8 = 0;
  iw_tables : ~ (dir <= pa < limit);
}.

Lemma kernel_regions_walk pa text inittext rest :
  image_word pa ->
  br_walk (kernel_regions text inittext rest) (seg_va pa)
  = Some (pa, desc_attr (if decide (_stext im <= pa < _etext im) then text
                         else if decide (__inittext_begin im <= pa < __inittext_end im)
                              then inittext else rest)).
Proof.
  intros [Hs _ _]. pose proof (io_order Hok).
  unfold kernel_regions, br_walk, br_in, seg_region; simpl. unfold seg_va, kimage_off.
  repeat case_decide; try lia; do 2 f_equal; lia.
Qed.

Lemma store_image m pnext text inittext rest pa x :
  kspace m pnext (kernel_regions text inittext rest) -> image_word pa ->
  writable (desc_attr (if decide (_stext im <= pa < _etext im) then text
                       else if decide (__inittext_begin im <= pa < __inittext_end im)
                            then inittext else rest)) = true ->
  store64 im (BootSt m dir) (seg_va pa) x = Done (BootSt (wr m pa x) dir)
  /\ kspace (wr m pa x) pnext (kernel_regions text inittext rest).
Proof.
  intros HS Hpa Hw. pose proof (io_order Hok) as HO.
  assert (Hhalf : seg_va pa / 2 ^ 48 = 0xffff).
  { symmetry. apply (Z.div_unique_pos _ _ _ (seg_va pa - 0xffff * 2 ^ 48)); [| lia].
    destruct Hpa as [Hs _ _]. unfold seg_va, IMAGE_VADDR in *. lia. }
  split.
  - unfold store64, translate. cbn [bt_mem bt_ttbr1]. rewrite Hhalf, Z.eqb_refl.
    rewrite (area_space_walk _ _ _ _ _ _ _ _ _ HS Hhalf), kernel_regions_walk by done.
    rewrite Hw, (iw_align _ Hpa). done.
  - eapply area_space_agree; [| exact HS]. intros a Ha. apply rd_wr_ne.
    intros ->. by apply (iw_tables _ Hpa).
Qed.

(** ** Relocations *)

(** The entries of the table that the code applies. *)
Fixpoint rela_entries (n : nat) (m : mem) (rela : Z) : list (Z * Z) :=
  match n with
  | O => []
  | S n' =>
      (if ELF64_R_TYPE (rd m (rela + 8)) =? R_AARCH64_RELATIVE
       then [(rd m rela, rd m (rela + 16))] else []) ++ rela_entries n' m (rela + RELA_SIZE)
  end.

Definition NR_RELA : nat := Z.to_nat ((__pi_rela_end im - __pi_rela_start im) / RELA_SIZE).
Definition kernel_relocs (m : mem) : list (Z * Z) := rela_entries NR_RELA m (__pi_rela_start im).

(** Their effect: each word of the image at its place gets its address. *)
Definition relocated (l : list (Z * Z)) (m : mem) : mem :=
  foldl (fun m '(off, addend) => wr m (off + kimage_off) addend) m l.

(** Each is for a word of the initialised image outside the relocation
    table. *)
Definition reloc_ok (e : Z * Z) : Prop :=
  exists pa, e.1 = seg_va pa /\ image_word pa /\ ~ (__pi_rela_start im <= pa < __pi_rela_end im)
    /\ ~ (__bss_start im <= pa < limit).

Lemma rela_entries_agree n : forall m m' rela,
  (forall a, rela <= a < rela + RELA_SIZE * Z.of_nat n -> rd m' a = rd m a) ->
  rela_entries n m' rela = rela_entries n m rela.
Proof.
  induction n as [|n IH]; intros m m' rela H; cbn [rela_entries]; [done |].
  unfold RELA_SIZE in *. rewrite !H by lia. f_equal. apply IH. intros a Ha. apply H. lia.
Qed.

Lemma rela_loop_ok fuel : forall n m pnext prot rela,
  kspace m pnext (kernel_regions prot prot prot) -> writable (desc_attr prot) = true ->
  rela + RELA_SIZE * Z.of_nat n = __pi_rela_end im -> __pi_rela_start im <= rela -> (n < fuel)%nat ->
  Forall reloc_ok (rela_entries n m rela) ->
  exists m', rela_loop im fuel (BootSt m dir) rela = Done (BootSt m' dir)
    /\ m' = relocated (rela_entries n m rela) m
    /\ kspace m' pnext (kernel_regions prot prot prot).
Proof.
  induction fuel as [|fuel IH]; intros n m pnext prot rela HS Hw Hend Hlo Hf Hall; [lia |].
  cbn [rela_loop]. unfold RELA_SIZE in *. destruct n as [|n].
  { rewrite (proj2 (Z.ltb_ge _ _)) by lia. exists m. done. }
  rewrite (proj2 (Z.ltb_lt _ _)) by lia. cbn [rela_entries bt_mem] in *. unfold RELA_SIZE in *.
  destruct (ELF64_R_TYPE (rd m (rela + 8)) =? R_AARCH64_RELATIVE); cbn [negb].
  - apply Forall_cons in Hall as [(pa & Eoff & Hpa & Hnr & _) Hall]. simpl in Eoff. rewrite Eoff.
    destruct (store_image m pnext prot prot prot pa (rd m (rela + 16)) HS Hpa) as [-> HS'].
    { by repeat case_decide. }
    cbn [obind]. set (m1 := wr m pa (rd m (rela + 16))) in *.
    assert (Hsame : rela_entries n m1 (rela + 24) = rela_entries n m (rela + 24)).
    { apply rela_entries_agree. unfold RELA_SIZE. intros a Ha. apply rd_wr_ne. lia. }
    destruct (IH n m1 pnext prot (rela + 24)) as (m' & E & Em' & HS''); try done; try lia.
    { by rewrite Hsame. }
    exists m'. split; [exact E |]. split; [| done]. rewrite Em', Hsame. cbn [relocated app foldl].
    replace (seg_va pa + kimage_off) with pa by (unfold seg_va, kimage_off; lia). done.
  - apply IH; try done; lia.
Qed.

Lemma relocate_ok m pnext prot :
  kspace m pnext (kernel_regions prot prot prot) -> writable (desc_attr prot) = true ->
  Forall reloc_ok (kernel_relocs m) ->
  relocate_kernel im (BootSt m dir) = Done (BootSt (relocated (kernel_relocs m) m) dir)
  /\ kspace (relocated (kernel_relocs m) m) pnext (kernel_regions prot prot prot).
Proof.
  intros HS Hw Hall. pose proof (io_rela Hok) as (R1 & R2 & R3 & R4).
  pose proof (Z.div_mod (__pi_rela_end im - __pi_rela_start im) RELA_SIZE ltac:(done)) as Hdm.
  pose proof (Z.div_pos (__pi_rela_end im - __pi_rela_start im) RELA_SIZE ltac:(lia) ltac:(done)).
  destruct (rela_loop_ok (RELA_FUEL im) NR_RELA m pnext prot (__pi_rela_start im))
    as (m' & E & -> & HS'); try done.
  - unfold NR_RELA, RELA_SIZE in *. lia.
  - unfold RELA_FUEL, NR_RELA, RELA_SIZE in *. lia.
Qed.

Lemma relocated_at l : forall m m' a,
  rd m' a = rd m a -> rd (relocated l m') a = rd (relocated l m) a.
Proof.
  induction l as [|[off x] l IH]; intros m m' a H; [done |]. apply (IH (wr m _ x) (wr m' _ x)).
  destruct (decide (off + kimage_off = a)) as [<- | Hne]; [by rewrite !rd_wr_eq |].
  by rewrite !rd_wr_ne.
Qed.

Lemma relocated_bss l a : forall m,
  Forall reloc_ok l -> __bss_start im <= a < limit -> rd (relocated l m) a = rd m a.
Proof.
  induction l as [|[off x] l IH]; intros m Hall Ha; [done |].
  apply Forall_cons in Hall as [(pa & E & _ & _ & Hpa) Hall]. simpl in E.
  change (rd (relocated l (wr m (off + kimage_off) x)) a = rd m a).
  rewrite IH by done. apply rd_wr_ne. unfold kimage_off, seg_va in *. lia.
Qed.

Lemma kernel_relocs_agree m m' :
  (forall a, __pi_rela_start im <= a < __pi_rela_end im -> rd m' a = rd m a) ->
  kernel_relocs m' = kernel_relocs m.
Proof.
  intros H. pose proof (io_rela Hok) as (R1 & R2 & R3 & R4).
  pose proof (Z.div_mod (__pi_rela_end im - __pi_rela_start im) RELA_SIZE ltac:(done)) as Hdm.
  pose proof (Z.div_pos (__pi_rela_end im - __pi_rela_start im) RELA_SIZE ltac:(lia) ltac:(done)).
  apply rela_entries_agree. intros a Ha. apply H. unfold NR_RELA, RELA_SIZE in *. lia.
Qed.

(** ** The root table at its final place *)

Lemma swapper_word i : 0 <= i < 512 -> image_word (swapper_pg_dir im + 8 * i).
Proof.
  intros Hi. pose proof (io_swapper Hok). pose proof (io_bss Hok). pose proof (io_order Hok).
  pose proof (io_pages Hok) as HP. rewrite !Forall_cons in HP.
  destruct HP as (_ & _ & _ & _ & _ & _ & _ & _ & _ & _ & HW & _ & _ & _).
  split.
  - lia.
  - pose proof (Z.div_mod (swapper_pg_dir im) 4096 ltac:(done)).
    replace (swapper_pg_dir im + 8 * i) with ((swapper_pg_dir im / 4096 * 512 + i) * 8) by lia.
    by apply Z.mod_mul.
  - unfold dir, limit. lia.
Qed.

Lemma copy_root n : forall m pnext text inittext rest j,
  kspace m pnext (kernel_regions text inittext rest) -> writable (desc_attr rest) = true ->
  0 <= j -> j + Z.of_nat n = 512 ->
  exists m', copy_words im n (BootSt m dir) (seg_va (swapper_pg_dir im + 8 * j)) (dir + 8 * j)
             = Done (BootSt m' dir)
    /\ kspace m' pnext (kernel_regions text inittext rest)
    /\ (forall i, j <= i < 512 -> rd m' (swapper_pg_dir im + 8 * i) = rd m (dir + 8 * i))
    /\ (forall a, ~ (swapper_pg_dir im + 8 * j <= a < swapper_pg_dir im + 4096) -> rd m' a = rd m a).
Proof.
  induction n as [|n IH]; intros m pnext text inittext rest j HS Hw Hj Hn; cbn [copy_words].
  { exists m. split; [done |]. split; [done |]. split; [lia | done]. }
  pose proof (io_swapper Hok) as HW. pose proof (io_order Hok) as HO. pose proof (io_bss Hok) as HB.
  destruct (store_image m pnext text inittext rest (swapper_pg_dir im + 8 * j) (rd m (dir + 8 * j)) HS)
    as [E HS1].
  { apply swapper_word. lia. }
  { rewrite !decide_False by lia. done. }
  cbn [bt_mem]. rewrite E. cbn [obind].
  replace (seg_va (swapper_pg_dir im + 8 * j) + 8) with (seg_va (swapper_pg_dir im + 8 * (j + 1)))
    by (unfold seg_va; lia).
  replace (dir + 8 * j + 8) with (dir + 8 * (j + 1)) by lia.
  destruct (IH (wr m (swapper_pg_dir im + 8 * j) (rd m (dir + 8 * j))) pnext text inittext rest (j + 1)
              HS1 Hw ltac:(lia) ltac:(lia)) as (m' & E' & HS' & Hcopy & Hrest).
  exists m'. split; [exact E' |]. split; [done |]. split.
  - intros i Hi. destruct (decide (i = j)) as [-> | Hne].
    + rewrite Hrest by lia. apply rd_wr_eq.
    + rewrite Hcopy by lia. apply rd_wr_ne. unfold dir. lia.
  - intros a Ha. rewrite Hrest by lia. apply rd_wr_ne. lia.
Qed.

(** ** [map_kernel] *)

Definition final_regions : list boot_region :=
  kernel_regions (_PAGE_KERNEL_ROX (use_ng im)) (_PAGE_KERNEL_ROX (use_ng im))
    (_PAGE_KERNEL (use_ng im)).

(** The space [map_kernel] leaves: the tree below the early root, with the
    same entries in the final one. *)
Definition kernel_space (m : mem) : Prop :=
  exists pnext, kspace m pnext final_regions
    /\ forall i, 0 <= i < 512 -> rd m (swapper_pg_dir im + 8 * i) = rd m (dir + 8 * i).

Lemma kernel_space_walk m v :
  kernel_space m -> v / 2 ^ 48 = 0xffff -> walk 3 m (swapper_pg_dir im) v = br_walk final_regions v.
Proof.
  intros (pnext & HS & Hcopy) Hv.
  by rewrite (walk_root_copy m dir), (area_space_walk _ _ _ _ _ _ _ _ _ HS Hv).
Qed.

Lemma map_kernel_ok m ttbr1 :
  (forall a, dir <= a < limit -> rd m a = 0) -> Forall reloc_ok (kernel_relocs m) ->
  exists m', map_kernel im (BootSt m ttbr1) voff = Done (BootSt m' (swapper_pg_dir im))
    /\ kernel_space m'
    /\ (forall a, ~ (dir <= a < limit) ->
          ~ (swapper_pg_dir im <= a < swapper_pg_dir im + 4096) ->
          rd m' a = rd (relocated (kernel_relocs m) m) a).
Proof.
  intros Hz Hrel. set (K := _PAGE_KERNEL (use_ng im)).
  assert (HwK : writable (desc_attr K) = true) by (unfold K; by destruct (use_ng im)).
  pose proof (io_swapper Hok) as HW. pose proof (io_order Hok) as HO. pose proof (io_bss Hok) as HB.
  destruct (kernel_segments_ok m Hz) as (m1 & p1 & E1 & H1 & O1).
  assert (Erel : kernel_relocs m1 = kernel_relocs m).
  { apply kernel_relocs_agree. pose proof (io_rela Hok). intros a Ha. apply O1. unfold dir, limit. lia. }
  unfold map_kernel. cbn [bt_mem]. rewrite E1. cbn [obind bt_mem bt_ttbr1].
  unfold idmap_cpu_replace_ttbr1. cbn [bt_mem]. fold dir.
  destruct (relocate_ok m1 p1 K H1 HwK) as [E2 H2]; [by rewrite Erel |].
  rewrite E2. cbn [obind bt_mem bt_ttbr1]. set (m2 := relocated (kernel_relocs m1) m1) in *.
  destruct (protect_text_ok m2 p1 K H2) as (m3 & E3 & H3 & O3). rewrite E3. cbn [obind].
  replace (u64 (swapper_pg_dir im + voff)) with (seg_va (swapper_pg_dir im + 8 * 0)).
  2: { unfold voff. rewrite u64_add_r. unfold seg_va, IMAGE_VADDR. rewrite u64_small; lia. }
  destruct (copy_root 512 m3 p1 _ _ K 0 H3 HwK ltac:(lia) ltac:(lia)) as (m4 & E4 & H4 & Hcopy & Hrest).
  replace (dir + 8 * 0) with dir in E4 by lia. rewrite E4. cbn [obind bt_mem]. exists m4. split; [done |]. split.
  - exists p1. split; [exact H4 |].
    intros i Hi. rewrite Hcopy by lia. symmetry. apply Hrest. unfold dir. lia.
  - intros a Ha Hs. rewrite Hrest by lia. rewrite O3 by done. unfold m2.
    rewrite Erel. by apply relocated_at, O1.
Qed.
End Spec.
