(* ===== verification/BootStart.v ===== *)
(** * From the identity map to the kernel's address space

    [mmu_init_idmap_table], [map_fdt] and [early_map_kernel] of
    [map_kernel.c] one after the other, and [linear_mapping_init] of
    [mapping.c] on the space they leave. *)

From S2P Require Import Prelude PageTable PageTableMap BootSpace BootBlock Memblock Pte BootMap BootMapSpec.

(** ** Rounding to pages *)

Lemma page_down_spec x : 0 <= x < 2 ^ 64 ->
  ALIGN_DOWN x PAGE_SIZE <= x /\ x < ALIGN_DOWN x PAGE_SIZE + 4096 /\ ALIGN_DOWN x PAGE_SIZE mod 4096 = 0.
Proof.
  intros Hx. unfold ALIGN_DOWN. rewrite align_mask_pow2 by (try apply is_pow2_PAGE_SIZE; lia).
  change PAGE_SIZE with 4096. pose proof (Z.mod_pos_bound x 4096 ltac:(lia)).
  split; [lia |]. split; [lia |]. rewrite Zminus_mod, Zmod_mod, Z.sub_diag. done.
Qed.

Lemma page_up_spec x : 0 <= x < 2 ^ 64 - 4096 ->
  x <= ALIGN_UP x PAGE_SIZE /\ ALIGN_UP x PAGE_SIZE < x + 4096 /\ ALIGN_UP x PAGE_SIZE mod 4096 = 0.
Proof.
  intros Hx. pose proof (page_down_spec (x + 4096 - 1) ltac:(lia)) as H.
  unfold ALIGN_UP. change PAGE_SIZE with 4096 in *. rewrite u64_small by lia.
  unfold ALIGN_DOWN in H. lia.
Qed.

(** A page boundary below the end of a page is below its start. *)
Lemma page_le_up x y : x mod 4096 = 0 -> y mod 4096 = 0 -> x < y + 4096 -> x <= y.
Proof. intros Hx Hy H. pose proof (Z.div_mod x 4096). pose proof (Z.div_mod y 4096). lia. Qed.

(** At most three tables of pages and two of each level above. *)
Lemma need_small lo hi : 0 < hi - lo <= 2 ^ 21 + 8192 -> need 3 lo hi <= 7.
Proof.
  intros H. cbn [need].
  assert (Hs : forall k c, hi - lo <= c * lsize k -> 0 <= c -> span k lo hi <= c + 1).
  { intros k c Hc Hc0. unfold span. pose proof (lsize_pos k) as Hpos.
    assert (Hle : hi - 1 < (lo / lsize k + c + 1) * lsize k).
    { pose proof (Z.div_mod lo (lsize k)). pose proof (Z.mod_pos_bound lo (lsize k) Hpos). lia. }
    pose proof (Z.div_lt_upper_bound (hi - 1) (lsize k) (lo / lsize k + c + 1) Hpos ltac:(lia)). lia. }
  pose proof (Hs 1%nat 2 ltac:(change (lsize 1) with (2 ^ 21); lia) ltac:(lia)).
  pose proof (Hs 2%nat 1 ltac:(change (lsize 2) with (2 ^ 30); lia) ltac:(lia)).
  pose proof (Hs 3%nat 1 ltac:(change (lsize 3) with (2 ^ 39); lia) ltac:(lia)). lia.
Qed.

Section Start.
Context (im : image) (Hok : image_ok im).

Let D0 := __pi_init_idmap_pg_dir im.
Let L0 := __pi_init_idmap_pg_end im.

(** ** Identity mappings *)

(** A range of physical addresses, rounded out to pages. *)
Record phys_range (lo hi start end_ : Z) : Prop := {
  pr_lo : ALIGN_DOWN start PAGE_SIZE = lo;
  pr_hi : ALIGN_UP end_ PAGE_SIZE = hi;
  pr_in : 0 <= lo /\ lo < hi /\ hi <= 2 ^ 46;
  pr_pages : lo mod 4096 = 0 /\ hi mod 4096 = 0;
}.

Lemma id_args plan lo hi start end_ attr :
  phys_range lo hi start end_ -> attr_wf attr -> plain attr boot_blk lo hi 0 ->
  planned boot_blk plan 3 lo hi 0 -> call_args 0 plan start end_ start attr.
Proof.
  intros [<- <- P3 [P4 P5]] Ha Hpl Hplan. set (lo := ALIGN_DOWN start PAGE_SIZE) in *.
  set (hi := ALIGN_UP end_ PAGE_SIZE) in *.
  assert (Hh : map_hi start start end_ = hi) by (unfold map_hi, map_lo; fold lo hi; lia).
  split; rewrite ?Hh; change (map_lo start) with lo; fold lo; try done.
  - split; try done; try lia; change (lsize 4) with (2 ^ 48); apply Z.div_small; lia.
  - by rewrite Z.sub_diag.
  - by rewrite Z.sub_diag.
Qed.

Lemma id_region lo hi start end_ attr :
  phys_range lo hi start end_ -> call_region start end_ start attr = BootRegion lo hi 0 attr.
Proof.
  intros [<- <- _ _]. unfold call_region, map_hi, map_lo. f_equal; lia.
Qed.

Lemma id_map_bounds lo hi start end_ :
  phys_range lo hi start end_ -> map_lo start = lo /\ map_hi start start end_ = hi.
Proof. intros [<- <- _ _]. unfold map_hi, map_lo. lia. Qed.

Lemma phys_pages lo hi :
  lo mod 4096 = 0 -> hi mod 4096 = 0 -> 0 <= lo -> lo < hi -> hi <= 2 ^ 46 -> phys_range lo hi lo hi.
Proof.
  intros. split; [apply ALIGN_DOWN_id | apply ALIGN_UP_id | |]; done || lia.
Qed.

(** ** The identity map of the image *)

(** The pages the linker script reserves for it: [INIT_IDMAP_DIR_SIZE], with
    [kimage_limit] the end of the image rounded up. *)
Definition kimage_limit : Z := (seg_va im (kimage_end im) + 2 ^ 16 + 2 ^ 21 - 1) / 2 ^ 21 * 2 ^ 21.
Definition idmap_span (shift : Z) : Z := Z.shiftr kimage_limit shift - Z.shiftr IMAGE_VADDR shift + 1.
Definition INIT_IDMAP_DIR_PAGES : Z :=
  1 + (idmap_span 48 + 1) + (idmap_span 39 + 1) + (idmap_span 30 + 1) + 3.

(** A page table for each end of the two ranges. *)
Definition idmap_slots : list Z :=
  edges (_stext im) (__initdata_begin im) ++ edges (__initdata_begin im) (kimage_end im).

Lemma kimage_limit_ge : seg_va im (kimage_end im) <= kimage_limit.
Proof.
  unfold kimage_limit. pose proof (Z.div_mod (seg_va im (kimage_end im) + 2 ^ 16 + 2 ^ 21 - 1) (2 ^ 21)).
  pose proof (Z.mod_pos_bound (seg_va im (kimage_end im) + 2 ^ 16 + 2 ^ 21 - 1) (2 ^ 21)). lia.
Qed.

Lemma idmap_span_enough k :
  (1 <= k <= 3)%nat -> span k (_stext im) (kimage_end im) <= idmap_span (lshift k) + 1.
Proof.
  intros Hk. pose proof (io_order im Hok) as HO. unfold span, idmap_span. rewrite !page_shift_div.
  pose proof (lsize_pos k) as Hpos.
  pose proof (Z.div_le_mono _ _ _ Hpos kimage_limit_ge) as Hmono.
  assert (Hbase : exists c, IMAGE_VADDR = c * lsize k).
  { exists (2 ^ (64 - lshift k) - 2 ^ (47 - lshift k)). unfold IMAGE_VADDR, lsize.
    rewrite Z.mul_sub_distr_r, <- !Z.pow_add_r by (unfold lshift; lia). f_equal; f_equal; lia. }
  destruct Hbase as [c Hc]. unfold seg_va in Hmono.
  rewrite Hc in Hmono |- *. rewrite Z.div_add_l in Hmono by lia. rewrite Z.div_mul by lia.
  set (s := _stext im) in *. set (e := kimage_end im) in *.
  assert ((e - 1) / lsize k - s / lsize k <= (e - s) / lsize k + 1); [| lia].
  pose proof (Z.div_mod (e - 1) (lsize k)). pose proof (Z.mod_pos_bound (e - 1) (lsize k) Hpos).
  pose proof (Z.div_mod s (lsize k)). pose proof (Z.mod_pos_bound s (lsize k) Hpos).
  pose proof (Z.div_mod (e - s) (lsize k)). pose proof (Z.mod_pos_bound (e - s) (lsize k) Hpos).
  nia.
Qed.

Lemma idmap_pool_enough :
  1 + root_need (_stext im) (kimage_end im) idmap_slots <= INIT_IDMAP_DIR_PAGES.
Proof.
  pose proof (idmap_span_enough 2 ltac:(lia)). pose proof (idmap_span_enough 3 ltac:(lia)).
  pose proof (io_order im Hok) as HO. pose proof kimage_limit_ge.
  assert (1 <= idmap_span 48).
  { unfold idmap_span. rewrite !Z.shiftr_div_pow2 by lia.
    pose proof (Z.div_le_mono IMAGE_VADDR kimage_limit (2 ^ 48) ltac:(lia) ltac:(unfold seg_va in *; lia)).
    lia. }
  unfold INIT_IDMAP_DIR_PAGES, root_need. change (length idmap_slots) with 4%nat.
  change (lshift 2) with 30 in *. change (lshift 3) with 39 in *. lia.
Qed.

Definition idmap_plan : gset (nat * Z) := root_plan 0 (_stext im) (kimage_end im) idmap_slots.
Definition idmap_regions : list boot_region :=
  [BootRegion (__initdata_begin im) (kimage_end im) 0 PG_PAGE_ENTRY_NORMAL_CACHEABLE_RWX;
   BootRegion (_stext im) (__initdata_begin im) 0 PG_PAGE_ENTRY_NORMAL_CACHEABLE_RX].

(** The area the linker script reserves for the identity map, which is in
    the initialised data of the image, before the relocation entries. *)
Record idmap_ok (m : mem) : Prop := {
  id_area : D0 mod 4096 = 0 /\ __initdata_begin im <= D0
    /\ D0 + 4096 * INIT_IDMAP_DIR_PAGES <= L0 /\ L0 <= __pi_rela_start im;
  id_zero : forall a, D0 <= a < L0 -> rd m a = 0;
}.

Lemma mmu_init_idmap_ok m :
  idmap_ok m ->
  exists m1 p1, mmu_init_idmap_table im m D0 = Done (m1, Some p1)
    /\ area_space L0 D0 0 idmap_plan D0 m1 p1 idmap_regions /\ same_outside L0 D0 m m1.
Proof.
  intros [[A1 [A2 [A3 A4]]] Hz]. pose proof (io_order im Hok) as HO. pose proof (io_rela im Hok) as HR.
  pose proof (io_pages im Hok) as HP. rewrite !Forall_cons in HP.
  destruct HP as (PS & _ & _ & _ & _ & _ & PI & _ & _ & PE & _).
  pose proof idmap_pool_enough as Hen.
  assert (Hlt : _stext im < kimage_end im) by lia.
  pose proof (level_slots_length 1 _ _ Hlt). pose proof (level_slots_length 2 _ _ Hlt).
  assert (Hroom : 1 <= root_need (_stext im) (kimage_end im) idmap_slots) by (unfold root_need; simpl; lia).
  assert (Hplan : forall lo hi, edges lo hi ⊆ idmap_slots -> _stext im <= lo -> lo < hi ->
            hi <= kimage_end im -> planned boot_blk idmap_plan 3 lo hi 0).
  { intros lo hi He H1 H2 H3. apply root_plan_planned; try done.
    intros q Ha Hno. apply He, edge_slot; [done | done |]. intros Hin. apply Hno. destruct Hin. by repeat split. }
  assert (HS : area_space L0 D0 0 idmap_plan D0 m (D0 + 4096) []) by (apply area_empty; try done; lia).
  assert (R1 : phys_range (_stext im) (__initdata_begin im) (_stext im) (__initdata_begin im))
    by (apply phys_pages; done || lia).
  assert (R2 : phys_range (__initdata_begin im) (kimage_end im) (__initdata_begin im) (kimage_end im))
    by (apply phys_pages; done || lia).
  unfold mmu_init_idmap_table. rewrite u64_small by (unfold PAGE_SIZE; lia). change PAGE_SIZE with 4096.
  destruct (area_map L0 D0 0 idmap_plan D0 m (D0 + 4096) [] (_stext im) (__initdata_begin im)
              (_stext im) PG_PAGE_ENTRY_NORMAL_CACHEABLE_RX) as (m1 & p1 & E1 & _ & H1 & O1);
    [done | | done |].
  { eapply id_args; [exact R1 | done | by intros k q _ | apply Hplan; try lia; intros q; unfold idmap_slots; rewrite elem_of_app; tauto]. }
  unfold MAP_BLOCKS in E1. rewrite E1. cbn [obind]. rewrite (id_region _ _ _ _ _ R1) in H1.
  destruct (area_map L0 D0 0 idmap_plan D0 m1 p1 _ (__initdata_begin im) (kimage_end im)
              (__initdata_begin im) PG_PAGE_ENTRY_NORMAL_CACHEABLE_RWX H1)
    as (m2 & p2 & E2 & _ & H2 & O2).
  { eapply id_args; [exact R2 | done | by intros k q _ | apply Hplan; try lia; intros q; unfold idmap_slots; rewrite elem_of_app; tauto]. }
  { destruct (id_map_bounds _ _ _ _ R2) as [-> ->]. constructor; [| done]. unfold br_clear. simpl. lia. }
  rewrite (id_region _ _ _ _ _ R2) in H2. exists m2, p2. split; [exact E2 |]. split; [exact H2 |].
  intros a Ha. by rewrite O2, O1.
Qed.

(** ** The device tree *)

Definition fdt_end (fdt : Z) : Z :=
  if fdt <? _stext im then Z.min (_stext im) (u64 (fdt + MAX_FDT_SIZE)) else u64 (fdt + MAX_FDT_SIZE).
Definition fdt_lo (fdt : Z) : Z := ALIGN_DOWN fdt PAGE_SIZE.
Definition fdt_hi (fdt : Z) : Z := ALIGN_UP (fdt_end fdt) PAGE_SIZE.

(** [INIT_IDMAP_FDT_SIZE]: six pages and two more. *)
Definition FDT_PTES_PAGES : Z := 8.
Let P0 := fdt_ptes im.
Let P1 := fdt_ptes im + 4096 * FDT_PTES_PAGES.

(** A device tree beside the image, and the static tables, cleared.  A tree
    that does not begin at a page boundary spans no aligned 2 MiB block; one
    that does may be such a block itself. *)
Record fdt_ok (m : mem) (fdt : Z) : Prop := {
  fd_place : 0 <= fdt /\ fdt + MAX_FDT_SIZE + 4096 <= 2 ^ 46
    /\ (fdt < _stext im \/ kimage_end im <= fdt);
  fd_block : fdt mod 4096 = 0 \/ no_chunk (fdt_lo fdt) (fdt_hi fdt);
  fd_ptes : P0 mod 4096 = 0 /\ __bss_start im <= P0 /\ P1 <= __pi_init_pg_dir im;
  fd_zero : forall a, P0 <= a < P1 -> rd m a = 0;
}.

Lemma fdt_range m fdt :
  fdt_ok m fdt ->
  phys_range (fdt_lo fdt) (fdt_hi fdt) fdt (fdt_end fdt)
  /\ fdt_hi fdt - fdt_lo fdt <= 2 ^ 21 + 8192
  /\ (fdt_hi fdt <= _stext im \/ kimage_end im <= fdt_lo fdt).
Proof.
  intros [[F1 [F2 F3]] _ _ _]. pose proof (io_order im Hok) as HO.
  pose proof (io_pages im Hok) as HP. rewrite !Forall_cons in HP.
  assert (He : fdt < fdt_end fdt /\ fdt_end fdt <= fdt + 2 ^ 21
               /\ (fdt < _stext im -> fdt_end fdt <= _stext im)).
  { unfold fdt_end, MAX_FDT_SIZE in *. rewrite u64_small by lia.
    destruct (Z.ltb_spec fdt (_stext im)); lia. }
  destruct He as (E1 & E2 & E3). unfold MAX_FDT_SIZE in *.
  pose proof (page_down_spec fdt ltac:(lia)) as (D1 & D2 & D3).
  pose proof (page_up_spec (fdt_end fdt) ltac:(lia)) as (U1 & U2 & U3).
  fold (fdt_lo fdt) in D1, D2, D3. fold (fdt_hi fdt) in U1, U2, U3.
  pose proof (page_le_up 0 (fdt_lo fdt) eq_refl D3 ltac:(lia)).
  split; [split; try done; lia |]. split; [lia |].
  destruct F3 as [F3 | F3]; [left | right].
  - apply (page_le_up (fdt_hi fdt) (_stext im)); [done | tauto | specialize (E3 F3); lia].
  - apply (page_le_up (kimage_end im) (fdt_lo fdt)); [tauto | done | lia].
Qed.

(** The tree is mapped by pages, or it is one block. *)
Lemma fdt_cases m fdt : fdt_ok m fdt ->
  no_chunk (fdt_lo fdt) (fdt_hi fdt) \/ fdt mod BLOCK = 0 /\ fdt_end fdt = fdt + BLOCK.
Proof.
  intros Hf. destruct (fd_block _ _ Hf) as [Hp | Hn]; [| by left]. pose proof (fdt_range _ _ Hf) as (R & _ & _).
  destruct (fd_place _ _ Hf) as (F1 & F2 & _). pose proof (io_pages im Hok) as HP. rewrite !Forall_cons in HP.
  unfold MAX_FDT_SIZE in F2.
  assert (Hlo : fdt_lo fdt = fdt) by (apply ALIGN_DOWN_id; [done | lia]).
  assert (He : fdt_end fdt mod 4096 = 0 /\ fdt_end fdt <= fdt + BLOCK).
  { unfold fdt_end, MAX_FDT_SIZE. rewrite u64_small by lia.
    assert (H2 : (fdt + 2 ^ 21) mod 4096 = 0) by (rewrite Zplus_mod, Hp; reflexivity).
    destruct (fdt <? _stext im); [| by split; [| unfold BLOCK; lia]].
    destruct (Z.min_spec (_stext im) (fdt + 2 ^ 21)) as [[? ->] | [? ->]]; split; try done; [tauto | unfold BLOCK; lia ..]. }
  destruct He as [He1 He2]. pose proof (pr_hi _ _ _ _ R) as Hh. pose proof (pr_in _ _ _ _ R) as Hin. rewrite Hlo in Hin.
  pose proof (page_up_spec (fdt_end fdt)) as Hu. fold (fdt_hi fdt) in Hu.
  assert (Hhi : fdt_hi fdt = fdt_end fdt).
  { unfold fdt_hi. apply ALIGN_UP_id; [done |]. split; [| unfold BLOCK in *; lia].
    destruct (Z.leb_spec 0 (fdt_end fdt)); [lia |]. exfalso. revert H. unfold fdt_end, MAX_FDT_SIZE.
    rewrite u64_small by lia. pose proof (io_order im Hok). destruct (fdt <? _stext im); lia. }
  rewrite Hlo, Hhi.
  destruct (decide (fdt mod BLOCK = 0 /\ fdt_end fdt = fdt + BLOCK)) as [H | H]; [by right | left].
  intros q [Q1 Q2]. apply H. unfold BLOCK in *. assert (fdt = q * 2 ^ 21) as -> by lia.
  split; [apply Z_mod_mult | lia].
Qed.

(** The tree of the identity map with the static tables as its pool. *)
Definition fdt_plan (T : tables) (fdt : Z) : gset (nat * Z) := plan_for T (fdt_lo fdt) (fdt_hi fdt).

Lemma fdt_space m m1 p1 fdt :
  idmap_ok m -> area_space L0 D0 0 idmap_plan D0 m1 p1 idmap_regions -> fdt_ok m1 fdt ->
  exists T, boot_space P1 D0 0 (fdt_plan T fdt) T m1 P0 idmap_regions
    /\ (forall b x, T !! b = Some x -> D0 <= b /\ b + 4096 <= L0)
    /\ (forall d, planned boot_blk (fdt_plan T fdt) 3 (fdt_lo fdt) (fdt_hi fdt) d)
    /\ Forall (br_clear (fdt_lo fdt) (fdt_hi fdt)) idmap_regions.
Proof.
  intros [[_ [A2 [_ A4]]] _] (T & HS & Hin & _) Hfdt. pose proof (fdt_range _ _ Hfdt) as (R & Hlen & Hap).
  destruct Hfdt as [F1 F2 [F3 [F4 F5]] F6]. pose proof (io_order im Hok) as HO.
  pose proof (dir_below_end im Hok) as HD.
  pose proof (io_bss im Hok) as HB. pose proof (io_rela im Hok) as HR. pose proof (pr_in _ _ _ _ R) as Hin'.
  destruct (plan_for_ok P1 T P0 (fdt_lo fdt) (fdt_hi fdt) ltac:(lia)) as [Hbud Hplan].
  { pose proof (need_small (fdt_lo fdt) (fdt_hi fdt) ltac:(lia)). unfold P1, P0, FDT_PTES_PAGES. lia. }
  exists T. split; [| split; [exact Hin | split; [intros d; apply Hplan |]]].
  - unfold P1, FDT_PTES_PAGES in *.
    eapply boot_space_repool; [exact HS | done | unfold P0; lia | unfold P0; lia | | done | done].
    intros b x Hb. left. specialize (Hin b x Hb). lia.
  - repeat (constructor; [unfold br_clear; simpl; lia |]). done.
Qed.

(** What the call leaves for a tree that is one block: the tables down to its
    entry, which holds the type bits of a page. *)
Record fdt_block (m1 m2 : mem) (fdt : Z) (T T' : tables) (b2 b1 : Z) : Prop := {
  fb_old : forall b x, T !! b = Some x -> D0 <= b /\ b + 4096 <= L0;
  fb_path : exists m' p', block_path fdt P1 D0 0 T m1 P0 T' m' p' b2 b1
    /\ m2 = wr m' (b1 + 8 * lindex 1 fdt) (Z.lor (Z.lor fdt (_PAGE_KERNEL (use_ng im))) PG_DESC_TYPE_BLOCK);
}.

Lemma map_fdt_block m m1 p1 fdt :
  idmap_ok m -> area_space L0 D0 0 idmap_plan D0 m1 p1 idmap_regions -> fdt_ok m1 fdt ->
  fdt mod BLOCK = 0 -> fdt_end fdt = fdt + BLOCK ->
  exists m2 T T' b2 b1, map_fdt im m1 fdt = Done m2 /\ fdt_block m1 m2 fdt T T' b2 b1.
Proof.
  intros Hid HA Hf Hb He. destruct (fd_place _ _ Hf) as (F1 & F2 & _). unfold MAX_FDT_SIZE in F2.
  destruct (fdt_space m m1 p1 fdt Hid HA Hf) as (T & HS & Hin & Hplan & Hclear).
  assert (Hp : fdt mod 4096 = 0) by (apply (mod_lsize_le 0 1); [lia | exact Hb]).
  assert (Hlo : fdt_lo fdt = fdt) by (apply ALIGN_DOWN_id; [done | lia]).
  assert (Hhi : fdt_hi fdt = fdt + BLOCK).
  { unfold fdt_hi. rewrite He. apply ALIGN_UP_id; [rewrite Zplus_mod, Hp; reflexivity | unfold BLOCK; lia]. }
  rewrite Hlo, Hhi in Hplan, Hclear.
  destruct (map_one_block fdt Hb ltac:(unfold BLOCK; lia) P1 D0 0 _ T m1 P0 idmap_regions HS
    ltac:(apply Z.div_small; lia) (Hplan 0) Hclear) as (T' & m' & p' & b2 & b1 & Hpath & E).
  eexists _, T, T', b2, b1. split; [| split; [exact Hin | exists m', p'; split; [exact Hpath | reflexivity]]].
  unfold map_fdt. fold (fdt_end fdt). fold D0 P0. rewrite He. specialize (E (_PAGE_KERNEL (use_ng im))). unfold MAP_BLOCKS in E. by rewrite E.
Qed.

(** Only the tables of the identity map and the static ones are written. *)
Lemma map_fdt_ok m m1 p1 fdt :
  idmap_ok m -> area_space L0 D0 0 idmap_plan D0 m1 p1 idmap_regions -> fdt_ok m1 fdt ->
  exists m2, map_fdt im m1 fdt = Done m2
    /\ (forall a, ~ (D0 <= a < L0) -> ~ (P0 <= a < P1) -> rd m2 a = rd m1 a).
Proof.
  intros Hid HA Hf. destruct (fdt_cases _ _ Hf) as [Hn | [Hb He]].
  - destruct (fdt_space m m1 p1 fdt Hid HA Hf) as (T & HS & Hin & Hplan & Hclear).
    pose proof (fdt_range _ _ Hf) as (R & _ & _).
    destruct (boot_map P1 D0 0 _ T m1 P0 idmap_regions fdt (fdt_end fdt) fdt (_PAGE_KERNEL (use_ng im)) HS)
      as (T2 & m2 & p2 & E & Hp2 & [Ho1 Ho2] & _).
    { eapply id_args; [exact R | apply page_kernel_wf | | apply Hplan].
      intros k q Hat. by apply no_chunk_block in Hat. }
    { by destruct (id_map_bounds _ _ _ _ R) as [-> ->]. }
    exists m2. split.
    + unfold map_fdt. fold (fdt_end fdt). fold D0 P0. unfold MAP_BLOCKS in E. by rewrite E.
    + intros a Ha1 Ha2. apply Ho2. intros b x i Hx Hi ->.
      destruct (Ho1 b x Hx) as [Hx' | Hx']; [specialize (Hin b x Hx') |]; lia.
  - destruct (map_fdt_block m m1 p1 fdt Hid HA Hf Hb He) as (m2 & T & T' & b2 & b1 & E & [Hin (m' & p' & Hpath & ->)]).
    eexists. split; [exact E |]. intros a Ha1 Ha2. pose proof (bp_pool _ _ _ _ _ _ _ _ _ _ _ _ Hpath) as Hp.
    assert (Ha : outside T' a).
    { intros b x i Hx Hi ->. destruct (bp_new _ _ _ _ _ _ _ _ _ _ _ _ Hpath b x Hx) as [Hx' | Hx']; [specialize (Hin b x Hx') |]; lia. }
    rewrite rd_wr_ne; [by apply (bp_mem _ _ _ _ _ _ _ _ _ _ _ _ Hpath) |].
    intros Hx. exact (Ha b1 _ (lindex 1 fdt) (bp_b1 _ _ _ _ _ _ _ _ _ _ _ _ Hpath) (lindex_range 1 fdt) (eq_sym Hx)).
Qed.

(** ** The whole start *)

(** What [quest_os_entry] and [__primary_switch] call, with [ttbr1] the root
    they install before. *)
Definition boot_up (m : mem) (ttbr1 fdt : Z) : outcome boot_st :=
  let! (m, _) := mmu_init_idmap_table im m (__pi_init_idmap_pg_dir im) in
  early_map_kernel im (BootSt m ttbr1) fdt.

Record start_ok (m : mem) (fdt : Z) : Prop := {
  so_idmap : idmap_ok m;
  so_fdt : fdt_ok m fdt;
  so_relocs : Forall (reloc_ok im) (kernel_relocs im m);
}.

Lemma rd_clear m s e a : rd (clear_words m s e) a = if decide (s <= a < e) then 0 else rd m a.
Proof.
  unfold rd, clear_words, mem in *. rewrite (map_lookup_filter (M := gmap Z)).
  destruct (m !! a) as [x|]; cbn [option_bind mbind default]; [| by case_decide].
  by repeat case_guard || case_decide; try tauto.
Qed.

(** Memory that the start does not use for tables or clear. *)
Definition kept_word (a : Z) : Prop :=
  ~ (D0 <= a < L0) /\ ~ (__bss_start im <= a < __pi_init_pg_end im)
  /\ ~ (swapper_pg_dir im <= a < swapper_pg_dir im + 4096).

(** Memory at the end against memory after [map_fdt]. *)
Record boot_run (m : mem) (fdt : Z) (m1 m2 m' : mem) : Prop := {
  br_idmap : exists p1, area_space L0 D0 0 idmap_plan D0 m1 p1 idmap_regions;
  br_fdt : map_fdt im m1 fdt = Done m2;
  br_early : forall a, ~ (D0 <= a < L0) -> rd m1 a = rd m a;
  br_tables : forall a, ~ (D0 <= a < L0) -> ~ (P0 <= a < P1) -> rd m2 a = rd m1 a;
  br_end : forall a, ~ (__bss_start im <= a < __pi_init_pg_end im) ->
    ~ (swapper_pg_dir im <= a < swapper_pg_dir im + 4096) -> rd m' a = rd (relocated im (kernel_relocs im m) m2) a;
  br_bss : forall a, __bss_start im <= a < __pi_init_pg_dir im -> rd m' a = 0;
}.

Lemma fdt_ok_idmap m m1 fdt :
  fdt_ok m fdt -> idmap_ok m -> (forall a, ~ (D0 <= a < L0) -> rd m1 a = rd m a) -> fdt_ok m1 fdt.
Proof.
  intros Hf Hid H. pose proof (id_area _ Hid) as HA. pose proof (io_order im Hok). pose proof (io_bss im Hok).
  pose proof (io_rela im Hok). destruct (fd_ptes _ _ Hf) as (F3 & F4 & F5). destruct Hf as [A B C Hz].
  split; try done. intros a Ha. rewrite H; [by apply Hz |]. unfold P0, P1, D0, L0 in *. lia.
Qed.

Lemma boot_up_run m ttbr1 fdt :
  start_ok m fdt ->
  exists m1 m2 m', boot_up m ttbr1 fdt = Done (BootSt m' (swapper_pg_dir im))
    /\ kernel_space im m' /\ boot_run m fdt m1 m2 m'.
Proof.
  intros [Hid Hfdt Hrel]. pose proof (io_order im Hok) as HO. pose proof (io_bss im Hok) as HB.
  pose proof (io_rela im Hok) as HR. pose proof (dir_below_end im Hok) as HD.
  pose proof (id_area _ Hid) as HA. destruct (fd_ptes _ _ Hfdt) as (F3 & F4 & F5).
  destruct (mmu_init_idmap_ok m Hid) as (m1 & p1 & E1 & H1 & O1).
  assert (Hfdt1 : fdt_ok m1 fdt) by (by eapply fdt_ok_idmap).
  destruct (map_fdt_ok m m1 p1 fdt Hid H1 Hfdt1) as (m2 & E2 & O2).
  set (m3 := clear_words m2 (__bss_start im) (__pi_init_pg_end im)).
  assert (Hclear : forall a, ~ (__bss_start im <= a < __pi_init_pg_end im) -> rd m3 a = rd m2 a).
  { intros a Ha. unfold m3. by rewrite rd_clear, decide_False by done. }
  assert (Erel : kernel_relocs im m3 = kernel_relocs im m).
  { apply (kernel_relocs_agree im Hok). intros a Ha. rewrite Hclear, O2, O1; [done | ..]; unfold D0, L0, P0, P1 in *; lia. }
  destruct (map_kernel_ok im Hok m3 ttbr1) as (m4 & E4 & HK & Hmem).
  { intros a Ha. unfold m3. rewrite rd_clear, decide_True by lia. done. }
  { by rewrite Erel. }
  exists m1, m2, m4. split; [| split; [exact HK |]].
  - unfold boot_up. fold D0. rewrite E1. cbn [obind]. unfold early_map_kernel. cbn [bt_mem bt_ttbr1].
    rewrite E2. cbn [obind]. exact E4.
  - split; [by exists p1 | exact E2 | exact O1 | exact O2 | |].
    + intros a K2 K3. rewrite Hmem by (done || lia). rewrite Erel. apply relocated_at. auto.
    + intros a Ha. pose proof (io_swapper im Hok). rewrite Hmem by lia.
      rewrite Erel, (relocated_bss im) by (done || lia).
      unfold m3. by rewrite rd_clear, decide_True by lia.
Qed.

Lemma boot_up_ok m ttbr1 fdt :
  start_ok m fdt ->
  exists m', boot_up m ttbr1 fdt = Done (BootSt m' (swapper_pg_dir im))
    /\ kernel_space im m'
    /\ (forall a, kept_word a -> rd m' a = rd (relocated im (kernel_relocs im m) m) a)
    /\ (forall a, __bss_start im <= a < __pi_init_pg_dir im -> rd m' a = 0).
Proof.
  intros Hs. destruct (boot_up_run m ttbr1 fdt Hs) as (m1 & m2 & m' & E & HK & [_ _ R1 R2 R3 R4]).
  exists m'. split; [exact E |]. split; [exact HK |]. split; [| exact R4].
  pose proof (io_bss im Hok). pose proof (dir_below_end im Hok). destruct (fd_ptes _ _ (so_fdt _ _ Hs)) as (_ & F4 & F5).
  intros a (K1 & K2 & K3). rewrite R3 by done. apply relocated_at. rewrite R2, R1; [done | done | done |].
  unfold P0, P1 in *. lia.
Qed.

(** ** A device tree that is one block *)

(** A word no relocation writes. *)
Lemma relocated_off l a : Forall (fun e => e.1 + kimage_off im <> a) l -> forall m, rd (relocated im l m) a = rd m a.
Proof.
  induction 1 as [|[off x] l He _ IH]; intros m; [done |].
  change (rd (relocated im l (wr m (off + kimage_off im) x)) a = rd m a). rewrite IH. by apply rd_wr_ne.
Qed.

(** The tables of the identity map are in their own area, which no
    relocation is for. *)
Definition idmap_kept (l : list (Z * Z)) : Prop := Forall (fun e => ~ (D0 <= e.1 + kimage_off im < L0)) l.

Lemma fdt_first_page fdt v n : fdt mod BLOCK = 0 -> fdt <= v < fdt + 4096 -> (1 <= n <= 3)%nat ->
  lindex n v = lindex n fdt /\ lindex 0 v = 0.
Proof.
  intros Hb Hv Hn. pose proof (Z.div_mod fdt BLOCK ltac:(done)) as Hd. rewrite Hb in Hd. unfold BLOCK in *. split.
  - unfold lindex. f_equal. apply div_slot. pose proof (proj1 (div_slot n fdt _) eq_refl) as Hs.
    assert (Hm : exists c, lsize n = c * 2 ^ 21).
    { exists (2 ^ (9 * (Z.of_nat n - 1))). unfold lsize. rewrite <- Z.pow_add_r by lia. f_equal. unfold lshift. lia. }
    destruct Hm as [c Hc]. rewrite Hc in *. nia.
  - unfold lindex. change (lsize 0) with 4096.
    assert (v / 4096 = fdt / 2 ^ 21 * 512) as ->; [| apply Z_mod_mult].
    symmetry. apply (Z.div_unique_pos _ _ _ (v - fdt)); lia.
Qed.

(** The entry of a block with the type bits of a page. *)
Lemma block_as_table fdt : fdt mod BLOCK = 0 -> 0 <= fdt < 2 ^ 48 ->
  let e := Z.lor (Z.lor fdt (_PAGE_KERNEL (use_ng im))) PG_DESC_TYPE_BLOCK in
  Z.testbit e 0 = true /\ Z.testbit e 1 = true /\ desc_addr 0 e = fdt.
Proof.
  intros Hb Hr e. set (a := desc_attr (_PAGE_KERNEL (use_ng im))).
  assert (He : e = Z.lor (Z.lor fdt a) 3).
  { unfold e, a. rewrite <- !Z.lor_assoc. f_equal. by destruct (use_ng im). }
  assert (Ha : attr_ok a) by apply desc_attr_ok.
  assert (Hp : fdt mod lsize 0 = 0) by (apply (mod_lsize_le 0 1); [lia | exact Hb]).
  destruct (leaf_bits 0 fdt a 3 ltac:(lia) Hp Ha ltac:(tauto)) as [B0 B1]. rewrite <- He in B0, B1.
  split; [exact B0 |]. split; [exact B1 |]. rewrite He. by apply (leaf_addr 0 fdt a 3); auto; lia.
Qed.

(** A word of a table of the path is as it was written, or cleared with the
    static tables. *)
Lemma table_words m fdt m1 m2 m' T T' mb p' b2 b1 :
  start_ok m fdt -> boot_run m fdt m1 m2 m' -> (forall b x, T !! b = Some x -> D0 <= b /\ b + 4096 <= L0) ->
  block_path fdt P1 D0 0 T m1 P0 T' mb p' b2 b1 -> idmap_kept (kernel_relocs im m) ->
  forall b y i, T' !! b = Some y -> 0 <= i < 512 -> rd m' (b + 8 * i) = 0 \/ rd m' (b + 8 * i) = rd m2 (b + 8 * i).
Proof.
  intros Hs HR Hin Hpath Hkept b y i Hy Hi. pose proof (io_order im Hok) as HO. pose proof (io_bss im Hok) as HB.
  pose proof (io_rela im Hok) as HL. pose proof (io_swapper im Hok) as HW. pose proof (id_area _ (so_idmap _ _ Hs)) as HA.
  destruct (fd_ptes _ _ (so_fdt _ _ Hs)) as (_ & F4 & F5). pose proof (bp_pool _ _ _ _ _ _ _ _ _ _ _ _ Hpath) as Hp.
  destruct (bp_new _ _ _ _ _ _ _ _ _ _ _ _ Hpath b y Hy) as [Hy' | Hy'].
  - right. specialize (Hin b y Hy'). rewrite (br_end _ _ _ _ _ HR) by (unfold D0, L0 in *; lia). apply relocated_off.
    eapply Forall_impl; [exact Hkept |]. intros e He Hx. apply He. unfold D0, L0 in *. lia.
  - left. apply (br_bss _ _ _ _ _ HR). unfold P0, P1 in *. lia.
Qed.

(** The first word of the device tree is untouched. *)
Lemma fdt_word m fdt m1 m2 m' : start_ok m fdt -> boot_run m fdt m1 m2 m' -> rd m' fdt = rd m fdt.
Proof.
  intros Hs HR. pose proof (io_order im Hok) as HO. pose proof (io_bss im Hok) as HB.
  pose proof (io_rela im Hok) as HL. pose proof (io_swapper im Hok) as HW. pose proof (id_area _ (so_idmap _ _ Hs)) as HA.
  destruct (fd_ptes _ _ (so_fdt _ _ Hs)) as (_ & F4 & F5). destruct (fd_place _ _ (so_fdt _ _ Hs)) as (_ & _ & Hpl).
  pose proof (dir_below_end im Hok).
  rewrite (br_end _ _ _ _ _ HR) by lia. rewrite relocated_off.
  - rewrite (br_tables _ _ _ _ _ HR), (br_early _ _ _ _ _ HR); unfold D0, L0, P0, P1 in *; try done; lia.
  - eapply Forall_impl; [exact (so_relocs _ _ Hs) |]. intros e (pa & Ee & [Hseg _ _] & _) Hx.
    unfold seg_va, kimage_off in *. lia.
Qed.

Lemma fdt_block_lost m ttbr1 fdt :
  start_ok m fdt -> fdt mod BLOCK = 0 -> fdt_end fdt = fdt + BLOCK ->
  Z.testbit (rd m fdt) 0 = false -> idmap_kept (kernel_relocs im m) ->
  exists m', boot_up m ttbr1 fdt = Done (BootSt m' (swapper_pg_dir im))
    /\ forall v, fdt <= v < fdt + 4096 -> walk 3 m' D0 v = None.
Proof.
  intros Hs Hb He Hmagic Hkept. destruct (boot_up_run m ttbr1 fdt Hs) as (m1 & m2 & m' & E & _ & HR).
  exists m'. split; [exact E |]. destruct (br_idmap _ _ _ _ _ HR) as [p1 HA].
  pose proof (fdt_ok_idmap m m1 fdt (so_fdt _ _ Hs) (so_idmap _ _ Hs) (br_early _ _ _ _ _ HR)) as Hf1.
  destruct (map_fdt_block m m1 p1 fdt (so_idmap _ _ Hs) HA Hf1 Hb He) as (m2' & T & T' & b2 & b1 & E2 & [Hin (mb & p' & Hpath & Em)]).
  rewrite (br_fdt _ _ _ _ _ HR) in E2. injection E2 as <-.
  pose proof (table_words m fdt m1 m2 m' T T' mb p' b2 b1 Hs HR Hin Hpath Hkept) as Hword.
  destruct (block_as_table fdt Hb) as (L1 & L2 & L3); [destruct (fd_place _ _ Hf1); unfold MAX_FDT_SIZE in *; lia |].
  intros v Hv. destruct (fdt_first_page fdt v 3 Hb Hv ltac:(lia)) as [I3 I0]. destruct (fdt_first_page fdt v 2 Hb Hv ltac:(lia)) as [I2 _].
  destruct (fdt_first_page fdt v 1 Hb Hv ltac:(lia)) as [I1 _]. destruct Hpath as [_ _ _ Hpg (A1 & A2 & A3) (B1 & B2 & B3) Hr H2 H1].
  assert (Hne : forall b y i, T' !! b = Some y -> b <> b1 -> 0 <= i < 512 -> rd m2 (b + 8 * i) = rd mb (b + 8 * i)).
  { intros b y i Hy Hn Hi. rewrite Em, rd_wr_ne; [done |]. intros Hx. apply Hn. pose proof (Hpg _ _ Hy) as G1. pose proof (Hpg _ _ H1) as G2.
    pose proof (Z.div_mod b 4096 ltac:(done)). pose proof (Z.div_mod b1 4096 ltac:(done)). pose proof (lindex_range 1 fdt). lia. }
  pose proof (lindex_range 3 fdt) as R3. pose proof (lindex_range 2 fdt) as R2. pose proof (lindex_range 1 fdt) as R1.
  cbn [walk]. rewrite I3, I2, I1, I0.
  destruct (Hword D0 _ (lindex 3 fdt) Hr R3) as [-> | ->]; [by rewrite Z.bits_0 |].
  rewrite (Hne D0 _ _ Hr) by (done || (intros ->; rewrite Hr in H1; discriminate H1)). rewrite A1, A2, A3.
  destruct (Hword b2 _ (lindex 2 fdt) H2 R2) as [-> | ->]; [by rewrite Z.bits_0 |].
  rewrite (Hne b2 _ _ H2) by (done || (intros ->; rewrite H2 in H1; discriminate H1)). rewrite B1, B2, B3.
  destruct (Hword b1 _ (lindex 1 fdt) H1 R1) as [-> | ->]; [by rewrite Z.bits_0 |].
  rewrite Em, rd_wr_eq. rewrite L1, L2, L3, Z.mul_0_r, Z.add_0_r.
  by rewrite (fdt_word m fdt m1 m2 m' Hs HR), Hmagic.
Qed.

(** ** The linear map *)

(** The pages of [g_ptep]: [EARLY_PAGES] of the memory and three. *)
Definition LINEAR_PTEP_PAGES : Z := 11.
Let G0 := g_ptep im.
Let G1 := g_ptep im + 4096 * LINEAR_PTEP_PAGES.

Definition linear_ok : Prop := G0 mod 4096 = 0 /\ __bss_start im <= G0 /\ G1 <= __pi_init_pg_dir im.

Definition linear_region : boot_region :=
  BootRegion PAGE_OFFSET (PAGE_OFFSET + RAM_SIZE) (RAM_BASE - PAGE_OFFSET)
    PG_PAGE_ENTRY_NORMAL_CACHEABLE_RW.

Lemma linear_args plan :
  (2%nat, PAGE_OFFSET / 2 ^ 39) ∈ plan ->
  call_args 0xffff plan RAM_BASE (RAM_BASE + RAM_SIZE) (phys_to_virt RAM_BASE)
    PG_PAGE_ENTRY_NORMAL_CACHEABLE_RW.
Proof.
  intros Hp. split; [done | | by intros k q _ |].
  { split; vm_compute; first [reflexivity | split; congruence | congruence]. }
  change (planned boot_blk plan 3 PAGE_OFFSET (PAGE_OFFSET + 2 ^ 30) (RAM_BASE - PAGE_OFFSET)).
  intros k q Hk Ha Hno. unfold slot_apart in Ha.
  destruct k as [|[|[|k]]]; [| | | lia].
  - exfalso. apply Hno. unfold block_at. change (lsize 1) with (2 ^ 21) in *.
    split; [done |]. unfold PAGE_OFFSET in *. split; [lia |]. split; [lia | done].
  - exfalso. apply Hno. unfold block_at. change (lsize 2) with (2 ^ 30) in *.
    split; [done |]. unfold PAGE_OFFSET in *. split; [lia |]. split; [lia | done].
  - change (lsize 3) with (2 ^ 39) in *.
    assert (q = PAGE_OFFSET / 2 ^ 39) as ->; [| done]. change (PAGE_OFFSET / 2 ^ 39) with (2 ^ 25 - 2 ^ 9).
    unfold PAGE_OFFSET in *. lia.
Qed.

Lemma linear_mapping_ok m :
  kernel_space im m -> linear_ok -> (forall a, __bss_start im <= a < __pi_init_pg_dir im -> rd m a = 0) ->
  exists m', linear_mapping_init im m = Done m'
    /\ forall v, v / 2 ^ 48 = 0xffff ->
         walk 3 m' (swapper_pg_dir im) v = br_walk (linear_region :: final_regions im) v.
Proof.
  intros (pnext & (T & HS & Hin & Hpn) & Hcopy) [A1 [A2 A3]] Hz.
  pose proof (io_order im Hok) as HO. pose proof (io_bss im Hok) as HB.
  pose proof (io_swapper im Hok) as HW. pose proof (dir_below_end im Hok) as HD.
  pose proof (io_pages im Hok) as HP. rewrite !Forall_cons in HP.
  assert (Hnew : T !! swapper_pg_dir im = None).
  { destruct (T !! swapper_pg_dir im) as [x|] eqn:E; [| done]. specialize (Hin _ _ E). lia. }
  assert (HM : exists T', boot_space (__pi_init_pg_end im) (swapper_pg_dir im) 0xffff (kernel_plan im)
                 T' m pnext (final_regions im)
               /\ forall b x, T' !! b = Some x ->
                    __pi_init_pg_dir im <= b \/ b + 4096 <= __init_begin im).
  { eexists. split.
    - eapply boot_space_move; [exact HS | done | tauto | lia | lia | left; lia | exact Hcopy].
    - intros b x Hb. apply lookup_insert_Some in Hb as [[<- _] | [_ Hb]]; [right; lia |].
      apply lookup_delete_Some in Hb as [_ Hb]. specialize (Hin b x Hb). lia. }
  destruct HM as (T' & HS' & Hin').
  set (plan := list_to_set ((map_to_list T').*2 ++ [(2%nat, PAGE_OFFSET / 2 ^ 39)]) : gset (nat * Z)).
  assert (Hbud : budget G1 plan T' G0).
  { apply budget_list. unfold G0, G1, LINEAR_PTEP_PAGES. simpl. lia. }
  unfold G0, G1, LINEAR_PTEP_PAGES in A1, A2, A3, Hbud.
  eapply boot_space_repool in HS'; [| exact A1 | | | | | exact Hbud]; [| lia | lia | | intros a Ha; apply Hz; lia].
  2: { intros b x Hb. destruct (Hin' b x Hb); [right | left]; lia. }
  destruct (boot_map _ _ _ _ _ _ _ _ RAM_BASE (RAM_BASE + RAM_SIZE) (phys_to_virt RAM_BASE)
              PG_PAGE_ENTRY_NORMAL_CACHEABLE_RW HS') as (T2 & m2 & p2 & E & _ & _ & HS2).
  { apply linear_args, elem_of_list_to_set, elem_of_app. right. by left. }
  { change (map_lo (phys_to_virt RAM_BASE)) with PAGE_OFFSET.
    change (map_hi (phys_to_virt RAM_BASE) RAM_BASE (RAM_BASE + RAM_SIZE)) with (PAGE_OFFSET + RAM_SIZE).
    repeat (constructor; [unfold br_clear; left; cbn; unfold seg_va, PAGE_OFFSET, IMAGE_VADDR, RAM_SIZE; lia |]).
    done. }
  exists m2. split.
  - unfold linear_mapping_init. unfold MAP_BLOCKS in E. by rewrite E.
  - intros v Hv. exact (bs_walk _ _ _ _ _ _ _ _ HS2 v Hv).
Qed.
End Start.

(** ** A board *)

(** An image of seven 64 KiB units at 2 MiB into memory, with one relocation,
    and the header of a device tree where the boot loader leaves it, at the
    start of memory. *)
Definition demo_image : image :=
  Image 0x40200000 0x40210000 0x40210000 0x40220000 0x40220000 0x40230000 0x40230000 0x40240000
    0x40240000 0x40270000 0x40248000 0x40260000 0x4026d000 0x4021e000 0x40230000 0x4023a000
    0x4023a000 0x4023a018 0x40248000 0x40251000 0x4025c000 false.

Definition demo_boot_mem : mem :=
  wr (wr (wr (wr ∅ 0x40000000 0xedfe0dd0) 0x4023a000 0xffff800000040100) 0x4023a008 1027) 0x4023a010 0xffff800000010000.

Lemma demo_image_ok : image_ok demo_image.
Proof.
  split.
  - cbn. lia.
  - repeat constructor.
  - cbn. lia.
  - vm_compute. congruence.
  - cbn. lia.
  - cbn. split; [lia |]. split; [lia |]. split; [lia | reflexivity].
  - repeat split; intros q; unfold seg_va, IMAGE_VADDR; cbn; lia.
Qed.

Lemma demo_start : start_ok demo_image demo_boot_mem RAM_BASE.
Proof.
  split.
  - split.
    + vm_compute. repeat split; congruence.
    + intros a Ha. cbn in Ha. unfold demo_boot_mem. rewrite !rd_wr_ne by lia. done.
  - split.
    + cbn. unfold MAX_FDT_SIZE, RAM_BASE. lia.
    + left. reflexivity.
    + vm_compute. repeat split; congruence.
    + intros a Ha. cbn in Ha. unfold demo_boot_mem. rewrite !rd_wr_ne by lia. done.
  - change (kernel_relocs demo_image demo_boot_mem) with [(0xffff800000040100, 0xffff800000010000)].
    constructor; [| done]. exists 0x40240100. split; [reflexivity |].
    split; [split; cbn; [lia | reflexivity | lia] |]. cbn. lia.
Qed.

(** ** Claims *)

(** C10: for an image none of whose segments spans an aligned 2 MiB block, and
    a device tree at any page boundary beside it (the boot loader's is at the
    start of memory), the start of the kernel, from [mmu_init_idmap_table] to
    the end of [early_map_kernel], returns with [swapper_pg_dir] as the root of the
    kernel's half: there every segment of the image is mapped at its linked
    address with the permissions of its kind and nothing else is mapped, and
    every word of the image that is not a table or cleared holds what it held
    before, with the relocations applied. *)
Theorem boot_maps_kernel im m ttbr1 fdt :
  image_ok im -> start_ok im m fdt ->
  exists m', boot_up im m ttbr1 fdt = Done (BootSt m' (swapper_pg_dir im))
    /\ (forall v, v / 2 ^ 48 = 0xffff ->
          walk 3 m' (swapper_pg_dir im) v = br_walk (final_regions im) v)
    /\ (forall a, kept_word im a -> rd m' a = rd (relocated im (kernel_relocs im m) m) a).
Proof.
  intros Hok Hs. destruct (boot_up_ok im Hok m ttbr1 fdt Hs) as (m' & E & HK & Hmem & _).
  exists m'. split; [exact E |]. split; [| exact Hmem].
  intros v Hv. by apply (kernel_space_walk im).
Qed.

Lemma boot_maps_kernel_witness :
  exists m', boot_up demo_image demo_boot_mem 0 RAM_BASE = Done (BootSt m' 0x4021e000)
    /\ walk 3 m' 0x4021e000 0xffff800000010008 = Some (0x40210008, desc_attr (_PAGE_KERNEL false))
    /\ rd m' 0x40240100 = 0xffff800000010000.
Proof.
  pose proof (boot_maps_kernel demo_image demo_boot_mem 0 RAM_BASE demo_image_ok demo_start)
    as (m' & E & Hwalk & Hmem).
  exists m'. split; [exact E |]. split.
  - rewrite Hwalk by reflexivity. reflexivity.
  - rewrite Hmem; [reflexivity |]. unfold kept_word. cbn. lia.
Defined.

(** C27: under the same conditions (no segment of the image spans an aligned
    2 MiB block; a device tree at a page boundary beside the image), after the
    start no address of the kernel's half is both writable and
    executable, and an address is executable exactly when it belongs to the
    code of the image. *)
Theorem kernel_code_protected im m ttbr1 fdt :
  image_ok im -> start_ok im m fdt ->
  exists m', boot_up im m ttbr1 fdt = Done (BootSt m' (swapper_pg_dir im))
    /\ forall v pa attr, v / 2 ^ 48 = 0xffff -> walk 3 m' (swapper_pg_dir im) v = Some (pa, attr) ->
         (writable attr = negb (executable attr))
         /\ (executable attr = true <->
             _stext im <= pa < _etext im \/ __inittext_begin im <= pa < __inittext_end im).
Proof.
  intros Hok Hs. destruct (boot_up_ok im Hok m ttbr1 fdt Hs) as (m' & E & HK & _).
  exists m'. split; [exact E |]. intros v pa attr Hv. rewrite (kernel_space_walk im) by done.
  pose proof (io_order im Hok) as HO. unfold final_regions, kernel_regions. cbn [br_walk].
  unfold br_in, seg_region, seg_va, kimage_off. cbn [br_lo br_hi br_off br_attr].
  destruct (use_ng im); repeat case_decide; intros Hw; try discriminate Hw;
    injection Hw as <- <-; (split; [reflexivity |]; split; [intros Hx; try discriminate Hx; lia |]);
    intros Hx; try reflexivity; exfalso; lia.
Qed.

Lemma kernel_code_protected_witness :
  exists m', boot_up demo_image demo_boot_mem 0 RAM_BASE = Done (BootSt m' 0x4021e000)
    /\ forall v pa attr, v / 2 ^ 48 = 0xffff -> walk 3 m' 0x4021e000 v = Some (pa, attr) ->
         (writable attr = negb (executable attr))
         /\ (executable attr = true <->
             0x40200000 <= pa < 0x40210000 \/ 0x40220000 <= pa < 0x40230000).
Proof.
  exact (kernel_code_protected demo_image demo_boot_mem 0 RAM_BASE demo_image_ok
           demo_start).
Defined.

(** C29: under the same conditions (no segment of the image spans an aligned
    2 MiB block; a device tree at a page boundary beside the image),
    [linear_mapping_init] after the start makes every byte of memory
    readable and writable at [phys_to_virt] and leaves the image's own
    mapping as it was; the alias of the code in the linear map is therefore
    writable. *)
Theorem linear_map_complete im m ttbr1 fdt :
  image_ok im -> start_ok im m fdt -> linear_ok im ->
  exists m1 m2, boot_up im m ttbr1 fdt = Done (BootSt m1 (swapper_pg_dir im))
    /\ linear_mapping_init im m1 = Done m2
    /\ (forall pa, RAM_BASE <= pa < RAM_BASE + RAM_SIZE ->
          walk 3 m2 (swapper_pg_dir im) (phys_to_virt pa)
          = Some (pa, PG_PAGE_ENTRY_NORMAL_CACHEABLE_RW))
    /\ (forall v, v / 2 ^ 48 = 0xffff -> ~ (PAGE_OFFSET <= v < PAGE_OFFSET + RAM_SIZE) ->
          walk 3 m2 (swapper_pg_dir im) v = walk 3 m1 (swapper_pg_dir im) v).
Proof.
  intros Hok Hs Hlin. destruct (boot_up_ok im Hok m ttbr1 fdt Hs) as (m1 & E & HK & _ & Hbss).
  destruct (linear_mapping_ok im Hok m1 HK Hlin Hbss) as (m2 & E2 & Hwalk).
  exists m1, m2. split; [exact E |]. split; [exact E2 |]. split.
  - intros pa Hpa. unfold phys_to_virt, LINER_MAP_OFFSET.
    assert (Hv : PAGE_OFFSET <= pa + (PAGE_OFFSET - RAM_BASE) < PAGE_OFFSET + RAM_SIZE) by lia.
    rewrite u64_small by (unfold PAGE_OFFSET, RAM_SIZE in *; lia).
    rewrite Hwalk.
    + cbn [br_walk]. rewrite decide_True by exact Hv. unfold linear_region. cbn [br_off br_attr].
      f_equal. f_equal. lia.
    + symmetry. apply (Z.div_unique_pos _ _ _ (pa - RAM_BASE)); unfold PAGE_OFFSET, RAM_SIZE in *; lia.
  - intros v Hv Hout. rewrite Hwalk, (kernel_space_walk im m1 v HK Hv) by done.
    cbn [br_walk]. by rewrite decide_False.
Qed.

Lemma linear_map_complete_witness :
  exists m1 m2, boot_up demo_image demo_boot_mem 0 RAM_BASE = Done (BootSt m1 0x4021e000)
    /\ linear_mapping_init demo_image m1 = Done m2
    /\ walk 3 m2 0x4021e000 0xffff000000200000 = Some (0x40200000, PG_PAGE_ENTRY_NORMAL_CACHEABLE_RW).
Proof.
  assert (Hlin : linear_ok demo_image) by (vm_compute; repeat split; congruence).
  pose proof (linear_map_complete demo_image demo_boot_mem 0 RAM_BASE demo_image_ok
    demo_start Hlin) as (m1 & m2 & E1 & E2 & Hram & _).
  exists m1, m2. split; [exact E1 |]. split; [exact E2 |].
  exact (Hram 0x40200000 ltac:(unfold RAM_BASE, RAM_SIZE; lia)).
Defined.

(** C35: a device tree that is an aligned block of 2 MiB, as the one the boot
    loader passes, is not mapped: its block entry carries the type bits of a
    page, which make it a table descriptor, so the walk takes the tree itself
    for a page table.  For every image and memory the start accepts, with the
    magic number in the header of the tree and no relocation for a word of the
    identity map's tables, no address of the first page of the tree
    translates after the start. *)
Theorem fdt_mapping_lost im m ttbr1 fdt :
  image_ok im -> start_ok im m fdt -> fdt mod 2 ^ 21 = 0 -> fdt + 2 ^ 21 <= _stext im \/ kimage_end im <= fdt ->
  rd m fdt mod 2 ^ 32 = 0xedfe0dd0 -> idmap_kept im (kernel_relocs im m) ->
  exists m', boot_up im m ttbr1 fdt = Done (BootSt m' (swapper_pg_dir im))
    /\ forall v, fdt <= v < fdt + 4096 -> walk 3 m' (__pi_init_idmap_pg_dir im) v = None.
Proof.
  intros Hok Hs Hb Hpl Hmagic Hkept. destruct (fd_place _ _ _ (so_fdt _ _ _ Hs)) as (F1 & F2 & _). unfold MAX_FDT_SIZE in F2.
  pose proof (io_order im Hok) as HO. apply fdt_block_lost; [done | done | done | | | done].
  - unfold fdt_end, MAX_FDT_SIZE, BLOCK. rewrite u64_small by lia. destruct (Z.ltb_spec fdt (_stext im)); lia.
  - rewrite <- (Z.mod_pow2_bits_low (rd m fdt) 32 0), Hmagic by lia. reflexivity.
Qed.

Lemma fdt_mapping_lost_witness :
  exists m', boot_up demo_image demo_boot_mem 0 RAM_BASE = Done (BootSt m' 0x4021e000)
    /\ walk 3 m' 0x40230000 (RAM_BASE + 8) = None.
Proof.
  destruct (fdt_mapping_lost demo_image demo_boot_mem 0 RAM_BASE demo_image_ok demo_start) as (m' & E & Hw).
  - reflexivity.
  - left. vm_compute. congruence.
  - vm_compute. reflexivity.
  - change (kernel_relocs demo_image demo_boot_mem) with [(0xffff800000040100, 0xffff800000010000)].
    constructor; [| done]. cbn. unfold kimage_off, IMAGE_VADDR. cbn. lia.
  - exists m'. split; [exact E |]. apply Hw. lia.
Defined.
