(* ===== verification/Loader.v ===== *)
(** * The program loader: [src/src/schedule/process.c], lines 381 to 945

    The package of user images that the kernel carries is parsed and checked
    here: the package header, the image descriptors, the ELF headers and
    segments, and the image metadata (arguments, environment, auxiliary
    vector, strings).  The package is a list of bytes placed at the address
    [B]; every load of the code goes through [peek], which faults ([Bug])
    when it leaves the package.  Pointers are 64-bit addresses and pointer
    arithmetic wraps around as in the code.  The success of the heap
    allocations is an input, a list of booleans (an exhausted list stands
    for success). *)

From S2P Require Import Prelude.

(** ** Formats ([process.h], [uapi/linux/elf.h]) *)

Definition PROCESS_MAX_COUNT : Z := 128.
Definition PROCESS_MAX_NAME_LEN : nat := 128.
Definition PROCESS_IMAGE_START : Z := 0x40000000.
Definition PROCESS_IMAGE_END : Z := PROCESS_IMAGE_START + 0x100000000.
Definition PROCESS_MAX_ARGV_COUNT : Z := 128.
Definition PROCESS_MAX_ENV_COUNT : Z := 128.
Definition PROCESS_MAX_AUXV_COUNT : Z := 128.
Definition PROCESS_MAX_IMAGE_SIZE : Z := 0x08000000.
Definition PROCESS_MAX_META_SIZE : Z := 0x00100000.
Definition PROC_PKG_MAGIC : Z := 0x504B4750.
Definition PROC_IMG_ELF : Z := 1.
Definition PROC_IMG_FLAT : Z := 2.
Definition sizeof_pkg_header : Z := 32.
Definition sizeof_image_desc : Z := 56.
Definition sizeof_image_meta : Z := 48.
Definition sizeof_auxv_entry : Z := 16.
Definition sizeof_ehdr : Z := 64.
Definition sizeof_phdr : Z := 56.
Definition EM_AARCH64 : Z := 183.
Definition PT_LOAD : Z := 1.

Record vmem_segment := mkSegment {
  seg_pa : Z;
  seg_va_start : Z;
  seg_va_end : Z;
  seg_flags : Z;
  seg_zero_start : Z;
  seg_zero_size : Z;
}.

(** [struct process_image]; the pointer arrays are lists of addresses. *)
Record process_image := mkImage {
  image_date : Z;
  image_date_size : Z;
  meta_data : Z;
  meta_size : Z;
  img_argc : Z;
  img_argv : list Z;
  img_env_count : Z;
  img_env : list Z;
  img_auxv_count : Z;
  img_auxv : list Z;
  img_stack_size : Z;
  entry_point : Z;
}.

(** The part of [struct process_struct] the loader fills: the name, the
    image and the list of segments from [vm_segments] to [vm_region_last]. *)
Record process := mkProcess {
  p_name : list Z;
  p_image : process_image;
  p_segments : list vmem_segment;
}.

(** [ALIGN] on a [u32] operand keeps the width of the operand. *)
Definition ALIGN32 (x a : Z) : Z := u32 (Z.land (u32 (x + (a - 1))) (Z.lnot (a - 1))).

Section Loader.
Context (B : Z) (blob : list Z) (kimage_voffset : Z).

(** ** Loads *)

Fixpoint le_bytes (l : list Z) : Z :=
  match l with
  | [] => 0
  | b :: l' => b + 256 * le_bytes l'
  end.

Definition in_blob (a n : Z) : bool := (B <=? a) && (a + n <=? B + Z.of_nat (length blob)).

(** A little-endian load of [n] bytes at the address [a]. *)
Definition peek (n : nat) (a : Z) : outcome Z :=
  if in_blob a (Z.of_nat n) then Done (le_bytes (take n (drop (Z.to_nat (a - B)) blob)))
  else Bug.

(** ** The package header *)

Definition check_pkg_header (base blob_size : Z) : outcome Z :=
  if blob_size <? sizeof_pkg_header then Done (- EINVAL) else
  let! magic := peek 4 base in
  if negb (magic =? PROC_PKG_MAGIC) then Done (- EINVAL) else
  let! version := peek 2 (base + 4) in
  if version <? 1 then Done (- EINVAL) else
  let! header_size := peek 2 (base + 6) in
  if (header_size <? sizeof_pkg_header) || (blob_size <? header_size) then Done (- EINVAL) else
  let! total_size := peek 8 (base + 24) in
  if (total_size <? header_size) || (blob_size <? total_size) then Done (- EINVAL) else
  let! image_count := peek 4 (base + 8) in
  if image_count =? 0 then Done (- EINVAL) else
  let! desc_size := peek 4 (base + 16) in
  if (U32_MAX / sizeof_image_desc <? image_count)
     || negb (desc_size =? u64 (image_count * sizeof_image_desc)) then Done (- EINVAL) else
  let! desc_offset := peek 4 (base + 12) in
  if (desc_offset <? header_size) || (total_size <=? desc_offset) then Done (- EINVAL) else
  if u64 (total_size - desc_offset) <? desc_size then Done (- EINVAL) else
  let desc_end := u32 (desc_offset + desc_size) in
  let payload_start := ALIGN_UP desc_end PAGE_SIZE in
  if total_size <? payload_start then Done (- EINVAL) else
  Done 0.

Definition check_image_desc (h d : Z) : outcome Z :=
  let! desc_offset := peek 4 (h + 12) in
  let! desc_size := peek 4 (h + 16) in
  let! total_size := peek 8 (h + 24) in
  let payload_start := ALIGN32 (u32 (desc_offset + desc_size)) PAGE_SIZE in
  let! image_offset := peek 8 (d + 8) in
  let! image_size := peek 8 (d + 16) in
  let! meta_offset := peek 8 (d + 24) in
  let! meta_size := peek 8 (d + 32) in
  if (total_size <=? image_offset) || (total_size <=? meta_offset) then Done (- EINVAL) else
  if (image_offset <? payload_start) || (meta_offset <? payload_start) then Done (- EINVAL) else
  if (image_size =? 0) || (PROCESS_MAX_IMAGE_SIZE <? image_size)
     || (meta_size =? 0) || (PROCESS_MAX_META_SIZE <? meta_size) then Done (- EINVAL) else
  if (u64 (total_size - image_offset) <? image_size)
     || (u64 (total_size - meta_offset) <? meta_size) then Done (- EINVAL) else
  if negb (Z.land image_offset 0xfff =? 0) || negb (Z.land meta_offset 0xfff =? 0)
  then Done (- EINVAL) else
  let! type := peek 4 d in
  if (type =? PROC_IMG_ELF) || (type =? PROC_IMG_FLAT) then Done 0 else Done (- EINVAL).

(** ** ELF images *)

Definition check_elf64_aarch64 (base size : Z) : outcome Z :=
  if size <? sizeof_ehdr then Done (- EINVAL) else
  let! mag0 := peek 1 base in
  let! mag1 := peek 1 (base + 1) in
  let! mag2 := peek 1 (base + 2) in
  let! mag3 := peek 1 (base + 3) in
  if negb (mag0 =? 0x7f) || negb (mag1 =? 69) || negb (mag2 =? 76) || negb (mag3 =? 70)
  then Done (- EINVAL) else
  let! class := peek 1 (base + 4) in
  if negb (class =? 2) then Done (- EINVAL) else
  let! data := peek 1 (base + 5) in
  if negb (data =? 1) then Done (- EINVAL) else
  let! e_machine := peek 2 (base + 18) in
  if negb (e_machine =? EM_AARCH64) then Done (- EINVAL) else
  let! e_phentsize := peek 2 (base + 54) in
  if negb (e_phentsize =? sizeof_phdr) then Done (- EINVAL) else
  let! e_phnum := peek 2 (base + 56) in
  if e_phnum =? 0 then Done (- EINVAL) else
  let! e_phoff := peek 8 (base + 32) in
  if size <? u64 (e_phoff + e_phnum * sizeof_phdr) then Done (- EINVAL) else
  Done 0.

Record phdr := mkPhdr {
  ph_type : Z;
  ph_flags : Z;
  ph_offset : Z;
  ph_vaddr : Z;
  ph_filesz : Z;
  ph_memsz : Z;
}.

Definition read_phdr (ph : Z) : outcome phdr :=
  let! type := peek 4 ph in
  let! flags := peek 4 (u64 (ph + 4)) in
  let! offset := peek 8 (u64 (ph + 8)) in
  let! vaddr := peek 8 (u64 (ph + 16)) in
  let! filesz := peek 8 (u64 (ph + 32)) in
  let! memsz := peek 8 (u64 (ph + 40)) in
  Done (mkPhdr type flags offset vaddr filesz memsz).

Definition check_elf_ph (ph : phdr) (elf_size : Z) : Z :=
  if elf_size <? ph_offset ph then - EINVAL
  else if u64 (elf_size - ph_offset ph) <? ph_filesz ph then - EINVAL
  else if ph_memsz ph <? ph_filesz ph then - EINVAL
  else if negb (Z.land (ph_vaddr ph) 0xfff =? Z.land (ph_offset ph) 0xfff) then - EINVAL
  else 0.

(** The walk over the segments; with no segment the code returns at once,
    which the empty list covers. *)
Fixpoint check_vmem_region_overlap (segments : list vmem_segment) (start end_ : Z) : Z :=
  match segments with
  | [] => 0
  | s :: rest =>
      if (end_ <=? seg_va_start s) || (seg_va_end s <=? start)
      then check_vmem_region_overlap rest start end_
      else - EINVAL
  end.

Definition check_section_region_valid (segments : list vmem_segment) (ph : phdr) : Z :=
  if (ph_vaddr ph <? PROCESS_IMAGE_START)
     || (PROCESS_IMAGE_END <? u64 (ph_vaddr ph + ph_memsz ph))
     || (u64 (ph_vaddr ph + ph_memsz ph) <? ph_vaddr ph) then - EINVAL
  else check_vmem_region_overlap segments (ph_vaddr ph) (ph_memsz ph).

(** [kzalloc]: does the next allocation succeed? *)
Definition kz (alloc : list bool) : bool * list bool :=
  match alloc with
  | [] => (true, [])
  | b :: rest => (b, rest)
  end.

(** The loop over the program headers, [n] headers left.  An error carries
    its code; a failed allocation of a segment is dereferenced by the code. *)
Fixpoint load_segments (n : nat) (ph elf_base elf_size : Z) (segments : list vmem_segment)
    (alloc : list bool) : outcome (Z * list vmem_segment * list bool) :=
  match n with
  | O => Done (0, segments, alloc)
  | S n' =>
      let! type := peek 4 ph in
      let next := u64 (ph + sizeof_phdr) in
      if negb (type =? PT_LOAD) then load_segments n' next elf_base elf_size segments alloc
      else
        let! p := read_phdr ph in
        let err := check_elf_ph p elf_size in
        if negb (err =? 0) then Done (err, segments, alloc)
        else
          let err := check_section_region_valid segments p in
          if negb (err =? 0) then Done (err, segments, alloc)
          else
            let '(ok, alloc) := kz alloc in
            if negb ok then Bug
            else
              let segment :=
                mkSegment (u64 (u64 (elf_base + ph_offset p) - kimage_voffset))
                  (ph_vaddr p) (u64 (ph_vaddr p + ph_memsz p)) (ph_flags p)
                  (u64 (elf_base + ph_offset p + ph_filesz p))
                  (u64 (ph_memsz p - ph_filesz p)) in
              load_segments n' next elf_base elf_size (segments ++ [segment]) alloc
  end.

Definition empty_image : process_image := mkImage 0 0 0 0 0 [] 0 [] 0 [] 0 0.

(** The error code, and the process when it is 0. *)
Definition load_user_elf (elf_base elf_size : Z) (alloc : list bool)
    : outcome (Z * process * list bool) :=
  let none := mkProcess [] empty_image [] in
  let! err := check_elf64_aarch64 elf_base elf_size in
  if negb (err =? 0) then Done (err, none, alloc)
  else
    let! e_phoff := peek 8 (elf_base + 32) in
    let! e_phnum := peek 2 (elf_base + 56) in
    let! e_entry := peek 8 (elf_base + 24) in
    let '(ok, alloc) := kz alloc in
    if negb ok then Done (- ENOMEM, none, alloc)
    else
      let! (err, segments, alloc) :=
        load_segments (Z.to_nat e_phnum) (u64 (elf_base + e_phoff)) elf_base elf_size [] alloc in
      if negb (err =? 0) then Done (err, none, alloc)
      else
        Done (0, mkProcess []
                   (mkImage elf_base (u32 elf_size) 0 0 0 [] 0 [] 0 [] 0 e_entry) segments, alloc).

(** ** Image metadata *)

Definition check_meta_array (offset count elem_size meta_size : Z) : Z :=
  if count =? 0 then 0
  else if meta_size <=? offset then - EINVAL
  else if u64 (meta_size - offset) <? u64 (count * elem_size) then - EINVAL
  else 0.

(** [strnlen] of [uboot_modified/lib/string.c]. *)
Fixpoint strnlen (count : nat) (s : Z) : outcome Z :=
  match count with
  | O => Done 0
  | S count' =>
      let! c := peek 1 s in
      if c =? 0 then Done 0 else let! n := strnlen count' (s + 1) in Done (1 + n)
  end.

Definition check_string_ref (string_table string_table_size str_off : Z) : outcome Z :=
  if string_table_size <=? str_off then Done (- EINVAL)
  else
    let remain := u32 (string_table_size - str_off) in
    let! len := strnlen (Z.to_nat remain) (string_table + str_off) in
    if len =? remain then Done (- EINVAL) else Done 0.

(** A loop over an array of string offsets, [n] elements left. *)
Fixpoint check_string_refs (n : nat) (offsets string_table string_table_size : Z)
    : outcome Z :=
  match n with
  | O => Done 0
  | S n' =>
      let! off := peek 4 offsets in
      let! err := check_string_ref string_table string_table_size off in
      if negb (err =? 0) then Done (- EINVAL)
      else check_string_refs n' (offsets + 4) string_table string_table_size
  end.

Record image_meta := mkMeta {
  mt_argv_count : Z;
  mt_env_count : Z;
  mt_auxv_count : Z;
  mt_string_table_size : Z;
  mt_name_offset : Z;
  mt_argv_offset : Z;
  mt_env_offset : Z;
  mt_auxv_offset : Z;
  mt_string_table_offset : Z;
  mt_stack_size : Z;
}.

Definition read_meta (meta : Z) : outcome image_meta :=
  let! argv_count := peek 4 meta in
  let! env_count := peek 4 (meta + 4) in
  let! auxv_count := peek 4 (meta + 8) in
  let! string_table_size := peek 4 (meta + 12) in
  let! name_offset := peek 4 (meta + 16) in
  let! argv_offset := peek 4 (meta + 20) in
  let! env_offset := peek 4 (meta + 24) in
  let! auxv_offset := peek 4 (meta + 28) in
  let! string_table_offset := peek 4 (meta + 32) in
  let! stack_size := peek 8 (meta + 40) in
  Done (mkMeta argv_count env_count auxv_count string_table_size name_offset argv_offset
          env_offset auxv_offset string_table_offset stack_size).

(** The checks that use the header fields only. *)
Definition check_meta_fields (m : image_meta) (meta_size : Z) : Z :=
  if (PROCESS_MAX_ARGV_COUNT <? mt_argv_count m) || (PROCESS_MAX_ENV_COUNT <? mt_env_count m)
     || (PROCESS_MAX_AUXV_COUNT <? mt_auxv_count m) then - EINVAL
  else if negb (check_meta_array (mt_argv_offset m) (mt_argv_count m) 4 meta_size =? 0)
          || negb (check_meta_array (mt_env_offset m) (mt_env_count m) 4 meta_size =? 0)
          || negb (check_meta_array (mt_auxv_offset m) (mt_auxv_count m) sizeof_auxv_entry
                     meta_size =? 0) then - EINVAL
  else if negb (mt_auxv_count m =? 0) && negb (Z.land (mt_auxv_offset m) 7 =? 0) then - EINVAL
  else if (meta_size <? mt_string_table_offset m)
          || (u64 (meta_size - mt_string_table_offset m) <? mt_string_table_size m) then - EINVAL
  else if (negb (mt_argv_count m =? 0) || negb (mt_env_count m =? 0))
          && (mt_string_table_size m =? 0) then - EINVAL
  else 0.

Definition check_image_meta (meta meta_size : Z) : outcome Z :=
  if meta_size <? sizeof_image_meta then Done (- EINVAL)
  else
    let! m := read_meta meta in
    if negb (check_meta_fields m meta_size =? 0) then Done (- EINVAL)
    else
      let string_table := meta + mt_string_table_offset m in
      let! err := check_string_ref string_table (mt_string_table_size m) (mt_name_offset m) in
      if negb (err =? 0) then Done (- EINVAL)
      else
        let! err := check_string_refs (Z.to_nat (mt_argv_count m)) (meta + mt_argv_offset m)
                      string_table (mt_string_table_size m) in
        if negb (err =? 0) then Done (- EINVAL)
        else
          let! err := check_string_refs (Z.to_nat (mt_env_count m)) (meta + mt_env_offset m)
                        string_table (mt_string_table_size m) in
          if negb (err =? 0) then Done (- EINVAL)
          else if negb (Z.land (mt_stack_size m) (PAGE_SIZE - 1) =? 0) then Done (- EINVAL)
          else Done 0.

(** [sized_strscpy(dest, src, count)] with [n = count - 1]: the bytes of
    [dest] before the terminator.  The last load only decides the result,
    which the loader ignores. *)
Fixpoint strscpy_bytes (n : nat) (src : Z) : outcome (list Z) :=
  match n with
  | O => let! _ := peek 1 src in Done []
  | S n' =>
      let! c := peek 1 src in
      if c =? 0 then Done []
      else let! l := strscpy_bytes n' (src + 1) in Done (c :: l)
  end.

(** [process->image.argv[i] = string_table + offsets[i]]. *)
Fixpoint string_ptrs (n : nat) (offsets string_table : Z) : outcome (list Z) :=
  match n with
  | O => Done []
  | S n' =>
      let! off := peek 4 offsets in
      let! l := string_ptrs n' (offsets + 4) string_table in
      Done (string_table + off :: l)
  end.

Definition load_user_meta (meta_base meta_size : Z) (p : process) : outcome (Z * process) :=
  let! err := check_image_meta meta_base meta_size in
  if negb (err =? 0) then Done (err, p)
  else
    let! m := read_meta meta_base in
    let string_table := meta_base + mt_string_table_offset m in
    let! name := strscpy_bytes (PROCESS_MAX_NAME_LEN - 1) (string_table + mt_name_offset m) in
    let! argv := string_ptrs (Z.to_nat (mt_argv_count m)) (meta_base + mt_argv_offset m)
                   string_table in
    let! env := string_ptrs (Z.to_nat (mt_env_count m)) (meta_base + mt_env_offset m)
                  string_table in
    let auxv := map (fun i => meta_base + mt_auxv_offset m + sizeof_auxv_entry * Z.of_nat i)
                  (seq 0 (Z.to_nat (mt_auxv_count m))) in
    let im := p_image p in
    Done (0, mkProcess name
               (mkImage (image_date im) (image_date_size im) meta_base (u32 meta_size)
                  (mt_argv_count m) argv (mt_env_count m) env (mt_auxv_count m) auxv
                  (mt_stack_size m) (entry_point im))
               (p_segments p)).

(** ** Images and packages *)

(** [g_processes] up to [g_processes_count], and the allocation outcomes. *)
Record loader := mkLoader {
  ld_processes : list process;
  ld_alloc : list bool;
}.

Definition process_add_to_global (s : loader) (p : process) : loader :=
  mkLoader (ld_processes s ++ [p]) (ld_alloc s).

Definition load_one_image (s : loader) (header index : Z) : outcome (Z * loader) :=
  let! desc_offset := peek 4 (header + 12) in
  let desc := header + desc_offset + index * sizeof_image_desc in
  let! err := check_image_desc header desc in
  if negb (err =? 0) then Done (err, s)
  else
    let! image_offset := peek 8 (desc + 8) in
    let! image_size := peek 8 (desc + 16) in
    let! meta_offset := peek 8 (desc + 24) in
    let! meta_size := peek 8 (desc + 32) in
    let! type := peek 4 desc in
    if type =? PROC_IMG_ELF then
      let! (err, p, alloc) := load_user_elf (header + image_offset) image_size (ld_alloc s) in
      let s := mkLoader (ld_processes s) alloc in
      if negb (err =? 0) then Done (err, s)
      else
        let! (err, p) := load_user_meta (header + meta_offset) meta_size p in
        if negb (err =? 0) then Done (err, s)
        else Done (0, process_add_to_global s p)
    else Done (- EINVAL, s).

(** The loop of [load_processes], [n] images left. *)
Fixpoint load_images (n : nat) (index : Z) (s : loader) (header loaded : Z)
    : outcome (Z * loader) :=
  match n with
  | O => Done (loaded, s)
  | S n' =>
      if PROCESS_MAX_COUNT <=? Z.of_nat (length (ld_processes s)) then Done (loaded, s)
      else
        let! (err, s) := load_one_image s header index in
        load_images n' (index + 1) s header (if err =? 0 then loaded + 1 else loaded)
  end.

Definition load_processes (s : loader) : outcome (Z * loader) :=
  let! err := check_pkg_header B (Z.of_nat (length blob)) in
  if negb (err =? 0) then Done (- ENOENT, s)
  else
    let! image_count := peek 4 (B + 8) in
    load_images (Z.to_nat image_count) 0 s B 0.
End Loader.
