(* ===== verification/LoaderSafety.v ===== *)
(** * The loader never leaves the package

    Whatever the bytes of the package, every load of the checks and of the
    image loader stays inside it, and a process is registered only when its
    segments lie in the user image window and its strings are terminated
    inside its metadata. *)

From S2P Require Import Prelude Loader.

Section Safety.
Context (B : Z) (blob : list Z) (kimage_voffset : Z).
Context (HB : 0 <= B) (Htop : B + Z.of_nat (length blob) < 2 ^ 64).
Context (Hbytes : Forall (fun b => 0 <= b < 256) blob).

Abbreviation len := (Z.of_nat (length blob)).
Abbreviation peek := (peek B blob).

(** ** Loads *)

Lemma le_bytes_range l :
  Forall (fun b => 0 <= b < 256) l -> 0 <= le_bytes l < 256 ^ Z.of_nat (length l).
Proof.
  induction 1 as [|b l Hb _ IH]; [done |]. cbn [le_bytes length].
  rewrite Nat2Z.inj_succ, Z.pow_succ_r by lia. lia.
Qed.

Lemma peek_in n a :
  B <= a -> a + Z.of_nat n <= B + len ->
  exists v, peek n a = Done v /\ 0 <= v < 256 ^ Z.of_nat n.
Proof.
  intros H1 H2. unfold Loader.peek, in_blob.
  rewrite (proj2 (Z.leb_le B a) H1), (proj2 (Z.leb_le _ _) H2). simpl.
  eexists. split; [done |].
  assert (Hl : length (take n (drop (Z.to_nat (a - B)) blob)) = n).
  { rewrite length_take, length_drop. lia. }
  pose proof (le_bytes_range (take n (drop (Z.to_nat (a - B)) blob))) as Hr. rewrite Hl in Hr.
  apply Hr. by apply Forall_take, Forall_drop.
Qed.

Lemma peek1 a : B <= a < B + len -> exists v, peek 1 a = Done v /\ 0 <= v < 256.
Proof. intros H. apply (peek_in 1 a); lia. Qed.
Lemma peek2 a : B <= a -> a + 2 <= B + len -> exists v, peek 2 a = Done v /\ 0 <= v < 2 ^ 16.
Proof. intros. apply (peek_in 2 a); lia. Qed.
Lemma peek4 a : B <= a -> a + 4 <= B + len -> exists v, peek 4 a = Done v /\ 0 <= v < 2 ^ 32.
Proof. intros. apply (peek_in 4 a); lia. Qed.
Lemma peek8 a : B <= a -> a + 8 <= B + len -> exists v, peek 8 a = Done v /\ 0 <= v < 2 ^ 64.
Proof. intros. apply (peek_in 8 a); lia. Qed.

(** Perform the next load of the goal, which must be in the package. *)
Ltac load v H :=
  let P := fresh "P" in
  match goal with
  | |- context [obind (Loader.peek B blob ?n ?a) _] =>
      lazymatch n with
      | 1%nat => destruct (peek1 a) as (v & P & H); [lia |]
      | 2%nat => destruct (peek2 a) as (v & P & H); [lia | lia |]
      | 4%nat => destruct (peek4 a) as (v & P & H); [lia | lia |]
      | 8%nat => destruct (peek8 a) as (v & P & H); [lia | lia |]
      end; rewrite ?P; cbn [obind]
  end.

(** A test that rejects: either it does, or its negation is known. *)
Ltac reject :=
  match goal with
  | |- context [if ?b then Done (- EINVAL) else _] =>
      let E := fresh "E" in
      destruct b eqn:E; [eexists; split; [reflexivity | done] |]; bool_facts
  end.

(** ** The package header *)

Record header_ok (desc_offset desc_size image_count total_size : Z) : Prop := {
  ho_total : total_size <= len;
  ho_desc : 32 <= desc_offset < total_size;
  ho_size : desc_size = image_count * 56;
  ho_in : desc_offset + desc_size <= total_size;
  ho_count : 0 < image_count < 2 ^ 32;
}.

Lemma check_pkg_header_safe :
  exists e, check_pkg_header B blob B len = Done e
    /\ (e = 0 -> exists desc_offset desc_size image_count total_size,
          peek 4 (B + 12) = Done desc_offset /\ peek 4 (B + 16) = Done desc_size
          /\ peek 4 (B + 8) = Done image_count /\ peek 8 (B + 24) = Done total_size
          /\ header_ok desc_offset desc_size image_count total_size).
Proof.
  unfold check_pkg_header, sizeof_pkg_header, sizeof_image_desc.
  reject. load magic Hm. reject. load ver Hv. reject. load hs Hhs. reject.
  load ts Hts. reject. load ic Hic. reject. load ds Hds. reject. load do Hdo. reject. reject. reject.
  eexists. split; [done |]. intros _. exists do, ds, ic, ts.
  do 4 (split; [done |]).
  assert (Hicb : ic <= 76695844) by (change (U32_MAX / 56) with 76695844 in *; lia).
  u64_hyps. split; lia.
Qed.

(** ** Descriptors *)

Record desc_ok (image_offset image_size meta_offset meta_size : Z) : Prop := {
  do_image : 0 <= image_offset /\ 0 < image_size /\ image_offset + image_size <= len;
  do_image_max : image_size <= PROCESS_MAX_IMAGE_SIZE;
  do_meta : 0 <= meta_offset /\ 0 < meta_size /\ meta_offset + meta_size <= len;
  do_meta_max : meta_size <= PROCESS_MAX_META_SIZE;
}.

Lemma check_image_desc_safe d do ds ic ts :
  peek 4 (B + 12) = Done do -> peek 4 (B + 16) = Done ds -> peek 8 (B + 24) = Done ts ->
  header_ok do ds ic ts -> B <= d -> d + 56 <= B + len ->
  exists e, check_image_desc B blob B d = Done e
    /\ (e = 0 -> exists io isz mo msz,
          peek 8 (d + 8) = Done io /\ peek 8 (d + 16) = Done isz
          /\ peek 8 (d + 24) = Done mo /\ peek 8 (d + 32) = Done msz
          /\ desc_ok io isz mo msz).
Proof.
  intros P1 P2 P3 [H1 H2 H3 H4 H5] Hd1 Hd2. unfold check_image_desc. rewrite P1, P2, P3.
  cbn [obind]. load io Hio. load isz His. load mo Hmo. load msz Hms.
  reject. reject. reject. reject. reject. load ty Hty.
  match goal with |- context [if ?b then Done 0 else _] => destruct b end;
    [| eexists; split; [done | done]].
  eexists. split; [done |]. intros _. exists io, isz, mo, msz. do 4 (split; [done |]).
  u64_hyps. split; lia.
Qed.

(** ** ELF images *)

Lemma check_elf_safe base size :
  B <= base -> base + size <= B + len ->
  exists e, check_elf64_aarch64 B blob base size = Done e
    /\ (e = 0 -> 64 <= size /\ exists phoff phnum,
          peek 8 (base + 32) = Done phoff /\ peek 2 (base + 56) = Done phnum
          /\ 0 <= phoff < 2 ^ 64 /\ 0 < phnum < 2 ^ 16 /\ u64 (phoff + phnum * 56) <= size).
Proof.
  intros Hb1 Hb2. unfold check_elf64_aarch64, sizeof_ehdr, sizeof_phdr. reject.
  load m0 H0. load m1 H1. load m2 H2. load m3 H3. reject. load cl Hcl. reject. load dt Hdt. reject.
  load em Hem. reject. load pe Hpe. reject. load pn Hpn. reject. load po Hpo. reject.
  eexists. split; [done |]. intros _. split; [lia |]. exists po, pn. do 4 (split; [done || lia |]).
  lia.
Qed.

(** What is known of a registered segment. *)
Record seg_ok (s : vmem_segment) : Prop := {
  so_window : PROCESS_IMAGE_START <= seg_va_start s /\ seg_va_start s <= seg_va_end s
              /\ seg_va_end s <= PROCESS_IMAGE_END;
  so_file : B <= seg_zero_start s <= B + len;
  so_size : 0 <= seg_zero_size s <= seg_va_end s - seg_va_start s;
}.

Definition all_succeed (alloc : list bool) : Prop := Forall (eq true) alloc.

Lemma kz_succeeds alloc :
  all_succeed alloc -> exists rest, kz alloc = (true, rest) /\ all_succeed rest.
Proof.
  intros H. destruct H as [|b rest <- H]; [exists []; by split; [| constructor] |].
  exists rest. done.
Qed.

Lemma read_phdr_safe ph :
  B <= ph -> ph + 56 <= B + len ->
  exists p, read_phdr B blob ph = Done p /\ 0 <= ph_offset p < 2 ^ 64 /\ 0 <= ph_vaddr p < 2 ^ 64
    /\ 0 <= ph_filesz p < 2 ^ 64 /\ 0 <= ph_memsz p < 2 ^ 64.
Proof.
  intros H1 H2. unfold read_phdr. rewrite !u64_small by lia.
  load a Ha. load b Hb. load c Hc. load d Hd. load e He. load f Hf.
  eexists. split; [done |]. done.
Qed.

Lemma segment_checked elf_base elf_size p segs x :
  B <= elf_base -> elf_base + elf_size <= B + len -> 0 <= elf_size ->
  0 <= ph_offset p < 2 ^ 64 -> 0 <= ph_vaddr p < 2 ^ 64 ->
  0 <= ph_filesz p < 2 ^ 64 -> 0 <= ph_memsz p < 2 ^ 64 ->
  check_elf_ph p elf_size = 0 -> check_section_region_valid segs p = 0 ->
  seg_ok (mkSegment x (ph_vaddr p) (u64 (ph_vaddr p + ph_memsz p)) (ph_flags p)
            (u64 (elf_base + ph_offset p + ph_filesz p)) (u64 (ph_memsz p - ph_filesz p))).
Proof.
  intros H1 H2 H2' H3 H4 H5 H6 Hc Hv. unfold check_elf_ph in Hc. unfold check_section_region_valid in Hv.
  destruct (elf_size <? ph_offset p) eqn:E1; [done |].
  destruct (u64 (elf_size - ph_offset p) <? ph_filesz p) eqn:E2; [done |].
  destruct (ph_memsz p <? ph_filesz p) eqn:E3; [done |].
  destruct ((_ <? _) || _ || _) eqn:E4 in Hv; [done |]. bool_facts.
  rewrite (u64_small (elf_size - _)) in E2 by lia.
  assert (Hw : u64 (ph_vaddr p + ph_memsz p) = ph_vaddr p + ph_memsz p).
  { destruct (Z.lt_ge_cases (ph_vaddr p + ph_memsz p) (2 ^ 64)); [apply u64_small; lia |].
    exfalso. assert (u64 (ph_vaddr p + ph_memsz p) = ph_vaddr p + ph_memsz p - 2 ^ 64).
    { unfold u64. symmetry. apply (Z.mod_unique_pos _ _ 1); lia. }
    lia. }
  rewrite Hw in *. split; simpl; rewrite ?u64_small by lia; lia.
Qed.

Lemma load_segments_safe elf_base elf_size n : forall ph segs alloc,
  B <= elf_base -> elf_base + elf_size <= B + len -> 0 <= elf_size ->
  B <= ph -> ph + 56 * Z.of_nat n <= B + len -> all_succeed alloc -> Forall seg_ok segs ->
  exists e segs' alloc',
    load_segments B blob kimage_voffset n ph elf_base elf_size segs alloc = Done (e, segs', alloc')
    /\ all_succeed alloc' /\ Forall seg_ok segs'.
Proof.
  induction n as [|n IH]; intros ph segs alloc H1 H2 H3 H4 H5 Ha Hs; cbn [load_segments].
  { eauto 8. }
  load ty Hty. unfold sizeof_phdr. destruct (ty =? PT_LOAD); cbn [negb].
  2:{ destruct n as [|n]; [cbn [load_segments]; eauto 8 |]. rewrite u64_small by lia.
      apply IH; try done; lia. }
  destruct (read_phdr_safe ph) as (p & -> & R1 & R2 & R3 & R4); [lia | lia |]. cbn [obind].
  destruct (check_elf_ph p elf_size =? 0) eqn:E1; cbn [negb]; [| eauto 8].
  destruct (check_section_region_valid segs p =? 0) eqn:E2; cbn [negb]; [| eauto 8].
  bool_facts. destruct (kz_succeeds alloc Ha) as (rest & -> & Hr). cbn [negb].
  assert (Hs' : forall x, Forall seg_ok (segs ++ [mkSegment x (ph_vaddr p)
      (u64 (ph_vaddr p + ph_memsz p)) (ph_flags p)
      (u64 (elf_base + ph_offset p + ph_filesz p)) (u64 (ph_memsz p - ph_filesz p))])).
  { intros x. apply Forall_app. split; [done |]. constructor; [| constructor].
    by apply (segment_checked elf_base elf_size p segs). }
  destruct n as [|n]; [cbn [load_segments]; eauto 8 |]. rewrite (u64_small (ph + 56)) by lia.
  apply IH; try done; lia.
Qed.

(** The sum that [check_elf64_aarch64] forms in 64 bits does not wrap. *)
Definition phoff_ok (elf_base : Z) : Prop :=
  forall phoff phnum, peek 8 (elf_base + 32) = Done phoff -> peek 2 (elf_base + 56) = Done phnum ->
    phoff + phnum * 56 < 2 ^ 64.

Lemma load_user_elf_safe elf_base elf_size alloc :
  B <= elf_base -> elf_base + elf_size <= B + len -> 0 <= elf_size -> phoff_ok elf_base ->
  all_succeed alloc ->
  exists e p alloc', load_user_elf B blob kimage_voffset elf_base elf_size alloc
                     = Done (e, p, alloc')
    /\ all_succeed alloc' /\ (e = 0 -> Forall seg_ok (p_segments p)).
Proof.
  intros H1 H2 H3 Hph Ha. unfold load_user_elf.
  destruct (check_elf_safe elf_base elf_size H1 H2) as (e & -> & Hok). cbn [obind].
  destruct (e =? 0) eqn:E; cbn [negb]; bool_facts.
  2:{ do 3 eexists. split; [done |]. split; [done |]. intros; subst; done. }
  destruct (Hok E) as (Hs & phoff & phnum & P1 & P2 & P3 & P4 & P5). rewrite P1, P2. cbn [obind].
  load en Hen. destruct (kz_succeeds alloc Ha) as (rest & -> & Hr). cbn [negb].
  specialize (Hph phoff phnum P1 P2). rewrite u64_small in P5 by lia. rewrite u64_small by lia.
  destruct (load_segments_safe elf_base elf_size (Z.to_nat phnum) (elf_base + phoff) [] rest)
    as (e2 & segs & al & -> & A1 & A2); try done; try lia. cbn [obind].
  destruct (e2 =? 0) eqn:E2; cbn [negb]; bool_facts;
    do 3 eexists; (split; [done |]); (split; [done |]); [done | intros; subst; done].
Qed.

(** An identification the loader takes, and the place and number of the
    program headers. *)
Record elf_header (base phoff phnum : Z) : Prop := {
  eh_magic : peek 1 base = Done 0x7f /\ peek 1 (base + 1) = Done 69 /\ peek 1 (base + 2) = Done 76
             /\ peek 1 (base + 3) = Done 70;
  eh_kind : peek 1 (base + 4) = Done 2 /\ peek 1 (base + 5) = Done 1 /\ peek 2 (base + 18) = Done EM_AARCH64;
  eh_size : peek 2 (base + 54) = Done sizeof_phdr;
  eh_num : peek 2 (base + 56) = Done phnum;
  eh_off : peek 8 (base + 32) = Done phoff;
  eh_pos : 0 < phnum;
}.

Lemma wrap_check base size phoff phnum :
  elf_header base phoff phnum -> sizeof_ehdr <= size -> 2 ^ 64 <= phoff + phnum * sizeof_phdr <= 2 ^ 64 + size ->
  size < 2 ^ 64 -> check_elf64_aarch64 B blob base size = Done 0.
Proof.
  intros [(M0 & M1 & M2 & M3) (K1 & K2 & K3) S N O P] Hs Hw Hb. unfold check_elf64_aarch64.
  rewrite (proj2 (Z.ltb_ge _ _) Hs), M0, M1, M2, M3. cbn [obind Z.eqb Pos.eqb negb orb]. rewrite K1, K2, K3, S, N, O.
  cbn [obind Z.eqb Pos.eqb negb orb]. rewrite !Z.eqb_refl, (proj2 (Z.eqb_neq phnum 0)) by lia. cbn [negb].
  destruct (decide (phoff + phnum * sizeof_phdr = 2 ^ 64 + size)) as [E | E]; unfold u64.
  - rewrite E. rewrite <- (Z.mul_1_l (2 ^ 64)) at 1. rewrite Z.add_comm, Z_mod_plus_full, Z.mod_small by lia.
    by rewrite Z.ltb_irrefl.
  - rewrite (proj2 (Z.ltb_ge size _)); [done |].
    replace (phoff + phnum * sizeof_phdr) with (phoff + phnum * sizeof_phdr - 2 ^ 64 + 1 * 2 ^ 64) by lia.
    rewrite Z_mod_plus_full, Z.mod_small by lia. lia.
Qed.

Lemma wrap_elf_faults base size phoff phnum alloc :
  elf_header base phoff phnum -> sizeof_ehdr <= size -> 2 ^ 64 <= phoff + phnum * sizeof_phdr <= 2 ^ 64 + size ->
  B <= base -> base + size <= B + len -> base - B < 2 ^ 64 - phoff <= base -> all_succeed alloc ->
  load_user_elf B blob kimage_voffset base size alloc = Bug.
Proof.
  intros Hh Hs Hw H1 H2 H3 Ha. unfold load_user_elf. rewrite (wrap_check base size phoff phnum) by (done || lia).
  destruct Hh as [_ _ _ N O P]. unfold sizeof_ehdr in Hs. cbn [obind Z.eqb negb]. rewrite O, N. cbn [obind].
  load en Hen. destruct (kz_succeeds alloc Ha) as (rest & -> & _). cbn [negb].
  replace (Z.to_nat phnum) with (S (Z.to_nat (phnum - 1))) by lia. cbn [load_segments].
  replace (u64 (base + phoff)) with (base + phoff - 2 ^ 64).
  - unfold Loader.peek, in_blob. rewrite (proj2 (Z.leb_gt B _)) by lia. done.
  - unfold u64. replace (base + phoff) with (base + phoff - 2 ^ 64 + 1 * 2 ^ 64) at 2 by lia.
    rewrite Z_mod_plus_full, Z.mod_small; lia.
Qed.

(** ** Strings and metadata *)

(** A terminated string that ends before [lim]. *)
Definition terminated (lim a : Z) : Prop :=
  B <= a /\ exists n, 0 <= n /\ a + n < lim /\ peek 1 (a + n) = Done 0.

Lemma strnlen_safe count : forall s,
  B <= s -> s + Z.of_nat count <= B + len ->
  exists n, strnlen B blob count s = Done n /\ 0 <= n <= Z.of_nat count
    /\ (n < Z.of_nat count -> peek 1 (s + n) = Done 0).
Proof.
  induction count as [|count IH]; intros s H1 H2; cbn [strnlen].
  { exists 0. split; [done |]. split; [lia | lia]. }
  load c Hc. destruct (c =? 0) eqn:E; bool_facts.
  - exists 0. split; [done |]. split; [lia |]. intros _. rewrite Z.add_0_r, P. by rewrite E.
  - destruct (IH (s + 1)) as (n & -> & Hn & Ht); [lia | lia |]. cbn [obind].
    exists (1 + n). split; [done |]. split; [lia |]. intros Hlt.
    replace (s + (1 + n)) with (s + 1 + n) by lia. apply Ht. lia.
Qed.

Lemma check_string_ref_safe tbl tsz off :
  B <= tbl -> tbl + tsz <= B + len -> 0 <= tsz < 2 ^ 32 -> 0 <= off ->
  exists e, check_string_ref B blob tbl tsz off = Done e
    /\ (e = 0 -> terminated (tbl + tsz) (tbl + off)).
Proof.
  intros H1 H2 H3 H4. unfold check_string_ref. reject. rewrite u32_small by lia.
  destruct (strnlen_safe (Z.to_nat (tsz - off)) (tbl + off)) as (n & -> & Hn & Ht); [lia | lia |].
  cbn [obind]. destruct (n =? tsz - off) eqn:E1; bool_facts; eexists; (split; [done |]); [done |].
  intros _. split; [lia |]. exists n. split; [lia |]. split; [lia |]. apply Ht. lia.
Qed.

Lemma check_string_refs_safe tbl tsz n : forall offs,
  B <= tbl -> tbl + tsz <= B + len -> 0 <= tsz < 2 ^ 32 ->
  B <= offs -> (n <> 0%nat -> offs + 4 * Z.of_nat n <= B + len) ->
  exists e, check_string_refs B blob n offs tbl tsz = Done e
    /\ (e = 0 -> exists l, string_ptrs B blob n offs tbl = Done l
          /\ length l = n /\ Forall (terminated (tbl + tsz)) l).
Proof.
  induction n as [|n IH]; intros offs H1 H2 H3 H4 H5; cbn [check_string_refs string_ptrs].
  { exists 0. split; [done |]. intros _. exists []. done. }
  specialize (H5 ltac:(done)). load off Ho. destruct (check_string_ref_safe tbl tsz off) as (e & -> & Ht); try lia.
  cbn [obind]. destruct (e =? 0) eqn:E; cbn [negb]; bool_facts; [| eexists; done].
  destruct (IH (offs + 4)) as (e2 & -> & Hl); try lia. exists e2. split; [done |]. intros He.
  destruct (Hl He) as (l & -> & L1 & L2). cbn [obind]. exists (tbl + off :: l).
  split; [done |]. split; [simpl; lia |]. constructor; auto.
Qed.

Lemma strscpy_safe n : forall src,
  terminated (B + len) src ->
  exists l, strscpy_bytes B blob n src = Done l /\ (length l <= n)%nat.
Proof.
  induction n as [|n IH]; intros src (H1 & k & K1 & K2 & K3); cbn [strscpy_bytes].
  { load c Hc. exists []. split; [done | simpl; lia]. }
  load c Hc. destruct (c =? 0) eqn:E; bool_facts; [exists []; split; [done | simpl; lia] |].
  assert (k <> 0) by (intros ->; rewrite Z.add_0_r in K3; congruence).
  destruct (IH (src + 1)) as (l & -> & Hl).
  { split; [lia |]. exists (k - 1). split; [lia |]. split; [lia |].
    by replace (src + 1 + (k - 1)) with (src + k) by lia. }
  cbn [obind]. exists (c :: l). split; [done | simpl; lia].
Qed.

Lemma read_meta_safe meta :
  B <= meta -> meta + 48 <= B + len ->
  exists m, read_meta B blob meta = Done m
    /\ 0 <= mt_argv_count m < 2 ^ 32 /\ 0 <= mt_env_count m < 2 ^ 32
    /\ 0 <= mt_auxv_count m < 2 ^ 32 /\ 0 <= mt_string_table_size m < 2 ^ 32
    /\ 0 <= mt_name_offset m < 2 ^ 32 /\ 0 <= mt_argv_offset m < 2 ^ 32
    /\ 0 <= mt_env_offset m < 2 ^ 32 /\ 0 <= mt_auxv_offset m < 2 ^ 32
    /\ 0 <= mt_string_table_offset m < 2 ^ 32.
Proof.
  intros H1 H2. unfold read_meta.
  load a Ha. load b Hb. load c Hc. load d Hd. load e He. load f Hf. load g Hg. load h Hh.
  load i Hi. load j Hj. eexists. split; [done |]. done.
Qed.

Lemma meta_array_in off count esz msz :
  0 <= off -> 0 <= count < 2 ^ 32 -> 0 < esz <= 16 -> 0 <= msz < 2 ^ 63 ->
  check_meta_array off count esz msz = 0 -> count <> 0 -> off + count * esz <= msz.
Proof.
  intros H1 H2 H3 H4 Hc Hne. unfold check_meta_array in Hc.
  destruct (count =? 0) eqn:E0; bool_facts; [done |].
  destruct (msz <=? off) eqn:E1; bool_facts; [done |].
  destruct (u64 (msz - off) <? u64 (count * esz)) eqn:E2; bool_facts; [done |].
  assert (0 <= count * esz <= 2 ^ 32 * 16) by nia.
  rewrite !u64_small in E2 by lia. lia.
Qed.

Lemma meta_fields_ok m msz :
  0 <= mt_argv_count m -> 0 <= mt_env_count m -> 0 <= mt_auxv_count m ->
  0 <= mt_argv_offset m -> 0 <= mt_env_offset m -> 0 <= mt_auxv_offset m ->
  0 <= mt_string_table_offset m -> 0 <= msz < 2 ^ 63 ->
  check_meta_fields m msz = 0 ->
  mt_argv_count m <= 128 /\ mt_env_count m <= 128 /\ mt_auxv_count m <= 128
  /\ (mt_argv_count m <> 0 -> mt_argv_offset m + mt_argv_count m * 4 <= msz)
  /\ (mt_env_count m <> 0 -> mt_env_offset m + mt_env_count m * 4 <= msz)
  /\ (mt_auxv_count m <> 0 -> mt_auxv_offset m + mt_auxv_count m * 16 <= msz)
  /\ mt_string_table_offset m + mt_string_table_size m <= msz.
Proof.
  intros A1 A2 A3 A4 A5 A6 A7 A8 Hc. unfold check_meta_fields in Hc.
  unfold PROCESS_MAX_ARGV_COUNT, PROCESS_MAX_ENV_COUNT, PROCESS_MAX_AUXV_COUNT in Hc.
  repeat match type of Hc with
  | (if ?b then _ else _) = 0 => let E := fresh "E" in destruct b eqn:E; [done |]
  end.
  bool_facts. u64_hyps. split; [lia |]. split; [lia |]. split; [lia |].
  split; [intros; apply meta_array_in; (done || lia) |].
  split; [intros; apply meta_array_in; (done || lia) |].
  split; [intros; apply (meta_array_in _ _ sizeof_auxv_entry); (done || lia) |]. lia.
Qed.

(** What is known of a registered process. *)
Record proc_ok (p : process) : Prop := {
  pk_segments : Forall seg_ok (p_segments p);
  pk_name : (length (p_name p) < PROCESS_MAX_NAME_LEN)%nat;
  pk_meta : B <= meta_data (p_image p)
            /\ meta_data (p_image p) + meta_size (p_image p) <= B + len;
  pk_argc : Z.of_nat (length (img_argv (p_image p))) = img_argc (p_image p)
            /\ img_argc (p_image p) <= PROCESS_MAX_ARGV_COUNT;
  pk_argv : Forall (terminated (meta_data (p_image p) + meta_size (p_image p)))
              (img_argv (p_image p));
  pk_envc : Z.of_nat (length (img_env (p_image p))) = img_env_count (p_image p)
            /\ img_env_count (p_image p) <= PROCESS_MAX_ENV_COUNT;
  pk_env : Forall (terminated (meta_data (p_image p) + meta_size (p_image p)))
             (img_env (p_image p));
  pk_auxc : Z.of_nat (length (img_auxv (p_image p))) = img_auxv_count (p_image p)
            /\ img_auxv_count (p_image p) <= PROCESS_MAX_AUXV_COUNT;
  pk_auxv : Forall (fun a => meta_data (p_image p) <= a
              /\ a + sizeof_auxv_entry <= meta_data (p_image p) + meta_size (p_image p))
              (img_auxv (p_image p));
}.

Lemma terminated_weaken lim lim' a : lim <= lim' -> terminated lim a -> terminated lim' a.
Proof. intros Hl (H1 & n & N1 & N2 & N3). split; [done |]. exists n. split; [done |]. split; [lia | done]. Qed.

Lemma auxv_in meta off count msz :
  0 <= off -> 0 <= count -> (count <> 0 -> off + count * 16 <= msz) ->
  Forall (fun a => meta <= a /\ a + sizeof_auxv_entry <= meta + msz)
    (map (fun i => meta + off + sizeof_auxv_entry * Z.of_nat i) (seq 0 (Z.to_nat count))).
Proof.
  intros H1 H2 H3. apply Forall_map, Forall_seq. intros i Hi. simpl in Hi. unfold sizeof_auxv_entry.
  simpl. lia.
Qed.

Lemma load_user_meta_safe meta msz p :
  B <= meta -> meta + msz <= B + len -> 0 <= msz <= PROCESS_MAX_META_SIZE ->
  Forall seg_ok (p_segments p) ->
  exists e p', load_user_meta B blob meta msz p = Done (e, p') /\ (e = 0 -> proc_ok p').
Proof.
  intros H1 H2 H3 Hs. unfold PROCESS_MAX_META_SIZE in H3.
  unfold load_user_meta, check_image_meta, sizeof_image_meta.
  destruct (msz <? 48) eqn:E0; [by do 2 eexists |]. bool_facts.
  destruct (read_meta_safe meta) as (m & Hm & M1 & M2 & M3 & M4 & M5 & M6 & M7 & M8 & M9); [lia | lia |].
  rewrite Hm. cbn [obind].
  destruct (check_meta_fields m msz =? 0) eqn:E1; cbn [negb]; [| by do 2 eexists]. bool_facts.
  destruct (meta_fields_ok m msz) as (F1 & F2 & F3 & F4 & F5 & F6 & F7); try done; try lia.
  set (tbl := meta + mt_string_table_offset m).
  destruct (check_string_ref_safe tbl (mt_string_table_size m) (mt_name_offset m))
    as (e & -> & Hname); try lia. cbn [obind].
  destruct (e =? 0) eqn:E2; cbn [negb]; [| by do 2 eexists]. bool_facts. specialize (Hname E2).
  destruct (check_string_refs_safe tbl (mt_string_table_size m) (Z.to_nat (mt_argv_count m))
    (meta + mt_argv_offset m)) as (e3 & -> & Hargv); try lia. cbn [obind].
  destruct (e3 =? 0) eqn:E3; cbn [negb]; [| by do 2 eexists]. bool_facts.
  destruct (check_string_refs_safe tbl (mt_string_table_size m) (Z.to_nat (mt_env_count m))
    (meta + mt_env_offset m)) as (e4 & -> & Henv); try lia. cbn [obind].
  destruct (e4 =? 0) eqn:E4; cbn [negb]; [| by do 2 eexists]. bool_facts.
  destruct (Z.land (mt_stack_size m) (PAGE_SIZE - 1) =? 0); cbn [negb obind]; [| by do 2 eexists].
  destruct (Hargv E3) as (av & -> & A1 & A2). destruct (Henv E4) as (ev & -> & V1 & V2).
  rewrite Z.eqb_refl. cbn [negb].
  destruct (strscpy_safe (PROCESS_MAX_NAME_LEN - 1) (tbl + mt_name_offset m)) as (nm & -> & Hn).
  { by apply (terminated_weaken (tbl + mt_string_table_size m)); [lia |]. }
  cbn [obind]. do 2 eexists. split; [done |]. intros _.
  assert (Hw : forall a, terminated (tbl + mt_string_table_size m) a -> terminated (meta + msz) a).
  { intros a. apply terminated_weaken. lia. }
  split; simpl; rewrite ?(u32_small msz) by lia; try done.
  - unfold PROCESS_MAX_NAME_LEN in *. lia.
  - unfold PROCESS_MAX_ARGV_COUNT. lia.
  - eapply Forall_impl; [exact A2 | auto].
  - unfold PROCESS_MAX_ENV_COUNT. lia.
  - eapply Forall_impl; [exact V2 | auto].
  - rewrite length_map, length_seq. unfold PROCESS_MAX_AUXV_COUNT. lia.
  - by apply auxv_in; lia.
Qed.

(** ** Packages *)

(** No image of the package wraps its program header offset. *)
Definition package_phoff_ok : Prop :=
  forall i image_count desc_offset image_offset,
    peek 4 (B + 8) = Done image_count -> 0 <= i < image_count ->
    peek 4 (B + 12) = Done desc_offset ->
    peek 8 (B + desc_offset + i * sizeof_image_desc + 8) = Done image_offset ->
    phoff_ok (B + image_offset).

Definition loader_ok (s : loader) : Prop :=
  all_succeed (ld_alloc s) /\ Forall proc_ok (ld_processes s).

Lemma load_one_image_safe s i do ds ic ts :
  package_phoff_ok -> loader_ok s ->
  peek 4 (B + 8) = Done ic ->
  peek 4 (B + 12) = Done do -> peek 4 (B + 16) = Done ds -> peek 8 (B + 24) = Done ts ->
  header_ok do ds ic ts -> 0 <= i < ic ->
  exists e s', load_one_image B blob kimage_voffset s B i = Done (e, s') /\ loader_ok s'
    /\ (e = 0 -> length (ld_processes s') = S (length (ld_processes s)))
    /\ (e <> 0 -> ld_processes s' = ld_processes s).
Proof.
  intros Hph [Ha Hp] P0 P1 P2 P3 Hh Hi. pose proof Hh as [H1 H2 H3 H4 H5].
  unfold load_one_image. rewrite P1. cbn [obind]. unfold sizeof_image_desc.
  set (d := B + do + i * 56).
  destruct (check_image_desc_safe d do ds ic ts) as (e & -> & Hd); try done; try lia. cbn [obind].
  destruct (e =? 0) eqn:E; cbn [negb]; bool_facts.
  2:{ do 2 eexists. split; [done |]. done. }
  destruct (Hd E) as (io & isz & mo & msz & Q1 & Q2 & Q3 & Q4 & [D1 D2 D3 D4]).
  rewrite Q1, Q2, Q3, Q4. cbn [obind]. load ty Hty.
  destruct (ty =? PROC_IMG_ELF); [| do 2 eexists; split; [done |]; done].
  destruct (load_user_elf_safe (B + io) isz (ld_alloc s)) as (e2 & p & al & -> & A1 & A2);
    try done; try lia.
  { apply (Hph i ic do io); [done | lia | done | exact Q1]. }
  cbn [obind]. destruct (e2 =? 0) eqn:E2; cbn [negb]; bool_facts.
  2:{ do 2 eexists. split; [done |]. done. }
  destruct (load_user_meta_safe (B + mo) msz p) as (e3 & p' & -> & M); try lia; [auto |].
  cbn [obind]. destruct (e3 =? 0) eqn:E3; cbn [negb]; bool_facts.
  2:{ do 2 eexists. split; [done |]. done. }
  do 2 eexists. split; [done |]. simpl. split; [| split; [| done]].
  - split; [done |]. apply Forall_app. split; [done |]. constructor; [auto | constructor].
  - rewrite length_app. simpl. lia.
Qed.

Lemma load_images_safe n : forall i s loaded do ds ic ts,
  package_phoff_ok -> loader_ok s -> peek 4 (B + 8) = Done ic ->
  peek 4 (B + 12) = Done do -> peek 4 (B + 16) = Done ds -> peek 8 (B + 24) = Done ts ->
  header_ok do ds ic ts -> 0 <= i -> i + Z.of_nat n <= ic ->
  Z.of_nat (length (ld_processes s)) <= PROCESS_MAX_COUNT ->
  exists r s', load_images B blob kimage_voffset n i s B loaded = Done (r, s') /\ loader_ok s'
    /\ Z.of_nat (length (ld_processes s')) <= PROCESS_MAX_COUNT
    /\ r - loaded = Z.of_nat (length (ld_processes s')) - Z.of_nat (length (ld_processes s)).
Proof.
  induction n as [|n IH]; intros i s loaded do ds ic ts Hph Hs P0 P1 P2 P3 Hh Hi Hn Hc;
    cbn [load_images].
  { do 2 eexists. split; [done |]. split; [done |]. split; [done | lia]. }
  destruct (PROCESS_MAX_COUNT <=? _) eqn:E; bool_facts.
  { do 2 eexists. split; [done |]. split; [done |]. split; [done | lia]. }
  destruct (load_one_image_safe s i do ds ic ts) as (e & s1 & -> & S1 & S2 & S3); try done; try lia.
  cbn [obind].
  assert (Hl : Z.of_nat (length (ld_processes s1))
               = Z.of_nat (length (ld_processes s)) + (if e =? 0 then 1 else 0)).
  { destruct (e =? 0) eqn:Ee; bool_facts; [rewrite (S2 Ee); lia | rewrite (S3 Ee); lia]. }
  destruct (IH (i + 1) s1 (if e =? 0 then loaded + 1 else loaded) do ds ic ts)
    as (r & s2 & -> & R1 & R2 & R3); try done; try lia.
  { destruct (e =? 0); lia. }
  do 2 eexists. split; [done |]. split; [done |]. split; [done |]. destruct (e =? 0); lia.
Qed.

Lemma load_processes_spec s :
  package_phoff_ok -> loader_ok s -> ld_processes s = [] ->
  exists r s', load_processes B blob kimage_voffset s = Done (r, s') /\ loader_ok s'
    /\ Z.of_nat (length (ld_processes s')) <= PROCESS_MAX_COUNT
    /\ (r = - ENOENT /\ s' = s \/ r = Z.of_nat (length (ld_processes s'))).
Proof.
  intros Hph Hs He. unfold load_processes.
  destruct check_pkg_header_safe as (e & -> & Hok). cbn [obind].
  destruct (e =? 0) eqn:E; cbn [negb]; bool_facts.
  2:{ do 2 eexists. split; [done |]. split; [done |]. rewrite He. split; [done | by left]. }
  destruct (Hok E) as (do & ds & ic & ts & P1 & P2 & P3 & P4 & Hh). rewrite P3. cbn [obind].
  destruct (load_images_safe (Z.to_nat ic) 0 s 0 do ds ic ts) as (r & s' & -> & R1 & R2 & R3);
    try done; try lia.
  - destruct Hh. lia.
  - rewrite He. done.
  - do 2 eexists. split; [done |]. split; [done |]. split; [done |]. right. rewrite He in R3.
    simpl in R3. lia.
Qed.

(** The first image of a package. *)
Lemma wrap_package_faults s do io isz phoff phnum :
  check_pkg_header B blob B len = Done 0 ->
  peek 4 (B + 12) = Done do -> check_image_desc B blob B (B + do) = Done 0 -> peek 4 (B + do) = Done PROC_IMG_ELF ->
  peek 8 (B + do + 8) = Done io -> peek 8 (B + do + 16) = Done isz ->
  elf_header (B + io) phoff phnum -> sizeof_ehdr <= isz ->
  2 ^ 64 <= phoff + phnum * sizeof_phdr <= 2 ^ 64 + isz -> io < 2 ^ 64 - phoff <= B + io ->
  ld_processes s = [] -> all_succeed (ld_alloc s) ->
  check_elf64_aarch64 B blob (B + io) isz = Done 0 /\ load_processes B blob kimage_voffset s = Bug.
Proof.
  intros Hp P1 Hd Pt Po Ps Hh Hs Hw Ho He Ha.
  destruct check_pkg_header_safe as (e & E & Hok). rewrite Hp in E. injection E as <-.
  destruct (Hok eq_refl) as (do' & ds & ic & ts & Q1 & Q2 & Q3 & Q4 & Hk). rewrite P1 in Q1. injection Q1 as <-.
  pose proof Hk as [K1 K2 K3 K4 K5].
  destruct (check_image_desc_safe (B + do) do ds ic ts) as (e & E & Hdk); try done; try lia.
  rewrite Hd in E. injection E as <-. destruct (Hdk eq_refl) as (io' & isz' & mo & msz & D1 & D2 & D3 & D4 & [D5 _ _ _]).
  rewrite Po in D1. injection D1 as <-. rewrite Ps in D2. injection D2 as <-.
  split; [apply (wrap_check _ _ phoff phnum); try done; lia |].
  unfold load_processes. rewrite Hp. cbn [obind Z.eqb negb]. rewrite Q3. cbn [obind].
  replace (Z.to_nat ic) with (S (Z.to_nat (ic - 1))) by lia. cbn [load_images]. rewrite He. cbn [length Z.of_nat].
  change (PROCESS_MAX_COUNT <=? 0) with false. cbn iota. unfold load_one_image. rewrite P1. cbn [obind].
  rewrite Z.mul_0_l, Z.add_0_r, Hd. cbn [obind Z.eqb negb]. rewrite Po, Ps, D3, D4, Pt. cbn [obind]. rewrite Z.eqb_refl.
  rewrite (wrap_elf_faults (B + io) isz phoff phnum) by (done || lia). done.
Qed.
End Safety.

(** ** Segment overlap *)

Definition overlaps (s : vmem_segment) (start end_ : Z) : Prop :=
  seg_va_start s < end_ /\ start < seg_va_end s.

Lemma check_overlap_iff segs start end_ :
  check_vmem_region_overlap segs start end_ = 0 <-> Forall (fun s => ~ overlaps s start end_) segs.
Proof.
  induction segs as [|s segs IH]; cbn [check_vmem_region_overlap]; [split; constructor |].
  rewrite Forall_cons. unfold overlaps at 1.
  destruct ((end_ <=? seg_va_start s) || (seg_va_end s <=? start)) eqn:E.
  - rewrite IH. apply orb_true_iff in E. rewrite !Z.leb_le in E. split; [| tauto].
    intros H. split; [lia | done].
  - bool_facts. split; [done |]. intros [Hno _]. exfalso. lia.
Qed.

(** ** Concrete packages *)

(** [n] little-endian bytes of [v]. *)
Fixpoint bytes (n : nat) (v : Z) : list Z :=
  match n with
  | O => []
  | S n' => v mod 256 :: bytes n' (v / 256)
  end.

Definition pad (n : nat) (l : list Z) : list Z := l ++ replicate (n - length l) 0.

Definition sample_header : list Z :=
  bytes 4 PROC_PKG_MAGIC ++ bytes 2 1 ++ bytes 2 32 ++ bytes 4 1 ++ bytes 4 32 ++ bytes 4 56
  ++ bytes 4 0 ++ bytes 8 8300.

Definition sample_desc : list Z :=
  bytes 4 PROC_IMG_ELF ++ bytes 4 0 ++ bytes 8 4096 ++ bytes 8 4096 ++ bytes 8 8192 ++ bytes 8 108
  ++ bytes 16 0.

Definition sample_elf (phnum phoff : Z) : list Z :=
  [0x7f; 69; 76; 70; 2; 1; 1; 0] ++ bytes 8 0 ++ bytes 2 2 ++ bytes 2 EM_AARCH64 ++ bytes 4 1
  ++ bytes 8 0x40000078 ++ bytes 8 phoff ++ bytes 8 0 ++ bytes 4 0 ++ bytes 2 64 ++ bytes 2 56
  ++ bytes 2 phnum ++ bytes 6 0
  ++ bytes 4 PT_LOAD ++ bytes 4 5 ++ bytes 8 0 ++ bytes 8 0x40000000 ++ bytes 8 0 ++ bytes 8 256
  ++ bytes 8 512 ++ bytes 8 4096.

(** One argument, the name and the string "sh". *)
Definition sample_meta : list Z :=
  bytes 4 1 ++ bytes 4 0 ++ bytes 4 0 ++ bytes 4 3 ++ bytes 4 0 ++ bytes 4 48 ++ bytes 4 0
  ++ bytes 4 0 ++ bytes 4 52 ++ bytes 4 0 ++ bytes 8 8192 ++ bytes 4 0 ++ [115; 104; 0].

Definition package_of (elf : list Z) : list Z :=
  pad (Z.to_nat 8300) (pad (Z.to_nat 8192) (pad 4096 (sample_header ++ sample_desc) ++ elf) ++ sample_meta).
Definition sample_package (phoff : Z) : list Z := package_of (sample_elf 1 phoff).
Definition wrap_package : list Z := package_of (sample_elf 80 (2 ^ 64 - 4152)).

Definition blob_base : Z := 0xffff800008000000.

Lemma bytes_checked l :
  forallb (fun b => (0 <=? b) && (b <? 256)) l = true -> Forall (fun b => 0 <= b < 256) l.
Proof.
  induction l as [|b l IH]; cbn [forallb]; intros H; [constructor |].
  bool_facts. constructor; [lia | auto].
Qed.

Lemma sample_phoff_ok : package_phoff_ok blob_base (sample_package 64).
Proof.
  intros i ic do io P1 Hi P2 P3 phoff phnum P4 P5. vm_compute in P1. injection P1 as <-.
  assert (i = 0) as -> by lia. vm_compute in P2. injection P2 as <-.
  vm_compute in P3. injection P3 as <-. vm_compute in P4. injection P4 as <-.
  vm_compute in P5. injection P5 as <-. reflexivity.
Qed.

(** ** Claims *)

(** C2: whatever the bytes of the package, loading it terminates without a
    load outside the package, provided no image wraps its program header
    offset and the heap does not run out; at most [PROCESS_MAX_COUNT]
    processes are registered, each with segments in the user image window
    and with strings terminated inside its metadata, and the result is their
    number or [-ENOENT]. *)
Theorem load_processes_safe B blob kimage_voffset s :
  0 <= B -> B + Z.of_nat (length blob) < 2 ^ 64 -> Forall (fun b => 0 <= b < 256) blob ->
  package_phoff_ok B blob -> loader_ok B blob s -> ld_processes s = [] ->
  exists r s', load_processes B blob kimage_voffset s = Done (r, s')
    /\ Forall (proc_ok B blob) (ld_processes s')
    /\ Z.of_nat (length (ld_processes s')) <= PROCESS_MAX_COUNT
    /\ (r = - ENOENT /\ s' = s \/ r = Z.of_nat (length (ld_processes s'))).
Proof.
  intros H1 H2 H3 H4 H5 H6.
  destruct (load_processes_spec B blob kimage_voffset H1 H2 H3 s H4 H5 H6)
    as (r & s' & E & [_ L] & C & R).
  exists r, s'. done.
Qed.

Lemma load_processes_safe_witness :
  exists r s', load_processes blob_base (sample_package 64) 0 (mkLoader [] []) = Done (r, s')
    /\ Forall (proc_ok blob_base (sample_package 64)) (ld_processes s')
    /\ Z.of_nat (length (ld_processes s')) <= PROCESS_MAX_COUNT
    /\ (r = - ENOENT /\ s' = mkLoader [] [] \/ r = Z.of_nat (length (ld_processes s'))).
Proof.
  apply (load_processes_safe blob_base (sample_package 64) 0 (mkLoader [] []));
    [vm_compute; congruence | vm_compute; reflexivity | apply bytes_checked; vm_compute; reflexivity
    | exact sample_phoff_ok | split; constructor | reflexivity].
Defined.

(** The sample package does load its process. *)
Example sample_loads :
  (let! (r, s) := load_processes blob_base (sample_package 64) 0 (mkLoader [] []) in
   Done (r, map p_name (ld_processes s), map (fun p => img_argc (p_image p)) (ld_processes s)))
  = Done (1, [[115; 104]], [1]).
Proof. vm_compute. reflexivity. Qed.

(** C37: the bound on the program headers is computed in 64 bits and can wrap:
    for every package that passes the checks of its header and of its first
    descriptor, whose first image is an ELF file with a good identification
    but with a program header offset that wraps past the check to an address
    before the package, the check of the ELF header succeeds and
    [load_processes] reads outside the package. *)
Theorem elf_phoff_wrap_faults B blob kimage_voffset s do io isz phoff phnum :
  0 <= B -> B + Z.of_nat (length blob) < 2 ^ 64 -> Forall (fun b => 0 <= b < 256) blob ->
  check_pkg_header B blob B (Z.of_nat (length blob)) = Done 0 ->
  peek B blob 4 (B + 12) = Done do -> check_image_desc B blob B (B + do) = Done 0 ->
  peek B blob 4 (B + do) = Done PROC_IMG_ELF ->
  peek B blob 8 (B + do + 8) = Done io -> peek B blob 8 (B + do + 16) = Done isz ->
  elf_header B blob (B + io) phoff phnum -> sizeof_ehdr <= isz ->
  2 ^ 64 <= phoff + phnum * sizeof_phdr <= 2 ^ 64 + isz -> io < 2 ^ 64 - phoff <= B + io ->
  ld_processes s = [] -> all_succeed (ld_alloc s) ->
  check_elf64_aarch64 B blob (B + io) isz = Done 0 /\ load_processes B blob kimage_voffset s = Bug.
Proof. intros H1 H2 H3. apply wrap_package_faults; done. Qed.

(** 80 program headers, the first of them 56 bytes before the package. *)
Lemma elf_phoff_wrap_faults_witness :
  check_elf64_aarch64 blob_base wrap_package (blob_base + 4096) 4096 = Done 0
  /\ load_processes blob_base wrap_package 0 (mkLoader [] []) = Bug.
Proof.
  apply (elf_phoff_wrap_faults blob_base wrap_package 0 (mkLoader [] []) 32 4096 4096 (2 ^ 64 - 4152) 80);
    try (vm_compute; reflexivity).
  - vm_compute. congruence.
  - apply bytes_checked. vm_compute. reflexivity.
  - split; repeat split; vm_compute; reflexivity.
  - vm_compute. congruence.
  - vm_compute. split; congruence.
  - vm_compute. split; congruence.
  - constructor.
Defined.

(** [check_vmem_region_overlap] itself accepts exactly the ranges
    [start, end) that overlap no registered segment. *)
Lemma check_vmem_region_overlap_correct segs start end_ :
  check_vmem_region_overlap segs start end_ = 0 <-> Forall (fun s => ~ overlaps s start end_) segs.
Proof. apply check_overlap_iff. Qed.

(** C38: its only caller passes the size of the segment where the end address
    is expected, so that for registered segments (which all start at or
    above [PROCESS_IMAGE_START]) no new segment of at most that many bytes
    is ever rejected, however it overlaps. *)
Theorem segment_overlap_undetected segs ph :
  Forall (fun s => PROCESS_IMAGE_START <= seg_va_start s) segs ->
  PROCESS_IMAGE_START <= ph_vaddr ph -> 0 <= ph_memsz ph <= PROCESS_IMAGE_START ->
  ph_vaddr ph + ph_memsz ph <= PROCESS_IMAGE_END ->
  check_section_region_valid segs ph = 0.
Proof.
  intros Hs H1 H2 H3. unfold check_section_region_valid.
  unfold PROCESS_IMAGE_END, PROCESS_IMAGE_START in *. rewrite u64_small by lia.
  rewrite (proj2 (Z.ltb_ge (ph_vaddr ph) 0x40000000)) by lia.
  rewrite (proj2 (Z.ltb_ge _ (ph_vaddr ph + ph_memsz ph))) by lia.
  rewrite (proj2 (Z.ltb_ge _ (ph_vaddr ph))) by lia. simpl.
  apply check_overlap_iff. eapply Forall_impl; [exact Hs |]. intros s Hv [Ho _]. simpl in Hv. lia.
Qed.

Lemma segment_overlap_undetected_witness :
  check_section_region_valid [mkSegment 0 0x40001000 0x40003000 5 0 0]
    (mkPhdr 1 6 0x2000 0x40002000 4096 4096) = 0
  /\ overlaps (mkSegment 0 0x40001000 0x40003000 5 0 0) 0x40002000 0x40003000.
Proof.
  split; [| vm_compute; done].
  apply (segment_overlap_undetected [mkSegment 0 0x40001000 0x40003000 5 0 0]
           (mkPhdr 1 6 0x2000 0x40002000 4096 4096));
    [repeat constructor; vm_compute; congruence | vm_compute; congruence
    | vm_compute; split; congruence | vm_compute; congruence].
Defined.
