(* ===== verification/Sched.v ===== *)
(** * The scheduler: [src/src/schedule/sched.c], [scheduler/sched_round_robin.c],
    [preempt.h], [sched.h]

    One ready queue per CPU.  A [struct process_struct *] is an integer key
    into the store of tasks (0 is NULL); the per-CPU variables are a record
    per CPU.  Dereferencing a pointer that is not in the store, and indexing
    outside an array, is [Bug].  The current value of the counter, in
    nanoseconds, is an argument of the operations that read it.

    [run_process] runs another context in its middle: [run_begin] is what it
    does before the switch, [run_end] what it does after the switch back. *)

From S2P Require Import Prelude Memblock.

(** ** Data *)

Inductive process_state :=
  | PROCESS_NEW
  | PROCESS_READY
  | PROCESS_RUNNING
  | PROCESS_BLOCKED
  | PROCESS_ZOMBIE.

#[export] Instance process_state_eq_dec : EqDecision process_state.
Proof. solve_decision. Defined.

(** The fields of [struct process_struct] the scheduler uses. *)
Record task := mkTask {
  t_name : list Z;
  t_cpu : Z;
  t_state : process_state;
  t_last_wake : Z;
  t_last_run_timestamp : Z;
  t_pg_dir : Z;
}.

Definition MAX_PROCESS_COUNT : Z := 128.
Definition MAX_CPUS : Z := 4.
Definition TIME_SLICE_NS : Z := 10 * 1000 * 1000.

(** The per-CPU variables. *)
Record cpu_vars := mkCpu {
  g_num_processes : Z;
  g_processes : list Z;
  g_next_process : Z;
  entry_task : Z;
  need_resched : Z;
  preempt_count : Z;
  irqs_on : bool;
  current : Z;
}.

Abbreviation tasks := (gmap Z task).

Definition set_state (t : task) (st : process_state) : task :=
  mkTask (t_name t) (t_cpu t) st (t_last_wake t) (t_last_run_timestamp t) (t_pg_dir t).

(** [p->state = st]. *)
Definition write_state (ts : tasks) (p : Z) (st : process_state) : outcome tasks :=
  match ts !! p with
  | Some t => Done (<[p := set_state t st]> ts)
  | None => Bug
  end.

Definition set_queue (v : cpu_vars) (num : Z) (procs : list Z) (next : Z) : cpu_vars :=
  mkCpu num procs next (entry_task v) (need_resched v) (preempt_count v) (irqs_on v) (current v).
Definition set_entry (v : cpu_vars) (p : Z) : cpu_vars :=
  mkCpu (g_num_processes v) (g_processes v) (g_next_process v) p (need_resched v)
    (preempt_count v) (irqs_on v) (current v).
Definition set_preempt (v : cpu_vars) (n : Z) : cpu_vars :=
  mkCpu (g_num_processes v) (g_processes v) (g_next_process v) (entry_task v) (need_resched v)
    n (irqs_on v) (current v).
Definition set_irqs (v : cpu_vars) (b : bool) : cpu_vars :=
  mkCpu (g_num_processes v) (g_processes v) (g_next_process v) (entry_task v) (need_resched v)
    (preempt_count v) b (current v).

(** [set_resched] of [sched.h]: the argument is not used by the code. *)
Definition set_resched (v : cpu_vars) (_ : bool) : cpu_vars :=
  mkCpu (g_num_processes v) (g_processes v) (g_next_process v) (entry_task v) 1
    (preempt_count v) (irqs_on v) (current v).

Definition preempt_disable (v : cpu_vars) : cpu_vars := set_preempt v (s64 (preempt_count v + 1)).
Definition preempt_enable (v : cpu_vars) : cpu_vars := set_preempt v (s64 (preempt_count v - 1)).

(** ** Round robin *)

Definition runnable (st : process_state) : bool :=
  match st with
  | PROCESS_READY | PROCESS_RUNNING => true
  | _ => false
  end.

(** The loop of [round_robin_pick_next] with [j] turns left: the process
    found and the next index. *)
Fixpoint rr_scan (j : nat) (ts : tasks) (procs : list Z) (num i : Z)
    : outcome (option (Z * Z)) :=
  match j with
  | O => Done None
  | S j' =>
      match procs !! Z.to_nat i with
      | None => Bug
      | Some p =>
          match ts !! p with
          | None => Bug
          | Some t =>
              if runnable (t_state t) then Done (Some (p, (i + 1) mod num))
              else rr_scan j' ts procs num ((i + 1) mod num)
          end
      end
  end.

Definition round_robin_pick_next (ts : tasks) (v : cpu_vars) : outcome (Z * cpu_vars) :=
  if g_num_processes v =? 0 then Done (0, v)
  else
    let! found := rr_scan (Z.to_nat (g_num_processes v)) ts (g_processes v)
                    (g_num_processes v) (g_next_process v) in
    match found with
    | Some (p, next) => Done (p, set_queue v (g_num_processes v) (g_processes v) next)
    | None => Done (0, v)
    end.

(** [process->state = PROCESS_READY; process->cpu = cpu] and the store into
    the queue, which has no bound check: a store past the array is [Bug]. *)
Definition round_robin_load_process (ts : tasks) (v : cpu_vars) (cpu process : Z)
    : outcome (Z * tasks * cpu_vars) :=
  if process =? 0 then Done (- EINVAL, ts, v)
  else
    match ts !! process with
    | None => Bug
    | Some t =>
        let t' := mkTask (t_name t) cpu PROCESS_READY (t_last_wake t)
                    (t_last_run_timestamp t) (t_pg_dir t) in
        let num := g_num_processes v in
        if (0 <=? num) && (num <? MAX_PROCESS_COUNT) then
          Done (0, <[process := t']> ts,
                set_queue v (num + 1) (<[Z.to_nat num := process]> (g_processes v))
                  (g_next_process v))
        else Bug
    end.

Definition round_robin_need_resched (ts : tasks) (v : cpu_vars) (now : Z) : outcome bool :=
  match ts !! current v with
  | None => Bug
  | Some t => Done (TIME_SLICE_NS <? u64 (now - t_last_run_timestamp t))
  end.

Definition round_robin_get_timeslice : Z := TIME_SLICE_NS.

(** ** The scheduling class ([struct sched_class]) *)

Inductive sched_type := SCHED_ROUND_ROBIN | SCHED_TYPE_MAX.

Record sched_class := mkClass {
  class_type : sched_type;
  pick_next : tasks -> cpu_vars -> outcome (Z * cpu_vars);
  need_preempt : tasks -> cpu_vars -> Z -> outcome bool;
  add_process : tasks -> cpu_vars -> Z -> Z -> outcome (Z * tasks * cpu_vars);
  get_timeslice : Z;
}.

Definition sched_round_robin : sched_class :=
  mkClass SCHED_ROUND_ROBIN round_robin_pick_next round_robin_need_resched
    round_robin_load_process round_robin_get_timeslice.

(** [g_sched_classes] (one slot) and [g_sched_class]. *)
Record classes := mkClasses {
  g_sched_classes : option sched_class;
  g_sched_class : option sched_class;
}.

Definition sched_class_register (cs : classes) (class : option sched_class) : Z * classes :=
  match class with
  | Some c =>
      match class_type c with
      | SCHED_ROUND_ROBIN => (0, mkClasses (Some c) (g_sched_class cs))
      | SCHED_TYPE_MAX => (- EINVAL, cs)
      end
  | None => (- EINVAL, cs)
  end.

Definition round_robin_sched_register (cs : classes) : Z * classes :=
  sched_class_register cs (Some sched_round_robin).

(** [sched_init(SCHED_ROUND_ROBIN)]; [init] of the only class returns 0. *)
Definition sched_init (cs : classes) : Z * classes :=
  match g_sched_classes cs with
  | None => (- ENOENT, cs)
  | Some c => (0, mkClasses (g_sched_classes cs) (Some c))
  end.

(** ** Running a process *)

(** What the switch does: call the idle function, or switch to a process
    with its user tables. *)
Inductive switch :=
  | RunIdle (p : Z)
  | SwitchTo (p ttbr0 : Z).

(** [strncmp(name, "idle", 4) == 0]. *)
Definition is_idle_name (name : list Z) : bool :=
  bool_decide (take 4 name = [105; 100; 108; 101]).

Definition run_begin (ts : tasks) (v : cpu_vars) (proc now : Z)
    : outcome (switch * tasks * cpu_vars) :=
  let! ts := write_state ts (current v) PROCESS_READY in
  let! ts :=
    if entry_task v =? 0 then Done ts
    else
      match ts !! entry_task v with
      | None => Bug
      | Some e =>
          if bool_decide (t_state e = PROCESS_RUNNING)
          then write_state ts (entry_task v) PROCESS_READY else Done ts
      end in
  match ts !! proc with
  | None => Bug
  | Some t =>
      let t' := mkTask (t_name t) (t_cpu t) PROCESS_RUNNING (entry_task v) now (t_pg_dir t) in
      let sw := if is_idle_name (t_name t) then RunIdle proc
                else SwitchTo proc (virt_to_phys (t_pg_dir t)) in
      Done (sw, <[proc := t']> ts, set_entry v proc)
  end.

(** The rest of [run_process]; what happens during the switch is in
    [SchedRun], where the entry code of the next exception leads here. *)
Definition run_end (ts : tasks) (v : cpu_vars) : outcome tasks :=
  write_state ts (current v) PROCESS_RUNNING.

(** [schdule]: what is switched to, if anything. *)
Definition schdule (cls : sched_class) (ts : tasks) (v : cpu_vars) (now : Z) : outcome (option switch * tasks * cpu_vars) :=
  let v := set_irqs v false in
  let v := preempt_enable v in
  let! (p, v) := pick_next cls ts v in
  if p =? 0 then Done (None, ts, v)
  else
    let v := set_resched v false in
    let! (sw, ts, v) := run_begin ts v p now in
    Done (Some sw, ts, v).

(** One turn of the loop of [run_idle]; [None] is [wfi] or no process. *)
Definition run_idle_turn (cls : sched_class) (ts : tasks) (v : cpu_vars) (now : Z) : outcome (option switch * tasks * cpu_vars) :=
  let v := preempt_disable v in
  let v := set_irqs v true in
  if negb (need_resched v =? 0) then schdule cls ts v now
  else Done (None, ts, v).

Definition preempt_check_resched (cls : sched_class) (ts : tasks) (v : cpu_vars) (now : Z)
    : outcome cpu_vars :=
  let! b := need_preempt cls ts v now in
  Done (if (b : bool) then set_resched v true else v).

(** ** Registering the loaded processes ([process.c], [user_processes_register]) *)

(** [sched_register_process(i % MAX_CPUS, g_processes[i])] for each process,
    on the variables of the four CPUs; a failed registration is only
    printed. *)
Fixpoint user_processes_register (ts : tasks) (vs : list cpu_vars) (procs : list Z) (i : Z)
    : outcome (tasks * list cpu_vars) :=
  match procs with
  | [] => Done (ts, vs)
  | p :: rest =>
      let cpu := i mod MAX_CPUS in
      match vs !! Z.to_nat cpu with
      | None => Bug
      | Some v =>
          let! (_, ts, v) := round_robin_load_process ts v cpu p in
          user_processes_register ts (<[Z.to_nat cpu := v]> vs) rest (i + 1)
      end
  end.
