(* ===== verification/SchedFair.v ===== *)
(** * Fairness and safety of the scheduler

    The round-robin queue returns the first runnable process in cyclic
    order, no runnable process waits for more picks than there are processes
    in its queue, and the registration of the loaded processes never overruns
    a queue. *)

From S2P Require Import Prelude Memblock Sched.

(** ** The queue *)

(** The invariant of the queue of a CPU. *)
Record queue_ok (ts : tasks) (v : cpu_vars) : Prop := {
  qo_num : 0 <= g_num_processes v <= MAX_PROCESS_COUNT;
  qo_len : Z.of_nat (length (g_processes v)) = MAX_PROCESS_COUNT;
  qo_next : 0 <= g_next_process v < Z.max 1 (g_num_processes v);
  qo_proc : forall i, 0 <= i < g_num_processes v ->
    exists p t, g_processes v !! Z.to_nat i = Some p /\ p <> 0 /\ ts !! p = Some t;
}.

(** The process in a slot, and whether it may run. *)
Definition slot (v : cpu_vars) (i : Z) : Z := g_processes v !!! Z.to_nat i.
Definition may_run (ts : tasks) (p : Z) : bool :=
  match ts !! p with Some t => runnable (t_state t) | None => false end.

Section Queue.
Context (ts : tasks) (v : cpu_vars) (Hq : queue_ok ts v).
Abbreviation num := (g_num_processes v).

Lemma slot_some i :
  0 <= i < num -> exists t, g_processes v !! Z.to_nat i = Some (slot v i)
    /\ ts !! slot v i = Some t /\ slot v i <> 0.
Proof.
  intros Hi. destruct (qo_proc _ _ Hq i Hi) as (p & t & E & Hp & Ht).
  unfold slot. rewrite (list_lookup_total_correct _ _ _ E). eauto.
Qed.

Lemma rr_scan_spec j : forall i,
  0 < num -> 0 <= i < num ->
  match rr_scan j ts (g_processes v) num i with
  | Done (Some (p, nx)) =>
      exists k, 0 <= k < Z.of_nat j /\ p = slot v ((i + k) mod num)
        /\ may_run ts p = true /\ nx = (i + k + 1) mod num
        /\ forall k', 0 <= k' < k -> may_run ts (slot v ((i + k') mod num)) = false
  | Done None => forall k, 0 <= k < Z.of_nat j -> may_run ts (slot v ((i + k) mod num)) = false
  | _ => False
  end.
Proof.
  induction j as [|j IH]; intros i Hn Hi; cbn [rr_scan]; [lia |].
  destruct (slot_some i Hi) as (t & -> & Ht & _). rewrite Ht.
  assert (Hrun : may_run ts (slot v i) = runnable (t_state t)) by (unfold may_run; by rewrite Ht).
  assert (Hi0 : (i + 0) mod num = i) by (rewrite Z.add_0_r; apply Z.mod_small; lia).
  destruct (runnable (t_state t)).
  - exists 0. rewrite Hi0. split; [lia |]. split; [done |]. split; [done |].
    split; [f_equal; lia |]. lia.
  - specialize (IH ((i + 1) mod num) Hn (Z.mod_pos_bound _ _ Hn)).
    assert (Hshift : forall k, ((i + 1) mod num + k) mod num = (i + (k + 1)) mod num).
    { intros k. rewrite Zplus_mod_idemp_l. f_equal. lia. }
    destruct (rr_scan j ts (g_processes v) num ((i + 1) mod num)) as [[[p nx]|]| |]; try done.
    + destruct IH as (k & K1 & K2 & K3 & K4 & K5). exists (k + 1).
      rewrite <- Hshift. split; [lia |]. split; [done |]. split; [done |]. split.
      * rewrite K4. replace ((i + 1) mod num + k + 1) with ((i + 1) mod num + (k + 1)) by lia.
        rewrite Hshift. f_equal. lia.
      * intros k' Hk'. destruct (decide (k' = 0)) as [-> | Hne]; [by rewrite Hi0 |].
        replace k' with (k' - 1 + 1) by lia. rewrite <- Hshift. apply K5. lia.
    + intros k Hk. destruct (decide (k = 0)) as [-> | Hne]; [by rewrite Hi0 |].
      replace k with (k - 1 + 1) by lia. rewrite <- Hshift. apply IH. lia.
Qed.

(** What [round_robin_pick_next] returns. *)
Lemma pick_next_spec :
  exists p v', round_robin_pick_next ts v = Done (p, v') /\ queue_ok ts v'
    /\ g_processes v' = g_processes v /\ g_num_processes v' = num
    /\ need_resched v' = need_resched v /\ entry_task v' = entry_task v /\ current v' = current v
    /\ (p = 0 /\ v' = v /\ (forall i, 0 <= i < num -> may_run ts (slot v i) = false)
        \/ exists k, 0 <= k < num /\ p = slot v ((g_next_process v + k) mod num) /\ p <> 0
             /\ may_run ts p = true /\ g_next_process v' = (g_next_process v + k + 1) mod num
             /\ forall k', 0 <= k' < k ->
                  may_run ts (slot v ((g_next_process v + k') mod num)) = false).
Proof.
  unfold round_robin_pick_next. pose proof Hq as [Q1 Q2 Q3 Q4].
  destruct (num =? 0) eqn:E; bool_facts.
  { exists 0, v. repeat (split; [done |]). left. split; [done |]. split; [done |]. lia. }
  pose proof (rr_scan_spec (Z.to_nat num) (g_next_process v) ltac:(lia) ltac:(lia)) as Hs.
  destruct (rr_scan (Z.to_nat num) ts (g_processes v) num (g_next_process v)) as [[[p nx]|]| |];
    try done; cbn [obind].
  - destruct Hs as (k & K1 & K2 & K3 & K4 & K5).
    pose proof (Z.mod_pos_bound (g_next_process v + k + 1) num ltac:(lia)).
    destruct (slot_some ((g_next_process v + k) mod num)) as (t & _ & _ & Hne).
    { apply Z.mod_pos_bound. lia. }
    eexists p, _. split; [done |]. split; [split; simpl; try done; lia |].
    repeat (split; [done |]). right. exists k. split; [lia |]. split; [done |].
    split; [by rewrite K2 |]. done.
  - exists 0, v. repeat (split; [done |]). left. split; [done |]. split; [done |].
    intros i Hi. specialize (Hs ((i - g_next_process v) mod num)).
    rewrite Zplus_mod_idemp_r in Hs.
    replace (g_next_process v + (i - g_next_process v)) with i in Hs by lia.
    rewrite (Z.mod_small i) in Hs by lia. apply Hs.
    pose proof (Z.mod_pos_bound (i - g_next_process v) num ltac:(lia)). lia.
Qed.
End Queue.

(** ** Fairness *)

(** Successive picks, the tasks being in the state [ts] at each pick. *)
Fixpoint picks (tss : list tasks) (v : cpu_vars) : outcome (list Z) :=
  match tss with
  | [] => Done []
  | ts :: rest =>
      let! (p, v) := round_robin_pick_next ts v in
      let! l := picks rest v in
      Done (p :: l)
  end.

(** Distance, in slots, from the cursor to the slot [q]. *)
Definition distance (v : cpu_vars) (q : Z) : Z :=
  (q - g_next_process v) mod g_num_processes v.

Lemma distance_next num next k q :
  0 < num -> 0 <= k < (q - next) mod num ->
  (q - (next + k + 1) mod num) mod num = (q - next) mod num - k - 1.
Proof.
  intros Hn Hk. rewrite Zminus_mod_idemp_r.
  replace (q - (next + k + 1)) with ((q - next) - (k + 1)) by lia.
  rewrite <- Zminus_mod_idemp_l. pose proof (Z.mod_pos_bound (q - next) num Hn).
  rewrite Z.mod_small by lia. lia.
Qed.

Lemma picks_total tss : forall v,
  Forall (fun ts => queue_ok ts v) tss -> exists l, picks tss v = Done l /\ length l = length tss.
Proof.
  induction tss as [|ts tss IH]; intros v H; cbn [picks]; [by exists [] |].
  inversion H as [|? ? H1 H2]; subst.
  destruct (pick_next_spec ts v H1) as (p & v' & -> & [Q1 Q2 Q3 Q4] & E1 & E2 & _). cbn [obind].
  destruct (IH v') as (l & -> & Hl).
  { eapply Forall_impl; [exact H2 |]. intros ts' [R1 R2 R3 R4].
    split; rewrite ?E1, ?E2; try done. lia. }
  cbn [obind]. exists (p :: l). split; [done | simpl; lia].
Qed.

Lemma picks_reach q : forall tss v l,
  Forall (fun ts => queue_ok ts v) tss -> 0 <= q < g_num_processes v ->
  Forall (fun ts => may_run ts (slot v q) = true) tss ->
  distance v q < Z.of_nat (length tss) -> picks tss v = Done l -> slot v q ∈ l.
Proof.
  induction tss as [|ts tss IH]; intros v l H Hq Hr Hd E; unfold distance in Hd.
  { pose proof (Z.mod_pos_bound (q - g_next_process v) (g_num_processes v) ltac:(lia)).
    simpl in Hd. lia. }
  cbn [picks] in E. inversion H as [|? ? H1 H2]; subst. inversion Hr as [|? ? R1 R2]; subst.
  destruct (pick_next_spec ts v H1) as (p & v' & Ep & Q & E1 & E2 & _ & _ & _ & Hp).
  rewrite Ep in E. cbn [obind] in E. apply obind_Done in E as (l' & El & [= <-]).
  destruct Hp as [(_ & _ & Hnone) | (k & K1 & K2 & _ & K4 & K5 & K6)].
  { rewrite (Hnone q Hq) in R1. done. }
  set (d := (q - g_next_process v) mod g_num_processes v) in *.
  assert (Hqd : (g_next_process v + d) mod g_num_processes v = q).
  { unfold d. rewrite Zplus_mod_idemp_r.
    replace (g_next_process v + (q - g_next_process v)) with q by lia. apply Z.mod_small. lia. }
  assert (Hkd : k <= d).
  { destruct (Z.le_gt_cases k d) as [| Hgt]; [done |]. exfalso.
    assert (0 <= d) by (apply Z.mod_pos_bound; lia).
    specialize (K6 d ltac:(lia)). rewrite Hqd in K6. congruence. }
  apply elem_of_cons. destruct (decide (k = d)) as [-> | Hne]; [left; by rewrite K2, Hqd |]. right.
  assert (Hslot : slot v' q = slot v q) by (unfold slot; by rewrite E1).
  rewrite <- Hslot. apply (IH v' l').
  - eapply Forall_impl; [exact H2 |]. intros ts' [S1 S2 S3 S4]. destruct Q as [T1 T2 T3 T4].
    split; rewrite ?E1, ?E2; try done. rewrite E2 in T3. done.
  - by rewrite E2.
  - by rewrite Hslot.
  - unfold distance. rewrite E2, K5, distance_next by (fold d; lia). fold d. simpl in Hd. lia.
  - done.
Qed.

(** ** Registration *)

Definition register_inv (ts : tasks) (vs : list cpu_vars) (procs : list Z) (i : Z) : Prop :=
  length vs = 4%nat /\ forall c, 0 <= c < 4 -> exists v, vs !! Z.to_nat c = Some v
    /\ Z.of_nat (length (g_processes v)) = MAX_PROCESS_COUNT
    /\ g_num_processes v = (i + 3 - c) / 4
    /\ forall k p, 0 <= k < i -> k mod 4 = c -> procs !! Z.to_nat k = Some p ->
         g_processes v !! Z.to_nat (k / 4) = Some p.

Lemma load_process_ok ts v cpu p t :
  p <> 0 -> ts !! p = Some t -> 0 <= g_num_processes v < MAX_PROCESS_COUNT ->
  exists ts', round_robin_load_process ts v cpu p
      = Done (0, ts', set_queue v (g_num_processes v + 1)
                (<[Z.to_nat (g_num_processes v) := p]> (g_processes v)) (g_next_process v))
    /\ (forall x, is_Some (ts !! x) -> is_Some (ts' !! x)).
Proof.
  intros Hp Ht Hn. unfold round_robin_load_process. rewrite (proj2 (Z.eqb_neq p 0) Hp), Ht.
  rewrite (proj2 (Z.leb_le 0 _)), (proj2 (Z.ltb_lt _ MAX_PROCESS_COUNT)) by lia. simpl.
  eexists. split; [done |]. intros x Hx. destruct (decide (p = x)) as [-> | Hne].
  - rewrite lookup_insert_eq. eauto.
  - by rewrite lookup_insert_ne.
Qed.

Lemma register_step ts vs all p rest i :
  register_inv ts vs all i -> 0 <= i < 128 -> all !! Z.to_nat i = Some p -> p <> 0 ->
  is_Some (ts !! p) ->
  exists ts1 vs1, user_processes_register ts vs (p :: rest) i
      = user_processes_register ts1 vs1 rest (i + 1)
    /\ register_inv ts1 vs1 all (i + 1) /\ (forall x, is_Some (ts !! x) -> is_Some (ts1 !! x)).
Proof.
  intros [Hlen Hinv] Hi Hp Hne [t Ht]. cbn [user_processes_register]. unfold MAX_CPUS.
  pose proof (Z.mod_pos_bound i 4 ltac:(lia)) as Hm. pose proof (Z.div_mod i 4 ltac:(lia)) as Hdm.
  destruct (Hinv (i mod 4) Hm) as (v & Ev & V1 & V2 & V3). rewrite Ev.
  assert (Hnum : g_num_processes v = i / 4).
  { rewrite V2. symmetry. apply (Z.div_unique _ _ _ 3); lia. }
  destruct (load_process_ok ts v (i mod 4) p t Hne Ht) as (ts1 & -> & Hts).
  { rewrite Hnum. unfold MAX_PROCESS_COUNT. lia. }
  cbn [obind]. do 2 eexists. split; [done |]. split; [| done]. split; [by rewrite length_insert |].
  intros c Hc. destruct (decide (c = i mod 4)) as [-> | Hcne].
  - eexists. rewrite list_lookup_insert_eq by lia. split; [done |]. simpl.
    rewrite length_insert. split; [done |]. split.
    { rewrite Hnum. apply (Z.div_unique _ _ _ 0); lia. }
    intros k q Hk Hkm Hq. rewrite Hnum. destruct (decide (k = i)) as [-> | Hkne].
    + rewrite list_lookup_insert_eq; [congruence |]. unfold MAX_PROCESS_COUNT in V1. lia.
    + pose proof (Z.div_mod k 4 ltac:(lia)).
      rewrite list_lookup_insert_ne by lia. apply V3; [lia | done | done].
  - destruct (Hinv c Hc) as (w & Ew & W1 & W2 & W3). exists w.
    rewrite list_lookup_insert_ne by lia. split; [done |]. split; [done |]. split.
    { rewrite W2. pose proof (Z.div_mod (i + 3 - c) 4 ltac:(lia)).
      pose proof (Z.mod_pos_bound (i + 3 - c) 4 ltac:(lia)).
      apply (Z.div_unique _ _ _ ((i + 3 - c) mod 4 + 1)); [left | lia].
      assert ((i + 3 - c) mod 4 <> 3); [| lia]. intros E3. apply Hcne.
      pose proof (Z.div_mod i 4 ltac:(lia)). lia. }
    intros k q Hk Hkm Hq. apply W3; [| done | done]. assert (k <> i) by congruence. lia.
Qed.

Lemma register_loop rest : forall ts vs all i,
  register_inv ts vs all i -> 0 <= i -> drop (Z.to_nat i) all = rest ->
  Z.of_nat (length all) <= 128 -> Forall (fun p => p <> 0 /\ is_Some (ts !! p)) rest ->
  exists ts' vs', user_processes_register ts vs rest i = Done (ts', vs')
    /\ register_inv ts' vs' all (i + Z.of_nat (length rest)).
Proof.
  induction rest as [|p rest IH]; intros ts vs all i Hinv Hi Hd Hl Hp.
  { exists ts, vs. split; [done |]. by rewrite Z.add_0_r. }
  inversion Hp as [|? ? [P1 P2] P3]; subst.
  assert (Hlook : all !! Z.to_nat i = Some p).
  { rewrite <- (Nat.add_0_r (Z.to_nat i)), <- lookup_drop, Hd. done. }
  assert (Hlt : i < 128).
  { apply lookup_lt_Some in Hlook. lia. }
  destruct (register_step ts vs all p rest i) as (ts1 & vs1 & -> & I1 & T1); try done.
  destruct (IH ts1 vs1 all (i + 1)) as (ts2 & vs2 & -> & I2); try done; try lia.
  - replace (Z.to_nat (i + 1)) with (S (Z.to_nat i)) by lia.
    rewrite (drop_S _ _ _ Hlook) in Hd. by injection Hd.
  - eapply Forall_impl; [exact P3 |]. intros x [X1 X2]. auto.
  - exists ts2, vs2. split; [done |]. replace (i + Z.of_nat (length (p :: rest)))
      with (i + 1 + Z.of_nat (length rest)) by (simpl; lia). done.
Qed.

(** ** Running processes *)

Lemma write_state_total ts p st :
  is_Some (ts !! p) -> exists ts', write_state ts p st = Done ts'
    /\ (forall q, is_Some (ts !! q) -> is_Some (ts' !! q))
    /\ exists t, ts' !! p = Some t /\ t_state t = st.
Proof.
  intros (t & E). unfold write_state. rewrite E. eexists. split; [reflexivity |]. split.
  - intros q Hq. destruct (decide (p = q)) as [-> | Hne]; [by rewrite lookup_insert_eq |].
    by rewrite lookup_insert_ne.
  - eexists. by rewrite lookup_insert_eq.
Qed.

(** The pointers [run_process] follows are good. *)
Definition run_ptrs (ts : tasks) (v : cpu_vars) (proc : Z) : Prop :=
  is_Some (ts !! current v) /\ is_Some (ts !! proc)
  /\ (entry_task v = 0 \/ is_Some (ts !! entry_task v)).

Lemma run_begin_total ts v proc now :
  run_ptrs ts v proc ->
  exists sw ts' v', run_begin ts v proc now = Done (sw, ts', v')
    /\ (exists t, ts' !! proc = Some t /\ t_state t = PROCESS_RUNNING)
    /\ current v' = current v /\ is_Some (ts' !! current v').
Proof.
  intros (Hc & Hp & He). unfold run_begin.
  destruct (write_state_total ts (current v) PROCESS_READY Hc) as (ts1 & -> & D1 & _). cbn [obind].
  match goal with |- context [obind ?reset _] =>
    assert (exists ts2, reset = Done ts2 /\ forall q, is_Some (ts !! q) -> is_Some (ts2 !! q)) as (ts2 & -> & D2)
  end.
  { destruct (Z.eqb_spec (entry_task v) 0) as [E | E]; [by exists ts1 |].
    destruct He as [? | He]; [done |]. pose proof (D1 _ He) as (e & Ee). rewrite Ee.
    destruct (write_state_total ts1 (entry_task v) PROCESS_READY) as (ts2 & W & D2 & _); [by exists e |].
    rewrite ?W. repeat case_bool_decide; ((by exists ts1) || (exists ts2; split; [done |]; intros q Hq; by apply D2, D1)). }
  cbn [obind]. destruct (D2 _ Hp) as (t & Et). rewrite Et. do 3 eexists. split; [reflexivity |].
  split; [eexists; by rewrite lookup_insert_eq |]. split; [done |]. cbn [current set_entry].
  destruct (decide (proc = current v)) as [-> | Hne]; [by rewrite lookup_insert_eq |].
  rewrite lookup_insert_ne by done. by apply D2.
Qed.

(** ** Concrete queues *)

Definition sample_task (st : process_state) : task := mkTask [115; 104] 0 st 0 0 0.
Definition sample_tasks : tasks :=
  <[100 := sample_task PROCESS_READY]> (<[200 := sample_task PROCESS_ZOMBIE]>
    (<[300 := sample_task PROCESS_READY]> (<[1 := mkTask [105; 100; 108; 101; 48] 0 PROCESS_RUNNING
       0 0 0]> ∅))).
Definition empty_cpu : cpu_vars := mkCpu 0 (replicate 128 0) 0 0 1 0 true 1.
Definition sample_cpu : cpu_vars :=
  set_queue empty_cpu 3 (<[0%nat := 100]> (<[1%nat := 200]> (<[2%nat := 300]> (replicate 128 0)))) 1.

Lemma sample_queue_ok : queue_ok sample_tasks sample_cpu.
Proof.
  split; [vm_compute; split; congruence | reflexivity | vm_compute; split; congruence |].
  intros i Hi. change (g_num_processes sample_cpu) with 3 in Hi.
  assert (i = 0 \/ i = 1 \/ i = 2) as [-> | [-> | ->]] by lia;
    vm_compute; do 2 eexists; split; [reflexivity | split; [congruence | reflexivity] | reflexivity
      | split; [congruence | reflexivity] | reflexivity | split; [congruence | reflexivity]].
Qed.

(** ** Claims *)

(** [round_robin_pick_next] never faults on a well-formed queue; it
    returns NULL exactly when no process of the queue may run, and otherwise
    the first runnable process in cyclic order from the cursor, leaving the
    cursor just after it. *)
Lemma pick_next_first_runnable ts v :
  queue_ok ts v ->
  exists p v', round_robin_pick_next ts v = Done (p, v') /\ queue_ok ts v'
    /\ (p = 0 /\ v' = v /\ (forall i, 0 <= i < g_num_processes v -> may_run ts (slot v i) = false)
        \/ exists k, 0 <= k < g_num_processes v
             /\ p = slot v ((g_next_process v + k) mod g_num_processes v)
             /\ may_run ts p = true
             /\ g_next_process v' = (g_next_process v + k + 1) mod g_num_processes v
             /\ forall k', 0 <= k' < k ->
                  may_run ts (slot v ((g_next_process v + k') mod g_num_processes v)) = false).
Proof.
  intros Hq. destruct (pick_next_spec ts v Hq) as (p & v' & E & Q & _ & _ & _ & _ & _ & Hp).
  exists p, v'. split; [done |]. split; [done |].
  destruct Hp as [Hp | (k & K1 & K2 & _ & K4)]; [by left |]. right. by exists k.
Qed.

Lemma pick_next_first_runnable_witness :
  exists p v', round_robin_pick_next sample_tasks sample_cpu = Done (p, v')
    /\ queue_ok sample_tasks v' /\ p = 300.
Proof.
  destruct (pick_next_first_runnable sample_tasks sample_cpu sample_queue_ok)
    as (p & v' & E & Q & _).
  exists p, v'. split; [exact E |]. split; [exact Q |].
  vm_compute in E. injection E as <- _. reflexivity.
Defined.

(** C8: round robin is fair: if a process of the queue stays runnable over as
    many picks as the queue is long, it is one of the processes picked,
    whatever happens to the other processes in between. *)
Theorem round_robin_fair q tss v :
  Forall (fun ts => queue_ok ts v) tss -> 0 <= q < g_num_processes v ->
  Forall (fun ts => may_run ts (slot v q) = true) tss ->
  Z.of_nat (length tss) = g_num_processes v ->
  exists l, picks tss v = Done l /\ length l = length tss /\ slot v q ∈ l.
Proof.
  intros H Hq Hr Hl. destruct (picks_total tss v H) as (l & E & Hlen).
  exists l. split; [done |]. split; [done |]. eapply picks_reach; [exact H | done | done | | done].
  unfold distance. pose proof (Z.mod_pos_bound (q - g_next_process v) (g_num_processes v)). lia.
Qed.

Lemma round_robin_fair_witness :
  exists l, picks [sample_tasks; sample_tasks; sample_tasks] sample_cpu = Done l
    /\ length l = 3%nat /\ slot sample_cpu 0 ∈ l.
Proof.
  apply (round_robin_fair 0 [sample_tasks; sample_tasks; sample_tasks] sample_cpu);
    [repeat constructor; apply sample_queue_ok | vm_compute; split; congruence
    | repeat constructor | reflexivity].
Defined.

(** Registering at most [PROCESS_MAX_COUNT] loaded processes on four CPUs
    with empty queues never overruns a queue: process [k] becomes entry
    [k / 4] of the queue of CPU [k mod 4], and CPU [c] gets
    [(n + 3 - c) / 4] processes. *)
Lemma register_distributes ts vs procs :
  register_inv ts vs procs 0 -> Z.of_nat (length procs) <= 128 ->
  Forall (fun p => p <> 0 /\ is_Some (ts !! p)) procs ->
  exists ts' vs', user_processes_register ts vs procs 0 = Done (ts', vs')
    /\ register_inv ts' vs' procs (Z.of_nat (length procs)).
Proof.
  intros Hinv Hl Hp. apply (register_loop procs ts vs procs 0); try done.
Qed.

Lemma register_distributes_witness :
  exists ts' vs', user_processes_register sample_tasks [empty_cpu; empty_cpu; empty_cpu; empty_cpu]
                    [100; 200; 300] 0 = Done (ts', vs')
    /\ register_inv ts' vs' [100; 200; 300] 3.
Proof.
  apply (register_distributes sample_tasks [empty_cpu; empty_cpu; empty_cpu; empty_cpu]
           [100; 200; 300]).
  - split; [reflexivity |]. intros c Hc.
    assert (c = 0 \/ c = 1 \/ c = 2 \/ c = 3) as [-> | [-> | [-> | ->]]] by lia;
      exists empty_cpu; split; [reflexivity | split; [reflexivity | split; [reflexivity | lia]]
        | reflexivity | split; [reflexivity | split; [reflexivity | lia]]
        | reflexivity | split; [reflexivity | split; [reflexivity | lia]]
        | reflexivity | split; [reflexivity | split; [reflexivity | lia]]].
  - vm_compute. congruence.
  - repeat constructor; try congruence; vm_compute; eauto.
Defined.

(** The resched flag of a CPU is never cleared: [set_resched(false)]
    stores 1 like [set_resched(true)], so after it was set once every turn of
    the idle loop calls the scheduler and never waits for an interrupt. *)
Lemma resched_flag_sticks ts v now sw ts' v' :
  queue_ok ts v -> need_resched v = 1 ->
  run_idle_turn sched_round_robin ts v now = Done (sw, ts', v') -> need_resched v' = 1.
Proof.
  intros Hq Hn E. unfold run_idle_turn in E. simpl in E. rewrite Hn in E. cbn [Z.eqb negb] in E.
  unfold schdule in E. apply obind_Done in E as ([p w] & E1 & E). simpl in E1.
  set (v1 := preempt_enable _) in E1.
  destruct (pick_next_spec ts v1) as (p0 & w0 & Ep & _ & _ & _ & Hr & _).
  { destruct Hq as [Q1 Q2 Q3 Q4]. split; done. }
  rewrite Ep in E1. injection E1 as -> ->.
  assert (Hw : need_resched w = 1) by (rewrite Hr; exact Hn).
  destruct (p =? 0); [by injection E as <- <- <- |].
  apply obind_Done in E as ([[sw0 ts0] w1] & E2 & E). injection E as <- <- <-.
  unfold run_begin in E2. apply obind_Done in E2 as (ts1 & _ & E2).
  apply obind_Done in E2 as (ts2 & _ & E2). destruct (ts2 !! p); [| done].
  injection E2 as <- <- <-. done.
Qed.

Lemma resched_flag_sticks_witness :
  exists sw ts' v', run_idle_turn sched_round_robin sample_tasks sample_cpu 7 = Done (sw, ts', v')
    /\ need_resched v' = 1.
Proof.
  do 3 eexists. split; [vm_compute; reflexivity |].
  eapply (resched_flag_sticks sample_tasks sample_cpu 7);
    [apply sample_queue_ok | reflexivity | vm_compute; reflexivity].
Defined.
