(* ===== verification/CString.v ===== *)
(** * Memory and strings: [src/src/uboot_modified/lib/string.c], [ctype.c]

    Memory is a finite map from addresses to bytes.  A load or a store at an
    address that is not in the map is [Bug]: the routines here trust their
    callers, and the theorems say for which arguments they stay inside the
    objects they are given.  [char] is unsigned on the target.  Pointers do
    not wrap around (the C code would have undefined behaviour).

    A scan that stops at a zero byte reads a fresh address at every step, so
    it takes at most [S (size m)] steps before it stops or faults: that is
    the fuel of those loops.  Loops that count down are recursive in the
    counter. *)

From S2P Require Import Prelude.

Abbreviation bmem := (gmap Z Z).

Definition ld (m : bmem) (a : Z) : outcome Z :=
  match m !! a with Some v => Done v | None => Bug end.

Definition st (m : bmem) (a v : Z) : outcome bmem :=
  match m !! a with Some _ => Done (<[a := u8 v]> m) | None => Bug end.

Definition scan_fuel (m : bmem) : nat := S (size m).

(** Loads and stores of [unsigned long], little-endian. *)
Fixpoint ld_le (n : nat) (m : bmem) (a : Z) : outcome Z :=
  match n with
  | O => Done 0
  | S n' => let! b := ld m a in let! r := ld_le n' m (a + 1) in Done (b + 256 * r)
  end.

Fixpoint st_le (n : nat) (m : bmem) (a v : Z) : outcome bmem :=
  match n with
  | O => Done m
  | S n' => let! m := st m a v in st_le n' m (a + 1) (v / 256)
  end.

Definition ld64 := ld_le 8.
Definition st64 := st_le 8.

(** ** Blocks of memory *)

(** [*s8++ = c] [n] times. *)
Fixpoint set_bytes (n : nat) (m : bmem) (s c : Z) : outcome bmem :=
  match n with
  | O => Done m
  | S n' => let! m := st m s c in set_bytes n' m (s + 1) c
  end.

Fixpoint set_words (n : nat) (m : bmem) (s cl : Z) : outcome bmem :=
  match n with
  | O => Done m
  | S n' => let! m := st64 m s cl in set_words n' m (s + 8) cl
  end.

(** [cl <<= 8; cl |= c & 0xff], [n] times. *)
Fixpoint repeat_byte (n : nat) (cl c : Z) : Z :=
  match n with
  | O => cl
  | S n' => repeat_byte n' (Z.lor (u64 (Z.shiftl cl 8)) (Z.land c 0xff)) c
  end.

Definition memset (m : bmem) (s c count : Z) : outcome bmem :=
  let words := if Z.land s 7 =? 0 then count / 8 else 0 in
  let! m := set_words (Z.to_nat words) m s (repeat_byte 8 0 c) in
  set_bytes (Z.to_nat (count - 8 * words)) m (s + 8 * words) c.

Fixpoint copy_words (n : nat) (m : bmem) (d s : Z) : outcome bmem :=
  match n with
  | O => Done m
  | S n' => let! w := ld64 m s in let! m := st64 m d w in copy_words n' m (d + 8) (s + 8)
  end.

Fixpoint copy_bytes (n : nat) (m : bmem) (d s : Z) : outcome bmem :=
  match n with
  | O => Done m
  | S n' => let! c := ld m s in let! m := st m d c in copy_bytes n' m (d + 1) (s + 1)
  end.

Definition memcpy (m : bmem) (dest src count : Z) : outcome bmem :=
  if src =? dest then Done m
  else
    let words := if Z.land (Z.lor dest src) 7 =? 0 then count / 8 else 0 in
    let! m := copy_words (Z.to_nat words) m dest src in
    copy_bytes (Z.to_nat (count - 8 * words)) m (dest + 8 * words) (src + 8 * words).

(** [*--tmp = *--s], [n] times. *)
Fixpoint copy_back (n : nat) (m : bmem) (tmp s : Z) : outcome bmem :=
  match n with
  | O => Done m
  | S n' =>
      let! c := ld m (s - 1) in
      let! m := st m (tmp - 1) c in
      copy_back n' m (tmp - 1) (s - 1)
  end.

Definition memmove (m : bmem) (dest src count : Z) : outcome bmem :=
  if (dest <=? src) || (src + count <=? dest) then memcpy m dest src count
  else copy_back (Z.to_nat count) m (dest + count) (src + count).

Fixpoint memcmp_loop (n : nat) (m : bmem) (su1 su2 : Z) : outcome Z :=
  match n with
  | O => Done 0
  | S n' =>
      let! a := ld m su1 in
      let! b := ld m su2 in
      if negb (a - b =? 0) then Done (a - b) else memcmp_loop n' m (su1 + 1) (su2 + 1)
  end.

Definition memcmp (m : bmem) (cs ct count : Z) : outcome Z := memcmp_loop (Z.to_nat count) m cs ct.

(** [*p == c] compares the byte with the unconverted [int]. *)
Fixpoint memscan_loop (n : nat) (m : bmem) (p c : Z) : outcome Z :=
  match n with
  | O => Done p
  | S n' => let! b := ld m p in if b =? c then Done p else memscan_loop n' m (p + 1) c
  end.

Definition memscan (m : bmem) (addr c size : Z) : outcome Z :=
  memscan_loop (Z.to_nat size) m addr c.

(** 0 is NULL in the results below. *)
Fixpoint memchr_loop (n : nat) (m : bmem) (p c : Z) : outcome Z :=
  match n with
  | O => Done 0
  | S n' => let! b := ld m p in if u8 c =? b then Done p else memchr_loop n' m (p + 1) c
  end.

Definition memchr (m : bmem) (s c n : Z) : outcome Z := memchr_loop (Z.to_nat n) m s c.

Fixpoint check_bytes8 (n : nat) (m : bmem) (start value : Z) : outcome Z :=
  match n with
  | O => Done 0
  | S n' =>
      let! b := ld m start in
      if negb (b =? value) then Done start else check_bytes8 n' m (start + 1) value
  end.

(** The loop over whole words: the address found, or where it stopped. *)
Fixpoint check_words (n : nat) (m : bmem) (start value value64 : Z) : outcome (Z + Z) :=
  match n with
  | O => Done (inr start)
  | S n' =>
      let! w := ld64 m start in
      if negb (w =? value64) then let! r := check_bytes8 8 m start value in Done (inl r)
      else check_words n' m (start + 8) value value64
  end.

(** [words] is an [unsigned int]. *)
Definition memchr_inv (m : bmem) (start c bytes : Z) : outcome Z :=
  let value := u8 c in
  if bytes <=? 16 then check_bytes8 (Z.to_nat bytes) m start value
  else
    let value64 := value in
    let value64 := Z.lor value64 (u64 (Z.shiftl value64 8)) in
    let value64 := Z.lor value64 (u64 (Z.shiftl value64 16)) in
    let value64 := Z.lor value64 (u64 (Z.shiftl value64 32)) in
    let prefix := start mod 8 in
    let prefix := if prefix =? 0 then 0 else 8 - prefix in
    let! r := check_bytes8 (Z.to_nat prefix) m start value in
    if negb (r =? 0) then Done r
    else
      let start := start + prefix in
      let bytes := bytes - prefix in
      let! r := check_words (Z.to_nat (u32 (bytes / 8))) m start value value64 in
      match r with
      | inl r => Done r
      | inr start => check_bytes8 (Z.to_nat (bytes mod 8)) m start value
      end.

(** ** Lengths and searches *)

Fixpoint strlen_loop (fuel : nat) (m : bmem) (sc : Z) : outcome Z :=
  match fuel with
  | O => Fuel
  | S fuel' => let! c := ld m sc in if c =? 0 then Done sc else strlen_loop fuel' m (sc + 1)
  end.

Definition strlen (m : bmem) (s : Z) : outcome Z :=
  let! sc := strlen_loop (scan_fuel m) m s in Done (sc - s).

Fixpoint strnlen_loop (fuel : nat) (m : bmem) (sc count : Z) : outcome Z :=
  match fuel with
  | O => Fuel
  | S fuel' =>
      if count =? 0 then Done sc
      else let! c := ld m sc in if c =? 0 then Done sc else strnlen_loop fuel' m (sc + 1) (count - 1)
  end.

Definition strnlen (m : bmem) (s count : Z) : outcome Z :=
  let! sc := strnlen_loop (scan_fuel m) m s count in Done (sc - s).

(** [strchr] and [strchrnul]: [nul] is returned at the end of the string. *)
Fixpoint strchr_loop (fuel : nat) (m : bmem) (s c : Z) (nul : Z -> Z) : outcome Z :=
  match fuel with
  | O => Fuel
  | S fuel' =>
      let! b := ld m s in
      if b =? u8 c then Done s
      else if b =? 0 then Done (nul s)
      else strchr_loop fuel' m (s + 1) c nul
  end.

Definition strchr (m : bmem) (s c : Z) : outcome Z := strchr_loop (scan_fuel m) m s c (fun _ => 0).
Definition strchrnul (m : bmem) (s c : Z) : outcome Z := strchr_loop (scan_fuel m) m s c (fun p => p).

(** The [do ... while (--p >= s)] loop. *)
Fixpoint strrchr_loop (n : nat) (m : bmem) (p c : Z) : outcome Z :=
  match n with
  | O => Done 0
  | S n' => let! b := ld m p in if b =? u8 c then Done p else strrchr_loop n' m (p - 1) c
  end.

Definition strrchr (m : bmem) (s c : Z) : outcome Z :=
  let! len := strlen m s in
  strrchr_loop (S (Z.to_nat len)) m (s + len) c.

(** The inner loops of [strcspn], [strspn] and [strpbrk]: is [c] one of the
    characters of [set]? *)
Fixpoint in_set (fuel : nat) (m : bmem) (set c : Z) : outcome bool :=
  match fuel with
  | O => Fuel
  | S fuel' =>
      let! r := ld m set in
      if r =? 0 then Done false
      else if c =? r then Done true
      else in_set fuel' m (set + 1) c
  end.

(** Skip the characters whose membership in [set] is [keep]. *)
Fixpoint span_loop (fuel : nat) (m : bmem) (p set : Z) (keep : bool) : outcome Z :=
  match fuel with
  | O => Fuel
  | S fuel' =>
      let! c := ld m p in
      if c =? 0 then Done p
      else
        let! b := in_set (scan_fuel m) m set c in
        if Bool.eqb b keep then span_loop fuel' m (p + 1) set keep else Done p
  end.

Definition strcspn (m : bmem) (s reject : Z) : outcome Z :=
  let! p := span_loop (scan_fuel m) m s reject false in Done (p - s).

Definition strspn (m : bmem) (s accept : Z) : outcome Z :=
  let! p := span_loop (scan_fuel m) m s accept true in Done (p - s).

Definition strpbrk (m : bmem) (cs ct : Z) : outcome Z :=
  let! p := span_loop (scan_fuel m) m cs ct false in
  let! c := ld m p in
  Done (if c =? 0 then 0 else p).

(** [l1 >= l2; --l1, ++s1]; the counters are unsigned, so with [l2 = 0] the
    first comparison succeeds and the loop returns. *)
Fixpoint strnstr_loop (n : nat) (m : bmem) (s1 s2 l2 : Z) : outcome Z :=
  match n with
  | O => Done 0
  | S n' =>
      let! r := memcmp m s1 s2 l2 in
      if r =? 0 then Done s1 else strnstr_loop n' m (s1 + 1) s2 l2
  end.

Definition strnstr (m : bmem) (s1 s2 len : Z) : outcome Z :=
  let! l1 := strnlen m s1 len in
  let! l2 := strlen m s2 in
  strnstr_loop (Z.to_nat (l1 - l2 + 1)) m s1 s2 l2.

Definition SIZE_MAX : Z := 2 ^ 64 - 1.

Definition strstr (m : bmem) (s1 s2 : Z) : outcome Z := strnstr m s1 s2 SIZE_MAX.

(** ** Character classes ([ctype.c], [linux/ctype.h]) *)

Definition _U : Z := 0x01.
Definition _L : Z := 0x02.
Definition _D : Z := 0x04.
Definition _C : Z := 0x08.
Definition _P : Z := 0x10.
Definition _S : Z := 0x20.
Definition _X : Z := 0x40.
Definition _SP : Z := 0x80.

Definition _ctype : list Z :=
  replicate 9 _C ++ replicate 5 (Z.lor _C _S) ++ replicate 18 _C ++
  [Z.lor _S _SP] ++ replicate 15 _P ++ replicate 10 _D ++ replicate 7 _P ++
  replicate 6 (Z.lor _U _X) ++ replicate 20 _U ++ replicate 6 _P ++
  replicate 6 (Z.lor _L _X) ++ replicate 20 _L ++ replicate 4 _P ++ [_C] ++
  replicate 32 0 ++
  [Z.lor _S _SP] ++ replicate 31 _P ++
  replicate 23 _U ++ [_P] ++ replicate 7 _U ++ [_L] ++
  replicate 23 _L ++ [_P] ++ replicate 8 _L.

Definition ismask (c mask : Z) : bool :=
  negb (Z.land (default 0 (_ctype !! Z.to_nat (u8 c))) mask =? 0).
Definition isdigit (c : Z) : bool := ismask c _D.
Definition isxdigit (c : Z) : bool := ismask c (Z.lor _D _X).
Definition isupper (c : Z) : bool := ismask c _U.
Definition islower (c : Z) : bool := ismask c _L.
Definition tolower (c : Z) : Z := if isupper c then u8 (c + 32) else c.
Definition toupper (c : Z) : Z := if islower c then u8 (c - 32) else c.

(** ** Comparisons *)

Fixpoint strcmp_loop (fuel : nat) (m : bmem) (cs ct : Z) : outcome Z :=
  match fuel with
  | O => Fuel
  | S fuel' =>
      let! a := ld m cs in
      let! b := ld m ct in
      if negb (a - b =? 0) || (b =? 0) then Done (a - b)
      else strcmp_loop fuel' m (cs + 1) (ct + 1)
  end.

Definition strcmp (m : bmem) (cs ct : Z) : outcome Z := strcmp_loop (scan_fuel m) m cs ct.

Fixpoint strncmp_loop (fuel : nat) (m : bmem) (cs ct count ret : Z) : outcome Z :=
  match fuel with
  | O => Fuel
  | S fuel' =>
      if count =? 0 then Done ret
      else
        let! a := ld m cs in
        let! b := ld m ct in
        if negb (a - b =? 0) || (b =? 0) then Done (a - b)
        else strncmp_loop fuel' m (cs + 1) (ct + 1) (count - 1) (a - b)
  end.

Definition strncmp (m : bmem) (cs ct count : Z) : outcome Z :=
  strncmp_loop (scan_fuel m) m cs ct count 0.

(** One turn of the [do ... while (--len)] loop per step. *)
Fixpoint strncasecmp_loop (fuel : nat) (m : bmem) (s1 s2 len : Z) : outcome Z :=
  match fuel with
  | O => Fuel
  | S fuel' =>
      let! c1 := ld m s1 in
      let! c2 := ld m s2 in
      if (c1 =? 0) || (c2 =? 0) then Done (c1 - c2)
      else
        let '(c1, c2) := if c1 =? c2 then (c1, c2) else (tolower c1, tolower c2) in
        if negb (c1 =? c2) then Done (c1 - c2)
        else if len - 1 =? 0 then Done (c1 - c2)
        else strncasecmp_loop fuel' m (s1 + 1) (s2 + 1) (len - 1)
  end.

Definition strncasecmp (m : bmem) (s1 s2 len : Z) : outcome Z :=
  if len =? 0 then Done 0 else strncasecmp_loop (scan_fuel m) m s1 s2 len.

Definition strcasecmp (m : bmem) (s1 s2 : Z) : outcome Z := strncasecmp m s1 s2 U32_MAX.

(** ** Copies; each returns memory (the C result is [dest] where not shown) *)

Fixpoint strcpy_loop (fuel : nat) (m : bmem) (dest src : Z) : outcome bmem :=
  match fuel with
  | O => Fuel
  | S fuel' =>
      let! c := ld m src in
      let! m := st m dest c in
      if c =? 0 then Done m else strcpy_loop fuel' m (dest + 1) (src + 1)
  end.

Definition strcpy (m : bmem) (dest src : Z) : outcome bmem :=
  strcpy_loop (scan_fuel m) m dest src.

Fixpoint strncpy_loop (fuel : nat) (m : bmem) (dest src count : Z) : outcome bmem :=
  match fuel with
  | O => Fuel
  | S fuel' =>
      if count =? 0 then Done m
      else
        let! c := ld m src in
        let! m := st m dest c in
        if c =? 0 then Done m else strncpy_loop fuel' m (dest + 1) (src + 1) (count - 1)
  end.

Definition strncpy (m : bmem) (dest src count : Z) : outcome bmem :=
  strncpy_loop (scan_fuel m) m dest src count.

Definition strlcpy (m : bmem) (dest src size : Z) : outcome (Z * bmem) :=
  let! ret := strlen m src in
  if size =? 0 then Done (ret, m)
  else
    let len := if size <=? ret then size - 1 else ret in
    let! m := memcpy m dest src len in
    let! m := st m (dest + len) 0 in
    Done (ret, m).

Definition strcat (m : bmem) (dest src : Z) : outcome bmem :=
  let! end_ := strlen_loop (scan_fuel m) m dest in
  strcpy_loop (scan_fuel m) m end_ src.

(** Append at most [count] characters, then a terminator. *)
Fixpoint strncat_loop (fuel : nat) (m : bmem) (dest src count : Z) : outcome bmem :=
  match fuel with
  | O => Fuel
  | S fuel' =>
      let! c := ld m src in
      let! m := st m dest c in
      if c =? 0 then Done m
      else if count - 1 =? 0 then st m (dest + 1) 0
      else strncat_loop fuel' m (dest + 1) (src + 1) (count - 1)
  end.

Definition strncat (m : bmem) (dest src count : Z) : outcome bmem :=
  if count =? 0 then Done m
  else
    let! end_ := strlen_loop (scan_fuel m) m dest in
    strncat_loop (scan_fuel m) m end_ src count.

Definition strlcat (m : bmem) (dest src size : Z) : outcome (Z * bmem) :=
  let! len := strnlen m dest size in
  let! (ret, m) := strlcpy m (dest + len) src (size - len) in
  Done (len + ret, m).

Definition E2BIG : Z := 7.

(** The loop of [sized_strscpy] at index [i], with [n = count - 1 - i]. *)
Fixpoint strscpy_loop (n : nat) (m : bmem) (dest src i : Z) : outcome (Z * bmem) :=
  match n with
  | O =>
      let! m := st m (dest + i) 0 in
      let! c := ld m (src + i) in
      Done (if c =? 0 then i else - E2BIG, m)
  | S n' =>
      let! c := ld m (src + i) in
      let! m := st m (dest + i) c in
      if c =? 0 then Done (i, m) else strscpy_loop n' m dest src (i + 1)
  end.

Definition sized_strscpy (m : bmem) (dest src count : Z) : outcome (Z * bmem) :=
  if count =? 0 then Done (- E2BIG, m) else strscpy_loop (Z.to_nat (count - 1)) m dest src 0.

(** ** Tokens *)

(** [strtok] keeps its place in [___strtok]; the result is the token, the
    new value of [___strtok] and memory. *)
Definition strtok (m : bmem) (___strtok s ct : Z) : outcome (Z * Z * bmem) :=
  let sbegin := if s =? 0 then ___strtok else s in
  if sbegin =? 0 then Done (0, ___strtok, m)
  else
    let! n := strspn m sbegin ct in
    let sbegin := sbegin + n in
    let! c := ld m sbegin in
    if c =? 0 then Done (0, 0, m)
    else
      let! send := strpbrk m sbegin ct in
      if send =? 0 then Done (sbegin, 0, m)
      else
        let! c := ld m send in
        if c =? 0 then Done (sbegin, send, m)
        else let! m := st m send 0 in Done (sbegin, send + 1, m).

(** [strsep]: the token, the new [*s] and memory. *)
Definition strsep (m : bmem) (s ct : Z) : outcome (Z * Z * bmem) :=
  if s =? 0 then Done (0, s, m)
  else
    let! end_ := strpbrk m s ct in
    if end_ =? 0 then Done (s, 0, m)
    else let! m := st m end_ 0 in Done (s, end_ + 1, m).

Fixpoint strswab_loop (fuel : nat) (m : bmem) (p : Z) : outcome bmem :=
  match fuel with
  | O => Fuel
  | S fuel' =>
      let! a := ld m p in
      if a =? 0 then Done m
      else
        let! b := ld m (p + 1) in
        if b =? 0 then Done m
        else
          let! m := st m p b in
          let! m := st m (p + 1) a in
          strswab_loop fuel' m (p + 2)
  end.

Definition strswab (m : bmem) (s : Z) : outcome (Z * bmem) :=
  if s =? 0 then Done (0, m)
  else
    let! c := ld m s in
    if c =? 0 then Done (0, m)
    else let! m := strswab_loop (scan_fuel m) m s in Done (s, m).

(** ** Numbers ([strto.c]) *)

Definition _parse_integer_fixup_radix (m : bmem) (s base : Z) : outcome (Z * Z) :=
  let! c0 := ld m s in
  let! (s, base) :=
    if c0 =? 48 then
      let! c1 := ld m (s + 1) in
      if tolower c1 =? 120 then Done (s + 2, 16)
      else if base =? 0 then Done (s, 8) else Done (s, base)
    else Done (s, base) in
  Done (s, if base =? 0 then 10 else base).

Definition decode_digit (ch : Z) : Z :=
  if negb (isxdigit ch) then 256
  else let ch := tolower ch in if ch <=? 57 then ch - 48 else ch - 97 + 10.

Fixpoint strtoul_loop (fuel : nat) (m : bmem) (cp base result : Z) : outcome (Z * Z) :=
  match fuel with
  | O => Fuel
  | S fuel' =>
      let! c := ld m cp in
      let value := decode_digit c in
      if value <? base then strtoul_loop fuel' m (cp + 1) base (u64 (result * base + value))
      else Done (result, cp)
  end.

(** The value and [*endp]; [simple_strtoull] has the same body. *)
Definition simple_strtoul (m : bmem) (cp base : Z) : outcome (Z * Z) :=
  let! (cp, base) := _parse_integer_fixup_radix m cp base in
  strtoul_loop (scan_fuel m) m cp base 0.

Definition hextoul (m : bmem) (cp : Z) : outcome (Z * Z) := simple_strtoul m cp 16.
Definition dectoul (m : bmem) (cp : Z) : outcome (Z * Z) := simple_strtoul m cp 10.

(** The error code and [*res]. *)
Definition strict_strtoul (m : bmem) (cp base : Z) : outcome (Z * Z) :=
  let! len := strlen m cp in
  if len =? 0 then Done (- EINVAL, 0)
  else
    let! (val, tail) := simple_strtoul m cp base in
    if tail =? cp then Done (- EINVAL, 0)
    else
      let! t := ld m tail in
      if (t =? 0) || ((len =? tail - cp + 1) && (t =? 10)) then Done (0, val)
      else Done (- EINVAL, 0).

Definition simple_strtol (m : bmem) (cp base : Z) : outcome (Z * Z) :=
  let! c := ld m cp in
  if c =? 45 then
    let! (v, endp) := simple_strtoul m (cp + 1) base in Done (s64 (u64 (- v)), endp)
  else let! (v, endp) := simple_strtoul m cp base in Done (s64 v, endp).

(** [ustrtoul] and [ustrtoull]: a number with a size suffix. *)
Definition ustrtoul (m : bmem) (cp base : Z) : outcome (Z * Z) :=
  let! (result, endp) := simple_strtoul m cp base in
  let! c := ld m endp in
  let c := tolower c in
  if (c =? 103) || (c =? 109) || (c =? 107) then
    let result := if c =? 103 then u64 (result * 1024) else result in
    let result := if (c =? 103) || (c =? 109) then u64 (result * 1024) else result in
    let result := u64 (result * 1024) in
    let endp := endp + 1 in
    let! i := ld m endp in
    let endp := if i =? 105 then endp + 1 else endp in
    let! b := ld m endp in
    let endp := if b =? 66 then endp + 1 else endp in
    Done (result, endp)
  else Done (result, endp).

(** [p] runs down from [end - 1] while it is above [str]. *)
Fixpoint trailing_loop (n : nat) (m : bmem) (p : Z) : outcome (option Z) :=
  match n with
  | O => Done None
  | S n' =>
      let! c := ld m (p - 1) in
      if negb (isdigit c) then Done (Some p) else trailing_loop n' m (p - 1)
  end.

(** The value and [*endp]. *)
Definition trailing_strtoln_end (m : bmem) (str end_ : Z) : outcome (Z * Z) :=
  let! end_ := if end_ =? 0 then let! n := strlen m str in Done (str + n) else Done end_ in
  let p := end_ - 1 in
  let! start :=
    if str <? p then
      let! c := ld m p in
      if isdigit c then trailing_loop (Z.to_nat (p - str)) m p else Done None
    else Done None in
  match start with
  | Some p => let! (v, _) := dectoul m p in Done (s64 v, p)
  | None => Done (-1, end_)
  end.

Fixpoint str_to_upper (n : nat) (m : bmem) (inp out : Z) : outcome bmem :=
  match n with
  | O => Done m
  | S n' =>
      let! c := ld m inp in
      if c =? 0 then st m out 0
      else let! m := st m out (toupper c) in str_to_upper n' m (inp + 1) (out + 1)
  end.
