(* ===== verification/CStringSpec.v ===== *)
(** * What the memory and string routines compute

    The contents of memory are described by lists: [cells m a l] says that
    the bytes from [a] on are [l], [cstr m s l] that the C string at [s] is
    [l], and [blit m d l] is memory after [l] has been stored at [d].  The
    word-at-a-time copy, fill and search agree with their byte-at-a-time
    meaning, copies are right for every overlap, and the scans return for
    every terminated string. *)

From S2P Require Import Prelude CString.

(** ** Describing memory *)

Definition cells (m : bmem) (a : Z) (l : list Z) : Prop :=
  forall i x, l !! i = Some x -> m !! (a + Z.of_nat i) = Some x.

Definition mapped (m : bmem) (a n : Z) : Prop :=
  forall p, a <= p < a + n -> is_Some (m !! p).

Definition byte_list (l : list Z) : Prop := Forall (fun x => 0 <= x < 256) l.

Definition cstr (m : bmem) (s : Z) (l : list Z) : Prop :=
  cells m s (l ++ [0]) /\ Forall (fun x => x <> 0) l.

Fixpoint blit (m : bmem) (d : Z) (l : list Z) : bmem :=
  match l with
  | [] => m
  | x :: l' => <[d := x]> (blit m (d + 1) l')
  end.

Abbreviation len l := (Z.of_nat (length l)).

Lemma blit_lookup l : forall m d a,
  blit m d l !! a = if (d <=? a) && (a <? d + len l) then l !! Z.to_nat (a - d) else m !! a.
Proof.
  induction l as [|x l IH]; intros m d a; cbn [blit length].
  - destruct (d <=? a) eqn:E1, (a <? d + Z.of_nat 0) eqn:E2; simpl; bool_facts; try done; lia.
  - destruct (decide (a = d)) as [-> | Hne].
    + rewrite lookup_insert_eq, Z.leb_refl, (proj2 (Z.ltb_lt _ _)) by lia. simpl.
      by rewrite Z.sub_diag.
    + rewrite lookup_insert_ne, IH by done.
      destruct (Z.leb_spec (d + 1) a), (Z.leb_spec d a), (Z.ltb_spec a (d + 1 + len l)),
        (Z.ltb_spec a (d + Z.of_nat (S (length l)))); simpl; try lia; try done.
      replace (Z.to_nat (a - d)) with (S (Z.to_nat (a - (d + 1)))) by lia. done.
Qed.

Lemma blit_outside l m d a : a < d \/ d + len l <= a -> blit m d l !! a = m !! a.
Proof.
  intros Ha. rewrite blit_lookup. destruct (Z.leb_spec d a), (Z.ltb_spec a (d + len l)); simpl; done || lia.
Qed.

Lemma blit_app m d l1 l2 : blit m d (l1 ++ l2) = blit (blit m d l1) (d + len l1) l2.
Proof.
  apply map_eq. intros a. rewrite !blit_lookup, length_app, lookup_app.
  destruct (Z.leb_spec d a), (Z.leb_spec (d + len l1) a), (Z.ltb_spec a (d + len l1)),
    (Z.ltb_spec a (d + Z.of_nat (length l1 + length l2))),
    (Z.ltb_spec a (d + len l1 + len l2)); simpl; try lia; try done.
  - rewrite lookup_ge_None_2 by lia. f_equal. lia.
  - destruct (lookup_lt_is_Some_2 l1 (Z.to_nat (a - d))) as (x & ->); [lia | done].
Qed.

Lemma cells_cons m a x l : cells m a (x :: l) <-> m !! a = Some x /\ cells m (a + 1) l.
Proof.
  split.
  - intros H. split.
    + specialize (H 0%nat x eq_refl). by rewrite Z.add_0_r in H.
    + intros i y Hi. specialize (H (S i) y Hi). rewrite <- H. f_equal. lia.
  - intros [H1 H2] [|i] y Hi; simpl in Hi.
    + simplify_eq. by rewrite Z.add_0_r.
    + rewrite <- (H2 i y Hi). f_equal. lia.
Qed.

Lemma cells_app m a l1 l2 : cells m a (l1 ++ l2) <-> cells m a l1 /\ cells m (a + len l1) l2.
Proof.
  revert a. induction l1 as [|x l1 IH]; intros a; cbn [app length].
  - rewrite Z.add_0_r. split; [intros H; split; [by intros i y [=] | done] | by intros []].
  - rewrite !cells_cons, IH. replace (a + 1 + len l1) with (a + Z.of_nat (S (length l1))) by lia. tauto.
Qed.

Lemma cells_blit_outside m d l a l' :
  cells m a l' -> a + len l' <= d \/ d + len l <= a -> cells (blit m d l) a l'.
Proof.
  intros H Hd i x Hi. pose proof (lookup_lt_Some _ _ _ Hi). rewrite blit_outside by lia. by apply H.
Qed.

Lemma cells_blit m d l : cells (blit m d l) d l.
Proof.
  intros i x Hi. pose proof (lookup_lt_Some _ _ _ Hi). rewrite blit_lookup.
  rewrite (proj2 (Z.leb_le _ _)), (proj2 (Z.ltb_lt _ _)) by lia. simpl. by replace (Z.to_nat (d + Z.of_nat i - d)) with i by lia.
Qed.

Lemma mapped_blit_mono m d l a n : mapped m a n -> mapped (blit m d l) a n.
Proof.
  intros H p Hp. rewrite blit_lookup. case_match; [| by apply H].
  bool_facts. apply lookup_lt_is_Some_2. lia.
Qed.

Lemma mapped_blit m d l a n : mapped m a n -> mapped m d (len l) -> mapped (blit m d l) a n.
Proof. intros H _. by apply mapped_blit_mono. Qed.

Lemma mapped_sub m a n a' n' : mapped m a n -> a <= a' -> a' + n' <= a + n -> mapped m a' n'.
Proof. intros H ? ? p Hp. apply H. lia. Qed.

(** The objects of memory are not larger than memory. *)
Lemma cells_size m a l : cells m a l -> (length l <= size m)%nat.
Proof.
  intros H. rewrite <- size_dom.
  trans (size (list_to_set (C := gset Z) (seqZ a (len l)))).
  - rewrite size_list_to_set by apply NoDup_seqZ. rewrite length_seqZ. lia.
  - apply subseteq_size. intros p. rewrite elem_of_list_to_set, elem_of_seqZ. intros Hp.
    apply elem_of_dom. destruct (lookup_lt_is_Some_2 l (Z.to_nat (p - a))) as (x & Hx); [lia |].
    exists x. rewrite <- (H _ _ Hx). f_equal. lia.
Qed.

Lemma u8_byte x : 0 <= x < 256 -> u8 x = x.
Proof. intros H. apply Z.mod_small. exact H. Qed.

(** Executing one load or store. *)
Lemma ld_cell m a x : m !! a = Some x -> ld m a = Done x.
Proof. intros H. unfold ld. by rewrite H. Qed.

Lemma st_cell m a v : is_Some (m !! a) -> st m a v = Done (<[a := u8 v]> m).
Proof. intros (x & H). unfold st. by rewrite H. Qed.

#[export] Hint Resolve cells_blit cells_blit_outside mapped_blit ld_cell st_cell : quest.

(** ** Words *)

Fixpoint le_val (l : list Z) : Z :=
  match l with
  | [] => 0
  | b :: l' => b + 256 * le_val l'
  end.

Lemma ld_le_cells l : forall m a, cells m a l -> ld_le (length l) m a = Done (le_val l).
Proof.
  induction l as [|x l IH]; intros m a H; cbn [ld_le length le_val]; [done |].
  apply cells_cons in H as [Hx H]. rewrite (ld_cell _ _ _ Hx). cbn [obind]. by rewrite IH.
Qed.

Lemma st_le_cells l : forall m a,
  byte_list l -> mapped m a (len l) -> st_le (length l) m a (le_val l) = Done (blit m a l).
Proof.
  induction l as [|x l IH]; intros m a Hb Hm; cbn [st_le length le_val blit]; [done |].
  cbn [length] in Hm. inversion_clear Hb as [|? ? Hx Hl].
  rewrite st_cell by (apply Hm; lia). cbn [obind].
  replace (u8 (x + 256 * le_val l)) with x
    by (unfold u8; change (2 ^ 8) with 256; rewrite Z.mul_comm, Z_mod_plus_full, Z.mod_small; lia).
  replace ((x + 256 * le_val l) / 256) with (le_val l)
    by (rewrite Z.mul_comm, Z_div_plus_full, Z.div_small; lia).
  change (<[a := x]> m) with (blit m a [x]) at 1.
  assert (Hm1 : mapped m a (len [x])) by (eapply mapped_sub; [exact Hm | |]; simpl; lia).
  rewrite IH; [| done | apply mapped_blit; [eapply mapped_sub; [exact Hm | |]; lia | done]].
  change (x :: l) with ([x] ++ l). f_equal. symmetry. exact (blit_app m a [x] l).
Qed.

(** The bytes of a word. *)
Fixpoint le_list (n : nat) (v : Z) : list Z :=
  match n with
  | O => []
  | S n' => v mod 256 :: le_list n' (v / 256)
  end.

Lemma le_list_spec n : forall v,
  0 <= v < 256 ^ Z.of_nat n ->
  le_val (le_list n v) = v /\ length (le_list n v) = n /\ byte_list (le_list n v).
Proof.
  induction n as [|n IH]; intros v Hv; cbn [le_list le_val length].
  { change (256 ^ Z.of_nat 0) with 1 in Hv. split; [lia |]. split; [done | constructor]. }
  rewrite Nat2Z.inj_succ, Z.pow_succ_r in Hv by lia.
  destruct (IH (v / 256)) as (I1 & I2 & I3).
  { split; [apply Z.div_pos; lia | apply Z.div_lt_upper_bound; lia]. }
  pose proof (Z.div_mod v 256). pose proof (Z.mod_pos_bound v 256).
  split; [lia |]. split; [by rewrite I2 |]. constructor; [lia | done].
Qed.

Lemma st64_spec m a v :
  0 <= v < 2 ^ 64 -> mapped m a 8 -> st64 m a v = Done (blit m a (le_list 8 v)).
Proof.
  intros Hv Hm. destruct (le_list_spec 8 v Hv) as (H1 & H2 & H3). unfold st64.
  pose proof (st_le_cells (le_list 8 v) m a H3) as Hst. rewrite H2, H1 in Hst. by apply Hst.
Qed.

Lemma ld64_spec m a v : 0 <= v < 2 ^ 64 -> cells m a (le_list 8 v) -> ld64 m a = Done v.
Proof.
  intros Hv Hc. destruct (le_list_spec 8 v Hv) as (H1 & H2 & _). unfold ld64.
  pose proof (ld_le_cells _ _ _ Hc) as E. rewrite H2, H1 in E. done.
Qed.

(** ** Copies *)

Lemma length_eq_app_split {A} (l : list A) n :
  (n <= length l)%nat -> exists l1 l2, l = l1 ++ l2 /\ length l1 = n.
Proof. intros H. exists (take n l), (drop n l). rewrite take_drop, length_take. split; [done | lia]. Qed.

(** A forward copy is right when the destination is below the source or
    the two do not overlap. *)
Lemma copy_bytes_spec l : forall m d s,
  cells m s l -> byte_list l -> mapped m d (len l) -> d <= s \/ s + len l <= d ->
  copy_bytes (length l) m d s = Done (blit m d l).
Proof.
  induction l as [|x l IH]; intros m d s Hc Hb Hm Hd; cbn [copy_bytes length]; [done |].
  cbn [length] in *. apply cells_cons in Hc as [Hx Hc]. inversion_clear Hb as [|? ? Hxb Hl].
  rewrite (ld_cell _ _ _ Hx). cbn [obind]. rewrite st_cell by (apply Hm; lia). cbn [obind].
  rewrite u8_byte by done. change (<[d := x]> m) with (blit m d [x]).
  assert (Hm1 : mapped m d (len [x])) by (eapply mapped_sub; [exact Hm | |]; simpl; lia).
  rewrite IH.
  - f_equal. symmetry. exact (blit_app m d [x] l).
  - apply cells_blit_outside; [done |]. simpl. lia.
  - done.
  - apply mapped_blit; [eapply mapped_sub; [exact Hm | |]; lia | done].
  - lia.
Qed.

Lemma copy_back_spec l : forall m d s,
  cells m s l -> byte_list l -> mapped m d (len l) -> s <= d ->
  copy_back (length l) m (d + len l) (s + len l) = Done (blit m d l).
Proof.
  induction l as [|x l IH] using rev_ind; intros m d s Hc Hb Hm Hd; [done |].
  rewrite length_app, Nat.add_comm in *. cbn [length Nat.add copy_back] in *.
  apply cells_app in Hc as [Hc Hx]. apply cells_cons in Hx as [Hx _].
  apply Forall_app in Hb as [Hb Hxb]. inversion_clear Hxb as [|? ? Hxb' _].
  replace (s + Z.of_nat (S (length l)) - 1) with (s + len l) by lia.
  replace (d + Z.of_nat (S (length l)) - 1) with (d + len l) by lia.
  rewrite (ld_cell _ _ _ Hx). cbn [obind]. rewrite st_cell by (apply Hm; lia). cbn [obind].
  rewrite u8_byte by done. change (<[d + len l := x]> m) with (blit m (d + len l) [x]).
  rewrite IH.
  - f_equal. apply map_eq. intros a. rewrite blit_app, !blit_lookup. cbn [length].
    repeat match goal with |- context [(?x <=? ?y)] => destruct (Z.leb_spec x y) end;
    repeat match goal with |- context [(?x <? ?y)] => destruct (Z.ltb_spec x y) end;
      simpl; try lia; done.
  - apply cells_blit_outside; [done |]. simpl. lia.
  - done.
  - apply mapped_blit; (eapply mapped_sub; [exact Hm | |]; simpl; lia).
  - done.
Qed.

(** Whole words: aligned addresses that differ are at least a word apart. *)
Lemma copy_words_spec n : forall m d s l,
  length l = (8 * n)%nat -> cells m s l -> byte_list l -> mapped m d (len l) ->
  d + 8 <= s \/ s + len l <= d ->
  copy_words n m d s = Done (blit m d l).
Proof.
  induction n as [|n IH]; intros m d s l Hl Hc Hb Hm Hd; cbn [copy_words].
  { by destruct l. }
  destruct (length_eq_app_split l 8) as (w & l' & -> & Hw); [lia |].
  rewrite length_app in *. apply cells_app in Hc as [Hcw Hc]. apply Forall_app in Hb as [Hbw Hb].
  assert (Hmw : mapped m d (len w)) by (eapply mapped_sub; [exact Hm | |]; lia).
  unfold ld64, st64. rewrite <- Hw at 1. rewrite (ld_le_cells _ _ _ Hcw). cbn [obind].
  rewrite <- Hw at 1. rewrite st_le_cells by done. cbn [obind]. rewrite Hw in *.
  rewrite (IH _ _ _ l'); [| lia | | done | | lia].
  - f_equal. rewrite blit_app, Hw. done.
  - apply cells_blit_outside; [exact Hc |]. lia.
  - apply mapped_blit; [eapply mapped_sub; [exact Hm | |]; lia | by rewrite Hw].
Qed.

Lemma blit_id m d l : cells m d l -> blit m d l = m.
Proof.
  intros H. apply map_eq. intros a. rewrite blit_lookup. case_match eqn:E; [| done].
  bool_facts. destruct (lookup_lt_is_Some_2 l (Z.to_nat (a - d))) as (x & Hx); [lia |].
  rewrite Hx, <- (H _ _ Hx). f_equal. lia.
Qed.

Lemma land_7 x : Z.land x 7 = x mod 8.
Proof. exact (Z.land_ones x 3 ltac:(lia)). Qed.

Lemma aligned_pair d s :
  Z.land (Z.lor d s) 7 = 0 -> d mod 8 = 0 /\ s mod 8 = 0.
Proof. rewrite Z.land_lor_distr_l, Z.lor_eq_0_iff, !land_7. done. Qed.

(** Split a block into the part copied by words and the rest. *)
Lemma word_split (b : bool) (l : list Z) :
  let words := if b then len l / 8 else 0 in
  exists l1 l2, l = l1 ++ l2 /\ length l1 = (8 * Z.to_nat words)%nat
    /\ length l2 = Z.to_nat (len l - 8 * words) /\ len l1 = 8 * words.
Proof.
  intros words. assert (Hw : 0 <= words /\ 8 * words <= len l).
  { unfold words. destruct b; [| lia]. pose proof (Z.mul_div_le (len l) 8). pose proof (Z.div_pos (len l) 8). lia. }
  destruct (length_eq_app_split l (8 * Z.to_nat words)) as (l1 & l2 & E & H); [lia |].
  exists l1, l2. split; [done |]. split; [done |]. rewrite E, length_app. lia.
Qed.

Lemma memcpy_spec m dest src l :
  cells m src l -> byte_list l -> mapped m dest (len l) -> dest <= src \/ src + len l <= dest ->
  memcpy m dest src (len l) = Done (blit m dest l).
Proof.
  intros Hc Hb Hm Hd. unfold memcpy. destruct (Z.eqb_spec src dest) as [-> | Hne].
  { by rewrite blit_id. }
  destruct (word_split (Z.land (Z.lor dest src) 7 =? 0) l) as (l1 & l2 & -> & H1 & H2 & H3).
  set (words := if Z.land (Z.lor dest src) 7 =? 0 then len (l1 ++ l2) / 8 else 0) in *. cbv zeta.
  apply Forall_app in Hb as [Hb1 Hb2]. apply cells_app in Hc as [Hc1 Hc2].
  assert (Hm1 : mapped m dest (len l1)) by (eapply mapped_sub; [exact Hm | |]; rewrite ?length_app; lia).
  assert (Hw : copy_words (Z.to_nat words) m dest src = Done (blit m dest l1)).
  { unfold words in *. destruct (Z.eqb_spec (Z.land (Z.lor dest src) 7) 0) as [Ha | Ha].
    - apply aligned_pair in Ha as [Ha1 Ha2]. apply copy_words_spec with (l := l1); try done.
      rewrite length_app in Hd. destruct Hd as [Hd | Hd]; [left | right; lia].
      pose proof (Z.div_mod dest 8). pose proof (Z.div_mod src 8). lia.
    - destruct l1; [done | simpl in H1; lia]. }
  rewrite Hw. cbn [obind]. rewrite <- H2, <- H3. rewrite length_app in *.
  rewrite copy_bytes_spec with (l := l2); [| | done | | lia].
  - by rewrite blit_app.
  - apply cells_blit_outside; [exact Hc2 |]. lia.
  - apply mapped_blit; [| done]. eapply mapped_sub; [exact Hm | |]; lia.
Qed.

(** C33: [memmove] stores the old contents of the source at the destination
    for every overlap of the two blocks, word-aligned or not, and changes
    nothing else. *)
Theorem memmove_correct m dest src l :
  cells m src l -> byte_list l -> mapped m dest (len l) ->
  memmove m dest src (len l) = Done (blit m dest l)
  /\ cells (blit m dest l) dest l
  /\ (forall a, a < dest \/ dest + len l <= a -> blit m dest l !! a = m !! a).
Proof.
  intros Hc Hb Hm. split; [| split; [apply cells_blit | intros; by apply blit_outside]].
  unfold memmove. destruct (Z.leb_spec dest src), (Z.leb_spec (src + len l) dest); simpl;
    try (apply memcpy_spec; done || lia).
  rewrite Nat2Z.id. apply copy_back_spec; done || lia.
Qed.

(** A concrete memory: the bytes [l] from the address [a] on. *)
Definition mem_at (a : Z) (l : list Z) : bmem := blit ∅ a l.

Lemma cells_mem_at a l : cells (mem_at a l) a l.
Proof. apply cells_blit. Qed.

Lemma mapped_cells m a l n : cells m a l -> n <= len l -> mapped m a n.
Proof.
  intros H Hn p Hp. destruct (lookup_lt_is_Some_2 l (Z.to_nat (p - a))) as (x & Hx); [lia |].
  exists x. rewrite <- (H _ _ Hx). f_equal. lia.
Qed.

(** An overlapping move of 17 bytes up by 8. *)
Lemma memmove_correct_witness :
  let m := mem_at 64 (seqZ 1 25) in
  memmove m 72 64 (len (seqZ 1 17)) = Done (blit m 72 (seqZ 1 17))
  /\ cells (blit m 72 (seqZ 1 17)) 72 (seqZ 1 17)
  /\ (forall a, a < 72 \/ 72 + len (seqZ 1 17) <= a -> blit m 72 (seqZ 1 17) !! a = m !! a).
Proof.
  apply memmove_correct.
  - apply cells_app with (l2 := seqZ 18 8). exact (cells_mem_at 64 (seqZ 1 25)).
  - unfold byte_list. apply Forall_forall. intros x Hx. apply elem_of_seqZ in Hx. lia.
  - eapply mapped_sub; [apply (mapped_cells _ _ _ 25 (cells_mem_at 64 (seqZ 1 25))) | |];
      rewrite ?length_seqZ; lia.
Defined.

(** ** Fills *)

Lemma set_bytes_spec n : forall m s c,
  mapped m s (Z.of_nat n) -> set_bytes n m s c = Done (blit m s (replicate n (u8 c))).
Proof.
  induction n as [|n IH]; intros m s c Hm; cbn [set_bytes replicate]; [done |].
  rewrite st_cell by (apply Hm; lia). cbn [obind].
  change (<[s := u8 c]> m) with (blit m s [u8 c]) at 1.
  assert (Hm1 : mapped m s (len [u8 c])) by (eapply mapped_sub; [exact Hm | |]; simpl; lia).
  rewrite IH by (apply mapped_blit; [eapply mapped_sub; [exact Hm | |]; lia | done]).
  f_equal. symmetry. exact (blit_app m s [u8 c] (replicate n (u8 c))).
Qed.

Lemma u8_range c : 0 <= u8 c < 256.
Proof. apply Z.mod_pos_bound. done. Qed.

(** Check a property of every byte by evaluation. *)
Lemma byte_check (P : Z -> bool) :
  forallb P (seqZ 0 256) = true -> forall b, 0 <= b < 256 -> P b = true.
Proof.
  intros H b Hb. rewrite forallb_forall in H. apply H. apply list_elem_of_In, elem_of_seqZ. lia.
Qed.

Lemma repeat_byte_land n : forall cl c, repeat_byte n cl c = repeat_byte n cl (u8 c).
Proof.
  induction n as [|n IH]; intros cl c; cbn [repeat_byte]; [done |].
  rewrite IH. do 2 f_equal. change 0xff with (Z.ones 8). rewrite !Z.land_ones by lia.
  unfold u8. by rewrite Z.mod_mod.
Qed.

Lemma repeat_byte_val c : repeat_byte 8 0 c = le_val (replicate 8 (u8 c)).
Proof.
  rewrite repeat_byte_land. apply Z.eqb_eq.
  apply (byte_check (fun b => repeat_byte 8 0 b =? le_val (replicate 8 b))); [by vm_compute |].
  apply u8_range.
Qed.

Lemma set_words_spec n : forall m s c,
  mapped m s (8 * Z.of_nat n) ->
  set_words n m s (repeat_byte 8 0 c) = Done (blit m s (replicate (8 * n) (u8 c))).
Proof.
  induction n as [|n IH]; intros m s c Hm; cbn [set_words]; [done |].
  assert (Hm1 : mapped m s (len (replicate 8 (u8 c)))).
  { eapply mapped_sub; [exact Hm | |]; rewrite ?length_replicate; lia. }
  unfold st64. rewrite repeat_byte_val at 1.
  pose proof (st_le_cells (replicate 8 (u8 c)) m s) as Hst. rewrite length_replicate in Hst.
  rewrite Hst; [| apply Forall_replicate, u8_range | exact Hm1]. cbn [obind].
  rewrite IH by (apply mapped_blit; [eapply mapped_sub; [exact Hm | |]; lia | done]).
  replace (8 * S n)%nat with (8 + 8 * n)%nat by lia. rewrite replicate_add, blit_app.
  by rewrite length_replicate.
Qed.

(** Filling by words and by bytes is filling by bytes. *)
Lemma memset_spec m s c count :
  0 <= count -> mapped m s count ->
  memset m s c count = Done (blit m s (replicate (Z.to_nat count) (u8 c))).
Proof.
  intros Hc Hm. unfold memset. set (words := if Z.land s 7 =? 0 then count / 8 else 0).
  assert (Hw : 0 <= words /\ 8 * words <= count).
  { unfold words. case_match; [| lia]. pose proof (Z.mul_div_le count 8). pose proof (Z.div_pos count 8). lia. }
  rewrite set_words_spec by (eapply mapped_sub; [exact Hm | |]; lia). cbn [obind].
  rewrite set_bytes_spec.
  - replace (Z.to_nat count) with (8 * Z.to_nat words + Z.to_nat (count - 8 * words))%nat by lia.
    rewrite replicate_add, blit_app, length_replicate. do 2 f_equal. lia.
  - apply mapped_blit; (eapply mapped_sub; [exact Hm | |]; rewrite ?length_replicate; lia).
Qed.

(** ** Searching a block for a different byte *)

Fixpoint find_other (v : Z) (l : list Z) (a : Z) : Z :=
  match l with
  | [] => 0
  | x :: l' => if x =? v then find_other v l' (a + 1) else a
  end.

Lemma find_other_list_find v l : forall a,
  find_other v l a
  = match list_find (fun x => x <> v) l with Some (i, _) => a + Z.of_nat i | None => 0 end.
Proof.
  induction l as [|x l IH]; intros a; cbn [find_other list_find]; [done |].
  destruct (Z.eqb_spec x v) as [-> | Hne].
  - rewrite decide_False by (intros H; by apply H). rewrite IH.
    destruct (list_find _ l) as [[i y]|]; simpl; [lia | done].
  - rewrite decide_True by done. simpl. lia.
Qed.

Lemma find_other_replicate v n a : find_other v (replicate n v) a = 0.
Proof. revert a. induction n as [|n IH]; intros a; simpl; [done |]. by rewrite Z.eqb_refl. Qed.

Lemma find_other_app v l1 l2 : forall a,
  0 < a ->
  find_other v (l1 ++ l2) a
  = if decide (l1 = replicate (length l1) v) then find_other v l2 (a + len l1)
    else find_other v l1 a.
Proof.
  induction l1 as [|x l1 IH]; intros a Ha; cbn [app length replicate find_other].
  - by rewrite Z.add_0_r.
  - destruct (Z.eqb_spec x v) as [-> | Hne].
    + rewrite IH by lia. replace (a + 1 + len l1) with (a + Z.of_nat (S (length l1))) by lia.
      destruct (decide (l1 = _)) as [E | E]; [rewrite decide_True by congruence; done |].
      rewrite decide_False by congruence. done.
    + rewrite decide_False by congruence. done.
Qed.

Lemma find_other_zero v l : forall a, 0 < a -> find_other v l a = 0 -> l = replicate (length l) v.
Proof.
  induction l as [|x l IH]; intros a Ha; cbn [find_other length replicate]; [done |].
  destruct (Z.eqb_spec x v) as [-> | ]; [| lia]. intros H. f_equal. apply (IH (a + 1)); [lia | done].
Qed.

Lemma check_bytes8_spec v l : forall m a,
  cells m a l -> check_bytes8 (length l) m a v = Done (find_other v l a).
Proof.
  induction l as [|x l IH]; intros m a H; cbn [check_bytes8 length find_other]; [done |].
  apply cells_cons in H as [Hx H]. rewrite (ld_cell _ _ _ Hx). cbn [obind].
  destruct (x =? v); simpl; [by apply IH | done].
Qed.

Lemma le_val_inj l1 : forall l2,
  length l1 = length l2 -> byte_list l1 -> byte_list l2 -> le_val l1 = le_val l2 -> l1 = l2.
Proof.
  induction l1 as [|x l1 IH]; intros [|y l2] Hlen H1 H2 E; try done.
  inversion_clear H1; inversion_clear H2. cbn [le_val] in E.
  assert (x = y) as ->.
  { rewrite <- (Z.mod_small x 256), <- (Z.mod_small y 256) by done.
    rewrite <- (Z_mod_plus_full x (le_val l1)), <- (Z_mod_plus_full y (le_val l2)). f_equal. lia. }
  f_equal. apply IH; try done; [by injection Hlen | lia].
Qed.

Definition spread64 (value : Z) : Z :=
  let value64 := value in
  let value64 := Z.lor value64 (u64 (Z.shiftl value64 8)) in
  let value64 := Z.lor value64 (u64 (Z.shiftl value64 16)) in
  Z.lor value64 (u64 (Z.shiftl value64 32)).

Lemma spread64_val v : 0 <= v < 256 -> spread64 v = le_val (replicate 8 v).
Proof.
  intros Hv. apply Z.eqb_eq.
  apply (byte_check (fun b => spread64 b =? le_val (replicate 8 b))); [by vm_compute | done].
Qed.

Lemma check_words_spec v n : forall m a l,
  0 <= v < 256 -> 0 < a -> length l = (8 * n)%nat -> cells m a l -> byte_list l ->
  check_words n m a v (spread64 v)
  = Done (if decide (l = replicate (length l) v) then inr (a + len l) else inl (find_other v l a)).
Proof.
  induction n as [|n IH]; intros m a l Hv Ha Hl Hc Hb; cbn [check_words].
  { destruct l; [| done]. simpl. by rewrite Z.add_0_r. }
  destruct (length_eq_app_split l 8) as (w & l' & -> & Hw); [lia |].
  rewrite length_app in Hl. apply cells_app in Hc as [Hcw Hc]. apply Forall_app in Hb as [Hbw Hb].
  unfold ld64. rewrite <- Hw at 1. rewrite (ld_le_cells _ _ _ Hcw). cbn [obind].
  rewrite find_other_app, length_app, replicate_add by done.
  rewrite spread64_val by done. destruct (Z.eqb_spec (le_val w) (le_val (replicate 8 v))) as [E | E].
  - assert (w = replicate (length w) v) as Ew.
    { rewrite Hw. apply le_val_inj; [by rewrite length_replicate | done | | done].
      by apply Forall_replicate. }
    cbn [negb]. rewrite <- (spread64_val v) by done. rewrite Hw in Hc.
    rewrite (IH m (a + 8) l') by (done || lia). rewrite (decide_True (P := w = _) _ _ Ew), Hw.
    rewrite Hw in Ew.
    destruct (decide (l' = _)) as [E' | E'].
    + rewrite decide_True by congruence. do 2 f_equal. lia.
    + rewrite decide_False; [done |]. intros H.
      apply app_inj_1 in H as [_ H]; [done | by rewrite length_replicate].
  - cbn [negb]. rewrite <- Hw at 1. rewrite check_bytes8_spec by done. cbn [obind].
    assert (w <> replicate (length w) v) as Ew by (intros H; apply E; by rewrite H, Hw).
    rewrite (decide_False (P := w = _) _ _ Ew), decide_False; [done |].
    intros H. apply app_inj_1 in H as [H _]; [done | by rewrite length_replicate].
Qed.

(** The word-at-a-time search [memchr_inv] returns the first byte of
    the block that differs from the one given, or NULL when there is none,
    exactly as a search byte by byte would (blocks below 32 GiB). *)
Lemma memchr_inv_first_other m start c l :
  cells m start l -> byte_list l -> 0 < start -> len l < 2 ^ 35 ->
  memchr_inv m start c (len l)
  = Done (match list_find (fun x => x <> u8 c) l with
          | Some (i, _) => start + Z.of_nat i
          | None => 0
          end).
Proof.
  intros Hc Hb Hs Hl. rewrite <- find_other_list_find. unfold memchr_inv.
  change (Z.lor (Z.lor (Z.lor _ _) _) _) with (spread64 (u8 c)). cbv zeta.
  pose proof (u8_range c) as Hv. destruct (Z.leb_spec (len l) 16) as [Hle | Hgt].
  { rewrite Nat2Z.id. by apply check_bytes8_spec. }
  set (prefix := if start mod 8 =? 0 then 0 else 8 - start mod 8).
  assert (Hp : 0 <= prefix < 8).
  { unfold prefix. pose proof (Z.mod_pos_bound start 8). destruct (Z.eqb_spec (start mod 8) 0); lia. }
  destruct (length_eq_app_split l (Z.to_nat prefix)) as (l1 & l2 & -> & H1); [lia |].
  rewrite length_app in *. apply cells_app in Hc as [Hc1 Hc2]. apply Forall_app in Hb as [Hb1 Hb2].
  rewrite <- H1 at 1. rewrite check_bytes8_spec by done. cbn [obind]. rewrite find_other_app by done.
  destruct (Z.eqb_spec (find_other (u8 c) l1 start) 0) as [E | E]; cbn [negb].
  2:{ rewrite decide_False; [done |]. intros H. apply E. rewrite H. apply find_other_replicate. }
  rewrite decide_True by (by eapply find_other_zero). replace prefix with (len l1) by lia.
  replace (Z.of_nat (length l1 + length l2) - len l1) with (len l2) by lia.
  set (n := len l2 / 8). assert (Hn : 0 <= n < 2 ^ 32 /\ 8 * n <= len l2).
  { unfold n. pose proof (Z.mul_div_le (len l2) 8). pose proof (Z.div_pos (len l2) 8).
    pose proof (Z.div_lt_upper_bound (len l2) 8 (2 ^ 32)). lia. }
  rewrite u32_small by lia.
  destruct (length_eq_app_split l2 (8 * Z.to_nat n)) as (l3 & l4 & -> & H3); [lia |].
  apply cells_app in Hc2 as [Hc3 Hc4]. apply Forall_app in Hb2 as [Hb3 Hb4].
  rewrite (check_words_spec (u8 c) (Z.to_nat n) m _ l3) by (done || lia). cbn [obind].
  rewrite find_other_app by lia. destruct (decide (l3 = _)); [| done].
  replace (len (l3 ++ l4) mod 8) with (len l4); [by rewrite Nat2Z.id; apply check_bytes8_spec |].
  pose proof (Z.div_mod (len (l3 ++ l4)) 8). fold n in H. rewrite length_app in *. lia.
Qed.

(** Twenty bytes from an unaligned address, the last one different. *)
Lemma memchr_inv_first_other_witness :
  let l := replicate 19 7 ++ [8] in
  memchr_inv (mem_at 101 l) 101 0x107 (len l)
  = Done (match list_find (fun x => x <> u8 0x107) l with
          | Some (i, _) => 101 + Z.of_nat i
          | None => 0
          end).
Proof.
  apply memchr_inv_first_other; [apply cells_mem_at | | lia | done].
  unfold byte_list. by apply Forall_app; split; [apply Forall_replicate | constructor; [lia | constructor]].
Defined.
