(* ===== verification/CStringScan.v ===== *)
(** * Scans, comparisons and bounded copies of C strings

    On terminated strings the scans of [string.c] return within their fuel
    and compute the length, the lexicographic order, the first occurrence
    and the bounded concatenation of the lists the strings stand for. *)

From S2P Require Import Prelude CString CStringSpec.

(** ** Lengths *)

Lemma cstr_cells m s l : cstr m s l -> cells m s l.
Proof. intros [H _]. by apply cells_app in H as [H _]. Qed.

Lemma cstr_fuel m s l : cstr m s l -> (length l < size m)%nat.
Proof. intros [H _]. apply cells_size in H. rewrite length_app in H. simpl in H. lia. Qed.

Lemma cstr_nil m s : cstr m s [] <-> m !! s = Some 0.
Proof.
  unfold cstr. rewrite app_nil_l, cells_cons. split; [by intros [[? _] _] |].
  intros H. split; [split; [done | by intros i x [=]] | constructor].
Qed.

Lemma cstr_cons m s x l : cstr m s (x :: l) <-> m !! s = Some x /\ x <> 0 /\ cstr m (s + 1) l.
Proof.
  unfold cstr. rewrite <- app_comm_cons, cells_cons, Forall_cons. tauto.
Qed.

Lemma cstr_app m s l1 l2 : cstr m s (l1 ++ l2) <->
  cells m s l1 /\ Forall (fun x => x <> 0) l1 /\ cstr m (s + len l1) l2.
Proof. unfold cstr. rewrite <- app_assoc, cells_app, Forall_app. tauto. Qed.

Lemma cstr_blit_outside m d l s l' :
  cstr m s l' -> s + len l' < d \/ d + len l <= s -> cstr (blit m d l) s l'.
Proof.
  intros [H1 H2] Hd. split; [| done]. apply cells_blit_outside; [done |].
  rewrite length_app. simpl. lia.
Qed.

(** The first byte of a string decides the shape of the string. *)
Ltac string_step H :=
  match type of H with
  | cstr _ _ [] => rewrite (ld_cell _ _ _ (proj1 (cstr_nil _ _) H)); cbn [obind]
  | cstr _ _ (_ :: _) =>
      let E := fresh "E" in let N := fresh "N" in let T := fresh "T" in
      pose proof (proj1 (cstr_cons _ _ _ _) H) as (E & N & T);
      rewrite (ld_cell _ _ _ E); cbn [obind]
  end.

Lemma strlen_loop_spec l : forall fuel m s,
  cstr m s l -> (length l < fuel)%nat -> strlen_loop fuel m s = Done (s + len l).
Proof.
  induction l as [|x l IH]; intros fuel m s H Hf; (destruct fuel as [|fuel]; [lia |]);
    cbn [strlen_loop]; string_step H.
  - simpl. f_equal. lia.
  - rewrite (proj2 (Z.eqb_neq x 0) N). simpl in Hf. rewrite IH by (done || lia).
    simpl. f_equal. lia.
Qed.

Lemma strlen_spec m s l : cstr m s l -> strlen m s = Done (len l).
Proof.
  intros H. unfold strlen, scan_fuel. pose proof (cstr_fuel _ _ _ H).
  rewrite (strlen_loop_spec l) by (done || lia). cbn [obind]. f_equal. lia.
Qed.

Lemma strnlen_loop_spec l : forall fuel m s count,
  cstr m s l -> (length l < fuel)%nat -> 0 <= count ->
  strnlen_loop fuel m s count = Done (s + Z.min (len l) count).
Proof.
  induction l as [|x l IH]; intros fuel m s count H Hf Hc; (destruct fuel as [|fuel]; [lia |]);
    cbn [strnlen_loop]; destruct (Z.eqb_spec count 0) as [-> | Hne];
    try (f_equal; lia); string_step H.
  - simpl. f_equal. lia.
  - rewrite (proj2 (Z.eqb_neq x 0) N). cbn [length] in *. rewrite IH by (done || lia).
    f_equal. lia.
Qed.

Lemma strnlen_spec m s l count :
  cstr m s l -> 0 <= count -> strnlen m s count = Done (Z.min (len l) count).
Proof.
  intros H Hc. unfold strnlen, scan_fuel. pose proof (cstr_fuel _ _ _ H).
  rewrite (strnlen_loop_spec l) by (done || lia). cbn [obind]. f_equal. lia.
Qed.

(** ** Order *)

(** Lexicographic order of byte strings. *)
Fixpoint lex (l1 l2 : list Z) : comparison :=
  match l1, l2 with
  | [], [] => Eq
  | [], _ :: _ => Lt
  | _ :: _, [] => Gt
  | x :: l1', y :: l2' => match x ?= y with Eq => lex l1' l2' | c => c end
  end.

Lemma lex_eq l1 : forall l2, lex l1 l2 = Eq <-> l1 = l2.
Proof.
  induction l1 as [|x l1 IH]; intros [|y l2]; cbn [lex]; try done.
  destruct (Z.compare_spec x y) as [-> | |]; try (split; [done | intros [= ]; lia]).
  rewrite IH. split; [by intros -> | by intros [= ->]].
Qed.

(** A difference of bytes decides a comparison, or the bytes are equal. *)
Lemma sub_compare a b : (a - b ?= 0) = (a ?= b).
Proof. destruct (Z.compare_spec a b), (Z.compare_spec (a - b) 0); done || lia. Qed.

Lemma strncmp_loop_spec l1 : forall l2 fuel m cs ct count,
  cstr m cs l1 -> cstr m ct l2 -> byte_list l1 -> byte_list l2 -> (length l1 < fuel)%nat ->
  0 <= count ->
  exists r, strncmp_loop fuel m cs ct count 0 = Done r
    /\ (r ?= 0) = lex (take (Z.to_nat count) l1) (take (Z.to_nat count) l2).
Proof.
  induction l1 as [|x l1 IH]; intros l2 fuel m cs ct count H1 H2 Hb1 Hb2 Hf Hc;
    (destruct fuel as [|fuel]; [lia |]); cbn [strncmp_loop];
    (destruct (Z.eqb_spec count 0) as [-> | Hne]; [by exists 0 |]);
    assert (Hsc : Z.to_nat count = S (Z.to_nat (count - 1))) by lia; rewrite Hsc;
    string_step H1; destruct l2 as [|y l2]; string_step H2.
  - by exists 0.
  - inversion_clear Hb2. rewrite (proj2 (Z.eqb_neq (0 - y) 0)) by lia. simpl.
    exists (- y). split; [done |]. apply Z.compare_lt_iff. lia.
  - inversion_clear Hb1. rewrite (proj2 (Z.eqb_neq (x - 0) 0)) by lia. simpl.
    exists (x - 0). split; [done |]. apply Z.compare_gt_iff. lia.
  - destruct (Z.eqb_spec (x - y) 0) as [Hxy | Hxy]; simpl.
    + rewrite (proj2 (Z.eqb_neq y 0)) by done. replace y with x by lia. rewrite Z.sub_diag, Z.compare_refl.
      inversion_clear Hb1. inversion_clear Hb2. simpl in Hf.
      apply IH; done || lia.
    + exists (x - y). split; [done |]. rewrite sub_compare.
      destruct (Z.compare_spec x y); done || lia.
Qed.

Lemma strcmp_strncmp fuel : forall m cs ct count ret,
  Z.of_nat fuel <= count ->
  strcmp_loop fuel m cs ct = strncmp_loop fuel m cs ct count ret.
Proof.
  induction fuel as [|fuel IH]; intros m cs ct count ret Hc; cbn [strcmp_loop strncmp_loop]; [done |].
  rewrite (proj2 (Z.eqb_neq count 0)) by lia.
  destruct (ld m cs) as [a| |]; simpl; try done. destruct (ld m ct) as [b| |]; simpl; try done.
  case_match; [done |]. apply IH. lia.
Qed.

(** [strcmp] and [strncmp] return for every pair of terminated strings,
    and the sign of the result is the lexicographic order of the strings
    (of their first [count] bytes), zero exactly when they are equal. *)
Lemma strcmp_lexicographic m cs ct l1 l2 count :
  cstr m cs l1 -> cstr m ct l2 -> byte_list l1 -> byte_list l2 -> 0 <= count ->
  (exists r, strcmp m cs ct = Done r /\ (r ?= 0) = lex l1 l2 /\ (r = 0 <-> l1 = l2))
  /\ (exists r, strncmp m cs ct count = Done r
        /\ (r ?= 0) = lex (take (Z.to_nat count) l1) (take (Z.to_nat count) l2)).
Proof.
  intros H1 H2 Hb1 Hb2 Hc. pose proof (cstr_fuel _ _ _ H1) as Hf. split.
  - unfold strcmp, scan_fuel. set (n := Z.of_nat (S (size m)) + len l2).
    rewrite (strcmp_strncmp _ _ _ _ n 0) by lia.
    destruct (strncmp_loop_spec l1 l2 (S (size m)) m cs ct n) as (r & -> & Hr); try done || lia.
    rewrite !firstn_all2 in Hr by lia. exists r. split; [done |]. split; [done |].
    rewrite <- lex_eq, <- Hr. by rewrite Z.compare_eq_iff.
  - unfold strncmp, scan_fuel. apply strncmp_loop_spec; done || lia.
Qed.

(** "idle" against "idle1". *)
Lemma strcmp_lexicographic_witness :
  let l1 := [105; 100; 108; 101] in let l2 := [105; 100; 108; 101; 49] in
  let m := blit (mem_at 100 (l1 ++ [0])) 200 (l2 ++ [0]) in
  (exists r, strcmp m 100 200 = Done r /\ (r ?= 0) = lex l1 l2 /\ (r = 0 <-> l1 = l2))
  /\ (exists r, strncmp m 100 200 4 = Done r
        /\ (r ?= 0) = lex (take (Z.to_nat 4) l1) (take (Z.to_nat 4) l2)).
Proof.
  intros l1 l2 m. apply strcmp_lexicographic.
  - split; [apply cells_blit_outside; [apply cells_mem_at | simpl; lia] | by repeat constructor].
  - split; [apply cells_blit | by repeat constructor].
  - by repeat constructor.
  - by repeat constructor.
  - lia.
Defined.

(** ** Substrings *)

Lemma memcmp_loop_spec l1 : forall l2 m a b,
  length l1 = length l2 -> cells m a l1 -> cells m b l2 ->
  exists r, memcmp_loop (length l1) m a b = Done r /\ (r ?= 0) = lex l1 l2.
Proof.
  induction l1 as [|x l1 IH]; intros [|y l2] m a b Hl Ha Hb; try done.
  { by exists 0. }
  apply cells_cons in Ha as [Hx Ha]. apply cells_cons in Hb as [Hy Hb].
  cbn [length memcmp_loop lex]. rewrite (ld_cell _ _ _ Hx), (ld_cell _ _ _ Hy). cbn [obind].
  destruct (Z.eqb_spec (x - y) 0) as [E | E]; cbn [negb].
  - replace y with x by lia. rewrite Z.compare_refl. apply IH; [by injection Hl | done | done].
  - exists (x - y). split; [done |]. rewrite sub_compare. destruct (Z.compare_spec x y); done || lia.
Qed.

(** The window of [h] at [i] is the needle. *)
Definition occurs (n h : list Z) (i : nat) : Prop := take (length n) (drop i h) = n.

Lemma strnstr_loop_spec n k : forall m a b h,
  0 < a -> cells m a h -> cells m b n -> (k + length n <= length h + 1)%nat ->
  exists r, strnstr_loop k m a b (len n) = Done r
    /\ ((r = 0 /\ forall i, (i < k)%nat -> ~ occurs n h i)
        \/ exists i, (i < k)%nat /\ r = a + Z.of_nat i /\ occurs n h i
             /\ forall j, (j < i)%nat -> ~ occurs n h j).
Proof.
  induction k as [|k IH]; intros m a b h Ha Hh Hn Hk; cbn [strnstr_loop].
  { exists 0. split; [done |]. left. split; [done | lia]. }
  assert (Hw : cells m a (take (length n) h)).
  { intros i x Hi. apply Hh. by apply lookup_take_Some in Hi as [? _]. }
  assert (Hlw : length (take (length n) h) = length n) by (rewrite length_take; lia).
  destruct (memcmp_loop_spec _ n m a b Hlw Hw Hn) as (r & Hr & Hc). rewrite Hlw in Hr.
  unfold memcmp. rewrite Nat2Z.id, Hr. cbn [obind].
  assert (Hocc : r = 0 <-> occurs n h 0).
  { unfold occurs. rewrite drop_0, <- lex_eq, <- Hc. by rewrite Z.compare_eq_iff. }
  destruct (Z.eqb_spec r 0) as [-> | Hr0].
  { exists a. split; [done |]. right. exists 0%nat. repeat split; [lia | lia | by apply Hocc | lia]. }
  destruct h as [|x h].
  { assert (n = []) as -> by (destruct n; [done | simpl in Hk; lia]).
    destruct Hr0. apply Hocc. done. }
  apply cells_cons in Hh as [_ Hh]. simpl in Hk.
  destruct (IH m (a + 1) b h) as (r' & -> & Hr'); [lia | done | done | lia |].
  exists r'. split; [done |]. destruct Hr' as [[-> Hno] | (i & Hi & -> & Ho & Hno)].
  - left. split; [done |]. intros [|j] Hj; [intros H; by apply Hr0, Hocc |]. apply Hno. lia.
  - right. exists (S i). split; [lia |]. split; [lia |]. split; [done |].
    intros [|j] Hj; [intros H; by apply Hr0, Hocc |]. apply Hno. lia.
Qed.

(** [strstr] returns for every pair of terminated strings the address
    of the first occurrence of the second in the first, and NULL exactly
    when there is none. *)
Lemma strstr_first_occurrence m s1 s2 h n :
  cstr m s1 h -> cstr m s2 n -> 0 < s1 -> len h <= SIZE_MAX ->
  exists r, strstr m s1 s2 = Done r
    /\ ((r = 0 /\ forall i, (i <= length h)%nat -> ~ occurs n h i)
        \/ exists i, r = s1 + Z.of_nat i /\ (i + length n <= length h)%nat /\ occurs n h i
             /\ forall j, (j < i)%nat -> ~ occurs n h j).
Proof.
  intros H1 H2 Hs Hl. unfold strstr, strnstr.
  rewrite (strnlen_spec m s1 h) by (done || (unfold SIZE_MAX; lia)). cbn [obind].
  rewrite (strlen_spec m s2 n H2). cbn [obind].
  rewrite Z.min_l by done.
  assert (Hshort : forall i, (length h < i + length n)%nat -> (i <= length h)%nat -> ~ occurs n h i).
  { intros i Hi Hi' Ho. apply (f_equal length) in Ho. rewrite length_take, length_drop in Ho. lia. }
  set (k := Z.to_nat (len h - len n + 1)).
  destruct (Z.lt_ge_cases (len h) (len n)) as [Hlt | Hge].
  { replace k with 0%nat by lia. exists 0. split; [done |]. left. split; [done |].
    intros i Hi. apply Hshort; lia. }
  destruct (strnstr_loop_spec n k m s1 s2 h) as (r & -> & Hr);
    [done | by apply cstr_cells | by apply cstr_cells | lia |].
  exists r. split; [done |]. destruct Hr as [[-> Hno] | (i & Hi & -> & Ho & Hno)].
  - left. split; [done |]. intros i Hi. destruct (decide (i < k)%nat); [by apply Hno |].
    apply Hshort; lia.
  - right. exists i. repeat split; [lia | done | done].
Qed.

(** "BD" in "ABCBD". *)
Lemma strstr_first_occurrence_witness :
  let h := [65; 66; 67; 66; 68] in let n := [66; 68] in
  let m := blit (mem_at 100 (h ++ [0])) 200 (n ++ [0]) in
  exists r, strstr m 100 200 = Done r
    /\ ((r = 0 /\ forall i, (i <= length h)%nat -> ~ occurs n h i)
        \/ exists i, r = 100 + Z.of_nat i /\ (i + length n <= length h)%nat /\ occurs n h i
             /\ forall j, (j < i)%nat -> ~ occurs n h j).
Proof.
  intros h n m. apply strstr_first_occurrence.
  - split; [apply cells_blit_outside; [apply cells_mem_at | simpl; lia] | by repeat constructor].
  - split; [apply cells_blit | by repeat constructor].
  - lia.
  - unfold SIZE_MAX. simpl. lia.
Defined.

(** ** Bounded copies *)

Lemma cells_take m a l n : cells m a l -> cells m a (take n l).
Proof. intros H i x Hi. apply H. by apply lookup_take_Some in Hi as [? _]. Qed.

(** The bytes a bounded copy leaves in a buffer of [size] bytes. *)
Definition clip (size : Z) (l : list Z) : list Z := take (Z.to_nat (size - 1)) l.

Lemma clip_len size l : 0 < size -> len (clip size l) = Z.min (size - 1) (len l).
Proof. intros H. unfold clip. rewrite length_take. lia. Qed.

Lemma strlcpy_spec m dest src size l :
  cstr m src l -> byte_list l -> 0 < size -> mapped m dest size ->
  dest + size <= src \/ src + len l < dest ->
  strlcpy m dest src size = Done (len l, blit m dest (clip size l ++ [0])).
Proof.
  intros H Hb Hs Hm Hd. unfold strlcpy. rewrite (strlen_spec m src l H). cbn [obind].
  rewrite (proj2 (Z.eqb_neq size 0)) by lia. cbv zeta.
  pose proof (clip_len size l Hs) as Hcl.
  replace (if size <=? len l then size - 1 else len l) with (len (clip size l))
    by (rewrite Hcl; destruct (Z.leb_spec size (len l)); lia).
  assert (Hm1 : mapped m dest (len (clip size l))) by (eapply mapped_sub; [exact Hm | |]; lia).
  rewrite memcpy_spec; [| apply cells_take, cstr_cells, H | by apply Forall_take | done | lia].
  cbn [obind]. rewrite st_cell; cbn [obind].
  - rewrite blit_app. done.
  - apply (mapped_blit _ _ _ dest size); [done | done | lia].
Qed.

(** [strlcat] into a buffer of [size] bytes leaves the longest prefix of
    the concatenation that fits with its terminator, changes no byte outside
    the buffer, and returns the length of the whole concatenation. *)
Lemma strlcat_bounded m dest src size l0 l :
  cstr m dest l0 -> cstr m src l -> byte_list l -> len l0 < size -> mapped m dest size ->
  dest + size <= src \/ src + len l < dest ->
  exists m', strlcat m dest src size = Done (len l0 + len l, m')
    /\ cstr m' dest (clip size (l0 ++ l))
    /\ (forall a, a < dest \/ dest + size <= a -> m' !! a = m !! a).
Proof.
  intros H0 H Hb Hs Hm Hd. unfold strlcat. rewrite (strnlen_spec m dest l0) by (done || lia).
  cbn [obind]. rewrite Z.min_l by lia.
  rewrite (strlcpy_spec m _ src _ l) by (done || lia || (eapply mapped_sub; [exact Hm | |]; lia)).
  cbn [obind]. exists (blit m (dest + len l0) (clip (size - len l0) l ++ [0])).
  pose proof (clip_len (size - len l0) l ltac:(lia)) as Hcl.
  split; [done |]. split.
  - assert (Hclip : clip size (l0 ++ l) = l0 ++ clip (size - len l0) l).
    { unfold clip. rewrite take_app, take_ge by lia. do 2 f_equal. lia. }
    rewrite Hclip. apply cstr_app. split; [| split].
    + apply cells_blit_outside; [by apply cstr_cells | lia].
    + apply H0.
    + split; [apply cells_blit | apply Forall_take, H].
  - intros a Ha. apply blit_outside. rewrite length_app. simpl. lia.
Qed.

(** "ab" + "cdef" into six bytes. *)
Lemma strlcat_bounded_witness :
  let m := blit (mem_at 100 [97; 98; 0; 9; 9; 9; 7]) 200 [99; 100; 101; 102; 0] in
  exists m', strlcat m 100 200 6 = Done (len [97; 98] + len [99; 100; 101; 102], m')
    /\ cstr m' 100 (clip 6 ([97; 98] ++ [99; 100; 101; 102]))
    /\ (forall a, a < 100 \/ 100 + 6 <= a -> m' !! a = m !! a).
Proof.
  intros m. assert (Hm : cells m 100 [97; 98; 0; 9; 9; 9; 7]).
  { apply cells_blit_outside; [apply cells_mem_at | simpl; lia]. }
  apply strlcat_bounded.
  - split; [exact (cells_take _ _ _ 3 Hm) | by repeat constructor].
  - split; [apply cells_blit | by repeat constructor].
  - by repeat constructor.
  - simpl. lia.
  - apply (mapped_cells _ _ _ 6 Hm). simpl. lia.
  - simpl. lia.
Defined.
