(* ===== verification/Printk.v ===== *)
(** * Kernel log: [src/src/kernel/printk.c]

    Number formatting, the [printf] interpreter and the log.  Output
    characters are lists; a format is the list of its characters without the
    terminator, so that reading past its end gives the terminator.  The
    arguments of a call are a list: an integer or a pointer is its 64-bit
    argument slot, a string is the bytes it points to.  The formatter has no
    bound on its output; [printk] stores it in a buffer of 1024 bytes, and an
    output that does not fit there is [Bug]. *)

From S2P Require Import Prelude.

Definition ZEROPAD : Z := 1.
Definition SIGN : Z := 2.
Definition PLUS : Z := 4.
Definition SPACE : Z := 8.
Definition LEFT : Z := 16.
Definition SPECIAL : Z := 32.
Definition SMALL : Z := 64.

Definition has (type flag : Z) : bool := negb (Z.land type flag =? 0).
Definition is_digit (c : Z) : bool := (48 <=? c) && (c <=? 57).

(** The character for a digit: ['0'..'9'] and letters of either case. *)
Definition digit_char (small : bool) (d : Z) : Z :=
  if d <? 10 then 48 + d else if small then 97 + (d - 10) else 65 + (d - 10).

(** [tmp[i++] = digits[do_div(num, base)]] until [num] is 0: least
    significant digit first.  64 turns are enough for 64 bits in base 2. *)
Fixpoint digits_of (fuel : nat) (num base : Z) : list Z :=
  match fuel with
  | O => []
  | S fuel' => if num =? 0 then [] else num mod base :: digits_of fuel' (num / base) base
  end.

(** [while (size-- > 0) *str++ = c]: the characters and the final [size]. *)
Definition pad (size c : Z) : list Z * Z :=
  (replicate (Z.to_nat size) c, if 0 <? size then -1 else size - 1).

(** The characters [number] stores, or [None] where it returns NULL. *)
Definition number (num base size precision type : Z) : option (list Z) :=
  let small := has type SMALL in
  let type := if has type LEFT then Z.land type (Z.lnot ZEROPAD) else type in
  if (base <? 2) || (36 <? base) then None
  else
    let c := if has type ZEROPAD then 48 else 32 in
    let '(sign, num, size) :=
      if has type SIGN then
        let snum := s64 num in
        if snum <? 0 then ([45], u64 (- snum), size)
        else if has type PLUS then ([43], num, size - 1)
        else if has type SPACE then ([32], num, size - 1)
        else ([], num, size)
      else ([], num, size) in
    let size :=
      if has type SPECIAL then
        if base =? 16 then size - 2 else if base =? 8 then size - 1 else size
      else size in
    let tmp := if num =? 0 then [48] else map (digit_char small) (digits_of 64 num base) in
    let i := Z.of_nat (length tmp) in
    let precision := if precision <? i then i else precision in
    let size := size - precision in
    let '(p1, size) :=
      if negb (has type (ZEROPAD + LEFT)) then pad size 32 else ([], size) in
    let prefix :=
      if has type SPECIAL then
        if base =? 8 then [48] else if base =? 16 then [48; digit_char small 33] else []
      else [] in
    let '(p2, size) := if negb (has type LEFT) then pad size c else ([], size) in
    let zeros := replicate (Z.to_nat (precision - i)) 48 in
    let '(p3, _) := pad size 32 in
    Some (p1 ++ sign ++ prefix ++ p2 ++ zeros ++ rev tmp ++ p3).

(** ** The interpreter of formats *)

Inductive varg :=
  | AInt (slot : Z)
  | AStr (s : option (list Z)).

Definition va_list := list varg.

Definition va_slot (arg : va_list) : outcome (Z * va_list) :=
  match arg with
  | AInt z :: rest => Done (z, rest)
  | _ => Bug
  end.

(** [va_arg(arg, int)] and [va_arg(arg, unsigned int)] of an 8-byte slot. *)
Definition va_int (arg : va_list) : outcome (Z * va_list) :=
  let! (z, arg) := va_slot arg in Done (s32 z, arg).

Definition va_str (arg : va_list) : outcome (option (list Z) * va_list) :=
  match arg with
  | AStr s :: rest => Done (s, rest)
  | _ => Bug
  end.

Definition peekc (fmt : list Z) : Z := default 0 (head fmt).

Fixpoint scan_number (fmt : list Z) (tmp : Z) : Z * list Z :=
  match fmt with
  | c :: fmt' => if is_digit c then scan_number fmt' (s32 (tmp * 10 + (c - 48))) else (tmp, fmt)
  | [] => (tmp, fmt)
  end.

(** The flags after a percent sign. *)
Fixpoint scan_flags (fmt : list Z) (flags : Z) : Z * list Z :=
  match fmt with
  | c :: fmt' =>
      if c =? 45 then scan_flags fmt' (Z.lor flags LEFT)
      else if c =? 43 then scan_flags fmt' (Z.lor flags PLUS)
      else if c =? 32 then scan_flags fmt' (Z.lor flags SPACE)
      else if c =? 35 then scan_flags fmt' (Z.lor flags SPECIAL)
      else if c =? 48 then scan_flags fmt' (Z.lor flags ZEROPAD)
      else (flags, fmt)
  | [] => (flags, fmt)
  end.

Definition scan_width (fmt : list Z) (flags : Z) (arg : va_list)
    : outcome (Z * Z * list Z * va_list) :=
  if is_digit (peekc fmt) then
    let '(w, fmt) := scan_number fmt 0 in Done (w, flags, fmt, arg)
  else if peekc fmt =? 42 then
    let! (w, arg) := va_int arg in
    if w <? 0 then Done (s32 (- w), Z.lor flags LEFT, fmt, arg) else Done (w, flags, fmt, arg)
  else Done (-1, flags, fmt, arg).

Definition scan_precision (fmt : list Z) (arg : va_list) : outcome (Z * list Z * va_list) :=
  if peekc fmt =? 46 then
    let fmt := tail fmt in
    let! (p, fmt, arg) :=
      if is_digit (peekc fmt) then let '(p, fmt) := scan_number fmt 0 in Done (p, fmt, arg)
      else if peekc fmt =? 42 then let! (p, arg) := va_int arg in Done (p, fmt, arg)
      else Done (-1, fmt, arg) in
    Done (if p <? 0 then 0 else p, fmt, arg)
  else Done (-1, fmt, arg).

(** ['h'], ['l'] or ['L']; ["ll"] is read as ['L']. *)
Definition scan_qualifier (fmt : list Z) : Z * list Z :=
  let c := peekc fmt in
  if (c =? 104) || (c =? 108) || (c =? 76) then
    let fmt := tail fmt in
    if (c =? 108) && (peekc fmt =? 108) then (76, tail fmt) else (c, fmt)
  else (-1, fmt).

(** The number that follows, at the width of its qualifier. *)
Definition fetch_num (qualifier flags : Z) (arg : va_list) : outcome (Z * va_list) :=
  let! (z, arg) := va_slot arg in
  if (qualifier =? 76) || (qualifier =? 108) then Done (z, arg)
  else if qualifier =? 104 then
    Done (if has flags SIGN then u64 ((z + 2 ^ 15) mod 2 ^ 16 - 2 ^ 15) else u16 z, arg)
  else Done (if has flags SIGN then u64 (s32 z) else u32 z, arg).

(** [pos = number(...)]: a NULL position is written through at once, by
    the next character or by the terminator. *)
Definition emit (out : list Z) (r : option (list Z)) : outcome (list Z) :=
  match r with
  | Some l => Done (out ++ l)
  | None => Bug
  end.

Definition conv_char (out : list Z) (flags width : Z) (arg : va_list)
    : outcome (list Z * va_list) :=
  let n := Z.to_nat (width - 1) in
  let! (z, arg) := va_int arg in
  let c := u8 z in
  Done (if has flags LEFT then out ++ [c] ++ replicate n 32
        else out ++ replicate n 32 ++ [c], arg).

Definition null_string : list Z := [60; 78; 85; 76; 76; 62].

Definition conv_string (out : list Z) (flags width precision : Z) (arg : va_list)
    : outcome (list Z * va_list) :=
  let! (s, arg) := va_str arg in
  let s := default null_string s in
  let len := Z.of_nat (length s) in
  let len := if precision <? 0 then len else if precision <? len then precision else len in
  let n := Z.to_nat (width - len) in
  let text := take (Z.to_nat len) s in
  Done (if has flags LEFT then out ++ text ++ replicate n 32
        else out ++ replicate n 32 ++ text, arg).

(** The state of the interpreter: the output, the bytes stored by [%n]
    (address and value), [base], and the arguments left. *)
Record fstate := mkF {
  f_out : list Z;
  f_stores : list (Z * Z);
  f_base : Z;
  f_arg : va_list;
}.

(** The numeric conversions and the default case, which fall through to
    [number]: the flags, the base and the output so far. *)
Definition numeric (c flags base : Z) (out : list Z) : Z * Z * list Z :=
  if c =? 111 then (flags, 8, out)
  else if c =? 120 then (Z.lor flags SMALL, 16, out)
  else if c =? 88 then (flags, 16, out)
  else if (c =? 100) || (c =? 105) then (Z.lor flags SIGN, 10, out)
  else if c =? 117 then (flags, 10, out)
  else (flags, base, out ++ (if c =? 37 then [] else [37]) ++ (if c =? 0 then [] else [c])).

(** One conversion; [fmt] starts after the percent sign.  The result is the
    format after the conversion. *)
Definition convert (fmt : list Z) (s : fstate) : outcome (list Z * fstate) :=
  let '(flags, fmt) := scan_flags fmt 0 in
  let! (width, flags, fmt, arg) := scan_width fmt flags (f_arg s) in
  let! (precision, fmt, arg) := scan_precision fmt arg in
  let '(qualifier, fmt) := scan_qualifier fmt in
  let c := peekc fmt in
  if c =? 99 then
    let! (out, arg) := conv_char (f_out s) flags width arg in
    Done (tail fmt, mkF out (f_stores s) (f_base s) arg)
  else if c =? 115 then
    let! (out, arg) := conv_string (f_out s) flags width precision arg in
    Done (tail fmt, mkF out (f_stores s) (f_base s) arg)
  else if c =? 110 then
    let! (ip, arg) := va_slot arg in
    Done (tail fmt, mkF (f_out s) (f_stores s ++ [(ip, u8 (Z.of_nat (length (f_out s))))])
                      (f_base s) arg)
  else if c =? 112 then
    let '(width, flags) := if width =? -1 then (16, Z.lor flags ZEROPAD) else (width, flags) in
    let! (z, arg) := va_slot arg in
    let! out := emit (f_out s) (number z 16 width precision flags) in
    Done (tail fmt, mkF out (f_stores s) (f_base s) arg)
  else
    let '(flags, base, out) := numeric c flags (f_base s) (f_out s) in
    let! (num, arg) := fetch_num qualifier flags arg in
    let! out := emit out (number num base width precision flags) in
    Done (tail fmt, mkF out (f_stores s) base arg).

Fixpoint format_loop (fuel : nat) (fmt : list Z) (s : fstate) : outcome fstate :=
  match fuel with
  | O => Fuel
  | S fuel' =>
      match fmt with
      | [] => Done s
      | c :: fmt' =>
          if negb (c =? 37) then
            format_loop fuel' fmt' (mkF (f_out s ++ [c]) (f_stores s) (f_base s) (f_arg s))
          else let! (fmt', s) := convert fmt' s in format_loop fuel' fmt' s
      end
  end.

(** The output and the stores of [%n]; every turn consumes a character. *)
Definition myprintf (fmt : list Z) (arg : va_list) : outcome (list Z * list (Z * Z)) :=
  let! s := format_loop (S (length fmt)) fmt (mkF [] [] 0 arg) in
  Done (f_out s, f_stores s).

(** ** The log *)

Inductive printk_status :=
  | PRINTK_STATUS_DOWN
  | PRINTK_STATUS_READY
  | PRINTK_STATUS_FORBID.

Definition CONSOLE_PRINT_BUFFER_SIZE : Z := 1024.
Definition LOG_BUF_LEN : Z := 2 ^ 17.

(** The status, the first [g_record_len] bytes of [log_buf], and what has
    been sent to the console with [putchar]. *)
Record log := mkLog {
  g_printk_status : printk_status;
  log_buf : list Z;
  console : list Z;
}.

Definition init_printf_done (s : log) : log :=
  mkLog PRINTK_STATUS_READY [] (console s ++ log_buf s).

Definition printk (s : log) (fmt : list Z) (arg : va_list) : outcome (Z * log) :=
  match g_printk_status s with
  | PRINTK_STATUS_FORBID => Done (0, s)
  | st =>
      let! (out, _) := myprintf fmt arg in
      let len := Z.of_nat (length out) in
      if CONSOLE_PRINT_BUFFER_SIZE <? len + 1 then Bug
      else
        match st with
        | PRINTK_STATUS_DOWN =>
            if LOG_BUF_LEN <? Z.of_nat (length (log_buf s)) + len then Bug
            else Done (len, mkLog st (log_buf s ++ out) (console s))
        | _ => Done (len, mkLog st (log_buf s) (console s ++ out))
        end
  end.

Definition printf_set_forbid (s : log) : log := mkLog PRINTK_STATUS_FORBID (log_buf s) (console s).
Definition printf_set_ready (s : log) : log := mkLog PRINTK_STATUS_READY (log_buf s) (console s).

(** ["cpu[%d]: %5s|%-6lx|"] and ["%08x"]. *)
Example myprintf_smoke :
  (let! (o, _) := myprintf [37; 100; 58; 37; 53; 115; 124; 37; 45; 54; 108; 120; 124]
                    [AInt (u64 (-7)); AStr (Some [97; 98]); AInt 0xbeef] in Done o)
  = Done ([45; 55; 58] ++ [32; 32; 32; 97; 98; 124] ++ [98; 101; 101; 102; 32; 32; 124]).
Proof. reflexivity. Qed.
