(* ===== verification/PrintkSpec.v ===== *)
(** * Properties of the kernel log

    The formatter terminates on every format, a number it prints is read
    back by the parser of [strto.c], a literal percent sign before the first
    number faults, and what is logged before the console is ready is not
    lost, reordered or repeated. *)

From S2P Require Import Prelude CString CStringSpec CStringScan Printk.

(** ** Termination *)

Lemma scan_flags_len fmt : forall flags,
  (length (snd (scan_flags fmt flags)) <= length fmt)%nat.
Proof.
  induction fmt as [|c fmt IH]; intros flags; cbn [scan_flags]; [done |].
  repeat case_match; simpl; try lia; (etrans; [apply IH | lia]).
Qed.

Lemma scan_number_len fmt : forall tmp,
  (length (snd (scan_number fmt tmp)) <= length fmt)%nat.
Proof.
  induction fmt as [|c fmt IH]; intros tmp; cbn [scan_number]; [done |].
  case_match; simpl; try lia. etrans; [apply IH | lia].
Qed.

Lemma tail_len {A} (l : list A) : (length (tail l) <= length l)%nat.
Proof. destruct l; simpl; lia. Qed.

Lemma scan_qualifier_len fmt : (length (snd (scan_qualifier fmt)) <= length fmt)%nat.
Proof.
  unfold scan_qualifier. repeat case_match; simpl; try lia;
    repeat (etrans; [apply tail_len |]); done.
Qed.

(** [c] returns or faults, and what it returns satisfies [P]. *)
Definition ends {A} (c : outcome A) (P : A -> Prop) : Prop :=
  match c with Done a => P a | Bug => True | Fuel => False end.

Lemma ends_bind {A B} (c : outcome A) (k : A -> outcome B) (P : A -> Prop) (Q : B -> Prop) :
  ends c P -> (forall a, P a -> ends (k a) Q) -> ends (obind c k) Q.
Proof. destruct c; simpl; auto. Qed.

Lemma va_slot_ends arg : ends (va_slot arg) (fun _ => True).
Proof. destruct arg as [|[] arg]; done. Qed.

Lemma va_int_ends arg : ends (va_int arg) (fun _ => True).
Proof. eapply ends_bind; [apply va_slot_ends |]. by intros [z a] _. Qed.

Lemma scan_width_ends fmt flags arg :
  ends (scan_width fmt flags arg) (fun '(_, _, fmt', _) => (length fmt' <= length fmt)%nat).
Proof.
  unfold scan_width. case_match.
  - pose proof (scan_number_len fmt 0) as Hn. by destruct (scan_number fmt 0).
  - case_match; [| simpl; lia]. eapply ends_bind; [apply va_int_ends |].
    intros [w a] _. case_match; simpl; lia.
Qed.

Lemma scan_precision_ends fmt arg :
  ends (scan_precision fmt arg) (fun '(_, fmt', _) => (length fmt' <= length fmt)%nat).
Proof.
  unfold scan_precision. case_match; [| simpl; lia]. pose proof (tail_len fmt) as Ht.
  eapply ends_bind with (P := fun '(_, fmt', _) => (length fmt' <= length fmt)%nat).
  - case_match.
    + pose proof (scan_number_len (tail fmt) 0) as Hn. destruct (scan_number (tail fmt) 0).
      simpl in *. lia.
    + case_match; [| simpl; lia]. eapply ends_bind; [apply va_int_ends |]. intros [w a] _. done.
  - intros [[p f] a] Hf. done.
Qed.

Lemma fetch_num_ends q flags arg : ends (fetch_num q flags arg) (fun _ => True).
Proof.
  eapply ends_bind; [apply va_slot_ends |]. intros [z a] _. by repeat case_match.
Qed.

Lemma emit_ends out r : ends (emit out r) (fun _ => True).
Proof. by destruct r. Qed.

Lemma convert_ends fmt s :
  ends (convert fmt s) (fun '(fmt', _) => (length fmt' <= length fmt)%nat).
Proof.
  unfold convert. pose proof (scan_flags_len fmt 0) as H1. destruct (scan_flags fmt 0) as [flags f1].
  eapply ends_bind; [apply scan_width_ends |]. intros [[[width fl] f2] a] H2.
  eapply ends_bind; [apply scan_precision_ends |]. intros [[prec f3] a'] H3.
  pose proof (scan_qualifier_len f3) as H4. destruct (scan_qualifier f3) as [q f4]. simpl in H1, H4.
  pose proof (tail_len f4) as H5. repeat case_match.
  1-2: eapply ends_bind; [instantiate (1 := fun _ => True) | by intros [? ?] _; simpl; lia].
  - unfold conv_char. eapply ends_bind; [apply va_int_ends |]. by intros [? ?] _.
  - unfold conv_string. eapply ends_bind with (P := fun _ => True); [| by intros [? ?] _].
    by destruct a' as [|[] ?].
  - eapply ends_bind; [apply va_slot_ends |]. intros [? ?] _. simpl. lia.
  - eapply ends_bind; [apply va_slot_ends |]. intros [? ?] _.
    eapply ends_bind; [apply emit_ends |]. intros ? _. simpl. lia.
  - eapply ends_bind; [apply va_slot_ends |]. intros [? ?] _.
    eapply ends_bind; [apply emit_ends |]. intros ? _. simpl. lia.
  - eapply ends_bind; [apply fetch_num_ends |]. intros [? ?] _.
    eapply ends_bind; [apply emit_ends |]. intros ? _. simpl. lia.
Qed.

Lemma format_loop_ends fuel : forall fmt s,
  (length fmt < fuel)%nat -> ends (format_loop fuel fmt s) (fun _ => True).
Proof.
  induction fuel as [|fuel IH]; intros fmt s Hf; [lia |].
  cbn [format_loop]. destruct fmt as [|c fmt]; [done |]. simpl in Hf. case_match.
  - apply IH. lia.
  - eapply ends_bind; [apply convert_ends |]. intros [fmt' s'] H1. apply IH. lia.
Qed.

(** The interpreter of formats terminates on every format and argument
    list: it never runs out of the fuel the length of the format gives. *)
Lemma myprintf_terminates fmt arg : myprintf fmt arg <> Fuel.
Proof.
  unfold myprintf. pose proof (format_loop_ends (S (length fmt)) fmt (mkF [] [] 0 arg) ltac:(lia)) as H.
  by destruct (format_loop _ _ _).
Qed.

(** ** Numbers are read back *)

Lemma pad_neg size c : size <= 0 -> pad size c = ([], size - 1).
Proof.
  intros H. unfold pad. rewrite (proj2 (Z.ltb_ge _ _)) by done.
  by replace (Z.to_nat size) with 0%nat by lia.
Qed.

(** The conversions [%lu], [%lX], [%lx], [%#lX], [%#lx] by base and flags,
    with the prefix each prints. *)
Definition plain_conv (base type : Z) (prefix : list Z) : Prop :=
  (base, type, prefix) ∈
    [(10, 0, []); (16, 0, []); (16, SMALL, []);
     (16, SPECIAL, [48; 88]); (16, SPECIAL + SMALL, [48; 120])].

Definition num_chars (small : bool) (num base : Z) : list Z :=
  if num =? 0 then [48] else map (digit_char small) (digits_of 64 num base).

(** Evaluate the tests of flags, which are constants here. *)
Ltac eval_has :=
  repeat (match goal with
          | |- context [has ?t ?f] => let v := eval vm_compute in (has t f) in change (has t f) with v
          end; cbv iota).

Lemma number_plain num base type prefix :
  plain_conv base type prefix ->
  number num base (-1) (-1) type = Some (prefix ++ rev (num_chars (has type SMALL) num base)).
Proof.
  intros Hp. unfold plain_conv in Hp.
  assert (Hi : forall l : list Z, (-1 <? Z.of_nat (length l)) = true) by (intros; apply Z.ltb_lt; lia).
  repeat (apply elem_of_cons in Hp as [Hp | Hp]; [injection Hp as -> -> -> |]);
    [..| by apply elem_of_nil in Hp].
  all: unfold number; cbv zeta; eval_has; cbn [negb orb Z.ltb Z.eqb Z.compare Pos.compare Pos.compare_cont Pos.eqb];
    unfold num_chars; rewrite !Hi, !pad_neg by (lia || (cbv iota; lia)); rewrite Z.sub_diag;
    cbn [Z.to_nat replicate app]; by rewrite app_nil_r.
Qed.

Lemma digit_char_decode b d : 0 <= d < 16 -> decode_digit (digit_char b d) = d.
Proof.
  intros Hd. assert (Hall : forallb (fun d => (decode_digit (digit_char true d) =? d)
    && (decode_digit (digit_char false d) =? d)) (seqZ 0 16) = true) by reflexivity.
  rewrite forallb_forall in Hall. specialize (Hall d).
  rewrite <- list_elem_of_In, elem_of_seqZ in Hall. specialize (Hall ltac:(lia)).
  apply andb_true_iff in Hall as [H1 H2]. apply Z.eqb_eq in H1, H2. by destruct b.
Qed.

(** The digits, most significant first, stand for the number. *)
Definition digits_val (base : Z) (acc : Z) (l : list Z) : Z :=
  fold_left (fun r c => u64 (r * base + decode_digit c)) l acc.

Lemma digits_of_val b base fuel : 2 <= base <= 16 -> forall num,
  0 <= num < 2 ^ 64 -> num < 2 ^ Z.of_nat fuel ->
  digits_val base 0 (rev (map (digit_char b) (digits_of fuel num base))) = num
  /\ Forall (fun c => decode_digit c < base) (map (digit_char b) (digits_of fuel num base))
  /\ (length (digits_of fuel num base) <= fuel)%nat.
Proof.
  intros Hb. induction fuel as [|fuel IH]; intros num Hn Hf; cbn [digits_of].
  { change (2 ^ Z.of_nat 0) with 1 in Hf. replace num with 0 by lia. split; [done |]. split; [constructor | simpl; lia]. }
  destruct (Z.eqb_spec num 0) as [-> | Hne].
  { split; [done |]. split; [constructor | simpl; lia]. }
  pose proof (Z.mod_pos_bound num base). pose proof (Z.div_mod num base).
  pose proof (Z.div_pos num base).
  assert (Hd : num / base < 2 ^ Z.of_nat fuel).
  { apply Z.div_lt_upper_bound; [lia |]. rewrite Nat2Z.inj_succ, Z.pow_succ_r in Hf by lia.
    assert (2 * 2 ^ Z.of_nat fuel <= base * 2 ^ Z.of_nat fuel) by (apply Z.mul_le_mono_nonneg_r; lia).
    lia. }
  pose proof (Z.div_le_upper_bound num base num). 
  assert (num / base <= num) by (apply Z.div_le_upper_bound; nia).
  destruct (IH (num / base)) as (I1 & I2 & I3); [lia | done |].
  cbn [map rev length]. split; [| split; [constructor; [| done] | lia]].
  - unfold digits_val in *. rewrite fold_left_app, I1. cbn [fold_left].
    rewrite digit_char_decode by lia. rewrite u64_small by lia. lia.
  - rewrite digit_char_decode by lia. lia.
Qed.

Lemma strtoul_loop_digits base l : forall fuel m cp acc,
  cells m cp l -> Forall (fun c => decode_digit c < base) l ->
  strtoul_loop (length l + fuel) m cp base acc
  = strtoul_loop fuel m (cp + len l) base (digits_val base acc l).
Proof.
  induction l as [|c l IH]; intros fuel m cp acc Hc Hl.
  { by rewrite Z.add_0_r. }
  apply cells_cons in Hc as [Hx Hc]. inversion_clear Hl as [|? ? Hd Hl'].
  cbn [length Nat.add strtoul_loop]. rewrite (ld_cell _ _ _ Hx). cbn [obind]. cbv zeta.
  rewrite (proj2 (Z.ltb_lt _ _) Hd), IH by done. f_equal. lia.
Qed.

Lemma num_chars_val b base num : 2 <= base <= 16 -> 0 <= num < 2 ^ 64 ->
  digits_val base 0 (rev (num_chars b num base)) = num
  /\ Forall (fun c => decode_digit c < base) (rev (num_chars b num base))
  /\ (length (num_chars b num base) <= 64)%nat.
Proof.
  intros Hb Hn. unfold num_chars. destruct (Z.eqb_spec num 0) as [-> | Hne].
  { assert (decode_digit 48 = 0) as E by reflexivity. split; [done |]. split; [| simpl; lia].
    constructor; [rewrite E; lia | constructor]. }
  destruct (digits_of_val b base 64 Hb num Hn) as (H1 & H2 & H3); [exact (proj2 Hn) |].
  split; [done |]. split; [by apply Forall_rev | by rewrite length_map].
Qed.

Lemma decode_not_x c : decode_digit c < 16 -> tolower c <> 120.
Proof.
  unfold decode_digit. destruct (isxdigit c) eqn:Hx; cbn [negb]; [| lia]. intros _ Ht.
  unfold tolower in Ht. destruct (isupper c).
  - assert (u8 c = 88) as E.
    { unfold u8 in *. rewrite <- (Z.mod_small 88 (2 ^ 8)) by lia.
      replace c with (c + 32 - 32) by lia. rewrite Zminus_mod, Ht. reflexivity. }
    unfold isxdigit, ismask in Hx. rewrite E in Hx. done.
  - subst c. done.
Qed.

(** Parsing digits up to the terminator. *)
Lemma strtoul_loop_cstr base l m cp fuel :
  2 <= base <= 16 -> cstr m cp l -> Forall (fun c => decode_digit c < base) l ->
  (length l < fuel)%nat ->
  strtoul_loop fuel m cp base 0 = Done (digits_val base 0 l, cp + len l).
Proof.
  intros Hb Hc Hl Hf. replace fuel with (length l + S (fuel - length l - 1))%nat by lia.
  rewrite strtoul_loop_digits by (done || by apply cstr_cells). cbn [strtoul_loop].
  destruct Hc as [Hc _]. apply cells_app in Hc as [_ Hc]. apply cells_cons in Hc as [Hz _].
  rewrite (ld_cell _ _ _ Hz). cbn [obind]. change (decode_digit 0) with 256. cbv zeta.
  rewrite (proj2 (Z.ltb_ge _ _)) by lia. done.
Qed.

(** The radix of a string of digits is the one given. *)
Lemma fixup_radix_digits base l m s :
  2 <= base <= 16 -> cstr m s l -> l <> [] -> Forall (fun c => decode_digit c < base) l ->
  _parse_integer_fixup_radix m s base = Done (s, base).
Proof.
  intros Hb Hc Hne Hl. unfold _parse_integer_fixup_radix. destruct l as [|c l]; [done |].
  string_step Hc. assert (Hbase : (base =? 0) = false) by (apply Z.eqb_neq; lia).
  destruct (c =? 48); cbn [obind]; [| by rewrite Hbase].
  inversion_clear Hl as [|? ? _ Hl']. destruct l as [|d l]; string_step T.
  - change (tolower 0 =? 120) with false. cbv iota. rewrite Hbase. cbn [obind]. by rewrite Hbase.
  - inversion_clear Hl' as [|? ? Hd _]. rewrite (proj2 (Z.eqb_neq _ _) (decode_not_x d ltac:(lia))).
    rewrite Hbase. cbn [obind]. by rewrite Hbase.
Qed.

Lemma num_chars_ne b num base : rev (num_chars b num base) <> [].
Proof.
  intros H. apply (f_equal length) in H. rewrite length_rev in H. revert H. unfold num_chars.
  destruct (Z.eqb_spec num 0); [done |]. rewrite length_map. cbn [digits_of].
  rewrite (proj2 (Z.eqb_neq num 0)) by done. done.
Qed.

(** C34: a number printed with [%lu], [%lx], [%lX], [%#lx] or [%#lX] is read
    back by [simple_strtoul], which stops at the end of the digits. *)
Theorem number_parse_roundtrip num base type prefix m s l :
  plain_conv base type prefix -> 0 <= num < 2 ^ 64 ->
  number num base (-1) (-1) type = Some l -> cstr m s l ->
  simple_strtoul m s base = Done (num, s + len l).
Proof.
  intros Hp Hn El Hc. rewrite (number_plain _ _ _ _ Hp) in El. injection El as <-.
  set (small := has type SMALL) in *. clearbody small.
  assert (Hb : 2 <= base <= 16).
  { unfold plain_conv in Hp. repeat (apply elem_of_cons in Hp as [[= -> _ _] | Hp]; [lia |]).
    by apply elem_of_nil in Hp. }
  destruct (num_chars_val small base num Hb Hn) as (H1 & H2 & _).
  assert (Hp' : prefix = [] \/ (base = 16 /\ exists x, prefix = [48; x] /\ tolower x = 120)).
  { unfold plain_conv in Hp. repeat (apply elem_of_cons in Hp as [[= -> _ ->] | Hp];
      [first [by left | right; split; [done |]; eexists; by split] |]). by apply elem_of_nil in Hp. }
  pose proof (cstr_fuel _ _ _ Hc) as Hf. rewrite length_app in Hf. unfold simple_strtoul.
  destruct Hp' as [-> | (-> & x & -> & Hx)].
  - rewrite app_nil_l in *. rewrite (fixup_radix_digits base _ m s Hb Hc (num_chars_ne _ _ _) H2).
    cbn [obind]. unfold scan_fuel. rewrite (strtoul_loop_cstr base _ m s) by (done || lia). by rewrite H1.
  - assert (_parse_integer_fixup_radix m s 16 = Done (s + 2, 16)) as ->.
    { unfold _parse_integer_fixup_radix. cbn [app] in Hc. string_step Hc. cbn. string_step T.
      by rewrite Hx. }
    cbn [obind]. apply cstr_app in Hc as (_ & _ & Hc). cbn [length] in Hc, Hf.
    unfold scan_fuel. rewrite (strtoul_loop_cstr 16 _ m (s + 2)) by (done || lia).
    rewrite H1, length_app. cbn [length]. do 2 f_equal. lia.
Qed.

(** 0xBEEF printed with [%#lx]. *)
Lemma number_parse_roundtrip_witness :
  simple_strtoul (mem_at 100 [48; 120; 98; 101; 101; 102; 0]) 100 16
  = Done (0xbeef, 100 + len [48; 120; 98; 101; 101; 102]).
Proof.
  apply (number_parse_roundtrip 0xbeef 16 (SPECIAL + SMALL) [48; 120]).
  - unfold plain_conv. do 4 apply list_elem_of_further. apply list_elem_of_here.
  - lia.
  - reflexivity.
  - split; [apply (cells_mem_at 100 ([48; 120; 98; 101; 101; 102] ++ [0])) | by repeat constructor].
Defined.

(** ** Literal percent signs *)

(** The characters before the first percent sign are copied. *)
Lemma format_loop_literal l : forall fuel rest s,
  Forall (fun c => c <> 37) l ->
  format_loop (length l + fuel) (l ++ rest) s
  = format_loop fuel rest (mkF (f_out s ++ l) (f_stores s) (f_base s) (f_arg s)).
Proof.
  induction l as [|c l IH]; intros fuel rest [o st b a] Hl; cbn [length Nat.add app format_loop].
  { by rewrite app_nil_r. }
  inversion_clear Hl. rewrite (proj2 (Z.eqb_neq c 37)) by done. cbn [negb]. rewrite IH by done.
  cbn [f_out f_stores f_base f_arg]. by rewrite <- app_assoc.
Qed.

(** A doubled percent sign before the first conversion faults, whatever
    the arguments: the default case of the conversion falls through to
    [number] with base 0, which returns a NULL position. *)
Lemma percent_literal_faults l rest arg :
  Forall (fun c => c <> 37) l -> myprintf (l ++ [37; 37] ++ rest) arg = Bug.
Proof.
  intros Hl. unfold myprintf. rewrite length_app.
  rewrite <- Nat.add_succ_r, format_loop_literal by done. cbn [app format_loop Z.eqb Pos.eqb negb].
  destruct arg as [|[z|z] arg]; done.
Qed.

(** ["100%%\n"]. *)
Lemma percent_literal_faults_witness :
  myprintf ([49; 48; 48] ++ [37; 37] ++ [10]) [AInt 1] = Bug.
Proof. apply percent_literal_faults. repeat constructor; lia. Defined.

(** ** The deferred log *)

(** A run of [printk] calls. *)
Fixpoint printk_all (s : log) (msgs : list (list Z * va_list)) : outcome log :=
  match msgs with
  | [] => Done s
  | (fmt, arg) :: rest => let! (_, s) := printk s fmt arg in printk_all s rest
  end.

(** The text of a run of messages, if each of them fits the print buffer. *)
Fixpoint texts (msgs : list (list Z * va_list)) : option (list Z) :=
  match msgs with
  | [] => Some []
  | (fmt, arg) :: rest =>
      match myprintf fmt arg with
      | Done (out, _) =>
          if Z.of_nat (length out) <? CONSOLE_PRINT_BUFFER_SIZE
          then l ← texts rest; Some (out ++ l) else None
      | _ => None
      end
  end.

Lemma printk_all_ready msgs : forall s t,
  g_printk_status s = PRINTK_STATUS_READY -> texts msgs = Some t ->
  printk_all s msgs = Done (mkLog PRINTK_STATUS_READY (log_buf s) (console s ++ t)).
Proof.
  induction msgs as [|[fmt arg] msgs IH]; intros [st lb co] t Hs Ht; cbn [printk_all texts] in *.
  { simplify_eq/=. by rewrite app_nil_r. }
  cbn in Hs. subst st. unfold printk. cbn [g_printk_status log_buf console].
  destruct (myprintf fmt arg) as [[out w]| |]; try done. cbn [obind].
  destruct (Z.ltb_spec (len out) CONSOLE_PRINT_BUFFER_SIZE); [| done].
  rewrite (proj2 (Z.ltb_ge _ _)) by lia. destruct (texts msgs) as [t'|]; [| done]. simplify_eq/=.
  rewrite (IH _ t') by done. cbn. by rewrite <- app_assoc.
Qed.

Lemma printk_all_down msgs : forall s t,
  g_printk_status s = PRINTK_STATUS_DOWN -> texts msgs = Some t ->
  len (log_buf s) + len t <= LOG_BUF_LEN ->
  printk_all s msgs = Done (mkLog PRINTK_STATUS_DOWN (log_buf s ++ t) (console s)).
Proof.
  induction msgs as [|[fmt arg] msgs IH]; intros [st lb co] t Hs Ht Hl; cbn [printk_all texts] in *.
  { simplify_eq/=. by rewrite app_nil_r. }
  cbn in Hs. subst st. unfold printk. cbn [g_printk_status log_buf console] in *.
  destruct (myprintf fmt arg) as [[out w]| |]; try done. cbn [obind].
  destruct (Z.ltb_spec (len out) CONSOLE_PRINT_BUFFER_SIZE); [| done].
  rewrite (proj2 (Z.ltb_ge _ _)) by lia. destruct (texts msgs) as [t'|]; [| done].
  injection Ht as <-. rewrite length_app in Hl.
  rewrite (proj2 (Z.ltb_ge _ _)) by lia. cbn [obind].
  rewrite (IH _ t') by (done || (cbn [log_buf]; rewrite length_app; lia)).
  cbn [log_buf console]. by rewrite <- app_assoc.
Qed.

(** Messages logged before the console is ready and replayed by
    [init_printf_done], followed by messages printed afterwards, put on the
    console exactly the text of all of them in order, provided each message
    fits the print buffer and the early ones fit the log buffer. *)
Lemma deferred_log_replayed early late t1 t2 :
  texts early = Some t1 -> texts late = Some t2 -> len t1 <= LOG_BUF_LEN ->
  (let! s := printk_all (mkLog PRINTK_STATUS_DOWN [] []) early in
   printk_all (init_printf_done s) late)
  = Done (mkLog PRINTK_STATUS_READY [] (t1 ++ t2)).
Proof.
  intros H1 H2 Hl. rewrite (printk_all_down early _ t1) by done. cbn [obind].
  by rewrite (printk_all_ready late _ t2).
Qed.

(** "a7" before and "b" after. *)
Lemma deferred_log_replayed_witness :
  (let! s := printk_all (mkLog PRINTK_STATUS_DOWN [] []) [([97; 37; 117], [AInt 7])] in
   printk_all (init_printf_done s) [([98], [])])
  = Done (mkLog PRINTK_STATUS_READY [] ([97; 55] ++ [98])).
Proof. apply deferred_log_replayed; [reflexivity | reflexivity | by vm_compute]. Defined.

(** A negative number is printed one character wider than the field: the
    sign does not count in the width. *)
Example negative_field_wider :
  number (u64 (-3)) 10 5 (-1) SIGN = Some ([32; 32; 32; 32] ++ [45; 51]).
Proof. reflexivity. Qed.

(** ** The plain conversions *)

(** What [%d] prints. *)
Definition dec_text (num : Z) : list Z :=
  let snum := s64 num in
  if snum <? 0 then [45] ++ rev (num_chars false (u64 (- snum)) 10)
  else rev (num_chars false num 10).

Lemma number_signed num : number num 10 (-1) (-1) SIGN = Some (dec_text num).
Proof.
  assert (Hi : forall l : list Z, (-1 <? Z.of_nat (length l)) = true) by (intros; apply Z.ltb_lt; lia).
  unfold dec_text, number. cbv zeta. eval_has.
  cbn [negb orb Z.ltb Z.eqb Z.compare Pos.compare Pos.compare_cont Pos.eqb].
  destruct (s64 num <? 0); cbv iota; unfold num_chars; rewrite !Hi, !pad_neg by lia;
    rewrite Z.sub_diag; cbn [Z.to_nat replicate app]; by rewrite app_nil_r.
Qed.

Lemma s64_range x : - 2 ^ 63 <= s64 x < 2 ^ 63.
Proof. unfold s64. pose proof (Z.mod_pos_bound (x + 2 ^ 63) (2 ^ 64) eq_refl). lia. Qed.

Lemma dec_text_len num : 0 <= num < 2 ^ 64 -> (length (dec_text num) <= 65)%nat.
Proof.
  intros Hn. unfold dec_text. cbv zeta. pose proof (u64_range (- s64 num)) as Hr.
  destruct (num_chars_val false 10 num ltac:(lia) Hn) as (_ & _ & H1).
  destruct (num_chars_val false 10 (u64 (- s64 num)) ltac:(lia) Hr) as (_ & _ & H2).
  destruct (s64 num <? 0); rewrite ?length_app, length_rev; simpl; lia.
Qed.

Lemma convert_str rest o st b s arg :
  convert (115 :: rest) (mkF o st b (AStr (Some s) :: arg)) = Done (rest, mkF (o ++ s) st b arg).
Proof.
  unfold convert. cbn -[Z.sub Z.of_nat Z.to_nat conv_string]. unfold conv_string.
  cbn -[Z.sub Z.of_nat Z.to_nat]. replace (Z.to_nat (-1 - len s)) with 0%nat by lia.
  by rewrite Nat2Z.id, firstn_all.
Qed.

Lemma convert_dec rest o st b z arg :
  convert (100 :: rest) (mkF o st b (AInt z :: arg))
  = Done (rest, mkF (o ++ dec_text (u64 (s32 z))) st 10 arg).
Proof.
  unfold convert. cbn -[number s32 u64 dec_text]. change (Z.lor 0 SIGN) with SIGN.
  cbn -[number s32 u64 dec_text]. by rewrite number_signed.
Qed.

(** One conversion of the loop. *)
Lemma format_loop_conv fuel rest s rest' s' :
  convert rest s = Done (rest', s') ->
  format_loop (S fuel) (37 :: rest) s = format_loop fuel rest' s'.
Proof. intros E. cbn [format_loop Z.eqb Pos.eqb negb]. by rewrite E. Qed.

Lemma format_loop_end fuel s : format_loop (S fuel) [] s = Done s.
Proof. done. Qed.

(** There is room in the log for [n] more bytes. *)
Definition log_room (l : log) (n : Z) : Prop :=
  g_printk_status l = PRINTK_STATUS_DOWN -> len (log_buf l) + n <= LOG_BUF_LEN.

Lemma printk_done l fmt arg t w n :
  myprintf fmt arg = Done (t, w) -> len t <= n -> n < CONSOLE_PRINT_BUFFER_SIZE -> log_room l n ->
  exists r l', printk l fmt arg = Done (r, l').
Proof.
  intros E Hl Hn Hr. unfold printk. destruct (g_printk_status l) eqn:Es; [| | by eauto];
    rewrite E; cbn [obind]; rewrite (proj2 (Z.ltb_ge _ _)) by lia; [| by eauto].
  specialize (Hr Es). rewrite (proj2 (Z.ltb_ge _ _)) by lia. eauto.
Qed.
