(* ===== verification/Uaccess.v ===== *)
(** * Copies from user space: [src/src/mm/uaccess.c], [uaccess.h], [ucopysize.h]

    Memory is the byte memory of [CString], at kernel virtual addresses.
    The translation of a user address is done by the processor (the [AT]
    instruction and [PAR_EL1]): [par] is the value the register holds after
    the translation of an address for reading. *)

From S2P Require Import Prelude Memblock CString CStringSpec.

Definition PAR_F : Z := 1.
Definition PAR_PA_MASK : Z := 0x0000fffffffff000.
Definition VA_BITS : Z := 48.
Definition INT_MAX : Z := 2 ^ 31 - 1.

Section Uaccess.
Context (par : Z -> Z).

(** The error and [*pa_out]. *)
Definition user_access_at (uaddr : Z) : Z * Z :=
  if negb (Z.land (par uaddr) PAR_F =? 0) then (- EFAULT, 0)
  else (0, Z.lor (Z.land (par uaddr) PAR_PA_MASK) (Z.land uaddr (PAGE_SIZE - 1))).

(** One [memcpy] of [n] bytes from user space, or the early return. *)
Definition copy_part (m : bmem) (kto uaddr n : Z) : outcome (option bmem) :=
  let '(err, pa) := user_access_at uaddr in
  if negb (err =? 0) then Done None
  else let! m := memcpy m kto (phys_to_virt pa) n in Done (Some m).

(** The full pages, [k] of them left.  A result [inl] is an early return of
    the number of bytes not copied. *)
Fixpoint copy_pages (k : nat) (m : bmem) (kto uaddr n : Z)
    : outcome (Z * bmem + bmem * Z * Z * Z) :=
  match k with
  | O => Done (inr (m, kto, uaddr, n))
  | S k' =>
      let! r := copy_part m kto uaddr PAGE_SIZE in
      match r with
      | None => Done (inl (n, m))
      | Some m =>
          copy_pages k' m (kto + PAGE_SIZE) (uaddr + PAGE_SIZE) (n - PAGE_SIZE)
      end
  end.

(** Up to the first page boundary. *)
Definition copy_head (m : bmem) (to from n : Z) : outcome (Z * bmem + bmem * Z * Z * Z) :=
  if negb (Z.land from (PAGE_SIZE - 1) =? 0) then
    let len := Z.min n (PAGE_SIZE - Z.land from (PAGE_SIZE - 1)) in
    let! r := copy_part m to from len in
    match r with
    | None => Done (inl (n, m))
    | Some m => Done (inr (m, to + len, from + len, n - len))
    end
  else Done (inr (m, to, from, n)).

(** The final partial page. *)
Definition copy_tail (m : bmem) (kto uaddr n : Z) : outcome (Z * bmem) :=
  if negb (n =? 0) then
    let! r := copy_part m kto uaddr n in
    match r with
    | None => Done (n, m)
    | Some m => Done (0, m)
    end
  else Done (0, m).

Definition __arch_copy_from_user (m : bmem) (to from n : Z) : outcome (Z * bmem) :=
  let! head := copy_head m to from n in
  match head with
  | inl r => Done r
  | inr (m, kto, uaddr, n) =>
      let! body := copy_pages (Z.to_nat (n / PAGE_SIZE)) m kto uaddr n in
      match body with
      | inl r => Done r
      | inr (m, kto, uaddr, n) => copy_tail m kto uaddr n
      end
  end.

Definition __access_ok (addr size : Z) : bool :=
  let limit := 2 ^ VA_BITS in
  (size <=? limit) && (addr <=? u64 (limit - size)).

(** [bic] of bit 55. *)
Definition __uaccess_mask_ptr (ptr : Z) : Z := Z.land ptr (Z.lnot (Z.shiftl 1 55)).

Definition _inline_copy_from_user (m : bmem) (to from n : Z) : outcome (Z * bmem) :=
  let! (res, m) :=
    if __access_ok from n then __arch_copy_from_user m to (__uaccess_mask_ptr from) n
    else Done (n, m) in
  if res =? 0 then Done (0, m)
  else let! m := memset m (to + (n - res)) 0 res in Done (res, m).

(** [sz] is the size of the object [to] points to, negative when the
    compiler does not know it. *)
Definition check_copy_size (sz bytes : Z) : bool :=
  if (0 <=? sz) && (sz <? bytes) then false
  else if INT_MAX <? bytes then false
  else true.

Definition copy_from_user (m : bmem) (sz to from n : Z) : outcome (Z * bmem) :=
  if negb (check_copy_size sz n) then Done (n, m)
  else _inline_copy_from_user m to from n.

(** ** What user space holds *)

Definition faults (a : Z) : bool := negb (Z.land (par a) PAR_F =? 0).
Definition user_pa (a : Z) : Z := Z.lor (Z.land (par a) PAR_PA_MASK) (Z.land a (PAGE_SIZE - 1)).

(** The bytes of user space from [a] on are accessible and are [l]. *)
Definition user_cells (m : bmem) (a : Z) (l : list Z) : Prop :=
  forall i x, l !! i = Some x ->
    faults (a + Z.of_nat i) = false /\ m !! phys_to_virt (user_pa (a + Z.of_nat i)) = Some x.

(** The pages behind a range of user space do not meet [to .. to + n). *)
Definition user_apart (a k to n : Z) : Prop :=
  forall i, 0 <= i < k -> let p := phys_to_virt (user_pa (a + i)) in p < to \/ to + n <= p.

(** The translation regime maps whole pages: [PAR_EL1] does not depend on
    the offset in the page. *)
Context (par_page : forall a b, a / PAGE_SIZE = b / PAGE_SIZE -> par a = par b).

Lemma land_page a : Z.land a (PAGE_SIZE - 1) = a mod PAGE_SIZE.
Proof. exact (Z.land_ones a 12 ltac:(lia)). Qed.

Lemma par_pa_val x : Z.land x PAR_PA_MASK = (x / 2 ^ 12) mod 2 ^ 36 * 2 ^ 12.
Proof.
  change PAR_PA_MASK with (Z.shiftl (Z.ones 36) 12).
  rewrite <- Z.land_ones, <- Z.shiftr_div_pow2, <- Z.shiftl_mul_pow2 by lia.
  apply Z.bits_inj'. intros n Hn. rewrite Z.land_spec. destruct (Z.lt_ge_cases n 12).
  - rewrite !Z.shiftl_spec_low by lia. apply andb_false_r.
  - rewrite !Z.shiftl_spec, Z.land_spec, Z.shiftr_spec by lia. do 2 f_equal. lia.
Qed.

Lemma user_pa_val a :
  user_pa a = (par a / 2 ^ 12) mod 2 ^ 36 * 2 ^ 12 + a mod PAGE_SIZE.
Proof.
  unfold user_pa. rewrite land_page, par_pa_val, Z.lor_comm, lor_fields; [lia | lia |].
  apply Z.mod_pos_bound. done.
Qed.

Lemma user_pa_range a : 0 <= user_pa a < 2 ^ 48.
Proof.
  rewrite user_pa_val. pose proof (Z.mod_pos_bound a PAGE_SIZE eq_refl).
  pose proof (Z.mod_pos_bound (par a / 2 ^ 12) (2 ^ 36) eq_refl). unfold PAGE_SIZE in *. lia.
Qed.

Lemma phys_to_virt_user a :
  phys_to_virt (user_pa a) = user_pa a + LINER_MAP_OFFSET.
Proof.
  unfold phys_to_virt. apply u64_small. pose proof (user_pa_range a).
  unfold LINER_MAP_OFFSET, PAGE_OFFSET, RAM_BASE in *. lia.
Qed.

(** Inside a page the bytes of user space are consecutive. *)
Lemma user_page_val a i :
  0 <= i -> a mod PAGE_SIZE + i < PAGE_SIZE ->
  par (a + i) = par a
  /\ phys_to_virt (user_pa (a + i)) = phys_to_virt (user_pa a) + i.
Proof.
  intros Hi Hp. assert (0 < PAGE_SIZE) as Hps by done.
  pose proof (Z.div_mod a PAGE_SIZE ltac:(done)). pose proof (Z.mod_pos_bound a PAGE_SIZE Hps).
  assert (Hdm : (a + i) / PAGE_SIZE = a / PAGE_SIZE /\ (a + i) mod PAGE_SIZE = a mod PAGE_SIZE + i).
  { split; [symmetry; apply Z.div_unique with (a mod PAGE_SIZE + i) |
            symmetry; apply Z.mod_unique with (a / PAGE_SIZE)]; lia. }
  destruct Hdm as [Hd Hm]. pose proof (par_page _ _ Hd) as Hpar. split; [done |].
  rewrite !phys_to_virt_user, !user_pa_val, Hpar, Hm. lia.
Qed.

Lemma user_cells_app m a l1 l2 :
  user_cells m a (l1 ++ l2) <-> user_cells m a l1 /\ user_cells m (a + len l1) l2.
Proof.
  split.
  - intros H. split; intros i x Hi.
    + apply H. rewrite lookup_app_l by (by eapply lookup_lt_Some). done.
    + replace (a + len l1 + Z.of_nat i) with (a + Z.of_nat (length l1 + i)) by lia. apply H.
      rewrite lookup_app_r by lia. by replace (length l1 + i - length l1)%nat with i by lia.
  - intros [H1 H2] i x Hi. apply lookup_app_Some in Hi as [Hi | [Hl Hi]]; [by apply H1 |].
    replace (a + Z.of_nat i) with (a + len l1 + Z.of_nat (i - length l1)) by lia. by apply H2.
Qed.

Lemma user_cells_blit m a l to l' n :
  user_cells m a l -> user_apart a (len l) to n -> len l' <= n ->
  user_cells (blit m to l') a l.
Proof.
  intros H Ha Hn i x Hi. destruct (H i x Hi) as [H1 H2]. split; [done |].
  rewrite blit_outside; [done |]. pose proof (lookup_lt_Some _ _ _ Hi).
  specialize (Ha (Z.of_nat i) ltac:(lia)). cbv zeta in Ha. lia.
Qed.

(** Copying inside a page. *)
Lemma copy_part_spec m to a l n :
  user_cells m a l -> byte_list l -> 0 < len l -> a mod PAGE_SIZE + len l <= PAGE_SIZE ->
  mapped m to (len l) -> user_apart a (len l) to n -> len l <= n ->
  copy_part m to a (len l) = Done (Some (blit m to l)).
Proof.
  intros Hu Hb Hpos Hp Hm Ha Hn. unfold copy_part, user_access_at.
  destruct (lookup_lt_is_Some_2 l 0) as (x0 & Hx0); [lia |].
  destruct (Hu 0%nat x0 Hx0) as [Hf _]. rewrite Z.add_0_r in Hf. unfold faults in Hf.
  rewrite Hf. cbn [negb Z.eqb]. fold (user_pa a).
  assert (Hc : cells m (phys_to_virt (user_pa a)) l).
  { intros i x Hi. pose proof (lookup_lt_Some _ _ _ Hi). destruct (Hu i x Hi) as [_ H1].
    by destruct (user_page_val a (Z.of_nat i)) as [_ <-]; [lia | lia |]. }
  rewrite memcpy_spec; [done | done | done | done |].
  pose proof (Ha 0 ltac:(lia)) as H0. pose proof (Ha (len l - 1) ltac:(lia)) as H1. cbv zeta in H0, H1.
  rewrite Z.add_0_r in H0. destruct (user_page_val a (len l - 1)) as [_ E]; [lia | lia |].
  rewrite E in H1. destruct (Z.lt_ge_cases to (phys_to_virt (user_pa a))) as [? | Hge]; [lia |].
  right. lia.
Qed.

Lemma copy_part_fault m to a n : faults a = true -> copy_part m to a n = Done None.
Proof. intros H. unfold copy_part, user_access_at. unfold faults in H. by rewrite H. Qed.

(** The arguments of a copy: of the [n] bytes at [a] in user space the
    first [len l] are accessible and are [l], the next one faults, and the
    pages behind them do not meet the buffer at [to]. *)
Record copy_args (m : bmem) (to a : Z) (l : list Z) (n : Z) : Prop := {
  ca_user : user_cells m a l;
  ca_bytes : byte_list l;
  ca_len : len l <= n;
  ca_fault : len l = n \/ faults (a + len l) = true;
  ca_mapped : mapped m to n;
  ca_apart : user_apart a (len l) to n;
}.

Lemma copy_args_step m to a l1 l2 n :
  copy_args m to a (l1 ++ l2) n ->
  copy_args (blit m to l1) (to + len l1) (a + len l1) l2 (n - len l1).
Proof.
  intros [H1 H2 H3 H4 H5 H6]. rewrite length_app in *. apply user_cells_app in H1 as [H1 H1'].
  assert (Ha2 : user_apart (a + len l1) (len l2) to n).
  { intros i Hi. rewrite <- Z.add_assoc. apply H6. lia. }
  split.
  - apply (user_cells_blit _ _ _ _ _ n); [done | done | lia].
  - by apply Forall_app in H2 as [_ H2].
  - lia.
  - destruct H4 as [H4 | H4]; [left; lia | right]. rewrite <- H4. f_equal. lia.
  - apply mapped_blit; (eapply mapped_sub; [exact H5 | |]; lia).
  - intros i Hi. specialize (Ha2 i Hi). cbv zeta in *. lia.
Qed.

(** One part of a copy, inside one page: it is copied whole, or the first
    byte faults and nothing is accessible. *)
Lemma copy_args_part m to a l n k :
  copy_args m to a l n -> 0 < k <= n -> a mod PAGE_SIZE + k <= PAGE_SIZE ->
  (exists l1 l2, l = l1 ++ l2 /\ len l1 = k /\ copy_part m to a k = Done (Some (blit m to l1)))
  \/ (l = [] /\ 0 < n /\ copy_part m to a k = Done None).
Proof.
  intros H Hk Hp. pose proof H as [H1 H2 H3 H4 H5 H6].
  destruct (Z.lt_ge_cases (len l) k) as [Hlt | Hge].
  - right. destruct H4 as [H4 | H4]; [lia |].
    destruct (decide (l = [])) as [-> | Hne].
    { split; [done |]. split; [lia |]. apply copy_part_fault. by rewrite Z.add_0_r in H4. }
    exfalso. destruct (lookup_lt_is_Some_2 l 0) as (x & Hx); [destruct l; [done | simpl; lia] |].
    destruct (H1 0%nat x Hx) as [Hf _]. rewrite Z.add_0_r in Hf.
    destruct (user_page_val a (len l)) as [E _]; [lia | lia |]. unfold faults in *. rewrite E in H4. congruence.
  - left. destruct (length_eq_app_split l (Z.to_nat k)) as (l1 & l2 & -> & Hl); [lia |].
    exists l1, l2. rewrite length_app in *. split; [done |]. split; [lia |].
    replace k with (len l1) by lia. apply user_cells_app in H1 as [H1 _]. apply Forall_app in H2 as [H2 _].
    apply (copy_part_spec _ _ _ _ n); try done || lia.
    + eapply mapped_sub; [exact H5 | |]; lia.
    + intros i Hi. apply H6. lia.
Qed.

Lemma copy_pages_spec k : forall m to a l n,
  copy_args m to a l n -> a mod PAGE_SIZE = 0 -> Z.of_nat k * PAGE_SIZE <= n ->
  (exists l1 l2, l = l1 ++ l2 /\ len l1 = Z.of_nat k * PAGE_SIZE
     /\ copy_pages k m to a n = Done (inr (blit m to l1, to + len l1, a + len l1, n - len l1)))
  \/ (len l < n /\ copy_pages k m to a n = Done (inl (n - len l, blit m to l))).
Proof.
  induction k as [|k IH]; intros m to a l n H Ha Hn; cbn [copy_pages].
  { left. exists [], l. split; [done |]. split; [done |]. cbn [blit length]. by rewrite !Z.add_0_r, Z.sub_0_r. }
  assert (PAGE_SIZE = 4096) as EP by reflexivity.
  destruct (copy_args_part m to a l n PAGE_SIZE H) as [(l1 & l2 & -> & Hl & ->) | (-> & Hn0 & ->)];
    [lia | lia | | ]; cbn [obind].
  - pose proof (copy_args_step _ _ _ _ _ _ H) as H'. rewrite Hl in H'.
    destruct (IH _ _ _ _ _ H') as [(l3 & l4 & -> & Hl3 & ->) | (Hlt & ->)].
    + by rewrite EP, <- (Z.mul_1_l 4096), Z_mod_plus_full, <- EP.
    + lia.
    + left. exists (l1 ++ l3), l4. rewrite length_app, blit_app, app_assoc.
      split; [done |]. split; [lia |]. by rewrite Nat2Z.inj_add, Hl, !Z.add_assoc, Z.sub_add_distr.
    + right. rewrite length_app, blit_app, Hl. split; [lia |]. by rewrite Nat2Z.inj_add, Hl, Z.sub_add_distr.
  - right. split; [simpl; lia |]. cbn [blit length]. by rewrite Z.sub_0_r.
Qed.

Lemma copy_args_nil m to a l n : copy_args m to a l n -> n = 0 -> l = [].
Proof. intros H ->. pose proof (ca_len _ _ _ _ _ H). destruct l; [done | simpl in *; lia]. Qed.

(** The head leaves a page-aligned rest, or is an early return. *)
Lemma copy_head_spec m to a l n :
  copy_args m to a l n ->
  (exists l1 l2, l = l1 ++ l2 /\ ((a + len l1) mod PAGE_SIZE = 0 \/ n = len l1)
     /\ copy_head m to a n = Done (inr (blit m to l1, to + len l1, a + len l1, n - len l1)))
  \/ copy_head m to a n = Done (inl (n - len l, blit m to l)).
Proof.
  intros H. assert (PAGE_SIZE = 4096) as EP by reflexivity.
  pose proof (Z.mod_pos_bound a PAGE_SIZE eq_refl) as Hmod. pose proof (ca_len _ _ _ _ _ H) as Hlen.
  unfold copy_head. rewrite land_page. cbv zeta.
  destruct (Z.eqb_spec (a mod PAGE_SIZE) 0) as [Ha | Ha]; cbn [negb].
  { left. exists [], l. cbn [blit length]. rewrite !Z.add_0_r, Z.sub_0_r. auto. }
  destruct (Z.eq_dec n 0) as [-> | Hn0].
  { pose proof (copy_args_nil _ _ _ _ _ H eq_refl) as ->. rewrite Z.min_l by lia.
    unfold copy_part, memcpy. destruct (user_access_at a) as [err pa].
    destruct (err =? 0); cbn [negb obind]; [| by right]. left. exists [], [].
    cbn [blit length]. rewrite !Z.add_0_r, Z.sub_0_r. split; [done |]. split; [by right |].
    destruct (phys_to_virt pa =? to); [done |].
    replace (if Z.land _ 7 =? 0 then 0 / 8 else 0) with 0 by (by destruct (_ =? _)). done. }
  set (k := Z.min n (PAGE_SIZE - a mod PAGE_SIZE)).
  destruct (copy_args_part m to a l n k H) as [(l1 & l2 & -> & Hl & ->) | (-> & _ & ->)];
    [lia | lia | | ]; cbn [obind].
  - left. exists l1, l2. split; [done |]. rewrite Hl. split; [| done].
    destruct (Z.le_gt_cases n (PAGE_SIZE - a mod PAGE_SIZE)); [right; lia | left].
    pose proof (Z.div_mod a PAGE_SIZE ltac:(done)).
    replace (a + k) with ((a / PAGE_SIZE + 1) * PAGE_SIZE) by lia. by apply Z.mod_mul.
  - right. cbn [blit length]. by rewrite Z.sub_0_r.
Qed.

Lemma copy_tail_spec m to a l n :
  copy_args m to a l n -> n < PAGE_SIZE -> a mod PAGE_SIZE = 0 \/ n = 0 ->
  copy_tail m to a n = Done (n - len l, blit m to l).
Proof.
  intros H Hn Ha. pose proof (ca_len _ _ _ _ _ H) as Hlen. unfold copy_tail.
  destruct (Z.eqb_spec n 0) as [-> | Hn0]; cbn [negb].
  { by rewrite (copy_args_nil _ _ _ _ _ H eq_refl). }
  destruct (copy_args_part m to a l n n H) as [(l1 & l2 & -> & Hl & ->) | (-> & _ & ->)];
    [lia | lia | | ]; cbn [obind].
  - assert (l2 = []) as -> by (rewrite length_app in Hlen; destruct l2; [done | simpl in Hlen; lia]).
    rewrite app_nil_r. do 2 f_equal. lia.
  - cbn [blit length]. by rewrite Z.sub_0_r.
Qed.

Lemma arch_copy_spec m to a l n :
  copy_args m to a l n -> __arch_copy_from_user m to a n = Done (n - len l, blit m to l).
Proof.
  intros H. unfold __arch_copy_from_user.
  destruct (copy_head_spec _ _ _ _ _ H) as [(l1 & l2 & -> & Ha & ->) | ->]; cbn [obind]; [| done].
  pose proof (copy_args_step _ _ _ _ _ _ H) as H1. pose proof (ca_len _ _ _ _ _ H1) as Hl1.
  set (n1 := n - len l1) in *. assert (0 < PAGE_SIZE) as HP by done.
  pose proof (Z.div_mod n1 PAGE_SIZE ltac:(done)). pose proof (Z.mod_pos_bound n1 PAGE_SIZE HP).
  assert (Hk : Z.of_nat (Z.to_nat (n1 / PAGE_SIZE)) = n1 / PAGE_SIZE).
  { apply Z2Nat.id, Z.div_pos; lia. }
  assert (Hall : len (l1 ++ l2) = len l1 + len l2) by (rewrite length_app; lia).
  destruct Ha as [Ha | Ha].
  - destruct (copy_pages_spec (Z.to_nat (n1 / PAGE_SIZE)) _ _ _ _ _ H1 Ha) as
      [(l3 & l4 & -> & Hl3 & ->) | (_ & ->)]; [lia | |]; cbn [obind].
    + pose proof (copy_args_step _ _ _ _ _ _ H1) as Hs2.
      rewrite (copy_tail_spec _ _ _ _ _ Hs2); [| lia |].
      * rewrite !blit_app. rewrite !length_app in *. do 2 f_equal. lia.
      * left. by rewrite Hl3, Hk, Z_mod_plus_full.
    + rewrite blit_app. do 2 f_equal. lia.
  - replace (Z.to_nat (n1 / PAGE_SIZE)) with 0%nat by (replace n1 with 0 by lia; done).
    cbn [copy_pages obind]. rewrite (copy_tail_spec _ _ _ _ _ H1) by (lia || (right; lia)).
    rewrite blit_app. do 2 f_equal. lia.
Qed.

Lemma uaccess_mask_small from : 0 <= from < 2 ^ 55 -> __uaccess_mask_ptr from = from.
Proof.
  intros H. unfold __uaccess_mask_ptr. apply Z.bits_inj'. intros n Hn.
  rewrite Z.land_spec, Z.lnot_spec, Z.shiftl_1_l, Z.pow2_bits_eqb by lia.
  destruct (Z.eqb_spec 55 n) as [<- | ]; [| apply andb_true_r].
  by rewrite (testbit_above from 55).
Qed.

Lemma access_ok_bounds from n : 0 <= n -> __access_ok from n = true -> from + n <= 2 ^ 48.
Proof.
  unfold __access_ok, VA_BITS. intros Hn H. bool_facts. rewrite u64_small in * by lia. lia.
Qed.

(** What [copy_from_user] does on each of its branches. *)
Lemma copy_from_user_accepts m sz to from n l :
  0 <= from -> check_copy_size sz n = true -> __access_ok from n = true ->
  copy_args m to from l n ->
  copy_from_user m sz to from n
  = Done (n - len l, blit m to (l ++ replicate (Z.to_nat (n - len l)) 0)).
Proof.
  intros H0 Hs Ha H. pose proof (ca_len _ _ _ _ _ H) as Hlen.
  pose proof (access_ok_bounds from n ltac:(lia) Ha). unfold copy_from_user. rewrite Hs. cbn [negb].
  unfold _inline_copy_from_user. rewrite Ha, uaccess_mask_small by lia.
  rewrite (arch_copy_spec _ _ _ _ _ H). cbn [obind].
  destruct (Z.eqb_spec (n - len l) 0) as [E | E].
  - rewrite E. cbn [Z.to_nat replicate]. by rewrite app_nil_r.
  - replace (to + (n - (n - len l))) with (to + len l) by lia.
    rewrite memset_spec; [cbn [obind]; by rewrite blit_app | lia |].
    apply mapped_blit; (eapply mapped_sub; [exact (ca_mapped _ _ _ _ _ H) | |]; lia).
Qed.

Lemma copy_from_user_refuses m sz to from n :
  check_copy_size sz n = false -> copy_from_user m sz to from n = Done (n, m).
Proof. intros H. unfold copy_from_user. by rewrite H. Qed.

Lemma copy_from_user_out_of_range m sz to from n :
  0 < n -> check_copy_size sz n = true -> __access_ok from n = false -> mapped m to n ->
  copy_from_user m sz to from n = Done (n, blit m to (replicate (Z.to_nat n) 0)).
Proof.
  intros Hn Hs Ha Hm. unfold copy_from_user, _inline_copy_from_user. rewrite Hs, Ha. cbn [negb obind].
  rewrite (proj2 (Z.eqb_neq n 0)) by lia. rewrite Z.sub_diag, Z.add_0_r.
  rewrite memset_spec by (done || lia). done.
Qed.
End Uaccess.

(** C18: [copy_from_user] copies the longest accessible prefix of the user
    buffer, across page boundaries and through whatever physical pages are
    behind it, zeroes the rest of the destination, returns the number of
    bytes it could not copy, and changes nothing else; a request larger than
    the destination is refused without touching memory, and one outside user
    space only zeroes the destination. *)
Theorem copy_from_user_correct (par : Z -> Z) m sz to from n l :
  (forall a b, a / PAGE_SIZE = b / PAGE_SIZE -> par a = par b) ->
  0 <= from -> 0 < n -> copy_args par m to from l n ->
  copy_from_user par m sz to from n
  = if check_copy_size sz n then
      if __access_ok from n
      then Done (n - len l, blit m to (l ++ replicate (Z.to_nat (n - len l)) 0))
      else Done (n, blit m to (replicate (Z.to_nat n) 0))
    else Done (n, m).
Proof.
  intros Hp H0 Hn H. destruct (check_copy_size sz n) eqn:Hs.
  - destruct (__access_ok from n) eqn:Ha.
    + by apply copy_from_user_accepts.
    + apply copy_from_user_out_of_range; try done. exact (ca_mapped _ _ _ _ _ _ H).
  - by apply copy_from_user_refuses.
Qed.

(** A translation with two user pages, at physical 0x50003000 and
    0x50001000, and nothing after them. *)
Definition demo_par (a : Z) : Z :=
  if a / PAGE_SIZE =? 1 then 0x50003000
  else if a / PAGE_SIZE =? 2 then 0x50001000 else 1.

Lemma demo_par_page a b : a / PAGE_SIZE = b / PAGE_SIZE -> demo_par a = demo_par b.
Proof. unfold demo_par. by intros ->. Qed.

(** Four bytes that straddle the boundary of the two pages. *)
Definition demo_user : bmem :=
  blit (blit (mem_at 0x1000 (replicate 130 9)) (phys_to_virt 0x50003ffe) [65; 66])
       (phys_to_virt 0x50001000) [67; 68].

Lemma demo_copy_args : copy_args demo_par demo_user 0x1000 0x1ffe [65; 66; 67; 68] 4.
Proof.
  split.
  - intros i x Hi. apply lookup_lt_Some in Hi as Hl. simpl in Hl.
    do 4 (destruct i as [|i]; [injection Hi as <-; by vm_compute |]). lia.
  - repeat constructor; lia.
  - done.
  - by left.
  - intros p Hp. assert (p ∈ seqZ 0x1000 4) as Hin by (apply elem_of_seqZ; lia).
    cbn in Hin. repeat (apply elem_of_cons in Hin as [-> | Hin]; [by vm_compute; eexists |]).
    by apply elem_of_nil in Hin.
  - intros i Hi. right. assert (i ∈ seqZ 0 4) as Hin by (apply elem_of_seqZ; simpl in Hi; lia).
    cbn in Hin. repeat (apply elem_of_cons in Hin as [-> | Hin]; [by vm_compute |]).
    by apply elem_of_nil in Hin.
Qed.

Lemma copy_from_user_correct_witness :
  copy_from_user demo_par demo_user 128 0x1000 0x1ffe 4
  = if check_copy_size 128 4 then
      if __access_ok 0x1ffe 4
      then Done (4 - len [65; 66; 67; 68],
                 blit demo_user 0x1000 ([65; 66; 67; 68]
                   ++ replicate (Z.to_nat (4 - len [65; 66; 67; 68])) 0))
      else Done (4, blit demo_user 0x1000 (replicate (Z.to_nat 4) 0))
    else Done (4, demo_user).
Proof.
  apply copy_from_user_correct; [exact demo_par_page | lia | lia | exact demo_copy_args].
Defined.
