(* ===== verification/Syscall.v ===== *)
(** * System calls: [src/src/syscall], and the exceptions that lead to them

    [syscall.c] dispatches on the number in [x8], [sys.c] holds the table
    (only [write] and [exit] are implemented), [syscall_implement.c] the two
    calls; [exception.c] reaches them from the synchronous exceptions of user
    space.  The state is what they touch: the tasks and the variables of the
    CPU ([Sched]), memory ([CString]) and the log ([Printk]).

    The address of the buffer on the kernel stack, the number of the CPU and
    the translation of user addresses are arguments. *)

From Stdlib Require Import Ascii String.
From S2P Require Import Prelude Memblock CString CStringSpec CStringScan Printk PrintkSpec Sched SchedFair Uaccess.

Record kstate := mkK {
  k_tasks : tasks;
  k_cpu : cpu_vars;
  k_mem : bmem;
  k_log : log;
}.

(** The characters of a format. *)
Definition fmt_of (s : string) : list Z :=
  map (fun c => Z.of_N (N_of_ascii c)) (list_ascii_of_string s).
Definition newline : list Z := [10].

(** [pr_notice] and [pr_err]: both levels are above the default one. *)
Definition pr (k : kstate) (fmt : list Z) (arg : va_list) : outcome kstate :=
  let! (_, l) := printk (k_log k) fmt arg in
  Done (mkK (k_tasks k) (k_cpu k) (k_mem k) l).

Definition current_task (k : kstate) : outcome task :=
  match k_tasks k !! current (k_cpu k) with Some t => Done t | None => Bug end.

Definition SYSCALL_NR_REG_IDX : nat := 8.
Definition NR_syscalls : Z := 470.
Definition NR_write : Z := 64.
Definition NR_exit : Z := 93.

Section Syscalls.
Context (par : Z -> Z) (cpu kbuf : Z).

Definition reg (regs : list Z) (i : nat) : Z := default 0 (regs !! i).

(** ** [exit] *)

Definition do_exit (k : kstate) (code : Z) : outcome (Z * kstate) :=
  let! t := current_task k in
  let! k := pr k (fmt_of "process:%s exited(%d)." ++ newline) [AStr (Some (t_name t)); AInt (u64 code)] in
  let! ts := write_state (k_tasks k) (current (k_cpu k)) PROCESS_ZOMBIE in
  Done (0, mkK ts (k_cpu k) (k_mem k) (k_log k)).

Definition sys_exit (k : kstate) (error_code : Z) : outcome (Z * kstate) :=
  do_exit k (Z.shiftl (Z.land (s32 error_code) 0xff) 8).

(** ** [write] *)

(** The string at an address, as [%s] reads it. *)
Definition string_at (m : bmem) (s : Z) : outcome (list Z) :=
  let! n := CString.strlen m s in
  Done (map (fun i => default 0 (m !! (s + Z.of_nat i))) (seq 0 (Z.to_nat n))).

Definition ksys_write (k : kstate) (fd buf count : Z) : outcome (Z * kstate) :=
  let! (res, m) := copy_from_user par (k_mem k) 128 kbuf buf count in
  let k := mkK (k_tasks k) (k_cpu k) m (k_log k) in
  if negb (res =? 0) then
    let! t := current_task k in
    let! k := pr k (fmt_of "%s, copy_from_user failed" ++ newline) [AStr (Some (t_name t))] in
    Done (- EFAULT, k)
  else
    let! m := st (k_mem k) (kbuf + count) 0 in
    let k := mkK (k_tasks k) (k_cpu k) m (k_log k) in
    let! s := string_at m kbuf in
    let! k := pr k (fmt_of "cpu[%d]: %s") [AInt cpu; AStr (Some s)] in
    Done (count, k).

Definition sys_write (k : kstate) (fd buf count : Z) : outcome (Z * kstate) :=
  ksys_write k (u32 fd) buf count.

(** ** The table and the dispatcher *)

Definition sys_ni_syscall (k : kstate) : outcome (Z * kstate) := Done (- ENOSYS, k).

(** [sys_call_table[nr](regs)]: an entry past the table is a fault. *)
Definition sys_call_table (nr : Z) (regs : list Z) (k : kstate) : outcome (Z * kstate) :=
  if negb (nr <? NR_syscalls) then Bug
  else if nr =? NR_write then sys_write k (reg regs 0) (reg regs 1) (reg regs 2)
  else if nr =? NR_exit then sys_exit k (reg regs 0)
  else sys_ni_syscall k.

Definition el0t_64_handle_svc (regs : list Z) (k : kstate) : outcome (list Z * kstate) :=
  let! (ret, k) := sys_call_table (reg regs SYSCALL_NR_REG_IDX) regs k in
  let regs := <[0%nat := u64 ret]> regs in
  let! t := current_task k in
  if bool_decide (t_state t <> PROCESS_RUNNING)
  then Done (regs, mkK (k_tasks k) (set_resched (k_cpu k) true) (k_mem k) (k_log k))
  else Done (regs, k).

(** ** Synchronous exceptions of user space ([exception.c]) *)

Definition ESR_EC_FIELD (esr : Z) : Z := Z.land (Z.shiftr esr 26) 0x3f.
Definition ESR_EC_SVC : Z := 0x15.

Definition el0t_64_sync_handler (esr far elr : Z) (regs : list Z) (k : kstate)
    : outcome (list Z * kstate) :=
  if u8 (ESR_EC_FIELD esr) =? ESR_EC_SVC then el0t_64_handle_svc regs k
  else
    let! k := pr k (fmt_of "EL0t_64 sync handler called, FAR_EL1:0x%llx ESR_EL1:0x%llx, ELR_EL1:0x%llx"
                    ++ newline) [AInt far; AInt esr; AInt elr] in
    Done (regs, k).
End Syscalls.

(** ** Messages *)

Definition exit_fmt : list Z := fmt_of "process:%s exited(%d)." ++ newline.
Definition write_fmt : list Z := fmt_of "cpu[%d]: %s".

Lemma exit_message name code :
  myprintf exit_fmt [AStr (Some name); AInt code]
  = Done (fmt_of "process:" ++ name ++ fmt_of " exited(" ++ dec_text (u64 (s32 code))
          ++ fmt_of ")." ++ newline, []).
Proof.
  unfold myprintf.
  change (S (length exit_fmt)) with (length (fmt_of "process:") + S (length (fmt_of " exited(")
    + S (length (fmt_of ")." ++ newline) + 3)))%nat.
  change exit_fmt with (fmt_of "process:" ++ 37 :: 115 :: fmt_of " exited(" ++ 37 :: 100
    :: (fmt_of ")." ++ newline) ++ []).
  rewrite format_loop_literal by (by repeat constructor). cbn [f_out f_stores f_base f_arg].
  rewrite (format_loop_conv _ _ _ _ _ (convert_str _ _ _ _ _ _)).
  rewrite format_loop_literal by (by repeat constructor). cbn [f_out f_stores f_base f_arg].
  rewrite (format_loop_conv _ _ _ _ _ (convert_dec _ _ _ _ _ _)).
  rewrite format_loop_literal by (by repeat constructor). rewrite format_loop_end.
  cbn [obind f_out f_stores]. by rewrite <- !app_assoc.
Qed.

Lemma write_message cpu s :
  myprintf write_fmt [AInt cpu; AStr (Some s)]
  = Done (fmt_of "cpu[" ++ dec_text (u64 (s32 cpu)) ++ fmt_of "]: " ++ s, []).
Proof.
  unfold myprintf.
  change (S (length write_fmt)) with (length (fmt_of "cpu[") + S (length (fmt_of "]: ") + S 3))%nat.
  change write_fmt with (fmt_of "cpu[" ++ 37 :: 100 :: fmt_of "]: " ++ 37 :: 115 :: []).
  rewrite format_loop_literal by (by repeat constructor). cbn [f_out f_stores f_base f_arg].
  rewrite (format_loop_conv _ _ _ _ _ (convert_dec _ _ _ _ _ _)).
  rewrite format_loop_literal by (by repeat constructor). cbn [f_out f_stores f_base f_arg].
  rewrite (format_loop_conv _ _ _ _ _ (convert_str _ _ _ _ _ _)). rewrite format_loop_end.
  cbn [obind f_out f_stores]. by rewrite <- !app_assoc.
Qed.

(** Names fit their array, and the log has room for a message. *)
Definition k_ok (k : kstate) : Prop :=
  (exists t, k_tasks k !! current (k_cpu k) = Some t /\ (length (t_name t) < 128)%nat)
  /\ log_room (k_log k) 1000.

Lemma do_exit_spec k code t :
  k_tasks k !! current (k_cpu k) = Some t -> (length (t_name t) < 128)%nat ->
  log_room (k_log k) 1000 ->
  exists l, do_exit k code
  = Done (0, mkK (<[current (k_cpu k) := set_state t PROCESS_ZOMBIE]> (k_tasks k)) (k_cpu k)
               (k_mem k) l).
Proof.
  intros Ht Hn Hl. unfold do_exit, current_task. rewrite Ht. cbn [obind].
  destruct (printk_done (k_log k) exit_fmt [AStr (Some (t_name t)); AInt (u64 code)] _ _ 1000
    (exit_message _ _)) as (r & l' & E); [| done | done |].
  { rewrite !length_app. pose proof (dec_text_len (u64 (s32 (u64 code))) (u64_range _)).
    change (length (fmt_of "process:")) with 8%nat. change (length (fmt_of " exited(")) with 8%nat.
    change (length (fmt_of ").")) with 2%nat. simpl (length newline). lia. }
  unfold pr. unfold exit_fmt in E. rewrite E. cbn [obind k_tasks k_cpu k_mem k_log].
  unfold write_state. rewrite Ht. cbn [obind]. by exists l'.
Qed.

(** The [exit] call: 0 in [x0], the process a zombie, the flag set. *)
Lemma exit_svc par cpu kbuf k regs t :
  k_tasks k !! current (k_cpu k) = Some t -> (length (t_name t) < 128)%nat -> log_room (k_log k) 1000 ->
  reg regs SYSCALL_NR_REG_IDX = NR_exit ->
  exists l, el0t_64_handle_svc par cpu kbuf regs k
    = Done (<[0%nat := 0]> regs, mkK (<[current (k_cpu k) := set_state t PROCESS_ZOMBIE]> (k_tasks k))
                                   (set_resched (k_cpu k) true) (k_mem k) l).
Proof.
  intros Ht Hn Hl Hr. unfold el0t_64_handle_svc, sys_call_table. rewrite Hr.
  cbn [NR_exit NR_write NR_syscalls Z.ltb Z.eqb Z.compare Pos.compare Pos.compare_cont Pos.eqb negb].
  destruct (do_exit_spec k (Z.shiftl (Z.land (s32 (reg regs 0)) 0xff) 8) t Ht Hn Hl) as (l & E).
  unfold sys_exit. rewrite E. cbn [obind]. unfold current_task. cbn [k_tasks k_cpu k_mem k_log].
  rewrite lookup_insert_eq. cbn [obind t_state set_state]. rewrite bool_decide_eq_true_2 by done. by exists l.
Qed.

Definition demo_regs (nr x0 x1 x2 : Z) : list Z := [x0; x1; x2; 0; 0; 0; 0; 0; nr].
Definition demo_k (m : bmem) : kstate :=
  mkK sample_tasks sample_cpu m (mkLog PRINTK_STATUS_READY [] []).

Lemma demo_k_ok m : k_ok (demo_k m).
Proof. split; [eexists; split; [reflexivity | simpl; lia] | done]. Qed.

(** ** The [write] call *)

(** The bytes before the first zero. *)
Fixpoint until_nul (l : list Z) : list Z :=
  match l with
  | [] => []
  | x :: l' => if x =? 0 then [] else x :: until_nul l'
  end.

Lemma until_nul_cstr l : forall m s, cells m s (l ++ [0]) -> cstr m s (until_nul l).
Proof.
  induction l as [|x l IH]; intros m s H; cbn [until_nul app] in *.
  - apply cstr_nil. by apply cells_cons in H as [H _].
  - apply cells_cons in H as [Hx H]. destruct (Z.eqb_spec x 0) as [-> | Hne].
    + by apply cstr_nil.
    + apply cstr_cons. auto.
Qed.

Lemma until_nul_len l : (length (until_nul l) <= length l)%nat.
Proof. induction l as [|x l IH]; simpl; [lia |]. destruct (x =? 0); simpl; lia. Qed.

Lemma string_at_cstr m s l : cstr m s l -> string_at m s = Done l.
Proof.
  intros H. unfold string_at. rewrite (strlen_spec m s l H). cbn [obind]. f_equal.
  rewrite Nat2Z.id. apply list_eq. intros i.
  destruct (decide (i < length l)%nat) as [Hi | Hi].
  - destruct (lookup_lt_is_Some_2 l i Hi) as (x & Hx). rewrite Hx.
    rewrite list_lookup_fmap, lookup_seq_lt by done. simpl. f_equal. by rewrite (cstr_cells m s l H i x Hx).
  - rewrite list_lookup_fmap, lookup_seq_ge by lia. simpl. symmetry. apply lookup_ge_None_2. lia.
Qed.

Section Write.
Context (par : Z -> Z) (cpu kbuf : Z).
Context (par_page : forall a b, a / PAGE_SIZE = b / PAGE_SIZE -> par a = par b).
Context (k : kstate) (buf : Z) (l : list Z).
Context (Hk : k_ok k) (Hbuf : 0 <= buf).
Context (Hargs : copy_args par (k_mem k) kbuf buf l (len l)).
Context (Hacc : __access_ok buf (len l) = true).

(** A request of at most 128 accessible bytes. *)
Lemma ksys_write_spec fd :
  len l <= 128 -> is_Some (k_mem k !! (kbuf + len l)) ->
  exists r log', printk (k_log k) write_fmt [AInt cpu; AStr (Some (until_nul l))] = Done (r, log')
    /\ ksys_write par cpu kbuf k fd buf (len l)
       = Done (len l, mkK (k_tasks k) (k_cpu k) (blit (k_mem k) kbuf (l ++ [0])) log').
Proof.
  intros Hl Hend. destruct Hk as [_ Hlog].
  destruct (printk_done (k_log k) write_fmt [AInt cpu; AStr (Some (until_nul l))] _ _ 1000
    (write_message _ _)) as (r & log' & E); [| done | done |].
  { rewrite !length_app. pose proof (dec_text_len (u64 (s32 cpu)) (u64_range _)).
    pose proof (until_nul_len l). change (length (fmt_of "cpu[")) with 4%nat.
    change (length (fmt_of "]: ")) with 3%nat. lia. }
  exists r, log'. split; [done |]. unfold ksys_write.
  assert (Hsz : check_copy_size 128 (len l) = true).
  { unfold check_copy_size, INT_MAX. destruct (Z.ltb_spec 128 (len l)); [lia |]. simpl.
    rewrite (proj2 (Z.ltb_ge _ _)) by lia. done. }
  rewrite (copy_from_user_accepts par par_page _ _ _ _ _ l Hbuf Hsz Hacc Hargs). cbn [obind].
  rewrite Z.sub_diag. cbn [Z.eqb negb Z.to_nat replicate k_mem k_tasks k_cpu k_log]. rewrite app_nil_r.
  rewrite st_cell.
  2:{ rewrite blit_outside by lia. done. }
  cbn [obind]. change (<[kbuf + len l := u8 0]> (blit (k_mem k) kbuf l))
    with (blit (blit (k_mem k) kbuf l) (kbuf + len l) [0]). rewrite <- blit_app.
  rewrite (string_at_cstr _ _ (until_nul l)) by apply until_nul_cstr, cells_blit. cbn [obind].
  unfold pr. cbn [k_log k_tasks k_cpu k_mem]. unfold write_fmt in E. by rewrite E.
Qed.
End Write.

(** C31: a [write] system call ([x8] the number, [x1] the buffer, [x2] the
    count) of fewer than 128 accessible bytes by a running process leaves
    the count in [x0] and the other registers as they were, prints the bytes
    up to the first zero after the number of the CPU, and changes neither
    the tasks, nor the variables of the CPU, nor memory outside the 128
    bytes of its buffer. *)
Theorem write_prints_user_text par cpu kbuf k t regs l :
  (forall a b, a / PAGE_SIZE = b / PAGE_SIZE -> par a = par b) ->
  k_tasks k !! current (k_cpu k) = Some t -> t_state t = PROCESS_RUNNING ->
  (length (t_name t) < 128)%nat -> log_room (k_log k) 1000 ->
  g_printk_status (k_log k) = PRINTK_STATUS_READY ->
  reg regs SYSCALL_NR_REG_IDX = NR_write -> reg regs 2 = len l -> 0 <= reg regs 1 ->
  copy_args par (k_mem k) kbuf (reg regs 1) l (len l) -> __access_ok (reg regs 1) (len l) = true ->
  len l < 128 -> mapped (k_mem k) kbuf 128 ->
  exists k', el0t_64_handle_svc par cpu kbuf regs k = Done (<[0%nat := len l]> regs, k')
    /\ console (k_log k') = console (k_log k) ++ fmt_of "cpu[" ++ dec_text (u64 (s32 cpu))
                              ++ fmt_of "]: " ++ until_nul l
    /\ k_tasks k' = k_tasks k /\ k_cpu k' = k_cpu k
    /\ (forall a, a < kbuf \/ kbuf + 128 <= a -> k_mem k' !! a = k_mem k !! a).
Proof.
  intros Hp Ht Hs Hn Hroom Hst Hnr H2 Hb Ha Hacc Hl Hm.
  destruct (ksys_write_spec par cpu kbuf Hp k (reg regs 1) l (conj (ex_intro _ t (conj Ht Hn)) Hroom) Hb Ha Hacc
    (u32 (reg regs 0))) as (r & log' & E1 & E2); [lia | apply Hm; lia |].
  unfold el0t_64_handle_svc, sys_call_table. rewrite Hnr, H2. cbn [NR_write NR_syscalls Z.ltb Z.eqb Z.compare
    Pos.compare Pos.compare_cont Pos.eqb negb]. unfold sys_write. rewrite E2. cbn [obind]. unfold current_task.
  cbn [k_tasks k_cpu]. rewrite Ht. cbn [obind]. rewrite Hs, bool_decide_eq_false_2 by auto.
  unfold u64. rewrite Z.mod_small by lia. eexists. split; [done |]. cbn [k_log k_tasks k_cpu k_mem]. split.
  - unfold printk in E1. rewrite Hst, write_message in E1. cbn [obind] in E1.
    case_if; [done |]. injection E1 as <- <-. done.
  - split; [done |]. split; [done |]. intros a Ho. apply blit_outside.
    rewrite length_app. simpl. lia.
Qed.

Lemma demo_user_mapped : mapped demo_user 0x1000 130.
Proof.
  do 2 apply mapped_blit_mono.
  apply (mapped_cells _ _ (replicate 130 9) 130); [apply cells_mem_at | by rewrite length_replicate].
Qed.

Lemma write_prints_user_text_witness :
  exists k', el0t_64_handle_svc demo_par 2 0x1000 (demo_regs 64 1 0x1ffe 4) (demo_k demo_user)
    = Done (<[0%nat := len [65; 66; 67; 68]]> (demo_regs 64 1 0x1ffe 4), k')
    /\ console (k_log k') = [] ++ fmt_of "cpu[" ++ dec_text (u64 (s32 2))
                              ++ fmt_of "]: " ++ until_nul [65; 66; 67; 68]
    /\ k_tasks k' = sample_tasks /\ k_cpu k' = sample_cpu
    /\ (forall a, a < 0x1000 \/ 0x1000 + 128 <= a -> k_mem k' !! a = demo_user !! a).
Proof.
  eapply (write_prints_user_text demo_par 2 0x1000 (demo_k demo_user) _ (demo_regs 64 1 0x1ffe 4) [65; 66; 67; 68]).
  - exact demo_par_page.
  - reflexivity.
  - reflexivity.
  - simpl. lia.
  - done.
  - reflexivity.
  - reflexivity.
  - reflexivity.
  - done.
  - exact demo_copy_args.
  - reflexivity.
  - simpl. lia.
  - eapply mapped_sub; [exact demo_user_mapped | |]; lia.
Defined.

(** C36: a [write] of exactly 128 accessible bytes passes the size check and
    stores its terminator one byte past the end of the buffer. *)
Theorem write_128_overruns_buffer par cpu kbuf k fd buf l :
  (forall a b, a / PAGE_SIZE = b / PAGE_SIZE -> par a = par b) ->
  k_ok k -> 0 <= buf ->
  copy_args par (k_mem k) kbuf buf l (len l) -> __access_ok buf (len l) = true ->
  len l = 128 -> is_Some (k_mem k !! (kbuf + 128)) ->
  exists k', ksys_write par cpu kbuf k fd buf 128 = Done (128, k')
    /\ k_mem k' !! (kbuf + 128) = Some 0.
Proof.
  intros Hp Hk Hb Ha Hacc Hl Hm.
  destruct (ksys_write_spec par cpu kbuf Hp k buf l Hk Hb Ha Hacc fd) as (r & log' & _ & E2);
    [lia | by rewrite Hl |].
  rewrite Hl in E2. eexists. split; [exact E2 |]. cbn [k_mem].
  rewrite <- Hl. apply (cells_blit (k_mem k) kbuf (l ++ [0]) (length l)).
  rewrite lookup_app_r by lia. by rewrite Nat.sub_diag.
Qed.

(** The first user page holds 128 times the letter A, and the byte after the
    buffer is 9. *)
Definition demo_full : bmem :=
  blit (mem_at 0x1000 (replicate 130 9)) (phys_to_virt 0x50003000) (replicate 128 65).

Lemma demo_full_pa i : 0 <= i < 128 ->
  phys_to_virt (user_pa demo_par (0x1000 + i)) = phys_to_virt 0x50003000 + i
  /\ faults demo_par (0x1000 + i) = false.
Proof.
  intros Hi. destruct (user_page_val demo_par demo_par_page 0x1000 i) as [E1 E2]; [lia | | ].
  { change (0x1000 mod PAGE_SIZE) with 0. unfold PAGE_SIZE. lia. }
  rewrite E2. unfold faults. rewrite E1. done.
Qed.

Lemma demo_full_args : copy_args demo_par demo_full 0x1000 0x1000 (replicate 128 65) 128.
Proof.
  assert (HP : phys_to_virt 0x50003000 = 0xffff000010003000) by reflexivity.
  split.
  - intros i x Hi. pose proof (lookup_lt_Some _ _ _ Hi) as Hl. rewrite length_replicate in Hl.
    destruct (demo_full_pa (Z.of_nat i)) as [-> ->]; [lia |]. split; [done |].
    by apply (cells_blit _ (phys_to_virt 0x50003000) (replicate 128 65)).
  - apply Forall_replicate. lia.
  - by rewrite length_replicate.
  - left. by rewrite length_replicate.
  - apply mapped_blit_mono. apply (mapped_cells _ _ (replicate 130 9) 128); [apply cells_mem_at |].
    rewrite length_replicate. lia.
  - intros i Hi. rewrite length_replicate in Hi. destruct (demo_full_pa i) as [-> _]; [lia |].
    rewrite HP. right. lia.
Qed.

Lemma write_128_overruns_buffer_witness :
  exists k', ksys_write demo_par 2 0x1000 (demo_k demo_full) 1 0x1000 128 = Done (128, k')
    /\ k_mem k' !! (0x1000 + 128) = Some 0.
Proof.
  apply (write_128_overruns_buffer demo_par 2 0x1000 (demo_k demo_full) 1 0x1000 (replicate 128 65)).
  - exact demo_par_page.
  - apply demo_k_ok.
  - lia.
  - rewrite length_replicate. exact demo_full_args.
  - by rewrite length_replicate.
  - by rewrite length_replicate.
  - apply (mapped_blit_mono _ _ _ 0x1000 130); [| lia].
    apply (mapped_cells _ _ (replicate 130 9) 130); [apply cells_mem_at | by rewrite length_replicate].
Defined.

(** A number with no call behind it returns [-ENOSYS] in [x0] and changes
    nothing else, when the table has an entry for it; the number is not
    compared with the size of the table, so a larger one reads a function
    pointer past its end. *)
Lemma unknown_syscall par cpu kbuf regs k t :
  k_tasks k !! current (k_cpu k) = Some t -> t_state t = PROCESS_RUNNING ->
  reg regs SYSCALL_NR_REG_IDX <> NR_write -> reg regs SYSCALL_NR_REG_IDX <> NR_exit ->
  el0t_64_handle_svc par cpu kbuf regs k
  = if reg regs SYSCALL_NR_REG_IDX <? NR_syscalls
    then Done (<[0%nat := u64 (- ENOSYS)]> regs, k) else Bug.
Proof.
  intros Ht Hs H1 H2. unfold el0t_64_handle_svc, sys_call_table.
  destruct (_ <? _); cbn [negb obind]; [| done].
  rewrite (proj2 (Z.eqb_neq _ _) H1), (proj2 (Z.eqb_neq _ _) H2). unfold sys_ni_syscall. cbn [obind].
  unfold current_task. rewrite Ht. cbn [obind]. by rewrite Hs, bool_decide_eq_false_2 by auto.
Qed.

Lemma unknown_syscall_witness :
  el0t_64_handle_svc demo_par 0 0x1000 (demo_regs 470 0 0 0) (demo_k demo_user)
  = if reg (demo_regs 470 0 0 0) SYSCALL_NR_REG_IDX <? NR_syscalls
    then Done (<[0%nat := u64 (- ENOSYS)]> (demo_regs 470 0 0 0), demo_k demo_user) else Bug.
Proof.
  apply (unknown_syscall _ _ _ _ _ (mkTask [105; 100; 108; 101; 48] 0 PROCESS_RUNNING 0 0 0));
    [reflexivity | reflexivity | done | done].
Defined.
