(* ===== verification/SchedRun.v ===== *)
(** * One processor over time

    A processor is in its idle loop or in a user process.  The idle loop
    ([run_idle]) picks a process and switches to it; a user process enters
    the kernel by a system call or an interrupt, and on the way out
    ([exception_entry.S]) either goes on or is switched back to the idle
    loop, in the middle of [run_process].  Other processors and the user
    process itself may change everything that is not a task of this
    processor.  The idle loop takes interrupts only with [preempt_count]
    raised, so the exit of their handler does not switch and only the flag
    can change.  There is no step for [RunIdle]: processes are not named
    after the idle task.  [init] is [g_kernel_init_process], which [process_resched]
    makes the current task on every processor, so others write to it too. *)

From stdpp Require Import relations.
From S2P Require Import Prelude Memblock CString CStringSpec CStringScan Printk PrintkSpec Sched SchedFair Uaccess Syscall.

Inductive mode :=
  | InIdle
  | InUser (p : Z).

Record machine := Machine { mc_mode : mode; mc_k : kstate }.

Definition with_cpu (k : kstate) (v : cpu_vars) : kstate := mkK (k_tasks k) v (k_mem k) (k_log k).
Definition set_current (v : cpu_vars) (p : Z) : cpu_vars :=
  mkCpu (g_num_processes v) (g_processes v) (g_next_process v) (entry_task v) (need_resched v)
    (preempt_count v) (irqs_on v) p.

Section Machine.
Context (par : Z -> Z) (cpu kbuf init : Z).

(** [kernel_entry 0]: [sp_el0 = entry_task]. *)
Definition kernel_entry (k : kstate) : kstate := with_cpu k (set_current (k_cpu k) (entry_task (k_cpu k))).

Definition check_resched (v : cpu_vars) : bool := (preempt_count v <=? 0) && negb (need_resched v =? 0).

(** Back on the idle stack: the rest of [run_process]. *)
Definition process_resched (k : kstate) : outcome kstate :=
  let v := set_current (k_cpu k) init in
  let! ts := run_end (k_tasks k) v in
  Done (mkK ts v (k_mem k) (k_log k)).

(** The end of [entry_handler 0]. *)
Definition handler_exit (p : Z) (k : kstate) : outcome machine :=
  if check_resched (k_cpu k)
  then let! k := process_resched k in Done (Machine InIdle k)
  else Done (Machine (InUser p) k).

Definition user_sync (p esr far elr : Z) (regs : list Z) (k : kstate) : outcome (list Z * machine) :=
  let! (regs, k) := el0t_64_sync_handler par cpu kbuf esr far elr regs (kernel_entry k) in
  let! s := handler_exit p k in
  Done (regs, s).

(** An interrupt of a user process, of the timer or of another device. *)
Definition user_irq (p : Z) (tick : bool) (now : Z) (k : kstate) : outcome machine :=
  let k := kernel_entry k in
  let! v := if tick then preempt_check_resched sched_round_robin (k_tasks k) (k_cpu k) now else Done (k_cpu k) in
  handler_exit p (with_cpu k v).

(** The tasks of this processor, the shared idle task apart, are the same,
    and that one, a static object, is still there. *)
Definition same_own (ts ts' : tasks) : Prop :=
  (forall q t, q <> init -> t_cpu t = cpu -> (ts !! q = Some t <-> ts' !! q = Some t))
  /\ (is_Some (ts !! init) -> is_Some (ts' !! init)).

Inductive step : machine -> machine -> Prop :=
  | step_turn now k ts v :
      run_idle_turn sched_round_robin (k_tasks k) (k_cpu k) now = Done (None, ts, v) ->
      step (Machine InIdle k) (Machine InIdle (mkK ts v (k_mem k) (k_log k)))
  | step_switch now k p ttbr0 ts v :
      run_idle_turn sched_round_robin (k_tasks k) (k_cpu k) now = Done (Some (SwitchTo p ttbr0), ts, v) ->
      step (Machine InIdle k) (Machine (InUser p) (mkK ts v (k_mem k) (k_log k)))
  | step_idle_tick now k v :
      preempt_check_resched sched_round_robin (k_tasks k) (k_cpu k) now = Done v ->
      step (Machine InIdle k) (Machine InIdle (with_cpu k v))
  | step_sync p esr far elr regs regs' k s :
      user_sync p esr far elr regs k = Done (regs', s) -> step (Machine (InUser p) k) s
  | step_irq p tick now k s :
      user_irq p tick now k = Done s -> step (Machine (InUser p) k) s
  | step_other md k ts m l :
      same_own (k_tasks k) ts -> step (Machine md k) (Machine md (mkK ts (k_cpu k) m l)).

(** ** What a live processor keeps *)

Definition on_cpu (ts : tasks) (q : Z) : Prop := t_cpu <$> ts !! q = Some cpu.

(** [q] is marked running; the shared idle task is not counted. *)
Definition own_running (ts : tasks) (q : Z) : Prop :=
  q <> init /\ exists t, ts !! q = Some t /\ t_cpu t = cpu /\ t_state t = PROCESS_RUNNING.

(** Its queue holds processes of this processor. *)
Record own_queue (ts : tasks) (v : cpu_vars) : Prop := {
  oq_ok : queue_ok ts v;
  oq_own : forall i, 0 <= i < g_num_processes v -> slot v i <> init /\ on_cpu ts (slot v i);
}.

Definition mode_ok (md : mode) (ts : tasks) (v : cpu_vars) : Prop :=
  match md with
  | InIdle => (current v = init \/ on_cpu ts (current v))
      /\ forall q, own_running ts q -> q = current v \/ q = entry_task v /\ q <> 0
  | InUser p => p <> 0 /\ entry_task v = p /\ own_running ts p /\ forall q, own_running ts q -> q = p
  end.

Record live (s : machine) : Prop := {
  lv_queue : own_queue (k_tasks (mc_k s)) (k_cpu (mc_k s));
  lv_count : preempt_count (k_cpu (mc_k s)) = 0;
  lv_flag : need_resched (k_cpu (mc_k s)) = 1;
  lv_init : is_Some (k_tasks (mc_k s) !! init);
  lv_entry : entry_task (k_cpu (mc_k s)) = 0
             \/ entry_task (k_cpu (mc_k s)) <> init /\ on_cpu (k_tasks (mc_k s)) (entry_task (k_cpu (mc_k s)));
  lv_mode : mode_ok (mc_mode s) (k_tasks (mc_k s)) (k_cpu (mc_k s));
}.

(** ** What the parts do to the tasks *)

Definition same_cpus (ts ts' : tasks) : Prop := forall q, t_cpu <$> ts' !! q = t_cpu <$> ts !! q.

Lemma write_state_Done ts p st ts' :
  write_state ts p st = Done ts' -> exists t, ts !! p = Some t /\ ts' = <[p := set_state t st]> ts.
Proof. unfold write_state. destruct (ts !! p) as [t|] eqn:E; [| done]. intros [= <-]. by exists t. Qed.

Lemma same_cpus_insert ts p t t' : ts !! p = Some t -> t_cpu t' = t_cpu t -> same_cpus ts (<[p := t']> ts).
Proof.
  intros E Ht q. destruct (decide (p = q)) as [<- | Hne]; [| by rewrite lookup_insert_ne].
  rewrite lookup_insert_eq, E. simpl. by rewrite Ht.
Qed.

Lemma same_cpus_some ts ts' q : same_cpus ts ts' -> is_Some (ts !! q) -> is_Some (ts' !! q).
Proof. intros H (t & E). specialize (H q). rewrite E in H. destruct (ts' !! q); [by eexists | done]. Qed.

Lemma on_cpu_some ts q : on_cpu ts q -> is_Some (ts !! q).
Proof. unfold on_cpu. destruct (ts !! q); [by eexists | done]. Qed.

(** [run_begin] resets the current task, the entry task if it is running,
    starts [p], and touches nothing else. *)
Lemma run_begin_parts ts w p now sw ts' v' :
  run_begin ts w p now = Done (sw, ts', v') ->
  v' = set_entry w p /\ (forall q ttbr0, sw = SwitchTo q ttbr0 -> q = p) /\ same_cpus ts ts'
  /\ (exists t, ts' !! p = Some t /\ t_state t = PROCESS_RUNNING)
  /\ (forall q t, ts !! q = Some t -> q <> p -> q <> current w ->
        (q = entry_task w -> t_state t <> PROCESS_RUNNING) -> ts' !! q = Some t)
  /\ (forall q t, ts' !! q = Some t -> q <> p -> t_state t = PROCESS_RUNNING ->
        ts !! q = Some t /\ q <> current w /\ (q = entry_task w -> q = 0)).
Proof.
  unfold run_begin. intros E. apply obind_Done in E as (ts1 & E1 & E). apply obind_Done in E as (ts2 & E2 & E).
  apply write_state_Done in E1 as (t1 & L1 & ->). set (ts1 := <[current w := _]> ts) in *.
  assert (C1 : same_cpus ts ts1) by (by apply (same_cpus_insert _ _ t1)).
  assert (H2 : same_cpus ts1 ts2
    /\ (forall q t, ts1 !! q = Some t -> (q = entry_task w -> t_state t <> PROCESS_RUNNING) -> ts2 !! q = Some t)
    /\ (forall q t, ts2 !! q = Some t -> t_state t = PROCESS_RUNNING ->
          ts1 !! q = Some t /\ (q = entry_task w -> q = 0))).
  { destruct (Z.eqb_spec (entry_task w) 0) as [Z0 | Z0].
    - injection E2 as <-. split; [done |]. split; [done |]. intros q t Hq _. split; [done |]. congruence.
    - destruct (ts1 !! entry_task w) as [e|] eqn:Ee; [| done]. case_bool_decide as Hr.
      + apply write_state_Done in E2 as (e' & L2 & ->). rewrite L2 in Ee. injection Ee as ->.
        split; [by apply (same_cpus_insert _ _ e) |]. split.
        * intros q t Hq Hn. destruct (decide (entry_task w = q)) as [<- | Hne]; [| by rewrite lookup_insert_ne].
          rewrite L2 in Hq. injection Hq as <-. by destruct Hn.
        * intros q t Hq Hs. destruct (decide (entry_task w = q)) as [<- | Hne].
          -- rewrite lookup_insert_eq in Hq. by injection Hq as <-.
          -- rewrite lookup_insert_ne in Hq by done. split; [done | congruence].
      + injection E2 as <-. split; [done |]. split; [done |]. intros q t Hq Hs. split; [done |].
        intros ->. congruence. }
  destruct H2 as (C2 & K2 & R2). destruct (ts2 !! p) as [t|] eqn:Et; [| done]. injection E as <- <- <-.
  set (t' := mkTask _ _ _ _ _ _).
  assert (C3 : same_cpus ts2 (<[p := t']> ts2)) by (by apply (same_cpus_insert _ _ t)).
  split; [done |]. split.
  { intros q ttbr0 Es. destruct (is_idle_name (t_name t)); [discriminate Es | by injection Es as <- _]. }
  split; [intros q; by rewrite C3, C2, C1 |]. split; [exists t'; by rewrite lookup_insert_eq |]. split.
  - intros q tq Hq N1 N2 N3. rewrite lookup_insert_ne by done. apply K2; [| done].
    unfold ts1. by rewrite lookup_insert_ne.
  - intros q tq Hq N1 Hs. rewrite lookup_insert_ne in Hq by done. destruct (R2 q tq Hq Hs) as [Hq1 He].
    unfold ts1 in Hq1. destruct (decide (current w = q)) as [<- | Hne].
    + rewrite lookup_insert_eq in Hq1. by injection Hq1 as <-.
    + rewrite lookup_insert_ne in Hq1 by done. done.
Qed.

Lemma pick_next_count ts v p v' : round_robin_pick_next ts v = Done (p, v') -> preempt_count v' = preempt_count v.
Proof.
  unfold round_robin_pick_next. destruct (_ =? 0); [by intros [= _ <-] |]. intros E.
  apply obind_Done in E as ([[q nx]|] & _ & E); by injection E as _ <-.
Qed.

(** A turn of the idle loop returns: it found nothing to run, or started a
    runnable process of the queue. *)
Lemma idle_turn ts v now :
  queue_ok ts v -> need_resched v = 1 -> preempt_count v = 0 -> is_Some (ts !! current v) ->
  (entry_task v = 0 \/ is_Some (ts !! entry_task v)) ->
  exists sw ts' v', run_idle_turn sched_round_robin ts v now = Done (sw, ts', v')
    /\ g_num_processes v' = g_num_processes v /\ g_processes v' = g_processes v
    /\ 0 <= g_next_process v' < Z.max 1 (g_num_processes v)
    /\ need_resched v' = 1 /\ preempt_count v' = 0 /\ current v' = current v
    /\ (sw = None /\ ts' = ts /\ entry_task v' = entry_task v
        \/ exists i w sw', 0 <= i < g_num_processes v /\ sw = Some sw' /\ slot v i <> 0
             /\ may_run ts (slot v i) = true /\ current w = current v /\ entry_task w = entry_task v
             /\ run_begin ts w (slot v i) now = Done (sw', ts', v')).
Proof.
  intros Hq Hn Hp Hc He. unfold run_idle_turn.
  set (v1 := preempt_enable (set_irqs (set_irqs (preempt_disable v) true) false)).
  assert (V1 : queue_ok ts v1) by (destruct Hq; by split).
  assert (P1 : preempt_count v1 = 0) by (unfold v1; simpl; by rewrite Hp).
  cbn [need_resched set_irqs preempt_disable set_preempt]. rewrite Hn. cbn [Z.eqb negb]. unfold schdule. fold v1.
  cbn [pick_next sched_round_robin].
  destruct (pick_next_spec ts v1 V1) as (p & w & E & Q & Q1 & Q2 & Q3 & Q4 & Q5 & Hcase).
  rewrite E. cbn [obind]. pose proof (pick_next_count _ _ _ _ E) as P2.
  assert (N : 0 <= g_next_process w < Z.max 1 (g_num_processes v)) by (change (g_num_processes v) with (g_num_processes v1); rewrite <- Q2; apply Q).
  destruct Hcase as [(-> & -> & _) | (i & Hi & -> & Hp0 & Hrun & _)].
  { cbn [Z.eqb]. eexists None, ts, v1. split; [done |]. by repeat (split; [done |]); left. }
  set (j := (g_next_process v1 + i) mod g_num_processes v1) in *.
  rewrite (proj2 (Z.eqb_neq _ _) Hp0).
  destruct (run_begin_total ts (set_resched w false) (slot v1 j) now) as (sw & ts' & v' & E2 & _).
  { split; [by simpl; rewrite Q5 |]. split; [| simpl; by rewrite Q4].
    unfold may_run in Hrun. destruct (ts !! slot v1 j); [by eexists | done]. }
  rewrite E2. cbn [obind]. destruct (run_begin_parts _ _ _ _ _ _ _ E2) as (-> & _).
  eexists (Some sw), ts', _. split; [done |]. cbn. split; [done |]. split; [done |]. split; [done |].
  split; [done |]. split; [by rewrite P2 |]. split; [done |]. right. exists j, (set_resched w false), sw.
  split; [apply Z.mod_pos_bound; cbn in Hi |- *; lia |]. by repeat (split; [done |]).
Qed.

Lemma pr_same k fmt arg k' : pr k fmt arg = Done k' -> k_tasks k' = k_tasks k /\ k_cpu k' = k_cpu k.
Proof. unfold pr. intros E. apply obind_Done in E as ([r l] & _ & E). by injection E as <-. Qed.

(** The current task may have become a zombie. *)
Definition maybe_exited (k : kstate) (ts : tasks) : Prop :=
  ts = k_tasks k
  \/ exists t, k_tasks k !! current (k_cpu k) = Some t
       /\ ts = <[current (k_cpu k) := set_state t PROCESS_ZOMBIE]> (k_tasks k).

Lemma call_tasks nr regs k r k' :
  sys_call_table par cpu kbuf nr regs k = Done (r, k') -> k_cpu k' = k_cpu k /\ maybe_exited k (k_tasks k').
Proof.
  intros E. unfold sys_call_table in E. destruct (negb _); [discriminate E |].
  destruct (nr =? NR_write); [| destruct (nr =? NR_exit)].
  - unfold sys_write, ksys_write in E. apply obind_Done in E as ([res m] & _ & E). destruct (negb (res =? 0)).
    + apply obind_Done in E as (t & _ & E). apply obind_Done in E as (k2 & E2 & E). injection E as _ <-.
      apply pr_same in E2 as [T V]. split; [done | by left].
    + apply obind_Done in E as (m2 & _ & E). apply obind_Done in E as (str & _ & E).
      apply obind_Done in E as (k2 & E2 & E). injection E as _ <-. apply pr_same in E2 as [T V].
      split; [done | by left].
  - unfold sys_exit, do_exit in E. apply obind_Done in E as (t & _ & E). apply obind_Done in E as (k2 & E2 & E).
    apply obind_Done in E as (ts & E3 & E). injection E as _ <-. apply pr_same in E2 as [T V].
    rewrite T, V in E3. apply write_state_Done in E3 as (t' & L & ->). split; [exact V |]. right. by exists t'.
  - injection E as _ <-. split; [done | by left].
Qed.

(** A synchronous exception changes no task but the current one, which it may
    make a zombie, and no variable but the flag. *)
Lemma sync_tasks esr far elr regs k regs' k' :
  el0t_64_sync_handler par cpu kbuf esr far elr regs k = Done (regs', k') ->
  maybe_exited k (k_tasks k') /\ (k_cpu k' = k_cpu k \/ k_cpu k' = set_resched (k_cpu k) true).
Proof.
  unfold el0t_64_sync_handler. destruct (_ =? _); intros E.
  - unfold el0t_64_handle_svc in E. apply obind_Done in E as ([r k1] & E1 & E). apply obind_Done in E as (t & _ & E).
    apply call_tasks in E1 as [V T]. case_bool_decide; injection E as _ <-; cbn [k_tasks k_cpu]; rewrite V; auto.
  - apply obind_Done in E as (k1 & E1 & E). injection E as _ <-. apply pr_same in E1 as [T V].
    split; [by left | by left].
Qed.

Lemma set_resched_id v b : need_resched v = 1 -> set_resched v b = v.
Proof. destruct v. simpl. by intros ->. Qed.

(** With the flag set, the way out of a handler leads to the idle loop. *)
Lemma handler_exit_idle p k s :
  need_resched (k_cpu k) = 1 -> preempt_count (k_cpu k) = 0 -> handler_exit p k = Done s ->
  exists t, k_tasks k !! init = Some t
    /\ s = Machine InIdle (mkK (<[init := set_state t PROCESS_RUNNING]> (k_tasks k))
             (set_current (k_cpu k) init) (k_mem k) (k_log k)).
Proof.
  intros Hn Hp. unfold handler_exit, check_resched. rewrite Hn, Hp. cbn. intros E.
  apply obind_Done in E as (k' & E & [= <-]). unfold process_resched in E.
  apply obind_Done in E as (ts & E & [= <-]). apply write_state_Done in E as (t & L & ->). by exists t.
Qed.

(** What is left of a kernel entry of the process [p]. *)
Definition back_in_idle (p : Z) (k : kstate) (s : machine) : Prop :=
  exists ts t m l, maybe_exited (kernel_entry k) ts /\ ts !! init = Some t
    /\ s = Machine InIdle (mkK (<[init := set_state t PROCESS_RUNNING]> ts) (set_current (k_cpu k) init) m l).

Lemma user_sync_idle p esr far elr regs k regs' s :
  live (Machine (InUser p) k) -> user_sync p esr far elr regs k = Done (regs', s) -> back_in_idle p k s.
Proof.
  intros [_ L2 L3 _ _ _] E. cbn [mc_k] in *. unfold user_sync in E. apply obind_Done in E as ([r k1] & E1 & E).
  apply obind_Done in E as (s1 & E2 & E). injection E as _ <-. apply sync_tasks in E1 as [T V].
  assert (V1 : k_cpu k1 = k_cpu (kernel_entry k)).
  { destruct V as [V | V]; [done |]. by rewrite V, set_resched_id. }
  apply handler_exit_idle in E2 as (t & L & ->); [| by rewrite V1..].
  exists (k_tasks k1), t, (k_mem k1), (k_log k1). split; [done |]. split; [done |]. by rewrite V1.
Qed.

Lemma user_irq_idle p tick now k s :
  live (Machine (InUser p) k) -> user_irq p tick now k = Done s -> back_in_idle p k s.
Proof.
  intros [_ L2 L3 _ _ _] E. cbn [mc_k] in *. unfold user_irq in E. apply obind_Done in E as (v & E1 & E).
  assert (V1 : v = k_cpu (kernel_entry k)).
  { destruct tick; [| by injection E1 as <-]. unfold preempt_check_resched in E1.
    apply obind_Done in E1 as ([] & _ & E1); injection E1 as <-; [by rewrite set_resched_id | done]. }
  subst v. apply handler_exit_idle in E as (t & L & ->); [| done..].
  exists (k_tasks k), t, (k_mem k), (k_log k). split; [by left |]. done.
Qed.

(** ** The invariant *)

Lemma own_queue_mono ts v ts' v' :
  own_queue ts v -> (forall q, q <> init -> on_cpu ts q -> on_cpu ts' q) ->
  g_num_processes v' = g_num_processes v -> g_processes v' = g_processes v ->
  0 <= g_next_process v' < Z.max 1 (g_num_processes v) -> own_queue ts' v'.
Proof.
  intros [[Q1 Q2 Q3 Q4] Q5] H N P X. rewrite <- N in Q1, Q4, Q5, X. rewrite <- P in Q2.
  assert (S : forall i, slot v' i = slot v i) by (intros i; unfold slot; by rewrite P).
  split; [split; try done |].
  - intros i Hi. destruct (Q4 i Hi) as (p & t & L & Hp & _). destruct (Q5 i Hi) as [O1 O2].
    unfold slot in O1, O2. rewrite (list_lookup_total_correct _ _ _ L) in O1, O2.
    destruct (on_cpu_some _ _ (H _ O1 O2)) as (t' & L'). exists p, t'. by rewrite P.
  - intros i Hi. rewrite S. destruct (Q5 i Hi) as [O1 O2]. auto.
Qed.

Lemma live_back p k s : live (Machine (InUser p) k) -> back_in_idle p k s -> live s.
Proof.
  intros [L1 L2 L3 L4 L5 (M1 & M2 & M3 & M4)] (ts & t & m & l & X & Et & ->). cbn [mc_k mc_mode k_tasks k_cpu] in *.
  assert (C : same_cpus (k_tasks k) (<[init := set_state t PROCESS_RUNNING]> ts)).
  { intros q. rewrite (same_cpus_insert ts init t (set_state t PROCESS_RUNNING) Et eq_refl). destruct X as [-> | (t1 & E1 & ->)]; [done |].
    by rewrite (same_cpus_insert _ _ t1 (set_state t1 PROCESS_ZOMBIE) E1 eq_refl). }
  assert (O : forall q, on_cpu (k_tasks k) q -> on_cpu (<[init := set_state t PROCESS_RUNNING]> ts) q).
  { intros q Hq. unfold on_cpu. by rewrite C. }
  split; cbn [mc_k mc_mode k_tasks k_cpu]; try done.
  - eapply own_queue_mono; [exact L1 | auto | done | done | apply L1].
  - by rewrite lookup_insert_eq.
  - destruct L5 as [? | [N5 O5]]; [by left | right; split; [done | by apply O]].
  - split; [by left |]. intros q (Q1 & tq & Q2 & Q3 & Q4). right. cbn [entry_task set_current]. rewrite M2.
    rewrite lookup_insert_ne in Q2 by done. assert (q = p) as ->; [| done].
    apply M4. split; [done |]. exists tq. split; [| done]. destruct X as [-> | (t1 & E1 & ->)]; [done |].
    destruct (decide (current (k_cpu (kernel_entry k)) = q)) as [<- | Hne]; [| by rewrite lookup_insert_ne in Q2].
    rewrite lookup_insert_eq in Q2. by injection Q2 as <-.
Qed.

(** A turn of the idle loop. *)
Lemma live_idle k now :
  live (Machine InIdle k) ->
  exists sw ts v, run_idle_turn sched_round_robin (k_tasks k) (k_cpu k) now = Done (sw, ts, v)
    /\ (sw = None -> live (Machine InIdle (mkK ts v (k_mem k) (k_log k))))
    /\ (forall p ttbr0, sw = Some (SwitchTo p ttbr0) -> live (Machine (InUser p) (mkK ts v (k_mem k) (k_log k)))
         /\ may_run (k_tasks k) p = true /\ current v = current (k_cpu k)
         /\ forall q t, k_tasks k !! q = Some t -> q <> p -> q <> current (k_cpu k) ->
              t_state t <> PROCESS_RUNNING -> ts !! q = Some t).
Proof.
  intros [L1 L2 L3 L4 L5 (M1 & M2)]. cbn [mc_k mc_mode] in *.
  destruct (idle_turn (k_tasks k) (k_cpu k) now) as (sw & ts & v & E & N & P & X & F & Z & C & H); try done.
  { apply L1. } { destruct M1 as [-> | M1]; [done | by apply on_cpu_some]. }
  { destruct L5 as [? | [_ O]]; [by left | right; by apply on_cpu_some]. }
  exists sw, ts, v. split; [exact E |]. destruct H as [(-> & -> & T) | (i & w & sw' & Hi & -> & H0 & Hr & W1 & W2 & R)].
  - split; [| done]. intros _. split; cbn [mc_k mc_mode k_tasks k_cpu]; try done.
    + eapply own_queue_mono; [exact L1 | done..].
    + by rewrite T.
    + unfold mode_ok. by rewrite C, T.
  - split; [done |]. intros p ttbr0 [= ->].
    destruct (run_begin_parts _ _ _ _ _ _ _ R) as (Ev & S & CP & (tp & Tp & Sp) & K & B).
    rewrite (S _ _ eq_refl) in *. destruct (oq_own _ _ L1 i Hi) as [O1 O2].
    split; [| split; [done |]; split; [done |]; intros q t Hq N1 N2 N3; apply K; congruence].
    assert (O : forall q, on_cpu (k_tasks k) q -> on_cpu ts q) by (intros q Hq; unfold on_cpu; by rewrite CP).
    split; cbn [mc_k mc_mode k_tasks k_cpu]; try done.
    + eapply own_queue_mono; [exact L1 | auto | done..].
    + by apply (same_cpus_some (k_tasks k)).
    + right. subst v. cbn. auto.
    + split; [done |]. split; [by subst v |]. split.
      * split; [done |]. exists tp. split; [done |]. split; [| done].
        specialize (O _ O2). unfold on_cpu in O. rewrite Tp in O. by injection O.
      * intros q (Q1 & tq & Q2 & Q3 & Q4). destruct (decide (q = slot (k_cpu k) i)) as [| Hne]; [done |].
        destruct (B q tq Q2 Hne Q4) as (B1 & B2 & B3).
        destruct (M2 q) as [? | [? ?]]; [by split; [| exists tq] | congruence |]. rewrite W2 in B3. by destruct B3.
Qed.

Lemma live_other md k ts m l :
  live (Machine md k) -> same_own (k_tasks k) ts -> live (Machine md (mkK ts (k_cpu k) m l)).
Proof.
  intros [L1 L2 L3 L4 L5 M] [S S0]. cbn [mc_k mc_mode k_tasks k_cpu] in *.
  assert (O : forall q, q <> init -> on_cpu (k_tasks k) q -> on_cpu ts q).
  { intros q Hq O. unfold on_cpu in *. destruct (k_tasks k !! q) as [t|] eqn:E; [| done]. injection O as O.
    apply (S q t Hq O) in E. by rewrite E, <- O. }
  assert (R : forall q, own_running ts q <-> own_running (k_tasks k) q).
  { intros q. split; intros (Q1 & t & Q2 & Q3 & Q4); (split; [done |]); exists t; (split; [by apply (S q t Q1 Q3) | done]). }
  split; cbn [mc_k mc_mode k_tasks k_cpu]; auto.
  - eapply own_queue_mono; [exact L1 | done | done | done | apply L1].
  - destruct L5 as [? | [N5 O5]]; auto.
  - destruct md as [|p]; cbn [mode_ok] in *.
    + destruct M as [M1 M2]. split; [| intros q Hq; by apply M2, R].
      destruct (decide (current (k_cpu k) = init)); [by left |]. destruct M1; [done | auto].
    + destruct M as (M1 & M2 & M3 & M4). split; [done |]. split; [done |]. split; [by apply R |].
      intros q Hq. by apply M4, R.
Qed.

Lemma live_step s s' : live s -> step s s' -> live s'.
Proof.
  intros L Hs. destruct Hs as [now k ts v E | now k p ttbr0 ts v E | now k v E | p esr far elr regs regs' k s E
    | p tick now k s E | md k ts m l E].
  - destruct (live_idle k now L) as (sw & ts' & v' & E' & H & _). rewrite E in E'. injection E' as <- <- <-. auto.
  - destruct (live_idle k now L) as (sw & ts' & v' & E' & _ & H). rewrite E in E'. injection E' as <- <- <-.
    by apply (H p ttbr0).
  - unfold preempt_check_resched in E. apply obind_Done in E as (b & _ & E). injection E as <-.
    assert ((if b then set_resched (k_cpu k) true else k_cpu k) = k_cpu k) as ->.
    { destruct b; [| done]. apply set_resched_id, L. }
    by apply live_other.
  - eapply live_back; [exact L |]. by eapply user_sync_idle.
  - eapply live_back; [exact L |]. by eapply user_irq_idle.
  - by apply live_other.
Qed.

Lemma live_run s s' : live s -> rtc step s s' -> live s'.
Proof. intros L H. induction H; [done |]. eauto using live_step. Qed.


(** ** An exited process *)

Definition gone (z : Z) (s : machine) : Prop :=
  z <> init /\ (exists t, k_tasks (mc_k s) !! z = Some t /\ t_cpu t = cpu /\ t_state t = PROCESS_ZOMBIE)
  /\ match mc_mode s with InIdle => current (k_cpu (mc_k s)) <> z | InUser p => p <> z end.

Lemma gone_back z p k s :
  live (Machine (InUser p) k) -> gone z (Machine (InUser p) k) -> back_in_idle p k s -> gone z s.
Proof.
  intros [_ _ _ _ _ (_ & M & _)] (Z0 & (t & Z1 & Z2) & Z3) (ts & ti & m & l & X & Et & ->).
  cbn [mc_k mc_mode k_tasks k_cpu current set_current] in *.
  split; [done |]. split; [| cbn; congruence]. exists t. split; [| done]. cbn [mc_k k_tasks].
  rewrite lookup_insert_ne by done. destruct X as [-> | (t1 & E1 & ->)]; [done |].
  rewrite lookup_insert_ne; [done |]. cbn. congruence.
Qed.

Lemma gone_step z s s' : live s -> gone z s -> step s s' -> gone z s'.
Proof.
  intros L G Hs. pose proof G as (Z0 & (t & Z1 & Z2 & Z4) & Z3).
  destruct Hs as [now k ts v E | now k p ttbr0 ts v E | now k v E | p esr far elr regs regs' k s E
    | p tick now k s E | md k ts m l E]; cbn [mc_k mc_mode k_tasks k_cpu] in *.
  - destruct (idle_turn (k_tasks k) (k_cpu k) now) as (sw & ts' & v' & E' & _ & _ & _ & _ & _ & C & H); try apply L.
    { destruct (lv_mode _ L) as [[C | C] _]; cbn in C; [rewrite C; apply L | by apply on_cpu_some]. }
    { destruct (lv_entry _ L) as [? | [_ O]]; [by left | right; by apply on_cpu_some]. }
    rewrite E in E'. injection E' as <- <- <-. destruct H as [(_ & -> & _) | (i & w & sw' & _ & ? & _)]; [| done].
    split; [done |]. split; [by exists t |]. cbn. congruence.
  - destruct (live_idle k now L) as (sw & ts' & v' & E' & _ & H). rewrite E in E'. injection E' as <- <- <-.
    destruct (H p ttbr0 eq_refl) as (_ & Hr & C & K).
    assert (Hp : p <> z). { intros ->. unfold may_run in Hr. by rewrite Z1, Z4 in Hr. }
    split; [done |]. split; [| done]. exists t. split; [| done]. cbn. apply K; congruence.
  - unfold preempt_check_resched in E. apply obind_Done in E as (b & _ & E). injection E as <-.
    split; [done |]. split; [by exists t |]. cbn. by destruct b.
  - eapply gone_back; [exact L | exact G |]. by eapply user_sync_idle.
  - eapply gone_back; [exact L | exact G |]. by eapply user_irq_idle.
  - split; [done |]. split; [| done]. exists t. split; [| done]. by apply (proj1 E z t Z0 Z2).
Qed.

Lemma gone_run z s s' : live s -> gone z s -> rtc step s s' -> gone z s'.
Proof. intros L G H. induction H; [done |]. eauto using live_step, gone_step. Qed.

(** The [exit] call, from the exception to the idle loop. *)
Lemma user_exit z k t esr far elr regs :
  live (Machine (InUser z) k) -> k_tasks k !! z = Some t -> (length (t_name t) < 128)%nat ->
  log_room (k_log k) 1000 -> u8 (ESR_EC_FIELD esr) = ESR_EC_SVC -> reg regs SYSCALL_NR_REG_IDX = NR_exit ->
  exists k', user_sync z esr far elr regs k = Done (<[0%nat := 0]> regs, Machine InIdle k')
    /\ k_mem k' = k_mem k /\ gone z (Machine InIdle k').
Proof.
  intros [L1 L2 L3 (ti & L4) L5 (M1 & M2 & (M3 & t' & M4 & M5 & _) & _)] Ht Hn Hl He Hr. cbn [mc_k mc_mode] in *.
  rewrite Ht in M4. injection M4 as <-. unfold user_sync, el0t_64_sync_handler. rewrite He. cbn [Z.eqb].
  rewrite Z.eqb_refl. destruct (exit_svc par cpu kbuf (kernel_entry k) regs t) as (l & ->); try done.
  { cbn. by rewrite M2. }
  cbn [obind]. unfold handler_exit, check_resched. cbn. rewrite L2. cbn.
  unfold process_resched, run_end, write_state. cbn. rewrite M2, lookup_insert_ne by done. rewrite L4. cbn [obind].
  eexists. split; [reflexivity |]. split; [done |]. split; [done |]. cbn. split; [| congruence].
  exists (set_state t PROCESS_ZOMBIE). by rewrite lookup_insert_ne, lookup_insert_eq by done.
Qed.

(** A processor about to enter its idle loop for the first time: the current
    task is its idle task, and none of its processes was started. *)
Record ready (s : machine) : Prop := {
  rd_mode : mc_mode s = InIdle;
  rd_queue : own_queue (k_tasks (mc_k s)) (k_cpu (mc_k s));
  rd_count : preempt_count (k_cpu (mc_k s)) = 0;
  rd_flag : need_resched (k_cpu (mc_k s)) = 1;
  rd_init : is_Some (k_tasks (mc_k s) !! init);
  rd_entry : entry_task (k_cpu (mc_k s)) = 0;
  rd_current : current (k_cpu (mc_k s)) = init \/ on_cpu (k_tasks (mc_k s)) (current (k_cpu (mc_k s)));
  rd_running : forall q, own_running (k_tasks (mc_k s)) q -> q = current (k_cpu (mc_k s));
}.

Lemma ready_live s : ready s -> live s.
Proof. intros [R1 R2 R3 R4 R5 R6 R7 R8]. split; auto. rewrite R1. split; auto. Qed.
End Machine.

(** ** A concrete run *)

Definition demo_start : machine := Machine InIdle (demo_k demo_user).

(** The idle loop has switched to the process 300. *)
Definition demo_in_user : kstate :=
  match run_idle_turn sched_round_robin sample_tasks sample_cpu 7 with
  | Done (_, ts, v) => mkK ts v demo_user (k_log (demo_k demo_user))
  | _ => demo_k demo_user
  end.

Lemma demo_start_ready : ready 0 1 demo_start.
Proof.
  split; try reflexivity; [| by vm_compute; eexists | by left |].
  - split; [exact sample_queue_ok |]. cbn [demo_start mc_k demo_k k_tasks k_cpu]. intros i Hi.
    change (g_num_processes sample_cpu) with 3 in Hi.
    assert (i = 0 \/ i = 1 \/ i = 2) as [-> | [-> | ->]] by lia; (split; [by vm_compute | reflexivity]).
  - intros q (Q1 & t & Q2 & _ & Q3). cbn [demo_start mc_k demo_k k_tasks] in Q2. unfold sample_tasks in Q2.
    rewrite !lookup_insert_Some, lookup_empty in Q2.
    destruct Q2 as [[<- <-] | [_ [[<- <-] | [_ [[<- <-] | [_ [[<- <-] | [_ Q2]]]]]]]]; done.
Qed.

Lemma demo_switch : rtc (step demo_par 0 0x1000 1) demo_start (Machine (InUser 300) demo_in_user).
Proof. eapply rtc_once, (step_switch _ _ _ _ 7 (demo_k demo_user) 300 (virt_to_phys 0)). reflexivity. Qed.

(** ** Claims *)

(** C25: a process that makes the [exit] call never runs again: on a
    processor that went from the start of its idle loop, by any sequence of
    turns of the loop, switches, interrupts and system calls, to running the
    process [z], the call returns, stores 0 in [x0], keeps memory and goes
    to the idle loop; and in every state that can follow, whatever else
    happens, [z] is a zombie and is not the process running.  The name of
    the process ends within its array, the log has room for the message, and
    processes have no name starting with the letters of idle. *)
Theorem exit_never_runs_again par cpu kbuf init s0 z k t esr far elr regs :
  ready cpu init s0 -> rtc (step par cpu kbuf init) s0 (Machine (InUser z) k) ->
  k_tasks k !! z = Some t -> (length (t_name t) < 128)%nat -> log_room (k_log k) 1000 ->
  u8 (ESR_EC_FIELD esr) = ESR_EC_SVC -> reg regs SYSCALL_NR_REG_IDX = NR_exit ->
  exists k', user_sync par cpu kbuf init z esr far elr regs k = Done (<[0%nat := 0]> regs, Machine InIdle k')
    /\ k_mem k' = k_mem k
    /\ forall s, rtc (step par cpu kbuf init) (Machine InIdle k') s ->
         mc_mode s <> InUser z
         /\ exists t', k_tasks (mc_k s) !! z = Some t' /\ t_state t' = PROCESS_ZOMBIE.
Proof.
  intros R H Ht Hn Hl He Hr.
  assert (L : live cpu init (Machine (InUser z) k)) by (eapply live_run; [by apply ready_live | exact H]).
  destruct (user_exit par cpu kbuf init z k t esr far elr regs) as (k' & E & Em & G); try done.
  exists k'. split; [exact E |]. split; [exact Em |]. intros s Hs.
  assert (L' : live cpu init (Machine InIdle k')) by (eapply live_step; [exact L | by eapply step_sync]).
  destruct (gone_run _ _ _ _ z _ s L' G Hs) as (_ & (t' & T1 & _ & T2) & M).
  split; [| by exists t']. intros Em'. by rewrite Em' in M.
Qed.

Lemma exit_never_runs_again_witness :
  exists k', user_sync demo_par 0 0x1000 1 300 0x56000000 0 0 (demo_regs 93 3 0 0) demo_in_user
      = Done (<[0%nat := 0]> (demo_regs 93 3 0 0), Machine InIdle k')
    /\ k_mem k' = k_mem demo_in_user
    /\ forall s, rtc (step demo_par 0 0x1000 1) (Machine InIdle k') s ->
         mc_mode s <> InUser 300
         /\ exists t', k_tasks (mc_k s) !! 300 = Some t' /\ t_state t' = PROCESS_ZOMBIE.
Proof.
  eapply (exit_never_runs_again demo_par 0 0x1000 1 demo_start 300 demo_in_user).
  - exact demo_start_ready.
  - exact demo_switch.
  - reflexivity.
  - simpl. lia.
  - done.
  - reflexivity.
  - reflexivity.
Defined.


