(* ===== verification/Irq.v ===== *)
(** * Interrupts: [src/src/kernel/irqdesc.c], [exception.c], [arch_timer.c]

    The tables of actions and descriptors, the registration of the chip and
    of the root handler, and the dispatch of an interrupt to its handler.  A
    function pointer is an integer (0 is NULL); what calling a handler does
    is the argument [run], over a state of any type.  What the chip is asked
    to do is recorded in the order of the calls. *)

From S2P Require Import Prelude Sched.

Definition IRQ_NUMS : Z := 1020.

Inductive irqreturn := IRQ_NONE | IRQ_HANDLED | IRQ_WAKE_THREAD.

#[export] Instance irqreturn_eq_dec : EqDecision irqreturn.
Proof. solve_decision. Defined.

(** [struct irqaction] ([interrupt.h]). *)
Record irqaction := mkAction {
  ia_handler : Z;
  ia_dev_id : Z;
  ia_irq : Z;
  ia_flags : Z;
  ia_name : list Z;
}.

(** The fields of [struct irq_data] and [struct irq_desc] that are used; the
    action of a descriptor is an index of [g_irq_actions]. *)
Record irq_desc := mkDesc {
  d_hwirq : Z;
  d_chip : Z;
  d_action : option Z;
}.

Inductive chip_op := Mask (hwirq : Z) | Unmask (hwirq : Z).

Record irqs := mkIrqs {
  g_irq_actions : list irqaction;
  g_irq_descs : list irq_desc;
  g_irq_chip : Z;
  handle_arch_irq : Z;
  chip_ops : list chip_op;
}.

Definition no_action : irqaction := mkAction 0 0 0 0 [].
Definition no_desc : irq_desc := mkDesc 0 0 None.
Definition irqs_init : irqs :=
  mkIrqs (replicate (Z.to_nat IRQ_NUMS) no_action) (replicate (Z.to_nat IRQ_NUMS) no_desc) 0 0 [].

Definition add_op (s : irqs) (op : chip_op) : irqs :=
  mkIrqs (g_irq_actions s) (g_irq_descs s) (g_irq_chip s) (handle_arch_irq s) (chip_ops s ++ [op]).

(** [g_irq_chip->irq_unmask(&g_irq_descs[hwirq].irq_data)]. *)
Definition enable_irq (s : irqs) (hwirq : Z) : outcome irqs :=
  match g_irq_descs s !! Z.to_nat hwirq with
  | Some d => if g_irq_chip s =? 0 then Bug else Done (add_op s (Unmask (d_hwirq d)))
  | None => Bug
  end.

Definition disable_irq (s : irqs) (hwirq : Z) : outcome irqs :=
  match g_irq_descs s !! Z.to_nat hwirq with
  | Some d => if g_irq_chip s =? 0 then Bug else Done (add_op s (Mask (d_hwirq d)))
  | None => Bug
  end.

(** [hwirq] is unsigned: only the upper bound is tested. *)
Definition request_irq (s : irqs) (hwirq handler flags : Z) (name : list Z) (dev : Z)
    : outcome (Z * irqs) :=
  if IRQ_NUMS <=? hwirq then Done (- EINVAL, s)
  else
    match g_irq_descs s !! Z.to_nat hwirq with
    | None => Bug
    | Some desc =>
        let! taken :=
          match d_action desc with
          | None => Done false
          | Some a =>
              match g_irq_actions s !! Z.to_nat a with
              | Some act => Done (negb (ia_handler act =? handler))
              | None => Bug
              end
          end in
        if taken : bool then Done (- EEXIST, s)
        else
          let action := mkAction handler dev hwirq (u32 flags) name in
          let s := mkIrqs (<[Z.to_nat hwirq := action]> (g_irq_actions s))
                     (<[Z.to_nat hwirq := mkDesc hwirq (g_irq_chip s) (Some hwirq)]> (g_irq_descs s))
                     (g_irq_chip s) (handle_arch_irq s) (chip_ops s) in
          let! s := enable_irq s hwirq in
          Done (0, s)
    end.

Definition irq_chip_register (s : irqs) (chip : Z) : Z * irqs :=
  if chip =? 0 then (- EINVAL, s)
  else if negb (g_irq_chip s =? 0) then (- EEXIST, s)
  else (0, mkIrqs (g_irq_actions s) (g_irq_descs s) chip (handle_arch_irq s) (chip_ops s)).

(** [set_handle_irq] of [exception.c]. *)
Definition set_handle_irq (s : irqs) (handle_irq : Z) : Z * irqs :=
  if handle_irq =? 0 then (- EINVAL, s)
  else if negb (handle_arch_irq s =? 0) then (- EBUSY, s)
  else (0, mkIrqs (g_irq_actions s) (g_irq_descs s) (g_irq_chip s) handle_irq (chip_ops s)).

(** ** Dispatch *)

Section Dispatch.
Context {S : Type} (run : Z -> Z -> Z -> S -> outcome (irqreturn * S)).

(** What the flow handler reports on the console: the default handler, and
    the warning for an interrupt that was not handled. *)
Inductive report := Defaulted (hwirq : Z) | NotHandled (hwirq : Z).

Definition handle_fasteoi_irq (s : irqs) (desc : irq_desc) (x : S)
    : outcome (list report * S) :=
  let hwirq := u32 (d_hwirq desc) in
  let! (reports, ret, x) :=
    match d_action desc with
    | Some a =>
        match g_irq_actions s !! Z.to_nat a with
        | Some act =>
            if ia_handler act =? 0 then Bug
            else let! (ret, x) := run (ia_handler act) (s32 hwirq) (ia_dev_id act) x in
                 Done ([], ret, x)
        | None => Bug
        end
    | None => Done ([Defaulted hwirq], IRQ_NONE, x)
    end in
  Done (if bool_decide (ret <> IRQ_HANDLED) then reports ++ [NotHandled hwirq] else reports, x).

(** The result is always 0. *)
Definition generic_handle_domain_irq (s : irqs) (hwirq : Z) (x : S)
    : outcome (Z * list report * S) :=
  match g_irq_descs s !! Z.to_nat hwirq with
  | None => Bug
  | Some desc => let! (reports, x) := handle_fasteoi_irq s desc x in Done (0, reports, x)
  end.

(** [el1h_64_irq_handler] and [el0t_64_irq_handler]: call the root handler. *)
Definition el1h_64_irq_handler (s : irqs) (x : S) : outcome (irqreturn * S) :=
  if handle_arch_irq s =? 0 then Bug else run (handle_arch_irq s) 0 0 x.
End Dispatch.

(** ** The tables as a map *)

(** What each line is requested by: handler and cookie. *)
Abbreviation owners := (gmap Z (Z * Z)).

(** The contract of [request_irq]: the handler of the first request keeps the
    line, and only it may ask again, with another cookie. *)
Definition request_spec (o : owners) (hwirq handler dev : Z) : Z * owners :=
  if IRQ_NUMS <=? hwirq then (- EINVAL, o)
  else match o !! hwirq with
       | Some (h, _) => if h =? handler then (0, <[hwirq := (handler, dev)]> o) else (- EEXIST, o)
       | None => (0, <[hwirq := (handler, dev)]> o)
       end.

(** The tables stand for [o]: a requested line points to its own action,
    the descriptor carries the number of the line, and the descriptors of the
    other lines are as they were at boot. *)
Record irqs_rep (s : irqs) (o : owners) : Prop := {
  ir_descs : length (g_irq_descs s) = Z.to_nat IRQ_NUMS;
  ir_actions : length (g_irq_actions s) = Z.to_nat IRQ_NUMS;
  ir_line : forall n, 0 <= n < IRQ_NUMS ->
    match o !! n with
    | Some (h, dev) =>
        exists chip act, g_irq_descs s !! Z.to_nat n = Some (mkDesc n chip (Some n))
          /\ g_irq_actions s !! Z.to_nat n = Some act /\ ia_handler act = h /\ ia_dev_id act = dev
    | None => g_irq_descs s !! Z.to_nat n = Some no_desc
    end;
}.

Lemma irqs_init_rep : irqs_rep irqs_init ∅.
Proof.
  split; [done | done |]. intros n Hn. rewrite lookup_empty.
  unfold irqs_init. cbn [g_irq_descs]. apply lookup_replicate_2. lia.
Qed.

Lemma request_irq_rep s o hwirq handler flags name dev :
  irqs_rep s o -> g_irq_chip s <> 0 -> 0 <= hwirq ->
  exists s', request_irq s hwirq handler flags name dev
             = Done (fst (request_spec o hwirq handler dev), s')
    /\ irqs_rep s' (snd (request_spec o hwirq handler dev))
    /\ g_irq_chip s' = g_irq_chip s /\ handle_arch_irq s' = handle_arch_irq s
    /\ (if fst (request_spec o hwirq handler dev) =? 0
        then chip_ops s' = chip_ops s ++ [Unmask hwirq] else s' = s).
Proof.
  intros [L1 L2 L3] Hc Hh. unfold request_irq, request_spec.
  destruct (Z.leb_spec IRQ_NUMS hwirq) as [Hge | Hlt]; [by exists s |].
  set (act := mkAction handler dev hwirq (u32 flags) name).
  set (s1 := mkIrqs (<[Z.to_nat hwirq := act]> (g_irq_actions s))
               (<[Z.to_nat hwirq := mkDesc hwirq (g_irq_chip s) (Some hwirq)]> (g_irq_descs s))
               (g_irq_chip s) (handle_arch_irq s) (chip_ops s)).
  assert (Hen : enable_irq s1 hwirq = Done (add_op s1 (Unmask hwirq))).
  { unfold enable_irq, s1. cbn [g_irq_descs g_irq_chip]. rewrite list_lookup_insert_eq by lia.
    by rewrite (proj2 (Z.eqb_neq _ _) Hc). }
  assert (Hrep : irqs_rep (add_op s1 (Unmask hwirq)) (<[hwirq := (handler, dev)]> o)).
  { split; unfold add_op, s1; cbn [g_irq_descs g_irq_actions]; try by rewrite length_insert.
    intros n Hn. destruct (decide (hwirq = n)) as [<- | Hne].
    - rewrite lookup_insert_eq. exists (g_irq_chip s), act.
      rewrite !list_lookup_insert_eq by lia. done.
    - rewrite lookup_insert_ne by done. rewrite !list_lookup_insert_ne by lia. by apply L3. }
  pose proof (L3 hwirq ltac:(lia)) as Hline. destruct (o !! hwirq) as [[h d]|].
  - destruct Hline as (chip & a & -> & Ea & Eh & Ed). cbn [d_action]. rewrite Ea. cbn [obind].
    rewrite Eh. destruct (h =? handler); cbn [negb].
    + rewrite Hen. cbn [obind]. eexists. split; [done |]. by split.
    + exists s. done.
  - rewrite Hline. cbn [d_action no_desc obind]. rewrite Hen. cbn [obind].
    eexists. split; [done |]. by split.
Qed.

Lemma dispatch_rep {S} (run : Z -> Z -> Z -> S -> outcome (irqreturn * S)) s o n x :
  irqs_rep s o -> 0 <= n < IRQ_NUMS ->
  generic_handle_domain_irq run s n x
  = match o !! n with
    | Some (h, dev) =>
        if h =? 0 then Bug
        else let! (ret, x) := run h n dev x in
             Done (0, if bool_decide (ret <> IRQ_HANDLED) then [NotHandled n] else [], x)
    | None => Done (0, [Defaulted 0; NotHandled 0], x)
    end.
Proof.
  intros [L1 L2 L3] Hn. unfold generic_handle_domain_irq, handle_fasteoi_irq.
  pose proof (L3 n Hn) as Hline. unfold IRQ_NUMS in Hn. destruct (o !! n) as [[h dev]|].
  - destruct Hline as (chip & a & -> & Ea & Eh & Ed). cbn [d_action d_hwirq].
    rewrite Ea, Eh, Ed. destruct (h =? 0); [done |].
    rewrite u32_small by lia. replace (s32 n) with n.
    2:{ unfold s32. rewrite Z.mod_small; lia. }
    by destruct (run h n dev x) as [[ret x']| |].
  - by rewrite Hline.
Qed.

(** A sequence of requests (line, handler, cookie), in the code and in the
    contract: the codes returned, and the final state. *)
Fixpoint request_all (s : irqs) (l : list (Z * Z * Z)) : outcome (list Z * irqs) :=
  match l with
  | [] => Done ([], s)
  | (hwirq, handler, dev) :: rest =>
      let! (code, s) := request_irq s hwirq handler 0 [] dev in
      let! (codes, s) := request_all s rest in
      Done (code :: codes, s)
  end.

Fixpoint request_all_spec (o : owners) (l : list (Z * Z * Z)) : list Z * owners :=
  match l with
  | [] => ([], o)
  | (hwirq, handler, dev) :: rest =>
      let '(code, o) := request_spec o hwirq handler dev in
      let '(codes, o) := request_all_spec o rest in (code :: codes, o)
  end.

Lemma request_all_rep l : forall s o,
  irqs_rep s o -> g_irq_chip s <> 0 -> Forall (fun r => 0 <= r.1.1) l ->
  exists s', request_all s l = Done (fst (request_all_spec o l), s')
    /\ irqs_rep s' (snd (request_all_spec o l)).
Proof.
  induction l as [|[[hwirq handler] dev] l IH]; intros s o Hr Hc Hl; cbn [request_all request_all_spec].
  { by exists s. }
  inversion_clear Hl as [|? ? Hh Hl'].
  destruct (request_irq_rep s o hwirq handler 0 [] dev Hr Hc Hh) as (s1 & -> & R1 & C1 & _).
  cbn [obind]. destruct (request_spec o hwirq handler dev) as [code o1]. cbn [fst snd] in *.
  destruct (IH s1 o1 R1) as (s2 & -> & R2); [congruence | done |]. cbn [obind].
  destruct (request_all_spec o1 l) as [codes o2]. by exists s2.
Qed.

(** C24: whatever sequence of requests is made once a chip is registered, the
    tables behave as a map from lines to owners: the codes returned are the
    ones of the map ([-EINVAL] outside the table, [-EEXIST] for a line with
    another handler, which keeps its owner), an interrupt of an owned line
    calls exactly its handler with the number of the line and the cookie of
    the last successful request (a handler may ask again for its own line,
    and then replaces its cookie), and one of a free line only reports
    itself, as line 0. *)
Theorem irq_requests_refine_map {S} (run : Z -> Z -> Z -> S -> outcome (irqreturn * S)) chip l :
  chip <> 0 -> Forall (fun r => 0 <= r.1.1) l ->
  exists s, request_all (snd (irq_chip_register irqs_init chip)) l
            = Done (fst (request_all_spec ∅ l), s)
    /\ forall n x, 0 <= n < IRQ_NUMS ->
         generic_handle_domain_irq run s n x
         = match snd (request_all_spec ∅ l) !! n with
           | Some (h, dev) =>
               if h =? 0 then Bug
               else let! (ret, x) := run h n dev x in
                    Done (0, if bool_decide (ret <> IRQ_HANDLED) then [NotHandled n] else [], x)
           | None => Done (0, [Defaulted 0; NotHandled 0], x)
           end.
Proof.
  intros Hc Hl. unfold irq_chip_register. rewrite (proj2 (Z.eqb_neq _ _) Hc). cbn [negb irqs_init g_irq_chip Z.eqb snd].
  destruct (request_all_rep l (mkIrqs (g_irq_actions irqs_init) (g_irq_descs irqs_init) chip 0 []) ∅)
    as (s & E & R); [destruct irqs_init_rep; by split | done | done |].
  exists s. split; [exact E |]. intros n x Hn. by apply dispatch_rep.
Qed.

(** Two drivers ask for line 30, the first of them twice. *)
Lemma irq_requests_refine_map_witness :
  let l := [(30, 7, 1); (30, 8, 2); (30, 7, 3); (1020, 7, 0)] in
  let run := fun (h n dev : Z) (x : list (Z * Z)) => Done (IRQ_HANDLED, x ++ [(h, dev)]) in
  exists s, request_all (snd (irq_chip_register irqs_init 5)) l
            = Done (fst (request_all_spec ∅ l), s)
    /\ forall n x, 0 <= n < IRQ_NUMS ->
         generic_handle_domain_irq run s n x
         = match snd (request_all_spec ∅ l) !! n with
           | Some (h, dev) =>
               if h =? 0 then Bug
               else let! (ret, x) := run h n dev x in
                    Done (0, if bool_decide (ret <> IRQ_HANDLED) then [NotHandled n] else [], x)
           | None => Done (0, [Defaulted 0; NotHandled 0], x)
           end.
Proof.
  intros l run. apply (irq_requests_refine_map run 5 l); [done | repeat constructor; simpl; lia].
Defined.
