(* ===== verification/Timer.v ===== *)
(** * The tick: [src/src/arch/aarch64/arch_timer.c], [arch_timer.h]

    The physical timer of a CPU is its two registers; the frequency of the
    counter is the argument [freq] (a [u32], [CNTFRQ_EL0]).  The status bit of
    the control register is read from the hardware and is an argument of the
    handler; the value of the counter in nanoseconds likewise. *)

From S2P Require Import Prelude Sched SchedFair Irq.

Definition ARCH_TIMER_CNTP_IRQ : Z := 30.
Definition CNTP_CTL_EL0_BIT_IMASK : Z := 2.
Definition CNTP_CTL_EL0_BIT_ENABLE : Z := 1.
Definition NS_PER_SECOND : Z := 1000000000.

(** The timer registers of a CPU: [CNTP_TVAL_EL0], [CNTP_CTL_EL0],
    [CNTV_CTL_EL0] and [CNTKCTL_EL1]. *)
Record timer := mkTimer {
  cntp_tval : Z;
  cntp_ctl : Z;
  cntv_ctl : Z;
  cntkctl : Z;
}.

Section Timer.
Context (freq : Z).

Definition NS_TO_COUNT (ns : Z) : Z := u64 (u64 ns * freq) / NS_PER_SECOND.
Definition COUNT_TO_NS (count : Z) : Z := u64 (u64 count * NS_PER_SECOND) / freq.

(** [ns] is converted to [s32] by the call. *)
Definition arch_timer_start (t : timer) (ns : Z) : timer :=
  mkTimer (u64 (s32 (NS_TO_COUNT (s32 ns))))
    (u64 (Z.lor (Z.lnot CNTP_CTL_EL0_BIT_IMASK) CNTP_CTL_EL0_BIT_ENABLE)) (cntv_ctl t) (cntkctl t).

Definition arch_timer_disable (t : timer) : timer :=
  mkTimer (cntp_tval t)
    (u64 (Z.lor CNTP_CTL_EL0_BIT_IMASK (Z.lnot CNTP_CTL_EL0_BIT_ENABLE))) (cntv_ctl t) (cntkctl t).

(** The timer counts, and its interrupt is not masked. *)
Definition ticking (t : timer) : bool := Z.testbit (cntp_ctl t) 0 && negb (Z.testbit (cntp_ctl t) 1).

Definition timer_irq_handler (cls : sched_class) (istatus : bool) (now : Z)
    (ts : tasks) (v : cpu_vars) (t : timer) : outcome (irqreturn * cpu_vars * timer) :=
  let tick_interval := get_timeslice cls in
  if negb istatus then Done (IRQ_NONE, v, t)
  else
    let t := arch_timer_disable t in
    let! v := preempt_check_resched cls ts v now in
    Done (IRQ_HANDLED, v, arch_timer_start t tick_interval).

(** [handler] is the address of [timer_irq_handler]. *)
Definition __arch_timer_init (s : irqs) (t : timer) (handler : Z) : outcome (Z * irqs * timer) :=
  let t := mkTimer (cntp_tval t) 0 0 0 in
  let! (ret, s) := request_irq s ARCH_TIMER_CNTP_IRQ handler 0 [] 0 in
  Done (if ret <? 0 then ret else 0, s, t).

(** The hotplug callback of a secondary CPU. *)
Definition cpuhp_arch_timer_setup (cls : sched_class) (s : irqs) (t : timer) (handler : Z)
    : outcome (Z * irqs * timer) :=
  let tick_interval := get_timeslice cls in
  let t := arch_timer_start t tick_interval in
  __arch_timer_init s t handler.

(** [local_sched_timer_start] of [sched.c], for the boot CPU. *)
Definition local_sched_timer_start (cls : sched_class) (t : timer) : timer :=
  arch_timer_start t (get_timeslice cls).

(** ** Properties *)

Lemma slice_count : 0 < freq <= NS_PER_SECOND ->
  u64 (s32 (NS_TO_COUNT (s32 TIME_SLICE_NS))) = TIME_SLICE_NS * freq / NS_PER_SECOND
  /\ 0 <= TIME_SLICE_NS * freq / NS_PER_SECOND <= TIME_SLICE_NS.
Proof.
  intros Hf. unfold NS_PER_SECOND in *. change (s32 TIME_SLICE_NS) with 10000000.
  change TIME_SLICE_NS with 10000000. unfold NS_TO_COUNT, NS_PER_SECOND.
  rewrite (u64_small 10000000), (u64_small (10000000 * freq)) by lia.
  assert (Hq : 0 <= 10000000 * freq / 1000000000 <= 10000000).
  { split; [apply Z.div_pos; lia |]. apply Z.div_le_upper_bound; lia. }
  split; [| done]. unfold s32. rewrite Z.mod_small by lia. rewrite u64_small by lia. lia.
Qed.

Lemma arch_timer_start_ticking t ns : ticking (arch_timer_start t ns) = true.
Proof. reflexivity. Qed.

End Timer.

(** The effect of the handler under the round-robin class: the timer is armed
    for one time slice at the frequency of the counter, counting and
    unmasked, and the CPU is asked to reschedule when the current process has
    used up its slice; a tick that did not happen changes nothing. *)
Lemma tick_spec freq istatus now ts v t cur :
  0 < freq <= NS_PER_SECOND -> ts !! current v = Some cur ->
  timer_irq_handler freq sched_round_robin istatus now ts v t
  = if istatus then
      Done (IRQ_HANDLED,
            if TIME_SLICE_NS <? u64 (now - t_last_run_timestamp cur) then set_resched v true else v,
            mkTimer (TIME_SLICE_NS * freq / NS_PER_SECOND) (2 ^ 64 - 3) (cntv_ctl t) (cntkctl t))
    else Done (IRQ_NONE, v, t).
Proof.
  intros Hf Hc. unfold timer_irq_handler. destruct istatus; cbn [negb]; [| done].
  unfold preempt_check_resched. cbn [need_preempt sched_round_robin].
  unfold round_robin_need_resched. rewrite Hc. cbn [obind]. unfold arch_timer_start.
  cbn [get_timeslice sched_round_robin arch_timer_disable cntv_ctl cntkctl].
  change round_robin_get_timeslice with TIME_SLICE_NS.
  destruct (slice_count freq Hf) as [-> _]. done.
Qed.

(** The hotplug callback of a secondary CPU starts its timer and then
    initialises it, which turns it off again: when the callback succeeds the
    timer of that CPU does not count, so no tick preempts its processes. *)
Lemma secondary_timer_left_off freq cls s o t handler :
  irqs_rep s o -> g_irq_chip s <> 0 -> o !! ARCH_TIMER_CNTP_IRQ = Some (handler, 0) ->
  exists s' t', cpuhp_arch_timer_setup freq cls s t handler = Done (0, s', t')
    /\ ticking t' = false.
Proof.
  intros Hr Hc Ho. unfold cpuhp_arch_timer_setup, __arch_timer_init.
  destruct (request_irq_rep s o ARCH_TIMER_CNTP_IRQ handler 0 [] 0 Hr Hc) as (s' & E & _); [done |].
  unfold request_spec in E. change (IRQ_NUMS <=? ARCH_TIMER_CNTP_IRQ) with false in E.
  rewrite Ho, Z.eqb_refl in E. rewrite E. cbn [obind fst]. do 2 eexists. split; reflexivity.
Qed.

(** The boot CPU has requested the line and a secondary CPU comes up. *)
Lemma secondary_timer_left_off_witness :
  exists s, request_irq (snd (irq_chip_register irqs_init 5)) 30 7 0 [] 0 = Done (0, s)
    /\ exists s' t', cpuhp_arch_timer_setup 62500000 sched_round_robin s (mkTimer 0 0 0 0) 7
         = Done (0, s', t') /\ ticking t' = false.
Proof.
  destruct (request_irq_rep (mkIrqs (g_irq_actions irqs_init) (g_irq_descs irqs_init) 5 0 []) ∅
              30 7 0 [] 0) as (s & E & R & C & _);
    [destruct irqs_init_rep; by split | done | done |].
  exists s. split; [exact E |].
  apply (secondary_timer_left_off 62500000 sched_round_robin s _ (mkTimer 0 0 0 0) 7 R).
  - rewrite C. done.
  - reflexivity.
Defined.

(** The conversion of the counter to nanoseconds multiplies before it
    divides, at 64 bits: at every frequency up to 1 GHz there is a counter
    value, reached within 19 seconds at 1 GHz and 295 at 62.5 MHz, whose time
    is before the time of the value just before it. *)
Lemma count_to_ns_wraps freq :
  0 < freq <= NS_PER_SECOND ->
  COUNT_TO_NS freq 18446744074 < COUNT_TO_NS freq 18446744073.
Proof.
  intros Hf. unfold COUNT_TO_NS. unfold NS_PER_SECOND in *.
  change (u64 (u64 18446744074 * 1000000000)) with 290448384.
  change (u64 (u64 18446744073 * 1000000000)) with 18446744073000000000.
  assert (H1 : 290448384 / freq <= 290448384) by (apply Z.div_le_upper_bound; nia).
  assert (H2 : 18446744073 <= 18446744073000000000 / freq) by (apply Z.div_le_lower_bound; lia).
  lia.
Qed.

Lemma count_to_ns_wraps_witness : COUNT_TO_NS 62500000 18446744074 < COUNT_TO_NS 62500000 18446744073.
Proof. apply (count_to_ns_wraps 62500000). split; done. Defined.
