(* ===== verification/Kmalloc.v ===== *)
(** * The kernel heap: [src/src/mm/kmalloc.c]

    [kmalloc] takes a block from the boot allocator, writes a header of 16
    bytes with the size of the buffer at its start and returns the address
    after the header, in the linear map.  The heap is the allocator
    ([Memblock]) and the bytes of the linear map ([CString]).  When the
    allocator has no block its result 0 is used like any other. *)

From S2P Require Import Prelude Memblock MemblockList MemblockArray MemblockRange MemblockFree.
From S2P Require Import MemblockSearch MemblockAlloc CString CStringSpec.

(** [sizeof(struct malloc_mem_region)]: the size and a pointer. *)
Definition REGION_HDR : Z := 16.

Record kheap := mkHeap {
  kh_mb : memblock;
  kh_mem : bmem;
}.

Definition is_power_of_2 (n : Z) : bool := negb (n =? 0) && (Z.land n (u64 (n - 1)) =? 0).

(** [fls] takes an [unsigned int]. *)
Definition fls (x : Z) : Z := if u32 x =? 0 then 0 else Z.log2 (u32 x) + 1.

(** [struct_size(region, buf, size)], saturated. *)
Definition struct_size (size : Z) : Z := Z.min (REGION_HDR + size) SIZE_MAX.

Definition kmalloc_align (size : Z) : Z :=
  if is_power_of_2 size then size else u64 (Z.shiftl 1 (fls size)).

Definition kmalloc_buf_size (size : Z) : Z :=
  u64 (Z.shiftl (ALIGN_UP size (kmalloc_align size)) 1).

Definition kmalloc (h : kheap) (size : Z) (zero : bool) : outcome (Z * kheap) :=
  if size =? 0 then Done (0, h)
  else
    let size := kmalloc_buf_size size in
    let! (pa, mb) := memblock_phys_alloc_range (kh_mb h) (struct_size size) 0 0 0 in
    let region := phys_to_virt pa in
    let! m := st64 (kh_mem h) region size in
    let! m := if zero then memset m (region + REGION_HDR) 0 size else Done m in
    Done (region + REGION_HDR, mkHeap mb m).

Definition kzalloc (h : kheap) (size : Z) : outcome (Z * kheap) := kmalloc h size true.

Definition kmalloc_array (h : kheap) (n size : Z) (zero : bool) : outcome (Z * kheap) :=
  if 2 ^ 64 <=? n * size then Done (0, h) else kmalloc h (n * size) zero.

Definition kfree (h : kheap) (ptr : Z) : outcome kheap :=
  let region := ptr - REGION_HDR in
  let! buf_size := ld64 (kh_mem h) region in
  let! (_, mb) := memblock_phys_free dbl_array (kh_mb h) (virt_to_phys region) (struct_size buf_size) in
  Done (mkHeap mb (kh_mem h)).

(** ** The size classes *)

Lemma land_pred_pow2 k : 0 <= k -> Z.land (2 ^ k) (2 ^ k - 1) = 0.
Proof.
  intros Hk. replace (2 ^ k - 1) with (Z.ones k) by (rewrite Z.ones_equiv; lia).
  rewrite Z.land_ones by lia. apply Z_mod_same_full.
Qed.

(** The lowest set bit survives the subtraction only if another bit is set. *)
Lemma land_pred_zero n : 0 < n -> Z.land n (n - 1) = 0 -> n = 2 ^ Z.log2 n.
Proof.
  intros Hn H. pose proof (Z.log2_spec n Hn) as [L1 L2]. pose proof (Z.log2_nonneg n).
  destruct (Z.eq_dec n (2 ^ Z.log2 n)) as [|Hne]; [done |]. exfalso.
  assert (Hb : Z.testbit (Z.land n (n - 1)) (Z.log2 n) = true).
  { rewrite Z.land_spec, Z.bit_log2 by lia. simpl.
    replace (Z.log2 n) with (Z.log2 (n - 1)) at 1; [apply Z.bit_log2; lia |].
    apply Z.log2_unique; [done |]. rewrite <- Z.add_1_r, Z.pow_add_r in * by lia. lia. }
  rewrite H, Z.bits_0 in Hb. done.
Qed.

(** The alignment is the least power of two that is at least the size. *)
Lemma kmalloc_align_spec size :
  0 < size < 2 ^ 31 ->
  is_pow2 (kmalloc_align size) /\ size <= kmalloc_align size < 2 * size
  /\ kmalloc_align size <= 2 ^ 31.
Proof.
  intros Hs. unfold kmalloc_align, is_power_of_2. rewrite (proj2 (Z.eqb_neq size 0)) by lia. cbn [negb andb].
  rewrite u64_small by lia. pose proof (Z.log2_spec size) as Hl. pose proof (Z.log2_nonneg size).
  assert (Hlt : Z.log2 size < 31) by (apply Z.log2_lt_pow2; lia).
  destruct (Z.eqb_spec (Z.land size (size - 1)) 0) as [E | E].
  - apply land_pred_zero in E; [| lia]. split; [exists (Z.log2 size); split; [lia | done] | lia].
  - unfold fls. rewrite u32_small by lia. rewrite (proj2 (Z.eqb_neq size 0)) by lia.
    rewrite Z.shiftl_1_l. specialize (Hl ltac:(lia)). rewrite <- Z.add_1_r in Hl.
    assert (H2 : 2 ^ (Z.log2 size + 1) <= 2 ^ 31) by (apply Z.pow_le_mono_r; lia).
    rewrite u64_small by lia. split; [exists (Z.log2 size + 1); split; [lia | done] |].
    assert (2 ^ Z.log2 size <> size).
    { intros Heq. apply E. rewrite <- Heq at 1 2. apply land_pred_pow2. lia. }
    rewrite Z.pow_add_r in * by lia. lia.
Qed.

Lemma ALIGN_UP_spec x a :
  is_pow2 a -> 0 <= x -> x + a <= 2 ^ 64 ->
  ALIGN_UP x a mod a = 0 /\ x <= ALIGN_UP x a < x + a.
Proof.
  intros Ha Hx Hb. pose proof (is_pow2_range a Ha). unfold ALIGN_UP.
  rewrite u64_small by lia. rewrite align_mask_pow2 by (done || lia).
  pose proof (Z.mod_pos_bound (x + a - 1) a). split; [apply mod_sub_mod; lia | lia].
Qed.

Lemma kmalloc_buf_size_spec size :
  0 < size < 2 ^ 31 -> kmalloc_buf_size size = 2 * kmalloc_align size.
Proof.
  intros Hs. destruct (kmalloc_align_spec size Hs) as (Ha & Hb & Hc).
  unfold kmalloc_buf_size.
  assert (ALIGN_UP size (kmalloc_align size) = kmalloc_align size) as ->.
  { destruct (ALIGN_UP_spec size (kmalloc_align size) Ha) as (M & B); [lia | lia |].
    apply Z.mod_divide in M as (q & Eq); [| lia]. rewrite Eq in *.
    assert (q = 1) as -> by nia. lia. }
  rewrite Z.shiftl_mul_pow2 by lia. rewrite u64_small by lia. lia.
Qed.

(** ** The contract of the heap *)

(** The allocator is in order and has room for a call, and the memory it
    manages is mapped by the linear map, which ends below the top. *)
Record heap_ok (h : kheap) : Prop := {
  ho_inv : mb_inv (kh_mb h);
  ho_max : Z.of_nat (tmax (memory (kh_mb h))) < 2 ^ 31
           /\ Z.of_nat (tmax (reserved (kh_mb h))) < 2 ^ 31;
  ho_mapped : forall a, covers (memory (kh_mb h)) a ->
    0 <= a < 2 ^ 47 /\ is_Some (kh_mem h !! (a + LINER_MAP_OFFSET));
}.

Definition heap_room (h : kheap) : Prop :=
  has_room (reserved (kh_mb h)) /\ (tcnt (reserved (kh_mb h)) + 4 <= tmax (reserved (kh_mb h)))%nat.

(** A free block of the size a request needs. *)
Definition heap_free (h : kheap) (size : Z) : Prop :=
  exists a, candidate (kh_mb h) (search_start 0) (search_end (kh_mb h) 0 0)
              (REGION_HDR + kmalloc_buf_size size) SMP_CACHE_BYTES NUMA_NO_NODE MEMBLOCK_NONE a.

Lemma phys_to_virt_linear a : 0 <= a < 2 ^ 48 -> phys_to_virt a = a + LINER_MAP_OFFSET.
Proof.
  intros H. unfold phys_to_virt. apply u64_small.
  unfold LINER_MAP_OFFSET, PAGE_OFFSET, RAM_BASE. lia.
Qed.

Lemma virt_to_phys_linear a : 0 <= a < 2 ^ 48 -> virt_to_phys (a + LINER_MAP_OFFSET) = a.
Proof.
  intros H. unfold virt_to_phys. replace (a + LINER_MAP_OFFSET - LINER_MAP_OFFSET) with a by lia.
  apply u64_small. lia.
Qed.

(** What an allocation needs of the heap: the allocator is sound and free
    memory is mapped. *)
Record alloc_ok (mb : memblock) : Prop := {
  ao_inv : mb_inv mb;
  ao_max : Z.of_nat (tmax (memory mb)) < 2 ^ 31 /\ Z.of_nat (tmax (reserved mb)) < 2 ^ 31;
  ao_range : forall a, covers (memory mb) a -> 0 <= a < 2 ^ 47;
}.

Definition free_byte (mb : memblock) (a : Z) : Prop := covers (memory mb) a /\ ~ covers (reserved mb) a.

Lemma heap_ok_alloc h : heap_ok h -> alloc_ok (kh_mb h)
  /\ forall a, free_byte (kh_mb h) a -> is_Some (kh_mem h !! (a + LINER_MAP_OFFSET)).
Proof.
  intros [H1 H2 H3]. split; [split; [done | done | apply H3] |]. intros a [Ha _]. by apply H3.
Qed.

Lemma kmalloc_run h size zero : alloc_ok (kh_mb h) ->
  (forall a, free_byte (kh_mb h) a -> is_Some (kh_mem h !! (a + LINER_MAP_OFFSET))) ->
  heap_room h -> 0 < size < 2 ^ 31 -> heap_free h size ->
  let buf := kmalloc_buf_size size in
  exists pa mb', kmalloc h size zero
      = Done (pa + LINER_MAP_OFFSET + REGION_HDR,
              mkHeap mb' (blit (blit (kh_mem h) (pa + LINER_MAP_OFFSET) (le_list 8 buf))
                            (pa + LINER_MAP_OFFSET + REGION_HDR)
                            (if zero then replicate (Z.to_nat buf) 0 else [])))
    /\ memblock_phys_alloc_range (kh_mb h) (REGION_HDR + buf) 0 0 0 = Done (pa, mb') /\ pa <> 0
    /\ 0 <= pa /\ pa + REGION_HDR + buf < 2 ^ 47 + 1
    /\ abs_step (abs (kh_mb h)) (OpAlloc (REGION_HDR + buf) 0 0 0) pa (abs mb')
    /\ mb_inv mb' /\ tmax (memory mb') = tmax (memory (kh_mb h))
    /\ tmax (reserved mb') = tmax (reserved (kh_mb h)).
Proof.
  intros [Hinv [Hm1 Hm2] Hrng] Hmap [Hr1 Hr2] Hs (a & Ha) buf.
  destruct (kmalloc_align_spec size Hs) as (_ & Hb & Hc).
  assert (Hbuf : buf = 2 * kmalloc_align size) by (by apply kmalloc_buf_size_spec).
  assert (Hn : REGION_HDR + buf < 2 ^ 33) by (unfold REGION_HDR; lia).
  assert (Hok : op_ok (kh_mb h) (OpAlloc (REGION_HDR + buf) 0 0 0)).
  { split; [done |]. split; [done |]. split; [unfold REGION_HDR; lia |]. split; [by left |].
    split; [lia |]. split; [lia | done]. }
  destruct (run_op_refines _ _ Hinv Hok) as (pa & mb' & E & I & Hstep & T1 & T2). simpl in E.
  destruct (alloc_range_spec (kh_mb h) (REGION_HDR + buf) 0 0 0) as (pa' & mb2 & E' & Hpost);
    try done; [by left | unfold REGION_HDR; lia |].
  rewrite E in E'. injection E' as <- <-.
  destruct Hpost as [(Hne & _) | (-> & _ & Hnone)]; [| by destruct (Hnone a)].
  pose proof Hstep as (_ & [[? _] | (_ & _ & Hlo & _ & Hblk & _)]); [done |]. simpl in Hblk.
  assert (Hcov : forall x, block pa (REGION_HDR + buf) x ->
    0 <= x < 2 ^ 47 /\ is_Some (kh_mem h !! (x + LINER_MAP_OFFSET))).
  { intros x Hx. specialize (Hblk x Hx). split; [apply Hrng, Hblk | exact (Hmap x Hblk)]. }
  unfold block, REGION_HDR in *.
  pose proof (Hcov pa ltac:(lia)) as [Hp1 _]. pose proof (Hcov (pa + 16 + buf - 1) ltac:(lia)) as [Hp2 _].
  assert (Hmp : mapped (kh_mem h) (pa + LINER_MAP_OFFSET) (16 + buf)).
  { intros p Hp. replace p with (p - LINER_MAP_OFFSET + LINER_MAP_OFFSET) by lia. apply Hcov. lia. }
  exists pa, mb'. split; [| split; [done |]; split; [done |]; split; [lia |]; split; [lia | done]].
  unfold kmalloc. rewrite (proj2 (Z.eqb_neq size 0)) by lia. cbv zeta. fold buf.
  assert (struct_size buf = 16 + buf) as ->.
  { unfold struct_size, REGION_HDR, SIZE_MAX. lia. }
  rewrite E. cbn [obind]. rewrite phys_to_virt_linear by lia. unfold REGION_HDR.
  rewrite st64_spec by (lia || (eapply mapped_sub; [exact Hmp | |]; lia)). cbn [obind].
  destruct zero; cbn [obind]; [| done].
  rewrite memset_spec; [done | lia |].
  apply mapped_blit_mono. eapply mapped_sub; [exact Hmp | |]; lia.
Qed.

Lemma kmalloc_spec h size zero :
  heap_ok h -> heap_room h -> 0 < size < 2 ^ 31 -> heap_free h size ->
  let buf := kmalloc_buf_size size in
  exists pa mb', kmalloc h size zero
      = Done (pa + LINER_MAP_OFFSET + REGION_HDR,
              mkHeap mb' (blit (blit (kh_mem h) (pa + LINER_MAP_OFFSET) (le_list 8 buf))
                            (pa + LINER_MAP_OFFSET + REGION_HDR)
                            (if zero then replicate (Z.to_nat buf) 0 else [])))
    /\ memblock_phys_alloc_range (kh_mb h) (REGION_HDR + buf) 0 0 0 = Done (pa, mb') /\ pa <> 0
    /\ 0 <= pa /\ pa + REGION_HDR + buf < 2 ^ 47 + 1
    /\ abs_step (abs (kh_mb h)) (OpAlloc (REGION_HDR + buf) 0 0 0) pa (abs mb')
    /\ mb_inv mb' /\ tmax (memory mb') = tmax (memory (kh_mb h))
    /\ tmax (reserved mb') = tmax (reserved (kh_mb h)).
Proof. intros Hh. destruct (heap_ok_alloc h Hh) as [Ha Hm]. by apply kmalloc_run. Qed.

(** The allocator after [kmalloc size], when it has room and a block. *)
Definition mb_take (size : Z) (mb : memblock) : option memblock :=
  if decide (has_room (reserved mb) /\ (tcnt (reserved mb) + 4 <= tmax (reserved mb))%nat) then
    match memblock_phys_alloc_range mb (REGION_HDR + kmalloc_buf_size size) 0 0 0 with
    | Done (pa, mb') => if pa =? 0 then None else Some mb'
    | _ => None
    end
  else None.

(** An allocation that is known to succeed. *)
Lemma kmalloc_take h size mb' : alloc_ok (kh_mb h) ->
  (forall a, free_byte (kh_mb h) a -> is_Some (kh_mem h !! (a + LINER_MAP_OFFSET))) ->
  0 < size < 2 ^ 31 -> mb_take size (kh_mb h) = Some mb' ->
  let buf := kmalloc_buf_size size in
  exists pa, kmalloc h size false = Done (pa + LINER_MAP_OFFSET + REGION_HDR,
      mkHeap mb' (blit (kh_mem h) (pa + LINER_MAP_OFFSET) (le_list 8 buf)))
    /\ 0 < pa /\ pa + REGION_HDR + buf <= 2 ^ 47 /\ pa mod SMP_CACHE_BYTES = 0
    /\ (forall a, block pa (REGION_HDR + buf) a -> free_byte (kh_mb h) a)
    /\ same_set (covers (memory mb')) (covers (memory (kh_mb h)))
    /\ same_set (covers (reserved mb'))
         (fun a => covers (reserved (kh_mb h)) a \/ block pa (REGION_HDR + buf) a)
    /\ alloc_ok mb'.
Proof.
  intros Ha Hm Hs Ht buf. unfold mb_take in Ht. case_decide as Hroom; [| done].
  pose proof Ha as [Hinv [_ Hmax] Hrng].
  assert (0 < REGION_HDR + buf).
  { unfold buf. rewrite kmalloc_buf_size_spec by done. pose proof (kmalloc_align_spec size Hs) as (_ & ? & _).
    unfold REGION_HDR. lia. }
  destruct (alloc_range_spec (kh_mb h) (REGION_HDR + buf) 0 0 0)
    as (pa & mb1 & E & Hpost); try done; [by destruct Hroom | by left |].
  fold buf in Ht. rewrite E in Ht. destruct (Z.eqb_spec pa 0); [done |]. injection Ht as ->.
  destruct Hpost as [(Hne & Hc & _) | (-> & _)]; [| done].
  destruct (kmalloc_run h size false Ha Hm Hroom Hs) as (pa1 & mb2 & E1 & E2 & Hne1 & P1 & P2 & P3 & P4 & T1 & T2).
  { by exists pa. }
  fold buf in E1, E2, P2, P3. rewrite E in E2. injection E2 as <- <-.
  destruct P3 as (S1 & [[? _] | (_ & Hmod & _ & _ & Hblk & S2)]); [done |]. cbn [blit] in E1.
  exists pa. split; [exact E1 |]. split; [lia |]. split; [lia |]. split; [exact Hmod |]. split; [exact Hblk |].
  split; [exact S1 |]. split; [exact S2 |]. split; [done | by rewrite T1, T2; apply Ha |].
  intros a Hin. apply S1 in Hin. by apply Hrng.
Qed.

Lemma heap_ok_after h mb' m' :
  heap_ok h -> mb_inv mb' -> same_set (covers (memory mb')) (covers (memory (kh_mb h))) ->
  tmax (memory mb') = tmax (memory (kh_mb h)) -> tmax (reserved mb') = tmax (reserved (kh_mb h)) ->
  (forall a, is_Some (kh_mem h !! a) -> is_Some (m' !! a)) -> heap_ok (mkHeap mb' m').
Proof.
  intros [H1 H2 H3] I S T1 T2 Hm. split; cbn [kh_mb kh_mem]; [done | by rewrite T1, T2 |].
  intros a Ha. apply S in Ha. destruct (H3 a Ha). auto.
Qed.

Lemma blit_is_Some m d l a : is_Some (m !! a) -> is_Some (blit m d l !! a).
Proof.
  intros H. apply (mapped_blit_mono m d l a 1); [| lia]. intros p Hp. by replace p with a by lia.
Qed.

Lemma kmalloc_aligned_fits size p :
  0 < size < 2 ^ 31 -> 0 <= p <= 2 ^ 64 - 2 ^ 31 ->
  ALIGN_UP p (kmalloc_align size) + size <= p + kmalloc_buf_size size.
Proof.
  intros Hs Hp. destruct (kmalloc_align_spec size Hs) as (Ha & Hb & Hc).
  rewrite kmalloc_buf_size_spec by done.
  pose proof (ALIGN_UP_spec p _ Ha). lia.
Qed.

(** [kfree] reads the size from the header and releases exactly the block. *)
Lemma kfree_run h pa buf :
  alloc_ok (kh_mb h) -> 0 <= pa -> 0 <= buf < 2 ^ 34 -> pa + REGION_HDR + buf <= 2 ^ 47 ->
  cells (kh_mem h) (pa + LINER_MAP_OFFSET) (le_list 8 buf) ->
  (tcnt (reserved (kh_mb h)) + 2 <= tmax (reserved (kh_mb h)))%nat ->
  exists mb, kfree h (pa + LINER_MAP_OFFSET + REGION_HDR) = Done (mkHeap mb (kh_mem h))
    /\ memblock_phys_free dbl_array (kh_mb h) pa (REGION_HDR + buf) = Done (0, mb) /\ mb_inv mb
    /\ tmax (memory mb) = tmax (memory (kh_mb h)) /\ tmax (reserved mb) = tmax (reserved (kh_mb h))
    /\ same_set (covers (memory mb)) (covers (memory (kh_mb h)))
    /\ same_set (covers (reserved mb))
         (fun a => covers (reserved (kh_mb h)) a /\ ~ block pa (REGION_HDR + buf) a).
Proof.
  intros [Hinv [Hm1 Hm2] _] Hpa Hbuf Hend Hc Hroom.
  assert (Hok : op_ok (kh_mb h) (OpFree pa (REGION_HDR + buf))).
  { unfold op_ok, PHYS_ADDR_MAX, REGION_HDR in *. lia. }
  destruct (run_op_refines _ _ Hinv Hok) as (r & mb & E & I & (-> & S1 & S2) & T1 & T2). simpl in E.
  exists mb. split; [| split; [done |]; split; [done |]; split; [done |]; split; [done |]; split; [exact S1 |]].
  - unfold kfree. replace (pa + LINER_MAP_OFFSET + REGION_HDR - REGION_HDR)
      with (pa + LINER_MAP_OFFSET) by lia.
    rewrite (ld64_spec _ _ buf) by (done || lia). cbn [obind].
    unfold REGION_HDR in *. rewrite virt_to_phys_linear by lia.
    replace (struct_size buf) with (16 + buf) by (unfold struct_size, REGION_HDR, SIZE_MAX; lia).
    by rewrite E.
  - intros a. rewrite (S2 a). simpl. unfold in_range, block, PHYS_ADDR_MAX, REGION_HDR in *.
    rewrite Z.min_l by lia. tauto.
Qed.

Lemma kfree_spec h pa buf :
  heap_ok h -> 0 <= pa -> 0 <= buf < 2 ^ 34 -> pa + REGION_HDR + buf <= 2 ^ 47 ->
  cells (kh_mem h) (pa + LINER_MAP_OFFSET) (le_list 8 buf) ->
  (tcnt (reserved (kh_mb h)) + 2 <= tmax (reserved (kh_mb h)))%nat ->
  exists h', kfree h (pa + LINER_MAP_OFFSET + REGION_HDR) = Done h' /\ heap_ok h'
    /\ kh_mem h' = kh_mem h
    /\ same_set (covers (reserved (kh_mb h')))
         (fun a => covers (reserved (kh_mb h)) a /\ ~ block pa (REGION_HDR + buf) a).
Proof.
  intros Hh Hpa Hbuf Hend Hc Hroom. destruct (heap_ok_alloc h Hh) as [Ha _].
  destruct (kfree_run h pa buf Ha Hpa Hbuf Hend Hc Hroom) as (mb & E & _ & I & T1 & T2 & S1 & S2).
  exists (mkHeap mb (kh_mem h)). split; [done |]. split; [by apply (heap_ok_after h) |]. by split.
Qed.

(** What a successful call gives: a block that was free memory and is now
    reserved, with the size in its header, and nothing else changed. *)
Lemma kmalloc_fresh h size zero :
  heap_ok h -> heap_room h -> 0 < size < 2 ^ 31 -> heap_free h size ->
  let n := REGION_HDR + kmalloc_buf_size size in
  exists pa h', kmalloc h size zero = Done (pa + LINER_MAP_OFFSET + REGION_HDR, h') /\ heap_ok h'
    /\ 0 <= pa /\ pa + n <= 2 ^ 47 /\ pa mod SMP_CACHE_BYTES = 0
    /\ (forall a, block pa n a -> covers (memory (kh_mb h)) a /\ ~ covers (reserved (kh_mb h)) a)
    /\ same_set (covers (reserved (kh_mb h'))) (fun a => covers (reserved (kh_mb h)) a \/ block pa n a)
    /\ cells (kh_mem h') (pa + LINER_MAP_OFFSET) (le_list 8 (kmalloc_buf_size size))
    /\ (zero = true -> forall a, block (pa + LINER_MAP_OFFSET + REGION_HDR) (kmalloc_buf_size size) a ->
          kh_mem h' !! a = Some 0)
    /\ (forall a, ~ block (pa + LINER_MAP_OFFSET) n a -> kh_mem h' !! a = kh_mem h !! a).
Proof.
  intros Hh Hr Hs Hf n. destruct (kmalloc_align_spec size Hs) as (_ & Hb & Hc).
  pose proof (kmalloc_buf_size_spec size Hs) as Hbuf.
  destruct (kmalloc_spec h size zero Hh Hr Hs Hf)
    as (pa & mb' & E & _ & Hne & Hpa & Hend & (S1 & [[? _] | (_ & Hmod & _ & _ & Hblk & S2)]) & I & T1 & T2);
    [done |].
  remember (kmalloc_buf_size size) as buf eqn:Eb. cbn [abs a_memory a_reserved] in S1, S2, Hblk.
  destruct (le_list_spec 8 buf ltac:(simpl; lia)) as (_ & L1 & _).
  assert (H16 : REGION_HDR = 16) by done.
  set (m' := blit (blit (kh_mem h) _ _) _ _) in E. unfold n, block in *.
  exists pa, (mkHeap mb' m'). cbn [kh_mb kh_mem].
  split; [done |]. split.
  { apply (heap_ok_after h); try done. intros a Ha. by repeat apply blit_is_Some. }
  split; [done |]. split; [lia |]. split; [exact Hmod |]. split; [exact Hblk |]. split; [exact S2 |].
  split; [apply cells_blit_outside; [apply cells_blit | lia] |].
  split.
  - intros -> a Ha. unfold m'. rewrite blit_lookup, length_replicate.
    rewrite (proj2 (Z.leb_le _ _)), (proj2 (Z.ltb_lt _ _)) by lia.
    apply lookup_replicate. split; [done | lia].
  - assert (Hlen : len (if zero then replicate (Z.to_nat buf) 0 else []) <= buf).
    { destruct zero; [rewrite length_replicate; lia | simpl; lia]. }
    intros a Ha. unfold m'. rewrite !blit_outside; [done | lia | lia].
Qed.

(** ** A small heap *)

Definition small_mb : memblock := after memblock_init (OpAdd 0x70000000 0x400).
Definition small_heap : kheap :=
  mkHeap small_mb (blit ∅ (0x70000000 + LINER_MAP_OFFSET) (replicate (Z.to_nat 0x400) 7)).

Lemma small_mb_history : history small_mb [].
Proof.
  apply (hist_add memblock_init [] 0x70000000 0x400 0); [constructor | op_ok_tac | reflexivity].
Qed.

Lemma small_heap_ok : heap_ok small_heap.
Proof.
  split; [exact (proj1 (history_blocks _ _ small_mb_history)) | split; vm_compute; done |].
  intros a Ha. apply covered_elem in Ha as (r & Hr & Hin).
  assert (live (memory (kh_mb small_heap)) = [mkRegion 0x70000000 0x400 0 16]) as E
    by (vm_compute; reflexivity).
  rewrite E in Hr. apply list_elem_of_singleton in Hr as ->. unfold rend in Hin. simpl in Hin.
  split; [lia |]. cbn [kh_mem small_heap]. rewrite blit_lookup, length_replicate.
  rewrite (proj2 (Z.leb_le _ _)), (proj2 (Z.ltb_lt _ _)) by lia.
  apply lookup_lt_is_Some_2. rewrite length_replicate. lia.
Qed.

Lemma small_heap_free size : REGION_HDR + kmalloc_buf_size size <= 0x400 -> heap_free small_heap size.
Proof.
  intros Hs. exists 0x70000000. split; [vm_compute; done |].
  assert (He : 0x70000000 + 0x400 <= search_end (kh_mb small_heap) 0 0) by (vm_compute; done).
  split; [lia |]. split; [vm_compute; done |]. split.
  - exists 0%nat. split; [split; [vm_compute; lia | vm_compute; done] |]. split; [vm_compute; done |].
    assert (Hr : rend (region_at (memory (kh_mb small_heap)) 0) = 0x70000000 + 0x400) by (vm_compute; done).
    rewrite Hr. lia.
  - intros x _ Hx. apply covered_elem in Hx as (r & Hr & Hin).
    assert (live (reserved (kh_mb small_heap)) = []) as E by (vm_compute; reflexivity).
    rewrite E in Hr. by apply not_elem_of_nil in Hr.
Qed.

(** ** Claims *)

(** C21: with room in the allocator and a free block, [kmalloc] returns a
    buffer whose block was free memory and is now reserved, in which an
    object of the requested size fits at an address aligned to the size, all
    zero when asked; the rest of memory is unchanged; and [kfree] of that
    address reads the size back and releases exactly the block. *)
Theorem kmalloc_kfree_roundtrip h size zero :
  heap_ok h -> heap_room h -> 0 < size < 2 ^ 31 -> heap_free h size ->
  exists p pa h', kmalloc h size zero = Done (p, h') /\ heap_ok h'
    /\ let n := REGION_HDR + kmalloc_buf_size size in
       p = phys_to_virt pa + REGION_HDR
    /\ (forall a, block pa n a -> covers (memory (kh_mb h)) a /\ ~ covers (reserved (kh_mb h)) a)
    /\ same_set (covers (reserved (kh_mb h'))) (fun a => covers (reserved (kh_mb h)) a \/ block pa n a)
    /\ ALIGN_UP p (kmalloc_align size) + size <= p + kmalloc_buf_size size
    /\ (zero = true -> forall a, block p (kmalloc_buf_size size) a -> kh_mem h' !! a = Some 0)
    /\ (forall a, ~ block (phys_to_virt pa) n a -> kh_mem h' !! a = kh_mem h !! a)
    /\ ((tcnt (reserved (kh_mb h')) + 2 <= tmax (reserved (kh_mb h')))%nat ->
        exists h2, kfree h' p = Done h2 /\ heap_ok h2 /\ kh_mem h2 = kh_mem h'
          /\ same_set (covers (reserved (kh_mb h2))) (covers (reserved (kh_mb h)))).
Proof.
  intros Hh Hr Hs Hf. destruct (kmalloc_align_spec size Hs) as (_ & Hb & Hc).
  pose proof (kmalloc_buf_size_spec size Hs) as Hbuf.
  destruct (kmalloc_fresh h size zero Hh Hr Hs Hf)
    as (pa & h' & E & Hh' & Hpa & Hend & _ & Hblk & Hres & Hcells & Hzero & Hframe).
  assert (H16 : REGION_HDR = 16) by done.
  exists (pa + LINER_MAP_OFFSET + REGION_HDR), pa, h'. rewrite phys_to_virt_linear by lia. cbv zeta.
  split; [done |]. split; [done |]. split; [done |]. split; [exact Hblk |]. split; [exact Hres |].
  split. { apply kmalloc_aligned_fits; [done |]. unfold LINER_MAP_OFFSET, PAGE_OFFSET, RAM_BASE. lia. }
  split; [exact Hzero |]. split; [exact Hframe |]. intros Hroom.
  destruct (kfree_spec h' pa (kmalloc_buf_size size)) as (h2 & K1 & K2 & K3 & K4); try done; try lia.
  exists h2. split; [done |]. split; [done |]. split; [done |]. intros a. rewrite (K4 a), (Hres a).
  specialize (Hblk a). tauto.
Qed.

Lemma kmalloc_kfree_roundtrip_witness :
  exists p pa h', kmalloc small_heap 24 true = Done (p, h') /\ heap_ok h'
    /\ let n := REGION_HDR + kmalloc_buf_size 24 in
       p = phys_to_virt pa + REGION_HDR
    /\ (forall a, block pa n a ->
          covers (memory (kh_mb small_heap)) a /\ ~ covers (reserved (kh_mb small_heap)) a)
    /\ same_set (covers (reserved (kh_mb h')))
         (fun a => covers (reserved (kh_mb small_heap)) a \/ block pa n a)
    /\ ALIGN_UP p (kmalloc_align 24) + 24 <= p + kmalloc_buf_size 24
    /\ (true = true -> forall a, block p (kmalloc_buf_size 24) a -> kh_mem h' !! a = Some 0)
    /\ (forall a, ~ block (phys_to_virt pa) n a -> kh_mem h' !! a = kh_mem small_heap !! a)
    /\ ((tcnt (reserved (kh_mb h')) + 2 <= tmax (reserved (kh_mb h')))%nat ->
        exists h2, kfree h' p = Done h2 /\ heap_ok h2 /\ kh_mem h2 = kh_mem h'
          /\ same_set (covers (reserved (kh_mb h2))) (covers (reserved (kh_mb small_heap)))).
Proof.
  apply (kmalloc_kfree_roundtrip small_heap 24 true);
    [apply small_heap_ok | split; vm_compute; lia | lia | apply small_heap_free; vm_compute; done].
Defined.
