(* ===== verification/Vmap.v ===== *)
(** * Mapping physical memory: [src/src/mm/vm.c], lines 1414 to 2297

    [vmap_phys_range_noflush] builds the translation tables of a process (and
    of the kernel's virtual areas) in memory taken from the kernel heap.
    Tables are the bytes of the linear map, read and written through [ld64] and [st64], so that the
    allocation of a table, its alignment inside its buffer and the header of
    the buffer share one memory.  A [pud_t *] and the like is the virtual
    address of the entry.  TLB maintenance and barriers are not kept.

    Loops visit the entries of one table: [TABLE_FUEL] is one more than the
    number of entries. *)

From S2P Require Import Prelude Memblock CString Kmalloc PageTable.
From S2P Require Import Pte.

(** The fields of [struct memory_struct] the mapper uses; it is never NULL
    here.  [mm_pgtable_mem] is the address of the last [struct pgtable_mem]
    (its table and the address of the one before). *)
Record memory_struct := mkMm {
  mm_pg_dir : Z;
  mm_pgtable_mem : Z;
}.

Definition sizeof_pgtable_mem : Z := 16.

(** Entries. *)
Definition pxd_get (h : kheap) (p : Z) : outcome Z := ld64 (kh_mem h) p.
Definition pxd_set (h : kheap) (p e : Z) : outcome kheap :=
  let! m := st64 (kh_mem h) p e in Done (mkHeap (kh_mb h) m).

(** [pud_offset], [pmd_offset], [pte_offset_kernel]: the entry for [addr] in
    the table that the entry [e] points to. *)
Definition pxd_offset (shift e addr : Z) : Z :=
  u64 (phys_to_virt (__pte_to_phys e) + 8 * pxd_index shift addr).

(** ** Contiguous entries *)

Definition __ptep_get_and_clear_anysz (h : kheap) (ptep : Z) : outcome (Z * kheap) :=
  let! pte := pxd_get h ptep in
  let! h := pxd_set h ptep 0 in
  Done (pte, h).

(** [nr] entries from [ptep] on, the frame number advancing by [stride]
    ([nr] is at least one in every call). *)
Fixpoint __set_ptes_anysz (nr : nat) (h : kheap) (ptep pte stride : Z) : outcome kheap :=
  match nr with
  | O => Done h
  | S nr =>
      let! h := pxd_set h ptep pte in
      __set_ptes_anysz nr h (ptep + 8) (pte_advance_pfn pte stride) stride
  end.

Definition __set_ptes (h : kheap) (ptep pte : Z) (nr : nat) : outcome kheap :=
  __set_ptes_anysz nr h ptep pte 1.

Definition contpte_align_down (ptep : Z) : Z := align_mask ptep (8 * CONT_PTES).

(** The loop of [contpte_convert]. *)
Fixpoint clear_gather (n : nat) (h : kheap) (ptep pte : Z) : outcome (Z * kheap) :=
  match n with
  | O => Done (pte, h)
  | S n =>
      let! (ptent, h) := __ptep_get_and_clear_anysz h ptep in
      let pte := if pte_dirty ptent then pte_mkdirty pte else pte in
      let pte := if pte_young ptent then pte_mkyoung pte else pte in
      clear_gather n h (ptep + 8) pte
  end.

Definition contpte_convert (h : kheap) (ptep pte : Z) : outcome kheap :=
  let ptep := contpte_align_down ptep in
  let pte := pfn_pte (align_mask (pte_pfn pte) CONT_PTES) (pte_pgprot pte) in
  let! (pte, h) := clear_gather (Z.to_nat CONT_PTES) h ptep pte in
  __set_ptes h ptep pte (Z.to_nat CONT_PTES).

Definition __contpte_try_unfold (h : kheap) (ptep pte : Z) : outcome kheap :=
  contpte_convert h ptep (pte_mknoncont pte).

Definition contpte_try_unfold (h : kheap) (ptep pte : Z) : outcome kheap :=
  if pte_valid_cont pte then __contpte_try_unfold h ptep pte else Done h.

(** The loop of [__contpte_try_fold]: do the entries from [ptep] on agree
    with [expected], up to the access and dirty bits? *)
Fixpoint fold_matches (n : nat) (h : kheap) (ptep expected : Z) : outcome bool :=
  match n with
  | O => Done true
  | S n =>
      let! e := pxd_get h ptep in
      if pte_mkold (pte_mkclean e) =? expected
      then fold_matches n h (ptep + 8) (pte_advance_pfn expected 1)
      else Done false
  end.

Definition __contpte_try_fold (h : kheap) (ptep pte : Z) : outcome kheap :=
  let pfn := align_mask (pte_pfn pte) CONT_PTES in
  let prot := pte_pgprot (pte_mkold (pte_mkclean pte)) in
  let! same := fold_matches (Z.to_nat CONT_PTES) h (contpte_align_down ptep) (pfn_pte pfn prot) in
  if same then contpte_convert h ptep (pte_mkcont pte) else Done h.

Definition contpte_try_fold (h : kheap) (addr ptep pte : Z) : outcome kheap :=
  let contmask := CONT_PTES - 1 in
  let valign := Z.land (Z.shiftr addr PAGE_SHIFT) contmask =? contmask in
  let palign := Z.land (pte_pfn pte) contmask =? contmask in
  if valign && palign && pte_valid pte && negb (pte_cont pte) && negb (pte_special pte)
  then __contpte_try_fold h ptep pte
  else Done h.

(** [contpte_set_ptes] returns after its call of [__set_ptes]: what follows
    it is never reached. *)
Definition contpte_set_ptes (h : kheap) (ptep pte : Z) (nr : nat) : outcome kheap :=
  __set_ptes h ptep pte nr.

Definition set_ptes (h : kheap) (addr ptep pte : Z) (nr : nat) : outcome kheap :=
  let pte := pte_mknoncont pte in
  if (nr =? 1)%nat then
    let! old := pxd_get h ptep in
    let! h := contpte_try_unfold h ptep old in
    let! h := __set_ptes h ptep pte 1 in
    contpte_try_fold h addr ptep pte
  else contpte_set_ptes h ptep pte nr.

Definition set_pte_at (h : kheap) (addr ptep pte : Z) : outcome kheap := set_ptes h addr ptep pte 1.

(** [contpte_ptep_get]: the loops over the rest of the block once a dirty
    entry (from the same entry on) or a young one (from the next) is found. *)
Fixpoint gather_young (n : nat) (h : kheap) (ptep orig : Z) : outcome Z :=
  match n with
  | O => Done orig
  | S n => let! pte := pxd_get h ptep in
           if pte_young pte then Done (pte_mkyoung orig) else gather_young n h (ptep + 8) orig
  end.

Fixpoint gather_dirty (n : nat) (h : kheap) (ptep orig : Z) : outcome Z :=
  match n with
  | O => Done orig
  | S n => let! pte := pxd_get h ptep in
           if pte_dirty pte then Done (pte_mkdirty orig) else gather_dirty n h (ptep + 8) orig
  end.

Fixpoint contpte_gather (n : nat) (h : kheap) (ptep orig : Z) : outcome Z :=
  match n with
  | O => Done orig
  | S n' =>
      let! pte := pxd_get h ptep in
      if pte_dirty pte then gather_young n h ptep (pte_mkdirty orig)
      else if pte_young pte then gather_dirty n' h (ptep + 8) (pte_mkyoung orig)
      else contpte_gather n' h (ptep + 8) orig
  end.

Definition contpte_ptep_get (h : kheap) (ptep orig : Z) : outcome Z :=
  contpte_gather (Z.to_nat CONT_PTES) h (contpte_align_down ptep) orig.

Definition ptep_get (h : kheap) (ptep : Z) : outcome Z :=
  let! pte := pxd_get h ptep in
  if negb (pte_valid_cont pte) then Done pte else contpte_ptep_get h ptep pte.

Definition ptep_get_and_clear (h : kheap) (ptep : Z) : outcome (Z * kheap) :=
  let! pte := pxd_get h ptep in
  let! h := contpte_try_unfold h ptep pte in
  __ptep_get_and_clear_anysz h ptep.

(** ** Block-sized entries *)

(** [num_contig_ptes]: the number of entries and the size each maps. *)
Definition num_contig_ptes (size : Z) : Z * Z :=
  if size =? CONT_PMD_SIZE then (CONT_PMDS, PMD_SIZE)
  else if size =? CONT_PTE_SIZE then (CONT_PTES, PAGE_SIZE)
  else (1, size).

(** [arch_make_huge_pte]; a size it does not know leaves the entry as it is. *)
Definition arch_make_huge_pte (entry pagesize : Z) : Z :=
  if pagesize =? PUD_SIZE then pxd_mkhuge entry
  else if pagesize =? CONT_PMD_SIZE then pxd_mkhuge (Z.lor entry PTE_CONT)
  else if pagesize =? PMD_SIZE then pxd_mkhuge entry
  else if pagesize =? CONT_PTE_SIZE then pte_mkcont entry
  else entry.

Fixpoint clear_flush (ncontig : nat) (h : kheap) (ptep : Z) : outcome kheap :=
  match ncontig with
  | O => Done h
  | S n => let! (_, h) := __ptep_get_and_clear_anysz h ptep in clear_flush n h (ptep + 8)
  end.

(** The loop of [set_huge_pte_at] for an entry that is not present. *)
Fixpoint set_each (n : nat) (h : kheap) (ptep pte : Z) : outcome kheap :=
  match n with
  | O => Done h
  | S n => let! h := pxd_set h ptep pte in set_each n h (ptep + 8) pte
  end.

Definition set_huge_pte_at (h : kheap) (ptep pte sz : Z) : outcome kheap :=
  let '(ncontig, pgsize) := num_contig_ptes sz in
  if negb (pte_present pte) then set_each (Z.to_nat ncontig) h ptep pte
  else
    let! old := pxd_get h ptep in
    let! h := if pte_cont pte && pte_valid old then clear_flush (Z.to_nat ncontig) h ptep else Done h in
    __set_ptes_anysz (Z.to_nat ncontig) h ptep pte (Z.shiftr pgsize PAGE_SHIFT).

(** The loop of [get_clear_contig] after the first entry. *)
Fixpoint get_clear_rest (n : nat) (h : kheap) (ptep pte : Z) (present : bool) : outcome (Z * kheap) :=
  match n with
  | O => Done (pte, h)
  | S n =>
      let! (tmp, h) := __ptep_get_and_clear_anysz h ptep in
      let pte := if present && pte_dirty tmp then pte_mkdirty pte else pte in
      let pte := if present && pte_young tmp then pte_mkyoung pte else pte in
      get_clear_rest n h (ptep + 8) pte present
  end.

Definition huge_ptep_get_and_clear (h : kheap) (ptep sz : Z) : outcome (Z * kheap) :=
  let '(ncontig, _) := num_contig_ptes sz in
  let! (pte, h) := __ptep_get_and_clear_anysz h ptep in
  get_clear_rest (Z.to_nat ncontig - 1) h (ptep + 8) pte (pte_present pte).

(** ** Tables *)

Definition mm_record_pgtable (mm : memory_struct) (h : kheap) (table : Z)
    : outcome (Z * memory_struct * kheap) :=
  let! (node, h) := kmalloc h sizeof_pgtable_mem false in
  if node =? 0 then Done (- ENOMEM, mm, h)
  else
    let! h := pxd_set h node table in
    let! h := pxd_set h (node + 8) (mm_pgtable_mem mm) in
    Done (0, mkMm (mm_pg_dir mm) node, h).

(** [pud_alloc_one], [pmd_alloc_one] and [pte_alloc_one]: a zeroed page, or 0. *)
Definition table_alloc_one (mm : memory_struct) (h : kheap) : outcome (Z * memory_struct * kheap) :=
  let! (new, h) := kmalloc h PAGE_SIZE true in
  if new =? 0 then Done (0, mm, h)
  else
    let! (err, mm, h) := mm_record_pgtable mm h new in
    if negb (err =? 0) then let! h := kfree h new in Done (0, mm, h)
    else
      let new := if negb (IS_ALIGNED new PAGE_SIZE) then ALIGN_UP new PAGE_SIZE else new in
      Done (new, mm, h).

(** [pgd_present] is "not none"; [pud_present] and [pmd_present] are
    [pte_present]. *)
Definition pgd_present (e : Z) : bool := negb (pte_none e).

(** [__pud_alloc], [__pmd_alloc] and [__pte_alloc]: link a new table unless
    the entry is present; [prot] is what the populate function of the level
    sets besides the address. *)
Definition __pxd_alloc (present : Z -> bool) (prot : Z) (mm : memory_struct) (h : kheap) (pxd : Z)
    : outcome (Z * memory_struct * kheap) :=
  let! e := pxd_get h pxd in
  if present e then Done (0, mm, h)
  else
    let! (new, mm, h) := table_alloc_one mm h in
    if new =? 0 then Done (- ENOMEM, mm, h)
    else
      let! h := pxd_set h pxd (Z.lor (virt_to_phys new) prot) in
      Done (0, mm, h).

Definition __pud_alloc := __pxd_alloc pgd_present (Z.lor PXD_TYPE_TABLE PXD_TABLE_AF).
Definition __pmd_alloc := __pxd_alloc pte_present (Z.lor PXD_TYPE_TABLE PXD_TABLE_AF).
Definition __pte_alloc :=
  __pxd_alloc pte_present (Z.lor (Z.lor PXD_TYPE_TABLE PXD_TABLE_AF) PMD_TABLE_PXN).

(** [pud_alloc_track], [pmd_alloc_track] and [pte_alloc_kernel_track]: the
    entry for [addr] in the table of the level below (of shift [shift]), or 0. *)
Definition pxd_alloc_track (alloc : memory_struct -> kheap -> Z -> outcome (Z * memory_struct * kheap))
    (shift : Z) (mm : memory_struct) (h : kheap) (pxd addr : Z) : outcome (Z * memory_struct * kheap) :=
  let! e := pxd_get h pxd in
  let! (err, mm, h) := if pte_none e then alloc mm h pxd else Done (0, mm, h) in
  if negb (err =? 0) then Done (0, mm, h)
  else let! e := pxd_get h pxd in Done (pxd_offset shift e addr, mm, h).

Definition pud_alloc_track := pxd_alloc_track __pud_alloc PUD_SHIFT.
Definition pmd_alloc_track := pxd_alloc_track __pmd_alloc PMD_SHIFT.
Definition pte_alloc_kernel_track := pxd_alloc_track __pte_alloc PAGE_SHIFT.

Definition pmd_free_pte_page (h : kheap) (pmdp addr : Z) : outcome (Z * kheap) :=
  let! pmd := pxd_get h pmdp in
  if negb (pxd_table pmd) then Done (1, h)
  else
    let! h := pxd_set h pmdp 0 in
    let! h := kfree h (pxd_offset PAGE_SHIFT pmd addr) in
    Done (1, h).

(** The loop of [pud_free_pmd_page]; [end] is one [PMD_SIZE] after the start. *)
Fixpoint free_pte_pages (fuel : nat) (h : kheap) (pmdp next end_ : Z) : outcome kheap :=
  match fuel with
  | O => Fuel
  | S fuel =>
      let! pmd := pxd_get h pmdp in
      let! h := if pte_present pmd then let! (_, h) := pmd_free_pte_page h pmdp next in Done h else Done h in
      let next := u64 (next + PMD_SIZE) in
      if next =? end_ then Done h else free_pte_pages fuel h (pmdp + 8) next end_
  end.

Definition pud_free_pmd_page (h : kheap) (pudp addr : Z) : outcome (Z * kheap) :=
  let! pud := pxd_get h pudp in
  if negb (pxd_table pud) then Done (1, h)
  else
    let table := pxd_offset PMD_SHIFT pud addr in
    let! h := free_pte_pages TABLE_FUEL h table addr (u64 (addr + PMD_SIZE)) in
    let! h := pxd_set h pudp 0 in
    let! h := kfree h table in
    Done (1, h).

(** [pud_set_huge] and [pmd_set_huge] of [mmu.c]; only the second asserts
    that the address is aligned. *)
Definition pud_set_huge (h : kheap) (pudp phys prot : Z) : outcome (Z * kheap) :=
  let new := pfn_pte (Z.shiftr phys PAGE_SHIFT) (mk_sect_prot prot) in
  let! old := pxd_get h pudp in
  if negb (pgattr_change_is_safe old new) then Done (0, h)
  else let! h := pxd_set h pudp new in Done (1, h).

Definition pmd_set_huge (h : kheap) (pmdp phys prot : Z) : outcome (Z * kheap) :=
  let new := pfn_pte (Z.shiftr phys PAGE_SHIFT) (mk_sect_prot prot) in
  let! old := pxd_get h pmdp in
  if negb (pgattr_change_is_safe old new) then Done (0, h)
  else if negb (IS_ALIGNED phys PMD_SIZE) then Bug
  else let! h := pxd_set h pmdp new in Done (1, h).

(** [vmap_try_huge_pud] and [vmap_try_huge_pmd]. *)
Definition vmap_try_huge (size : Z) (free : kheap -> Z -> Z -> outcome (Z * kheap))
    (set_huge : kheap -> Z -> Z -> Z -> outcome (Z * kheap))
    (h : kheap) (pxd addr end_ phys prot : Z) : outcome (Z * kheap) :=
  if negb (u64 (end_ - addr) =? size) then Done (0, h)
  else if negb (IS_ALIGNED addr size) then Done (0, h)
  else if negb (IS_ALIGNED phys size) then Done (0, h)
  else
    let! e := pxd_get h pxd in
    let! (ok, h) := if pte_present e then free h pxd addr else Done (1, h) in
    if ok =? 0 then Done (0, h) else set_huge h pxd phys prot.

Definition vmap_try_huge_pud := vmap_try_huge PUD_SIZE pud_free_pmd_page pud_set_huge.
Definition vmap_try_huge_pmd := vmap_try_huge PMD_SIZE pmd_free_pte_page pmd_set_huge.

(** ** Mapping *)

(** [arch_vmap_pte_range_map_size]. *)
Definition arch_vmap_pte_range_map_size (addr end_ pfn : Z) : Z :=
  if u64 (end_ - addr) <? CONT_PTE_SIZE then PAGE_SIZE
  else if negb (IS_ALIGNED addr CONT_PTE_SIZE) then PAGE_SIZE
  else if negb (IS_ALIGNED (u64 (Z.shiftl pfn PAGE_SHIFT)) CONT_PTE_SIZE) then PAGE_SIZE
  else CONT_PTE_SIZE.

(** The [do ... while] loop of [vmap_pte_range].  [arch_make_huge_pte] is
    given the logarithm of the size. *)
Fixpoint vmap_pte_loop (fuel : nat) (h : kheap) (pte addr end_ pfn prot : Z) : outcome kheap :=
  match fuel with
  | O => Fuel
  | S fuel =>
      let! old := ptep_get h pte in
      if negb (pte_none old) then Bug
      else
        let size := arch_vmap_pte_range_map_size addr end_ pfn in
        let! (h, pfn) :=
          if negb (size =? PAGE_SIZE) then
            let entry := arch_make_huge_pte (pfn_pte pfn prot) (Z.log2 size) in
            let! h := set_huge_pte_at h pte entry size in
            Done (h, u64 (pfn + Z.shiftr size PAGE_SHIFT))
          else
            let! h := set_pte_at h addr pte (pfn_pte pfn prot) in
            Done (h, u64 (pfn + 1)) in
        let addr := u64 (addr + size) in
        if addr <? end_ then vmap_pte_loop fuel h (pte + 8 * Z.shiftr size PAGE_SHIFT) addr end_ pfn prot
        else Done h
  end.

(** What a mapping function of a level returns. *)
Definition vmap_fn : Type :=
  memory_struct -> kheap -> Z -> Z -> Z -> Z -> Z -> outcome (Z * memory_struct * kheap).

Definition vmap_pte_range : vmap_fn := fun mm h pmd addr end_ phys prot =>
  let pfn := Z.shiftr phys PAGE_SHIFT in
  let! (pte, mm, h) := pte_alloc_kernel_track mm h pmd addr in
  if pte =? 0 then Done (- ENOMEM, mm, h)
  else
    let! h := vmap_pte_loop TABLE_FUEL h pte addr end_ pfn prot in
    Done (0, mm, h).

(** The [do ... while] loops of [vmap_pmd_range] and [vmap_pud_phys_range]:
    a block if possible, else the level below. *)
Fixpoint vmap_loop (fuel : nat) (size : Z)
    (huge : kheap -> Z -> Z -> Z -> Z -> Z -> outcome (Z * kheap)) (next_fn : vmap_fn)
    (mm : memory_struct) (h : kheap) (pxd addr end_ phys prot : Z) : outcome (Z * memory_struct * kheap) :=
  match fuel with
  | O => Fuel
  | S fuel =>
      let next := addr_end size addr end_ in
      let! (done, h) := huge h pxd addr next phys prot in
      let! (err, mm, h) :=
        if negb (done =? 0) then Done (0, mm, h) else next_fn mm h pxd addr next phys prot in
      if negb (err =? 0) then Done (- ENOMEM, mm, h)
      else
        let phys := u64 (phys + u64 (next - addr)) in
        if next =? end_ then Done (0, mm, h)
        else vmap_loop fuel size huge next_fn mm h (pxd + 8) next end_ phys prot
  end.

Definition vmap_pmd_range : vmap_fn := fun mm h pud addr end_ phys prot =>
  let! (pmd, mm, h) := pmd_alloc_track mm h pud addr in
  if pmd =? 0 then Done (- ENOMEM, mm, h)
  else vmap_loop TABLE_FUEL PMD_SIZE vmap_try_huge_pmd vmap_pte_range mm h pmd addr end_ phys prot.

Definition vmap_pud_phys_range : vmap_fn := fun mm h pgd addr end_ phys prot =>
  let! (pud, mm, h) := pud_alloc_track mm h pgd addr in
  if pud =? 0 then Done (- ENOMEM, mm, h)
  else vmap_loop TABLE_FUEL PUD_SIZE vmap_try_huge_pud vmap_pmd_range mm h pud addr end_ phys prot.

Fixpoint vmap_pgd_loop (fuel : nat) (mm : memory_struct) (h : kheap) (pgd virt end_ phys prot : Z)
    : outcome (Z * memory_struct * kheap) :=
  match fuel with
  | O => Fuel
  | S fuel =>
      let next := addr_end PGDIR_SIZE virt end_ in
      let! (err, mm, h) := vmap_pud_phys_range mm h pgd virt next phys prot in
      if negb (err =? 0) then Done (err, mm, h)
      else
        let phys := u64 (phys + u64 (next - virt)) in
        if next =? end_ then Done (err, mm, h)
        else vmap_pgd_loop fuel mm h (pgd + 8) next end_ phys prot
  end.

(** The directory is entered at its first entry, whatever [virt] is. *)
Definition vmap_phys_range_noflush (mm : memory_struct) (h : kheap) (phys virt size prot : Z)
    : outcome (Z * memory_struct * kheap) :=
  vmap_pgd_loop TABLE_FUEL mm h (mm_pg_dir mm) virt (u64 (virt + size)) phys prot.
