(* ===== verification/VmapHeap.v ===== *)
(** * The heap under the mapper

    The words of the linear map, the heap blocks the mapper takes, and the
    effect of one allocation of a table: a fresh zeroed page, every table
    and every other live byte unchanged. *)

From S2P Require Import Prelude Memblock MemblockList MemblockArray MemblockRange MemblockFree.
From S2P Require Import MemblockSearch MemblockAlloc CString CStringSpec Kmalloc PageTable PageTableMap.
From S2P Require Import Pte PtTree PteDesc Vmap.

(** ** Words of the linear map *)

(** The word at a physical address. *)
Definition wd (h : kheap) (a : Z) : Z :=
  match ld64 (kh_mem h) (a + LINER_MAP_OFFSET) with Done v => v | _ => 0 end.

Lemma mapped_cells_ex m a n : (forall p, a <= p < a + Z.of_nat n -> is_Some (m !! p)) ->
  exists l, length l = n /\ cells m a l.
Proof.
  revert a. induction n as [|n IH]; intros a Hm.
  - exists []. split; [done |]. intros i x Hi. by rewrite lookup_nil in Hi.
  - destruct (Hm a ltac:(lia)) as [x Hx]. destruct (IH (a + 1)) as (l & Hl & Hc); [intros p Hp; apply Hm; lia |].
    exists (x :: l). split; [simpl; lia |]. by apply cells_cons.
Qed.

Lemma ld64_mapped m a : mapped m a 8 -> exists v, ld64 m a = Done v.
Proof.
  intros Hm. destruct (mapped_cells_ex m a 8 Hm) as (l & Hl & Hc).
  exists (le_val l). unfold ld64. rewrite <- Hl. by apply ld_le_cells.
Qed.

Lemma ld_le_ext n : forall m m' a,
  (forall p, a <= p < a + Z.of_nat n -> m' !! p = m !! p) -> ld_le n m' a = ld_le n m a.
Proof.
  induction n as [|n IH]; intros m m' a H; cbn [ld_le]; [done |].
  unfold ld. rewrite H by lia. destruct (m !! a); [| done]. cbn [obind].
  rewrite (IH m m'); [done |]. intros p Hp. apply H. lia.
Qed.

Lemma wd_ext h h' a :
  (forall p, a <= p < a + 8 -> kh_mem h' !! (p + LINER_MAP_OFFSET) = kh_mem h !! (p + LINER_MAP_OFFSET)) ->
  wd h' a = wd h a.
Proof.
  intros H. unfold wd, ld64. rewrite (ld_le_ext 8 (kh_mem h) (kh_mem h')); [done |].
  intros p Hp. specialize (H (p - LINER_MAP_OFFSET)). rewrite Z.sub_add in H. apply H. lia.
Qed.

Lemma pxd_get_wd h a :
  mapped (kh_mem h) (a + LINER_MAP_OFFSET) 8 -> pxd_get h (a + LINER_MAP_OFFSET) = Done (wd h a).
Proof. intros Hm. unfold pxd_get, wd. by destruct (ld64_mapped _ _ Hm) as (v & ->). Qed.

(** A store: the word, the other bytes, what stays mapped. *)
Lemma pxd_set_wd h a e :
  mapped (kh_mem h) (a + LINER_MAP_OFFSET) 8 -> 0 <= e < 2 ^ 64 ->
  exists h', pxd_set h (a + LINER_MAP_OFFSET) e = Done h' /\ kh_mb h' = kh_mb h /\ wd h' a = e
    /\ (forall p, p < a \/ a + 8 <= p ->
          kh_mem h' !! (p + LINER_MAP_OFFSET) = kh_mem h !! (p + LINER_MAP_OFFSET))
    /\ (forall p, is_Some (kh_mem h !! p) -> is_Some (kh_mem h' !! p)).
Proof.
  intros Hm He. destruct (le_list_spec 8 e He) as (_ & Hl & _).
  unfold pxd_set. rewrite st64_spec by done. cbn [obind].
  eexists. split; [reflexivity |]. cbn [kh_mb kh_mem]. split; [done |]. split; [| split].
  - unfold wd. cbn [kh_mem]. rewrite (ld64_spec _ _ e); [done | done | apply cells_blit].
  - intros p Hp. apply blit_outside. rewrite Hl. lia.
  - intros p Hp. by apply blit_is_Some.
Qed.

Lemma wd_other h h' a b :
  (forall p, p < a \/ a + 8 <= p -> kh_mem h' !! (p + LINER_MAP_OFFSET) = kh_mem h !! (p + LINER_MAP_OFFSET)) ->
  b + 8 <= a \/ a + 8 <= b -> wd h' b = wd h b.
Proof. intros H Hb. apply wd_ext. intros p Hp. apply H. lia. Qed.

(** ** Taking blocks *)

(** After [n] allocations of a table and of its record. *)
Fixpoint takes (n : nat) (mb : memblock) : option memblock :=
  match n with
  | O => Some mb
  | S n => mb1 ← mb_take PAGE_SIZE mb; mb2 ← mb_take sizeof_pgtable_mem mb1; takes n mb2
  end.

Definition supply (n : nat) (mb : memblock) : Prop := is_Some (takes n mb).

Lemma takes_add j : forall k mb, takes (j + k) mb = (takes j mb ≫= takes k).
Proof.
  induction j as [|j IH]; intros k mb; cbn [takes Nat.add]; [done |].
  destruct (mb_take PAGE_SIZE mb) as [mb1|]; cbn; [| done].
  destruct (mb_take sizeof_pgtable_mem mb1) as [mb2|]; cbn; [apply IH | done].
Qed.

Lemma takes_trans j k mb mb1 mb2 : takes j mb = Some mb1 -> takes k mb1 = Some mb2 -> takes (j + k) mb = Some mb2.
Proof. intros H1 H2. rewrite takes_add, H1. done. Qed.

Lemma supply_after j n mb mb' : takes j mb = Some mb' -> supply n mb -> (j <= n)%nat -> supply (n - j) mb'.
Proof.
  intros H [x Hx] Hj. replace n with (j + (n - j))%nat in Hx by lia. rewrite takes_add, H in Hx.
  cbn in Hx. by exists x.
Qed.

Lemma supply_le j n mb : supply n mb -> (j <= n)%nat -> supply j mb.
Proof.
  intros [x Hx] Hj. replace n with (j + (n - j))%nat in Hx by lia. rewrite takes_add in Hx.
  destruct (takes j mb) as [y|] eqn:E; [by exists y | done].
Qed.

(** [kmalloc_fresh], naming the allocator it leaves. *)
Lemma kmalloc_taken h size zero mb' :
  heap_ok h -> 0 < size < 2 ^ 31 -> mb_take size (kh_mb h) = Some mb' ->
  let n := REGION_HDR + kmalloc_buf_size size in
  exists pa h', kmalloc h size zero = Done (pa + LINER_MAP_OFFSET + REGION_HDR, h') /\ heap_ok h'
    /\ kh_mb h' = mb' /\ 0 <= pa /\ pa + n <= 2 ^ 47 /\ pa mod SMP_CACHE_BYTES = 0
    /\ (forall a, block pa n a -> covers (memory (kh_mb h)) a /\ ~ covers (reserved (kh_mb h)) a)
    /\ same_set (covers (memory (kh_mb h'))) (covers (memory (kh_mb h)))
    /\ same_set (covers (reserved (kh_mb h'))) (fun a => covers (reserved (kh_mb h)) a \/ block pa n a)
    /\ (zero = true -> forall a, block (pa + LINER_MAP_OFFSET + REGION_HDR) (kmalloc_buf_size size) a ->
          kh_mem h' !! a = Some 0)
    /\ (forall a, ~ block (pa + LINER_MAP_OFFSET) n a -> kh_mem h' !! a = kh_mem h !! a).
Proof.
  intros Hh Hs Ht n. unfold mb_take in Ht. case_decide as Hroom; [| done].
  pose proof Hh as [Hinv [_ Hmax] _].
  assert (0 < REGION_HDR + kmalloc_buf_size size).
  { rewrite kmalloc_buf_size_spec by done. pose proof (kmalloc_align_spec size Hs) as (_ & ? & _).
    unfold REGION_HDR. lia. }
  destruct (alloc_range_spec (kh_mb h) (REGION_HDR + kmalloc_buf_size size) 0 0 0)
    as (pa & mb1 & E & Hpost); try done; [by destruct Hroom | by left |].
  rewrite E in Ht. destruct (Z.eqb_spec pa 0); [done |]. injection Ht as ->.
  destruct Hpost as [(Hne & Hc & _ & _ & Hmem & _) | (-> & _)]; [| done].
  assert (Hf : heap_free h size) by (by exists pa).
  destruct (kmalloc_spec h size zero Hh Hroom Hs Hf) as (pa1 & mb2 & E1 & E2 & _).
  rewrite E in E2. injection E2 as <- <-.
  destruct (kmalloc_fresh h size zero Hh Hroom Hs Hf) as (pa2 & h' & E2 & Hh' & P1 & P2 & P3 & P4 & P5 & _ & P6 & P7).
  rewrite E1 in E2. injection E2 as Hpa <-. assert (pa2 = pa) as -> by lia.
  exists pa. eexists. split; [exact E1 |]. split; [exact Hh' |]. cbn [kh_mb] in *.
  repeat (split; [done |]). split; [by rewrite Hmem |]. done.
Qed.

(** ** Steps of the heap *)

Definition in_page (b a : Z) : Prop := b <= a < b + 4096.

(** Every table is memory the allocator has handed out. *)
Record tabs_ok (T : tables) (h : kheap) : Prop := {
  to_heap : heap_ok h;
  to_live : forall b x a, T !! b = Some x -> in_page b a ->
    covers (memory (kh_mb h)) a /\ covers (reserved (kh_mb h)) a;
}.

(** From [h] to [h']: tables are added in memory that was free, what was
    live stays live and, outside the tables, unchanged, and so is what the
    allocator does not manage. *)
Record hstep (T : tables) (h : kheap) (T' : tables) (h' : kheap) : Prop := {
  hs_tabs : tabs_ok T' h';
  hs_sub : forall b x, T !! b = Some x -> T' !! b = Some x;
  hs_memory : same_set (covers (memory (kh_mb h'))) (covers (memory (kh_mb h)));
  hs_live : forall a, covers (reserved (kh_mb h)) a -> covers (reserved (kh_mb h')) a;
  hs_new : forall b x a, T' !! b = Some x -> T !! b = None -> in_page b a ->
    ~ covers (reserved (kh_mb h)) a;
  hs_frame : forall a, covers (reserved (kh_mb h)) a ->
    (forall b x, T !! b = Some x -> ~ in_page b a) ->
    kh_mem h' !! (a + LINER_MAP_OFFSET) = kh_mem h !! (a + LINER_MAP_OFFSET);
  hs_out : forall a, ~ covers (memory (kh_mb h)) a ->
    kh_mem h' !! (a + LINER_MAP_OFFSET) = kh_mem h !! (a + LINER_MAP_OFFSET);
}.

Lemma hstep_refl T h : tabs_ok T h -> hstep T h T h.
Proof. intros H. split; try done. congruence. Qed.

Lemma hstep_trans T h T1 h1 T2 h2 : hstep T h T1 h1 -> hstep T1 h1 T2 h2 -> hstep T h T2 h2.
Proof.
  intros [A1 A2 A3 A4 A5 A6 A7] [B1 B2 B3 B4 B5 B6 B7]. split.
  - done.
  - auto.
  - by rewrite B3.
  - auto.
  - intros b x a Hb Hno Ha Hc. destruct (T1 !! b) as [y|] eqn:E; [by apply (A5 b y a) |].
    apply (B5 b x a); auto.
  - intros a Ha Hno. rewrite B6, A6; auto. intros b x Hb Hp.
    destruct (T !! b) as [y|] eqn:E; [by apply (Hno b y) |]. by apply (A5 b x a).
  - intros a Ha. rewrite B7, A7; [done | done |]. by rewrite (A3 a).
Qed.

Lemma table_mapped T h b x i : tabs_ok T h -> T !! b = Some x -> 0 <= i < 512 ->
  mapped (kh_mem h) (b + 8 * i + LINER_MAP_OFFSET) 8.
Proof.
  intros [Hh Hl] Hb Hi p Hp. replace p with (p - LINER_MAP_OFFSET + LINER_MAP_OFFSET) by lia.
  apply (ho_mapped _ Hh). apply (Hl b x); [done |]. unfold in_page. lia.
Qed.

Lemma entry_get T h b x i : tabs_ok T h -> T !! b = Some x -> 0 <= i < 512 ->
  pxd_get h (b + 8 * i + LINER_MAP_OFFSET) = Done (wd h (b + 8 * i)).
Proof. intros Ht Hb Hi. apply pxd_get_wd. by eapply table_mapped. Qed.

(** Writing an entry of a table. *)
Definition paged (T : tables) : Prop := forall b k p, T !! b = Some (k, p) -> b mod 4096 = 0.

Lemma tree_paged T r : tree T r -> paged T.
Proof. intros Ht b k p Hb. apply (tr_page _ _ Ht _ _ _ Hb). Qed.

Lemma entry_set T h b k p i e :
  paged T -> tabs_ok T h -> T !! b = Some (k, p) -> 0 <= i < 512 -> 0 <= e < 2 ^ 64 ->
  exists h', pxd_set h (b + 8 * i + LINER_MAP_OFFSET) e = Done h' /\ kh_mb h' = kh_mb h
    /\ hstep T h T h' /\ agree_but T b i (wd h) (wd h') /\ wd h' (b + 8 * i) = e.
Proof.
  intros Ht Hok Hb Hi He. pose proof (table_mapped _ _ _ _ _ Hok Hb Hi) as Hm.
  destruct (pxd_set_wd h (b + 8 * i) e Hm He) as (h' & -> & Emb & Ew & Hout & Hsome).
  exists h'. pose proof Hok as [Hh Hl].
  split; [done |]. split; [done |]. split; [| split; [| done]].
  - split; rewrite ?Emb; try done; [| congruence | |].
    + split; [| by rewrite Emb]. destruct h' as [mb' m']. cbn [kh_mb kh_mem] in *. subst mb'.
      apply (heap_ok_after h); [done | apply Hh | done | done | done | done].
    + intros a Ha Hno. apply Hout.
      pose proof (Hno b _ Hb) as Hp. unfold in_page in Hp. lia.
    + intros a Ha. apply Hout. destruct (decide (a < b + 8 * i \/ b + 8 * i + 8 <= a)) as [| Hin]; [done |].
      destruct Ha. apply (Hl b (k, p)); [done | unfold in_page; lia].
  - intros c k' q j Hc Hj Hne. apply (wd_other h h' (b + 8 * i)); [done |].
    destruct (Z.eq_dec c b) as [-> | Hcb]; [lia |].
    pose proof (Ht _ _ _ Hb) as P1. pose proof (Ht _ _ _ Hc) as P2.
    pose proof (Z.div_mod b 4096). pose proof (Z.div_mod c 4096). lia.
Qed.

(** ** A new table *)

Definition OFFSET_VAL : LINER_MAP_OFFSET = 2 ^ 64 - 2 ^ 48 - 0x40000000 := eq_refl.

Definition mm_ok (mm : memory_struct) : Prop := 0 <= mm_pgtable_mem mm < 2 ^ 64.

(** The page inside the buffer of a table: the buffer starts 16 bytes into a
    block aligned to a cache line, so never at a page. *)
Definition page_in (pa : Z) : Z := ALIGN_UP (pa + LINER_MAP_OFFSET + REGION_HDR) PAGE_SIZE - LINER_MAP_OFFSET.

Lemma page_in_spec pa :
  0 <= pa < 2 ^ 47 -> pa mod SMP_CACHE_BYTES = 0 ->
  IS_ALIGNED (pa + LINER_MAP_OFFSET + REGION_HDR) PAGE_SIZE = false
  /\ page_in pa mod 4096 = 0 /\ pa + 16 < page_in pa < pa + 16 + 4096.
Proof.
  intros Hp Hm. unfold SMP_CACHE_BYTES in Hm. pose proof OFFSET_VAL as Ho.
  assert (Ho' : LINER_MAP_OFFSET = 4096 * (LINER_MAP_OFFSET / 4096)) by reflexivity.
  set (new := pa + LINER_MAP_OFFSET + REGION_HDR).
  assert (En : new = pa + LINER_MAP_OFFSET + 16) by reflexivity.
  assert (Hn : new mod 64 = 16).
  { rewrite En, Ho'. replace (pa + 4096 * (LINER_MAP_OFFSET / 4096) + 16)
      with (16 + pa + (64 * (LINER_MAP_OFFSET / 4096)) * 64) by lia.
    rewrite Z_mod_plus_full, Z.add_mod, Hm by lia. reflexivity. }
  assert (Hn4 : new mod 4096 <> 0).
  { intros E. apply Z.mod_divide in E as [q Eq]; [| lia]. rewrite Eq in Hn.
    replace (q * 4096) with (q * 64 * 64) in Hn by lia. rewrite Z.mod_mul in Hn by lia. done. }
  assert (Hal : IS_ALIGNED new PAGE_SIZE = false).
  { unfold IS_ALIGNED. change (PAGE_SIZE - 1) with (Z.ones 12). rewrite Z.land_ones by lia.
    apply Z.eqb_neq. exact Hn4. }
  destruct (ALIGN_UP_spec new PAGE_SIZE is_pow2_PAGE_SIZE) as (M & B); [lia | unfold PAGE_SIZE; lia |].
  unfold PAGE_SIZE in *. assert (ALIGN_UP new 4096 <> new) by congruence.
  split; [done |]. unfold page_in. change PAGE_SIZE with 4096. fold new.
  split; [| lia].
  rewrite Ho', Zminus_mod, M, Z.mul_comm, Z.mod_mul by lia. reflexivity.
Qed.

(** Blocks of the linear map that do not meet. *)
Lemma live_word h h' a pa n :
  (forall x, block pa n x -> ~ covers (reserved (kh_mb h)) x) ->
  (forall x, a <= x < a + 8 -> covers (reserved (kh_mb h)) x) ->
  (forall x, ~ block (pa + LINER_MAP_OFFSET) n x -> kh_mem h' !! x = kh_mem h !! x) ->
  wd h' a = wd h a.
Proof.
  intros H1 H2 H3. apply wd_ext. intros p Hp. apply H3. intros Hb.
  apply (H1 p); [unfold block in *; lia | by apply H2].
Qed.

Lemma wd_zero h a : (forall p, a <= p < a + 8 -> kh_mem h !! (p + LINER_MAP_OFFSET) = Some 0) -> wd h a = 0.
Proof.
  intros H. unfold wd. rewrite (ld64_spec _ _ 0); [done | lia |].
  intros i x Hi. change (le_list 8 0) with (replicate 8 0) in Hi. apply lookup_replicate in Hi as [-> Hi].
  replace (a + LINER_MAP_OFFSET + Z.of_nat i) with (a + Z.of_nat i + LINER_MAP_OFFSET) by lia.
  apply H. lia.
Qed.

(** The record of a table: only its own block changes. *)
Lemma record_spec mm h table mb' :
  heap_ok h -> mm_ok mm -> 0 <= table < 2 ^ 64 -> mb_take sizeof_pgtable_mem (kh_mb h) = Some mb' ->
  exists mm' h', mm_record_pgtable mm h table = Done (0, mm', h')
    /\ mm_pg_dir mm' = mm_pg_dir mm /\ mm_ok mm' /\ heap_ok h' /\ kh_mb h' = mb'
    /\ same_set (covers (memory (kh_mb h'))) (covers (memory (kh_mb h)))
    /\ (forall a, covers (reserved (kh_mb h)) a -> covers (reserved (kh_mb h')) a)
    /\ (forall a, covers (reserved (kh_mb h)) a \/ ~ covers (memory (kh_mb h)) a ->
          kh_mem h' !! (a + LINER_MAP_OFFSET) = kh_mem h !! (a + LINER_MAP_OFFSET)).
Proof.
  intros Hh Hmm Htab Ht. pose proof OFFSET_VAL as Ho.
  destruct (kmalloc_taken h sizeof_pgtable_mem false mb' Hh ltac:(done) Ht)
    as (pa & h1 & E & Hh1 & Emb & P1 & P2 & _ & Hfree & Hmem & Hres & _ & Hout).
  change (kmalloc_buf_size sizeof_pgtable_mem) with 32 in *. unfold REGION_HDR in *.
  assert (Hmap : forall k, 0 <= k <= 40 -> mapped (kh_mem h1) (pa + k + LINER_MAP_OFFSET) 8).
  { intros k Hk p Hp. replace p with (p - LINER_MAP_OFFSET + LINER_MAP_OFFSET) by lia.
    apply (ho_mapped _ Hh1), Hmem, Hfree. unfold block. lia. }
  unfold mm_record_pgtable. rewrite E. cbn [obind].
  rewrite (proj2 (Z.eqb_neq (pa + LINER_MAP_OFFSET + 16) 0)) by lia.
  replace (pa + LINER_MAP_OFFSET + 16) with (pa + 16 + LINER_MAP_OFFSET) by lia.
  destruct (pxd_set_wd h1 (pa + 16) table) as (h2 & -> & Emb2 & _ & Hout2 & Hs2); [apply Hmap; lia | done |].
  cbn [obind]. replace (pa + 16 + LINER_MAP_OFFSET + 8) with (pa + 24 + LINER_MAP_OFFSET) by lia.
  destruct (pxd_set_wd h2 (pa + 24) (mm_pgtable_mem mm)) as (h3 & -> & Emb3 & _ & Hout3 & Hs3).
  { intros p Hp. apply Hs2. apply (Hmap 24); lia. } { done. }
  cbn [obind]. eexists _, h3. split; [reflexivity |]. split; [done |].
  split; [unfold mm_ok; cbn [mm_pgtable_mem]; lia |].
  split.
  { destruct h3 as [mb3 m3]. cbn [kh_mb kh_mem] in *. subst mb3. rewrite Emb2.
    apply (heap_ok_after h1); [done | apply Hh1 | done | done | done |]. auto. }
  rewrite Emb3, Emb2. split; [done |]. split; [done |].
  split; [intros a Ha; apply Hres; by left |].
  intros a Ha. assert (~ block pa (16 + 32) a) as Hb by (intros Hb; destruct (Hfree a Hb); tauto).
  unfold block in *. rewrite Hout3, Hout2, Hout by lia. done.
Qed.

Lemma table_alloc_spec T mm h x :
  tree T (wd h) -> tabs_ok T h -> mm_ok mm -> supply 1 (kh_mb h) ->
  exists nb mm' h', table_alloc_one mm h = Done (nb + LINER_MAP_OFFSET, mm', h')
    /\ mm_pg_dir mm' = mm_pg_dir mm /\ mm_ok mm'
    /\ takes 1 (kh_mb h) = Some (kh_mb h')
    /\ (nb mod 4096 = 0 /\ 0 <= nb /\ nb + 4096 <= 2 ^ 47) /\ T !! nb = None
    /\ (forall j, 0 <= j < 512 -> wd h' (nb + 8 * j) = 0)
    /\ (forall c k q j, T !! c = Some (k, q) -> 0 <= j < 512 -> wd h' (c + 8 * j) = wd h (c + 8 * j))
    /\ hstep T h (<[nb := x]> T) h'.
Proof.
  intros Ht Hok Hmm [mb2 Hs]. pose proof OFFSET_VAL as Ho. cbn [takes] in Hs.
  destruct (mb_take PAGE_SIZE (kh_mb h)) as [mb1|] eqn:E1; [| done]. cbn in Hs.
  destruct (mb_take sizeof_pgtable_mem mb1) as [mb2'|] eqn:E2; [| done]. cbn in Hs. injection Hs as ->.
  destruct Hok as [Hh Hl].
  destruct (kmalloc_taken h PAGE_SIZE true mb1 Hh ltac:(done) E1)
    as (pa & h1 & E & Hh1 & Emb & P1 & P2 & P3 & Hfree & Hmem & Hres & Hzero & Hout).
  change (kmalloc_buf_size PAGE_SIZE) with 8192 in *. specialize (Hzero eq_refl).
  assert (H47 : pa < 2 ^ 47) by (unfold REGION_HDR in *; lia).
  destruct (page_in_spec pa ltac:(lia) P3) as (A1 & A2 & A3).
  rewrite <- Emb in E2. unfold REGION_HDR in *.
  destruct (record_spec mm h1 (pa + LINER_MAP_OFFSET + 16) mb2 Hh1 Hmm ltac:(lia) E2)
    as (mm' & h2 & Erec & M1 & M2 & Hh2 & Emb2 & Hmem2 & Hres2 & Hout2).
  set (nb := page_in pa) in *.
  assert (Hin : forall a, in_page nb a -> block pa (16 + 8192) a) by (intros a; unfold in_page, block; lia).
  exists nb, mm', h2. split.
  { unfold table_alloc_one. rewrite E. cbn [obind].
    rewrite (proj2 (Z.eqb_neq (pa + LINER_MAP_OFFSET + 16) 0)) by lia. rewrite Erec. cbn [obind].
    change (0 =? 0) with true. cbn [negb]. rewrite A1. cbn [negb].
    do 3 f_equal. unfold nb, page_in, REGION_HDR. lia. }
  split; [done |]. split; [done |]. split.
  { cbn [takes]. rewrite E1. cbn. rewrite <- Emb, E2. cbn. by rewrite Emb2. }
  split; [lia |].
  assert (Hnb : T !! nb = None).
  { destruct (T !! nb) as [y|] eqn:Ey; [| done]. exfalso.
    destruct (Hl nb y nb Ey) as [_ Hc]; [unfold in_page; lia |].
    by apply (Hfree nb); [apply Hin; unfold in_page; lia |]. }
  assert (Hnew : forall a, in_page nb a -> covers (reserved (kh_mb h1)) a) by (intros a Ha; apply Hres; auto).
  split; [done |]. split.
  { intros j Hj. apply wd_zero. intros p Hp. rewrite Hout2 by (left; apply Hnew; unfold in_page; lia).
    apply Hzero. unfold block. lia. }
  split.
  { intros c k q j Hc Hj.
    assert (Hlive : forall p, c + 8 * j <= p < c + 8 * j + 8 -> covers (reserved (kh_mb h)) p).
    { intros p Hp. apply (Hl c (k, q)); [done | unfold in_page; lia]. }
    transitivity (wd h1 (c + 8 * j)).
    - apply wd_ext. intros p Hp. apply Hout2. left. apply Hres. left. by apply Hlive.
    - apply (live_word h h1 _ pa (16 + 8192)); [intros y Hy; apply (Hfree y Hy) | done | done]. }
  assert (Hold : forall c y, T !! c = Some y -> <[nb := x]> T !! c = Some y).
  { intros c y Hc. rewrite lookup_insert_ne; [done | congruence]. }
  split.
  - split; [done |]. intros c y a Hc Ha. apply lookup_insert_Some in Hc as [[<- _] | [_ Hc]].
    + split; [apply Hmem2, Hmem, Hfree; auto | apply Hres2; auto].
    + destruct (Hl c y a Hc Ha). split; [by apply Hmem2, Hmem | apply Hres2, Hres; auto].
  - done.
  - by rewrite Hmem2.
  - intros a Ha. apply Hres2, Hres. auto.
  - intros c y a Hc Hno Ha. apply lookup_insert_Some in Hc as [[<- _] | [_ Hc]]; [| congruence].
    apply Hfree. auto.
  - intros a Ha _. rewrite Hout2 by (left; apply Hres; auto). apply Hout. intros Hb.
    apply (Hfree a); [unfold block in *; lia | done].
  - intros a Ha. rewrite Hout2 by (right; by rewrite (Hmem a)). apply Hout. intros Hb.
    apply Ha, Hfree. unfold block in *. lia.
Qed.
