(* ===== verification/VmapFold.v ===== *)
(** * Runs of page entries and contiguous blocks

    Writing consecutive page entries, and the folding of sixteen of them into
    a contiguous block: the folded entries translate as the ones they
    replace. *)

From S2P Require Import Prelude Memblock MemblockList MemblockArray MemblockRange MemblockFree.
From S2P Require Import MemblockSearch MemblockAlloc CString CStringSpec Kmalloc PageTable PageTableMap.
From S2P Require Import Pte PtTree PteDesc Vmap VmapHeap.

(** Entries [lo, hi) of the table [b] may change, no other entry does. *)
Definition agree_run (T : tables) (b lo hi : Z) (r r' : Z -> Z) : Prop :=
  forall c k q j, T !! c = Some (k, q) -> 0 <= j < 512 -> (c <> b \/ ~ (lo <= j < hi)) ->
    r' (c + 8 * j) = r (c + 8 * j).

Section Run.
Context (T : tables) (b p : Z) (Hpg : paged T) (Hb : T !! b = Some (0%nat, p)).

(** ** Runs *)

Lemma set_run a n : forall h i x,
  tabs_ok T h -> attr_bits a -> 0 <= i -> i + Z.of_nat n <= 512 ->
  x mod 4096 = 0 -> 0 <= x -> x + 4096 * Z.of_nat n <= 2 ^ 48 ->
  exists h', __set_ptes_anysz n h (b + 8 * i + LINER_MAP_OFFSET) (page_desc x a) 1 = Done h'
    /\ kh_mb h' = kh_mb h /\ hstep T h T h' /\ agree_run T b i (i + Z.of_nat n) (wd h) (wd h')
    /\ forall j, i <= j < i + Z.of_nat n -> wd h' (b + 8 * j) = page_desc (x + 4096 * (j - i)) a.
Proof.
  induction n as [|n IH]; intros h i x Hok Ha Hi Hn Hx H0 Hr; cbn [__set_ptes_anysz].
  { exists h. split; [done |]. split; [done |]. split; [by apply hstep_refl |]. split; [| lia].
    intros c k q j _ _ _. done. }
  assert (Hdr : 0 <= page_desc x a < 2 ^ 64) by (apply desc_range; lia || done).
  destruct (entry_set T h b 0 p i (page_desc x a) Hpg Hok Hb ltac:(lia) Hdr)
    as (h1 & -> & Emb & Hs & Hag & Hw). cbn [obind].
  destruct n as [|n'].
  { cbn [__set_ptes_anysz]. exists h1. split; [done |]. split; [done |]. split; [done |]. split.
    - intros c k q j Hc Hj Hne. apply (Hag c k q j Hc Hj). destruct Hne; [by left | right; lia].
    - intros j Hj. replace j with i by lia. rewrite Z.sub_diag, Z.add_0_r. exact Hw. }
  rewrite (advance_desc x a 1) by (done || lia). rewrite Z.mul_1_r.
  replace (b + 8 * i + LINER_MAP_OFFSET + 8) with (b + 8 * (i + 1) + LINER_MAP_OFFSET) by lia.
  destruct (IH h1 (i + 1) (x + 4096)) as (h2 & -> & Emb2 & Hs2 & Hag2 & Hw2); try done; try lia.
  { apply Hs. } { rewrite Zplus_mod, Hx. reflexivity. }
  exists h2. split; [done |]. split; [congruence |]. split; [by eapply hstep_trans |]. split.
  - intros c k q j Hc Hj Hne. rewrite (Hag2 c k q j Hc Hj) by (destruct Hne; [by left | right; lia]).
    apply (Hag c k q j Hc Hj). destruct Hne; [by left | right; lia].
  - intros j Hj. destruct (Z.eq_dec j i) as [-> | Hji].
    + rewrite (Hag2 b _ _ i Hb ltac:(lia) ltac:(right; lia)), Hw. f_equal. lia.
    + rewrite Hw2 by lia. f_equal. lia.
Qed.

(** ** Blocks of sixteen *)

Lemma contpte_align_val i : 0 <= i < 512 -> 0 <= b < 2 ^ 47 ->
  contpte_align_down (b + 8 * i + LINER_MAP_OFFSET) = b + 8 * (i - i mod 16) + LINER_MAP_OFFSET.
Proof.
  intros Hi Hbr. pose proof OFFSET_VAL as Ho. unfold contpte_align_down, CONT_PTES.
  assert (Ho' : LINER_MAP_OFFSET = LINER_MAP_OFFSET / 128 * 128) by reflexivity.
  rewrite align_mask_pow2; [| exists 7; split; [lia | done] | lia].
  pose proof (Hpg _ _ _ Hb) as Hm. pose proof (Z.div_mod b 4096). pose proof (Z.div_mod i 16).
  pose proof (Z.mod_pos_bound i 16).
  assert (E : (b + 8 * i + LINER_MAP_OFFSET) mod 128 = 8 * (i mod 16)); [| change (8 * 16) with 128; lia].
  symmetry. apply (Z.mod_unique_pos _ _ (32 * (b / 4096) + i / 16 + LINER_MAP_OFFSET / 128)); lia.
Qed.

(** The result of the gathering loop: the entry, perhaps marked dirty. *)
Definition maybe_dirty (a a' : Z) : Prop := a' = a \/ a' = Z.lor a PTE_DIRTY.

Lemma clear_gather_spec x n : forall h i a,
  tabs_ok T h -> user_attr a -> x mod 4096 = 0 -> 0 <= x < 2 ^ 48 -> 0 <= i -> i + Z.of_nat n <= 512 ->
  exists h' a', clear_gather n h (b + 8 * i + LINER_MAP_OFFSET) (page_desc x a) = Done (page_desc x a', h')
    /\ user_attr a' /\ hw_attr a' = hw_attr a
    /\ kh_mb h' = kh_mb h /\ hstep T h T h' /\ agree_run T b i (i + Z.of_nat n) (wd h) (wd h').
Proof.
  induction n as [|n IH]; intros h i a Hok Ha Hx Hr Hi Hn; cbn [clear_gather].
  { exists h, a. split; [done |]. split; [done |]. split; [done |]. split; [done |].
    split; [by apply hstep_refl |]. intros c k q j _ _ _. done. }
  unfold __ptep_get_and_clear_anysz. rewrite (entry_get T h b _ i Hok Hb) by lia. cbn [obind].
  destruct (entry_set T h b 0 p i 0 Hpg Hok Hb ltac:(lia) ltac:(lia))
    as (h1 & -> & Emb & Hs & Hag & Hw). cbn [obind].
  set (e := wd h (b + 8 * i)).
  assert (Hd : exists a1, (if pte_dirty e then pte_mkdirty (page_desc x a) else page_desc x a)
      = page_desc x a1 /\ user_attr a1 /\ hw_attr a1 = hw_attr a).
  { destruct (pte_dirty e); [| by exists a].
    exists (Z.lor a PTE_DIRTY). split; [by apply mkdirty_desc |].
    split; [apply (user_attr_lor a 55); done || lia | apply hw_attr_dirty]. }
  destruct Hd as (a1 & -> & Ha1 & E1). rewrite mkyoung_desc by done.
  replace (if pte_young e then page_desc x a1 else page_desc x a1) with (page_desc x a1)
    by (by destruct (pte_young e)).
  replace (b + 8 * i + LINER_MAP_OFFSET + 8) with (b + 8 * (i + 1) + LINER_MAP_OFFSET) by lia.
  destruct (IH h1 (i + 1) a1) as (h2 & a2 & -> & Ha2 & E2 & Emb2 & Hs2 & Hag2); try done; try lia.
  { apply Hs. }
  exists h2, a2. split; [done |]. split; [done |]. split; [congruence |]. split; [congruence |].
  split; [by eapply hstep_trans |].
  intros c k q j Hc Hj Hne. rewrite (Hag2 c k q j Hc Hj) by (destruct Hne; [by left | right; lia]).
  apply (Hag c k q j Hc Hj). destruct Hne; [by left | right; lia].
Qed.

(** Every entry of the block is the one [contpte_convert] writes, up to the
    contiguous and dirty bits. *)
Lemma convert_spec h g base a :
  tabs_ok T h -> user_attr a -> 0 <= b < 2 ^ 47 -> 0 <= g -> g + 16 <= 512 -> g mod 16 = 0 ->
  base mod 65536 = 0 -> 0 <= base -> base + 65536 <= 2 ^ 48 ->
  (forall j, 0 <= j < 16 -> exists aj, wd h (b + 8 * (g + j)) = page_desc (base + 4096 * j) aj
     /\ user_attr aj /\ hw_attr aj = hw_attr a) ->
  exists h', contpte_convert h (b + 8 * (g + 15) + LINER_MAP_OFFSET) (page_desc (base + 4096 * 15) a) = Done h'
    /\ kh_mb h' = kh_mb h /\ hstep T h T h' /\ equiv T (wd h) (wd h').
Proof.
  intros Hok Ha Hbr Hg Hg2 Hgm Hbm Hb0 Hb1 Hall. unfold contpte_convert.
  pose proof (Z.div_mod g 16 ltac:(lia)). pose proof (Z.div_mod base 65536 ltac:(lia)).
  assert (M0 : base mod 4096 = 0).
  { symmetry. apply (Z.mod_unique_pos _ _ (16 * (base / 65536))); lia. }
  assert (M15 : (base + 4096 * 15) mod 4096 = 0) by (rewrite Z.mul_comm, Z_mod_plus_full; done).
  assert (E15 : (g + 15) mod 16 = 15) by (symmetry; apply (Z.mod_unique_pos _ _ (g / 16)); lia).
  rewrite contpte_align_val by lia. rewrite E15. replace (g + 15 - 15) with g by lia.
  pose proof (ua_bits _ Ha) as Hab. rewrite desc_pfn, desc_pgprot by (done || lia).
  assert (Epfn : (base + 4096 * 15) / 4096 = 16 * (base / 65536) + 15).
  { symmetry. apply (Z.div_unique_pos _ _ _ 0); lia. }
  assert (E16 : (16 * (base / 65536) + 15) mod 16 = 15).
  { symmetry. apply (Z.mod_unique_pos _ _ (base / 65536)); lia. }
  assert (Hq : 0 <= base / 65536 < 2 ^ 48) by (split; [apply Z.div_pos | apply Z.div_lt_upper_bound]; lia).
  rewrite Epfn. unfold CONT_PTES. rewrite align_mask_pow2; [| exists 4; split; [lia | done] | lia].
  rewrite E16. replace (16 * (base / 65536) + 15 - 15) with (base / 4096)
    by (symmetry; apply (Z.div_unique_pos _ _ _ 0); lia).
  rewrite pfn_pte_desc by (done || lia).
  destruct (clear_gather_spec base (Z.to_nat 16) h g a) as (h1 & a1 & -> & Ha1 & E1 & Emb & Hs & Hag);
    try done; try lia.
  cbn [obind]. unfold __set_ptes.
  destruct (set_run a1 (Z.to_nat 16) h1 g base) as (h2 & -> & Emb2 & Hs2 & Hag2 & Hw); try done; try lia.
  { apply Hs. } { apply Ha1. }
  exists h2. split; [done |]. split; [congruence |]. split; [by eapply hstep_trans |].
  intros c k q j Hc Hj. destruct (decide (c = b /\ g <= j < g + 16)) as [[-> Hjg] | Hne].
  - rewrite Hb in Hc. injection Hc as <- <-. right. split; [done |]. rewrite Hw by lia.
    destruct (Hall (j - g) ltac:(lia)) as (aj & Ej & Hj1 & Hj2). rewrite Zplus_minus in Ej. rewrite Ej.
    apply same_pte_desc; [| lia | done | done | congruence].
    rewrite Z.mul_comm, Z_mod_plus_full. done.
  - left. change (Z.of_nat (Z.to_nat 16)) with 16 in *.
    assert (Hne' : c <> b \/ ~ (g <= j < g + 16)) by (destruct (Z.eq_dec c b); [right; tauto | by left]).
    rewrite (Hag2 c k q j Hc Hj Hne'), (Hag c k q j Hc Hj Hne'). done.
Qed.

(** The comparison reads the entries of the block. *)
Lemma fold_matches_spec a n : forall h i x,
  tabs_ok T h -> attr_bits a -> 0 <= i -> i + Z.of_nat n <= 512 ->
  x mod 4096 = 0 -> 0 <= x -> x + 4096 * Z.of_nat n <= 2 ^ 48 ->
  exists same, fold_matches n h (b + 8 * i + LINER_MAP_OFFSET) (page_desc x a) = Done same
    /\ (same = true -> forall j, 0 <= j < Z.of_nat n ->
          pte_mkold (pte_mkclean (wd h (b + 8 * (i + j)))) = page_desc (x + 4096 * j) a).
Proof.
  induction n as [|n IH]; intros h i x Hok Ha Hi Hn Hx H0 Hr; cbn [fold_matches].
  { exists true. split; [done |]. lia. }
  rewrite (entry_get T h b _ i Hok Hb) by lia. cbn [obind].
  destruct (Z.eqb_spec (pte_mkold (pte_mkclean (wd h (b + 8 * i)))) (page_desc x a)) as [E | _];
    [| exists false; done].
  destruct n as [|n'].
  { cbn [fold_matches]. exists true. split; [done |]. intros _ j Hj. replace j with 0 by lia.
    rewrite Z.add_0_r, E. f_equal. lia. }
  rewrite advance_desc by (done || lia). rewrite Z.mul_1_r.
  replace (b + 8 * i + LINER_MAP_OFFSET + 8) with (b + 8 * (i + 1) + LINER_MAP_OFFSET) by lia.
  destruct (IH h (i + 1) (x + 4096)) as (same & -> & Hall); try done; try lia.
  { rewrite Zplus_mod, Hx. reflexivity. }
  exists same. split; [done |]. intros Hs j Hj. destruct (Z.eq_dec j 0) as [-> | Hj0].
  - rewrite Z.add_0_r, E. f_equal. lia.
  - replace (i + j) with (i + 1 + (j - 1)) by lia. rewrite (Hall Hs (j - 1)) by lia. f_equal. lia.
Qed.

Lemma stripped_entry e x a :
  e = 0 \/ pte_ok e -> x mod 4096 = 0 -> 0 <= x < 2 ^ 48 -> user_attr a ->
  pte_mkold (pte_mkclean e) = page_desc x (stripped a) ->
  exists a', e = page_desc x a' /\ user_attr a' /\ hw_attr a' = hw_attr a.
Proof.
  intros He Hx Hr Ha E. pose proof (attr_bits_stripped _ (ua_bits _ Ha)) as Hsa.
  destruct He as [-> | Hok].
  { assert (B0 : Z.testbit (page_desc x (stripped a)) 0 = true)
      by (rewrite desc_bit by (done || lia); apply orb_true_r).
    rewrite <- E in B0. vm_compute in B0. done. }
  destruct (pte_ok_desc e Hok) as (y & a' & -> & Hy & Hyr & Ha').
  rewrite strip_desc in E by done. pose proof (attr_bits_stripped _ (ua_bits _ Ha')) as Hsa'.
  assert (y = x) as ->.
  { rewrite <- (desc_addr_page y Hy Hyr (stripped a') Hsa'), E. by apply desc_addr_page. }
  assert (stripped a' = stripped a) as Es.
  { rewrite <- (desc_attr_page x Hx Hr (stripped a') Hsa'), E. by apply desc_attr_page. }
  exists a'. split; [done |]. split; [done |]. by apply stripped_same.
Qed.

Lemma cont_index addr i : 0 <= addr -> lindex 0 addr = i ->
  Z.land (Z.shiftr addr PAGE_SHIFT) (CONT_PTES - 1) = i mod 16.
Proof.
  intros H0 <-. unfold lindex. change (lsize 0) with 4096. rewrite Z.shiftr_div_pow2 by done.
  change (CONT_PTES - 1) with (Z.ones 4). rewrite Z.land_ones by lia. change (2 ^ 4) with 16.
  change (2 ^ PAGE_SHIFT) with 4096. rewrite Z.mod_mod_divide; [done |]. by exists 32.
Qed.

Lemma try_fold_spec h addr i x a :
  tree T (wd h) -> tabs_ok T h -> 0 <= addr -> 0 <= i < 512 -> lindex 0 addr = i ->
  x mod 4096 = 0 -> 0 <= x < 2 ^ 48 -> page_attr a -> wd h (b + 8 * i) = page_desc x a ->
  exists h', contpte_try_fold h addr (b + 8 * i + LINER_MAP_OFFSET) (page_desc x a) = Done h'
    /\ kh_mb h' = kh_mb h /\ hstep T h T h' /\ equiv T (wd h) (wd h').
Proof.
  intros Ht Hok H0 Hi Hli Hx Hr Hpa Hw. pose proof (page_user_attr a Hpa) as Ha.
  pose proof (ua_bits _ Ha) as Hab. destruct (tr_page _ _ Ht _ _ _ Hb) as (_ & Hb1 & Hb2).
  unfold contpte_try_fold. rewrite (cont_index addr i H0 Hli), desc_pfn by done.
  change (CONT_PTES - 1) with 15.
  destruct (_ && _) eqn:Ec;
    [| exists h; split; [done |]; split; [done |]; split; [by apply hstep_refl | apply equiv_refl]].
  bool_facts. change 15 with (Z.ones 4) in *. rewrite Z.land_ones in * by lia.
  change (2 ^ 4) with 16 in *. change (Z.ones 4) with 15 in *.
  set (g := i - 15). set (base := x - 61440).
  pose proof (Z.div_mod i 16 ltac:(lia)). pose proof (Z.div_mod (x / 4096) 16 ltac:(lia)).
  pose proof (Z.div_mod x 4096 ltac:(lia)).
  assert (Hbm : base mod 65536 = 0).
  { symmetry. apply (Z.mod_unique_pos _ _ (x / 4096 / 16)); unfold base; lia. }
  assert (Hgm : g mod 16 = 0) by (symmetry; apply (Z.mod_unique_pos _ _ (i / 16)); unfold g; lia).
  assert (0 <= i / 16) by (apply Z.div_pos; lia).
  assert (0 <= x / 4096 / 16) by (apply Z.div_pos; [apply Z.div_pos |]; lia).
  assert (Hbm4 : base mod 4096 = 0).
  { symmetry. apply (Z.mod_unique_pos _ _ (16 * (x / 4096 / 16))); unfold base; lia. }
  unfold __contpte_try_fold. rewrite desc_pfn by done. rewrite strip_desc by done.
  rewrite desc_pgprot by (done || by apply attr_bits_stripped).
  unfold CONT_PTES. rewrite align_mask_pow2; [| exists 4; split; [lia | done] | lia].
  replace (x / 4096 - (x / 4096) mod 16) with (base / 4096)
    by (symmetry; apply (Z.div_unique_pos _ _ _ 0); unfold base; lia).
  rewrite pfn_pte_desc by (done || (unfold base; lia)).
  rewrite contpte_align_val by lia. replace (i - i mod 16) with g by (unfold g; lia).
  destruct (fold_matches_spec (stripped a) (Z.to_nat 16) h g base) as (same & -> & Hall);
    try done; try (unfold g, base; lia).
  { by apply attr_bits_stripped. }
  cbn [obind]. destruct same;
    [| exists h; split; [done |]; split; [done |]; split; [by apply hstep_refl | apply equiv_refl]].
  unfold pte_mkcont, set_pte_bit. rewrite lor_desc.
  pose proof (convert_spec h g base (Z.lor a PTE_CONT) Hok) as Hcv.
  replace (g + 15) with i in Hcv by (unfold g; lia).
  replace (base + 4096 * 15) with x in Hcv by (unfold base; lia).
  apply Hcv; try done; try (unfold g, base; lia).
  { apply (user_attr_lor a 52); done || lia. }
  intros j Hj. rewrite hw_attr_cont.
  apply (stripped_entry _ (base + 4096 * j) a); [| | unfold base; lia | done |].
  - apply (tr_pte _ _ Ht b p); [done | unfold g; lia].
  - rewrite Z.mul_comm, Z_mod_plus_full. done.
  - apply (Hall eq_refl j). lia.
Qed.
End Run.
