(* ===== verification/VmapSpec.v ===== *)
(** * The mapper of [vm.c] builds the translation it is asked for

    [vmap_phys_range_noflush] on a range whose slots are free: with enough
    memory for the tables it may need, it returns 0, the range translates to
    the physical range with the given attributes, every other translation is
    as before, and no live byte outside the tables has changed. *)

From S2P Require Import Prelude Memblock MemblockList MemblockArray MemblockRange MemblockFree.
From S2P Require Import MemblockSearch MemblockAlloc CString CStringSpec Kmalloc PageTable PageTableMap.
From S2P Require Import Pte PtTree PteDesc Vmap VmapHeap VmapFold.

(** ** Free ranges *)

(** No page of the range is mapped, and where a block would fit there is no
    table yet. *)
Definition fresh (n : nat) (T : tables) (r : Z -> Z) (lo hi : Z) : Prop :=
  forall b k p i, T !! b = Some (k, p) -> (k <= n)%nat -> 0 <= i < 512 ->
    ~ slot_apart k (p * 512 + i) lo hi -> Z.testbit (r (b + 8 * i)) 0 = true ->
    k <> 0%nat /\ Z.testbit (r (b + 8 * i)) 1 = true
    /\ ~ ((k <= 2)%nat /\ lo <= (p * 512 + i) * lsize k /\ (p * 512 + i + 1) * lsize k <= hi).

Lemma fresh_narrow n n' T r lo hi lo' hi' :
  (n' <= n)%nat -> lo <= lo' -> hi' <= hi -> fresh n T r lo hi -> fresh n' T r lo' hi'.
Proof.
  intros Hn Hl Hh H b k p i Hb Hk Hi Hap E.
  destruct (H b k p i Hb ltac:(lia) Hi) as (H1 & H2 & H3); [unfold slot_apart in *; lia | done |].
  split; [done |]. split; [done |]. intros (? & ? & ?). apply H3. lia.
Qed.

(** What is left of the range after its first part is mapped. *)
Lemma fresh_after n T r T1 r1 b0 lo nxt hi x attr :
  mapping n T r T1 r1 b0 lo nxt x attr -> nxt mod lsize n = 0 -> lo <= nxt ->
  fresh n T r lo hi -> fresh n T1 r1 nxt hi.
Proof.
  intros [A1 A2 A3 A4 A5 _ _] Hm Hle H b k p i Hb Hk Hi Hap E.
  assert (Hge : nxt <= (p * 512 + i) * lsize k).
  { unfold slot_apart in Hap. pose proof (mod_lsize_le k n nxt Hk Hm) as Hm'.
    pose proof (mod_multiple k nxt Hm') as Hq. pose proof (lsize_pos k) as Hpos.
    assert (nxt < (p * 512 + i + 1) * lsize k) as Hlt by lia. rewrite Hq in Hlt |- *.
    apply Z.mul_lt_mono_pos_r in Hlt; [| done]. apply Z.mul_le_mono_nonneg_r; lia. }
  destruct (T !! b) as [[k0 p0]|] eqn:Eb.
  - pose proof (A1 _ _ Eb) as Eb1. rewrite Hb in Eb1. injection Eb1 as <- <-.
    destruct (esim_bits _ _ _ (A3 b k p i Eb Hi ltac:(left; right; lia))) as [B0 B1].
    rewrite <- B0 in E. rewrite <- B1.
    destruct (H b k p i Eb Hk Hi) as (H1 & H2 & H3); [unfold slot_apart in *; lia | done |].
    split; [done |]. split; [done |]. intros (? & ? & ?). apply H3. lia.
  - rewrite (A4 b k p i Hb Eb Hi), Z.bits_0 in E by (right; lia). done.
Qed.

Lemma fresh_prep n T r b p i T1 r1 lo hi :
  T !! b = Some (S n, p) -> prep n T r b p i T1 r1 -> fresh n T r lo hi -> fresh n T1 r1 lo hi.
Proof.
  intros Hb [P1 P2 P3 P4 P5 P6 P7 P8] H c k q j Hc Hk Hj Hap E.
  destruct (T !! c) as [[k0 q0]|] eqn:Ec.
  - pose proof (P2 _ _ Ec) as Ec1. rewrite Hc in Ec1. injection Ec1 as <- <-.
    rewrite (P3 c k q j Ec Hj) in *; [by apply (H c k q j) | |];
      left; intros ->; rewrite Hb in Ec; injection Ec as <- <-; lia.
  - rewrite (P4 c k q j Hc Ec Hj), Z.bits_0 in E. done.
Qed.

Lemma fresh_entry n T r b p i va ve start :
  tree T r -> T !! b = Some (n, p) -> rng n p va ve start -> fresh n T r va ve ->
  va / lsize n = p * 512 + i -> 0 <= i < 512 -> n = 0%nat -> r (b + 8 * i) = 0.
Proof.
  intros Ht Hb Hr Hf Hq Hi Hn. destruct (Z.testbit (r (b + 8 * i)) 0) eqn:E; [| by apply (tr_none _ _ Ht b n p)].
  exfalso. destruct (Hf b n p i Hb ltac:(lia) Hi) as (? & _); [| done | done].
  apply div_slot in Hq. destruct Hr. unfold slot_apart. lia.
Qed.

Section Attr.
Context (attr : Z) (Ha : page_attr attr).

Abbreviation prot := (Z.lor attr 3).

(** ** The last level *)

Lemma run_mapping T b p r' n : forall r i x va,
  tree T r -> T !! b = Some (0%nat, p) -> 0 <= i -> i + Z.of_nat (S n) <= 512 ->
  x mod 4096 = 0 -> 0 <= x -> x + 4096 * Z.of_nat (S n) <= 2 ^ 48 ->
  agree_run T b i (i + Z.of_nat (S n)) r r' ->
  (forall j, i <= j < i + Z.of_nat (S n) -> r' (b + 8 * j) = page_desc (x + 4096 * (j - i)) attr) ->
  (forall j, i <= j < i + Z.of_nat (S n) -> r (b + 8 * j) = 0) ->
  va = (p * 512 + i) * 4096 -> 0 <= p ->
  mapping 0 T r T r' b va (va + 4096 * Z.of_nat (S n)) x attr.
Proof.
  induction n as [|n IH]; intros r i x va Ht Hb Hi Hn Hx H0 Hr Hag Hnew Hz -> Hp.
  all: set (r1 := fun a => if a =? b + 8 * i then r' a else r a).
  all: assert (H1 : agree_but T b i r r1)
    by (intros c k q j Hc Hj Hne; unfold r1;
        destruct (Z.eqb_spec (c + 8 * j) (b + 8 * i)) as [E | _]; [| done];
        destruct (entry_place T r c b _ _ j i Ht Hc Hb Hj ltac:(lia) E); lia).
  all: assert (E1 : r1 (b + 8 * i) = Z.lor (Z.lor x attr) 3)
    by (unfold r1; rewrite Z.eqb_refl, Hnew by lia; unfold page_desc; do 2 f_equal; lia).
  all: pose proof (leaf_mapping 0 T r r1 b p i x attr 3 Ht Hb ltac:(lia) ltac:(lia) H1 (Hz i ltac:(lia))
         Hx ltac:(lia) Ha eq_refl E1 _ eq_refl) as Hm; change (lsize 0) with 4096 in *.
  - replace (4096 * Z.of_nat 1) with 4096 by lia.
    eapply mapping_equiv_r; [| exact Hm |].
    + intros v Hv. rewrite Hb. do 2 f_equal. symmetry. apply div_slot. change (lsize 1) with (4096 * 512). lia.
    + intros c k q j Hc Hj. left. unfold r1. destruct (Z.eqb_spec (c + 8 * j) (b + 8 * i)) as [-> | Hne]; [done |].
      symmetry. apply (Hag c k q j Hc Hj). destruct (Z.eq_dec c b) as [-> |]; [right; lia | by left].
  - specialize (IH r1 (i + 1) (x + 4096) ((p * 512 + (i + 1)) * 4096)).
    eapply mapping_trans with (nxt := (p * 512 + i) * 4096 + 4096); [exact Hb | | lia | exact Hm |].
    + intros v Hv. apply div_slot. change (lsize 1) with (4096 * 512). lia.
    + replace (x + ((p * 512 + i) * 4096 + 4096 - (p * 512 + i) * 4096)) with (x + 4096) by lia.
      replace ((p * 512 + i) * 4096 + 4096) with ((p * 512 + (i + 1)) * 4096) by lia.
      replace ((p * 512 + i) * 4096 + 4096 * Z.of_nat (S (S n)))
        with ((p * 512 + (i + 1)) * 4096 + 4096 * Z.of_nat (S n)) by lia.
      apply IH; try done; try lia.
      * apply (mp_tree _ _ _ _ _ _ _ _ _ _ Hm).
      * rewrite Zplus_mod, Hx. reflexivity.
      * intros c k q j Hc Hj Hne. unfold r1.
        destruct (Z.eqb_spec (c + 8 * j) (b + 8 * i)) as [-> | Hcj]; [done |].
        apply (Hag c k q j Hc Hj). destruct (Z.eq_dec c b) as [-> |]; [right; lia | by left].
      * intros j Hj. rewrite Hnew by lia. f_equal. lia.
      * intros j Hj. unfold r1. rewrite (proj2 (Z.eqb_neq _ _)) by lia. apply Hz. lia.
Qed.

Lemma prot_desc x : x mod 4096 = 0 -> 0 <= x < 2 ^ 48 -> pfn_pte (x / 4096) prot = page_desc x attr.
Proof. intros. by apply pfn_pte_desc. Qed.

Lemma noncont_desc x : x mod 4096 = 0 -> 0 <= x < 2 ^ 48 -> pte_mknoncont (page_desc x attr) = page_desc x attr.
Proof.
  intros Hx Hr. unfold pte_mknoncont, clear_pte_bit, PTE_CONT. rewrite ldiff_desc by (done || lia). f_equal.
  apply Z.bits_inj'. intros i Hi. rewrite Z.ldiff_spec, Z.pow2_bits_eqb by lia.
  destruct (Z.eqb_spec 52 i) as [<- | _]; [| apply andb_true_r].
  by rewrite (pa_clear _ Ha) by (simpl; tauto).
Qed.

(** One page. *)
Lemma page_step T h b p i addr x :
  tree T (wd h) -> tabs_ok T h -> T !! b = Some (0%nat, p) -> 0 <= i < 512 -> 0 <= p ->
  addr = (p * 512 + i) * 4096 -> x mod 4096 = 0 -> 0 <= x -> x + 4096 <= 2 ^ 48 -> wd h (b + 8 * i) = 0 ->
  exists h', set_pte_at h addr (b + 8 * i + LINER_MAP_OFFSET) (page_desc x attr) = Done h'
    /\ kh_mb h' = kh_mb h /\ hstep T h T h' /\ mapping 0 T (wd h) T (wd h') b addr (addr + 4096) x attr.
Proof.
  intros Ht Hok Hb Hi Hp -> Hx H0 Hr Hz. pose proof (tree_paged _ _ Ht) as Hpg.
  unfold set_pte_at, set_ptes. rewrite noncont_desc by (done || lia). cbn [Nat.eqb].
  rewrite (entry_get T h b _ i Hok Hb Hi), Hz. cbn [obind]. unfold contpte_try_unfold.
  change (pte_valid_cont 0) with false. cbn [obind]. unfold __set_ptes.
  destruct (set_run T b p Hpg Hb attr 1 h i x) as (h1 & -> & Emb & Hs & Hag & Hw);
    try done; try lia; [by apply page_attr_bits |]. cbn [obind].
  pose proof (run_mapping T b p (wd h1) 0 (wd h) i x _ Ht Hb ltac:(lia) ltac:(lia) Hx H0 ltac:(lia) Hag Hw
                ltac:(intros j Hj; by replace j with i by lia) eq_refl Hp) as Hm.
  change (4096 * Z.of_nat 1) with 4096 in Hm.
  destruct (try_fold_spec T b p Hpg Hb h1 ((p * 512 + i) * 4096) i x attr) as (h2 & -> & Emb2 & Hs2 & He);
    try done; try lia.
  { apply (mp_tree _ _ _ _ _ _ _ _ _ _ Hm). } { apply Hs. }
  { apply (lindex_slot 0 _ p i Hi). change (lsize 0) with 4096. by rewrite Z.div_mul. }
  { rewrite Hw by lia. f_equal. lia. }
  exists h2. split; [done |]. split; [congruence |]. split; [by eapply hstep_trans |].
  eapply mapping_equiv_r; [| exact Hm | exact He].
  intros v Hv. rewrite Hb. do 2 f_equal. symmetry. apply div_slot. change (lsize 1) with (4096 * 512). lia.
Qed.

(** Sixteen pages at once: the size is passed as its logarithm, which is no
    page size, so that the entries are plain pages. *)
Lemma block_step T h b p i addr x :
  tree T (wd h) -> tabs_ok T h -> T !! b = Some (0%nat, p) -> 0 <= i -> i + 16 <= 512 -> 0 <= p ->
  addr = (p * 512 + i) * 4096 -> x mod 4096 = 0 -> 0 <= x -> x + 65536 <= 2 ^ 48 ->
  (forall j, i <= j < i + 16 -> wd h (b + 8 * j) = 0) ->
  exists h', set_huge_pte_at h (b + 8 * i + LINER_MAP_OFFSET)
               (arch_make_huge_pte (page_desc x attr) (Z.log2 CONT_PTE_SIZE)) CONT_PTE_SIZE = Done h'
    /\ kh_mb h' = kh_mb h /\ hstep T h T h' /\ mapping 0 T (wd h) T (wd h') b addr (addr + 65536) x attr.
Proof.
  intros Ht Hok Hb Hi Hi2 Hp -> Hx H0 Hr Hz. pose proof (tree_paged _ _ Ht) as Hpg.
  assert (Hab : attr_bits attr) by (by apply page_attr_bits).
  unfold arch_make_huge_pte. change (Z.log2 CONT_PTE_SIZE) with 16.
  change (16 =? PUD_SIZE) with false. change (16 =? CONT_PMD_SIZE) with false.
  change (16 =? PMD_SIZE) with false. change (16 =? CONT_PTE_SIZE) with false. cbn match.
  unfold set_huge_pte_at. change (num_contig_ptes CONT_PTE_SIZE) with (16, PAGE_SIZE). cbn match.
  assert (pte_present (page_desc x attr) = true) as ->.
  { unfold pte_present, pte_valid. change PTE_VALID with (2 ^ 0). rewrite has_pow2 by lia.
    rewrite desc_bit by (done || lia). change (0 <? 2) with true. by rewrite orb_true_r. }
  cbn [negb]. rewrite (entry_get T h b _ i Hok Hb) by lia. cbn [obind].
  assert (pte_cont (page_desc x attr) = false) as ->.
  { unfold pte_cont, PTE_CONT. rewrite has_pow2, desc_bit by (done || lia).
    change (52 <? 2) with false. rewrite orb_false_r. apply (pa_clear _ Ha). simpl. tauto. }
  cbn [andb obind]. change (Z.shiftr PAGE_SIZE PAGE_SHIFT) with 1.
  destruct (set_run T b p Hpg Hb attr (Z.to_nat 16) h i x) as (h1 & -> & Emb & Hs & Hag & Hw); try done; try lia.
  exists h1. split; [done |]. split; [done |]. split; [done |].
  change (Z.to_nat 16) with 16%nat in *.
  exact (run_mapping T b p (wd h1) 15 (wd h) i x _ Ht Hb ltac:(lia) ltac:(lia) Hx H0 ltac:(lia) Hag Hw
                ltac:(intros j Hj; apply Hz; lia) eq_refl Hp).
Qed.

Lemma is_aligned_mod x k : 0 <= k -> IS_ALIGNED x (2 ^ k) = (x mod 2 ^ k =? 0).
Proof.
  intros Hk. unfold IS_ALIGNED. replace (2 ^ k - 1) with (Z.ones k) by (rewrite Z.ones_equiv; lia).
  by rewrite Z.land_ones.
Qed.

(** The step the loop takes: one page, or sixteen when everything is aligned. *)
Lemma map_size_cases va ve start :
  0 <= va < ve -> ve < 2 ^ 64 -> start mod 4096 = 0 -> 0 <= start < 2 ^ 48 ->
  let size := arch_vmap_pte_range_map_size va ve (start / 4096) in
  size = PAGE_SIZE
  \/ size = CONT_PTE_SIZE /\ va + 65536 <= ve /\ va mod 65536 = 0.
Proof.
  intros Hva Hve Hs Hr size. unfold size, arch_vmap_pte_range_map_size.
  rewrite u64_small by lia. change CONT_PTE_SIZE with (2 ^ 16).
  destruct (Z.ltb_spec (ve - va) (2 ^ 16)); [by left |]. rewrite (is_aligned_mod va) by lia.
  destruct (Z.eqb_spec (va mod 2 ^ 16) 0) as [E | _]; cbn [negb]; [| by left].
  destruct (IS_ALIGNED _ _); cbn [negb]; [right | by left]. split; [done |]. split; [lia | exact E].
Qed.

Lemma pte_loop_ok T b p ve fuel : forall h va start,
  tree T (wd h) -> tabs_ok T h -> T !! b = Some (0%nat, p) -> rng 0 p va ve start ->
  fresh 0 T (wd h) va ve -> ve - va < 4096 * Z.of_nat fuel ->
  exists h', vmap_pte_loop fuel h (b + 8 * lindex 0 va + LINER_MAP_OFFSET) va ve (start / 4096) prot = Done h'
    /\ kh_mb h' = kh_mb h /\ hstep T h T h' /\ mapping 0 T (wd h) T (wd h') b va ve start attr.
Proof.
  induction fuel as [|fuel IH]; intros h va start Ht Hok Hb Hr Hf Hfu.
  all: pose proof Hr as [[R1 R2] R3 R4 R5 R6 R7 R8 [R9 R10]].
  { lia. }
  change (lsize 1) with 2097152 in *.
  pose proof (slot_split 0 va) as Hq. change (lsize 1) with 2097152 in Hq. rewrite R4 in Hq.
  change (lsize 0) with 4096 in Hq. set (i := lindex 0 va) in *.
  pose proof (lindex_range 0 va : 0 <= i < 512) as Hi.
  assert (Hva : va = (p * 512 + i) * 4096) by (pose proof (Z.div_mod va 4096); lia).
  assert (Hp : 0 <= p) by (rewrite <- R4; apply Z.div_pos; lia).
  assert (Hve : ve <= (p + 1) * 2097152).
  { pose proof (Z.div_mod (ve - 1) 2097152). pose proof (Z.mod_pos_bound (ve - 1) 2097152). lia. }
  assert (H4 : va + 4096 <= ve).
  { pose proof (Z.div_mod va 4096). pose proof (Z.div_mod ve 4096). lia. }
  assert (Hz : forall j, i <= j < 512 -> (p * 512 + j) * 4096 < ve -> wd h (b + 8 * j) = 0).
  { intros j Hj Hlt. destruct (Z.testbit (wd h (b + 8 * j)) 0) eqn:E; [| by apply (tr_none _ _ Ht b 0%nat p j); [| lia |]].
    exfalso. destruct (Hf b 0%nat p j Hb ltac:(lia) ltac:(lia)) as (? & _); [| done | done].
    unfold slot_apart. change (lsize 0) with 4096. lia. }
  cbn [vmap_pte_loop]. unfold ptep_get. rewrite (entry_get T h b _ i Hok Hb Hi), (Hz i) by lia. cbn [obind].
  change (pte_valid_cont 0) with false. cbn [negb obind]. change (pte_none 0) with true. cbn [negb].
  pose proof (map_size_cases va ve start ltac:(lia) ltac:(lia) R8 ltac:(lia)) as Hsz. cbv zeta in Hsz.
  set (size := arch_vmap_pte_range_map_size va ve (start / 4096)) in *.
  rewrite (prot_desc start R8) by lia.
  assert (Hstep : exists h1, (if negb (size =? PAGE_SIZE) then
       let! h := set_huge_pte_at h (b + 8 * i + LINER_MAP_OFFSET)
                   (arch_make_huge_pte (page_desc start attr) (Z.log2 size)) size in
       Done (h, u64 (start / 4096 + Z.shiftr size PAGE_SHIFT))
     else let! h := set_pte_at h va (b + 8 * i + LINER_MAP_OFFSET) (page_desc start attr) in
          Done (h, u64 (start / 4096 + 1))) = Done (h1, (start + size) / 4096)
     /\ 4096 <= size /\ va + size <= ve /\ size mod 4096 = 0
     /\ kh_mb h1 = kh_mb h /\ hstep T h T h1 /\ mapping 0 T (wd h) T (wd h1) b va (va + size) start attr).
  { assert (Hdiv : forall k, 0 <= k -> start + 4096 * k <= 2 ^ 48 ->
      u64 (start / 4096 + k) = (start + 4096 * k) / 4096).
    { intros k Hk Hb'. rewrite (Z.mul_comm 4096 k), Z.div_add by lia. apply u64_small.
      assert (0 <= start / 4096) by (apply Z.div_pos; lia).
      assert (start / 4096 < 2 ^ 48) by (apply Z.div_lt_upper_bound; lia). lia. }
    destruct Hsz as [-> | (-> & Hs1 & Hs2)].
    - change (PAGE_SIZE =? PAGE_SIZE) with true. cbn [negb].
      destruct (page_step T h b p i va start) as (h1 & -> & S1 & S2 & S3); try done; try lia; [apply Hz; lia |].
      exists h1. cbn [obind]. rewrite Hdiv by lia. unfold PAGE_SIZE. done.
    - change (CONT_PTE_SIZE =? PAGE_SIZE) with false. cbn [negb].
      assert (Hi16 : i + 16 <= 512).
      { lia. }
      destruct (block_step T h b p i va start) as (h1 & -> & S1 & S2 & S3); try done; try lia.
      { intros j Hj. apply Hz; lia. }
      exists h1. cbn [obind]. change (Z.shiftr CONT_PTE_SIZE PAGE_SHIFT) with 16.
      rewrite Hdiv by lia. unfold CONT_PTE_SIZE. done. }
  destruct Hstep as (h1 & -> & Hsz4 & Hle & Hszm & Emb & Hs & Hm). cbn [obind]. cbv beta iota.
  rewrite (u64_small (va + size)) by lia.
  destruct (Z.ltb_spec (va + size) ve) as [Hlt | Hge].
  - assert (Hvm : (va + size) mod 4096 = 0) by (rewrite Zplus_mod, R6, Hszm; reflexivity).
    assert (Hsh : 8 * Z.shiftr size PAGE_SHIFT = 8 * (size / 4096)) by (by rewrite Z.shiftr_div_pow2).
    assert (Hidx : lindex 0 (va + size) = i + size / 4096).
    { apply (lindex_slot 0 _ p). { pose proof (Z.div_mod size 4096). lia. }
      change (lsize 0) with 4096. pose proof (Z.div_mod size 4096 ltac:(lia)).
      symmetry. apply (Z.div_unique_pos _ _ _ 0); lia. }
    assert (Hr' : rng 0 p (va + size) ve (start + size)).
    { split; try done; try lia.
      - change (lsize 1) with 2097152. symmetry. apply (Z.div_unique_pos _ _ _ (va + size - p * 2097152)); lia.
      - rewrite Zplus_mod, R8, Hszm. reflexivity. }
    destruct (IH h1 (va + size) (start + size)) as (h2 & E & Emb2 & Hs2 & Hm2); try done; try lia.
    { apply (mp_tree _ _ _ _ _ _ _ _ _ _ Hm). } { apply Hs. }
    { eapply fresh_after; [exact Hm | exact Hvm | lia | done]. }
    exists h2. split; [| split; [congruence |]; split; [by eapply hstep_trans |]].
    + rewrite <- E. f_equal. rewrite Hsh, Hidx. lia.
    + eapply (mapping_trans 0); [exact Hb | | | exact Hm |]; [| lia |].
      * intros v Hv. exact (rng_inside _ _ _ _ _ v Hr Hv).
      * replace (start + (va + size - va)) with (start + size) by lia. exact Hm2.
  - exists h1. split; [done |]. split; [done |]. split; [done |]. replace ve with (va + size) by lia. done.
Qed.

(** ** One level *)

(** What mapping a range in a table of level [n] does: the translation, the
    heap, at most as many tables as the range spans, the directory kept. *)
Record vpost (n : nat) (T : tables) (mm : memory_struct) (h : kheap)
    (T' : tables) (mm' : memory_struct) (h' : kheap) (b va ve start : Z) : Prop := {
  vp_map : mapping n T (wd h) T' (wd h') b va ve start attr;
  vp_heap : hstep T h T' h';
  vp_takes : exists j, Z.of_nat j <= need n va ve /\ takes j (kh_mb h) = Some (kh_mb h');
  vp_mm : mm_pg_dir mm' = mm_pg_dir mm /\ mm_ok mm';
}.

Lemma vpost_trans n T mm h T1 mm1 h1 T2 mm2 h2 b p va nxt ve start :
  T !! b = Some (n, p) -> rng n p va ve start -> va < nxt < ve -> nxt mod lsize n = 0 ->
  vpost n T mm h T1 mm1 h1 b va nxt start ->
  vpost n T1 mm1 h1 T2 mm2 h2 b nxt ve (start + (nxt - va)) ->
  vpost n T mm h T2 mm2 h2 b va ve start.
Proof.
  intros Hb Hr Hn Hm [A1 A2 (j1 & A3 & A3') [A4 A5]] [B1 B2 (j2 & B3 & B3') [B4 B5]]. split.
  - eapply mapping_trans; [exact Hb | | exact Hn | exact A1 | exact B1].
    intros v Hv. exact (rng_inside _ _ _ _ _ v Hr Hv).
  - by eapply hstep_trans.
  - exists (j1 + j2)%nat. split; [rewrite <- (need_split n n va nxt ve) by (lia || done); lia |].
    by eapply takes_trans.
  - split; [congruence | done].
Qed.

Definition enough (n : nat) (va ve : Z) (h : kheap) : Prop := supply (Z.to_nat (need n va ve)) (kh_mb h).

(** The state a mapping starts from. *)
Record vstate (T : tables) (mm : memory_struct) (h : kheap) : Prop := {
  vs_tree : tree T (wd h);
  vs_tabs : tabs_ok T h;
  vs_mm : mm_ok mm;
}.

Lemma vpost_state n T mm h T' mm' h' b va ve start :
  vpost n T mm h T' mm' h' b va ve start -> vstate T' mm' h'.
Proof. intros [A1 A2 _ [_ A4]]. split; [apply A1 | apply A2 | done]. Qed.

(** A function called on entry [i] of a table of level [S n]. *)
Definition fn_ok (n : nat) (f : memory_struct -> kheap -> Z -> Z -> Z -> Z -> outcome (Z * memory_struct * kheap)) : Prop :=
  forall T mm h b p i va ve start,
    vstate T mm h -> T !! b = Some (S n, p) -> 0 <= i < 512 -> rng n (p * 512 + i) va ve start ->
    fresh (S n) T (wd h) va ve -> enough (S n) va ve h ->
    exists T' mm' h', f mm h (b + 8 * i + LINER_MAP_OFFSET) va ve start = Done (0, mm', h')
      /\ vpost (S n) T mm h T' mm' h' b va ve start.

(** A loop over the entries of a table of level [n]. *)
Definition loop_ok (n : nat) (g : memory_struct -> kheap -> Z -> Z -> Z -> Z -> outcome (Z * memory_struct * kheap)) : Prop :=
  forall T mm h b p va ve start,
    vstate T mm h -> T !! b = Some (n, p) -> rng n p va ve start ->
    fresh n T (wd h) va ve -> enough n va ve h ->
    exists T' mm' h', g mm h (b + 8 * lindex n va + LINER_MAP_OFFSET) va ve start = Done (0, mm', h')
      /\ vpost n T mm h T' mm' h' b va ve start.

Lemma pxd_offset_val T r n b p i va :
  ptree T r -> T !! b = Some (S n, p) -> 0 <= i < 512 ->
  Z.testbit (r (b + 8 * i)) 0 = true -> Z.testbit (r (b + 8 * i)) 1 = true ->
  pxd_offset (lshift n) (r (b + 8 * i)) va = desc_addr 0 (r (b + 8 * i)) + 8 * lindex n va + LINER_MAP_OFFSET.
Proof.
  intros Ht Hb Hi E0 E1. pose proof OFFSET_VAL as Ho.
  destruct (pt_child _ _ Ht _ _ _ _ Hb Hi E0 E1) as [Hc Ep].
  destruct (pt_page _ _ Ht _ _ _ Hc) as (_ & P1 & P2).
  unfold pxd_offset. rewrite Ep, phys_to_virt_linear, pxd_index_val by lia.
  pose proof (lindex_range n va). rewrite u64_small; lia.
Qed.

(** The populate functions: a table type and attribute bits. *)
Section Track.
Context (present : Z -> bool) (ta : Z).
Context (Hpres : present 0 = false) (Hta : attr_bits ta).

Lemma alloc_track_spec T mm h n b p i va :
  vstate T mm h -> T !! b = Some (S n, p) -> (n <= 2)%nat -> 0 <= i < 512 ->
  (wd h (b + 8 * i) <> 0 -> Z.testbit (wd h (b + 8 * i)) 1 = true) -> supply 1 (kh_mb h) ->
  exists T1 mm1 h1,
    pxd_alloc_track (__pxd_alloc present (Z.lor ta 3)) (lshift n) mm h (b + 8 * i + LINER_MAP_OFFSET) va
      = Done (desc_addr 0 (wd h1 (b + 8 * i)) + 8 * lindex n va + LINER_MAP_OFFSET, mm1, h1)
    /\ vstate T1 mm1 h1 /\ prep n T (wd h) b p i T1 (wd h1) /\ hstep T h T1 h1
    /\ mm_pg_dir mm1 = mm_pg_dir mm
    /\ exists j, (j <= 1)%nat /\ takes j (kh_mb h) = Some (kh_mb h1).
Proof.
  intros [Ht Hok Hmm] Hb Hn Hi Hpr Hsup. pose proof (tree_paged _ _ Ht) as Hpg. pose proof OFFSET_VAL as Ho.
  unfold pxd_alloc_track. rewrite (entry_get T h b _ i Hok Hb Hi). cbn [obind]. unfold pte_none.
  destruct (Z.eqb_spec (wd h (b + 8 * i)) 0) as [Ez | Hnz].
  - (* a new table *)
    unfold __pxd_alloc. rewrite (entry_get T h b _ i Hok Hb Hi), Ez. cbn [obind]. rewrite Hpres.
    destruct (table_alloc_spec T mm h (n, p * 512 + i) Ht Hok Hmm Hsup)
      as (nb & mm1 & h1 & -> & M1 & M2 & Htk & Hpage & Hnb & Hzero & Hsame & Hs). cbn [obind].
    rewrite (proj2 (Z.eqb_neq (nb + LINER_MAP_OFFSET) 0)) by lia.
    rewrite virt_to_phys_linear by lia.
    assert (Hdesc : Z.lor nb (Z.lor ta 3) = page_desc nb ta) by apply Z.lor_assoc. rewrite Hdesc.
    assert (Hnbr : 0 <= nb < 2 ^ 48) by lia. destruct Hpage as (Hp1 & Hp2 & Hp3).
    set (T1 := <[nb := (n, p * 512 + i)]> T) in *.
    assert (Hpg1 : paged T1).
    { intros c k q Hc. apply lookup_insert_Some in Hc as [[<- _] | [_ Hc]]; [done | by apply (Hpg c k q)]. }
    assert (Hb1 : T1 !! b = Some (S n, p)) by (by apply (hs_sub _ _ _ _ Hs)).
    destruct (entry_set T1 h1 b (S n) p i (page_desc nb ta) Hpg1 (hs_tabs _ _ _ _ Hs) Hb1 Hi)
      as (h2 & -> & Emb & Hs2 & Hag & Hw); [by apply desc_range |]. cbn [obind].
    change (0 =? 0) with true. cbn [negb].
    assert (Hag' : agree_but T b i (wd h) (wd h2)).
    { intros c k q j Hc Hj Hne. rewrite (Hag c k q j (hs_sub _ _ _ _ Hs _ _ Hc) Hj Hne). by apply (Hsame c k q). }
    assert (Hbits : Z.testbit (wd h2 (b + 8 * i)) 0 = true /\ Z.testbit (wd h2 (b + 8 * i)) 1 = true).
    { rewrite Hw, !desc_bit by (done || lia). by rewrite !orb_true_r. }
    destruct Hbits as [B0 B1].
    assert (Hzero2 : forall j, 0 <= j < 512 -> wd h2 (nb + 8 * j) = 0).
    { intros j Hj. rewrite (Hag nb n (p * 512 + i) j); [by apply Hzero | apply lookup_insert_eq | done |].
      left. congruence. }
    assert (Had : desc_addr 0 (wd h2 (b + 8 * i)) = nb) by (rewrite Hw; by apply desc_addr_page).
    assert (Hph : __pte_to_phys (wd h2 (b + 8 * i)) = nb) by (rewrite Hw; by apply desc_phys).
    pose proof (prep_linked n T (wd h) (wd h2) b p i nb Ht Hb Hn Hi Hag' Ez Hnb (conj Hp1 (conj Hp2 Hp3))
                  Hzero2 Had Hph B0 B1) as Hprep.
    exists T1, mm1, h2. rewrite (entry_get T1 h2 b _ i (hs_tabs _ _ _ _ Hs2) Hb1 Hi). cbn [obind].
    rewrite (pxd_offset_val T1 (wd h2) n b p i va (tree_ptree _ _ (po_tree _ _ _ _ _ _ _ _ Hprep)) Hb1 Hi B0 B1).
    split; [done |]. split; [split; [apply Hprep | apply Hs2 | done] |]. split; [exact Hprep |].
    split; [by eapply hstep_trans |]. split; [done |]. exists 1%nat. split; [lia |]. by rewrite Emb.
  - (* the table is there *)
    cbn [obind]. change (0 =? 0) with true. cbn [negb]. rewrite (entry_get T h b _ i Hok Hb Hi). cbn [obind].
    assert (B0 : Z.testbit (wd h (b + 8 * i)) 0 = true).
    { destruct (Z.testbit (wd h (b + 8 * i)) 0) eqn:E; [done |].
      exfalso. apply Hnz. by apply (tr_none _ _ Ht b (S n) p i). }
    exists T, mm, h. rewrite (pxd_offset_val T (wd h) n b p i va) by auto using tree_ptree. split; [done |].
    split; [done |]. split; [apply prep_there; auto |]. split; [by apply hstep_refl |]. split; [done |].
    exists 0%nat. split; [lia | done].
Qed.

(** From the loop over a table to the function that finds or makes it. *)
Lemma fn_from_loop n f g :
  (n <= 2)%nat -> loop_ok n g ->
  (forall mm h pxd va ve start, f mm h pxd va ve start =
     (let! (t, mm, h) := pxd_alloc_track (__pxd_alloc present (Z.lor ta 3)) (lshift n) mm h pxd va in
      if t =? 0 then Done (- ENOMEM, mm, h) else g mm h t va ve start)) ->
  fn_ok n f.
Proof.
  intros Hn Hg Hf T mm h b p i va ve start Hst Hb Hi Hr Hfr Hen. pose proof OFFSET_VAL as Ho.
  pose proof Hr as [[R1 R2] _ R4 R5 _ _ _ _].
  assert (Hslot : forall v, va <= v < ve -> v / lsize (S n) = p * 512 + i).
  { intros v Hv. exact (rng_inside _ _ _ _ _ v Hr Hv). }
  assert (Hspan : need (S n) va ve = 1 + need n va ve).
  { cbn [need]. unfold span. rewrite !Hslot by lia. lia. }
  pose proof (need_nonneg n va ve ltac:(lia)) as Hnn. unfold enough in Hen. rewrite Hspan in Hen.
  destruct (alloc_track_spec T mm h n b p i va Hst Hb Hn Hi) as (T1 & mm1 & h1 & E & Hst1 & Hprep & Hs1 & M1 & j & Hj & Htk).
  { intros Hne. destruct (Z.testbit (wd h (b + 8 * i)) 0) eqn:E0.
    - destruct (Hfr b (S n) p i Hb ltac:(lia) Hi) as (_ & H1 & _); [| done | exact H1].
      pose proof (proj1 (div_slot _ _ _) (Hslot va ltac:(lia))). unfold slot_apart. lia.
    - exfalso. apply Hne. by apply (tr_none _ _ (vs_tree _ _ _ Hst) b (S n) p i). }
  { eapply supply_le; [exact Hen | lia]. }
  set (ct := desc_addr 0 (wd h1 (b + 8 * i))) in *.
  destruct (Hg T1 mm1 h1 ct (p * 512 + i) va ve start Hst1) as (T2 & mm2 & h2 & Eg & [V1 V2 (j2 & V3 & V3') [V4 V5]]).
  { exact (po_child _ _ _ _ _ _ _ _ Hprep). } { done. }
  { eapply fresh_prep; [exact Hb | exact Hprep |]. eapply fresh_narrow; [| | | exact Hfr]; lia. }
  { unfold enough. eapply supply_le; [eapply supply_after; [exact Htk | exact Hen | lia] | lia]. }
  exists T2, mm2, h2. rewrite Hf, E. cbn [obind].
  assert (Hct : 0 <= ct) by (apply (tr_page _ _ (vs_tree _ _ _ Hst1) ct n (p * 512 + i)), (po_child _ _ _ _ _ _ _ _ Hprep)).
  pose proof (lindex_range n va).
  rewrite (proj2 (Z.eqb_neq (ct + 8 * lindex n va + LINER_MAP_OFFSET) 0)) by lia.
  split; [exact Eg |]. split.
  - eapply tree_prep_lift; [exact Hb | exact Hi | lia | exact Hslot | exact Hprep | exact V1].
  - by eapply hstep_trans.
  - exists (j + j2)%nat. rewrite Hspan. split; [lia |]. by eapply takes_trans.
  - split; [congruence | done].
Qed.
End Track.

Lemma addr_end_val n va ve :
  (n <= 2)%nat -> 0 <= va < ve -> ve < 2 ^ 64 -> va + lsize (S n) < 2 ^ 64 ->
  addr_end (lsize (S n)) va ve = piece_end n va ve.
Proof.
  intros Hn Hva Hve Hs. unfold addr_end, piece_end. pose proof (lsize_pos (S n)) as Hpos.
  rewrite (u64_small (va + lsize (S n))) by lia. rewrite align_mask_pow2 by (try apply is_pow2_lsize; lia).
  replace ((va + lsize (S n)) mod lsize (S n)) with (va mod lsize (S n))
    by (rewrite <- (Z_mod_plus_full va 1 (lsize (S n))); f_equal; lia).
  pose proof (Z.div_mod va (lsize (S n)) ltac:(lia)). pose proof (Z.mod_pos_bound va (lsize (S n)) Hpos).
  replace (va + lsize (S n) - va mod lsize (S n)) with ((va / lsize (S n) + 1) * lsize (S n)) by lia.
  rewrite !u64_small by lia.
  destruct (Z.ltb_spec ((va / lsize (S n) + 1) * lsize (S n) - 1) (ve - 1)); lia.
Qed.

Lemma sect_prot_val : mk_sect_prot prot = Z.lor attr 1.
Proof.
  unfold mk_sect_prot, PTE_TYPE_MASK, PXD_TYPE_SECT. f_equal. apply Z.bits_inj'. intros i Hi.
  rewrite Z.ldiff_spec, Z.lor_spec, bit_3 by lia. destruct (Z.ltb_spec i 2).
  - rewrite (attr_ok_bit attr i) by (apply Ha || lia). done.
  - by rewrite orb_false_r, andb_true_r.
Qed.

Lemma block_desc_val phys : phys mod 4096 = 0 -> 0 <= phys < 2 ^ 48 ->
  pfn_pte (Z.shiftr phys PAGE_SHIFT) (mk_sect_prot prot) = Z.lor (Z.lor phys attr) 1
  /\ 0 <= Z.lor (Z.lor phys attr) 1 < 2 ^ 64.
Proof.
  intros Hp Hr. pose proof (pa_range _ Ha). split.
  - rewrite sect_prot_val, Z.shiftr_div_pow2 by done. change (2 ^ PAGE_SHIFT) with 4096.
    unfold pfn_pte. rewrite frame_val by done. apply Z.lor_assoc.
  - assert (E : Z.ldiff (Z.lor (Z.lor phys attr) 1) (page_desc phys attr) = 0).
    { apply Z.bits_inj'. intros i Hi. unfold page_desc. rewrite Z.ldiff_spec, !Z.lor_spec, Z.bits_0, bit_3 by lia.
      change 1 with (2 ^ 0). rewrite Z.pow2_bits_eqb by lia.
      destruct (Z.eqb_spec 0 i) as [<- | _].
      { change (0 <? 2) with true. by rewrite !orb_true_r. }
      by destruct (Z.testbit phys i), (Z.testbit attr i), (i <? 2). }
    pose proof (desc_range phys Hr attr (page_attr_bits _ Ha)). apply Z.ldiff_le in E; lia.
Qed.

(** ** The loops over tables *)

Section Level.
Context (n : nat) (Hn : (S n <= 2)%nat) (next_fn : vmap_fn).
Context (free : kheap -> Z -> Z -> outcome (Z * kheap)) (set_huge : kheap -> Z -> Z -> Z -> outcome (Z * kheap)).
Context (Hnext : fn_ok n (fun mm h pxd va ve start => next_fn mm h pxd va ve start prot)).
Context (Hset : forall h pxd phys, pxd_get h pxd = Done 0 -> phys mod lsize (S n) = 0 -> 0 <= phys < 2 ^ 48 ->
  set_huge h pxd phys prot = let! h := pxd_set h pxd (Z.lor (Z.lor phys attr) 1) in Done (1, h)).

Let huge := vmap_try_huge (lsize (S n)) free set_huge.

Lemma level_step T mm h b p va ve start :
  vstate T mm h -> T !! b = Some (S n, p) -> rng (S n) p va ve start ->
  fresh (S n) T (wd h) va ve -> enough (S n) va ve h ->
  let nxt := piece_end n va ve in
  let pxd := b + 8 * lindex (S n) va + LINER_MAP_OFFSET in
  exists T1 mm1 h1,
    (let! (done, h) := huge h pxd va nxt start prot in
     if negb (done =? 0) then Done (0, mm, h) else next_fn mm h pxd va nxt start prot) = Done (0, mm1, h1)
    /\ vpost (S n) T mm h T1 mm1 h1 b va nxt start.
Proof.
  intros Hst Hb Hr Hfr Hen nxt pxd. pose proof Hst as [Ht Hok Hmm].
  pose proof Hr as [[R1 R2] R3 R4 R5 R6 R7 R8 [R9 R10]]. pose proof (lsize_pos (S n)) as Hpos.
  assert (Hl30 : lsize (S n) <= 2 ^ 30) by (apply Z.pow_le_mono_r; unfold lshift; lia).
  pose proof (slot_split (S n) va) as Hq. rewrite R4 in Hq.
  set (i := lindex (S n) va) in *. pose proof (lindex_range (S n) va : 0 <= i < 512) as Hi.
  pose proof (proj1 (div_slot (S n) va _) Hq) as Hsl.
  assert (Hpe : va < nxt <= ve) by (unfold nxt, piece_end; rewrite Hq; lia).
  assert (Hnz : need (S n) va nxt <= need (S n) va ve) by (by apply need_piece).
  assert (Htable : exists T1 mm1 h1, next_fn mm h pxd va nxt start prot = Done (0, mm1, h1)
      /\ vpost (S n) T mm h T1 mm1 h1 b va nxt start).
  { apply (Hnext T mm h b p i va nxt start Hst Hb Hi).
    - by apply rng_piece.
    - eapply fresh_narrow; [| | | exact Hfr]; lia.
    - unfold enough. eapply supply_le; [exact Hen |]. lia. }
  unfold huge, vmap_try_huge. rewrite (u64_small (nxt - va)) by lia.
  destruct (Z.eqb_spec (nxt - va) (lsize (S n))) as [Esz | _]; cbn [negb obind Z.eqb]; [| exact Htable].
  change (lsize (S n)) with (2 ^ lshift (S n)) at 1 2. rewrite !is_aligned_mod by (unfold lshift; lia).
  fold (lsize (S n)).
  destruct (Z.eqb_spec (va mod lsize (S n)) 0) as [Eva | _]; cbn [negb obind Z.eqb]; [| exact Htable].
  destruct (Z.eqb_spec (start mod lsize (S n)) 0) as [Est | _]; cbn [negb obind Z.eqb]; [| exact Htable].
  unfold pxd. rewrite (entry_get T h b _ i Hok Hb Hi). cbn [obind].
  pose proof (mod_multiple (S n) va Eva) as Hva. rewrite Hq in Hva.
  assert (Ez : wd h (b + 8 * i) = 0).
  { destruct (Z.testbit (wd h (b + 8 * i)) 0) eqn:E0; [| by apply (tr_none _ _ Ht b (S n) p)]. exfalso.
    destruct (Hfr b (S n) p i Hb ltac:(lia) Hi) as (_ & _ & Hno); [unfold slot_apart; lia | done |].
    apply Hno. split; [lia |]. lia. }
  rewrite Ez. change (pte_present 0) with false. cbn [obind]. change (1 =? 0) with false. cbn match.
  rewrite Hset; [| by rewrite (entry_get T h b _ i Hok Hb Hi), Ez | done | lia].
  destruct (block_desc_val start) as [_ Hdr]; [done | lia |].
  destruct (entry_set T h b (S n) p i _ (tree_paged _ _ Ht) Hok Hb Hi Hdr) as (h1 & -> & Emb & Hs & Hag & Hw).
  cbn [obind]. change (1 =? 0) with false. cbn [negb].
  exists T, mm, h1. split; [done |].
  pose proof (leaf_mapping (S n) T (wd h) (wd h1) b p i start attr 1 Ht Hb Hn Hi Hag Ez Est ltac:(lia)
                Ha eq_refl Hw va Hva) as Hm. replace (va + lsize (S n)) with nxt in Hm by lia.
  split; [done | done | | done].
  exists 0%nat. split; [pose proof (need_nonneg (S n) va nxt ltac:(lia)); lia | by rewrite <- Emb].
Qed.

Lemma level_loop_ok fuel : forall T mm h b p va ve start,
  vstate T mm h -> T !! b = Some (S n, p) -> rng (S n) p va ve start ->
  fresh (S n) T (wd h) va ve -> enough (S n) va ve h ->
  (ve - 1) / lsize (S n) - va / lsize (S n) < Z.of_nat fuel ->
  exists T' mm' h', vmap_loop fuel (lsize (S n)) huge next_fn mm h
      (b + 8 * lindex (S n) va + LINER_MAP_OFFSET) va ve start prot = Done (0, mm', h')
    /\ vpost (S n) T mm h T' mm' h' b va ve start.
Proof.
  induction fuel as [|fuel IH]; intros T mm h b p va ve start Hst Hb Hr Hfr Hen Hfu.
  all: pose proof Hr as [[R1 R2] R3 R4 R5 R6 R7 R8 [R9 R10]].
  { assert (va / lsize (S n) <= (ve - 1) / lsize (S n)) by (apply Z.div_le_mono; [apply lsize_pos | lia]). lia. }
  assert (Hl30 : lsize (S n) <= 2 ^ 30) by (apply Z.pow_le_mono_r; unfold lshift; lia).
  cbn [vmap_loop]. rewrite addr_end_val by lia.
  destruct (level_step T mm h b p va ve start Hst Hb Hr Hfr Hen) as (T1 & mm1 & h1 & E & Hp). cbv zeta in E.
  set (nxt := piece_end n va ve) in *. set (pxd := b + 8 * lindex (S n) va + LINER_MAP_OFFSET) in *.
  destruct (huge h pxd va nxt start prot) as [[done h'] | |]; cbn [obind] in E |- *; try discriminate E.
  rewrite E. cbn [obind]. change (0 =? 0) with true. cbn [negb].
  pose proof (proj1 (div_slot (S n) va _) eq_refl) as Hsl. pose proof (lsize_pos (S n)) as Hpos.
  assert (Hpe : va < nxt <= ve) by (unfold nxt, piece_end; lia).
  destruct (Z.eqb_spec nxt ve) as [Ev | Hne].
  { exists T1, mm1, h1. rewrite Ev in Hp. done. }
  destruct (piece_end_cases n va ve) as [Ec | (Hlt & Epe & Hmod)]; [done |]. fold nxt in Epe, Hmod, Hlt.
  assert (Hnx : nxt / lsize (S n) = va / lsize (S n) + 1) by (apply div_slot; lia).
  pose proof (rng_rest n p va ve start Hr Hlt) as Hr'. fold nxt in Hr'.
  rewrite (u64_small (nxt - va)) by lia. rewrite (u64_small (start + (nxt - va))) by lia.
  pose proof (need_split (S n) (S n) va nxt ve ltac:(lia) Hmod) as Hns.
  pose proof (need_nonneg (S n) nxt ve Hlt).
  pose proof Hp as [V1 V2 (j & V3 & V3') V4].
  destruct (IH T1 mm1 h1 b p nxt ve (start + (nxt - va))) as (T2 & mm2 & h2 & E2 & Hp2).
  - by eapply vpost_state.
  - by apply (mp_sub _ _ _ _ _ _ _ _ _ _ V1).
  - done.
  - eapply fresh_after; [exact V1 | exact Hmod | lia | exact Hfr].
  - unfold enough. eapply supply_le; [eapply supply_after; [exact V3' | exact Hen |] |]; lia.
  - lia.
  - exists T2, mm2, h2. split.
    + rewrite <- E2. f_equal. unfold pxd.
      pose proof (slot_split (S n) va) as Q1. pose proof (slot_split (S n) nxt) as Q2.
      rewrite R4 in Q1. rewrite (rg_lo _ _ _ _ _ Hr') in Q2. lia.
    + eapply vpost_trans; [exact Hb | exact Hr | | exact Hmod | exact Hp | exact Hp2]. lia.
Qed.
End Level.

(** ** The four levels *)

Lemma pte_range_ok : fn_ok 0 (fun mm h pxd va ve start => vmap_pte_range mm h pxd va ve start prot).
Proof.
  apply (fn_from_loop pte_present (Z.lor PXD_TABLE_AF PMD_TABLE_PXN) eq_refl ltac:(split; done) 0 _
    (fun mm h t va ve start =>
       let! h := vmap_pte_loop TABLE_FUEL h t va ve (Z.shiftr start PAGE_SHIFT) prot in Done (0, mm, h))).
  - lia.
  - intros T mm h b p va ve start [Ht Hok Hmm] Hb Hr Hfr Hen. pose proof Hr as [[R1 R2] R3 R4 R5 _ _ _ _].
    assert (Hspan : ve - va <= lsize 1).
    { apply div_slot in R4, R5. change (lsize 1) with 2097152 in *. lia. }
    destruct (pte_loop_ok T b p ve TABLE_FUEL h va start Ht Hok Hb Hr Hfr) as (h' & E & Emb & Hs & Hm).
    { change (lsize 1) with 2097152 in Hspan. unfold TABLE_FUEL. lia. }
    exists T, mm, h'. rewrite Z.shiftr_div_pow2 by done. change (2 ^ PAGE_SHIFT) with 4096.
    rewrite E. cbn [obind]. split; [done |]. split; [done | done | | done].
    exists 0%nat. split; [simpl; lia | by rewrite <- Emb].
  - intros. reflexivity.
Qed.

Lemma huge_safe new : pgattr_change_is_safe 0 new = true.
Proof. reflexivity. Qed.

Lemma table_span n p va ve start : rng n p va ve start ->
  (ve - 1) / lsize n - va / lsize n < Z.of_nat TABLE_FUEL.
Proof.
  intros [_ _ R4 R5 _ _ _ _]. pose proof (slot_split n va). pose proof (slot_split n (ve - 1)).
  pose proof (lindex_range n va). pose proof (lindex_range n (ve - 1)). unfold TABLE_FUEL. lia.
Qed.

Lemma pmd_range_ok : fn_ok 1 (fun mm h pxd va ve start => vmap_pmd_range mm h pxd va ve start prot).
Proof.
  apply (fn_from_loop pte_present PXD_TABLE_AF eq_refl ltac:(split; done) 1 _
    (fun mm h t va ve start =>
       vmap_loop TABLE_FUEL PMD_SIZE vmap_try_huge_pmd vmap_pte_range mm h t va ve start prot)).
  - lia.
  - intros T mm h b p va ve start Hst Hb Hr Hfr Hen.
    apply (level_loop_ok 0 ltac:(lia) vmap_pte_range pmd_free_pte_page pmd_set_huge pte_range_ok)
      with (fuel := TABLE_FUEL) (p := p); try done; [| by eapply table_span].
    intros h0 pxd phys E0 Hp Hpr. unfold pmd_set_huge. rewrite E0. cbn [obind]. rewrite huge_safe. cbn [negb].
    destruct (block_desc_val phys) as [-> _]; [by apply (mod_lsize_le 0 1 phys); [lia |] | done |].
    change PMD_SIZE with (2 ^ lshift 1). rewrite is_aligned_mod by done. fold (lsize 1). by rewrite Hp.
  - intros. reflexivity.
Qed.

Lemma pud_range_ok : fn_ok 2 (fun mm h pxd va ve start => vmap_pud_phys_range mm h pxd va ve start prot).
Proof.
  apply (fn_from_loop pgd_present PXD_TABLE_AF eq_refl ltac:(split; done) 2 _
    (fun mm h t va ve start =>
       vmap_loop TABLE_FUEL PUD_SIZE vmap_try_huge_pud vmap_pmd_range mm h t va ve start prot)).
  - lia.
  - intros T mm h b p va ve start Hst Hb Hr Hfr Hen.
    apply (level_loop_ok 1 ltac:(lia) vmap_pmd_range pud_free_pmd_page pud_set_huge pmd_range_ok)
      with (fuel := TABLE_FUEL) (p := p); try done; [| by eapply table_span].
    intros h0 pxd phys E0 Hp Hpr. unfold pud_set_huge. rewrite E0. cbn [obind]. rewrite huge_safe. cbn [negb].
    destruct (block_desc_val phys) as [-> _]; [by apply (mod_lsize_le 0 2 phys); [lia |] | done | done].
  - intros. reflexivity.
Qed.

Lemma pgd_loop_ok fuel : forall T mm h b p va ve start,
  vstate T mm h -> T !! b = Some (3%nat, p) -> rng 3 p va ve start -> ve <= 2 ^ 48 ->
  fresh 3 T (wd h) va ve -> enough 3 va ve h ->
  (ve - 1) / lsize 3 - va / lsize 3 < Z.of_nat fuel ->
  exists T' mm' h', vmap_pgd_loop fuel mm h (b + 8 * lindex 3 va + LINER_MAP_OFFSET) va ve start prot
      = Done (0, mm', h')
    /\ vpost 3 T mm h T' mm' h' b va ve start.
Proof.
  induction fuel as [|fuel IH]; intros T mm h b p va ve start Hst Hb Hr Htop Hfr Hen Hfu.
  all: pose proof Hr as [[R1 R2] R3 R4 R5 R6 R7 R8 [R9 R10]].
  { assert (va / lsize 3 <= (ve - 1) / lsize 3) by (apply Z.div_le_mono; [apply lsize_pos | lia]). lia. }
  cbn [vmap_pgd_loop]. change PGDIR_SIZE with (lsize 3). rewrite addr_end_val by (change (lsize 3) with (2 ^ 39); lia).
  pose proof (slot_split 3 va) as Hq. rewrite R4 in Hq. set (i := lindex 3 va) in *.
  pose proof (lindex_range 3 va : 0 <= i < 512) as Hi.
  set (nxt := piece_end 2 va ve) in *.
  pose proof (proj1 (div_slot 3 va _) eq_refl) as Hsl. pose proof (lsize_pos 3) as Hpos.
  assert (Hpe : va < nxt <= ve) by (unfold nxt, piece_end; lia).
  assert (Hnz : need 3 va nxt <= need 3 va ve) by (by apply need_piece).
  destruct (pud_range_ok T mm h b p i va nxt start Hst Hb Hi) as (T1 & mm1 & h1 & E & Hp).
  { by apply rng_piece. } { eapply fresh_narrow; [| | | exact Hfr]; lia. }
  { unfold enough. eapply supply_le; [exact Hen |]. lia. }
  rewrite E. cbn [obind]. change (0 =? 0) with true. cbn [negb].
  destruct (Z.eqb_spec nxt ve) as [Ev | Hne].
  { exists T1, mm1, h1. rewrite Ev in Hp. done. }
  destruct (piece_end_cases 2 va ve) as [Ec | (Hlt & Epe & Hmod)]; [done |]. fold nxt in Epe, Hmod, Hlt.
  assert (Hnx : nxt / lsize 3 = va / lsize 3 + 1) by (apply div_slot; lia).
  pose proof (rng_rest 2 p va ve start Hr Hlt) as Hr'. fold nxt in Hr'.
  rewrite (u64_small (nxt - va)) by lia. rewrite (u64_small (start + (nxt - va))) by lia.
  pose proof (need_split 3 3 va nxt ve ltac:(lia) Hmod) as Hns.
  pose proof (need_nonneg 3 nxt ve Hlt).
  pose proof Hp as [V1 V2 (j & V3 & V3') V4].
  destruct (IH T1 mm1 h1 b p nxt ve (start + (nxt - va))) as (T2 & mm2 & h2 & E2 & Hp2).
  - by eapply vpost_state.
  - by apply (mp_sub _ _ _ _ _ _ _ _ _ _ V1).
  - done.
  - done.
  - eapply fresh_after; [exact V1 | exact Hmod | lia | exact Hfr].
  - unfold enough. eapply supply_le; [eapply supply_after; [exact V3' | exact Hen |] |]; lia.
  - lia.
  - exists T2, mm2, h2. split.
    + rewrite <- E2. f_equal.
      pose proof (slot_split 3 nxt) as Q2. rewrite (rg_lo _ _ _ _ _ Hr') in Q2. lia.
    + eapply vpost_trans; [exact Hb | exact Hr | | exact Hmod | exact Hp | exact Hp2]. lia.
Qed.
End Attr.

(** ** The entry point *)

(** An address space: its tables with the directory at [root], which the
    process points to. *)
Record space (T : tables) (root : Z) (mm : memory_struct) (h : kheap) : Prop := {
  sp_state : vstate T mm h;
  sp_root : T !! root = Some (3%nat, 0);
  sp_dir : mm_pg_dir mm = root + LINER_MAP_OFFSET;
}.

(** A call: page-aligned, not empty, starting in the range of the first entry
    of the directory (below 512 GiB): the code does not add the index of the
    address to the directory, so it is wrong for the kernel areas above. *)
Record vmap_call (phys virt size : Z) : Prop := {
  vc_pages : phys mod 4096 = 0 /\ virt mod 4096 = 0 /\ size mod 4096 = 0;
  vc_size : 0 < size;
  vc_virt : 0 <= virt < PGDIR_SIZE /\ virt + size <= 2 ^ 48;
  vc_phys : 0 <= phys /\ phys + size <= 2 ^ 48;
}.

Lemma vmap_spec T root mm h phys virt size attr :
  page_attr attr -> space T root mm h -> vmap_call phys virt size ->
  fresh 3 T (wd h) virt (virt + size) -> enough 3 virt (virt + size) h ->
  exists T' mm' h', vmap_phys_range_noflush mm h phys virt size (Z.lor attr 3) = Done (0, mm', h')
    /\ space T' root mm' h' /\ vpost attr 3 T mm h T' mm' h' root virt (virt + size) phys.
Proof.
  intros Ha [Hst Hroot Hdir] [(C1 & C2 & C3) C4 [C5 C6] C7] Hfr Hen.
  unfold vmap_phys_range_noflush. rewrite u64_small by lia.
  assert (H0 : lindex 3 virt = 0).
  { unfold lindex. change (lsize 3) with PGDIR_SIZE. rewrite Z.div_small by lia. reflexivity. }
  assert (Hr : rng 3 0 virt (virt + size) phys).
  { split; try done; try lia.
    - apply Z.div_small. change (lsize 4) with (2 ^ 48). lia.
    - apply Z.div_small. change (lsize 4) with (2 ^ 48). lia.
    - rewrite Zplus_mod, C2, C3. reflexivity. }
  destruct (pgd_loop_ok attr Ha TABLE_FUEL T mm h root 0 virt (virt + size) phys Hst Hroot Hr)
    as (T' & mm' & h' & E & Hp); try done; [by eapply table_span |].
  exists T', mm', h'. rewrite H0, Z.mul_0_r, Z.add_0_r, <- Hdir in E. split; [exact E |].
  split; [| exact Hp]. split; [by eapply vpost_state | |].
  - by apply (mp_sub _ _ _ _ _ _ _ _ _ _ (vp_map _ _ _ _ _ _ _ _ _ _ _ _ Hp)).
  - rewrite <- Hdir. apply (vp_mm _ _ _ _ _ _ _ _ _ _ _ _ Hp).
Qed.
