(* ===== verification/VSpace.v ===== *)
(** * Address spaces built by successive mappings

    What a process can reach is a list of regions; [region_at] is the
    translation they describe.  A space [shows] a list of regions when its
    tables translate exactly so.  Mapping one more region, away from the
    others, extends the list. *)

From S2P Require Import Prelude Memblock MemblockList MemblockArray MemblockRange MemblockFree.
From S2P Require Import MemblockSearch MemblockAlloc CString CStringSpec Kmalloc PageTable PageTableMap.
From S2P Require Import Pte PtTree PteDesc Vmap VmapHeap VmapFold VmapSpec.

(** ** Walks from the root *)

Section Root.
Context (T : tables) (r : Z -> Z) (root : Z).
Context (Ht : tree T r) (Hroot : T !! root = Some (3%nat, 0)).

Lemma twalk_down k b v :
  (k <= 3)%nat -> 0 <= v < 2 ^ 48 -> T !! b = Some (k, v / lsize (S k)) -> twalk 3 r root v = twalk k r b v.
Proof.
  intros Hk Hv. remember (3 - k)%nat as d eqn:Ed. revert k b Hk Ed.
  induction d as [|d IH]; intros k b Hk Ed Hb.
  - assert (k = 3)%nat as -> by lia.
    rewrite (Z.div_small v (lsize 4)) in Hb by (change (lsize 4) with (2 ^ 48); lia).
    by rewrite (tr_inj _ _ Ht _ _ _ Hroot Hb).
  - destruct (tr_link _ _ Ht b k _ Hb ltac:(lia)) as (b' & p & i & L1 & L2 & L3 & L4 & L5 & L6).
    assert (p = v / lsize (S (S k))) as ->.
    { pose proof (slot_split (S k) v) as Q. pose proof (lindex_range (S k) v). lia. }
    rewrite (IH (S k) b' ltac:(lia) ltac:(lia) L1). cbn [twalk].
    rewrite (lindex_slot (S k) v _ i L2 L3), L4, L5, L6. done.
Qed.

(** Nothing is mapped in a free range. *)
Lemma fresh_none lo hi v :
  fresh 3 T r lo hi -> lo <= v < hi -> forall k b, (k <= 3)%nat ->
  T !! b = Some (k, v / lsize (S k)) -> twalk k r b v = None.
Proof.
  intros Hf Hv. induction k as [|k IH]; intros b Hk Hb; cbn [twalk].
  all: assert (Hap : forall n, (n <= 3)%nat -> ~ slot_apart n (v / lsize (S n) * 512 + lindex n v) lo hi)
    by (intros n _; rewrite <- (slot_split n v);
        pose proof (proj1 (div_slot n v _) eq_refl); unfold slot_apart; lia).
  - destruct (Z.testbit _ 0) eqn:E0; [| done].
    destruct (Hf b _ _ _ Hb Hk (lindex_range 0 v) (Hap _ Hk) E0) as [? _]. done.
  - destruct (Z.testbit _ 0) eqn:E0; [| done].
    destruct (Hf b _ _ _ Hb Hk (lindex_range (S k) v) (Hap _ Hk) E0) as (_ & E1 & _). rewrite E1.
    apply IH; [lia |]. rewrite slot_split. exact (proj1 (tr_child _ _ Ht _ _ _ _ Hb (lindex_range _ v) E0 E1)).
Qed.
End Root.

(** A range away from the one that was mapped stays free. *)
Lemma fresh_other T r T1 r1 root va ve x attr lo hi :
  T !! root = Some (3%nat, 0) -> tree T r -> mapping 3 T r T1 r1 root va ve x attr ->
  (0 <= va < ve /\ ve <= 2 ^ 48) -> (0 <= lo < hi /\ hi <= 2 ^ 48) -> lo mod 4096 = 0 -> hi mod 4096 = 0 ->
  hi <= va \/ ve <= lo -> fresh 3 T r lo hi -> fresh 3 T1 r1 lo hi.
Proof.
  intros Hroot Ht Hm Hva Hlo Hl4 Hh4 Hd Hf b k p i Hb Hk Hi Hap E0.
  pose proof Hm as [A1 A2 A3 A4 A5 A6 A7]. set (q := p * 512 + i) in *.
  destruct (decide (slot_apart k q va ve)) as [Hs | Hs].
  { destruct (T !! b) as [[k0 p0]|] eqn:Eb.
    - pose proof (A1 _ _ Eb) as E. rewrite Hb in E. injection E as <- <-.
      destruct (esim_bits _ _ _ (A3 b k p i Eb Hi (or_introl Hs))) as [B0 B1].
      rewrite <- B0 in E0. rewrite <- B1. by apply (Hf b k p i).
    - rewrite (A4 b k p i Hb Eb Hi Hs), Z.bits_0 in E0. done. }
  assert (Hin : forall v, q * lsize k <= v < (q + 1) * lsize k ->
    T1 !! b = Some (k, v / lsize (S k)) /\ lindex k v = i).
  { intros v Hv. apply div_slot in Hv. split; [| by apply (lindex_slot k v p)].
    rewrite Hb. do 2 f_equal. pose proof (slot_split k v). pose proof (lindex_range k v). unfold q in *. lia. }
  pose proof (lsize_pos k) as Hpos. unfold slot_apart in Hap, Hs.
  assert (Hk0 : k <> 0%nat).
  { intros ->. change (lsize 0) with 4096 in *. pose proof (Z.div_mod lo 4096). pose proof (Z.div_mod hi 4096). lia. }
  assert (Hw : forall v, q * lsize k <= v < (q + 1) * lsize k -> 0 <= v < 2 ^ 48 ->
    twalk 3 r1 root v = twalk k r1 b v).
  { intros v Hv Hv48. by apply (twalk_down T1 r1 root A2 (A1 _ _ Hroot)), Hin. }
  assert (Hleaf : forall v, Z.testbit (r1 (b + 8 * i)) 1 = false -> q * lsize k <= v < (q + 1) * lsize k ->
    twalk k r1 b v = None <-> k = 3%nat).
  { intros v E1 Hv. destruct k as [|k]; [done |]. cbn [twalk].
    rewrite (proj2 (Hin v Hv)), E0, E1. destruct (Nat.eqb_spec k 2); split; try done; lia. }
  split; [done |]. split; [| lia].
  destruct (Z.testbit (r1 (b + 8 * i)) 1) eqn:E1; [done | exfalso].
  set (v := Z.max va (q * lsize k)). set (u := Z.max lo (q * lsize k)).
  assert (Hv : va <= v < ve /\ q * lsize k <= v < (q + 1) * lsize k) by (unfold v; lia).
  assert (Hu : lo <= u < hi /\ q * lsize k <= u < (q + 1) * lsize k) by (unfold u; lia).
  assert (H3 : k <> 3%nat).
  { intros H3. pose proof (A6 v ltac:(lia)) as Hsome. rewrite Hw in Hsome by lia.
    rewrite (proj2 (Hleaf v eq_refl ltac:(lia)) H3) in Hsome. done. }
  apply H3, (Hleaf u eq_refl); [lia |]. rewrite <- Hw by lia.
  assert (Hr : T !! root = Some (3%nat, u / lsize 4)).
  { rewrite (Z.div_small u (lsize 4)) by (change (lsize 4) with (2 ^ 48); lia). done. }
  rewrite (A7 root 3%nat u Hr) by lia. apply (fresh_none T r Ht lo hi); done || lia.
Qed.

(** ** Regions *)

Record region_map := mkRg {
  rg_va : Z;
  rg_size : Z;
  rg_pa : Z;
  rg_attr : Z;
}.

Definition rg_in (g : region_map) (v : Z) : bool := (rg_va g <=? v) && (v <? rg_va g + rg_size g).

(** The translation that a list of regions describes. *)
Fixpoint region_at (l : list region_map) (v : Z) : option (Z * Z) :=
  match l with
  | [] => None
  | g :: l => if rg_in g v then Some (rg_pa g + (v - rg_va g), rg_attr g) else region_at l v
  end.

Lemma region_at_app l g v :
  region_at (l ++ [g]) v =
  match region_at l v with
  | Some x => Some x
  | None => if rg_in g v then Some (rg_pa g + (v - rg_va g), rg_attr g) else None
  end.
Proof. induction l as [|g' l IH]; cbn; [done |]. by destruct (rg_in g' v). Qed.

(** A region that can be mapped. *)
Record rg_ok (g : region_map) : Prop := {
  rk_call : vmap_call (rg_pa g) (rg_va g) (rg_size g);
  rk_attr : page_attr (rg_attr g);
}.

Definition rg_apart (g g' : region_map) : Prop :=
  rg_va g + rg_size g <= rg_va g' \/ rg_va g' + rg_size g' <= rg_va g.

Fixpoint rgs_apart (l : list region_map) : Prop :=
  match l with
  | [] => True
  | g :: l => Forall (rg_apart g) l /\ rgs_apart l
  end.

(** The tables mapping a list of regions may need. *)
Definition rgs_need (l : list region_map) : nat :=
  sum_list_with (fun g => Z.to_nat (need 3 (rg_va g) (rg_va g + rg_size g))) l.

Lemma rgs_need_app l l' : rgs_need (l ++ l') = (rgs_need l + rgs_need l')%nat.
Proof. apply sum_list_with_app. Qed.

(** A space that translates exactly the regions [l], and can still take the
    regions [todo]. *)
Record shows (T : tables) (root : Z) (mm : memory_struct) (h : kheap) (l todo : list region_map) : Prop := {
  sh_space : space T root mm h;
  sh_walk : forall v, 0 <= v < 2 ^ 48 -> twalk 3 (wd h) root v = region_at l v;
  sh_fresh : Forall (fun g => fresh 3 T (wd h) (rg_va g) (rg_va g + rg_size g)) todo;
  sh_need : supply (rgs_need todo) (kh_mb h);
}.

(** A step that takes at most [n] tables. *)
Record grew (T : tables) (h : kheap) (n : nat) (T' : tables) (h' : kheap) : Prop := {
  gr_step : hstep T h T' h';
  gr_takes : exists j, (j <= n)%nat /\ takes j (kh_mb h) = Some (kh_mb h');
}.

Lemma grew_refl T h : tabs_ok T h -> grew T h 0 T h.
Proof. intros H. split; [by apply hstep_refl |]. by exists 0%nat. Qed.

Lemma grew_trans T h n T1 h1 m T2 h2 : grew T h n T1 h1 -> grew T1 h1 m T2 h2 -> grew T h (n + m) T2 h2.
Proof.
  intros [A1 (j & A2 & A3)] [B1 (k & B2 & B3)]. split; [by eapply hstep_trans |].
  exists (j + k)%nat. split; [lia |]. by eapply takes_trans.
Qed.

Lemma map_region T root mm h l g todo :
  shows T root mm h l (g :: todo) -> rg_ok g -> Forall rg_ok todo -> Forall (rg_apart g) todo ->
  exists T' mm' h',
    vmap_phys_range_noflush mm h (rg_pa g) (rg_va g) (rg_size g) (Z.lor (rg_attr g) 3) = Done (0, mm', h')
    /\ shows T' root mm' h' (l ++ [g]) todo /\ grew T h (rgs_need [g]) T' h'.
Proof.
  intros [Hsp Hwalk Hfr Hneed] [Hcall Hattr] Hok Hap. apply Forall_cons in Hfr as [Hf Hfr].
  pose proof Hsp as [[Ht Htabs Hmm] Hroot Hdir]. pose proof Hcall as [(C1 & C2 & C3) C4 [C5 C6] C7].
  cbn [rgs_need sum_list_with] in Hneed. fold (rgs_need todo) in Hneed.
  destruct (vmap_spec T root mm h (rg_pa g) (rg_va g) (rg_size g) (rg_attr g) Hattr Hsp Hcall Hf)
    as (T' & mm' & h' & E & Hsp' & Hp).
  { eapply supply_le; [exact Hneed | lia]. }
  destruct (vp_takes _ _ _ _ _ _ _ _ _ _ _ _ Hp) as (j & Hj & Htk).
  exists T', mm', h'. split; [exact E |].
  split; [| split; [apply Hp |]; exists j; split; [cbn [rgs_need sum_list_with]; lia | done]].
  split; [done | | |].
  - intros v Hv. destruct Hp as [[A1 A2 A3 A4 A5 A6 A7] _ _ _]. rewrite region_at_app, <- (Hwalk v Hv).
    assert (Hr : T !! root = Some (3%nat, v / lsize 4)).
    { rewrite (Z.div_small v (lsize 4)) by (change (lsize 4) with (2 ^ 48); lia). done. }
    unfold rg_in. destruct (Z.leb_spec (rg_va g) v), (Z.ltb_spec v (rg_va g + rg_size g)); cbn [andb].
    1: rewrite (fresh_none T (wd h) Ht _ _ v Hf) by (done || lia); by rewrite A6 by lia.
    all: rewrite (A7 root 3%nat v Hr) by lia; by destruct (twalk 3 (wd h) root v).
  - apply Forall_forall. intros g' Hg'. rewrite Forall_forall in Hfr, Hok, Hap.
    pose proof (Hok g' Hg') as [[(D1 & D2 & D3) D4 [D5 D6] D7] _]. pose proof (Hap g' Hg') as Hd.
    eapply fresh_other; [exact Hroot | exact Ht | apply Hp | | | | | | by apply Hfr]; try lia.
    + rewrite Zplus_mod, D2, D3. reflexivity.
    + unfold rg_apart in Hd. lia.
  - eapply supply_le; [eapply supply_after; [exact Htk | exact Hneed |] |]; lia.
Qed.
