(* ===== verification/Smp.v ===== *)
(** * Bringing up the processors: [src/src/smp/], [src/src/arch/aarch64/psci.c]

    The hotplug states are an array of callbacks; the boot processor runs the
    states up to [CPUHP_START_CPU] for each other processor and waits until
    it is online, and the started processor runs the rest.  The two run
    concurrently: the machine has one program counter for the boot processor
    and one for each secondary, and a step of either is one callback (or one
    skipped slot).  A callback that is not one of this component returns any
    value. *)

From Stdlib Require Import String.
From stdpp Require Import relations.
From S2P Require Import Prelude.
#[local] Open Scope Z_scope.

Definition MAX_CPUS : nat := 4.

(** [enum cpuhp_state]. *)
Definition CPUHP_OFFLINE : nat := 0.
Definition CPUHP_CREATE_IDLE : nat := 1.
Definition CPUHP_START_CPU : nat := 2.
Definition CPUHP_PERCPU_INIT : nat := 3.
Definition CPUHP_INIT_GIC : nat := 4.
Definition CPUHP_INIT_TIMER : nat := 5.
Definition CPUHP_ONLINE : nat := 6.
Definition CPUHP_DEAD : nat := 7.
Definition CPUHP_MAX : nat := 8.

(** The callbacks; the ones of this component are distinguished, any other
    function is its address. *)
Inductive callback :=
  | StartCpu
  | OnlineCpu
  | PerCpuSetup
  | Other (address : Z).

Record cpuhp_state_callback := mkCb {
  cb_name : string;
  cb_callback : option callback;
  cb_data : Z;
}.

Abbreviation callbacks := (list cpuhp_state_callback).
Definition no_callbacks : callbacks := replicate CPUHP_MAX (mkCb EmptyString None 0).

Definition cpuhp_state_register (cbs : callbacks) (state : nat) (name : string)
    (callback : option callback) (data : Z) : Z * callbacks :=
  match callback with
  | Some f =>
      if (state <=? CPUHP_OFFLINE)%nat || (CPUHP_MAX <=? state)%nat then (- EINVAL, cbs)
      else (0, <[state := mkCb name (Some f) data]> cbs)
  | None => (- EINVAL, cbs)
  end.

Definition callback_at (cbs : callbacks) (i : nat) : option callback :=
  match cbs !! i with Some c => cb_callback c | None => None end.

(** ** The firmware interface: [psci.c] *)

Definition PSCI_RET_SUCCESS : Z := 0.
Definition PSCI_RET_NOT_SUPPORTED : Z := -1.
Definition PSCI_RET_INVALID_PARAMS : Z := -2.
Definition PSCI_RET_DENIED : Z := -3.
Definition PSCI_RET_INVALID_ADDRESS : Z := -9.
Definition PSCI_0_2_FN64_CPU_ON : Z := 0xC4000003.

Definition psci_to_linux_errno (errno : Z) : Z :=
  if errno =? PSCI_RET_SUCCESS then 0
  else if errno =? PSCI_RET_NOT_SUPPORTED then - EOPNOTSUPP
  else if (errno =? PSCI_RET_INVALID_PARAMS) || (errno =? PSCI_RET_INVALID_ADDRESS) then - EINVAL
  else if errno =? PSCI_RET_DENIED then - EPERM
  else - EINVAL.

(** [__psci_cpu_on]: [invoke] is the call of the firmware, whose 64-bit
    result is converted to [int]. *)
Definition __psci_cpu_on (invoke : Z -> Z -> Z -> Z -> Z) (fn cpuid entry_point : Z) : Z :=
  psci_to_linux_errno (s32 (invoke fn cpuid entry_point 0)).

Definition psci_0_2_cpu_on (invoke : Z -> Z -> Z -> Z -> Z) (cpuid entry_point : Z) : Z :=
  __psci_cpu_on invoke PSCI_0_2_FN64_CPU_ON cpuid entry_point.

(** [cpuhp_start_cpu]. *)
Definition cpuhp_start_cpu (invoke : Z -> Z -> Z -> Z -> Z) (entry : Z) (cpu : nat) : Z :=
  psci_0_2_cpu_on invoke (Z.of_nat cpu) entry.

(** ** The machine *)

Inductive boot_pc :=
  | BootCb (cpu i : nat) (err : Z)
  | BootWait (cpu : nat) (err : Z)
  | BootRet (err : Z).

Inductive sec_pc :=
  | SecOff
  | SecCb (i : nat)
  | SecIdle
  | SecParked.

Record event := mkEv { ev_cpu : nat; ev_state : nat; ev_ret : Z }.

Record machine := mkM {
  m_boot : boot_pc;
  m_sec : list sec_pc;
  m_online : list nat;
  m_resched : list nat;
  m_tpidr : list Z;
  m_log : list event;
}.

(** One step: of the boot processor or of a secondary, with the value the
    callback (or the firmware) returns. *)
Inductive label := LBoot (ret : Z) | LSec (cpu : nat) (ret : Z).

Definition set_boot (m : machine) (b : boot_pc) : machine :=
  mkM b (m_sec m) (m_online m) (m_resched m) (m_tpidr m) (m_log m).
Definition set_sec (m : machine) (cpu : nat) (p : sec_pc) : machine :=
  mkM (m_boot m) (<[cpu := p]> (m_sec m)) (m_online m) (m_resched m) (m_tpidr m) (m_log m).
Definition add_event (m : machine) (e : event) : machine :=
  mkM (m_boot m) (m_sec m) (m_online m) (m_resched m) (m_tpidr m) (m_log m ++ [e]).

Section Machine.
Context (cbs : callbacks) (per_cpu_base : list Z) (secondary_entry : Z).

(** The loop of [bringup_nonboot_cpus] after [cpuhp_bringup_cpu] returned. *)
Definition next_cpu (cpu : nat) (err : Z) : boot_pc :=
  if (S cpu <? MAX_CPUS)%nat then BootCb (S cpu) 0 err else BootRet err.

Definition cpuhp_per_cpu_setup (m : machine) (cpu : nat) : Z * machine :=
  if (MAX_CPUS <=? cpu)%nat then (- EINVAL, m)
  else (0, mkM (m_boot m) (m_sec m) (m_online m) (m_resched m)
             (<[cpu := nth cpu per_cpu_base 0]> (m_tpidr m)) (m_log m)).

(** [cpuhp_online_cpu] up to the idle loop. *)
Definition cpuhp_online_cpu (m : machine) (cpu : nat) : machine :=
  mkM (m_boot m) (m_sec m) (cpu :: m_online m) (cpu :: m_resched m) (m_tpidr m) (m_log m).

(** A callback on the given processor: its result and effect; [None] when
    the firmware cannot give this answer (success for a processor that is
    not off).  [OnlineCpu] does not return and is not run by this function. *)
Definition run_callback (m : machine) (f : callback) (cpu : nat) (ret : Z)
    : option (Z * machine) :=
  match f with
  | StartCpu =>
      let r := cpuhp_start_cpu (fun _ _ _ _ => ret) secondary_entry cpu in
      if r =? 0 then
        match m_sec m !! cpu with
        | Some SecOff => Some (0, set_sec m cpu (SecCb (S CPUHP_START_CPU)))
        | _ => None
        end
      else Some (r, m)
  | PerCpuSetup => Some (cpuhp_per_cpu_setup m cpu)
  | Other _ => Some (s32 ret, m)
  | OnlineCpu => None
  end.

(** [cpuhp_bringup_cpu] inside [bringup_nonboot_cpus]. *)
Definition boot_step (m : machine) (ret : Z) : option machine :=
  match m_boot m with
  | BootCb cpu i err =>
      if (CPUHP_START_CPU <? i)%nat then Some (set_boot m (BootWait cpu err))
      else
        match callback_at cbs i with
        | None => Some (set_boot m (BootCb cpu (S i) err))
        | Some f =>
            match run_callback m f cpu ret with
            | Some (r, m) =>
                let m := add_event m (mkEv cpu i r) in
                Some (set_boot m (if r =? 0 then BootCb cpu (S i) err
                                  else next_cpu cpu (Z.lor err r)))
            | None => None
            end
        end
  | BootWait cpu err =>
      (* the [cpu_wait_online] loop spins while the bit is clear *)
      if bool_decide (cpu ∈ m_online m) then Some (set_boot m (next_cpu cpu err)) else None
  | BootRet _ => None
  end.

(** [cpuhp_init_to_online], on the secondary. *)
Definition sec_step (m : machine) (cpu : nat) (ret : Z) : option machine :=
  match m_sec m !! cpu with
  | Some (SecCb i) =>
      if (CPUHP_ONLINE <? i)%nat then Some (set_sec m cpu SecParked)
      else
        match callback_at cbs i with
        | None => Some (set_sec m cpu (SecCb (S i)))
        | Some OnlineCpu =>
            Some (set_sec (cpuhp_online_cpu (add_event m (mkEv cpu i 0)) cpu) cpu SecIdle)
        | Some f =>
            match run_callback m f cpu ret with
            | Some (r, m) =>
                let m := add_event m (mkEv cpu i r) in
                Some (set_sec m cpu (if r =? 0 then SecCb (S i) else SecParked))
            | None => None
            end
        end
  | _ => None
  end.

Definition step_fn (l : label) (m : machine) : option machine :=
  match l with
  | LBoot ret => boot_step m ret
  | LSec cpu ret => sec_step m cpu ret
  end.

Inductive step : relation machine :=
  | step_label l m m' : step_fn l m = Some m' -> step m m'.

Fixpoint run (ls : list label) (m : machine) : option machine :=
  match ls with
  | [] => Some m
  | l :: ls => match step_fn l m with Some m' => run ls m' | None => None end
  end.

Lemma run_rtc ls : forall m m', run ls m = Some m' -> rtc step m m'.
Proof.
  induction ls as [|l ls IH]; simpl; intros m m' H; [by injection H as <- |].
  destruct (step_fn l m) as [m1|] eqn:E; [| done].
  eapply rtc_l; [by econstructor | by apply IH].
Qed.
End Machine.

(** The boot processor is online ([cpu_init]); [smp_init] registers its two
    callbacks and starts the loop. *)
Definition cpu_init : machine :=
  mkM (BootRet 0) (replicate MAX_CPUS SecOff) [0%nat] [0%nat] (replicate MAX_CPUS 0) [].

Definition smp_init (cbs : callbacks) (m : machine) : callbacks * machine :=
  let (err, cbs) := cpuhp_state_register cbs CPUHP_START_CPU "cpuhp cpu start" (Some StartCpu) 0 in
  if negb (err =? 0) then (cbs, set_boot m (BootRet err))
  else
    let (err, cbs) := cpuhp_state_register cbs CPUHP_ONLINE "cpuhp set cpu online" (Some OnlineCpu) 0 in
    if negb (err =? 0) then (cbs, set_boot m (BootRet err))
    else (cbs, set_boot m (BootCb 1 0 0)).

(** ** The table of callbacks of the kernel *)

(** Arithmetic on the numbers of states and processors. *)
Ltac hp_lia :=
  unfold CPUHP_OFFLINE, CPUHP_START_CPU, CPUHP_PERCPU_INIT, CPUHP_ONLINE, CPUHP_MAX, MAX_CPUS in *; lia.

(** What the rest of the kernel may register before [smp_init]: any function
    in the states of the other components, the per-CPU set-up in its own. *)
Record cbs_ok (cbs : callbacks) : Prop := {
  co_len : length cbs = CPUHP_MAX;
  co_boot : forall i, (i < CPUHP_START_CPU)%nat ->
            callback_at cbs i = None \/ exists a, callback_at cbs i = Some (Other a);
  co_percpu : callback_at cbs CPUHP_PERCPU_INIT = Some PerCpuSetup;
  co_sec : forall i, (CPUHP_PERCPU_INIT < i < CPUHP_ONLINE)%nat ->
           callback_at cbs i = None \/ exists a, callback_at cbs i = Some (Other a);
}.

Definition smp_cbs (cbs : callbacks) : callbacks := (smp_init cbs cpu_init).1.
Definition smp_start (cbs : callbacks) : machine := (smp_init cbs cpu_init).2.

Lemma callback_at_insert (cbs : callbacks) i j c :
  (i < length cbs)%nat ->
  callback_at (<[i := c]> cbs) j = if decide (i = j) then cb_callback c else callback_at cbs j.
Proof.
  intros Hi. unfold callback_at. case_decide as E.
  - subst j. by rewrite list_lookup_insert_eq.
  - by rewrite list_lookup_insert_ne.
Qed.

Lemma smp_cbs_at cbs i :
  cbs_ok cbs ->
  callback_at (smp_cbs cbs) i
  = if decide (i = CPUHP_START_CPU) then Some StartCpu
    else if decide (i = CPUHP_ONLINE) then Some OnlineCpu else callback_at cbs i.
Proof.
  intros H. assert (smp_cbs cbs = <[CPUHP_ONLINE := mkCb "cpuhp set cpu online" (Some OnlineCpu) 0]>
    (<[CPUHP_START_CPU := mkCb "cpuhp cpu start" (Some StartCpu) 0]> cbs)) as -> by reflexivity.
  pose proof (co_len cbs H) as Hl.
  rewrite !callback_at_insert by (rewrite ?length_insert, Hl; hp_lia).
  repeat case_decide; subst; done.
Qed.

(** ** The invariant of every interleaving *)

Section Invariant.
Context (cbs0 : callbacks) (Hcbs : cbs_ok cbs0) (base : list Z) (entry : Z).
#[local] Abbreviation cbs := (smp_cbs cbs0).

(** What a secondary runs before the state [i]: every registered callback
    once, in order, with success. *)
Definition setup_events (c i : nat) : list event :=
  (fun s => mkEv c s 0) <$>
    filter (fun s => is_Some (callback_at cbs s)) (seq CPUHP_PERCPU_INIT (i - CPUHP_PERCPU_INIT)).

Definition sec_events (c : nat) (log : list event) : list event :=
  filter (fun e => ev_cpu e = c /\ (CPUHP_START_CPU < ev_state e)%nat) log.

Lemma setup_events_S c i :
  (CPUHP_PERCPU_INIT <= i)%nat ->
  setup_events c (S i) = setup_events c i ++
    (if decide (is_Some (callback_at cbs i)) then [mkEv c i 0] else []).
Proof.
  intros Hi. unfold setup_events.
  replace (S i - CPUHP_PERCPU_INIT)%nat with (S (i - CPUHP_PERCPU_INIT)) by lia.
  rewrite seq_S, filter_app, fmap_app. f_equal.
  replace (CPUHP_PERCPU_INIT + (i - CPUHP_PERCPU_INIT))%nat with i by lia.
  rewrite filter_cons, filter_nil. by case_decide.
Qed.

Lemma sec_events_app c l e :
  sec_events c (l ++ [e])
  = sec_events c l ++ (if decide (ev_cpu e = c /\ (CPUHP_START_CPU < ev_state e)%nat) then [e] else []).
Proof. unfold sec_events. rewrite filter_app, filter_cons, filter_nil. by case_decide. Qed.

Definition sec_ok (m : machine) (c : nat) (p : sec_pc) : Prop :=
  match p with
  | SecOff => sec_events c (m_log m) = [] /\ (c ∈ m_online m -> c = 0%nat)
  | SecCb i =>
      (1 <= c)%nat /\ (c ∉ m_online m) /\ (CPUHP_PERCPU_INIT <= i <= CPUHP_ONLINE)%nat
      /\ sec_events c (m_log m) = setup_events c i
      /\ ((CPUHP_PERCPU_INIT < i)%nat -> m_tpidr m !! c = Some (nth c base 0))
  | SecIdle =>
      (1 <= c)%nat /\ c ∈ m_online m /\ sec_events c (m_log m) = setup_events c (S CPUHP_ONLINE)
      /\ m_tpidr m !! c = Some (nth c base 0)
  | SecParked => (1 <= c)%nat /\ c ∉ m_online m
  end.

Definition boot_ok (m : machine) : Prop :=
  match m_boot m with
  | BootCb cpu i err =>
      (1 <= cpu < MAX_CPUS)%nat /\ (i <= S CPUHP_START_CPU)%nat
      /\ (i = S CPUHP_START_CPU -> m_sec m !! cpu <> Some SecOff)
      /\ (err = 0 -> forall c, (c < cpu)%nat -> c ∈ m_online m)
  | BootWait cpu err =>
      (1 <= cpu < MAX_CPUS)%nat /\ m_sec m !! cpu <> Some SecOff
      /\ (err = 0 -> forall c, (c < cpu)%nat -> c ∈ m_online m)
  | BootRet err => err = 0 -> forall c, (c < MAX_CPUS)%nat -> c ∈ m_online m
  end.

Record inv (m : machine) : Prop := {
  inv_len : length (m_sec m) = MAX_CPUS;
  inv_tp : length (m_tpidr m) = MAX_CPUS;
  inv_on : forall c, c ∈ m_online m -> (c < MAX_CPUS)%nat;
  inv_sec : forall c p, m_sec m !! c = Some p -> sec_ok m c p;
  inv_boot : boot_ok m;
}.

Lemma inv_start : inv (smp_start cbs0).
Proof.
  change (smp_start cbs0) with (set_boot cpu_init (BootCb 1 0 0)). split; try done.
  - intros c ->%list_elem_of_singleton. hp_lia.
  - intros c p Hp. apply lookup_replicate in Hp as [-> _]. split; [done |].
    by intros ->%list_elem_of_singleton.
  - split; [hp_lia |]. split; [lia |]. split; [done |].
    intros _ c Hc. apply list_elem_of_singleton. lia.
Qed.

Lemma sec_ok_frame m m' c p :
  sec_events c (m_log m') = sec_events c (m_log m) ->
  (c ∈ m_online m' <-> c ∈ m_online m) -> m_tpidr m' !! c = m_tpidr m !! c ->
  sec_ok m c p -> sec_ok m' c p.
Proof. intros E1 E2 E3. unfold sec_ok. destruct p; rewrite ?E1, ?E3, ?E2; done. Qed.

Lemma sec_events_boot c l cpu i r :
  (i <= CPUHP_START_CPU)%nat -> sec_events c (l ++ [mkEv cpu i r]) = sec_events c l.
Proof.
  intros Hi. rewrite sec_events_app. simpl. rewrite decide_False by lia. apply app_nil_r.
Qed.

Lemma sec_events_other c l cpu i r :
  cpu <> c -> sec_events c (l ++ [mkEv cpu i r]) = sec_events c l.
Proof.
  intros Hc. rewrite sec_events_app. simpl. rewrite decide_False by tauto. apply app_nil_r.
Qed.

Lemma boot_ok_next m cpu err :
  (1 <= cpu < MAX_CPUS)%nat ->
  (err = 0 -> forall c, (c <= cpu)%nat -> c ∈ m_online m) ->
  boot_ok (set_boot m (next_cpu cpu err)).
Proof.
  intros Hc Hon. unfold boot_ok, next_cpu, set_boot; simpl. unfold MAX_CPUS in *.
  destruct (Nat.ltb_spec (S cpu) 4); simpl.
  - split; [lia |]. split; [lia |]. split; [done |]. intros E c Hlt. apply Hon; [done | lia].
  - intros E c Hlt. apply Hon; [done | lia].
Qed.

(** The boot processor does not mind a secondary that moves on. *)
Lemma boot_ok_sec m m' c p :
  boot_ok m -> m_boot m' = m_boot m -> m_sec m' = <[c := p]> (m_sec m) -> p <> SecOff ->
  (forall d, d ∈ m_online m -> d ∈ m_online m') -> boot_ok m'.
Proof.
  intros B Eb Es Hp Hon. unfold boot_ok in *. rewrite Eb, Es.
  assert (forall d, m_sec m !! d <> Some SecOff -> <[c := p]> (m_sec m) !! d <> Some SecOff).
  { intros d Hd [(<- & [= ->] & _) | (_ & Hq)]%list_lookup_insert_Some; done. }
  destruct (m_boot m) as [cpu i err | cpu err | err].
  - destruct B as (B1 & B2 & B3 & B4). repeat split; try lia; auto.
  - destruct B as (B1 & B2 & B3). repeat split; try lia; auto.
  - auto.
Qed.

(** A state that differs in the boot processor and in boot events only. *)
Lemma inv_boot_only m m' :
  inv m -> m_sec m' = m_sec m -> m_online m' = m_online m -> m_tpidr m' = m_tpidr m ->
  (forall c, sec_events c (m_log m') = sec_events c (m_log m)) -> boot_ok m' -> inv m'.
Proof.
  intros [L T O S _] E1 E2 E3 E4 B. split; rewrite ?E1, ?E2, ?E3; try done.
  intros c p Hp. apply (sec_ok_frame m); [done | by rewrite E2 | by rewrite E3 |]. by apply S.
Qed.

(** A state in which one secondary moved. *)
Lemma inv_sec_moved m m' c p :
  inv m -> m_sec m' = <[c := p]> (m_sec m) -> length (m_tpidr m') = MAX_CPUS ->
  (c < MAX_CPUS)%nat -> sec_ok m' c p -> boot_ok m' ->
  (forall d, d <> c -> sec_events d (m_log m') = sec_events d (m_log m)
     /\ (d ∈ m_online m' <-> d ∈ m_online m) /\ m_tpidr m' !! d = m_tpidr m !! d) -> inv m'.
Proof.
  intros [L T O S _] E1 E2 Hc Hp B Hd. split; try done.
  - by rewrite E1, length_insert.
  - intros d Hon. destruct (decide (d = c)) as [-> |]; [done |]. apply O. by apply (Hd d).
  - intros d q. rewrite E1. intros [(<- & <- & _) | (Hne & Hq)]%list_lookup_insert_Some; [done |].
    destruct (Hd d) as (? & ? & ?); [done |]. apply (sec_ok_frame m); try done. by apply S.
Qed.

Lemma cbs_boot i : (i < CPUHP_START_CPU)%nat ->
  callback_at cbs i = None \/ exists a, callback_at cbs i = Some (Other a).
Proof.
  intros Hi. rewrite smp_cbs_at by done.
  rewrite !decide_False by hp_lia. by apply co_boot.
Qed.

Lemma start_cpu_ret cpu ret :
  cpuhp_start_cpu (fun _ _ _ _ => ret) entry cpu = 0 <-> s32 ret = PSCI_RET_SUCCESS.
Proof.
  unfold cpuhp_start_cpu, psci_0_2_cpu_on, __psci_cpu_on, psci_to_linux_errno.
  repeat case_match; bool_facts; split; intros; try done; by destruct H.
Qed.

Lemma boot_step_inv m ret m' : inv m -> boot_step cbs base entry m ret = Some m' -> inv m'.
Proof.
  intros Hinv. pose proof (inv_boot m Hinv) as B. unfold boot_step, boot_ok in *.
  destruct (m_boot m) as [cpu i err | cpu err | err]; [| | done].
  - destruct B as (B1 & B2 & B3 & B4). destruct (Nat.ltb_spec CPUHP_START_CPU i) as [Hi | Hi].
    { intros [= <-]. apply (inv_boot_only m); try done. unfold boot_ok; simpl.
      split; [done |]. split; [apply B3; lia | done]. }
    destruct (decide (i = CPUHP_START_CPU)) as [-> | Hne].
    + rewrite smp_cbs_at, decide_True by done. simpl.
      destruct (Z.eqb_spec (cpuhp_start_cpu (fun _ _ _ _ => ret) entry cpu) 0) as [E | E].
      * destruct (m_sec m !! cpu) as [[| | |]|] eqn:Es; try done. intros [= <-].
        pose proof (inv_sec m Hinv cpu _ Es) as (S1 & S2).
        apply (inv_sec_moved m _ cpu (SecCb (S CPUHP_START_CPU))); simpl; try done.
        -- apply Hinv.
        -- lia.
        -- rewrite sec_events_boot by lia. split; [lia |].
           split; [intros Hon; specialize (S2 Hon); lia |].
           split; [hp_lia |].
           split; [rewrite S1; reflexivity | hp_lia].
        -- split; [done |]. split; [done |]. split; [| done]. intros _. simpl.
           rewrite list_lookup_insert_eq; [done | rewrite (inv_len m Hinv); lia].
        -- intros d Hd. rewrite sec_events_other by done. done.
      * rewrite (proj2 (Z.eqb_neq _ _)) by done. intros [= <-].
        apply (inv_boot_only m); try done; [intros c; by apply sec_events_boot |].
        apply boot_ok_next; [done |]. intros [? ?]%Z.lor_eq_0_iff. done.
    + destruct (cbs_boot i) as [-> | (a & ->)]; [lia | |].
      * intros [= <-]. apply (inv_boot_only m); try done. unfold boot_ok; simpl.
        split; [done |]. split; [lia |]. split; [lia | done].
      * simpl. intros [= <-]. apply (inv_boot_only m); try done; [intros c; by apply sec_events_boot |].
        destruct (Z.eqb_spec (s32 ret) 0) as [E | E].
        -- unfold boot_ok; simpl. split; [done |]. split; [lia |]. split; [lia | done].
        -- apply boot_ok_next; [done |]. intros [? ?]%Z.lor_eq_0_iff. done.
  - destruct B as (B1 & B2 & B3). case_bool_decide as Hon; [| done]. intros [= <-].
    apply (inv_boot_only m); try done. apply boot_ok_next; [done |].
    intros E c Hc. destruct (decide (c = cpu)) as [-> |]; [done | apply B3; [done | lia]].
Qed.

(** A callback of a secondary that succeeds moves it on, one that fails
    parks it. *)
Lemma sec_result_inv m m1 c i r :
  inv m -> m_sec m !! c = Some (SecCb i) -> callback_at cbs i <> None -> (i < CPUHP_ONLINE)%nat ->
  m_boot m1 = m_boot m -> m_sec m1 = m_sec m -> m_online m1 = m_online m ->
  m_log m1 = m_log m -> length (m_tpidr m1) = MAX_CPUS ->
  (forall d, d <> c -> m_tpidr m1 !! d = m_tpidr m !! d) ->
  (r = 0 -> m_tpidr m1 !! c = Some (nth c base 0)) ->
  inv (set_sec (add_event m1 (mkEv c i r)) c (if r =? 0 then SecCb (S i) else SecParked)).
Proof.
  intros Hinv Es Hf Hi Eb Esec Eon El Et Ht1 Ht2.
  pose proof (inv_sec m Hinv c _ Es) as (S1 & S2 & S3 & S4 & S5).
  pose proof (lookup_lt_Some _ _ _ Es) as Hc. rewrite (inv_len m Hinv) in Hc.
  eapply (inv_sec_moved m _ c); simpl; try done.
  - by rewrite Esec.
  - destruct (Z.eqb_spec r 0) as [-> |]; simpl; rewrite Eon; [| done].
    split; [done |]. split; [done |]. split; [lia |]. split; [| by auto].
    rewrite El, sec_events_app, S4, setup_events_S by lia. simpl. rewrite !decide_True; [done | | hp_lia].
    by apply not_eq_None_Some.
  - apply (boot_ok_sec m _ c (if r =? 0 then SecCb (S i) else SecParked)); simpl; try done;
      [apply Hinv | by rewrite Esec | by destruct (r =? 0) | by rewrite Eon].
  - intros d Hd. rewrite El, Eon, sec_events_other by done. auto.
Qed.

Lemma sec_step_inv m c ret m' : inv m -> sec_step cbs base entry m c ret = Some m' -> inv m'.
Proof.
  intros Hinv. unfold sec_step. destruct (m_sec m !! c) as [[| i | |]|] eqn:Es; try done.
  pose proof (inv_sec m Hinv c _ Es) as (S1 & S2 & S3 & S4 & S5).
  pose proof (lookup_lt_Some _ _ _ Es) as Hc. rewrite (inv_len m Hinv) in Hc.
  destruct (Nat.ltb_spec CPUHP_ONLINE i) as [Hi | Hi]; [lia |].
  destruct (decide (i = CPUHP_ONLINE)) as [-> | Hne].
  { rewrite smp_cbs_at by done. simpl. intros [= <-].
    apply (inv_sec_moved m _ c SecIdle); simpl; try done; [apply Hinv | | |].
    - split; [done |]. split; [apply elem_of_cons; by left |].
      split; [| apply S5; hp_lia].
      rewrite sec_events_app, S4, setup_events_S by hp_lia.
      rewrite !decide_True; [done | rewrite smp_cbs_at by done; by eexists | simpl; hp_lia].
    - apply (boot_ok_sec m _ c SecIdle); try done; [apply Hinv |].
      intros d Hd. simpl. apply elem_of_cons. by right.
    - intros d Hd. rewrite sec_events_other by done. split; [done |]. split; [| done].
      rewrite elem_of_cons. clear -Hd. tauto. }
  assert (Hlt : (i < CPUHP_ONLINE)%nat) by lia.
  assert (Ecb : callback_at cbs i = callback_at cbs0 i).
  { rewrite smp_cbs_at by done. rewrite !decide_False; [done | lia |].
    hp_lia. }
  destruct (decide (i = CPUHP_PERCPU_INIT)) as [-> | Hne'].
  { rewrite Ecb, (co_percpu cbs0 Hcbs). unfold run_callback, cpuhp_per_cpu_setup.
    destruct (Nat.leb_spec MAX_CPUS c); [lia |]. intros [= <-].
    apply (sec_result_inv m _ c CPUHP_PERCPU_INIT 0); try done; simpl.
    - by rewrite Ecb, (co_percpu cbs0 Hcbs).
    - by rewrite length_insert, (inv_tp m Hinv).
    - intros d Hd. by rewrite list_lookup_insert_ne.
    - intros _. by rewrite list_lookup_insert_eq by (rewrite (inv_tp m Hinv); lia). }
  destruct (co_sec cbs0 Hcbs i) as [E | (a & E)]; [lia | |]; rewrite Ecb, E.
  - intros [= <-]. apply (inv_sec_moved m _ c (SecCb (S i))); simpl; try done; [apply Hinv | |].
    + split; [done |]. split; [done |]. split; [lia |]. split; [| intros _; apply S5; lia].
      rewrite S4, setup_events_S by lia. rewrite Ecb, E. simpl. by rewrite app_nil_r.
    + apply (boot_ok_sec m _ c (SecCb (S i))); try done; apply Hinv.
  - intros [= <-]. apply (sec_result_inv m m c i (s32 ret)); try done.
    + by rewrite Ecb, E.
    + apply Hinv.
    + intros _. apply S5. lia.
Qed.

Lemma step_inv m m' : inv m -> step cbs base entry m m' -> inv m'.
Proof.
  intros H Hs. inversion Hs as [[ret | c ret] ? ? E]; subst;
    [by eapply boot_step_inv | by eapply sec_step_inv].
Qed.

Lemma reach_inv m : rtc (step cbs base entry) (smp_start cbs0) m -> inv m.
Proof.
  intros H. pattern m. eapply rtc_ind_r; [apply inv_start | | exact H].
  intros y z _ Hyz IH. by eapply step_inv.
Qed.

(** ** Every run ends *)

Definition boot_measure (b : boot_pc) : nat :=
  match b with
  | BootCb cpu i _ => (MAX_CPUS - cpu) * 6 - i
  | BootWait cpu _ => (MAX_CPUS - cpu) * 6 - 4
  | BootRet _ => 0
  end.

Definition sec_measure (p : sec_pc) : nat :=
  match p with
  | SecOff => 8
  | SecCb i => 8 - i
  | SecIdle | SecParked => 0
  end.

Definition measure (m : machine) : nat :=
  boot_measure (m_boot m) + sum_list_with sec_measure (m_sec m).

Lemma sum_insert l c p q :
  l !! c = Some p ->
  (sum_list_with sec_measure (<[c := q]> l) + sec_measure p
   = sum_list_with sec_measure l + sec_measure q)%nat.
Proof.
  revert c. induction l as [|x l IH]; intros [|c] H; simplify_eq/=; [lia |].
  specialize (IH c H). lia.
Qed.

Lemma measure_next cpu err :
  (1 <= cpu < MAX_CPUS)%nat -> (boot_measure (next_cpu cpu err) < (MAX_CPUS - cpu) * 6 - 4)%nat.
Proof.
  intros H. unfold next_cpu. destruct (Nat.ltb_spec (S cpu) MAX_CPUS); simpl; hp_lia.
Qed.

Lemma run_callback_measure m f cpu ret r m1 :
  run_callback base entry m f cpu ret = Some (r, m1) ->
  (sum_list_with sec_measure (m_sec m1) <= sum_list_with sec_measure (m_sec m))%nat.
Proof.
  unfold run_callback. destruct f; intros E; simplify_eq/=; try done.
  - destruct (cpuhp_start_cpu _ entry cpu =? 0); [| by simplify_eq].
    destruct (m_sec m !! cpu) as [[| | |]|] eqn:Es; simplify_eq/=.
    pose proof (sum_insert (m_sec m) cpu _ (SecCb (S CPUHP_START_CPU)) Es). simpl in *. hp_lia.
  - unfold cpuhp_per_cpu_setup in E. destruct (MAX_CPUS <=? cpu)%nat; by simplify_eq/=.
Qed.

Lemma boot_step_measure m ret m' :
  inv m -> boot_step cbs base entry m ret = Some m' -> (measure m' < measure m)%nat.
Proof.
  intros Hinv. pose proof (inv_boot m Hinv) as B. unfold boot_step, boot_ok, measure in *.
  destruct (m_boot m) as [cpu i err | cpu err | err]; [| | done].
  - destruct B as (B1 & B2 & _).
    destruct (Nat.ltb_spec CPUHP_START_CPU i) as [Hi | Hi]; [intros [= <-]; simpl; hp_lia |].
    assert (Hm : forall r : Z, (boot_measure (if (r =? 0)%Z then BootCb cpu (S i) err
                             else next_cpu cpu (Z.lor err r)) < (MAX_CPUS - cpu) * 6 - i)%nat).
    { intros r. destruct (r =? 0); [simpl; hp_lia |].
      pose proof (measure_next cpu (Z.lor err r) B1). hp_lia. }
    destruct (callback_at cbs i) as [f |]; [| intros [= <-]; simpl; hp_lia].
    destruct (run_callback base entry m f cpu ret) as [[r m1] |] eqn:E; [| done].
    intros [= <-]. simpl. specialize (Hm r). apply run_callback_measure in E. lia.
  - destruct B as (B1 & _). pose proof (measure_next cpu err B1).
    case_bool_decide; [| done]. intros [= <-]. simpl. lia.
Qed.

(** The states after the start hold none but the three kinds of callback. *)
Lemma cbs_sec i :
  (CPUHP_PERCPU_INIT <= i <= CPUHP_ONLINE)%nat ->
  (i = CPUHP_ONLINE /\ callback_at cbs i = Some OnlineCpu)
  \/ callback_at cbs i = Some PerCpuSetup \/ callback_at cbs i = None
  \/ exists a, callback_at cbs i = Some (Other a).
Proof.
  intros Hi. rewrite smp_cbs_at by done. rewrite decide_False by hp_lia. case_decide as E; [by left |].
  right. destruct (decide (i = CPUHP_PERCPU_INIT)) as [-> |]; [left; apply Hcbs |].
  right. apply (co_sec cbs0 Hcbs). hp_lia.
Qed.

Lemma sec_step_measure m c ret m' :
  inv m -> sec_step cbs base entry m c ret = Some m' -> (measure m' < measure m)%nat.
Proof.
  intros Hinv. unfold sec_step, measure. destruct (m_sec m !! c) as [[| i | |]|] eqn:Es; try done.
  pose proof (inv_sec m Hinv c _ Es) as (_ & _ & S3 & _).
  assert (Hm : forall p, (sec_measure p < 8 - i)%nat ->
    (sum_list_with sec_measure (<[c := p]> (m_sec m)) < sum_list_with sec_measure (m_sec m))%nat).
  { intros p Hp. pose proof (sum_insert (m_sec m) c _ p Es) as Hsum. simpl in Hsum. lia. }
  destruct (Nat.ltb_spec CPUHP_ONLINE i); [hp_lia |].
  assert (H1 := Hm (SecCb (S i))). assert (H2 := Hm SecParked). assert (H3 := Hm SecIdle).
  simpl in H1, H2, H3.
  destruct (cbs_sec i S3) as [(_ & ->) | [-> | [-> | (a & ->)]]].
  - intros [= <-]. simpl. hp_lia.
  - unfold run_callback, cpuhp_per_cpu_setup. destruct (MAX_CPUS <=? c)%nat; intros [= <-]; simpl; hp_lia.
  - intros [= <-]. simpl. hp_lia.
  - intros [= <-]. simpl. destruct (s32 ret =? 0); hp_lia.
Qed.

Lemma step_measure m m' : inv m -> step cbs base entry m m' -> (measure m' < measure m)%nat.
Proof.
  intros H Hs. inversion Hs as [[ret | c ret] ? ? E]; subst;
    [by eapply boot_step_measure | by eapply sec_step_measure].
Qed.

Lemma nsteps_measure n m :
  nsteps (step cbs base entry) n (smp_start cbs0) m -> inv m /\ (n + measure m <= 50)%nat.
Proof.
  revert m. induction n as [|n IH]; intros m H.
  - inversion H; subst. split; [apply inv_start |]. vm_compute. lia.
  - apply nsteps_inv_r in H as (y & Hy & Hs). destruct (IH y Hy) as [I J].
    split; [by eapply step_inv |]. pose proof (step_measure y m I Hs). lia.
Qed.

(** A state with no step: the boot processor returned, or it waits for a
    processor whose set-up failed. *)
Lemma boot_can_step m cpu i err :
  m_boot m = BootCb cpu i err -> exists m', step cbs base entry m m'.
Proof.
  intros Eb. assert (Hb : is_Some (boot_step cbs base entry m (-1))).
  { unfold boot_step. rewrite Eb. destruct (Nat.ltb_spec CPUHP_START_CPU i) as [Hi | Hi]; [by eexists |].
    destruct (decide (i = CPUHP_START_CPU)) as [-> | Hne].
    - rewrite smp_cbs_at by done. by eexists.
    - destruct (cbs_boot i) as [-> | (a & ->)]; [lia | by eexists | by eexists]. }
  destruct Hb as (m' & E). exists m'. by apply (step_label _ _ _ (LBoot (-1))).
Qed.

Lemma sec_can_step m c i :
  m_sec m !! c = Some (SecCb i) -> (CPUHP_PERCPU_INIT <= i <= CPUHP_ONLINE)%nat ->
  exists m', step cbs base entry m m'.
Proof.
  intros Es Hi. assert (Hb : is_Some (sec_step cbs base entry m c 0)).
  { unfold sec_step. rewrite Es. destruct (CPUHP_ONLINE <? i)%nat; [by eexists |].
    destruct (cbs_sec i Hi) as [(_ & ->) | [-> | [-> | (a & ->)]]]; try by eexists.
    unfold run_callback, cpuhp_per_cpu_setup. destruct (MAX_CPUS <=? c)%nat; by eexists. }
  destruct Hb as (m' & E). exists m'. by apply (step_label _ _ _ (LSec c 0)).
Qed.

Lemma stuck_state m :
  inv m -> (forall m', ~ step cbs base entry m m') ->
  (exists err, m_boot m = BootRet err)
  \/ exists cpu err, m_boot m = BootWait cpu err /\ m_sec m !! cpu = Some SecParked.
Proof.
  intros Hinv Hstuck. pose proof (inv_boot m Hinv) as B. unfold boot_ok in B.
  destruct (m_boot m) as [cpu i err | cpu err | err] eqn:Eb; [exfalso | right | eauto].
  { destruct (boot_can_step m cpu i err Eb) as (m' & Hm'). by apply (Hstuck m'). }
  destruct B as (B1 & B2 & B3). exists cpu, err. split; [done |].
  destruct (lookup_lt_is_Some_2 (m_sec m) cpu) as (p & Ep); [rewrite (inv_len m Hinv); lia |].
  pose proof (inv_sec m Hinv cpu p Ep) as S. rewrite Ep in B2 |- *.
  destruct p as [| i | |]; [done | exfalso | exfalso | done].
  - destruct S as (_ & _ & S3 & _). destruct (sec_can_step m cpu i Ep S3) as (m' & Hm').
    by apply (Hstuck m').
  - destruct S as (_ & S2 & _). apply (Hstuck (set_boot m (next_cpu cpu err))).
    apply (step_label _ _ _ (LBoot 0)). simpl. unfold boot_step. rewrite Eb. by rewrite bool_decide_true.
Qed.

(** ** Failures leave a trace *)

Definition all_ok (m : machine) : Prop := Forall (fun e => ev_ret e = 0) (m_log m).

Definition boot_err (b : boot_pc) : Z :=
  match b with BootCb _ _ err | BootWait _ err | BootRet err => err end.

Definition no_failure (m : machine) : Prop :=
  all_ok m -> boot_err (m_boot m) = 0 /\ forall c, m_sec m !! c <> Some SecParked.

Lemma boot_err_next cpu err : boot_err (next_cpu cpu err) = err.
Proof. unfold next_cpu. by destruct (_ <? _)%nat. Qed.

Lemma parked_insert (l : list sec_pc) c p :
  (forall d, l !! d <> Some SecParked) -> p <> SecParked ->
  forall d, <[c := p]> l !! d <> Some SecParked.
Proof. intros H Hp d [(<- & [= ->] & _) | (_ & E)]%list_lookup_insert_Some; [done | by apply (H d)]. Qed.

Lemma all_ok_event m e b : all_ok (set_boot (add_event m e) b) -> all_ok m /\ ev_ret e = 0.
Proof.
  unfold all_ok. simpl. rewrite Forall_app, Forall_singleton. done.
Qed.

Lemma run_callback_log m f cpu ret r m1 :
  run_callback base entry m f cpu ret = Some (r, m1) ->
  m_log m1 = m_log m /\ m_boot m1 = m_boot m
  /\ ((forall c, m_sec m !! c <> Some SecParked) -> forall c, m_sec m1 !! c <> Some SecParked).
Proof.
  unfold run_callback. destruct f; intros E; simplify_eq/=; try done.
  - destruct (cpuhp_start_cpu _ entry cpu =? 0); [| by simplify_eq].
    destruct (m_sec m !! cpu) as [[| | |]|]; simplify_eq/=. split; [done |]. split; [done |].
    intros H. by apply parked_insert.
  - unfold cpuhp_per_cpu_setup in E. destruct (MAX_CPUS <=? cpu)%nat; by simplify_eq/=.
Qed.

Lemma boot_step_no_failure m ret m' :
  no_failure m -> boot_step cbs base entry m ret = Some m' -> no_failure m'.
Proof.
  intros Hn. unfold boot_step. destruct (m_boot m) as [cpu i err | cpu err | err] eqn:Eb; [| | done].
  - destruct (CPUHP_START_CPU <? i)%nat.
    { intros [= <-] Ha. destruct (Hn Ha) as [N1 N2]. rewrite Eb in N1. done. }
    destruct (callback_at cbs i) as [f |].
    2: { intros [= <-] Ha. destruct (Hn Ha) as [N1 N2]. rewrite Eb in N1. done. }
    destruct (run_callback base entry m f cpu ret) as [[r m1] |] eqn:E; [| done].
    apply run_callback_log in E as (L & B & P).
    intros [= <-] [Ha Hr]%all_ok_event. simpl in Hr. subst r. unfold all_ok in Ha. rewrite L in Ha.
    destruct (Hn Ha) as [N1 N2]. rewrite Eb in N1. simpl. split; [done | by apply P].
  - case_bool_decide; [| done]. intros [= <-] Ha. destruct (Hn Ha) as [N1 N2]. rewrite Eb in N1.
    simpl. by rewrite boot_err_next.
Qed.

Lemma sec_step_no_failure m c ret m' :
  inv m -> no_failure m -> sec_step cbs base entry m c ret = Some m' -> no_failure m'.
Proof.
  intros Hinv Hn. unfold sec_step. destruct (m_sec m !! c) as [[| i | |]|] eqn:Es; try done.
  pose proof (inv_sec m Hinv c _ Es) as (_ & _ & S3 & _).
  destruct (Nat.ltb_spec CPUHP_ONLINE i); [hp_lia |].
  assert (Hok : forall f, match run_callback base entry m f c ret with
    | Some (r, m) => Some (set_sec (add_event m (mkEv c i r)) c (if r =? 0 then SecCb (S i) else SecParked))
    | None => None end = Some m' -> no_failure m').
  { intros f. destruct (run_callback base entry m f c ret) as [[r m1] |] eqn:E; [| done].
    apply run_callback_log in E as (L & B & P). intros [= <-] Ha.
    unfold all_ok in Ha. simpl in Ha. rewrite Forall_app, Forall_singleton, L in Ha.
    destruct Ha as [Ha Hr]. simpl in Hr. subst r. destruct (Hn Ha) as [N1 N2]. simpl. rewrite B.
    split; [done |]. apply parked_insert; [by apply P | done]. }
  destruct (callback_at cbs i) as [[| | |]|]; try apply Hok.
  - intros [= <-] Ha. simpl.
    unfold all_ok in Ha. simpl in Ha. rewrite Forall_app in Ha. destruct Ha as [Ha _]. destruct (Hn Ha) as [N1 N2].
    split; [done |]. by apply parked_insert.
  - intros [= <-] Ha. simpl. destruct (Hn Ha) as [N1 N2]. split; [done |]. by apply parked_insert.
Qed.

Lemma reach_no_failure m : rtc (step cbs base entry) (smp_start cbs0) m -> no_failure m.
Proof.
  intros H. pattern m. eapply rtc_ind_r; [| | exact H].
  - intros _. split; [done |]. intros c Hc.
    change (replicate MAX_CPUS SecOff !! c = Some SecParked) in Hc. by apply lookup_replicate in Hc as [? _].
  - intros y z Hy Hyz IH. apply reach_inv in Hy.
    inversion Hyz as [[ret | c ret] ? ? E]; subst; [by eapply boot_step_no_failure | by eapply sec_step_no_failure].
Qed.
End Invariant.

(** ** A run of the board *)

Definition board_cbs : callbacks :=
  let cbs := (cpuhp_state_register no_callbacks CPUHP_CREATE_IDLE "idle_thread_create" (Some (Other 1)) 0).2 in
  let cbs := (cpuhp_state_register cbs CPUHP_PERCPU_INIT "percpu_setup" (Some PerCpuSetup) 0).2 in
  let cbs := (cpuhp_state_register cbs CPUHP_INIT_GIC "gic_v3_starting" (Some (Other 2)) 0).2 in
  (cpuhp_state_register cbs CPUHP_INIT_TIMER "arch_timer" (Some (Other 3)) 0).2.

Lemma board_cbs_ok : cbs_ok board_cbs.
Proof.
  split; [done | | done |].
  - intros [|[|i]] Hi; [by left | right; by exists 1 | hp_lia].
  - intros i Hi. assert (i = 4 \/ i = 5)%nat as [-> | ->] by hp_lia; right; [by exists 2 | by exists 3].
Qed.

(** Each processor is started and comes up before the next one. *)
Definition board_labels : list label :=
  flat_map (fun c => replicate 4 (LBoot 0) ++ replicate 4 (LSec c 0) ++ [LBoot 0]) [1; 2; 3]%nat.

Definition board_run (ls : list label) : machine :=
  default cpu_init (run (smp_cbs board_cbs) [10; 20; 30; 40] 0 ls (smp_start board_cbs)).

Lemma run_nsteps cbs base entry ls : forall m m',
  run cbs base entry ls m = Some m' -> nsteps (step cbs base entry) (length ls) m m'.
Proof.
  induction ls as [|l ls IH]; simpl; intros m m' H; [injection H as <-; constructor |].
  destruct (step_fn cbs base entry l m) as [m1|] eqn:E; [| done].
  eapply nsteps_l; [by econstructor | by apply IH].
Qed.

(** The timer of processor 1 fails: the processor parks and the boot
    processor waits for it. *)
Example timer_failure_waits :
  let m := board_run (replicate 4 (LBoot 0) ++ [LSec 1 0; LSec 1 0; LSec 1 (-1)]) in
  m_boot m = BootWait 1 0 /\ m_sec m !! 1%nat = Some SecParked.
Proof. split; vm_compute; reflexivity. Qed.

(** ** Claims *)

(** C19: whatever the interleaving of the boot processor with the ones it
    starts, a secondary processor is marked online only after its own set-up
    callbacks (per-CPU area, interrupt controller, timer) have each run once,
    in order and with success, with its per-CPU base register loaded; and
    when the boot processor returns success all processors are online. *)
Theorem smp_bringup_correct cbs base entry m :
  cbs_ok cbs -> rtc (step (smp_cbs cbs) base entry) (smp_start cbs) m ->
  (forall c, c ∈ m_online m -> c <> 0%nat ->
     (c < MAX_CPUS)%nat /\ sec_events c (m_log m) = setup_events cbs c (S CPUHP_ONLINE)
     /\ m_tpidr m !! c = Some (nth c base 0))
  /\ (m_boot m = BootRet 0 -> forall c, (c < MAX_CPUS)%nat -> c ∈ m_online m).
Proof.
  intros Hcbs Hr. pose proof (reach_inv cbs Hcbs base entry m Hr) as Hinv. split.
  - intros c Hon Hne. pose proof (inv_on _ _ _ Hinv c Hon) as Hc. split; [done |].
    destruct (lookup_lt_is_Some_2 (m_sec m) c) as (p & Ep); [rewrite (inv_len _ _ _ Hinv); lia |].
    pose proof (inv_sec _ _ _ Hinv c p Ep) as S. destruct p; simpl in S; [| | | tauto].
    + exfalso. tauto.
    + tauto.
    + tauto.
  - intros Eb. pose proof (inv_boot _ _ _ Hinv) as B. unfold boot_ok in B. rewrite Eb in B. by apply B.
Qed.

Lemma smp_bringup_correct_witness :
  m_boot (board_run board_labels) = BootRet 0
  /\ (forall c, (c < MAX_CPUS)%nat -> c ∈ m_online (board_run board_labels)).
Proof.
  split; [vm_compute; reflexivity |].
  apply (smp_bringup_correct board_cbs [10; 20; 30; 40] 0); [apply board_cbs_ok | | vm_compute; reflexivity].
  apply (run_rtc _ _ _ board_labels). vm_compute. reflexivity.
Defined.

(** C32: bringing up the processors takes at most fifty steps whatever the
    interleaving and the results of the callbacks; a state in which no
    processor can move has the boot processor returned, with success if no
    callback failed, or waiting without a time limit for a processor whose
    set-up failed. *)
Theorem smp_bringup_ends cbs base entry n m :
  cbs_ok cbs -> nsteps (step (smp_cbs cbs) base entry) n (smp_start cbs) m ->
  (n <= 50)%nat
  /\ ((forall m', ~ step (smp_cbs cbs) base entry m m') ->
      ((exists err, m_boot m = BootRet err)
       \/ exists cpu err, m_boot m = BootWait cpu err /\ m_sec m !! cpu = Some SecParked)
      /\ (all_ok m -> m_boot m = BootRet 0)).
Proof.
  intros Hcbs Hn. destruct (nsteps_measure cbs Hcbs base entry n m Hn) as [Hinv Hle].
  split; [lia |]. intros Hstuck. pose proof (stuck_state cbs Hcbs base entry m Hinv Hstuck) as Hs.
  split; [done |]. intros Ha.
  assert (Hr : rtc (step (smp_cbs cbs) base entry) (smp_start cbs) m) by (apply rtc_nsteps; by exists n).
  destruct (reach_no_failure cbs Hcbs base entry m Hr Ha) as [N1 N2].
  destruct Hs as [(err & E) | (cpu & err & _ & E)]; [| by destruct (N2 cpu)].
  rewrite E in N1. simpl in N1. by subst.
Qed.

Lemma smp_bringup_ends_witness :
  (27 <= 50)%nat
  /\ ((forall m', ~ step (smp_cbs board_cbs) [10; 20; 30; 40] 0 (board_run board_labels) m') ->
      ((exists err, m_boot (board_run board_labels) = BootRet err)
       \/ exists cpu err, m_boot (board_run board_labels) = BootWait cpu err
            /\ m_sec (board_run board_labels) !! cpu = Some SecParked)
      /\ (all_ok (board_run board_labels) -> m_boot (board_run board_labels) = BootRet 0)).
Proof.
  apply (smp_bringup_ends board_cbs [10; 20; 30; 40] 0 27); [apply board_cbs_ok |].
  apply (run_nsteps _ _ _ board_labels). vm_compute. reflexivity.
Defined.
