(* ===== verification/PerCpu.v ===== *)
(** * Per-CPU variables: [src/src/smp/percpu.c], [src/include/percpu.h], [smp.h]

    Each processor has a copy of the per-CPU section, allocated and zeroed by
    [per_cpu_init]; a variable is reached through the base of the processor,
    whose number comes from its hardware identifier ([MPIDR_EL1]).  The
    allocations are the ones of [Kmalloc]. *)

From Stdlib Require Import String.
From S2P Require Import Prelude Memblock MemblockList MemblockArray MemblockRange MemblockFree.
From S2P Require Import MemblockSearch MemblockAlloc CString CStringSpec Kmalloc Smp.
#[local] Open Scope Z_scope.

Definition MPIDR_HWID_BITMASK : Z := 0xff00ffffff.

Definition get_mpidr (mpidr_el1 : Z) : Z := Z.land mpidr_el1 MPIDR_HWID_BITMASK.

(** [__cpu_logical_map] as [cpu_init] leaves it. *)
Definition cpu_logical_map (boot_mpidr : Z) : list Z := [boot_mpidr; 1; 2; 3].

Fixpoint processor_id_from (i : Z) (map : list Z) (mpidr : Z) : Z :=
  match map with
  | [] => - EINVAL
  | m :: map => if m =? mpidr then i else processor_id_from (i + 1) map mpidr
  end.

Definition mpidr_to_processor_id (map : list Z) (mpidr : Z) : Z := processor_id_from 0 map mpidr.

(** The loop of [per_cpu_init], from processor [i], for [n] processors. *)
Fixpoint per_cpu_alloc (n i : nat) (size : Z) (h : kheap) (bases : list Z)
    : outcome (Z * kheap * list Z) :=
  match n with
  | O => Done (0, h, bases)
  | S n =>
      let! (p, h) := kmalloc h size true in
      if p =? 0 then Done (- ENOMEM, h, bases)
      else per_cpu_alloc n (S i) size h (<[i := p]> bases)
  end.

(** The second result is the base register of the boot processor. *)
Definition per_cpu_init (size : Z) (h : kheap) (cbs : callbacks)
    : outcome (Z * option Z * kheap * list Z * callbacks) :=
  let! (err, h, bases) := per_cpu_alloc MAX_CPUS 0 size h (replicate MAX_CPUS 0) in
  if negb (err =? 0) then Done (err, None, h, bases, cbs)
  else
    let (err, cbs) :=
      cpuhp_state_register cbs CPUHP_PERCPU_INIT "percpu_setup" (Some PerCpuSetup) 0 in
    Done (err, Some (nth 0 bases 0), h, bases, cbs).

(** [per_cpu_ptr] and [this_cpu_ptr]; [start] is [__percpu_start]. *)
Definition per_cpu_ptr (start : Z) (bases : list Z) (ptr : Z) (cpu : nat) : Z :=
  u64 (ptr - start + nth cpu bases 0).

Definition this_cpu_ptr (start : Z) (bases : list Z) (map : list Z) (ptr mpidr : Z) : Z :=
  per_cpu_ptr start bases ptr (Z.to_nat (mpidr_to_processor_id map mpidr)).

(** ** Processor numbers *)

Lemma processor_id_boot boot i :
  ~ 1 <= boot <= 3 -> (i < MAX_CPUS)%nat ->
  mpidr_to_processor_id (cpu_logical_map boot) (nth i (cpu_logical_map boot) 0) = Z.of_nat i.
Proof.
  intros Hb Hi. unfold mpidr_to_processor_id, cpu_logical_map.
  assert (i = 0 \/ i = 1 \/ i = 2 \/ i = 3)%nat as [-> | [-> | [-> | ->]]] by (unfold MAX_CPUS in Hi; lia);
    cbn [processor_id_from nth]; repeat case_match; bool_facts; lia.
Qed.

(** A boot processor whose identifier is the fixed one of another shares its
    number, and so its per-CPU area. *)
Lemma processor_id_clash boot :
  1 <= boot <= 3 -> mpidr_to_processor_id (cpu_logical_map boot) boot = 0.
Proof.
  intros Hb. unfold mpidr_to_processor_id, cpu_logical_map. cbn [processor_id_from]. by rewrite Z.eqb_refl.
Qed.

(** ** The areas *)

(** The heap can serve [n] requests of the size one after the other. *)
Fixpoint can_alloc (n : nat) (size : Z) (h : kheap) : Prop :=
  match n with
  | O => True
  | S n => heap_room h /\ heap_free h size
           /\ forall p h', kmalloc h size true = Done (p, h') -> can_alloc n size h'
  end.

Section Areas.
Context (size : Z) (Hsize : 0 < size < 2 ^ 31).
Let n := REGION_HDR + kmalloc_buf_size size.

(** The areas allocated so far: reserved, disjoint and zero. *)
Record areas_ok (h : kheap) (bases pas : list Z) (k : nat) : Prop := {
  ar_len : length pas = k;
  ar_base : forall i pa, pas !! i = Some pa -> nth i bases 0 = pa + LINER_MAP_OFFSET + REGION_HDR;
  ar_range : forall i pa, pas !! i = Some pa -> 0 <= pa /\ pa + n <= 2 ^ 47;
  ar_res : forall i pa a, pas !! i = Some pa -> block pa n a -> covers (reserved (kh_mb h)) a;
  ar_disj : forall i j p q, pas !! i = Some p -> pas !! j = Some q -> i <> j ->
            disjoint_blocks (p, n) (q, n);
  ar_zero : forall i pa a, pas !! i = Some pa ->
            block (pa + LINER_MAP_OFFSET + REGION_HDR) (kmalloc_buf_size size) a ->
            kh_mem h !! a = Some 0;
}.

Lemma buf_size_range : size <= kmalloc_buf_size size <= 2 ^ 32.
Proof.
  destruct (kmalloc_align_spec size Hsize) as (_ & H1 & H2). rewrite kmalloc_buf_size_spec by done. lia.
Qed.

Lemma areas_ok_snoc h h' bases pas k pa :
  areas_ok h bases pas k -> (k < length bases)%nat ->
  0 <= pa -> pa + n <= 2 ^ 47 ->
  (forall a, block pa n a -> ~ covers (reserved (kh_mb h)) a) ->
  same_set (covers (reserved (kh_mb h'))) (fun a => covers (reserved (kh_mb h)) a \/ block pa n a) ->
  (forall a, block (pa + LINER_MAP_OFFSET + REGION_HDR) (kmalloc_buf_size size) a -> kh_mem h' !! a = Some 0) ->
  (forall a, ~ block (pa + LINER_MAP_OFFSET) n a -> kh_mem h' !! a = kh_mem h !! a) ->
  areas_ok h' (<[k := pa + LINER_MAP_OFFSET + REGION_HDR]> bases) (pas ++ [pa]) (S k).
Proof.
  intros [A1 A2 A3 A4 A5 A6] Hk H1 H2 Hfree Hres Hz Hframe.
  assert (Hd : forall i q, pas !! i = Some q -> disjoint_blocks (q, n) (pa, n)).
  { intros i q Hq a [B1 B2]. apply (Hfree a B2). by eapply A4. }
  assert (Hcase : forall i q, (pas ++ [pa]) !! i = Some q ->
    (pas !! i = Some q /\ (i < k)%nat) \/ (i = k /\ q = pa)).
  { intros i q [Hq | (Hi & Hq)]%lookup_app_Some; [left; split; [done | rewrite <- A1; by eapply lookup_lt_Some] |].
    apply list_lookup_singleton_Some in Hq as [Hi0 <-]. right. split; [lia | done]. }
  split.
  - rewrite length_app, A1. simpl. lia.
  - intros i q [[Hq Hi] | [-> ->]]%Hcase.
    + rewrite <- (A2 i q Hq), !nth_lookup, list_lookup_insert_ne; [done | lia].
    + rewrite nth_lookup, list_lookup_insert_eq; [done | lia].
  - intros i q [[Hq _] | [_ ->]]%Hcase; [by eapply A3 | done].
  - intros i q a [[Hq _] | [_ ->]]%Hcase Ha; apply Hres; [left; by eapply A4 | by right].
  - intros i j p q [[Hp Hi] | [-> ->]]%Hcase [[Hq Hj] | [-> ->]]%Hcase Hne.
    + by eapply A5.
    + by eapply Hd.
    + intros a [B1 B2]. by apply (Hd j q Hq a).
    + done.
  - intros i q a [[Hq Hi] | [-> ->]]%Hcase Ha; [| by apply Hz].
    rewrite Hframe; [by eapply A6 |]. intros Hb. apply (Hd i q Hq (a - LINER_MAP_OFFSET)).
    pose proof buf_size_range. unfold n, block, REGION_HDR in *. simpl. lia.
Qed.

Lemma per_cpu_alloc_spec m : forall k h bases pas,
  heap_ok h -> can_alloc m size h -> areas_ok h bases pas k -> length bases = (k + m)%nat ->
  exists h' bases' pas', per_cpu_alloc m k size h bases = Done (0, h', bases') /\ heap_ok h'
    /\ length bases' = (k + m)%nat /\ areas_ok h' bases' pas' (k + m).
Proof.
  induction m as [|m IH]; intros k h bases pas Hh Hcan Har Hlen.
  - exists h, bases, pas. rewrite Nat.add_0_r in *. done.
  - destruct Hcan as (Hroom & Hfree & Hnext).
    destruct (kmalloc_fresh h size true Hh Hroom Hsize Hfree)
      as (pa & h' & E & Hh' & Hpa & Hend & _ & Hblk & Hres & _ & Hz & Hframe).
    cbn [per_cpu_alloc]. rewrite E. cbn [obind].
    rewrite (proj2 (Z.eqb_neq _ 0)) by (unfold LINER_MAP_OFFSET, PAGE_OFFSET, RAM_BASE, REGION_HDR; lia).
    replace (k + S m)%nat with (S k + m)%nat in * by lia.
    apply (IH (S k) h' _ (pas ++ [pa]) Hh'); [by eapply Hnext | | by rewrite length_insert].
    apply (areas_ok_snoc h); try done; [lia | | by apply Hz]. intros a Ha. by apply Hblk.
Qed.
End Areas.

(** ** Checking that the heap can serve the requests *)

Fixpoint can_allocb (n : nat) (size : Z) (h : kheap) : bool :=
  match n with
  | O => true
  | S n =>
      bool_decide (heap_room h)
      && match memblock_phys_alloc_range (kh_mb h) (REGION_HDR + kmalloc_buf_size size) 0 0 0 with
         | Done (pa, _) => negb (pa =? 0)
         | _ => false
         end
      && match kmalloc h size true with Done (_, h') => can_allocb n size h' | _ => false end
  end.

Lemma heap_free_run h size pa mb :
  heap_ok h -> heap_room h -> 0 < size < 2 ^ 31 ->
  memblock_phys_alloc_range (kh_mb h) (REGION_HDR + kmalloc_buf_size size) 0 0 0 = Done (pa, mb) ->
  pa <> 0 -> heap_free h size.
Proof.
  intros [Hinv [_ Hmax] _] [Hroom _] Hs E Hne. pose proof (buf_size_range size Hs).
  destruct (alloc_range_spec (kh_mb h) (REGION_HDR + kmalloc_buf_size size) 0 0 0) as (r & s' & E' & Hpost);
    try done; [by left | unfold REGION_HDR; lia |].
  rewrite E in E'. injection E' as <- <-. destruct Hpost as [(_ & Hc & _) | (? & _)]; [| done].
  by exists pa.
Qed.

Lemma can_allocb_ok n size : 0 < size < 2 ^ 31 -> forall h,
  heap_ok h -> can_allocb n size h = true -> can_alloc n size h.
Proof.
  intros Hs. induction n as [|n IH]; intros h Hh Hb; [done |]. cbn [can_allocb] in Hb.
  apply andb_true_iff in Hb as [[Hr Ha]%andb_true_iff Hk]. apply bool_decide_eq_true in Hr.
  destruct (memblock_phys_alloc_range _ _ 0 0 0) as [[pa mb] | |] eqn:E; try done. bool_facts.
  pose proof (heap_free_run h size pa mb Hh Hr Hs E Ha) as Hf. split; [done |]. split; [done |].
  intros p h' Ek. rewrite Ek in Hk. apply IH; [| done].
  destruct (kmalloc_fresh h size true Hh Hr Hs Hf) as (pa' & h2 & E2 & Hh2 & _).
  rewrite Ek in E2. by injection E2 as -> ->.
Qed.

(** ** Claims *)

(** C22: [per_cpu_init] on a heap that can serve it gives each processor its
    own copy of the per-CPU section: a processor reaches, through its
    hardware identifier, a zeroed reserved area for every variable, and the
    areas that different processors reach for any two variables are
    disjoint; this needs a boot processor whose identifier is none of 1, 2
    and 3, the fixed identifiers of the others. *)
Theorem percpu_isolated size h cbs start boot :
  0 < size < 2 ^ 31 -> heap_ok h -> can_alloc MAX_CPUS size h -> ~ 1 <= boot <= 3 ->
  length cbs = CPUHP_MAX ->
  exists h' bases cbs',
    per_cpu_init size h cbs = Done (0, Some (nth 0 bases 0), h', bases, cbs') /\ heap_ok h'
    /\ callback_at cbs' CPUHP_PERCPU_INIT = Some PerCpuSetup
    /\ let map := cpu_logical_map boot in
       let at_cpu i v := this_cpu_ptr start bases map v (nth i map 0) in
       let var v len := start <= v /\ 0 <= len /\ v + len <= start + size in
       (forall i v len k, (i < MAX_CPUS)%nat -> var v len -> 0 <= k < len ->
          kh_mem h' !! (at_cpu i v + k) = Some 0
          /\ covers (reserved (kh_mb h')) (virt_to_phys (at_cpu i v + k)))
       /\ (forall i j v len w len', (i < MAX_CPUS)%nat -> (j < MAX_CPUS)%nat -> i <> j ->
             var v len -> var w len' -> disjoint_blocks (at_cpu i v, len) (at_cpu j w, len')).
Proof.
  intros Hs Hh Hcan Hboot Hcbs.
  destruct (per_cpu_alloc_spec size Hs MAX_CPUS 0 h (replicate MAX_CPUS 0) [])
    as (h' & bases & pas & E & Hh' & Hlen & Har); [done | done | | done |].
  { split; try done; intros i ? ? Hi; by rewrite lookup_nil in Hi. }
  exists h', bases, (<[CPUHP_PERCPU_INIT := mkCb "percpu_setup" (Some PerCpuSetup) 0]> cbs).
  split. { unfold per_cpu_init. by rewrite E. }
  split; [done |]. split; [by rewrite callback_at_insert by (rewrite Hcbs; hp_lia) |]. cbv zeta.
  pose proof (buf_size_range size Hs) as Hbuf. assert (H16 : REGION_HDR = 16) by done.
  assert (Hoff : LINER_MAP_OFFSET + 2 ^ 47 < 2 ^ 64 - 2 ^ 33 /\ 0 <= LINER_MAP_OFFSET)
    by (unfold LINER_MAP_OFFSET, PAGE_OFFSET, RAM_BASE; lia).
  assert (Hat : forall i v len, (i < MAX_CPUS)%nat -> start <= v /\ 0 <= len /\ v + len <= start + size ->
    exists pa, pas !! i = Some pa /\ 0 <= pa /\ pa + (REGION_HDR + kmalloc_buf_size size) <= 2 ^ 47
      /\ this_cpu_ptr start bases (cpu_logical_map boot) v (nth i (cpu_logical_map boot) 0)
         = pa + LINER_MAP_OFFSET + REGION_HDR + (v - start)).
  { intros i v len Hi Hv. destruct (lookup_lt_is_Some_2 pas i) as (pa & Hpa).
    { rewrite (ar_len _ _ _ _ _ Har). done. }
    exists pa. split; [done |]. pose proof (ar_range _ _ _ _ _ Har i pa Hpa) as [R1 R2].
    split; [done |]. split; [done |].
    unfold this_cpu_ptr, per_cpu_ptr. rewrite processor_id_boot by done. rewrite Nat2Z.id.
    rewrite (ar_base _ _ _ _ _ Har i pa Hpa). rewrite u64_small by lia. lia. }
  split.
  - intros i v len k Hi Hv Hk. destruct (Hat i v len Hi Hv) as (pa & Hpa & R1 & R2 & ->). split.
    + eapply (ar_zero _ _ _ _ _ Har); [exact Hpa |]. unfold block. lia.
    + eapply (ar_res _ _ _ _ _ Har); [exact Hpa |].
      replace (pa + LINER_MAP_OFFSET + REGION_HDR + (v - start) + k)
        with (pa + REGION_HDR + (v - start) + k + LINER_MAP_OFFSET) by lia.
      rewrite virt_to_phys_linear by lia. unfold block. lia.
  - intros i j v len w len' Hi Hj Hne Hv Hw a [A1 A2].
    destruct (Hat i v len Hi Hv) as (p & Hp & P1 & P2 & Ep).
    destruct (Hat j w len' Hj Hw) as (q & Hq & Q1 & Q2 & Eq). cbn [fst snd] in A1, A2. rewrite Ep in A1. rewrite Eq in A2.
    apply (ar_disj _ _ _ _ _ Har i j p q Hp Hq Hne (a - LINER_MAP_OFFSET)).
    unfold block in *. cbn [fst snd]. lia.
Qed.

Lemma percpu_isolated_witness :
  exists h' bases cbs',
    per_cpu_init 24 small_heap no_callbacks = Done (0, Some (nth 0 bases 0), h', bases, cbs')
    /\ heap_ok h'
    /\ callback_at cbs' CPUHP_PERCPU_INIT = Some PerCpuSetup
    /\ let map := cpu_logical_map 0 in
       let at_cpu i v := this_cpu_ptr 0xffff000000600000 bases map v (nth i map 0) in
       let var v len := 0xffff000000600000 <= v /\ 0 <= len /\ v + len <= 0xffff000000600000 + 24 in
       (forall i v len k, (i < MAX_CPUS)%nat -> var v len -> 0 <= k < len ->
          kh_mem h' !! (at_cpu i v + k) = Some 0
          /\ covers (reserved (kh_mb h')) (virt_to_phys (at_cpu i v + k)))
       /\ (forall i j v len w len', (i < MAX_CPUS)%nat -> (j < MAX_CPUS)%nat -> i <> j ->
             var v len -> var w len' -> disjoint_blocks (at_cpu i v, len) (at_cpu j w, len')).
Proof.
  apply (percpu_isolated 24 small_heap no_callbacks 0xffff000000600000 0);
    [lia | apply small_heap_ok | | lia | reflexivity].
  apply can_allocb_ok; [lia | apply small_heap_ok | vm_compute; reflexivity].
Defined.
