(* ===== verification/Gic.v ===== *)
(** * The interrupt controller: [src/src/driver/gic-v3.c]

    The driver reads and writes the registers of the distributor, of the
    redistributors and of the CPU interface.  The hardware is a parameter: a
    state with reads (which may change it: acknowledging an interrupt does)
    and writes, the class [Mmio].  The driver's own state is the record
    [gic]; messages on the console are not kept. *)

From Stdlib Require Import String.
From S2P Require Import Prelude Irq Smp.
From S2P Require Import PerCpu.
#[local] Open Scope Z_scope.

(** The system registers the driver uses. *)
Inductive sysreg :=
  | ICC_IAR1_EL1 | ICC_EOIR1_EL1 | ICC_PMR_EL1 | ICC_BPR1_EL1 | ICC_CTLR_EL1 | ICC_IGRPEN1_EL1
  | ICC_SRE_EL1 | ICC_AP0R (n : Z) | ICC_AP1R (n : Z).

(** The width of a memory-mapped access is given in bits. *)
Class Mmio (S : Type) := {
  mmio_read : Z -> Z -> S -> Z * S;
  mmio_write : Z -> Z -> Z -> S -> S;
  sysreg_read : sysreg -> S -> Z * S;
  sysreg_write : sysreg -> Z -> S -> S;
}.

(** ** Registers and fields *)

Definition GICD_CTLR : Z := 0.
Definition GICD_TYPER : Z := 0x4.
Definition GICD_TYPER2 : Z := 0xC.
Definition GICD_IGROUPR : Z := 0x80.
Definition GICD_IGROUPRnE : Z := 0x1000.
Definition GICD_ICENABLERnE : Z := 0x1400.
Definition GICD_ICACTIVERnE : Z := 0x1C00.
Definition GICD_IPRIORITYRnE : Z := 0x2000.
Definition GICD_ICFGRnE : Z := 0x3000.
Definition GICD_IROUTER : Z := 0x6000.
Definition GICD_IROUTERnE : Z := 0x8000.
Definition GICD_PIDR2 : Z := 0xFFE8.
Definition GICR_CTLR : Z := GICD_CTLR.
Definition GICR_TYPER : Z := 0x8.
Definition GICR_WAKER : Z := 0x14.
Definition GICR_IGROUPR0 : Z := GICD_IGROUPR.
Definition GICR_PIDR2 : Z := GICD_PIDR2.
Definition GICR_VPROPBASER : Z := 0x70.
Definition GICR_VPENDBASER : Z := 0x78.
Definition GIC_DIST_ENABLE_SET : Z := 0x100.
Definition GIC_DIST_ENABLE_CLEAR : Z := 0x180.
Definition GIC_DIST_ACTIVE_CLEAR : Z := 0x380.
Definition GIC_DIST_PRI : Z := 0x400.
Definition GIC_DIST_CONFIG : Z := 0xc00.

Definition GICD_CTLR_ENABLE_G1 : Z := 2 ^ 0.
Definition GICD_CTLR_ENABLE_G1A : Z := 2 ^ 1.
Definition GICD_CTLR_ARE_NS : Z := 2 ^ 4.
Definition GICD_CTLR_DS : Z := 2 ^ 6.
Definition GICD_CTLR_nASSGIreq : Z := 2 ^ 8.
Definition GICD_CTLR_RWP : Z := 2 ^ 31.
Definition GICR_CTLR_RWP : Z := 2 ^ 3.
Definition GIC_PIDR2_ARCH_MASK : Z := 0xf0.
Definition GIC_PIDR2_ARCH_GICv3 : Z := 0x30.
Definition GIC_PIDR2_ARCH_GICv4 : Z := 0x40.
Definition GICD_INT_ACTLOW_LVLTRIG : Z := 0.
Definition GICD_INT_EN_CLR_X32 : Z := 0xffffffff.
Definition FLAGS_WORKAROUND_INSECURE : Z := 2 ^ 3.
Definition DEFAULT_PMR_VALUE : Z := 0xf0.
Definition GICV3_PRIO_IRQ : Z := 0xc0.
Definition GICV3_PRIO_NMI : Z := 0x80.
Definition SGI_NR : Z := 16.
Definition IRQ_SGI_NUM : Z := 16.
Definition IRQ_PPI_NUM : Z := 16.
Definition SZ_64K : Z := 0x10000.
Definition SZ_128K : Z := 0x20000.

Definition GICD_TYPER_SPIS (typer : Z) : Z := (Z.land typer 0x1f + 1) * 32.
Definition GICD_TYPER_ESPIS (typer : Z) : Z :=
  if Z.testbit typer 8 then GICD_TYPER_SPIS (Z.shiftr typer 27) else 0.
Definition GICR_TYPER_NR_PPIS (r : Z) : Z :=
  let ppinum := Z.land (Z.shiftr r 27) 0x1f in
  16 + (if (ppinum =? 1) || (ppinum =? 2) then ppinum * 32 else 0).
Definition REPEAT_BYTE_U32 (x : Z) : Z := u32 (u64 ((2 ^ 64 - 1) / 0xff * x)).
Definition __gicv3_prio_to_ns (p : Z) : Z := Z.land 0xff (Z.shiftl p 1).
Definition MPIDR_AFFINITY_LEVEL (mpidr level : Z) : Z :=
  Z.land (Z.shiftr mpidr (Z.shiftl (Z.shiftr (Z.shiftl 1 level) 1) 3)) 0xff.

Definition gic_irqnr_is_special (irqnr : Z) : bool := (1020 <=? irqnr) && (irqnr <=? 1023).

Definition gic_mpidr_to_affinity (mpidr : Z) : Z :=
  Z.lor (Z.lor (Z.lor (Z.shiftl (MPIDR_AFFINITY_LEVEL mpidr 3) 24)
                      (Z.shiftl (MPIDR_AFFINITY_LEVEL mpidr 2) 16))
               (Z.shiftl (MPIDR_AFFINITY_LEVEL mpidr 1) 8))
        (MPIDR_AFFINITY_LEVEL mpidr 0).

(** ** The state of the driver *)

Record redist_region := mkRegionR {
  redist_base : Z;
  rr_phys_base : Z;
  single_redist : bool;
}.

Record gic := mkGic {
  dist_base : Z;
  gicd_typer : Z;
  gicd_typer2 : Z;
  has_vlpis : bool;
  has_rvpeid : bool;
  has_direct_lpi : bool;
  has_vpend_valid_dirty : bool;
  redist_regions : list redist_region;
  rd_base : list Z;
  rd_phys_base : list Z;
  redist_stride : Z;
  gic_flags : Z;
  gd_has_rss : bool;
  ppi_nr : Z;
  cpu_has_rss : list bool;
  dist_prio_irq : Z;
  dist_prio_nmi : Z;
  nmi_support_forbidden : bool;
  cpus_have_security_disabled : bool;
  cpus_have_group0 : bool;
}.

Definition GIC_LINE_NR (g : gic) : Z := Z.min (GICD_TYPER_SPIS (gicd_typer g)) 1020.
Definition GIC_ESPI_NR (g : gic) : Z := GICD_TYPER_ESPIS (gicd_typer g).

(** The processor a function runs on: its identifier and the map of [smp.c]. *)
Record cpu_id := mkCpu { cpu_mpidr : Z; cpu_map : list Z }.
Definition cpu_number (c : cpu_id) : Z := mpidr_to_processor_id (cpu_map c) (cpu_mpidr c).

(** [gic_data.redists[get_smp_processor_id()]]: an unknown processor indexes
    out of the array. *)
Definition gic_data_rdist_rd_base (c : cpu_id) (g : gic) : outcome Z :=
  if cpu_number c <? 0 then Bug
  else match rd_base g !! Z.to_nat (cpu_number c) with Some b => Done b | None => Bug end.
Definition gic_data_rdist_sgi_base (c : cpu_id) (g : gic) : outcome Z :=
  let! b := gic_data_rdist_rd_base c g in Done (b + SZ_64K).

(** The values of the loop variable of [for (i = start; i < stop; i += step)]. *)
Definition steps (start stop step : Z) : list Z :=
  (fun k => start + step * k) <$> seqZ 0 ((stop - start + step - 1) / step).

Definition ETIMEDOUT : Z := 110.

(** ** Accesses *)

Section Driver.
Context {D : Type} `{Mmio D}.

Definition read_u32 (a : Z) (d : D) : Z * D := let (v, d) := mmio_read 32 a d in (u32 v, d).
Definition read_u64 (a : Z) (d : D) : Z * D := let (v, d) := mmio_read 64 a d in (u64 v, d).
Definition __raw_writel (v a : Z) (d : D) : D := mmio_write 32 a (u32 v) d.
Definition __raw_writeq (v a : Z) (d : D) : D := mmio_write 64 a (u64 v) d.
Definition gic_read_ctlr (d : D) : Z * D := let (v, d) := sysreg_read ICC_CTLR_EL1 d in (u32 v, d).
Definition gic_read_pmr (d : D) : Z * D := let (v, d) := sysreg_read ICC_PMR_EL1 d in (u32 v, d).

(** A loop whose body only writes. *)
Definition for_writes (l : list Z) (body : Z -> D -> D) (d : D) : D :=
  fold_left (fun d i => body i d) l d.

(** [readx_poll_timeout_atomic] with a delay of 1 us and a limit of 1 s: the
    remaining nanoseconds drop by 1001 in each round, so less than a million
    rounds are made. *)
Definition POLL_FUEL : nat := Z.to_nat 1000000.

Fixpoint poll (fuel : nat) (left_ns addr : Z) (cond : Z -> bool) (d : D) : outcome (Z * D) :=
  match fuel with
  | O => Fuel
  | S fuel =>
      let (val, d) := read_u32 addr d in
      if cond val then Done (0, d)
      else if left_ns <? 0 then
        let (val, d) := read_u32 addr d in
        Done (if cond val then 0 else - ETIMEDOUT, d)
      else poll fuel (left_ns - 1000 - 1) addr cond d
  end.

Definition readx_poll_timeout_atomic (addr : Z) (cond : Z -> bool) (d : D) : outcome (Z * D) :=
  poll POLL_FUEL (1000000 * 1000) addr cond d.

(** ** Interrupt handling *)

Definition __gic_handle_irq (run : Z -> Z -> Z -> D -> outcome (irqreturn * D)) (s : irqs)
    (irqnr : Z) (d : D) : outcome (list report * D) :=
  if gic_irqnr_is_special irqnr then Done ([], d)
  else
    let! (_, reports, d) := generic_handle_domain_irq run s irqnr d in
    Done (reports, sysreg_write ICC_EOIR1_EL1 irqnr d).

(** [gic_v3_handle_irq]: the number is the low 32 bits of the register. *)
Definition gic_v3_handle_irq (run : Z -> Z -> Z -> D -> outcome (irqreturn * D)) (s : irqs) (d : D)
    : outcome (list report * D) :=
  let (irqstat, d) := sysreg_read ICC_IAR1_EL1 d in
  __gic_handle_irq run s (u32 irqstat) d.

(** ** Probing *)

Definition gic_validate_dist_version (base : Z) (d : D) : Z * D :=
  let (v, d) := read_u32 (base + GICD_PIDR2) d in
  let reg := Z.land v GIC_PIDR2_ARCH_MASK in
  (if negb (reg =? GIC_PIDR2_ARCH_GICv3) && negb (reg =? GIC_PIDR2_ARCH_GICv4) then - ENODEV else 0, d).

(** The deactivation of virtual processors at boot. *)
Definition rdist_boot_cleanup (typer ptr : Z) (d : D) : D :=
  if Z.testbit typer 1 && Z.testbit typer 7 then
    let (val, d) := read_u64 (ptr + SZ_128K + GICR_VPENDBASER) d in
    let d := if Z.testbit val 63 then __raw_writeq (2 ^ 61) (ptr + SZ_128K + GICR_VPENDBASER) d else d in
    let (val, d) := read_u64 (ptr + SZ_128K + GICR_VPROPBASER) d in
    __raw_writeq (Z.clearbit val 63) (ptr + SZ_128K + GICR_VPROPBASER) d
  else d.

Definition set_features (g : gic) (vlpis rvpeid direct dirty : bool) (ppi : Z) : gic :=
  mkGic (dist_base g) (gicd_typer g) (gicd_typer2 g) vlpis rvpeid direct dirty (redist_regions g)
    (rd_base g) (rd_phys_base g) (redist_stride g) (gic_flags g) (gd_has_rss g) ppi (cpu_has_rss g)
    (dist_prio_irq g) (dist_prio_nmi g) (nmi_support_forbidden g) (cpus_have_security_disabled g)
    (cpus_have_group0 g).

Definition __gic_update_rdist_properties (g : gic) (region : nat) (ptr : Z) (d : D)
    : outcome (Z * gic * D) :=
  let (typer, d) := read_u64 (ptr + GICR_TYPER) d in
  let (ctlr, d) := read_u32 (ptr + GICR_CTLR) d in
  let d := rdist_boot_cleanup typer ptr d in
  let vlpis := has_vlpis g && Z.testbit typer 1 in
  let rvpeid := has_rvpeid g && Z.testbit typer 7 in
  let direct := has_direct_lpi g && (Z.testbit typer 3 || Z.testbit ctlr 2 || rvpeid) in
  let dirty := has_vpend_valid_dirty g && Z.testbit typer 2 in
  let ppi := Z.min (GICR_TYPER_NR_PPIS typer) (ppi_nr g) in
  let g := if rvpeid && negb vlpis then set_features g false false false dirty ppi
           else set_features g vlpis rvpeid direct dirty ppi in
  Done (1, g, d).

(** One region of [gic_iterate_rdists]: the redistributors from [ptr] on, at
    most [fuel] of them.  The result is what [fn] returned last. *)
Fixpoint iterate_region (fuel : nat) (fn : gic -> nat -> Z -> D -> outcome (Z * gic * D))
    (region : nat) (single : bool) (ptr : Z) (g : gic) (d : D) : outcome (Z * gic * D) :=
  match fuel with
  | O => Fuel
  | S fuel =>
      let (typer, d) := read_u64 (ptr + GICR_TYPER) d in
      let! (ret, g, d) := fn g region ptr d in
      if ret =? 0 then Done (0, g, d)
      else if single then Done (ret, g, d)
      else
        let ptr := if negb (redist_stride g =? 0) then ptr + redist_stride g
                   else ptr + SZ_64K * 2 + (if Z.testbit typer 1 then SZ_64K * 2 else 0) in
        if Z.testbit typer 4 then Done (ret, g, d) else iterate_region fuel fn region single ptr g d
  end.

Fixpoint iterate_regions (fuel : nat) (fn : gic -> nat -> Z -> D -> outcome (Z * gic * D))
    (i : nat) (l : list redist_region) (ret : Z) (g : gic) (d : D) : outcome (Z * gic * D) :=
  match l with
  | [] => Done (ret, g, d)
  | r :: l =>
      let (v, d) := read_u32 (redist_base r + GICR_PIDR2) d in
      let reg := Z.land v GIC_PIDR2_ARCH_MASK in
      if negb (reg =? GIC_PIDR2_ARCH_GICv3) && negb (reg =? GIC_PIDR2_ARCH_GICv4) then Done (ret, g, d)
      else
        let! (ret, g, d) := iterate_region fuel fn i (single_redist r) (redist_base r) g d in
        if ret =? 0 then Done (0, g, d) else iterate_regions fuel fn (S i) l ret g d
  end.

(** The redistributors of a region fit in [GICR_MEMMAP_SIZE], two frames of
    64K each at least. *)
Definition RDIST_FUEL : nat := 9.

Definition gic_iterate_rdists (fn : gic -> nat -> Z -> D -> outcome (Z * gic * D)) (g : gic) (d : D)
    : outcome (Z * gic * D) :=
  let! (ret, g, d) := iterate_regions RDIST_FUEL fn 0 (redist_regions g) (- ENODEV) g d in
  Done (if ret =? 0 then 0 else - ENODEV, g, d).

Definition gic_update_rdist_properties (g : gic) (d : D) : outcome (gic * D) :=
  let g := set_features g (has_vlpis g) (has_rvpeid g) (has_direct_lpi g) (has_vpend_valid_dirty g)
             (2 ^ 32 - 1) in
  let! (_, g, d) := gic_iterate_rdists __gic_update_rdist_properties g d in
  let g := if ppi_nr g =? 2 ^ 32 - 1
           then set_features g (has_vlpis g) (has_rvpeid g) (has_direct_lpi g) (has_vpend_valid_dirty g) 0
           else g in
  Done (g, d).

(** ** Priorities *)

Definition gic_enable_sre (d : D) : bool * D :=
  let (val, d) := sysreg_read ICC_SRE_EL1 d in
  if Z.testbit val 0 then (true, d)
  else
    let d := sysreg_write ICC_SRE_EL1 (Z.lor (u32 val) 1) d in
    let (val, d) := sysreg_read ICC_SRE_EL1 d in
    (Z.testbit val 0, d).

Definition gic_get_pribits (d : D) : Z * D :=
  let (pribits, d) := gic_read_ctlr d in
  (Z.shiftr (Z.land pribits (Z.shiftl 0x7 8)) 8 + 1, d).

Definition gic_has_group0 (d : D) : bool * D :=
  let (old_pmr, d) := gic_read_pmr d in
  let (pribits, d) := gic_get_pribits d in
  let d := sysreg_write ICC_PMR_EL1 (Z.shiftl 1 (8 - pribits)) d in
  let (val, d) := gic_read_pmr d in
  let d := sysreg_write ICC_PMR_EL1 old_pmr d in
  (negb (val =? 0), d).

Definition gic_dist_security_disabled (g : gic) (d : D) : bool * D :=
  let (v, d) := read_u32 (dist_base g + GICD_CTLR) d in (Z.testbit v 6, d).

Definition set_prio (g : gic) (irq nmi : Z) (forbidden ds group0 : bool) : gic :=
  mkGic (dist_base g) (gicd_typer g) (gicd_typer2 g) (has_vlpis g) (has_rvpeid g) (has_direct_lpi g)
    (has_vpend_valid_dirty g) (redist_regions g) (rd_base g) (rd_phys_base g) (redist_stride g)
    (gic_flags g) (gd_has_rss g) (ppi_nr g) (cpu_has_rss g) irq nmi forbidden ds group0.

Definition gic_prio_init (g : gic) (d : D) : gic * D :=
  let (group0, d) := gic_has_group0 d in
  let (ds, d) := gic_dist_security_disabled g d in
  let '(ds, forbidden, d) :=
    if negb (Z.land (gic_flags g) FLAGS_WORKAROUND_INSECURE =? 0) && negb ds then
      if group0 then
        let (val, d) := read_u32 (dist_base g + GICD_CTLR) d in
        let d := __raw_writel (Z.lor val GICD_CTLR_DS) (dist_base g + GICD_CTLR) d in
        let (ds, d) := gic_dist_security_disabled g d in (ds, nmi_support_forbidden g, d)
      else (ds, true, d)
    else (ds, nmi_support_forbidden g, d) in
  let g := if group0 && negb ds
           then set_prio g (__gicv3_prio_to_ns (dist_prio_irq g)) (__gicv3_prio_to_ns (dist_prio_nmi g))
                  forbidden ds group0
           else set_prio g (dist_prio_irq g) (dist_prio_nmi g) forbidden ds group0 in
  (g, d).

(** ** The distributor *)

Definition gic_do_wait_for_rwp (base bit : Z) (d : D) : outcome D :=
  let! (_, d) := readx_poll_timeout_atomic (base + GICD_CTLR) (fun val => Z.land val bit =? 0) d in
  Done d.

Definition gic_dist_wait_for_rwp (g : gic) (d : D) : outcome D :=
  gic_do_wait_for_rwp (dist_base g) GICD_CTLR_RWP d.

Definition gic_dist_config (base gic_irqs priority : Z) (d : D) : D :=
  let d := for_writes (steps 32 gic_irqs 16)
             (fun i => __raw_writel GICD_INT_ACTLOW_LVLTRIG (base + GIC_DIST_CONFIG + i / 4)) d in
  let d := for_writes (steps 32 gic_irqs 4)
             (fun i => __raw_writel (REPEAT_BYTE_U32 priority) (base + GIC_DIST_PRI + i)) d in
  for_writes (steps 32 gic_irqs 32)
    (fun i d => __raw_writel GICD_INT_EN_CLR_X32 (base + GIC_DIST_ENABLE_CLEAR + i / 8)
                  (__raw_writel GICD_INT_EN_CLR_X32 (base + GIC_DIST_ACTIVE_CLEAR + i / 8) d)) d.

(** The extended shared interrupts, before the common registers. *)
Definition gic_dist_init_espi (base espi priority : Z) (d : D) : D :=
  let d := for_writes (steps 0 espi 32)
             (fun i d => __raw_writel (-1) (base + GICD_ICACTIVERnE + i / 8)
                           (__raw_writel (-1) (base + GICD_ICENABLERnE + i / 8) d)) d in
  let d := for_writes (steps 0 espi 32) (fun i => __raw_writel (-1) (base + GICD_IGROUPRnE + i / 8)) d in
  let d := for_writes (steps 0 espi 16) (fun i => __raw_writel 0 (base + GICD_ICFGRnE + i / 4)) d in
  for_writes (steps 0 espi 4)
    (fun i => __raw_writel (REPEAT_BYTE_U32 priority) (base + GICD_IPRIORITYRnE + i)) d.

Definition gic_dist_ctlr (g : gic) : Z :=
  let val := Z.lor (Z.lor GICD_CTLR_ARE_NS GICD_CTLR_ENABLE_G1A) GICD_CTLR_ENABLE_G1 in
  if Z.testbit (gicd_typer2 g) 8 then Z.lor val GICD_CTLR_nASSGIreq else val.

Definition gic_dist_init (c : cpu_id) (g : gic) (d : D) : outcome D :=
  let base := dist_base g in
  let d := __raw_writel 0 (base + GICD_CTLR) d in
  let! d := gic_dist_wait_for_rwp g d in
  let d := for_writes (steps 32 (GIC_LINE_NR g) 32)
             (fun i => __raw_writel (-1) (base + GICD_IGROUPR + i / 8)) d in
  let d := gic_dist_init_espi base (GIC_ESPI_NR g) (dist_prio_irq g) d in
  let d := gic_dist_config base (GIC_LINE_NR g) (dist_prio_irq g) d in
  let d := __raw_writel (gic_dist_ctlr g) (base + GICD_CTLR) d in
  let! d := gic_dist_wait_for_rwp g d in
  let affinity := gic_mpidr_to_affinity (cpu_mpidr c) in
  let d := for_writes (steps 32 (GIC_LINE_NR g) 1)
             (fun i => __raw_writeq affinity (base + GICD_IROUTER + i * 8)) d in
  let d := for_writes (steps 0 (GIC_ESPI_NR g) 1)
             (fun i => __raw_writeq affinity (base + GICD_IROUTERnE + i * 8)) d in
  Done d.

(** ** The redistributor of a processor *)

Definition set_rdist (g : gic) (cpu : nat) (base phys : Z) : gic :=
  mkGic (dist_base g) (gicd_typer g) (gicd_typer2 g) (has_vlpis g) (has_rvpeid g) (has_direct_lpi g)
    (has_vpend_valid_dirty g) (redist_regions g) (<[cpu := base]> (rd_base g))
    (<[cpu := phys]> (rd_phys_base g)) (redist_stride g) (gic_flags g) (gd_has_rss g) (ppi_nr g)
    (cpu_has_rss g) (dist_prio_irq g) (dist_prio_nmi g) (nmi_support_forbidden g)
    (cpus_have_security_disabled g) (cpus_have_group0 g).

Definition __gic_populate_rdist (c : cpu_id) (g : gic) (region : nat) (ptr : Z) (d : D)
    : outcome (Z * gic * D) :=
  let aff := u32 (gic_mpidr_to_affinity (cpu_mpidr c)) in
  let (typer, d) := read_u64 (ptr + GICR_TYPER) d in
  if Z.shiftr typer 32 =? aff then
    match redist_regions g !! region with
    | None => Bug
    | Some r =>
        let! _ := gic_data_rdist_rd_base c g in
        Done (0, set_rdist g (Z.to_nat (cpu_number c)) ptr (rr_phys_base r + (ptr - redist_base r)), d)
    end
  else Done (1, g, d).

Definition gic_populate_rdist (c : cpu_id) (g : gic) (d : D) : outcome (Z * gic * D) :=
  let! (ret, g, d) := gic_iterate_rdists (__gic_populate_rdist c) g d in
  Done (if ret =? 0 then 0 else - ENODEV, g, d).

Definition gic_enable_redist (c : cpu_id) (g : gic) (enable : bool) (d : D) : outcome D :=
  let! rbase := gic_data_rdist_rd_base c g in
  let (val, d) := read_u32 (rbase + GICR_WAKER) d in
  let val := if enable then Z.clearbit val 1 else Z.setbit val 1 in
  let d := __raw_writel val (rbase + GICR_WAKER) d in
  let '(no_pm, d) :=
    if enable then (false, d)
    else let (val, d) := read_u32 (rbase + GICR_WAKER) d in (negb (Z.testbit val 1), d) in
  if no_pm then Done d
  else
    let! (_, d) := readx_poll_timeout_atomic (rbase + GICR_WAKER)
                     (fun val => xorb enable (Z.testbit val 2)) d in
    Done d.

Definition gic_cpu_config (base nr priority : Z) (d : D) : D :=
  let d := for_writes (steps 0 nr 32)
    (fun i d => __raw_writel GICD_INT_EN_CLR_X32 (base + GIC_DIST_ENABLE_CLEAR + i / 8)
                  (__raw_writel GICD_INT_EN_CLR_X32 (base + GIC_DIST_ACTIVE_CLEAR + i / 8) d)) d in
  for_writes (steps 0 nr 4)
    (fun i => __raw_writel (REPEAT_BYTE_U32 priority) (base + GIC_DIST_PRI + i * 4 / 4)) d.

Definition gic_redist_wait_for_rwp (c : cpu_id) (g : gic) (d : D) : outcome D :=
  let! b := gic_data_rdist_rd_base c g in gic_do_wait_for_rwp b GICR_CTLR_RWP d.

(** ** The CPU interface *)

(** The active-priority registers of a group that exist with this many
    priority bits, highest first, as the [switch] falls through them. *)
Definition active_priorities (pribits : Z) : list Z :=
  if (pribits =? 8) || (pribits =? 7) then [3; 2; 1; 0]
  else if pribits =? 6 then [1; 0]
  else if (pribits =? 5) || (pribits =? 4) then [0]
  else [].

Definition set_cpu_rss (g : gic) (cpu : nat) (rss : bool) : gic :=
  mkGic (dist_base g) (gicd_typer g) (gicd_typer2 g) (has_vlpis g) (has_rvpeid g) (has_direct_lpi g)
    (has_vpend_valid_dirty g) (redist_regions g) (rd_base g) (rd_phys_base g) (redist_stride g)
    (gic_flags g) (gd_has_rss g) (ppi_nr g) (<[cpu := rss]> (cpu_has_rss g)) (dist_prio_irq g)
    (dist_prio_nmi g) (nmi_support_forbidden g) (cpus_have_security_disabled g) (cpus_have_group0 g).

(** The checks that follow the last assignment only print. *)
Definition gic_cpu_sys_reg_init (c : cpu_id) (g : gic) (d : D) : outcome (gic * D) :=
  let (pribits, d) := gic_get_pribits d in
  let (group0, d) := gic_has_group0 d in
  let d := sysreg_write ICC_PMR_EL1 DEFAULT_PMR_VALUE d in
  let d := sysreg_write ICC_BPR1_EL1 0 d in
  let d := sysreg_write ICC_CTLR_EL1 0 d in
  let d := if group0 then for_writes (active_priorities pribits) (fun n => sysreg_write (ICC_AP0R n) 0) d
           else d in
  let d := for_writes (active_priorities pribits) (fun n => sysreg_write (ICC_AP1R n) 0) d in
  let d := sysreg_write ICC_IGRPEN1_EL1 1 d in
  let (ctlr, d) := gic_read_ctlr d in
  if (cpu_number c <? 0) || (Z.of_nat (length (cpu_has_rss g)) <=? cpu_number c) then Bug
  else Done (set_cpu_rss g (Z.to_nat (cpu_number c)) (Z.testbit ctlr 18), d).

Definition gic_cpu_init (c : cpu_id) (g : gic) (d : D) : outcome (gic * D) :=
  let! (err, g, d) := gic_populate_rdist c g d in
  if negb (err =? 0) then Done (g, d)
  else
    let! d := gic_enable_redist c g true d in
    let (_, d) := gic_read_ctlr d in
    let! rbase := gic_data_rdist_sgi_base c g in
    let d := for_writes (steps 0 (ppi_nr g + SGI_NR) 32)
               (fun i => __raw_writel (-1) (rbase + GICR_IGROUPR0 + i / 8)) d in
    let d := gic_cpu_config rbase (ppi_nr g + SGI_NR) (dist_prio_irq g) d in
    let! d := gic_redist_wait_for_rwp c g d in
    gic_cpu_sys_reg_init c g d.

Definition gic_starting_cpu (c : cpu_id) (g : gic) (d : D) : outcome (Z * gic * D) :=
  let (_, d) := gic_enable_sre d in
  let! (g, d) := gic_cpu_init c g d in
  Done (0, g, d).

(** ** Initialisation *)

(** The addresses of [gic_v3_handle_irq], of the chip and of the callback. *)
Definition GIC_HANDLER : Z := 0x9001.
Definition GIC_CHIP : Z := 0x9002.
Definition GIC_STARTING : Z := 0x9003.

Definition gic_init_bases (c : cpu_id) (s : irqs) (g : gic) (dist : Z) (regions : list redist_region)
    (stride : Z) (d : D) : outcome (Z * irqs * gic * D) :=
  let (typer, d) := read_u32 (dist + GICD_TYPER) d in
  let (typer2, d) := read_u32 (dist + GICD_TYPER2) d in
  let g := mkGic dist typer typer2 true true true true regions (rd_base g) (rd_phys_base g) stride
             (gic_flags g) (Z.testbit typer 26) (ppi_nr g) (cpu_has_rss g) (dist_prio_irq g)
             (dist_prio_nmi g) (nmi_support_forbidden g) (cpus_have_security_disabled g)
             (cpus_have_group0 g) in
  let (ret, s) := set_handle_irq s GIC_HANDLER in
  if ret <? 0 then Done (ret, s, g, d)
  else
    let! (g, d) := gic_update_rdist_properties g d in
    let (_, d) := gic_enable_sre d in
    let (g, d) := gic_prio_init g d in
    let! d := gic_dist_init c g d in
    let! (g, d) := gic_cpu_init c g d in
    Done (0, s, g, d).

(** The board of [arm-gic-v3.h]. *)
Definition GICR_MEMMAP_BASE : Z := 0x80a0000.
Definition GICR_MEMMAP_SIZE : Z := 0x100000.
Definition REDISTRIBUTOR_REGIONS : Z := 1.
Definition REDISTRIBUTOR_STRIDE : Z := 0.

(** [gicd_base] and [gicr_base] are the mapped addresses. *)
Definition gic_v3_init (c : cpu_id) (s : irqs) (cbs : callbacks) (g : gic) (gicd_base gicr_base : Z) (d : D)
    : outcome (Z * irqs * callbacks * gic * D) :=
  let (ret, d) := gic_validate_dist_version gicd_base d in
  if ret <? 0 then Done (ret, s, cbs, g, d)
  else
    let regions := (fun i => mkRegionR (gicr_base + i * GICR_MEMMAP_SIZE)
                               (GICR_MEMMAP_BASE + i * GICR_MEMMAP_SIZE) false)
                   <$> seqZ 0 REDISTRIBUTOR_REGIONS in
    let! (ret, s, g, d) := gic_init_bases c s g gicd_base regions REDISTRIBUTOR_STRIDE d in
    if negb (ret =? 0) then Done (ret, s, cbs, g, d)
    else
      let (ret, s) := irq_chip_register s GIC_CHIP in
      if negb (ret =? 0) then Done (ret, s, cbs, g, d)
      else
        let (ret, cbs) := cpuhp_state_register cbs CPUHP_INIT_GIC "gic_v3_starting" (Some (Other GIC_STARTING)) 0 in
        Done (ret, s, cbs, g, d).

(** ** Masking *)

Definition gic_irq_enable (c : cpu_id) (g : gic) (hw_irqn : Z) (d : D) : outcome (Z * D) :=
  if hw_irqn <? IRQ_SGI_NUM + IRQ_PPI_NUM then
    let! b := gic_data_rdist_sgi_base c g in
    let (val, d) := read_u32 (b + GIC_DIST_ENABLE_SET) d in
    Done (0, __raw_writel (Z.lor val (Z.shiftl 1 hw_irqn)) (b + GIC_DIST_ENABLE_SET) d)
  else Done (0, d).

Definition __gic_v3_irq_mask (c : cpu_id) (g : gic) (hwirq : Z) (mask : bool) (d : D) : outcome D :=
  let reg_offset := if mask then GIC_DIST_ENABLE_CLEAR else GIC_DIST_ENABLE_SET in
  if hwirq <? IRQ_SGI_NUM + IRQ_PPI_NUM then
    let! b := gic_data_rdist_sgi_base c g in
    let (val, d) := read_u32 (b + reg_offset) d in
    Done (__raw_writel (Z.lor val (Z.shiftl 1 hwirq)) (b + reg_offset) d)
  else Done d.

(** The chip's callbacks. *)
Definition gic_v3_chip (c : cpu_id) (g : gic) (op : chip_op) (d : D) : outcome D :=
  match op with
  | Unmask hwirq => __gic_v3_irq_mask c g hwirq false d
  | Mask hwirq => __gic_v3_irq_mask c g hwirq true d
  end.
End Driver.
