(* ===== verification/GicSpec.v ===== *)
(** * Properties of the interrupt controller driver

    The distributor set-up, on a device that records its accesses and answers
    reads arbitrarily; the masking of private interrupts, on the documented
    behaviour of the enable registers; the search for the redistributor of a
    processor; and an interrupt from the exception to the end-of-interrupt
    write, through the descriptors and the timer. *)

From S2P Require Import Prelude Sched SchedFair Irq Timer Smp.
From S2P Require Import PerCpu Gic.
#[local] Open Scope Z_scope.

(** ** Polling ends *)

(** The device answers with any value and keeps the accesses, newest first. *)
Inductive access :=
  | AccRead (w a : Z)
  | AccWrite (w a v : Z)
  | AccSysRead (r : sysreg)
  | AccSysWrite (r : sysreg) (v : Z).

Fixpoint last_write (l : list access) (a : Z) : option Z :=
  match l with
  | [] => None
  | AccWrite _ a' v :: l => if a' =? a then Some v else last_write l a
  | _ :: l => last_write l a
  end.

Definition writes_to (l : list access) (a : Z) : Prop := exists w v, AccWrite w a v ∈ l.

Lemma last_write_none l1 l2 a : ~ writes_to l1 a -> last_write (l1 ++ l2) a = last_write l2 a.
Proof.
  induction l1 as [|x l1 IH]; intros Hn; [done |].
  assert (Hn' : ~ writes_to l1 a).
  { intros (w & v & Hin). apply Hn. exists w, v. apply elem_of_cons. by right. }
  destruct x as [w a' | w a' v | r | r v]; simpl; auto.
  destruct (Z.eqb_spec a' a) as [-> |]; [| auto]. destruct Hn. exists w, v. apply elem_of_cons. by left.
Qed.

Lemma last_write_all l1 l2 a v :
  writes_to l1 a -> (forall w v', AccWrite w a v' ∈ l1 -> v' = v) -> last_write (l1 ++ l2) a = Some v.
Proof.
  induction l1 as [|x l1 IH]; intros (w & v0 & Hin) Hv; [by apply not_elem_of_nil in Hin |].
  assert (Hv' : forall w v', AccWrite w a v' ∈ l1 -> v' = v).
  { intros w' v' H'. apply (Hv w'). apply elem_of_cons. by right. }
  apply elem_of_cons in Hin as [<- | Hin].
  - simpl. rewrite Z.eqb_refl. f_equal. apply (Hv w). apply elem_of_cons. by left.
  - assert (Hw : writes_to l1 a) by (by exists w, v0).
    destruct x as [w' a' | w' a' v' | r | r v']; simpl; auto.
    destruct (Z.eqb_spec a' a) as [-> |]; [| auto]. f_equal. apply (Hv w'). apply elem_of_cons. by left.
Qed.

Lemma writes_to_app l1 l2 a : writes_to (l1 ++ l2) a <-> writes_to l1 a \/ writes_to l2 a.
Proof.
  unfold writes_to. split.
  - intros (w & v & [H | H]%elem_of_app); [left | right]; by exists w, v.
  - intros [(w & v & H) | (w & v & H)]; exists w, v; apply elem_of_app; tauto.
Qed.

Lemma elem_of_steps i start stop step :
  0 < step -> i ∈ steps start stop step <-> exists k, 0 <= k < (stop - start + step - 1) / step /\ i = start + step * k.
Proof.
  intros Hs. unfold steps. rewrite list_elem_of_fmap. setoid_rewrite elem_of_seqZ.
  split; intros (k & H1 & H2); exists k; split; (done || lia).
Qed.

(** A part of the trace: where it writes, and the one value it writes. *)
Record seg_ok (seg : list access) (P : Z -> Prop) (v : Z) : Prop := {
  sg_at : forall a, writes_to seg a <-> P a;
  sg_val : forall w a v', AccWrite w a v' ∈ seg -> v' = v;
}.

Lemma seg_skip seg P v l a : seg_ok seg P v -> ~ P a -> last_write (seg ++ l) a = last_write l a.
Proof. intros [H1 _] Hn. apply last_write_none. by rewrite H1. Qed.

Lemma seg_hit seg P v l a : seg_ok seg P v -> P a -> last_write (seg ++ l) a = Some v.
Proof. intros [H1 H2] Hp. apply last_write_all; [by apply H1 | eauto]. Qed.

Lemma reads_skip seg l a :
  (forall a, ~ writes_to seg a) -> last_write (seg ++ l) a = last_write l a.
Proof. intros Hs. by apply last_write_none. Qed.

Lemma line_nr_range g : 32 <= GIC_LINE_NR g <= 1020 /\ 0 <= GIC_ESPI_NR g <= 1024.
Proof.
  unfold GIC_LINE_NR, GIC_ESPI_NR, GICD_TYPER_ESPIS, GICD_TYPER_SPIS.
  assert (H : forall x, 0 <= Z.land x 0x1f < 32).
  { intros x. change 0x1f with (Z.ones 5). rewrite Z.land_ones by lia. apply Z.mod_pos_bound. lia. }
  pose proof (H (gicd_typer g)). pose proof (H (Z.shiftr (gicd_typer g) 27)).
  destruct (Z.testbit (gicd_typer g) 8); lia.
Qed.

(** Addresses of registers: unfold the offsets and the loop variables. *)
Ltac gic_addr :=
  unfold GICD_CTLR, GICD_IGROUPR, GICD_IGROUPRnE, GICD_ICENABLERnE, GICD_ICACTIVERnE,
    GICD_IPRIORITYRnE, GICD_ICFGRnE, GICD_IROUTER, GICD_IROUTERnE, GIC_DIST_ENABLE_CLEAR,
    GIC_DIST_ACTIVE_CLEAR, GIC_DIST_PRI, GIC_DIST_CONFIG in *;
  Z.to_euclidean_division_equations; lia.

Ltac not_here :=
  let i := fresh in let Hi := fresh in let Ha := fresh in
  intros (i & Hi & Ha); apply elem_of_steps in Hi as (? & ? & ->); [| done]; gic_addr.

Ltac past :=
  first [ erewrite seg_skip; [| eassumption | not_here] | rewrite reads_skip by assumption ].

Ltac here k :=
  erewrite seg_hit; [reflexivity | eassumption |];
  exists k; split; [apply elem_of_steps; [done |] |].

Ltac seg_addr O H := apply (sg_at _ _ _ O) in H as (? & (? & ? & ->)%elem_of_steps & ?); [| done]; gic_addr.

Section Trace.
Context (oracle : list access -> Z -> Z) (sys_oracle : list access -> sysreg -> Z).

#[local] Instance trace_mmio : Mmio (list access) := {
  mmio_read w a l := (oracle l a, AccRead w a :: l);
  mmio_write w a v l := AccWrite w a v :: l;
  sysreg_read r l := (sys_oracle l r, AccSysRead r :: l);
  sysreg_write r v l := AccSysWrite r v :: l;
}.

(** A loop of writes adds exactly its writes. *)
Lemma for_writes_seg ls (body : Z -> list access -> list access) (ws : Z -> list access) :
  (forall i l, body i l = ws i ++ l) ->
  exists seg, (forall l, for_writes ls body l = seg ++ l)
    /\ (forall x, x ∈ seg <-> exists i, i ∈ ls /\ x ∈ ws i).
Proof.
  intros Hb. induction ls as [|i ls (seg & H1 & H2)].
  - exists []. split; [done |]. intros x. split; [by intros ?%not_elem_of_nil |].
    intros (i & Hi & _). by apply not_elem_of_nil in Hi.
  - exists (seg ++ ws i). split.
    + intros l. unfold for_writes in *. simpl. rewrite Hb, H1. by rewrite <- app_assoc.
    + intros x. rewrite elem_of_app, H2. split.
      * intros [(j & Hj & Hx) | Hx]; [exists j | exists i]; (split; [apply elem_of_cons | done]); tauto.
      * intros (j & [-> | Hj]%elem_of_cons & Hx); [by right | left; by exists j].
Qed.

(** Polling only reads. *)
Lemma poll_trace addr cond fuel : forall left_ns l,
  left_ns < 1001 * (Z.of_nat fuel - 1) -> (0 < fuel)%nat ->
  exists r seg, poll fuel left_ns addr cond l = Done (r, seg ++ l) /\ (forall a, ~ writes_to seg a).
Proof.
  induction fuel as [|fuel IH]; intros left_ns l Hf Hpos; [lia |]. cbn [poll].
  unfold read_u32. cbn [mmio_read trace_mmio].
  assert (H1 : forall a, ~ writes_to [AccRead 32 addr] a).
  { intros a (w & v & Hin). by apply list_elem_of_singleton in Hin. }
  destruct (cond _); [by exists 0, [AccRead 32 addr] |].
  destruct (Z.ltb_spec left_ns 0) as [Hl | Hl].
  - eexists _, [AccRead 32 addr; AccRead 32 addr]. split; [done |].
    intros a (w & v & Hin). apply elem_of_cons in Hin as [|Hin]; [done |]. by apply (H1 a); exists w, v.
  - destruct (IH (left_ns - 1000 - 1) (AccRead 32 addr :: l)) as (r & seg & -> & Hs); [lia | lia |].
    exists r, (seg ++ [AccRead 32 addr]). split; [by rewrite <- app_assoc |].
    intros a (w & v & Hin). apply elem_of_app in Hin as [Hin | Hin];
      [by apply (Hs a); exists w, v | by apply (H1 a); exists w, v].
Qed.

Lemma wait_trace base bit l :
  exists seg, gic_do_wait_for_rwp base bit l = Done (seg ++ l) /\ (forall a, ~ writes_to seg a).
Proof.
  unfold gic_do_wait_for_rwp, readx_poll_timeout_atomic.
  destruct (poll_trace (base + GICD_CTLR) (fun val => Z.land val bit =? 0) POLL_FUEL (1000000 * 1000) l)
    as (r & seg & -> & Hs).
  - unfold POLL_FUEL. rewrite Z2Nat.id by lia. lia.
  - unfold POLL_FUEL. apply Nat2Z.inj_lt. rewrite Z2Nat.id by lia. lia.
  - by exists seg.
Qed.

Lemma for_writel ls v f :
  exists seg, (forall l, for_writes ls (fun i => __raw_writel v (f i)) l = seg ++ l)
    /\ seg_ok seg (fun a => exists i, i ∈ ls /\ a = f i) (u32 v).
Proof.
  destruct (for_writes_seg ls (fun i => __raw_writel v (f i)) (fun i => [AccWrite 32 (f i) (u32 v)]))
    as (seg & H1 & H2); [done |].
  exists seg. split; [done |]. split.
  - intros a. split.
    + intros (w & v' & (i & Hi & Hx)%H2). apply list_elem_of_singleton in Hx as [= -> -> ->]. by exists i.
    + intros (i & Hi & ->). exists 32, (u32 v). apply H2. exists i. by rewrite list_elem_of_singleton.
  - intros w a v' (i & Hi & Hx)%H2. by apply list_elem_of_singleton in Hx as [= -> -> ->].
Qed.

Lemma for_writeq ls v f :
  exists seg, (forall l, for_writes ls (fun i => __raw_writeq v (f i)) l = seg ++ l)
    /\ seg_ok seg (fun a => exists i, i ∈ ls /\ a = f i) (u64 v).
Proof.
  destruct (for_writes_seg ls (fun i => __raw_writeq v (f i)) (fun i => [AccWrite 64 (f i) (u64 v)]))
    as (seg & H1 & H2); [done |].
  exists seg. split; [done |]. split.
  - intros a. split.
    + intros (w & v' & (i & Hi & Hx)%H2). apply list_elem_of_singleton in Hx as [= -> -> ->]. by exists i.
    + intros (i & Hi & ->). exists 64, (u64 v). apply H2. exists i. by rewrite list_elem_of_singleton.
  - intros w a v' (i & Hi & Hx)%H2. by apply list_elem_of_singleton in Hx as [= -> -> ->].
Qed.

Lemma for_writel2 ls v f h :
  exists seg, (forall l, for_writes ls (fun i d => __raw_writel v (f i) (__raw_writel v (h i) d)) l = seg ++ l)
    /\ seg_ok seg (fun a => exists i, i ∈ ls /\ (a = f i \/ a = h i)) (u32 v).
Proof.
  destruct (for_writes_seg ls (fun i d => __raw_writel v (f i) (__raw_writel v (h i) d))
    (fun i => [AccWrite 32 (f i) (u32 v); AccWrite 32 (h i) (u32 v)])) as (seg & H1 & H2); [done |].
  assert (H3 : forall i x, x ∈ [AccWrite 32 (f i) (u32 v); AccWrite 32 (h i) (u32 v)] <->
    x = AccWrite 32 (f i) (u32 v) \/ x = AccWrite 32 (h i) (u32 v)).
  { intros i x. by rewrite elem_of_cons, list_elem_of_singleton. }
  exists seg. split; [done |]. split.
  - intros a. split.
    + intros (w & v' & (i & Hi & Hx)%H2). apply H3 in Hx as [[= -> -> ->] | [= -> -> ->]]; exists i; tauto.
    + intros (i & Hi & Ha). exists 32, (u32 v). apply H2. exists i. rewrite H3. destruct Ha as [-> | ->]; tauto.
  - intros w a v' (i & Hi & Hx)%H2. by apply H3 in Hx as [[= -> -> ->] | [= -> -> ->]].
Qed.

(** The writes of [gic_dist_config]. *)
Lemma dist_config_trace base lines prio l n :
  32 <= lines <= 1020 -> 32 <= n < lines ->
  let l' := gic_dist_config base lines prio l in
  (last_write l' (base + GIC_DIST_CONFIG + n / 16 * 4) = Some 0
   /\ last_write l' (base + GIC_DIST_PRI + n / 4 * 4) = Some (REPEAT_BYTE_U32 prio)
   /\ last_write l' (base + GIC_DIST_ENABLE_CLEAR + n / 32 * 4) = Some 0xffffffff
   /\ last_write l' (base + GIC_DIST_ACTIVE_CLEAR + n / 32 * 4) = Some 0xffffffff).
Proof.
  intros Hl Hn. unfold gic_dist_config. cbv zeta.
  destruct (for_writel (steps 32 lines 16) GICD_INT_ACTLOW_LVLTRIG
              (fun i => base + GIC_DIST_CONFIG + i / 4)) as (s1 & E1 & O1).
  destruct (for_writel (steps 32 lines 4) (REPEAT_BYTE_U32 prio)
              (fun i => base + GIC_DIST_PRI + i)) as (s2 & E2 & O2).
  destruct (for_writel2 (steps 32 lines 32) GICD_INT_EN_CLR_X32
              (fun i => base + GIC_DIST_ENABLE_CLEAR + i / 8)
              (fun i => base + GIC_DIST_ACTIVE_CLEAR + i / 8)) as (s3 & E3 & O3).
  rewrite E1, E2, E3. split; [| split; [| split]].
  - past. past. here (n / 16 * 16); [exists (n / 16 - 2); gic_addr | gic_addr].
  - past. erewrite seg_hit; [| eassumption |].
    + unfold REPEAT_BYTE_U32. unfold u32. by rewrite Z.mod_mod.
    + exists (n / 4 * 4). split; [apply elem_of_steps; [done |]; exists (n / 4 - 8); gic_addr | gic_addr].
  - here (n / 32 * 32); [exists (n / 32 - 1); gic_addr | left; gic_addr].
  - here (n / 32 * 32); [exists (n / 32 - 1); gic_addr | right; gic_addr].
Qed.

Lemma dist_config_seg base lines prio :
  32 <= lines <= 1020 ->
  exists seg, (forall l, gic_dist_config base lines prio l = seg ++ l)
    /\ forall a, writes_to seg a -> base + 0x180 <= a < base + 0x1000.
Proof.
  intros Hl. unfold gic_dist_config.
  destruct (for_writel (steps 32 lines 16) GICD_INT_ACTLOW_LVLTRIG
              (fun i => base + GIC_DIST_CONFIG + i / 4)) as (s1 & E1 & O1).
  destruct (for_writel (steps 32 lines 4) (REPEAT_BYTE_U32 prio)
              (fun i => base + GIC_DIST_PRI + i)) as (s2 & E2 & O2).
  destruct (for_writel2 (steps 32 lines 32) GICD_INT_EN_CLR_X32
              (fun i => base + GIC_DIST_ENABLE_CLEAR + i / 8)
              (fun i => base + GIC_DIST_ACTIVE_CLEAR + i / 8)) as (s3 & E3 & O3).
  exists (s3 ++ s2 ++ s1). split; [intros l; rewrite E1, E2, E3, <- !app_assoc; done |].
  intros a. rewrite !writes_to_app. intros [H | [H | H]]; [seg_addr O3 H | seg_addr O2 H | seg_addr O1 H].
Qed.

Lemma dist_init_espi_seg base espi prio :
  0 <= espi <= 1024 ->
  exists seg, (forall l, gic_dist_init_espi base espi prio l = seg ++ l)
    /\ forall a, writes_to seg a -> base + 0x1000 <= a < base + 0x6000.
Proof.
  intros Hl. unfold gic_dist_init_espi.
  destruct (for_writel2 (steps 0 espi 32) (-1) (fun i => base + GICD_ICACTIVERnE + i / 8)
              (fun i => base + GICD_ICENABLERnE + i / 8)) as (s1 & E1 & O1).
  destruct (for_writel (steps 0 espi 32) (-1) (fun i => base + GICD_IGROUPRnE + i / 8)) as (s2 & E2 & O2).
  destruct (for_writel (steps 0 espi 16) 0 (fun i => base + GICD_ICFGRnE + i / 4)) as (s3 & E3 & O3).
  destruct (for_writel (steps 0 espi 4) (REPEAT_BYTE_U32 prio) (fun i => base + GICD_IPRIORITYRnE + i))
    as (s4 & E4 & O4).
  exists (s4 ++ s3 ++ s2 ++ s1). split; [intros l; rewrite E1, E2, E3, E4, <- !app_assoc; done |].
  intros a. rewrite !writes_to_app.
  intros [H | [H | [H | H]]]; [seg_addr O4 H | seg_addr O3 H | seg_addr O2 H | seg_addr O1 H].
Qed.

(** The trace of [gic_dist_init]: the set-up of the registers with the
    distributor off, the write that turns it on, and the routing after it. *)
Lemma dist_init_trace c g l :
  let base := dist_base g in
  exists route wait cfg espi group wait0,
    gic_dist_init c g l
    = Done (route ++ wait ++ AccWrite 32 (base + GICD_CTLR) (gic_dist_ctlr g)
              :: gic_dist_config base (GIC_LINE_NR g) (dist_prio_irq g)
                   (espi ++ group ++ wait0 ++ AccWrite 32 (base + GICD_CTLR) 0 :: l))
    /\ (forall l, gic_dist_config base (GIC_LINE_NR g) (dist_prio_irq g) l = cfg ++ l)
    /\ (forall a, ~ writes_to wait a) /\ (forall a, ~ writes_to wait0 a)
    /\ (forall a, writes_to cfg a -> base + 0x180 <= a < base + 0x1000)
    /\ (forall a, writes_to espi a -> base + 0x1000 <= a < base + 0x6000)
    /\ seg_ok group (fun a => exists i, i ∈ steps 32 (GIC_LINE_NR g) 32 /\ a = base + GICD_IGROUPR + i / 8)
         0xffffffff
    /\ (forall a, writes_to route a -> base + 0x6100 <= a)
    /\ (forall n l, 32 <= n < GIC_LINE_NR g ->
          last_write (route ++ l) (base + GICD_IROUTER + n * 8)
          = Some (u64 (gic_mpidr_to_affinity (cpu_mpidr c)))).
Proof.
  intros base. destruct (line_nr_range g) as [Hl He]. unfold gic_dist_init. cbv zeta. fold base.
  destruct (wait_trace base GICD_CTLR_RWP (__raw_writel 0 (base + GICD_CTLR) l)) as (wait0 & W0 & N0).
  unfold gic_dist_wait_for_rwp. fold base. rewrite W0. cbn [obind].
  destruct (for_writel (steps 32 (GIC_LINE_NR g) 32) (-1) (fun i => base + GICD_IGROUPR + i / 8))
    as (group & E1 & O1). rewrite E1.
  destruct (dist_init_espi_seg base (GIC_ESPI_NR g) (dist_prio_irq g) He) as (espi & E2 & O2). rewrite E2.
  destruct (dist_config_seg base (GIC_LINE_NR g) (dist_prio_irq g) Hl) as (cfg & E3 & O3).
  match goal with |- context [gic_do_wait_for_rwp base GICD_CTLR_RWP ?x] =>
    destruct (wait_trace base GICD_CTLR_RWP x) as (wait & W1 & N1) end.
  rewrite W1. cbn [obind].
  set (aff := gic_mpidr_to_affinity (cpu_mpidr c)).
  destruct (for_writeq (steps 32 (GIC_LINE_NR g) 1) aff (fun i => base + GICD_IROUTER + i * 8))
    as (r1 & E4 & O4). rewrite E4.
  destruct (for_writeq (steps 0 (GIC_ESPI_NR g) 1) aff (fun i => base + GICD_IROUTERnE + i * 8))
    as (r2 & E5 & O5). rewrite E5.
  exists (r2 ++ r1), wait, cfg, espi, group, wait0. split.
  { f_equal. rewrite <- app_assoc. do 3 f_equal. unfold __raw_writel. cbn [mmio_write trace_mmio].
    f_equal. f_equal. unfold gic_dist_ctlr. by destruct (Z.testbit (gicd_typer2 g) 8). }
  split; [done |]. split; [done |]. split; [done |]. split; [done |]. split; [done |]. split; [exact O1 |].
  split.
  - intros a. rewrite writes_to_app. intros [H | H]; [seg_addr O5 H | seg_addr O4 H].
  - intros n l' Hn. rewrite <- app_assoc. past. erewrite seg_hit; [done | eassumption |].
    exists n. split; [apply elem_of_steps; [done |]; exists (n - 32); gic_addr | done].
Qed.
End Trace.

(** ** Masking of private interrupts *)

(** The documented behaviour of the pair of enable registers of a
    redistributor at [b]: both read as the set of enabled interrupts, a one
    written to the first enables, a one written to the second disables. *)
Record enable_regs {D} `{Mmio D} (b : Z) (en : D -> Z) : Prop := {
  er_range : forall d, 0 <= en d < 2 ^ 32;
  er_read_set : forall d, exists d', mmio_read 32 (b + GIC_DIST_ENABLE_SET) d = (en d, d') /\ en d' = en d;
  er_read_clear : forall d, exists d', mmio_read 32 (b + GIC_DIST_ENABLE_CLEAR) d = (en d, d') /\ en d' = en d;
  er_set : forall d v, 0 <= v < 2 ^ 32 -> en (mmio_write 32 (b + GIC_DIST_ENABLE_SET) v d) = Z.lor (en d) v;
  er_clear : forall d v, 0 <= v < 2 ^ 32 -> en (mmio_write 32 (b + GIC_DIST_ENABLE_CLEAR) v d) = Z.ldiff (en d) v;
}.

Lemma enable_bit_range x n : 0 <= x < 2 ^ 32 -> 0 <= n < 32 -> 0 <= Z.lor x (Z.shiftl 1 n) < 2 ^ 32.
Proof.
  intros Hx Hn. rewrite Z.shiftl_1_l. split; [apply Z.lor_nonneg; lia |].
  apply (Z.log2_lt_cancel _ (2 ^ 32)). rewrite Z.log2_lor, Z.log2_pow2, Z.log2_pow2 by lia.
  destruct (Z.eq_dec x 0) as [-> |]; [change (Z.log2 0) with 0; lia |].
  assert (Z.log2 x < 32) by (apply Z.log2_lt_pow2; lia). lia.
Qed.

(** ** One interrupt, from the exception to the end of interrupt *)

(** What a processor has during an interrupt: the device, its scheduler
    variables and its timer. *)
Record cpu_state (D : Type) := mkCpuState { x_dev : D; x_vars : cpu_vars; x_timer : timer }.
Arguments mkCpuState {D} _ _ _.
Arguments x_dev {D} _.
Arguments x_vars {D} _.
Arguments x_timer {D} _.

#[export] Instance cpu_state_mmio {D} `{Mmio D} : Mmio (cpu_state D) := {
  mmio_read w a x := let (v, d) := mmio_read w a (x_dev x) in (v, mkCpuState d (x_vars x) (x_timer x));
  mmio_write w a v x := mkCpuState (mmio_write w a v (x_dev x)) (x_vars x) (x_timer x);
  sysreg_read r x := let (v, d) := sysreg_read r (x_dev x) in (v, mkCpuState d (x_vars x) (x_timer x));
  sysreg_write r v x := mkCpuState (sysreg_write r v (x_dev x)) (x_vars x) (x_timer x);
}.

Section Interrupt.
Context {D : Type} `{Mmio D} (freq : Z) (ts : tasks) (istatus : bool) (now : Z).

(** The address of [timer_irq_handler]. *)
Definition TIMER_HANDLER : Z := 0x9004.

Definition run_handler (handler irq dev : Z) (x : cpu_state D) : outcome (irqreturn * cpu_state D) :=
  if handler =? TIMER_HANDLER then
    let! (ret, v, t) := timer_irq_handler freq sched_round_robin istatus now ts (x_vars x) (x_timer x) in
    Done (ret, mkCpuState (x_dev x) v t)
  else Bug.

(** The root handler the exception calls. *)
Definition run_root (s : irqs) (handler irq dev : Z) (x : cpu_state D) : outcome (irqreturn * cpu_state D) :=
  if handler =? GIC_HANDLER then
    let! (_, x) := gic_v3_handle_irq run_handler s x in Done (IRQ_HANDLED, x)
  else Bug.

(** The handler works on the timer and the variables of the CPU, the end of the
    interrupt on the controller, so the order of the two does not show in the
    final state. *)
Definition irq_exception (s : irqs) (x : cpu_state D) : outcome (irqreturn * cpu_state D) :=
  el1h_64_irq_handler (run_root s) s x.
End Interrupt.

(** The registrations of the boot processor: the root handler and the chip by
    the driver, the line of the timer by [__arch_timer_init]. *)
Definition irq_boot (t : timer) : outcome (Z * irqs * timer) :=
  let (r1, s) := set_handle_irq irqs_init GIC_HANDLER in
  let (r2, s) := irq_chip_register s GIC_CHIP in
  if negb (r1 =? 0) || negb (r2 =? 0) then Done (- EINVAL, s, t)
  else __arch_timer_init s t TIMER_HANDLER.

Lemma irq_boot_rep t :
  exists s, irq_boot t = Done (0, s, mkTimer (cntp_tval t) 0 0 0)
    /\ irqs_rep s {[ARCH_TIMER_CNTP_IRQ := (TIMER_HANDLER, 0)]} /\ handle_arch_irq s = GIC_HANDLER.
Proof.
  set (s0 := mkIrqs (g_irq_actions irqs_init) (g_irq_descs irqs_init) GIC_CHIP GIC_HANDLER []).
  destruct (request_irq_rep s0 ∅ ARCH_TIMER_CNTP_IRQ TIMER_HANDLER 0 [] 0) as (s & E & R & C);
    [destruct irqs_init_rep; by split | done | done |].
  set (s1 := mkIrqs (g_irq_actions irqs_init) (g_irq_descs irqs_init) 0 GIC_HANDLER []).
  assert (E1 : set_handle_irq irqs_init GIC_HANDLER = (0, s1)) by reflexivity.
  assert (E2 : irq_chip_register s1 GIC_CHIP = (0, s0)) by reflexivity.
  destruct C as (_ & C & _). exists s. unfold irq_boot, __arch_timer_init. rewrite E1, E2. cbn [negb orb Z.eqb].
  rewrite E. cbn [obind]. split; [reflexivity |]. split; [exact R | exact C].
Qed.

(** The dispatch of the root handler, whatever the line. *)
Lemma root_dispatch {D} `{Mmio D} freq ts istatus now s o (x : cpu_state D) n d :
  irqs_rep s o -> handle_arch_irq s = GIC_HANDLER ->
  sysreg_read ICC_IAR1_EL1 (x_dev x) = (n, d) -> 0 <= n < 1024 ->
  let y := mkCpuState d (x_vars x) (x_timer x) in
  irq_exception freq ts istatus now s x
  = if 1020 <=? n then Done (IRQ_HANDLED, y)
    else
      let! z := match o !! n with
                | Some (h, dev) =>
                    if h =? 0 then Bug
                    else let! (_, z) := run_handler freq ts istatus now h n dev y in Done z
                | None => Done y
                end in
      Done (IRQ_HANDLED, sysreg_write ICC_EOIR1_EL1 n z).
Proof.
  intros Hr Hh Hiar Hn y. unfold irq_exception, el1h_64_irq_handler. rewrite Hh. change (GIC_HANDLER =? 0) with false.
  unfold run_root. change (GIC_HANDLER =? GIC_HANDLER) with true. unfold gic_v3_handle_irq.
  cbn [sysreg_read cpu_state_mmio]. rewrite Hiar. fold y. rewrite u32_small by lia.
  unfold __gic_handle_irq, gic_irqnr_is_special.
  destruct (Z.leb_spec 1020 n) as [Hge | Hlt]; cbn [andb].
  - rewrite (proj2 (Z.leb_le n 1023)) by lia. done.
  - rewrite (dispatch_rep _ s o n y Hr) by (unfold IRQ_NUMS; lia).
    destruct (o !! n) as [[h dev]|]; [| done]. destruct (h =? 0); [done |].
    by destruct (run_handler freq ts istatus now h n dev y) as [[ret z] | |].
Qed.

(** ** Claims *)

(** C20: after the registrations of the boot processor, an interrupt
    exception reads the number of the interrupt and: for the line of the
    timer, when the timer fired, re-arms the timer for one time slice, asks
    to reschedule exactly when the current process has used up its slice,
    and writes the end of interrupt with that number; for any other
    line it only ends the interrupt; for the special numbers 1020 to 1023 it
    does nothing, not even end it. *)
Theorem timer_interrupt_end_to_end {D} `{Mmio D} freq ts istatus now t0 (x : cpu_state D) cur n d :
  0 < freq <= NS_PER_SECOND -> ts !! current (x_vars x) = Some cur ->
  sysreg_read ICC_IAR1_EL1 (x_dev x) = (n, d) -> 0 <= n < 1024 ->
  exists s, irq_boot t0 = Done (0, s, mkTimer (cntp_tval t0) 0 0 0)
    /\ irq_exception freq ts istatus now s x
       = Done (IRQ_HANDLED,
           if 1020 <=? n then mkCpuState d (x_vars x) (x_timer x)
           else
             mkCpuState (sysreg_write ICC_EOIR1_EL1 n d)
               (if (n =? ARCH_TIMER_CNTP_IRQ) && istatus
                   && (TIME_SLICE_NS <? u64 (now - t_last_run_timestamp cur))
                then set_resched (x_vars x) true else x_vars x)
               (if (n =? ARCH_TIMER_CNTP_IRQ) && istatus
                then mkTimer (TIME_SLICE_NS * freq / NS_PER_SECOND) (2 ^ 64 - 3)
                       (cntv_ctl (x_timer x)) (cntkctl (x_timer x))
                else x_timer x)).
Proof.
  intros Hf Hcur Hiar Hn. destruct (irq_boot_rep t0) as (s & E & R & Hh). exists s. split; [done |].
  rewrite (root_dispatch freq ts istatus now s _ x n d R Hh Hiar Hn).
  destruct (Z.leb_spec 1020 n); [done |]. destruct (Z.eqb_spec n ARCH_TIMER_CNTP_IRQ) as [-> | Hne].
  - rewrite lookup_singleton_eq. change (TIMER_HANDLER =? 0) with false. unfold run_handler.
    change (TIMER_HANDLER =? TIMER_HANDLER) with true. cbn [x_vars x_timer x_dev].
    rewrite (tick_spec freq istatus now ts (x_vars x) (x_timer x) cur Hf Hcur).
    destruct istatus; cbn [obind andb]; [by destruct (TIME_SLICE_NS <? _) | done].
  - by rewrite lookup_singleton_ne by done.
Qed.

(** A device whose only interrupt is the one in its state; the last end of
    interrupt is kept. *)
#[local] Instance one_irq_mmio : Mmio (Z * Z) := {
  mmio_read w a d := (0, d);
  mmio_write w a v d := d;
  sysreg_read r d := match r with ICC_IAR1_EL1 => (fst d, (1023, snd d)) | _ => (0, d) end;
  sysreg_write r v d := match r with ICC_EOIR1_EL1 => (fst d, v) | _ => d end;
}.

Lemma timer_interrupt_end_to_end_witness :
  exists s, irq_boot (mkTimer 0 0 0 0) = Done (0, s, mkTimer 0 0 0 0)
    /\ irq_exception 62500000 sample_tasks true 20000000 s
         (mkCpuState (30, 0) sample_cpu (mkTimer 0 5 0 0))
       = Done (IRQ_HANDLED, mkCpuState (1023, 30) (set_resched sample_cpu true)
                              (mkTimer 625000 (2 ^ 64 - 3) 0 0)).
Proof.
  destruct (timer_interrupt_end_to_end (D := Z * Z) 62500000 sample_tasks true 20000000 (mkTimer 0 0 0 0)
    (mkCpuState (30, 0) sample_cpu (mkTimer 0 5 0 0))
    (mkTask [105; 100; 108; 101; 48] 0 PROCESS_RUNNING 0 0 0) 30 (1023, 0)) as (s & E1 & E2);
    [split; done | reflexivity | reflexivity | split; done |].
  exists s. split; [exact E1 |]. rewrite E2. reflexivity.
Defined.

(** Unmasking a private interrupt enables exactly that one, but masking
    one reads the set of enabled interrupts and writes it back, with the bit
    added, to the register that disables: every private interrupt of the
    processor is disabled, the tick included. *)
Lemma mask_one_masks_all {D} `{Mmio D} b (en : D -> Z) c g n d :
  enable_regs b en -> gic_data_rdist_sgi_base c g = Done b -> 0 <= n < 32 ->
  (exists d', gic_v3_chip c g (Unmask n) d = Done d' /\ en d' = Z.setbit (en d) n)
  /\ (exists d', gic_v3_chip c g (Mask n) d = Done d' /\ en d' = 0).
Proof.
  intros He Hb Hn. pose proof (er_range b en He d) as Hr.
  pose proof (enable_bit_range (en d) n Hr Hn) as Hbit.
  unfold gic_v3_chip, __gic_v3_irq_mask. unfold IRQ_SGI_NUM, IRQ_PPI_NUM.
  rewrite (proj2 (Z.ltb_lt n (16 + 16))) by lia. rewrite Hb. cbn [obind]. unfold read_u32, __raw_writel. split.
  - destruct (er_read_set b en He d) as (d' & -> & Hd). rewrite (u32_small (en d)) by lia.
    eexists. split; [done |]. rewrite u32_small by lia. rewrite (er_set b en He) by lia. rewrite Hd.
    rewrite Z.lor_assoc, Z.lor_diag, Z.shiftl_1_l, Z.setbit_spec'. done.
  - destruct (er_read_clear b en He d) as (d' & -> & Hd). rewrite (u32_small (en d)) by lia.
    eexists. split; [done |]. rewrite u32_small by lia. rewrite (er_clear b en He) by lia. rewrite Hd.
    apply Z.bits_inj'. intros k Hk. rewrite Z.ldiff_spec, Z.lor_spec, Z.bits_0.
    by destruct (Z.testbit (en d) k).
Qed.

(** A device that is nothing but the pair of enable registers. *)
#[local] Instance enable_pair_mmio : Mmio Z := {
  mmio_read w a d := (u32 d, d);
  mmio_write w a v d :=
    if a =? 0x10000 + GIC_DIST_ENABLE_SET then Z.lor d v
    else if a =? 0x10000 + GIC_DIST_ENABLE_CLEAR then Z.ldiff d v else d;
  sysreg_read r d := (0, d);
  sysreg_write r v d := d;
}.

Lemma u32_bits x k : 0 <= k -> Z.testbit (u32 x) k = (k <? 32) && Z.testbit x k.
Proof.
  intros Hk. unfold u32. destruct (Z.ltb_spec k 32); [by rewrite Z.mod_pow2_bits_low by lia |].
  by rewrite Z.mod_pow2_bits_high by lia.
Qed.

Lemma enable_pair_regs : enable_regs 0x10000 u32.
Proof.
  assert (Hb : forall v k, 0 <= v < 2 ^ 32 -> 0 <= k -> Z.testbit v k = true -> k < 32).
  { intros v k Hv Hk Hbit. destruct (Z.lt_ge_cases k 32); [done |].
    rewrite <- (Z.mod_small v (2 ^ 32)) in Hbit by lia. by rewrite Z.mod_pow2_bits_high in Hbit by lia. }
  split.
  - intros d. apply Z.mod_pos_bound. lia.
  - intros d. by exists d.
  - intros d. by exists d.
  - intros d v Hv. apply Z.bits_inj'. intros k Hk. cbn [mmio_write enable_pair_mmio]. rewrite Z.eqb_refl.
    rewrite Z.lor_spec, !u32_bits, Z.lor_spec by lia. specialize (Hb v k Hv Hk).
    destruct (Z.ltb_spec k 32), (Z.testbit d k), (Z.testbit v k); simpl; try done; lia.
  - intros d v Hv. apply Z.bits_inj'. intros k Hk. cbn [mmio_write enable_pair_mmio].
    change (65536 + GIC_DIST_ENABLE_CLEAR =? 65536 + GIC_DIST_ENABLE_SET) with false. rewrite Z.eqb_refl.
    rewrite Z.ldiff_spec, !u32_bits, Z.ldiff_spec by lia. by rewrite andb_assoc.
Qed.

Definition demo_gic : gic :=
  mkGic 0x8000000 0x37a0007 0 false false false false [mkRegionR 0x80a0000 0x80a0000 false] [0; 0; 0; 0]
    [0; 0; 0; 0] 0 0 false 16 [false; false; false; false] GICV3_PRIO_IRQ GICV3_PRIO_NMI false true true.

(** Masking the tick of a processor with interrupts 0, 8 and 30 enabled. *)
Lemma mask_one_masks_all_witness :
  (exists d', gic_v3_chip (mkCpu 0 [0; 1; 2; 3]) demo_gic (Unmask 8) (2 ^ 30 + 1) = Done d'
     /\ u32 d' = Z.setbit (u32 (2 ^ 30 + 1)) 8)
  /\ (exists d', gic_v3_chip (mkCpu 0 [0; 1; 2; 3]) demo_gic (Mask 8) (2 ^ 30 + 1) = Done d' /\ u32 d' = 0).
Proof.
  apply (mask_one_masks_all (D := Z) 0x10000 u32); [apply enable_pair_regs | reflexivity | lia].
Defined.

(** On any controller, initialising the distributor ends, and leaves
    every shared interrupt line it implements in group 1, level triggered,
    with the interrupt priority, inactive, disabled and routed to the
    processor that runs it; the distributor ends enabled, and the routing
    is written after that. *)
Lemma dist_init_configures_spis oracle sys_oracle c g log :
  let base := dist_base g in
  exists route before,
    @gic_dist_init _ (trace_mmio oracle sys_oracle) c g log
    = Done (route ++ AccWrite 32 (base + GICD_CTLR) (gic_dist_ctlr g) :: before ++ log)
    /\ ~ writes_to route (base + GICD_CTLR)
    /\ (forall a, writes_to before a -> a < base + GICD_IROUTER)
    /\ forall n, 32 <= n < GIC_LINE_NR g ->
         let l := route ++ AccWrite 32 (base + GICD_CTLR) (gic_dist_ctlr g) :: before ++ log in
         last_write l (base + GICD_IROUTER + n * 8) = Some (u64 (gic_mpidr_to_affinity (cpu_mpidr c)))
         /\ last_write l (base + GICD_IGROUPR + n / 32 * 4) = Some 0xffffffff
         /\ last_write l (base + GIC_DIST_CONFIG + n / 16 * 4) = Some 0
         /\ last_write l (base + GIC_DIST_PRI + n / 4 * 4) = Some (REPEAT_BYTE_U32 (dist_prio_irq g))
         /\ last_write l (base + GIC_DIST_ENABLE_CLEAR + n / 32 * 4) = Some 0xffffffff
         /\ last_write l (base + GIC_DIST_ACTIVE_CLEAR + n / 32 * 4) = Some 0xffffffff.
Proof.
  intros base. destruct (line_nr_range g) as [Hl He].
  destruct (dist_init_trace oracle sys_oracle c g log)
    as (route & wait & cfg & espi & group & wait0 & E & Ecfg & N1 & N0 & A1 & A2 & O1 & A3 & Hroute).
  fold base in E, Ecfg, A1, A2, O1, A3, Hroute.
  set (ctl := AccWrite 32 (base + GICD_CTLR) (gic_dist_ctlr g)) in *.
  set (config := @gic_dist_config _ (trace_mmio oracle sys_oracle)) in *.
  set (tl := espi ++ group ++ wait0 ++ AccWrite 32 (base + GICD_CTLR) 0 :: log) in *.
  assert (Hr0 : forall a, writes_to (route ++ wait) a -> base + 0x6100 <= a).
  { intros a. rewrite writes_to_app. intros [H | H]; [by apply A3 | by apply N1 in H]. }
  exists (route ++ wait), (cfg ++ espi ++ group ++ wait0 ++ [AccWrite 32 (base + GICD_CTLR) 0]).
  split. { rewrite E, Ecfg. unfold tl. by rewrite <- !app_assoc. }
  split. { intros H%Hr0. gic_addr. }
  split.
  { intros a. rewrite !writes_to_app. unfold GICD_IROUTER.
    intros [H | [H | [H | [H | (w & v & H)]]]]; [apply A1 in H; lia | apply A2 in H; lia | seg_addr O1 H | by apply N0 in H |].
    apply list_elem_of_singleton in H as [= -> -> ->]. gic_addr. }
  intros n Hn l'.
  assert (El : l' = route ++ wait ++ ctl :: config base (GIC_LINE_NR g) (dist_prio_irq g) tl).
  { unfold l'. rewrite Ecfg. unfold tl. by rewrite <- !app_assoc. }
  assert (Hlow : forall a, base + 0x80 <= a < base + 0x6000 ->
    last_write l' a = last_write (config base (GIC_LINE_NR g) (dist_prio_irq g) tl) a).
  { intros a Ha. rewrite El. rewrite !last_write_none; [| intros H%N1; done | intros H%A3; lia].
    unfold ctl. cbn [last_write]. rewrite (proj2 (Z.eqb_neq _ _)); [done |]. gic_addr. }
  destruct (dist_config_trace oracle sys_oracle base (GIC_LINE_NR g) (dist_prio_irq g) tl n Hl Hn) as (C1 & C2 & C3 & C4).
  split; [rewrite El; by apply Hroute |]. rewrite !Hlow by gic_addr.
  split; [| split; [exact C1 | split; [exact C2 | split; [exact C3 | exact C4]]]].
  rewrite Ecfg. rewrite last_write_none by (intros H%A1; gic_addr).
  unfold tl. rewrite last_write_none by (intros H%A2; gic_addr).
  eapply seg_hit; [exact O1 |]. exists (n / 32 * 32). split; [| gic_addr].
  apply elem_of_steps; [done |]. exists (n / 32 - 1). gic_addr.
Qed.

(** ** The redistributor of a processor *)

(** A region of redistributors: the type registers of its frames, 128K
    apart, the last one marked, read the same at any time. *)
Record rdist_frames {D} `{Mmio D} (base : Z) (typers : list Z) : Prop := {
  rf_pidr : forall d, exists v d', mmio_read 32 (base + GICR_PIDR2) d = (v, d')
              /\ Z.land (u32 v) GIC_PIDR2_ARCH_MASK = GIC_PIDR2_ARCH_GICv3;
  rf_typer : forall i t d, typers !! i = Some t ->
               exists d', mmio_read 64 (base + 0x20000 * Z.of_nat i + GICR_TYPER) d = (t, d');
  rf_range : forall i t, typers !! i = Some t -> 0 <= t < 2 ^ 64;
  rf_last : forall i t, typers !! i = Some t -> Z.testbit t 4 = bool_decide (S i = length typers);
  rf_no_vlpi : forall i t, typers !! i = Some t -> Z.testbit t 1 = false;
}.

(** The first frame, from frame [i] on, with the affinity of the processor. *)
Fixpoint find_frame (aff : Z) (i : nat) (typers : list Z) : option nat :=
  match typers with
  | [] => None
  | t :: l => if Z.shiftr t 32 =? aff then Some i else find_frame aff (S i) l
  end.

Section Populate.
Context {D : Type} `{Mmio D} (c : cpu_id) (g : gic) (r : redist_region) (typers : list Z).
Context (Hreg : redist_regions g = [r]) (Hone : single_redist r = false) (Hstride : redist_stride g = 0).
Context (Hf : rdist_frames (redist_base r) typers).
Context (Hcpu : 0 <= cpu_number c < Z.of_nat (length (rd_base g))).

Definition own_affinity : Z := u32 (gic_mpidr_to_affinity (cpu_mpidr c)).

Definition found_gic (i : nat) : gic :=
  set_rdist g (Z.to_nat (cpu_number c)) (redist_base r + 0x20000 * Z.of_nat i)
    (rr_phys_base r + 0x20000 * Z.of_nat i).

Lemma rdist_slot : exists b, gic_data_rdist_rd_base c g = Done b.
Proof.
  unfold gic_data_rdist_rd_base. rewrite (proj2 (Z.ltb_ge _ 0)) by lia.
  destruct (lookup_lt_is_Some_2 (rd_base g) (Z.to_nat (cpu_number c))) as (b & ->); [lia | by exists b].
Qed.

Lemma populate_frame i t d :
  typers !! i = Some t ->
  exists d', __gic_populate_rdist c g 0 (redist_base r + 0x20000 * Z.of_nat i) d
    = Done (if Z.shiftr t 32 =? own_affinity then (0, found_gic i, d') else (1, g, d')).
Proof.
  intros Ht. destruct (rf_typer _ _ Hf i t d Ht) as (d' & E). pose proof (rf_range _ _ Hf i t Ht) as Hr.
  exists d'. unfold __gic_populate_rdist, read_u64. rewrite E, u64_small by lia.
  fold own_affinity. destruct (Z.shiftr t 32 =? own_affinity); [| done].
  rewrite Hreg. cbn [lookup list_lookup]. destruct rdist_slot as (b & ->). cbn [obind]. unfold found_gic.
  do 4 f_equal. lia.
Qed.

Lemma iterate_frames rest : forall fuel i d,
  drop i typers = rest -> rest <> [] -> (length rest <= fuel)%nat ->
  exists d', iterate_region fuel (__gic_populate_rdist c) 0 false (redist_base r + 0x20000 * Z.of_nat i) g d
    = Done (match find_frame own_affinity i rest with
            | Some j => (0, found_gic j, d')
            | None => (1, g, d')
            end).
Proof.
  induction rest as [|t rest IH]; intros fuel i d Hdrop Hne Hfuel; [done |].
  assert (Ht : typers !! i = Some t).
  { rewrite <- (Nat.add_0_r i), <- lookup_drop, Hdrop. done. }
  assert (Hdrop' : drop (S i) typers = rest) by (rewrite <- Nat.add_1_r, <- drop_drop, Hdrop; done).
  destruct fuel as [|fuel]; [simpl in Hfuel; lia |]. cbn [iterate_region find_frame].
  destruct (rf_typer _ _ Hf i t d Ht) as (d1 & E). pose proof (rf_range _ _ Hf i t Ht) as Hr.
  unfold read_u64 at 1. rewrite E, u64_small by lia.
  destruct (populate_frame i t d1 Ht) as (d2 & ->).
  destruct (Z.shiftr t 32 =? own_affinity) eqn:Ea; cbn [obind Z.eqb]; [by exists d2 |].
  rewrite Hstride. cbn [negb Z.eqb]. rewrite (rf_last _ _ Hf i t Ht), (rf_no_vlpi _ _ Hf i t Ht).
  assert (Hlen : length rest = (length typers - S i)%nat) by (by rewrite <- Hdrop', length_drop).
  pose proof (lookup_lt_Some _ _ _ Ht). case_bool_decide as Hlast.
  - exists d2. destruct rest; [done | simpl in Hlen; lia].
  - replace (redist_base r + 0x20000 * Z.of_nat i + SZ_64K * 2 + 0)
      with (redist_base r + 0x20000 * Z.of_nat (S i)) by (unfold SZ_64K; lia).
    apply IH; [done | destruct rest; [simpl in Hlen; lia | done] | simpl in Hfuel; lia].
Qed.
End Populate.

(** The search of a processor for its redistributor, in a region of at
    most nine frames, ends; it registers the first frame whose affinity is
    the one of the processor, virtual and physical address, or returns
    [-ENODEV] and changes nothing when there is none. *)
Lemma populate_finds_own_rdist {D} `{Mmio D} c g r typers d :
  redist_regions g = [r] -> single_redist r = false -> redist_stride g = 0 ->
  rdist_frames (redist_base r) typers -> (0 < length typers <= RDIST_FUEL)%nat ->
  0 <= cpu_number c < Z.of_nat (length (rd_base g)) ->
  exists d', gic_populate_rdist c g d
    = Done (match find_frame (u32 (gic_mpidr_to_affinity (cpu_mpidr c))) 0 typers with
            | Some i => (0, set_rdist g (Z.to_nat (cpu_number c)) (redist_base r + 0x20000 * Z.of_nat i)
                              (rr_phys_base r + 0x20000 * Z.of_nat i), d')
            | None => (- ENODEV, g, d')
            end).
Proof.
  intros Hreg Hone Hstride Hf Hlen Hcpu. unfold gic_populate_rdist, gic_iterate_rdists. rewrite Hreg.
  cbn [iterate_regions]. destruct (rf_pidr _ _ Hf d) as (v & d1 & E & Ev).
  unfold read_u32. rewrite E, Ev. change (GIC_PIDR2_ARCH_GICv3 =? GIC_PIDR2_ARCH_GICv3) with true.
  cbn [negb andb]. rewrite Hone.
  destruct (iterate_frames c g r typers Hreg Hstride Hf Hcpu typers RDIST_FUEL 0 d1) as (d2 & E2);
    [done | by destruct typers; [simpl in Hlen; lia |] | lia |].
  exists d2. replace (redist_base r) with (redist_base r + 0x20000 * Z.of_nat 0) at 1 by lia.
  rewrite E2. unfold own_affinity, found_gic. by destruct (find_frame _ 0 typers).
Qed.

(** The board: four redistributors, the frame of processor 2 is the third. *)
#[local] Instance board_rdist_mmio : Mmio unit := {
  mmio_read w a d :=
    (if a =? 0x80a0000 + GICR_PIDR2 then 0x3b
     else if a =? 0x80a0000 + 2 * 0x20000 + GICR_TYPER then 2 * 2 ^ 32
     else if a =? 0x80a0000 + 3 * 0x20000 + GICR_TYPER then 3 * 2 ^ 32 + 16
     else if a =? 0x80a0000 + 0x20000 + GICR_TYPER then 2 ^ 32
     else 0, d);
  mmio_write w a v d := d;
  sysreg_read r d := (0, d);
  sysreg_write r v d := d;
}.

Lemma board_rdist_frames : rdist_frames 0x80a0000 [0; 2 ^ 32; 2 * 2 ^ 32; 3 * 2 ^ 32 + 16].
Proof.
  split.
  - intros d. exists 0x3b, d. by split.
  - intros [|[|[|[|i]]]] t d [= <-]; by exists d.
  - intros [|[|[|[|i]]]] t [= <-]; lia.
  - intros [|[|[|[|i]]]] t [= <-]; reflexivity.
  - intros [|[|[|[|i]]]] t [= <-]; reflexivity.
Qed.

Lemma populate_finds_own_rdist_witness :
  exists d', gic_populate_rdist (mkCpu 2 [0; 1; 2; 3]) demo_gic tt
    = Done (0, set_rdist demo_gic 2 (0x80a0000 + 0x40000) (0x80a0000 + 0x40000), d').
Proof.
  apply (populate_finds_own_rdist (D := unit) (mkCpu 2 [0; 1; 2; 3]) demo_gic (mkRegionR 0x80a0000 0x80a0000 false)
    [0; 2 ^ 32; 2 * 2 ^ 32; 3 * 2 ^ 32 + 16] tt);
    [reflexivity | reflexivity | reflexivity | apply board_rdist_frames | simpl; unfold RDIST_FUEL; lia | split; done].
Defined.
