(* ===== verification/Process.v ===== *)
(** * Setting up a user process: [src/src/schedule/process.c], lines 50 to 334

    The memory a new process starts with: the protection of its segments, the
    allocation and the layout of its stack, its first register values.  The
    image comes from the loader ([Loader]), blocks from the kernel heap
    ([Kmalloc]); memory is the bytes of [CString]. *)

From S2P Require Import Prelude Memblock MemblockList MemblockArray MemblockRange MemblockFree.
From S2P Require Import MemblockSearch MemblockAlloc Loader CString CStringSpec Kmalloc PageTable Pte.

Definition PROCESS_META_START : Z := PROCESS_IMAGE_END.
Definition SZ_1G : Z := 0x40000000.
Definition PROCESS_META_END : Z := PROCESS_META_START + SZ_1G.
Definition PROCESS_STACK_TOP : Z := PROCESS_META_END + SZ_1G + 256 * SZ_1G.
Definition PROCESS_DEFAULT_STACK_SIZE : Z := 2 * PAGE_SIZE.
Definition PROCESS_MAX_STACK_SIZE : Z := 16 * PAGE_SIZE.
Definition THREAD_SIZE : Z := 2 ^ 14.
Definition INIT_EL0_PSTATE : Z := 0x01000000.
Definition sizeof_user_pt_regs : Z := 272.

(** ** Protection of the segments *)

Definition PF_X : Z := 1.
Definition PF_W : Z := 2.
Definition PF_R : Z := 4.

Definition process_get_segment_pgprot (flags : Z) : Z :=
  let prot_val := Z.lor (Z.lor (Z.lor (Z.lor PTE_SHARED PTE_AF) PTE_PXN) PTE_USER) PTE_TYPE_PAGE in
  let prot_val := if Z.land flags PF_X =? 0 then Z.lor prot_val PTE_UXN else prot_val in
  if negb (Z.land flags PF_W =? 0) then Z.lor prot_val PTE_WRITE
  else if negb (Z.land flags PF_R =? 0) then Z.lor prot_val PTE_RDONLY
  else Z.ldiff prot_val PTE_USER.

(** What the hardware makes of a page entry (the access permission bits AP[1]
    and AP[2], and the two execute-never bits). *)
Definition user_may_read (prot : Z) : bool := Z.testbit prot 6.
Definition user_may_write (prot : Z) : bool := Z.testbit prot 6 && negb (Z.testbit prot 7).
Definition user_may_exec (prot : Z) : bool := negb (Z.testbit prot 54).
Definition kernel_may_exec (prot : Z) : bool := negb (Z.testbit prot 53).

(** ** The user stack *)

(** The size the process gets: the one of its image, within the limits. *)
Definition process_stack_size (img : process_image) : Z :=
  if PROCESS_MAX_STACK_SIZE <? img_stack_size img then PROCESS_MAX_STACK_SIZE
  else if img_stack_size img =? 0 then PROCESS_DEFAULT_STACK_SIZE
  else img_stack_size img.

(** The stack of [process_memory_init]: allocated, then aligned up to a page;
    the result is the address of the block and the address of the stack. *)
Definition process_stack_alloc (h : kheap) (img : process_image) : outcome (option (Z * Z) * kheap) :=
  let! (stack, h) := kmalloc h (process_stack_size img) true in
  if stack =? 0 then Done (None, h)
  else Done (Some (stack, ALIGN_UP stack PAGE_SIZE), h).

(** [img->argc + 1] is computed at 32 bits, and the mask of the alignment has
    the width of [16U]. *)
Definition calculate_stack_meta_size (img : process_image) : Z :=
  let size := 8 + 8 * u32 (img_argc img + 1) in
  let size := size + 8 * u32 (img_env_count img + 1) in
  let size := size + sizeof_auxv_entry * img_auxv_count img in
  Z.land (u64 (u64 size + 15)) 0xfffffff0.

Definition meta_to_user_addr (meta_base p : Z) : Z := u64 (p - meta_base + PROCESS_META_START).

(** A loop that stores [n] pointers, and the NULL after it. *)
Fixpoint put_ptrs (n : nat) (ptrs : list Z) (meta_base : Z) (m : bmem) (sp : Z) : outcome (bmem * Z) :=
  match n with
  | O => let! m := st64 m sp 0 in Done (m, sp + 8)
  | S n =>
      match ptrs with
      | [] => Bug
      | p :: ptrs =>
          let! m := st64 m sp (meta_to_user_addr meta_base p) in
          put_ptrs n ptrs meta_base m (sp + 8)
      end
  end.

Fixpoint put_auxv (n : nat) (auxv : list Z) (m : bmem) (sp : Z) : outcome (bmem * Z) :=
  match n with
  | O => Done (m, sp)
  | S n =>
      match auxv with
      | [] => Bug
      | p :: auxv =>
          let! m := memcpy m sp p sizeof_auxv_entry in
          put_auxv n auxv m (sp + sizeof_auxv_entry)
      end
  end.

(** The second result is [*stack_used_size]. *)
Definition process_stack_init (img : process_image) (stack stack_size : Z) (m : bmem)
    : outcome (Z * Z * bmem) :=
  let sp_top := stack + stack_size in
  if negb (Z.land sp_top 15 =? 0) then Bug
  else
    let used_size := calculate_stack_meta_size img in
    if stack_size <? used_size then Done (- ENOMEM, 0, m)
    else
      let current_sp := sp_top - used_size in
      let! m := st64 m current_sp (img_argc img) in
      let! (m, current_sp) := put_ptrs (Z.to_nat (img_argc img)) (img_argv img) (meta_data img) m (current_sp + 8) in
      let! (m, current_sp) := put_ptrs (Z.to_nat (img_env_count img)) (img_env img) (meta_data img) m current_sp in
      let! (m, current_sp) := put_auxv (Z.to_nat (img_auxv_count img)) (img_auxv img) m current_sp in
      if sp_top <? current_sp then Bug
      else
        let! m := if current_sp <? sp_top then memset m current_sp 0 (sp_top - current_sp) else Done m in
        Done (0, used_size, m).

(** [process_calculate_init_regval]: the frame at the top of the kernel
    stack; the first result is the saved stack pointer. *)
Definition process_calculate_init_regval (img : process_image) (kernel_stack sp_el0 : Z) (m : bmem)
    : outcome (Z * bmem) :=
  let sp := kernel_stack + THREAD_SIZE - sizeof_user_pt_regs in
  let! m := memset m sp 0 sizeof_user_pt_regs in
  let! m := st64 m (sp + 8 * 32) (entry_point img) in
  let! m := st64 m (sp + 8 * 31) sp_el0 in
  let! m := st64 m (sp + 8 * 33) INIT_EL0_PSTATE in
  Done (sp, m).

(** [process_destroy]: the table of processes after the record is freed; the
    count drops even when the record is not in the table. *)
Fixpoint remove_process (fuel i : nat) (count : nat) (proc : Z) (l : list Z) : list Z :=
  match fuel with
  | O => l
  | S fuel =>
      if (i <? count)%nat then
        if nth i l 0 =? proc then
          fold_left (fun l j => <[j := nth (S j) l 0]> l) (seq i (count - 1 - i)) l
        else remove_process fuel (S i) count proc l
      else l
  end.

Definition process_destroy (proc : Z) (g_processes : list Z) (count : Z) : list Z * Z :=
  if proc =? 0 then (g_processes, count)
  else (remove_process (S (Z.to_nat count)) 0 (Z.to_nat count) proc g_processes, count - 1).

(** ** Removing a process *)

Lemma shift_down n : forall (l1 : list Z) x l2,
  length l2 = n ->
  take (length l1 + n)
    (fold_left (fun l j => <[j := nth (S j) l 0]> l) (seq (length l1) n) (l1 ++ x :: l2)) = l1 ++ l2.
Proof.
  induction n as [|n IH]; intros l1 x l2 Hl; cbn [seq fold_left].
  - destruct l2; [| done]. rewrite Nat.add_0_r, app_nil_r. by rewrite take_app_length.
  - destruct l2 as [|y l2]; [done |]. injection Hl as Hl.
    assert (Hn : nth (S (length l1)) (l1 ++ x :: y :: l2) 0 = y).
    { rewrite app_nth2 by lia. by replace (S (length l1) - length l1)%nat with 1%nat by lia. }
    rewrite Hn, insert_app_r_alt, Nat.sub_diag by lia. cbn [insert list_insert].
    specialize (IH (l1 ++ [y]) y l2 Hl). rewrite length_app in IH. cbn [length] in IH.
    rewrite <- !app_assoc in IH. cbn [app] in IH. replace (length l1 + 1)%nat with (S (length l1)) in IH by lia.
    by replace (length l1 + S n)%nat with (S (length l1) + n)%nat by lia.
Qed.

Lemma remove_process_found fuel : forall i l1 l2 proc l0,
  proc ∉ l1 -> i = length l0 -> (length l1 < fuel)%nat ->
  let l := l0 ++ l1 ++ proc :: l2 in
  take (length l - 1) (remove_process fuel i (length l) proc l) = l0 ++ l1 ++ l2.
Proof.
  induction fuel as [|fuel IH]; intros i l1 l2 proc l0 Hp -> Hf l; [lia |]. cbn [remove_process].
  assert (Hlen : length l = (length l0 + length l1 + 1 + length l2)%nat).
  { unfold l. rewrite !length_app. cbn [length]. lia. }
  rewrite (proj2 (Nat.ltb_lt _ _)) by lia. destruct l1 as [|x l1].
  - assert (nth (length l0) l 0 = proc) as -> by (unfold l; rewrite app_nth2, Nat.sub_diag by lia; done).
    rewrite Z.eqb_refl. cbn [length] in Hlen. rewrite Hlen.
    replace (length l0 + 0 + 1 + length l2 - 1 - length l0)%nat with (length l2) by lia.
    replace (length l0 + 0 + 1 + length l2 - 1)%nat with (length l0 + length l2)%nat by lia.
    unfold l. cbn [app]. by apply shift_down.
  - assert (nth (length l0) l 0 = x) as -> by (unfold l; rewrite app_nth2, Nat.sub_diag by lia; done).
    apply not_elem_of_cons in Hp as [Hx Hp]. rewrite (proj2 (Z.eqb_neq x proc)) by congruence.
    specialize (IH (S (length l0)) l1 l2 proc (l0 ++ [x]) Hp).
    rewrite length_app, <- !app_assoc in IH. cbn [app length] in IH. apply IH; [lia | simpl in Hf; lia].
Qed.

(** A process of the table is removed and the others keep their order. *)
Lemma process_destroy_found l1 proc l2 :
  proc <> 0 -> proc ∉ l1 ->
  let l := l1 ++ proc :: l2 in
  let (l', count) := process_destroy proc l (len l) in
  count = len l - 1 /\ take (Z.to_nat count) l' = l1 ++ l2.
Proof.
  intros H0 Hp l. unfold process_destroy. rewrite (proj2 (Z.eqb_neq proc 0) H0), Nat2Z.id.
  split; [done |]. assert (Hlen : length l = (length l1 + 1 + length l2)%nat).
  { unfold l. rewrite length_app. cbn [length]. lia. }
  replace (Z.to_nat (len l - 1)) with (length l - 1)%nat by lia.
  apply (remove_process_found _ 0 l1 l2 proc []); [done | done | lia].
Qed.

(** ** Words in memory *)

Definition words (l : list Z) : list Z := concat (le_list 8 <$> l).

Lemma len_words l : Forall (fun w => 0 <= w < 2 ^ 64) l -> len (words l) = 8 * len l.
Proof.
  intros H. induction H as [|w l Hw _ IH]; [done |]. unfold words in *. cbn [fmap list_fmap concat].
  rewrite length_app. destruct (le_list_spec 8 w Hw) as (_ & -> & _). cbn [length]. lia.
Qed.

Lemma words_cons w l : words (w :: l) = le_list 8 w ++ words l.
Proof. reflexivity. Qed.

Lemma words_app l1 l2 : words (l1 ++ l2) = words l1 ++ words l2.
Proof. unfold words. by rewrite fmap_app, concat_app. Qed.

(** Each word of a list in memory can be read back. *)
Lemma ld64_words m a l : forall i w,
  Forall (fun w => 0 <= w < 2 ^ 64) l -> cells m a (words l) -> l !! i = Some w ->
  ld64 m (a + 8 * Z.of_nat i) = Done w.
Proof.
  revert a. induction l as [|x l IH]; intros a i w Hl Hc Hi; [done |].
  inversion_clear Hl as [|? ? Hx Hl']. destruct (le_list_spec 8 x Hx) as (_ & Hlen & _).
  unfold words in Hc. cbn [fmap list_fmap concat] in Hc. apply cells_app in Hc as [Hc1 Hc2]. rewrite Hlen in Hc2.
  destruct i as [|i]; simplify_eq/=.
  - rewrite Z.add_0_r. by apply ld64_spec.
  - replace (a + 8 * Z.of_nat (S i)) with (a + 8 + 8 * Z.of_nat i) by lia. by eapply IH.
Qed.

(** ** The stores of [process_stack_init] *)

Lemma put_ptrs_spec ptrs meta : forall m sp,
  mapped m sp (8 * (len ptrs + 1)) ->
  put_ptrs (length ptrs) ptrs meta m sp
  = Done (blit m sp (words ((meta_to_user_addr meta <$> ptrs) ++ [0])), sp + 8 * (len ptrs + 1)).
Proof.
  induction ptrs as [|p ptrs IH]; intros m sp Hm; cbn [put_ptrs length].
  - rewrite st64_spec by (lia || (eapply mapped_sub; [exact Hm | |]; simpl; lia)). done.
  - assert (Hp : 0 <= meta_to_user_addr meta p < 2 ^ 64) by (apply Z.mod_pos_bound; lia).
    cbn [length] in Hm.
    rewrite st64_spec by (done || (eapply mapped_sub; [exact Hm | |]; lia)). cbn [obind].
    rewrite IH by (apply mapped_blit_mono; eapply mapped_sub; [exact Hm | |]; lia).
    destruct (le_list_spec 8 _ Hp) as (_ & Hlen & _).
    unfold words. cbn [fmap list_fmap app concat]. rewrite blit_app, Hlen. f_equal. f_equal. lia.
Qed.

(** The entries of the auxiliary vector: 16 bytes at each of the pointers,
    away from the range written. *)
Definition auxv_at (m : bmem) (lo hi : Z) (p : Z) (e : list Z) : Prop :=
  cells m p e /\ byte_list e /\ len e = 16 /\ (p + 16 <= lo \/ hi <= p).

Lemma put_auxv_spec ps : forall es m sp lo hi,
  Forall2 (auxv_at m lo hi) ps es -> lo <= sp -> sp + 16 * len ps <= hi -> mapped m sp (16 * len ps) ->
  put_auxv (length ps) ps m sp = Done (blit m sp (concat es), sp + 16 * len ps)
  /\ len (concat es) = 16 * len ps.
Proof.
  induction ps as [|p ps IH]; intros es m sp lo hi Hes Hlo Hhi Hm; inversion Hes as [|? e ? es' He Hes']; subst.
  - split; [| done]. cbn [put_auxv length concat blit]. do 2 f_equal. lia.
  - destruct He as (Hc & Hb & Hlen & Hd). cbn [put_auxv length concat] in *.
    change sizeof_auxv_entry with 16.
    replace 16 with (len e) at 1. rewrite memcpy_spec;
      [| done | done | eapply mapped_sub; [exact Hm | |]; lia | lia]. cbn [obind].
    destruct (IH es' (blit m sp e) (sp + 16) lo hi) as [E1 E2].
    + eapply Forall2_impl; [exact Hes' |]. intros q f (Q1 & Q2 & Q3 & Q4).
      split; [apply cells_blit_outside; [done | lia] |]. done.
    + lia.
    + lia.
    + apply mapped_blit_mono. eapply mapped_sub; [exact Hm | |]; lia.
    + rewrite E1, length_app. split; [| lia]. rewrite blit_app, Hlen. do 2 f_equal. lia.
Qed.

Lemma stack_meta_size_spec img :
  0 <= img_argc img <= 128 -> 0 <= img_env_count img <= 128 -> 0 <= img_auxv_count img <= 128 ->
  let raw := 24 + 8 * img_argc img + 8 * img_env_count img + 16 * img_auxv_count img in
  raw <= calculate_stack_meta_size img < raw + 16 /\ calculate_stack_meta_size img mod 16 = 0.
Proof.
  intros Ha He Hx raw. unfold calculate_stack_meta_size, sizeof_auxv_entry.
  rewrite !(u32_small (_ + 1)) by lia. rewrite (u64_small (8 + _ + _ + _)), u64_small by lia.
  set (s := _ + 15). assert (Hs : s = raw + 15) by (unfold s, raw; lia).
  assert (Z.land s 0xfffffff0 = s - s mod 16) as ->.
  { apply Z.bits_inj'. intros k Hk. change 0xfffffff0 with (Z.ones 28 * 2 ^ 4).
    rewrite Z.land_spec. replace (s - s mod 16) with (s / 16 * 2 ^ 4) by (pose proof (Z.div_mod s 16); lia).
    rewrite !Z.mul_pow2_bits by lia.
    destruct (Z.lt_ge_cases k 4) as [H4 | H4].
    - rewrite (Z.testbit_neg_r (Z.ones 28)), (Z.testbit_neg_r (s / 16)) by lia. apply andb_false_r.
    - change 16 with (2 ^ 4). rewrite Z.div_pow2_bits by lia. replace (k - 4 + 4) with k by lia.
      destruct (Z.lt_ge_cases (k - 4) 28).
      + rewrite Z.ones_spec_low by lia. apply andb_true_r.
      + rewrite Z.ones_spec_high by lia. rewrite andb_false_r. symmetry.
        apply Z.bits_above_log2; [lia |]. apply Z.log2_lt_pow2; [lia |].
        apply Z.lt_le_trans with (2 ^ 32); [lia | apply Z.pow_le_mono_r; lia]. }
  pose proof (Z.mod_pos_bound s 16). split; [lia |]. apply mod_sub_mod. lia.
Qed.

Record stack_ok (img : process_image) (stack stack_size : Z) (m : bmem) (es : list (list Z)) : Prop := {
  so_argc : img_argc img = len (img_argv img) /\ len (img_argv img) <= 128;
  so_env : img_env_count img = len (img_env img) /\ len (img_env img) <= 128;
  so_auxv : img_auxv_count img = len (img_auxv img) /\ len (img_auxv img) <= 128;
  so_top : (stack + stack_size) mod 16 = 0;
  so_fits : calculate_stack_meta_size img <= stack_size;
  so_mapped : mapped m stack stack_size;
  so_entries : Forall2 (auxv_at m stack (stack + stack_size)) (img_auxv img) es;
}.

(** The words at the stack pointer. *)
Definition stack_words (img : process_image) : list Z :=
  img_argc img :: (meta_to_user_addr (meta_data img) <$> img_argv img) ++ [0]
  ++ (meta_to_user_addr (meta_data img) <$> img_env img) ++ [0].

Lemma user_addr_range meta l : Forall (fun w => 0 <= w < 2 ^ 64) ((meta_to_user_addr meta <$> l) ++ [0]).
Proof.
  apply Forall_app. split; [| apply Forall_singleton; lia]. apply Forall_fmap, Forall_true.
  intros p. apply Z.mod_pos_bound. lia.
Qed.

Lemma stack_words_range img : 0 <= img_argc img < 2 ^ 64 -> Forall (fun w => 0 <= w < 2 ^ 64) (stack_words img).
Proof.
  intros Ha. unfold stack_words. constructor; [done |]. rewrite (app_assoc _ [0]).
  apply Forall_app. split; apply user_addr_range.
Qed.

Lemma stack_init_spec img stack stack_size m es :
  stack_ok img stack stack_size m es ->
  let used := calculate_stack_meta_size img in
  let sp := stack + stack_size - used in
  let pad := used - 8 * len (stack_words img) - 16 * len (img_auxv img) in
  process_stack_init img stack stack_size m
  = Done (0, used, blit m sp (words (stack_words img) ++ concat es ++ replicate (Z.to_nat pad) 0))
  /\ len (concat es) = 16 * len (img_auxv img) /\ 0 <= pad < 16 /\ sp mod 16 = 0 /\ stack <= sp.
Proof.
  intros [[A1 A2] [E1 E2] [X1 X2] Htop Hfits Hm Hes] used sp pad.
  destruct (stack_meta_size_spec img) as [Hu Hu16]; [lia | lia | lia |]. fold used in Hu, Hu16, Hfits.
  assert (Hw : len (stack_words img) = 3 + len (img_argv img) + len (img_env img)).
  { unfold stack_words. cbn [length]. rewrite !length_app, !length_fmap. cbn [length]. lia. }
  assert (Hpad : 0 <= pad < 16) by (unfold pad; lia).
  assert (Hsp : sp mod 16 = 0).
  { unfold sp. rewrite Zminus_mod, Htop, Hu16. reflexivity. }
  unfold process_stack_init. fold used. change 15 with (Z.ones 4). rewrite Z.land_ones by lia.
  change (2 ^ 4) with 16. rewrite Htop. cbn [negb Z.eqb]. rewrite (proj2 (Z.ltb_ge _ _)) by lia. fold sp.
  assert (Hsub : forall a n, sp <= a -> a + n <= stack + stack_size -> mapped m a n).
  { intros a n H1 H2. eapply mapped_sub; [exact Hm | |]; unfold sp in *; lia. }
  rewrite st64_spec by (lia || (apply Hsub; unfold sp; lia)). cbn [obind].
  set (m1 := blit m sp _). rewrite A1, E1, X1, !Nat2Z.id.
  rewrite put_ptrs_spec by (unfold m1; apply mapped_blit_mono, Hsub; unfold sp; lia). cbn [obind].
  set (m2 := blit m1 _ _).
  rewrite put_ptrs_spec by (unfold m2, m1; do 2 apply mapped_blit_mono; apply Hsub; unfold sp; lia). cbn [obind].
  set (m3 := blit m2 _ _). set (sp3 := sp + 8 + _ + _).
  assert (Em3 : m3 = blit m sp (words (stack_words img))).
  { assert (words (stack_words img) = le_list 8 (img_argc img)
      ++ words ((meta_to_user_addr (meta_data img) <$> img_argv img) ++ [0])
      ++ words ((meta_to_user_addr (meta_data img) <$> img_env img) ++ [0])) as ->.
    { unfold stack_words. by rewrite (app_assoc _ [0]), words_cons, <- words_app. }
    unfold m3, m2, m1.
    rewrite (blit_app m sp), (blit_app _ _ (words ((meta_to_user_addr (meta_data img) <$> img_argv img) ++ [0]))).
    destruct (le_list_spec 8 (img_argc img)) as (_ & Hl & _); [simpl; lia |]. rewrite Hl.
    rewrite (len_words _ (user_addr_range (meta_data img) (img_argv img))).
    rewrite length_app, length_fmap. cbn [length]. rewrite A1. f_equal. lia. }
  rewrite Em3.
  destruct (put_auxv_spec (img_auxv img) es (blit m sp (words (stack_words img))) sp3 sp (stack + stack_size))
    as [P1 P2].
  { eapply Forall2_impl; [exact Hes |]. intros p e (Q1 & Q2 & Q3 & Q4). split; [| split; [done |]; split; [done |]].
    - apply cells_blit_outside; [done |]. rewrite len_words by (apply stack_words_range; lia).
      unfold sp. lia.
    - unfold sp. lia. }
  { unfold sp3. lia. }
  { unfold sp3, sp. lia. }
  { apply mapped_blit_mono, Hsub; unfold sp3, sp; lia. }
  rewrite P1. cbn [obind]. rewrite (proj2 (Z.ltb_ge _ _)) by (unfold sp3, sp; lia).
  assert (Hend : sp + len (words (stack_words img)) = sp3).
  { rewrite len_words by (apply stack_words_range; lia). unfold sp3. lia. }
  split; [| split; [done |]; split; [done |]; split; [done | unfold sp; lia]].
  rewrite (blit_app m sp (words (stack_words img))), Hend, blit_app, P2.
  destruct (Z.ltb_spec (sp3 + 16 * len (img_auxv img)) (stack + stack_size)) as [Hlt | Hge].
  - rewrite memset_spec by (lia || (do 2 apply mapped_blit_mono; apply Hsub; unfold sp3, sp; lia)).
    cbn [obind]. do 4 f_equal. unfold pad, sp3, sp. lia.
  - cbn [obind]. replace (Z.to_nat pad) with 0%nat by (unfold pad, sp3, sp in *; lia). done.
Qed.

(** Reading the words of the stack back. *)
Lemma stack_words_read img m sp :
  img_argc img = len (img_argv img) -> img_env_count img = len (img_env img) -> img_argc img < 2 ^ 64 ->
  cells m sp (words (stack_words img)) ->
  let argv := sp + 8 in
  let env := argv + 8 * (img_argc img + 1) in
  let user p := meta_to_user_addr (meta_data img) p in
  ld64 m sp = Done (img_argc img)
  /\ (forall i p, img_argv img !! i = Some p -> ld64 m (argv + 8 * Z.of_nat i) = Done (user p))
  /\ ld64 m (argv + 8 * img_argc img) = Done 0
  /\ (forall i p, img_env img !! i = Some p -> ld64 m (env + 8 * Z.of_nat i) = Done (user p))
  /\ ld64 m (env + 8 * img_env_count img) = Done 0.
Proof.
  intros A1 E1 Hb Hc argv env user.
  assert (Hr : Forall (fun w => 0 <= w < 2 ^ 64) (stack_words img)) by (apply stack_words_range; lia).
  assert (Hget : forall k l w pre, stack_words img = pre ++ l ++ w -> forall i x, l !! i = Some x ->
    k = len pre -> ld64 m (sp + 8 * k + 8 * Z.of_nat i) = Done x).
  { intros k l w pre Hsw i x Hi ->. replace (sp + 8 * len pre + 8 * Z.of_nat i)
      with (sp + 8 * Z.of_nat (length pre + i)) by lia.
    apply (ld64_words m sp (stack_words img)); [done | done |].
    rewrite Hsw, lookup_app_r by lia. replace (length pre + i - length pre)%nat with i by lia.
    by apply lookup_app_l_Some. }
  set (ua := user <$> img_argv img). set (ue := user <$> img_env img).
  assert (Hlen : len ua = img_argc img /\ len ue = img_env_count img) by (unfold ua, ue; rewrite !length_fmap; lia).
  assert (Esw : stack_words img = (img_argc img :: ua) ++ [0] ++ ue ++ [0]) by reflexivity.
  split; [| split; [| split; [| split]]].
  - rewrite <- (Z.add_0_r sp). by apply (ld64_words m sp (stack_words img) 0).
  - intros i p Hp. apply (Hget 1 ua ([0] ++ ue ++ [0]) [img_argc img]); [done | | done].
    unfold ua. by rewrite list_lookup_fmap, Hp.
  - replace (argv + 8 * img_argc img) with (sp + 8 * (1 + img_argc img) + 8 * Z.of_nat 0) by (unfold argv; lia).
    apply (Hget _ [0] (ue ++ [0]) (img_argc img :: ua)); [done | done | cbn [length]; lia].
  - intros i p Hp. replace (env + 8 * Z.of_nat i) with (sp + 8 * (2 + img_argc img) + 8 * Z.of_nat i)
      by (unfold env, argv; lia).
    apply (Hget _ ue [0] ((img_argc img :: ua) ++ [0])); [by rewrite Esw, <- !app_assoc | |].
    + unfold ue. by rewrite list_lookup_fmap, Hp.
    + rewrite length_app. cbn [length]. lia.
  - replace (env + 8 * img_env_count img) with (sp + 8 * (2 + img_argc img + img_env_count img) + 8 * Z.of_nat 0)
      by (unfold env, argv; lia).
    apply (Hget _ [0] [] (((img_argc img :: ua) ++ [0]) ++ ue)); [by rewrite Esw, <- !app_assoc | done |].
    rewrite !length_app. cbn [length]. lia.
Qed.

(** The first register frame: every register zero but the program counter,
    the stack pointer and the processor state. *)
Lemma init_regval_spec img ks sp_el0 m :
  0 <= entry_point img < 2 ^ 64 -> 0 <= sp_el0 < 2 ^ 64 ->
  let sp := ks + THREAD_SIZE - sizeof_user_pt_regs in
  mapped m sp sizeof_user_pt_regs ->
  exists m', process_calculate_init_regval img ks sp_el0 m = Done (sp, m')
    /\ (forall i, 0 <= i < 31 -> ld64 m' (sp + 8 * i) = Done 0)
    /\ ld64 m' (sp + 8 * 31) = Done sp_el0 /\ ld64 m' (sp + 8 * 32) = Done (entry_point img)
    /\ ld64 m' (sp + 8 * 33) = Done INIT_EL0_PSTATE
    /\ (forall a, a < sp \/ sp + sizeof_user_pt_regs <= a -> m' !! a = m !! a)
    /\ (forall a, is_Some (m !! a) -> is_Some (m' !! a)).
Proof.
  intros He Hs sp Hm. unfold process_calculate_init_regval. fold sp. unfold sizeof_user_pt_regs in *.
  assert (Hsub : forall k, 0 <= k <= 33 -> mapped m (sp + 8 * k) 8)
    by (intros k Hk; eapply mapped_sub; [exact Hm | |]; lia).
  rewrite memset_spec by (done || lia). cbn [obind].
  rewrite st64_spec by (done || (apply mapped_blit_mono, Hsub; lia)). cbn [obind].
  rewrite st64_spec by (done || (do 2 apply mapped_blit_mono; apply Hsub; lia)). cbn [obind].
  rewrite st64_spec by ((split; vm_compute; done) || (do 3 apply mapped_blit_mono; apply Hsub; lia)). cbn [obind].
  assert (Hlen : forall v, 0 <= v < 2 ^ 64 -> len (le_list 8 v) = 8).
  { intros v Hv. by destruct (le_list_spec 8 v Hv) as (_ & -> & _). }
  assert (Hp : 0 <= INIT_EL0_PSTATE < 2 ^ 64) by (split; vm_compute; done).
  pose proof (Hlen _ He) as L1. pose proof (Hlen _ Hs) as L2. pose proof (Hlen _ Hp) as L3.
  assert (Hz : len (replicate (Z.to_nat 272) (u8 0)) = 272) by (rewrite length_replicate; lia).
  eexists. split; [reflexivity |]. split; [| split; [| split; [| split; [| split]]]].
  - intros i Hi. apply ld64_spec; [done |].
    repeat (apply cells_blit_outside; [| rewrite ?L1, ?L2, ?L3, Hlen by lia; lia]).
    intros j x Hj. change (le_list 8 0) with (replicate 8 0) in Hj. apply lookup_replicate in Hj as [-> Hj].
    replace (sp + 8 * i + Z.of_nat j) with (sp + Z.of_nat (Z.to_nat (8 * i) + j)) by lia.
    apply cells_blit. apply lookup_replicate. split; [done | lia].
  - apply ld64_spec; [done |]. apply cells_blit_outside; [apply cells_blit | rewrite L2; lia].
  - apply ld64_spec; [done |].
    do 2 (apply cells_blit_outside; [| rewrite L1, ?L2; lia]). apply cells_blit.
  - apply ld64_spec; [done |]. apply cells_blit.
  - intros a Ha. by rewrite !blit_outside by lia.
  - intros a Ha. by repeat apply blit_is_Some.
Qed.

(** ** Claims *)

(** [process_stack_init] on a stack that can hold it lays out the initial
    user stack: at a 16-byte aligned stack pointer the argument count, the
    user addresses of the arguments and a null, the same for the
    environment, the entries of the auxiliary vector copied, and zeros up to
    the top; every address is read back as stored, and memory below the
    stack pointer and outside the stack is unchanged. *)
Lemma initial_stack_layout img stack stack_size m es :
  stack_ok img stack stack_size m es ->
  let used := calculate_stack_meta_size img in
  let sp := stack + stack_size - used in
  let argv := sp + 8 in
  let env := argv + 8 * (img_argc img + 1) in
  let auxv := env + 8 * (img_env_count img + 1) in
  let user p := meta_to_user_addr (meta_data img) p in
  exists m', process_stack_init img stack stack_size m = Done (0, used, m')
    /\ sp mod 16 = 0 /\ stack <= sp
    /\ ld64 m' sp = Done (img_argc img)
    /\ (forall i p, img_argv img !! i = Some p -> ld64 m' (argv + 8 * Z.of_nat i) = Done (user p))
    /\ ld64 m' (argv + 8 * img_argc img) = Done 0
    /\ (forall i p, img_env img !! i = Some p -> ld64 m' (env + 8 * Z.of_nat i) = Done (user p))
    /\ ld64 m' (env + 8 * img_env_count img) = Done 0
    /\ cells m' auxv (concat es)
    /\ (forall a, auxv + 16 * img_auxv_count img <= a < stack + stack_size -> m' !! a = Some 0)
    /\ (forall a, a < sp \/ stack + stack_size <= a -> m' !! a = m !! a).
Proof.
  intros Hok used sp argv env auxv user.
  destruct (stack_init_spec img stack stack_size m es Hok) as (E & Hx & Hpad & H16 & Hlo).
  fold used sp in E, Hpad, H16, Hlo.
  destruct Hok as [[A1 A2] [E1 E2] [X1 X2] _ _ _ _].
  set (pad := used - 8 * len (stack_words img) - 16 * len (img_auxv img)) in *.
  set (m' := blit m sp _) in E. exists m'. split; [done |]. split; [done |]. split; [done |].
  assert (Hr : Forall (fun w => 0 <= w < 2 ^ 64) (stack_words img)) by (apply stack_words_range; lia).
  pose proof (len_words _ Hr) as Hlw.
  assert (Hw : len (stack_words img) = 3 + len (img_argv img) + len (img_env img)).
  { unfold stack_words. cbn [length]. rewrite !length_app, !length_fmap. cbn [length]. lia. }
  pose proof (cells_blit m sp (words (stack_words img) ++ concat es ++ replicate (Z.to_nat pad) 0)) as Hc.
  fold m' in Hc. apply cells_app in Hc as [Hc1 Hc2]. apply cells_app in Hc2 as [Hc2 Hc3].
  destruct (stack_words_read img m' sp A1 E1 ltac:(lia) Hc1) as (R1 & R2 & R3 & R4 & R5).
  split; [done |]. split; [done |]. split; [done |]. split; [done |]. split; [done |].
  replace (sp + len (words (stack_words img))) with auxv in * by (unfold auxv, env, argv; lia).
  split; [done |]. split.
  - intros a Ha. rewrite Hx in Hc3.
    specialize (Hc3 (Z.to_nat (a - (auxv + 16 * len (img_auxv img)))) 0).
    replace (auxv + 16 * len (img_auxv img) + _) with a in Hc3 by lia. apply Hc3.
    apply lookup_replicate. split; [done |]. unfold pad, auxv, env, argv, sp in *. lia.
  - intros a Ha. unfold m'. apply blit_outside. rewrite !length_app, length_replicate.
    unfold pad, sp in *. lia.
Qed.

(** A stack of 96 bytes, one argument, no environment, one auxiliary entry. *)
Definition demo_image : process_image :=
  mkImage 0 0 0x5000 0x100 1 [0x5004] 0 [] 1 [0x2000] 96 0x40000000.
Definition demo_stack_mem : bmem :=
  blit (blit ∅ 0x1000 (replicate 96 7)) 0x2000 (le_list 8 6 ++ le_list 8 4096).

Lemma demo_stack_ok : stack_ok demo_image 0x1000 96 demo_stack_mem [le_list 8 6 ++ le_list 8 4096].
Proof.
  split; try (split; vm_compute; done); [vm_compute; done .. | |].
  - apply mapped_blit_mono. apply (mapped_cells _ _ (replicate 96 7)); [apply cells_blit | done].
  - constructor; [| constructor]. split; [apply cells_blit |].
    split; [vm_compute; repeat constructor; done |]. split; [reflexivity | vm_compute; by right].
Qed.

Lemma initial_stack_layout_witness :
  exists m', process_stack_init demo_image 0x1000 96 demo_stack_mem = Done (0, 48, m')
    /\ ld64 m' (0x1000 + 96 - 48) = Done 1
    /\ ld64 m' (0x1000 + 96 - 48 + 8 + 8 * Z.of_nat 0) = Done (PROCESS_META_START + 4).
Proof.
  destruct (initial_stack_layout demo_image 0x1000 96 demo_stack_mem [le_list 8 6 ++ le_list 8 4096] demo_stack_ok)
    as (m' & E & _ & _ & R1 & R2 & _).
  exists m'. split; [exact E |]. split; [exact R1 |]. apply (R2 0%nat 0x5004). reflexivity.
Defined.

(** The stack of a process whose size is at least a page lies inside its
    allocation, at a page boundary, zeroed; but the size comes from the
    image and is only limited from above, and for a size of at most 16 bytes
    the page-aligned stack starts after the end of the block that was
    allocated for it. *)
Lemma user_stack_placement h img :
  let size := process_stack_size img in
  heap_ok h -> heap_room h -> 0 < size -> heap_free h size ->
  exists block_ stack h', process_stack_alloc h img = Done (Some (block_, stack), h')
    /\ stack mod PAGE_SIZE = 0
    /\ (PAGE_SIZE <= size -> block_ <= stack /\ stack + size <= block_ + kmalloc_buf_size size
        /\ forall a, block stack size a -> kh_mem h' !! a = Some 0)
    /\ (size <= 16 -> block_ + kmalloc_buf_size size <= stack).
Proof.
  intros size Hh Hr Hs Hf.
  assert (Hmax : size < 2 ^ 31).
  { unfold size, process_stack_size, PROCESS_MAX_STACK_SIZE, PROCESS_DEFAULT_STACK_SIZE, PAGE_SIZE.
    repeat case_match; bool_facts; lia. }
  destruct (kmalloc_fresh h size true Hh Hr (conj Hs Hmax) Hf)
    as (pa & h' & E & _ & Hpa & Hend & Hal & _ & _ & _ & Hz & _).
  destruct (kmalloc_align_spec size (conj Hs Hmax)) as (Hp2 & Ha & _).
  pose proof (kmalloc_buf_size_spec size (conj Hs Hmax)) as Hbuf.
  set (p := pa + LINER_MAP_OFFSET + REGION_HDR) in *.
  assert (Hoff : LINER_MAP_OFFSET = 2 ^ 12 * (LINER_MAP_OFFSET / 2 ^ 12)) by reflexivity.
  assert (Hp : 0 < p <= 2 ^ 64 - 2 ^ 31) by (unfold p, LINER_MAP_OFFSET, PAGE_OFFSET, RAM_BASE, REGION_HDR in *; lia).
  assert (Hpg : is_pow2 PAGE_SIZE) by (exists 12; split; [lia | reflexivity]).
  destruct (ALIGN_UP_spec p PAGE_SIZE Hpg) as [M B]; [lia | unfold PAGE_SIZE; lia |].
  exists p, (ALIGN_UP p PAGE_SIZE), h'. split.
  { unfold process_stack_alloc. fold size. rewrite E. cbn [obind]. by rewrite (proj2 (Z.eqb_neq p 0)) by lia. }
  split; [done |]. unfold PAGE_SIZE in *. split.
  - intros Hge. split; [lia |]. split; [lia |]. intros a Hb. apply Hz; [done |]. unfold block in *. lia.
  - intros Hle. assert (Hbuf16 : kmalloc_buf_size size <= 32).
    { rewrite Hbuf. unfold kmalloc_align, is_power_of_2.
      assert (Hcase : size = 1 \/ size = 2 \/ size = 3 \/ size = 4 \/ size = 5 \/ size = 6 \/ size = 7 \/ size = 8
        \/ size = 9 \/ size = 10 \/ size = 11 \/ size = 12 \/ size = 13 \/ size = 14 \/ size = 15 \/ size = 16) by lia.
      clear -Hcase. repeat destruct Hcase as [-> | Hcase]; [vm_compute; done .. |]. rewrite Hcase. vm_compute. done. }
    apply Z.mod_divide in M as (q & Eq); [| lia]. apply Z.mod_divide in Hal as (r & Er); [| done].
    unfold SMP_CACHE_BYTES, p, REGION_HDR in *. lia.
Qed.

Lemma user_stack_placement_witness :
  exists block_ stack h', process_stack_alloc small_heap (mkImage 0 0 0 0 0 [] 0 [] 0 [] 16 0)
      = Done (Some (block_, stack), h')
    /\ block_ + kmalloc_buf_size 16 <= stack.
Proof.
  destruct (user_stack_placement small_heap (mkImage 0 0 0 0 0 [] 0 [] 0 [] 16 0)) as (b & s & h' & E & _ & _ & H).
  - apply small_heap_ok.
  - split; vm_compute; lia.
  - vm_compute. done.
  - apply small_heap_free. vm_compute. done.
  - exists b, s, h'. split; [exact E |]. apply H. vm_compute. done.
Defined.

(** The page entries of a segment give a user process exactly the rights
    of its program header: it may write iff the segment is writable, read iff
    it is readable or writable, execute iff it is executable; the kernel may
    never execute it. *)
Lemma segment_permissions flags :
  let prot := process_get_segment_pgprot flags in
  user_may_write prot = Z.testbit flags 1
  /\ user_may_read prot = Z.testbit flags 1 || Z.testbit flags 2
  /\ user_may_exec prot = Z.testbit flags 0
  /\ kernel_may_exec prot = false.
Proof.
  assert (Hbit : forall k, 0 <= k -> (Z.land flags (2 ^ k) =? 0) = negb (Z.testbit flags k)).
  { intros k Hk. destruct (Z.testbit flags k) eqn:E; cbn [negb].
    - apply Z.eqb_neq. intros H0. assert (Hf : Z.testbit (Z.land flags (2 ^ k)) k = false) by (by rewrite H0, Z.bits_0).
      rewrite Z.land_spec, E, Z.pow2_bits_true in Hf by lia. done.
    - apply Z.eqb_eq. apply Z.bits_inj'. intros j Hj. rewrite Z.land_spec, Z.bits_0.
      destruct (Z.eq_dec k j) as [-> |]; [by rewrite E |]. rewrite Z.pow2_bits_false by lia. apply andb_false_r. }
  unfold process_get_segment_pgprot. cbv zeta.
  change PF_X with (2 ^ 0). change PF_W with (2 ^ 1). change PF_R with (2 ^ 2). rewrite !Hbit, !negb_involutive by lia.
  destruct (Z.testbit flags 0), (Z.testbit flags 1), (Z.testbit flags 2); repeat split; vm_compute; done.
Qed.
