(* ===== verification/AddressSpace.v ===== *)
(** * The address space of a process: [src/src/schedule/process.c], lines 67
    to 132, 215 to 287 and 336 to 379

    [process_memory_init] takes the stack, the heap area and the directory of
    a process from the kernel heap and maps the segments of its image, its
    metadata and its stack; [user_processes_struct_init] runs it for every
    process of the table and builds the first user stack and the first
    register frame.  Memory is the heap of [Kmalloc], the mapper is [Vmap],
    the stack layout and the frame are those of [Process].

    The theorems: the tables of the process translate exactly its regions,
    with their protections; and what the process finds at its first stack
    pointer, through those tables, is the layout the kernel wrote. *)

From S2P Require Import Prelude Memblock MemblockList MemblockArray MemblockRange MemblockFree.
From S2P Require Import MemblockSearch MemblockAlloc Loader CString CStringSpec Kmalloc PageTable PageTableMap.
From S2P Require Import Pte PtTree PteDesc Vmap VmapHeap VmapFold VmapSpec VSpace Process.

Definition PROCESS_DEFAULT_HEAP_SIZE : Z := 16 * PAGE_SIZE.
Definition PROCESS_DEFAULT_KERNEL_STACK_SIZE : Z := THREAD_SIZE.

Definition PGPROT_USER_RW : Z :=
  Z.lor (Z.lor (Z.lor (Z.lor (Z.lor (Z.lor PTE_SHARED PTE_AF) PTE_WRITE) PTE_PXN) PTE_UXN) PTE_USER) PTE_TYPE_PAGE.

(** [struct memory_struct], without the segments, which are in the record of
    the loader. *)
Record process_mm := mkPm {
  pm_map : memory_struct;
  pm_pg_dir_unaligned : Z;
  pm_stack : Z;
  pm_stack_size : Z;
  pm_heap : Z;
  pm_heap_size : Z;
}.

(** ** Mapping *)

(** The clean-up of [process_map_memory]: [mm->pgtable_mem], which the loop
    tests, is never advanced. *)
Fixpoint pgtable_clean_up (fuel : nat) (mm : memory_struct) (h : kheap) : outcome kheap :=
  match fuel with
  | O => Fuel
  | S fuel =>
      let mem := mm_pgtable_mem mm in
      if mem =? 0 then Done h
      else
        let! _ := pxd_get h (mem + 8) in
        let! virt := pxd_get h mem in
        let! h := kfree h virt in
        let! h := kfree h mem in
        pgtable_clean_up fuel mm h
  end.

Section Init.
Context (fuel : nat) (kimage_voffset : Z).

Definition virt_to_kimg_phys (x : Z) : Z := u64 (x - kimage_voffset).

Definition process_map_memory (mm : memory_struct) (h : kheap) (phys virt size pgprot : Z)
    : outcome (Z * memory_struct * kheap) :=
  let! (err, mm, h) := vmap_phys_range_noflush mm h phys virt size pgprot in
  if negb (err =? 0) then let! h := pgtable_clean_up fuel mm h in Done (err, mm, h)
  else Done (0, mm, h).

Definition process_map_rw (mm : memory_struct) (h : kheap) (phys virt size : Z)
    : outcome (Z * memory_struct * kheap) :=
  process_map_memory mm h phys virt size PGPROT_USER_RW.

Fixpoint process_map_segments (segs : list vmem_segment) (mm : memory_struct) (h : kheap)
    : outcome (Z * memory_struct * kheap) :=
  match segs with
  | [] => Done (0, mm, h)
  | s :: segs =>
      let pgprot := process_get_segment_pgprot (seg_flags s) in
      let! (err, mm, h) :=
        process_map_memory mm h (seg_pa s) (seg_va_start s) (u64 (seg_va_end s - seg_va_start s)) pgprot in
      if negb (err =? 0) then Done (err, mm, h) else process_map_segments segs mm h
  end.

Definition process_map_stack (stack stack_size : Z) (mm : memory_struct) (h : kheap)
    : outcome (Z * memory_struct * kheap) :=
  process_map_rw mm h (virt_to_phys stack) (u64 (PROCESS_STACK_TOP - stack_size)) stack_size.

Definition process_map_meta (img : process_image) (mm : memory_struct) (h : kheap)
    : outcome (Z * memory_struct * kheap) :=
  process_map_rw mm h (virt_to_kimg_phys (meta_data img)) PROCESS_META_START (ALIGN_UP (meta_size img) PAGE_SIZE).

(** ** One process *)

(** [memory_map_error] of [process_memory_init] and [release_mm_resource] of
    [user_processes_struct_init]: the address passed to [kfree] for the
    stack is the aligned one. *)
Definition release_mm_resource (pm : process_mm) (h : kheap) : outcome kheap :=
  let! m := memset (kh_mem h) (mm_pg_dir (pm_map pm)) 0 PAGE_SIZE in
  let! h := kfree (mkHeap (kh_mb h) m) (pm_heap pm) in
  kfree h (pm_stack pm).

Definition set_map (pm : process_mm) (mm : memory_struct) : process_mm :=
  mkPm mm (pm_pg_dir_unaligned pm) (pm_stack pm) (pm_stack_size pm) (pm_heap pm) (pm_heap_size pm).

(** The mappings of [process_memory_init], in order. *)
Definition process_map_all (p : process) (pm : process_mm) (h : kheap) : outcome (Z * memory_struct * kheap) :=
  let! (err, mm, h) := process_map_segments (p_segments p) (pm_map pm) h in
  if negb (err =? 0) then Done (err, mm, h)
  else
    let! (err, mm, h) := process_map_meta (p_image p) mm h in
    if negb (err =? 0) then Done (err, mm, h)
    else process_map_stack (pm_stack pm) (pm_stack_size pm) mm h.

Definition process_memory_init (p : process) (pm : process_mm) (h : kheap) : outcome (Z * process_mm * kheap) :=
  let! (got, h) := process_stack_alloc h (p_image p) in
  match got with
  | None => Done (- ENOMEM, mkPm (pm_map pm) (pm_pg_dir_unaligned pm) 0 (pm_stack_size pm) (pm_heap pm) (pm_heap_size pm), h)
  | Some (_, stack) =>
      let stack_size := process_stack_size (p_image p) in
      let! (heap, h) := kmalloc h PROCESS_DEFAULT_HEAP_SIZE true in
      if heap =? 0 then
        let! h := kfree h stack in
        Done (- ENOMEM, mkPm (pm_map pm) (pm_pg_dir_unaligned pm) stack stack_size 0 (pm_heap_size pm), h)
      else
        let! (dir, h) := kmalloc h PAGE_SIZE true in
        if dir =? 0 then
          let! h := kfree h heap in
          let! h := kfree h stack in
          Done (- ENOMEM, mkPm (pm_map pm) 0 stack stack_size heap PROCESS_DEFAULT_HEAP_SIZE, h)
        else
          let mm := mkMm (ALIGN_UP dir PAGE_SIZE) (mm_pgtable_mem (pm_map pm)) in
          let pm := mkPm mm dir stack stack_size heap PROCESS_DEFAULT_HEAP_SIZE in
          let! (err, mm, h) := process_map_all p pm h in
          let pm := set_map pm mm in
          if negb (err =? 0) then let! h := release_mm_resource pm h in Done (err, pm, h)
          else Done (0, pm, h)
  end.

(** The fields of [struct process_struct] set here; [ps_seg_recs] are the
    addresses of the records of the segments. *)
Record proc_struct := mkPs {
  ps_proc : process;
  ps_seg_recs : list Z;
  ps_mm : process_mm;
  ps_kernel_stack : Z;
  ps_sp : Z;
  ps_pid : Z;
}.

(** How the body of the loop of [user_processes_struct_init] ends. *)
Inductive setup_end := SetupDone | SetupReleaseMm | SetupDestroy.

Definition process_setup (ps : proc_struct) (max_pid : Z) (h : kheap)
    : outcome (setup_end * proc_struct * Z * kheap) :=
  let! (err, pm, h) := process_memory_init (ps_proc ps) (ps_mm ps) h in
  let ps := mkPs (ps_proc ps) (ps_seg_recs ps) pm (ps_kernel_stack ps) (ps_sp ps) (ps_pid ps) in
  let img := p_image (ps_proc ps) in
  if negb (err =? 0) then Done (SetupDestroy, ps, max_pid, h)
  else
    let! (err, used, m) := process_stack_init img (pm_stack pm) (pm_stack_size pm) (kh_mem h) in
    let h := mkHeap (kh_mb h) m in
    if negb (err =? 0) then Done (SetupReleaseMm, ps, max_pid, h)
    else
      let sp_el0 := PROCESS_STACK_TOP - used in
      let! (ks, h) := kzalloc h PROCESS_DEFAULT_KERNEL_STACK_SIZE in
      let ps := mkPs (ps_proc ps) (ps_seg_recs ps) pm ks (ps_sp ps) (ps_pid ps) in
      if ks =? 0 then Done (SetupReleaseMm, ps, max_pid, h)
      else
        let! (sp, m) := process_calculate_init_regval img ks sp_el0 (kh_mem h) in
        Done (SetupDone, mkPs (ps_proc ps) (ps_seg_recs ps) pm ks sp max_pid, s32 (max_pid + 1), mkHeap (kh_mb h) m).

(** ** All processes *)

(** The heap part of [process_destroy]: the records of the segments, then the
    process itself. *)
Fixpoint free_all (l : list Z) (h : kheap) : outcome kheap :=
  match l with
  | [] => Done h
  | a :: l => let! h := kfree h a in free_all l h
  end.

(** [g_processes] with its count, the records it points to, [max_pid]. *)
Record proc_table := mkPt {
  pt_slots : list Z;
  pt_count : Z;
  pt_procs : gmap Z proc_struct;
  pt_max_pid : Z;
}.

Definition destroy_process (t : proc_table) (proc : Z) (ps : proc_struct) (h : kheap) : outcome (proc_table * kheap) :=
  if proc =? 0 then Done (t, h)
  else
    let! h := free_all (ps_seg_recs ps ++ [proc]) h in
    let (slots, count) := process_destroy proc (pt_slots t) (pt_count t) in
    Done (mkPt slots count (delete proc (pt_procs t)) (pt_max_pid t), h).

(** The body of the loop for the process at [proc]. *)
Definition process_setup_at (t : proc_table) (proc : Z) (h : kheap) : outcome (proc_table * kheap) :=
  match pt_procs t !! proc with
  | None => Bug
  | Some ps =>
      let! (fin, ps, max_pid, h) := process_setup ps (pt_max_pid t) h in
      let t := mkPt (pt_slots t) (pt_count t) (<[proc := ps]> (pt_procs t)) max_pid in
      match fin with
      | SetupDone => Done (t, h)
      | SetupReleaseMm =>
          let! h := release_mm_resource (ps_mm ps) h in
          destroy_process t proc ps h
      | SetupDestroy => destroy_process t proc ps h
      end
  end.

(** [for_each_process]: the slot is read before the bound is tested, and the
    index advances after a removal too. *)
Fixpoint setup_loop (n : nat) (idx : nat) (t : proc_table) (h : kheap) : outcome (proc_table * kheap) :=
  match n with
  | O => Fuel
  | S n =>
      match pt_slots t !! idx with
      | None => Bug
      | Some proc =>
          if Z.of_nat idx <? pt_count t then
            let! (t, h) := process_setup_at t proc h in
            setup_loop n (S idx) t h
          else Done (t, h)
      end
  end.

Definition user_processes_struct_init (t : proc_table) (h : kheap) : outcome (proc_table * kheap) :=
  setup_loop (S (Z.to_nat PROCESS_MAX_COUNT)) 0 t h.

End Init.

(** ** The regions of a process *)

Definition seg_region (s : vmem_segment) : region_map :=
  mkRg (seg_va_start s) (seg_va_end s - seg_va_start s) (seg_pa s)
       (Z.ldiff (process_get_segment_pgprot (seg_flags s)) 3).

Definition RW_ATTR : Z := Z.ldiff PGPROT_USER_RW 3.

Definition meta_region (kimage_voffset : Z) (img : process_image) : region_map :=
  mkRg PROCESS_META_START (ALIGN_UP (meta_size img) PAGE_SIZE) (meta_data img - kimage_voffset) RW_ATTR.

Definition stack_region (img : process_image) (stack : Z) : region_map :=
  mkRg (PROCESS_STACK_TOP - process_stack_size img) (process_stack_size img) (virt_to_phys stack) RW_ATTR.

Definition process_regions (kimage_voffset : Z) (p : process) (stack : Z) : list region_map :=
  (seg_region <$> p_segments p) ++ [meta_region kimage_voffset (p_image p); stack_region (p_image p) stack].

(** Segments in their window, page-aligned, whole pages long and apart;
    metadata on a page of the kernel image; a stack of whole pages.  The
    loader keeps [p_vaddr + p_memsz] unrounded and accepts segments that
    overlap, so the first part is a condition on the program files. *)
Record layout_ok (kimage_voffset : Z) (p : process) : Prop := {
  lo_segs : Forall (fun s => vmap_call (seg_pa s) (seg_va_start s) (seg_va_end s - seg_va_start s)
                      /\ PROCESS_IMAGE_START <= seg_va_start s /\ seg_va_end s <= PROCESS_IMAGE_END) (p_segments p);
  lo_apart : rgs_apart (seg_region <$> p_segments p);
  lo_meta : let m := meta_data (p_image p) - kimage_voffset in
            m mod 4096 = 0 /\ 0 <= m < 2 ^ 47 /\ 0 < meta_size (p_image p) <= PROCESS_MAX_META_SIZE;
  lo_stack : 0 <= img_stack_size (p_image p) /\ img_stack_size (p_image p) mod 4096 = 0;
}.

(** Enough memory: the stack, the heap area, the directory, the tables. *)
Definition process_supply (p : process) (mb : memblock) : option memblock :=
  mb1 ← mb_take (process_stack_size (p_image p)) mb;
  mb2 ← mb_take PROCESS_DEFAULT_HEAP_SIZE mb1;
  mb_take PAGE_SIZE mb2.

Definition process_tables (p : process) : nat := rgs_need (process_regions 0 p 0).

Lemma process_tables_eq kv p stack : rgs_need (process_regions kv p stack) = process_tables p.
Proof.
  unfold process_tables, rgs_need, process_regions. by rewrite !sum_list_with_app.
Qed.

(** ** Protections *)

Lemma segment_attr flags :
  let prot := process_get_segment_pgprot flags in
  Z.lor (Z.ldiff prot 3) 3 = prot /\ page_attr (Z.ldiff prot 3).
Proof.
  unfold process_get_segment_pgprot.
  destruct (Z.land flags PF_X =? 0), (Z.land flags PF_W =? 0), (Z.land flags PF_R =? 0); cbn [negb].
  all: split; [reflexivity |]; split; try (vm_compute; done).
  all: try (split; vm_compute; done).
  all: intros i Hi; simpl in Hi; repeat destruct Hi as [<- | Hi]; done.
Qed.

Lemma rw_attr : Z.lor RW_ATTR 3 = PGPROT_USER_RW /\ page_attr RW_ATTR.
Proof.
  split; [reflexivity |]. split; try (vm_compute; done); try (split; vm_compute; done).
  intros i Hi; simpl in Hi; repeat destruct Hi as [<- | Hi]; done.
Qed.

Lemma stack_size_range img :
  0 <= img_stack_size img -> img_stack_size img mod 4096 = 0 ->
  4096 <= process_stack_size img <= 65536 /\ process_stack_size img mod 4096 = 0.
Proof.
  intros H0 Hm. unfold process_stack_size, PROCESS_MAX_STACK_SIZE, PROCESS_DEFAULT_STACK_SIZE, PAGE_SIZE.
  destruct (Z.ltb_spec (16 * 4096) (img_stack_size img)); [done |].
  destruct (Z.eqb_spec (img_stack_size img) 0); [done |].
  split; [| done]. pose proof (Z.div_mod (img_stack_size img) 4096 ltac:(lia)). lia.
Qed.

Lemma meta_size_range kv p : layout_ok kv p ->
  let n := ALIGN_UP (meta_size (p_image p)) PAGE_SIZE in 0 < n <= SZ_1G /\ n mod 4096 = 0.
Proof.
  intros [_ _ (_ & _ & Hs) _] n. unfold PROCESS_MAX_META_SIZE in Hs.
  destruct (ALIGN_UP_spec (meta_size (p_image p)) PAGE_SIZE is_pow2_PAGE_SIZE) as [M B];
    unfold PAGE_SIZE in *; [lia | lia |]. unfold n, SZ_1G. split; [lia | done].
Qed.

(** The regions can be mapped one after the other. *)
Lemma regions_ok kv p stack :
  layout_ok kv p -> virt_to_phys stack mod 4096 = 0 -> 0 <= virt_to_phys stack < 2 ^ 47 ->
  Forall rg_ok (process_regions kv p stack) /\ rgs_apart (process_regions kv p stack).
Proof.
  intros Hl Hp Hr. pose proof (meta_size_range kv p Hl) as [M1 M2].
  pose proof Hl as [Hs Ha (Hm1 & Hm2 & _) [Hk1 Hk2]].
  destruct (stack_size_range (p_image p) Hk1 Hk2) as [S1 S2].
  unfold PROCESS_IMAGE_END, PROCESS_IMAGE_START, SZ_1G in *.
  assert (Htop : PROCESS_STACK_TOP = 0x4200000000 - 0x40000000) by reflexivity.
  assert (Hmeta : PROCESS_META_START = 0x140000000) by reflexivity.
  assert (Hok : Forall (fun s => rg_ok (seg_region s)) (p_segments p)).
  { eapply Forall_impl; [exact Hs |]. intros s [Hc _]. split; [exact Hc | apply segment_attr]. }
  assert (Hdir : PGDIR_SIZE = 0x8000000000) by reflexivity.
  split.
  - apply Forall_app. split; [by apply Forall_fmap |].
    repeat constructor; cbn [rg_va rg_size rg_pa rg_attr meta_region stack_region]; try apply rw_attr; try done; try lia.
    rewrite Htop, Zminus_mod, S2. reflexivity.
  - clear Hok. revert Hs Ha. unfold process_regions. induction (p_segments p) as [|s segs IH]; intros Hs Ha.
    + cbn [fmap list_fmap app rgs_apart]. repeat constructor.
      unfold rg_apart. cbn [rg_va rg_size meta_region stack_region]. lia.
    + apply Forall_cons in Hs as [[Hc Hw] Hs]. destruct Ha as [Ha1 Ha2]. cbn [fmap list_fmap app rgs_apart].
      split; [| by apply IH]. apply Forall_app. split; [done |].
      repeat apply Forall_cons_2; [| | constructor]; unfold rg_apart;
        cbn [rg_va rg_size meta_region stack_region seg_region]; lia.
Qed.

(** ** Allocations *)

(** An allocation away from tables: its block was free and is live. *)
Record took (h : kheap) (size : Z) (zero : bool) (pa : Z) (h' : kheap) : Prop := {
  tk_step : hstep ∅ h ∅ h';
  tk_range : 0 <= pa /\ pa + 16 + kmalloc_buf_size size <= 2 ^ 47;
  tk_align : pa mod 64 = 0;
  tk_free : forall a, block pa (16 + kmalloc_buf_size size) a ->
    covers (memory (kh_mb h)) a /\ ~ covers (reserved (kh_mb h)) a /\ covers (reserved (kh_mb h')) a;
  tk_zero : zero = true -> forall a, block (pa + 16) (kmalloc_buf_size size) a ->
    kh_mem h' !! (a + LINER_MAP_OFFSET) = Some 0;
}.

Lemma no_tables h : heap_ok h -> tabs_ok ∅ h.
Proof. intros Hh. split; [done |]. intros b x a Hb. by rewrite lookup_empty in Hb. Qed.

Lemma kmalloc_took h size zero mb' :
  heap_ok h -> 0 < size < 2 ^ 31 -> mb_take size (kh_mb h) = Some mb' ->
  exists pa h', kmalloc h size zero = Done (pa + 16 + LINER_MAP_OFFSET, h') /\ kh_mb h' = mb'
    /\ took h size zero pa h'.
Proof.
  intros Hh Hs Ht.
  destruct (kmalloc_taken h size zero mb' Hh Hs Ht)
    as (pa & h' & E & Hh' & Emb & P1 & P2 & P3 & Hfree & Hmem & Hres & Hzero & Hout).
  unfold REGION_HDR in *. exists pa, h'. split; [rewrite E; do 2 f_equal; lia |]. split; [done |]. split.
  - split; [by apply no_tables | done | done | | done | |].
    + intros a Ha. apply Hres. by left.
    + intros a Ha _. apply Hout. intros Hb. apply (Hfree a); [unfold block in *; lia | done].
    + intros a Ha. apply Hout. intros Hb. apply Ha, (Hfree a). unfold block in *. lia.
  - lia.
  - exact P3.
  - intros a Ha. destruct (Hfree a Ha). split; [done |]. split; [done |]. apply Hres. by right.
  - intros Hz a Ha. apply (Hzero Hz). unfold block in *. lia.
Qed.

(** A new directory is an empty space. *)
Lemma new_directory h mb' pgm :
  heap_ok h -> 0 <= pgm < 2 ^ 64 -> mb_take PAGE_SIZE (kh_mb h) = Some mb' ->
  exists root dir h', kmalloc h PAGE_SIZE true = Done (dir, h') /\ dir <> 0 /\ kh_mb h' = mb'
    /\ ALIGN_UP dir PAGE_SIZE = root + LINER_MAP_OFFSET
    /\ hstep ∅ h {[root := (3%nat, 0)]} h'
    /\ forall todo, supply (rgs_need todo) mb' ->
         shows {[root := (3%nat, 0)]} root (mkMm (root + LINER_MAP_OFFSET) pgm) h' [] todo.
Proof.
  intros Hh Hpg Ht. pose proof OFFSET_VAL as Ho.
  destruct (kmalloc_took h PAGE_SIZE true mb' Hh ltac:(done) Ht) as (pa & h' & E & Emb & [S R A F Z0]).
  change (kmalloc_buf_size PAGE_SIZE) with 8192 in *. specialize (Z0 eq_refl).
  destruct (page_in_spec pa ltac:(lia) A) as (A1 & A2 & A3). set (root := page_in pa) in *.
  assert (Hin : forall a, in_page root a -> block (pa + 16) 8192 a) by (intros a; unfold in_page, block; lia).
  assert (Hblk : forall a, in_page root a -> block pa (16 + 8192) a) by (intros a; unfold in_page, block; lia).
  assert (Hz : forall i, 0 <= i < 512 -> wd h' (root + 8 * i) = 0).
  { intros i Hi. apply wd_zero. intros q Hq. apply Z0, Hin. unfold in_page. lia. }
  assert (Hone : forall b x, ({[root := (3%nat, 0)]} : tables) !! b = Some x -> b = root /\ x = (3%nat, 0)).
  { intros b x Hb. by apply lookup_singleton_Some in Hb as [-> ->]. }
  pose proof S as [[Hh' _] _ Hmem Hlive _ Hframe Hother].
  assert (Htabs : tabs_ok {[root := (3%nat, 0)]} h').
  { split; [done |]. intros b x a [-> _]%Hone Ha. destruct (F a (Hblk a Ha)) as (F1 & _ & F3).
    split; [by apply Hmem | done]. }
  assert (Htree : tree {[root := (3%nat, 0)]} (wd h')).
  { split.
    - intros b k p [-> _]%Hone. lia.
    - intros b1 b2 x [-> _]%Hone [-> _]%Hone. done.
    - intros b k p i [-> _]%Hone Hi _. by apply Hz.
    - intros b k p i [-> _]%Hone Hi. rewrite Hz by done. by rewrite Z.bits_0.
    - intros b k q [_ [= -> ->]]%Hone. lia.
    - intros b p i [-> _]%Hone Hi. left. by apply Hz. }
  exists root, (pa + 16 + LINER_MAP_OFFSET), h'.
  split; [exact E |]. split; [lia |]. split; [done |]. split.
  { unfold root, page_in, REGION_HDR. replace (pa + 16 + LINER_MAP_OFFSET) with (pa + LINER_MAP_OFFSET + 16) by lia. lia. }
  split.
  { split; [done | by intros b x Hb; rewrite lookup_empty in Hb | done | done | | | done].
    - intros b x a [-> _]%Hone _ Ha. by apply (F a), Hblk.
    - intros a Ha _. apply Hframe; [done |]. intros b x Hb. by rewrite lookup_empty in Hb. }
  intros todo Hsup. split.
  - split; [split; [exact Htree | exact Htabs | exact Hpg] | by apply lookup_singleton_eq | done].
  - intros v Hv. apply twalk_zero, Hz, lindex_range.
  - apply Forall_true. intros g b k p i [-> _]%Hone _ Hi _. rewrite Hz by done. by rewrite Z.bits_0.
  - by rewrite Emb.
Qed.

(** ** The mappings *)

Section Ready.
Context (fuel : nat) (kv : Z).

Lemma map_memory_ok T root mm h l g todo :
  shows T root mm h l (g :: todo) -> Forall rg_ok (g :: todo) -> rgs_apart (g :: todo) ->
  exists T' mm' h',
    process_map_memory fuel mm h (rg_pa g) (rg_va g) (rg_size g) (Z.lor (rg_attr g) 3) = Done (0, mm', h')
    /\ shows T' root mm' h' (l ++ [g]) todo /\ grew T h (rgs_need [g]) T' h'.
Proof.
  intros Hs Hok [Ha _]. apply Forall_cons in Hok as [Hg Hok].
  destruct (map_region T root mm h l g todo Hs Hg Hok Ha) as (T' & mm' & h' & E & H).
  exists T', mm', h'. unfold process_map_memory. rewrite E. done.
Qed.

Lemma rgs_apart_tail g l : rgs_apart (g :: l) -> rgs_apart l.
Proof. by intros [_ H]. Qed.

Lemma map_segments_ok segs rest : forall T root mm h l,
  shows T root mm h l ((seg_region <$> segs) ++ rest) ->
  Forall rg_ok ((seg_region <$> segs) ++ rest) -> rgs_apart ((seg_region <$> segs) ++ rest) ->
  exists T' mm' h', process_map_segments fuel segs mm h = Done (0, mm', h')
    /\ shows T' root mm' h' (l ++ (seg_region <$> segs)) rest
    /\ grew T h (rgs_need (seg_region <$> segs)) T' h'.
Proof.
  induction segs as [|s segs IH]; intros T root mm h l Hs Hok Ha; cbn [fmap list_fmap app process_map_segments] in *.
  - exists T, mm, h. rewrite app_nil_r. split; [done |]. split; [done |]. apply grew_refl, Hs.
  - destruct (map_memory_ok T root mm h l _ _ Hs Hok Ha) as (T1 & mm1 & h1 & E & Hs1 & H1).
    apply Forall_cons in Hok as [Hg Hok]. cbn [rg_pa rg_va rg_size rg_attr seg_region] in E.
    destruct Hg as [[_ C4 C5 _] _]. cbn [rg_va rg_size seg_region] in *. unfold PGDIR_SIZE, PGDIR_SHIFT in *.
    rewrite u64_small by lia. rewrite (proj1 (segment_attr (seg_flags s))) in E. rewrite E. cbn [obind].
    change (0 =? 0) with true. cbn [negb].
    destruct (IH T1 root mm1 h1 _ Hs1 Hok (rgs_apart_tail _ _ Ha)) as (T2 & mm2 & h2 & E2 & Hs2 & H2).
    exists T2, mm2, h2. split; [done |]. rewrite <- app_assoc in Hs2. split; [exact Hs2 |].
    pose proof (grew_trans _ _ _ _ _ _ _ _ H1 H2) as Hg. by rewrite <- rgs_need_app in Hg.
Qed.

Lemma map_all_ok p pm T root h :
  layout_ok kv p -> pm_stack_size pm = process_stack_size (p_image p) ->
  virt_to_phys (pm_stack pm) mod 4096 = 0 -> 0 <= virt_to_phys (pm_stack pm) < 2 ^ 47 ->
  shows T root (pm_map pm) h [] (process_regions kv p (pm_stack pm)) ->
  exists T' mm' h', process_map_all fuel kv p pm h = Done (0, mm', h')
    /\ shows T' root mm' h' (process_regions kv p (pm_stack pm)) []
    /\ grew T h (process_tables p) T' h'.
Proof.
  intros Hl Hsz Hp Hr Hs. destruct (regions_ok kv p (pm_stack pm) Hl Hp Hr) as [Hok Ha].
  destruct (map_segments_ok _ _ _ _ _ _ _ Hs Hok Ha) as (T1 & mm1 & h1 & E1 & Hs1 & H1).
  unfold process_map_all. rewrite E1. cbn [obind]. change (0 =? 0) with true. cbn [negb].
  assert (Hrest : Forall rg_ok [meta_region kv (p_image p); stack_region (p_image p) (pm_stack pm)]
    /\ rgs_apart [meta_region kv (p_image p); stack_region (p_image p) (pm_stack pm)]).
  { unfold process_regions in *. apply Forall_app in Hok as [_ Hok]. split; [done |].
    clear -Ha. induction (seg_region <$> p_segments p) as [|g l IH]; [exact Ha | by apply IH, (rgs_apart_tail g)]. }
  destruct Hrest as [Hok1 Ha1].
  destruct (map_memory_ok T1 root mm1 h1 _ _ _ Hs1 Hok1 Ha1) as (T2 & mm2 & h2 & E2 & Hs2 & H2).
  destruct rw_attr as [Erw _]. destruct (lo_meta _ _ Hl) as (_ & Hm & _).
  unfold process_map_meta, process_map_rw, virt_to_kimg_phys. rewrite u64_small by lia.
  cbn [rg_pa rg_va rg_size rg_attr meta_region] in E2. rewrite Erw in E2. rewrite E2. cbn [obind].
  change (0 =? 0) with true. cbn [negb].
  apply Forall_cons in Hok1 as [_ Hok2].
  destruct (map_memory_ok T2 root mm2 h2 _ _ _ Hs2 Hok2 (rgs_apart_tail _ _ Ha1)) as (T3 & mm3 & h3 & E3 & Hs3 & H3).
  unfold process_map_stack, process_map_rw. rewrite Hsz.
  cbn [rg_pa rg_va rg_size rg_attr stack_region] in E3. rewrite Erw in E3.
  destruct (stack_size_range (p_image p)) as [S1 _]; [apply Hl .. |].
  rewrite u64_small by (change PROCESS_STACK_TOP with 0x41C0000000; lia). rewrite E3.
  exists T3, mm3, h3. split; [done |]. rewrite <- !app_assoc in Hs3. split; [exact Hs3 |].
  pose proof (grew_trans _ _ _ _ _ _ _ _ H1 (grew_trans _ _ _ _ _ _ _ _ H2 H3)) as Hg.
  rewrite <- (process_tables_eq kv p (pm_stack pm)). by rewrite <- !rgs_need_app in Hg.
Qed.

(** What [process_memory_init] leaves: tables that translate exactly the
    regions, a zeroed stack of the process's own, and every byte that was
    live as it was. *)
Record mem_ready (p : process) (h : kheap) (T : tables) (root : Z) (pm : process_mm) (h' : kheap) : Prop := {
  mr_shows : shows T root (pm_map pm) h' (process_regions kv p (pm_stack pm)) [];
  mr_step : hstep ∅ h T h';
  mr_size : pm_stack_size pm = process_stack_size (p_image p);
  mr_stack : exists pa, pm_stack pm = pa + LINER_MAP_OFFSET /\ pa mod 4096 = 0
    /\ 0 <= pa /\ pa + process_stack_size (p_image p) <= 2 ^ 47
    /\ forall a, block pa (process_stack_size (p_image p)) a ->
         covers (memory (kh_mb h')) a /\ ~ covers (reserved (kh_mb h)) a /\ covers (reserved (kh_mb h')) a
         /\ kh_mem h' !! (a + LINER_MAP_OFFSET) = Some 0
         /\ forall b x, T !! b = Some x -> ~ in_page b a;
  mr_takes : exists j mb, (j <= process_tables p)%nat /\ process_supply p (kh_mb h) = Some mb
    /\ takes j mb = Some (kh_mb h');
}.

Lemma process_memory_init_spec p pm0 h mb :
  heap_ok h -> layout_ok kv p -> 0 <= mm_pgtable_mem (pm_map pm0) < 2 ^ 64 ->
  process_supply p (kh_mb h) = Some mb -> supply (process_tables p) mb ->
  exists T root pm h', process_memory_init fuel kv p pm0 h = Done (0, pm, h') /\ mem_ready p h T root pm h'.
Proof.
  intros Hh Hl Hpg Hsup Htab. pose proof OFFSET_VAL as Ho. set (img := p_image p) in *.
  destruct (stack_size_range img) as [S1 S2]; [apply Hl .. |].
  assert (Hheap : kmalloc_buf_size PROCESS_DEFAULT_HEAP_SIZE = 0x20000) by reflexivity.
  pose proof Hsup as Hs. unfold process_supply in Hs. fold img in Hs. set (size := process_stack_size img) in *.
  destruct (mb_take size (kh_mb h)) as [mb1|] eqn:E1; [| done]. cbn in Hs.
  destruct (mb_take PROCESS_DEFAULT_HEAP_SIZE mb1) as [mb2|] eqn:E2; [| done]. cbn in Hs. rename Hs into E3.
  destruct (kmalloc_took h size true mb1 Hh ltac:(lia) E1) as (pa1 & h1 & K1 & M1 & [H1 R1 A1 F1 Z1]).
  rewrite <- M1 in E2.
  destruct (kmalloc_took h1 PROCESS_DEFAULT_HEAP_SIZE true mb2 (to_heap _ _ (hs_tabs _ _ _ _ H1)) ltac:(done) E2)
    as (pa2 & h2 & K2 & M2 & [H2 R2 _ _ _]).
  rewrite <- M2 in E3.
  destruct (new_directory h2 mb (mm_pgtable_mem (pm_map pm0)) (to_heap _ _ (hs_tabs _ _ _ _ H2)) Hpg E3)
    as (root & dir & h3 & K3 & Hd & M3 & Adir & H3 & Hshow).
  assert (Hbuf : size + 4096 <= kmalloc_buf_size size).
  { rewrite kmalloc_buf_size_spec by lia. pose proof (kmalloc_align_spec size ltac:(lia)). lia. }
  pose proof (page_in_spec pa1 ltac:(lia) A1) as (_ & P1 & P2). set (st := page_in pa1) in *.
  assert (Hst : ALIGN_UP (pa1 + 16 + LINER_MAP_OFFSET) PAGE_SIZE = st + LINER_MAP_OFFSET).
  { unfold st, page_in, REGION_HDR. rewrite <- (Z.add_assoc pa1 16), (Z.add_comm 16), Z.add_assoc. lia. }
  assert (Hph : virt_to_phys (st + LINER_MAP_OFFSET) = st) by (apply virt_to_phys_linear; lia).
  set (pm := mkPm (mkMm (root + LINER_MAP_OFFSET) (mm_pgtable_mem (pm_map pm0))) dir (st + LINER_MAP_OFFSET)
               size (pa2 + 16 + LINER_MAP_OFFSET) PROCESS_DEFAULT_HEAP_SIZE).
  destruct (map_all_ok p pm {[root := (3%nat, 0)]} root h3 Hl eq_refl) as (T & mm' & h' & E & Hsh & [Hg (j & Hj & Htk)]).
  { cbn [pm pm_stack]. by rewrite Hph. }
  { cbn [pm pm_stack]. rewrite Hph. lia. }
  { apply Hshow. by rewrite process_tables_eq. }
  assert (H14 : hstep ∅ h1 T h').
  { eapply hstep_trans; [exact H2 |]. eapply hstep_trans; [exact H3 | exact Hg]. }
  exists T, root, (set_map pm mm'), h'. split.
  { unfold process_memory_init, process_stack_alloc. fold img. fold size. rewrite K1. cbn [obind].
    rewrite (proj2 (Z.eqb_neq _ 0)) by lia. cbn [obind]. rewrite K2. cbn [obind].
    rewrite (proj2 (Z.eqb_neq _ 0)) by lia. rewrite K3. cbn [obind]. rewrite (proj2 (Z.eqb_neq dir 0)) by done.
    rewrite Hst, Adir. fold pm. rewrite E. cbn [obind]. reflexivity. }
  split.
  - exact Hsh.
  - by eapply hstep_trans.
  - done.
  - exists st. split; [done |]. split; [done |]. split; [lia |]. split; [fold img; fold size; lia |].
    intros a Ha. fold img in Ha. fold size in Ha.
    assert (Hb : block pa1 (16 + kmalloc_buf_size size) a) by (unfold block in *; lia).
    destruct (F1 a Hb) as (G1 & G2 & G3).
    split; [by apply (hs_memory _ _ _ _ H14), (hs_memory _ _ _ _ H1) |]. split; [done |].
    split; [by apply (hs_live _ _ _ _ H14) |]. split.
    + rewrite (hs_frame _ _ _ _ H14 a G3) by (intros b x Hx; by rewrite lookup_empty in Hx).
      apply (Z1 eq_refl). unfold block in *. lia.
    + intros b x Hx Hp. by apply (hs_new _ _ _ _ H14 b x a Hx (lookup_empty b) Hp).
  - exists j, mb. split; [done |]. split; [done |]. by rewrite <- M3.
Qed.

(** ** The start of a process *)

(** What the process reads at a user address. *)
Definition user_byte (h : kheap) (root va : Z) : option Z :=
  match twalk 3 (wd h) root va with
  | Some (pa, _) => kh_mem h !! (pa + LINER_MAP_OFFSET)
  | None => None
  end.

(** The bytes of the initial stack: the words, the auxiliary vector, and
    zeros up to the top. *)
Definition stack_bytes (img : process_image) (es : list (list Z)) : list Z :=
  words (stack_words img) ++ concat es
  ++ replicate (Z.to_nat (calculate_stack_meta_size img - 8 * len (stack_words img) - 16 * len (img_auxv img))) 0.

(** The arguments are consistent and fit the stack; the entries of the
    auxiliary vector are in memory that the allocator does not manage. *)
Record args_ok (p : process) (h : kheap) (es : list (list Z)) : Prop := {
  ao_argc : img_argc (p_image p) = len (img_argv (p_image p)) /\ len (img_argv (p_image p)) <= 128;
  ao_env : img_env_count (p_image p) = len (img_env (p_image p)) /\ len (img_env (p_image p)) <= 128;
  ao_auxv : img_auxv_count (p_image p) = len (img_auxv (p_image p)) /\ len (img_auxv (p_image p)) <= 128;
  ao_fits : calculate_stack_meta_size (p_image p) <= process_stack_size (p_image p);
  ao_entry : 0 <= entry_point (p_image p) < 2 ^ 64;
  ao_entries : Forall2 (fun q e => cells (kh_mem h) q e /\ byte_list e /\ len e = 16
    /\ forall a, q <= a < q + 16 -> ~ covers (memory (kh_mb h)) (a - LINER_MAP_OFFSET)) (img_auxv (p_image p)) es;
}.

Lemma stack_ready p h T root pm h1 es :
  layout_ok kv p -> args_ok p h es -> mem_ready p h T root pm h1 ->
  stack_ok (p_image p) (pm_stack pm) (pm_stack_size pm) (kh_mem h1) es.
Proof.
  intros Hl [A1 A2 A3 A4 A5 A6] [_ Hst Hsz (pa & -> & P1 & P2 & P3 & Hown) _]. rewrite Hsz.
  destruct (stack_size_range (p_image p)) as [S1 S2]; [apply Hl .. |].
  set (size := process_stack_size (p_image p)) in *.
  split; try done.
  - assert (Ho : LINER_MAP_OFFSET = 16 * (LINER_MAP_OFFSET / 16)) by reflexivity.
    pose proof (Z.div_mod pa 4096 ltac:(lia)). pose proof (Z.div_mod size 4096 ltac:(lia)).
    replace (pa + LINER_MAP_OFFSET + size)
      with ((256 * (pa / 4096) + LINER_MAP_OFFSET / 16 + 256 * (size / 4096)) * 16) by lia.
    apply Z.mod_mul. lia.
  - intros q Hq. replace q with (q - LINER_MAP_OFFSET + LINER_MAP_OFFSET) by lia.
    destruct (Hown (q - LINER_MAP_OFFSET)) as (_ & _ & _ & E & _); [unfold block; lia |]. rewrite E. done.
  - eapply Forall2_impl; [exact A6 |]. intros q e (Q1 & Q2 & Q3 & Q4). split; [| split; [done |]; split; [done |]].
    + intros i x Hi. rewrite <- (Q1 i x Hi). pose proof (lookup_lt_Some _ _ _ Hi).
      replace (q + Z.of_nat i) with (q + Z.of_nat i - LINER_MAP_OFFSET + LINER_MAP_OFFSET) by lia.
      apply (hs_out _ _ _ _ Hst). apply Q4. lia.
    + destruct (decide (q + 16 <= pa + LINER_MAP_OFFSET \/ pa + LINER_MAP_OFFSET + size <= q)) as [| Hin]; [done |].
      exfalso. set (a := Z.max q (pa + LINER_MAP_OFFSET)).
      apply (Q4 a); [lia |]. apply (hs_memory _ _ _ _ Hst), Hown. unfold block. lia.
Qed.

Lemma walk_same T r r' root v :
  tree T r -> T !! root = Some (3%nat, 0) -> 0 <= v < 2 ^ 48 ->
  (forall b x i, T !! b = Some x -> 0 <= i < 512 -> r' (b + 8 * i) = r (b + 8 * i)) ->
  twalk 3 r' root v = twalk 3 r root v.
Proof.
  intros Ht Hroot Hv Hsame. apply (equiv_twalk T r r'); [| done |].
  - intros c k q i Hc Hi. left. symmetry. by apply (Hsame c (k, q)).
  - by rewrite (Z.div_small v (lsize 4)) by (change (lsize 4) with (2 ^ 48); lia).
Qed.

(** A process that is set up, in the heap [h]: its tables, its stack as the
    process reads it, its first registers, all in memory that is live. *)
Record live_proc (p : process) (es : list (list Z)) (pid : Z) (T : tables) (root : Z)
    (ps : proc_struct) (h : kheap) : Prop := {
  lv_tabs : tabs_ok T h;
  lv_tree : tree T (wd h) /\ T !! root = Some (3%nat, 0);
  lv_dir : mm_pg_dir (pm_map (ps_mm ps)) = root + LINER_MAP_OFFSET;
  lv_walk : forall v, 0 <= v < 2 ^ 48 ->
    twalk 3 (wd h) root v = region_at (process_regions kv p (pm_stack (ps_mm ps))) v;
  lv_own : forall a, block (virt_to_phys (pm_stack (ps_mm ps))) (process_stack_size (p_image p)) a ->
    covers (reserved (kh_mb h)) a;
  lv_fits : len (stack_bytes (p_image p) es) = calculate_stack_meta_size (p_image p)
    /\ calculate_stack_meta_size (p_image p) <= process_stack_size (p_image p) <= 65536;
  lv_stack : let sp := PROCESS_STACK_TOP - calculate_stack_meta_size (p_image p) in
    sp mod 16 = 0 /\ ld64 (kh_mem h) (ps_sp ps + 8 * 31) = Done sp
    /\ forall i x, stack_bytes (p_image p) es !! i = Some x -> user_byte h root (sp + Z.of_nat i) = Some x;
  lv_frame : forall a, block (ps_sp ps) sizeof_user_pt_regs (a + LINER_MAP_OFFSET) -> covers (reserved (kh_mb h)) a;
  lv_regs : (forall i, 0 <= i < 31 -> ld64 (kh_mem h) (ps_sp ps + 8 * i) = Done 0)
    /\ ld64 (kh_mem h) (ps_sp ps + 8 * 32) = Done (entry_point (p_image p))
    /\ ld64 (kh_mem h) (ps_sp ps + 8 * 33) = Done INIT_EL0_PSTATE;
  lv_pid : ps_proc ps = p /\ ps_pid ps = pid;
}.

(** From [h] to [h'] nothing live and nothing outside the managed memory has
    changed. *)
Record kept (h h' : kheap) : Prop := {
  kp_heap : heap_ok h';
  kp_memory : same_set (covers (memory (kh_mb h'))) (covers (memory (kh_mb h)));
  kp_live : forall a, covers (reserved (kh_mb h)) a -> covers (reserved (kh_mb h')) a;
  kp_same : forall a, covers (reserved (kh_mb h)) a \/ ~ covers (memory (kh_mb h)) a ->
    kh_mem h' !! (a + LINER_MAP_OFFSET) = kh_mem h !! (a + LINER_MAP_OFFSET);
}.

(** The memory of a process: its tables and its stack. *)
Definition own_memory (T : tables) (ps : proc_struct) (a : Z) : Prop :=
  (exists b x, T !! b = Some x /\ in_page b a)
  \/ block (virt_to_phys (pm_stack (ps_mm ps))) (process_stack_size (p_image (ps_proc ps))) a.

(** Room for the kernel stack after the tables, however many were needed. *)
Definition kernel_stack_supply (p : process) (mb : memblock) : Prop :=
  forall j mb', (j <= process_tables p)%nat -> takes j mb = Some mb' -> is_Some (mb_take THREAD_SIZE mb').

(** The region list at an address of the stack. *)
Lemma region_at_stack p stack v :
  layout_ok kv p -> PROCESS_STACK_TOP - process_stack_size (p_image p) <= v < PROCESS_STACK_TOP ->
  region_at (process_regions kv p stack) v
  = Some (virt_to_phys stack + (v - (PROCESS_STACK_TOP - process_stack_size (p_image p))), RW_ATTR).
Proof.
  intros Hl Hv. destruct (meta_size_range kv p Hl) as [M1 _]. pose proof Hl as [Hs _ _ [Hk1 Hk2]].
  destruct (stack_size_range (p_image p) Hk1 Hk2) as [S1 _].
  assert (Htop : PROCESS_STACK_TOP = 0x41C0000000) by reflexivity.
  assert (Hmeta : PROCESS_META_START = 0x140000000) by reflexivity.
  unfold PROCESS_IMAGE_END, PROCESS_IMAGE_START, SZ_1G in *. unfold process_regions.
  induction Hs as [|s segs [_ Hw] _ IH]; cbn [fmap list_fmap app region_at].
  - unfold rg_in. cbn [meta_region stack_region rg_va rg_size rg_pa rg_attr].
    rewrite (proj2 (Z.ltb_ge v _)), andb_false_r by lia.
    by rewrite (proj2 (Z.leb_le _ v)), (proj2 (Z.ltb_lt v _)) by lia.
  - unfold rg_in at 1. cbn [seg_region rg_va rg_size]. rewrite (proj2 (Z.ltb_ge v _)), andb_false_r by lia.
    exact IH.
Qed.

(** Writing the stack, taking the kernel stack and writing the frame change
    no live byte outside the stack. *)
Lemma frame_step T h1 st size sp l pa3 size3 h3 m4 fp :
  tabs_ok T h1 -> (forall a, block st size a -> covers (memory (kh_mb h1)) a) ->
  st + LINER_MAP_OFFSET <= sp -> sp + len l <= st + size + LINER_MAP_OFFSET ->
  took (mkHeap (kh_mb h1) (blit (kh_mem h1) sp l)) size3 true pa3 h3 ->
  pa3 + 16 <= fp -> fp + sizeof_user_pt_regs <= pa3 + 16 + kmalloc_buf_size size3 ->
  (forall a, a < fp + LINER_MAP_OFFSET \/ fp + LINER_MAP_OFFSET + sizeof_user_pt_regs <= a ->
     m4 !! a = kh_mem h3 !! a) ->
  (forall a, is_Some (kh_mem h3 !! a) -> is_Some (m4 !! a)) ->
  let h4 := mkHeap (kh_mb h3) m4 in
  heap_ok h4
  /\ same_set (covers (memory (kh_mb h4))) (covers (memory (kh_mb h1)))
  /\ (forall a, covers (reserved (kh_mb h1)) a -> covers (reserved (kh_mb h4)) a)
  /\ (forall a, covers (reserved (kh_mb h1)) a \/ ~ covers (memory (kh_mb h1)) a ->
        m4 !! (a + LINER_MAP_OFFSET) = blit (kh_mem h1) sp l !! (a + LINER_MAP_OFFSET)
        /\ (~ block st size a -> m4 !! (a + LINER_MAP_OFFSET) = kh_mem h1 !! (a + LINER_MAP_OFFSET))).
Proof.
  intros Htabs Hst Hlo Hhi [Hs R A F _] Hf1 Hf2 Hout Hsome h4. set (h2 := mkHeap _ _) in *.
  pose proof (to_heap _ _ (hs_tabs _ _ _ _ Hs)) as Hh3.
  split; [| split; [| split]].
  - apply (heap_ok_after h3); [done | apply Hh3 | done | done | done | done].
  - exact (hs_memory _ _ _ _ Hs).
  - exact (hs_live _ _ _ _ Hs).
  - intros a Ha.
    assert (E : m4 !! (a + LINER_MAP_OFFSET) = kh_mem h2 !! (a + LINER_MAP_OFFSET)).
    { rewrite Hout.
      - destruct Ha as [Ha | Ha]; [| by apply (hs_out _ _ _ _ Hs)].
        apply (hs_frame _ _ _ _ Hs a Ha). intros b x Hb. by rewrite lookup_empty in Hb.
      - unfold sizeof_user_pt_regs in *. destruct (decide (a < fp \/ fp + 272 <= a)); [lia |].
        exfalso. destruct (F a) as (F1 & F2 & _); [unfold block; lia |]. destruct Ha; done. }
    split; [exact E |]. intros Hb. rewrite E. cbn [h2 kh_mem]. apply blit_outside. unfold block in Hb. lia.
Qed.

Lemma process_setup_spec ps max_pid h mb es :
  let p := ps_proc ps in
  heap_ok h -> layout_ok kv p -> args_ok p h es -> 0 <= mm_pgtable_mem (pm_map (ps_mm ps)) < 2 ^ 64 ->
  process_supply p (kh_mb h) = Some mb -> supply (process_tables p) mb -> kernel_stack_supply p mb ->
  exists T root ps' h' j mb',
    process_setup fuel kv ps max_pid h = Done (SetupDone, ps', s32 (max_pid + 1), h')
    /\ live_proc p es max_pid T root ps' h' /\ kept h h'
    /\ (forall a, own_memory T ps' a -> ~ covers (reserved (kh_mb h)) a)
    /\ (j <= process_tables p)%nat /\ takes j mb = Some mb' /\ mb_take THREAD_SIZE mb' = Some (kh_mb h').
Proof.
  intros p Hh Hl Hargs Hpg Hsup Htab Hks.
  destruct (process_memory_init_spec p (ps_mm ps) h mb Hh Hl Hpg Hsup Htab) as (T & root & pm & h1 & E1 & Hr).
  pose proof (stack_ready p h T root pm h1 es Hl Hargs Hr) as Hok.
  destruct (stack_init_spec _ _ _ _ _ Hok) as (E2 & Lx & Hpad & Hsp16 & Hsp).
  pose proof Hargs as [[A1 A1'] [A2 A2'] [A3 A3'] A4 A5 _].
  pose proof Hr as [Hsh Hst Hsz (st & Est & P1 & P2 & P3 & Hown) (j & mb' & Hj & Hmb' & Htk)].
  rewrite Hsup in Hmb'. injection Hmb' as <-.
  set (img := p_image p) in *. set (used := calculate_stack_meta_size img) in *.
  rewrite Hsz, Est in *. set (size := process_stack_size img) in *.
  destruct (stack_size_range img) as [S1 S2]; [apply Hl .. |]. fold size in S1, S2.
  set (sp := st + LINER_MAP_OFFSET + size - used) in *.
  change (words _ ++ _) with (stack_bytes img es) in E2. set (m1 := blit (kh_mem h1) sp (stack_bytes img es)) in *.
  assert (Hlen : len (stack_bytes img es) = used).
  { unfold stack_bytes. rewrite !length_app, length_replicate.
    pose proof (len_words (stack_words img) ltac:(apply stack_words_range; lia)). lia. }
  destruct (Hks j (kh_mb h1) Hj Htk) as [mb3 E3].
  assert (Hh2 : heap_ok (mkHeap (kh_mb h1) m1)).
  { pose proof (to_heap _ _ (hs_tabs _ _ _ _ Hst)) as Hh1. apply (heap_ok_after h1); [done | apply Hh1 | done | done | done |].
    intros a. apply blit_is_Some. }
  destruct (kmalloc_took (mkHeap (kh_mb h1) m1) THREAD_SIZE true mb3 Hh2 ltac:(done) E3) as (pa3 & h3 & E4 & M3 & Htook).
  pose proof (tk_range _ _ _ _ _ Htook) as R3. change (kmalloc_buf_size THREAD_SIZE) with 32768 in R3.
  pose proof OFFSET_VAL as Ho. set (fp := pa3 + 16 + THREAD_SIZE - sizeof_user_pt_regs).
  assert (Efp : pa3 + 16 + LINER_MAP_OFFSET + THREAD_SIZE - sizeof_user_pt_regs = fp + LINER_MAP_OFFSET) by (unfold fp; lia).
  assert (Hfp : pa3 + 16 <= fp /\ fp + 272 <= pa3 + 16 + 32768).
  { unfold fp. change THREAD_SIZE with 16384. change sizeof_user_pt_regs with 272. lia. }
  destruct (init_regval_spec img (pa3 + 16 + LINER_MAP_OFFSET) (PROCESS_STACK_TOP - used) (kh_mem h3))
    as (m4 & E5 & Q1 & Q2 & Q3 & Q4 & Q5 & Q6).
  { done. } { change PROCESS_STACK_TOP with 0x41C0000000. lia. }
  { rewrite Efp. intros a Ha. replace a with (a - LINER_MAP_OFFSET + LINER_MAP_OFFSET) by lia.
    apply (ho_mapped _ (to_heap _ _ (hs_tabs _ _ _ _ (tk_step _ _ _ _ _ Htook)))).
    apply (hs_memory _ _ _ _ (tk_step _ _ _ _ _ Htook)), (tk_free _ _ _ _ _ Htook).
    change (kmalloc_buf_size THREAD_SIZE) with 32768. change sizeof_user_pt_regs with 272 in Ha. unfold block. lia. }
  rewrite Efp in *.
  destruct (frame_step T h1 st size sp (stack_bytes img es) pa3 THREAD_SIZE h3 m4 fp) as (Hh4 & Hm4 & Hres4 & Hlive);
    try done; try (unfold sp in *; lia).
  { apply Hst. } { intros a Ha. by apply Hown. }
  { change (kmalloc_buf_size THREAD_SIZE) with 32768. change sizeof_user_pt_regs with 272. lia. }
  set (h4 := mkHeap (kh_mb h3) m4) in *.
  pose proof Hsh as [[[Ht [Hh1 Htl] Hmm] Hroot Hdir] Hwalk _ _].
  assert (Hwd : forall b x i, T !! b = Some x -> 0 <= i < 512 -> wd h4 (b + 8 * i) = wd h1 (b + 8 * i)).
  { intros b x i Hb Hi. apply wd_ext. intros a Ha. assert (Hpage : in_page b a) by (unfold in_page; lia).
    apply (Hlive a); [left; by apply (Htl b x a) |]. intros Hbl. by apply (Hown a Hbl) in Hb. }
  assert (Hw4 : forall v, 0 <= v < 2 ^ 48 ->
    twalk 3 (wd h4) root v = region_at (process_regions kv p (st + LINER_MAP_OFFSET)) v).
  { intros v Hv. rewrite <- (Hwalk v Hv). by apply (walk_same T). }
  eexists T, root, _, h4, j, (kh_mb h1). split.
  { unfold process_setup. fold p. rewrite E1. cbn [obind]. change (0 =? 0) with true. cbn [negb ps_proc].
    fold p. fold img. rewrite Est, Hsz, E2. cbn [obind]. change (0 =? 0) with true. cbn [negb].
    unfold kzalloc. change PROCESS_DEFAULT_KERNEL_STACK_SIZE with THREAD_SIZE. rewrite E4. cbn [obind]. rewrite (proj2 (Z.eqb_neq _ 0)) by lia.
    rewrite E5. cbn [obind]. reflexivity. }
  split; [| split; [| split; [| split; [done |]; split; [done |]; cbn [h4 kh_mb]; congruence]]].
  - split; cbn [ps_mm ps_sp ps_pid ps_proc]; fold img; fold used.
    + split; [done |]. intros b x a Hb Ha. destruct (Htl b x a Hb Ha). split; [by apply Hm4 | by apply Hres4].
    + split; [| done]. apply (equiv_tree T (wd h1)); [| done].
      intros c k q i Hc Hi. left. symmetry. by apply (Hwd c (k, q)).
    + exact Hdir.
    + rewrite Est. exact Hw4.
    + rewrite Est, virt_to_phys_linear by lia. intros a Ha. by apply Hres4, Hown.
    + fold size. split; [exact Hlen | lia].
    + assert (Htop : PROCESS_STACK_TOP = 0x41C0000000) by reflexivity.
      split; [| split; [exact Q2 |]].
      * unfold used. rewrite Zminus_mod, (proj2 (stack_meta_size_spec img ltac:(lia) ltac:(lia) ltac:(lia))). reflexivity.
      * intros i x Hi. pose proof (lookup_lt_Some _ _ _ Hi). unfold user_byte.
        rewrite Hw4, region_at_stack by (fold img; fold size; lia || done). fold img. fold size.
        rewrite virt_to_phys_linear by lia.
        assert (Hb : block st size (st + (PROCESS_STACK_TOP - used + Z.of_nat i - (PROCESS_STACK_TOP - size)))).
        { unfold block, sp in *. lia. }
        destruct (Hlive _ (or_introl (proj1 (proj2 (proj2 (Hown _ Hb)))))) as (E & _). cbn [h4 kh_mem]. rewrite E.
        rewrite <- (cells_blit (kh_mem h1) sp _ i x Hi). f_equal. unfold sp. lia.
    + intros a Ha. apply (tk_free _ _ _ _ _ Htook). change (kmalloc_buf_size THREAD_SIZE) with 32768.
      change sizeof_user_pt_regs with 272 in Ha. unfold block in *. lia.
    + split; [exact Q1 |]. split; [exact Q3 | exact Q4].
    + done.
  - split; [done | by rewrite Hm4; apply Hst | intros a Ha; by apply Hres4, (hs_live _ _ _ _ Hst) |].
    intros a Ha. cbn [h4 kh_mem].
    assert (Ha1 : covers (reserved (kh_mb h1)) a \/ ~ covers (memory (kh_mb h1)) a).
    { destruct Ha as [Ha | Ha]; [left; by apply (hs_live _ _ _ _ Hst) | right]. by rewrite (hs_memory _ _ _ _ Hst a). }
    rewrite (proj2 (Hlive a Ha1)).
    + destruct Ha as [Ha | Ha]; [| by apply (hs_out _ _ _ _ Hst)].
      apply (hs_frame _ _ _ _ Hst a Ha). intros b x Hb. by rewrite lookup_empty in Hb.
    + intros Hb. destruct (Hown a Hb) as (C1 & C2 & _). destruct Ha as [Ha | Ha]; [done |].
      apply Ha. by apply (hs_memory _ _ _ _ Hst).
  - intros a [(b & x & Hb & Ha) | Ha].
    + apply (hs_new _ _ _ _ Hst b x a Hb (lookup_empty b) Ha).
    + cbn [ps_mm ps_proc] in Ha. rewrite Est, virt_to_phys_linear in Ha by lia. by apply Hown.
Qed.
End Ready.
