(* ===== verification/UserInit.v ===== *)
(** * All processes: [user_processes_struct_init]

    Every process of the table is set up in turn, each in memory that was
    free: the loop ends, each process has its address space, its stack and
    its registers in the final heap, and no two share a table or a stack. *)

From S2P Require Import Prelude Memblock MemblockList MemblockArray MemblockRange MemblockFree.
From S2P Require Import MemblockSearch MemblockAlloc Loader CString CStringSpec Kmalloc PageTable PageTableMap.
From S2P Require Import Pte PtTree PteDesc Vmap VmapHeap VmapFold VmapSpec VSpace Process AddressSpace.

Section All.
Context (fuel : nat) (kv : Z).

(** ** Later processes leave earlier ones alone *)

Lemma kept_refl h : heap_ok h -> kept h h.
Proof. by split. Qed.

Lemma kept_trans h1 h2 h3 : kept h1 h2 -> kept h2 h3 -> kept h1 h3.
Proof.
  intros [A1 A2 A3 A4] [B1 B2 B3 B4]. split; [done | by rewrite B2 | auto |].
  intros a Ha. rewrite B4, A4; [done | done |]. destruct Ha as [Ha | Ha]; [auto | right]. by rewrite (A2 a).
Qed.

Lemma kept_ld64 h h' a :
  kept h h' -> (forall q, a <= q < a + 8 -> covers (reserved (kh_mb h)) (q - LINER_MAP_OFFSET)) ->
  ld64 (kh_mem h') a = ld64 (kh_mem h) a.
Proof.
  intros Hk Ha. unfold ld64. apply (ld_le_ext 8). intros q Hq.
  replace q with (q - LINER_MAP_OFFSET + LINER_MAP_OFFSET) by lia. apply (kp_same _ _ Hk). left. apply Ha. lia.
Qed.

Lemma kept_wd T h h' b x i :
  tabs_ok T h -> kept h h' -> T !! b = Some x -> 0 <= i < 512 -> wd h' (b + 8 * i) = wd h (b + 8 * i).
Proof.
  intros [_ Hl] Hk Hb Hi. apply wd_ext. intros q Hq. apply (kp_same _ _ Hk). left.
  apply (Hl b x); [done | unfold in_page; lia].
Qed.

Lemma live_proc_kept p es pid T root ps h h' :
  layout_ok kv p -> live_proc kv p es pid T root ps h -> kept h h' -> live_proc kv p es pid T root ps h'.
Proof.
  intros Hl [L1 [L2 L2'] L3 L4 L5 [F1 F2] (L6 & L6' & L6'') L7 (L8 & L8' & L8'') L9] Hk.
  assert (Hw : forall v, 0 <= v < 2 ^ 48 -> twalk 3 (wd h') root v = twalk 3 (wd h) root v).
  { intros v Hv. apply (walk_same T); [done | done | done |]. intros b x i. by apply kept_wd. }
  assert (Hreg : forall i, 0 <= i < 34 -> ld64 (kh_mem h') (ps_sp ps + 8 * i) = ld64 (kh_mem h) (ps_sp ps + 8 * i)).
  { intros i Hi. apply kept_ld64; [done |]. intros q Hq. apply L7. rewrite Z.sub_add.
    unfold block, sizeof_user_pt_regs. lia. }
  split.
  - split; [apply Hk |]. intros b x a Hb Ha. destruct (to_live _ _ L1 b x a Hb Ha).
    split; [by apply (kp_memory _ _ Hk) | by apply (kp_live _ _ Hk)].
  - split; [| done]. apply (equiv_tree T (wd h)); [| done].
    intros c k q i Hc Hi. left. symmetry. by apply (kept_wd T h h' c (k, q)).
  - done.
  - intros v Hv. rewrite Hw by done. by apply L4.
  - intros a Ha. by apply (kp_live _ _ Hk), L5.
  - done.
  - split; [done |]. split; [by rewrite Hreg |]. intros i x Hi. specialize (L6'' i x Hi).
    unfold user_byte in *. set (v := _ + Z.of_nat i) in *.
    assert (Hv : PROCESS_STACK_TOP - process_stack_size (p_image p) <= v < PROCESS_STACK_TOP).
    { pose proof (lookup_lt_Some _ _ _ Hi). unfold v. lia. }
    assert (Hv48 : 0 <= v < 2 ^ 48) by (change PROCESS_STACK_TOP with 0x41C0000000 in *; lia).
    rewrite Hw, (L4 v Hv48), region_at_stack by done. rewrite (L4 v Hv48), region_at_stack in L6'' by done.
    rewrite (kp_same _ _ Hk); [done |]. left. apply L5. unfold block. lia.
  - intros a Ha. by apply (kp_live _ _ Hk), L7.
  - split; [intros i Hi; rewrite Hreg by lia; auto |]. by rewrite !Hreg.
  - done.
Qed.

(** ** The loop *)

(** A process to set up: its slot, its record, its auxiliary entries. *)
Record job := mkJob {
  jb_addr : Z;
  jb_ps : proc_struct;
  jb_es : list (list Z);
}.

Record job_ok (h : kheap) (j : job) : Prop := {
  jo_layout : layout_ok kv (ps_proc (jb_ps j));
  jo_args : args_ok (ps_proc (jb_ps j)) h (jb_es j);
  jo_mm : 0 <= mm_pgtable_mem (pm_map (ps_mm (jb_ps j))) < 2 ^ 64;
}.

(** Enough memory for all of them, whatever number of tables each takes. *)
Fixpoint plenty (l : list job) (mb : memblock) : Prop :=
  match l with
  | [] => True
  | j :: l =>
      let p := ps_proc (jb_ps j) in
      exists mb1, process_supply p mb = Some mb1 /\ supply (process_tables p) mb1 /\ kernel_stack_supply p mb1
        /\ forall n mb2 mb3, (n <= process_tables p)%nat -> takes n mb1 = Some mb2 ->
             mb_take THREAD_SIZE mb2 = Some mb3 -> plenty l mb3
  end.

(** The jobs are in the table from slot [idx] on. *)
Record in_table (l : list job) (idx : nat) (t : proc_table) : Prop := {
  it_slot : forall k j, l !! k = Some j ->
    pt_slots t !! (idx + k)%nat = Some (jb_addr j) /\ pt_procs t !! jb_addr j = Some (jb_ps j);
  it_dup : NoDup (jb_addr <$> l);
  it_count : pt_count t = Z.of_nat (idx + length l);
  it_max : (idx + length l < length (pt_slots t))%nat;
  it_pid : 0 <= pt_max_pid t /\ pt_max_pid t + Z.of_nat (length l) < 2 ^ 31;
}.

Lemma job_ok_kept h h' j : kept h h' -> job_ok h j -> job_ok h' j.
Proof.
  intros Hk [J1 [A1 A2 A3 A4 A5 A6] J3]. split; [done | | done]. split; try done.
  eapply Forall2_impl; [exact A6 |]. intros q e (Q1 & Q2 & Q3 & Q4).
  split; [| split; [done |]; split; [done |]].
  - intros i x Hi. rewrite <- (Q1 i x Hi). pose proof (lookup_lt_Some _ _ _ Hi).
    replace (q + Z.of_nat i) with (q + Z.of_nat i - LINER_MAP_OFFSET + LINER_MAP_OFFSET) by lia.
    apply (kp_same _ _ Hk). right. apply Q4. lia.
  - intros a Ha. rewrite (kp_memory _ _ Hk _). by apply Q4.
Qed.

Definition result : Type := tables * Z * proc_struct.

(** The result of a job, in the final heap. *)
Definition job_done (t : proc_table) (h : kheap) (pid : Z) (j : job) (r : result) : Prop :=
  let '(T, root, ps) := r in
  pt_procs t !! jb_addr j = Some ps /\ live_proc kv (ps_proc (jb_ps j)) (jb_es j) pid T root ps h.

Definition owns (r : result) (a : Z) : Prop := own_memory r.1.1 r.2 a.

Lemma own_reserved p es pid T root ps h a :
  live_proc kv p es pid T root ps h -> own_memory T ps a -> covers (reserved (kh_mb h)) a.
Proof.
  intros [L1 _ _ _ L5 _ _ _ _ [<- _]] [(b & x & Hb & Ha) | Ha]; [by apply (to_live _ _ L1 b x a) | by apply L5].
Qed.

Lemma setup_loop_ok l : forall n idx t h,
  heap_ok h -> Forall (job_ok h) l -> plenty l (kh_mb h) -> in_table l idx t -> (length l < n)%nat ->
  exists t' h' rs, setup_loop fuel kv n idx t h = Done (t', h') /\ kept h h'
    /\ pt_slots t' = pt_slots t /\ pt_count t' = pt_count t /\ length rs = length l
    /\ (forall a, a ∉ jb_addr <$> l -> pt_procs t' !! a = pt_procs t !! a)
    /\ (forall k j r, l !! k = Some j -> rs !! k = Some r -> job_done t' h' (pt_max_pid t + Z.of_nat k) j r)
    /\ (forall k r a, rs !! k = Some r -> owns r a -> ~ covers (reserved (kh_mb h)) a)
    /\ (forall i k r s a, (i < k)%nat -> rs !! i = Some r -> rs !! k = Some s -> owns r a -> ~ owns s a).
Proof.
  induction l as [|j l IH]; intros n idx t h Hh Hok Hpl Hit Hn; (destruct n as [|n]; [simpl in Hn; lia |]);
    cbn [setup_loop length] in *.
  - pose proof Hit as [I1 I2 I3 I4 I5]. rewrite Nat.add_0_r in *.
    destruct (lookup_lt_is_Some_2 (pt_slots t) idx I4) as [proc ->].
    rewrite I3, (proj2 (Z.ltb_ge _ _)) by lia. exists t, h, [].
    split; [done |]. split; [by apply kept_refl |]. do 4 (split; [done |]). done.
  - pose proof Hit as [I1 I2 I3 I4 I5]. destruct (I1 0%nat j eq_refl) as [S1 S2]. rewrite Nat.add_0_r in S1.
    apply Forall_cons in Hok as [[J1 J2 J3] Hok]. destruct Hpl as (mb1 & P1 & P2 & P3 & P4).
    cbn [length] in *. rewrite S1, I3, (proj2 (Z.ltb_lt _ _)) by lia.
    unfold process_setup_at. rewrite S2.
    destruct (process_setup_spec fuel kv (jb_ps j) (pt_max_pid t) h mb1 (jb_es j) Hh J1 J2 J3 P1 P2 P3)
      as (T & root & ps' & h1 & m & mb' & -> & Hlive & Hkept & Hnew & Hm & Htk & Hmb). cbn [obind].
    set (t1 := mkPt (pt_slots t) (pt_count t) (<[jb_addr j := ps']> (pt_procs t)) (s32 (pt_max_pid t + 1))).
    assert (Hpid : pt_max_pid t1 = pt_max_pid t + 1).
    { cbn [t1 pt_max_pid]. unfold s32. rewrite Z.mod_small by lia. lia. }
    apply NoDup_cons in I2 as [N1 N2].
    destruct (IH n (S idx) t1 h1) as (t' & h' & rs & E & K & R1 & R2 & R3 & R4 & R5 & R6 & R7).
    { apply Hkept. }
    { eapply Forall_impl; [exact Hok |]. intros x Hx. by eapply job_ok_kept. }
    { by apply (P4 m mb'). }
    { split; [| done | | cbn [t1 pt_slots]; lia |]; cbn [t1 pt_slots pt_procs pt_count]; [| lia | lia].
      intros k x Hx. destruct (I1 (S k) x Hx) as [T1 T2].
      replace (S idx + k)%nat with (idx + S k)%nat by lia. split; [done |]. rewrite lookup_insert_ne; [done |].
      intros Heq. apply N1. rewrite Heq. apply list_elem_of_fmap. exists x. split; [done |].
      by eapply list_elem_of_lookup_2. }
    { lia. }
    exists t', h', ((T, root, ps') :: rs). split; [exact E |]. split; [by eapply kept_trans |].
    split; [done |]. split; [rewrite R2; exact I3 |]. split; [cbn [length]; lia |].
    pose proof (kp_live _ _ Hkept) as Hres.
    split; [| split; [| split]].
    + intros a Ha. apply not_elem_of_cons in Ha as [Ha1 Ha2]. rewrite R4 by done. cbn [t1 pt_procs].
      by rewrite lookup_insert_ne.
    + intros [|k] x r Hx Hr; cbn in Hx, Hr.
      * injection Hx as <-. injection Hr as <-. unfold job_done. rewrite Z.add_0_r. split.
        -- rewrite R4 by done. apply lookup_insert_eq.
        -- by eapply live_proc_kept.
      * replace (pt_max_pid t + Z.of_nat (S k)) with (pt_max_pid t1 + Z.of_nat k) by lia. by apply R5.
    + intros [|k] r a Hr Ha; cbn in Hr; [injection Hr as <-; by apply Hnew |].
      intros Hc. by apply (R6 k r a Hr Ha), Hres.
    + intros [|i] [|k] r s a Hik Hr Hs Ha Hb; cbn in Hr, Hs; try lia.
      * injection Hr as <-. apply (R6 k s a Hs Hb). by eapply own_reserved.
      * by apply (R7 i k r s a ltac:(lia) Hr Hs Ha).
Qed.
End All.

(** [plenty], decided: [f] holds after each number of tables up to [n]. *)
Fixpoint each_take (n : nat) (f : memblock -> bool) (mb : memblock) : bool :=
  f mb && match n with
          | O => true
          | S n => match takes 1 mb with Some mb' => each_take n f mb' | None => false end
          end.

Fixpoint plentyb (l : list job) (mb : memblock) : bool :=
  match l with
  | [] => true
  | j :: l =>
      let p := ps_proc (jb_ps j) in
      match process_supply p mb with
      | None => false
      | Some mb1 =>
          each_take (process_tables p)
            (fun mb2 => match mb_take THREAD_SIZE mb2 with None => false | Some mb3 => plentyb l mb3 end) mb1
      end
  end.

Lemma each_take_spec n f : forall mb j, each_take n f mb = true -> (j <= n)%nat ->
  exists mb', takes j mb = Some mb' /\ f mb' = true.
Proof.
  induction n as [|n IH]; intros mb j H Hj; cbn [each_take] in H; apply andb_prop in H as [H1 H2];
    destruct j as [|j]; try lia; [by exists mb .. |].
  destruct (takes 1 mb) as [mb1|] eqn:E; [| done]. destruct (IH mb1 j H2 ltac:(lia)) as (mb' & E1 & E2).
  exists mb'. split; [| done]. by apply (takes_trans 1 j mb mb1).
Qed.

Lemma plentyb_plenty l : forall mb, plentyb l mb = true -> plenty l mb.
Proof.
  induction l as [|j l IH]; intros mb H; cbn [plenty plentyb] in *; [done |]. set (p := ps_proc (jb_ps j)) in *.
  destruct (process_supply p mb) as [mb1|]; [| done]. exists mb1. split; [done |].
  assert (Hn : forall n mb2, (n <= process_tables p)%nat -> takes n mb1 = Some mb2 ->
    exists mb3, mb_take THREAD_SIZE mb2 = Some mb3 /\ plenty l mb3).
  { intros n mb2 Hle E. destruct (each_take_spec _ _ _ n H Hle) as (x & E1 & E2).
    rewrite E in E1. injection E1 as <-. destruct (mb_take THREAD_SIZE mb2) as [mb3|]; [| done]. exists mb3. auto. }
  split; [| split].
  - destruct (each_take_spec _ _ _ (process_tables p) H ltac:(lia)) as (mb2 & E & _). by exists mb2.
  - intros n mb2 Hle E. destruct (Hn n mb2 Hle E) as (y & E2 & _). by exists y.
  - intros n mb2 mb3 Hle E F. destruct (Hn n mb2 Hle E) as (y & E2 & Hp). rewrite F in E2. by injection E2 as <-.
Qed.

(** The clean-up of [process_map_memory] never ends once a table is recorded:
    it tests a pointer that it does not advance. *)
Lemma pgtable_clean_up_never_returns fuel mm : mm_pgtable_mem mm <> 0 ->
  forall h h', pgtable_clean_up fuel mm h <> Done h'.
Proof.
  intros Hm. induction fuel as [|n IH]; intros h h'; cbn [pgtable_clean_up]; [done |].
  rewrite (proj2 (Z.eqb_neq _ 0) Hm).
  destruct (pxd_get h (mm_pgtable_mem mm + 8)); [| done ..]. cbn [obind].
  destruct (pxd_get h (mm_pgtable_mem mm)); [| done ..]. cbn [obind].
  destruct (kfree h _) as [h1 | |]; [| done ..]. cbn [obind].
  destruct (kfree h1 _) as [h2 | |]; [| done ..]. cbn [obind]. apply IH.
Qed.

(** ** A machine with two processes *)

Definition demo_mb : memblock := after memblock_init (OpAdd 0x70000000 0x200000).
Definition demo_aux : list Z := le_list 8 6 ++ le_list 8 4096.
Definition demo_aux_addr : Z := 0x100000.
Definition demo_heap : kheap :=
  mkHeap demo_mb (blit (blit ∅ (0x70000000 + LINER_MAP_OFFSET) (replicate (Z.to_nat 0x200000) 7))
                    demo_aux_addr demo_aux).

Lemma demo_mb_history : history demo_mb [].
Proof. apply (hist_add memblock_init [] 0x70000000 0x200000 0); [constructor | op_ok_tac | reflexivity]. Qed.

Lemma demo_memory a : covers (memory demo_mb) a -> 0x70000000 <= a < 0x70200000.
Proof.
  intros Ha. apply covered_elem in Ha as (r & Hr & Hin).
  assert (live (memory demo_mb) = [mkRegion 0x70000000 0x200000 0 16]) as E by (vm_compute; reflexivity).
  rewrite E in Hr. apply list_elem_of_singleton in Hr as ->. unfold rend in Hin. simpl in Hin. lia.
Qed.

Lemma demo_heap_ok : heap_ok demo_heap.
Proof.
  split; cbn [kh_mb demo_heap]; [exact (proj1 (history_blocks _ _ demo_mb_history)) | split; vm_compute; done |].
  intros a Ha%demo_memory. split; [lia |]. cbn [kh_mem demo_heap]. apply blit_is_Some.
  rewrite blit_lookup, length_replicate. rewrite (proj2 (Z.leb_le _ _)), (proj2 (Z.ltb_lt _ _)) by lia.
  apply lookup_lt_is_Some_2. rewrite length_replicate. lia.
Qed.

Definition demo_kv : Z := 0xffff000000000000.
Definition demo_proc : process :=
  mkProcess [] (mkImage 0 0 (demo_kv + 0x61000000) 0x100 1 [demo_kv + 0x61000030] 0 [] 1 [demo_aux_addr] 0 0x40000000)
    [mkSegment 0x60000000 0x40000000 0x40002000 5 0 0].
Definition demo_ps : proc_struct := mkPs demo_proc [] (mkPm (mkMm 0 0) 0 0 0 0 0) 0 0 0.
Definition demo_jobs : list job := [mkJob 1 demo_ps [demo_aux]; mkJob 2 demo_ps [demo_aux]].
Definition demo_table : proc_table :=
  mkPt ([1; 2] ++ replicate 126 0) 2 {[1 := demo_ps; 2 := demo_ps]} 1.

Lemma demo_layout : layout_ok demo_kv demo_proc.
Proof.
  split; cbn [p_segments p_image demo_proc meta_data meta_size img_stack_size].
  - repeat constructor; vm_compute; done.
  - by repeat constructor.
  - repeat split; vm_compute; done.
  - repeat split; vm_compute; done.
Qed.

Lemma demo_args : args_ok demo_proc demo_heap [demo_aux].
Proof.
  split; [split; vm_compute; done .. | vm_compute; done | split; vm_compute; done |].
  constructor; [| constructor]. split; [apply cells_blit |].
  split; [vm_compute; repeat constructor; done |]. split; [reflexivity |].
  intros a Ha Hc%demo_memory. unfold demo_aux_addr in Ha. rewrite OFFSET_VAL in Hc. lia.
Qed.

Lemma demo_plenty : plenty demo_jobs (kh_mb demo_heap).
Proof. cbn [kh_mb demo_heap]. apply plentyb_plenty. vm_cast_no_check (eq_refl true). Qed.

Lemma demo_dir : exists mb, mb_take PAGE_SIZE (kh_mb demo_heap) = Some mb /\ supply 8 mb.
Proof.
  cbn [kh_mb demo_heap].
  assert (H : match mb_take PAGE_SIZE demo_mb ≫= takes 8 with Some _ => true | None => false end = true)
    by (vm_compute; reflexivity).
  destruct (mb_take PAGE_SIZE demo_mb) as [mb|]; [| done]. exists mb. split; [done |]. change (Some mb ≫= takes 8) with (takes 8 mb) in H.
  unfold supply. destruct (takes 8 mb); [by eexists | done].
Qed.

Lemma demo_supply :
  exists mb, process_supply demo_proc (kh_mb demo_heap) = Some mb /\ supply (process_tables demo_proc) mb.
Proof.
  pose proof demo_plenty as H. unfold demo_jobs in H. cbn [plenty ps_proc jb_ps demo_ps] in H.
  destruct H as (mb & H1 & H2 & _). exists mb. exact (conj H1 H2).
Qed.

Lemma demo_job_ok : Forall (job_ok demo_kv demo_heap) demo_jobs.
Proof. do 2 (constructor; [split; [apply demo_layout | apply demo_args | done] |]). constructor. Qed.

Lemma demo_in_table : in_table demo_jobs 0 demo_table.
Proof.
  split.
  - intros [|[|k]] j Hj; [injection Hj as <-; done .. | done].
  - vm_compute. repeat constructor; rewrite ?list_elem_of_singleton; try done; by intros ?%not_elem_of_nil.
  - reflexivity.
  - vm_compute. lia.
  - vm_compute. done.
Qed.

(** ** Claims *)

(** C12: mapping a page-aligned physical range at a free page-aligned virtual
    range of an address space, with memory for the tables it may need,
    returns 0; every address of the range then translates to its physical
    address with the given attributes, every other address translates as
    before, and no live byte outside the tables has changed.  The range
    starts below 512 GiB, the span of the first directory entry, as user
    addresses do; above it the code enters the range in the wrong entries. *)
Theorem vmap_range_translates T root mm h phys virt size attr :
  page_attr attr -> space T root mm h -> vmap_call phys virt size ->
  fresh 3 T (wd h) virt (virt + size) -> enough 3 virt (virt + size) h ->
  exists T' mm' h', vmap_phys_range_noflush mm h phys virt size (Z.lor attr 3) = Done (0, mm', h')
    /\ space T' root mm' h'
    /\ (forall v, virt <= v < virt + size -> twalk 3 (wd h') root v = Some (phys + (v - virt), attr))
    /\ (forall v, 0 <= v < 2 ^ 48 -> ~ (virt <= v < virt + size) -> twalk 3 (wd h') root v = twalk 3 (wd h) root v)
    /\ (forall a, covers (reserved (kh_mb h)) a -> (forall b x, T !! b = Some x -> ~ in_page b a) ->
          kh_mem h' !! (a + LINER_MAP_OFFSET) = kh_mem h !! (a + LINER_MAP_OFFSET)).
Proof.
  intros Ha Hsp Hc Hf He. destruct (vmap_spec T root mm h phys virt size attr Ha Hsp Hc Hf He)
    as (T' & mm' & h' & E & Hsp' & [Hm Hs _ _]).
  exists T', mm', h'. split; [exact E |]. split; [exact Hsp' |]. split; [apply Hm |]. split; [| apply Hs].
  intros v Hv. apply (mp_out _ _ _ _ _ _ _ _ _ _ Hm).
  by rewrite (Z.div_small v (lsize 4)) by (change (lsize 4) with (2 ^ 48); lia); apply Hsp.
Qed.

Lemma vmap_range_translates_witness :
  exists root mm h, exists T' mm' h',
    vmap_phys_range_noflush mm h 0x60000000 0x40000000 0x402000 (Z.lor RW_ATTR 3) = Done (0, mm', h')
    /\ space T' root mm' h' /\ twalk 3 (wd h') root 0x40401008 = Some (0x60401008, RW_ATTR).
Proof.
  destruct demo_dir as (mb & E & Hsup).
  pose proof (new_directory demo_heap mb 0 demo_heap_ok ltac:(lia) E) as H.
  destruct H as (root & dir & h & _ & _ & Emb & _ & _ & Hshow).
  destruct (Hshow [mkRg 0x40000000 0x402000 0x60000000 RW_ATTR]) as [Hsp _ Hf Hn].
  { eapply supply_le; [exact Hsup |]. vm_compute. lia. }
  exists root, (mkMm (root + LINER_MAP_OFFSET) 0), h.
  destruct (vmap_range_translates {[root := (3%nat, 0)]} root (mkMm (root + LINER_MAP_OFFSET) 0) h
              0x60000000 0x40000000 0x402000 RW_ATTR) as (T' & mm' & h' & R1 & R2 & R3 & _).
  - apply rw_attr.
  - exact Hsp.
  - split; [split; [done |]; split; done | done | split; [split |]; vm_compute; done | split; vm_compute; done].
  - exact (Forall_inv Hf).
  - eapply supply_le; [exact Hn |]. cbn [rgs_need sum_list_with rg_va rg_size]. lia.
  - exists T', mm', h'. split; [exact R1 |]. split; [exact R2 |]. apply (R3 0x40401008). lia.
Defined.

(** C11: the address space of a process, with page-aligned segments that do not
    meet and enough memory: [process_memory_init] succeeds; the new tables
    translate exactly the segments (with the rights of their headers), the
    metadata and the stack (read and write), and nothing else; the stack is
    zeroed memory that was free; nothing that was live has changed. *)
Theorem process_address_space fuel kv p pm0 h mb :
  heap_ok h -> layout_ok kv p -> 0 <= mm_pgtable_mem (pm_map pm0) < 2 ^ 64 ->
  process_supply p (kh_mb h) = Some mb -> supply (process_tables p) mb ->
  exists root pm h', process_memory_init fuel kv p pm0 h = Done (0, pm, h')
    /\ mm_pg_dir (pm_map pm) = root + LINER_MAP_OFFSET /\ heap_ok h'
    /\ (forall v, 0 <= v < 2 ^ 48 -> twalk 3 (wd h') root v = region_at (process_regions kv p (pm_stack pm)) v)
    /\ (forall a, block (pm_stack pm) (process_stack_size (p_image p)) a -> kh_mem h' !! a = Some 0
          /\ ~ covers (reserved (kh_mb h)) (a - LINER_MAP_OFFSET))
    /\ (forall a, covers (reserved (kh_mb h)) a ->
          kh_mem h' !! (a + LINER_MAP_OFFSET) = kh_mem h !! (a + LINER_MAP_OFFSET)).
Proof.
  intros Hh Hl Hpg Hs Ht.
  destruct (process_memory_init_spec fuel kv p pm0 h mb Hh Hl Hpg Hs Ht)
    as (T & root & pm & h' & E & [[[[_ [Hh' _] _] _ Hdir] Hw _ _] Hst _ (pa & Est & _ & _ & _ & Hown) _]).
  exists root, pm, h'. split; [exact E |]. split; [exact Hdir |]. split; [exact Hh' |]. split; [exact Hw |]. split.
  - intros a Ha. destruct (Hown (a - LINER_MAP_OFFSET)) as (_ & C2 & _ & C4 & _).
    { rewrite Est in Ha. unfold block in *. lia. }
    rewrite Z.sub_add in C4. done.
  - intros a Ha. apply (hs_frame _ _ _ _ Hst a Ha). intros b x Hb. by rewrite lookup_empty in Hb.
Qed.

Lemma process_address_space_witness :
  exists root pm h', process_memory_init 10 demo_kv demo_proc (ps_mm demo_ps) demo_heap = Done (0, pm, h')
    /\ twalk 3 (wd h') root 0x40001004
       = Some (0x60001004, Z.ldiff (process_get_segment_pgprot 5) 3)
    /\ twalk 3 (wd h') root (PROCESS_META_START + 0x30) = Some (0x61000030, RW_ATTR)
    /\ twalk 3 (wd h') root 0x40002000 = None.
Proof.
  destruct demo_supply as (mb & H1 & H2).
  pose proof (process_address_space 10 demo_kv demo_proc (ps_mm demo_ps) demo_heap mb
                demo_heap_ok demo_layout ltac:(cbn; lia) H1 H2) as H.
  destruct H as (root & pm & h' & E & _ & _ & Hw & _).
  exists root, pm, h'. split; [exact E |]. rewrite !Hw by (vm_compute; split; done).
  unfold process_regions. cbn [p_segments p_image demo_proc fmap list_fmap app region_at rg_in]. unfold rg_in.
  cbn [rg_va rg_size rg_pa rg_attr seg_region meta_region stack_region].
  split; [reflexivity |]. split; reflexivity.
Defined.

(** C7: when the segments of each process are page-aligned, whole pages long
    and do not meet (the loader does not ensure it), and there is enough
    memory, [user_processes_struct_init] sets up every process of the table
    (fewer than its size) and ends: process [k] has the
    identifier [max_pid + k]; in the final heap its tables translate exactly
    its regions; its first registers are zero but for the entry point, the
    processor state and a 16-byte aligned stack pointer; reading through its
    own tables from that stack pointer up, it finds the arguments,
    environment and auxiliary vector the kernel laid out; no two processes
    share a table or a stack, and nothing that was live has changed. *)
Theorem user_processes_start fuel kv l t h :
  heap_ok h -> Forall (job_ok kv h) l -> plenty l (kh_mb h) -> in_table l 0 t ->
  length (pt_slots t) = Z.to_nat PROCESS_MAX_COUNT ->
  exists t' h' rs, user_processes_struct_init fuel kv t h = Done (t', h') /\ length rs = length l
    /\ pt_slots t' = pt_slots t /\ pt_count t' = pt_count t
    /\ (forall k j r, l !! k = Some j -> rs !! k = Some r -> job_done kv t' h' (pt_max_pid t + Z.of_nat k) j r)
    /\ (forall i k r s a, (i < k)%nat -> rs !! i = Some r -> rs !! k = Some s -> owns r a -> ~ owns s a)
    /\ kept h h'.
Proof.
  intros Hh Hok Hpl Hit Hlen. unfold user_processes_struct_init.
  destruct (setup_loop_ok fuel kv l (S (Z.to_nat PROCESS_MAX_COUNT)) 0 t h Hh Hok Hpl Hit)
    as (t' & h' & rs & E & K & R1 & R2 & R3 & _ & R5 & _ & R7).
  { pose proof (it_max _ _ _ Hit). lia. }
  exists t', h', rs. done.
Qed.

Lemma user_processes_start_witness :
  exists t' h' rs, user_processes_struct_init 10 demo_kv demo_table demo_heap = Done (t', h') /\ length rs = 2%nat
    /\ forall k j r, demo_jobs !! k = Some j -> rs !! k = Some r ->
         job_done demo_kv t' h' (1 + Z.of_nat k) j r.
Proof.
  pose proof (user_processes_start 10 demo_kv demo_jobs demo_table demo_heap demo_heap_ok demo_job_ok demo_plenty
                demo_in_table eq_refl) as R.
  destruct R as (t' & h' & rs & E & L & _ & _ & H & _).
  exists t', h', rs. split; [exact E |]. split; [exact L | exact H].
Defined.
