(* ===== verification/Idle.v ===== *)
(** * Idle threads: [src/src/schedule/process.c], lines 983 to 1044

    The idle process of a processor other than the first is a copy of the
    process the kernel booted with, on a kernel stack of its own.  The
    structures are bytes of memory at the offsets of [struct process_struct]
    and [struct kernel_thread]; [idle_process] is the per-CPU pointer. *)

From Stdlib Require Import String.
From S2P Require Import Smp.
From S2P Require Import Prelude Memblock MemblockList MemblockArray MemblockRange MemblockFree.
From S2P Require Import MemblockSearch MemblockAlloc CString CStringSpec Kmalloc PageTable PageTableMap.
From S2P Require Import Loader Pte PtTree PteDesc Vmap VmapHeap Process AddressSpace.
#[local] Open Scope Z_scope.

(** ** Layout *)

Definition sizeof_process_struct : Z := 3416.
Definition sizeof_kernel_thread : Z := 24.
Definition ps_off_sp : Z := 0.
Definition ps_off_name : Z := 8.
Definition ps_off_cpu : Z := 136.
Definition ps_off_pid : Z := 140.
Definition ps_off_kernel_stack : Z := 152.
Definition ps_off_pg_dir : Z := 3320.
Definition ps_off_kthread : Z := 3392.
Definition kt_off_process : Z := 0.
Definition kt_off_arg : Z := 16.

(** A sequence of stores: address, width in bytes, value. *)
Fixpoint stores (m : bmem) (l : list (Z * nat * Z)) : outcome bmem :=
  match l with
  | [] => Done m
  | (a, n, v) :: l => let! m := st_le n m a v in stores m l
  end.

Section Idle.
Context (g_kernel_init_process g_init_idle_thread0 : Z).

Definition idle_fields (cpu idle kthread kernel_stack : Z) : list (Z * nat * Z) :=
  [(kthread + kt_off_arg, 8%nat, kthread);
   (kthread + kt_off_process, 8%nat, idle);
   (idle + ps_off_kthread, 8%nat, kthread);
   (idle + ps_off_sp, 8%nat, idle);
   (idle + ps_off_kernel_stack, 8%nat, kernel_stack);
   (idle + ps_off_pid, 4%nat, 0);
   (idle + ps_off_cpu, 4%nat, cpu);
   (idle + ps_off_name + 4, 1%nat, 48 + cpu)].

Definition idle_thread_create (cpu : Z) (idle_process : gmap Z Z) (h : kheap)
    : outcome (Z * gmap Z Z * kheap) :=
  let! (idle, h) := kmalloc h sizeof_process_struct false in
  if idle =? 0 then Done (- ENOMEM, idle_process, h)
  else
    let! (kthread, h) := kmalloc h sizeof_kernel_thread false in
    if kthread =? 0 then let! h := kfree h idle in Done (- ENOMEM, idle_process, h)
    else
      let! (kernel_stack, h) := kmalloc h THREAD_SIZE false in
      if kernel_stack =? 0 then let! h := kfree h idle in Done (- ENOMEM, idle_process, h)
      else
        let! m := memcpy (kh_mem h) kthread g_init_idle_thread0 sizeof_kernel_thread in
        let! m := memcpy m idle g_kernel_init_process sizeof_process_struct in
        let! m := stores m (idle_fields cpu idle kthread kernel_stack) in
        Done (0, <[cpu := idle]> idle_process, mkHeap (kh_mb h) m).

(** [kthread_init] on the boot processor: its own idle process, and the
    callback that creates the others ([create], the address of
    [idle_thread_create]); the result of the registration is not tested. *)
Definition kthread_init (create this_cpu : Z) (idle_process : gmap Z Z) (cbs : callbacks)
    : Z * gmap Z Z * callbacks :=
  let idle_process := <[this_cpu := g_kernel_init_process]> idle_process in
  let (_, cbs) := cpuhp_state_register cbs CPUHP_CREATE_IDLE "idle_thread_create" (Some (Other create)) 0 in
  (0, idle_process, cbs).

Definition get_idle_process (this_cpu : Z) (idle_process : gmap Z Z) : option Z := idle_process !! this_cpu.
End Idle.

(** ** Disjoint stores *)

Definition field_apart (f g : Z * nat * Z) : Prop :=
  f.1.1 + Z.of_nat f.1.2 <= g.1.1 \/ g.1.1 + Z.of_nat g.1.2 <= f.1.1.

Definition field_in (f : Z * nat * Z) (a : Z) : Prop := f.1.1 <= a < f.1.1 + Z.of_nat f.1.2.

Fixpoint fields_apart (l : list (Z * nat * Z)) : Prop :=
  match l with
  | [] => True
  | f :: l => Forall (field_apart f) l /\ fields_apart l
  end.

(** Stores to disjoint places: each value is there, the rest is as before. *)
Lemma stores_spec l : forall m,
  fields_apart l -> Forall (fun f => mapped m f.1.1 (Z.of_nat f.1.2) /\ 0 <= f.2 < 256 ^ Z.of_nat f.1.2) l ->
  exists m', stores m l = Done m'
    /\ Forall (fun f => cells m' f.1.1 (le_list f.1.2 f.2)) l
    /\ (forall a, Forall (fun f => ~ field_in f a) l -> m' !! a = m !! a)
    /\ (forall a, is_Some (m !! a) -> is_Some (m' !! a)).
Proof.
  induction l as [|[[a n] v] l IH]; intros m Hd Hl; cbn [stores fields_apart] in *.
  { exists m. split; [done |]. split; [constructor | done]. }
  destruct Hd as [Hd1 Hd2]. apply Forall_cons in Hl as [[Hm Hv] Hl]. cbn [fst snd] in *.
  destruct (le_list_spec n v Hv) as (L1 & L2 & L3).
  pose proof (st_le_cells (le_list n v) m a L3) as E. rewrite L1, L2 in E. rewrite E by done. cbn [obind].
  destruct (IH (blit m a (le_list n v)) Hd2) as (m' & E' & C1 & C2 & C3).
  { eapply Forall_impl; [exact Hl |]. intros f [F1 F2]. split; [by apply mapped_blit_mono | done]. }
  exists m'. split; [done |]. split; [| split].
  - constructor; [| done]. intros i x Hi. cbn [fst snd] in *. pose proof (lookup_lt_Some _ _ _ Hi) as Hlt.
    rewrite C2; [by apply cells_blit |]. eapply Forall_impl; [exact Hd1 |].
    intros f Hf. unfold field_apart, field_in in *. cbn [fst snd] in Hf. lia.
  - intros q Hq. apply Forall_cons in Hq as [Hq1 Hq2]. rewrite C2 by done. apply blit_outside.
    unfold field_in in Hq1. cbn [fst snd] in Hq1. rewrite L2. lia.
  - intros q Hq. by apply C3, blit_is_Some.
Qed.

(** ** What the callback builds *)

(** Bytes of the kernel image: outside the memory the allocator manages. *)
Definition image_bytes (h : kheap) (a : Z) (l : list Z) : Prop :=
  cells (kh_mem h) a l /\ byte_list l
  /\ forall q, a <= q < a + len l -> ~ covers (memory (kh_mb h)) (q - LINER_MAP_OFFSET).

Lemma image_bytes_step h h' a l : hstep ∅ h ∅ h' -> image_bytes h a l -> image_bytes h' a l.
Proof.
  intros Hs (H1 & H2 & H3). split; [| split; [done |]].
  - intros i x Hi. rewrite <- (H1 i x Hi). pose proof (lookup_lt_Some _ _ _ Hi).
    replace (a + Z.of_nat i) with (a + Z.of_nat i - LINER_MAP_OFFSET + LINER_MAP_OFFSET) by lia.
    apply (hs_out _ _ _ _ Hs), H3. lia.
  - intros q Hq. rewrite (hs_memory _ _ _ _ Hs _). by apply H3.
Qed.

(** Copying bytes of the image into managed memory. *)
Lemma copy_image h m a l d :
  image_bytes h a l -> cells m a l -> (forall q, d <= q < d + len l -> covers (memory (kh_mb h)) (q - LINER_MAP_OFFSET)) ->
  mapped m d (len l) -> memcpy m d a (len l) = Done (blit m d l).
Proof.
  intros (H1 & H2 & H3) Hc Hd Hm. apply memcpy_spec; [done | done | done |].
  destruct (decide (d <= a \/ a + len l <= d)) as [| Hno]; [done |].
  exfalso. apply (H3 d); [lia |]. apply Hd. lia.
Qed.

Definition idle_supply (mb : memblock) : option memblock :=
  mb1 ← mb_take sizeof_process_struct mb;
  mb2 ← mb_take sizeof_kernel_thread mb1;
  mb_take THREAD_SIZE mb2.

Lemma idle_fields_apart cpu idle kt ks :
  idle + sizeof_process_struct <= kt \/ kt + sizeof_kernel_thread <= idle ->
  fields_apart (idle_fields cpu idle kt ks).
Proof.
  intros H. unfold idle_fields, sizeof_process_struct, sizeof_kernel_thread in *.
  cbn [fields_apart]. unfold ps_off_sp, ps_off_name, ps_off_cpu, ps_off_pid, ps_off_kernel_stack,
    ps_off_kthread, kt_off_process, kt_off_arg.
  repeat split; repeat apply Forall_cons_2; try apply Forall_nil_2; unfold field_apart; cbn [fst snd]; lia.
Qed.

Lemma idle_thread_create_spec gp gt cpu ip h mb lp lt :
  heap_ok h -> idle_supply (kh_mb h) = Some mb -> 0 <= cpu <= 9 ->
  image_bytes h gp lp -> len lp = sizeof_process_struct -> image_bytes h gt lt -> len lt = sizeof_kernel_thread ->
  exists idle kt ks h', idle_thread_create gp gt cpu ip h = Done (0, <[cpu := idle]> ip, h')
    /\ Forall (fun f => cells (kh_mem h') f.1.1 (le_list f.1.2 f.2)) (idle_fields cpu idle kt ks)
    /\ (forall i x, lp !! i = Some x -> Forall (fun f => ~ field_in f (idle + Z.of_nat i)) (idle_fields cpu idle kt ks) ->
          kh_mem h' !! (idle + Z.of_nat i) = Some x)
    /\ kept h h'
    /\ (forall a, block ks THREAD_SIZE a \/ block idle sizeof_process_struct a ->
          ~ covers (reserved (kh_mb h)) (a - LINER_MAP_OFFSET) /\ covers (reserved (kh_mb h')) (a - LINER_MAP_OFFSET)).
Proof.
  intros Hh Hs Hcpu Hp Lp Ht Lt. pose proof OFFSET_VAL as Ho. unfold idle_supply in Hs.
  destruct (mb_take sizeof_process_struct (kh_mb h)) as [mb1|] eqn:E1; [| done]. cbn in Hs.
  destruct (mb_take sizeof_kernel_thread mb1) as [mb2|] eqn:E2; [| done]. cbn in Hs. rename Hs into E3.
  destruct (kmalloc_took h sizeof_process_struct false mb1 Hh ltac:(done) E1) as (p1 & h1 & K1 & M1 & [S1 R1 A1 F1 _]).
  rewrite <- M1 in E2. pose proof (to_heap _ _ (hs_tabs _ _ _ _ S1)) as Hh1.
  destruct (kmalloc_took h1 sizeof_kernel_thread false mb2 Hh1 ltac:(done) E2) as (p2 & h2 & K2 & M2 & [S2 R2 A2 F2 _]).
  rewrite <- M2 in E3. pose proof (to_heap _ _ (hs_tabs _ _ _ _ S2)) as Hh2.
  destruct (kmalloc_took h2 THREAD_SIZE false mb Hh2 ltac:(done) E3) as (p3 & h3 & K3 & M3 & [S3 R3 A3 F3 _]).
  pose proof (to_heap _ _ (hs_tabs _ _ _ _ S3)) as Hh3.
  change (kmalloc_buf_size sizeof_process_struct) with 8192 in *.
  change (kmalloc_buf_size sizeof_kernel_thread) with 64 in *. change (kmalloc_buf_size THREAD_SIZE) with 32768 in *.
  change sizeof_process_struct with 3416 in *. change sizeof_kernel_thread with 24 in *. change THREAD_SIZE with 16384 in *.
  set (idle := p1 + 16 + LINER_MAP_OFFSET) in *. set (kt := p2 + 16 + LINER_MAP_OFFSET) in *.
  set (ks := p3 + 16 + LINER_MAP_OFFSET) in *.
  pose proof (hstep_trans _ _ _ _ _ _ (hstep_trans _ _ _ _ _ _ S1 S2) S3) as S13.
  assert (Hmem : forall a, block p1 (16 + 8192) a \/ block p2 (16 + 64) a \/ block p3 (16 + 32768) a ->
    covers (memory (kh_mb h3)) a).
  { intros a [Ha | [Ha | Ha]].
    - apply (hs_memory _ _ _ _ S13), F1, Ha.
    - apply (hs_memory _ _ _ _ S3), (hs_memory _ _ _ _ S2), F2, Ha.
    - apply (hs_memory _ _ _ _ S3), F3, Ha. }
  assert (Hmapped : forall a n, idle <= a /\ a + n <= idle + 8192 \/ kt <= a /\ a + n <= kt + 64 -> mapped (kh_mem h3) a n).
  { intros a n Ha q Hq. replace q with (q - LINER_MAP_OFFSET + LINER_MAP_OFFSET) by lia.
    apply (ho_mapped _ Hh3), Hmem. unfold block, idle, kt in *. lia. }
  assert (Hdisj : idle + 3416 <= kt \/ kt + 24 <= idle).
  { destruct (decide (idle + 3416 <= kt \/ kt + 24 <= idle)) as [| Hno]; [done | exfalso].
    set (a := Z.max (p1 + 16) (p2 + 16)). apply (F2 a); [| apply (F1 a)]; unfold block, idle, kt in *; lia. }
  pose proof (image_bytes_step _ _ _ _ S13 Hp) as Hp3. pose proof (image_bytes_step _ _ _ _ S13 Ht) as Ht3.
  assert (Cp : memcpy (kh_mem h3) kt gt 24 = Done (blit (kh_mem h3) kt lt)).
  { rewrite <- Lt. apply (copy_image h3); [done | apply Ht3 | | apply Hmapped; lia].
    intros q Hq. apply Hmem. unfold block, kt in *. lia. }
  set (m1 := blit (kh_mem h3) kt lt) in *.
  assert (Hsrc : cells m1 gp lp).
  { destruct Hp3 as (P1 & _ & P3). apply cells_blit_outside; [done |].
    destruct (decide (gp + len lp <= kt \/ kt + len lt <= gp)) as [| Hno]; [done | exfalso].
    apply (P3 (Z.max gp kt)); [lia |]. apply Hmem. unfold block, kt in *. lia. }
  assert (Cq : memcpy m1 idle gp 3416 = Done (blit m1 idle lp)).
  { rewrite <- Lp. apply (copy_image h3); [done | done | | apply mapped_blit_mono, Hmapped; lia].
    intros q Hq. apply Hmem. unfold block, idle in *. lia. }
  set (m2 := blit m1 idle lp) in *.
  destruct (stores_spec (idle_fields cpu idle kt ks) m2) as (m3 & Es & C1 & C2 & C3).
  { by apply idle_fields_apart. }
  { unfold idle_fields, ps_off_sp, ps_off_name, ps_off_cpu, ps_off_pid, ps_off_kernel_stack, ps_off_kthread,
      kt_off_process, kt_off_arg.
    repeat apply Forall_cons_2; try apply Forall_nil_2; cbn [fst snd];
      (split; [do 2 apply mapped_blit_mono; apply Hmapped; lia | unfold idle, kt, ks; lia]). }
  assert (Hin : forall f a, f ∈ idle_fields cpu idle kt ks -> field_in f a ->
    idle <= a < idle + 3416 \/ kt <= a < kt + 24).
  { intros f a Hf Ha. unfold idle_fields, ps_off_sp, ps_off_name, ps_off_cpu, ps_off_pid, ps_off_kernel_stack,
      ps_off_kthread, kt_off_process, kt_off_arg in Hf.
    unfold field_in in Ha. repeat (apply elem_of_cons in Hf as [-> | Hf]; [cbn [fst snd] in Ha; lia |]).
    by apply not_elem_of_nil in Hf. }
  assert (Hout : forall a, ~ (idle <= a < idle + 3416 \/ kt <= a < kt + 24) -> m3 !! a = kh_mem h3 !! a).
  { intros a Ha. rewrite C2; [unfold m2, m1; rewrite !blit_outside by lia; done |].
    apply Forall_forall. intros f Hf Hfa. apply Ha. by apply (Hin f). }
  exists idle, kt, ks, (mkHeap (kh_mb h3) m3). split; [| split; [| split; [| split]]].
  - unfold idle_thread_create. change sizeof_process_struct with 3416. change sizeof_kernel_thread with 24.
    change THREAD_SIZE with 16384. rewrite K1. cbn [obind]. rewrite (proj2 (Z.eqb_neq _ 0)) by (unfold idle; lia).
    rewrite K2. cbn [obind]. rewrite (proj2 (Z.eqb_neq _ 0)) by (unfold kt; lia).
    rewrite K3. cbn [obind]. rewrite (proj2 (Z.eqb_neq _ 0)) by (unfold ks; lia).
    rewrite Cp. cbn [obind]. rewrite Cq. cbn [obind].
    rewrite Es. done.
  - exact C1.
  - intros i x Hi Hno. cbn [kh_mem]. rewrite C2 by done. by apply cells_blit.
  - split.
    + apply (heap_ok_after h3); [done | apply Hh3 | done | done | done |]. cbn [kh_mem].
      intros a Ha. apply C3. unfold m2, m1. by do 2 apply blit_is_Some.
    + exact (hs_memory _ _ _ _ S13).
    + exact (hs_live _ _ _ _ S13).
    + intros a Ha. cbn [kh_mem]. rewrite Hout.
      * destruct Ha as [Ha | Ha]; [| by apply (hs_out _ _ _ _ S13)].
        apply (hs_frame _ _ _ _ S13 a Ha). intros b y Hb. by rewrite lookup_empty in Hb.
      * intros Hc. assert (Hb : block p1 (16 + 8192) a \/ block p2 (16 + 64) a) by (unfold block, idle, kt in *; lia).
        destruct Ha as [Ha | Ha].
        -- destruct Hb as [Hb | Hb]; [by apply (F1 a Hb) |].
           apply (F2 a Hb). by apply (hs_live _ _ _ _ S1).
        -- apply Ha. apply (hs_memory _ _ _ _ S13), Hmem. tauto.
  - intros a Ha. cbn [kh_mb]. destruct Ha as [Ha | Ha].
    + destruct (F3 (a - LINER_MAP_OFFSET)) as (_ & G2 & G3); [unfold block, ks in *; lia |].
      split; [| done]. intros Hc. by apply G2, (hs_live _ _ _ _ S2), (hs_live _ _ _ _ S1).
    + destruct (F1 (a - LINER_MAP_OFFSET)) as (_ & G2 & G3); [unfold block, idle in *; lia |].
      split; [done |]. by apply (hs_live _ _ _ _ S3), (hs_live _ _ _ _ S2).
Qed.
