(* ===== verification/Physmem.v ===== *)
(** * Physical memory at boot: [src/src/mm/pm.c]

    [physmem_init] gives the RAM of the board to the boot allocator and
    reserves the sections of the kernel image; every later allocation of the
    kernel (page tables, heap, stacks) goes through the allocator from that
    state. *)

From S2P Require Import Prelude Memblock MemblockList MemblockArray MemblockRange MemblockFree.
From S2P Require Import MemblockSearch MemblockAlloc.

(** The physical addresses of the linker symbols of the image. *)
Record kimage := mkKimage {
  stext : Z;
  etext : Z;
  start_rodata : Z;
  init_begin : Z;
  inittext_begin : Z;
  inittext_end : Z;
  initdata_begin : Z;
  initdata_end : Z;
  data_begin : Z;
  kimage_end : Z;
}.

(** The calls of [reserve_kimage], base and size. *)
Definition kimage_sections (k : kimage) : list (Z * Z) :=
  [(stext k, etext k - stext k); (start_rodata k, init_begin k - start_rodata k);
   (inittext_begin k, inittext_end k - inittext_begin k);
   (initdata_begin k, initdata_end k - initdata_begin k); (data_begin k, kimage_end k - data_begin k)].

(** The results of the calls are not looked at. *)
Fixpoint reserve_all (l : list (Z * Z)) (s : memblock) : outcome memblock :=
  match l with
  | [] => Done s
  | (base, size) :: l => let! (_, s) := memblock_reserve s base size in reserve_all l s
  end.

Definition reserve_kimage (k : kimage) (s : memblock) : outcome memblock := reserve_all (kimage_sections k) s.

Definition physmem_init (k : kimage) (s : memblock) : outcome memblock :=
  let! (_, s) := memblock_add s RAM_BASE RAM_SIZE in reserve_kimage k s.

(** ** The state it leaves *)

(** The room each of the calls needs. *)
Fixpoint reserve_ok (l : list (Z * Z)) (s : memblock) : Prop :=
  match l with
  | [] => True
  | (base, size) :: l =>
      op_ok s (OpReserve base size) /\ forall s', memblock_reserve s base size = Done (0, s') -> reserve_ok l s'
  end.

Definition in_sections (l : list (Z * Z)) (a : Z) : Prop := exists b n, (b, n) ∈ l /\ block b n a.

Lemma reserve_all_spec l : forall s,
  mb_inv s -> Forall (fun r => r.1 + r.2 <= PHYS_ADDR_MAX) l -> reserve_ok l s ->
  exists s', reserve_all l s = Done s' /\ mb_inv s'
    /\ same_set (covers (memory s')) (covers (memory s))
    /\ same_set (covers (reserved s')) (fun a => covers (reserved s) a \/ in_sections l a)
    /\ forall bl, history s bl -> history s' bl.
Proof.
  induction l as [|[b n] l IH]; intros s Hinv Hl Hok.
  - exists s. split; [done |]. split; [done |]. split; [done |]. split; [| done].
    intros a. split; [by left |]. intros [H | (b & n & H & _)]; [done | by apply not_elem_of_nil in H].
  - inversion_clear Hl as [|? ? Hb Hl']. destruct Hok as [Hop Hnext].
    destruct (run_op_refines s _ Hinv Hop) as (r & s1 & E & I1 & (-> & S1 & S2) & _). simpl in E.
    destruct (IH s1 I1 Hl' (Hnext s1 E)) as (s' & E' & I' & M' & R' & H').
    exists s'. cbn [reserve_all]. rewrite E. split; [done |]. split; [done |].
    split; [by rewrite M' |]. split.
    + intros a. rewrite (R' a). simpl in S2. rewrite (S2 a). unfold in_range. simpl in Hb.
      rewrite Z.min_l by lia. split.
      * intros [[H | H] | (c & k & Hin & Hc)]; [by left | right; exists b, n | right; exists c, k];
          (split; [apply elem_of_cons | unfold block in *; (done || lia)]); tauto.
      * intros [H | (c & k & [[= -> ->] | Hin]%elem_of_cons & Hc)];
          [by left; left | left; right; done | right; by exists c, k].
    + intros bl Hh. apply H'. by apply (hist_reserve s bl b n 0).
Qed.

Definition kimage_ok (k : kimage) : Prop :=
  Forall (fun r => 0 <= r.1 /\ r.1 + r.2 <= PHYS_ADDR_MAX) (kimage_sections k).

Lemma physmem_init_spec k s1 :
  kimage_ok k -> memblock_add memblock_init RAM_BASE RAM_SIZE = Done (0, s1) -> reserve_ok (kimage_sections k) s1 ->
  exists s, physmem_init k memblock_init = Done s /\ mb_inv s /\ history s []
    /\ same_set (covers (memory s)) (block RAM_BASE RAM_SIZE)
    /\ same_set (covers (reserved s)) (in_sections (kimage_sections k)).
Proof.
  intros Hk E1 Hok.
  assert (Hop : op_ok memblock_init (OpAdd RAM_BASE RAM_SIZE)) by op_ok_tac.
  destruct (run_op_refines _ _ memblock_init_inv Hop) as (r & s' & E & I & (_ & S1 & S2) & _).
  simpl in E, S1, S2. rewrite E1 in E. injection E as <- <-.
  destruct (reserve_all_spec (kimage_sections k) s1 I) as (s & E & I' & M' & R' & H'); [| done |].
  { eapply Forall_impl; [exact Hk |]. simpl. tauto. }
  exists s. unfold physmem_init. rewrite E1. split; [exact E |]. split; [done |].
  split; [apply H'; by apply (hist_add memblock_init [] RAM_BASE RAM_SIZE 0); [constructor | |] |].
  assert (Hnone : forall p a, ~ covers (get_type memblock_init p) a).
  { intros p a H. apply covered_elem in H as (x & Hx & _). destruct p; by apply not_elem_of_nil in Hx. }
  split; intros a.
  - rewrite (M' a), (S1 a). pose proof (Hnone MEMORY a) as N. unfold in_range, block. simpl in N.
    rewrite Z.min_l by done. tauto.
  - rewrite (R' a), (S2 a). pose proof (Hnone RESERVED a) as N. simpl in N. tauto.
Qed.

(** ** Every later state *)

(** A state of the running kernel: [physmem_init], then allocations, and
    frees of blocks that were allocated; the list holds the live blocks.
    [op_ok] and [reserve_ok] ask for room in the region array at each call:
    a run stops before the array would have to grow. *)
Inductive kernel_run (k : kimage) : memblock -> list (Z * Z) -> Prop :=
  | kr_boot s1 s :
      memblock_add memblock_init RAM_BASE RAM_SIZE = Done (0, s1) -> reserve_ok (kimage_sections k) s1 ->
      physmem_init k memblock_init = Done s -> kernel_run k s []
  | kr_alloc s l n al st en r s' :
      kernel_run k s l -> op_ok s (OpAlloc n al st en) ->
      memblock_phys_alloc_range s n al st en = Done (r, s') -> r <> 0 -> kernel_run k s' ((r, n) :: l)
  | kr_nospace s l n al st en s' :
      kernel_run k s l -> op_ok s (OpAlloc n al st en) ->
      memblock_phys_alloc_range s n al st en = Done (0, s') -> kernel_run k s' l
  | kr_free s l1 l2 b n r s' :
      kernel_run k s (l1 ++ (b, n) :: l2) -> op_ok s (OpFree b n) ->
      memblock_phys_free dbl_array s b n = Done (r, s') -> kernel_run k s' (l1 ++ l2).

Record image_safe (k : kimage) (s : memblock) (l : list (Z * Z)) : Prop := {
  is_history : history s l;
  is_memory : same_set (covers (memory s)) (block RAM_BASE RAM_SIZE);
  is_reserved : forall a, in_sections (kimage_sections k) a -> covers (reserved s) a;
  is_apart : forall b n a, (b, n) ∈ l -> block b n a -> ~ in_sections (kimage_sections k) a;
}.

Lemma kernel_run_safe k s l : kimage_ok k -> kernel_run k s l -> image_safe k s l.
Proof.
  intros Hk. induction 1 as [s1 s E1 Hok E | s l n al st en r s' Hr [Hh Hm Hres Hap] Hop E Hne
    | s l n al st en s' Hr [Hh Hm Hres Hap] Hop E | s l1 l2 b n r s' Hr [Hh Hm Hres Hap] Hop E].
  { destruct (physmem_init_spec k s1 Hk E1 Hok) as (s' & E' & _ & Hh & Hm & Hres).
    rewrite E in E'. injection E' as <-. split; [done | done | intros a; by apply Hres |].
    intros b n a Hin. by apply not_elem_of_nil in Hin. }
  all: destruct (history_blocks s _ Hh) as [Hinv Hb];
    destruct (run_op_refines s _ Hinv Hop) as (r1 & s2 & E2 & I2 & Hstep & _); simpl in E2;
    rewrite E in E2; simplify_eq; simpl in Hstep.
  - destruct Hstep as (S1 & [[? _] | (_ & _ & _ & _ & S4 & S5)]); [done |].
    split; [by eapply hist_alloc | by rewrite S1 | intros a Ha; apply S5; left; by apply Hres |].
    intros b m a [[= -> ->] | Hin]%elem_of_cons Ha Himg; [| by eapply Hap].
    by apply (proj2 (S4 a Ha)), Hres.
  - destruct Hstep as (S1 & [[_ S2] | [? _]]); [| done].
    split; [by eapply hist_nospace | by rewrite S1 | intros a Ha; apply S2; by apply Hres | done].
  - destruct Hstep as (_ & S1 & S2).
    split; [by eapply hist_free | by rewrite S1 | |].
    + intros a Ha. apply S2. split; [by apply Hres |]. intros Hin.
      apply (Hap b n a); [apply elem_of_app; right; apply elem_of_cons; by left | | done].
      unfold in_range, block in *. lia.
    + intros c m a Hin. apply Hap. rewrite elem_of_app, elem_of_cons in *. tauto.
Qed.

(** C26: from the boot of the kernel on, in every run of allocations and frees
    in which the region array has room for each call (its growth is not
    covered), the blocks handed out lie in RAM, are pairwise disjoint and
    never overlap a section of the kernel image, which stays reserved. *)
Theorem kernel_image_never_allocated k s l :
  kimage_ok k -> kernel_run k s l ->
  (forall b n a, (b, n) ∈ l -> block b n a ->
     block RAM_BASE RAM_SIZE a /\ ~ in_sections (kimage_sections k) a)
  /\ (forall a, in_sections (kimage_sections k) a -> covers (reserved s) a)
  /\ (forall i j b1 b2, l !! i = Some b1 -> l !! j = Some b2 -> i <> j -> disjoint_blocks b1 b2).
Proof.
  intros Hk Hr. destruct (kernel_run_safe k s l Hk Hr) as [Hh Hm Hres Hap].
  destruct (history_blocks s l Hh) as [_ [_ B2 _ B4]].
  split; [| split; [done | exact B4]].
  intros b n a Hin Ha. split; [apply Hm; by eapply B2 | by eapply Hap].
Qed.

(** An image of 2 MiB at the start of RAM. *)
Definition demo_kimage : kimage :=
  mkKimage 0x40200000 0x40280000 0x40280000 0x402c0000 0x402c0000 0x402d0000 0x402d0000 0x402e0000
    0x40300000 0x40400000.
Definition demo_physmem : memblock :=
  match physmem_init demo_kimage memblock_init with Done s => s | _ => memblock_init end.

Lemma kernel_image_never_allocated_witness :
  kimage_ok demo_kimage /\
  (forall b n a, (b, n) ∈ [(0x7ffff000, 4096)] -> block b n a ->
     block RAM_BASE RAM_SIZE a /\ ~ in_sections (kimage_sections demo_kimage) a).
Proof.
  assert (Hk : kimage_ok demo_kimage).
  { unfold kimage_ok, kimage_sections. simpl. repeat constructor; vm_compute; done. }
  destruct (kernel_image_never_allocated demo_kimage (after demo_physmem (OpAlloc 4096 0 0 0))
              [(0x7ffff000, 4096)] Hk) as [H _]; [| exact (conj Hk H)].
  apply (kr_alloc _ demo_physmem [] 4096 0 0 0);
      [| op_ok_tac | vm_compute; reflexivity | done].
    apply (kr_boot _ board); [vm_compute; reflexivity | | vm_compute; reflexivity].
    repeat (split; [op_ok_tac |]; intros s' E; vm_compute in E; injection E as <-). done.
Defined.
