(* ===== verification/Kobj.v ===== *)
(** * Kernel objects in memory

    The trees and lists of the kernel are linked structures: words of 64 bits
    at fixed offsets in objects of the kernel heap.  Code that walks and
    changes them is written here in a small state monad over the kernel heap
    ([Kmalloc]): [ldw] and [stw] read and write one word, an access to
    unmapped memory is a [Bug].  [KobjLogic] is the program logic for it. *)

From S2P Require Import Prelude Memblock CString Kmalloc.

Definition kprog (A : Type) : Type := kheap -> outcome (A * kheap).

#[global] Instance kprog_ret : MRet kprog := fun A a h => Done (a, h).
#[global] Instance kprog_bind : MBind kprog :=
  fun A B k c h => let! (a, h) := c h in k a h.

Definition ldw (a : Z) : kprog Z :=
  fun h => let! v := ld64 (kh_mem h) a in Done (v, h).

Definition stw (a v : Z) : kprog unit :=
  fun h => let! m := st64 (kh_mem h) a v in Done (tt, mkHeap (kh_mb h) m).

Definition kbug {A} : kprog A := fun _ => Bug.
Definition kfuel {A} : kprog A := fun _ => Fuel.

(** A step of the allocator. *)
Definition kcall {A} (f : kheap -> outcome (A * kheap)) : kprog A := f.

(** [if (c) ...] without an else. *)
Definition kwhen (b : bool) (c : kprog unit) : kprog unit :=
  if b then c else mret tt.
