(* ===== verification/KobjLogic.v ===== *)
(** * A separation logic for code on kernel objects

    Ownership of a word of memory is [a |->w v]: the eight bytes at [a] hold
    [v].  [wp c Phi] says that from any memory that contains what is owned,
    [c] returns normally (total correctness: no fault and no exhausted fuel)
    and [Phi] holds of its result.  The logic is Iris's, over the bytes of the
    kernel heap; [wp_adequate] turns a proof in it into a statement about the
    heap before and after, in which everything not owned is unchanged. *)

From iris.proofmode Require Import proofmode.
From iris.base_logic Require Import upred.
From iris.base_logic.lib Require Import gen_heap.
From S2P Require Import Prelude Memblock CString CStringSpec Kmalloc Kobj.

(** ** Words of memory, outside the logic *)

Definition clear_of (a : Z) (w : Z * Z) : Prop := a + 8 <= w.1 \/ w.1 + 8 <= a.

(** The words [ws] are in memory and do not overlap. *)
Fixpoint words (m : bmem) (ws : list (Z * Z)) : Prop :=
  match ws with
  | [] => True
  | w :: ws' =>
      0 <= w.2 < 2 ^ 64 /\ cells m w.1 (le_list 8 w.2) /\ Forall (clear_of w.1) ws' /\ words m ws'
  end.

(** The byte at [a] belongs to none of the words. *)
Definition off_words (ws : list (Z * Z)) (a : Z) : Prop :=
  Forall (fun w => a < w.1 \/ w.1 + 8 <= a) ws.

(** The words of a list written over a memory. *)
Definition words_over (m : bmem) (ws : list (Z * Z)) : bmem :=
  foldr (fun w m => blit m w.1 (le_list 8 w.2)) m ws.

Definition word_image (ws : list (Z * Z)) : bmem := words_over ∅ ws.

Lemma words_over_off m ws a : off_words ws a -> words_over m ws !! a = m !! a.
Proof.
  induction 1 as [| w ws Hw _ IH]; [done |]. cbn [words_over foldr].
  rw blit_outside; [exact IH |]. change (len (le_list 8 w.2)) with 8. lia.
Qed.

Lemma word_image_off ws a : off_words ws a -> word_image ws !! a = None.
Proof. intros H. unfold word_image. by rw words_over_off. Qed.

Lemma word_image_sub m ws : words m ws -> word_image ws ⊆ m.
Proof.
  induction ws as [| w ws IH]; [intros _; apply map_empty_subseteq |].
  intros (_ & Hc & _ & Hws). specialize (IH Hws). apply map_subseteq_spec. intros a b.
  cbn [word_image words_over foldr]. rw blit_lookup. case_match; [| intros Hb; by eapply lookup_weaken].
  intros Hb. apply Hc in Hb. apply andb_true_iff in H as [H1 H2].
  apply Z.leb_le in H1. by replace (w.1 + Z.of_nat (Z.to_nat (a - w.1))) with a in Hb by lia.
Qed.

(** When all the words of a list can be in memory. *)
Fixpoint words_ok (ws : list (Z * Z)) : bool :=
  match ws with
  | [] => true
  | w :: ws' =>
      (0 <=? w.2) && (w.2 <? 2 ^ 64) && forallb (fun w' => (w.1 + 8 <=? w'.1) || (w'.1 + 8 <=? w.1)) ws'
      && words_ok ws'
  end.

Lemma words_blit m a l ws : len l = 8 -> Forall (clear_of a) ws -> words m ws -> words (blit m a l) ws.
Proof.
  intros Hl Hc. induction Hc as [| w ws Hw Hc IH]; [done |]. intros (H1 & H2 & H3 & H4).
  split; [done |]. split; [| split; [done | by apply IH]].
  intros i b Hi. rw blit_outside; [by apply H2 |]. apply lookup_lt_Some in Hi.
  change (length (le_list 8 w.2)) with 8%nat in Hi. unfold clear_of in Hw. lia.
Qed.

Lemma words_over_ok m ws : words_ok ws = true -> words (words_over m ws) ws.
Proof.
  induction ws as [| w ws IH]; [done |]. cbn [words_ok]. intros H.
  apply andb_true_iff in H as [H H4]. apply andb_true_iff in H as [H H3]. apply andb_true_iff in H as [H1 H2].
  apply Z.leb_le in H1. apply Z.ltb_lt in H2.
  assert (Hc : Forall (clear_of w.1) ws).
  { apply Forall_forall. intros w' Hw'. rw forallb_forall in H3.
    specialize (H3 w' ltac:(by apply list_elem_of_In)). unfold clear_of. lia. }
  split; [done |]. split; [| split; [done | apply words_blit; [done | done | by apply IH]]].
  intros i b Hi. cbn [words_over foldr]. rw blit_lookup. pose proof Hi as Hlt. apply lookup_lt_Some in Hlt.
  change (length (le_list 8 w.2)) with 8%nat in Hlt.
  assert ((w.1 <=? w.1 + Z.of_nat i) && (w.1 + Z.of_nat i <? w.1 + len (le_list 8 w.2)) = true) as ->.
  { change (len (le_list 8 w.2)) with 8. apply andb_true_iff. split; [apply Z.leb_le | apply Z.ltb_lt]; lia. }
  by replace (Z.to_nat (w.1 + Z.of_nat i - w.1)) with i by lia.
Qed.

Lemma clear_off a ws i : Forall (clear_of a) ws -> 0 <= i < 8 -> off_words ws (a + i).
Proof. intros H Hi. eapply Forall_impl; [exact H |]. unfold clear_of. simpl. lia. Qed.

(** The same bytes are mapped. *)
Definition same_dom (h h' : kheap) : Prop := forall a, kh_mem h' !! a = None <-> kh_mem h !! a = None.

#[export] Instance same_dom_preorder : PreOrder same_dom.
Proof. split; [by intros h a | intros h1 h2 h3 H1 H2 a; by rw (H2 a)]. Qed.

Lemma same_dom_blit mb h a l l' : length l = length l' -> cells (kh_mem h) a l ->
  same_dom h (mkHeap mb (blit (kh_mem h) a l')).
Proof.
  intros Hl Hc x. cbn [kh_mem]. rw blit_lookup. case_match eqn:Hb; [| done].
  apply andb_true_iff in Hb as [H1 H2]. apply Z.leb_le in H1. apply Z.ltb_lt in H2.
  destruct (lookup_lt_is_Some_2 l (Z.to_nat (x - a))) as [b Hb]; [lia |].
  destruct (lookup_lt_is_Some_2 l' (Z.to_nat (x - a))) as [b' Hb']; [lia |].
  apply Hc in Hb. replace (a + Z.of_nat (Z.to_nat (x - a))) with x in Hb by lia. by rw Hb Hb'.
Qed.

Class kobjGS (Sg : gFunctors) := KobjGS {
  kobj_gen :: gen_heapGS Z Z Sg;
  kobj_alloc : memblock -> iProp Sg;
}.

Section logic.
Context `{!kobjGS Sg}.
Implicit Types (a v : Z).

Definition pts (a v : Z) : iProp Sg :=
  ⌜0 <= v < 2 ^ 64⌝ ∗ [∗ list] i ↦ b ∈ le_list 8 v, pointsto (a + Z.of_nat i) (DfracOwn 1) b.

Definition interp (h : kheap) : iProp Sg :=
  gen_heap_interp (kh_mem h) ∗ kobj_alloc (kh_mb h).

Definition wp {A} (c : kprog A) (Phi : A -> iProp Sg) : iProp Sg :=
  ∀ h, interp h ==∗ ∃ x h', ⌜c h = Done (x, h') /\ same_dom h h'⌝ ∗ interp h' ∗ Phi x.

Lemma wp_ret {A} (x : A) Phi : Phi x ⊢ wp (mret x) Phi.
Proof. iIntros "H" (h) "Hi !>". iExists x, h. by iFrame. Qed.

Lemma wp_bind {A B} (c : kprog A) (k : A -> kprog B) Phi :
  wp c (fun x => wp (k x) Phi) ⊢ wp (c ≫= k) Phi.
Proof.
  iIntros "H" (h) "Hi". iMod ("H" with "Hi") as (x h1) "([%E %U] & Hi & H)".
  iMod ("H" with "Hi") as (y h2) "([%E2 %U2] & Hi & H)". iModIntro.
  iExists y, h2. iFrame. iPureIntro. unfold mbind, kprog_bind. rw E. split; [done | by etrans].
Qed.

Lemma wp_wand {A} (c : kprog A) Phi Psi :
  wp c Phi -∗ (∀ x, Phi x -∗ Psi x) -∗ wp c Psi.
Proof.
  iIntros "H HW" (h) "Hi". iMod ("H" with "Hi") as (x h1) "(%E & Hi & H)". iModIntro.
  iExists x, h1. iFrame. iSplit; [done |]. by iApply "HW".
Qed.

Lemma wp_bupd {A} (c : kprog A) Phi : (|==> wp c Phi) ⊢ wp c Phi.
Proof. iIntros "H" (h) "Hi". iMod "H". by iApply "H". Qed.

(** The eight bytes of a word, read and replaced together. *)
Lemma bytes_valid m l : forall a,
  gen_heap_interp m -∗ ([∗ list] i ↦ b ∈ l, pointsto (a + Z.of_nat i) (DfracOwn 1) b) -∗ ⌜cells m a l⌝.
Proof.
  iIntros (a) "Hm Hl". iIntros (i b Hi).
  iDestruct (big_sepL_lookup with "Hl") as "Hb"; [exact Hi |].
  by iApply (gen_heap_valid with "Hm Hb").
Qed.

Lemma bytes_update l l' : forall m a, length l = length l' ->
  gen_heap_interp m -∗ ([∗ list] i ↦ b ∈ l, pointsto (a + Z.of_nat i) (DfracOwn 1) b) ==∗
  gen_heap_interp (blit m a l') ∗ [∗ list] i ↦ b ∈ l', pointsto (a + Z.of_nat i) (DfracOwn 1) b.
Proof.
  revert l'. induction l as [| b l IH]; intros [| b' l'] m a Hl; try done; cbn [blit].
  { iIntros "Hm _ !>". by iFrame. }
  rw !big_sepL_cons. iIntros "Hm [Hb Hl]". injection Hl as Hl.
  iMod (IH l' m (a + 1) Hl with "Hm [Hl]") as "[Hm Hl]".
  { iApply (big_sepL_mono with "Hl"). iIntros (i y _) "H".
    by replace (a + 1 + Z.of_nat i) with (a + Z.of_nat (S i)) by lia. }
  replace (a + Z.of_nat 0) with a by lia.
  iMod (gen_heap_update with "Hm Hb") as "[$ $]". iModIntro.
  iApply (big_sepL_mono with "Hl"). iIntros (i y _) "H".
  by replace (a + 1 + Z.of_nat i) with (a + Z.of_nat (S i)) by lia.
Qed.

Lemma length_le_list v : length (le_list 8 v) = 8%nat.
Proof. done. Qed.

Lemma wp_ldw a v Phi : pts a v -∗ (pts a v -∗ Phi v) -∗ wp (ldw a) Phi.
Proof.
  iIntros "[%Hv Hp] HP" (h) "[Hm Ha] !>".
  iDestruct (bytes_valid with "Hm Hp") as %Hc. iExists v, h. iFrame "Hm Ha".
  iSplit. { iPureIntro. unfold ldw. by rw (ld64_spec _ _ v). }
  iApply "HP". by iFrame.
Qed.

Lemma wp_stw a v v' (Phi : unit -> iProp Sg) :
  0 <= v' < 2 ^ 64 -> pts a v -∗ (pts a v' -∗ Phi tt) -∗ wp (stw a v') Phi.
Proof.
  iIntros (Hv'). iIntros "[%Hv Hp] HP" (h) "[Hm Ha]".
  iDestruct (bytes_valid with "Hm Hp") as %Hc.
  iMod (bytes_update _ (le_list 8 v') with "Hm Hp") as "[Hm Hp]"; [done |]. iModIntro.
  iExists tt, (mkHeap (kh_mb h) (blit (kh_mem h) a (le_list 8 v'))). iFrame "Hm Ha".
  iSplit; [| iApply "HP"; by iFrame].
  iPureIntro. split; [| by apply (same_dom_blit _ _ _ (le_list 8 v))]. unfold stw. rw st64_spec //.
  intros p Hp.
  destruct (lookup_lt_is_Some_2 (le_list 8 v) (Z.to_nat (p - a))) as [b Hb].
  { rw length_le_list. lia. }
  apply Hc in Hb. replace (a + Z.of_nat (Z.to_nat (p - a))) with p in Hb by lia. eauto.
Qed.

Lemma pts_range a v : pts a v -∗ ⌜0 <= v < 2 ^ 64⌝.
Proof. by iIntros "[% _]". Qed.

(** Two owned words do not overlap. *)
Lemma pts_apart a b v w : pts a v -∗ pts b w -∗ ⌜a + 8 <= b \/ b + 8 <= a⌝.
Proof.
  iIntros "[_ H1] [_ H2]".
  destruct (decide (a + 8 <= b \/ b + 8 <= a)) as [|Hn]; [done |].
  set (x := Z.max a b).
  destruct (lookup_lt_is_Some_2 (le_list 8 v) (Z.to_nat (x - a))) as [u Hu].
  { rw length_le_list. unfold x. lia. }
  destruct (lookup_lt_is_Some_2 (le_list 8 w) (Z.to_nat (x - b))) as [y Hy].
  { rw length_le_list. unfold x. lia. }
  iDestruct (big_sepL_lookup _ _ _ _ Hu with "H1") as "H1".
  iDestruct (big_sepL_lookup _ _ _ _ Hy with "H2") as "H2".
  replace (a + Z.of_nat (Z.to_nat (x - a))) with x by (unfold x; lia).
  replace (b + Z.of_nat (Z.to_nat (x - b))) with x by (unfold x; lia).
  iCombine "H1 H2" gives %[Hv _]. done.
Qed.

(** ** From the logic to the heap and back *)

Definition own_words (ws : list (Z * Z)) : iProp Sg := [∗ list] w ∈ ws, pts w.1 w.2.

Lemma own_words_cons w ws : own_words (w :: ws) ⊣⊢ pts w.1 w.2 ∗ own_words ws.
Proof. apply big_sepL_cons. Qed.

Lemma own_words_app ws1 ws2 : own_words (ws1 ++ ws2) ⊣⊢ own_words ws1 ∗ own_words ws2.
Proof. apply big_sepL_app. Qed.

Lemma own_words_valid h ws : interp h -∗ own_words ws -∗ ⌜words (kh_mem h) ws⌝.
Proof.
  iIntros "[Hm Ha] Hws". iInduction ws as [| w ws] "IH"; [done |].
  iDestruct "Hws" as "[[%Hv Hw] Hws]". iDestruct (bytes_valid with "Hm Hw") as %Hc.
  iAssert (⌜Forall (clear_of w.1) ws⌝)%I as %Hcl.
  { rw Forall_forall. iIntros (x Hx). iDestruct (big_sepL_elem_of with "Hws") as "Hx"; [exact Hx |].
    iApply (pts_apart w.1 x.1 w.2 x.2 with "[Hw] Hx"). by iFrame. }
  iDestruct ("IH" with "Hm Ha Hws") as %Hr. iPureIntro. done.
Qed.

Lemma blit_own l : forall m a,
  (forall i, (i < length l)%nat -> m !! (a + Z.of_nat i) = None) ->
  ([∗ map] x ↦ b ∈ blit m a l, pointsto x (DfracOwn 1) b) ⊢
  ([∗ list] i ↦ b ∈ l, pointsto (a + Z.of_nat i) (DfracOwn 1) b)
  ∗ [∗ map] x ↦ b ∈ m, pointsto x (DfracOwn 1) b.
Proof.
  induction l as [| b l IH]; intros m a Hf; cbn [blit].
  { iIntros "$". done. }
  rw big_sepM_insert; last first.
  { rw blit_lookup. case_match; [apply andb_true_iff in H as [H _]; apply Z.leb_le in H; lia |].
    specialize (Hf 0%nat). replace (a + Z.of_nat 0) with a in Hf by lia. apply Hf. simpl. lia. }
  iIntros "[Hb Hm]". iDestruct (IH with "Hm") as "[Hl $]".
  { intros i Hi. replace (a + 1 + Z.of_nat i) with (a + Z.of_nat (S i)) by lia. apply Hf. simpl. lia. }
  rw big_sepL_cons. replace (a + Z.of_nat 0) with a by lia. iFrame "Hb".
  iApply (big_sepL_mono with "Hl"). iIntros (i y _) "H".
  by replace (a + 1 + Z.of_nat i) with (a + Z.of_nat (S i)) by lia.
Qed.

Lemma word_image_own m ws : words m ws ->
  ([∗ map] x ↦ b ∈ word_image ws, pointsto x (DfracOwn 1) b) ⊢ own_words ws.
Proof.
  induction ws as [| w ws IH]; intros Hws; [iIntros "_"; by iApply big_sepL_nil |].
  destruct Hws as (Hv & _ & Hcl & Hws). cbn [word_image words_over foldr].
  rw blit_own. { iIntros "[Hb Hm]". iApply big_sepL_cons. iSplitL "Hb"; [by iFrame | by iApply IH]. }
  intros i Hi. apply word_image_off, clear_off; [done |]. change (length (le_list 8 w.2)) with 8%nat in Hi. lia.
Qed.

Lemma rest_valid m (r : bmem) :
  gen_heap_interp m -∗ ([∗ map] x ↦ b ∈ r, pointsto x (DfracOwn 1) b) -∗ ⌜r ⊆ m⌝.
Proof.
  iIntros "Hm Hr". rw map_subseteq_spec. iIntros (x b Hx).
  iDestruct (big_sepM_lookup with "Hr") as "Hx"; [exact Hx |].
  by iApply (gen_heap_valid with "Hm Hx").
Qed.

End logic.

(** A program proved in the logic to turn the words [ws] into words with
    [Q] does so on every heap that holds [ws]; nothing else of the heap
    changes and the allocator is not touched. *)
Lemma wp_adequate {A} (c : kprog A) (ws : list (Z * Z)) (Q : A -> list (Z * Z) -> Prop) h :
  (forall Sg `{!kobjGS Sg}, own_words ws ⊢ wp c (fun x => ∃ ws', ⌜Q x ws'⌝ ∗ own_words ws')) ->
  words (kh_mem h) ws ->
  exists x h' ws', c h = Done (x, h') /\ kh_mb h' = kh_mb h /\ Q x ws' /\ words (kh_mem h') ws'
    /\ same_dom h h' /\ forall a, off_words ws a -> kh_mem h' !! a = kh_mem h !! a.
Proof.
  intros Hc Hws. apply (@pure_soundness (iProp (gen_heapΣ Z Z)) _).
  apply (uPred.bupd_soundness _).
  iMod (gen_heap_init (kh_mem h)) as (HG) "(Hm & Hp & _)".
  pose (HK := KobjGS _ HG (fun mb => ⌜mb = kh_mb h⌝%I)).
  iDestruct (big_sepM_subseteq _ _ (word_image ws ∪ (kh_mem h ∖ word_image ws)) with "Hp") as "Hp".
  { rw map_difference_union; [done |]. by apply word_image_sub. }
  iDestruct (big_sepM_union with "Hp") as "[Hw Hr]"; [by apply map_disjoint_difference_r1 |].
  iDestruct (@word_image_own _ HK _ _ Hws with "Hw") as "Hw".
  iMod (Hc _ HK with "Hw [$Hm]") as (x h') "([%E %U] & Hi & (%ws' & %HQ & Hw))"; [done |].
  iDestruct (own_words_valid with "Hi Hw") as %Hws'.
  iDestruct "Hi" as "[Hm %Hmb]". iDestruct (rest_valid with "Hm Hr") as %Hsub.
  iModIntro. iPureIntro. exists x, h', ws'. split_and!; try done.
  intros a Ha. destruct (kh_mem h !! a) as [b |] eqn:Hb; [| by apply U]. eapply lookup_weaken; [| exact Hsub].
  apply lookup_difference_Some. split; [done | by apply word_image_off].
Qed.

#[global] Typeclasses Opaque pts wp own_words interp.
