(* ===== verification/Rbtree.v ===== *)
(** * Red-black trees with parent pointers: [linux_porting/lib/rbtree.c]

    A node is three words: the address of the parent with the colour in bit
    0, the right child and the left child; the root is one word.  The code of
    rbtree.c, [rbtree.h] and [rbtree_augmented.h] is translated statement by
    statement over words of memory ([Kobj]).

    The C code writes every case twice, once per side.  Here a case is written
    once, with the side [d] of the tree the work is on: [rb_child d] is
    [rb_left] for [LEFT] and [rb_right] for [RIGHT].

    The loops go along a path of the tree; [RB_FUEL] bounds their turns, and
    [RbtreeSpec] shows that it is enough for every tree that fits in memory. *)

From S2P Require Import Prelude Kmalloc Kobj.

Definition RB_RED : Z := 0.
Definition RB_BLACK : Z := 1.
Definition RB_FUEL : nat := 140.

Inductive side := LEFT | RIGHT.
Definition opp (d : side) : side := match d with LEFT => RIGHT | RIGHT => LEFT end.

(** ** [struct rb_node] *)

Definition rb_offset (d : side) : Z := match d with RIGHT => 8 | LEFT => 16 end.

Definition rb_child (d : side) (n : Z) : kprog Z := ldw (n + rb_offset d).
Definition rb_set_child (d : side) (n v : Z) : kprog unit := stw (n + rb_offset d) v.

Definition __rb_parent (pc : Z) : Z := Z.land pc (u64 (Z.lnot 3)).
Definition __rb_color (pc : Z) : Z := Z.land pc 1.

Definition rb_parent (n : Z) : kprog Z := pc ← ldw n; mret (__rb_parent pc).
Definition rb_color (n : Z) : kprog Z := pc ← ldw n; mret (__rb_color pc).
Definition rb_is_black (n : Z) : kprog bool := c ← rb_color n; mret (negb (c =? 0)).
Definition rb_is_red (n : Z) : kprog bool := c ← rb_color n; mret (c =? 0).

Definition rb_set_black (n : Z) : kprog unit := pc ← ldw n; stw n (u64 (pc + RB_BLACK)).
Definition rb_red_parent (n : Z) : kprog Z := ldw n.

Definition rb_set_parent (n p : Z) : kprog unit := c ← rb_color n; stw n (u64 (c + p)).
Definition rb_set_parent_color (n p c : Z) : kprog unit := stw n (u64 (p + c)).

(** [RB_EMPTY_NODE], [RB_CLEAR_NODE] *)
Definition RB_EMPTY_NODE (n : Z) : kprog bool := pc ← ldw n; mret (pc =? n).
Definition RB_CLEAR_NODE (n : Z) : kprog unit := stw n n.

(** [rb_link] is the address of the link to set. *)
Definition rb_link_node (node parent rb_link : Z) : kprog unit :=
  stw node parent;;
  rb_set_child RIGHT node 0;;
  rb_set_child LEFT node 0;;
  stw rb_link node.

Definition __rb_change_child (old new parent root : Z) : kprog unit :=
  if parent =? 0 then stw root new
  else
    l ← rb_child LEFT parent;
    if l =? old then rb_set_child LEFT parent new else rb_set_child RIGHT parent new.

Definition __rb_rotate_set_parents (old new root color : Z) : kprog unit :=
  parent ← rb_parent old;
  pc ← ldw old;
  stw new pc;;
  rb_set_parent_color old new color;;
  __rb_change_child old new parent root.

(** Both loops begin with the same test: [tmp = parent->rb_right; if (n != tmp)]
    the node is the left child and [tmp] the right one, else the node is the
    right child and [tmp = parent->rb_left]. *)
Definition rb_other_child (parent n : Z) : kprog (side * Z) :=
  tmp ← rb_child RIGHT parent;
  if negb (n =? tmp) then mret (LEFT, tmp)
  else tmp ← rb_child LEFT parent; mret (RIGHT, tmp).

(** ** Insertion *)

(** Case 2: the node is the inner child of its parent. *)
Definition rb_insert_case2 (rotate : Z -> Z -> kprog unit) (d : side) (node parent : Z)
    : kprog (Z * Z) :=
  tmp ← rb_child d node;
  rb_set_child (opp d) parent tmp;;
  rb_set_child d node parent;;
  kwhen (negb (tmp =? 0)) (rb_set_parent_color tmp parent RB_BLACK);;
  rb_set_parent_color parent node RB_RED;;
  rotate parent node;;
  tmp ← rb_child (opp d) node;
  mret (node, tmp).

(** Case 3: the node is the outer child; rotate at the grandparent. *)
Definition rb_insert_case3 (rotate : Z -> Z -> kprog unit) (d : side) (root parent gparent tmp : Z)
    : kprog unit :=
  rb_set_child d gparent tmp;;
  rb_set_child (opp d) parent gparent;;
  kwhen (negb (tmp =? 0)) (rb_set_parent_color tmp gparent RB_BLACK);;
  __rb_rotate_set_parents gparent parent root RB_RED;;
  rotate gparent parent.

Fixpoint __rb_insert_loop (fuel : nat) (rotate : Z -> Z -> kprog unit) (root node parent : Z)
    : kprog unit :=
  match fuel with
  | O => kfuel
  | S fuel =>
      if parent =? 0 then rb_set_parent_color node 0 RB_BLACK
      else
        black ← rb_is_black parent;
        if (black : bool) then mret tt
        else
          gparent ← rb_red_parent parent;
          '(d, tmp) ← rb_other_child gparent parent;
          red ← (if tmp =? 0 then mret false else rb_is_red tmp);
          if (red : bool) then
            rb_set_parent_color tmp gparent RB_BLACK;;
            rb_set_parent_color parent gparent RB_BLACK;;
            parent ← rb_parent gparent;
            rb_set_parent_color gparent parent RB_RED;;
            __rb_insert_loop fuel rotate root gparent parent
          else
            tmp ← rb_child (opp d) parent;
            '(parent, tmp) ← (if node =? tmp then rb_insert_case2 rotate d node parent
                              else mret (parent, tmp));
            rb_insert_case3 rotate d root parent gparent tmp
  end.

Definition __rb_insert (node root : Z) (rotate : Z -> Z -> kprog unit) : kprog unit :=
  parent ← rb_red_parent node;
  __rb_insert_loop RB_FUEL rotate root node parent.

(** ** Repairing the black height after a removal *)

(** Case 1: a red sibling is rotated above the parent. *)
Definition rb_erase_case1 (rotate : Z -> Z -> kprog unit) (d : side) (root parent sibling : Z)
    : kprog Z :=
  tmp1 ← rb_child d sibling;
  rb_set_child (opp d) parent tmp1;;
  rb_set_child d sibling parent;;
  rb_set_parent_color tmp1 parent RB_BLACK;;
  __rb_rotate_set_parents parent sibling root RB_RED;;
  rotate parent sibling;;
  mret tmp1.

(** Case 3: rotate the inner child [tmp2] of the sibling above it. *)
Definition rb_erase_case3 (rotate : Z -> Z -> kprog unit) (d : side) (parent sibling tmp2 : Z)
    : kprog unit :=
  tmp1 ← rb_child (opp d) tmp2;
  rb_set_child d sibling tmp1;;
  rb_set_child (opp d) tmp2 sibling;;
  rb_set_child (opp d) parent tmp2;;
  kwhen (negb (tmp1 =? 0)) (rb_set_parent_color tmp1 sibling RB_BLACK);;
  rotate sibling tmp2.

(** Case 4: rotate the sibling above the parent and repaint. *)
Definition rb_erase_case4 (rotate : Z -> Z -> kprog unit) (d : side) (root parent sibling tmp1 : Z)
    : kprog unit :=
  tmp2 ← rb_child d sibling;
  rb_set_child (opp d) parent tmp2;;
  rb_set_child d sibling parent;;
  rb_set_parent_color tmp1 sibling RB_BLACK;;
  kwhen (negb (tmp2 =? 0)) (rb_set_parent tmp2 parent);;
  __rb_rotate_set_parents parent sibling root RB_BLACK;;
  rotate parent sibling.

(** [!tmp || rb_is_black(tmp)] *)
Definition null_or_black (tmp : Z) : kprog bool :=
  if tmp =? 0 then mret true else rb_is_black tmp.

(** A turn of the loop once the sibling is black; [loop] is the next turn. *)
Definition rb_erase_black_sibling (loop : Z -> Z -> kprog unit) (rotate : Z -> Z -> kprog unit)
    (d : side) (root parent sibling : Z) : kprog unit :=
  tmp1 ← rb_child (opp d) sibling;
  black1 ← null_or_black tmp1;
  if (black1 : bool) then
    tmp2 ← rb_child d sibling;
    black2 ← null_or_black tmp2;
    if (black2 : bool) then
      rb_set_parent_color sibling parent RB_RED;;
      pred ← rb_is_red parent;
      if (pred : bool) then rb_set_black parent
      else
        gparent ← rb_parent parent;
        if gparent =? 0 then mret tt else loop parent gparent
    else
      rb_erase_case3 rotate d parent sibling tmp2;;
      rb_erase_case4 rotate d root parent tmp2 sibling
  else rb_erase_case4 rotate d root parent sibling tmp1.

Fixpoint ____rb_erase_color_loop (fuel : nat) (rotate : Z -> Z -> kprog unit) (root node parent : Z)
    : kprog unit :=
  match fuel with
  | O => kfuel
  | S fuel =>
      '(d, sibling) ← rb_other_child parent node;
      red ← rb_is_red sibling;
      sibling ← (if (red : bool) then rb_erase_case1 rotate d root parent sibling else mret sibling);
      rb_erase_black_sibling (____rb_erase_color_loop fuel rotate root) rotate d root parent sibling
  end.

Definition ____rb_erase_color (parent root : Z) (rotate : Z -> Z -> kprog unit) : kprog unit :=
  ____rb_erase_color_loop RB_FUEL rotate root 0 parent.

(** ** Augmented trees *)

Record rb_augment_callbacks := {
  propagate : Z -> Z -> kprog unit;
  copy : Z -> Z -> kprog unit;
  rotate : Z -> Z -> kprog unit;
}.

(** The walk of case 3 of [__rb_erase_augmented] down to the successor:
    returns its parent and itself. *)
Fixpoint rb_leftmost_below (fuel : nat) (successor tmp : Z) : kprog (Z * Z) :=
  match fuel with
  | O => kfuel
  | S fuel =>
      let parent := successor in
      let successor := tmp in
      tmp ← rb_child LEFT tmp;
      if tmp =? 0 then mret (parent, successor) else rb_leftmost_below fuel successor tmp
  end.

(** The node has two children: its successor, with its parent and its
    right child, is taken out of the right subtree (cases 2 and 3). *)
Definition rb_detach_successor (augment : rb_augment_callbacks) (node child : Z) : kprog (Z * Z * Z) :=
  tmp ← rb_child LEFT child;
  if tmp =? 0 then
    child2 ← rb_child RIGHT child;
    copy augment node child;;
    mret (child, child, child2)
  else
    '(parent, successor) ← rb_leftmost_below RB_FUEL child tmp;
    child2 ← rb_child RIGHT successor;
    rb_set_child LEFT parent child2;;
    rb_set_child RIGHT successor child;;
    rb_set_parent child successor;;
    copy augment node successor;;
    propagate augment parent successor;;
    mret (parent, successor, child2).

(** The successor takes the place of the node. *)
Definition rb_erase_two (augment : rb_augment_callbacks) (node root child : Z) : kprog Z :=
  '(parent, successor, child2) ← rb_detach_successor augment node child;
  tmp ← rb_child LEFT node;
  rb_set_child LEFT successor tmp;;
  rb_set_parent tmp successor;;
  pc ← ldw node;
  __rb_change_child node successor (__rb_parent pc) root;;
  rebalance ←
    (if negb (child2 =? 0) then
       rb_set_parent_color child2 parent RB_BLACK;; mret 0
     else
       black ← rb_is_black successor;
       mret (if (black : bool) then parent else 0));
  stw successor pc;;
  propagate augment successor 0;;
  mret rebalance.

Definition __rb_erase_augmented (node root : Z) (augment : rb_augment_callbacks) : kprog Z :=
  child ← rb_child RIGHT node;
  tmp ← rb_child LEFT node;
  if tmp =? 0 then
    pc ← ldw node;
    let parent := __rb_parent pc in
    __rb_change_child node child parent root;;
    rebalance ← (if negb (child =? 0) then stw child pc;; mret 0
                 else mret (if negb (__rb_color pc =? 0) then parent else 0));
    propagate augment parent 0;;
    mret rebalance
  else if child =? 0 then
    pc ← ldw node;
    stw tmp pc;;
    let parent := __rb_parent pc in
    __rb_change_child node tmp parent root;;
    propagate augment parent 0;;
    mret 0
  else rb_erase_two augment node root child.

Definition rb_erase_augmented (node root : Z) (augment : rb_augment_callbacks) : kprog unit :=
  rebalance ← __rb_erase_augmented node root augment;
  kwhen (negb (rebalance =? 0)) (____rb_erase_color rebalance root (rotate augment)).

Definition rb_insert_augmented (node root : Z) (augment : rb_augment_callbacks) : kprog unit :=
  __rb_insert node root (rotate augment).

(** The callbacks of a plain tree do nothing. *)
Definition dummy_callbacks : rb_augment_callbacks := {|
  propagate := fun _ _ => mret tt;
  copy := fun _ _ => mret tt;
  rotate := fun _ _ => mret tt;
|}.

Definition rb_insert_color (node root : Z) : kprog unit := __rb_insert node root (rotate dummy_callbacks).

Definition rb_erase (node root : Z) : kprog unit :=
  rebalance ← __rb_erase_augmented node root dummy_callbacks;
  kwhen (negb (rebalance =? 0)) (____rb_erase_color rebalance root (rotate dummy_callbacks)).
