(* ===== verification/RbTrees.v ===== *)
(** * Red-black trees as values

    The tree the pointers of [Rbtree] spell out, and what insertion and
    removal do to it, as functions on a zipper: a context (the path from a
    node to the root, nearest first) and the subtree below it.  [RbtreeSpec]
    proves that the C code computes these functions; the facts that make
    them correct are proved here: the order of the nodes is kept, the colours
    and black heights stay in balance, so paths are logarithmic.

    A node carries data of type [A]; [a_fix] recomputes the augmented part of
    the data from the children and [a_copy] hands it from a node to the one
    that replaces it ([Aug]). *)

From S2P Require Import Prelude Kmalloc Kobj Rbtree.

Inductive color := Red | Black.
#[global] Instance color_eq_dec : EqDecision color.
Proof. solve_decision. Defined.
#[global] Instance side_eq_dec : EqDecision side.
Proof. solve_decision. Defined.

Definition color_z (c : color) : Z := match c with Red => RB_RED | Black => RB_BLACK end.

Inductive tree (A : Type) :=
  | E
  | T (c : color) (l : tree A) (x : Z) (a : A) (r : tree A).
Arguments E {A}.
Arguments T {A} c l x a r.

(** The augmented part of the data: how it is recomputed and copied, and the
    part that neither changes. *)
Class Aug (A : Type) := {
  aug_eq :: EqDecision A;
  a_fix : A -> option A -> option A -> A;
  a_copy : A -> A -> A;
  a_key : A -> Z * Z;
  a_key_fix a l r : a_key (a_fix a l r) = a_key a;
  a_key_copy a b : a_key (a_copy a b) = a_key b;
}.

Section trees.
Context {A : Type} `{!Aug A}.
Implicit Types (t l r : tree A) (c : color) (d : side) (a : A).

(** ** Trees seen from a side *)

Definition mk d c near (x : Z) a far : tree A :=
  match d with LEFT => T c near x a far | RIGHT => T c far x a near end.

Definition addr t : Z := match t with E => 0 | T _ _ x _ _ => x end.
Definition data t : option A := match t with E => None | T _ _ _ a _ => Some a end.
Definition is_red t : bool := match t with T Red _ _ _ _ => true | _ => false end.
Definition is_empty t : bool := match t with E => true | _ => false end.
Definition paint c t : tree A := match t with E => E | T _ l x a r => T c l x a r end.

Definition view d t : option (color * tree A * Z * A * tree A) :=
  match t with
  | E => None
  | T c l x a r => Some (match d with LEFT => (c, l, x, a, r) | RIGHT => (c, r, x, a, l) end)
  end.

Definition refit d a near far : A :=
  match d with
  | LEFT => a_fix a (data near) (data far)
  | RIGHT => a_fix a (data far) (data near)
  end.

(** ** Contexts *)

Record frame := mkF {
  fr_side : side;
  fr_color : color;
  fr_addr : Z;
  fr_data : A;
  fr_sib : tree A;
}.

Definition fill (f : frame) t : tree A :=
  mk (fr_side f) (fr_color f) t (fr_addr f) (fr_data f) (fr_sib f).

Definition plug (C : list frame) t : tree A := fold_left (fun t f => fill f t) C t.

(** The address of the node above the hole, [top] above the whole tree. *)
Definition above (top : Z) (C : list frame) : Z :=
  match C with [] => top | f :: _ => fr_addr f end.

(** Recomputing the data upwards until nothing changes. *)
Fixpoint update (C : list frame) t : list frame :=
  match C with
  | [] => []
  | f :: C' =>
      let a := refit (fr_side f) (fr_data f) t (fr_sib f) in
      if decide (a = fr_data f) then C
      else
        let f := mkF (fr_side f) (fr_color f) (fr_addr f) a (fr_sib f) in
        f :: update C' (fill f t)
  end.

(** ** Insertion *)

(** The rotation at the grandparent [g]: the node [x] comes on top. *)
Definition rot_up (g : frame) near (x : Z) a tmp : tree A :=
  let d := fr_side g in
  let tmp := paint Black tmp in
  mk d (fr_color g) near x (a_copy (fr_data g) a)
    (mk d Red tmp (fr_addr g) (refit d (fr_data g) tmp (fr_sib g)) (fr_sib g)).

Definition ins_rotate (g f : frame) t : option (tree A) :=
  let d := fr_side g in
  if decide (fr_side f = d) then Some (rot_up g t (fr_addr f) (fr_data f) (fr_sib f))
  else
    match view d t with
    | Some (_, near, x, a, far) =>
        let near := paint Black near in
        Some (rot_up g (mk d Red (fr_sib f) (fr_addr f) (refit d (fr_data f) (fr_sib f) near) near)
                x (a_copy (fr_data f) a) far)
    | None => None
    end.

Fixpoint fix_ins (C : list frame) t : option (tree A) :=
  match C with
  | [] => Some (paint Black t)
  | f :: C1 =>
      match fr_color f with
      | Black => Some (plug C t)
      | Red =>
          match C1 with
          | [] => None
          | g :: C2 =>
              if is_red (fr_sib g) then
                fix_ins C2 (mk (fr_side g) Red
                  (mk (fr_side f) Black t (fr_addr f) (fr_data f) (fr_sib f))
                  (fr_addr g) (fr_data g) (paint Black (fr_sib g)))
              else plug C2 <$> ins_rotate g f t
          end
      end
  end.

(** ** Removal *)

(** The parent [f] has a black sibling; [up] continues above. *)
Definition del_tail (up : tree A -> option (tree A)) (C : list frame) (f : frame) t : option (tree A) :=
  let d := fr_side f in
  match view d (fr_sib f) with
  | None => None
  | Some (_, sn, sx, sa, sf) =>
      if is_red sf then
        Some (plug C (mk d (fr_color f)
          (mk d Black t (fr_addr f) (refit d (fr_data f) t sn) sn)
          sx (a_copy (fr_data f) sa) (paint Black sf)))
      else
        match view d sn with
        | Some (Red, n1, nx, na, n2) =>
            let n2 := paint Black n2 in
            let na := a_copy sa na in
            Some (plug C (mk d (fr_color f)
              (mk d Black t (fr_addr f) (refit d (fr_data f) t n1) n1)
              nx (a_copy (fr_data f) na)
              (mk d Black n2 sx (refit d sa n2 sf) sf)))
        | _ =>
            let p := mk d Black t (fr_addr f) (fr_data f) (paint Red (fr_sib f)) in
            match fr_color f with
            | Red => Some (plug C p)
            | Black => up p
            end
        end
  end.

Fixpoint fix_del (C : list frame) t : option (tree A) :=
  match C with
  | [] => Some t
  | f :: C1 =>
      let d := fr_side f in
      match view d (fr_sib f) with
      | None => None
      | Some (Red, sn, sx, sa, sf) =>
          if is_empty sn then None
          else
            let sn := paint Black sn in
            del_tail (fun _ => None)
              (mkF d (fr_color f) sx (a_copy (fr_data f) sa) sf :: C1)
              (mkF d Red (fr_addr f) (refit d (fr_data f) t sn) sn) t
      | Some (Black, _, _, _, _) => del_tail (fix_del C1) C1 f t
      end
  end.

(** The leftmost node of a tree, with the path to it. *)
Fixpoint zip_left (C : list frame) t : option (list frame * (color * Z * A * tree A)) :=
  match t with
  | E => None
  | T c E x a r => Some (C, (c, x, a, r))
  | T c l x a r => zip_left (mkF LEFT c x a r :: C) l
  end.

(** A node of colour [c] was unlinked above the empty hole. *)
Definition drop c (C : list frame) : option (tree A) :=
  match c with Black => fix_del C E | Red => Some (plug C E) end.

(** The successor, leftmost in [r], replaces the node. *)
Definition erase_two (C : list frame) c l (a : A) r : option (tree A) :=
  match zip_left [] r with
  | None => None
  | Some (C2, (cs, sx, sa, cr)) =>
      let C2 := update C2 cr in
      let C := C2 ++ update (mkF RIGHT c sx (a_copy a sa) l :: C) (plug C2 cr) in
      if is_empty cr then drop cs C else Some (plug C (paint Black cr))
  end.

Definition erase_node (C : list frame) c l (a : A) r : option (tree A) :=
  if is_empty l then
    if is_empty r then drop c (update C E)
    else Some (plug (update C (paint c r)) (paint c r))
  else if is_empty r then Some (plug (update C (paint c l)) (paint c l))
  else erase_two C c l a r.

(** ** The order of the nodes *)

Fixpoint inord t : list (Z * (Z * Z)) :=
  match t with
  | E => []
  | T _ l x a r => inord l ++ (x, a_key a) :: inord r
  end.

(** What is left and right of the hole. *)
Fixpoint lkeys (C : list frame) : list (Z * (Z * Z)) :=
  match C with
  | [] => []
  | f :: C' =>
      lkeys C' ++ match fr_side f with
                  | LEFT => []
                  | RIGHT => inord (fr_sib f) ++ [(fr_addr f, a_key (fr_data f))]
                  end
  end.

Fixpoint rkeys (C : list frame) : list (Z * (Z * Z)) :=
  match C with
  | [] => []
  | f :: C' =>
      match fr_side f with
      | LEFT => (fr_addr f, a_key (fr_data f)) :: inord (fr_sib f)
      | RIGHT => []
      end ++ rkeys C'
  end.

Lemma plug_cons f C t : plug (f :: C) t = plug C (fill f t).
Proof. done. Qed.

Lemma plug_app C1 C2 t : plug (C1 ++ C2) t = plug C2 (plug C1 t).
Proof. apply fold_left_app. Qed.

Lemma inord_plug C : forall t, inord (plug C t) = lkeys C ++ inord t ++ rkeys C.
Proof.
  induction C as [| f C IH]; intros t; [by rewrite app_nil_r |].
  rewrite plug_cons, IH. destruct f as [[] c x a s]; simpl; by rewrite <- ?app_assoc; simpl; rewrite <- ?app_assoc.
Qed.

Lemma inord_paint c t : inord (paint c t) = inord t.
Proof. by destruct t. Qed.

Lemma data_paint c t : data (paint c t) = data t.
Proof. by destruct t. Qed.

Lemma refit_key d a l r : a_key (refit d a l r) = a_key a.
Proof. destruct d; apply a_key_fix. Qed.

Lemma inord_mk d c l x a r :
  inord (mk d c l x a r)
  = match d with
    | LEFT => inord l ++ (x, a_key a) :: inord r
    | RIGHT => inord r ++ (x, a_key a) :: inord l
    end.
Proof. by destruct d. Qed.

Create Rewrite HintDb inord.
#[local] Hint Rewrite inord_paint refit_key (@a_key_copy A) (@a_key_fix A) inord_mk : inord.

Lemma view_mk d c n x a f : view d (mk d c n x a f) = Some (c, n, x, a, f).
Proof. by destruct d. Qed.

Lemma view_Some d t c n x a f : view d t = Some (c, n, x, a, f) -> t = mk d c n x a f.
Proof. destruct t, d; simpl; congruence. Qed.

Lemma lkeys_app C1 C2 : lkeys (C1 ++ C2) = lkeys C2 ++ lkeys C1.
Proof. induction C1 as [| f C1 IH]; simpl; [by rewrite app_nil_r |]. by rewrite IH, app_assoc. Qed.

Lemma rkeys_app C1 C2 : rkeys (C1 ++ C2) = rkeys C1 ++ rkeys C2.
Proof. induction C1 as [| f C1 IH]; simpl; [done |]. by rewrite IH, app_assoc. Qed.

Lemma update_keys C : forall t, lkeys (update C t) = lkeys C /\ rkeys (update C t) = rkeys C.
Proof.
  induction C as [| f C IH]; intros t; simpl; [done |]. case_decide; [done |]. simpl.
  rewrite refit_key. by destruct (IH (fill {| fr_side := fr_side f; fr_color := fr_color f;
    fr_addr := fr_addr f; fr_data := refit (fr_side f) (fr_data f) t (fr_sib f); fr_sib := fr_sib f |} t))
    as [-> ->].
Qed.

Ltac inord_eq :=
  simpl; autorewrite with inord; simpl; autorewrite with inord;
  repeat (rewrite <- app_assoc; simpl); try done.

Lemma ins_rotate_inord g f t t' :
  ins_rotate g f t = Some t' -> inord t' = inord (fill g (fill f t)).
Proof.
  unfold ins_rotate, rot_up, fill. case_decide as Hd.
  - intros [= <-]. rewrite Hd. destruct (fr_side g); inord_eq.
  - destruct (view (fr_side g) t) as [[[[[c n] x] a] far] |] eqn:Hv; [| done].
    apply view_Some in Hv as ->. intros [= <-].
    destruct (fr_side g), (fr_side f); try done; inord_eq.
Qed.

Lemma fix_ins_inord n : forall C t t', (length C <= n)%nat ->
  fix_ins C t = Some t' -> inord t' = inord (plug C t).
Proof.
  induction n as [| n IH]; intros C t t' Hn H.
  { destruct C; [| simpl in Hn; lia]. injection H as <-. apply inord_paint. }
  destruct C as [| f [| g C]]; simpl in H.
  - injection H as <-. apply inord_paint.
  - destruct (fr_color f) eqn:Ef; [done | by injection H as <-].
  - destruct (fr_color f) eqn:Ef; [| by injection H as <-].
    rewrite !plug_cons. case_match eqn:Eg.
    + apply IH in H; [| simpl in Hn; lia]. rewrite H, !inord_plug. do 2 f_equal.
      unfold fill. destruct (fr_side g), (fr_side f); inord_eq.
    + apply fmap_Some in H as (t1 & H & ->). apply ins_rotate_inord in H. by rewrite !inord_plug, H.
Qed.

Lemma del_tail_inord up C f t t' :
  (forall t1 t2, up t1 = Some t2 -> inord t2 = inord (plug C t1)) ->
  del_tail up C f t = Some t' -> inord t' = inord (plug C (fill f t)).
Proof.
  intros Hup H. rewrite inord_plug.
  assert (H2 : forall cf, inord (mk (fr_side f) cf t (fr_addr f) (fr_data f) (paint Red (fr_sib f)))
    = inord (fill f t)) by (intros cf; unfold fill; destruct (fr_side f); inord_eq).
  assert (Hg : (match fr_color f with
      | Red => Some (plug C (mk (fr_side f) Black t (fr_addr f) (fr_data f) (paint Red (fr_sib f))))
      | Black => up (mk (fr_side f) Black t (fr_addr f) (fr_data f) (paint Red (fr_sib f)))
      end) = Some t' -> inord t' = lkeys C ++ inord (fill f t) ++ rkeys C).
  { destruct (fr_color f); [intros [= <-] | intros H1; rewrite (Hup _ _ H1)]; by rewrite inord_plug, H2. }
  unfold del_tail in H.
  destruct (view (fr_side f) (fr_sib f)) as [[[[[c sn] sx] sa] sf] |] eqn:Hv; [| done].
  apply view_Some in Hv. destruct (is_red sf).
  - injection H as <-. rewrite inord_plug. unfold fill. rewrite Hv. destruct (fr_side f); inord_eq.
  - destruct (view (fr_side f) sn) as [[[[[[] n1] nx] na] n2] |] eqn:Hn; [| by apply Hg..].
    injection H as <-. apply view_Some in Hn. rewrite inord_plug. unfold fill. rewrite Hv, Hn.
    destruct (fr_side f); inord_eq.
Qed.

Lemma fix_del_inord C : forall t t', fix_del C t = Some t' -> inord t' = inord (plug C t).
Proof.
  induction C as [| f C IH]; intros t t' H; simpl in H; [by injection H as <- |].
  destruct (view (fr_side f) (fr_sib f)) as [[[[[[] sn] sx] sa] sf] |] eqn:Hv; [| | done].
  - destruct (is_empty sn); [done |]. apply del_tail_inord in H; [| done].
    rewrite H, !plug_cons, !inord_plug. do 2 f_equal. apply view_Some in Hv. unfold fill. rewrite Hv.
    destruct (fr_side f); inord_eq.
  - by apply del_tail_inord in H.
Qed.

Lemma zip_left_inord t : forall C C2 c x a r,
  zip_left C t = Some (C2, (c, x, a, r)) ->
  exists C1, C2 = C1 ++ C /\ inord t = (x, a_key a) :: inord (plug C1 r) /\ lkeys C1 = [] /\ t = plug C1 (T c E x a r).
Proof.
  induction t as [| c0 l IH x0 a0 r0 _]; intros C C2 c x a r; simpl; [done |].
  destruct l as [| cl ll xl al rl] eqn:El; rewrite <- El in *.
  - rewrite El. intros [= <- <- <- <- <-]. by exists [].
  - destruct l; [done |]. intros H. apply IH in H as (C1 & -> & Hi & Hl & Ht).
    exists (C1 ++ [mkF LEFT c0 x0 a0 r0]).
    rewrite <- app_assoc, !plug_app, lkeys_app, Hl. split; [done |]. rewrite <- Ht.
    cbn [plug fold_left fill mk fr_side inord fr_sib fr_color fr_addr fr_data] in *.
    unfold fill. simpl. rewrite Hi. done.
Qed.

Lemma drop_inord c C t' : drop c C = Some t' -> inord t' = lkeys C ++ rkeys C.
Proof.
  intros H. change (inord t' = lkeys C ++ inord (@E A) ++ rkeys C). rewrite <- inord_plug.
  destruct c; [by injection H as <- | by apply fix_del_inord].
Qed.

Lemma is_empty_true t : is_empty t = true -> t = E.
Proof. by destruct t. Qed.

Lemma erase_node_inord C c l a r t' :
  erase_node C c l a r = Some t' -> inord t' = lkeys C ++ (inord l ++ inord r) ++ rkeys C.
Proof.
  assert (Hp : forall t, inord (plug (update C (paint c t)) (paint c t)) = lkeys C ++ inord t ++ rkeys C).
  { intros t. rewrite inord_plug, inord_paint. by destruct (update_keys C (paint c t)) as [-> ->]. }
  unfold erase_node. destruct (is_empty l) eqn:El; [apply is_empty_true in El as -> |].
  - destruct (is_empty r) eqn:Er; [apply is_empty_true in Er as -> |].
    + intros H. apply drop_inord in H. rewrite H. by destruct (update_keys C E) as [-> ->].
    + intros [= <-]. apply Hp.
  - destruct (is_empty r) eqn:Er; [apply is_empty_true in Er as -> |].
    + rewrite app_nil_r. intros [= <-]. apply Hp.
    + unfold erase_two. destruct (zip_left [] r) as [[C2 [[[cs sx] sa] cr]] |] eqn:Hz; [| done].
      apply zip_left_inord in Hz as (C1 & -> & Hi & Hl & _). rewrite app_nil_r. cbv zeta.
      set (fs := mkF RIGHT c sx (a_copy a sa) l). intros H.
      assert (Hf : inord t' = lkeys (C1 ++ fs :: C) ++ inord cr ++ rkeys (C1 ++ fs :: C)).
      { rewrite lkeys_app, rkeys_app.
        destruct (update_keys C1 cr) as [<- <-],
          (update_keys (fs :: C) (plug (update C1 cr) cr)) as [<- <-].
        rewrite <- lkeys_app, <- rkeys_app.
        destruct (is_empty cr) eqn:Ecr; [apply is_empty_true in Ecr as ->; by apply drop_inord in H |].
        injection H as <-. by rewrite inord_plug, inord_paint. }
      rewrite Hf, lkeys_app, rkeys_app, Hi, inord_plug, Hl. unfold fs. simpl.
      rewrite a_key_copy. repeat (rewrite <- app_assoc; simpl). done.
Qed.

(** ** Addresses *)

Fixpoint nodes t : list Z :=
  match t with E => [] | T _ l x _ r => nodes l ++ x :: nodes r end.

Fixpoint ctx_nodes (C : list frame) : list Z :=
  match C with [] => [] | f :: C' => fr_addr f :: nodes (fr_sib f) ++ ctx_nodes C' end.

Lemma nodes_inord t : nodes t = (inord t).*1.
Proof. induction t as [| c l IH1 x a r IH2]; simpl; [done |]. by rewrite IH1, IH2, fmap_app. Qed.

Lemma nodes_mk d c l x a r : nodes (mk d c l x a r) ≡ₚ x :: nodes l ++ nodes r.
Proof.
  destruct d; simpl; rewrite <- Permutation_middle; [done |]. by rewrite (Permutation_app_comm (nodes r)).
Qed.

Lemma nodes_plug_perm C : forall t, nodes (plug C t) ≡ₚ nodes t ++ ctx_nodes C.
Proof.
  induction C as [| f C IH]; intros t; simpl; [by rewrite app_nil_r |].
  rewrite IH. unfold fill. rewrite nodes_mk, <- Permutation_middle. simpl. by rewrite app_assoc.
Qed.

(** Every node of a tree has a context. *)
Lemma node_ctx t x : x ∈ nodes t -> exists C c l a r, t = plug C (T c l x a r).
Proof.
  induction t as [| c l IH1 y a r IH2]; simpl; [intros H; by apply elem_of_nil in H |].
  rewrite elem_of_app, elem_of_cons. intros [Hx | [-> | Hx]].
  - destruct (IH1 Hx) as (C & c' & l' & a' & r' & ->).
    exists (C ++ [mkF LEFT c y a r]), c', l', a', r'. by rewrite plug_app.
  - by exists [], c, l, a, r.
  - destruct (IH2 Hx) as (C & c' & l' & a' & r' & ->).
    exists (C ++ [mkF RIGHT c y a l]), c', l', a', r'. by rewrite plug_app.
Qed.

(** ** Balance *)

(** [rb t c n]: [t] has a root of colour [c] (empty trees are black), no red
    node with a red child, and [n] black nodes on every path. *)
Inductive rb : tree A -> color -> nat -> Prop :=
  | rb_E : rb E Black 0
  | rb_R l x a r n : rb l Black n -> rb r Black n -> rb (T Red l x a r) Red n
  | rb_B l x a r c1 c2 n : rb l c1 n -> rb r c2 n -> rb (T Black l x a r) Black (S n).

(** [hole C c n m]: with a tree of colour [c] and black height [n] below it,
    the context is a balanced tree with a black root and black height [m]. *)
Inductive hole : list frame -> color -> nat -> nat -> Prop :=
  | hole_nil m : hole [] Black m m
  | hole_black d x a s cs C c n m :
      rb s cs n -> hole C Black (S n) m -> hole (mkF d Black x a s :: C) c n m
  | hole_red d x a s C n m :
      rb s Black n -> hole C Red n m -> hole (mkF d Red x a s :: C) Black n m.

#[local] Hint Constructors rb hole : core.

Lemma rb_mk_R d l x a r n : rb l Black n -> rb r Black n -> rb (mk d Red l x a r) Red n.
Proof. destruct d; simpl; auto. Qed.

Lemma rb_mk_B d l x a r c1 c2 n : rb l c1 n -> rb r c2 n -> rb (mk d Black l x a r) Black (S n).
Proof. destruct d; simpl; eauto. Qed.

#[local] Hint Resolve rb_mk_R rb_mk_B : core.

Lemma rb_paint t c n : rb t c n -> exists n', rb (paint Black t) Black n'.
Proof. intros H. inversion H; subst; simpl; eauto. Qed.

Lemma rb_black_root t c n : rb t c n -> is_red t = false -> c = Black.
Proof. intros H. by inversion H. Qed.

Lemma rb_red_root t c n : rb t c n -> is_red t = true -> c = Red.
Proof. intros H. by inversion H. Qed.

Lemma rb_paint_red t n : rb t Red n -> rb (paint Black t) Black (S n).
Proof. intros H. inversion H; subst; simpl; eauto. Qed.

Lemma rb_paint_black t n : rb t Black n -> paint Black t = t.
Proof. intros H. by inversion H. Qed.

Lemma rb_view d t c n :
  rb t c n ->
  match view d t with
  | None => c = Black /\ n = 0%nat
  | Some (c', l, x, a, r) =>
      c' = c /\ exists c1 c2 k, rb l c1 k /\ rb r c2 k
      /\ match c with Red => c1 = Black /\ c2 = Black /\ k = n | Black => n = S k end
  end.
Proof. intros H. inversion H; subst; simpl; [done |..]; destruct d; eauto 10. Qed.

Lemma hole_weaken C c n m : hole C c n m -> hole C Black n m.
Proof. inversion 1; subst; eauto. Qed.

Lemma rb_plug C : forall t c n m, rb t c n -> hole C c n m -> rb (plug C t) Black m.
Proof.
  induction C as [| f C IH]; intros t c n m Ht HC; inversion HC; subst; [done |..];
    rewrite plug_cons; eapply IH; eauto; unfold fill; simpl; eauto.
Qed.

Lemma rb_plug_inv C : forall t m, rb (plug C t) Black m -> exists c n, rb t c n /\ hole C c n m.
Proof.
  induction C as [| f C IH]; intros t m H; [eauto |].
  rewrite plug_cons in H. apply IH in H as (c & n & Ht & HC).
  destruct f as [[] [] x a s]; unfold fill in Ht; simpl in Ht; inversion Ht; subst; eauto.
Qed.

(** Insertion: the new node is red in a place that was empty. *)
Lemma fix_ins_balanced k : forall C t n m, (length C <= k)%nat ->
  rb t Red n -> hole C Black n m -> exists t' m', fix_ins C t = Some t' /\ rb t' Black m'.
Proof.
  induction k as [| k IH]; intros C t n m Hk Ht HC.
  { destruct C; [| simpl in Hk; lia]. simpl. destruct (rb_paint _ _ _ Ht). eauto. }
  destruct C as [| f C1]; simpl; [destruct (rb_paint _ _ _ Ht); eauto |].
  inversion HC as [| | ? ? ? s ? ? ? Hs HC1]; subst; simpl.
  { exists (plug C1 (mk d Black t x a s)), m. split; [done |]. eapply rb_plug; eauto. }
  inversion HC1 as [| d' x' a' s' cs' C2 ? ? ? Hs' HC2 |]; subst. simpl. destruct (is_red s') eqn:Er.
  - pose proof (rb_red_root _ _ _ Hs' Er) as ->. apply rb_paint_red in Hs'.
    eapply IH; eauto. simpl in Hk; lia.
  - pose proof (rb_black_root _ _ _ Hs' Er) as ->.
    assert (Hrot : exists t', ins_rotate (mkF d' Black x' a' s') (mkF d Red x a s) t = Some t'
      /\ rb t' Black (S n)).
    { unfold ins_rotate, rot_up. simpl. case_decide as Ed.
      - rewrite (rb_paint_black s n) by done. eauto 10.
      - pose proof (rb_view d' t Red n Ht) as Hv. destruct (view d' t) as [[[[[? l] y] b] r] |]; [| by destruct Hv].
        destruct Hv as (_ & ? & ? & ? & Hl & Hr & -> & -> & ->).
        rewrite (rb_paint_black l n), (rb_paint_black r n) by done. eauto 10. }
    destruct Hrot as (t' & -> & Ht'). simpl. eexists _, _. split; [done |]. eapply rb_plug; eauto.
Qed.

(** Removal: the black height below the hole is one short. *)
Definition bump c (n : nat) : nat := match c with Red => n | Black => S n end.

Lemma rb_mk_any d c l x a r n : rb l Black n -> rb r Black n -> rb (mk d c l x a r) c (bump c n).
Proof. destruct c; simpl; eauto. Qed.

Lemma del_tail_balanced up C f t n m :
  rb t Black n -> rb (fr_sib f) Black (S n) -> hole C (fr_color f) (bump (fr_color f) (S n)) m ->
  (fr_color f = Black -> forall p, rb p Black (S n) -> exists t' m', up p = Some t' /\ rb t' Black m') ->
  exists t' m', del_tail up C f t = Some t' /\ rb t' Black m'.
Proof.
  intros Ht Hs HC Hup. unfold del_tail.
  pose proof (rb_view (fr_side f) _ _ _ Hs) as Hv.
  destruct (view (fr_side f) (fr_sib f)) as [[[[[c sn] sx] sa] sf] |] eqn:Ev; [| by destruct Hv].
  destruct Hv as (-> & c1 & c2 & k & Hn & Hf & [= <-]).
  assert (Hplug : forall near y b far, rb near Black (S n) -> rb far Black (S n) ->
    exists t' m', Some (plug C (mk (fr_side f) (fr_color f) near y b far)) = Some t' /\ rb t' Black m').
  { intros. eexists _, _. split; [done |]. eapply rb_plug; [by apply rb_mk_any | done]. }
  assert (Hbl : forall y b c', rb sn c' n -> rb (mk (fr_side f) Black t y b sn) Black (S n)) by eauto.
  destruct (is_red sf) eqn:Esf.
  { pose proof (rb_red_root _ _ _ Hf Esf) as ->. apply rb_paint_red in Hf. eauto. }
  pose proof (rb_black_root _ _ _ Hf Esf) as ->.
  assert (Hflip : rb sn Black n -> exists t' m',
    match fr_color f with
    | Red => Some (plug C (mk (fr_side f) Black t (fr_addr f) (fr_data f) (paint Red (fr_sib f))))
    | Black => up (mk (fr_side f) Black t (fr_addr f) (fr_data f) (paint Red (fr_sib f)))
    end = Some t' /\ rb t' Black m').
  { intros Hsn. assert (Hp : rb (mk (fr_side f) Black t (fr_addr f) (fr_data f) (paint Red (fr_sib f))) Black (S n)).
    { apply view_Some in Ev. rewrite Ev. eapply rb_mk_B; [done |]. destruct (fr_side f); simpl; eauto. }
    destruct (fr_color f); [| auto]. eexists _, _. split; [done |]. eapply rb_plug; [exact Hp |].
    by eapply hole_weaken. }
  pose proof (rb_view (fr_side f) _ _ _ Hn) as Hv.
  destruct (view (fr_side f) sn) as [[[[[[] n1] nx] na] n2] |] eqn:En.
  - destruct Hv as (<- & c3 & c4 & k & Hn1 & Hn2 & -> & -> & ->). cbv zeta.
    rewrite (rb_paint_black n2 n) by done. eauto.
  - destruct Hv as (<- & _). auto.
  - destruct Hv as (-> & _). auto.
Qed.

Lemma fix_del_balanced C : forall t n m, rb t Black n -> hole C Black (S n) m ->
  exists t' m', fix_del C t = Some t' /\ rb t' Black m'.
Proof.
  induction C as [| f C IH]; intros t n m Ht HC; simpl; [eauto |].
  assert (Hs : exists cs, rb (fr_sib f) cs (S n) /\ hole C (fr_color f) (bump (fr_color f) (S n)) m
    /\ (fr_color f = Red -> cs = Black)).
  { inversion HC as [| ? ? ? ? cs | ]; subst; simpl; [exists cs | exists Black]; done. }
  destruct Hs as (cs & Hs & HC1 & Hc). pose proof (rb_view (fr_side f) _ _ _ Hs) as Hv.
  destruct (view (fr_side f) (fr_sib f)) as [[[[[c sn] sx] sa] sf] |]; [| by destruct Hv].
  destruct Hv as (-> & c1 & c2 & k & Hn & Hf & Hk). destruct cs.
  - destruct Hk as (-> & -> & ->).
    assert (is_empty sn = false) as -> by (by inversion Hn).
    rewrite (rb_paint_black sn (S n)) by done.
    destruct (fr_color f) eqn:Ef; [by specialize (Hc eq_refl) |].
    eapply del_tail_balanced; simpl; eauto. done.
  - eapply del_tail_balanced; eauto. intros Ef p Hp. rewrite Ef in *. eauto.
Qed.

(** Two frames that differ at most in their data. *)
Definition same_frame (f g : frame) : Prop :=
  fr_side f = fr_side g /\ fr_color f = fr_color g /\ fr_addr f = fr_addr g /\ fr_sib f = fr_sib g.

Lemma update_same C : forall t, Forall2 same_frame C (update C t).
Proof.
  assert (Hr : forall C, Forall2 same_frame C C) by (intros C0; induction C0; constructor; done).
  induction C as [| f C IH]; intros t; simpl; [done |]. case_decide; [apply Hr |]. by constructor.
Qed.

Lemma hole_same C C' : Forall2 same_frame C C' -> forall c n m, hole C c n m -> hole C' c n m.
Proof.
  induction 1 as [| f g C C' (E1 & E2 & E3 & E4) _ IH]; intros c n m HC; [done |].
  destruct f, g; simpl in *; subst. inversion HC; subst; eauto.
Qed.

Lemma drop_balanced c C l x a r n m : rb (T c l x a r) c n -> is_empty l = true -> is_empty r = true ->
  hole C c n m -> exists t' m', drop c C = Some t' /\ rb t' Black m'.
Proof.
  intros Ht El Er HC. apply is_empty_true in El as ->. apply is_empty_true in Er as ->.
  inversion Ht as [| ? ? ? ? ? Hl Hr | ? ? ? ? ? ? ? Hl Hr]; subst; inversion Hl; subst; simpl.
  - eexists _, _. split; [done |]. eapply rb_plug; [constructor | by eapply hole_weaken].
  - by eapply fix_del_balanced.
Qed.

Lemma only_child c l x a r n : rb (T c l x a r) c n ->
  (is_empty l = true -> is_empty r = false -> rb (paint c r) c n)
  /\ (is_empty r = true -> is_empty l = false -> rb (paint c l) c n).
Proof.
  intros Ht. split; intros E1 E2; apply is_empty_true in E1 as ->;
    inversion Ht as [| ? ? ? ? ? Hl Hr | ? ? ? ? ? ? ? Hl Hr]; subst;
    inversion Hl; subst; inversion Hr; subst; try done; simpl; eauto.
Qed.

Lemma erase_node_balanced C c l x a r m :
  rb (plug C (T c l x a r)) Black m ->
  exists t' m', erase_node C c l a r = Some t' /\ rb t' Black m'.
Proof.
  intros H. pose proof H as H0. apply rb_plug_inv in H as (c' & n & Ht & HC).
  assert (c' = c) as -> by (by inversion Ht).
  destruct (only_child _ _ _ _ _ _ Ht) as [H1 H2]. unfold erase_node.
  destruct (is_empty l) eqn:El, (is_empty r) eqn:Er.
  - eapply drop_balanced; eauto. eapply hole_same; [apply update_same | done].
  - eexists _, _. split; [done |]. eapply rb_plug; [by apply H1 | eapply hole_same; [apply update_same | done]].
  - eexists _, _. split; [done |]. eapply rb_plug; [by apply H2 | eapply hole_same; [apply update_same | done]].
  - unfold erase_two. destruct (zip_left [] r) as [[C2 [[[cs sx] sa] cr]] |] eqn:Hz.
    2: { exfalso. clear -Hz Er. revert Hz. generalize (@nil frame). induction r as [| ? l' IHl]; [done |].
         intros C. simpl. destruct l'; [done | apply IHl; done]. }
    apply zip_left_inord in Hz as (C1 & -> & _ & _ & Hr). rewrite app_nil_r. cbv zeta.
    set (fs := mkF RIGHT c sx (a_copy a sa) l).
    assert (Hw : rb (plug (C1 ++ fs :: C) (T cs E sx sa cr)) Black m).
    { rewrite plug_app, <- Hr, plug_cons. eapply rb_plug; [| exact HC].
      inversion Ht; subst; unfold fs, fill; simpl; eauto. }
    apply rb_plug_inv in Hw as (c' & k & Hs & Hh). assert (c' = cs) as -> by (by inversion Hs).
    assert (Hh' : hole (update C1 cr ++ update (fs :: C) (plug (update C1 cr) cr)) cs k m).
    { eapply hole_same; [apply Forall2_app; apply update_same | done]. }
    destruct (is_empty cr) eqn:Ecr; [eapply drop_balanced; eauto |].
    destruct (only_child _ _ _ _ _ _ Hs) as [H3 _]. specialize (H3 eq_refl Ecr).
    assert (cs = Black) as -> by (destruct cs; [| done]; inversion Hs as [| ? ? ? ? ? G1 G2 |]; subst;
      inversion G1; subst; by inversion G2; subst).
    eexists _, _. split; [done |]. by eapply rb_plug.
Qed.

(** ** Depth *)

Fixpoint height t : nat :=
  match t with E => O | T _ l _ _ r => S (Nat.max (height l) (height r)) end.

Lemma height_plug C : forall t, (length C + height t <= height (plug C t))%nat.
Proof.
  induction C as [| f C IH]; intros t; [done |]. rewrite plug_cons. specialize (IH (fill f t)).
  assert (S (height t) <= height (fill f t))%nat by (unfold fill; destruct (fr_side f); simpl; lia).
  simpl. lia.
Qed.

(** Twice the black height bounds the depth, and a tree of black height [n]
    has at least [2 ^ n - 1] nodes. *)
Lemma rb_height t c n : rb t c n -> (height t <= 2 * n + (if decide (c = Red) then 1 else 0))%nat.
Proof.
  induction 1 as [| l x a r n _ IH1 _ IH2 | l x a r c1 c2 n _ IH1 _ IH2]; simpl in *; [lia |..];
    repeat case_decide; try done; lia.
Qed.

Lemma rb_size t c n : rb t c n -> 2 ^ Z.of_nat n <= Z.of_nat (length (inord t)) + 1.
Proof.
  induction 1 as [| l x a r n _ IH1 _ IH2 | l x a r c1 c2 n _ IH1 _ IH2]; simpl; [done |..];
    rewrite length_app; simpl; rewrite ?Nat2Z.inj_succ, ?Z.pow_succ_r; lia.
Qed.

Lemma rb_depth t m : rb t Black m -> Z.of_nat (length (inord t)) < 2 ^ 64 -> (height t <= 128)%nat.
Proof.
  intros H Hn. pose proof (rb_height _ _ _ H) as Hh. pose proof (rb_size _ _ _ H) as Hs.
  case_decide; [done |]. assert (Z.of_nat m <= 64); [| lia].
  apply (Z.pow_le_mono_r_iff 2); lia.
Qed.

End trees.
Arguments frame A : clear implicits.
