(* ===== verification/RbtreeSpec.v ===== *)
(** * The C code of the red-black tree computes the functions on trees

    [tree_at p t]: the tree [t] is in memory with [p] as the parent of its
    root.  [ctx_at top lnk C p]: the nodes of the context [C] are in memory
    and their hole holds the address [p]; the link to the whole tree is the
    word [lnk] and the parent of its root is [top].  The proofs are in the
    logic of [KobjLogic]; every case of the C code is one lemma, for both
    sides of the tree. *)

From iris.proofmode Require Import proofmode.
From iris.base_logic.lib Require Import gen_heap.
From S2P Require Import Prelude Memblock CString CStringSpec Kmalloc Kobj KobjLogic Rbtree RbTrees.

(** Addresses of nodes: not null, with the two low bits free for the colour. *)
Definition aligned (p : Z) : Prop := 0 <= p < 2 ^ 64 - 64 /\ p mod 8 = 0.
Definition ptr_ok (p : Z) : Prop := p <> 0 /\ aligned p.

Lemma aligned_0 : aligned 0.
Proof. done. Qed.

Lemma color_z_range c : 0 <= color_z c <= 1.
Proof. by destruct c. Qed.

Lemma rb_parent_color p c : aligned p -> __rb_parent (p + color_z c) = p.
Proof.
  intros [Hp Hm]. unfold __rb_parent. pose proof (color_z_range c) as Hc.
  assert (u64 (Z.lnot 3) = Z.ldiff (Z.ones 64) 3) as -> by done.
  rw Z.ldiff_land Z.land_assoc Z.land_ones; [| lia]. rw Z.mod_small; [| lia].
  change 3 with (2 ^ 2 - 1). rw land_lnot_pow2; [| lia].
  apply Z.mod_divide in Hm as [q Hq]; [| lia].
  assert ((p + color_z c) mod 2 ^ 2 = color_z c) as ->; [| lia].
  symmetry. apply (Z.mod_unique _ _ (2 * q)); [lia |]. lia.
Qed.

Lemma rb_color_color p c : aligned p -> __rb_color (p + color_z c) = color_z c.
Proof.
  intros [Hp Hm]. unfold __rb_color. pose proof (color_z_range c) as Hc. change 1 with (Z.ones 1). rw Z.land_ones; [| lia].
  apply Z.mod_divide in Hm as [q Hq]; [| lia].
  symmetry. apply (Z.mod_unique _ _ (4 * q)); [lia |]. lia.
Qed.

Lemma u64_pc p c : aligned p -> u64 (p + color_z c) = p + color_z c /\ 0 <= p + color_z c < 2 ^ 64.
Proof. intros [Hp _]. pose proof (color_z_range c). split; [apply u64_small |]; lia. Qed.

(** The words of the data of a node, and the callbacks that maintain them. *)
Class AugOps (A : Type) := {
  ao_words : Z -> A -> list (Z * Z);
  ao_cb : rb_augment_callbacks;
}.

Section at_defs.
Context {A : Type} `{!Aug A, !AugOps A} `{!kobjGS Sg}.

Definition pay (x : Z) (a : A) : iProp Sg := own_words (ao_words x a).

Fixpoint tree_at (par : Z) (t : tree A) : iProp Sg :=
  match t with
  | E => True
  | T c l x a r =>
      ⌜ptr_ok x⌝ ∗ pts x (par + color_z c)
      ∗ pts (x + rb_offset LEFT) (addr l) ∗ pts (x + rb_offset RIGHT) (addr r)
      ∗ pay x a ∗ tree_at x l ∗ tree_at x r
  end.

Fixpoint ctx_at (top lnk : Z) (C : list (frame A)) (p : Z) : iProp Sg :=
  match C with
  | [] => pts lnk p
  | f :: C' =>
      ⌜ptr_ok (fr_addr f)⌝ ∗ pts (fr_addr f) (above top C' + color_z (fr_color f))
      ∗ pts (fr_addr f + rb_offset (fr_side f)) p
      ∗ pts (fr_addr f + rb_offset (opp (fr_side f))) (addr (fr_sib f))
      ∗ pay (fr_addr f) (fr_data f) ∗ tree_at (fr_addr f) (fr_sib f) ∗ ctx_at top lnk C' (fr_addr f)
  end.

(** The data of the root of a tree. *)
Definition root_pay (t : tree A) : iProp Sg :=
  match t with E => True | T _ _ x a _ => ⌜ptr_ok x⌝ ∗ pay x a end.
End at_defs.

(** What the callbacks do: [copy] hands the augmented data over, [rotate]
    hands it over and recomputes the old node from its new children, and
    [propagate] recomputes the path above a tree. *)
Class AugSpec (A : Type) `{!Aug A, !AugOps A} `{!kobjGS Sg} := {
  copy_spec x a y b :
    pay x a ∗ pay y b ⊢ wp (copy ao_cb x y) (fun _ => pay x a ∗ pay y (a_copy a b));
  rotate_spec x a l r y b :
    pts (x + rb_offset LEFT) (addr l) ∗ pts (x + rb_offset RIGHT) (addr r) ∗ pay x a
      ∗ tree_at x l ∗ tree_at x r ∗ pay y b
    ⊢ wp (rotate ao_cb x y) (fun _ =>
      pts (x + rb_offset LEFT) (addr l) ∗ pts (x + rb_offset RIGHT) (addr r)
      ∗ pay x (a_fix a (data l) (data r)) ∗ tree_at x l ∗ tree_at x r ∗ pay y (a_copy a b));
  propagate_spec top lnk C (t : tree A) :
    (length C < RB_FUEL)%nat -> aligned top -> Forall (fun f => fr_addr f <> top) C ->
    ctx_at top lnk C (addr t) ∗ root_pay t
    ⊢ wp (propagate ao_cb (above top C) top) (fun _ =>
      ctx_at top lnk (update C t) (addr t) ∗ root_pay t);
}.

(** One load or store of the code. *)
Tactic Notation "kload" constr(H) := iApply (wp_ldw with H); iIntros H.
Tactic Notation "kstore" constr(H) := iApply (wp_stw with H); [| iIntros H].
Tactic Notation "kbind" := iApply wp_bind.

Section spec.
Context {A : Type} `{!Aug A, !AugOps A} `{!kobjGS Sg} `{!AugSpec A}.
Implicit Types (t l r : tree A) (c : color) (d : side) (a : A) (C : list (frame A)).

(** ** The two sides of a node *)

Lemma tree_at_mk par d c l x a r :
  tree_at par (mk d c l x a r) ⊣⊢
  ⌜ptr_ok x⌝ ∗ pts x (par + color_z c)
  ∗ pts (x + rb_offset d) (addr l) ∗ pts (x + rb_offset (opp d)) (addr r)
  ∗ pay x a ∗ tree_at x l ∗ tree_at x r.
Proof.
  destruct d; simpl; [done |]. iSplit; iIntros "($ & $ & $ & $ & $ & $ & $)".
Qed.

Lemma rotate_side d x a l r y b :
  pts (x + rb_offset d) (addr l) ∗ pts (x + rb_offset (opp d)) (addr r) ∗ pay x a
    ∗ tree_at x l ∗ tree_at x r ∗ pay y b
  ⊢ wp (rotate ao_cb x y) (fun _ =>
    pts (x + rb_offset d) (addr l) ∗ pts (x + rb_offset (opp d)) (addr r)
    ∗ pay x (refit d a l r) ∗ tree_at x l ∗ tree_at x r ∗ pay y (a_copy a b)).
Proof.
  destruct d; simpl; [apply rotate_spec |]. iIntros "(H1 & H2 & H3 & H4 & H5 & H6)".
  iApply (wp_wand with "[-]"); [iApply (rotate_spec x a r l y b); iFrame |].
  iIntros (_) "($ & $ & $ & $ & $ & $)".
Qed.

Lemma tree_at_ptr par t : tree_at par t -∗ ⌜addr t = 0 \/ ptr_ok (addr t)⌝.
Proof. destruct t; simpl; [by iIntros "_"; iLeft | iIntros "[% _]"; by iRight]. Qed.

Lemma tree_at_aligned par t : tree_at par t -∗ ⌜aligned (addr t)⌝.
Proof.
  iIntros "H". iDestruct (tree_at_ptr with "H") as %[-> | [_ H]]; iPureIntro; [apply aligned_0 | done].
Qed.

Lemma addr_empty par t : tree_at par t -∗ ⌜(addr t =? 0) = is_empty t⌝.
Proof.
  destruct t; simpl; [by iIntros "_" |]. iIntros "[%H _]". iPureIntro. apply Z.eqb_neq. apply H.
Qed.

(** A context with a tree in its hole is a tree. *)
Lemma ctx_plug top lnk C : forall t,
  ctx_at top lnk C (addr t) ∗ tree_at (above top C) t
  ⊣⊢ pts lnk (addr (plug C t)) ∗ tree_at top (plug C t).
Proof.
  induction C as [| f C IH]; intros t; simpl; [done |].
  rw -IH. unfold fill. rw tree_at_mk.
  assert (addr (mk (fr_side f) (fr_color f) t (fr_addr f) (fr_data f) (fr_sib f)) = fr_addr f) as ->
    by (by destruct (fr_side f)).
  iSplit; [iIntros "[($ & $ & $ & $ & $ & $ & $) $]" | iIntros "($ & $ & $ & $ & $ & $ & $ & $)"].
Qed.

Lemma ctx_close top lnk C t :
  ctx_at top lnk C (addr t) -∗ tree_at (above top C) t -∗
  pts lnk (addr (plug C t)) ∗ tree_at top (plug C t).
Proof. iIntros "H1 H2". iApply ctx_plug. iFrame. Qed.

Lemma ctx_open top lnk C t :
  pts lnk (addr (plug C t)) -∗ tree_at top (plug C t) -∗
  ctx_at top lnk C (addr t) ∗ tree_at (above top C) t.
Proof. iIntros "H1 H2". iApply ctx_plug. iFrame. Qed.

Lemma ctx_above top lnk C p : aligned top -> ctx_at top lnk C p -∗ ⌜aligned (above top C)⌝.
Proof.
  intros Ht. destruct C; simpl; [by iIntros "_" |]. iIntros "[%H _]". iPureIntro. apply H.
Qed.

(** ** The fields of a node *)

Lemma wp_parent n p c Phi : aligned p ->
  pts n (p + color_z c) -∗ (pts n (p + color_z c) -∗ Phi p) -∗ wp (rb_parent n) Phi.
Proof.
  iIntros (Hp) "H HP". unfold rb_parent. kbind. kload "H". iApply wp_ret.
  rw rb_parent_color; [| done]. by iApply "HP".
Qed.

Lemma wp_is_black n p c Phi : aligned p ->
  pts n (p + color_z c) -∗ (pts n (p + color_z c) -∗ Phi (bool_decide (c = Black))) -∗ wp (rb_is_black n) Phi.
Proof.
  iIntros (Hp) "H HP". unfold rb_is_black, rb_color. kbind. kbind. kload "H". iApply wp_ret. iApply wp_ret.
  rw rb_color_color; [| done]. destruct c; by iApply "HP".
Qed.

Lemma wp_is_red n p c Phi : aligned p ->
  pts n (p + color_z c) -∗ (pts n (p + color_z c) -∗ Phi (bool_decide (c = Red))) -∗ wp (rb_is_red n) Phi.
Proof.
  iIntros (Hp) "H HP". unfold rb_is_red, rb_color. kbind. kbind. kload "H". iApply wp_ret. iApply wp_ret.
  rw rb_color_color; [| done]. destruct c; by iApply "HP".
Qed.

Lemma wp_set_parent_color n w p c (Phi : unit -> iProp Sg) : aligned p ->
  pts n w -∗ (pts n (p + color_z c) -∗ Phi tt) -∗ wp (rb_set_parent_color n p (color_z c)) Phi.
Proof.
  iIntros (Hp) "H HP". unfold rb_set_parent_color. destruct (u64_pc p c Hp) as [-> Hr].
  kstore "H"; [done |]. by iApply "HP".
Qed.

Lemma wp_set_parent n q p c (Phi : unit -> iProp Sg) : aligned q -> aligned p ->
  pts n (q + color_z c) -∗ (pts n (p + color_z c) -∗ Phi tt) -∗ wp (rb_set_parent n p) Phi.
Proof.
  iIntros (Hq Hp) "H HP". unfold rb_set_parent, rb_color. kbind. kbind. kload "H". iApply wp_ret.
  rw rb_color_color; [| done]. rw (Z.add_comm (color_z c) p). destruct (u64_pc p c Hp) as [-> Hr].
  kstore "H"; [done |]. by iApply "HP".
Qed.

Lemma addr_paint c t : addr (paint c t) = addr t.
Proof. by destruct t. Qed.

Lemma addr_mk d c l x a r : addr (mk d c l x a r) = x.
Proof. by destruct d. Qed.

(** [if (tmp) rb_set_parent_color(tmp, p, RB_BLACK)] *)
Lemma wp_adopt_black q p t (Phi : unit -> iProp Sg) : aligned p ->
  tree_at q t -∗ (tree_at p (paint Black t) -∗ Phi tt) -∗
  wp (kwhen (negb (addr t =? 0)) (rb_set_parent_color (addr t) p RB_BLACK)) Phi.
Proof.
  iIntros (Hp) "H HP". iDestruct (addr_empty with "H") as %->.
  destruct t as [| c l x a r]; simpl; [iApply wp_ret; by iApply "HP" |].
  iDestruct "H" as "(%Hx & Hpc & H)".
  iApply (wp_set_parent_color _ _ _ Black with "Hpc"); [done |]. iIntros "Hpc".
  iApply "HP". by iFrame.
Qed.

(** The old child of a node is known by its address: no other child has it. *)
Lemma wp_change_child old new w lnk C (Phi : unit -> iProp Sg) : ptr_ok old -> aligned new ->
  pts old w -∗ ctx_at 0 lnk C old -∗ (pts old w -∗ ctx_at 0 lnk C new -∗ Phi tt) -∗
  wp (__rb_change_child old new (above 0 C) lnk) Phi.
Proof.
  iIntros (Ho Hn) "Ho HC HP". unfold __rb_change_child. destruct C as [| f C]; simpl.
  { kstore "HC"; [destruct Hn; lia |]. by iApply ("HP" with "Ho"). }
  iDestruct "HC" as "(%Hf & Hpc & Hd & Hs & Hpay & Hsib & HC)".
  rw (proj2 (Z.eqb_neq _ _) (proj1 Hf)). kbind. unfold rb_child, rb_set_child.
  iAssert (⌜addr (fr_sib f) <> old⌝)%I as %Hne.
  { destruct (fr_sib f); simpl; [iPureIntro; destruct Ho; lia |].
    iDestruct "Hsib" as "(_ & Hx & _)". iIntros (->).
    iDestruct (pts_apart with "Ho Hx") as %Hap. lia. }
  destruct (fr_side f); simpl.
  - kload "Hd". rw Z.eqb_refl. kstore "Hd"; [destruct Hn; lia |].
    iApply ("HP" with "Ho"). by iFrame.
  - kload "Hs". rw (proj2 (Z.eqb_neq _ _) Hne). kstore "Hd"; [destruct Hn; lia |].
    iApply ("HP" with "Ho"). by iFrame.
Qed.

Lemma wp_rotate_set_parents old new w c c' lnk C (Phi : unit -> iProp Sg) : ptr_ok old -> aligned new ->
  pts old (above 0 C + color_z c) -∗ pts new w -∗ ctx_at 0 lnk C old -∗
  (pts old (new + color_z c') -∗ pts new (above 0 C + color_z c) -∗ ctx_at 0 lnk C new -∗ Phi tt) -∗
  wp (__rb_rotate_set_parents old new lnk (color_z c')) Phi.
Proof.
  iIntros (Ho Hn) "Ho Hn HC HP". unfold __rb_rotate_set_parents.
  iDestruct (ctx_above with "HC") as %Ha; [apply aligned_0 |].
  kbind. iApply (wp_parent with "Ho"); [done |]. iIntros "Ho".
  kbind. kload "Ho". kbind. kstore "Hn"; [by apply u64_pc |].
  kbind. iApply (wp_set_parent_color with "Ho"); [done |]. iIntros "Ho".
  iApply (wp_change_child with "Ho HC"); [done.. |]. iIntros "Ho HC". iApply ("HP" with "Ho Hn HC").
Qed.

(** ** Insertion *)

Lemma case3_spec lnk C (g : frame A) w w1 near x a tmp q (Phi : unit -> iProp Sg) :
  let d := fr_side g in
  ptr_ok (fr_addr g) -> ptr_ok x ->
  pts (fr_addr g) (above 0 C + color_z (fr_color g)) -∗ pts (fr_addr g + rb_offset d) w1 -∗
  pts (fr_addr g + rb_offset (opp d)) (addr (fr_sib g)) -∗ pay (fr_addr g) (fr_data g) -∗
  tree_at (fr_addr g) (fr_sib g) -∗ ctx_at 0 lnk C (fr_addr g) -∗
  pts x w -∗ pts (x + rb_offset d) (addr near) -∗ pts (x + rb_offset (opp d)) (addr tmp) -∗ pay x a -∗
  tree_at x near -∗ tree_at q tmp -∗
  (ctx_at 0 lnk C x -∗ tree_at (above 0 C) (rot_up g near x a tmp) -∗ Phi tt) -∗
  wp (rb_insert_case3 (rotate ao_cb) d lnk x (fr_addr g) (addr tmp)) Phi.
Proof.
  iIntros (d Hg Hx) "Gpc Gd Go Gpay Gs HC Xpc Xd Xo Xpay Xn Ht HP".
  iDestruct (tree_at_aligned with "Ht") as %Hat.
  unfold rb_insert_case3, rb_set_child.
  kbind. kstore "Gd"; [destruct Hat; lia |].
  kbind. kstore "Xo"; [destruct Hg as [_ []]; lia |].
  kbind. iApply (wp_adopt_black with "Ht"); [apply Hg |]. iIntros "Ht".
  kbind. iApply (wp_rotate_set_parents _ _ _ _ Red with "Gpc Xpc HC"); [done | apply Hx |].
  iIntros "Gpc Xpc HC".
  rw -(addr_paint Black tmp).
  iApply (wp_wand with "[Gd Go Gpay Gs Ht Xpay]").
  { iApply (rotate_side d _ _ (paint Black tmp) (fr_sib g) x a). iFrame. }
  iIntros (?) "(Gd & Go & Gpay & Ht & Gs & Xpay)". destruct x0.
  iApply ("HP" with "HC"). unfold rot_up. fold d. rw !tree_at_mk addr_mk. by iFrame.
Qed.

Lemma case2_spec d w w' sib xf af near x a far (Phi : Z * Z -> iProp Sg) :
  ptr_ok xf -> ptr_ok x ->
  pts xf w -∗ pts (xf + rb_offset d) (addr sib) -∗ pts (xf + rb_offset (opp d)) x -∗ pay xf af -∗
  tree_at xf sib -∗
  pts x w' -∗ pts (x + rb_offset d) (addr near) -∗ pts (x + rb_offset (opp d)) (addr far) -∗ pay x a -∗
  tree_at x near -∗ tree_at x far -∗
  (let near := paint Black near in
   let p := mk d Red sib xf (refit d af sib near) near in
   pts x w' -∗ pts (x + rb_offset d) (addr p) -∗ pts (x + rb_offset (opp d)) (addr far) -∗
   pay x (a_copy af a) -∗ tree_at x p -∗ tree_at x far -∗ Phi (x, addr far)) -∗
  wp (rb_insert_case2 (rotate ao_cb) d x xf) Phi.
Proof.
  iIntros (Hf Hx) "Fpc Fd Fo Fpay Fs Xpc Xd Xo Xpay Xn Xf HP".
  iDestruct (tree_at_aligned with "Xn") as %Hn.
  unfold rb_insert_case2, rb_set_child, rb_child.
  kbind. kload "Xd". kbind. kstore "Fo"; [destruct Hn; lia |].
  kbind. kstore "Xd"; [destruct Hf as [_ []]; lia |].
  kbind. iApply (wp_adopt_black with "Xn"); [apply Hf |]. iIntros "Xn".
  kbind. iApply (wp_set_parent_color _ _ _ Red with "Fpc"); [apply Hx |]. iIntros "Fpc".
  kbind. rw -(addr_paint Black near).
  iApply (wp_wand with "[Fd Fo Fpay Fs Xn Xpay]").
  { iApply (rotate_side d _ _ sib (paint Black near) x a). iFrame. }
  iIntros (_) "(Fd & Fo & Fpay & Fs & Xn & Xpay)".
  kbind. kload "Xo". iApply wp_ret.
  iApply ("HP" with "Xpc [Xd] Xo Xpay [-Xf] Xf"); [by rw addr_mk |]. rw tree_at_mk. by iFrame.
Qed.

(** From the node and its parent to the rotated tree. *)
Lemma ins_rotate_spec lnk C (g f : frame A) t t' (Phi : unit -> iProp Sg) :
  let d := fr_side g in
  ins_rotate g f t = Some t' -> ptr_ok (fr_addr g) ->
  pts (fr_addr g) (above 0 C + color_z (fr_color g)) -∗ pts (fr_addr g + rb_offset d) (fr_addr f) -∗
  pts (fr_addr g + rb_offset (opp d)) (addr (fr_sib g)) -∗ pay (fr_addr g) (fr_data g) -∗
  tree_at (fr_addr g) (fr_sib g) -∗ ctx_at 0 lnk C (fr_addr g) -∗
  tree_at (fr_addr g) (fill f t) -∗ ⌜is_empty t = false⌝ -∗
  (ctx_at 0 lnk C (addr t') -∗ tree_at (above 0 C) t' -∗ Phi tt) -∗
  wp (tmp ← rb_child (opp d) (fr_addr f);
      '(parent, tmp) ← (if addr t =? tmp then rb_insert_case2 (rotate ao_cb) d (addr t) (fr_addr f)
                        else mret (fr_addr f, tmp));
      rb_insert_case3 (rotate ao_cb) d lnk parent (fr_addr g) tmp) Phi.
Proof.
  iIntros (d Hr Hg) "Gpc Gd Go Gpay Gs HC Hf %Ht HP". unfold fill. rw tree_at_mk.
  iDestruct "Hf" as "(%Hf & Fpc & Fd & Fo & Fpay & Fn & Fs)".
  unfold ins_rotate in Hr. fold d in Hr. kbind. unfold rb_child at 1.
  case_decide as Hd.
  - rw Hd. kload "Fo". kbind.
    iAssert (⌜addr t <> addr (fr_sib f)⌝)%I as %Hne.
    { destruct t; [done |]. destruct (fr_sib f); simpl; iDestruct "Fn" as "(%H1 & Hx & _)".
      { iPureIntro. apply H1. }
      iDestruct "Fs" as "(_ & Hy & _)". iIntros (->).
      iDestruct (pts_apart with "Hx Hy") as %Hap. lia. }
    rw (proj2 (Z.eqb_neq _ _) Hne). iApply wp_ret. injection Hr as <-.
    iApply (case3_spec with "Gpc Gd Go Gpay Gs HC Fpc Fd Fo Fpay Fn Fs"); [done.. |].
    unfold rot_up. rw addr_mk. iIntros "HC Ht". iApply ("HP" with "HC Ht").
  - assert (fr_side f = opp d) as -> by (destruct (fr_side f), d; done).
    assert (opp (opp d) = d) as -> by (by destruct d).
    destruct (view d t) as [[[[[c near] x] a] far] |] eqn:Hv; [| done].
    apply view_Some in Hv as ->. injection Hr as <-. rw addr_mk. kload "Fd". rw Z.eqb_refl. kbind.
    rw tree_at_mk. iDestruct "Fn" as "(%Hx & Xpc & Xd & Xo & Xpay & Xn & Xf)".
    iApply (case2_spec d with "Fpc Fo Fd Fpay Fs Xpc Xd Xo Xpay Xn Xf"); [done.. |].
    iIntros "Xpc Xd Xo Xpay Xn Xf".
    iApply (case3_spec with "Gpc Gd Go Gpay Gs HC Xpc Xd Xo Xpay Xn Xf"); [done.. |].
    unfold rot_up. rw addr_mk. iIntros "HC Ht". iApply ("HP" with "HC Ht").
Qed.

Lemma wp_red_test q t (Phi : bool -> iProp Sg) : aligned q ->
  tree_at q t -∗ (tree_at q t -∗ Phi (is_red t)) -∗
  wp (if addr t =? 0 then mret false else rb_is_red (addr t)) Phi.
Proof.
  iIntros (Hq) "H HP". iDestruct (addr_empty with "H") as %->.
  destruct t as [| c l x a r]; simpl; [iApply wp_ret; by iApply "HP" |].
  iDestruct "H" as "(%Hx & Hpc & H)". iApply (wp_is_red with "Hpc"); [done |]. iIntros "Hpc".
  destruct c; iApply "HP"; by iFrame.
Qed.

(** A node is painted black and gets the parent [p]. *)
Lemma wp_paint_black q p t (Phi : unit -> iProp Sg) : aligned p -> is_empty t = false ->
  tree_at q t -∗ (tree_at p (paint Black t) -∗ Phi tt) -∗
  wp (rb_set_parent_color (addr t) p RB_BLACK) Phi.
Proof.
  iIntros (Hp Ht) "H HP". destruct t as [| c l x a r]; [done |]. simpl.
  iDestruct "H" as "(%Hx & Hpc & H)". iApply (wp_set_parent_color _ _ _ Black with "Hpc"); [done |].
  iIntros "Hpc". iApply "HP". by iFrame.
Qed.

(** The side of a frame, found by comparing the address in the hole with the
    right child. *)
Lemma wp_other_child (f : frame A) p (Phi : side * Z -> iProp Sg) :
  p <> addr (fr_sib f) ->
  pts (fr_addr f + rb_offset (fr_side f)) p -∗
  pts (fr_addr f + rb_offset (opp (fr_side f))) (addr (fr_sib f)) -∗
  (pts (fr_addr f + rb_offset (fr_side f)) p -∗
   pts (fr_addr f + rb_offset (opp (fr_side f))) (addr (fr_sib f)) -∗
   Phi (fr_side f, addr (fr_sib f))) -∗
  wp (rb_other_child (fr_addr f) p) Phi.
Proof.
  iIntros (Hne) "Hd Ho HP". unfold rb_other_child, rb_child. kbind. destruct (fr_side f); simpl.
  - kload "Ho". rw (proj2 (Z.eqb_neq _ _) Hne). iApply wp_ret. iApply ("HP" with "Hd Ho").
  - kload "Hd". rw Z.eqb_refl. kbind. kload "Ho". iApply wp_ret. iApply ("HP" with "Hd Ho").
Qed.

Lemma node_apart x w q t : pts x w -∗ tree_at q t -∗ ⌜x <> 0 -> x <> addr t⌝.
Proof.
  iIntros "H1 H2". destruct t; simpl; [by iIntros "% !%" |]. iIntros (_).
  iDestruct "H2" as "(_ & H2 & _)". iIntros (->). iDestruct (pts_apart with "H1 H2") as %Hap. lia.
Qed.

Lemma insert_loop_spec fuel : forall lnk C t t' (Phi : unit -> iProp Sg),
  (length C < fuel)%nat -> fix_ins C t = Some t' -> is_red t = true ->
  ctx_at 0 lnk C (addr t) -∗ tree_at (above 0 C) t -∗
  (pts lnk (addr t') -∗ tree_at 0 t' -∗ Phi tt) -∗
  wp (__rb_insert_loop fuel (rotate ao_cb) lnk (addr t) (above 0 C)) Phi.
Proof.
  induction fuel as [| fuel IH]; intros lnk C t t' Phi Hl Hfix Hred; [lia |].
  assert (Hemp : is_empty t = false) by (by destruct t).
  iIntros "HC Ht HP". destruct C as [| f C1]; cbn [__rb_insert_loop].
  { injection Hfix as <-. cbn [above]. rw Z.eqb_refl addr_paint.
    iApply (wp_paint_black with "Ht"); [apply aligned_0 | done |]. iApply ("HP" with "HC"). }
  cbn [above ctx_at]. iDestruct "HC" as "(%Hf & Fpc & Fd & Fo & Fpay & Fs & HC)".
  rw (proj2 (Z.eqb_neq _ _) (proj1 Hf)).
  iDestruct (ctx_above with "HC") as %Ha; [apply aligned_0 |].
  kbind. iApply (wp_is_black with "Fpc"); [done |]. iIntros "Fpc".
  cbn [fix_ins] in Hfix. destruct (fr_color f) eqn:Ecf; cycle 1.
  { injection Hfix as <-. iApply wp_ret.
    iDestruct (ctx_close 0 lnk (f :: C1) t with "[-HP Ht] Ht") as "[H1 H2]".
    { cbn [ctx_at above]. rw Ecf. by iFrame. }
    iApply ("HP" with "H1 H2"). }
  destruct C1 as [| g C2]; [done |]. cbn [bool_decide decide decide_rel above color_z].
  unfold rb_red_parent. kbind. kload "Fpc". unfold RB_RED. rw Z.add_0_r. cbn [ctx_at].
  iDestruct "HC" as "(%Hg & Gpc & Gd & Go & Gpay & Gs & HC)".
  iDestruct (node_apart with "Fpc Gs") as %Hne. specialize (Hne (proj1 Hf)).
  kbind. iApply (wp_other_child g with "Gd Go"); [done |]. iIntros "Gd Go".
  kbind. iApply (wp_red_test with "Gs"); [apply Hg |]. iIntros "Gs".
  destruct (is_red (fr_sib g)) eqn:Eu.
  - kbind. iApply (wp_paint_black with "Gs"); [apply Hg | by destruct (fr_sib g) |]. iIntros "Gs".
    kbind. iApply (wp_set_parent_color _ _ _ Black with "Fpc"); [apply Hg |]. iIntros "Fpc".
    iDestruct (ctx_above with "HC") as %Ha2; [apply aligned_0 |].
    kbind. iApply (wp_parent with "Gpc"); [done |]. iIntros "Gpc".
    kbind. iApply (wp_set_parent_color _ _ _ Red with "Gpc"); [done |]. iIntros "Gpc".
    iDestruct (IH lnk C2 _ t' Phi with "[HC] [-HP] HP") as "H"; [| exact Hfix | |..].
    + simpl in Hl. lia.
    + by destruct (fr_side g).
    + by rw addr_mk.
    + rw !tree_at_mk addr_mk addr_paint. by iFrame.
    + by rw addr_mk.
  - apply fmap_Some in Hfix as (t1 & Hrot & ->).
    iApply (ins_rotate_spec lnk C2 g f with "Gpc Gd Go Gpay Gs HC [Fpc Fd Fo Fpay Fs Ht]"); [done.. | | done |].
    { unfold fill. rw tree_at_mk Ecf. simpl. unfold RB_RED. rw Z.add_0_r. by iFrame. }
    iIntros "HC Ht". iDestruct (ctx_close with "HC Ht") as "[H1 H2]". iApply ("HP" with "H1 H2").
Qed.

(** ** Removal: the black height is repaired *)

Lemma wp_adopt q p t (Phi : unit -> iProp Sg) : aligned q -> aligned p ->
  tree_at q t -∗ (tree_at p t -∗ Phi tt) -∗
  wp (kwhen (negb (addr t =? 0)) (rb_set_parent (addr t) p)) Phi.
Proof.
  iIntros (Hq Hp) "H HP". iDestruct (addr_empty with "H") as %->.
  destruct t as [| c l x a r]; simpl; [iApply wp_ret; by iApply "HP" |].
  iDestruct "H" as "(%Hx & Hpc & H)". iApply (wp_set_parent with "Hpc"); [done.. |]. iIntros "Hpc".
  iApply "HP". by iFrame.
Qed.

Lemma wp_null_or_black q t (Phi : bool -> iProp Sg) : aligned q ->
  tree_at q t -∗ (tree_at q t -∗ Phi (negb (is_red t))) -∗ wp (null_or_black (addr t)) Phi.
Proof.
  iIntros (Hq) "H HP". unfold null_or_black. iDestruct (addr_empty with "H") as %->.
  destruct t as [| c l x a r]; simpl; [iApply wp_ret; by iApply "HP" |].
  iDestruct "H" as "(%Hx & Hpc & H)". iApply (wp_is_black with "Hpc"); [done |]. iIntros "Hpc".
  destruct c; iApply "HP"; by iFrame.
Qed.

Lemma erase_case1_spec lnk C (f : frame A) t sn sx sa sf (Phi : Z -> iProp Sg) :
  let d := fr_side f in
  fr_sib f = mk d Red sn sx sa sf -> is_empty sn = false ->
  ctx_at 0 lnk (f :: C) (addr t) -∗ tree_at (fr_addr f) t -∗
  (let sn := paint Black sn in
   ctx_at 0 lnk (mkF d Red (fr_addr f) (refit d (fr_data f) t sn) sn
                 :: mkF d (fr_color f) sx (a_copy (fr_data f) sa) sf :: C) (addr t) -∗
   tree_at (fr_addr f) t -∗ Phi (addr sn)) -∗
  wp (rb_erase_case1 (rotate ao_cb) d lnk (fr_addr f) sx) Phi.
Proof.
  iIntros (d Hs Hn) "HC Ht HP". cbn [ctx_at]. fold d.
  iDestruct "HC" as "(%Hf & Fpc & Fd & Fo & Fpay & Fs & HC)". rw Hs addr_mk tree_at_mk.
  iDestruct "Fs" as "(%Hx & Xpc & Xd & Xo & Xpay & Xn & Xf)".
  iDestruct (tree_at_aligned with "Xn") as %Han.
  unfold rb_erase_case1, rb_child, rb_set_child. kbind. kload "Xd".
  kbind. kstore "Fo"; [destruct Han; lia |]. kbind. kstore "Xd"; [destruct Hf as [_ []]; lia |].
  kbind. iApply (wp_paint_black with "Xn"); [apply Hf | done |]. iIntros "Xn".
  kbind. iApply (wp_rotate_set_parents _ _ _ _ Red with "Fpc Xpc HC"); [done | apply Hx |].
  iIntros "Fpc Xpc HC". kbind. rw -(addr_paint Black sn).
  iApply (wp_wand with "[Fd Fo Fpay Ht Xn Xpay]").
  { iApply (rotate_side d _ _ t (paint Black sn) sx sa). iFrame. }
  iIntros (_) "(Fd & Fo & Fpay & Ht & Xn & Xpay)". iApply wp_ret.
  iApply ("HP" with "[-Ht] Ht"). cbn [ctx_at above fr_side fr_addr fr_color fr_data fr_sib]. by iFrame.
Qed.

Lemma erase_case3_spec d xf w0 w1 w2 sx sa n1 nx na n2 sf (Phi : unit -> iProp Sg) :
  ptr_ok xf -> ptr_ok sx -> ptr_ok nx ->
  pts (xf + rb_offset (opp d)) w0 -∗
  pts (sx + rb_offset d) w1 -∗ pts (sx + rb_offset (opp d)) (addr sf) -∗ pay sx sa -∗ tree_at sx sf -∗
  pts (nx + rb_offset (opp d)) w2 -∗ ⌜w2 = addr n2⌝ -∗ pay nx na -∗ tree_at n1 n2 -∗
  (let n2 := paint Black n2 in
   pts (xf + rb_offset (opp d)) nx -∗
   pts (sx + rb_offset d) (addr n2) -∗ pts (sx + rb_offset (opp d)) (addr sf) -∗
   pay sx (refit d sa n2 sf) -∗ tree_at sx sf -∗ tree_at sx n2 -∗
   pts (nx + rb_offset (opp d)) sx -∗ pay nx (a_copy sa na) -∗ Phi tt) -∗
  wp (rb_erase_case3 (rotate ao_cb) d xf sx nx) Phi.
Proof.
  iIntros (Hf Hs Hn) "Fo Sd So Spay Sf No -> Npay N2 HP".
  iDestruct (tree_at_aligned with "N2") as %Ha.
  unfold rb_erase_case3, rb_child, rb_set_child. kbind. kload "No".
  kbind. kstore "Sd"; [destruct Ha; lia |]. kbind. kstore "No"; [destruct Hs as [_ []]; lia |].
  kbind. kstore "Fo"; [destruct Hn as [_ []]; lia |].
  kbind. iApply (wp_adopt_black with "N2"); [apply Hs |]. iIntros "N2".
  rw -(addr_paint Black n2).
  iApply (wp_wand with "[Sd So Spay Sf N2 Npay]").
  { iApply (rotate_side d _ _ (paint Black n2) sf nx na). iFrame. }
  iIntros ([]) "(Sd & So & Spay & N2 & Sf & Npay)".
  iApply ("HP" with "Fo Sd So Spay Sf N2 No Npay").
Qed.

Lemma erase_case4_spec lnk C (f : frame A) w0 w t sx sa q1 sn q2 sf (Phi : unit -> iProp Sg) :
  let d := fr_side f in
  ptr_ok (fr_addr f) -> ptr_ok sx -> aligned q1 -> is_empty sf = false ->
  pts (fr_addr f) (above 0 C + color_z (fr_color f)) -∗ pts (fr_addr f + rb_offset d) (addr t) -∗
  pts (fr_addr f + rb_offset (opp d)) w0 -∗ pay (fr_addr f) (fr_data f) -∗ tree_at (fr_addr f) t -∗
  ctx_at 0 lnk C (fr_addr f) -∗
  pts sx w -∗ pts (sx + rb_offset d) (addr sn) -∗ pts (sx + rb_offset (opp d)) (addr sf) -∗ pay sx sa -∗
  tree_at q1 sn -∗ tree_at q2 sf -∗
  (let t' := mk d (fr_color f) (mk d Black t (fr_addr f) (refit d (fr_data f) t sn) sn)
               sx (a_copy (fr_data f) sa) (paint Black sf) in
   ctx_at 0 lnk C (addr t') -∗ tree_at (above 0 C) t' -∗ Phi tt) -∗
  wp (rb_erase_case4 (rotate ao_cb) d lnk (fr_addr f) sx (addr sf)) Phi.
Proof.
  iIntros (d Hf Hx Hq Hsf) "Fpc Fd Fo Fpay Ht HC Xpc Xd Xo Xpay Xn Xf HP".
  iDestruct (tree_at_aligned with "Xn") as %Han.
  unfold rb_erase_case4, rb_child, rb_set_child. kbind. kload "Xd".
  kbind. kstore "Fo"; [destruct Han; lia |]. kbind. kstore "Xd"; [destruct Hf as [_ []]; lia |].
  kbind. iApply (wp_paint_black with "Xf"); [apply Hx | done |]. iIntros "Xf".
  kbind. iApply (wp_adopt with "Xn"); [done | apply Hf |]. iIntros "Xn".
  kbind. iApply (wp_rotate_set_parents _ _ _ _ Black with "Fpc Xpc HC"); [done | apply Hx |].
  iIntros "Fpc Xpc HC". iApply (wp_wand with "[Fd Fo Fpay Ht Xn Xpay]").
  { iApply (rotate_side d _ _ t sn sx sa). iFrame. }
  iIntros ([]) "(Fd & Fo & Fpay & Ht & Xn & Xpay)".
  iApply ("HP" with "[HC]"); [by rw addr_mk |]. rw !tree_at_mk addr_mk addr_paint. by iFrame.
Qed.

(** The sibling is repainted red; the parent turns black or the deficit
    moves up. *)
Lemma flip_spec lnk C (f : frame A) t t' up loop (Phi : unit -> iProp Sg) :
  let d := fr_side f in
  let p := mk d Black t (fr_addr f) (fr_data f) (paint Red (fr_sib f)) in
  match fr_color f with Red => Some (plug C p) | Black => up p end = Some t' ->
  is_empty (fr_sib f) = false ->
  (forall p t', up p = Some t' -> ctx_at 0 lnk C (addr p) -∗ tree_at (above 0 C) p -∗
     (pts lnk (addr t') -∗ tree_at 0 t' -∗ Phi tt) -∗
     wp (if above 0 C =? 0 then mret tt else loop (addr p) (above 0 C)) Phi) ->
  ctx_at 0 lnk (f :: C) (addr t) -∗ tree_at (fr_addr f) t -∗
  (pts lnk (addr t') -∗ tree_at 0 t' -∗ Phi tt) -∗
  wp (rb_set_parent_color (addr (fr_sib f)) (fr_addr f) RB_RED;;
      pred ← rb_is_red (fr_addr f);
      if (pred : bool) then rb_set_black (fr_addr f)
      else
        gparent ← rb_parent (fr_addr f);
        if gparent =? 0 then mret tt else loop (fr_addr f) gparent) Phi.
Proof.
  iIntros (d p Hp Hs Hup) "HC Ht HP". cbn [ctx_at]. fold d.
  iDestruct "HC" as "(%Hf & Fpc & Fd & Fo & Fpay & Fs & HC)".
  iDestruct (ctx_above with "HC") as %Ha; [apply aligned_0 |].
  destruct (fr_sib f) as [| cs sl sx sa sr] eqn:Es; [done |]. cbn [addr tree_at].
  iDestruct "Fs" as "(%Hx & Xpc & X)". kbind.
  iApply (wp_set_parent_color _ _ _ Red with "Xpc"); [apply Hf |]. iIntros "Xpc".
  iAssert (tree_at (fr_addr f) (paint Red (T cs sl sx sa sr))) with "[X Xpc]" as "Fs"; [by iFrame |].
  kbind. iApply (wp_is_red with "Fpc"); [done |]. iIntros "Fpc".
  assert (Hpa : addr p = fr_addr f) by (unfold p; by rw addr_mk).
  destruct (fr_color f); cbn [bool_decide decide decide_rel].
  - injection Hp as <-. unfold rb_set_black. kbind. kload "Fpc". cbn [color_z]. unfold RB_RED. rw Z.add_0_r.
    destruct (u64_pc (above 0 C) Black Ha) as [E1 E2]. cbn [color_z] in E1, E2. rw E1. kstore "Fpc"; [done |].
    iDestruct (ctx_close 0 lnk C p with "[HC] [-HP]") as "[H1 H2]"; [by rw Hpa | | iApply ("HP" with "H1 H2")].
    unfold p. rw tree_at_mk. by iFrame.
  - kbind. iApply (wp_parent with "Fpc"); [done |]. iIntros "Fpc". rw -Hpa.
    iApply (Hup p with "HC [-HP] HP"); [done |]. unfold p. rw tree_at_mk addr_mk. by iFrame.
Qed.

Lemma black_sibling_spec lnk C (f : frame A) t t' up loop (Phi : unit -> iProp Sg) :
  let d := fr_side f in
  del_tail up C f t = Some t' ->
  (forall p t', up p = Some t' -> ctx_at 0 lnk C (addr p) -∗ tree_at (above 0 C) p -∗
     (pts lnk (addr t') -∗ tree_at 0 t' -∗ Phi tt) -∗
     wp (if above 0 C =? 0 then mret tt else loop (addr p) (above 0 C)) Phi) ->
  ctx_at 0 lnk (f :: C) (addr t) -∗ tree_at (fr_addr f) t -∗
  (pts lnk (addr t') -∗ tree_at 0 t' -∗ Phi tt) -∗
  wp (rb_erase_black_sibling loop (rotate ao_cb) d lnk (fr_addr f) (addr (fr_sib f))) Phi.
Proof.
  iIntros (d Hdel Hup) "HC Ht HP". unfold del_tail in Hdel. fold d in Hdel.
  destruct (view d (fr_sib f)) as [[[[[cs sn] sx] sa] sf] |] eqn:Ev; [| done].
  pose proof Ev as Es. apply view_Some in Es.
  assert (Hemp : is_empty (fr_sib f) = false) by (rw Es; by destruct d).
  assert (Hm : tree_at (fr_addr f) (fr_sib f) ⊣⊢ ⌜ptr_ok sx⌝ ∗ pts sx (fr_addr f + color_z cs)
    ∗ pts (sx + rb_offset d) (addr sn) ∗ pts (sx + rb_offset (opp d)) (addr sf)
    ∗ pay sx sa ∗ tree_at sx sn ∗ tree_at sx sf) by (rw Es; apply tree_at_mk).
  assert (Hsx : addr (fr_sib f) = sx) by (by rw Es addr_mk).
  cbn [ctx_at]. fold d. iDestruct "HC" as "(%Hf & Fpc & Fd & Fo & Fpay & Fs & HC)".
  rw Hm Hsx. iDestruct "Fs" as "(%Hx & Xpc & Xd & Xo & Xpay & Xn & Xf)".
  unfold rb_erase_black_sibling, rb_child.
  kbind. kload "Xo". kbind. iApply (wp_null_or_black with "Xf"); [apply Hx |]. iIntros "Xf".
  destruct (is_red sf) eqn:Esf; cbn [negb].
  - injection Hdel as <-.
    iApply (erase_case4_spec lnk C f with "Fpc Fd Fo Fpay Ht HC Xpc Xd Xo Xpay Xn Xf");
      [done | done | apply Hx | by destruct sf |].
    iIntros "HC Ht". iDestruct (ctx_close with "HC Ht") as "[H1 H2]". iApply ("HP" with "H1 H2").
  - kbind. kload "Xd". kbind. iApply (wp_null_or_black with "Xn"); [apply Hx |]. iIntros "Xn".
    destruct (is_red sn) eqn:Esn; cbn [negb].
    + destruct (view d sn) as [[[[[cn n1] nx] na] n2] |] eqn:En; [| by destruct sn].
      assert (cn = Red) as -> by (destruct sn as [| []], d; simpl in *; congruence).
      apply view_Some in En. injection Hdel as <-.
      rw En addr_mk tree_at_mk. iDestruct "Xn" as "(%Hnx & Npc & Nd & No & Npay & N1 & N2)".
      kbind. iApply (erase_case3_spec with "Fo Xd Xo Xpay Xf No [//] Npay N2"); [done.. |].
      iIntros "Fo Xd Xo Xpay Xf N2 No Npay".
      set (sf' := mk d cs (paint Black n2) sx (refit d sa (paint Black n2) sf) sf).
      assert (Hsf : addr sf' = sx) by (unfold sf'; by rw addr_mk).
      iDestruct (erase_case4_spec lnk C f _ _ _ _ _ _ _ (fr_addr f) sf' Phi
        with "Fpc Fd Fo Fpay Ht HC Npc Nd [No] Npay N1 [Xpc Xd Xo Xpay Xf N2] [HP]") as "H";
        [done | done | apply Hnx | by unfold sf'; destruct d | by rw Hsf | unfold sf'; rw tree_at_mk; by iFrame
        | | by rw Hsf].
      assert (paint Black sf' = mk d Black (paint Black n2) sx (refit d sa (paint Black n2) sf) sf) as ->
        by (unfold sf'; by destruct d).
      iIntros "HC Ht". iDestruct (ctx_close with "HC Ht") as "[H1 H2]". iApply ("HP" with "H1 H2").
    + assert (Hflip : match fr_color f with
        | Red => Some (plug C (mk d Black t (fr_addr f) (fr_data f) (paint Red (fr_sib f))))
        | Black => up (mk d Black t (fr_addr f) (fr_data f) (paint Red (fr_sib f))) end = Some t').
      { destruct sn as [| [] ? ? ? ?], d; try done. }
      rw -Hsx. iApply (flip_spec lnk C f t t' up loop with "[-Ht HP] Ht HP"); [done.. |].
      cbn [ctx_at]. rw Hm Hsx. by iFrame.
Qed.

Lemma erase_loop_spec fuel : forall lnk f C t t' (Phi : unit -> iProp Sg),
  (length C < fuel)%nat -> fix_del (f :: C) t = Some t' ->
  ctx_at 0 lnk (f :: C) (addr t) -∗ tree_at (fr_addr f) t -∗
  (pts lnk (addr t') -∗ tree_at 0 t' -∗ Phi tt) -∗
  wp (____rb_erase_color_loop fuel (rotate ao_cb) lnk (addr t) (fr_addr f)) Phi.
Proof.
  induction fuel as [| fuel IH]; intros lnk f C t t' Phi Hl Hfix; [lia |].
  iIntros "HC Ht HP". cbn [____rb_erase_color_loop]. cbn [fix_del] in Hfix.
  destruct (view (fr_side f) (fr_sib f)) as [[[[[cs sn] sx] sa] sf] |] eqn:Ev; [| done].
  pose proof (view_Some _ _ _ _ _ _ _ Ev) as Es.
  cbn [ctx_at]. iDestruct "HC" as "(%Hf & Fpc & Fd & Fo & Fpay & Fs & HC)".
  assert (Hsx : addr (fr_sib f) = sx) by (by rw Es addr_mk).
  assert (Hm : tree_at (fr_addr f) (fr_sib f) ⊣⊢ ⌜ptr_ok sx⌝ ∗ pts sx (fr_addr f + color_z cs)
    ∗ pts (sx + rb_offset (fr_side f)) (addr sn) ∗ pts (sx + rb_offset (opp (fr_side f))) (addr sf)
    ∗ pay sx sa ∗ tree_at sx sn ∗ tree_at sx sf) by (rw Es; apply tree_at_mk).
  rw Hm. iDestruct "Fs" as "(%Hx & Xpc & X)".
  iDestruct (node_apart with "Xpc Ht") as %Hne. specialize (Hne (proj1 Hx)).
  kbind. iApply (wp_other_child f with "Fd Fo"); [rw Hsx; congruence |]. iIntros "Fd Fo".
  kbind. rw Hsx. iApply (wp_is_red with "Xpc"); [apply Hf |]. iIntros "Xpc". kbind.
  iAssert (ctx_at 0 lnk (f :: C) (addr t)) with "[-Ht HP]" as "HC".
  { cbn [ctx_at]. rw Hm Hsx. by iFrame. }
  destruct cs; cbn [bool_decide decide decide_rel].
  - destruct (is_empty sn) eqn:Esn; [done |].
    iApply (erase_case1_spec lnk C f t with "HC Ht"); [done.. |]. iIntros "HC Ht".
    set (f' := mkF _ Red _ _ _).
    iApply (black_sibling_spec _ _ f' _ _ _ _ _ Hfix with "HC Ht HP"). done.
  - iApply wp_ret. rw -Hsx. iApply (black_sibling_spec _ _ f _ _ _ _ _ Hfix with "HC Ht HP").
    intros p t1 Hp. iIntros "HC Hp HP". destruct C as [| g C2]; cbn [above] in *.
    + injection Hp as <-. rw Z.eqb_refl. iApply wp_ret. iApply ("HP" with "HC Hp").
    + iAssert (⌜ptr_ok (fr_addr g)⌝)%I as %Hg. { cbn [ctx_at]. by iDestruct "HC" as "(% & _)". }
      rw (proj2 (Z.eqb_neq _ _) (proj1 Hg)). iApply (IH with "HC Hp HP"); [simpl in Hl; lia | done].
Qed.

End spec.
