(* ===== verification/RbtreeErase.v ===== *)
(** * Removal from a red-black tree

    [__rb_erase_augmented] unlinks a node, its successor taking its place
    when it has two children, and tells where the black height has to be
    repaired; [rb_erase_spec] puts this together with the repair
    ([RbtreeSpec]): the code computes [erase_node]. *)

From iris.proofmode Require Import proofmode.
From iris.base_logic.lib Require Import gen_heap.
From S2P Require Import Prelude Memblock CString CStringSpec Kmalloc Kobj KobjLogic Rbtree RbTrees RbtreeSpec.

Lemma distinct_bound (l : list Z) n : 0 <= n -> NoDup l -> Forall (fun x => 0 <= x < n) l ->
  Z.of_nat (length l) <= n.
Proof.
  intros Hn Hd HF. assert (Hs : l ⊆+ seqZ 0 n).
  { apply NoDup_submseteq; [done |]. intros x Hx. rw Forall_forall in HF. apply elem_of_seqZ.
    specialize (HF x Hx). lia. }
  apply submseteq_length in Hs. rw length_seqZ in Hs. lia.
Qed.

Section erase.
Context {A : Type} `{!Aug A, !AugOps A} `{!kobjGS Sg} `{!AugSpec A}.
Implicit Types (t l r : tree A) (c : color) (d : side) (a : A) (C : list (frame A)).

Lemma ctx_ptrs top lnk C : forall p, ctx_at top lnk C p -∗ ⌜Forall (fun f => ptr_ok (fr_addr f)) C⌝.
Proof.
  induction C as [| f C IH]; intros p; simpl; [iIntros "_"; iPureIntro; constructor |].
  iIntros "(%Hf & _ & _ & _ & _ & _ & HC)". iDestruct (IH with "HC") as %HC. iPureIntro. by constructor.
Qed.

Lemma ctx_apart top lnk C : forall p x w,
  pts x w -∗ ctx_at top lnk C p -∗ ⌜Forall (fun f => fr_addr f <> x) C⌝.
Proof.
  induction C as [| f C IH]; intros p x w; simpl; [iIntros "_ _"; iPureIntro; constructor |].
  iIntros "Hx (%Hf & Hpc & _ & _ & _ & _ & HC)".
  iDestruct (pts_apart with "Hx Hpc") as %Hap.
  iDestruct (IH with "Hx HC") as %HC. iPureIntro. constructor; [| done]. intros Heq. lia.
Qed.

Lemma ctx_nonnull C : Forall (fun f : frame A => ptr_ok (fr_addr f)) C ->
  Forall (fun f => fr_addr f <> 0) C.
Proof. intros H. eapply Forall_impl; [exact H |]. by intros f [? _]. Qed.

Lemma tree_root_pay q t : tree_at q t -∗ root_pay t ∗ (root_pay t -∗ tree_at q t).
Proof.
  destruct t; simpl; [by iIntros "_"; iSplit |].
  iIntros "(%H & $ & $ & $ & $ & $ & $)". iSplit; [done |]. by iIntros "[_ $]".
Qed.

(** The root of a context gets another parent and link. *)
Lemma ctx_retop top lnk C : forall p t, C <> [] ->
  ctx_at top lnk C p -∗ ∃ c, pts (addr (plug C t)) (top + color_z c) ∗ pts lnk (addr (plug C t))
    ∗ ⌜ptr_ok (addr (plug C t))⌝
    ∗ (∀ top' lnk', pts (addr (plug C t)) (top' + color_z c) -∗ pts lnk' (addr (plug C t)) -∗
        ctx_at top' lnk' C p).
Proof.
  induction C as [| f C IH]; intros p t HC; [done |]. rw plug_cons.
  destruct C as [| g C2].
  - simpl. iIntros "(%Hf & Hpc & Hd & Ho & Hpay & Hs & HC)". unfold fill. rw addr_mk.
    iExists (fr_color f). iFrame "Hpc HC". iSplit; [done |]. iIntros (top' lnk') "Hpc HC". by iFrame.
  - cbn [ctx_at]. iIntros "(%Hf & Hpc & Hd & Ho & Hpay & Hs & HC)".
    iDestruct (IH _ (fill f t) with "HC") as (c) "($ & $ & $ & HC)"; [done |].
    iIntros (top' lnk') "H1 H2". iDestruct ("HC" with "H1 H2") as "HC". by iFrame.
Qed.

(** A step of [propagate] over the whole context of a tree. *)
Lemma wp_propagate top lnk C q t (Phi : unit -> iProp Sg) :
  (length C < RB_FUEL)%nat -> aligned top -> Forall (fun f => fr_addr f <> top) C ->
  ctx_at top lnk C (addr t) -∗ tree_at q t -∗
  (ctx_at top lnk (update C t) (addr t) -∗ tree_at q t -∗ Phi tt) -∗
  wp (propagate ao_cb (above top C) top) Phi.
Proof.
  iIntros (Hl Ht HF) "HC Ht HP". iDestruct (tree_root_pay with "Ht") as "[Hr Ht]".
  iApply (wp_wand with "[HC Hr]"); [iApply propagate_spec; [done.. | iFrame] |].
  iIntros ([]) "[HC Hr]". iApply ("HP" with "HC"). by iApply "Ht".
Qed.

Lemma wp_propagate0 lnk C q t (Phi : unit -> iProp Sg) :
  (length C < RB_FUEL)%nat ->
  ctx_at 0 lnk C (addr t) -∗ tree_at q t -∗
  (ctx_at 0 lnk (update C t) (addr t) -∗ tree_at q t -∗ Phi tt) -∗
  wp (propagate ao_cb (above 0 C) 0) Phi.
Proof.
  iIntros (Hl) "HC Ht HP". iDestruct (ctx_ptrs with "HC") as %HF.
  iApply (wp_propagate with "HC Ht HP"); [done | apply aligned_0 | by apply ctx_nonnull].
Qed.

Lemma update_length C t : length (update C t) = length C.
Proof. symmetry. exact (Forall2_length _ _ _ (update_same C t)). Qed.

Lemma update_above top C t : above top (update C t) = above top C.
Proof. destruct C; simpl; [done |]. by case_decide. Qed.

(** The walk to the successor. *)
Lemma leftmost_spec fuel : forall top lnk C t C2 cs sx sa cr (Phi : Z * Z -> iProp Sg),
  (height t <= fuel)%nat -> zip_left C t = Some (C2, (cs, sx, sa, cr)) ->
  ctx_at top lnk C (addr t) -∗ tree_at (above top C) t -∗
  (ctx_at top lnk C2 sx -∗ tree_at (above top C2) (T cs E sx sa cr) -∗ Phi (above top C2, sx)) -∗
  wp (rb_leftmost_below fuel (above top C) (addr t)) Phi.
Proof.
  induction fuel as [| fuel IH]; intros top lnk C t C2 cs sx sa cr Phi Hh Hz.
  { destruct t; simpl in Hh; [done | lia]. }
  iIntros "HC Ht HP". destruct t as [| c l x a r]; [done |]. cbn [rb_leftmost_below addr tree_at].
  iDestruct "Ht" as "(%Hx & Hpc & Hl & Hr & Hpay & Tl & Tr)".
  unfold rb_child. kbind. kload "Hl". iDestruct (addr_empty with "Tl") as %->.
  destruct l as [| cl ll xl al rl]; cbn [is_empty].
  - injection Hz as <- <- <- <- <-. iApply wp_ret. iApply ("HP" with "HC"). cbn [tree_at]. by iFrame.
  - set (l := T cl ll xl al rl) in *.
    iApply (IH top lnk (mkF LEFT c x a r :: C) l with "[Hpc Hl Hr Hpay Tr HC] Tl HP").
    + simpl in Hh |- *. lia.
    + exact Hz.
    + simpl. by iFrame.
Qed.

Lemma zip_left_sides t : forall C C2 cs sx sa cr,
  zip_left C t = Some (C2, (cs, sx, sa, cr)) ->
  Forall (fun f => fr_side f = LEFT) C -> Forall (fun f => fr_side f = LEFT) C2.
Proof.
  induction t as [| c l IH x a r _]; intros C C2 cs sx sa cr Hz HF; [done |]. simpl in Hz.
  destruct l; [by injection Hz as <- |]. eapply IH; [exact Hz |]. by constructor.
Qed.

(** What [__rb_erase_augmented] leaves: the final tree, or a tree whose hole
    below [reb] is one black node short. *)
Definition erased (lnk : Z) (t' : tree A) (reb : Z) : iProp Sg :=
  (⌜reb = 0⌝ ∗ pts lnk (addr t') ∗ tree_at 0 t')
  ∨ ∃ f C, ⌜reb = fr_addr f /\ ptr_ok (fr_addr f) /\ fix_del (f :: C) E = Some t'
            /\ (length C < RB_FUEL)%nat⌝
      ∗ pts lnk (addr (plug (f :: C) E)) ∗ tree_at 0 (plug (f :: C) E).

Definition unlinked (x : Z) (a : A) : iProp Sg :=
  ∃ w1 w2 w3, pts x w1 ∗ pts (x + rb_offset LEFT) w2 ∗ pts (x + rb_offset RIGHT) w3 ∗ pay x a.

Lemma drop_erased lnk c C t' : (length C < RB_FUEL)%nat -> drop c C = Some t' ->
  ctx_at 0 lnk C 0 -∗ erased lnk t' (if decide (c = Black) then above 0 C else 0).
Proof.
  iIntros (Hl Hd) "HC". iDestruct (ctx_ptrs with "HC") as %HF.
  iDestruct (ctx_close 0 lnk C E with "HC []") as "[H1 H2]"; [by destruct C |].
  destruct c; simpl in *.
  - injection Hd as <-. iLeft. by iFrame.
  - destruct C as [| f C]; simpl in *; [injection Hd as <-; iLeft; by iFrame |].
    iRight. iExists f, C. iFrame. iPureIntro. inversion HF; subst. split_and!; try done. lia.
Qed.

Lemma done_erased lnk C t : ctx_at 0 lnk C (addr t) -∗ tree_at (above 0 C) t -∗ erased lnk (plug C t) 0.
Proof. iIntros "HC Ht". iDestruct (ctx_close with "HC Ht") as "[H1 H2]". iLeft. by iFrame. Qed.

(** The node has no left child. *)
Lemma erase_right_spec lnk C c x a r t' (Phi : Z -> iProp Sg) :
  (if is_empty r then drop c (update C E) else Some (plug (update C (paint c r)) (paint c r))) = Some t' ->
  (length C < RB_FUEL)%nat ->
  ctx_at 0 lnk C x -∗ tree_at (above 0 C) (T c E x a r) -∗
  (∀ reb, erased lnk t' reb -∗ unlinked x a -∗ Phi reb) -∗
  wp (pc ← ldw x;
      __rb_change_child x (addr r) (__rb_parent pc) lnk;;
      rebalance ← (if negb (addr r =? 0) then stw (addr r) pc;; mret 0
                   else mret (if negb (__rb_color pc =? 0) then __rb_parent pc else 0));
      propagate ao_cb (__rb_parent pc) 0;;
      mret rebalance) Phi.
Proof.
  iIntros (He Hl) "HC (%Hx & Hpc & Hl & Hr & Hpay & _ & Tr) HP".
  iDestruct (ctx_above with "HC") as %Ha; [apply aligned_0 |].
  iDestruct (tree_at_aligned with "Tr") as %Har.
  kbind. kload "Hpc". rw rb_parent_color; [| done]. rw rb_color_color; [| done].
  kbind. iApply (wp_change_child with "Hpc HC"); [done.. |]. iIntros "Hpc HC". kbind.
  iDestruct (addr_empty with "Tr") as %->.
  destruct (is_empty r) eqn:Er; cbn [negb].
  - apply is_empty_true in Er as ->. iApply wp_ret. kbind.
    iApply (wp_propagate0 lnk C 0 E with "HC []"); [done | done |]. iIntros "HC _".
    iApply wp_ret. iApply ("HP" with "[HC] [-]"); [| iExists _, _, _; by iFrame].
    iDestruct (drop_erased with "HC") as "H"; [| exact He |]; [by rw update_length |].
    rw update_above. by destruct c.
  - destruct r as [| cr rl xr ar rr]; [done |]. injection He as <-. cbn [addr tree_at].
    iDestruct "Tr" as "(%Hxr & Rpc & R)". kbind. kstore "Rpc"; [by apply u64_pc |]. iApply wp_ret.
    set (t := paint c (T cr rl xr ar rr)).
    iAssert (tree_at (above 0 C) t) with "[Rpc R]" as "Ht"; [by iFrame |].
    kbind. iApply (wp_propagate0 lnk C _ t with "HC Ht"); [done |]. iIntros "HC Ht". iApply wp_ret.
    iApply ("HP" with "[HC Ht] [-]"); [| iExists _, _, _; by iFrame].
    rw -(update_above 0 C t). iApply (done_erased with "HC Ht").
Qed.

Lemma erase_left_spec lnk C c l x a (Phi : Z -> iProp Sg) :
  is_empty l = false -> (length C < RB_FUEL)%nat ->
  ctx_at 0 lnk C x -∗ tree_at (above 0 C) (T c l x a E) -∗
  (∀ reb, erased lnk (plug (update C (paint c l)) (paint c l)) reb -∗ unlinked x a -∗ Phi reb) -∗
  wp (pc ← ldw x;
      stw (addr l) pc;;
      __rb_change_child x (addr l) (__rb_parent pc) lnk;;
      propagate ao_cb (__rb_parent pc) 0;;
      mret 0) Phi.
Proof.
  iIntros (He Hl) "HC (%Hx & Hpc & Hl & Hr & Hpay & Tl & _) HP".
  iDestruct (ctx_above with "HC") as %Ha; [apply aligned_0 |].
  iDestruct (tree_at_aligned with "Tl") as %Hal.
  kbind. kload "Hpc". rw rb_parent_color; [| done].
  destruct l as [| cl ll xl al rl]; [done |]. cbn [addr tree_at].
  iDestruct "Tl" as "(%Hxl & Lpc & L)". kbind. kstore "Lpc"; [by apply u64_pc |].
  set (t := paint c (T cl ll xl al rl)).
  iAssert (tree_at (above 0 C) t) with "[Lpc L]" as "Ht"; [by iFrame |].
  kbind. iApply (wp_change_child with "Hpc HC"); [done.. |]. iIntros "Hpc HC".
  kbind. iApply (wp_propagate0 lnk C _ t with "HC Ht"); [done |]. iIntros "HC Ht". iApply wp_ret.
  iApply ("HP" with "[HC Ht] [-]"); [| iExists _, _, _; by iFrame].
  rw -(update_above 0 C t). iApply (done_erased with "HC Ht").
Qed.

(** Changing what the hole of a context holds. *)
Lemma ctx_hole top lnk f C p :
  ctx_at top lnk (f :: C) p -∗ pts (fr_addr f + rb_offset (fr_side f)) p
  ∗ (∀ p', pts (fr_addr f + rb_offset (fr_side f)) p' -∗ ctx_at top lnk (f :: C) p').
Proof.
  cbn [ctx_at]. iIntros "(%Hf & $ & $ & $ & $ & $ & $)". iIntros (p') "$". done.
Qed.

Lemma detach_spec x a r C2 cs sx sa cr (Phi : Z * Z * Z -> iProp Sg) :
  ptr_ok x -> zip_left [] r = Some (C2, (cs, sx, sa, cr)) -> (height r < RB_FUEL)%nat ->
  pts (x + rb_offset RIGHT) (addr r) -∗ tree_at x r -∗ pay x a -∗
  (∀ q w w', ⌜aligned q⌝ -∗ ⌜ptr_ok sx⌝ -∗ pts (x + rb_offset RIGHT) w -∗ pay x a -∗
   pts sx (q + color_z cs) -∗ pts (sx + rb_offset LEFT) w' -∗ pay sx (a_copy a sa) -∗
   ctx_at sx (sx + rb_offset RIGHT) (update C2 cr) (addr cr) -∗ tree_at sx cr -∗
   Phi (above sx C2, sx, addr cr)) -∗
  wp (rb_detach_successor ao_cb x (addr r)) Phi.
Proof.
  iIntros (Hx Hz Hh) "Xr Tr Xpay HP". destruct r as [| c l xr ar rr]; [done |].
  unfold rb_detach_successor. cbn [addr tree_at].
  iDestruct "Tr" as "(%Hr & Rpc & Rl & Rr & Rpay & Tl & Tr)". unfold rb_child, rb_set_child.
  kbind. kload "Rl". iDestruct (addr_empty with "Tl") as %->. destruct (is_empty l) eqn:El.
  - apply is_empty_true in El as ->. injection Hz as <- <- <- <- <-.
    kbind. kload "Rr". kbind.
    iApply (wp_wand with "[Xpay Rpay]"); [iApply (copy_spec x a xr ar); iFrame |].
    iIntros (_) "[Xpay Rpay]". iApply wp_ret.
    iApply ("HP" $! x with "[] [//] Xr Xpay Rpc Rl Rpay Rr Tr"). iPureIntro. apply Hx.
  - assert (Hz' : zip_left [mkF LEFT c xr ar rr] l = Some (C2, (cs, sx, sa, cr))) by (by destruct l).
    pose proof (zip_left_inord _ _ _ _ _ _ _ Hz') as (C1 & -> & _ & _ & Hl).
    pose proof (zip_left_sides _ _ _ _ _ _ _ Hz' ltac:(by constructor)) as HF.
    set (C2 := C1 ++ [mkF LEFT c xr ar rr]) in *.
    assert (Hne : C2 <> []) by (unfold C2; by destruct C1).
    assert (Hrt : addr (plug C2 (T cs E sx sa cr)) = xr).
    { unfold C2. by rw plug_app. }
    assert (Hlen : (length C2 < RB_FUEL)%nat).
    { unfold C2. rw length_app. simpl in Hh |- *. pose proof (height_plug C1 (T cs E sx sa cr)) as H.
      rw -Hl in H. simpl in H. lia. }
    clearbody C2. kbind. iApply (leftmost_spec RB_FUEL x (x + rb_offset RIGHT) [mkF LEFT c xr ar rr] l
      with "[Xr Rpc Rl Rr Rpay Tr] Tl"); [simpl in Hh; lia | done | simpl; by iFrame |].
    iIntros "HC (%Hs & Spc & Sl & Sr & Spay & _ & Tcr)".
    iDestruct (ctx_above with "HC") as %Haq; [apply Hx |].
    iDestruct (tree_at_aligned with "Tcr") as %Hacr.
    kbind. kload "Sr". destruct C2 as [| f0 C0]; [done |].
    assert (Hside : fr_side f0 = LEFT) by (by inversion HF).
    iDestruct (ctx_hole with "HC") as "[Hh HC]". rw Hside. cbn [above].
    kbind. kstore "Hh"; [destruct Hacr; lia |]. iDestruct ("HC" with "Hh") as "HC".
    kbind. kstore "Sr"; [destruct Hr as [_ []]; lia |].
    iDestruct (ctx_retop _ _ _ _ (T cs E sx sa cr) with "HC") as (cr0) "(Hrpc & Xr & _ & HC)"; [done |].
    rw Hrt. kbind. iApply (wp_set_parent with "Hrpc"); [apply Hx | apply Hs |]. iIntros "Hrpc".
    iDestruct ("HC" with "Hrpc Sr") as "HC".
    kbind. iApply (wp_wand with "[Xpay Spay]"); [iApply (copy_spec x a sx sa); iFrame |].
    iIntros (_) "[Xpay Spay]".
    iDestruct (ctx_apart with "Spc HC") as %Hap.
    kbind. iApply (wp_propagate sx _ (f0 :: C0) with "HC Tcr"); [done | apply Hs | done |]. iIntros "HC Tcr".
    iApply wp_ret. by iApply ("HP" $! (fr_addr f0) with "[//] [//] Xr Xpay Spc Sl Spay HC Tcr").
Qed.

Lemma data_plug C t t' : data t = data t' -> data (plug C t) = data (plug C t').
Proof.
  revert t t'. induction C as [| f C IH]; intros t t' H; [done |]. rw !plug_cons. apply IH.
  unfold fill. by destruct (fr_side f).
Qed.

Lemma update_data C : forall t t', data t = data t' -> update C t = update C t'.
Proof.
  induction C as [| f C IH]; intros t t' H; [done |]. cbn [update].
  assert (refit (fr_side f) (fr_data f) t (fr_sib f) = refit (fr_side f) (fr_data f) t' (fr_sib f)) as ->
    by (unfold refit; by rw H).
  case_decide; [done |]. f_equal. apply IH. unfold fill. simpl. by destruct (fr_side f).
Qed.

Lemma above_app top C1 C2 : above top (C1 ++ C2) = above (above top C2) C1.
Proof. by destruct C1. Qed.

Lemma erase_two_spec lnk C c l x a r t' (Phi : Z -> iProp Sg) :
  erase_two C c l a r = Some t' -> is_empty l = false ->
  (height (plug C (T c l x a r)) < RB_FUEL)%nat ->
  ctx_at 0 lnk C x -∗ tree_at (above 0 C) (T c l x a r) -∗
  (∀ reb, erased lnk t' reb -∗ unlinked x a -∗ Phi reb) -∗
  wp (rb_erase_two ao_cb x lnk (addr r)) Phi.
Proof.
  iIntros (He Hle Hh) "HC (%Hx & Xpc & Xl & Xr & Xpay & Tl & Tr) HP". unfold erase_two in He.
  destruct (zip_left [] r) as [[C2 [[[cs sx] sa] cr]] |] eqn:Hz; [| done]. cbv zeta in He.
  pose proof (height_plug C (T c l x a r)) as Hp. simpl in Hp.
  pose proof (zip_left_inord _ _ _ _ _ _ _ Hz) as (C1 & HC2 & _ & _ & Hrr). rw app_nil_r in HC2.
  subst C2. pose proof (height_plug C1 (T cs E sx sa cr)) as Hp1. rw -Hrr in Hp1. simpl in Hp1.
  unfold rb_erase_two. kbind.
  iApply (detach_spec with "Xr Tr Xpay"); [done | exact Hz | lia |].
  iIntros (q w w') "%Hq %Hs Xr Xpay Spc Sl Spay HC1 Tcr". unfold rb_child, rb_set_child.
  iDestruct (ctx_above with "HC") as %Ha; [apply aligned_0 |].
  iDestruct (tree_at_aligned with "Tl") as %Hal.
  kbind. kload "Xl". kbind. kstore "Sl"; [destruct Hal; lia |].
  iDestruct (addr_empty with "Tl") as %Hl0.
  kbind. iDestruct (wp_adopt x sx l (fun _ => tree_at sx l) with "Tl []") as "H";
    [apply Hx | apply Hs | by iIntros "$" |].
  rw Hl0 Hle. iApply (wp_wand with "H"). iIntros (_) "Tl".
  kbind. kload "Xpc". rw rb_parent_color; [| done].
  kbind. iApply (wp_change_child with "Xpc HC"); [done | apply Hs |]. iIntros "Xpc HC".
  iDestruct (ctx_above with "HC1") as %Hap; [apply Hs |]. rw update_above in Hap.
  set (C2 := update C1 cr) in *. set (cr' := if is_empty cr then cr else paint Black cr).
  assert (addr cr' = addr cr /\ data cr' = data cr) as [Hac Hdc] by (unfold cr'; by destruct cr).
  kbind. set (reb := if is_empty cr then (if decide (cs = Black) then above sx C1 else 0) else 0).
  iApply (wp_wand _ (fun b => ⌜b = reb⌝ ∗ tree_at (above sx C1) cr' ∗ pts sx (q + color_z cs))%I
    with "[Tcr Spc]").
  { iDestruct (addr_empty with "Tcr") as %->. unfold cr', reb. destruct (is_empty cr) eqn:Ecr; cbn [negb].
    - apply is_empty_true in Ecr as ->. kbind. iApply (wp_is_black with "Spc"); [done |]. iIntros "Spc".
      iApply wp_ret. destruct cs; by iFrame.
    - kbind. iApply (wp_paint_black with "Tcr"); [done.. |]. iIntros "Tcr". iApply wp_ret. by iFrame. }
  iIntros (reb') "(-> & Tcr & Spc)". kbind. kstore "Spc"; [by apply u64_pc |].
  rw -Hac -(update_above sx C1 cr). iDestruct (ctx_close with "HC1 Tcr") as "[Sr Tr]". fold C2.
  set (r' := plug C2 cr'). set (fs := mkF RIGHT c sx (a_copy a sa) l) in *.
  assert (Hup : update (fs :: C) (plug C2 cr) = update (fs :: C) r') by (by apply update_data, data_plug).
  rw Hup in He. kbind.
  iApply (wp_propagate0 lnk (fs :: C) sx r' with "[Spc Sl Sr Spay Tl HC] Tr"); [simpl; lia | simpl; by iFrame |].
  iIntros "HC Tr". iApply wp_ret. iApply ("HP" with "[HC Tr] [-]"); [| iExists _, _, _; by iFrame].
  assert (Hfs : sx = above 0 (update (fs :: C) r')) by (by rw update_above).
  iAssert (tree_at (above 0 (update (fs :: C) r')) r') with "[Tr]" as "Tr"; [by rw -Hfs |].
  iDestruct (ctx_close with "HC Tr") as "[H1 H2]". unfold r' at 2 4. rw -plug_app.
  iDestruct (ctx_open with "H1 H2") as "[HC Tr]". unfold reb, cr'. destruct (is_empty cr) eqn:Ecr.
  - apply is_empty_true in Ecr as ->.
    assert (Hlen : (length (C2 ++ update (fs :: C) r') < RB_FUEL)%nat).
    { unfold C2. rw length_app !update_length. simpl. lia. }
    iDestruct (drop_erased _ _ _ _ Hlen He with "HC") as "H".
    assert (above 0 (C2 ++ update (fs :: C) r') = above sx C1) as ->; [| done].
    rw above_app -Hfs. unfold C2. apply update_above.
  - injection He as <-. iApply (done_erased with "HC Tr").
Qed.

Lemma erase_augmented_spec lnk C c l x a r t' (Phi : Z -> iProp Sg) :
  erase_node C c l a r = Some t' -> (height (plug C (T c l x a r)) < RB_FUEL)%nat ->
  ctx_at 0 lnk C x -∗ tree_at (above 0 C) (T c l x a r) -∗
  (∀ reb, erased lnk t' reb -∗ unlinked x a -∗ Phi reb) -∗
  wp (__rb_erase_augmented x lnk ao_cb) Phi.
Proof.
  iIntros (He Hh) "HC Ht HP". unfold erase_node in He. unfold __rb_erase_augmented, rb_child.
  pose proof (height_plug C (T c l x a r)) as Hp. simpl in Hp.
  iDestruct "Ht" as "(%Hx & Xpc & Xl & Xr & Xpay & Tl & Tr)".
  kbind. kload "Xr". kbind. kload "Xl".
  iDestruct (addr_empty with "Tl") as %->. destruct (is_empty l) eqn:El.
  { apply is_empty_true in El as ->.
    iApply (erase_right_spec with "HC [-HP] HP"); [done | lia |]. cbn [tree_at]. by iFrame. }
  iDestruct (addr_empty with "Tr") as %->. destruct (is_empty r) eqn:Er.
  { apply is_empty_true in Er as ->. injection He as <-.
    iApply (erase_left_spec with "HC [-HP] HP"); [done | lia |]. cbn [tree_at]. by iFrame. }
  iApply (erase_two_spec with "HC [-HP] HP"); [done.. |]. cbn [tree_at]. by iFrame.
Qed.

(** Removing a node: the tree becomes what [erase_node] says and the node is
    no longer part of it. *)
Lemma rb_erase_augmented_spec lnk C c l x a r t' (Phi : unit -> iProp Sg) :
  erase_node C c l a r = Some t' -> (height (plug C (T c l x a r)) < RB_FUEL)%nat ->
  pts lnk (addr (plug C (T c l x a r))) -∗ tree_at 0 (plug C (T c l x a r)) -∗
  (pts lnk (addr t') -∗ tree_at 0 t' -∗ unlinked x a -∗ Phi tt) -∗
  wp (rb_erase_augmented x lnk ao_cb) Phi.
Proof.
  iIntros (He Hh) "H1 H2 HP". iDestruct (ctx_open with "H1 H2") as "[HC Ht]".
  unfold rb_erase_augmented. kbind. iApply (erase_augmented_spec with "HC Ht"); [done.. |].
  iIntros (reb) "[(-> & H1 & H2) | (%f & %C' & (-> & %Hf & %Hd & %Hl) & H1 & H2)] Hu".
  - iApply wp_ret. iApply ("HP" with "H1 H2 Hu").
  - rw (proj2 (Z.eqb_neq _ _) (proj1 Hf)). cbn [negb kwhen].
    iDestruct (ctx_open with "H1 H2") as "[HC Ht]". unfold ____rb_erase_color.
    iApply (erase_loop_spec RB_FUEL lnk f C' E with "HC Ht"); [done.. |].
    iIntros "H1 H2". iApply ("HP" with "H1 H2 Hu").
Qed.

(** ** Linking and inserting a node *)

(** The address of the link the hole of a context is in. *)
Definition hole_link (lnk : Z) C : Z :=
  match C with [] => lnk | f :: _ => fr_addr f + rb_offset (fr_side f) end.

Lemma link_node_spec lnk C x a (Phi : unit -> iProp Sg) : ptr_ok x ->
  unlinked x a -∗ ctx_at 0 lnk C 0 -∗
  (ctx_at 0 lnk C x -∗ tree_at (above 0 C) (T Red E x a E) -∗ Phi tt) -∗
  wp (rb_link_node x (above 0 C) (hole_link lnk C)) Phi.
Proof.
  iIntros (Hx) "(%w1 & %w2 & %w3 & H1 & H2 & H3 & Hp) HC HP". unfold rb_link_node, rb_set_child.
  iDestruct (ctx_above with "HC") as %Ha; [apply aligned_0 |].
  kbind. kstore "H1"; [destruct Ha; lia |]. kbind. kstore "H3"; [lia |]. kbind. kstore "H2"; [lia |].
  assert (Hr : 0 <= x < 2 ^ 64) by (destruct Hx as [_ []]; lia).
  iAssert (tree_at (above 0 C) (T Red E x a E)) with "[H1 H2 H3 Hp]" as "Ht".
  { cbn [tree_at color_z addr]. unfold RB_RED. rw Z.add_0_r. by iFrame. }
  destruct C as [| f C]; cbn [hole_link ctx_at].
  - kstore "HC"; [done |]. iApply ("HP" with "HC Ht").
  - iDestruct "HC" as "(%Hf & Hpc & Hd & HC)". kstore "Hd"; [done |].
    iApply ("HP" with "[Hpc Hd HC] Ht"). by iFrame.
Qed.

Lemma rb_insert_augmented_spec lnk C x a t' (Phi : unit -> iProp Sg) :
  fix_ins C (T Red E x a E) = Some t' -> (length C < RB_FUEL)%nat ->
  ctx_at 0 lnk C x -∗ tree_at (above 0 C) (T Red E x a E) -∗
  (pts lnk (addr t') -∗ tree_at 0 t' -∗ Phi tt) -∗
  wp (rb_insert_augmented x lnk ao_cb) Phi.
Proof.
  iIntros (Hf Hl) "HC Ht HP". unfold rb_insert_augmented, __rb_insert, rb_red_parent. kbind.
  cbn [tree_at]. iDestruct "Ht" as "(%Hx & Xpc & Ht)". kload "Xpc".
  cbn [color_z]. unfold RB_RED. rw Z.add_0_r.
  iApply (insert_loop_spec RB_FUEL lnk C (T Red E x a E) with "HC [-HP] HP"); [done.. |].
  cbn [tree_at color_z]. unfold RB_RED. rw Z.add_0_r. by iFrame.
Qed.

(** ** Ownership keeps nodes apart *)

Lemma node_not_in x w : forall t q, pts x w -∗ tree_at q t -∗ ⌜x ∉ nodes t⌝.
Proof.
  induction t as [| c l IH1 y a r IH2]; intros q; cbn [nodes tree_at].
  { iIntros "_ _". iPureIntro. apply not_elem_of_nil. }
  iIntros "Hx (_ & Hy & _ & _ & _ & Tl & Tr)". iDestruct (pts_apart with "Hx Hy") as %Ha.
  iDestruct (IH1 with "Hx Tl") as %H1. iDestruct (IH2 with "Hx Tr") as %H2.
  iPureIntro. apply not_elem_of_app. split; [done |]. apply not_elem_of_cons. split; [intros ->; lia | done].
Qed.

Lemma node_not_in_ctx x w top lnk : forall C p, pts x w -∗ ctx_at top lnk C p -∗ ⌜x ∉ ctx_nodes C⌝.
Proof.
  induction C as [| f C IH]; intros p; cbn [ctx_nodes ctx_at].
  { iIntros "_ _". iPureIntro. apply not_elem_of_nil. }
  iIntros "Hx (_ & Hf & _ & _ & _ & Hs & HC)". iDestruct (pts_apart with "Hx Hf") as %Ha.
  iDestruct (node_not_in with "Hx Hs") as %H1. iDestruct (IH with "Hx HC") as %H2.
  iPureIntro. apply not_elem_of_cons. split; [intros ->; lia |]. by apply not_elem_of_app.
Qed.

Lemma tree_node x : forall t q, x ∈ nodes t -> tree_at q t -∗ ∃ w, pts x w.
Proof.
  induction t as [| c l IH1 y a r IH2]; intros q Hx; cbn [nodes tree_at] in *; [by apply elem_of_nil in Hx |].
  iIntros "(_ & Hy & _ & _ & _ & Tl & Tr)". apply elem_of_app in Hx as [Hx | Hx].
  - by iApply (IH1 with "Tl").
  - apply elem_of_cons in Hx as [-> | Hx]; [by iExists _ | by iApply (IH2 with "Tr")].
Qed.

Lemma tree_NoDup : forall t q, tree_at q t -∗ ⌜NoDup (nodes t) /\ Forall ptr_ok (nodes t)⌝.
Proof.
  induction t as [| c l IH1 y a r IH2]; intros q; cbn [nodes tree_at].
  { iIntros "_". iPureIntro. split; constructor. }
  iIntros "(%Hp & Hy & _ & _ & _ & Tl & Tr)".
  iDestruct (node_not_in with "Hy Tl") as %N1. iDestruct (node_not_in with "Hy Tr") as %N2.
  iDestruct (IH1 with "Tl") as %[D1 P1]. iDestruct (IH2 with "Tr") as %[D2 P2].
  iAssert (⌜forall x, x ∈ nodes l -> x ∉ nodes r⌝)%I as %Hd.
  { iIntros (x Hx). iDestruct (tree_node with "Tl") as (w) "Hx"; [exact Hx |].
    iApply (node_not_in with "Hx Tr"). }
  iPureIntro. split.
  - apply NoDup_app. split; [done |]. split; [| by apply NoDup_cons].
    intros x Hx. apply not_elem_of_cons. split; [congruence | by apply Hd].
  - apply Forall_app. by split; [| constructor].
Qed.

Lemma tree_height t q n : rb t Black n -> tree_at q t -∗ ⌜(height t < RB_FUEL)%nat⌝.
Proof.
  iIntros (Hr) "Ht". iDestruct (tree_NoDup with "Ht") as %[Hd Hp]. iPureIntro.
  assert (height t <= 128)%nat; [| unfold RB_FUEL; lia]. apply (rb_depth t n Hr).
  rw -(length_fmap fst (inord t)) -nodes_inord.
  enough (Z.of_nat (length (nodes t)) <= 2 ^ 64 - 64) by lia.
  apply distinct_bound; [lia | done |]. eapply Forall_impl; [exact Hp |]. by intros x [_ [? _]].
Qed.

End erase.
