(* ===== verification/RbtreePlain.v ===== *)
(** * Plain red-black trees in the heap

    The nodes of a tree without augmented data are three words each.  The
    tree is in memory ([tree_in]) when the words of its nodes and of its root
    are there and do not overlap; then insertion and removal give a balanced
    tree again, with the node added or removed in its place in the order, in
    at most [RB_FUEL] turns, and change nothing outside the tree. *)

From iris.proofmode Require Import proofmode.
From iris.base_logic.lib Require Import gen_heap.
From S2P Require Import Prelude Memblock CString CStringSpec Kmalloc Kobj KobjLogic Rbtree RbTrees.
From S2P Require Import RbtreeSpec RbtreeErase.

(** ** The words of a tree *)

Section words.
Context {A : Type} `{!Aug A, !AugOps A}.
Implicit Types (t : tree A).

Fixpoint tree_words (par : Z) t : list (Z * Z) :=
  match t with
  | E => []
  | T c l x a r =>
      [(x, par + color_z c); (x + rb_offset LEFT, addr l); (x + rb_offset RIGHT, addr r)]
      ++ ao_words x a ++ tree_words x l ++ tree_words x r
  end.

Lemma own_tree `{!kobjGS Sg} par t :
  Forall ptr_ok (nodes t) -> own_words (tree_words par t) ⊢ tree_at par t.
Proof.
  revert par. induction t as [| c l IH1 x a r IH2]; intros par H; [by iIntros "_" |].
  cbn [tree_words tree_at nodes app] in *. apply Forall_app in H as [H1 H]. inversion H as [| ? ? Hx H2]; subst.
  rw !own_words_cons !own_words_app. iIntros "($ & $ & $ & $ & Hl & Hr)".
  iSplit; [done |]. iSplitL "Hl"; [by iApply IH1 | by iApply IH2].
Qed.

Lemma tree_own `{!kobjGS Sg} par t : tree_at par t ⊢ own_words (tree_words par t) ∗ ⌜Forall ptr_ok (nodes t)⌝.
Proof.
  revert par. induction t as [| c l IH1 x a r IH2]; intros par; cbn [tree_words tree_at nodes app].
  { iIntros "_". iSplit; [by iApply big_sepL_nil | done]. }
  iIntros "(%Hx & H1 & H2 & H3 & Hp & Hl & Hr)". rw IH1 IH2.
  iDestruct "Hl" as "[Hl %HL]". iDestruct "Hr" as "[Hr %HR]". iSplit.
  - rw !own_words_cons !own_words_app. iFrame.
  - iPureIntro. apply Forall_app. by split; [| constructor].
Qed.

(** A tree in memory fits in the address space, so its paths are short. *)
Lemma words_NoDup m ws : words m ws -> NoDup ws.*1.
Proof.
  induction ws as [| w ws IH]; intros H; simpl; [constructor |].
  destruct H as (_ & _ & Hc & H). constructor; [| by apply IH].
  intros Hin. apply list_elem_of_fmap in Hin as (w' & Hw & Hin).
  rw Forall_forall in Hc. specialize (Hc w' Hin). unfold clear_of in Hc. lia.
Qed.

Lemma nodes_words par t : nodes t ⊆+ (tree_words par t).*1.
Proof.
  revert par. induction t as [| c l IH1 x a r IH2]; intros par; [done |].
  cbn [tree_words nodes]. rw !fmap_app -Permutation_middle.
  apply (submseteq_skip x). do 2 apply submseteq_cons. apply submseteq_inserts_l. by apply submseteq_app.
Qed.

Lemma tree_fits m par t n : words m (tree_words par t) -> Forall ptr_ok (nodes t) ->
  rb t Black n -> (height t < RB_FUEL)%nat.
Proof.
  intros Hw Hp Hr. assert (height t <= 128)%nat; [| unfold RB_FUEL; lia].
  apply (rb_depth t n Hr).
  assert (Hn : NoDup (nodes t)).
  { destruct (submseteq_Permutation _ _ (nodes_words par t)) as [k Hk].
    pose proof (words_NoDup _ _ Hw) as Hd. rw Hk in Hd. by apply NoDup_app in Hd as [? _]. }
  rw -(length_fmap fst (inord t)) -nodes_inord.
  enough (Z.of_nat (length (nodes t)) <= 2 ^ 64 - 64) by lia.
  apply distinct_bound; [lia | done |]. eapply Forall_impl; [exact Hp |]. by intros x [_ [? _]].
Qed.
End words.

(** ** Trees without data *)

#[global] Instance plain_aug : Aug unit := {|
  a_fix a _ _ := a;
  a_copy _ b := b;
  a_key _ := (0, 0);
  a_key_fix _ _ _ := eq_refl;
  a_key_copy _ _ := eq_refl;
|}.

#[global] Instance plain_ops : AugOps unit := {|
  ao_words _ _ := [];
  ao_cb := dummy_callbacks;
|}.

Lemma update_plain (C : list (frame unit)) t : update C t = C.
Proof. destruct C as [| f C]; [done |]. simpl. case_decide; [done |]. by destruct (fr_side f). Qed.

#[global] Instance plain_spec `{!kobjGS Sg} : AugSpec unit.
Proof.
  split.
  - iIntros (x a y b) "[H1 H2]". iApply wp_ret. iFrame.
  - iIntros (x a l r y b) "(H1 & H2 & H3 & H4 & H5 & H6)". iApply wp_ret. iFrame.
  - intros top lnk C t _ _ _. rw update_plain. iIntros "[H1 H2]". iApply wp_ret. iFrame.
Qed.

(** The tree [t] is in memory, with the word [lnk] as its root. *)
Definition tree_in (m : bmem) (lnk : Z) (t : tree unit) : Prop :=
  words m ((lnk, addr t) :: tree_words 0 t) /\ Forall ptr_ok (nodes t).

Lemma words_apart m ws1 ws2 : words m (ws1 ++ ws2) ->
  words m ws1 /\ words m ws2 /\ forall w, w ∈ ws1 -> Forall (clear_of w.1) ws2.
Proof.
  induction ws1 as [| w ws1 IH]; [intros H; split; [done |]; split; [done |]; by intros w Hw; apply elem_of_nil in Hw |].
  simpl. rw Forall_app. intros (H1 & H2 & [H3 H4] & H5). destruct (IH H5) as (IH1 & IH2 & IH3).
  split; [exact (conj H1 (conj H2 (conj H3 IH1))) |]. split; [done |]. intros w' Hw. apply elem_of_cons in Hw as [-> | Hw]; auto.
Qed.

Definition lnodes (C : list (frame unit)) : list Z := (lkeys C).*1.
Definition rnodes (C : list (frame unit)) : list Z := (rkeys C).*1.

Lemma nodes_plug C (t : tree unit) : nodes (plug C t) = lnodes C ++ nodes t ++ rnodes C.
Proof. by rw !nodes_inord inord_plug !fmap_app. Qed.

Lemma tree_in_NoDup m lnk t : tree_in m lnk t -> NoDup (nodes t).
Proof.
  intros [(_ & _ & _ & Hw) _]. destruct (submseteq_Permutation _ _ (nodes_words 0 t)) as [k Hk].
  pose proof (words_NoDup _ _ Hw) as Hd. rw Hk in Hd. by apply NoDup_app in Hd as [? _].
Qed.

Lemma filter_out (l1 l2 : list Z) x : NoDup (l1 ++ x :: l2) ->
  filter (fun y : Z => y <> x) (l1 ++ x :: l2) = l1 ++ l2.
Proof.
  intros H. apply NoDup_app in H as (_ & H1 & H2). apply NoDup_cons in H2 as [H2 _].
  assert (Hk : forall l : list Z, x ∉ l -> filter (fun y : Z => y <> x) l = l).
  { intros l. induction l as [| y l IH]; [done |]. intros Hl. apply not_elem_of_cons in Hl as [Hy Hl].
    rw filter_cons decide_True; [| congruence]. by rw IH. }
  rw filter_app filter_cons. destruct (decide (x <> x)) as [n|_]; [done |].
  rw !Hk; [done.. |]. intros Hx. apply (H1 x Hx). by left.
Qed.

(** Proof in the logic, stated on the heap: the tree [t] becomes a tree [t']
    with [Q], and the words [extra] are handed in or back. *)
Lemma tree_adequate (c : kprog unit) lnk t extra (Q : tree unit -> Prop) h :
  (forall Sg `{!kobjGS Sg}, pts lnk (addr t) -∗ tree_at 0 t -∗ own_words extra -∗
    wp c (fun _ => ∃ t', ⌜Q t'⌝ ∗ pts lnk (addr t') ∗ tree_at 0 t')) ->
  words (kh_mem h) ((lnk, addr t) :: tree_words 0 t ++ extra) -> Forall ptr_ok (nodes t) ->
  exists h' t', c h = Done (tt, h') /\ kh_mb h' = kh_mb h /\ Q t' /\ tree_in (kh_mem h') lnk t'
    /\ forall a, off_words ((lnk, addr t) :: tree_words 0 t ++ extra) a -> kh_mem h' !! a = kh_mem h !! a.
Proof.
  intros Hc Hw Hp.
  destruct (wp_adequate c ((lnk, addr t) :: tree_words 0 t ++ extra)
    (fun _ ws => exists t', ws = (lnk, addr t') :: tree_words 0 t' /\ Q t' /\ Forall ptr_ok (nodes t')) h)
    as ([] & h' & ws & E & Hmb & (t' & -> & HQ & Hp') & Hw' & _ & Hfr); [| done | by exists h', t'].
  intros Sg HG. rw own_words_cons own_words_app. iIntros "(H1 & H2 & H3)".
  iDestruct (own_tree with "H2") as "H2"; [done |].
  iApply (wp_wand with "[-]"); [iApply (Hc Sg HG with "H1 H2 H3") |].
  iIntros (_) "(%t' & %HQ & H1 & H2)". iDestruct (tree_own with "H2") as "[H2 %Hp']".
  iExists _. iSplit; [by iPureIntro; exists t' |]. rw own_words_cons. iFrame.
Qed.

(** C5: [rb_link_node] puts a new node at any empty link of a balanced tree in
    memory ([C] is the path from the link to the root) and [rb_insert_color]
    rebalances: the calls return without a fault within [RB_FUEL] turns, the
    memory then holds a balanced tree whose nodes in order are those before
    with the new one at its place, and no byte outside the tree's words and
    the new node changes. *)
Theorem rb_insert_in h lnk C x w1 w2 w3 n :
  let ws := (lnk, addr (plug C E)) :: tree_words 0 (plug C E)
    ++ [(x, w1); (x + rb_offset LEFT, w2); (x + rb_offset RIGHT, w3)] in
  words (kh_mem h) ws -> Forall ptr_ok (nodes (plug C E)) -> ptr_ok x -> rb (plug C E) Black n ->
  exists h' t', (rb_link_node x (above 0 C) (hole_link lnk C);; rb_insert_color x lnk) h = Done (tt, h')
    /\ kh_mb h' = kh_mb h
    /\ ((exists n', rb t' Black n') /\ nodes t' = lnodes C ++ x :: rnodes C)
    /\ tree_in (kh_mem h') lnk t'
    /\ forall a, off_words ws a -> kh_mem h' !! a = kh_mem h !! a.
Proof.
  intros ws Hw Hp Hx Hr. apply tree_adequate; [| done..]. intros Sg HG.
  assert (Hfit : (height (plug C (@E unit)) < RB_FUEL)%nat).
  { pose proof Hw as (_ & _ & _ & Hw'). apply words_apart in Hw' as (Hw' & _). by eapply tree_fits. }
  pose proof (height_plug C E) as Hh. simpl in Hh.
  destruct (rb_plug_inv _ _ _ Hr) as (c & k & Hk & HC). inversion Hk; subst.
  destruct (fix_ins_balanced (length C) C (T Red E x tt E) 0 n) as (t' & n' & Hfix & Hr'); [done | | done |].
  { by constructor. }
  rw !own_words_cons. iIntros "H1 H2 (Hx1 & Hx2 & Hx3 & _)".
  iDestruct (ctx_open with "H1 H2") as "[HC _]". kbind.
  iApply (link_node_spec lnk C x tt with "[Hx1 Hx2 Hx3] HC"); [done | |].
  { iExists _, _, _. iFrame. by iApply big_sepL_nil. }
  iIntros "HC Ht". iApply (rb_insert_augmented_spec lnk C x tt with "HC Ht"); [done | lia |].
  iIntros "H1 H2". iExists t'. iFrame. iPureIntro. split; [by exists n' |].
  apply (fix_ins_inord (length C)) in Hfix; [| done].
  by rw nodes_inord Hfix -nodes_inord nodes_plug.
Qed.

(** C4: [rb_erase] of any node of a balanced tree in memory returns without a
    fault within [RB_FUEL] turns; the memory then holds a balanced tree with
    the other nodes in the same order, and no byte outside the tree's words
    changes. *)
Theorem rb_erase_in h lnk t n x :
  tree_in (kh_mem h) lnk t -> rb t Black n -> x ∈ nodes t ->
  exists h' t', rb_erase x lnk h = Done (tt, h')
    /\ kh_mb h' = kh_mb h
    /\ ((exists n', rb t' Black n') /\ nodes t' = filter (fun y : Z => y <> x) (nodes t))
    /\ tree_in (kh_mem h') lnk t'
    /\ forall a, off_words ((lnk, addr t) :: tree_words 0 t) a -> kh_mem h' !! a = kh_mem h !! a.
Proof.
  intros Hin Hr Hx. pose proof (tree_in_NoDup _ _ _ Hin) as Hd. destruct Hin as [Hw Hp].
  rw -(app_nil_r (tree_words 0 t)). apply tree_adequate; [| by rw app_nil_r | done]. intros Sg HG.
  assert (Hfit : (height t < RB_FUEL)%nat).
  { pose proof Hw as (_ & _ & _ & Hw'). by eapply tree_fits. }
  destruct (node_ctx t x Hx) as (C & c & l & [] & r & ->).
  destruct (erase_node_balanced C c l x tt r n Hr) as (t' & n' & He & Hr').
  iIntros "H1 H2 _". iApply (rb_erase_augmented_spec lnk C c l x tt r with "H1 H2"); [done.. |].
  iIntros "H1 H2 _". iExists t'. iFrame. iPureIntro. split; [by exists n' |].
  apply erase_node_inord in He.
  rw nodes_inord He !fmap_app -!nodes_inord. rw !nodes_plug in Hd |- *. cbn [nodes] in Hd |- *.
  repeat (rw -app_assoc in Hd |- *; cbn [app] in Hd |- *).
  rw (app_assoc (lnodes C)) filter_out; [by rw -!app_assoc | by rw -app_assoc].
Qed.

(** ** Two trees *)

Definition tree_heap (ws : list (Z * Z)) : kheap := mkHeap memblock_init (word_image ws).

#[global] Instance ptr_ok_dec p : Decision (ptr_ok p).
Proof. unfold ptr_ok, aligned. apply _. Defined.

(** The new node goes below the left child of the root, which is red. *)
Definition two_below : list (frame unit) :=
  [mkF LEFT Red 0x2000 tt E; mkF LEFT Black 0x1000 tt E].

Definition two_words : list (Z * Z) :=
  (0x800, 0x1000) :: tree_words 0 (plug two_below E) ++ [(0x3000, 7); (0x3010, 8); (0x3008, 9)].

Lemma rb_insert_in_witness : exists h' t',
  (rb_link_node 0x3000 0x2000 0x2010;; rb_insert_color 0x3000 0x800) (tree_heap two_words) = Done (tt, h')
  /\ tree_in (kh_mem h') 0x800 t' /\ nodes t' = [0x3000; 0x2000; 0x1000].
Proof.
  destruct (rb_insert_in (tree_heap two_words) 0x800 two_below 0x3000 7 8 9 1)
    as (h' & t' & E & _ & [_ Hn] & Hin & _).
  - by apply words_over_ok.
  - by apply (bool_decide_unpack _); vm_compute.
  - by apply (bool_decide_unpack _); vm_compute.
  - by repeat econstructor.
  - exists h', t'. exact (conj E (conj Hin Hn)).
Defined.

Definition three : tree unit := T Black (T Red E 0x2000 tt E) 0x1000 tt (T Red E 0x3000 tt E).

Lemma rb_erase_in_witness : exists h' t',
  rb_erase 0x1000 0x800 (tree_heap ((0x800, 0x1000) :: tree_words 0 three)) = Done (tt, h')
  /\ tree_in (kh_mem h') 0x800 t' /\ nodes t' = [0x2000; 0x3000].
Proof.
  destruct (rb_erase_in (tree_heap ((0x800, 0x1000) :: tree_words 0 three)) 0x800 three 1 0x1000)
    as (h' & t' & E & _ & [_ Hn] & Hin & _).
  - split; [by apply words_over_ok |]. by apply (bool_decide_unpack _); vm_compute.
  - by repeat econstructor.
  - by apply (bool_decide_unpack _); vm_compute.
  - exists h', t'. exact (conj E (conj Hin Hn)).
Defined.
