(* ===== verification/VmapArea.v ===== *)
(** * Virtual areas of the kernel: [src/src/mm/vm.c], [list.h]

    A [struct vmap_area] describes a range of kernel addresses.  Free areas
    are in an augmented red-black tree (every node knows the largest area
    below it) and, in the order of their addresses, in a list; areas in use
    are in a plain tree and a list.  The code is translated over words of
    memory ([Kobj]); [kmalloc] and [kfree] are those of [Kmalloc]. *)

From S2P Require Import Prelude Memblock CString Kmalloc Kobj Rbtree.

(** ** [struct list_head]: [next], [prev] *)

Definition list_next (l : Z) : kprog Z := ldw l.
Definition list_prev (l : Z) : kprog Z := ldw (l + 8).

Definition INIT_LIST_HEAD (l : Z) : kprog unit := stw l l;; stw (l + 8) l.

Definition __list_add (new prev next : Z) : kprog unit :=
  stw (next + 8) new;;
  stw new next;;
  stw (new + 8) prev;;
  stw prev new.

Definition list_add (new head : Z) : kprog unit :=
  next ← list_next head; __list_add new head next.

Definition __list_del (prev next : Z) : kprog unit :=
  stw (next + 8) prev;; stw prev next.

Definition __list_del_entry (entry : Z) : kprog unit :=
  prev ← list_prev entry; next ← list_next entry; __list_del prev next.

Definition list_del_init (entry : Z) : kprog unit :=
  __list_del_entry entry;; INIT_LIST_HEAD entry.

Definition list_empty (head : Z) : kprog bool :=
  next ← list_next head; mret (next =? head).

Definition list_replace (old new : Z) : kprog unit :=
  next ← list_next old; stw new next;;
  stw (next + 8) new;;
  prev ← list_prev old; stw (new + 8) prev;;
  stw prev new.

Definition list_replace_init (old new : Z) : kprog unit :=
  list_replace old new;; INIT_LIST_HEAD old.

(** ** [struct vmap_area] *)

Definition VA_RB : Z := 16.
Definition VA_LIST : Z := 40.
Definition VA_SUB : Z := 56.
Definition VA_FLAGS : Z := 64.
Definition SIZEOF_VA : Z := 72.

Definition va_start (va : Z) : kprog Z := ldw va.
Definition va_end (va : Z) : kprog Z := ldw (va + 8).
Definition va_of_rb (n : Z) : Z := n - VA_RB.
Definition va_of_list (l : Z) : Z := l - VA_LIST.

Definition va_size (va : Z) : kprog Z :=
  e ← va_end va; s ← va_start va; mret (u64 (e - s)).

(** ** The callbacks of the free tree: [RB_DECLARE_CALLBACKS_MAX] *)

Definition child_max (child max : Z) : kprog Z :=
  if child =? 0 then mret max
  else
    m ← ldw (va_of_rb child + VA_SUB);
    mret (if m >? max then m else max).

Definition compute_max (node : Z) (exit : bool) : kprog bool :=
  max ← va_size (va_of_rb node);
  l ← rb_child LEFT node;
  max ← child_max l max;
  r ← rb_child RIGHT node;
  max ← child_max r max;
  cur ← ldw (va_of_rb node + VA_SUB);
  if exit && (cur =? max) then mret true
  else stw (va_of_rb node + VA_SUB) max;; mret false.

Fixpoint augment_propagate_loop (fuel : nat) (rb stop : Z) : kprog unit :=
  match fuel with
  | O => kfuel
  | S fuel =>
      if rb =? stop then mret tt
      else
        b ← compute_max rb true;
        if (b : bool) then mret tt
        else rb ← rb_parent rb; augment_propagate_loop fuel rb stop
  end.

Definition augment_copy (rb_old rb_new : Z) : kprog unit :=
  m ← ldw (va_of_rb rb_old + VA_SUB);
  stw (va_of_rb rb_new + VA_SUB) m.

Definition augment_rotate (rb_old rb_new : Z) : kprog unit :=
  augment_copy rb_old rb_new;;
  compute_max rb_old false;;
  mret tt.

Definition free_vmap_area_rb_augment_cb : rb_augment_callbacks := {|
  propagate := augment_propagate_loop (S RB_FUEL);
  copy := augment_copy;
  rotate := augment_rotate;
|}.

(** ** Searching *)

Definition get_subtree_max_size (node : Z) : kprog Z :=
  if node =? 0 then mret 0 else ldw (va_of_rb node + VA_SUB).

Definition nva_start (start align vstart : Z) : Z :=
  if start >? vstart then ALIGN_UP start align else ALIGN_UP vstart align.

Definition is_within_this_va (va size align vstart : Z) : kprog bool :=
  start ← va_start va;
  let nva_start_addr := nva_start start align vstart in
  if (u64 (nva_start_addr + size) <? nva_start_addr) || (nva_start_addr <? vstart) then mret false
  else e ← va_end va; mret (u64 (nva_start_addr + size) <=? e).

(** [find_vmap_lowest_match]: [up] tells whether the search goes down from
    [node] (the outer loop) or has to climb above it (the inner loop). *)
Fixpoint lowest_match_loop (fuel : nat) (size align length : Z) (up : bool) (vstart node : Z) : kprog Z :=
  match fuel with
  | O => kfuel
  | S fuel =>
      if up then
        node ← rb_parent node;
        if node =? 0 then mret 0
        else
          let va := va_of_rb node in
          w ← is_within_this_va va size align vstart;
          if (w : bool) then mret va
          else
            right ← rb_child RIGHT node;
            m ← get_subtree_max_size right;
            start ← va_start va;
            if (length <=? m) && (vstart <=? start) then
              lowest_match_loop fuel size align length false (u64 (start + 1)) right
            else lowest_match_loop fuel size align length true vstart node
      else if node =? 0 then mret 0
      else
        let va := va_of_rb node in
        left ← rb_child LEFT node;
        m ← get_subtree_max_size left;
        start ← va_start va;
        if (length <=? m) && (vstart <? start) then
          lowest_match_loop fuel size align length false vstart left
        else
          w ← is_within_this_va va size align vstart;
          if (w : bool) then mret va
          else
            right ← rb_child RIGHT node;
            m ← get_subtree_max_size right;
            if length <=? m then lowest_match_loop fuel size align length false vstart right
            else lowest_match_loop fuel size align length true vstart node
  end.

Definition find_vmap_lowest_match (fuel : nat) (root size align vstart : Z) (adjust_search_size : bool)
    : kprog Z :=
  node ← ldw root;
  let length := if adjust_search_size then u64 (size + align - 1) else size in
  lowest_match_loop fuel size align length false vstart node.

Inductive fit_type := NOTHING_FIT | FL_FIT_TYPE | LE_FIT_TYPE | RE_FIT_TYPE | NE_FIT_TYPE.

Definition classify_va_fit_type (va nva_start_addr size : Z) : kprog fit_type :=
  start ← va_start va;
  e ← va_end va;
  let nend := u64 (nva_start_addr + size) in
  mret (if (nva_start_addr <? start) || (nend >? e) then NOTHING_FIT
        else if start =? nva_start_addr then
          if e =? nend then FL_FIT_TYPE else LE_FIT_TYPE
        else if e =? nend then RE_FIT_TYPE else NE_FIT_TYPE).

(** ** Linking *)

Definition __unlink_va (va root : Z) (augment : bool) : kprog unit :=
  empty ← RB_EMPTY_NODE (va + VA_RB);
  if (empty : bool) then mret tt
  else
    (if augment then rb_erase_augmented (va + VA_RB) root free_vmap_area_rb_augment_cb
     else rb_erase (va + VA_RB) root);;
    list_del_init (va + VA_LIST);;
    RB_CLEAR_NODE (va + VA_RB).

Definition augment_tree_propagate_from (va : Z) : kprog unit :=
  propagate free_vmap_area_rb_augment_cb (va + VA_RB) 0.

(** The descent of [find_va_links] from the node [n]: the empty link and its
    parent, [None] (the code warns and returns NULL) on an overlap. *)
Fixpoint va_links_loop (fuel : nat) (start e n : Z) : kprog (option (Z * Z)) :=
  match fuel with
  | O => kfuel
  | S fuel =>
      let tmp_va := va_of_rb n in
      tstart ← va_start tmp_va;
      d ← (if e <=? tstart then mret (Some LEFT)
           else tend ← va_end tmp_va; mret (if tend <=? start then Some RIGHT else None));
      match d with
      | None => mret None
      | Some d =>
          next ← rb_child d n;
          if next =? 0 then mret (Some (n + rb_offset d, n)) else va_links_loop fuel start e next
      end
  end.

Definition find_va_links (va root from : Z) : kprog (option (Z * Z)) :=
  start ← va_start va;
  e ← va_end va;
  if root =? 0 then va_links_loop RB_FUEL start e from
  else
    n ← ldw root;
    if n =? 0 then mret (Some (root, 0)) else va_links_loop RB_FUEL start e n.

(** The list entry the new one goes after. *)
Definition link_list_pos (parent link head : Z) : kprog Z :=
  if parent =? 0 then mret head
  else
    let h := va_of_rb parent + VA_LIST in
    if parent + rb_offset RIGHT =? link then mret h else list_prev h.

Definition __link_va (va root parent link head : Z) (augment : bool) : kprog unit :=
  head ← link_list_pos parent link head;
  rb_link_node (va + VA_RB) parent link;;
  (if augment then
     rb_insert_augmented (va + VA_RB) root free_vmap_area_rb_augment_cb;;
     stw (va + VA_SUB) 0
   else rb_insert_color (va + VA_RB) root);;
  list_add (va + VA_LIST) head.

Definition insert_vmap_area_augment (va from root head : Z) : kprog unit :=
  link ← (if from =? 0 then find_va_links va root 0 else find_va_links va 0 from);
  match link with
  | None => mret tt
  | Some (link, parent) =>
      __link_va va root parent link head true;;
      augment_tree_propagate_from va
  end.

Definition insert_vmap_area (va root head : Z) : kprog unit :=
  link ← find_va_links va root 0;
  match link with
  | None => mret tt
  | Some (link, parent) => __link_va va root parent link head false
  end.

(** ** Looking up *)

Fixpoint find_vmap_area_loop (fuel : nat) (addr n : Z) : kprog Z :=
  match fuel with
  | O => kfuel
  | S fuel =>
      if n =? 0 then mret 0
      else
        let va := va_of_rb n in
        start ← va_start va;
        if addr <? start then n ← rb_child LEFT n; find_vmap_area_loop fuel addr n
        else
          e ← va_end va;
          if e <=? addr then n ← rb_child RIGHT n; find_vmap_area_loop fuel addr n
          else mret va
  end.

Definition __find_vmap_area (addr root : Z) : kprog Z :=
  n ← ldw root; find_vmap_area_loop (S RB_FUEL) addr n.

Definition find_unlink_vmap_area (addr busy_root : Z) : kprog Z :=
  va ← __find_vmap_area addr busy_root;
  kwhen (negb (va =? 0)) (__unlink_va va busy_root false);;
  mret va.

(** ** Taking a range out of the free areas *)

Definition kmalloc_prog (size : Z) : kprog Z := kcall (fun h => kmalloc h size false).
Definition kfree_prog (ptr : Z) : kprog unit := fun h => let! h := kfree h ptr in Done (tt, h).

(** [preload] is the address of [ne_fit_preload_node]; the result is 0 or an
    error number. *)
Definition va_clip (preload root head va nva_start_addr size : Z) : kprog Z :=
  type ← classify_va_fit_type va nva_start_addr size;
  match type with
  | NOTHING_FIT => mret (- EINVAL)
  | FL_FIT_TYPE => __unlink_va va root true;; kfree_prog va;; mret 0
  | LE_FIT_TYPE =>
      s ← va_start va; stw va (u64 (s + size));;
      augment_tree_propagate_from va;; mret 0
  | RE_FIT_TYPE =>
      stw (va + 8) nva_start_addr;;
      augment_tree_propagate_from va;; mret 0
  | NE_FIT_TYPE =>
      lva ← ldw preload;
      stw preload 0;;
      lva ← (if lva =? 0 then kmalloc_prog SIZEOF_VA else mret lva);
      if lva =? 0 then mret (- ENOMEM)
      else
        s ← va_start va;
        stw lva s;;
        stw (lva + 8) nva_start_addr;;
        stw va (u64 (nva_start_addr + size));;
        augment_tree_propagate_from va;;
        insert_vmap_area_augment lva (va + VA_RB) root head;;
        mret 0
  end.

Definition ERANGE : Z := 34.

Definition va_alloc (preload va root head size align vstart vend : Z) : kprog Z :=
  start ← va_start va;
  let nva_start_addr := nva_start start align vstart in
  if u64 (nva_start_addr + size) >? vend then mret (u64 (- ERANGE))
  else
    ret ← va_clip preload root head va nva_start_addr size;
    mret (if negb (ret =? 0) then u64 ret else nva_start_addr).

Definition __alloc_vmap_area (fuel : nat) (preload root head size align vstart vend : Z) : kprog Z :=
  let adjust := negb ((align <=? PAGE_SIZE) || ((align >? PAGE_SIZE) && (u64 (vend - vstart) =? size))) in
  va ← find_vmap_lowest_match fuel root size align vstart adjust;
  if va =? 0 then mret (u64 (- ENOENT))
  else va_alloc preload va root head size align vstart vend.

(** ** Giving a range back *)

Definition get_va_next_sibling (parent link : Z) : kprog Z :=
  if parent =? 0 then mret 0
  else
    let list := va_of_rb parent + VA_LIST in
    if parent + rb_offset RIGHT =? link then list_next list else mret list.

(** Merging with the next area: the area to go on with and whether it was
    merged. *)
Definition merge_next (va next head : Z) : kprog (Z * bool) :=
  if next =? head then mret (va, false)
  else
    let sibling := va_of_list next in
    sstart ← va_start sibling;
    vend ← va_end va;
    if sstart =? vend then
      vstart ← va_start va;
      stw sibling vstart;;
      kfree_prog va;;
      mret (sibling, true)
    else mret (va, false).

Definition merge_prev (va next root head : Z) (augment merged : bool) : kprog (Z * bool) :=
  prev ← list_prev next;
  if prev =? head then mret (va, merged)
  else
    let sibling := va_of_list prev in
    send ← va_end sibling;
    vstart ← va_start va;
    if send =? vstart then
      kwhen merged (__unlink_va va root augment);;
      vend ← va_end va;
      stw (sibling + 8) vend;;
      kfree_prog va;;
      mret (sibling, true)
    else mret (va, merged).

Definition __merge_or_add_vmap_area (va root head : Z) (augment : bool) : kprog Z :=
  link ← find_va_links va root 0;
  match link with
  | None => mret 0
  | Some (link, parent) =>
      next ← get_va_next_sibling parent link;
      '(va, merged) ←
        (if next =? 0 then mret (va, false)
         else
           '(va, merged) ← merge_next va next head;
           merge_prev va next root head augment merged);
      kwhen (negb merged) (__link_va va root parent link head augment);;
      mret va
  end.

Definition merge_or_add_vmap_area (va root head : Z) : kprog Z :=
  __merge_or_add_vmap_area va root head false.

Definition merge_or_add_vmap_area_augment (va root head : Z) : kprog Z :=
  va ← __merge_or_add_vmap_area va root head true;
  kwhen (negb (va =? 0)) (augment_tree_propagate_from va);;
  mret va.
