(* ===== verification/VmapAug.v ===== *)
(** * Areas as data of a tree, and the largest free area below a node

    The data of a node is the rest of its [struct vmap_area] (the list entry
    apart).  [aug_ok]: every node of the free tree stores the size of the
    largest area of its subtree.  Removal and the rotations keep it; after an
    insertion it holds but for the new node, whose size does not count yet
    ([skip]), and the final propagation restores it. *)

From stdpp Require Import sorting.
From S2P Require Import Prelude Kmalloc Kobj Rbtree RbTrees VmapArea.

Record area := mkA { ar_start : Z; ar_end : Z; ar_sub : Z; ar_flags : Z }.
#[global] Instance area_eq_dec : EqDecision area.
Proof. solve_decision. Defined.

Definition ar_size (a : area) : Z := u64 (ar_end a - ar_start a).
Definition set_sub (a : area) (m : Z) : area := mkA (ar_start a) (ar_end a) m (ar_flags a).
Definition sub_of (o : option area) : Z := match o with None => 0 | Some a => ar_sub a end.

(** What [compute_max] computes. *)
Definition max_sub (a : area) (l r : option area) : Z :=
  Z.max (Z.max (ar_size a) (sub_of l)) (sub_of r).

#[global] Instance free_aug : Aug area := {|
  a_fix a l r := set_sub a (max_sub a l r);
  a_copy a b := set_sub b (ar_sub a);
  a_key a := (ar_start a, ar_end a);
  a_key_fix _ _ _ := eq_refl;
  a_key_copy _ _ := eq_refl;
|}.

(** An area of a tree without augmentation. *)
Record barea := mkB { ba : area }.
#[global] Instance barea_eq_dec : EqDecision barea.
Proof. solve_decision. Defined.

#[global] Instance busy_aug : Aug barea := {|
  a_fix a _ _ := a;
  a_copy _ b := b;
  a_key a := (ar_start (ba a), ar_end (ba a));
  a_key_fix _ _ _ := eq_refl;
  a_key_copy _ _ := eq_refl;
|}.


Lemma max_rot f x n far sf :
  Z.max f (Z.max (Z.max x (Z.max n far)) sf) = Z.max x (Z.max (Z.max f (Z.max sf n)) far).
Proof. lia. Qed.

Section aug.
Variable skip : Z -> bool.
Implicit Types (t l r : tree area) (C : list (frame area)) (d : side) (a : area).

Definition esz (x : Z) a : Z := if skip x then 0 else ar_size a.

(** The largest size in a tree, the skipped nodes not counted. *)
Fixpoint emax t : Z :=
  match t with
  | E => 0
  | T _ l x a r => Z.max (esz x a) (Z.max (emax l) (emax r))
  end.

Fixpoint augs t : Prop :=
  match t with
  | E => True
  | T c l x a r =>
      (skip x = false -> ar_sub a = Z.max (esz x a) (Z.max (emax l) (emax r))) /\ augs l /\ augs r
  end.

(** The root is not a skipped node. *)
Definition root_ok t : Prop := match t with E => True | T _ _ x _ _ => skip x = false end.

(** The frames of a context, [v] being the largest size in the hole. *)
Fixpoint actx C (v : Z) : Prop :=
  match C with
  | [] => True
  | f :: C' =>
      let w := Z.max (esz (fr_addr f) (fr_data f)) (Z.max v (emax (fr_sib f))) in
      (skip (fr_addr f) = false -> ar_sub (fr_data f) = w) /\ augs (fr_sib f) /\ actx C' w
  end.

Lemma emax_nonneg t : 0 <= emax t.
Proof.
  induction t as [| c l IH1 x a r IH2]; simpl; [done |]. lia.
Qed.

Lemma emax_mk d c l x a r : emax (mk d c l x a r) = Z.max (esz x a) (Z.max (emax l) (emax r)).
Proof. destruct d; simpl; lia. Qed.

Lemma augs_mk d c l x a r :
  augs (mk d c l x a r) <->
  (skip x = false -> ar_sub a = Z.max (esz x a) (Z.max (emax l) (emax r))) /\ augs l /\ augs r.
Proof.
  destruct d; simpl; [done |]. rewrite (Z.max_comm (emax r)). tauto.
Qed.

Lemma emax_paint c t : emax (paint c t) = emax t.
Proof. by destruct t. Qed.

Lemma augs_paint c t : augs (paint c t) <-> augs t.
Proof. by destruct t. Qed.

Lemma root_ok_paint c t : root_ok (paint c t) <-> root_ok t.
Proof. by destruct t. Qed.

Lemma augs_plug C : forall t, augs (plug C t) <-> augs t /\ actx C (emax t).
Proof.
  induction C as [| f C IH]; intros t; simpl; [tauto |].
  rewrite IH. unfold fill. rewrite augs_mk, emax_mk. tauto.
Qed.

Lemma sub_emax t : augs t -> root_ok t -> sub_of (data t) = emax t.
Proof. destruct t; simpl; [done |]. intros [H _] Hr. by apply H. Qed.

Lemma refit_sub d a l r : augs l -> augs r -> root_ok l -> root_ok r ->
  ar_sub (refit d a l r) = Z.max (ar_size a) (Z.max (emax l) (emax r)).
Proof.
  intros H1 H2 H3 H4. destruct d; simpl; unfold max_sub; rewrite !sub_emax by done; lia.
Qed.

Lemma refit_size d a l r : ar_size (refit d a l r) = ar_size a.
Proof. by destruct d. Qed.

Lemma esz_refit x d a l r : esz x (refit d a l r) = esz x a.
Proof. unfold esz. by rewrite refit_size. Qed.

Lemma esz_copy x a b : esz x (a_copy a b) = esz x b.
Proof. done. Qed.

Lemma esz_set x a m : esz x (set_sub a m) = esz x a.
Proof. done. Qed.

(** A rotation at [g]: the node [x] comes on top with what [g] stored. *)
Lemma rot_up_augs (g : frame area) near x a tmp :
  skip (fr_addr g) = false -> augs near -> augs tmp -> augs (fr_sib g) -> root_ok tmp -> root_ok (fr_sib g) ->
  ar_sub (fr_data g) = Z.max (esz (fr_addr g) (fr_data g))
    (Z.max (Z.max (esz x a) (Z.max (emax near) (emax tmp))) (emax (fr_sib g))) ->
  augs (rot_up g near x a tmp)
  /\ emax (rot_up g near x a tmp) = ar_sub (fr_data g).
Proof.
  intros Hg H1 H2 H3 H4 H5 Hs. unfold rot_up. rewrite !augs_mk, !emax_mk, !emax_paint, !augs_paint.
  rewrite esz_refit, esz_copy. split; [| lia]. split; [intros _; simpl; lia |]. split; [done |].
  split; [| done]. intros _. rewrite refit_sub by (rewrite ?augs_paint, ?root_ok_paint; done).
  rewrite emax_paint. unfold esz. by rewrite Hg.
Qed.

(** The children of the root are not skipped. *)
Definition kids_ok t : Prop :=
  match t with E => True | T _ l _ _ r => root_ok l /\ root_ok r end.

(** A context without skipped nodes at the head and as siblings. *)
Definition clean C : Prop :=
  Forall (fun f => skip (fr_addr f) = false /\ root_ok (fr_sib f)) C.

Lemma view_augs d t c near x a far : view d t = Some (c, near, x, a, far) ->
  augs t -> kids_ok t -> augs near /\ augs far /\ root_ok near /\ root_ok far
  /\ emax t = Z.max (esz x a) (Z.max (emax near) (emax far))
  /\ (skip x = false -> ar_sub a = emax t).
Proof.
  intros Hv Ht Hk. destruct t as [| c' l y b r]; [done |]. simpl in *.
  destruct d; injection Hv as <- <- <- <- <-; destruct Ht as (? & ? & ?), Hk; split_and!; auto; lia.
Qed.

Lemma ins_rotate_augs g f t t' :
  ins_rotate g f t = Some t' -> clean [f; g] -> kids_ok t -> augs (fill g (fill f t)) ->
  augs t' /\ emax t' = emax (fill g (fill f t)).
Proof.
  unfold ins_rotate, fill. intros Hr Hcl Hk. rewrite !augs_mk, !emax_mk.
  intros (Hg & (Hf & Ht & Hsf) & Hsg).
  inversion Hcl as [| ? ? [Cf1 Cf2] Hcl']; subst. inversion Hcl' as [| ? ? [Cg1 Cg2] _]; subst.
  specialize (Hg Cg1). specialize (Hf Cf1). rewrite <- Hg. case_decide as Hd.
  - injection Hr as <-. by apply rot_up_augs.
  - destruct (view (fr_side g) t) as [[[[[c near] x] a] far] |] eqn:Hv; [| done]. injection Hr as <-.
    destruct (view_augs _ _ _ _ _ _ _ Hv Ht Hk) as (Hn & Hfar & Rn & Rf & He & Hx).
    apply rot_up_augs; try done.
    + rewrite augs_mk, augs_paint, emax_paint, esz_refit. split; [| done]. intros _.
      rewrite refit_sub by (rewrite ?augs_paint, ?root_ok_paint; done). rewrite emax_paint.
      unfold esz. by rewrite Cf1.
    + rewrite emax_mk, emax_paint, esz_refit, ?esz_copy, ?esz_set. rewrite Hg, He. f_equal. f_equal. apply max_rot.
Qed.

Lemma fix_ins_augs k : forall C t t', (length C <= k)%nat ->
  fix_ins C t = Some t' -> clean C -> kids_ok t -> augs t -> actx C (emax t) -> augs t'.
Proof.
  induction k as [| k IH]; intros C t t' Hk H Hcl Hkt Ht HC.
  { destruct C; [| simpl in Hk; lia]. injection H as <-. by apply augs_paint. }
  destruct C as [| f C1]; simpl in H; [injection H as <-; by apply augs_paint |].
  destruct (fr_color f) eqn:Ef; cycle 1.
  { injection H as <-. apply (augs_plug (f :: C1)). done. }
  destruct C1 as [| g C2]; [done |].
  inversion Hcl as [| ? ? Hcf Hcl1]; subst. inversion Hcl1 as [| ? ? Hcg Hcl2]; subst.
  destruct HC as (HC1 & HC2 & HC3). destruct HC3 as (HC4 & HC5 & HC6).
  destruct (is_red (fr_sib g)) eqn:Eu.
  - eapply IH; [| exact H | done | | |]; [simpl in Hk; lia | | |].
    + unfold kids_ok. destruct (fr_side g), (fr_side f), Hcf, Hcg; simpl; rewrite ?root_ok_paint; done.
    + rewrite !augs_mk, !emax_mk, emax_paint, augs_paint. done.
    + rewrite !emax_mk, emax_paint. done.
  - apply fmap_Some in H as (t1 & Hrot & ->).
    destruct (ins_rotate_augs _ _ _ _ Hrot) as [H1 H2]; [by constructor; [| constructor] | done | |].
    { unfold fill. rewrite !augs_mk, emax_mk. done. }
    apply augs_plug. split; [done |]. rewrite H2. unfold fill. by rewrite !emax_mk.
Qed.

(** The propagation: the path is consistent from the second frame on. *)
Definition above_ok C : Prop :=
  match C with [] => True | f :: C' => augs (fr_sib f) /\ actx C' (ar_sub (fr_data f)) end.

Lemma update_augs C : forall t, clean C -> root_ok t -> augs t -> above_ok C -> augs (plug (update C t) t).
Proof.
  induction C as [| f C IH]; intros t Hcl Hr Ht Ha; simpl; [done |].
  inversion Hcl as [| ? ? [Hf1 Hf2] Hcl']; subst. destruct Ha as [Hs Ha].
  set (a' := refit (fr_side f) (fr_data f) t (fr_sib f)).
  assert (Hsub : ar_sub a' = Z.max (esz (fr_addr f) (fr_data f)) (Z.max (emax t) (emax (fr_sib f)))).
  { unfold a'. rewrite refit_sub by done. unfold esz. by rewrite Hf1. }
  case_decide as Hd.
  - rewrite Hd in Hsub. apply augs_plug. split; [done |]. simpl. rewrite <- Hsub. done.
  - set (f' := mkF (fr_side f) (fr_color f) (fr_addr f) a' (fr_sib f)).
    change (augs (plug (update C (fill f' t)) (fill f' t))).
    assert (Hfill : augs (fill f' t)).
    { unfold fill, f'. simpl. rewrite augs_mk. unfold a' at 2. rewrite esz_refit. done. }
    apply IH; [done | unfold fill, f'; simpl; by destruct (fr_side f) | done |].
    destruct C as [| g C']; [done |]. simpl in Ha. destruct Ha as (Hg1 & Hg2 & Hg3). split; [done |].
    inversion Hcl' as [| ? ? [Hg _] _]; subst. by rewrite (Hg1 Hg).
Qed.

Lemma actx_above C v : clean C -> actx C v -> above_ok C.
Proof.
  destruct C as [| f C]; [done |]. intros Hcl (H1 & H2 & H3).
  inversion Hcl as [| ? ? [Hf _] _]; subst. split; [done |]. by rewrite (H1 Hf).
Qed.

End aug.

(** ** All nodes count *)

Abbreviation none := (fun _ : Z => false).
Definition aug_ok (t : tree area) : Prop := augs none t.

Section removal.
Implicit Types (t l r : tree area) (C : list (frame area)) (d : side) (a : area).

Lemma root_all t : root_ok none t.
Proof. by destruct t. Qed.

Lemma clean_all C : clean none C.
Proof. induction C; constructor; [| done]. split; [done | apply root_all]. Qed.

Lemma kids_all t : kids_ok none t.
Proof. destruct t; [done |]. split; apply root_all. Qed.

#[local] Hint Resolve root_all clean_all kids_all : core.

Lemma rot_augs d c1 c2 t x a sn sx sa sf :
  augs none t -> augs none sn -> augs none sf ->
  ar_sub a = Z.max (esz none x a) (Z.max (emax none t)
    (Z.max (esz none sx sa) (Z.max (emax none sn) (emax none sf)))) ->
  let t' := mk d c1 (mk d c2 t x (refit d a t sn) sn) sx (a_copy a sa) sf in
  augs none t' /\ emax none t' = ar_sub a.
Proof.
  intros H1 H2 H3 Hs t'. unfold t'. rewrite !augs_mk, !emax_mk, esz_refit, esz_copy.
  rewrite (refit_sub none) by auto. change (ar_sub (a_copy a sa)) with (ar_sub a).
  assert (Heq : ar_sub a = Z.max (esz none sx sa)
    (Z.max (Z.max (esz none x a) (Z.max (emax none t) (emax none sn))) (emax none sf))) by (rewrite Hs; clear; lia).
  split; [| by rewrite Heq]. split; [by intros _ |]. split; [| done]. by split; [intros _; unfold esz |].
Qed.

Lemma view_none d t c near x a far : view d t = Some (c, near, x, a, far) -> augs none t ->
  augs none near /\ augs none far
  /\ emax none t = Z.max (esz none x a) (Z.max (emax none near) (emax none far)) /\ ar_sub a = emax none t.
Proof.
  intros Hv Ht. destruct (view_augs none _ _ _ _ _ _ _ Hv Ht (kids_all t)) as (? & ? & _ & _ & He & Hx). auto.
Qed.

Lemma del_tail_augs up C f t t' :
  (forall p p', up p = Some p' -> augs none p -> actx none C (emax none p) -> augs none p') ->
  del_tail up C f t = Some t' -> augs none t -> actx none (f :: C) (emax none t) -> augs none t'.
Proof.
  intros Hup H Ht (Hf & Hs & HC). specialize (Hf eq_refl). unfold del_tail in H.
  destruct (view (fr_side f) (fr_sib f)) as [[[[[cs sn] sx] sa] sf] |] eqn:Hv; [| done].
  destruct (view_none _ _ _ _ _ _ _ Hv Hs) as (Hsn & Hsf & He & Hsa).
  assert (Hplug : forall p, augs none p -> emax none p = ar_sub (fr_data f) -> augs none (plug C p)).
  { intros p Hp1 Hp2. apply augs_plug. split; [done |]. by rewrite Hp2, Hf. }
  destruct (is_red sf).
  - injection H as <-. rewrite He in Hf.
    destruct (rot_augs (fr_side f) (fr_color f) Black t (fr_addr f) (fr_data f) sn sx sa (paint Black sf))
      as [H1 H2]; auto; [by apply augs_paint | by rewrite emax_paint].
  - assert (Hflip : match fr_color f with
      | Red => Some (plug C (mk (fr_side f) Black t (fr_addr f) (fr_data f) (paint Red (fr_sib f))))
      | Black => up (mk (fr_side f) Black t (fr_addr f) (fr_data f) (paint Red (fr_sib f)))
      end = Some t' -> augs none t').
    { set (p := mk _ _ _ _ _ _).
      assert (Hp : augs none p) by (unfold p; rewrite augs_mk, augs_paint, emax_paint; done).
      assert (Hpe : emax none p = ar_sub (fr_data f)) by (unfold p; by rewrite emax_mk, emax_paint).
      destruct (fr_color f); [intros [= <-]; auto |]. intros G. apply (Hup _ _ G); [done |].
      by rewrite Hpe, Hf. }
    destruct (view (fr_side f) sn) as [[[[[[] n1] nx] na] n2] |] eqn:Hn; [| by auto..].
    injection H as <-. destruct (view_none _ _ _ _ _ _ _ Hn Hsn) as (Hn1 & Hn2 & Hne & _).
    set (s' := mk (fr_side f) Black (paint Black n2) sx (refit (fr_side f) sa (paint Black n2) sf) sf).
    assert (Hs' : augs none s' /\ emax none s' = Z.max (esz none sx sa) (Z.max (emax none n2) (emax none sf))).
    { unfold s'. rewrite augs_mk, emax_mk, esz_refit, emax_paint, augs_paint. split; [| done].
      split; [intros _ | done]. rewrite (refit_sub none); auto; [by rewrite emax_paint | by apply augs_paint]. }
    destruct (rot_augs (fr_side f) (fr_color f) Black t (fr_addr f) (fr_data f) n1 nx (a_copy sa na) s')
      as [H1 H2]; auto; [apply Hs' |].
    rewrite (proj2 Hs'), esz_copy, Hf, He, Hne. f_equal. f_equal. clear. lia.
Qed.

Lemma fix_del_augs C : forall t t', fix_del C t = Some t' ->
  augs none t -> actx none C (emax none t) -> augs none t'.
Proof.
  induction C as [| f C IH]; intros t t' H Ht HC; simpl in H; [by injection H as <- |].
  destruct (view (fr_side f) (fr_sib f)) as [[[[[[] sn] sx] sa] sf] |] eqn:Hv; [| | done].
  - destruct (is_empty sn); [done |]. destruct HC as (Hf & Hs & HC). specialize (Hf eq_refl).
    destruct (view_none _ _ _ _ _ _ _ Hv Hs) as (Hsn & Hsf & He & Hsa).
    eapply del_tail_augs; [| exact H | done |]; [done |]. rewrite He in *. simpl.
    rewrite (refit_sub none), ?augs_paint, emax_paint by (rewrite ?augs_paint; auto).
    rewrite !esz_refit, ?esz_copy, ?esz_set. split; [done |]. split; [done |].
    assert (Heq : Z.max (esz none (fr_addr f) (fr_data f))
      (Z.max (emax none t) (Z.max (esz none sx sa) (Z.max (emax none sn) (emax none sf))))
      = Z.max (esz none sx sa) (Z.max (Z.max (esz none (fr_addr f) (fr_data f))
         (Z.max (emax none t) (emax none sn))) (emax none sf))) by (clear; lia).
    rewrite Heq in *. done.
  - by eapply del_tail_augs.
Qed.

Lemma drop_augs c C t' : drop c C = Some t' -> augs none (plug C E) -> augs none t'.
Proof.
  intros H HC. destruct c; [by injection H as <- |]. eapply fix_del_augs; [exact H | done |].
  by apply (augs_plug none C E).
Qed.

Lemma erase_node_augs C c l x a r t' :
  erase_node C c l a r = Some t' -> aug_ok (plug C (T c l x a r)) -> aug_ok t'.
Proof.
  intros H Hall. unfold aug_ok in *. apply augs_plug in Hall as [(Ha & Hl & Hr) HC].
  specialize (Ha eq_refl). simpl in HC. rewrite <- Ha in HC.
  pose proof (actx_above none _ _ (clean_all C) HC) as HC'.
  unfold erase_node in H. destruct (is_empty l), (is_empty r).
  - apply drop_augs in H; [done |]. by apply update_augs.
  - injection H as <-. apply update_augs; auto. by apply augs_paint.
  - injection H as <-. apply update_augs; auto. by apply augs_paint.
  - unfold erase_two in H. destruct (zip_left [] r) as [[C2 [[[cs sx] sa] cr]] |] eqn:Hz; [| done].
    apply zip_left_inord in Hz as (C1 & -> & _ & _ & ->). rewrite app_nil_r in H. cbv zeta in H.
    apply augs_plug in Hr as [(_ & _ & Hcr) HC1].
    pose proof (actx_above none _ _ (clean_all C1) HC1) as HC1'.
    set (fs := mkF RIGHT c sx (a_copy a sa) l) in *.
    assert (Hw : augs none (plug (update C1 cr ++ update (fs :: C) (plug (update C1 cr) cr)) cr)).
    { rewrite plug_app. apply update_augs; [auto | auto | by apply update_augs | by split]. }
    destruct (is_empty cr) eqn:Ecr.
    + apply is_empty_true in Ecr as ->. by apply drop_augs in H.
    + injection H as <-. apply augs_plug in Hw as [W1 W2]. apply augs_plug.
      by rewrite augs_paint, emax_paint.
Qed.

End removal.

(** ** Insertion *)

Lemma emax_ext s1 s2 t : (forall y, y ∈ nodes t -> s1 y = s2 y) -> emax s1 t = emax s2 t.
Proof.
  induction t as [| c l IH1 x a r IH2]; simpl; [done |]. intros H.
  rewrite IH1, IH2 by (intros y Hy; apply H; rewrite elem_of_app, elem_of_cons; auto).
  unfold esz. rewrite (H x) by (rewrite elem_of_app, elem_of_cons; auto). done.
Qed.

Lemma augs_ext s1 s2 t : (forall y, y ∈ nodes t -> s1 y = s2 y) -> augs s1 t -> augs s2 t.
Proof.
  induction t as [| c l IH1 x a r IH2]; simpl; [done |]. intros H (H1 & H2 & H3).
  assert (HL : forall y, y ∈ nodes l -> s1 y = s2 y) by (intros y Hy; apply H; rewrite elem_of_app; auto).
  assert (HR : forall y, y ∈ nodes r -> s1 y = s2 y)
    by (intros y Hy; apply H; rewrite elem_of_app, elem_of_cons; auto).
  assert (Hx : s1 x = s2 x) by (apply H; rewrite elem_of_app, elem_of_cons; auto).
  split; [| by auto]. rewrite <- Hx, <- (emax_ext s1 s2 l), <- (emax_ext s1 s2 r) by done.
  unfold esz in *. by rewrite <- Hx.
Qed.

Lemma actx_ext s1 s2 C : (forall y, y ∈ ctx_nodes C -> s1 y = s2 y) -> forall v, actx s1 C v -> actx s2 C v.
Proof.
  induction C as [| f C IH]; intros H v; simpl; [done |]. intros (H1 & H2 & H3).
  assert (Hf : s1 (fr_addr f) = s2 (fr_addr f)) by (apply H; simpl; by left).
  assert (HS : forall y, y ∈ nodes (fr_sib f) -> s1 y = s2 y)
    by (intros y Hy; apply H; simpl; rewrite elem_of_cons, elem_of_app; auto).
  rewrite <- Hf, <- (emax_ext s1 s2 (fr_sib f)) by done.
  assert (esz s2 (fr_addr f) (fr_data f) = esz s1 (fr_addr f) (fr_data f)) as ->
    by (unfold esz; by rewrite Hf).
  split; [done |]. split; [by apply (augs_ext s1) |].
  apply IH; [| done]. intros y Hy. apply H. simpl. rewrite elem_of_cons, elem_of_app. auto.
Qed.

Lemma clean_skip x C : x ∉ ctx_nodes C -> clean (Z.eqb x) C.
Proof.
  induction C as [| f C IH]; simpl; [constructor |].
  rewrite not_elem_of_cons, not_elem_of_app. intros (H1 & H2 & H3). constructor; [| by apply IH].
  split; [by apply Z.eqb_neq |]. destruct (fr_sib f); simpl in *; [done |].
  apply Z.eqb_neq. intros ->. apply H2. rewrite elem_of_app, elem_of_cons. auto.
Qed.

Lemma skip_other x y : x <> y -> none y = Z.eqb x y.
Proof. intros H. symmetry. by apply Z.eqb_neq. Qed.

(** The new node [x] is rotated into the tree [t1]; then its stored size is
    cleared and the path above it recomputed. *)
Lemma insert_augs C x a t1 C' c l a1 r :
  aug_ok (plug C E) -> x ∉ ctx_nodes C ->
  fix_ins C (T Red E x a E) = Some t1 -> t1 = plug C' (T c l x a1 r) ->
  x ∉ nodes l -> x ∉ nodes r -> x ∉ ctx_nodes C' -> 0 < ar_size a1 ->
  aug_ok (plug (update (mkF LEFT c x (set_sub a1 0) r :: C') l) l).
Proof.
  intros Hok Hx Hfix Ht1 Hl Hr HC' Hsz.
  apply augs_plug in Hok as [_ HC].
  assert (H1 : augs (Z.eqb x) t1).
  { eapply (fix_ins_augs _ (length C)); [done | exact Hfix | by apply clean_skip | done | |].
    - simpl. rewrite Z.eqb_refl. done.
    - simpl. unfold esz. rewrite Z.eqb_refl. simpl.
      eapply actx_ext; [| exact HC]. intros y Hy. apply skip_other. intros ->. done. }
  rewrite Ht1 in H1. apply augs_plug in H1 as [(_ & Al & Ar) AC].
  assert (Ho : forall (L : list Z) y, x ∉ L -> y ∈ L -> Z.eqb x y = none y).
  { intros L y HL Hy. symmetry. apply skip_other. intros ->. done. }
  apply (augs_ext _ none) in Al; [| by intros y Hy; apply (Ho (nodes l))].
  apply (augs_ext _ none) in Ar; [| by intros y Hy; apply (Ho (nodes r))].
  apply (actx_ext _ none) in AC; [| by intros y Hy; apply (Ho (ctx_nodes C'))].
  pose proof (actx_above none _ _ (clean_all C') AC) as AC'.
  cbn [update fr_side fr_color fr_addr fr_data fr_sib]. set (a' := refit LEFT (set_sub a1 0) l r).
  assert (Hsub : ar_sub a' = Z.max (ar_size a1) (Z.max (emax none l) (emax none r))).
  { unfold a'. rewrite (refit_sub none); try done; apply root_all. }
  rewrite decide_False.
  2: { intros E. rewrite E in Hsub. simpl in Hsub. lia. }
  rewrite plug_cons. apply update_augs; [apply clean_all | done | | done].
  unfold fill. simpl. split; [intros _; exact Hsub | done].
Qed.

(** ** Areas in the order of their addresses *)

(** The place of a key in a list without duplicates. *)
Lemma split_unique {V} (k1 l1 : list (Z * V)) x v w k2 l2 :
  NoDup (k1 ++ (x, v) :: k2).*1 -> k1 ++ (x, v) :: k2 = l1 ++ (x, w) :: l2 ->
  k1 = l1 /\ v = w /\ k2 = l2.
Proof.
  assert (Hin : forall (l l' : list (Z * V)) u, x ∈ (l ++ (x, u) :: l').*1).
  { intros l l' u. rewrite fmap_app. apply elem_of_app. right. by left. }
  revert l1. induction k1 as [| y k1 IH]; intros [| z l1] Hd H; simpl in *.
  - by injection H as -> ->.
  - injection H as <- ->. apply NoDup_cons in Hd as [Hd _]. by destruct Hd.
  - injection H as -> H. apply NoDup_cons in Hd as [Hd _]. by destruct Hd.
  - injection H as -> H. apply NoDup_cons in Hd as [_ Hd]. by destruct (IH l1 Hd H) as (-> & -> & ->).
Qed.

Definition key_before (k k' : Z * (Z * Z)) : Prop := k.2.2 <= k'.2.1.

(** The areas are not empty, do not overlap and are sorted. *)
Definition ordered (ks : list (Z * (Z * Z))) : Prop :=
  Forall (fun k => k.2.1 < k.2.2) ks /\ StronglySorted key_before ks.

Lemma ordered_app l1 l2 : ordered (l1 ++ l2) <->
  ordered l1 /\ ordered l2 /\ forall k k', k ∈ l1 -> k' ∈ l2 -> key_before k k'.
Proof.
  unfold ordered. rewrite Forall_app. split.
  - intros [[H1 H2] H3]. split; [split; [done | by eapply StronglySorted_app_1_l] |].
    split; [split; [done | by eapply StronglySorted_app_1_r] |].
    intros k k' Hk Hk'. by eapply StronglySorted_app_1_elem_of.
  - intros ([H1 H2] & [H3 H4] & H5). split; [done |]. by apply StronglySorted_app_2.
Qed.

Lemma ordered_cons k l : ordered (k :: l) <->
  k.2.1 < k.2.2 /\ ordered l /\ forall k', k' ∈ l -> key_before k k'.
Proof.
  unfold ordered. rewrite Forall_cons. split.
  - intros [[H1 H2] H3]. apply StronglySorted_inv in H3 as [H3 H4]. rewrite Forall_forall in H4. auto.
  - intros (H1 & [H2 H3] & H4). split; [done |]. constructor; [done |]. by apply Forall_forall.
Qed.

Section hole.
Context {A : Type} `{!Aug A}.

(** The empty link where an area [s, e) belongs, [None] if one of the areas
    on the way overlaps it. *)
Fixpoint find_hole (s e : Z) (C : list (frame A)) (t : tree A) : option (list (frame A)) :=
  match t with
  | E => Some C
  | T c l x a r =>
      if e <=? (a_key a).1 then find_hole s e (mkF LEFT c x a r :: C) l
      else if (a_key a).2 <=? s then find_hole s e (mkF RIGHT c x a l :: C) r
      else None
  end.

Lemma find_hole_plug s e t : forall C C', find_hole s e C t = Some C' -> plug C' E = plug C t.
Proof.
  induction t as [| c l IH1 x a r IH2]; intros C C' H; simpl in H; [by injection H as <- |].
  repeat case_if; [by apply IH1 in H | by apply IH2 in H | done].
Qed.

Lemma find_hole_order s e t : forall C C', s < e -> find_hole s e C t = Some C' -> ordered (inord t) ->
  (forall k, k ∈ lkeys C -> k.2.2 <= s) -> (forall k, k ∈ rkeys C -> e <= k.2.1) ->
  (forall k, k ∈ lkeys C' -> k.2.2 <= s) /\ (forall k, k ∈ rkeys C' -> e <= k.2.1).
Proof.
  induction t as [| c l IH1 x a r IH2]; intros C C' Hse H Ho HL HR; simpl in H; [by injection H as <- |].
  simpl in Ho. apply ordered_app in Ho as (Ho1 & Ho2 & Ho3). apply ordered_cons in Ho2 as (Hx & Ho2 & Ho4).
  unfold key_before in *. simpl in *. repeat case_if; [| | done].
  - apply IH1 in H; auto; simpl.
    + intros k. rewrite app_nil_r. auto.
    + intros k. rewrite elem_of_cons, elem_of_app. intros [-> | [Hk | Hk]]; simpl; [done | | auto].
      specialize (Ho4 k Hk). lia.
  - apply IH2 in H; auto; simpl.
    + intros k. rewrite !elem_of_app, elem_of_cons. intros [Hk | [Hk | [-> | Hk]]]; simpl; [auto | | done |].
      * specialize (Ho3 k (x, a_key a) Hk). simpl in Ho3. rewrite elem_of_cons in Ho3. specialize (Ho3 ltac:(auto)). lia.
      * by apply elem_of_nil in Hk.
Qed.

Lemma find_hole_Some s e t : forall C, s < e ->
  (forall k, k ∈ inord t -> k.2.2 <= s \/ e <= k.2.1) -> is_Some (find_hole s e C t).
Proof.
  induction t as [| c l IH1 x a r IH2]; intros C Hse H; simpl; [by eexists |]. simpl in H.
  repeat case_if.
  - apply IH1; [done |]. intros k Hk. apply H. rewrite elem_of_app. auto.
  - apply IH2; [done |]. intros k Hk. apply H. rewrite elem_of_app, elem_of_cons. auto.
  - specialize (H (x, a_key a)). rewrite elem_of_app, elem_of_cons in H. simpl in H. destruct H; auto; lia.
Qed.

End hole.
