(* ===== verification/VmapTree.v ===== *)
(** * The trees of areas

    The data of a node is the rest of its [struct vmap_area] (the list entry
    apart).  In the free tree the word [subtree_max_size] is augmented data:
    the callbacks keep it equal to the largest size below the node.  In a
    tree of areas in use the same word is the pointer [vm] and is left alone. *)

From iris.proofmode Require Import proofmode.
From iris.base_logic.lib Require Import gen_heap.
From S2P Require Import Prelude Memblock CString CStringSpec Kmalloc Kobj KobjLogic Rbtree RbTrees.
From S2P Require Import RbtreeSpec RbtreeErase VmapArea VmapAug.

Definition area_words (x : Z) (a : area) : list (Z * Z) :=
  [(va_of_rb x, ar_start a); (va_of_rb x + 8, ar_end a);
   (va_of_rb x + VA_SUB, ar_sub a); (va_of_rb x + VA_FLAGS, ar_flags a)].

#[global] Instance free_ops : AugOps area := {|
  ao_words := area_words;
  ao_cb := free_vmap_area_rb_augment_cb;
|}.

#[global] Instance busy_ops : AugOps barea := {|
  ao_words x a := area_words x (ba a);
  ao_cb := dummy_callbacks;
|}.

Section specs.
Context `{!kobjGS Sg}.

Lemma update_busy (C : list (frame barea)) t : update C t = C.
Proof. destruct C as [| f C]; [done |]. simpl. case_decide; [done |]. by destruct (fr_side f). Qed.

#[global] Instance busy_spec : AugSpec barea.
Proof.
  split.
  - iIntros (x a y b) "[H1 H2]". iApply wp_ret. iFrame.
  - iIntros (x a l r y b) "(H1 & H2 & H3 & H4 & H5 & H6)". iApply wp_ret. by destruct l, r; iFrame.
  - intros top lnk C t _ _ _. rw update_busy. iIntros "[H1 H2]". iApply wp_ret. iFrame.
Qed.

(** The words of an area. *)
Lemma pay_area x (a : area) : pay x a ⊣⊢
  pts (va_of_rb x) (ar_start a) ∗ pts (va_of_rb x + 8) (ar_end a)
  ∗ pts (va_of_rb x + VA_SUB) (ar_sub a) ∗ pts (va_of_rb x + VA_FLAGS) (ar_flags a).
Proof.
  unfold pay. cbn [ao_words free_ops area_words]. rw !own_words_cons.
  iSplit; [iIntros "($ & $ & $ & $ & _)" | iIntros "($ & $ & $ & $)"; by iApply big_sepL_nil].
Qed.

Lemma pay_busy x (a : barea) : pay x a ⊣⊢
  pts (va_of_rb x) (ar_start (ba a)) ∗ pts (va_of_rb x + 8) (ar_end (ba a))
  ∗ pts (va_of_rb x + VA_SUB) (ar_sub (ba a)) ∗ pts (va_of_rb x + VA_FLAGS) (ar_flags (ba a)).
Proof.
  unfold pay. cbn [ao_words busy_ops area_words]. rw !own_words_cons.
  iSplit; [iIntros "($ & $ & $ & $ & _)" | iIntros "($ & $ & $ & $)"; by iApply big_sepL_nil].
Qed.

Lemma wp_child_max (t : tree area) m (Phi : Z -> iProp Sg) : 0 <= m ->
  root_pay t -∗ (root_pay t -∗ Phi (Z.max m (sub_of (data t)))) -∗ wp (child_max (addr t) m) Phi.
Proof.
  iIntros (Hm) "H HP". unfold child_max. destruct t as [| c l x a r]; cbn [addr data sub_of root_pay].
  { iApply wp_ret. rw Z.max_l; [| done]. by iApply "HP". }
  iDestruct "H" as "[%Hx H]". rw (proj2 (Z.eqb_neq _ _) (proj1 Hx)) pay_area.
  iDestruct "H" as "(H1 & H2 & H3 & H4)". kbind. kload "H3". iApply wp_ret.
  assert ((if ar_sub a >? m then ar_sub a else m) = Z.max m (ar_sub a)) as ->
    by (destruct (Z.gtb_spec (ar_sub a) m); lia).
  iApply "HP". iSplit; [done |]. iFrame.
Qed.

Lemma sub_range (t : tree area) : root_pay t -∗ ⌜0 <= sub_of (data t) < 2 ^ 64⌝.
Proof.
  destruct t as [| c l x a r]; cbn [root_pay data sub_of]; [by iIntros "_" |].
  rw pay_area. iIntros "(_ & _ & _ & H & _)". iApply (pts_range with "H").
Qed.

Lemma wp_va_size va s e (Phi : Z -> iProp Sg) :
  pts va s -∗ pts (va + 8) e -∗ (pts va s -∗ pts (va + 8) e -∗ Phi (u64 (e - s))) -∗ wp (va_size va) Phi.
Proof.
  iIntros "H1 H2 HP". unfold va_size, va_start, va_end. kbind. kload "H2". kbind. kload "H1".
  iApply wp_ret. iApply ("HP" with "H1 H2").
Qed.

Lemma max_sub_range a l r : 0 <= max_sub a l r.
Proof. unfold max_sub. pose proof (u64_range (ar_end a - ar_start a)). unfold ar_size. lia. Qed.

Lemma compute_max_spec x a (l r : tree area) exit (Phi : bool -> iProp Sg) :
  pts (x + rb_offset LEFT) (addr l) -∗ pts (x + rb_offset RIGHT) (addr r) -∗
  pay x a -∗ root_pay l -∗ root_pay r -∗
  (pts (x + rb_offset LEFT) (addr l) -∗ pts (x + rb_offset RIGHT) (addr r) -∗
   pay x (a_fix a (data l) (data r)) -∗ root_pay l -∗ root_pay r -∗
   Phi (exit && bool_decide (a_fix a (data l) (data r) = a))) -∗
  wp (compute_max x exit) Phi.
Proof.
  iIntros "Xl Xr Hp Hl Hr HP". rw pay_area. iDestruct "Hp" as "(H1 & H2 & H3 & H4)".
  unfold compute_max, rb_child. kbind. iApply (wp_va_size with "H1 H2"). iIntros "H1 H2".
  kbind. kload "Xl". kbind. iApply (wp_child_max with "Hl"); [apply u64_range |]. iIntros "Hl".
  kbind. kload "Xr". kbind. iApply (wp_child_max with "Hr").
  { pose proof (u64_range (ar_end a - ar_start a)). lia. }
  iIntros "Hr". change (Z.max (Z.max (u64 (ar_end a - ar_start a)) (sub_of (data l))) (sub_of (data r)))
    with (max_sub a (data l) (data r)). kbind. kload "H3".
  iAssert (⌜0 <= max_sub a (data l) (data r) < 2 ^ 64⌝)%I as %Hm.
  { iAssert (⌜0 <= sub_of (data l) < 2 ^ 64 /\ 0 <= sub_of (data r) < 2 ^ 64⌝)%I as %Hs.
    { iSplit; [iApply (sub_range with "Hl") | iApply (sub_range with "Hr")]. }
    iPureIntro. pose proof (u64_range (ar_end a - ar_start a)). unfold max_sub, ar_size. lia. }
  assert (Hd : bool_decide (a_fix a (data l) (data r) = a) = (ar_sub a =? max_sub a (data l) (data r))).
  { destruct a as [s e m f]. cbn [a_fix free_aug set_sub ar_start ar_end ar_flags ar_sub].
    destruct (Z.eqb_spec m (max_sub (mkA s e m f) (data l) (data r))) as [E | E].
    - apply bool_decide_eq_true. unfold set_sub. simpl. congruence.
    - apply bool_decide_eq_false. unfold set_sub. simpl. intros H. injection H. congruence. }
  rw Hd. destruct (exit && (ar_sub a =? max_sub a (data l) (data r))) eqn:Eb.
  - iApply wp_ret. iApply ("HP" with "Xl Xr [H1 H2 H3 H4] Hl Hr").
    apply andb_true_iff in Eb as [_ Eb]. rw -Hd in Eb. apply bool_decide_eq_true in Eb as ->. rw pay_area. iFrame.
  - kbind. kstore "H3"; [done |]. iApply wp_ret.
    iApply ("HP" with "Xl Xr [H1 H2 H3 H4] Hl Hr"). rw pay_area. iFrame.
Qed.

(** The path above a tree is recomputed until nothing changes. *)
Lemma propagate_loop_spec fuel : forall top lnk C (t : tree area) (Phi : unit -> iProp Sg),
  (length C < fuel)%nat -> aligned top -> Forall (fun f => fr_addr f <> top) C ->
  ctx_at top lnk C (addr t) -∗ root_pay t -∗
  (ctx_at top lnk (update C t) (addr t) -∗ root_pay t -∗ Phi tt) -∗
  wp (augment_propagate_loop fuel (above top C) top) Phi.
Proof.
  induction fuel as [| fuel IH]; intros top lnk C t Phi Hl Ht HF; [lia |].
  iIntros "HC Hr HP". destruct C as [| f C]; cbn [augment_propagate_loop above].
  { rw Z.eqb_refl. iApply wp_ret. iApply ("HP" with "HC Hr"). }
  inversion HF as [| ? ? Hf HF']; subst. rw (proj2 (Z.eqb_neq _ _) Hf).
  cbn [ctx_at update]. iDestruct "HC" as "(%Hp & Fpc & Fd & Fo & Fpay & Fs & HC)".
  iDestruct (tree_root_pay with "Fs") as "[Fr Fs]".
  iDestruct (ctx_above with "HC") as %Ha; [done |].
  set (a' := refit (fr_side f) (fr_data f) t (fr_sib f)).
  set (f' := mkF (fr_side f) (fr_color f) (fr_addr f) a' (fr_sib f)).
  kbind. iAssert (wp (compute_max (fr_addr f) true) (fun b => ⌜b = bool_decide (a' = fr_data f)⌝ ∗
    pts (fr_addr f + rb_offset (fr_side f)) (addr t) ∗
    pts (fr_addr f + rb_offset (opp (fr_side f))) (addr (fr_sib f)) ∗
    pay (fr_addr f) a' ∗ root_pay t ∗ root_pay (fr_sib f)))%I with "[Fd Fo Fpay Hr Fr]" as "H".
  { unfold a', refit. destruct (fr_side f); cbn [opp].
    - iApply (compute_max_spec with "Fd Fo Fpay Hr Fr"). iIntros "$ $ $ $ $". done.
    - iApply (compute_max_spec with "Fo Fd Fpay Fr Hr"). iIntros "$ $ $ $ $". done. }
  iApply (wp_wand with "H"). iIntros (b) "(-> & Fd & Fo & Fpay & Hr & Fr)".
  iDestruct ("Fs" with "Fr") as "Fs". case_bool_decide as Ea.
  - rw decide_True; [| done]. iApply wp_ret. iApply ("HP" with "[-Hr] Hr").
    cbn [ctx_at]. rw Ea. by iFrame.
  - rw decide_False; [| done]. kbind. iApply (wp_parent with "Fpc"); [done |]. iIntros "Fpc".
    assert (Hfa : addr (fill f' t) = fr_addr f) by (unfold fill; by rw addr_mk).
    assert (Hrp : root_pay (fill f' t) ⊣⊢ ⌜ptr_ok (fr_addr f)⌝ ∗ pay (fr_addr f) a')
      by (unfold fill; by destruct (fr_side f')).
    iApply (IH top lnk C (fill f' t) with "[HC] [Fpay]"); [simpl in Hl; lia | done | done | by rw Hfa | |].
    { rw Hrp. by iFrame. }
    rw Hrp Hfa. iIntros "HC [_ Fpay]". iApply ("HP" with "[-Hr] Hr").
    cbn [ctx_at f' fr_side fr_color fr_addr fr_data fr_sib]. rw update_above. by iFrame.
Qed.

Lemma augment_copy_spec x (a : area) y (b : area) (Phi : unit -> iProp Sg) :
  pay x a -∗ pay y b -∗ (pay x a -∗ pay y (a_copy a b) -∗ Phi tt) -∗ wp (augment_copy x y) Phi.
Proof.
  iIntros "H1 H2 HP". rw (pay_area x a) (pay_area y b). iDestruct "H1" as "(A1 & A2 & A3 & A4)".
  iDestruct "H2" as "(B1 & B2 & B3 & B4)". unfold augment_copy. kbind. kload "A3".
  iDestruct (pts_range with "A3") as %Hr. kstore "B3"; [done |].
  iApply ("HP" with "[A1 A2 A3 A4]"); [iFrame |]. rw pay_area. iFrame.
Qed.

#[global] Instance free_spec : AugSpec area.
Proof.
  split.
  - iIntros (x a y b) "[H1 H2]". iApply (augment_copy_spec with "H1 H2"). iIntros "$ $".
  - iIntros (x a l r y b) "(Xl & Xr & Xp & Tl & Tr & Yp)". cbn [ao_cb free_ops rotate free_vmap_area_rb_augment_cb].
    unfold augment_rotate. kbind. iApply (augment_copy_spec with "Xp Yp"). iIntros "Xp Yp".
    iDestruct (tree_root_pay with "Tl") as "[Rl Tl]". iDestruct (tree_root_pay with "Tr") as "[Rr Tr]".
    kbind. iApply (compute_max_spec with "Xl Xr Xp Rl Rr"). iIntros "Xl Xr Xp Rl Rr". iApply wp_ret.
    iFrame. iSplitL "Tl Rl"; [by iApply "Tl" | by iApply "Tr"].
  - intros top lnk C t Hl Ht HF. iIntros "[HC Hr]".
    iApply (propagate_loop_spec with "HC Hr"); [lia | done | done |]. iIntros "$ $".
Qed.

End specs.
