(* ===== verification/VmapList.v ===== *)
(** * Doubly linked lists, and the descent to an empty link

    [edges x es y]: the entries [es] are linked between [x] and [y]; every
    edge owns the [next] word of its left end and the [prev] word of its right
    end.  A list with head [h] is [edges h es h].  The areas of a tree are in
    the list in the order of their addresses. *)

From iris.proofmode Require Import proofmode.
From iris.base_logic.lib Require Import gen_heap.
From S2P Require Import Prelude Memblock CString CStringSpec Kmalloc Kobj KobjLogic Rbtree RbTrees.
From S2P Require Import RbtreeSpec RbtreeErase VmapArea VmapAug VmapTree.

(** Data that is an area. *)
Class AreaData (A : Type) `{!Aug A, !AugOps A} := {
  area_of : A -> area;
  area_of_key a : a_key a = (ar_start (area_of a), ar_end (area_of a));
  area_of_words x a : ao_words x a = area_words x (area_of a);
}.

#[global] Instance free_area_data : AreaData area := {|
  area_of a := a; area_of_key _ := eq_refl; area_of_words _ _ := eq_refl |}.
#[global] Instance busy_area_data : AreaData barea := {|
  area_of := ba; area_of_key _ := eq_refl; area_of_words _ _ := eq_refl |}.

Lemma rb_of_va x : va_of_rb x + VA_RB = x.
Proof. unfold va_of_rb. lia. Qed.

Section lists.
Context `{!kobjGS Sg}.

Fixpoint edges (x : Z) (es : list Z) (y : Z) : iProp Sg :=
  match es with
  | [] => pts x y ∗ pts (y + 8) x
  | e :: es' => pts x e ∗ pts (e + 8) x ∗ edges e es' y
  end.

Definition last_of (x : Z) (es : list Z) : Z := List.last es x.
Definition first_of (es : list Z) (y : Z) : Z := match es with [] => y | e :: _ => e end.

Lemma edges_app es1 : forall x e es2 y,
  edges x (es1 ++ e :: es2) y ⊣⊢ edges x es1 e ∗ edges e es2 y.
Proof.
  induction es1 as [| z es1 IH]; intros x e es2 y; cbn [app edges]; [by rw assoc |].
  rw IH. iSplit; [iIntros "($ & $ & $ & $)" | iIntros "(($ & $ & $) & $)"].
Qed.

Lemma edges_first x es y : edges x es y ⊣⊢
  pts x (first_of es y) ∗ pts (first_of es y + 8) x
  ∗ match es with [] => True | e :: es' => edges e es' y end.
Proof.
  destruct es as [| e es]; simpl; [| done]. iSplit; [iIntros "[$ $]" | iIntros "($ & $ & _)"].
Qed.

(** The edge after the prefix [es1]. *)
Lemma edges_split es1 : forall x es2 y,
  edges x (es1 ++ es2) y ⊢ edges (last_of x es1) es2 y
    ∗ ∀ es3, edges (last_of x es1) es3 y -∗ edges x (es1 ++ es3) y.
Proof.
  induction es1 as [| z es1 IH]; intros x es2 y; cbn [app edges].
  { iIntros "$". by iIntros (es3) "$". }
  iIntros "(H1 & H2 & H)". iDestruct (IH with "H") as "[H HW]".
  assert (last_of x (z :: es1) = last_of z es1) as ->.
  { unfold last_of. simpl. destruct es1; [done |]. clear. revert z. generalize z0.
    induction es1 as [| w es1 IH]; intros a b; [done |]. simpl. destruct es1; [done | apply (IH w b)]. }
  iFrame "H". iIntros (es3) "H". iFrame "H1 H2". by iApply "HW".
Qed.

Lemma list_add_spec new z es y w1 w2 (Phi : unit -> iProp Sg) : 0 <= new < 2 ^ 64 ->
  edges z es y -∗ pts new w1 -∗ pts (new + 8) w2 -∗ (edges z (new :: es) y -∗ Phi tt) -∗
  wp (list_add new z) Phi.
Proof.
  iIntros (Hn) "H Hn Hp HP". rw edges_first. iDestruct "H" as "(H1 & H2 & H)".
  iDestruct (pts_range with "H2") as %Hz.
  unfold list_add, list_next, __list_add. kbind. kload "H1".
  iDestruct (pts_range with "H1") as %Hf.
  kbind. kstore "H2"; [done |]. kbind. kstore "Hn"; [done |]. kbind. kstore "Hp"; [done |].
  kstore "H1"; [done |]. iApply "HP". cbn [edges]. iFrame "H1 Hp". rw edges_first. iFrame.
Qed.

(** Removing the entry [e]: it is left linked to itself. *)
Lemma list_del_spec es1 : forall x e es2 y (Phi : unit -> iProp Sg), 0 <= e < 2 ^ 64 ->
  edges x (es1 ++ e :: es2) y -∗
  (edges x (es1 ++ es2) y -∗ pts e e -∗ pts (e + 8) e -∗ Phi tt) -∗
  wp (list_del_init e) Phi.
Proof.
  induction es1 as [| z es1 IH]; intros x e es2 y Phi He; cbn [app edges].
  - rw (edges_first e). iIntros "(H1 & H2 & H3 & H4 & H) HP".
    unfold list_del_init, __list_del_entry, __list_del, list_prev, list_next, INIT_LIST_HEAD.
    kbind. kbind. kload "H2". iDestruct (pts_range with "H2") as %Hx.
    kbind. kload "H3". iDestruct (pts_range with "H3") as %Hf.
    kbind. kstore "H4"; [done |]. kstore "H1"; [done |].
    kbind. kstore "H3"; [done |]. kstore "H2"; [done |].
    iApply ("HP" with "[H1 H4 H] H3 H2"). rw edges_first. iFrame.
  - iIntros "(H1 & H2 & H) HP". iApply (IH with "H"); [done |]. iIntros "H".
    iApply "HP". iFrame.
Qed.

(** The list entry of the node [x]. *)
Definition entry (x : Z) : Z := va_of_rb x + VA_LIST.

Lemma entry_range x : ptr_ok x -> 0 <= entry x < 2 ^ 64.
Proof. intros [_ [H _]]. unfold entry, va_of_rb, VA_RB, VA_LIST. lia. Qed.

End lists.

Section links.
Context `{!kobjGS Sg} {A : Type} `{!Aug A, !AugOps A, !AreaData A, !AugSpec A}.
Implicit Types (t : tree A) (C : list (frame A)) (a : A).

Lemma pay_key x a : pay x a ⊣⊢
  pts (va_of_rb x) (a_key a).1 ∗ pts (va_of_rb x + 8) (a_key a).2
  ∗ pts (va_of_rb x + VA_SUB) (ar_sub (area_of a)) ∗ pts (va_of_rb x + VA_FLAGS) (ar_flags (area_of a)).
Proof.
  unfold pay. rw area_of_words area_of_key. unfold area_words. rw !own_words_cons.
  iSplit; [iIntros "($ & $ & $ & $ & _)" | iIntros "($ & $ & $ & $)"; by iApply big_sepL_nil].
Qed.

(** ** The descent *)

Definition link_of (root : Z) (o : option (list (frame A))) : option (Z * Z) :=
  match o with None => None | Some C => Some (hole_link root C, above 0 C) end.

Lemma va_links_spec fuel : forall root s e C t (Phi : option (Z * Z) -> iProp Sg),
  (height t <= fuel)%nat -> is_empty t = false ->
  ctx_at 0 root C (addr t) -∗ tree_at (above 0 C) t -∗
  (ctx_at 0 root C (addr t) -∗ tree_at (above 0 C) t -∗ Phi (link_of root (find_hole s e C t))) -∗
  wp (va_links_loop fuel s e (addr t)) Phi.
Proof.
  induction fuel as [| fuel IH]; intros root s e C t Phi Hh Ht.
  { destruct t; simpl in Hh; [done | lia]. }
  destruct t as [| c l x a r]; [done |]. iIntros "HC (%Hx & Xpc & Xl & Xr & Xp & Tl & Tr) HP".
  cbn [va_links_loop addr find_hole]. rw pay_key. iDestruct "Xp" as "(P1 & P2 & P3)".
  unfold va_start, va_end. kbind. kload "P1". kbind.
  set (d := if e <=? (a_key a).1 then Some LEFT else if (a_key a).2 <=? s then Some RIGHT else None).
  iApply (wp_wand _ (fun o => ⌜o = d⌝ ∗ pts (va_of_rb x) (a_key a).1 ∗ pts (va_of_rb x + 8) (a_key a).2)%I
    with "[P1 P2]").
  { unfold d. destruct (e <=? (a_key a).1); [iApply wp_ret; by iFrame |].
    kbind. kload "P2". iApply wp_ret. by iFrame. }
  iIntros (o) "(-> & P1 & P2)". iAssert (pay x a) with "[P1 P2 P3]" as "Xp"; [rw pay_key; iFrame |].
  simpl in Hh. unfold d. destruct (e <=? (a_key a).1).
  { unfold rb_child. kbind. kload "Xl". iDestruct (addr_empty with "Tl") as %->.
    destruct (is_empty l) eqn:El.
    - apply is_empty_true in El as ->. iApply wp_ret. cbn [find_hole link_of hole_link above fr_addr fr_side].
      iApply ("HP" with "HC"). cbn [tree_at]. by iFrame.
    - iApply (IH root s e (mkF LEFT c x a r :: C) l with "[-HP Tl] Tl"); [lia | done | |].
      { cbn [ctx_at fr_addr fr_side fr_color fr_data fr_sib opp]. by iFrame. }
      iIntros "(_ & Xpc & Xl & Xr & Xp & Tr & HC) Tl". iApply ("HP" with "HC"). cbn [tree_at]. by iFrame. }
  destruct ((a_key a).2 <=? s).
  { unfold rb_child. kbind. kload "Xr". iDestruct (addr_empty with "Tr") as %->.
    destruct (is_empty r) eqn:Er.
    - apply is_empty_true in Er as ->. iApply wp_ret. cbn [find_hole link_of hole_link above fr_addr fr_side].
      iApply ("HP" with "HC"). cbn [tree_at]. by iFrame.
    - iApply (IH root s e (mkF RIGHT c x a l :: C) r with "[-HP Tr] Tr"); [lia | done | |].
      { cbn [ctx_at fr_addr fr_side fr_color fr_data fr_sib opp]. by iFrame. }
      iIntros "(_ & Xpc & Xr & Xl & Xp & Tl & HC) Tr". iApply ("HP" with "HC"). cbn [tree_at]. by iFrame. }
  iApply wp_ret. cbn [link_of]. iApply ("HP" with "HC"). cbn [tree_at]. by iFrame.
Qed.

Lemma find_va_links_spec va root s e t (Phi : option (Z * Z) -> iProp Sg) :
  root <> 0 -> (height t <= RB_FUEL)%nat ->
  pts va s -∗ pts (va + 8) e -∗ pts root (addr t) -∗ tree_at 0 t -∗
  (pts va s -∗ pts (va + 8) e -∗ pts root (addr t) -∗ tree_at 0 t -∗
   Phi (link_of root (find_hole s e [] t))) -∗
  wp (find_va_links va root 0) Phi.
Proof.
  iIntros (Hr Hh) "Hs He Hroot Ht HP". unfold find_va_links, va_start, va_end.
  kbind. kload "Hs". kbind. kload "He". rw (proj2 (Z.eqb_neq _ _) Hr).
  kbind. kload "Hroot". iDestruct (addr_empty with "Ht") as %->. destruct (is_empty t) eqn:Et.
  - apply is_empty_true in Et as ->. iApply wp_ret. iApply ("HP" with "Hs He Hroot Ht").
  - iApply (va_links_spec RB_FUEL root s e [] t with "Hroot Ht"); [done.. |].
    iIntros "Hroot Ht". iApply ("HP" with "Hs He Hroot Ht").
Qed.

(** ** The place in the list *)

Lemma last_app x (l : list Z) y : last_of x (l ++ [y]) = y.
Proof. unfold last_of. apply List.last_last. Qed.

Definition lents (ks : list (Z * (Z * Z))) : list Z := entry <$> ks.*1.

Lemma lents_app k1 k2 : lents (k1 ++ k2) = lents k1 ++ lents k2.
Proof. unfold lents. by rw !fmap_app. Qed.

(** The new entry goes after the last entry to the left of the hole. *)
Lemma list_pos_spec root head C (Phi : Z -> iProp Sg) :
  Forall (fun f => fr_addr f <> 0) C ->
  edges head (lents (lkeys C ++ rkeys C)) head -∗
  (edges head (lents (lkeys C ++ rkeys C)) head -∗ Phi (last_of head (lents (lkeys C)))) -∗
  wp (link_list_pos (above 0 C) (hole_link root C) head) Phi.
Proof.
  iIntros (HF) "H HP". destruct C as [| f C]; cbn [above hole_link link_list_pos].
  { unfold link_list_pos. simpl. iApply wp_ret. by iApply "HP". }
  inversion HF; subst. unfold link_list_pos. rw (proj2 (Z.eqb_neq (fr_addr f) 0)); [| done].
  destruct (fr_side f) eqn:Ed; cbn [rb_offset].
  - rw (proj2 (Z.eqb_neq _ _)); [| lia]. unfold list_prev. fold (entry (fr_addr f)).
    cbn [lkeys rkeys]. rw Ed app_nil_r. rw lents_app. iDestruct (edges_split with "H") as "[H HW]".
    cbn [app]. unfold lents at 2. cbn [fmap list_fmap fst edges].
    iDestruct "H" as "(H1 & H2 & H)". kload "H2". iApply "HP". iApply "HW".
    unfold lents. cbn [fmap list_fmap fst edges]. iFrame.
  - rw Z.eqb_refl. iApply wp_ret.
    assert (Hlast : last_of head (lents (lkeys (f :: C))) = entry (fr_addr f)).
    { cbn [lkeys]. rw Ed app_assoc lents_app. apply last_app. }
    fold (entry (fr_addr f)). rw -Hlast. by iApply "HP".
Qed.

Lemma list_insert_spec head k1 k2 x key w1 w2 (Phi : unit -> iProp Sg) : ptr_ok x ->
  edges head (lents (k1 ++ k2)) head -∗ pts (entry x) w1 -∗ pts (entry x + 8) w2 -∗
  (edges head (lents (k1 ++ (x, key) :: k2)) head -∗ Phi tt) -∗
  wp (list_add (entry x) (last_of head (lents k1))) Phi.
Proof.
  iIntros (Hx) "H Hn Hp HP". rw !lents_app. iDestruct (edges_split with "H") as "[H HW]".
  iApply (list_add_spec with "H Hn Hp"); [by apply entry_range |]. iIntros "H".
  iApply "HP". by iApply ("HW" $! (entry x :: lents k2)).
Qed.

Lemma list_remove_spec head k1 k2 x key (Phi : unit -> iProp Sg) : ptr_ok x ->
  edges head (lents (k1 ++ (x, key) :: k2)) head -∗
  (edges head (lents (k1 ++ k2)) head -∗ pts (entry x) (entry x) -∗ pts (entry x + 8) (entry x) -∗ Phi tt) -∗
  wp (list_del_init (entry x)) Phi.
Proof.
  iIntros (Hx) "H HP". rw !lents_app. unfold lents at 2. cbn [fmap list_fmap fst].
  iApply (list_del_spec with "H"); [by apply entry_range | done].
Qed.

End links.
