(* ===== verification/VmapSpace.v ===== *)
(** * Spaces of areas: the tree and the list together

    [free_space root head ks]: the free areas [ks] (addresses of the nodes
    and bounds, in order) are in a balanced tree with correct subtree sizes
    and in the list.  [busy_space] is the same for areas in use, without
    sizes.  Inserting, removing and looking up areas are specified on [ks]. *)

From iris.proofmode Require Import proofmode.
From iris.base_logic.lib Require Import gen_heap.
From S2P Require Import Prelude Memblock CString CStringSpec Kmalloc Kobj KobjLogic Rbtree RbTrees.
From S2P Require Import RbtreeSpec RbtreeErase VmapArea VmapAug VmapTree VmapList.

Section generic.
Context `{!kobjGS Sg} {A : Type} `{!Aug A, !AugOps A, !AreaData A, !AugSpec A}.
Implicit Types (t : tree A) (C : list (frame A)) (a : A).

(** No area is at the address 0. *)
Definition nonnull (ks : list (Z * (Z * Z))) : Prop := Forall (fun k => va_of_rb k.1 <> 0) ks.

Definition vtree (root head : Z) t : iProp Sg :=
  ⌜nonnull (inord t)⌝ ∗ pts root (addr t) ∗ tree_at 0 t ∗ edges head (lents (inord t)) head.

(** An area that is in no tree and no list. *)
Definition loose (x : Z) a : iProp Sg :=
  ⌜ptr_ok x /\ va_of_rb x <> 0⌝ ∗ unlinked x a ∗ ∃ w1 w2, pts (entry x) w1 ∗ pts (entry x + 8) w2.

(** An area that has left its list is linked to itself. *)
Definition detached (x : Z) a : iProp Sg :=
  ⌜ptr_ok x /\ va_of_rb x <> 0⌝ ∗ unlinked x a ∗ pts (entry x) (entry x) ∗ pts (entry x + 8) (entry x).

Lemma detached_loose x a : detached x a -∗ loose x a.
Proof. iIntros "($ & $ & H1 & H2)". iExists _, _. iFrame. Qed.

Lemma nonnull_app k1 k2 : nonnull (k1 ++ k2) <-> nonnull k1 /\ nonnull k2.
Proof. apply Forall_app. Qed.

Lemma nonnull_mid k1 x key k2 : nonnull (k1 ++ (x, key) :: k2) <-> va_of_rb x <> 0 /\ nonnull (k1 ++ k2).
Proof. rw !nonnull_app. unfold nonnull. rw Forall_cons. simpl. tauto. Qed.

(** A balanced tree with a hole takes the new node. *)
Lemma insert_tree C x a n : rb (plug C E) Black n ->
  exists t', fix_ins C (T Red E x a E) = Some t' /\ (exists n', rb t' Black n')
    /\ inord t' = lkeys C ++ (x, a_key a) :: rkeys C.
Proof.
  intros Hr. destruct (rb_plug_inv _ _ _ Hr) as (c & k & Hk & HC). inversion Hk; subst.
  destruct (fix_ins_balanced (length C) C (T Red E x a E) 0 n) as (t' & n' & Hfix & Hr'); [done | | done |].
  { by constructor. }
  exists t'. split; [done |]. split; [by exists n' |].
  apply (fix_ins_inord (length C)) in Hfix; [| done]. by rw Hfix inord_plug.
Qed.

(** The node with the key [k] in a balanced tree, and the tree without it. *)
Lemma erase_tree t n x : rb t Black n -> x ∈ nodes t ->
  exists C c l a r t', t = plug C (T c l x a r) /\ erase_node C c l a r = Some t'
    /\ (exists n', rb t' Black n')
    /\ exists k1 k2, inord t = k1 ++ (x, a_key a) :: k2 /\ inord t' = k1 ++ k2.
Proof.
  intros Hr Hx. destruct (node_ctx t x Hx) as (C & c & l & a & r & ->).
  destruct (erase_node_balanced C c l x a r n Hr) as (t' & n' & He & Hr').
  exists C, c, l, a, r, t'. split; [done |]. split; [done |]. split; [by exists n' |].
  exists (lkeys C ++ inord l), (inord r ++ rkeys C). apply erase_node_inord in He.
  rw inord_plug He. simpl. by rw -!app_assoc.
Qed.

(** The first word of a node in a tree is not its own address. *)
Lemma linked_not_empty x p c : ptr_ok x -> aligned p -> p <> x -> p + color_z c <> x.
Proof.
  intros [_ [_ Hx]] [_ Hp] Hne He. destruct c; [change (color_z Red) with 0 in He; lia |].
  change (color_z Black) with 1 in He.
  apply Z.mod_divide in Hx as [q1 H1]; [| lia]. apply Z.mod_divide in Hp as [q2 H2]; [| lia]. lia.
Qed.

(** [__unlink_va]: the area leaves the tree and the list. *)
Lemma unlink_spec root head t n x key k1 k2 (augment : bool) (Phi : unit -> iProp Sg) :
  (if augment then rb_erase_augmented x root free_vmap_area_rb_augment_cb else rb_erase x root)
    = rb_erase_augmented x root ao_cb ->
  rb t Black n -> inord t = k1 ++ (x, key) :: k2 ->
  vtree root head t -∗
  (∀ C c (l : tree A) a (r : tree A) t' n', ⌜t = plug C (T c l x a r) /\ a_key a = key /\ erase_node C c l a r = Some t'
     /\ rb t' Black n' /\ inord t' = k1 ++ k2⌝ -∗
   vtree root head t' -∗ detached x a -∗ Phi tt) -∗
  wp (__unlink_va (va_of_rb x) root augment) Phi.
Proof.
  iIntros (Hcb Hr Hk) "(%Hn & Hroot & Ht & Hl) HP". rw Hk in Hn. apply nonnull_mid in Hn as [Hx0 Hn].
  iDestruct (tree_NoDup with "Ht") as %[Hd Hp]. iDestruct (tree_height with "Ht") as %Hh; [exact Hr |].
  assert (Hx : x ∈ nodes t) by (rw nodes_inord Hk fmap_app; apply elem_of_app; right; by left).
  assert (Hpx : ptr_ok x) by (rw Forall_forall in Hp; by apply Hp).
  destruct (erase_tree t n x Hr Hx) as (C & c & l & a & r & t' & -> & He & (n' & Hr') & l1 & l2 & H1 & H2).
  assert (l1 = k1 /\ a_key a = key /\ l2 = k2) as (-> & Hkey & ->).
  { rw nodes_inord Hk in Hd. rw Hk in H1. by destruct (split_unique _ _ _ _ _ _ _ Hd H1) as (-> & -> & ->). }
  unfold __unlink_va, RB_EMPTY_NODE, RB_CLEAR_NODE. rw rb_of_va.
  iDestruct (ctx_open with "Hroot Ht") as "[HC Ht]". iDestruct (ctx_above with "HC") as %Ha; [apply aligned_0 |].
  cbn [tree_at addr]. iDestruct "Ht" as "(%Hx' & Xpc & Xt)".
  iDestruct (ctx_apart with "Xpc HC") as %Hap.
  kbind. kbind. kload "Xpc". iApply wp_ret.
  assert (Hne : above 0 C + color_z c <> x).
  { apply linked_not_empty; [done | done |]. destruct C; simpl in *; [by destruct Hpx | by inversion Hap]. }
  rw (proj2 (Z.eqb_neq _ _) Hne). rw Hcb.
  iDestruct (ctx_close 0 root C (T c l x a r) with "HC [Xpc Xt]") as "[Hroot Ht]".
  { cbn [tree_at]. by iFrame. }
  kbind. iApply (rb_erase_augmented_spec with "Hroot Ht"); [done.. |]. iIntros "Hroot Ht Hu".
  kbind. rw H1. iApply (list_remove_spec with "Hl"); [done |]. iIntros "Hl L1 L2".
  iDestruct "Hu" as (w1 w2 w3) "(U1 & U2 & U3 & Up)". kstore "U1"; [destruct Hpx as [_ []]; lia |].
  iApply ("HP" with "[] [Hroot Ht Hl]").
  - iPureIntro. done.
  - unfold vtree. rw H2. by iFrame.
  - iSplit; [done |]. iFrame "L1 L2". iExists _, _, _. iFrame.
Qed.

Lemma node_keys C c l x a r :
  inord (plug C (T c l x a r)) = (lkeys C ++ inord l) ++ (x, a_key a) :: inord r ++ rkeys C.
Proof. rw inord_plug. cbn [inord]. by rw -!app_assoc. Qed.

(** The place of a node in its tree. *)
Lemma tree_split t k1 y key k2 : NoDup (nodes t) -> inord t = k1 ++ (y, key) :: k2 ->
  exists C c l b r, t = plug C (T c l y b r) /\ a_key b = key
    /\ k1 = lkeys C ++ inord l /\ k2 = inord r ++ rkeys C.
Proof.
  intros Hd Hi. destruct (node_ctx t y) as (C & c & l & b & r & ->).
  { rw nodes_inord Hi fmap_app. apply elem_of_app. right. by left. }
  exists C, c, l, b, r. rw nodes_inord node_keys in Hd. rw node_keys in Hi.
  by destruct (split_unique _ _ _ _ _ _ _ Hd Hi) as (-> & -> & ->).
Qed.

(** The bounds of an area of a tree. *)
Lemma vtree_bounds root head t k1 x key k2 : inord t = k1 ++ (x, key) :: k2 ->
  vtree root head t -∗ pts (va_of_rb x) key.1 ∗ pts (va_of_rb x + 8) key.2
    ∗ (pts (va_of_rb x) key.1 -∗ pts (va_of_rb x + 8) key.2 -∗ vtree root head t).
Proof.
  iIntros (Hi) "(%Hn & Hroot & Ht & Hl)". iDestruct (tree_NoDup with "Ht") as %[Hd _].
  destruct (tree_split t k1 x key k2 Hd Hi) as (C & c & l & b & r & -> & Hb & _).
  iDestruct (ctx_open with "Hroot Ht") as "[HC (%Hx & Xpc & Xl & Xr & Xp & Tl & Tr)]".
  rw pay_key Hb. iDestruct "Xp" as "($ & $ & P3)". iIntros "P1 P2".
  iDestruct (ctx_close 0 root C (T c l x b r) with "HC [-Hl]") as "[Hroot Ht]".
  { cbn [tree_at]. rw (pay_key x b) Hb. by iFrame. }
  by iFrame.
Qed.

End generic.

Section spaces.
Context `{!kobjGS Sg}.

(** ** Areas in use *)

Definition busy_space (root head : Z) (ks : list (Z * (Z * Z))) : iProp Sg :=
  ∃ (t : tree barea) n, ⌜inord t = ks /\ ordered ks /\ rb t Black n⌝ ∗ vtree root head t.

Lemma link_busy_spec root head (C : list (frame barea)) x a t' n (Phi : unit -> iProp Sg) :
  fix_ins C (T Red E x a E) = Some t' -> inord t' = lkeys C ++ (x, a_key a) :: rkeys C ->
  rb (plug C E) Black n ->
  vtree root head (plug C E) -∗ loose x a -∗ (vtree root head t' -∗ Phi tt) -∗
  wp (__link_va (va_of_rb x) root (above 0 C) (hole_link root C) head false) Phi.
Proof.
  iIntros (Hfix Hi Hr) "(%Hn & Hroot & Ht & Hl) ([%Hx %Hx0] & Hu & %w1 & %w2 & L1 & L2) HP".
  iDestruct (tree_height with "Ht") as %Hh; [exact Hr |]. pose proof (height_plug C E) as Hp. simpl in Hp.
  iDestruct (ctx_open with "Hroot Ht") as "[HC _]". iDestruct (ctx_ptrs with "HC") as %HF.
  unfold __link_va. rw inord_plug. cbn [inord app]. kbind.
  iApply (list_pos_spec with "Hl"); [by apply ctx_nonnull |]. iIntros "Hl".
  kbind. rw rb_of_va. iApply (link_node_spec with "Hu HC"); [done |]. iIntros "HC Ht".
  kbind. iApply (rb_insert_augmented_spec with "HC Ht"); [done | lia |]. iIntros "Hroot Ht".
  iApply (list_insert_spec _ _ _ _ (a_key a) with "Hl L1 L2"); [done |]. iIntros "Hl".
  iApply "HP". unfold vtree. rw Hi. iFrame. iPureIntro. rw inord_plug in Hn. by apply nonnull_mid.
Qed.

Lemma disjoint_hole {A} `{!Aug A} (t : tree A) ks s e : inord t = ks -> ordered ks -> s < e ->
  (forall k, k ∈ ks -> k.2.2 <= s \/ e <= k.2.1) ->
  exists C, find_hole s e [] t = Some C /\ plug C E = t /\ ks = lkeys C ++ rkeys C
    /\ forall x, ordered (lkeys C ++ (x, (s, e)) :: rkeys C).
Proof.
  intros <- Ho Hse Hd. destruct (find_hole_Some s e t [] Hse Hd) as [C HC].
  exists C. split; [done |]. pose proof (find_hole_plug _ _ _ _ _ HC) as Hp. split; [done |].
  assert (Hi : inord t = lkeys C ++ rkeys C) by (by change t with (plug [] t); rw -Hp inord_plug).
  split; [done |]. intros x.
  destruct (find_hole_order s e t [] C Hse HC Ho) as [H1 H2]; [by intros k ?%elem_of_nil.. |].
  rw Hi in Ho. apply ordered_app in Ho as (Ho1 & Ho2 & Ho3). apply ordered_app. split; [done |].
  split; [by apply ordered_cons; auto |]. intros k k' Hk Hk'. unfold key_before.
  apply elem_of_cons in Hk' as [-> | Hk']; [by apply H1 | by apply Ho3].
Qed.

(** [insert_vmap_area] puts the area in its place; on an overlap nothing
    changes. *)
Lemma insert_busy_spec root head ks x (a : barea) (Phi : unit -> iProp Sg) :
  root <> 0 -> (a_key a).1 < (a_key a).2 ->
  (forall k, k ∈ ks -> k.2.2 <= (a_key a).1 \/ (a_key a).2 <= k.2.1) ->
  busy_space root head ks -∗ loose x a -∗
  (∀ k1 k2, ⌜ks = k1 ++ k2⌝ -∗ busy_space root head (k1 ++ (x, a_key a) :: k2) -∗ Phi tt) -∗
  wp (insert_vmap_area (va_of_rb x) root head) Phi.
Proof.
  iIntros (Hroot Hse Hd) "(%t & %n & (%Hi & %Ho & %Hr) & %Hn & Hr & Ht & Hl) (%Hx & Hu & HL) HP".
  destruct (disjoint_hole t ks _ _ Hi Ho Hse Hd) as (C & HC & Hp & Hk & Ho').
  iDestruct (tree_height with "Ht") as %Hh; [exact Hr |].
  iDestruct "Hu" as (u1 u2 u3) "(U1 & U2 & U3 & Up)". rw pay_key. iDestruct "Up" as "(P1 & P2 & P3)".
  unfold insert_vmap_area. kbind.
  iApply (find_va_links_spec with "P1 P2 Hr Ht"); [done | lia |]. iIntros "P1 P2 Hr Ht".
  rw HC. cbn [link_of]. rw -Hp in Hr |- *.
  destruct (insert_tree C x a n Hr) as (t' & Hfix & (n' & Hr') & Hi').
  iApply (link_busy_spec with "[Hr Ht Hl] [-HP]"); [done | done | done | by rw Hp; iFrame | |].
  - iSplit; [done |]. iFrame "HL". iExists _, _, _. iFrame "U1 U2 U3". rw pay_key. iFrame.
  - iIntros "Hv". iApply ("HP" with "[//]"). iExists t', n'. iFrame. iPureIntro.
    split; [done |]. split; [| done]. specialize (Ho' x). by destruct (a_key a).
Qed.

(** [unlink_va] *)
Lemma unlink_busy_spec root head k1 k2 x key (Phi : unit -> iProp Sg) :
  busy_space root head (k1 ++ (x, key) :: k2) -∗
  (∀ a, ⌜a_key a = key⌝ -∗ busy_space root head (k1 ++ k2) -∗ detached x a -∗ Phi tt) -∗
  wp (__unlink_va (va_of_rb x) root false) Phi.
Proof.
  iIntros "(%t & %n & (%Hi & %Ho & %Hr) & Hv) HP".
  iApply (unlink_spec with "Hv"); [done.. |].
  iIntros (C c l a r t' n' (-> & Hk & He & Hr' & Hi')) "Hv Hloose".
  iApply ("HP" with "[//] [Hv] Hloose"). iExists t', n'. iFrame. iPureIntro. split; [done |]. split; [| done].
  apply ordered_app in Ho as (Ho1 & Ho2 & Ho3). apply ordered_cons in Ho2 as (_ & Ho2 & _).
  apply ordered_app. split; [done |]. split; [done |]. intros k k' Hk1 Hk2. apply Ho3; [done | by right].
Qed.

Lemma busy_bounds root head k1 x key k2 : busy_space root head (k1 ++ (x, key) :: k2) -∗
  pts (va_of_rb x) key.1 ∗ pts (va_of_rb x + 8) key.2
  ∗ (pts (va_of_rb x) key.1 -∗ pts (va_of_rb x + 8) key.2 -∗ busy_space root head (k1 ++ (x, key) :: k2)).
Proof.
  iIntros "(%t & %n & (%Hi & %Ho & %Hr) & Hv)". iDestruct (vtree_bounds with "Hv") as "($ & $ & Hv)"; [exact Hi |].
  iIntros "P1 P2". iExists t, n. iSplit; [done |]. iApply ("Hv" with "P1 P2").
Qed.

(** The area that contains an address. *)
Definition area_with (ad : Z) (ks : list (Z * (Z * Z))) : option (Z * (Z * Z)) :=
  list_find (fun k => k.2.1 <= ad < k.2.2) ks ≫= fun p => Some p.2.

Definition va_or_null (o : option (Z * (Z * Z))) : Z :=
  match o with None => 0 | Some k => va_of_rb k.1 end.

Lemma area_with_app_l ad k1 k2 : (forall k, k ∈ k2 -> ad < k.2.1) -> area_with ad (k1 ++ k2) = area_with ad k1.
Proof.
  intros H. unfold area_with. induction k1 as [| k k1 IH]; simpl.
  - induction k2 as [| k k2 IH]; [done |]. simpl. rw decide_False.
    + assert (list_find (fun k => k.2.1 <= ad < k.2.2) k2 = None) as ->; [| done].
      apply list_find_None. apply Forall_forall. intros k' Hk'. specialize (H k' ltac:(by right)). lia.
    + specialize (H k ltac:(by left)). lia.
  - case_decide; [done |]. destruct (list_find _ (k1 ++ k2)), (list_find _ k1); simpl in *; congruence.
Qed.

Lemma area_with_app_r ad k1 k2 : (forall k, k ∈ k1 -> k.2.2 <= ad) -> area_with ad (k1 ++ k2) = area_with ad k2.
Proof.
  intros H. unfold area_with. induction k1 as [| k k1 IH]; simpl; [done |].
  rw decide_False; [| specialize (H k ltac:(by left)); lia].
  specialize (IH ltac:(intros k' Hk'; apply H; by right)).
  destruct (list_find _ (k1 ++ k2)), (list_find _ k2); simpl in *; congruence.
Qed.

Lemma find_loop_spec fuel : forall ad (t : tree barea) q (Phi : Z -> iProp Sg),
  (height t < fuel)%nat -> ordered (inord t) ->
  tree_at q t -∗ (tree_at q t -∗ Phi (va_or_null (area_with ad (inord t)))) -∗
  wp (find_vmap_area_loop fuel ad (addr t)) Phi.
Proof.
  induction fuel as [| fuel IH]; intros ad t q Phi Hh Ho; [lia |]. iIntros "Ht HP".
  cbn [find_vmap_area_loop]. iDestruct (addr_empty with "Ht") as %->.
  destruct t as [| c l x a r]; cbn [is_empty addr]. { iApply wp_ret. by iApply "HP". }
  cbn [tree_at inord] in *. iDestruct "Ht" as "(%Hx & Xpc & Xl & Xr & Xp & Tl & Tr)".
  apply ordered_app in Ho as (Ho1 & Ho2 & Ho3). apply ordered_cons in Ho2 as (Hse & Ho2 & Ho4).
  unfold key_before in *. cbn [fst snd] in Hse, Ho4. cbn [height] in Hh. rw pay_key. iDestruct "Xp" as "(P1 & P2 & P3)".
  unfold va_start, va_end, rb_child. kbind. kload "P1".
  destruct (Z.ltb_spec ad (a_key a).1) as [Hlt | Hge].
  - kbind. kload "Xl". iApply (IH with "Tl"); [lia | done |]. iIntros "Tl".
    rw area_with_app_l. { iApply "HP". iFrame. by iFrame. }
    intros k [-> | Hk]%elem_of_cons; [done |]. specialize (Ho4 k Hk). lia.
  - kbind. kload "P2". destruct (Z.leb_spec (a_key a).2 ad) as [Hle | Hgt].
    + kbind. kload "Xr". iApply (IH with "Tr"); [lia | done |]. iIntros "Tr".
      rw area_with_app_r.
      2: { intros k Hk. specialize (Ho3 k (x, a_key a) Hk ltac:(by left)). cbn [fst snd] in Ho3. lia. }
      change ((x, a_key a) :: inord r) with ([(x, a_key a)] ++ inord r).
      rw (area_with_app_r ad [_]). { iApply "HP". by iFrame. }
      intros k [-> | Hk]%elem_of_cons; [done | by apply elem_of_nil in Hk].
    + iApply wp_ret. rw area_with_app_r.
      2: { intros k Hk. specialize (Ho3 k (x, a_key a) Hk ltac:(by left)). cbn [fst snd] in Ho3. lia. }
      assert (area_with ad ((x, a_key a) :: inord r) = Some (x, a_key a)) as ->.
      { unfold area_with. simpl. by rw decide_True. }
      iApply "HP". by iFrame.
Qed.

Lemma find_vmap_area_spec ad root head ks (Phi : Z -> iProp Sg) :
  busy_space root head ks -∗
  (busy_space root head ks -∗ Phi (va_or_null (area_with ad ks))) -∗
  wp (__find_vmap_area ad root) Phi.
Proof.
  iIntros "(%t & %n & (%Hi & %Ho & %Hr) & %Hn & Hroot & Ht & Hl) HP".
  iDestruct (tree_height with "Ht") as %Hh; [exact Hr |]. unfold __find_vmap_area. kbind. kload "Hroot".
  iApply (find_loop_spec with "Ht"); [lia | by rw Hi |]. iIntros "Ht". rw Hi. iApply "HP".
  iExists t, n. rw /vtree Hi. iFrame. iPureIntro. by rw Hi in Hn.
Qed.

Lemma busy_nonnull root head ks : busy_space root head ks -∗ ⌜nonnull ks⌝.
Proof. by iIntros "(%t & %n & (<- & _) & %Hn & _)". Qed.

Lemma area_with_split ad ks k : area_with ad ks = Some k ->
  k.2.1 <= ad < k.2.2 /\ exists k1 k2, ks = k1 ++ k :: k2.
Proof.
  unfold area_with. destruct (list_find _ ks) as [[i k'] |] eqn:Ef; [| done]. intros [= ->].
  apply list_find_Some in Ef as (Hi & Hk & _). split; [done |].
  apply list_elem_of_split. by eapply list_elem_of_lookup_2.
Qed.

(** [find_unlink_vmap_area]: the area that contains the address leaves the
    space; without one nothing changes. *)
Lemma find_unlink_spec ad root head ks (Phi : Z -> iProp Sg) :
  busy_space root head ks -∗
  (match area_with ad ks with
   | None => busy_space root head ks -∗ Phi 0
   | Some k => ∀ k1 k2 a, ⌜ks = k1 ++ k :: k2 /\ a_key a = k.2⌝ -∗
       busy_space root head (k1 ++ k2) -∗ detached k.1 (a : barea) -∗ Phi (va_of_rb k.1)
   end) -∗
  wp (find_unlink_vmap_area ad root) Phi.
Proof.
  iIntros "Hb HP". unfold find_unlink_vmap_area. kbind.
  iApply (find_vmap_area_spec with "Hb"). iIntros "Hb".
  destruct (area_with ad ks) as [[x key] |] eqn:Ea; cbn [va_or_null fst snd].
  - destruct (area_with_split _ _ _ Ea) as (_ & k1 & k2 & ->).
    iDestruct (busy_nonnull with "Hb") as %[Hx _]%nonnull_mid.
    rw (proj2 (Z.eqb_neq _ _) Hx). cbn [negb kwhen]. kbind.
    iApply (unlink_busy_spec with "Hb"). iIntros (a Hk) "Hb Hl". iApply wp_ret.
    iApply ("HP" with "[//] Hb Hl").
  - cbn [Z.eqb negb kwhen]. kbind. iApply wp_ret. iApply wp_ret. by iApply "HP".
Qed.

End spaces.
