(* ===== verification/VmapSearch.v ===== *)
(** * The search for the lowest free area that fits

    [find_vmap_lowest_match] walks down and up the free tree.  [search] is the
    walk on trees; [search_ok] says what it finds: an area in which the
    request fits, such that no area before it of at least [len] bytes fits;
    or nothing, and then no area of at least [len] bytes fits. *)

From stdpp Require Import sorting.
From S2P Require Import Prelude Kmalloc Kobj Rbtree RbTrees VmapArea VmapAug.

(** Membership in the keys of a tree. *)
Ltac in_keys := simpl; rewrite ?elem_of_app, ?elem_of_cons, ?elem_of_app; tauto.

(** The least multiple of [a] at or above [x]. *)
Definition align_to (a x : Z) : Z := (x + a - 1) - (x + a - 1) mod a.

Lemma align_to_div a x : a <> 0 -> align_to a x = a * ((x + a - 1) / a).
Proof. intros Ha. unfold align_to. pose proof (Z.div_mod (x + a - 1) a Ha). lia. Qed.

Lemma align_to_le a x : 0 < a -> x <= align_to a x < x + a.
Proof. intros Ha. unfold align_to. pose proof (Z.mod_pos_bound (x + a - 1) a Ha). lia. Qed.

Lemma align_to_mono a x y : 0 < a -> x <= y -> align_to a x <= align_to a y.
Proof.
  intros Ha Hxy. rewrite !align_to_div by lia. apply Z.mul_le_mono_nonneg_l; [lia |].
  apply Z.div_le_mono; lia.
Qed.

Lemma align_to_mod a x : 0 < a -> align_to a x mod a = 0.
Proof. intros Ha. rewrite align_to_div, Z.mul_comm by lia. apply Z_mod_mult. Qed.

Lemma pow2_mod_2_64 a : is_pow2 a -> 2 ^ 64 mod a = 0.
Proof.
  intros (k & Hk & ->). replace 64 with ((64 - k) + k) by lia. rewrite Z.pow_add_r by lia. apply Z_mod_mult.
Qed.

(** [ALIGN] at 64 bits: the multiple, or 0 when it does not fit. *)
Lemma ALIGN_UP_cases x a : is_pow2 a -> 0 < x < 2 ^ 64 ->
  (ALIGN_UP x a = align_to a x /\ align_to a x < 2 ^ 64) \/ (ALIGN_UP x a = 0 /\ 2 ^ 64 <= align_to a x).
Proof.
  intros Ha Hx. pose proof (is_pow2_range a Ha) as Hr. unfold ALIGN_UP.
  rewrite align_mask_pow2 by (done || apply u64_range). unfold align_to.
  destruct (decide (x + a - 1 < 2 ^ 64)) as [Hs | Hs].
  - left. rewrite u64_small by lia. pose proof (Z.mod_pos_bound (x + a - 1) a). lia.
  - right. assert (Hu : u64 (x + a - 1) = x + a - 1 - 2 ^ 64).
    { unfold u64. replace (x + a - 1) with ((x + a - 1 - 2 ^ 64) + 1 * 2 ^ 64) at 1 by lia.
      rewrite Z.mod_add by lia. apply Z.mod_small. lia. }
    rewrite Hu. rewrite (Z.mod_small (x + a - 1 - 2 ^ 64) a) by lia. split; [lia |].
    assert (Hm : (x + a - 1) mod a = x + a - 1 - 2 ^ 64); [| lia].
    replace (x + a - 1) with (x + a - 1 - 2 ^ 64 + 2 ^ 64) at 1 by lia.
    rewrite <- Z.add_mod_idemp_r, (pow2_mod_2_64 a Ha), Z.add_0_r by lia. apply Z.mod_small. lia.
Qed.

Section search.
Variables (size align len : Z).
Implicit Types (t l r : tree area) (C : list (frame area)) (k : Z * (Z * Z)).

(** [is_within_this_va] on the bounds of an area. *)
Definition fitb (v : Z) k : bool :=
  let n := nva_start k.2.1 align v in
  if (u64 (n + size) <? n) || (n <? v) then false else u64 (n + size) <=? k.2.2.

(** The request fits in the area, at or above [v]. *)
Definition fits (v : Z) k : Prop := align_to align (Z.max k.2.1 v) + size <= k.2.2.

Lemma fitb_fits v k : is_pow2 align -> 0 < size < 2 ^ 64 -> 0 < v < 2 ^ 64 ->
  0 <= k.2.1 -> k.2.1 < 2 ^ 64 -> k.2.2 < 2 ^ 64 -> fitb v k = true <-> fits v k.
Proof.
  intros Ha Hs Hv H1 H1' H2. unfold fitb, fits, nva_start. pose proof (is_pow2_range _ Ha) as Hr.
  set (x := Z.max k.2.1 v). assert (Hx : 0 < x < 2 ^ 64 /\ v <= x) by lia.
  assert ((if k.2.1 >? v then ALIGN_UP k.2.1 align else ALIGN_UP v align) = ALIGN_UP x align) as ->.
  { unfold x. destruct (Z.gtb_spec k.2.1 v); [rewrite Z.max_l by lia | rewrite Z.max_r by lia]; done. }
  pose proof (align_to_le align x ltac:(lia)) as Hle.
  destruct (ALIGN_UP_cases x align Ha (proj1 Hx)) as [[-> Hn] | [-> Hn]].
  - rewrite (proj2 (Z.ltb_ge _ v)) by lia. rewrite orb_false_r. set (n := align_to align x) in *.
    destruct (decide (n + size < 2 ^ 64)) as [Hw | Hw].
    + rewrite u64_small by lia. rewrite (proj2 (Z.ltb_ge _ n)) by lia. apply Z.leb_le.
    + assert (u64 (n + size) = n + size - 2 ^ 64) as ->.
      { unfold u64. replace (n + size) with ((n + size - 2 ^ 64) + 1 * 2 ^ 64) at 1 by lia.
        rewrite Z.mod_add by lia. apply Z.mod_small. lia. }
      rewrite (proj2 (Z.ltb_lt _ n)) by lia. split; [done | lia].
  - rewrite (proj2 (Z.ltb_lt 0 v)) by lia. rewrite orb_true_r. split; [done | lia].
Qed.

Definition big k : Prop := len <= k.2.2 - k.2.1.

(** The walk: [up] is the climb above the root of [t]. *)
Fixpoint search (fuel : nat) (up : bool) (v : Z) C t : option (option (Z * (Z * Z))) :=
  match fuel with
  | O => None
  | S fuel =>
      if up then
        match C with
        | [] => Some None
        | f :: C' =>
            let k := (fr_addr f, a_key (fr_data f)) in
            let '(R, rt) :=
              match fr_side f with
              | LEFT => (mkF RIGHT (fr_color f) (fr_addr f) (fr_data f) t :: C', fr_sib f)
              | RIGHT => (C, t)
              end in
            if fitb v k then Some (Some k)
            else if (len <=? sub_of (data rt)) && (v <=? k.2.1) then search fuel false (u64 (k.2.1 + 1)) R rt
            else search fuel true v C' (fill f t)
        end
      else
        match t with
        | E => Some None
        | T c l x a r =>
            let k := (x, a_key a) in
            if (len <=? sub_of (data l)) && (v <? k.2.1) then search fuel false v (mkF LEFT c x a r :: C) l
            else if fitb v k then Some (Some k)
            else if len <=? sub_of (data r) then search fuel false v (mkF RIGHT c x a l :: C) r
            else search fuel true v C t
        end
  end.

(** What the search from [v0] may return. *)
Definition search_ok (v0 : Z) (ks : list (Z * (Z * Z))) (o : option (Z * (Z * Z))) : Prop :=
  match o with
  | None => forall k, k ∈ ks -> big k -> ~ fits v0 k
  | Some k => exists (k1 k2 : list _), ks = k1 ++ k :: k2 /\ fits v0 k /\ forall k', k' ∈ k1 -> big k' -> ~ fits v0 k'
  end.

(** ** Correctness *)

Lemma fits_down v v' k : 0 < align -> v <= v' -> fits v' k -> fits v k.
Proof.
  unfold fits. intros Ha Hv H. pose proof (align_to_mono align (Z.max k.2.1 v) (Z.max k.2.1 v') Ha ltac:(lia)). lia.
Qed.

Lemma fits_same v v' k : v <= v' <= k.2.1 -> fits v k -> fits v' k.
Proof. unfold fits. intros Hv. by rewrite !Z.max_l by lia. Qed.

Lemma fits_end v k : 0 < align -> 0 < size -> fits v k -> v < k.2.2.
Proof. unfold fits. intros Ha Hs. pose proof (align_to_le align (Z.max k.2.1 v) Ha). lia. Qed.

Definition in_range (ks : list (Z * (Z * Z))) : Prop := Forall (fun k => 0 <= k.2.1 /\ k.2.2 < 2 ^ 64) ks.

(** The stored size bounds the areas of a subtree. *)
Lemma sub_small t k : aug_ok t -> in_range (inord t) -> ordered (inord t) ->
  k ∈ inord t -> k.2.2 - k.2.1 <= sub_of (data t).
Proof.
  unfold aug_ok. intros Ha Hr [Ho _] Hk. rewrite (sub_emax none t Ha (root_all t)).
  clear Ha. induction t as [| c l IH1 x a r IH2]; simpl in *; [by apply elem_of_nil in Hk |].
  unfold in_range in Hr. rewrite Forall_app, Forall_cons in Hr, Ho. destruct Hr as (R1 & R2 & R3), Ho as (O1 & O2 & O3).
  rewrite elem_of_app, elem_of_cons in Hk. destruct Hk as [Hk | [-> | Hk]].
  - specialize (IH1 R1 O1 Hk). lia.
  - simpl in *. unfold esz, ar_size. rewrite u64_small by lia. lia.
  - specialize (IH2 R3 O3 Hk). lia.
Qed.

Section walk.
Variables (v0 : Z) (T0 : tree area).
Hypotheses (Halign : is_pow2 align) (Hsize : 0 < size < 2 ^ 64) (Hlen : 0 < len) (Hv0 : 0 < v0).
Hypotheses (Hord : ordered (inord T0)) (Hrange : in_range (inord T0)) (Haug : aug_ok T0).

Record walk (up : bool) (v : Z) C t : Prop := {
  wk_tree : plug C t = T0;
  wk_v : v0 <= v < 2 ^ 64;
  wk_left : forall k, k ∈ lkeys C -> big k -> ~ fits v0 k;
  wk_right : forall k, k ∈ rkeys C -> v <= k.2.1;
  wk_here : if up then t <> E /\ forall k, k ∈ inord t -> big k -> ~ fits v0 k
            else (t = E -> C = []) /\ (v = v0 \/ forall k, k ∈ inord t -> v <= k.2.1);
}.

Lemma walk_keys C t : plug C t = T0 -> inord T0 = lkeys C ++ inord t ++ rkeys C.
Proof. intros <-. apply inord_plug. Qed.

Lemma walk_fitb v k : v0 <= v < 2 ^ 64 -> k ∈ inord T0 -> fitb v k = true <-> fits v k.
Proof.
  intros Hv Hk. unfold in_range in Hrange. rewrite Forall_forall in Hrange. specialize (Hrange k Hk).
  destruct Hord as [Hne _]. rewrite Forall_forall in Hne. specialize (Hne k Hk). apply fitb_fits; auto; lia.
Qed.

(** A subtree without room has nothing big. *)
Lemma walk_small C t k : plug C t = T0 -> (len <=? sub_of (data t)) = false -> k ∈ inord t -> ~ big k.
Proof.
  intros Hp Hs Hk. pose proof (walk_keys C t Hp) as HK. rewrite <- Hp in Haug. apply augs_plug in Haug as [Ha _].
  unfold big. enough (k.2.2 - k.2.1 <= sub_of (data t)) by lia. apply sub_small; [done | | | done].
  - unfold in_range in *. rewrite HK, !Forall_app in Hrange. apply Hrange.
  - rewrite HK in Hord. apply ordered_app in Hord as (_ & Ho & _). by apply ordered_app in Ho as [Ho _].
Qed.

Lemma walk_room t : (len <=? sub_of (data t)) = true -> t <> E.
Proof. intros H ->. simpl in H. lia. Qed.

(** The order around a node. *)
Lemma walk_node C c l x a r : plug C (T c l x a r) = T0 ->
  (ar_start a < ar_end a < 2 ^ 64 /\ 0 <= ar_start a)
  /\ (forall k, k ∈ inord l -> k.2.2 <= ar_start a /\ k.2.1 < k.2.2)
  /\ (forall k, k ∈ inord r ++ rkeys C -> ar_end a <= k.2.1).
Proof.
  intros Hp. pose proof (walk_keys _ _ Hp) as HK. rewrite HK in Hord. simpl in Hord.
  apply ordered_app in Hord as (_ & Ho & _). rewrite <- app_assoc in Ho.
  apply ordered_app in Ho as ([Ho1 _] & Ho2 & Ho3). simpl in Ho2. apply ordered_cons in Ho2 as (H1 & H2 & H3).
  unfold in_range in Hrange. rewrite HK in Hrange. simpl in Hrange. rewrite Forall_app in Hrange.
  destruct Hrange as [_ R]. rewrite !Forall_app, Forall_cons in R. destruct R as ((_ & R & _) & _).
  simpl in *. split; [lia |]. split; [| done]. intros k Hk. rewrite Forall_forall in Ho1.
  split; [| by apply Ho1]. apply (Ho3 k (x, (ar_start a, ar_end a))); [done | by left].
Qed.

Lemma walk_in C c l x a r : plug C (T c l x a r) = T0 -> (x, a_key a) ∈ inord T0.
Proof. intros Hp. rewrite (walk_keys _ _ Hp). in_keys. Qed.

Lemma walk_down_left v C c l x a r : walk false v C (T c l x a r) ->
  (len <=? sub_of (data l)) = true -> v < ar_start a -> walk false v (mkF LEFT c x a r :: C) l.
Proof.
  intros [W1 W2 W3 W4 [_ W5]] Hl Hv. destruct (walk_node _ _ _ _ _ _ W1) as (N1 & N2 & N3).
  split; [done | done | | |].
  - simpl. intros k. rewrite app_nil_r. auto.
  - simpl. intros k. rewrite elem_of_cons. intros [-> | Hk]; simpl; [lia |]. specialize (N3 k Hk). lia.
  - split; [intros ->; simpl in Hl; lia |]. destruct W5 as [W5 | W5]; [by left | right].
    intros k Hk. apply W5. in_keys.
Qed.

(** Nothing to the left of the node fits when the walk does not go left. *)
Lemma walk_skip_left v C c l x a r k : walk false v C (T c l x a r) ->
  (len <=? sub_of (data l)) && (v <? ar_start a) = false -> k ∈ inord l -> big k -> ~ fits v0 k.
Proof.
  intros [W1 W2 W3 W4 [_ W5]] Hc Hk Hb Hf. destruct (walk_node _ _ _ _ _ _ W1) as (N1 & N2 & N3).
  apply andb_false_iff in Hc as [Hc | Hc].
  - by apply (walk_small (mkF LEFT c x a r :: C) l k).
  - specialize (N2 k Hk). apply fits_end in Hf; [| by apply is_pow2_range | lia].
    destruct W5 as [-> | W5]; [lia |]. specialize (W5 k ltac:(in_keys)). lia.
Qed.

Lemma walk_no_fit v C c l x a r : walk false v C (T c l x a r) -> fitb v (x, a_key a) = false -> ~ fits v0 (x, a_key a).
Proof.
  intros [W1 W2 W3 W4 [_ W5]] Hf. rewrite <- not_true_iff_false, walk_fitb in Hf by (done || by eapply walk_in).
  intros Hf'. apply Hf. destruct W5 as [-> | W5]; [done |]. eapply fits_same; [| exact Hf'].
  specialize (W5 (x, a_key a) ltac:(in_keys)). simpl in *. lia.
Qed.

Lemma walk_found (k1 : list _) k (k2 : list _) v : v0 <= v < 2 ^ 64 -> inord T0 = k1 ++ k :: k2 -> fitb v k = true ->
  (forall k', k' ∈ k1 -> big k' -> ~ fits v0 k') -> search_ok v0 (inord T0) (Some k).
Proof.
  intros Hv HK Hf H. exists k1, k2. split; [done |]. split; [| done].
  apply walk_fitb in Hf; [| done | rewrite HK; in_keys]. eapply fits_down; [by apply is_pow2_range | | exact Hf]. lia.
Qed.

Lemma walk_down_right v C c l x a r : walk false v C (T c l x a r) ->
  (len <=? sub_of (data l)) && (v <? ar_start a) = false -> fitb v (x, a_key a) = false ->
  (len <=? sub_of (data r)) = true -> walk false v (mkF RIGHT c x a l :: C) r.
Proof.
  intros W Hc Hf Hr. pose proof (fun k => walk_skip_left v C c l x a r k W Hc) as HL.
  pose proof (walk_no_fit _ _ _ _ _ _ _ W Hf) as HX. destruct W as [W1 W2 W3 W4 [W6 W5]]. split; [done | done | | done |].
  - simpl. intros k. rewrite !elem_of_app, elem_of_cons. intros [Hk | [Hk | [-> | Hk]]]; [auto | auto | auto | by apply elem_of_nil in Hk].
  - split; [intros ->; simpl in Hr; lia |]. destruct W5 as [W5 | W5]; [by left | right].
    intros k Hk. apply W5. in_keys.
Qed.

Lemma walk_turn v C c l x a r : walk false v C (T c l x a r) ->
  (len <=? sub_of (data l)) && (v <? ar_start a) = false -> fitb v (x, a_key a) = false ->
  (len <=? sub_of (data r)) = false -> walk true v C (T c l x a r).
Proof.
  intros W Hc Hf Hr. split; try apply W. split; [done |]. intros k. simpl. rewrite elem_of_app, elem_of_cons.
  intros [Hk | [-> | Hk]].
  - by apply (walk_skip_left v C c l x a r).
  - intros _. by eapply walk_no_fit.
  - intros Hb. by destruct (walk_small (mkF RIGHT c x a l :: C) r k (wk_tree _ _ _ _ W) Hr Hk).
Qed.

(** Climbing from a left child: the node and its right subtree come next. *)
Lemma climb_no_fit v C c x a s t : walk true v (mkF LEFT c x a s :: C) t ->
  fitb v (x, a_key a) = false -> ~ fits v0 (x, a_key a).
Proof.
  intros [W1 W2 W3 W4 W5] Hf. rewrite <- not_true_iff_false, walk_fitb in Hf; [| done | by apply (walk_in C c t x a s)].
  intros Hf'. apply Hf. eapply fits_same; [| exact Hf'].
  specialize (W4 (x, a_key a) ltac:(cbn [rkeys fr_side fr_addr fr_data]; by left)). simpl in *. lia.
Qed.

Lemma climb_left v C c x a s t : walk true v (mkF LEFT c x a s :: C) t ->
  fitb v (x, a_key a) = false -> (len <=? sub_of (data s)) && (v <=? ar_start a) = false ->
  walk true v C (T c t x a s).
Proof.
  intros W Hf Hc. pose proof (climb_no_fit _ _ _ _ _ _ _ W Hf) as HX. destruct W as [W1 W2 W3 W4 [W5 W6]].
  cbn [lkeys rkeys fr_side fr_addr fr_data fr_sib] in W3, W4. split; [done | done | | |].
  - intros k Hk. apply W3. rewrite app_nil_r. done.
  - intros k Hk. apply W4. in_keys.
  - split; [done |]. intros k. simpl. rewrite elem_of_app, elem_of_cons. intros [Hk | [-> | Hk]]; [auto | auto |].
    intros Hb. pose proof (W4 (x, a_key a) ltac:(by left)) as Hx. simpl in Hx.
    apply andb_false_iff in Hc as [Hc | Hc]; [| lia].
    by destruct (walk_small (mkF RIGHT c x a t :: C) s k W1 Hc Hk).
Qed.

Lemma climb_left_down v C c x a s t : walk true v (mkF LEFT c x a s :: C) t ->
  fitb v (x, a_key a) = false -> (len <=? sub_of (data s)) = true -> v <= ar_start a ->
  walk false (ar_start a + 1) (mkF RIGHT c x a t :: C) s.
Proof.
  intros W Hf Hs Hv. pose proof (climb_no_fit _ _ _ _ _ _ _ W Hf) as HX. destruct W as [W1 W2 W3 W4 [W5 W6]].
  destruct (walk_node C c t x a s W1) as (N1 & N2 & N3). simpl in W3. rewrite app_nil_r in W3.
  split; [done | lia | | |]; simpl.
  - intros k. rewrite !elem_of_app, elem_of_cons. intros [Hk | [Hk | [-> | Hk]]]; [auto | auto | auto | by apply elem_of_nil in Hk].
  - intros k Hk. specialize (N3 k ltac:(in_keys)). lia.
  - split; [intros ->; simpl in Hs; lia |]. right. intros k Hk. specialize (N3 k ltac:(in_keys)). lia.
Qed.

Lemma climb_right v C c x a s t : walk true v (mkF RIGHT c x a s :: C) t -> walk true v C (T c s x a t).
Proof.
  intros [W1 W2 W3 W4 [W5 W6]]. simpl in W3, W4. split; [done | done | | done |].
  - intros k Hk. apply W3. in_keys.
  - split; [done |]. intros k. simpl. rewrite elem_of_app, elem_of_cons.
    intros [Hk | [-> | Hk]]; [apply W3 | apply W3 | auto]; rewrite !elem_of_app, elem_of_cons; auto.
Qed.

Lemma climb_right_down v C c x a s t : walk true v (mkF RIGHT c x a s :: C) t -> v <= ar_start a ->
  walk false (ar_start a + 1) (mkF RIGHT c x a s :: C) t.
Proof.
  intros [W1 W2 W3 W4 [W5 W6]] Hv. destruct (walk_node C c s x a t W1) as (N1 & N2 & N3).
  split; [done | lia | done | |].
  - simpl. intros k Hk. specialize (N3 k ltac:(in_keys)). lia.
  - split; [done |]. right. intros k Hk. specialize (N3 k ltac:(in_keys)). lia.
Qed.

(** ** Termination: a walk that turns right above a node starts again behind it *)

Definition behind (v : Z) : nat := length (filter (fun k : Z * (Z * Z) => v <= k.2.1) (inord T0)).

Lemma behind_lt v k : k ∈ inord T0 -> v <= k.2.1 -> (behind (k.2.1 + 1) < behind v)%nat.
Proof.
  intros Hk Hv. unfold behind. clear Hord Hrange. induction (inord T0) as [| k' ks IH]; [by apply elem_of_nil in Hk |].
  assert (Hle : forall ks : list (Z * (Z * Z)), (length (filter (fun k' : Z * (Z * Z) => (k.2.1 + 1 <= k'.2.1)%Z) ks)
    <= length (filter (fun k : Z * (Z * Z) => (v <= k.2.1)%Z) ks))%nat).
  { intros ks'. clear IH. induction ks' as [| k0 ks' IH]; [done |]. rewrite !filter_cons.
    repeat case_decide; simpl; lia. }
  rewrite !filter_cons. apply elem_of_cons in Hk as [<- | Hk].
  - rewrite decide_False, decide_True by lia. specialize (Hle ks). simpl. lia.
  - specialize (IH Hk). repeat case_decide; simpl; lia.
Qed.

Definition steps (up : bool) (v : Z) C : nat :=
  behind v * (2 * height T0 + 4) + (if up then length C + 1 else 2 * height T0 + 2 - length C).

(** The walk may go on with [fuel] steps. *)
Definition finds (fuel : nat) : Prop := forall up v C t, walk up v C t -> (steps up v C < fuel)%nat ->
  exists o, search fuel up v C t = Some o /\ search_ok v0 (inord T0) o.

Lemma finds_up fuel v C t : finds fuel -> walk true v C t -> (steps true v C < S fuel)%nat ->
  exists o, search (S fuel) true v C t = Some o /\ search_ok v0 (inord T0) o.
Proof.
  intros IH W Hm. pose proof (height_plug C t) as Hh. pose proof (wk_tree _ _ _ _ W) as HT. rewrite HT in Hh.
  pose proof (walk_keys _ _ HT) as HK. unfold steps in Hm. destruct (wk_here _ _ _ _ W) as [Hne Hh1].
  pose proof (wk_left _ _ _ _ W) as HL. destruct C as [| [d c x a s] C].
  { exists None. split; [done |]. intros k. rewrite HK. simpl. rewrite app_nil_r. apply Hh1. }
  assert (Hstep : v <= ar_start a -> (behind (ar_start a + 1) < behind v)%nat).
  { intros Hle. pose proof (behind_lt v (x, a_key a)) as Hb. simpl in Hb. apply Hb; [| done].
    destruct d; [by apply (walk_in C c t x a s) | by apply (walk_in C c s x a t)]. }
  assert (Hu : u64 (ar_start a + 1) = ar_start a + 1).
  { destruct d; [destruct (walk_node C c t x a s HT) as [? _] | destruct (walk_node C c s x a t HT) as [? _]];
      apply u64_small; lia. }
  cbn [search fr_side fr_addr fr_color fr_data fr_sib].
  destruct d; cbn [fr_side fr_addr fr_color fr_data fr_sib lkeys rkeys] in *; cbv zeta.
  - destruct (fitb v (x, a_key a)) eqn:Hf.
    { exists (Some (x, a_key a)). split; [done |]. rewrite app_nil_r in *. eapply (walk_found (lkeys C ++ inord t)); [apply W | | done |].
      - rewrite HK, <- app_assoc. done.
      - intros k'. rewrite elem_of_app. intros [?|?]; auto. }
    destruct ((len <=? sub_of (data s)) && (v <=? (x, a_key a).2.1)) eqn:Hc; simpl in Hc.
    + simpl. rewrite Hu. apply andb_true_iff in Hc as [Hc1 Hc2]. apply IH.
      * apply (climb_left_down v); auto. lia.
      * unfold steps. specialize (Hstep ltac:(lia)). simpl length in *. nia.
    + apply IH; [by apply climb_left |]. unfold steps. simpl length in *. lia.
  - destruct (fitb v (x, a_key a)) eqn:Hf.
    { exists (Some (x, a_key a)). split; [done |]. eapply (walk_found (lkeys C ++ inord s)); [apply W | | done |].
      - rewrite HK, <- !app_assoc. done.
      - intros k' Hk'. apply HL. revert Hk'. rewrite !elem_of_app. tauto. }
    destruct ((len <=? sub_of (data t)) && (v <=? (x, a_key a).2.1)) eqn:Hc; simpl in Hc.
    + simpl. rewrite Hu. apply andb_true_iff in Hc as [Hc1 Hc2]. apply IH.
      * apply (climb_right_down v); [done | lia].
      * unfold steps. specialize (Hstep ltac:(lia)). simpl length in *. nia.
    + apply IH; [by apply climb_right |]. unfold steps. simpl length in *. lia.
Qed.

Lemma finds_down fuel v C t : finds fuel -> walk false v C t -> (steps false v C < S fuel)%nat ->
  exists o, search (S fuel) false v C t = Some o /\ search_ok v0 (inord T0) o.
Proof.
  intros IH W Hm. pose proof (height_plug C t) as Hh. pose proof (wk_tree _ _ _ _ W) as HT. rewrite HT in Hh.
  pose proof (walk_keys _ _ HT) as HK. unfold steps in Hm. cbn [search]. destruct t as [| c l x a r].
  { exists None. split; [done |]. intros k. rewrite HK. destruct (wk_here _ _ _ _ W) as [HC _].
    rewrite (HC eq_refl). simpl. by intros ?%elem_of_nil. }
  cbv zeta. simpl height in Hh. destruct ((len <=? sub_of (data l)) && (v <? (x, a_key a).2.1)) eqn:Hc.
  { apply andb_true_iff in Hc as [Hc1 Hc2]. simpl in Hc2. apply IH; [apply walk_down_left; [done | done | lia] |].
    unfold steps. simpl length. lia. }
  destruct (fitb v (x, a_key a)) eqn:Hf.
  { exists (Some (x, a_key a)). split; [done |]. eapply (walk_found (lkeys C ++ inord l)); [apply W | | done |].
    - rewrite HK. simpl. by rewrite <- !app_assoc.
    - intros k'. rewrite elem_of_app. intros [?|?]; [by apply (wk_left _ _ _ _ W) | by eapply walk_skip_left]. }
  destruct (len <=? sub_of (data r)) eqn:Hr.
  - apply IH; [by apply walk_down_right |]. unfold steps. simpl length. lia.
  - apply IH; [by apply walk_turn |]. unfold steps. lia.
Qed.

Lemma search_total fuel : finds fuel.
Proof.
  induction fuel as [| fuel IH]; intros [] v C t W Hm; [lia | lia | by apply finds_up | by apply finds_down].
Qed.

End walk.

(** The search from the root, with enough fuel. *)
Lemma search_correct fuel v0 t : is_pow2 align -> 0 < size < 2 ^ 64 -> 0 < len -> 0 < v0 < 2 ^ 64 ->
  ordered (inord t) -> in_range (inord t) -> aug_ok t ->
  (S (length (inord t)) * (2 * height t + 4) <= fuel)%nat ->
  exists o, search fuel false v0 [] t = Some o /\ search_ok v0 (inord t) o.
Proof.
  intros Ha Hs Hl Hv Ho Hr Haug Hf. apply (search_total v0 t); try done; [lia | |].
  - split; [done | lia | by intros k ?%elem_of_nil.. |]. split; [done | by left].
  - unfold steps, behind. pose proof (length_filter (fun k : Z * (Z * Z) => v0 <= k.2.1) (inord t)). simpl. nia.
Qed.

End search.
