(* ===== verification/VmapFree.v ===== *)
(** * The free areas: searching, inserting, removing, resizing

    [free_space root head ks]: the free areas [ks] are in a balanced tree with
    correct subtree sizes and in the list.  Every operation of [vm.c] on it is
    specified by what becomes of [ks]. *)

From iris.proofmode Require Import proofmode.
From iris.base_logic.lib Require Import gen_heap.
From S2P Require Import Prelude Memblock CString CStringSpec Kmalloc Kobj KobjLogic Rbtree RbTrees.
From S2P Require Import RbtreeSpec RbtreeErase VmapArea VmapAug VmapTree VmapList VmapSpace VmapSearch.

Section free.
Context `{!kobjGS Sg}.
Implicit Types (t l r : tree area) (C : list (frame area)) (a : area).

(** ** The search *)

Lemma wp_subtree_max q t (Phi : Z -> iProp Sg) :
  tree_at q t -∗ (tree_at q t -∗ Phi (sub_of (data t))) -∗ wp (get_subtree_max_size (addr t)) Phi.
Proof.
  iIntros "Ht HP". unfold get_subtree_max_size. iDestruct (addr_empty with "Ht") as %->.
  destruct t as [| c l x a r]; cbn [is_empty addr data sub_of]; [iApply wp_ret; by iApply "HP" |].
  iDestruct (tree_root_pay with "Ht") as "[[%Hx Hr] Ht]". rw pay_area. iDestruct "Hr" as "(H1 & H2 & H3 & H4)".
  kload "H3". iApply "HP". iApply "Ht". iSplit; [done |]. rw pay_area. iFrame.
Qed.

Lemma wp_within x a size align v (Phi : bool -> iProp Sg) :
  pay x a -∗ (pay x a -∗ Phi (fitb size align v (x, a_key a))) -∗
  wp (is_within_this_va (va_of_rb x) size align v) Phi.
Proof.
  iIntros "Hp HP". rw pay_area. iDestruct "Hp" as "(H1 & H2 & H3 & H4)".
  unfold is_within_this_va, va_start, va_end, fitb. cbn [snd fst a_key free_aug]. kbind. kload "H1".
  destruct (_ || _).
  - iApply wp_ret. iApply "HP". iFrame.
  - kbind. kload "H2". iApply wp_ret. iApply "HP". iFrame.
Qed.

Lemma wp_start x a (Phi : Z -> iProp Sg) :
  pay x a -∗ (pay x a -∗ Phi (ar_start a)) -∗ wp (va_start (va_of_rb x)) Phi.
Proof.
  iIntros "Hp HP". rw pay_area. iDestruct "Hp" as "(H1 & H2)". unfold va_start. kload "H1". iApply "HP". iFrame.
Qed.

Section loop.
Variables (size align len root : Z).

Definition loop_spec (fuel : nat) : Prop := forall up v C t o (Phi : Z -> iProp Sg),
  search size align len fuel up v C t = Some o -> (up = true -> t <> E) ->
  ctx_at 0 root C (addr t) -∗ tree_at (above 0 C) t -∗
  (pts root (addr (plug C t)) -∗ tree_at 0 (plug C t) -∗ Phi (va_or_null o)) -∗
  wp (lowest_match_loop fuel size align len up v (addr t)) Phi.

(** The step above a node [y] with the subtrees [l] and [r]. *)
Lemma climb_spec fuel v C c l y b r o (Phi : Z -> iProp Sg) : loop_spec fuel ->
  (if fitb size align v (y, a_key b) then Some (Some (y, a_key b))
   else if (len <=? sub_of (data r)) && (v <=? (y, a_key b).2.1)
   then search size align len fuel false (u64 ((y, a_key b).2.1 + 1)) (mkF RIGHT c y b l :: C) r
   else search size align len fuel true v C (T c l y b r)) = Some o ->
  ctx_at 0 root C y -∗ tree_at (above 0 C) (T c l y b r) -∗
  (pts root (addr (plug C (T c l y b r))) -∗ tree_at 0 (plug C (T c l y b r)) -∗ Phi (va_or_null o)) -∗
  wp (w ← is_within_this_va (va_of_rb y) size align v;
      if (w : bool) then mret (va_of_rb y)
      else
        right ← rb_child RIGHT y;
        m ← get_subtree_max_size right;
        start ← va_start (va_of_rb y);
        if (len <=? m) && (v <=? start) then
          lowest_match_loop fuel size align len false (u64 (start + 1)) right
        else lowest_match_loop fuel size align len true v y) Phi.
Proof.
  iIntros (IH Hs) "HC (%Hy & Xpc & Xl & Xr & Xp & Tl & Tr) HP". kbind. iApply (wp_within with "Xp"). iIntros "Xp".
  destruct (fitb size align v (y, a_key b)).
  { injection Hs as <-. iApply wp_ret. iDestruct (ctx_close 0 root C (T c l y b r) with "HC [-HP]") as "[Hroot Ht]".
    - cbn [tree_at]. by iFrame.
    - iApply ("HP" with "Hroot Ht"). }
  unfold rb_child. kbind. kload "Xr". kbind. iApply (wp_subtree_max with "Tr"). iIntros "Tr".
  kbind. iApply (wp_start with "Xp"). iIntros "Xp". cbn [snd fst a_key free_aug] in Hs.
  destruct (_ && _).
  - iApply (IH false _ (mkF RIGHT c y b l :: C) r with "[-HP Tr] Tr HP"); [done | done |].
    cbn [ctx_at fr_addr fr_side fr_color fr_data fr_sib opp]. by iFrame.
  - iApply (IH true _ C (T c l y b r) with "HC [-HP] HP"); [done | done |]. cbn [tree_at]. by iFrame.
Qed.

Lemma lowest_loop_spec fuel : loop_spec fuel.
Proof.
  induction fuel as [| fuel IH]; intros up v C t o Phi Hs Hne; [done |]. iIntros "HC Ht HP".
  cbn [search lowest_match_loop] in *. iDestruct (ctx_above with "HC") as %Ha; [apply aligned_0 |]. destruct up.
  - destruct t as [| c l x a r]; [by specialize (Hne eq_refl) |]. cbn [addr] in *.
    iDestruct "Ht" as "(%Hx & Xpc & Xt)". kbind. iApply (wp_parent with "Xpc"); [done |]. iIntros "Xpc".
    iAssert (tree_at (above 0 C) (T c l x a r)) with "[Xpc Xt]" as "Ht"; [cbn [tree_at]; by iFrame |].
    set (t := T c l x a r) in *. change x with (addr t). clearbody t.
    destruct C as [| f C]; cbn [above].
    { injection Hs as <-. rw Z.eqb_refl. iApply wp_ret. iApply ("HP" with "HC Ht"). }
    cbn [ctx_at]. iDestruct "HC" as "(%Hf & Fpc & Fd & Fo & Fp & Fs & HC)".
    rw (proj2 (Z.eqb_neq _ _) (proj1 Hf)). destruct f as [[] c' y b s].
    + iApply (climb_spec fuel v C c' t y b s with "HC [-HP] HP"); [done | exact Hs |].
      cbn [tree_at fr_addr fr_side fr_color fr_data fr_sib opp]. by iFrame.
    + iApply (climb_spec fuel v C c' s y b t with "HC [-HP] HP"); [done | exact Hs |].
      cbn [tree_at fr_addr fr_side fr_color fr_data fr_sib opp]. by iFrame.
  - iDestruct (addr_empty with "Ht") as %->. destruct t as [| c l x a r]; cbn [is_empty addr].
    { injection Hs as <-. iApply wp_ret. iDestruct (ctx_close 0 root C E with "HC Ht") as "[Hroot Ht]".
      iApply ("HP" with "Hroot Ht"). }
    iDestruct "Ht" as "(%Hx & Xpc & Xl & Xr & Xp & Tl & Tr)". unfold rb_child. kbind. kload "Xl".
    kbind. iApply (wp_subtree_max with "Tl"). iIntros "Tl". kbind. iApply (wp_start with "Xp"). iIntros "Xp".
    cbn [snd fst a_key free_aug] in Hs. destruct ((len <=? sub_of (data l)) && _).
    { iApply (IH false v (mkF LEFT c x a r :: C) l with "[-HP Tl] Tl HP"); [done | done |].
      cbn [ctx_at fr_addr fr_side fr_color fr_data fr_sib opp]. by iFrame. }
    kbind. iApply (wp_within with "Xp"). iIntros "Xp". cbn [a_key free_aug]. destruct (fitb _ _ _ _).
    { injection Hs as <-. iApply wp_ret. iDestruct (ctx_close 0 root C (T c l x a r) with "HC [-HP]") as "[Hroot Ht]".
      - cbn [tree_at]. by iFrame.
      - iApply ("HP" with "Hroot Ht"). }
    kbind. kload "Xr". kbind. iApply (wp_subtree_max with "Tr"). iIntros "Tr". destruct (len <=? _).
    + iApply (IH false v (mkF RIGHT c x a l :: C) r with "[-HP Tr] Tr HP"); [done | done |].
      cbn [ctx_at fr_addr fr_side fr_color fr_data fr_sib opp]. by iFrame.
    + iApply (IH true v C (T c l x a r) with "HC [-HP] HP"); [done | done |]. cbn [tree_at]. by iFrame.
Qed.

End loop.

(** ** The space *)

Definition free_space (root head : Z) (ks : list (Z * (Z * Z))) : iProp Sg :=
  ∃ t n, ⌜inord t = ks /\ ordered ks /\ aug_ok t /\ rb t Black n⌝ ∗ vtree root head t.

Lemma free_ordered root head ks : free_space root head ks -∗ ⌜ordered ks⌝.
Proof. by iIntros "(%t & %n & (_ & %Ho & _) & _)". Qed.

(** Bounds of areas are 64-bit words. *)
Lemma tree_range t : forall q, tree_at q t -∗ ⌜in_range (inord t)⌝.
Proof.
  induction t as [| c l IH1 x a r IH2]; intros q; cbn [tree_at inord]; [iIntros "_"; iPureIntro; constructor |].
  iIntros "(_ & _ & _ & _ & Xp & Tl & Tr)". iDestruct (IH1 with "Tl") as %H1. iDestruct (IH2 with "Tr") as %H2.
  rw pay_area. iDestruct "Xp" as "(P1 & P2 & _)". iDestruct (pts_range with "P1") as %H3.
  iDestruct (pts_range with "P2") as %H4. iPureIntro. unfold in_range. rw Forall_app. split; [done |].
  constructor; [cbn [fst snd a_key free_aug]; lia | done].
Qed.

(** Enough steps for a search among [n] areas. *)
Definition search_fuel (n : nat) : nat := S n * (2 * RB_FUEL + 4).

Lemma lowest_match_spec fuel root head size align vstart (adjust : bool) ks (Phi : Z -> iProp Sg) :
  let len := if adjust then u64 (size + align - 1) else size in
  is_pow2 align -> 0 < size < 2 ^ 64 -> 0 < len -> 0 < vstart < 2 ^ 64 ->
  (search_fuel (length ks) <= fuel)%nat ->
  free_space root head ks -∗
  (∀ o, ⌜search_ok size align len vstart ks o⌝ -∗ free_space root head ks -∗ Phi (va_or_null o)) -∗
  wp (find_vmap_lowest_match fuel root size align vstart adjust) Phi.
Proof.
  iIntros (len Ha Hs Hl Hv Hf) "(%t & %n & (<- & %Ho & %Hg & %Hr) & %Hn & Hroot & Ht & Hl) HP".
  iDestruct (tree_height with "Ht") as %Hh; [exact Hr |]. iDestruct (tree_range with "Ht") as %Hrg.
  unfold find_vmap_lowest_match. kbind. kload "Hroot". fold len.
  destruct (search_correct size align len fuel vstart t) as (o & Hso & Hok); try done.
  { unfold search_fuel in Hf. nia. }
  iApply (lowest_loop_spec size align len root fuel false vstart [] t o with "Hroot Ht"); [done | done |].
  iIntros "Hroot Ht". iApply ("HP" with "[//]"). iExists t, n. by iFrame.
Qed.

(** ** A node whose stored size may be out of date *)

Definition free_node (root head : Z) (k1 : list (Z * (Z * Z))) x a k2 : iProp Sg :=
  ∃ C c l r n, ⌜k1 = lkeys C ++ inord l /\ k2 = inord r ++ rkeys C
      /\ aug_ok l /\ aug_ok r /\ actx none C (ar_sub a) /\ rb (plug C (T c l x a r)) Black n⌝
    ∗ vtree root head (plug C (T c l x a r)).

Lemma free_open root head k1 x key k2 : free_space root head (k1 ++ (x, key) :: k2) -∗
  ∃ a, ⌜a_key a = key⌝ ∗ free_node root head k1 x a k2.
Proof.
  iIntros "(%t & %n & (%Hi & %Ho & %Hg & %Hr) & %Hn & Hroot & Ht & Hl)".
  iDestruct (tree_NoDup with "Ht") as %[Hd _].
  assert (Hx : x ∈ nodes t) by (rw nodes_inord Hi fmap_app; apply elem_of_app; right; by left).
  destruct (node_ctx t x Hx) as (C & c & l & a & r & ->). rw nodes_inord Hi in Hd.
  pose proof (node_keys C c l x a r) as HK. rw HK in Hi.
  destruct (split_unique _ _ _ _ _ _ _ Hd (eq_sym Hi)) as (-> & -> & ->).
  iExists a. iSplit; [done |]. iExists C, c, l, r, n. iFrame. iPureIntro.
  apply augs_plug in Hg as [(G1 & G2 & G3) G4]. specialize (G1 eq_refl). simpl in G4. rw -G1 in G4. done.
Qed.

Lemma rb_node_data C c l x a a' r n : rb (plug C (T c l x a r)) Black n -> rb (plug C (T c l x a' r)) Black n.
Proof.
  intros Hr. destruct (rb_plug_inv _ _ _ Hr) as (c0 & k & Hk & HC). eapply rb_plug; [| exact HC].
  inversion Hk; subst; econstructor; eauto.
Qed.

Lemma lents_key k1 x key key' k2 : lents (k1 ++ (x, key) :: k2) = lents (k1 ++ (x, key') :: k2).
Proof. unfold lents. by rw !fmap_app. Qed.

(** The words of the area may be changed, its place may not. *)
Lemma free_node_words root head k1 x a k2 : free_node root head k1 x a k2 -∗
  pay x a ∗ ∀ a', ⌜ar_sub a' = ar_sub a⌝ -∗ pay x a' -∗ free_node root head k1 x a' k2.
Proof.
  iIntros "(%C & %c & %l & %r & %n & (-> & -> & %Hl & %Hr & %HC & %Hb) & %Hn & Hroot & Ht & He)".
  iDestruct (ctx_open with "Hroot Ht") as "[HC (%Hx & Xpc & Xl & Xr & $ & Tl & Tr)]".
  iIntros (a' Ha) "Hp". iExists C, c, l, r, n. iSplit.
  { iPureIntro. rw Ha. do 5 (split; [done |]). by eapply rb_node_data. }
  iDestruct (ctx_close 0 root C (T c l x a' r) with "HC [-He]") as "[Hroot Ht]"; [cbn [tree_at]; by iFrame |].
  unfold vtree. rw node_keys in Hn |- *. rw (node_keys C c l x a' r). rw (lents_key _ x (a_key a) (a_key a')).
  iFrame. iPureIntro. apply nonnull_mid. by apply nonnull_mid in Hn.
Qed.

Lemma update_node C c l x a r : aug_ok l -> aug_ok r -> actx none C (ar_sub a) ->
  aug_ok (plug (update (mkF LEFT c x a r :: C) l) l).
Proof.
  intros Hl Hr HC. apply update_augs; [apply clean_all | apply root_all | done |]. by split.
Qed.

Lemma update_plug C t n : rb (plug C t) Black n -> rb (plug (update C t) t) Black n /\
  inord (plug (update C t) t) = inord (plug C t).
Proof.
  intros Hr. split.
  - destruct (rb_plug_inv _ _ _ Hr) as (c & k & Hk & HC). eapply rb_plug; [exact Hk |].
    eapply hole_same; [apply update_same | done].
  - rw !inord_plug. by destruct (update_keys C t) as [-> ->].
Qed.

(** [augment_tree_propagate_from] brings the sizes above a node up to date. *)
Lemma propagate_node_spec root head C c l x a r n (Phi : unit -> iProp Sg) :
  rb (plug C (T c l x a r)) Black n ->
  vtree root head (plug C (T c l x a r)) -∗
  (vtree root head (plug (update (mkF LEFT c x a r :: C) l) l) -∗ Phi tt) -∗
  wp (augment_tree_propagate_from (va_of_rb x)) Phi.
Proof.
  iIntros (Hr) "(%Hn & Hroot & Ht & He) HP". set (f := mkF LEFT c x a r).
  iDestruct (tree_height with "Ht") as %Hh; [exact Hr |]. pose proof (height_plug (f :: C) l) as Hp.
  rw plug_cons in Hp. iDestruct (ctx_open 0 root (f :: C) l with "Hroot Ht") as "[HC Ht]".
  unfold augment_tree_propagate_from. rw rb_of_va. change x with (above 0 (f :: C)).
  iApply (wp_propagate0 with "HC Ht"). { simpl length in *. unfold fill in Hp. cbn [f fr_side mk fr_color fr_addr fr_data fr_sib] in Hp. lia. }
  iIntros "HC Ht". iDestruct (ctx_close 0 root (update (f :: C) l) l with "HC [Ht]") as "[Hroot Ht]".
  { by rw update_above. }
  iApply "HP". destruct (update_plug (f :: C) l n Hr) as [_ Hi]. unfold vtree. rw Hi. by iFrame.
Qed.

Lemma free_propagate_spec root head k1 x a k2 (Phi : unit -> iProp Sg) :
  ordered (k1 ++ (x, a_key a) :: k2) ->
  free_node root head k1 x a k2 -∗ (free_space root head (k1 ++ (x, a_key a) :: k2) -∗ Phi tt) -∗
  wp (augment_tree_propagate_from (va_of_rb x)) Phi.
Proof.
  iIntros (Ho) "(%C & %c & %l & %r & %n & (-> & -> & %Hl & %Hr & %HC & %Hb) & Hv) HP".
  iApply (propagate_node_spec with "Hv"); [exact Hb |]. iIntros "Hv". iApply "HP".
  destruct (update_plug (mkF LEFT c x a r :: C) l n Hb) as [Hb' Hi].
  iExists _, n. iFrame "Hv". iPureIntro. split; [rw Hi; apply node_keys |]. split; [done |]. split; [| done].
  by apply update_node.
Qed.

(** ** Inserting an area *)

(** [__link_va] leaves the new node with the size 0. *)
Lemma link_free_spec root head C x a t1 n (Phi : unit -> iProp Sg) :
  fix_ins C (T Red E x a E) = Some t1 -> inord t1 = lkeys C ++ (x, a_key a) :: rkeys C ->
  rb (plug C E) Black n ->
  vtree root head (plug C E) -∗ loose x a -∗
  (∀ C' c l a1 r, ⌜t1 = plug C' (T c l x a1 r)⌝ -∗
     vtree root head (plug C' (T c l x (set_sub a1 0) r)) -∗ Phi tt) -∗
  wp (__link_va (va_of_rb x) root (above 0 C) (hole_link root C) head true) Phi.
Proof.
  iIntros (Hfix Hi Hr) "(%Hn & Hroot & Ht & Hl) ([%Hx %Hx0] & Hu & %w1 & %w2 & L1 & L2) HP".
  iDestruct (tree_height with "Ht") as %Hh; [exact Hr |]. pose proof (height_plug C E) as Hp. simpl in Hp.
  iDestruct (ctx_open with "Hroot Ht") as "[HC _]". iDestruct (ctx_ptrs with "HC") as %HF.
  unfold __link_va. rw inord_plug. cbn [inord app]. kbind.
  iApply (list_pos_spec with "Hl"); [by apply ctx_nonnull |]. iIntros "Hl".
  kbind. rw rb_of_va. iApply (link_node_spec with "Hu HC"); [done |]. iIntros "HC Ht".
  kbind. kbind. iApply (rb_insert_augmented_spec with "HC Ht"); [done | lia |]. iIntros "Hroot Ht".
  destruct (node_ctx t1 x) as (C' & c & l & a1 & r & ->).
  { rw nodes_inord Hi fmap_app. apply elem_of_app. right. by left. }
  iDestruct (ctx_open with "Hroot Ht") as "[HC (_ & Xpc & Xl & Xr & Xp & Tl & Tr)]".
  rw pay_area. iDestruct "Xp" as "(P1 & P2 & P3 & P4)". kstore "P3"; [lia |].
  iApply (list_insert_spec _ _ _ _ (a_key a) with "Hl L1 L2"); [done |]. iIntros "Hl".
  iApply ("HP" with "[//]").
  iDestruct (ctx_close 0 root C' (T c l x (set_sub a1 0) r) with "HC [-Hl]") as "[Hroot Ht]".
  { cbn [tree_at]. rw (pay_area x (set_sub a1 0)). by iFrame. }
  assert (Hi' : inord (plug C' (T c l x (set_sub a1 0) r)) = inord (plug C' (T c l x a1 r))) by (by rw !node_keys).
  unfold vtree. rw Hi' Hi. iFrame. iPureIntro. rw inord_plug in Hn. by apply nonnull_mid.
Qed.

Lemma node_key_unique C c l x a1 r k1 key k2 : NoDup (nodes (plug C (T c l x a1 r))) ->
  inord (plug C (T c l x a1 r)) = k1 ++ (x, key) :: k2 -> a_key a1 = key.
Proof.
  intros Hd Hi. rw nodes_inord node_keys in Hd. rw node_keys in Hi.
  by destruct (split_unique _ _ _ _ _ _ _ Hd Hi) as (_ & <- & _).
Qed.

(** The node is in none of the other parts of its tree. *)
Lemma node_once C c l x a r : NoDup (nodes (plug C (T c l x a r))) -> (x ∉ nodes l) /\ (x ∉ nodes r) /\ (x ∉ ctx_nodes C).
Proof.
  rw nodes_plug_perm. cbn [nodes]. rw -app_assoc. rw NoDup_app. intros (_ & H1 & H2).
  cbn [app] in H2. apply NoDup_cons in H2 as [H2 _]. rw not_elem_of_app in H2. split; [| done].
  intros H. apply (H1 x H). by left.
Qed.

(** Linking and propagating: the area is in the space. *)
Lemma add_free_spec root head C x a n (Phi : unit -> iProp Sg) :
  rb (plug C E) Black n -> aug_ok (plug C E) -> (a_key a).1 < (a_key a).2 ->
  ordered (lkeys C ++ (x, a_key a) :: rkeys C) ->
  vtree root head (plug C E) -∗ loose x a -∗
  (free_space root head (lkeys C ++ (x, a_key a) :: rkeys C) -∗ Phi tt) -∗
  wp (__link_va (va_of_rb x) root (above 0 C) (hole_link root C) head true;;
      augment_tree_propagate_from (va_of_rb x)) Phi.
Proof.
  iIntros (Hr Hg Hse Ho) "Hv Hl HP". destruct (insert_tree C x a n Hr) as (t1 & Hfix & (n' & Hr') & Hi).
  iAssert (⌜x ∉ nodes (plug C E)⌝)%I as %Hnew.
  { iDestruct "Hl" as "(_ & (%u1 & %u2 & %u3 & U1 & _) & _)". iDestruct "Hv" as "(_ & _ & Ht & _)".
    iApply (node_not_in with "U1 Ht"). }
  iAssert (⌜0 <= (a_key a).1 /\ (a_key a).2 < 2 ^ 64⌝)%I as %Hrg.
  { iDestruct "Hl" as "(_ & (%u1 & %u2 & %u3 & _ & _ & _ & Up) & _)". rw pay_area. iDestruct "Up" as "(P1 & P2 & _)".
    iDestruct (pts_range with "P1") as %H1. iDestruct (pts_range with "P2") as %H2. iPureIntro. simpl. lia. }
  kbind. iApply (link_free_spec with "Hv Hl"); [done.. |]. iIntros (C' c l a1 r ->) "Hv".
  iAssert (⌜NoDup (nodes (plug C' (T c l x (set_sub a1 0) r)))⌝)%I as %Hd.
  { iDestruct "Hv" as "(_ & _ & Ht & _)". iDestruct (tree_NoDup with "Ht") as %[Hd _]. done. }
  pose proof (rb_node_data C' c l x a1 (set_sub a1 0) r n' Hr') as Hb.
  iApply (propagate_node_spec with "Hv"); [exact Hb |]. iIntros "Hv". iApply "HP".
  destruct (update_plug (mkF LEFT c x (set_sub a1 0) r :: C') l n' Hb) as [Hb' Hi'].
  destruct (node_once _ _ _ _ _ _ Hd) as (Hxl & Hxr & HxC).
  assert (Hk : a_key (set_sub a1 0) = a_key a).
  { eapply (node_key_unique _ _ _ _ _ _ (lkeys C) _ (rkeys C)); [exact Hd |]. rw -Hi. by rw !node_keys. }
  iExists _, n'. iFrame "Hv". iPureIntro. split.
  { rw Hi'. cbn [plug fold_left fill fr_side mk]. change (fold_left _ C' ?t) with (plug C' t).
    rw -Hi. cbn [fr_color fr_addr fr_data fr_sib]. by rw !node_keys. }
  split; [done |]. split; [| done].
  eapply insert_augs; [exact Hg | | exact Hfix | done | done | done | done |].
  - intros H. apply Hnew. rw nodes_plug_perm. by apply elem_of_app; right.
  - cbn [a_key free_aug set_sub ar_start ar_end] in Hk, Hse, Hrg. injection Hk as E1 E2.
    unfold ar_size. rw E1 E2. rw u64_small; simpl in *; lia.
Qed.

(** Areas before [s] and areas from [e] on. *)
Definition splits (s e : Z) (k1 k2 : list (Z * (Z * Z))) : Prop :=
  (forall k, k ∈ k1 -> k.2.2 <= s) /\ (forall k, k ∈ k2 -> e <= k.2.1).

Lemma splits_unique s e k1 k2 (l1 l2 : list (Z * (Z * Z))) : ordered (k1 ++ k2) -> s < e -> k1 ++ k2 = l1 ++ l2 ->
  splits s e k1 k2 -> splits s e l1 l2 -> k1 = l1 /\ k2 = l2.
Proof.
  revert l1. induction k1 as [| k k1 IH]; intros [| k' l1] Ho Hse Heq [K1 K2] [L1 L2]; simpl in *; [done | | |].
  - subst k2. destruct Ho as [Ho _]. inversion Ho; subst. specialize (K2 k' ltac:(by left)).
    specialize (L1 k' ltac:(by left)). lia.
  - subst l2. destruct Ho as [Ho _]. inversion Ho; subst. specialize (K1 k ltac:(by left)).
    specialize (L2 k ltac:(by left)). lia.
  - injection Heq as <- Heq. apply ordered_cons in Ho as (_ & Ho & _).
    destruct (IH l1) as [-> ->]; try done; (split; [intros k0 Hk0 | done]); [apply K1 | apply L1]; by right.
Qed.

Lemma splits_ordered s e x k1 k2 : ordered (k1 ++ k2) -> s < e -> splits s e k1 k2 ->
  ordered (k1 ++ (x, (s, e)) :: k2).
Proof.
  rw !ordered_app ordered_cons. intros (H1 & H2 & H3) Hse [K1 K2]. split; [done |]. split; [done |].
  intros k k' Hk Hk'. apply elem_of_cons in Hk' as [-> | Hk']; [by apply K1 | by apply H3].
Qed.

(** The hole found below a node is the place of the area. *)
Lemma hole_place C t s e k1 k2 : ordered (inord (plug C t)) -> s < e ->
  inord (plug C t) = k1 ++ k2 -> splits s e k1 k2 -> splits s e (lkeys C) (rkeys C) ->
  exists C', find_hole s e C t = Some C' /\ plug C' E = plug C t /\ lkeys C' = k1 /\ rkeys C' = k2.
Proof.
  intros Ho Hse Hi Hk [HL HR]. pose proof Hi as Hi'. rw inord_plug in Hi'.
  destruct (find_hole_Some s e t C Hse) as [C' HC'].
  { intros k Hk'. assert (Hin : k ∈ k1 ++ k2) by (rw -Hi'; rw !elem_of_app; auto).
    destruct Hk. apply elem_of_app in Hin as [?|?]; auto. }
  exists C'. split; [done |]. pose proof (find_hole_plug _ _ _ _ _ HC') as Hp. split; [done |].
  assert (Hot : ordered (inord t)).
  { rw inord_plug in Ho. apply ordered_app in Ho as (_ & Ho & _). by apply ordered_app in Ho as [Ho _]. }
  destruct (find_hole_order _ _ _ _ _ Hse HC' Hot HL HR) as [HL' HR'].
  assert (Hi2 : lkeys C' ++ rkeys C' = k1 ++ k2) by (by rw -Hi -Hp inord_plug).
  apply (splits_unique s e); [by rw Hi2 -Hi | done | done | done | done].
Qed.

(** [insert_vmap_area_augment] from the root. *)
Lemma insert_free_spec root head k1 k2 x a (Phi : unit -> iProp Sg) :
  root <> 0 -> (a_key a).1 < (a_key a).2 -> splits (a_key a).1 (a_key a).2 k1 k2 ->
  free_space root head (k1 ++ k2) -∗ loose x a -∗
  (free_space root head (k1 ++ (x, a_key a) :: k2) -∗ Phi tt) -∗
  wp (insert_vmap_area_augment (va_of_rb x) 0 root head) Phi.
Proof.
  iIntros (Hroot Hse Hk) "(%t & %n & (%Hi & %Ho & %Hg & %Hr) & %Hn & Hr & Ht & Hl) (%Hx & Hu & HL) HP".
  destruct (hole_place [] t (a_key a).1 (a_key a).2 k1 k2) as (C & HC & Hp & <- & <-); [by rw -Hi in Ho | done.. | |].
  { by split; intros k ?%elem_of_nil. }
  iDestruct (tree_height with "Ht") as %Hh; [exact Hr |].
  iDestruct "Hu" as (u1 u2 u3) "(U1 & U2 & U3 & Up)". rw pay_key. iDestruct "Up" as "(P1 & P2 & P3)".
  unfold insert_vmap_area_augment. rw Z.eqb_refl. kbind.
  iApply (find_va_links_spec with "P1 P2 Hr Ht"); [done | lia |]. iIntros "P1 P2 Hr Ht".
  rw HC. cbn [link_of]. change (plug [] t) with t in Hp.
  iApply (add_free_spec root head C x a n with "[Hr Ht Hl] [-HP] HP"); [by rw Hp.. | done | | by rw Hp; iFrame |].
  - destruct (a_key a). by apply splits_ordered.
  - iSplit; [done |]. iFrame "HL". iExists _, _, _. iFrame "U1 U2 U3". rw pay_key. iFrame.
Qed.

(** From a node on, when the area belongs before it. *)
Lemma insert_before_spec root head k1 y key k2 x a (Phi : unit -> iProp Sg) :
  (a_key a).1 < (a_key a).2 -> splits (a_key a).1 (a_key a).2 k1 ((y, key) :: k2) ->
  free_space root head (k1 ++ (y, key) :: k2) -∗ loose x a -∗
  (free_space root head (k1 ++ (x, a_key a) :: (y, key) :: k2) -∗ Phi tt) -∗
  wp (insert_vmap_area_augment (va_of_rb x) y root head) Phi.
Proof.
  iIntros (Hse Hk) "(%t & %n & (%Hi & %Ho & %Hg & %Hr) & %Hn & Hr & Ht & Hl) (%Hx & Hu & HL) HP".
  iDestruct (tree_height with "Ht") as %Hh; [exact Hr |]. iDestruct (tree_NoDup with "Ht") as %[Hd Hptr].
  assert (Hy : ptr_ok y).
  { rw Forall_forall in Hptr. apply Hptr. rw nodes_inord Hi fmap_app. apply elem_of_app. right. by left. }
  destruct (tree_split t k1 y key k2 Hd Hi) as (C0 & c & l & b & r & -> & <- & H1 & H2).
  destruct (hole_place C0 (T c l y b r) (a_key a).1 (a_key a).2 k1 ((y, a_key b) :: k2)) as (C & HC & Hp & HC1 & HC2);
    [by rw -Hi in Ho | done.. | |].
  { destruct Hk as [K1 K2]. split; intros k Hk; [apply K1; rw H1 | apply K2; rw H2].
    - rw elem_of_app. auto.
    - rw elem_of_cons elem_of_app. auto. }
  iDestruct "Hu" as (u1 u2 u3) "(U1 & U2 & U3 & Up)". rw pay_key. iDestruct "Up" as "(P1 & P2 & P3)".
  unfold insert_vmap_area_augment. rw (proj2 (Z.eqb_neq _ _) (proj1 Hy)). unfold find_va_links, va_start, va_end.
  kbind. kbind. kload "P1". kbind. kload "P2". rw Z.eqb_refl. pose proof (height_plug C0 (T c l y b r)).
  iDestruct (ctx_open with "Hr Ht") as "[HC Ht]".
  iApply (va_links_spec RB_FUEL root _ _ C0 (T c l y b r) with "HC Ht"); [lia | done |]. iIntros "HC Ht".
  iDestruct (ctx_close 0 root C0 (T c l y b r) with "HC Ht") as "[Hr Ht]". rw HC. cbn [link_of].
  rw -Hp. rw -Hp in Hr. rw -Hp in Hg. rw -HC1 -HC2.
  iApply (add_free_spec root head C x a n with "[Hr Ht Hl] [-HP] HP"); [done | done | done | | |].
  - rw HC1 HC2. destruct (a_key a). by apply splits_ordered.
  - iFrame. iPureIntro. by rw Hp.
  - iSplit; [done |]. iFrame "HL". iExists _, _, _. iFrame "U1 U2 U3". rw pay_key. iFrame.
Qed.

(** ** Removing an area *)

Lemma ordered_drop k1 k k2 : ordered (k1 ++ k :: k2) -> ordered (k1 ++ k2).
Proof.
  rw !ordered_app ordered_cons. intros (H1 & (_ & H2 & _) & H3). split; [done |]. split; [done |].
  intros k' k'' Hk' Hk''. apply H3; [done | by right].
Qed.

Lemma unlink_free_spec root head k1 k2 x key (Phi : unit -> iProp Sg) :
  free_space root head (k1 ++ (x, key) :: k2) -∗
  (∀ a, ⌜a_key a = key⌝ -∗ free_space root head (k1 ++ k2) -∗ loose x a -∗ Phi tt) -∗
  wp (__unlink_va (va_of_rb x) root true) Phi.
Proof.
  iIntros "(%t & %n & (%Hi & %Ho & %Hg & %Hr) & Hv) HP".
  iApply (unlink_spec with "Hv"); [done.. |].
  iIntros (C c l a r t' n' (-> & Hk & He & Hr' & Hi')) "Hv Hloose".
  iApply ("HP" with "[//] [Hv]"); [| by iApply detached_loose].
  iExists t', n'. iFrame. iPureIntro. split; [done |]. split; [by eapply ordered_drop |]. split; [| done]. by eapply erase_node_augs.
Qed.

End free.
