(* ===== verification/KobjAlloc.v ===== *)
(** * The kernel heap in the logic

    The allocator is a shared resource: its invariant owns every byte of
    memory that is mapped and not reserved.  [kmalloc] hands the bytes of a
    block over to the caller, [kfree] takes them back.  [heap_is mb] is the
    client's half of the knowledge of the state of the allocator. *)

From iris.proofmode Require Import proofmode.
From iris.base_logic Require Import upred.
From iris.base_logic.lib Require Import gen_heap ghost_var.
From S2P Require Import Prelude Memblock MemblockList MemblockArray MemblockRange MemblockFree.
From S2P Require Import MemblockSearch MemblockAlloc CString CStringSpec Kmalloc Kobj KobjLogic VmapArea.

Class kheapGS (Sg : gFunctors) := KheapGS {
  kheap_gen : gen_heapGS Z Z Sg;
  kheap_var : ghost_varG Sg memblock;
  kheap_name : gname;
  kheap_ram : Z -> Prop;
}.
#[local] Existing Instances kheap_gen kheap_var.

Definition byte_map (F : bmem) : Prop := map_Forall (fun _ b => 0 <= b < 256) F.

Section inv.
Context `{!kheapGS Sg}.

(** The bytes [F] are those of free memory. *)
Definition free_bytes (mb : memblock) (F : bmem) : Prop :=
  byte_map F /\ forall x, is_Some (F !! x) <-> free_byte mb (x - LINER_MAP_OFFSET).

Definition alloc_inv (mb : memblock) : iProp Sg :=
  ghost_var kheap_name (1/2) mb ∗ ⌜alloc_ok mb /\ same_set (covers (memory mb)) kheap_ram⌝
  ∗ ∃ F, ⌜free_bytes mb F⌝ ∗ [∗ map] x ↦ b ∈ F, pointsto x (DfracOwn 1) b.

#[global] Instance kheap_kobj : kobjGS Sg := KobjGS Sg kheap_gen alloc_inv.

Definition heap_is (mb : memblock) : iProp Sg := ghost_var kheap_name (1/2) mb.

End inv.

(** ** Bytes and words *)

Section bytes.
Context `{!kobjGS Sg}.

Definition own_bytes (a : Z) (l : list Z) : iProp Sg :=
  [∗ list] i ↦ b ∈ l, pointsto (a + Z.of_nat i) (DfracOwn 1) b.

Lemma own_bytes_cons a b l : own_bytes a (b :: l) ⊣⊢ pointsto a (DfracOwn 1) b ∗ own_bytes (a + 1) l.
Proof.
  unfold own_bytes. rw big_sepL_cons. replace (a + Z.of_nat 0) with a by lia.
  f_equiv. apply big_sepL_proper. intros i y _. by replace (a + Z.of_nat (S i)) with (a + 1 + Z.of_nat i) by lia.
Qed.

Lemma own_bytes_app l1 : forall a l2, own_bytes a (l1 ++ l2) ⊣⊢ own_bytes a l1 ∗ own_bytes (a + len l1) l2.
Proof.
  induction l1 as [| b l1 IH]; intros a l2.
  - simpl. rw Z.add_0_r. iSplit; [iIntros "$"; by unfold own_bytes | iIntros "[_ $]"].
  - cbn [app]. rw !own_bytes_cons IH. replace (a + len (b :: l1)) with (a + 1 + len l1) by (simpl; lia).
    by rw assoc.
Qed.

(** A block of bytes taken out of a map. *)
Lemma take_bytes n : forall a (F : bmem), (forall x, a <= x < a + Z.of_nat n -> is_Some (F !! x)) -> byte_map F ->
  ([∗ map] x ↦ b ∈ F, pointsto x (DfracOwn 1) b) ⊢
  ∃ l F', ⌜length l = n /\ byte_list l /\ byte_map F'
      /\ forall x, is_Some (F' !! x) <-> is_Some (F !! x) /\ ~ (a <= x < a + Z.of_nat n)⌝
    ∗ own_bytes a l ∗ [∗ map] x ↦ b ∈ F', pointsto x (DfracOwn 1) b.
Proof.
  induction n as [| n IH]; intros a F HF Hb.
  { iIntros "H". iExists [], F. iFrame "H". iSplit; [| by unfold own_bytes].
    iPureIntro. split; [done |]. split; [constructor |]. split; [done |]. intros x. split; [intros ?; split; [done | lia] | tauto]. }
  destruct (HF a ltac:(lia)) as [b Ha]. rw (big_sepM_delete _ _ _ _ Ha). iIntros "[Hx H]".
  assert (HF' : forall x, a + 1 <= x < a + 1 + Z.of_nat n -> is_Some (delete a F !! x)).
  { intros x Hx. rw lookup_delete_ne; [| lia]. apply HF. lia. }
  rw (IH (a + 1) (delete a F) HF'); [| by apply map_Forall_delete].
  iDestruct "H" as (l F' (Hl & Hbl & Hb' & Hdom)) "[Hl H]". iExists (b :: l), F'. iFrame "H".
  rw own_bytes_cons. iFrame. iPureIntro. split; [simpl; lia |]. split; [constructor; [by apply (Hb a) | done] |].
  split; [done |]. intros x. rw Hdom. destruct (decide (x = a)) as [-> | Hne].
  - rw lookup_delete_eq. split; [by intros [[? ?] _] | intros [_ ?]; lia].
  - rw lookup_delete_ne; [| done]. split; intros [? ?]; (split; [done | lia]).
Qed.

(** A block of bytes put into a map. *)
Lemma put_bytes l : forall a (F : bmem), byte_list l -> byte_map F ->
  own_bytes a l -∗ ([∗ map] x ↦ b ∈ F, pointsto x (DfracOwn 1) b) -∗
  ∃ F', ⌜byte_map F' /\ forall x, is_Some (F' !! x) <-> is_Some (F !! x) \/ a <= x < a + len l⌝
    ∗ [∗ map] x ↦ b ∈ F', pointsto x (DfracOwn 1) b.
Proof.
  induction l as [| b l IH]; intros a F Hbl Hb.
  { iIntros "_ H". iExists F. iFrame "H". iPureIntro. split; [done |]. intros x. simpl. split; [tauto | intros [? | ?]; [done | lia]]. }
  inversion Hbl as [| ? ? Hbb Hbl']; subst. rw own_bytes_cons. iIntros "[Hx Hl] H".
  iDestruct (IH (a + 1) F Hbl' Hb with "Hl H") as (F' (Hb' & Hdom)) "H".
  iAssert (⌜F' !! a = None⌝)%I as %Ha.
  { destruct (F' !! a) as [y |] eqn:Ey; [| done]. iDestruct (big_sepM_lookup with "H") as "Hy"; [exact Ey |].
    iCombine "Hx Hy" gives %[Hv _]. done. }
  iExists (<[a:=b]> F'). rw big_sepM_insert; [| done]. iFrame. iPureIntro. split; [by apply map_Forall_insert_2 |].
  intros x. destruct (decide (x = a)) as [-> | Hne].
  - rw lookup_insert_eq. split; [intros _; right; simpl; lia | by eexists].
  - rw lookup_insert_ne; [| done]. rw Hdom. simpl. split; (intros [? | ?]; [by left | right; lia]).
Qed.

Lemma le_val_range l : byte_list l -> 0 <= le_val l < 256 ^ len l.
Proof.
  induction 1 as [| b l Hb _ IH]; [done |]. cbn [le_val length]. rw Nat2Z.inj_succ Z.pow_succ_r; lia.
Qed.

Lemma le_list_val l : byte_list l -> length l = 8%nat -> le_list 8 (le_val l) = l /\ 0 <= le_val l < 2 ^ 64.
Proof.
  intros Hb Hl. pose proof (le_val_range l Hb) as Hr. rw Hl in Hr. change (256 ^ Z.of_nat 8) with (2 ^ 64) in Hr.
  split; [| done]. destruct (le_list_spec 8 (le_val l) Hr) as (H1 & H2 & H3).
  apply le_val_inj; [by rw H2 Hl | done | done | done].
Qed.

(** Consecutive words. *)
Fixpoint word_list (a : Z) (vs : list Z) : list (Z * Z) :=
  match vs with [] => [] | v :: vs' => (a, v) :: word_list (a + 8) vs' end.

Lemma word_list_app vs1 : forall a vs2, word_list a (vs1 ++ vs2) = word_list a vs1 ++ word_list (a + 8 * len vs1) vs2.
Proof.
  induction vs1 as [| v vs1 IH]; intros a vs2; cbn [app word_list]; [simpl; by rw Z.add_0_r |].
  rw IH. do 3 f_equal. simpl. lia.
Qed.

Lemma pts_bytes a v : pts a v ⊣⊢ ⌜0 <= v < 2 ^ 64⌝ ∗ own_bytes a (le_list 8 v).
Proof. done. Qed.

Lemma bytes_words n : forall a l, length l = (8 * n)%nat -> byte_list l ->
  own_bytes a l ⊢ ∃ vs, ⌜length vs = n⌝ ∗ own_words (word_list a vs).
Proof.
  induction n as [| n IH]; intros a l Hl Hb.
  { iIntros "_". iExists []. iSplit; [done |]. by iApply big_sepL_nil. }
  rw -(take_drop 8 l) in Hb |- *. apply Forall_app in Hb as [Hb1 Hb2]. rw own_bytes_app.
  assert (H8 : length (take 8 l) = 8%nat) by (rw length_take; lia).
  iIntros "[H1 H2]". rw H8. rw (IH _ (drop 8 l)); [| rw length_drop; lia | done].
  iDestruct "H2" as (vs Hvs) "H2". iExists (le_val (take 8 l) :: vs). iSplit; [iPureIntro; simpl; lia |].
  cbn [word_list]. rw own_words_cons. destruct (le_list_val _ Hb1 H8) as [E Hr].
  iSplitL "H1"; [| done]. cbn [fst snd]. rw pts_bytes E. by iFrame.
Qed.

Lemma words_bytes vs : forall a, own_words (word_list a vs) ⊢
  ∃ l : list Z, ⌜(len l = 8 * len vs)%Z /\ byte_list l⌝ ∗ own_bytes a l.
Proof.
  induction vs as [| v vs IH]; intros a; cbn [word_list].
  { iIntros "_". iExists []. iSplit; [iPureIntro; split; [done | constructor] | by unfold own_bytes]. }
  rw own_words_cons IH pts_bytes. iIntros "[[%Hv Hw] (%l & (%Hl & %Hb) & H)]". cbn [fst snd] in *.
  destruct (le_list_spec 8 v Hv) as (_ & H2 & H3). iExists (le_list 8 v ++ l). iSplit.
  - iPureIntro. rw length_app H2. split; [simpl length; lia | by apply Forall_app].
  - rw own_bytes_app H2. iFrame.
Qed.

End bytes.

(** ** [kmalloc] and [kfree] *)

(** The object at [p] is in the block of the heap at [pa], with [k] words
    after it. *)
Record in_block (ram : Z -> Prop) (size p pa : Z) (k : nat) : Prop := {
  ib_addr : p = pa + LINER_MAP_OFFSET + REGION_HDR;
  ib_range : 0 < pa /\ pa + REGION_HDR + kmalloc_buf_size size <= 2 ^ 47;
  ib_align : pa mod SMP_CACHE_BYTES = 0;
  ib_rest : size + 8 * Z.of_nat k = kmalloc_buf_size size;
  ib_ram : forall a, block pa (REGION_HDR + kmalloc_buf_size size) a -> ram a;
}.

Section alloc.
Context `{!kheapGS Sg}.

(** What belongs to an allocated object beside its own words: the header and
    the rest of the buffer. *)
Definition slack (size p : Z) : iProp Sg :=
  ∃ pa v vs, ⌜in_block kheap_ram size p pa (length vs)⌝
    ∗ pts (p - 16) (kmalloc_buf_size size) ∗ pts (p - 8) v ∗ own_words (word_list (p + size) vs).

Lemma kmalloc_logic size mb mb' (Phi : Z -> iProp Sg) :
  0 < size < 2 ^ 31 -> size mod 8 = 0 -> kmalloc_buf_size size mod 8 = 0 -> mb_take size mb = Some mb' ->
  heap_is mb -∗
  (∀ (p : Z) (vs : list Z), ⌜(8 * len vs = size)%Z⌝ -∗ heap_is mb' -∗ slack size p -∗ own_words (word_list p vs) -∗ Phi p) -∗
  wp (kmalloc_prog size) Phi.
Proof.
  iIntros (Hs Hs8 Hb8 Ht) "Hh HP". unfold wp, interp. iIntros (h) "[Hm (Hg & (%Ha & %Hram) & (%F & (%Hb & %HF) & HFm))]".
  iDestruct (ghost_var_agree with "Hg Hh") as %Hmb. rw Hmb in Ha, HF, Hram |- *.
  iDestruct (rest_valid with "Hm HFm") as %Hsub.
  destruct (kmalloc_take h size mb') as (pa & E & P1 & P2 & P3 & P4 & S1 & S2 & Ha'); [by rw Hmb | | done | by rw Hmb |].
  { rw Hmb. intros a Hfree. destruct (proj2 (HF (a + LINER_MAP_OFFSET))) as [y Hy].
    - by replace (a + LINER_MAP_OFFSET - LINER_MAP_OFFSET) with a by lia.
    - exists y. by eapply lookup_weaken. }
  set (buf := kmalloc_buf_size size) in *. rw Hmb in P4, S1, S2.
  assert (Hbuf : size < buf).
  { unfold buf. rw kmalloc_buf_size_spec; [| done]. pose proof (kmalloc_align_spec size Hs) as (_ & ? & _). lia. }
  set (R := pa + LINER_MAP_OFFSET) in *. set (n := Z.to_nat ((16 + buf) / 8)).
  assert (Hn : 8 * Z.of_nat n = 16 + buf).
  { assert ((16 + buf) mod 8 = 0) by (replace (16 + buf) with (buf + 2 * 8) by lia; by rw Z.mod_add).
    unfold n. pose proof (Z.div_mod (16 + buf) 8). rw Z2Nat.id; lia. }
  change (@kheap_gen Sg kheapGS0) with (@kobj_gen Sg kheap_kobj).
  iDestruct (take_bytes (8 * n) R F with "HFm") as (l F' (Hl & Hbl & Hb' & HF')) "[Hl HFm]"; [| done |].
  { intros x Hx. apply HF, P4. unfold block, REGION_HDR, R in *. lia. }
  iDestruct (bytes_words n with "Hl") as (vs Hvs) "Hw"; [done | done |].
  destruct vs as [| h0 [| h1 us]]; [simpl in Hvs; lia.. |]. simpl in Hvs.
  set (k := Z.to_nat (size / 8)). assert (Hk : 8 * Z.of_nat k = size).
  { unfold k. pose proof (Z.div_mod size 8). rw Z2Nat.id; lia. }
  assert (Htk : length (take k us) = k) by (rw length_take; lia).
  rw -(take_drop k us). cbn [word_list]. rw !own_words_cons word_list_app own_words_app Htk Hk.
  iDestruct "Hw" as "(H0 & H1 & Hobj & Hrest)". cbn [fst snd].
  iEval (rw pts_bytes) in "H0". iDestruct "H0" as "[_ H0]". unfold own_bytes.
  iDestruct (bytes_valid with "Hm H0") as %Hcells.
  iMod (bytes_update _ (le_list 8 buf) with "Hm H0") as "[Hm H0]"; [done |].
  iMod (ghost_var_update_halves mb' with "Hg Hh") as "[Hg Hh]". iModIntro.
  iExists _, _. iSplit; [iPureIntro; split; [exact E |]; by apply (same_dom_blit _ _ _ (le_list 8 h0)) |]. cbn [kh_mb kh_mem]. iFrame "Hm". iSplitL "Hg HFm".
  - iFrame "Hg". iSplit.
    { iPureIntro. split; [done |]. intros a. rw (S1 a). apply Hram. }
    iExists F'. iFrame. iPureIntro. split; [done |]. intros x. rw HF' HF. unfold free_byte.
    rw (S1 _) (S2 _). unfold block, REGION_HDR, R. replace (Z.of_nat (8 * n)) with (16 + buf) by lia.
    split; [intros [[? ?] ?]; split; [done |]; intros [?|?]; [done | lia] | intros [? Hn']; split; [split; [done | tauto] |]].
    intros ?. apply Hn'. right. lia.
  - replace (R + 8 + 8) with (R + REGION_HDR) by (unfold REGION_HDR; lia).
    iApply ("HP" with "[] Hh [H0 H1 Hrest] Hobj"); [iPureIntro; by rw Htk |].
    iExists pa, h1, (drop k us). replace (R + REGION_HDR - 16) with R by (unfold REGION_HDR; lia).
    replace (R + REGION_HDR - 8) with (R + 8) by (unfold REGION_HDR; lia). rw (pts_bytes R). iFrame.
    iPureIntro. split.
    + split; [done | done | done | |]; [rw length_drop; fold buf; lia |].
      intros a Hab. apply Hram. by apply P4.
    + unfold buf. rw kmalloc_buf_size_spec; [| done]. pose proof (kmalloc_align_spec size Hs) as (_ & ? & ?). lia.
Qed.

(** The allocator after [kfree p]. *)
Definition freed (size p : Z) (mb mb' : memblock) : Prop :=
  memblock_phys_free dbl_array mb (p - REGION_HDR - LINER_MAP_OFFSET) (REGION_HDR + kmalloc_buf_size size)
    = Done (0, mb').

Lemma kfree_logic size mb p vs (Phi : unit -> iProp Sg) :
  0 < size < 2 ^ 31 -> 8 * len vs = size -> (tcnt (reserved mb) + 2 <= tmax (reserved mb))%nat ->
  heap_is mb -∗ slack size p -∗ own_words (word_list p vs) -∗
  (∀ mb', ⌜freed size p mb mb'⌝ -∗ heap_is mb' -∗ Phi tt) -∗
  wp (kfree_prog p) Phi.
Proof.
  iIntros (Hs Hvs Hroom) "Hh (%pa & %v & %us & %Hib & H0 & H1 & Hrest) Hobj HP". destruct Hib as [Hp [B1 B2] B3 B4 B5].
  unfold wp, interp. iIntros (h) "[Hm (Hg & (%Ha & %Hram) & (%F & (%Hb & %HF) & HFm))]".
  iDestruct (ghost_var_agree with "Hg Hh") as %Hmb. rw Hmb in Ha, HF, Hram |- *.
  change (@kheap_gen Sg kheapGS0) with (@kobj_gen Sg kheap_kobj).
  set (buf := kmalloc_buf_size size) in *. set (R := pa + LINER_MAP_OFFSET) in *.
  assert (Hbuf : 0 <= buf < 2 ^ 34).
  { unfold buf. rw kmalloc_buf_size_spec; [| done]. pose proof (kmalloc_align_spec size Hs) as (_ & ? & ?). lia. }
  assert (E0 : p - 16 = R) by (rw Hp; unfold REGION_HDR; lia). assert (E1 : p - 8 = R + 8) by lia. rw E0 E1.
  iAssert (⌜cells (kh_mem h) R (le_list 8 buf)⌝)%I as %Hc.
  { iEval (rw pts_bytes) in "H0". iDestruct "H0" as "[_ H0]". iApply (bytes_valid with "Hm H0"). }
  destruct (kfree_run h pa buf) as (mb' & E & Ef & I & T1 & T2 & S1 & S2); [by rw Hmb | lia | done | done | done | by rw Hmb |].
  fold R in E. rw -Hp in E. rw Hmb in Ef, T1, T2, S1, S2.
  iAssert (own_words (word_list R (buf :: v :: vs ++ us))) with "[H0 H1 Hobj Hrest]" as "Hw".
  { cbn [word_list]. rw !own_words_cons word_list_app own_words_app. cbn [fst snd]. rw Hvs.
    replace (R + 8 + 8) with p by lia. iFrame. }
  iDestruct (words_bytes with "Hw") as (l (Hl & Hbl)) "Hw".
  iDestruct (put_bytes with "Hw HFm") as (F' (Hb' & HF')) "HFm"; [done | done |].
  iMod (ghost_var_update_halves mb' with "Hg Hh") as "[Hg Hh]". iModIntro.
  iExists tt, (mkHeap mb' (kh_mem h)). iSplit; [iPureIntro; split; [unfold kfree_prog; by rw E | by intros ?] |].
  cbn [kh_mb kh_mem]. iFrame "Hm". iSplitL "Hg HFm".
  - iFrame "Hg". iSplit.
    { iPureIntro. split; [| intros a; rw (S1 a); apply Hram]. destruct Ha as [A1 A2 A3].
      split; [done | by rw T1 T2 |]. intros a Hin. apply S1 in Hin. by apply A3. }
    iExists F'. iFrame. iPureIntro. split; [done |]. intros x. rw HF' HF. unfold free_byte. rw (S1 _) (S2 _).
    assert (Hlen : len l = 16 + buf). { rw Hl. simpl length. rw length_app. lia. }
    rw Hlen. assert (Hx : R <= x < R + (16 + buf) <-> block pa (REGION_HDR + buf) (x - LINER_MAP_OFFSET))
      by (unfold block, REGION_HDR, R; lia).
    rw Hx. split.
    + intros [[? ?] | Hin]; [tauto |]. split; [apply Hram; by apply B5 | tauto].
    + intros [? ?]. destruct (decide (block pa (REGION_HDR + buf) (x - LINER_MAP_OFFSET))); [by right | left; tauto].
  - iApply ("HP" with "[] Hh"). iPureIntro. unfold freed. fold buf.
    replace (p - REGION_HDR - LINER_MAP_OFFSET) with pa by lia. done.
Qed.

End alloc.

(** ** From the logic to the heap *)

#[export] Instance covered_dec l a : Decision (covered l a).
Proof. induction l as [| r l IH]; simpl; [right; tauto | apply _]. Defined.
#[export] Instance covers_dec t a : Decision (covers t a) := covered_dec _ _.
#[export] Instance free_byte_dec mb a : Decision (free_byte mb a) := _.

Definition free_room (h : kheap) (ws : list (Z * Z)) : Prop := forall a, free_byte (kh_mb h) a ->
  off_words ws (a + LINER_MAP_OFFSET) /\ exists b, kh_mem h !! (a + LINER_MAP_OFFSET) = Some b /\ 0 <= b < 256.

(** The words [ws] are in the heap, outside free memory; free memory is
    mapped and the allocator is sound. *)
Record heap_holds (h : kheap) (ws : list (Z * Z)) : Prop := {
  hh_alloc : alloc_ok (kh_mb h);
  hh_words : words (kh_mem h) ws;
  hh_free : free_room h ws;
}.

Definition free_map (h : kheap) : bmem :=
  filter (fun p => free_byte (kh_mb h) (p.1 - LINER_MAP_OFFSET)) (kh_mem h).

Lemma free_map_ok h ws : heap_holds h ws -> free_bytes (kh_mb h) (free_map h).
Proof.
  intros [_ _ Hf]. split.
  - intros x b Hx. apply map_lookup_filter_Some in Hx as [Hx Hfree]. cbn [fst] in Hfree.
    destruct (Hf _ Hfree) as (_ & b' & Hb & Hr). rw Z.sub_add in Hb. rw Hx in Hb. by injection Hb as <-.
  - intros x. split.
    + intros [b Hx]. apply map_lookup_filter_Some in Hx as [_ Hfree]. exact Hfree.
    + intros Hfree. destruct (Hf _ Hfree) as (_ & b & Hb & _). rw Z.sub_add in Hb.
      exists b. by apply map_lookup_filter_Some.
Qed.

Lemma free_map_off h ws : heap_holds h ws -> free_map h ##ₘ word_image ws.
Proof.
  intros Hh. apply map_disjoint_spec. intros x b c Hx Hw.
  apply map_lookup_filter_Some in Hx as [_ Hfree]. cbn [fst] in Hfree.
  destruct (hh_free _ _ Hh _ Hfree) as [Hoff _]. rw Z.sub_add in Hoff.
  by rw (word_image_off _ _ Hoff) in Hw.
Qed.

Lemma byte_apart `{!kobjGS Sg} a b w v :
  pointsto a (DfracOwn 1) b -∗ pts w v -∗ ⌜a < w \/ w + 8 <= a⌝.
Proof.
  rw pts_bytes. iIntros "Ha [_ Hw]". destruct (decide (a < w \/ w + 8 <= a)) as [| Hn]; [done |].
  destruct (lookup_lt_is_Some_2 (le_list 8 v) (Z.to_nat (a - w))) as [y Hy]; [rw length_le_list; lia |].
  unfold own_bytes. iDestruct (big_sepL_lookup with "Hw") as "Hw"; [exact Hy |].
  replace (w + Z.of_nat (Z.to_nat (a - w))) with a by lia. iCombine "Ha Hw" gives %[Hv _]. done.
Qed.

Lemma free_room_own `{!kobjGS Sg} h ws F : free_bytes (kh_mb h) F ->
  gen_heap_interp (kh_mem h) -∗ ([∗ map] x ↦ b ∈ F, pointsto x (DfracOwn 1) b) -∗ own_words ws -∗
  ⌜free_room h ws⌝.
Proof.
  iIntros ([Hb HF]) "Hm HFm Hw". iIntros (a Hfree). destruct (proj2 (HF (a + LINER_MAP_OFFSET))) as [b HFa].
  { by replace (a + LINER_MAP_OFFSET - LINER_MAP_OFFSET) with a by lia. }
  iDestruct (big_sepM_lookup with "HFm") as "Hx"; [exact HFa |]. iSplit.
  - unfold off_words. rw Forall_forall. iIntros (w Hwin). unfold own_words.
    iDestruct (big_sepL_elem_of with "Hw") as "Hw"; [exact Hwin |]. iApply (byte_apart with "Hx Hw").
  - iDestruct (gen_heap_valid with "Hm Hx") as %Hv. iPureIntro. exists b. split; [done |]. by apply (Hb _ _ HFa).
Qed.

(** A program proved correct with the allocator, on every heap that holds
    what it needs. *)
Lemma heap_adequate {A} (c : kprog A) (ws : list (Z * Z)) (Q : A -> memblock -> list (Z * Z) -> Prop) h :
  (forall Sg `{!kheapGS Sg}, kheap_ram = covers (memory (kh_mb h)) ->
    heap_is (kh_mb h) -∗ own_words ws -∗
    wp c (fun x => ∃ mb' ws', ⌜Q x mb' ws'⌝ ∗ heap_is mb' ∗ own_words ws')) ->
  heap_holds h ws ->
  exists x h' ws', c h = Done (x, h') /\ Q x (kh_mb h') ws' /\ heap_holds h' ws'
    /\ same_set (covers (memory (kh_mb h'))) (covers (memory (kh_mb h)))
    /\ same_dom h h'
    /\ forall a, off_words ws a -> ~ free_byte (kh_mb h) (a - LINER_MAP_OFFSET) -> kh_mem h' !! a = kh_mem h !! a.
Proof.
  intros Hc Hh. pose proof Hh as [Ha Hws Hf].
  apply (@pure_soundness (iProp #[gen_heapΣ Z Z; ghost_varΣ memblock]) _).
  apply (uPred.bupd_soundness _).
  iMod (gen_heap_init (kh_mem h)) as (HG) "(Hm & Hp & _)".
  iMod (ghost_var_alloc (kh_mb h)) as (g) "[Hg1 Hg2]".
  pose (HK := KheapGS _ HG _ g (covers (memory (kh_mb h)))).
  pose proof (word_image_sub _ _ Hws) as Hs1. pose proof (free_map_off h ws Hh) as Hd.
  assert (Hs2 : free_map h ⊆ kh_mem h) by apply map_filter_subseteq.
  assert (Hs3 : free_map h ∪ word_image ws ⊆ kh_mem h) by (by apply map_union_least).
  iDestruct (big_sepM_subseteq _ _ ((free_map h ∪ word_image ws)
    ∪ (kh_mem h ∖ (free_map h ∪ word_image ws))) with "Hp") as "Hp".
  { by rw map_difference_union. }
  iDestruct (big_sepM_union with "Hp") as "[Hw Hr]"; [by apply map_disjoint_difference_r1 |].
  iDestruct (big_sepM_union with "Hw") as "[Hfree Hw]"; [done |].
  iDestruct (@word_image_own _ (@kheap_kobj _ HK) _ _ Hws with "Hw") as "Hw".
  iDestruct (Hc _ HK eq_refl with "Hg2 Hw") as "Hc". unfold wp.
  iMod ("Hc" $! h with "[Hm Hg1 Hfree]") as (x h') "([%E %U] & Hi & (%mb' & %ws' & %HQ & Hh & Hw))".
  { unfold interp. iSplitL "Hm"; [iExact "Hm" |]. iSplitL "Hg1"; [iExact "Hg1" |]. iSplit; [done |].
    iExists (free_map h). iSplit; [iPureIntro; by eapply free_map_ok |]. iExact "Hfree". }
  iDestruct (own_words_valid with "Hi Hw") as %Hws'. unfold interp.
  iDestruct "Hi" as "[Hm (Hg & (%Ha' & %Hram) & (%F & (%Hb & %HF) & HFm))]".
  iDestruct (ghost_var_agree with "Hg Hh") as %Hmb. iDestruct (rest_valid with "Hm Hr") as %Hsub.
  iAssert (⌜free_room h' ws'⌝)%I as %Hf'.
  { iApply (free_room_own with "Hm HFm Hw"). by split. }
  iModIntro. iPureIntro. exists x, h', ws'. rw -Hmb in HQ. split; [done |]. split; [done |].
  split; [done |]. split; [done |]. split; [done |].
  intros a Hoff Hnf. destruct (kh_mem h !! a) as [b |] eqn:Hab; [| by apply U]. eapply lookup_weaken; [| exact Hsub].
  apply lookup_difference_Some. split; [done |]. apply lookup_union_None. split; [| by apply word_image_off].
  apply map_lookup_filter_None. right. intros b' _. exact Hnf.
Qed.
