(* ===== verification/VmapAlloc.v ===== *)
(** * Allocating and releasing ranges of kernel addresses

    [va_clip], [va_alloc] and [__alloc_vmap_area]: a request takes its range
    out of the lowest free area it fits in; what is left of the area stays
    free.  The nodes are objects of the kernel heap. *)

From iris.proofmode Require Import proofmode.
From iris.base_logic.lib Require Import gen_heap.
From S2P Require Import Prelude Memblock MemblockArray CString CStringSpec Kmalloc Kobj KobjLogic KobjAlloc.
From S2P Require Import Rbtree RbTrees RbtreeSpec RbtreeErase VmapArea VmapAug VmapTree VmapList VmapSpace.
From S2P Require Import VmapSearch VmapFree.

Section alloc.
Context `{!kheapGS Sg}.

(** ** Areas as objects of the heap *)

Definition va_slack (x : Z) : iProp Sg := slack SIZEOF_VA (va_of_rb x).
Definition slacks (ks : list (Z * (Z * Z))) : iProp Sg := [∗ list] k ∈ ks, va_slack k.1.

Lemma slacks_cons k ks : slacks (k :: ks) ⊣⊢ va_slack k.1 ∗ slacks ks.
Proof. apply big_sepL_cons. Qed.

Lemma slacks_app k1 k2 : slacks (k1 ++ k2) ⊣⊢ slacks k1 ∗ slacks k2.
Proof. apply big_sepL_app. Qed.

(** The nine words of an area. *)
Lemma area_image x s e u1 u2 u3 w1 w2 m f :
  word_list (va_of_rb x) [s; e; u1; u2; u3; w1; w2; m; f]
  = [(va_of_rb x, s); (va_of_rb x + 8, e); (x, u1); (x + rb_offset RIGHT, u2); (x + rb_offset LEFT, u3);
     (entry x, w1); (entry x + 8, w2); (va_of_rb x + VA_SUB, m); (va_of_rb x + VA_FLAGS, f)].
Proof.
  cbn [word_list]. unfold entry, va_of_rb, rb_offset, VA_RB, VA_LIST, VA_SUB, VA_FLAGS.
  repeat (apply f_equal2; [apply f_equal2; [lia | done] |]). done.
Qed.

Lemma loose_words {A} `{!Aug A, !AugOps A, !AreaData A} x (a : A) : loose x a -∗
  ∃ vs, ⌜(8 * len vs = SIZEOF_VA)%Z⌝ ∗ own_words (word_list (va_of_rb x) vs).
Proof.
  iIntros "(_ & (%u1 & %u2 & %u3 & U1 & U2 & U3 & Up) & %w1 & %w2 & L1 & L2)". rw pay_key.
  iDestruct "Up" as "(P1 & P2 & P3 & P4)".
  iExists [(a_key a).1; (a_key a).2; u1; u3; u2; w1; w2; ar_sub (area_of a); ar_flags (area_of a)].
  iSplit; [done |]. rw area_image !own_words_cons. cbn [fst snd]. iFrame. by iApply big_sepL_nil.
Qed.

Lemma block_ptr ram size p pa k : in_block ram size p pa k -> ptr_ok (p + VA_RB) /\ p <> 0.
Proof.
  intros [-> [H1 H2] H3 _ _]. unfold ptr_ok, aligned, VA_RB, REGION_HDR, SMP_CACHE_BYTES in *.
  assert (0 <= kmalloc_buf_size size) by (unfold kmalloc_buf_size; apply u64_range).
  change LINER_MAP_OFFSET with (2 ^ 64 - 2 ^ 48 - 0x40000000). apply Z.mod_divide in H3 as [q ->]; [| done]. split; [split; [lia |] | lia]. split; [lia |].
  replace (q * 64 + (2 ^ 64 - 2 ^ 48 - 0x40000000) + 16 + 16)
    with ((q * 8 + (2 ^ 61 - 2 ^ 45 - 0x8000000 + 4)) * 8) by lia. apply Z_mod_mult.
Qed.

(** A new area from the heap: its words hold anything. *)
Lemma kmalloc_va_spec mb mb' (Phi : Z -> iProp Sg) : mb_take SIZEOF_VA mb = Some mb' ->
  heap_is mb -∗
  (∀ x s e u1 u2 u3 w1 w2 m f, ⌜ptr_ok x /\ va_of_rb x <> 0⌝ -∗ heap_is mb' -∗ va_slack x -∗
     own_words (word_list (va_of_rb x) [s; e; u1; u2; u3; w1; w2; m; f]) -∗ Phi (va_of_rb x)) -∗
  wp (kmalloc_prog SIZEOF_VA) Phi.
Proof.
  iIntros (Ht) "Hh HP". iApply (kmalloc_logic with "Hh"); [done | done | done | done |].
  iIntros (p vs Hvs) "Hh Hs Hw". change SIZEOF_VA with (8 * 9) in Hvs.
  assert (Hl : length vs = 9%nat) by lia.
  do 9 (destruct vs as [| ? vs]; [done |]). destruct vs; [| done].
  iAssert (⌜ptr_ok (p + VA_RB) /\ p <> 0⌝)%I as %Hp.
  { iDestruct "Hs" as (pa v us Hib) "_". iPureIntro. by eapply block_ptr. }
  assert (Hx : va_of_rb (p + VA_RB) = p) by (unfold va_of_rb; lia).
  iSpecialize ("HP" $! (p + VA_RB)). unfold va_slack. rw Hx. iApply ("HP" with "[//] Hh Hs Hw").
Qed.

Lemma area_loose x s e u1 u2 u3 w1 w2 m f : ptr_ok x -> va_of_rb x <> 0 ->
  own_words (word_list (va_of_rb x) [s; e; u1; u2; u3; w1; w2; m; f]) ⊢ loose x (mkA s e m f).
Proof.
  iIntros (Hx Hx0). rw area_image !own_words_cons. cbn [fst snd].
  iIntros "(P1 & P2 & U1 & U2 & U3 & L1 & L2 & P3 & P4 & _)". iSplit; [done |].
  iSplitR "L1 L2"; [| iExists _, _; iFrame]. iExists _, _, _. iFrame "U1 U2 U3". rw pay_area. iFrame.
Qed.

(** The same words in a tree of areas in use. *)
Lemma loose_busy x (a : area) : loose x a ⊣⊢ loose x (mkB a).
Proof. done. Qed.

Lemma kfree_va_spec {A} `{!Aug A, !AugOps A, !AreaData A} mb x (a : A) (Phi : unit -> iProp Sg) :
  (tcnt (reserved mb) + 2 <= tmax (reserved mb))%nat ->
  heap_is mb -∗ va_slack x -∗ loose x a -∗
  (∀ mb', ⌜freed SIZEOF_VA (va_of_rb x) mb mb'⌝ -∗ heap_is mb' -∗ Phi tt) -∗
  wp (kfree_prog (va_of_rb x)) Phi.
Proof.
  iIntros (Hr) "Hh Hs Hl HP". iDestruct (loose_words with "Hl") as (vs Hvs) "Hw".
  iApply (kfree_logic with "Hh Hs Hw HP"); [done | done | done].
Qed.

(** ** Taking [n, m) out of the free area [s, e) of the node [x] *)

(** What is left; [y] is a new node. *)
Definition carve (x y s e n m : Z) : list (Z * (Z * Z)) :=
  if s =? n then if e =? m then [] else [(x, (m, e))]
  else if e =? m then [(x, (s, n))] else [(y, (s, n)); (x, (m, e))].

(** The allocator can give or take the node. *)
Definition clip_room (mb : memblock) (s e n m : Z) : Prop :=
  if s =? n then if e =? m then (tcnt (reserved mb) + 2 <= tmax (reserved mb))%nat else True
  else if e =? m then True else is_Some (mb_take SIZEOF_VA mb).

Definition clip_step (x : Z) (mb mb' : memblock) (s e n m : Z) : Prop :=
  if s =? n then if e =? m then freed SIZEOF_VA (va_of_rb x) mb mb' else mb' = mb
  else if e =? m then mb' = mb else mb_take SIZEOF_VA mb = Some mb'.

Lemma free_range root head ks : free_space root head ks -∗ ⌜in_range ks⌝.
Proof.
  iIntros "(%t & %n & (<- & _) & _ & _ & Ht & _)". iApply (tree_range with "Ht").
Qed.

Lemma ordered_resize k1 x s e s' e' k2 : ordered (k1 ++ (x, (s, e)) :: k2) -> s <= s' -> s' < e' -> e' <= e ->
  ordered (k1 ++ (x, (s', e')) :: k2).
Proof.
  rw !ordered_app !ordered_cons. unfold key_before. cbn [fst snd]. intros (H1 & (H2 & H3 & H4) & H5) ? ? ?.
  split; [done |]. split; [split; [done |]; split; [done |]; intros k Hk; specialize (H4 k Hk); lia |].
  intros k k' Hk Hk'. apply elem_of_cons in Hk' as [-> | Hk'].
  - specialize (H5 k (x, (s, e)) Hk ltac:(by left)). simpl in *. lia.
  - apply H5; [done | by right].
Qed.

(** Moving a bound of a free area. *)
Lemma resize_spec {B} root head k1 x s e s' e' k2 (c : kprog unit) (K : kprog B) (Phi : B -> iProp Sg) :
  s <= s' -> s' < e' -> e' <= e ->
  (forall m f (Psi : unit -> iProp Sg), pay x (mkA s e m f) -∗ (pay x (mkA s' e' m f) -∗ Psi tt) -∗ wp c Psi) ->
  free_space root head (k1 ++ (x, (s, e)) :: k2) -∗
  (free_space root head (k1 ++ (x, (s', e')) :: k2) -∗ wp K Phi) -∗
  wp (c;; augment_tree_propagate_from (va_of_rb x);; K) Phi.
Proof.
  iIntros (H1 H2 H3 Hc) "Hf HP". iDestruct (free_ordered with "Hf") as %Ho.
  iDestruct (free_open with "Hf") as ([s0 e0 m f] Hk) "Hn". cbn in Hk. injection Hk as -> ->.
  iDestruct (free_node_words with "Hn") as "[Hp Hn]". kbind. iApply (Hc with "Hp"). iIntros "Hp".
  iDestruct ("Hn" $! (mkA s' e' m f) with "[//] Hp") as "Hn".
  kbind. iApply (free_propagate_spec with "Hn"); [by eapply ordered_resize |]. iIntros "Hf". by iApply "HP".
Qed.

Lemma set_start_spec x s e m f s' (Psi : unit -> iProp Sg) : 0 <= s' < 2 ^ 64 ->
  pay x (mkA s e m f) -∗ (pay x (mkA s' e m f) -∗ Psi tt) -∗ wp (stw (va_of_rb x) s') Psi.
Proof.
  iIntros (Hs) "Hp HP". rw (pay_area x (mkA s e m f)). iDestruct "Hp" as "(P1 & P2)". cbn [ar_start].
  kstore "P1"; [done |]. iApply "HP". rw (pay_area x (mkA s' e m f)). iFrame.
Qed.

Lemma set_end_spec x s e m f e' (Psi : unit -> iProp Sg) : 0 <= e' < 2 ^ 64 ->
  pay x (mkA s e m f) -∗ (pay x (mkA s e' m f) -∗ Psi tt) -∗ wp (stw (va_of_rb x + 8) e') Psi.
Proof.
  iIntros (Hs) "Hp HP". rw (pay_area x (mkA s e m f)). iDestruct "Hp" as "(P1 & P2 & P3)". cbn [ar_end].
  kstore "P2"; [done |]. iApply "HP". rw (pay_area x (mkA s e' m f)). iFrame.
Qed.

(** Reading the bounds of a free area. *)
Lemma free_bounds root head k1 x key k2 : free_space root head (k1 ++ (x, key) :: k2) -∗
  pts (va_of_rb x) key.1 ∗ pts (va_of_rb x + 8) key.2
  ∗ (pts (va_of_rb x) key.1 -∗ pts (va_of_rb x + 8) key.2 -∗ free_space root head (k1 ++ (x, key) :: k2)).
Proof.
  iIntros "(%t & %n & (%Hi & %Ho & %Hg & %Hr) & Hv)". iDestruct (vtree_bounds with "Hv") as "($ & $ & Hv)"; [exact Hi |].
  iIntros "P1 P2". iExists t, n. iSplit; [done |]. iApply ("Hv" with "P1 P2").
Qed.

Lemma classify_spec root head k1 x s e k2 n size (Phi : fit_type -> iProp Sg) :
  s <= n -> 0 < size -> n + size <= e ->
  free_space root head (k1 ++ (x, (s, e)) :: k2) -∗
  (free_space root head (k1 ++ (x, (s, e)) :: k2) -∗
   Phi (if s =? n then if e =? n + size then FL_FIT_TYPE else LE_FIT_TYPE
        else if e =? n + size then RE_FIT_TYPE else NE_FIT_TYPE)) -∗
  wp (classify_va_fit_type (va_of_rb x) n size) Phi.
Proof.
  iIntros (H1 H2 H3) "Hf HP". iDestruct (free_range with "Hf") as %Hr.
  apply Forall_app in Hr as [_ Hr]. inversion Hr as [| ? ? [R1 R2] _]; subst. cbn [fst snd] in R1, R2.
  iDestruct (free_bounds with "Hf") as "(P1 & P2 & Hf)". cbn [fst snd]. unfold classify_va_fit_type, va_start, va_end.
  kbind. kload "P1". kbind. kload "P2". iApply wp_ret. iDestruct ("Hf" with "P1 P2") as "Hf".
  rw u64_small; [| lia]. rw (proj2 (Z.ltb_ge n s)); [| lia].
  assert ((n + size >? e) = false) as -> by (rw Z.gtb_ltb; apply Z.ltb_ge; lia). by iApply "HP".
Qed.

(** Splitting an area in two: the left rest goes to a new node. *)
Lemma split_spec root head k1 x s e n m k2 y s0 e0 u1 u2 u3 w1 w2 sub fl (Phi : Z -> iProp Sg) :
  s < n -> n < m -> m < e -> ptr_ok y -> va_of_rb y <> 0 ->
  free_space root head (k1 ++ (x, (s, e)) :: k2) -∗
  own_words (word_list (va_of_rb y) [s0; e0; u1; u2; u3; w1; w2; sub; fl]) -∗
  (free_space root head (k1 ++ (y, (s, n)) :: (x, (m, e)) :: k2) -∗ Phi 0) -∗
  wp (s ← va_start (va_of_rb x);
      stw (va_of_rb y) s;;
      stw (va_of_rb y + 8) n;;
      stw (va_of_rb x) m;;
      augment_tree_propagate_from (va_of_rb x);;
      insert_vmap_area_augment (va_of_rb y) (va_of_rb x + VA_RB) root head;;
      mret 0) Phi.
Proof.
  iIntros (H1 H2 H3 Hy Hy0) "Hf Hw HP". iDestruct (free_range with "Hf") as %Hr. iDestruct (free_ordered with "Hf") as %Ho.
  apply Forall_app in Hr as [_ Hr]. inversion Hr as [| ? ? [R1 R2] _]; subst. cbn [fst snd] in R1, R2.
  kbind. iDestruct (free_bounds with "Hf") as "(P1 & P2 & Hf)". cbn [fst snd]. unfold va_start. kload "P1". iDestruct ("Hf" with "P1 P2") as "Hf".
  rw area_image !own_words_cons. cbn [fst snd]. iDestruct "Hw" as "(Y1 & Y2 & Yr)".
  kbind. kstore "Y1"; [lia |]. kbind. kstore "Y2"; [lia |].
  iApply (resize_spec root head k1 x s e m e k2 with "Hf"); [lia | lia | lia | intros; by apply set_start_spec; lia |].
  iIntros "Hf". kbind. rw rb_of_va.
  iApply (insert_before_spec root head k1 x (m, e) k2 y (mkA s n sub fl) with "Hf [Y1 Y2 Yr]"); [done | | |].
  - apply ordered_app in Ho as (O1 & O2 & O3). apply ordered_cons in O2 as (_ & O2 & O4). split; cbn [a_key free_aug ar_start ar_end fst snd].
    + intros k Hk. specialize (O3 k (x, (s, e)) Hk ltac:(by left)). unfold key_before in O3. simpl in O3. lia.
    + intros k Hk. apply elem_of_cons in Hk as [-> | Hk]; [simpl; lia |].
      specialize (O4 k Hk). unfold key_before in O4. simpl in O4. lia.
  - iApply area_loose; [done | done |]. rw area_image !own_words_cons. cbn [fst snd]. iFrame.
  - iIntros "Hf". iApply wp_ret. by iApply "HP".
Qed.

Lemma slacks_mid k1 k k2 : slacks (k1 ++ k :: k2) ⊣⊢ va_slack k.1 ∗ slacks (k1 ++ k2).
Proof. rw !slacks_app slacks_cons. iSplit; iIntros "($ & $ & $)". Qed.

Lemma va_clip_spec preload root head k1 x s e k2 n size mb (Phi : Z -> iProp Sg) :
  let m := n + size in
  s <= n -> 0 < size -> m <= e -> clip_room mb s e n m ->
  heap_is mb -∗ pts preload 0 -∗ free_space root head (k1 ++ (x, (s, e)) :: k2) -∗
  slacks (k1 ++ (x, (s, e)) :: k2) -∗
  (∀ y mb', ⌜clip_step x mb mb' s e n m⌝ -∗ heap_is mb' -∗ pts preload 0 -∗
     free_space root head (k1 ++ carve x y s e n m ++ k2) -∗ slacks (k1 ++ carve x y s e n m ++ k2) -∗ Phi 0) -∗
  wp (va_clip preload root head (va_of_rb x) n size) Phi.
Proof.
  iIntros (m H1 H2 H3 Hroom) "Hh Hpre Hf Hs HP". unfold va_clip. kbind.
  iDestruct (free_range with "Hf") as %Hr. iDestruct (free_ordered with "Hf") as %Ho.
  apply Forall_app in Hr as [_ Hr]. inversion Hr as [| ? ? [R1 R2] _]; subst. cbn [fst snd] in R1, R2.
  iApply (classify_spec with "Hf"); [done.. |]. iIntros "Hf". fold m. unfold clip_room, clip_step, carve in *.
  destruct (Z.eqb_spec s n) as [-> | Hsn], (Z.eqb_spec e m) as [-> | Hem].
  - kbind. iApply (unlink_free_spec with "Hf"). iIntros (a Ha) "Hf Hl". rw slacks_mid. iDestruct "Hs" as "[Hx Hs]".
    kbind. iApply (kfree_va_spec with "Hh Hx Hl"); [done |]. iIntros (mb' Hfr) "Hh". iApply wp_ret.
    iApply ("HP" $! x with "[//] Hh Hpre Hf Hs").
  - kbind. iDestruct (free_bounds with "Hf") as "(P1 & P2 & Hf)". cbn [fst snd]. unfold va_start. kload "P1". iDestruct ("Hf" with "P1 P2") as "Hf". fold m. rw u64_small; [| lia].
    iApply (resize_spec root head k1 x n e m e k2 with "Hf"); [lia | lia | lia | intros; by apply set_start_spec; lia |].
    iIntros "Hf". iApply wp_ret. rw !slacks_mid. iApply ("HP" $! x with "[//] Hh Hpre Hf"). by rw slacks_mid.
  - iApply (resize_spec root head k1 x s m s n k2 with "Hf"); [lia | lia | lia | intros; by apply set_end_spec; lia |].
    iIntros "Hf". iApply wp_ret. rw !slacks_mid. iApply ("HP" $! x with "[//] Hh Hpre Hf"). by rw slacks_mid.
  - destruct Hroom as [mb' Hmb]. kbind. kload "Hpre". kbind. kstore "Hpre"; [done |]. rw Z.eqb_refl.
    kbind. iApply (kmalloc_va_spec with "Hh"); [exact Hmb |].
    iIntros (y s0 e0 u1 u2 u3 w1 w2 sub fl [Hy Hy0]) "Hh Hy Hw". rw (proj2 (Z.eqb_neq _ _) Hy0). fold m.
    rw (u64_small m); [| lia].
    iApply (split_spec root head k1 x s e n m k2 with "Hf Hw"); [lia | lia | lia | done | done |].
    iIntros "Hf". iApply ("HP" $! y with "[//] Hh Hpre Hf"). cbn [app]. rw !slacks_mid. iFrame.
Qed.

(** ** [__alloc_vmap_area] *)

(** A node can be released and another one allocated. *)
Definition va_room (mb : memblock) : Prop :=
  (tcnt (reserved mb) + 2 <= tmax (reserved mb))%nat /\ is_Some (mb_take SIZEOF_VA mb).

Lemma va_room_clip mb s e n m : va_room mb -> clip_room mb s e n m.
Proof. intros [H1 H2]. unfold clip_room. by repeat case_match. Qed.

Definition search_len (size align vstart vend : Z) : Z :=
  if (align <=? PAGE_SIZE) || ((align >? PAGE_SIZE) && (u64 (vend - vstart) =? size)) then size
  else u64 (size + align - 1).

(** The range a request gets in the free area [s, e). *)
Definition place (align vstart s : Z) : Z := align_to align (Z.max s vstart).

Definition alloc_outcome (size align vstart vend : Z) (ks : list (Z * (Z * Z))) (mb : memblock)
    (r : Z) (ks' : list (Z * (Z * Z))) (mb' : memblock) : Prop :=
  exists o, search_ok size align (search_len size align vstart vend) vstart ks o /\
  match o with
  | None => r = u64 (- ENOENT) /\ ks' = ks /\ mb' = mb
  | Some (x, (s, e)) =>
      let n := place align vstart s in
      if n + size <=? vend then
        r = n /\ s <= n /\ n + size <= e /\ exists k1 y k2, ks = k1 ++ (x, (s, e)) :: k2
          /\ ks' = k1 ++ carve x y s e n (n + size) ++ k2 /\ clip_step x mb mb' s e n (n + size)
      else r = u64 (- ERANGE) /\ ks' = ks /\ mb' = mb
  end.

Lemma nva_start_place align vstart s size e : is_pow2 align -> 0 <= s < 2 ^ 64 -> 0 < vstart < 2 ^ 64 ->
  0 < size -> e < 2 ^ 64 -> place align vstart s + size <= e -> nva_start s align vstart = place align vstart s.
Proof.
  intros Ha Hs Hv Hsz He Hfit. unfold nva_start, place in *.
  assert ((if s >? vstart then ALIGN_UP s align else ALIGN_UP vstart align) = ALIGN_UP (Z.max s vstart) align) as ->.
  { destruct (Z.gtb_spec s vstart); [rw Z.max_l | rw Z.max_r]; done || lia. }
  destruct (ALIGN_UP_cases (Z.max s vstart) align Ha) as [[E _] | [_ E]]; [lia | done | lia].
Qed.

Lemma va_alloc_spec preload root head k1 x s e k2 size align vstart vend mb (Phi : Z -> iProp Sg) :
  let n := place align vstart s in
  is_pow2 align -> 0 < size -> 0 < vstart < 2 ^ 64 -> n + size <= e -> va_room mb ->
  heap_is mb -∗ pts preload 0 -∗ free_space root head (k1 ++ (x, (s, e)) :: k2) -∗
  slacks (k1 ++ (x, (s, e)) :: k2) -∗
  (if n + size <=? vend then
     ∀ y mb', ⌜clip_step x mb mb' s e n (n + size)⌝ -∗ heap_is mb' -∗ pts preload 0 -∗
       free_space root head (k1 ++ carve x y s e n (n + size) ++ k2) -∗
       slacks (k1 ++ carve x y s e n (n + size) ++ k2) -∗ Phi n
   else heap_is mb -∗ pts preload 0 -∗ free_space root head (k1 ++ (x, (s, e)) :: k2) -∗
     slacks (k1 ++ (x, (s, e)) :: k2) -∗ Phi (u64 (- ERANGE))) -∗
  wp (va_alloc preload (va_of_rb x) root head size align vstart vend) Phi.
Proof.
  iIntros (n Ha Hs Hv Hfit Hroom) "Hh Hpre Hf Hsl HP". iDestruct (free_range with "Hf") as %Hr.
  pose proof Hr as Hr'. apply Forall_app in Hr' as [_ Hr']. inversion Hr' as [| ? ? [R1 R2] _]; subst. cbn [fst snd] in R1, R2.
  pose proof (align_to_le align (Z.max s vstart)) as Hal. pose proof (is_pow2_range _ Ha). specialize (Hal ltac:(lia)).
  assert (Hn : s <= n) by (unfold n, place; lia).
  unfold va_alloc. kbind. iDestruct (free_bounds with "Hf") as "(P1 & P2 & Hf)". cbn [fst snd]. unfold va_start. kload "P1".
  iDestruct ("Hf" with "P1 P2") as "Hf". rw (nva_start_place align vstart s size e); [| done | lia | done | done | done | done].
  fold n. rw (u64_small (n + size)); [| lia]. destruct (Z.leb_spec (n + size) vend) as [Hle | Hgt].
  - assert ((n + size >? vend) = false) as -> by (rw Z.gtb_ltb; apply Z.ltb_ge; lia).
    kbind. iApply (va_clip_spec with "Hh Hpre Hf Hsl"); [done | done | done | by apply va_room_clip |].
    iIntros (y mb' Hst) "Hh Hpre Hf Hsl". iApply wp_ret. iApply ("HP" with "[//] Hh Hpre Hf Hsl").
  - assert ((n + size >? vend) = true) as -> by (rw Z.gtb_ltb; apply Z.ltb_lt; lia).
    iApply wp_ret. iApply ("HP" with "Hh Hpre Hf Hsl").
Qed.

Lemma alloc_vmap_range_spec fuel preload root head ks size align vstart vend mb (Phi : Z -> iProp Sg) :
  is_pow2 align -> 0 < size -> size + align <= 2 ^ 64 -> 0 < vstart < 2 ^ 64 -> va_room mb ->
  (search_fuel (length ks) <= fuel)%nat ->
  heap_is mb -∗ pts preload 0 -∗ free_space root head ks -∗ slacks ks -∗
  (∀ r ks' mb', ⌜alloc_outcome size align vstart vend ks mb r ks' mb'⌝ -∗ heap_is mb' -∗ pts preload 0 -∗
     free_space root head ks' -∗ slacks ks' -∗ Phi r) -∗
  wp (__alloc_vmap_area fuel preload root head size align vstart vend) Phi.
Proof.
  iIntros (Ha Hs Hsa Hv Hroom Hfuel) "Hh Hpre Hf Hsl HP". unfold __alloc_vmap_area.
  pose proof (is_pow2_range _ Ha) as Hal. set (adj := _ || _).
  assert (Hlen : (if negb adj then u64 (size + align - 1) else size) = search_len size align vstart vend).
  { unfold search_len. fold adj. by destruct adj. }
  iDestruct (free_range with "Hf") as %Hr.
  kbind. iApply (lowest_match_spec with "Hf"); [done | lia | | done | done |].
  { destruct (negb adj); [rw u64_small; lia | lia]. }
  rw Hlen. iIntros (o Hok) "Hf". destruct o as [[x [s e]] |]; cbn [va_or_null fst].
  - pose proof Hok as (k1 & k2 & -> & Hfit & _). unfold fits in Hfit. cbn [fst snd] in Hfit.
    fold (place align vstart s) in Hfit. iAssert (⌜va_of_rb x <> 0⌝)%I as %Hx0.
    { iDestruct "Hf" as "(%t & %n & (%Hi & _) & %Hn & _)". rw Hi in Hn. by apply nonnull_mid in Hn as [? _]. }
    rw (proj2 (Z.eqb_neq _ _) Hx0). iApply (va_alloc_spec with "Hh Hpre Hf Hsl"); [done.. |].
    destruct (place align vstart s + size <=? vend) eqn:Hle.
    + iIntros (y mb' Hst) "Hh Hpre Hf Hsl". iApply ("HP" with "[] Hh Hpre Hf Hsl"). iPureIntro.
      exists (Some (x, (s, e))). split; [done |]. cbv zeta. rw Hle. split; [done |].
      pose proof (align_to_le align (Z.max s vstart) ltac:(lia)). split; [unfold place; lia |]. split; [done |]. by exists k1, y, k2.
    + iIntros "Hh Hpre Hf Hsl". iApply ("HP" with "[] Hh Hpre Hf Hsl"). iPureIntro.
      exists (Some (x, (s, e))). split; [done |]. cbv zeta. by rw Hle.
  - rw Z.eqb_refl. iApply wp_ret. iApply ("HP" with "[] Hh Hpre Hf Hsl"). iPureIntro. by exists None.
Qed.

End alloc.
