(* ===== verification/VmapVm.v ===== *)
(** * The allocator of kernel addresses: [src/src/mm/vm.c], lines 640 to 1350 and 1695 to 1765

    On top of the trees of areas ([VmapArea]): allocation of an area and its
    descriptor, lazy release, purging, and the set-up from the segments of the
    kernel image.  Static variables are words at the addresses of [vm_syms];
    the local list heads of a function are words at an address its caller
    gives.  [vmap_initialized] is an argument of the functions that read it.
    TLB maintenance is not kept. *)

From S2P Require Import Prelude Memblock CString Kmalloc Kobj Rbtree VmapArea.

(** Addresses of the static variables: [free_vmap_area_root],
    [free_vmap_area_list], [ne_fit_preload_node], [single] (the one
    [struct vmap_node]), [vmap_lazy_nr], [vmlist], [vmap_block_queue]. *)
Record vm_syms := mkSyms {
  sy_free_root : Z;
  sy_free_list : Z;
  sy_preload : Z;
  sy_node : Z;
  sy_lazy_nr : Z;
  sy_vmlist : Z;
  sy_vbq : Z;
}.

(** [struct vmap_node]: 256 pools of 24 bytes, [skip_populate], the trees of
    areas in use and of lazily freed areas, the list to purge. *)
Definition MAX_VA_SIZE_PAGES : Z := 256.
Definition pool_head (vn i : Z) : Z := vn + 24 * i.
Definition pool_len (vn i : Z) : Z := vn + 24 * i + 16.
Definition vn_skip (vn : Z) : Z := vn + 6144.
Definition busy_root (vn : Z) : Z := vn + 6152.
Definition busy_head (vn : Z) : Z := vn + 6160.
Definition lazy_root (vn : Z) : Z := vn + 6176.
Definition lazy_head (vn : Z) : Z := vn + 6184.
Definition vn_purge (vn : Z) : Z := vn + 6200.
Definition vn_nr_purged (vn : Z) : Z := vn + 6216.

(** [struct vm_struct] *)
Definition VM_NEXT : Z := 0.
Definition VM_ADDR : Z := 8.
Definition VM_SIZE : Z := 16.
Definition VM_FLAGS : Z := 24.
Definition VM_PHYS : Z := 48.
Definition VM_CALLER : Z := 56.
Definition VM_REQ : Z := 64.
Definition SIZEOF_VM : Z := 72.
Definition VM_MAP : Z := 4.
Definition VM_NO_GUARD : Z := 64.

(** [struct vmap_block] with its 1024 bits *)
Definition VMAP_BBMAP_BITS : Z := 1024.
Definition VB_FREE : Z := 8.
Definition VB_DIRTY : Z := 16.
Definition VB_DIRTY_MIN : Z := 152.
Definition VB_DIRTY_MAX : Z := 160.
Definition VB_FREE_LIST : Z := 168.
Definition VB_PURGE : Z := 200.
Definition LIST_POISON1 : Z := 0xdead000000000100.
Definition LIST_POISON2 : Z := 0xdead000000000122.

Definition stb (a v : Z) : kprog unit :=
  fun h => let! m := st (kh_mem h) a v in Done (tt, mkHeap (kh_mb h) m).
Definition ldb (a : Z) : kprog Z := fun h => let! v := ld (kh_mem h) a in Done (v, h).

Definition list_del (entry : Z) : kprog unit :=
  __list_del_entry entry;; stw entry LIST_POISON1;; stw (entry + 8) LIST_POISON2.

Definition list_add_tail (new head : Z) : kprog unit :=
  prev ← list_prev head; __list_add new prev head.

Definition IS_ERR_VALUE (x : Z) : bool := u64 (- 4095) <=? x.
Definition ERR_PTR (e : Z) : Z := u64 (- e).
Definition offset_in_page (x : Z) : Z := Z.land x (PAGE_SIZE - 1).

(** ** Putting areas back *)

(** The loop of [reclaim_list_global]; [pos] and [n] are list entries. *)
Fixpoint reclaim_loop (fuel : nat) (G : vm_syms) (head pos n : Z) : kprog unit :=
  match fuel with
  | O => kfuel
  | S fuel =>
      if pos =? head then mret tt
      else
        merge_or_add_vmap_area_augment (va_of_list pos) (sy_free_root G) (sy_free_list G);;
        n' ← list_next n; reclaim_loop fuel G head n n'
  end.

Definition reclaim_list_global (fuel : nat) (G : vm_syms) (head : Z) : kprog unit :=
  empty ← list_empty head;
  if (empty : bool) then mret tt
  else pos ← list_next head; n ← list_next pos; reclaim_loop fuel G head pos n.

(** The inner loop of [decay_va_pool_node]. *)
Fixpoint decay_loop (fuel : nat) (tmp_list decay_root decay_list n_decay pos n : Z) : kprog unit :=
  match fuel with
  | O => kfuel
  | S fuel =>
      if (pos =? tmp_list) || (n_decay =? 0) then mret tt
      else
        list_del_init pos;;
        merge_or_add_vmap_area (va_of_list pos) decay_root decay_list;;
        n' ← list_next n; decay_loop fuel tmp_list decay_root decay_list (n_decay - 1) n n'
  end.

(** One pool; [tmp_list] is the address of the local list head. *)
Definition decay_pool (fuel : nat) (vn i : Z) (full_decay : bool) (tmp_list decay_root decay_list : Z) : kprog unit :=
  INIT_LIST_HEAD tmp_list;;
  empty ← list_empty (pool_head vn i);
  if (empty : bool) then mret tt
  else
    list_replace_init (pool_head vn i) tmp_list;;
    len ← ldw (pool_len vn i);
    stw (pool_len vn i) 0;;
    let n_decay := if full_decay then len else Z.shiftr len 2 in
    pos ← list_next tmp_list; n ← list_next pos;
    decay_loop fuel tmp_list decay_root decay_list n_decay pos n;;
    left ← list_empty tmp_list;
    kwhen (negb left)
      (list_replace_init tmp_list (pool_head vn i);; stw (pool_len vn i) (u64 (len - n_decay))).

Fixpoint decay_pools (fuel n : nat) (vn : Z) (full_decay : bool) (tmp_list decay_root decay_list : Z) : kprog unit :=
  match n with
  | O => mret tt
  | S n' =>
      decay_pool fuel vn (MAX_VA_SIZE_PAGES - Z.of_nat n) full_decay tmp_list decay_root decay_list;;
      decay_pools fuel n' vn full_decay tmp_list decay_root decay_list
  end.

(** [stk]: the addresses of [tmp_list], [decay_list] and [decay_root]. *)
Definition decay_va_pool_node (fuel : nat) (G : vm_syms) (stk : Z) (full_decay : bool) : kprog unit :=
  INIT_LIST_HEAD (stk + 16);;
  stw (stk + 32) 0;;
  decay_pools fuel (Z.to_nat MAX_VA_SIZE_PAGES) (sy_node G) full_decay stk (stk + 32) (stk + 16);;
  reclaim_list_global fuel G (stk + 16).

Definition size_to_va_pool (vn size : Z) : Z :=
  let idx := u32 (u64 (size - 1) / PAGE_SIZE) in
  if idx <? MAX_VA_SIZE_PAGES then pool_head vn idx else 0.

Definition node_pool_add_va (n va : Z) : kprog bool :=
  size ← va_size va;
  let vp := size_to_va_pool n size in
  if vp =? 0 then mret false
  else
    list_add (va + VA_LIST) vp;;
    len ← ldw (vp + 16); stw (vp + 16) (u64 (len + 1));;
    mret true.

(** The loop of [purge_vmap_node]: the number of purged pages. *)
Fixpoint purge_loop (fuel : nat) (vn local_list nr_pages pos n : Z) : kprog Z :=
  match fuel with
  | O => kfuel
  | S fuel =>
      if pos =? vn_purge vn then mret nr_pages
      else
        size ← va_size (va_of_list pos);
        list_del_init pos;;
        nr ← ldw (vn_nr_purged vn); stw (vn_nr_purged vn) (u64 (nr + 1));;
        skip ← ldb (vn_skip vn);
        pooled ← (if skip =? 0 then node_pool_add_va vn (va_of_list pos) else mret false);
        kwhen (negb pooled) (list_add pos local_list);;
        n' ← list_next n;
        purge_loop fuel vn local_list (u64 (nr_pages + Z.shiftr size PAGE_SHIFT)) n n'
  end.

Definition purge_vmap_node (fuel : nat) (G : vm_syms) (stk : Z) : kprog unit :=
  let vn := sy_node G in
  INIT_LIST_HEAD stk;;
  stw (vn_nr_purged vn) 0;;
  pos ← list_next (vn_purge vn); n ← list_next pos;
  nr ← purge_loop fuel vn stk 0 pos n;
  lazy ← ldw (sy_lazy_nr G); stw (sy_lazy_nr G) (u64 (lazy - nr));;
  reclaim_list_global fuel G stk.

(** [start] and [end] are only widened, for a TLB flush that does not use
    them; reading the areas is kept. *)
Definition __purge_vmap_area_lazy (fuel : nat) (G : vm_syms) (stk : Z) (full_pool_decay : bool) : kprog bool :=
  let vn := sy_node G in
  INIT_LIST_HEAD (vn_purge vn);;
  stb (vn_skip vn) (if full_pool_decay then 1 else 0);;
  decay_va_pool_node fuel G stk full_pool_decay;;
  root ← ldw (lazy_root vn);
  if root =? 0 then mret false
  else
    stw (lazy_root vn) 0;;
    list_replace_init (lazy_head vn) (vn_purge vn);;
    first ← list_next (vn_purge vn); va_start (va_of_list first);;
    last ← list_prev (vn_purge vn); va_end (va_of_list last);;
    purge_vmap_node fuel G stk;;
    nr ← ldw (vn_nr_purged vn); mret (0 <? nr).

Definition lazy_max_pages : Z := 32 * 1024 * 1024 / PAGE_SIZE.

(** A linked area is not freed again. *)
Definition free_vmap_area_noflush (fuel : nat) (G : vm_syms) (stk va : Z) : kprog unit :=
  empty ← list_empty (va + VA_LIST);
  if negb empty then mret tt
  else
    size ← va_size va;
    nr ← ldw (sy_lazy_nr G);
    let nr_lazy := u64 (nr + Z.shiftr size PAGE_SHIFT) in
    stw (sy_lazy_nr G) nr_lazy;;
    insert_vmap_area va (lazy_root (sy_node G)) (lazy_head (sy_node G));;
    kwhen (nr_lazy >? lazy_max_pages) (__purge_vmap_area_lazy fuel G stk false;; mret tt).

(** ** Fragmented blocks

    [xa_erase] is the removal from the array of blocks, by index. *)

Section blocks.
Variable xa_erase : Z -> kprog Z.

Definition VMAP_BLOCK_SIZE : Z := VMAP_BBMAP_BITS * PAGE_SIZE.
Definition VMALLOC_START : Z := 2 ^ 64 - 2 ^ 47.

Definition addr_to_vb_idx (addr : Z) : Z :=
  u64 (addr - Z.land VMALLOC_START (u64 (Z.lnot (VMAP_BLOCK_SIZE - 1)))) / VMAP_BLOCK_SIZE.

Definition purge_fragmented_block (vb purge_list : Z) (force_purge : bool) : kprog bool :=
  free ← ldw (vb + VB_FREE);
  dirty ← ldw (vb + VB_DIRTY);
  if negb (u64 (free + dirty) =? VMAP_BBMAP_BITS) || (dirty =? VMAP_BBMAP_BITS) then mret false
  else if negb (force_purge || (free <? VMAP_BBMAP_BITS / 4)) then mret false
  else
    stw (vb + VB_FREE) 0;;
    stw (vb + VB_DIRTY) VMAP_BBMAP_BITS;;
    stw (vb + VB_DIRTY_MIN) 0;;
    stw (vb + VB_DIRTY_MAX) VMAP_BBMAP_BITS;;
    list_del (vb + VB_FREE_LIST);;
    list_add_tail (vb + VB_PURGE) purge_list;;
    mret true.

Definition free_vmap_block (fuel : nat) (G : vm_syms) (stk vb : Z) : kprog unit :=
  va ← ldw vb;
  start ← va_start va;
  tmp ← xa_erase (addr_to_vb_idx start);
  if negb (tmp =? vb) then kbug
  else
    __unlink_va va (busy_root (sy_node G)) false;;
    free_vmap_area_noflush fuel G stk va;;
    kfree_prog vb.

Fixpoint free_purged_loop (fuel : nat) (G : vm_syms) (stk purge_list pos n : Z) : kprog unit :=
  match fuel with
  | O => kfuel
  | S fuel' =>
      if pos =? purge_list then mret tt
      else
        list_del pos;;
        free_vmap_block fuel G stk (pos - VB_PURGE);;
        n' ← list_next n; free_purged_loop fuel' G stk purge_list n n'
  end.

Definition free_purged_blocks (fuel : nat) (G : vm_syms) (stk purge_list : Z) : kprog unit :=
  pos ← list_next purge_list; n ← list_next pos;
  free_purged_loop fuel G stk purge_list pos n.

(** [list_for_each_entry] over [vmap_block_queue.free]; [pos] is an entry. *)
Fixpoint fragmented_loop (fuel : nat) (G : vm_syms) (purge_list pos : Z) : kprog unit :=
  match fuel with
  | O => kfuel
  | S fuel =>
      if pos =? sy_vbq G then mret tt
      else
        let vb := u64 (pos - VB_FREE_LIST) in
        free ← ldw (u64 (vb + VB_FREE));
        dirty ← ldw (u64 (vb + VB_DIRTY));
        (if negb (u64 (free + dirty) =? VMAP_BBMAP_BITS) || (dirty =? VMAP_BBMAP_BITS) then mret tt
         else purge_fragmented_block vb purge_list true;; mret tt);;
        next ← list_next (u64 (vb + VB_FREE_LIST)); fragmented_loop fuel G purge_list next
  end.

(** [stk]: the local list [purge]; the functions called use what is above. *)
Definition purge_fragmented_blocks (fuel : nat) (G : vm_syms) (stk : Z) : kprog unit :=
  INIT_LIST_HEAD stk;;
  pos ← list_next (sy_vbq G);
  fragmented_loop fuel G stk pos;;
  free_purged_blocks fuel G (stk + 16) stk.

Definition reclaim_and_purge_vmap_areas (fuel : nat) (G : vm_syms) (stk : Z) : kprog unit :=
  purge_fragmented_blocks fuel G stk;;
  __purge_vmap_area_lazy fuel G stk true;;
  mret tt.

(** ** Allocation *)

(** The descriptor [vm] is bound to the area when there is one. *)
Definition bind_vm (va vm : Z) : kprog unit :=
  kwhen (negb (vm =? 0))
    (start ← va_start va; stw (vm + VM_ADDR) start;;
     size ← va_size va; stw (vm + VM_SIZE) size;;
     stw (va + VA_SUB) vm).

(** From the label [retry] on; [overflow] is what follows the label
    [overflow]. *)
Definition vmap_attempt (fuel : nat) (G : vm_syms) (va size align vstart vend va_flags vm : Z)
    (overflow : kprog Z) : kprog Z :=
  addr ← __alloc_vmap_area fuel (sy_preload G) (sy_free_root G) (sy_free_list G) size align vstart vend;
  if IS_ERR_VALUE addr then overflow
  else
    stw va addr;;
    stw (va + 8) (u64 (addr + size));;
    stw (va + VA_SUB) 0;;
    stw (va + VA_FLAGS) (Z.lor va_flags 0);;
    bind_vm va vm;;
    insert_vmap_area va (busy_root (sy_node G)) (busy_head (sy_node G));;
    start ← va_start va;
    end_ ← va_end va;
    if negb (Z.land start (align - 1) =? 0) then kbug
    else if start <? vstart then kbug
    else if end_ >? vend then kbug
    else mret va.

Definition alloc_vmap_area (fuel : nat) (G : vm_syms) (stk : Z) (vmap_initialized : bool)
    (size align vstart vend va_flags vm : Z) : kprog Z :=
  if (size =? 0) || negb (offset_in_page size =? 0) || negb (is_power_of_2 align) then mret (ERR_PTR EINVAL)
  else if negb vmap_initialized then mret (ERR_PTR EBUSY)
  else
    va ← kmalloc_prog SIZEOF_VA;
    if va =? 0 then mret (ERR_PTR ENOMEM)
    else
      vmap_attempt fuel G va size align vstart vend va_flags vm
        (reclaim_and_purge_vmap_areas fuel G stk;;
         vmap_attempt fuel G va size align vstart vend va_flags vm
           (kfree_prog va;; mret (ERR_PTR EBUSY))).

Definition __get_vm_area_node (fuel : nat) (G : vm_syms) (stk : Z) (vmap_initialized : bool)
    (size align shift flags start end_ caller : Z) : kprog Z :=
  let requested_size := size in
  let size := ALIGN_UP size (u64 (Z.shiftl 1 shift)) in
  if size =? 0 then mret 0
  else
    area ← kmalloc_prog SIZEOF_VM;
    if area =? 0 then mret 0
    else
      let size := if Z.land flags VM_NO_GUARD =? 0 then u64 (size + PAGE_SIZE) else size in
      stw (area + VM_FLAGS) flags;;
      stw (area + VM_CALLER) caller;;
      stw (area + VM_REQ) requested_size;;
      va ← alloc_vmap_area fuel G stk vmap_initialized size align start end_ 0 area;
      if IS_ERR_VALUE va then kfree_prog area;; mret 0
      else mret area.

End blocks.

(** ** Set-up *)

(** The walk of [vm_struct_add_early] to the place in the sorted list: [p] is
    the address of the link. *)
Fixpoint early_loop (fuel : nat) (p addr size : Z) : kprog Z :=
  match fuel with
  | O => kfuel
  | S fuel =>
      tmp ← ldw p;
      if tmp =? 0 then mret p
      else
        taddr ← ldw (tmp + VM_ADDR);
        if addr <=? taddr then
          if taddr <? u64 (addr + size) then kbug else mret p
        else
          tsize ← ldw (tmp + VM_SIZE);
          if u64 (taddr + tsize) >? addr then kbug
          else early_loop fuel (tmp + VM_NEXT) addr size
  end.

Definition vm_struct_add_early (fuel : nat) (G : vm_syms) (vmap_initialized : bool) (vm : Z) : kprog unit :=
  if vmap_initialized then kbug
  else
    addr ← ldw (vm + VM_ADDR);
    size ← ldw (vm + VM_SIZE);
    p ← early_loop fuel (sy_vmlist G) addr size;
    tmp ← ldw p;
    stw (vm + VM_NEXT) tmp;;
    stw p vm.

(** [kimg_phys] is [__virt_to_kimg_phys]; [caller] the return address. *)
Definition declare_vma (fuel : nat) (G : vm_syms) (kimg_phys : Z -> Z) (caller vma va_start va_end vm_flags : Z)
    : kprog unit :=
  let pa_start := kimg_phys va_start in
  let size := u64 (va_end - va_start) in
  if negb (offset_in_page pa_start =? 0) then kbug
  else if negb (offset_in_page size =? 0) then kbug
  else
    let size := if Z.land vm_flags VM_NO_GUARD =? 0 then u64 (size + PAGE_SIZE) else size in
    stw (vma + VM_ADDR) va_start;;
    stw (vma + VM_PHYS) pa_start;;
    stw (vma + VM_SIZE) size;;
    stw (vma + VM_FLAGS) (Z.lor VM_MAP vm_flags);;
    stw (vma + VM_CALLER) caller;;
    vm_struct_add_early fuel G false vma.

Definition vmap_base_init (G : vm_syms) : kprog unit :=
  let vn := sy_node G in
  stw (busy_root vn) 0;;
  INIT_LIST_HEAD (busy_head vn);;
  stw (lazy_root vn) 0;;
  INIT_LIST_HEAD (lazy_head vn).

(** The loop over [vmlist] that makes the areas in use. *)
Fixpoint busy_loop (fuel : nat) (G : vm_syms) (tmp : Z) : kprog unit :=
  match fuel with
  | O => kfuel
  | S fuel =>
      if tmp =? 0 then mret tt
      else
        va ← kmalloc_prog SIZEOF_VA;
        kwhen (negb (va =? 0))
          (addr ← ldw (tmp + VM_ADDR); stw va addr;;
           size ← ldw (tmp + VM_SIZE); start ← va_start va; stw (va + 8) (u64 (start + size));;
           stw (va + VA_SUB) tmp;;
           insert_vmap_area va (busy_root (sy_node G)) (busy_head (sy_node G)));;
        next ← ldw (tmp + VM_NEXT); busy_loop fuel G next
  end.

Definition declare_kernel_vmas (fuel : nat) (G : vm_syms) (kimg_phys : Z -> Z) (caller : Z)
    (segs : list (Z * Z * Z * Z)) : kprog unit :=
  foldr (fun '(vma, lo, hi, flags) k => declare_vma fuel G kimg_phys caller vma lo hi flags;; k)
    (tmp ← ldw (sy_vmlist G); busy_loop fuel G tmp) segs.

(** The segments of the image that are declared, with their descriptors. *)
Definition kernel_segs (vmlinux_seg stext etext start_rodata inittext_begin inittext_end initdata_begin
    initdata_end data_ end_ : Z) : list (Z * Z * Z * Z) :=
  [(vmlinux_seg, stext, etext, VM_NO_GUARD);
   (vmlinux_seg + SIZEOF_VM, start_rodata, inittext_begin, VM_NO_GUARD);
   (vmlinux_seg + 2 * SIZEOF_VM, inittext_begin, inittext_end, VM_NO_GUARD);
   (vmlinux_seg + 3 * SIZEOF_VM, initdata_begin, initdata_end, VM_NO_GUARD);
   (vmlinux_seg + 4 * SIZEOF_VM, data_, end_, 0)].

(** One free area [lo, hi) unless it is empty. *)
Definition add_free_area (G : vm_syms) (lo hi : Z) : kprog unit :=
  kwhen (negb (u64 (hi - lo) =? 0))
    (free ← kmalloc_prog SIZEOF_VA;
     kwhen (negb (free =? 0))
       (stw free lo;;
        stw (free + 8) hi;;
        insert_vmap_area_augment free 0 (sy_free_root G) (sy_free_list G))).

(** The loop of [vmap_init_free_space] with the area after the last one. *)
Fixpoint free_loop (fuel : nat) (G : vm_syms) (vmap_start busy : Z) : kprog unit :=
  match fuel with
  | O => kfuel
  | S fuel =>
      if busy =? 0 then add_free_area G vmap_start (2 ^ 64 - 1)
      else
        addr ← ldw (busy + VM_ADDR);
        add_free_area G vmap_start addr;;
        size ← ldw (busy + VM_SIZE);
        next ← ldw (busy + VM_NEXT);
        free_loop fuel G (u64 (addr + size)) next
  end.

Definition vmap_init_free_space (fuel : nat) (G : vm_syms) : kprog unit :=
  busy ← ldw (sy_vmlist G); free_loop fuel G 1 busy.

(** [vmap_init]; that it sets [vmap_initialized] is the argument [true] of
    later calls. *)
Definition vmap_init (fuel : nat) (G : vm_syms) (kimg_phys : Z -> Z) (caller : Z) (segs : list (Z * Z * Z * Z))
    : kprog unit :=
  vmap_base_init G;;
  declare_kernel_vmas fuel G kimg_phys caller segs;;
  vmap_init_free_space fuel G.
