(* ===== verification/VmapVmSpec.v ===== *)
(** * What the allocator of kernel addresses does

    [vm_own]: the free areas, the areas in use and the lazily freed areas are
    three sets of disjoint ranges.  An allocation moves the lowest fitting
    range from the free areas to those in use; a release moves an area to the
    lazily freed ones. *)

From iris.proofmode Require Import proofmode.
From iris.base_logic.lib Require Import gen_heap.
From S2P Require Import Prelude Memblock MemblockArray CString CStringSpec Kmalloc Kobj KobjLogic KobjAlloc.
From S2P Require Import Rbtree RbTrees RbtreeSpec RbtreeErase VmapArea VmapAug VmapTree VmapList VmapSpace.
From S2P Require Import VmapSearch VmapFree VmapAlloc VmapVm.

(** ** Sets of ranges *)

Definition key_apart (k k' : Z * (Z * Z)) : Prop := k.2.2 <= k'.2.1 \/ k'.2.2 <= k.2.1.

Definition apart (ks ks' : list (Z * (Z * Z))) : Prop := forall k k', k ∈ ks -> k' ∈ ks' -> key_apart k k'.

(** The first area a request fits in. *)
Definition first_fit (size align vstart : Z) (ks : list (Z * (Z * Z))) : option (Z * (Z * Z)) :=
  list_find (fun k => place align vstart k.2.1 + size <= k.2.2) ks ≫= fun p => Some p.2.

Lemma first_fit_split size align vstart ks k1 k k2 : ks = k1 ++ k :: k2 ->
  place align vstart k.2.1 + size <= k.2.2 ->
  (forall k', k' ∈ k1 -> ~ place align vstart k'.2.1 + size <= k'.2.2) ->
  first_fit size align vstart ks = Some k.
Proof.
  intros -> Hk H1. unfold first_fit.
  assert (list_find (fun k => place align vstart k.2.1 + size <= k.2.2) (k1 ++ k :: k2) = Some (length k1, k)) as ->; [| done].
  apply list_find_Some. split; [apply list_lookup_middle; done |]. split; [done |].
  intros j y Hj Hlt. rw lookup_app_l in Hj; [| done]. apply H1. by eapply list_elem_of_lookup_2.
Qed.

Lemma first_fit_None size align vstart ks :
  (forall k, k ∈ ks -> ~ place align vstart k.2.1 + size <= k.2.2) -> first_fit size align vstart ks = None.
Proof.
  intros H. unfold first_fit.
  assert (list_find (fun k => place align vstart k.2.1 + size <= k.2.2) ks = None) as ->; [| done].
  apply list_find_None. by apply Forall_forall.
Qed.

(** When the length searched for is the size, the search is first fit. *)
Lemma search_first_fit size align vstart ks o : 0 < align ->
  search_ok size align size vstart ks o -> first_fit size align vstart ks = o.
Proof.
  intros Ha. assert (Hbig : forall k, fits size align vstart k -> big size k).
  { intros k Hk. unfold fits, big in *. pose proof (align_to_le align (Z.max k.2.1 vstart) Ha). lia. }
  destruct o as [k |]; cbn [search_ok].
  - intros (k1 & k2 & -> & Hfit & Hno). eapply first_fit_split; [done | exact Hfit |].
    intros k' Hk' Hf. apply (Hno k' Hk'); [by apply Hbig | exact Hf].
  - intros Hno. apply first_fit_None. intros k Hk Hf. apply (Hno k Hk); [by apply Hbig | exact Hf].
Qed.

(** The parts of a free area keep away from what the area kept away from, and
    from the range that is taken. *)
Lemma carve_inside x y s e n m k : s <= n -> n < m -> m <= e -> k ∈ carve x y s e n m ->
  s <= k.2.1 /\ k.2.2 <= e /\ (k.2.2 <= n \/ m <= k.2.1).
Proof.
  intros H1 H2 H3. unfold carve. repeat case_match; rw ?elem_of_cons ?elem_of_nil; intros Hk;
    repeat destruct Hk as [-> | Hk]; try done; simpl; lia.
Qed.

Lemma apart_carve k1 x s e k2 y n m ks : s <= n -> n < m -> m <= e ->
  apart (k1 ++ (x, (s, e)) :: k2) ks -> apart (k1 ++ carve x y s e n m ++ k2) ks.
Proof.
  intros H1 H2 H3 Ha k k' Hk Hk'. rw !elem_of_app in Hk. destruct Hk as [Hk | [Hk | Hk]].
  - apply Ha; [| done]. rw elem_of_app. auto.
  - destruct (carve_inside _ _ _ _ _ _ _ H1 H2 H3 Hk) as (C1 & C2 & _).
    specialize (Ha (x, (s, e)) k' ltac:(rw elem_of_app elem_of_cons; auto) Hk'). unfold key_apart in *. simpl in Ha. lia.
  - apply Ha; [| done]. rw elem_of_app elem_of_cons. auto.
Qed.

Lemma apart_new k1 x s e k2 y n m z : s <= n -> n < m -> m <= e -> ordered (k1 ++ (x, (s, e)) :: k2) ->
  apart (k1 ++ carve x y s e n m ++ k2) [(z, (n, m))].
Proof.
  intros H1 H2 H3 Ho k k' Hk Hk'. apply list_elem_of_singleton in Hk' as ->. unfold key_apart. simpl.
  apply ordered_app in Ho as (O1 & O2 & O3). apply ordered_cons in O2 as (_ & O2 & O4). unfold key_before in *.
  rw !elem_of_app in Hk. destruct Hk as [Hk | [Hk | Hk]].
  - specialize (O3 k (x, (s, e)) Hk ltac:(by left)). simpl in O3. lia.
  - destruct (carve_inside _ _ _ _ _ _ _ H1 H2 H3 Hk) as (_ & _ & ?). lia.
  - specialize (O4 k Hk). simpl in O4. lia.
Qed.

Record vm_inv (free busy lazy : list (Z * (Z * Z))) : Prop := {
  vi_free_busy : apart free busy;
  vi_free_lazy : apart free lazy;
  vi_busy_lazy : apart busy lazy;
}.

(** The addresses of the roots are those of variables. *)
Definition syms_ok (G : vm_syms) : Prop :=
  sy_free_root G <> 0 /\ busy_root (sy_node G) <> 0 /\ lazy_root (sy_node G) <> 0.

Lemma apart_insert ks k1 k k2 : apart ks (k1 ++ k2) -> apart ks [k] -> apart ks (k1 ++ k :: k2).
Proof.
  intros H1 H2 a b Ha Hb. rw elem_of_app elem_of_cons in Hb. destruct Hb as [Hb | [-> | Hb]].
  - apply H1; [done |]. rw elem_of_app. auto.
  - apply H2; [done |]. by left.
  - apply H1; [done |]. rw elem_of_app. auto.
Qed.

Lemma apart_sym ks ks' : apart ks ks' -> apart ks' ks.
Proof. intros H k k' Hk Hk'. unfold key_apart. specialize (H k' k Hk' Hk). unfold key_apart in H. lia. Qed.

Lemma apart_sub k1 k k2 ks : apart (k1 ++ k :: k2) ks -> apart (k1 ++ k2) ks.
Proof. intros H a b Ha. apply H. revert Ha. rw !elem_of_app elem_of_cons. tauto. Qed.

Lemma apart_inside ks x s e ks' z n m : apart ks ks' -> (x, (s, e)) ∈ ks -> s <= n -> m <= e ->
  apart ks' [(z, (n, m))].
Proof.
  intros H Hin H1 H2 a b Ha Hb. apply list_elem_of_singleton in Hb as ->.
  specialize (H _ _ Hin Ha). unfold key_apart in *. simpl in *. lia.
Qed.

(** An allocation keeps the three sets apart. *)
Lemma vm_inv_alloc k1 x s e k2 y n m z b1 b2 lazy :
  s <= n -> n < m -> m <= e -> ordered (k1 ++ (x, (s, e)) :: k2) ->
  vm_inv (k1 ++ (x, (s, e)) :: k2) (b1 ++ b2) lazy ->
  vm_inv (k1 ++ carve x y s e n m ++ k2) (b1 ++ (z, (n, m)) :: b2) lazy.
Proof.
  intros H1 H2 H3 Ho [I1 I2 I3]. assert (Hin : (x, (s, e)) ∈ k1 ++ (x, (s, e)) :: k2) by (rw elem_of_app elem_of_cons; auto).
  split.
  - apply apart_insert; [by apply apart_carve | by apply apart_new].
  - by apply apart_carve.
  - apply apart_sym, apart_insert; [by apply apart_sym |]. by apply (apart_inside _ x s e lazy z n m I2 Hin).
Qed.

Section vm.
Context `{!kheapGS Sg}.

Definition vm_own (G : vm_syms) (mb : memblock) (free busy lazy : list (Z * (Z * Z))) : iProp Sg :=
  ⌜vm_inv free busy lazy⌝ ∗ heap_is mb ∗ pts (sy_preload G) 0
  ∗ free_space (sy_free_root G) (sy_free_list G) free ∗ slacks free
  ∗ busy_space (busy_root (sy_node G)) (busy_head (sy_node G)) busy ∗ slacks busy
  ∗ busy_space (lazy_root (sy_node G)) (lazy_head (sy_node G)) lazy ∗ slacks lazy.

Definition vm_desc (vm : Z) (o : option (Z * Z)) : iProp Sg :=
  (if vm =? 0 then True
   else match o with
        | None => ∃ w1 w2, pts (vm + VM_ADDR) w1 ∗ pts (vm + VM_SIZE) w2
        | Some (a, n) => pts (vm + VM_ADDR) a ∗ pts (vm + VM_SIZE) n
        end)%I.

Lemma bind_vm_spec z s e f vm (Phi : unit -> iProp Sg) : s <= e -> 0 <= vm < 2 ^ 64 ->
  pay z (mkA s e 0 f) -∗ vm_desc vm None -∗
  (pay z (mkA s e vm f) -∗ vm_desc vm (Some (s, e - s)) -∗ Phi tt) -∗
  wp (bind_vm (va_of_rb z) vm) Phi.
Proof.
  iIntros (Hse Hvm) "Hp Hd HP". unfold bind_vm, vm_desc. destruct (Z.eqb_spec vm 0) as [-> | Hne]; cbn [negb kwhen].
  { iApply wp_ret. iApply ("HP" with "Hp Hd"). }
  iDestruct "Hd" as (w1 w2) "[D1 D2]". rw (pay_area z (mkA s e 0 f)). iDestruct "Hp" as "(P1 & P2 & P3 & P4)".
  cbn [ar_start ar_end ar_sub ar_flags]. iDestruct (pts_range with "P1") as %R1. iDestruct (pts_range with "P2") as %R2.
  unfold va_start. kbind. kload "P1". kbind. kstore "D1"; [done |].
  kbind. iApply (wp_va_size with "P1 P2"). iIntros "P1 P2". rw u64_small; [| lia].
  kbind. kstore "D2"; [lia |]. kstore "P3"; [done |]. iApply ("HP" with "[P1 P2 P3 P4]"); [rw pay_area; iFrame | iFrame].
Qed.

(** The request [size, align] at or above [vstart] takes [n, n + size) out of
    the free areas; the node [z] describes it among the areas in use. *)
Definition vm_taken (size align vstart : Z) (free busy free' busy' : list (Z * (Z * Z))) (mb mb' : memblock) (z : Z)
    : Prop :=
  exists x s e y k1 k2 b1 b2, let n := place align vstart s in
    first_fit size align vstart free = Some (x, (s, e))
    /\ free = k1 ++ (x, (s, e)) :: k2 /\ free' = k1 ++ carve x y s e n (n + size) ++ k2
    /\ busy = b1 ++ b2 /\ busy' = b1 ++ (z, (n, n + size)) :: b2
    /\ clip_step x mb mb' s e n (n + size).

(** What a request must satisfy.  [rq_len]: the search does not lengthen the
    request, that is, the alignment is at most a page or the range fits the
    request exactly; [vmalloc], the only caller, asks for pages. *)
Record request (size align vstart vend : Z) : Prop := {
  rq_align : is_pow2 align;
  rq_size : 0 < size /\ size + align <= 2 ^ 64;
  rq_start : 0 < vstart < 2 ^ 64;
  rq_end : vend <= 2 ^ 64 - 4096;
  rq_len : search_len size align vstart vend = size;
}.

(** The range of addresses has room for the request. *)
Definition has_fit (size align vstart vend : Z) (free : list (Z * (Z * Z))) : Prop :=
  exists k, first_fit size align vstart free = Some k /\ place align vstart k.2.1 + size <= vend.

Lemma set_area_spec {B} z s0 e0 m0 f0 s e f (K : kprog B) (Phi : B -> iProp Sg) :
  0 <= s < 2 ^ 64 -> 0 <= e < 2 ^ 64 -> 0 <= f < 2 ^ 64 ->
  pay z (mkA s0 e0 m0 f0) -∗ (pay z (mkA s e 0 f) -∗ wp K Phi) -∗
  wp (stw (va_of_rb z) s;; stw (va_of_rb z + 8) e;; stw (va_of_rb z + VA_SUB) 0;; stw (va_of_rb z + VA_FLAGS) f;; K) Phi.
Proof.
  iIntros (Hs He Hf) "Hp HP". rw (pay_area z (mkA s0 e0 m0 f0)). iDestruct "Hp" as "(P1 & P2 & P3 & P4)".
  cbn [ar_start ar_end ar_sub ar_flags]. kbind. kstore "P1"; [done |]. kbind. kstore "P2"; [done |].
  kbind. kstore "P3"; [done |]. kbind. kstore "P4"; [done |]. iApply "HP". rw pay_area. iFrame.
Qed.

Lemma land_aligned n align : is_pow2 align -> n mod align = 0 -> Z.land n (align - 1) = 0.
Proof.
  intros (k & Hk & ->) Hn. replace (2 ^ k - 1) with (Z.ones k) by (rw Z.ones_equiv; lia).
  rw Z.land_ones; [done | lia].
Qed.

Lemma vmap_attempt_spec fuel G z a mb free busy lazy size align vstart vend flags vm ovf (Phi : Z -> iProp Sg) :
  syms_ok G -> request size align vstart vend -> has_fit size align vstart vend free ->
  0 <= flags < 2 ^ 64 -> 0 <= vm < 2 ^ 64 -> va_room mb -> (search_fuel (length free) <= fuel)%nat ->
  vm_own G mb free busy lazy -∗ loose z (a : area) -∗ va_slack z -∗ vm_desc vm None -∗
  (∀ n free' busy' mb', ⌜vm_taken size align vstart free busy free' busy' mb mb' z
       /\ n = place align vstart (from_option (fun k => k.2.1) 0 (first_fit size align vstart free))⌝ -∗
     vm_own G mb' free' busy' lazy -∗ vm_desc vm (Some (n, size)) -∗ Phi (va_of_rb z)) -∗
  wp (vmap_attempt fuel G (va_of_rb z) size align vstart vend flags vm ovf) Phi.
Proof.
  iIntros (HG [Q1 [Q2 Q3] Q4 Q5 Q6] ([x [s e]] & Hff & Hend) Hfl Hvm Hroom Hfuel)
    "(%Hinv & Hh & Hpre & Hf & Hsf & Hb & Hsb & Hl & Hsl) Hz Hsz Hd HP".
  cbn [fst snd] in Hend. set (n := place align vstart s) in *. pose proof (is_pow2_range _ Q1) as Hal.
  iDestruct (free_ordered with "Hf") as %Ho. iDestruct (free_range with "Hf") as %Hrg.
  unfold vmap_attempt. kbind.
  iApply (alloc_vmap_range_spec with "Hh Hpre Hf Hsf"); [done.. |]. iIntros (r free' mb' Hout) "Hh Hpre Hf Hsf".
  destruct Hout as (o & Hok & Hr). rw Q6 in Hok. apply search_first_fit in Hok; [| lia]. rw Hff in Hok. subst o.
  fold n in Hr. cbv zeta in Hr. rw (proj2 (Z.leb_le _ _) Hend) in Hr.
  destruct Hr as (-> & Hsn & Hne & k1 & y & k2 & -> & -> & Hst).
  assert (Hn0 : 0 < n) by (unfold n, place in *; pose proof (align_to_le align (Z.max s vstart)); lia).
  assert (IS_ERR_VALUE n = false) as ->.
  { unfold IS_ERR_VALUE. apply Z.leb_gt. change (u64 (- 4095)) with (2 ^ 64 - 4095). lia. }
  iDestruct "Hz" as "(%Hz & (%u1 & %u2 & %u3 & U1 & U2 & U3 & Up) & HL)". destruct a as [s0 e0 m0 f0].
  rw Z.lor_0_r. rw (u64_small (n + size)); [| lia].
  iApply (set_area_spec with "Up"); [lia | lia | done |]. iIntros "Up".
  kbind. iApply (bind_vm_spec with "Up Hd"); [lia | done |]. iIntros "Up Hd".
  replace (n + size - n) with size by lia.
  iAssert (loose z (mkB (mkA n (n + size) vm flags))) with "[U1 U2 U3 Up HL]" as "Hz".
  { iSplit; [done |]. iFrame "HL". iExists u1, u2, u3. iFrame. }
  destruct HG as (_ & HG & _). kbind.
  assert (Hin : (x, (s, e)) ∈ k1 ++ (x, (s, e)) :: k2) by (rw elem_of_app elem_of_cons; auto).
  iApply (insert_busy_spec with "Hb Hz"); [done | simpl; lia | |].
  { intros k Hk. destruct Hinv as [I1 _ _]. specialize (I1 _ _ Hin Hk). unfold key_apart in I1. simpl in *. lia. }
  cbn [a_key busy_aug ba ar_start ar_end]. iIntros (b1 b2 ->) "Hb".
  iDestruct (busy_bounds with "Hb") as "(P1 & P2 & Hb)". cbn [fst snd]. unfold va_start, va_end.
  kbind. kload "P1". kbind. kload "P2". iDestruct ("Hb" with "P1 P2") as "Hb".
  assert (Hmod : n mod align = 0) by (unfold n, place; apply align_to_mod; lia).
  rw (land_aligned n align Q1 Hmod). cbn [Z.eqb negb].
  rw (proj2 (Z.ltb_ge n vstart)). 2: { unfold n, place. pose proof (align_to_le align (Z.max s vstart)). lia. }
  assert ((n + size >? vend) = false) as -> by (rw Z.gtb_ltb; apply Z.ltb_ge; lia).
  iApply wp_ret. iApply ("HP" with "[] [-Hd] Hd").
  - iPureIntro. split; [| by rw Hff]. exists x, s, e, y, k1, k2, b1, b2. cbv zeta. fold n. done.
  - iSplit; [iPureIntro; apply vm_inv_alloc; try done; lia |]. iFrame "Hh Hpre Hf Hl Hb Hsf Hsl". rw slacks_mid. iFrame.
Qed.

Lemma pow2_check a : is_pow2 a -> is_power_of_2 a = true.
Proof.
  intros Ha. pose proof (is_pow2_range a Ha) as Hr. unfold is_power_of_2.
  rw (proj2 (Z.eqb_neq a 0)); [| lia]. rw u64_small; [| lia]. destruct Ha as (k & Hk & ->).
  rw land_pred_pow2; [done | lia].
Qed.

Definition fit_start (size align vstart : Z) (free : list (Z * (Z * Z))) : Z :=
  place align vstart (from_option (fun k => k.2.1) 0 (first_fit size align vstart free)).

Lemma alloc_vmap_area_spec xa fuel G stk mb mb1 free busy lazy size align vstart vend flags vm (Phi : Z -> iProp Sg) :
  syms_ok G -> request size align vstart vend -> has_fit size align vstart vend free -> size mod 4096 = 0 ->
  0 <= flags < 2 ^ 64 -> 0 <= vm < 2 ^ 64 -> mb_take SIZEOF_VA mb = Some mb1 -> va_room mb1 ->
  (search_fuel (length free) <= fuel)%nat ->
  vm_own G mb free busy lazy -∗ vm_desc vm None -∗
  (∀ z free' busy' mb', ⌜vm_taken size align vstart free busy free' busy' mb1 mb' z⌝ -∗
     vm_own G mb' free' busy' lazy -∗ vm_desc vm (Some (fit_start size align vstart free, size)) -∗
     Phi (va_of_rb z)) -∗
  wp (alloc_vmap_area xa fuel G stk true size align vstart vend flags vm) Phi.
Proof.
  iIntros (HG Hq Hfit Hmod Hfl Hvm Ht Hroom Hfuel) "(%Hinv & Hh & Hrest) Hd HP".
  pose proof Hq as [Q1 [Q2 Q3] _ _ _]. unfold alloc_vmap_area, offset_in_page.
  rw (proj2 (Z.eqb_neq size 0)); [| lia]. change (PAGE_SIZE - 1) with (4096 - 1).
  rw (land_aligned size 4096 is_pow2_PAGE_SIZE Hmod) pow2_check; [| done]. cbn [Z.eqb negb orb].
  kbind. iApply (kmalloc_va_spec with "Hh"); [exact Ht |].
  iIntros (z s0 e0 u1 u2 u3 w1 w2 sub fl [Hz Hz0]) "Hh Hsz Hw". rw (proj2 (Z.eqb_neq _ _) Hz0).
  iApply (vmap_attempt_spec with "[Hh Hrest] [Hw] Hsz Hd"); try done.
  - by iFrame.
  - by iApply area_loose.
  - iIntros (n free' busy' mb' [Htk ->]) "Hv Hd". iApply ("HP" with "[//] Hv Hd").
Qed.

(** ** [__get_vm_area_node] *)

(** The size of the area for a request: whole pages and the guard page. *)
Definition area_size (size shift flags : Z) : Z :=
  let size := ALIGN_UP size (u64 (Z.shiftl 1 shift)) in
  if Z.land flags VM_NO_GUARD =? 0 then u64 (size + PAGE_SIZE) else size.

(** The descriptor of an area. *)
Definition vm_struct_at (vm addr size flags caller req : Z) : iProp Sg :=
  ∃ v0 v4 v5 v6, slack SIZEOF_VM vm
    ∗ own_words (word_list vm [v0; addr; size; flags; v4; v5; v6; caller; req]).

Lemma vm_image vm v0 v1 v2 v3 v4 v5 v6 v7 v8 :
  word_list vm [v0; v1; v2; v3; v4; v5; v6; v7; v8]
  = [(vm, v0); (vm + VM_ADDR, v1); (vm + VM_SIZE, v2); (vm + VM_FLAGS, v3); (vm + 32, v4); (vm + 40, v5);
     (vm + VM_PHYS, v6); (vm + VM_CALLER, v7); (vm + VM_REQ, v8)].
Proof.
  cbn [word_list]. unfold VM_ADDR, VM_SIZE, VM_FLAGS, VM_PHYS, VM_CALLER, VM_REQ.
  repeat (apply f_equal2; [apply f_equal2; [lia | done] |]). done.
Qed.

Lemma get_vm_area_spec xa fuel G stk mb mb0 mb1 free busy lazy size align shift flags vstart vend caller
    (Phi : Z -> iProp Sg) :
  let n := area_size size shift flags in
  syms_ok G -> ALIGN_UP size (u64 (Z.shiftl 1 shift)) <> 0 -> request n align vstart vend ->
  has_fit n align vstart vend free -> n mod 4096 = 0 ->
  0 <= flags < 2 ^ 64 -> 0 <= caller < 2 ^ 64 -> 0 <= size < 2 ^ 64 ->
  mb_take SIZEOF_VM mb = Some mb0 -> mb_take SIZEOF_VA mb0 = Some mb1 -> va_room mb1 ->
  (search_fuel (length free) <= fuel)%nat ->
  vm_own G mb free busy lazy -∗
  (∀ vm z free' busy' mb', ⌜vm_taken n align vstart free busy free' busy' mb1 mb' z⌝ -∗
     vm_own G mb' free' busy' lazy -∗
     vm_struct_at vm (fit_start n align vstart free) n flags caller size -∗ Phi vm) -∗
  wp (__get_vm_area_node xa fuel G stk true size align shift flags vstart vend caller) Phi.
Proof.
  iIntros (n HG Hne Hq Hfit Hmod Hfl Hca Hsz Ht0 Ht1 Hroom Hfuel) "(%Hinv & Hh & Hrest) HP".
  unfold __get_vm_area_node. rw (proj2 (Z.eqb_neq _ _) Hne). fold (area_size size shift flags). fold n.
  kbind. iApply (kmalloc_logic with "Hh"); [done | done | done | exact Ht0 |].
  iIntros (vm vs Hvs) "Hh Hs Hw". change SIZEOF_VM with (8 * 9) in Hvs.
  assert (Hl : length vs = 9%nat) by lia. do 9 (destruct vs as [| ? vs]; [done |]). destruct vs; [| done].
  iAssert (⌜0 < vm < 2 ^ 64⌝)%I as %Hvm.
  { iDestruct "Hs" as (pa v us Hib) "_". iPureIntro. destruct Hib as [-> [B1 B2] _ _ _].
    assert (0 <= kmalloc_buf_size SIZEOF_VM) by (unfold kmalloc_buf_size; apply u64_range).
    change LINER_MAP_OFFSET with (2 ^ 64 - 2 ^ 48 - 0x40000000). unfold REGION_HDR in *. lia. }
  rw (proj2 (Z.eqb_neq vm 0)); [| lia].
  rw vm_image !own_words_cons. cbn [fst snd].
  iDestruct "Hw" as "(W0 & W1 & W2 & W3 & W4 & W5 & W6 & W7 & W8 & W9)".
  kbind. kstore "W3"; [done |]. kbind. kstore "W7"; [done |]. kbind. kstore "W8"; [done |].
  assert (Hd : forall o, vm_desc vm o ⊣⊢ match o with
    | None => ∃ w1 w2, pts (vm + VM_ADDR) w1 ∗ pts (vm + VM_SIZE) w2
    | Some (a, n) => pts (vm + VM_ADDR) a ∗ pts (vm + VM_SIZE) n end).
  { intros o. unfold vm_desc. rw (proj2 (Z.eqb_neq vm 0)); [done | lia]. }
  kbind. iApply (alloc_vmap_area_spec with "[Hh Hrest] [W1 W2]"); try done; [lia | by iFrame | by rw Hd; iExists _, _; iFrame |].
  iIntros (node free' busy' mb' Htk) "Hv Hd". rw Hd. iDestruct "Hd" as "[W1 W2]".
  iAssert (⌜IS_ERR_VALUE (va_of_rb node) = false⌝)%I as %->.
  { iDestruct "Hv" as "(_ & _ & _ & _ & _ & _ & Hsb & _)". destruct Htk as (x & s & e & y & k1 & k2 & b1 & b2 & _ & _ & _ & _ & -> & _).
    rw slacks_mid. iDestruct "Hsb" as "[(%pa & %v & %us & %Hib & _) _]". iPureIntro. cbn [fst] in Hib.
    destruct Hib as [-> [B1 B2] _ _ _]. unfold IS_ERR_VALUE. apply Z.leb_gt. change (u64 (- 4095)) with (2 ^ 64 - 4095).
    assert (0 <= kmalloc_buf_size SIZEOF_VA) by (unfold kmalloc_buf_size; apply u64_range).
    change LINER_MAP_OFFSET with (2 ^ 64 - 2 ^ 48 - 0x40000000). unfold REGION_HDR in *. lia. }
  iApply wp_ret. iApply ("HP" with "[//] Hv"). iExists _, _, _, _. iFrame "Hs". rw vm_image !own_words_cons. iFrame.
Qed.

(** ** Releasing an area *)

Lemma busy_sorted root head ks : busy_space root head ks -∗ ⌜ordered ks⌝.
Proof. by iIntros "(%t & %n & (_ & %Ho & _) & _)". Qed.

(** Looking an address up takes the area that contains it out of those in use. *)
Lemma vm_unlink_spec G mb free busy lazy addr (Phi : Z -> iProp Sg) :
  vm_own G mb free busy lazy -∗
  (match area_with addr busy with
   | None => vm_own G mb free busy lazy -∗ Phi 0
   | Some (x, (s, e)) => ∀ b1 b2 a, ⌜busy = b1 ++ (x, (s, e)) :: b2 /\ a_key a = (s, e)⌝ -∗
       vm_own G mb free (b1 ++ b2) lazy -∗ detached x (a : barea) -∗ va_slack x -∗ Phi (va_of_rb x)
   end) -∗
  wp (find_unlink_vmap_area addr (busy_root (sy_node G))) Phi.
Proof.
  iIntros "(%Hinv & Hh & Hpre & Hf & Hsf & Hb & Hsb & Hl & Hsl) HP".
  iApply (find_unlink_spec with "Hb"). destruct (area_with addr busy) as [[x [s e]] |] eqn:Ea; cbn [fst snd].
  - iIntros (b1 b2 a [-> Ha]) "Hb Hx". rw slacks_mid. iDestruct "Hsb" as "[Hsx Hsb]".
    iApply ("HP" $! b1 b2 a with "[//] [-Hx Hsx] Hx Hsx"). iSplit; [| iFrame].
    iPureIntro. destruct Hinv as [I1 I2 I3]. split; [| done |].
    + apply apart_sym. eapply apart_sub. apply apart_sym. exact I1.
    + by eapply apart_sub.
  - iIntros "Hb". iApply "HP". iSplit; [done |]. iFrame.
Qed.

(** [free_vmap_area_noflush] below the limit: the area is kept among the
    lazily freed ones. *)
Lemma free_lazy_spec fuel G stk mb free busy lazy nr x (a : barea) (Phi : unit -> iProp Sg) :
  let '(s, e) := a_key a in
  syms_ok G -> s < e -> 0 <= nr -> nr + Z.shiftr (e - s) PAGE_SHIFT <= lazy_max_pages ->
  apart free [(x, (s, e))] -> apart busy [(x, (s, e))] -> apart lazy [(x, (s, e))] ->
  vm_own G mb free busy lazy -∗ pts (sy_lazy_nr G) nr -∗ detached x a -∗ va_slack x -∗
  (∀ l1 l2, ⌜lazy = l1 ++ l2⌝ -∗ vm_own G mb free busy (l1 ++ (x, (s, e)) :: l2) -∗
     pts (sy_lazy_nr G) (nr + Z.shiftr (e - s) PAGE_SHIFT) -∗ Phi tt) -∗
  wp (free_vmap_area_noflush fuel G stk (va_of_rb x)) Phi.
Proof.
  destruct (a_key a) as [s e] eqn:Hk.
  iIntros (HG Hse Hnr Hmax A1 A2 A3) "(%Hinv & Hh & Hpre & Hf & Hsf & Hb & Hsb & Hl & Hsl) Hnr (%Hx & Hu & L1 & L2) Hsx HP".
  unfold free_vmap_area_noflush, list_empty, list_next. change (va_of_rb x + VA_LIST) with (entry x).
  kbind. kbind. kload "L1". iApply wp_ret. rw Z.eqb_refl. cbn [negb].
  iDestruct "Hu" as (u1 u2 u3) "(U1 & U2 & U3 & Up)". rw pay_key Hk. iDestruct "Up" as "(P1 & P2 & P3)". cbn [fst snd].
  iDestruct (pts_range with "P1") as %R1. iDestruct (pts_range with "P2") as %R2.
  kbind. iApply (wp_va_size with "P1 P2"). iIntros "P1 P2". rw (u64_small (e - s)); [| lia].
  kbind. kload "Hnr".
  assert (Hpg : 0 <= Z.shiftr (e - s) PAGE_SHIFT) by (apply Z.shiftr_nonneg; lia).
  assert (Hmx : lazy_max_pages < 2 ^ 64) by done.
  rw u64_small; [| lia]. kbind. kstore "Hnr"; [lia |].
  iAssert (loose x a) with "[U1 U2 U3 P1 P2 P3 L1 L2]" as "Hx".
  { iSplit; [done |]. iSplitR "L1 L2"; [| iExists _, _; iFrame]. iExists _, _, _. iFrame "U1 U2 U3". rw pay_key Hk. iFrame. }
  destruct HG as (_ & _ & HG). kbind. iApply (insert_busy_spec with "Hl Hx"); [done | by rw Hk | |].
  { rw Hk. intros k Hin. specialize (A3 k (x, (s, e)) Hin ltac:(by left)). exact A3. }
  iIntros (l1 l2 ->) "Hl". rw Hk.
  assert ((nr + Z.shiftr (e - s) PAGE_SHIFT >? lazy_max_pages) = false) as -> by (rw Z.gtb_ltb; apply Z.ltb_ge; lia).
  iApply wp_ret. iApply ("HP" with "[//] [-Hnr] Hnr"). iSplit.
  - iPureIntro. destruct Hinv as [I1 I2 I3]. split; [done | |]; by apply apart_insert.
  - iFrame "Hh Hpre Hf Hsf Hb Hsb Hl". rw slacks_mid. iFrame.
Qed.

End vm.
