(* ===== verification/VmapInit.v ===== *)
(** * Setting the allocator of kernel addresses up

    The segments of the kernel image are chained in the order of their
    addresses; each becomes an area in use, and the gaps between them become
    the free areas. *)

From iris.proofmode Require Import proofmode.
From iris.base_logic.lib Require Import gen_heap.
From S2P Require Import Prelude Memblock MemblockArray CString CStringSpec Kmalloc Kobj KobjLogic KobjAlloc.
From S2P Require Import Rbtree RbTrees RbtreeSpec RbtreeErase VmapArea VmapAug VmapTree VmapList VmapSpace.
From S2P Require Import VmapSearch VmapFree VmapAlloc VmapVm VmapVmSpec.

(** ** Chains of descriptors: address and size of each *)

(** Every descriptor begins at or after [lo] and the end of the one before. *)
Fixpoint chained (lo : Z) (l : list (Z * (Z * Z))) : Prop :=
  match l with
  | [] => lo < 2 ^ 64
  | (_, (a, n)) :: l' => lo <= a /\ 0 < n /\ chained (a + n) l'
  end.

Definition gap (lo hi : Z) : list (Z * Z) := if lo =? hi then [] else [(lo, hi)].

(** The ranges before, between and after them, up to the last address. *)
Fixpoint gaps (lo : Z) (l : list (Z * (Z * Z))) : list (Z * Z) :=
  match l with
  | [] => gap lo (2 ^ 64 - 1)
  | (_, (a, n)) :: l' => gap lo a ++ gaps (a + n) l'
  end.

Definition seg_ranges (l : list (Z * (Z * Z))) : list (Z * Z) := (fun '(_, (a, n)) => (a, a + n)) <$> l.

(** After [n] allocations of a node. *)
Fixpoint va_takes (n : nat) (mb : memblock) : option memblock :=
  match n with
  | O => Some mb
  | S n => mb1 ← mb_take SIZEOF_VA mb; va_takes n mb1
  end.

Lemma chained_end lo l : chained lo l -> lo < 2 ^ 64.
Proof. revert lo. induction l as [| [vm [a n]] l IH]; intros lo; simpl; [done |]. intros (H1 & H2 & H3). apply IH in H3. lia. Qed.

Lemma va_takes_1 mb mb' : va_takes 1 mb = Some mb' -> mb_take SIZEOF_VA mb = Some mb'.
Proof. simpl. by destruct (mb_take SIZEOF_VA mb). Qed.

Lemma va_takes_app n k mb : va_takes (n + k) mb = (va_takes n mb ≫= va_takes k).
Proof.
  revert mb. induction n as [| n IH]; intros mb; simpl; [done |].
  destruct (mb_take SIZEOF_VA mb) as [mb1 |]; simpl; [apply IH | done].
Qed.

Lemma chained_before lo l1 vm a n l2 : 0 <= lo -> chained lo (l1 ++ (vm, (a, n)) :: l2) ->
  Forall (fun k => 0 <= k.2.1 /\ 0 < k.2.2 /\ k.2.1 + k.2.2 <= a) l1 /\ lo <= a.
Proof.
  revert lo. induction l1 as [| [vm' [a' n']] l1 IH]; intros lo Hlo; simpl; [intros (? & _); by split |].
  intros (H1 & H2 & H3). destruct (IH (a' + n') ltac:(lia) H3) as [IH1 IH2].
  split; [| lia]. constructor; [simpl; lia | done].
Qed.

Lemma seg_ranges_lo lo l r : chained lo l -> r ∈ seg_ranges l -> lo <= r.1 /\ r.1 < r.2.
Proof.
  revert lo. induction l as [| [vm [a n]] l IH]; intros lo; simpl; [intros _ H; by apply elem_of_nil in H |].
  intros (H1 & H2 & H3) Hr. apply elem_of_cons in Hr as [-> | Hr]; [simpl; lia |].
  specialize (IH _ H3 Hr). lia.
Qed.

Lemma gaps_lo lo l r : chained lo l -> r ∈ gaps lo l -> lo <= r.1 /\ r.1 < r.2.
Proof.
  assert (Hgap : forall lo hi, lo <= hi -> r ∈ gap lo hi -> lo <= r.1 /\ r.1 < r.2).
  { intros l0 hi Hle. unfold gap. destruct (Z.eqb_spec l0 hi); intros H; [by apply elem_of_nil in H |].
    apply list_elem_of_singleton in H as ->. simpl. lia. }
  revert lo. induction l as [| [vm [a n]] l IH]; intros lo; simpl; [intros H; apply Hgap; lia |].
  intros (H1 & H2 & H3) Hr. apply elem_of_app in Hr as [Hr | Hr]; [by eapply Hgap |].
  specialize (IH _ H3 Hr). lia.
Qed.

(** Gaps and segments do not overlap. *)
Lemma gaps_apart lo l g r : chained lo l -> g ∈ gaps lo l -> r ∈ seg_ranges l -> g.2 <= r.1 \/ r.2 <= g.1.
Proof.
  revert lo. induction l as [| [vm [a n]] l IH]; intros lo; simpl; [intros _ _ H; by apply elem_of_nil in H |].
  intros (H1 & H2 & H3) Hg Hr. apply elem_of_app in Hg as [Hg | Hg].
  - unfold gap in Hg. destruct (lo =? a); [by apply elem_of_nil in Hg |]. apply list_elem_of_singleton in Hg as ->.
    left. apply elem_of_cons in Hr as [-> | Hr]; simpl; [lia |]. pose proof (seg_ranges_lo _ _ _ H3 Hr). lia.
  - apply elem_of_cons in Hr as [-> | Hr]; [| by eapply IH]. right. pose proof (gaps_lo _ _ _ H3 Hg). simpl. lia.
Qed.

Lemma zip_apart xs ys l : chained 1 l -> apart (zip xs (gaps 1 l)) (zip ys (seg_ranges l)).
Proof.
  intros Hc [x g] [y r] Hk Hk'. apply elem_of_zip_r in Hk, Hk'. by apply (gaps_apart 1 l).
Qed.

Section init.
Context `{!kheapGS Sg}.

Fixpoint vm_chain (p : Z) (l : list (Z * (Z * Z))) : iProp Sg :=
  match l with
  | [] => pts p 0
  | (vm, (a, n)) :: l' =>
      ⌜vm <> 0⌝ ∗ pts p vm ∗ pts (vm + VM_ADDR) a ∗ pts (vm + VM_SIZE) n ∗ vm_chain (vm + VM_NEXT) l'
  end.

Lemma free_nil root head : pts root 0 -∗ pts head head -∗ pts (head + 8) head -∗ free_space root head [].
Proof.
  iIntros "H1 H2 H3". iExists E, 0%nat. iSplit; [iPureIntro; split_and!; repeat constructor |].
  iSplit; [iPureIntro; constructor |]. iFrame.
Qed.

Lemma busy_nil root head : pts root 0 -∗ pts head head -∗ pts (head + 8) head -∗ busy_space root head [].
Proof.
  iIntros "H1 H2 H3". iExists E, 0%nat. iSplit; [iPureIntro; split_and!; repeat constructor |].
  iSplit; [iPureIntro; constructor |]. iFrame.
Qed.

(** ** Free areas *)

Definition below (lo : Z) (ks : list (Z * (Z * Z))) : Prop := forall k, k ∈ ks -> k.2.2 <= lo.

Lemma add_free_area_spec G lo hi ks mb mb' (Phi : unit -> iProp Sg) :
  sy_free_root G <> 0 -> 0 <= lo < 2 ^ 64 -> lo <= hi < 2 ^ 64 -> below lo ks ->
  va_takes (length (gap lo hi)) mb = Some mb' ->
  heap_is mb -∗ free_space (sy_free_root G) (sy_free_list G) ks -∗ slacks ks -∗
  (∀ xs, ⌜length xs = length (gap lo hi)⌝ -∗ heap_is mb' -∗
     free_space (sy_free_root G) (sy_free_list G) (ks ++ zip xs (gap lo hi)) -∗
     slacks (ks ++ zip xs (gap lo hi)) -∗ Phi tt) -∗
  wp (add_free_area G lo hi) Phi.
Proof.
  iIntros (HG Hlo Hhi Hb Ht) "Hh Hf Hs HP". unfold add_free_area. rw u64_small; [| lia]. unfold gap in *.
  destruct (Z.eqb_spec lo hi) as [-> | Hne].
  - replace (hi - hi =? 0) with true by (symmetry; apply Z.eqb_eq; lia). cbn [negb kwhen]. iApply wp_ret.
    injection Ht as ->. iApply ("HP" $! [] with "[//] Hh [Hf] [Hs]"); by rw app_nil_r.
  - rw (proj2 (Z.eqb_neq (hi - lo) 0)); [| lia]. cbn [negb kwhen length] in *.
    apply va_takes_1 in Ht as Hm.
    kbind. iApply (kmalloc_va_spec with "Hh"); [exact Hm |].
    iIntros (x s0 e0 u1 u2 u3 w1 w2 sub fl [Hx Hx0]) "Hh Hsx Hw". rw (proj2 (Z.eqb_neq _ _) Hx0). cbn [negb kwhen].
    rw area_image !own_words_cons. cbn [fst snd]. iDestruct "Hw" as "(Y1 & Y2 & Yr)".
    kbind. kstore "Y1"; [lia |]. kbind. kstore "Y2"; [lia |].
    rw -{1}(app_nil_r ks).
    iApply (insert_free_spec _ _ ks [] x (mkA lo hi sub fl) with "Hf [Y1 Y2 Yr]"); [done | simpl; lia | | |].
    + split; [exact Hb | by intros k ?%elem_of_nil].
    + iApply area_loose; [done | done |]. rw area_image !own_words_cons. cbn [fst snd]. iFrame.
    + iIntros "Hf". iApply ("HP" $! [x] with "[//] Hh Hf"). cbn [zip zip_with]. rw slacks_mid app_nil_r. iFrame.
Qed.

Lemma below_gap lo hi ks xs : lo <= hi -> below lo ks -> below hi (ks ++ zip xs (gap lo hi)).
Proof.
  intros Hle Hb k. rw elem_of_app. intros [Hk | Hk]; [specialize (Hb k Hk); lia |]. unfold gap in Hk.
  destruct (lo =? hi), xs as [| x xs]; simpl in Hk; try by apply elem_of_nil in Hk.
  rw zip_nil_r in Hk. apply list_elem_of_singleton in Hk as ->. simpl. lia.
Qed.

Lemma below_mono lo hi ks : lo <= hi -> below lo ks -> below hi ks.
Proof. intros H Hb k Hk. specialize (Hb k Hk). lia. Qed.

Lemma zip_app_split (xs ys : list Z) (g1 g2 : list (Z * Z)) : length xs = length g1 ->
  zip (xs ++ ys) (g1 ++ g2) = zip xs g1 ++ zip ys g2.
Proof. apply zip_with_app. Qed.

Lemma free_loop_spec fuel : forall G lo p l ks mb mb' (Phi : unit -> iProp Sg),
  (length l < fuel)%nat -> sy_free_root G <> 0 -> 0 <= lo -> chained lo l -> below lo ks ->
  va_takes (length (gaps lo l)) mb = Some mb' ->
  heap_is mb -∗ vm_chain p l -∗ free_space (sy_free_root G) (sy_free_list G) ks -∗ slacks ks -∗
  (∀ xs, ⌜length xs = length (gaps lo l)⌝ -∗ heap_is mb' -∗ vm_chain p l -∗
     free_space (sy_free_root G) (sy_free_list G) (ks ++ zip xs (gaps lo l)) -∗
     slacks (ks ++ zip xs (gaps lo l)) -∗ Phi tt) -∗
  wp (busy ← ldw p; free_loop fuel G lo busy) Phi.
Proof.
  induction fuel as [| fuel IH]; intros G lo p l ks mb mb' Phi Hl HG Hlo Hc Hb Ht; [lia |].
  iIntros "Hh Hc Hf Hs HP". destruct l as [| [vm [a n]] l]; cbn [vm_chain gaps chained length] in *.
  - kbind. kload "Hc". cbn [free_loop]. rw Z.eqb_refl.
    iApply (add_free_area_spec with "Hh Hf Hs"); [done | lia | lia | done | done |].
    iIntros (xs Hxs) "Hh Hf Hs". iApply ("HP" with "[//] Hh Hc Hf Hs").
  - destruct Hc as (H1 & H2 & H3). pose proof (chained_end _ _ H3) as H4.
    iDestruct "Hc" as "(%Hvm & C1 & C2 & C3 & Hc)". kbind. kload "C1". cbn [free_loop].
    rw (proj2 (Z.eqb_neq _ _) Hvm). kbind. kload "C2". rw length_app va_takes_app in Ht.
    destruct (va_takes (length (gap lo a)) mb) as [mb1 |] eqn:Ht1; [| done]. cbn in Ht.
    kbind. iApply (add_free_area_spec with "Hh Hf Hs"); [done | lia | lia | done | exact Ht1 |].
    iIntros (xs Hxs) "Hh Hf Hs". kbind. kload "C3". rw u64_small; [| lia].
    iApply (IH G (a + n) (vm + VM_NEXT) l with "Hh Hc Hf Hs"); [lia | done | lia | done | | exact Ht |].
    { apply (below_mono a); [lia |]. by apply below_gap. }
    iIntros (ys Hys) "Hh Hc Hf Hs". rw -app_assoc -zip_app_split; [| done].
    iApply ("HP" $! (xs ++ ys) with "[] Hh [C1 C2 C3 Hc] Hf Hs"); [iPureIntro; by rw !length_app Hxs Hys | by iFrame].
Qed.

Lemma init_free_space_spec fuel G l mb mb' (Phi : unit -> iProp Sg) :
  (length l < fuel)%nat -> sy_free_root G <> 0 -> chained 1 l -> va_takes (length (gaps 1 l)) mb = Some mb' ->
  heap_is mb -∗ vm_chain (sy_vmlist G) l -∗ free_space (sy_free_root G) (sy_free_list G) [] -∗
  (∀ xs, ⌜length xs = length (gaps 1 l)⌝ -∗ heap_is mb' -∗ vm_chain (sy_vmlist G) l -∗
     free_space (sy_free_root G) (sy_free_list G) (zip xs (gaps 1 l)) -∗ slacks (zip xs (gaps 1 l)) -∗ Phi tt) -∗
  wp (vmap_init_free_space fuel G) Phi.
Proof.
  iIntros (Hl HG Hc Ht) "Hh Hc Hf HP". unfold vmap_init_free_space.
  iApply (free_loop_spec fuel G 1 (sy_vmlist G) l [] with "Hh Hc Hf []"); [done | done | lia | done | | done | | done].
  - by intros k ?%elem_of_nil.
  - by iApply big_sepL_nil.
Qed.

(** ** Areas in use *)

Lemma last_place k1 x s e k2 : ordered (k1 ++ (x, (s, e)) :: k2) -> below s (k1 ++ k2) -> k2 = [].
Proof.
  intros Ho Hb. destruct k2 as [| k k2]; [done |]. apply ordered_app in Ho as (_ & Ho & _).
  apply ordered_cons in Ho as (Hse & Ho & Hk). apply ordered_cons in Ho as (Hkk & _).
  specialize (Hk k ltac:(by left)). specialize (Hb k ltac:(rw elem_of_app elem_of_cons; auto)).
  unfold key_before in Hk. simpl in *. lia.
Qed.

Lemma append_busy_spec root head ks x (a : barea) (Phi : unit -> iProp Sg) :
  root <> 0 -> (a_key a).1 < (a_key a).2 -> below (a_key a).1 ks ->
  busy_space root head ks -∗ loose x a -∗
  (busy_space root head (ks ++ [(x, a_key a)]) -∗ Phi tt) -∗
  wp (insert_vmap_area (va_of_rb x) root head) Phi.
Proof.
  iIntros (Hr Hse Hb) "Hbs Hx HP". iApply (insert_busy_spec with "Hbs Hx"); [done | done | |].
  { intros k Hk. left. by apply Hb. }
  iIntros (k1 k2 ->) "Hbs". iDestruct (busy_sorted with "Hbs") as %Ho. destruct (a_key a) as [s e].
  pose proof (last_place _ _ _ _ _ Ho Hb) as ->. rw app_nil_r. by iApply "HP".
Qed.

Lemma busy_loop_spec fuel : forall G lo p l ks mb mb' (Phi : unit -> iProp Sg),
  let root := busy_root (sy_node G) in let head := busy_head (sy_node G) in
  (length l < fuel)%nat -> root <> 0 -> 0 <= lo -> chained lo l -> below lo ks ->
  va_takes (length l) mb = Some mb' ->
  heap_is mb -∗ vm_chain p l -∗ busy_space root head ks -∗ slacks ks -∗
  (∀ xs, ⌜length xs = length l⌝ -∗ heap_is mb' -∗ vm_chain p l -∗
     busy_space root head (ks ++ zip xs (seg_ranges l)) -∗ slacks (ks ++ zip xs (seg_ranges l)) -∗ Phi tt) -∗
  wp (tmp ← ldw p; busy_loop fuel G tmp) Phi.
Proof.
  induction fuel as [| fuel IH]; intros G lo p l ks mb mb' Phi root head Hl HG Hlo Hc Hb Ht; [lia |].
  iIntros "Hh Hc Hf Hs HP". destruct l as [| [vm [a n]] l]; cbn [vm_chain chained length] in *.
  - kbind. kload "Hc". cbn [busy_loop]. rw Z.eqb_refl. iApply wp_ret. injection Ht as ->.
    iApply ("HP" $! [] with "[//] Hh Hc [Hf] [Hs]"); by rw app_nil_r.
  - destruct Hc as (H1 & H2 & H3). pose proof (chained_end _ _ H3) as H4.
    iDestruct "Hc" as "(%Hvm & C1 & C2 & C3 & Hc)". iDestruct (pts_range with "C1") as %Rvm.
    kbind. kload "C1". cbn [busy_loop]. rw (proj2 (Z.eqb_neq _ _) Hvm).
    cbn [va_takes] in Ht. destruct (mb_take SIZEOF_VA mb) as [mb1 |] eqn:Ht1; [| done]. cbn in Ht.
    kbind. iApply (kmalloc_va_spec with "Hh"); [exact Ht1 |].
    iIntros (x s0 e0 u1 u2 u3 w1 w2 sub fl [Hx Hx0]) "Hh Hsx Hw". rw (proj2 (Z.eqb_neq _ _) Hx0). cbn [negb kwhen].
    rw area_image !own_words_cons. cbn [fst snd].
    iDestruct "Hw" as "(Y1 & Y2 & Y3 & Y4 & Y5 & Y6 & Y7 & Y8 & Y9 & _)".
    kbind. kbind. kload "C2". kbind. kstore "Y1"; [lia |]. kbind. kload "C3". unfold va_start.
    kbind. kload "Y1". rw u64_small; [| lia]. kbind. kstore "Y2"; [lia |]. kbind. kstore "Y8"; [done |].
    iApply (append_busy_spec _ _ ks x (mkB (mkA a (a + n) vm fl)) with "Hf [Y1 Y2 Y3 Y4 Y5 Y6 Y7 Y8 Y9]");
      [done | simpl; lia | by apply (below_mono lo) | |].
    { iApply loose_busy. iApply area_loose; [done | done |]. rw area_image !own_words_cons. cbn [fst snd]. iFrame. by iApply big_sepL_nil. }
    cbn [a_key busy_aug ba ar_start ar_end]. iIntros "Hf".
    iApply (IH G (a + n) (vm + VM_NEXT) l _ mb1 with "Hh Hc Hf [Hs Hsx]"); [lia | done | lia | done | | exact Ht | |].
    { intros k. rw elem_of_app list_elem_of_singleton. intros [Hk | ->]; [specialize (Hb k Hk); lia | simpl; lia]. }
    { rw slacks_mid app_nil_r. iFrame. }
    iIntros (ys Hys) "Hh Hc Hf Hs". rw -app_assoc.
    iApply ("HP" $! (x :: ys) with "[] Hh [C1 C2 C3 Hc] Hf Hs"); [iPureIntro; simpl; lia | by iFrame].
Qed.

(** ** The chain of descriptors *)

Fixpoint last_link (p : Z) (l : list (Z * (Z * Z))) : Z :=
  match l with [] => p | (vm, _) :: l' => last_link (vm + VM_NEXT) l' end.

Lemma vm_chain_last p l : vm_chain p l -∗
  pts (last_link p l) 0 ∗ ∀ vm a n, ⌜vm <> 0⌝ -∗ pts (last_link p l) vm -∗ pts (vm + VM_ADDR) a -∗
    pts (vm + VM_SIZE) n -∗ pts (vm + VM_NEXT) 0 -∗ vm_chain p (l ++ [(vm, (a, n))]).
Proof.
  revert p. induction l as [| [vm [a n]] l IH]; intros p; cbn [vm_chain last_link app].
  - iIntros "$". iIntros (vm a n Hvm) "H1 H2 H3 H4". by iFrame.
  - iIntros "(%Hvm & H1 & H2 & H3 & H)". iDestruct (IH with "H") as "[$ H]".
    iIntros (vm' a' n' Hvm') "K1 K2 K3 K4". iFrame. iSplit; [done |]. by iApply ("H" with "[//] K1 K2 K3 K4").
Qed.

Lemma early_loop_spec fuel : forall p l addr size (Phi : Z -> iProp Sg),
  (length l < fuel)%nat -> Forall (fun k => 0 <= k.2.1 /\ 0 < k.2.2 /\ k.2.1 + k.2.2 <= addr) l -> addr < 2 ^ 64 ->
  vm_chain p l -∗ (vm_chain p l -∗ Phi (last_link p l)) -∗ wp (early_loop fuel p addr size) Phi.
Proof.
  induction fuel as [| fuel IH]; intros p l addr size Phi Hl Hf Ha; [lia |]. iIntros "Hc HP".
  destruct l as [| [vm [a n]] l]; cbn [vm_chain early_loop last_link length] in *.
  - kbind. kload "Hc". rw Z.eqb_refl. iApply wp_ret. by iApply "HP".
  - inversion Hf as [| ? ? (F0 & F1 & F2) Hf']; subst. cbn [fst snd] in F0, F1, F2.
    iDestruct "Hc" as "(%Hvm & C1 & C2 & C3 & Hc)". kbind. kload "C1". rw (proj2 (Z.eqb_neq _ _) Hvm).
    kbind. kload "C2". rw (proj2 (Z.leb_gt addr a)); [| lia]. kbind. kload "C3". rw u64_small; [| lia].
    assert ((a + n >? addr) = false) as -> by (rw Z.gtb_ltb; apply Z.ltb_ge; lia).
    iApply (IH with "Hc"); [lia | done | done |]. iIntros "Hc". iApply "HP". by iFrame.
Qed.

(** The words of a descriptor that is to be filled in. *)
Definition vm_blank (vm : Z) : iProp Sg :=
  ∃ v0 v1 v2 v3 v4 v5, pts (vm + VM_NEXT) v0 ∗ pts (vm + VM_ADDR) v1 ∗ pts (vm + VM_SIZE) v2
    ∗ pts (vm + VM_FLAGS) v3 ∗ pts (vm + VM_PHYS) v4 ∗ pts (vm + VM_CALLER) v5.

(** What a declared descriptor holds beside its place in the chain. *)
Definition vm_decl (kimg_phys : Z -> Z) (caller : Z) (seg : Z * Z * Z * Z) : iProp Sg :=
  let '(vm, lo, hi, flags) := seg in
  pts (vm + VM_FLAGS) (Z.lor VM_MAP flags) ∗ pts (vm + VM_PHYS) (kimg_phys lo) ∗ pts (vm + VM_CALLER) caller.

Definition seg_size (lo hi flags : Z) : Z :=
  if Z.land flags VM_NO_GUARD =? 0 then hi - lo + PAGE_SIZE else hi - lo.

Definition seg_entry (seg : Z * Z * Z * Z) : Z * (Z * Z) :=
  let '(vm, lo, hi, flags) := seg in (vm, (lo, seg_size lo hi flags)).

Record seg_ok (kimg_phys : Z -> Z) (vm lo hi flags : Z) : Prop := {
  so_vm : vm <> 0 /\ 0 <= vm < 2 ^ 64;
  so_range : 0 <= lo < hi /\ hi + PAGE_SIZE < 2 ^ 64;
  so_page : (hi - lo) mod 4096 = 0;
  so_phys : kimg_phys lo mod 4096 = 0 /\ 0 <= kimg_phys lo < 2 ^ 64;
  so_flags : 0 <= flags < 2 ^ 32;
}.

Lemma declare_vma_spec fuel G kimg_phys caller vm lo hi flags l (Phi : unit -> iProp Sg) :
  (length l < fuel)%nat -> seg_ok kimg_phys vm lo hi flags -> 0 <= caller < 2 ^ 64 ->
  Forall (fun k => 0 <= k.2.1 /\ 0 < k.2.2 /\ k.2.1 + k.2.2 <= lo) l ->
  vm_chain (sy_vmlist G) l -∗ vm_blank vm -∗
  (vm_chain (sy_vmlist G) (l ++ [seg_entry (vm, lo, hi, flags)]) -∗ vm_decl kimg_phys caller (vm, lo, hi, flags) -∗
   Phi tt) -∗
  wp (declare_vma fuel G kimg_phys caller vm lo hi flags) Phi.
Proof.
  iIntros (Hl [[S0 S1] [S2 S3] S4 [S5 S6] S7] Hca Hf) "Hc (%v0 & %v1 & %v2 & %v3 & %v4 & %v5 & V0 & V1 & V2 & V3 & V4 & V5) HP".
  unfold declare_vma, offset_in_page. change (PAGE_SIZE - 1) with (4096 - 1). change PAGE_SIZE with 4096 in *.
  rw (u64_small (hi - lo)); [| lia].
  rw (land_aligned _ _ is_pow2_PAGE_SIZE S5) (land_aligned _ _ is_pow2_PAGE_SIZE S4). cbn [Z.eqb negb].
  assert (Hsz : (if Z.land flags VM_NO_GUARD =? 0 then u64 (hi - lo + 4096) else hi - lo) = seg_size lo hi flags).
  { unfold seg_size. change PAGE_SIZE with 4096. destruct (_ =? 0); [apply u64_small; lia | done]. }
  rw Hsz. assert (0 <= seg_size lo hi flags < 2 ^ 64).
  { unfold seg_size. change PAGE_SIZE with 4096. destruct (_ =? 0); lia. }
  assert (0 <= Z.lor VM_MAP flags < 2 ^ 64).
  { split; [apply Z.lor_nonneg; unfold VM_MAP; lia |]. apply (Z.lt_le_trans _ (2 ^ 32)); [| lia].
    apply Z.log2_lt_cancel. rw Z.log2_lor; [| unfold VM_MAP; lia | lia]. change (Z.log2 (2 ^ 32)) with 32.
    apply Z.max_lub_lt; [done |]. destruct (decide (flags = 0)) as [-> | ?]; [done |]. apply Z.log2_lt_pow2; lia. }
  kbind. kstore "V1"; [lia |]. kbind. kstore "V4"; [done |]. kbind. kstore "V2"; [done |].
  kbind. kstore "V3"; [done |]. kbind. kstore "V5"; [done |].
  unfold vm_struct_add_early. kbind. kload "V1". kbind. kload "V2".
  kbind. iApply (early_loop_spec with "Hc"); [done | done | lia |]. iIntros "Hc".
  iDestruct (vm_chain_last with "Hc") as "[Hlast Hc]". kbind. kload "Hlast".
  kbind. kstore "V0"; [done |]. kstore "Hlast"; [done |].
  iApply ("HP" with "[-V3 V4 V5]"); [iApply ("Hc" with "[//] Hlast V1 V2 V0") | iFrame].
Qed.

(** ** [vmap_init] *)

Definition declare_all (fuel : nat) (G : vm_syms) (kimg_phys : Z -> Z) (caller : Z) (K : kprog unit)
    (segs : list (Z * Z * Z * Z)) : kprog unit :=
  foldr (fun '(vma, lo, hi, flags) k => declare_vma fuel G kimg_phys caller vma lo hi flags;; k) K segs.

Definition segs_ok (kimg_phys : Z -> Z) (segs : list (Z * Z * Z * Z)) : Prop :=
  Forall (fun '(vm, lo, hi, flags) => seg_ok kimg_phys vm lo hi flags) segs.

Lemma declare_all_spec fuel G kimg_phys caller K segs : forall l (Phi : unit -> iProp Sg),
  (length l + length segs < fuel)%nat -> segs_ok kimg_phys segs -> 0 <= caller < 2 ^ 64 ->
  chained 1 (l ++ (seg_entry <$> segs)) ->
  vm_chain (sy_vmlist G) l -∗ ([∗ list] s ∈ segs, vm_blank s.1.1.1) -∗
  (vm_chain (sy_vmlist G) (l ++ (seg_entry <$> segs)) -∗ ([∗ list] s ∈ segs, vm_decl kimg_phys caller s) -∗ wp K Phi) -∗
  wp (declare_all fuel G kimg_phys caller K segs) Phi.
Proof.
  induction segs as [| [[[vm lo] hi] flags] segs IH]; intros l Phi Hl Hok Hca Hch; cbn [declare_all foldr fmap list_fmap].
  - iIntros "Hc _ HP". rw app_nil_r. iApply ("HP" with "Hc"). done.
  - iIntros "Hc [Hv Hvs] HP". inversion Hok as [| ? ? Hseg Hok']; subst. cbn [length fmap list_fmap] in Hl, Hch.
    cbn [seg_entry] in Hch. destruct (chained_before 1 l vm lo _ _ ltac:(lia) Hch) as [Hb _].
    kbind. iApply (declare_vma_spec with "Hc Hv"); [lia | done | done | done |]. iIntros "Hc Hd".
    iApply (IH (l ++ [seg_entry (vm, lo, hi, flags)]) with "Hc Hvs"); [rw length_app; simpl; lia | done | done | by rw -app_assoc |].
    rw -app_assoc. iIntros "Hc Hds". iApply ("HP" with "Hc"). iFrame.
Qed.

(** Three words of a root and a list head, to be initialised. *)
Definition root_blank (root head : Z) : iProp Sg :=
  ∃ v1 v2 v3, pts root v1 ∗ pts head v2 ∗ pts (head + 8) v3.

Lemma init_root_spec {B} root head (K : kprog B) (Phi : B -> iProp Sg) : 0 <= head < 2 ^ 64 ->
  root_blank root head -∗ (busy_space root head [] -∗ wp K Phi) -∗
  wp (stw root 0;; INIT_LIST_HEAD head;; K) Phi.
Proof.
  iIntros (Hh) "(%v1 & %v2 & %v3 & H1 & H2 & H3) HP". unfold INIT_LIST_HEAD.
  kbind. kstore "H1"; [done |]. kbind. kbind. kstore "H2"; [done |]. kstore "H3"; [done |].
  iApply "HP". iApply (busy_nil with "H1 H2 H3").
Qed.

Lemma vmap_init_spec fuel G kimg_phys caller segs mb mb1 mb2 (Phi : unit -> iProp Sg) :
  let l := seg_entry <$> segs in let vn := sy_node G in
  (length segs < fuel)%nat -> syms_ok G -> segs_ok kimg_phys segs -> 0 <= caller < 2 ^ 64 ->
  0 <= busy_head vn < 2 ^ 64 -> 0 <= lazy_head vn < 2 ^ 64 -> chained 1 l ->
  va_takes (length segs) mb = Some mb1 -> va_takes (length (gaps 1 l)) mb1 = Some mb2 ->
  heap_is mb -∗ pts (sy_preload G) 0 -∗ pts (sy_vmlist G) 0 -∗
  free_space (sy_free_root G) (sy_free_list G) [] -∗
  root_blank (busy_root vn) (busy_head vn) -∗ root_blank (lazy_root vn) (lazy_head vn) -∗
  ([∗ list] s ∈ segs, vm_blank s.1.1.1) -∗
  (∀ xs ys, ⌜length xs = length (gaps 1 l) /\ length ys = length segs⌝ -∗
     vm_own G mb2 (zip xs (gaps 1 l)) (zip ys (seg_ranges l)) [] -∗
     vm_chain (sy_vmlist G) l -∗ ([∗ list] s ∈ segs, vm_decl kimg_phys caller s) -∗ Phi tt) -∗
  wp (vmap_init fuel G kimg_phys caller segs) Phi.
Proof.
  iIntros (l vn Hl (G1 & G2 & G3) Hok Hca Hbh Hlh Hch Ht1 Ht2) "Hh Hpre Hvl Hf Hb Hlz Hvs HP".
  assert (Hll : length l = length segs) by apply length_fmap.
  unfold vmap_init, vmap_base_init. kbind. fold vn.
  iApply (init_root_spec with "Hb"); [done |]. iIntros "Hb".
  iAssert (wp (stw (lazy_root vn) 0;; INIT_LIST_HEAD (lazy_head vn))
    (fun _ => busy_space (lazy_root vn) (lazy_head vn) [])) with "[Hlz]" as "Hlz".
  { iDestruct "Hlz" as (v1 v2 v3) "(H1 & H2 & H3)". unfold INIT_LIST_HEAD.
    kbind. kstore "H1"; [done |]. kbind. kstore "H2"; [done |]. kstore "H3"; [done |]. iApply (busy_nil with "H1 H2 H3"). }
  iApply (wp_wand with "Hlz"). iIntros ([]) "Hlz". kbind. unfold declare_kernel_vmas.
  iApply (declare_all_spec fuel G kimg_phys caller _ segs [] with "Hvl Hvs"); [done.. |]. cbn [app]. fold l.
  iIntros "Hc Hds".
  iApply (busy_loop_spec fuel G 1 (sy_vmlist G) l [] mb mb1 with "Hh Hc Hb []"); [by rw Hll | done | lia | done | | by rw Hll | |].
  { by intros k ?%elem_of_nil. }
  { by iApply big_sepL_nil. }
  iIntros (ys Hys) "Hh Hc Hb Hsb". cbn [app].
  iApply (init_free_space_spec with "Hh Hc Hf"); [by rw Hll | done | done | exact Ht2 |].
  iIntros (xs Hxs) "Hh Hc Hf Hsf". iApply ("HP" $! xs ys with "[] [-Hc Hds] Hc Hds"); [iPureIntro; by rw Hys |].
  iSplit; [iPureIntro; split; [by apply zip_apart | by intros k k' _ ?%elem_of_nil..] |].
  iFrame. by iApply big_sepL_nil.
Qed.

End init.
