(* ===== verification/VmapState.v ===== *)
(** * The allocator of kernel addresses as a state of the heap

    [vm_layout]: the words that hold the three sets of areas, with the blocks
    of their nodes.  [vm_state]: a heap holds them.  The specifications of the
    logic become statements about heaps before and after a call. *)

From iris.proofmode Require Import proofmode.
From iris.base_logic.lib Require Import gen_heap.
From S2P Require Import Prelude Memblock MemblockArray MemblockRange MemblockAlloc CString CStringSpec Kmalloc.
From S2P Require Import Kobj KobjLogic KobjAlloc Rbtree RbTrees RbtreeSpec RbtreeErase RbtreePlain VmapArea.
From S2P Require Import VmapAug VmapTree VmapList VmapSpace VmapSearch VmapFree VmapAlloc VmapVm VmapVmSpec VmapInit.

(** ** The words of a space *)

Fixpoint edge_words (x : Z) (es : list Z) (y : Z) : list (Z * Z) :=
  match es with
  | [] => [(x, y); (y + 8, x)]
  | e :: es' => (x, e) :: (e + 8, x) :: edge_words e es' y
  end.

Definition space_words {A} `{!Aug A, !AugOps A} (root head : Z) (t : tree A) : list (Z * Z) :=
  (root, addr t) :: tree_words 0 t ++ edge_words head (lents (inord t)) head.

(** The shape of a tree of areas. *)
Record space_shape {A} `{!Aug A} (ks : list (Z * (Z * Z))) (t : tree A) : Prop := {
  ss_keys : inord t = ks;
  ss_order : ordered ks;
  ss_bal : exists n, rb t Black n;
  ss_null : nonnull ks;
  ss_ptr : Forall ptr_ok (nodes t);
}.

(** The words of a block around its object. *)
Definition slack_words (ram : Z -> Prop) (size p : Z) (ws : list (Z * Z)) : Prop :=
  exists pa v vs, in_block ram size p pa (length vs)
    /\ ws = (p - 16, kmalloc_buf_size size) :: (p - 8, v) :: word_list (p + size) vs.

Definition slacks_words (ram : Z -> Prop) (ks : list (Z * (Z * Z))) (ws : list (Z * Z)) : Prop :=
  exists wss, Forall2 (fun k ws => slack_words ram SIZEOF_VA (va_of_rb k.1) ws) ks wss /\ ws = concat wss.

Definition vm_layout (G : vm_syms) (ram : Z -> Prop) (free busy lazy : list (Z * (Z * Z))) (ws : list (Z * Z)) : Prop :=
  exists (tf : tree area) (tb tl : tree barea) sf sb sl,
    space_shape free tf /\ aug_ok tf /\ space_shape busy tb /\ space_shape lazy tl
    /\ slacks_words ram free sf /\ slacks_words ram busy sb /\ slacks_words ram lazy sl
    /\ ws = (sy_preload G, 0)
         :: space_words (sy_free_root G) (sy_free_list G) tf ++ sf
         ++ space_words (busy_root (sy_node G)) (busy_head (sy_node G)) tb ++ sb
         ++ space_words (lazy_root (sy_node G)) (lazy_head (sy_node G)) tl ++ sl.

(** The heap holds the three sets in the words [ws], and the words [extra]. *)
Record vm_state (G : vm_syms) (free busy lazy : list (Z * (Z * Z))) (ws extra : list (Z * Z)) (h : kheap) : Prop := {
  vs_inv : vm_inv free busy lazy;
  vs_layout : vm_layout G (covers (memory (kh_mb h))) free busy lazy ws;
  vs_heap : heap_holds h (ws ++ extra);
}.

Section own.
Context `{!kheapGS Sg}.

Lemma own_edges es : forall x y, own_words (edge_words x es y) ⊣⊢ edges x es y.
Proof.
  induction es as [| e es IH]; intros x y; cbn [edge_words edges]; rw !own_words_cons; cbn [fst snd].
  - iSplit; [iIntros "($ & $ & _)" | iIntros "($ & $)"; by iApply big_sepL_nil].
  - by rw IH.
Qed.

Section space.
Context {A : Type} `{!Aug A, !AugOps A}.

Lemma own_space root head ks (t : tree A) : space_shape ks t ->
  own_words (space_words root head t) ⊢ vtree root head t.
Proof.
  intros [H1 H2 H3 H4 H5]. unfold space_words. rw own_words_cons own_words_app own_edges own_tree; [| done].
  cbn [fst snd]. iIntros "($ & $ & $)". iPureIntro. by rw H1.
Qed.

Lemma space_own root head (t : tree A) : vtree root head t ⊢
  own_words (space_words root head t) ∗ ⌜nonnull (inord t) /\ Forall ptr_ok (nodes t)⌝.
Proof.
  unfold space_words. rw own_words_cons own_words_app own_edges. cbn [fst snd].
  iIntros "(%Hn & $ & Ht & $)". iDestruct (tree_own with "Ht") as "[$ %Hp]". done.
Qed.

End space.

Lemma own_slack size p ws : slack_words kheap_ram size p ws -> own_words ws ⊢ slack size p.
Proof.
  intros (pa & v & vs & Hib & ->). rw !own_words_cons. cbn [fst snd]. iIntros "(H1 & H2 & H3)".
  iExists pa, v, vs. by iFrame.
Qed.

Lemma slack_own size p : slack size p ⊢ ∃ ws, ⌜slack_words kheap_ram size p ws⌝ ∗ own_words ws.
Proof.
  iIntros "(%pa & %v & %vs & %Hib & H1 & H2 & H3)". iExists _. iSplit; [iPureIntro; by exists pa, v, vs |].
  rw !own_words_cons. iFrame.
Qed.

Lemma own_slacks ks ws : slacks_words kheap_ram ks ws -> own_words ws ⊢ slacks ks.
Proof.
  intros (wss & HF & ->). induction HF as [| k ws ks wss Hk HF IH]; simpl; [iIntros "_"; by iApply big_sepL_nil |].
  rw own_words_app slacks_cons IH own_slack; [done | exact Hk].
Qed.

Lemma slacks_own ks : slacks ks ⊢ ∃ ws, ⌜slacks_words kheap_ram ks ws⌝ ∗ own_words ws.
Proof.
  induction ks as [| k ks IH].
  - iIntros "_". iExists []. iSplit; [iPureIntro; by exists [] | by iApply big_sepL_nil].
  - rw slacks_cons IH /va_slack slack_own. iIntros "[(%w & %Hw & H1) (%ws & (%wss & %HF & ->) & H2)]".
    iExists (w ++ concat wss). iSplit; [iPureIntro; exists (w :: wss); by split; [constructor |] |].
    rw own_words_app. iFrame.
Qed.

Lemma own_layout G mb free busy lazy ws : vm_inv free busy lazy -> vm_layout G kheap_ram free busy lazy ws ->
  heap_is mb -∗ own_words ws -∗ vm_own G mb free busy lazy.
Proof.
  intros Hinv (tf & tb & tl & sf & sb & sl & F1 & F2 & B1 & L1 & S1 & S2 & S3 & ->).
  rw own_words_cons !own_words_app. cbn [fst snd].
  iIntros "Hh (Hp & Hf & Hsf & Hb & Hsb & Hl & Hsl)". iSplit; [done |]. iFrame "Hh Hp".
  iDestruct (own_slacks with "Hsf") as "$"; [done |]. iDestruct (own_slacks with "Hsb") as "$"; [done |].
  iDestruct (own_slacks with "Hsl") as "$"; [done |].
  iDestruct (own_space with "Hf") as "Hf"; [done |]. iDestruct (own_space with "Hb") as "Hb"; [done |].
  iDestruct (own_space with "Hl") as "Hl"; [done |].
  destruct F1 as [F11 F12 [nf F13] _ _], B1 as [B11 B12 [nb B13] _ _], L1 as [L11 L12 [nl L13] _ _].
  iSplitL "Hf"; [iExists tf, nf; by iFrame |]. iSplitL "Hb"; [iExists tb, nb; by iFrame | iExists tl, nl; by iFrame].
Qed.

Lemma busy_own root head ks : busy_space root head ks ⊢
  ∃ t, ⌜space_shape ks t⌝ ∗ own_words (space_words root head t).
Proof.
  iIntros "(%t & %n & (%Hi & %Ho & %Hr) & Hv)". rw space_own. iDestruct "Hv" as "[Hv [%Hn %Hp]]".
  iExists t. iFrame. iPureIntro. rw Hi in Hn. split; eauto.
Qed.

Lemma layout_own G mb free busy lazy : vm_own G mb free busy lazy -∗
  ⌜vm_inv free busy lazy⌝ ∗ heap_is mb ∗ ∃ ws, ⌜vm_layout G kheap_ram free busy lazy ws⌝ ∗ own_words ws.
Proof.
  iIntros "($ & $ & Hp & Hf & Hsf & Hb & Hsb & Hl & Hsl)".
  iDestruct (slacks_own with "Hsf") as (sf S1) "Hsf". iDestruct (slacks_own with "Hsb") as (sb S2) "Hsb".
  iDestruct (slacks_own with "Hsl") as (sl S3) "Hsl".
  iDestruct (busy_own with "Hb") as (tb B1) "Hb". iDestruct (busy_own with "Hl") as (tl L1) "Hl".
  iDestruct "Hf" as (tf nf (Hi & Ho & Hg & Hr)) "Hf". rw (space_own _ _ tf). iDestruct "Hf" as "[Hf [%Hn %Hptr]]".
  iExists _. iSplit.
  - iPureIntro. exists tf, tb, tl, sf, sb, sl. split; [| split; [exact Hg |]; split; [exact B1 |]; split; [exact L1 |]; split; [exact S1 |];
      split; [exact S2 |]; split; [exact S3 | done]].
    rw Hi in Hn. split; eauto.
  - rw own_words_cons !own_words_app. iFrame.
Qed.

End own.

Lemma layout_ram G ram ram' free busy lazy ws : (forall a, ram a -> ram' a) ->
  vm_layout G ram free busy lazy ws -> vm_layout G ram' free busy lazy ws.
Proof.
  intros Hr. assert (Hs : forall size p w, slack_words ram size p w -> slack_words ram' size p w).
  { intros size p w (pa & v & vs & [I1 I2 I3 I4 I5] & ->). exists pa, v, vs. split; [split; auto | done]. }
  assert (Hss : forall ks w, slacks_words ram ks w -> slacks_words ram' ks w).
  { intros ks w (wss & HF & ->). exists wss. split; [| done]. eapply Forall2_impl; [exact HF |]. intros k w Hk. by apply Hs. }
  intros (tf & tb & tl & sf & sb & sl & F1 & F2 & B1 & L1 & S1 & S2 & S3 & ->).
  exists tf, tb, tl, sf, sb, sl. by auto 20.
Qed.

(** What nothing owns is not changed, and the same bytes are mapped. *)
Record vm_frame (ws extra : list (Z * Z)) (h h' : kheap) : Prop := {
  vf_dom : same_dom h h';
  vf_out : forall a, off_words (ws ++ extra) a -> ~ free_byte (kh_mb h) (a - LINER_MAP_OFFSET) ->
    kh_mem h' !! a = kh_mem h !! a;
}.

(** A specification in the logic, stated on heaps. *)
Lemma vm_adequate {A} (c : kprog A) G free busy lazy ws extra h
    (Q : A -> list (Z * (Z * Z)) -> list (Z * (Z * Z)) -> list (Z * (Z * Z)) -> list (Z * Z) -> memblock -> Prop) :
  (forall Sg `{!kheapGS Sg}, kheap_ram = covers (memory (kh_mb h)) ->
    vm_own G (kh_mb h) free busy lazy -∗ own_words extra -∗
    wp c (fun x => ∃ free' busy' lazy' extra' mb', ⌜Q x free' busy' lazy' extra' mb'⌝
      ∗ vm_own G mb' free' busy' lazy' ∗ own_words extra')) ->
  vm_state G free busy lazy ws extra h ->
  exists x h' free' busy' lazy' ws' extra', c h = Done (x, h')
    /\ Q x free' busy' lazy' extra' (kh_mb h') /\ vm_state G free' busy' lazy' ws' extra' h'
    /\ vm_frame ws extra h h'.
Proof.
  intros Hc [Hinv Hlay Hh].
  destruct (heap_adequate c (ws ++ extra)
    (fun x mb' wsx => exists free' busy' lazy' ws' extra', Q x free' busy' lazy' extra' mb'
       /\ vm_inv free' busy' lazy' /\ vm_layout G (covers (memory (kh_mb h))) free' busy' lazy' ws'
       /\ wsx = ws' ++ extra') h)
    as (x & h' & wsx & E & (free' & busy' & lazy' & ws' & extra' & HQ & Hinv' & Hlay' & ->) & Hh' & Hram & Hdom & Hfr);
    [| done |].
  - intros Sg HG Hram. rw own_words_app. iIntros "Hh [Hw He]". rw -Hram in Hlay.
    iDestruct (own_layout with "Hh Hw") as "Hv"; [done | done |].
    iApply (wp_wand with "[-]"); [iApply (Hc Sg HG Hram with "Hv He") |].
    iIntros (x) "(%free' & %busy' & %lazy' & %extra' & %mb' & %HQ & Hv & He)".
    iDestruct (layout_own with "Hv") as "(%Hinv' & Hh & %ws' & %Hlay' & Hw)".
    iExists mb', (ws' ++ extra'). rw own_words_app. iFrame. iPureIntro. rw Hram in Hlay'.
    by exists free', busy', lazy', ws', extra'.
  - exists x, h', free', busy', lazy', ws', extra'. split; [done |]. split; [done |]. split; [| done].
    split; [done | | done]. eapply layout_ram; [| exact Hlay']. intros a Ha. by apply Hram.
Qed.
