(* ===== verification/VmapRefine.v ===== *)
(** * The allocator of kernel addresses on the heap

    The operations of [vm.c] on a heap that holds the three sets of areas:
    what they return and which sets the heap holds afterwards. *)

From iris.proofmode Require Import proofmode.
From iris.base_logic.lib Require Import gen_heap.
From S2P Require Import Prelude Memblock MemblockList MemblockArray MemblockRange MemblockAlloc CString CStringSpec Kmalloc.
From S2P Require Import Kobj KobjLogic KobjAlloc Rbtree RbTrees RbtreeSpec RbtreeErase RbtreePlain VmapArea.
From S2P Require Import VmapAug VmapTree VmapList VmapSpace VmapSearch VmapFree VmapAlloc VmapVm VmapVmSpec VmapInit VmapState.

(** The words of a descriptor in its block. *)
Definition desc_words (ram : Z -> Prop) (vm addr size flags caller req : Z) (ws : list (Z * Z)) : Prop :=
  exists v0 v4 v5 v6 sl, slack_words ram SIZEOF_VM vm sl
    /\ ws = sl ++ word_list vm [v0; addr; size; flags; v4; v5; v6; caller; req].

Lemma desc_own `{!kheapGS Sg} vm addr size flags caller req :
  vm_struct_at vm addr size flags caller req -∗
  ∃ ws, ⌜desc_words kheap_ram vm addr size flags caller req ws⌝ ∗ own_words ws.
Proof.
  iIntros "(%v0 & %v4 & %v5 & %v6 & Hs & Hw)". iDestruct (slack_own with "Hs") as (sl Hsl) "Hs".
  iExists (sl ++ word_list vm [v0; addr; size; flags; v4; v5; v6; caller; req]). iSplit.
  - iPureIntro. by exists v0, v4, v5, v6, sl.
  - rw own_words_app. iFrame.
Qed.

(** ** Set-up *)

(** The words of the chain of descriptors, and what else they hold. *)
Fixpoint chain_words (p : Z) (l : list (Z * (Z * Z))) : list (Z * Z) :=
  match l with
  | [] => [(p, 0)]
  | (vm, (a, n)) :: l' => [(p, vm); (vm + VM_ADDR, a); (vm + VM_SIZE, n)] ++ chain_words (vm + VM_NEXT) l'
  end.

Definition decl_words (kimg_phys : Z -> Z) (caller : Z) (segs : list (Z * Z * Z * Z)) : list (Z * Z) :=
  segs ≫= fun '(vm, lo, _, flags) =>
    [(vm + VM_FLAGS, Z.lor VM_MAP flags); (vm + VM_PHYS, kimg_phys lo); (vm + VM_CALLER, caller)].

(** The static variables before [vmap_init]: zero, but for the head of the
    free list, which the source initialises. *)
Definition blank_words (segs : list (Z * Z * Z * Z)) : list (Z * Z) :=
  segs ≫= fun s => (fun o => (s.1.1.1 + o, 0)) <$> [VM_NEXT; VM_ADDR; VM_SIZE; VM_FLAGS; VM_PHYS; VM_CALLER].

Definition static_words (G : vm_syms) : list (Z * Z) :=
  let vn := sy_node G in
  [(sy_preload G, 0); (sy_vmlist G, 0);
   (sy_free_root G, 0); (sy_free_list G, sy_free_list G); (sy_free_list G + 8, sy_free_list G);
   (busy_root vn, 0); (busy_head vn, 0); (busy_head vn + 8, 0);
   (lazy_root vn, 0); (lazy_head vn, 0); (lazy_head vn + 8, 0)].

Section words.
Context `{!kheapGS Sg}.

Lemma chain_own l : forall p, vm_chain p l ⊢ own_words (chain_words p l).
Proof.
  induction l as [| [vm [a n]] l IH]; intros p; cbn [vm_chain chain_words app]; rw !own_words_cons; cbn [fst snd].
  - iIntros "$". by iApply big_sepL_nil.
  - rw IH. iIntros "(_ & $ & $ & $ & $)".
Qed.

Lemma decl_own kimg_phys caller segs :
  ([∗ list] s ∈ segs, vm_decl kimg_phys caller s) ⊢ own_words (decl_words kimg_phys caller segs).
Proof.
  induction segs as [| [[[vm lo] hi] flags] segs IH]; [iIntros "_"; by iApply big_sepL_nil |].
  cbn [decl_words mbind list_bind]. rw big_sepL_cons own_words_app !own_words_cons IH. cbn [fst snd vm_decl].
  iIntros "[($ & $ & $) $]". by iApply big_sepL_nil.
Qed.

Lemma own_blank segs : own_words (blank_words segs) ⊢ [∗ list] s ∈ segs, vm_blank s.1.1.1.
Proof.
  induction segs as [| [[[vm lo] hi] flags] segs IH]; [by iIntros "_" |].
  cbn [blank_words mbind list_bind fmap list_fmap]. rw big_sepL_cons own_words_app !own_words_cons IH. cbn [fst snd].
  iIntros "[(H0 & H1 & H2 & H3 & H4 & H5 & _) $]". iExists _, _, _, _, _, _. iFrame.
Qed.

Lemma own_static G : own_words (static_words G) ⊢
  pts (sy_preload G) 0 ∗ pts (sy_vmlist G) 0 ∗ free_space (sy_free_root G) (sy_free_list G) []
  ∗ root_blank (busy_root (sy_node G)) (busy_head (sy_node G))
  ∗ root_blank (lazy_root (sy_node G)) (lazy_head (sy_node G)).
Proof.
  unfold static_words. rw !own_words_cons. cbn [fst snd].
  iIntros "($ & $ & F1 & F2 & F3 & B1 & B2 & B3 & L1 & L2 & L3 & _)".
  iSplitL "F1 F2 F3"; [iApply (free_nil with "F1 F2 F3") |].
  iSplitL "B1 B2 B3"; iExists _, _, _; iFrame.
Qed.
End words.

(** The descriptors and the symbols [vmap_init] is given, and room in the
    allocator for a node per area. *)
Record init_request (G : vm_syms) (kimg_phys : Z -> Z) (caller : Z) (segs : list (Z * Z * Z * Z)) (fuel : nat)
    (mb mb1 mb2 : memblock) : Prop := {
  ir_syms : syms_ok G;
  ir_heads : 0 <= busy_head (sy_node G) < 2 ^ 64 /\ 0 <= lazy_head (sy_node G) < 2 ^ 64;
  ir_segs : segs_ok kimg_phys segs /\ chained 1 (seg_entry <$> segs);
  ir_caller : 0 <= caller < 2 ^ 64;
  ir_takes : va_takes (length segs) mb = Some mb1
    /\ va_takes (length (gaps 1 (seg_entry <$> segs))) mb1 = Some mb2;
  ir_fuel : (length segs < fuel)%nat;
}.

(** No address is lost between the gaps and the segments. *)
Lemma gaps_cover l a : forall lo, chained lo l -> lo <= a < 2 ^ 64 - 1 ->
  (exists r, r ∈ gaps lo l ++ seg_ranges l /\ r.1 <= a < r.2).
Proof.
  assert (Hgap : forall lo hi, lo <= a < hi -> (lo, hi) ∈ gap lo hi).
  { intros lo hi H. unfold gap. destruct (Z.eqb_spec lo hi); [lia |]. by left. }
  induction l as [| [vm [b n]] l IH]; intros lo; cbn [chained gaps].
  - intros _ Ha. exists (lo, 2 ^ 64 - 1). rw elem_of_app. split; [left; by apply Hgap | exact Ha].
  - intros (H1 & H2 & H3) Ha. destruct (decide (a < b)).
    { exists (lo, b). rw !elem_of_app. split; [left; left; apply Hgap; lia | simpl; lia]. }
    destruct (decide (a < b + n)).
    { exists (b, b + n). rw elem_of_app. split; [right; by left | simpl; lia]. }
    destruct (IH (b + n) H3 ltac:(lia)) as (r & Hr & Hin). exists r. split; [| done].
    revert Hr. rw !elem_of_app. cbn [seg_ranges fmap list_fmap]. rw elem_of_cons. tauto.
Qed.

Lemma vmap_init_run fuel G kimg_phys caller segs extra h mb1 mb2 :
  heap_holds h ((static_words G ++ blank_words segs) ++ extra) ->
  init_request G kimg_phys caller segs fuel (kh_mb h) mb1 mb2 ->
  let l := seg_entry <$> segs in
  exists h' free busy ws,
    vmap_init fuel G kimg_phys caller segs h = Done (tt, h')
    /\ free.*2 = gaps 1 l /\ busy.*2 = seg_ranges l
    /\ (forall a, 1 <= a < 2 ^ 64 - 1 -> exists k, k ∈ free ++ busy /\ k.2.1 <= a < k.2.2)
    /\ vm_state G free busy [] ws ((chain_words (sy_vmlist G) l ++ decl_words kimg_phys caller segs) ++ extra) h'
    /\ kh_mb h' = mb2
    /\ vm_frame (static_words G ++ blank_words segs) extra h h'.
Proof.
  intros Hh [I1 [I2 I3] [I4 I5] I6 [I7 I8] I9] l.
  set (decl := chain_words (sy_vmlist G) l ++ decl_words kimg_phys caller segs).
  destruct (heap_adequate (vmap_init fuel G kimg_phys caller segs) ((static_words G ++ blank_words segs) ++ extra)
    (fun _ mb' wsx => mb' = mb2 /\ exists xs ys ws, length xs = length (gaps 1 l) /\ length ys = length segs
       /\ wsx = ws ++ decl ++ extra
       /\ vm_inv (zip xs (gaps 1 l)) (zip ys (seg_ranges l)) []
       /\ vm_layout G (covers (memory (kh_mb h))) (zip xs (gaps 1 l)) (zip ys (seg_ranges l)) [] ws) h)
    as ([] & h' & wsx & E & (Hmb & xs & ys & ws & L1 & L2 & -> & Hinv & Hlay) & Hh' & Hram & Hdom & Hfr); [| done |].
  - intros Sg HG Hram. rw !own_words_app own_static own_blank. iIntros "Hh [[(H1 & H2 & H3 & H4 & H5) H6] He]".
    iApply (vmap_init_spec with "Hh H1 H2 H3 H4 H5 H6"); try done.
    iIntros (xs ys [L1 L2]) "Hv Hc Hd". iDestruct (layout_own with "Hv") as "(%Hinv & Hh & %ws & %Hlay & Hw)".
    iExists mb2, (ws ++ decl ++ extra). unfold decl. rw !own_words_app chain_own decl_own. iFrame. iPureIntro.
    split; [done |]. exists xs, ys, ws. by rw -Hram.
  - assert (Hsz : length (seg_ranges l) = length segs) by (unfold seg_ranges, l; by rw !length_fmap).
    assert (Hf : (zip xs (gaps 1 l)).*2 = gaps 1 l) by (apply snd_zip; lia).
    assert (Hb : (zip ys (seg_ranges l)).*2 = seg_ranges l) by (apply snd_zip; lia).
    exists h', (zip xs (gaps 1 l)), (zip ys (seg_ranges l)), ws.
    split; [done |]. split; [done |]. split; [done |]. split.
    { intros a Ha. destruct (gaps_cover l a 1 I5 Ha) as (r & Hr & Hin).
      rw -Hf -Hb -fmap_app in Hr. apply list_elem_of_fmap in Hr as (k & -> & Hk). by exists k. }
    split; [| done]. split; [done | | done]. eapply layout_ram; [| exact Hlay]. intros a Ha. by apply Hram.
Qed.

(** ** Allocation *)

Record area_request (mb mb0 mb1 : memblock) (fuel : nat) (free : list (Z * (Z * Z)))
    (size align shift flags vstart vend caller : Z) : Prop := {
  ar_ok : request (area_size size shift flags) align vstart vend;
  ar_pages : ALIGN_UP size (u64 (Z.shiftl 1 shift)) <> 0 /\ area_size size shift flags mod 4096 = 0;
  ar_args : 0 <= flags < 2 ^ 64 /\ 0 <= caller < 2 ^ 64 /\ 0 <= size < 2 ^ 64;
  ar_fit : has_fit (area_size size shift flags) align vstart vend free;
  ar_heap : mb_take SIZEOF_VM mb = Some mb0 /\ mb_take SIZEOF_VA mb0 = Some mb1 /\ va_room mb1;
  ar_fuel : (search_fuel (length free) <= fuel)%nat;
}.

(** ** A board *)

(** The kernel image at 0xffff800080000000: five segments as
    [declare_kernel_vmas] names them, and the variables in its data. *)
Definition img : Z := 0xffff800080000000.
Definition syms0 : vm_syms :=
  mkSyms (img + 0x900000) (img + 0x900010) (img + 0x900030) (img + 0x902000) (img + 0x900040) (img + 0x900048)
    (img + 0x900050).
Definition segs0 : list (Z * Z * Z * Z) :=
  kernel_segs (img + 0x901000) img (img + 0x200000) (img + 0x200000) (img + 0x300000) (img + 0x400000)
    (img + 0x400000) (img + 0x480000) (img + 0x800000) (img + 0xa00000).
Definition kimg0 (va : Z) : Z := va - img + 0x40000000.

Definition board_mb : memblock := after memblock_init (OpAdd 0x70000000 0x2000).
Definition board_ram : bmem := blit ∅ (0x70000000 + LINER_MAP_OFFSET) (replicate (Z.to_nat 0x2000) 0).
Definition board_heap (extra : list (Z * Z)) : kheap :=
  mkHeap board_mb (words_over board_ram ((static_words syms0 ++ blank_words segs0) ++ extra)).

Lemma board_mem a : covers (memory board_mb) a -> 0x70000000 <= a < 0x70002000.
Proof.
  intros Ha. apply covered_elem in Ha as (r & Hr & Hin).
  assert (live (memory board_mb) = [mkRegion 0x70000000 0x2000 0 16]) as E by (vm_compute; reflexivity).
  rw E in Hr. apply list_elem_of_singleton in Hr as ->. unfold rend in Hin. simpl in Hin. lia.
Qed.

Lemma board_alloc_ok : alloc_ok board_mb.
Proof.
  split; [| split; vm_compute; done | intros a Ha%board_mem; lia].
  refine (proj1 (history_blocks board_mb [] _)).
  apply (hist_add memblock_init [] 0x70000000 0x2000 0); [constructor | op_ok_tac | reflexivity].
Qed.

Definition clear_ram (w : Z * Z) : bool :=
  (w.1 + 8 <=? 0x70000000 + LINER_MAP_OFFSET) || (0x70002000 + LINER_MAP_OFFSET <=? w.1).

Lemma board_holds ws : words_ok ws = true -> forallb clear_ram ws = true ->
  heap_holds (mkHeap board_mb (words_over board_ram ws)) ws.
Proof.
  intros Hws Hcl. split; [exact board_alloc_ok | by apply words_over_ok |].
  intros a [Ha%board_mem _]. cbn [kh_mem].
  assert (Hoff : off_words ws (a + LINER_MAP_OFFSET)).
  { apply Forall_forall. intros w Hw%list_elem_of_In. rw forallb_forall in Hcl.
    specialize (Hcl w Hw). unfold clear_ram in Hcl. lia. }
  split; [done |]. exists 0. rw words_over_off; [| done]. split; [| lia].
  unfold board_ram. rw blit_lookup length_replicate.
  assert ((0x70000000 + LINER_MAP_OFFSET <=? a + LINER_MAP_OFFSET)
    && (a + LINER_MAP_OFFSET <? 0x70000000 + LINER_MAP_OFFSET + Z.of_nat (Z.to_nat 0x2000)) = true) as ->.
  { apply andb_true_iff. split; [apply Z.leb_le | apply Z.ltb_lt]; rw ?Z2Nat.id; lia. }
  apply lookup_replicate. split; [done | lia].
Qed.

Definition board_mb1 : memblock := from_option id board_mb (va_takes 5 board_mb).
Definition board_mb2 : memblock := from_option id board_mb (va_takes 3 board_mb1).

Lemma segs0_ok : segs_ok kimg0 segs0.
Proof. repeat (constructor; [split; vm_compute; done |]). constructor. Qed.

Lemma board_init : init_request syms0 kimg0 0x40080000 segs0 8 board_mb board_mb1 board_mb2.
Proof.
  split; [done | done | split; [exact segs0_ok |] | done | | simpl; lia].
  - vm_compute. done.
  - split; vm_compute; reflexivity.
Qed.

Lemma board_heap_holds : heap_holds (board_heap []) ((static_words syms0 ++ blank_words segs0) ++ []).
Proof. apply board_holds; vm_compute; reflexivity. Qed.

(** C23: [vmap_init] from the zeroed static variables and the descriptors of
    the segments of the image returns; the heap then holds the state of the
    allocator in which the areas in use are exactly the declared segments (the
    last one with its guard page), the free areas exactly the gaps before,
    between and after them, so that every address from 1 up to the last but
    one belongs to an area, and nothing is lazily freed; the descriptors are
    chained and filled in, and the rest of memory ([extra] names a part of it)
    is unchanged. *)
Theorem vmap_init_state fuel G kimg_phys caller segs extra h mb1 mb2 :
  heap_holds h ((static_words G ++ blank_words segs) ++ extra) ->
  init_request G kimg_phys caller segs fuel (kh_mb h) mb1 mb2 ->
  let l := seg_entry <$> segs in
  exists h' free busy ws,
    vmap_init fuel G kimg_phys caller segs h = Done (tt, h')
    /\ free.*2 = gaps 1 l /\ busy.*2 = seg_ranges l
    /\ (forall a, 1 <= a < 2 ^ 64 - 1 -> exists k, k ∈ free ++ busy /\ k.2.1 <= a < k.2.2)
    /\ vm_state G free busy [] ws ((chain_words (sy_vmlist G) l ++ decl_words kimg_phys caller segs) ++ extra) h'
    /\ kh_mb h' = mb2
    /\ vm_frame (static_words G ++ blank_words segs) extra h h'.
Proof. apply vmap_init_run. Qed.

Lemma vmap_init_state_witness : exists h' free busy ws,
  vmap_init 8 syms0 kimg0 0x40080000 segs0 (board_heap []) = Done (tt, h')
  /\ free.*2 = [(1, img); (img + 0x480000, img + 0x800000); (img + 0xa01000, 2 ^ 64 - 1)]
  /\ vm_state syms0 free busy [] ws
       ((chain_words (sy_vmlist syms0) (seg_entry <$> segs0) ++ decl_words kimg0 0x40080000 segs0) ++ []) h'.
Proof.
  destruct (vmap_init_state 8 syms0 kimg0 0x40080000 segs0 [] (board_heap []) board_mb1 board_mb2
    board_heap_holds board_init) as (h' & free & busy & ws & E & Hf & _ & _ & Hst & _).
  exists h', free, busy, ws. split; [exact E |]. split; [exact Hf | exact Hst].
Defined.

Definition board_mb3 : memblock := from_option id board_mb (mb_take SIZEOF_VM board_mb2).
Definition board_mb4 : memblock := from_option id board_mb (mb_take SIZEOF_VA board_mb3).

Lemma three_areas (free : list (Z * (Z * Z))) r1 r2 r3 : free.*2 = [r1; r2; r3] ->
  exists x1 x2 x3, free = [(x1, r1); (x2, r2); (x3, r3)].
Proof.
  destruct free as [| [x1 k1] [| [x2 k2] [| [x3 k3] [| ? ?]]]]; try done. intros H. injection H as -> -> ->.
  by exists x1, x2, x3.
Qed.

(** Three pages with a guard page, at or above [VMALLOC_START]. *)
Lemma board_request free : free.*2 = [(1, img); (img + 0x480000, img + 0x800000); (img + 0xa01000, 2 ^ 64 - 1)] ->
  area_request board_mb2 board_mb3 board_mb4 (search_fuel 3) free 0x3000 4096 12 0 VMALLOC_START (2 ^ 64 - 2 ^ 40) 0x40080000
  /\ fit_start 0x4000 4096 VMALLOC_START free = VMALLOC_START.
Proof.
  intros Hf. destruct (three_areas _ _ _ _ Hf) as (x1 & x2 & x3 & ->).
  assert (He : first_fit 0x4000 4096 VMALLOC_START
    [(x1, (1, img)); (x2, (img + 0x480000, img + 0x800000)); (x3, (img + 0xa01000, 2 ^ 64 - 1))]
    = Some (x1, (1, img))) by (vm_compute; reflexivity).
  split; [| unfold fit_start; by rw He].
  split; [| done | done | | | reflexivity].
  - split; [exists 12; done | done | done | done | vm_compute; reflexivity].
  - exists (x1, (1, img)). split; [exact He | vm_compute; done].
  - split; [vm_compute; reflexivity |]. split; [vm_compute; reflexivity |].
    split; [vm_compute; lia | vm_compute; eauto].
Qed.

(** C3: [__get_vm_area_node] on a heap that holds the allocator's state, for
    a request the free areas have room for, returns a descriptor of an area;
    the area is the lowest place in the range that is free, aligned and large
    enough (whole pages and, unless declined, a guard page); exactly that
    range leaves the free areas (the first that fits shrinks, splits or goes)
    and joins the areas in use, the three sets stay disjoint sorted balanced
    trees in memory, the lazily freed areas and what else was held stay, and
    nothing outside the allocator's words and free memory changes.  The
    alignment is at most a page, or the request fills its range exactly. *)
Theorem get_vm_area_lowest xa fuel G stk h free busy lazy ws extra size align shift flags vstart vend caller mb0 mb1 :
  vm_state G free busy lazy ws extra h -> syms_ok G ->
  area_request (kh_mb h) mb0 mb1 fuel free size align shift flags vstart vend caller ->
  let n := area_size size shift flags in
  exists vm h' free' busy' ws' desc z,
    __get_vm_area_node xa fuel G stk true size align shift flags vstart vend caller h = Done (vm, h')
    /\ vm_taken n align vstart free busy free' busy' mb1 (kh_mb h') z
    /\ desc_words (covers (memory (kh_mb h))) vm (fit_start n align vstart free) n flags caller size desc
    /\ vm_state G free' busy' lazy ws' (desc ++ extra) h'
    /\ vm_frame ws extra h h'.
Proof.
  intros Hst HG [R1 [R2 R3] (R4 & R5 & R6) R7 (R8 & R9 & R10) R11] n.
  destruct (vm_adequate (__get_vm_area_node xa fuel G stk true size align shift flags vstart vend caller)
    G free busy lazy ws extra h
    (fun vm free' busy' lazy' extra' mb' => lazy' = lazy /\ (exists z, vm_taken n align vstart free busy free' busy' mb1 mb' z)
       /\ exists desc, desc_words (covers (memory (kh_mb h))) vm (fit_start n align vstart free) n flags caller size desc
         /\ extra' = desc ++ extra))
    as (vm & h' & free' & busy' & lazy' & ws' & extra' & E & (-> & (z & Htk) & desc & Hd & ->) & Hst' & Hfr); [| done |].
  - intros Sg HGS Hram. iIntros "Hv He". iApply (get_vm_area_spec with "Hv"); try done.
    iIntros (vm z free' busy' mb' Htk) "Hv Hd". iDestruct (desc_own with "Hd") as (wd Hwd) "Hd".
    iExists free', busy', lazy, (wd ++ extra), mb'. rw own_words_app. iFrame. iPureIntro. rw Hram in Hwd.
    split; [done |]. split; [by exists z | by exists wd].
  - by exists vm, h', free', busy', ws', desc, z.
Qed.

Lemma get_vm_area_lowest_witness : exists h free busy ws extra vm h' desc,
  vm_state syms0 free busy [] ws extra h
  /\ __get_vm_area_node (fun _ => mret 0) (search_fuel 3) syms0 0 true 0x3000 4096 12 0 VMALLOC_START (2 ^ 64 - 2 ^ 40) 0x40080000 h
     = Done (vm, h')
  /\ desc_words (covers (memory (kh_mb h))) vm VMALLOC_START 0x4000 0 0x40080000 0x3000 desc.
Proof.
  destruct (vmap_init_run 8 syms0 kimg0 0x40080000 segs0 [] (board_heap []) board_mb1 board_mb2
    board_heap_holds board_init) as (h & free & busy & ws & _ & Hf & _ & _ & Hst & Hmb & _).
  destruct (board_request free Hf) as [Hr He]. rw -Hmb in Hr.
  destruct (get_vm_area_lowest (fun _ => mret 0) (search_fuel 3) syms0 0 h free busy [] ws _ 0x3000 4096 12 0 VMALLOC_START
    (2 ^ 64 - 2 ^ 40) 0x40080000 board_mb3 board_mb4 Hst (ir_syms _ _ _ _ _ _ _ _ board_init) Hr)
    as (vm & h' & free' & busy' & ws' & desc & z & E & _ & Hd & _).
  exists h, free, busy, ws, ((chain_words (sy_vmlist syms0) (seg_entry <$> segs0) ++ decl_words kimg0 0x40080000 segs0) ++ []),
    vm, h', desc. split; [exact Hst |]. split; [exact E |].
  change (area_size 0x3000 12 0) with 0x4000 in Hd. rw He in Hd. exact Hd.
Defined.
