(* ===== verification/VmapFault.v ===== *)
(** * When the kernel addresses run out

    A request that no free area satisfies makes [alloc_vmap_area] reclaim:
    it walks [vmap_block_queue.free], a list head that no code initialises.
    In the zeroed data of the image its [next] is the null pointer, and the
    walk takes the address of a block from it. *)

From iris.proofmode Require Import proofmode.
From iris.base_logic.lib Require Import gen_heap.
From S2P Require Import Prelude Memblock MemblockList MemblockArray MemblockRange MemblockAlloc CString CStringSpec Kmalloc.
From S2P Require Import Kobj KobjLogic KobjAlloc Rbtree RbTrees RbtreeSpec RbtreeErase RbtreePlain VmapArea.
From S2P Require Import VmapAug VmapTree VmapList VmapSpace VmapSearch VmapFree VmapAlloc VmapVm VmapVmSpec VmapInit VmapState.
From S2P Require Import VmapRefine.

(** No place in the range for the request. *)
Definition no_fit (size align vstart vend : Z) (free : list (Z * (Z * Z))) : Prop :=
  match first_fit size align vstart free with
  | None => True
  | Some k => vend < place align vstart k.2.1 + size
  end.

(** What [alloc_vmap_area] does up to the first element of the list. *)
Definition until_reclaim (fuel : nat) (G : vm_syms) (stk size align vstart vend : Z) : kprog (Z * Z * Z) :=
  va ← kmalloc_prog SIZEOF_VA;
  r ← __alloc_vmap_area fuel (sy_preload G) (sy_free_root G) (sy_free_list G) size align vstart vend;
  INIT_LIST_HEAD stk;;
  pos ← list_next (sy_vbq G);
  mret (va, r, pos).

Definition reclaim_words (G : vm_syms) (stk v1 v2 : Z) : list (Z * Z) := [(stk, v1); (stk + 8, v2); (sy_vbq G, 0)].

Section fault.
Context `{!kheapGS Sg}.

Lemma until_reclaim_spec fuel G stk v1 v2 mb mb1 free busy lazy size align vstart vend (Phi : Z * Z * Z -> iProp Sg) :
  request size align vstart vend -> no_fit size align vstart vend free ->
  mb_take SIZEOF_VA mb = Some mb1 -> va_room mb1 -> (search_fuel (length free) <= fuel)%nat -> 0 <= stk < 2 ^ 64 ->
  vm_own G mb free busy lazy -∗ own_words (reclaim_words G stk v1 v2) -∗
  (∀ va r, ⌜va <> 0 /\ IS_ERR_VALUE r = true⌝ -∗ vm_own G mb1 free busy lazy -∗
     own_words (reclaim_words G stk stk stk) -∗ Phi (va, r, 0)) -∗
  wp (until_reclaim fuel G stk size align vstart vend) Phi.
Proof.
  iIntros ([Q1 [Q2 Q3] Q4 Q5 Q6] Hno Ht Hroom Hfuel Hstk) "(%Hinv & Hh & Hpre & Hf & Hsf & Hrest) Hw HP".
  pose proof (is_pow2_range _ Q1) as Hal.
  unfold until_reclaim, reclaim_words. rw !own_words_cons. cbn [fst snd]. iDestruct "Hw" as "(W1 & W2 & W3 & W4)".
  kbind. iApply (kmalloc_va_spec with "Hh"); [exact Ht |].
  iIntros (z s0 e0 u1 u2 u3 w1 w2 sub fl [Hz Hz0]) "Hh _ _".
  kbind. iApply (alloc_vmap_range_spec with "Hh Hpre Hf Hsf"); [done.. |]. iIntros (r free' mb' Hout) "Hh Hpre Hf Hsf".
  assert (Hr : IS_ERR_VALUE r = true /\ free' = free /\ mb' = mb1).
  { destruct Hout as (o & Hok & Hr). rw Q6 in Hok. apply search_first_fit in Hok; [| lia]. unfold no_fit in Hno.
    rw Hok in Hno. destruct o as [[x [s e]] |]; [| by destruct Hr as (-> & -> & ->)].
    cbn [fst snd] in Hno. cbv zeta in Hr. rw (proj2 (Z.leb_gt _ _) Hno) in Hr. by destruct Hr as (-> & -> & ->). }
  destruct Hr as (Hr & -> & ->). unfold INIT_LIST_HEAD, list_next.
  kbind. kbind. kstore "W1"; [done |]. kstore "W2"; [done |]. kbind. kload "W3". iApply wp_ret.
  iApply ("HP" with "[//] [-W1 W2 W3 W4]"); [by iFrame |]. rw !own_words_cons. cbn [fst snd]. iFrame.
Qed.
End fault.

Lemma kbind_done {A B} (c : kprog A) (k : A -> kprog B) h y h' :
  (c ≫= k) h = Done (y, h') -> exists x h1, c h = Done (x, h1) /\ k x h1 = Done (y, h').
Proof. unfold mbind, kprog_bind. destruct (c h) as [[x h1] | |]; [| done..]. intros H. by exists x, h1. Qed.

Lemma kbind_step {A B} (c : kprog A) (k : A -> kprog B) h x h1 : c h = Done (x, h1) -> (c ≫= k) h = k x h1.
Proof. unfold mbind, kprog_bind. by intros ->. Qed.

Lemma ldw_unmapped a h : kh_mem h !! a = None -> ldw a h = Bug.
Proof. intros H. unfold ldw, ld64. cbn [ld_le]. unfold ld at 1. by rw H. Qed.

(** An unmapped byte is in no word and not in free memory. *)
Lemma words_mapped m ws a : words m ws -> m !! a = None -> off_words ws a.
Proof.
  intros Hw Ha. induction ws as [| w ws IH]; [constructor |]. destruct Hw as (_ & Hc & _ & Hw).
  constructor; [| by apply IH]. destruct (decide (a < w.1 \/ w.1 + 8 <= a)) as [| Hn]; [done |].
  destruct (lookup_lt_is_Some_2 (le_list 8 w.2) (Z.to_nat (a - w.1))) as [b Hb]; [rw length_le_list; lia |].
  apply Hc in Hb. replace (w.1 + Z.of_nat (Z.to_nat (a - w.1))) with a in Hb by lia. congruence.
Qed.

Lemma unmapped_apart h ws a : heap_holds h ws -> kh_mem h !! a = None ->
  off_words ws a /\ ~ free_byte (kh_mb h) (a - LINER_MAP_OFFSET).
Proof.
  intros [_ Hw Hf] Ha. split; [by eapply words_mapped |].
  intros Hb. destruct (Hf _ Hb) as (_ & b & Hb' & _).
  replace (a - LINER_MAP_OFFSET + LINER_MAP_OFFSET) with a in Hb' by lia. congruence.
Qed.

(** The first element of the list is a block whose fields lie below the null
    pointer. *)
Lemma fragmented_null fuel G purge h : sy_vbq G <> 0 -> kh_mem h !! (2 ^ 64 - 160) = None ->
  fragmented_loop (S fuel) G purge 0 h = Bug.
Proof.
  intros Hq Hn. cbn [fragmented_loop]. rw (proj2 (Z.eqb_neq 0 _)); [| done].
  change (u64 (u64 (0 - VB_FREE_LIST) + VB_FREE)) with (2 ^ 64 - 160).
  unfold mbind at 1, kprog_bind. by rw ldw_unmapped.
Qed.

Lemma reclaim_null xa fuel G stk h h1 : INIT_LIST_HEAD stk h = Done (tt, h1) ->
  forall h2, list_next (sy_vbq G) h1 = Done (0, h2) ->
  sy_vbq G <> 0 -> kh_mem h2 !! (2 ^ 64 - 160) = None -> reclaim_and_purge_vmap_areas xa (S fuel) G stk h = Bug.
Proof.
  intros E1 h2 E2 Hq Hn. assert (Hp : purge_fragmented_blocks xa (S fuel) G stk h = Bug).
  { unfold purge_fragmented_blocks. rw (kbind_step _ _ _ _ _ E1) (kbind_step _ _ _ _ _ E2).
    unfold mbind at 1, kprog_bind. by rw fragmented_null. }
  unfold reclaim_and_purge_vmap_areas, mbind at 1, kprog_bind. by rw Hp.
Qed.

(** C39: an [alloc_vmap_area] for which no free area has room faults: instead
    of reclaiming and reporting an error it follows the null pointer that
    [vmap_block_queue.free], never initialised, still holds in the zeroed
    data of the image. *)
Theorem alloc_overflow_faults xa fuel G stk v1 v2 h free busy lazy ws extra size align vstart vend flags vm mb1 :
  vm_state G free busy lazy ws (extra ++ reclaim_words G stk v1 v2) h ->
  request size align vstart vend -> size mod 4096 = 0 -> no_fit size align vstart vend free ->
  mb_take SIZEOF_VA (kh_mb h) = Some mb1 -> va_room mb1 -> (search_fuel (length free) <= S fuel)%nat ->
  0 <= stk < 2 ^ 64 -> sy_vbq G <> 0 -> kh_mem h !! (2 ^ 64 - 160) = None ->
  alloc_vmap_area xa (S fuel) G stk true size align vstart vend flags vm h = Bug.
Proof.
  intros Hst Hq Hmod Hno Ht Hroom Hfuel Hstk Hvbq Hn.
  destruct (vm_adequate (until_reclaim (S fuel) G stk size align vstart vend) G free busy lazy ws
    (extra ++ reclaim_words G stk v1 v2) h
    (fun x _ _ _ _ _ => exists va r, x = (va, r, 0) /\ va <> 0 /\ IS_ERR_VALUE r = true))
    as (x & h' & _ & _ & _ & _ & _ & E & (va & r & -> & Hva & Hr) & _ & Hfr); [| done |].
  - intros Sg HGS Hram. rw own_words_app. iIntros "Hv [He Hw]". iApply (until_reclaim_spec with "Hv Hw"); [done.. |].
    iIntros (va r [Hva Hr]) "Hv Hw". iExists free, busy, lazy, (extra ++ reclaim_words G stk stk stk), mb1.
    rw own_words_app. iFrame. iPureIntro. by exists va, r.
  - destruct (unmapped_apart _ _ _ (vs_heap _ _ _ _ _ _ _ Hst) Hn) as [O1 O2].
    destruct Hfr as [_ Hfr]. specialize (Hfr _ O1 O2). rw Hn in Hfr.
    unfold until_reclaim in E. apply kbind_done in E as (va1 & h1 & E1 & E). apply kbind_done in E as (r1 & h2 & E2 & E).
    apply kbind_done in E as ([] & h3 & E3 & E). apply kbind_done in E as (pos & h4 & E4 & E).
    injection E as -> -> -> ->. pose proof Hq as [Q1 [Q2 Q3] _ _ _]. unfold alloc_vmap_area, offset_in_page.
    rw (proj2 (Z.eqb_neq size 0)); [| lia]. change (PAGE_SIZE - 1) with (4096 - 1).
    rw (land_aligned size 4096 is_pow2_PAGE_SIZE Hmod) pow2_check; [| done]. cbn [Z.eqb negb orb].
    rw (kbind_step _ _ _ _ _ E1) (proj2 (Z.eqb_neq _ _) Hva). unfold vmap_attempt at 1. rw (kbind_step _ _ _ _ _ E2) Hr.
    unfold mbind at 1, kprog_bind. by rw (reclaim_null xa fuel G stk h2 h3 E3 h' E4).
Qed.

(** On the board after its set-up: half the kernel's addresses are asked for. *)
Definition fault_words : list (Z * Z) := reclaim_words syms0 (img + 0x980000) 0 0.

Lemma fault_heap_holds :
  heap_holds (board_heap fault_words) ((static_words syms0 ++ blank_words segs0) ++ fault_words).
Proof. apply board_holds; vm_compute; reflexivity. Qed.

Definition board_va : memblock := from_option id board_mb (mb_take SIZEOF_VA board_mb2).

Lemma board_no_fit free : free.*2 = [(1, img); (img + 0x480000, img + 0x800000); (img + 0xa01000, 2 ^ 64 - 1)] ->
  no_fit (2 ^ 47) 4096 VMALLOC_START (2 ^ 64 - 2 ^ 40) free /\ length free = 3%nat.
Proof. intros Hf. destruct (three_areas _ _ _ _ Hf) as (x1 & x2 & x3 & ->). split; [vm_compute; done | done]. Qed.

Lemma half_request : request (2 ^ 47) 4096 VMALLOC_START (2 ^ 64 - 2 ^ 40).
Proof. split; [exists 12; done | done | done | done | vm_compute; reflexivity]. Qed.

Lemma alloc_overflow_faults_witness : exists h,
  vmap_init 8 syms0 kimg0 0x40080000 segs0 (board_heap fault_words) = Done (tt, h)
  /\ alloc_vmap_area (fun _ => mret 0) (search_fuel 3) syms0 (img + 0x980000) true (2 ^ 47) 4096 VMALLOC_START
       (2 ^ 64 - 2 ^ 40) 0 0 h = Bug.
Proof.
  destruct (vmap_init_run 8 syms0 kimg0 0x40080000 segs0 fault_words (board_heap fault_words) board_mb1 board_mb2
    fault_heap_holds board_init) as (h & free & busy & ws & E & Hf & _ & _ & Hst & Hmb & Hfr).
  exists h. split; [exact E |]. destruct (board_no_fit free Hf) as [Hno Hlen].
  assert (Hn : kh_mem (board_heap fault_words) !! (2 ^ 64 - 160) = None) by (vm_compute; reflexivity).
  destruct (unmapped_apart _ _ _ fault_heap_holds Hn) as [O1 O2]. destruct Hfr as [_ Hfr]. specialize (Hfr _ O1 O2). rw Hn in Hfr.
  eapply (alloc_overflow_faults (fun _ => mret 0) (pred (search_fuel 3)) syms0 (img + 0x980000) 0 0 h free busy [] ws
    _ (2 ^ 47) 4096 VMALLOC_START (2 ^ 64 - 2 ^ 40) 0 0 board_va).
  - exact Hst.
  - exact half_request.
  - vm_compute. reflexivity.
  - exact Hno.
  - rw Hmb. vm_compute. reflexivity.
  - split; [vm_compute; lia | vm_compute; eauto].
  - rw Hlen. apply Nat.leb_le. vm_compute. reflexivity.
  - split; [discriminate | reflexivity].
  - discriminate.
  - exact Hfr.
Defined.
