(* ===== verification/Vmalloc.v ===== *)
(** * Memory at kernel addresses: [src/src/mm/vm.c], lines 1354 to 1373, 1414 to 1431 and 1590 to 1765

    [vmalloc] takes an area of kernel addresses, physical memory for it and
    maps it; [vfree] finds the area, removes its translations, gives the area
    to the lazily freed ones and releases the memory and the descriptor.
    The translation tables are those of [Vmap]; the mask of modified levels
    is not used by the source and not kept, [WARN_ON] only prints. *)

From S2P Require Import Prelude Memblock CString Kmalloc PageTable Pte Vmap Kobj VmapArea VmapVm.

(** ** Removing translations *)

(** [pud_clear_huge], [pmd_clear_huge]: whether a block was removed. *)
Definition pxd_clear_huge (h : kheap) (pxdp : Z) : outcome (bool * kheap) :=
  let! e := pxd_get h pxdp in
  if negb (pxd_sect e) then Done (false, h)
  else let! h := pxd_set h pxdp 0 in Done (true, h).

(** [pgd_none_or_clear_bad], [pud_none_or_clear_bad], [pmd_none_or_clear_bad]. *)
Definition none_or_clear_bad (h : kheap) (pxdp : Z) : outcome (bool * kheap) :=
  let! e := pxd_get h pxdp in
  if pte_none e then Done (true, h)
  else if pxd_bad e then let! h := pxd_set h pxdp 0 in Done (true, h)
  else Done (false, h).

Definition arch_vmap_pte_range_unmap_size (h : kheap) (ptep : Z) : outcome Z :=
  let! e := pxd_get h ptep in
  Done (if pte_valid_cont e then CONT_PTE_SIZE else PAGE_SIZE).

(** One turn of the loop of [vunmap_pte_range]: the next entry and address.
    An entry inside a contiguous run takes the whole run with it. *)
Definition vunmap_pte_step (h : kheap) (pte addr end_ : Z) : outcome (kheap * Z * Z) :=
  let! size := arch_vmap_pte_range_unmap_size h pte in
  if negb (size =? PAGE_SIZE) then
    let '(addr, pte) :=
      if negb (IS_ALIGNED addr size)
      then (align_mask addr size, align_mask pte (8 * Z.shiftr size PAGE_SHIFT)) else (addr, pte) in
    let! (_, h) := huge_ptep_get_and_clear h pte size in
    let size := if u64 (end_ - addr) <? size then u64 (end_ - addr) else size in
    Done (h, pte + 8 * Z.shiftr size PAGE_SHIFT, u64 (addr + size))
  else
    let! (_, h) := ptep_get_and_clear h pte in
    Done (h, pte + 8 * Z.shiftr size PAGE_SHIFT, u64 (addr + size)).

Fixpoint vunmap_pte_loop (fuel : nat) (h : kheap) (pte addr end_ : Z) : outcome kheap :=
  match fuel with
  | O => Fuel
  | S fuel =>
      let! (h, pte, addr) := vunmap_pte_step h pte addr end_ in
      if addr =? end_ then Done h else vunmap_pte_loop fuel h pte addr end_
  end.

Definition vunmap_pte_range (h : kheap) (pmd addr end_ : Z) : outcome kheap :=
  let! e := pxd_get h pmd in
  vunmap_pte_loop TABLE_FUEL h (pxd_offset PAGE_SHIFT e addr) addr end_.

(** The loop of a level: [step] is its turn for one entry and the part
    [addr, next) of the range. *)
Fixpoint vunmap_loop (fuel : nat) (size : Z) (step : kheap -> Z -> Z -> Z -> outcome kheap)
    (h : kheap) (pxd addr end_ : Z) : outcome kheap :=
  match fuel with
  | O => Fuel
  | S fuel =>
      let next := addr_end size addr end_ in
      let! h := step h pxd addr next in
      if next =? end_ then Done h else vunmap_loop fuel size step h (pxd + 8) next end_
  end.

Definition vunmap_pmd_step (h : kheap) (pmd addr next : Z) : outcome kheap :=
  let! (cleared, h) := pxd_clear_huge h pmd in
  if (cleared : bool) then Done h
  else
    let! (skip, h) := none_or_clear_bad h pmd in
    if (skip : bool) then Done h else vunmap_pte_range h pmd addr next.

Definition vunmap_pmd_range (h : kheap) (pud addr end_ : Z) : outcome kheap :=
  let! e := pxd_get h pud in
  vunmap_loop TABLE_FUEL PMD_SIZE vunmap_pmd_step h (pxd_offset PMD_SHIFT e addr) addr end_.

(** A removed block of this level leaves an entry that is none. *)
Definition vunmap_pud_step (h : kheap) (pud addr next : Z) : outcome kheap :=
  let! (_, h) := pxd_clear_huge h pud in
  let! (skip, h) := none_or_clear_bad h pud in
  if (skip : bool) then Done h else vunmap_pmd_range h pud addr next.

Definition vunmap_pud_range (h : kheap) (pgd addr end_ : Z) : outcome kheap :=
  let! e := pxd_get h pgd in
  vunmap_loop TABLE_FUEL PUD_SIZE vunmap_pud_step h (pxd_offset PUD_SHIFT e addr) addr end_.

Definition vunmap_pgd_step (h : kheap) (pgd addr next : Z) : outcome kheap :=
  let! (skip, h) := none_or_clear_bad h pgd in
  if (skip : bool) then Done h else vunmap_pud_range h pgd addr next.

(** [swapper] is the address of [swapper_pg_dir]. *)
Definition __vunmap_range_noflush (swapper : Z) (h : kheap) (start end_ : Z) : outcome kheap :=
  if end_ <=? start then Bug
  else
    vunmap_loop TABLE_FUEL PGDIR_SIZE vunmap_pgd_step h (swapper + 8 * pxd_index PGDIR_SHIFT start) start end_.

Definition vunmap_prog (swapper start end_ : Z) : kprog unit :=
  fun h => let! h := __vunmap_range_noflush swapper h start end_ in Done (tt, h).

(** ** Areas *)

Definition free_unmap_vmap_area (fuel : nat) (G : vm_syms) (stk swapper va : Z) : kprog unit :=
  start ← va_start va;
  end_ ← va_end va;
  vunmap_prog swapper start end_;;
  free_vmap_area_noflush fuel G stk va.

Definition remove_vm_area (fuel : nat) (G : vm_syms) (stk swapper addr : Z) : kprog Z :=
  if negb (offset_in_page addr =? 0) then mret 0
  else
    va ← find_unlink_vmap_area addr (busy_root (sy_node G));
    if va =? 0 then mret 0
    else
      vm ← ldw (va + VA_SUB);
      if vm =? 0 then mret 0
      else
        free_unmap_vmap_area fuel G stk swapper va;;
        mret vm.

Definition phys_free_prog (base size : Z) : kprog unit :=
  fun h => let! (_, mb) := memblock_phys_free dbl_array (kh_mb h) base size in Done (tt, mkHeap mb (kh_mem h)).

Definition phys_alloc_prog (size align : Z) : kprog Z :=
  fun h => let! (pa, mb) := memblock_phys_alloc_range (kh_mb h) size align 0 0 in Done (pa, mkHeap mb (kh_mem h)).

Definition vfree (fuel : nat) (G : vm_syms) (stk swapper addr : Z) : kprog unit :=
  if addr =? 0 then mret tt
  else
    vm ← remove_vm_area fuel G stk swapper addr;
    if vm =? 0 then mret tt
    else
      phys ← ldw (vm + VM_PHYS);
      size ← ldw (vm + VM_SIZE);
      phys_free_prog phys size;;
      kfree_prog vm.

(** [struct page] is one word; [VMALLOC_END] is 8 MiB below the array of
    the pages of the linear map. *)
Definition VMEMMAP_END : Z := 2 ^ 64 - 2 ^ 30.
Definition VMEMMAP_SIZE : Z := Z.shiftr (VMALLOC_START - PAGE_OFFSET) PAGE_SHIFT * 8.
Definition VMALLOC_END : Z := VMEMMAP_END - VMEMMAP_SIZE - 0x800000.

(** [mm] is the kernel's memory description and is returned with the address;
    [prot] is [PAGE_KERNEL]. *)
Definition vmap_prog (mm : memory_struct) (phys virt size prot : Z) : kprog memory_struct :=
  fun h => let! (_, mm, h) := vmap_phys_range_noflush mm h phys virt size prot in Done (mm, h).

Definition vmalloc (xa_erase : Z -> kprog Z) (fuel : nat) (G : vm_syms) (stk : Z) (vmap_initialized : bool)
    (mm : memory_struct) (prot caller size : Z) : kprog (Z * memory_struct) :=
  let total_size := ALIGN_UP (struct_size size) PAGE_SIZE in
  vm ← __get_vm_area_node xa_erase fuel G stk vmap_initialized total_size PAGE_SIZE PAGE_SHIFT 0
         VMALLOC_START VMALLOC_END caller;
  if vm =? 0 then mret (0, mm)
  else
    pa ← phys_alloc_prog total_size PAGE_SIZE;
    addr ← ldw (vm + VM_ADDR);
    mm ← vmap_prog mm pa addr total_size prot;
    stw (vm + VM_PHYS) pa;;
    addr ← ldw (vm + VM_ADDR);
    mret (addr, mm).
