(* ===== verification/VunmapSpec.v ===== *)
(** * What removing translations does

    [vunmap] clears the leaf entries whose pages meet the range and no other
    entry ([wiped]): addresses of the range are then untranslated and, when
    the range does not cut a block in two ([whole]), every other address
    translates as before. *)

From S2P Require Import Prelude Memblock MemblockList MemblockArray MemblockRange MemblockFree.
From S2P Require Import MemblockSearch MemblockAlloc CString CStringSpec Kmalloc PageTable PageTableMap.
From S2P Require Import Pte PtTree PteDesc Vmap VmapHeap VmapFold VmapSpec Process VSpace AddressSpace Kobj VmapArea VmapVm Vmalloc.

(** ** Entries of a range *)

Definition meets (k : nat) (q lo hi : Z) : Prop := q * lsize k < hi /\ lo < (q + 1) * lsize k.

#[global] Instance meets_dec k q lo hi : Decision (meets k q lo hi).
Proof. unfold meets. apply _. Defined.

(** The entry does not link a table. *)
Definition leaf (k : nat) (e : Z) : bool := (k =? 0)%nat || negb (Z.testbit e 1).

Definition wiped (T : tables) (r r' : Z -> Z) (lo hi : Z) : Prop :=
  forall c k q i, T !! c = Some (k, q) -> 0 <= i < 512 ->
    r' (c + 8 * i) = if decide (meets k (q * 512 + i) lo hi /\ leaf k (r (c + 8 * i)) = true) then 0 else r (c + 8 * i).

(** The range contains every block, page and contiguous run it meets. *)
Definition whole (T : tables) (r : Z -> Z) (lo hi : Z) : Prop :=
  forall c k q i, T !! c = Some (k, q) -> 0 <= i < 512 -> let e := r (c + 8 * i) in let s := q * 512 + i in
    meets k s lo hi -> leaf k e = true -> Z.testbit e 0 = true ->
    (lo <= s * lsize k /\ (s + 1) * lsize k <= hi)
    /\ (k = 0%nat -> pte_valid_cont e = true -> lo <= (s / 16 * 16) * 4096 /\ (s / 16 * 16 + 16) * 4096 <= hi).

Lemma meets_addr k q lo hi : lo < hi -> meets k q lo hi -> exists v, lo <= v < hi /\ v / lsize k = q.
Proof.
  intros Hl [H1 H2]. pose proof (lsize_pos k). exists (Z.max lo (q * lsize k)). split; [lia |]. apply div_slot. lia.
Qed.

Lemma addr_meets k v lo hi : lo <= v < hi -> meets k (v / lsize k) lo hi.
Proof. intros H. pose proof (proj1 (div_slot k v _) eq_refl). unfold meets. lia. Qed.

Lemma wiped_trans T r r1 r2 lo mid hi : lo < mid < hi ->
  wiped T r r1 lo mid -> wiped T r1 r2 mid hi -> wiped T r r2 lo hi.
Proof.
  intros Hm H1 H2 c k q i Hc Hi. rewrite (H2 c k q i Hc Hi), (H1 c k q i Hc Hi). pose proof (lsize_pos k).
  assert (Hs : meets k (q * 512 + i) lo hi <-> meets k (q * 512 + i) lo mid \/ meets k (q * 512 + i) mid hi)
    by (unfold meets; nia).
  destruct (decide (meets k (q * 512 + i) lo mid /\ leaf k (r (c + 8 * i)) = true)) as [[D1 D2] | D].
  - rewrite (decide_True (P := meets k (q * 512 + i) lo hi /\ _)) by tauto. by case_decide.
  - repeat case_decide; tauto.
Qed.

Lemma wiped_leaf T r r' lo hi c k q i : wiped T r r' lo hi -> T !! c = Some (k, q) -> 0 <= i < 512 ->
  leaf k (r (c + 8 * i)) = false -> r' (c + 8 * i) = r (c + 8 * i).
Proof. intros Hw Hc Hi Hl. rewrite (Hw c k q i Hc Hi). rewrite decide_False; [done |]. rewrite Hl. by intros [_ ?]. Qed.

Lemma wiped_cases T r r' lo hi c k q i : wiped T r r' lo hi -> T !! c = Some (k, q) -> 0 <= i < 512 ->
  r' (c + 8 * i) = 0 \/ r' (c + 8 * i) = r (c + 8 * i).
Proof. intros Hw Hc Hi. rewrite (Hw c k q i Hc Hi). case_decide; auto. Qed.

Lemma link_leaf k e : Z.testbit e 1 = true -> leaf (S k) e = false.
Proof. intros H. unfold leaf. by rewrite H. Qed.

(** Entries are only cleared, and none that links a table. *)
Record cleared (T : tables) (r r' : Z -> Z) : Prop := {
  cl_cases : forall c k q i, T !! c = Some (k, q) -> 0 <= i < 512 -> r' (c + 8 * i) = 0 \/ r' (c + 8 * i) = r (c + 8 * i);
  cl_link : forall c k q i, T !! c = Some (k, q) -> 0 <= i < 512 -> leaf k (r (c + 8 * i)) = false ->
    r' (c + 8 * i) = r (c + 8 * i);
}.

(** The tables stay the tree they are. *)
Lemma cleared_tree T r r' : ptree T r -> cleared T r r' -> ptree T r'.
Proof.
  intros [H1 H2 H3 H4 H5] [C1 C2]. split; [done | done | | |].
  - intros b k p i Hb Hi. destruct (C1 _ _ _ _ Hb Hi) as [E | E]; rewrite E; [done | eauto].
  - intros b k p i Hb Hi E0 E1. destruct (C1 _ _ _ _ Hb Hi) as [E | E]; rewrite E in *;
      [by rewrite Z.bits_0 in E0 | eauto].
  - intros b k q Hb Hk. destruct (H5 b k q Hb Hk) as (b' & p & i & L1 & L2 & L3 & L4 & L5 & L6).
    exists b', p, i. rewrite (C2 _ _ _ _ L1 L2) by (by apply link_leaf). done.
Qed.

Lemma ptree_paged T r : ptree T r -> paged T.
Proof. intros Ht b k p Hb. apply (pt_page _ _ Ht _ _ _ Hb). Qed.

Lemma wiped_cleared T r r' lo hi : wiped T r r' lo hi -> cleared T r r'.
Proof. intros Hw. split; intros c k q i Hc Hi; [by eapply wiped_cases | intros; by eapply wiped_leaf]. Qed.

Lemma wiped_tree T r r' lo hi : ptree T r -> wiped T r r' lo hi -> ptree T r'.
Proof. intros Ht Hw. eapply cleared_tree; [exact Ht | by eapply wiped_cleared]. Qed.

(** The range is untranslated afterwards. *)
Lemma wiped_in T r r' lo hi v : ptree T r -> wiped T r r' lo hi -> lo <= v < hi ->
  forall n b, T !! b = Some (n, v / lsize (S n)) -> twalk n r' b v = None.
Proof.
  intros Ht Hw Hv. assert (Hm : forall k, meets k (v / lsize (S k) * 512 + lindex k v) lo hi).
  { intros k. rewrite <- slot_split. by apply addr_meets. }
  induction n as [|n IH]; intros b Hb; cbn [twalk];
    [pose proof (Hw b _ _ _ Hb (lindex_range 0 v)) as He | pose proof (Hw b _ _ _ Hb (lindex_range (S n) v)) as He].
  - rewrite decide_True in He by done. by rewrite He, Z.bits_0.
  - destruct (leaf (S n) (r (b + 8 * lindex (S n) v))) eqn:Hl.
    { rewrite decide_True in He by done. by rewrite He, Z.bits_0. }
    rewrite decide_False in He by (intros [_ ?]; done). rewrite He. unfold leaf in Hl. cbn [Nat.eqb orb] in Hl. apply negb_false_iff in Hl.
    destruct (Z.testbit _ 0) eqn:E0; [| done]. rewrite Hl. apply IH.
    rewrite slot_split. exact (proj1 (pt_child _ _ Ht _ _ _ _ Hb (lindex_range _ v) E0 Hl)).
Qed.

(** Other addresses translate as before. *)
Lemma wiped_out T r r' lo hi v : ptree T r -> wiped T r r' lo hi -> whole T r lo hi -> ~ (lo <= v < hi) ->
  forall n b, T !! b = Some (n, v / lsize (S n)) -> twalk n r' b v = twalk n r b v.
Proof.
  intros Ht Hw Hwh Hv.
  assert (He : forall k b, T !! b = Some (k, v / lsize (S k)) -> r' (b + 8 * lindex k v) = r (b + 8 * lindex k v)).
  { intros k b Hb. pose proof (lindex_range k v) as Hi. rewrite (Hw b _ _ _ Hb Hi). case_decide as Hd; [| done].
    destruct Hd as [Hm Hl]. destruct (Z.testbit (r (b + 8 * lindex k v)) 0) eqn:E0; [exfalso | symmetry; by eapply (pt_none _ _ Ht)].
    destruct (Hwh b _ _ _ Hb Hi Hm Hl E0) as [[W1 W2] _]. rewrite <- slot_split in W1, W2.
    pose proof (proj1 (div_slot k v _) eq_refl). lia. }
  induction n as [|n IH]; intros b Hb; cbn [twalk]; rewrite (He _ _ Hb); [done |].
  destruct (Z.testbit _ 0) eqn:E0; [| done]. destruct (Z.testbit _ 1) eqn:E1; [| done]. apply IH.
  rewrite slot_split. exact (proj1 (pt_child _ _ Ht _ _ _ _ Hb (lindex_range _ v) E0 E1)).
Qed.

(** ** Where the range lies *)

(** Page-aligned and inside the span of one table of level [n]. *)
Record span (n : nat) (p lo hi : Z) : Prop := {
  sn_lt : 0 <= lo < hi;
  sn_top : hi < 2 ^ 64;
  sn_lo : lo / lsize (S n) = p;
  sn_hi : (hi - 1) / lsize (S n) = p;
  sn_page : lo mod 4096 = 0 /\ hi mod 4096 = 0;
}.

Lemma span_in n p lo hi v : span n p lo hi -> lo <= v < hi -> v / lsize (S n) = p.
Proof.
  intros [H1 H2 H3 H4 _] Hv. apply div_slot in H3, H4. apply div_slot. lia.
Qed.

(** An entry of level [k] that the range meets, for a range in one slot of
    level [n] (an entry of [b]), is that entry or one above or below it. *)
Lemma wiped_slot T r r' b n p i lo hi : ptree T r -> (n <= 3)%nat -> T !! b = Some (n, p) -> 0 <= i < 512 ->
  (0 <= lo < hi /\ forall v, lo <= v < hi -> v / lsize n = p * 512 + i) ->
  leaf n (r (b + 8 * i)) = true -> agree_but T b i r r' -> r' (b + 8 * i) = 0 ->
  (forall c k q, T !! c = Some (k, q) -> (k <= 3)%nat) ->
  wiped T r r' lo hi.
Proof.
  intros Ht Hn Hb Hi [Hlo Hin] Hl Hag H0 Hlev c k q j Hc Hj. pose proof (Hlev c k q Hc) as Hk.
  destruct (decide (c = b /\ j = i)) as [[-> ->] | Hne].
  { rewrite Hb in Hc. injection Hc as <- <-. rewrite decide_True; [done |]. split; [| done].
    rewrite <- (Hin lo ltac:(lia)). apply addr_meets. lia. }
  rewrite (Hag c k q j Hc Hj) by (destruct (decide (c = b)); [right; intros ->; by apply Hne | by left]).
  rewrite decide_False; [done |]. intros [Hm Hlf]. destruct (meets_addr _ _ _ _ (proj2 Hlo) Hm) as (v & Hv & Hq).
  destruct (slot_addr k q j v Hj Hq) as [-> ->]. specialize (Hin v Hv). destruct (slot_addr n p i v Hi Hin) as [-> ->].
  destruct (lt_eq_lt_dec k n) as [[Hlt | ->] | Hgt].
  - destruct (link_above T r v k c Ht Hc n b ltac:(lia) Hb) as (_ & E1 & _). unfold leaf in Hl. rewrite E1 in Hl.
    destruct n; [lia | done].
  - apply Hne. by rewrite (pt_inj _ _ Ht _ _ _ Hc Hb).
  - destruct (link_above T r v n b Ht Hb k c ltac:(lia) Hc) as (_ & E1 & _). unfold leaf in Hlf. rewrite E1 in Hlf.
    destruct k; [lia | done].
Qed.

(** ** Steps that only change tables *)

Record ustep (T : tables) (h h' : kheap) : Prop := {
  us_mb : kh_mb h' = kh_mb h;
  us_tabs : tabs_ok T h';
  us_frame : forall a, (forall b x, T !! b = Some x -> ~ in_page b a) ->
    kh_mem h' !! (a + LINER_MAP_OFFSET) = kh_mem h !! (a + LINER_MAP_OFFSET);
}.

Lemma ustep_refl T h : tabs_ok T h -> ustep T h h.
Proof. by split. Qed.

Lemma ustep_trans T h h1 h2 : ustep T h h1 -> ustep T h1 h2 -> ustep T h h2.
Proof. intros [A1 A2 A3] [B1 B2 B3]. split; [congruence | done |]. intros a Ha. by rewrite B3, A3. Qed.

Lemma entry_clear T h b k p i : paged T -> tabs_ok T h -> T !! b = Some (k, p) -> 0 <= i < 512 ->
  exists h', pxd_set h (b + 8 * i + LINER_MAP_OFFSET) 0 = Done h' /\ ustep T h h'
    /\ agree_but T b i (wd h) (wd h') /\ wd h' (b + 8 * i) = 0.
Proof.
  intros Hp Ht Hb Hi. destruct (entry_set T h b k p i 0 Hp Ht Hb Hi ltac:(lia)) as (h' & E & Hmb & Hs & Hag & Hw).
  destruct (pxd_set_wd h (b + 8 * i) 0 (table_mapped _ _ _ _ _ Ht Hb Hi) ltac:(lia)) as (h2 & E2 & _ & _ & Hf & _).
  rewrite E in E2. injection E2 as <-. exists h'. split; [done |]. split; [| done].
  split; [done | apply Hs |]. intros a Ha. apply Hf. specialize (Ha b _ Hb). unfold in_page in Ha. lia.
Qed.

(** ** Pages *)

Section Pte.
Context (T : tables) (b p : Z) (Hpg : paged T) (Hb : T !! b = Some (0%nat, p)).

Definition zero_run (h : kheap) (lo hi : Z) : Prop := forall j, lo <= j < hi -> wd h (b + 8 * j) = 0.

(** Clearing entry by entry. *)
Lemma get_clear_spec h i : tabs_ok T h -> 0 <= i < 512 ->
  exists h', __ptep_get_and_clear_anysz h (b + 8 * i + LINER_MAP_OFFSET) = Done (wd h (b + 8 * i), h')
    /\ ustep T h h' /\ agree_but T b i (wd h) (wd h') /\ wd h' (b + 8 * i) = 0.
Proof.
  intros Ht Hi. unfold __ptep_get_and_clear_anysz. rewrite (entry_get T h b _ i Ht Hb Hi). cbn [obind].
  destruct (entry_clear T h b _ _ i Hpg Ht Hb Hi) as (h' & -> & H). by exists h'.
Qed.

Lemma get_clear_rest_spec present n : forall h i pte, tabs_ok T h -> 0 <= i -> i + Z.of_nat n <= 512 ->
  exists pte' h', get_clear_rest n h (b + 8 * i + LINER_MAP_OFFSET) pte present = Done (pte', h')
    /\ ustep T h h' /\ agree_run T b i (i + Z.of_nat n) (wd h) (wd h') /\ zero_run h' i (i + Z.of_nat n).
Proof.
  induction n as [|n IH]; intros h i pte Ht Hi Hn; cbn [get_clear_rest].
  { exists pte, h. split; [done |]. split; [by apply ustep_refl |]. split; [by intros c k q j | intros j; lia]. }
  destruct (get_clear_spec h i Ht ltac:(lia)) as (h1 & -> & Hs & Hag & Hw). cbn [obind].
  replace (b + 8 * i + LINER_MAP_OFFSET + 8) with (b + 8 * (i + 1) + LINER_MAP_OFFSET) by lia.
  edestruct (IH h1 (i + 1)) as (pte2 & h2 & -> & Hs2 & Hag2 & Hz2); [apply Hs | lia | lia |].
  exists pte2, h2. split; [done |]. split; [by eapply ustep_trans |]. split.
  - intros c k q j Hc Hj Hne. rewrite (Hag2 c k q j Hc Hj) by (destruct Hne; [by left | right; lia]).
    apply (Hag c k q j Hc Hj). destruct Hne; [by left | right; lia].
  - intros j Hj. destruct (Z.eq_dec j i) as [-> | Hji]; [| apply Hz2; lia].
    rewrite (Hag2 b _ _ i Hb ltac:(lia) ltac:(right; lia)). exact Hw.
Qed.

Lemma huge_clear_spec h g : tabs_ok T h -> 0 <= g -> g + 16 <= 512 ->
  exists e h', huge_ptep_get_and_clear h (b + 8 * g + LINER_MAP_OFFSET) CONT_PTE_SIZE = Done (e, h')
    /\ ustep T h h' /\ agree_run T b g (g + 16) (wd h) (wd h') /\ zero_run h' g (g + 16).
Proof.
  intros Ht Hg Hg2. unfold huge_ptep_get_and_clear. change (num_contig_ptes CONT_PTE_SIZE) with (16, PAGE_SIZE).
  destruct (get_clear_spec h g Ht ltac:(lia)) as (h1 & -> & Hs & Hag & Hw). cbn [obind].
  replace (b + 8 * g + LINER_MAP_OFFSET + 8) with (b + 8 * (g + 1) + LINER_MAP_OFFSET) by lia.
  change (Z.to_nat 16 - 1)%nat with 15%nat.
  edestruct (get_clear_rest_spec (pte_present (wd h (b + 8 * g))) 15 h1 (g + 1)) as (e & h2 & -> & Hs2 & Hag2 & Hz2); [apply Hs | lia | lia |].
  exists e, h2. split; [done |]. split; [by eapply ustep_trans |]. split.
  - intros c k q j Hc Hj Hne. rewrite (Hag2 c k q j Hc Hj) by (destruct Hne; [by left | right; lia]).
    apply (Hag c k q j Hc Hj). destruct Hne; [by left | right; lia].
  - intros j Hj. destruct (Z.eq_dec j g) as [-> | Hji]; [| apply Hz2; lia].
    rewrite (Hag2 b _ _ g Hb ltac:(lia) ltac:(right; lia)). exact Hw.
Qed.

Lemma page_clear_spec h i : tabs_ok T h -> 0 <= i < 512 -> pte_valid_cont (wd h (b + 8 * i)) = false ->
  exists e h', ptep_get_and_clear h (b + 8 * i + LINER_MAP_OFFSET) = Done (e, h')
    /\ ustep T h h' /\ agree_run T b i (i + 1) (wd h) (wd h') /\ zero_run h' i (i + 1).
Proof.
  intros Ht Hi Hc. unfold ptep_get_and_clear. rewrite (entry_get T h b _ i Ht Hb Hi). cbn [obind].
  unfold contpte_try_unfold. rewrite Hc. cbn [obind].
  destruct (get_clear_spec h i Ht Hi) as (h1 & -> & Hs & Hag & Hw). exists (wd h (b + 8 * i)), h1.
  split; [done |]. split; [done |]. split.
  - intros c k q j Hcj Hj Hne. apply (Hag c k q j Hcj Hj). destruct Hne; [by left | right; lia].
  - intros j Hj. by replace j with i by lia.
Qed.

(** A turn of the loop: the entries [j0, j1) are cleared, the one at [va] among
    them; they lie in the range. *)
Lemma pte_step_ok h lo va hi : tabs_ok T h -> 0 <= b < 2 ^ 47 -> span 0 p lo hi -> lo <= va < hi -> va mod 4096 = 0 ->
  whole T (wd h) lo hi ->
  exists h1 j0 j1, vunmap_pte_step h (b + 8 * lindex 0 va + LINER_MAP_OFFSET) va hi
      = Done (h1, b + 8 * j1 + LINER_MAP_OFFSET, (p * 512 + j1) * 4096)
    /\ ustep T h h1 /\ agree_run T b j0 j1 (wd h) (wd h1) /\ zero_run h1 j0 j1
    /\ (0 <= j0 <= lindex 0 va /\ lindex 0 va < j1 <= 512)
    /\ lo <= (p * 512 + j0) * 4096 /\ (p * 512 + j1) * 4096 <= hi.
Proof.
  intros Ht Hbr Hsp Hva Hmod Hwh. pose proof (lindex_range 0 va) as Hi. pose proof (slot_split 0 va) as Hq.
  rewrite (span_in 0 p lo hi va Hsp Hva) in Hq. change (lsize 0) with 4096 in Hq. set (i := lindex 0 va) in *.
  pose proof (Z.div_mod va 4096 ltac:(lia)) as Hdm. assert (Ev : va = (p * 512 + i) * 4096) by lia.
  pose proof Hsp as [[S1 S2] S3 S4 S5 [S6 S7]].
  assert (Htop : hi <= (p + 1) * 512 * 4096).
  { apply div_slot in S5. change (lsize 1) with (512 * 4096) in S5. lia. }
  assert (Hpage : (p * 512 + i + 1) * 4096 <= hi).
  { pose proof (Z.div_mod hi 4096 ltac:(lia)). lia. }
  unfold vunmap_pte_step, arch_vmap_pte_range_unmap_size. rewrite (entry_get T h b _ i Ht Hb Hi). cbn [obind].
  destruct (pte_valid_cont (wd h (b + 8 * i))) eqn:Hc.
  - change (negb (CONT_PTE_SIZE =? PAGE_SIZE)) with true. cbn match.
    assert (Hv0 : Z.testbit (wd h (b + 8 * i)) 0 = true).
    { unfold pte_valid_cont, pte_valid in Hc. apply andb_true_iff in Hc as [Hc _]. by rewrite <- has_pow2. }
    assert (Hm : meets 0 (p * 512 + i) lo hi) by (unfold meets; change (lsize 0) with 4096; lia).
    destruct (Hwh b _ _ i Hb Hi Hm eq_refl Hv0) as [_ Hg]. specialize (Hg eq_refl Hc).
    set (g := i - i mod 16). pose proof (Z.div_mod i 16 ltac:(lia)). pose proof (Z.mod_pos_bound i 16 ltac:(lia)).
    assert (Hs16 : (p * 512 + i) / 16 * 16 = p * 512 + g).
    { replace (p * 512 + i) with (i + p * 32 * 16) by lia. rewrite Z.div_add by lia. unfold g. lia. }
    rewrite Hs16 in Hg.
    assert (Hm16 : va mod 65536 = (i mod 16) * 4096).
    { symmetry. apply (Z.mod_unique_pos _ _ (p * 32 + i / 16)); lia. }
    assert (Hal : (if negb (IS_ALIGNED va CONT_PTE_SIZE)
      then (align_mask va CONT_PTE_SIZE, align_mask (b + 8 * i + LINER_MAP_OFFSET) (8 * Z.shiftr CONT_PTE_SIZE PAGE_SHIFT))
      else (va, b + 8 * i + LINER_MAP_OFFSET)) = ((p * 512 + g) * 4096, b + 8 * g + LINER_MAP_OFFSET)).
    { change CONT_PTE_SIZE with (2 ^ 16). rewrite is_aligned_mod by lia. change (2 ^ 16) with 65536. rewrite Hm16.
      destruct (Z.eqb_spec (i mod 16 * 4096) 0); cbn [negb].
      - f_equal; unfold g; lia.
      - change (8 * Z.shiftr 65536 PAGE_SHIFT) with (8 * CONT_PTES).
        change (align_mask (b + 8 * i + LINER_MAP_OFFSET) (8 * CONT_PTES)) with (contpte_align_down (b + 8 * i + LINER_MAP_OFFSET)).
        rewrite (contpte_align_val T b p Hpg Hb) by lia. rewrite align_mask_pow2 by (lia || (exists 16; split; [lia | done])).
        rewrite Hm16. f_equal. unfold g. lia. }
    rewrite Hal. destruct (huge_clear_spec h g Ht ltac:(lia) ltac:(lia)) as (e & h1 & -> & Hs & Hag & Hz). cbn [obind].
    rewrite (u64_small (hi - (p * 512 + g) * 4096)) by lia. change CONT_PTE_SIZE with 65536.
    rewrite (proj2 (Z.ltb_ge (hi - (p * 512 + g) * 4096) 65536)) by lia.
    change (Z.shiftr 65536 PAGE_SHIFT) with 16. rewrite u64_small by lia.
    exists h1, g, (g + 16). split; [do 3 f_equal; lia |]. split; [done |]. split; [done |]. split; [done |]. lia.
  - change (negb (PAGE_SIZE =? PAGE_SIZE)) with false. cbn match.
    destruct (page_clear_spec h i Ht Hi Hc) as (e & h1 & -> & Hs & Hag & Hz). cbn [obind].
    change (Z.shiftr PAGE_SIZE PAGE_SHIFT) with 1. change PAGE_SIZE with 4096. rewrite u64_small by lia.
    exists h1, i, (i + 1). split; [do 3 f_equal; lia |]. split; [done |]. split; [done |]. split; [done |]. lia.
Qed.
End Pte.

Lemma wiped_zeros T r b p lo hi : ptree T r -> levels T -> T !! b = Some (0%nat, p) -> span 0 p lo hi ->
  (forall j, 0 <= j < 512 -> lo <= (p * 512 + j) * 4096 < hi -> r (b + 8 * j) = 0) -> wiped T r r lo hi.
Proof.
  intros Ht Hlev Hb Hsp Hz c k q j Hc Hj. case_decide as Hd; [| done]. destruct Hd as [Hm Hl].
  pose proof Hsp as [[S1 S2] _ _ _ [S6 _]]. destruct (meets_addr _ _ _ _ S2 Hm) as (v & Hv & Hq).
  destruct (slot_addr k q j v Hj Hq) as [-> Ej]. pose proof (span_in _ _ _ _ _ Hsp Hv) as Hp. rewrite <- Hp in Hb.
  destruct k as [|k].
  - rewrite (pt_inj _ _ Ht _ _ _ Hc Hb). apply Hz; [done |]. rewrite <- Hp, <- Hq.
    change (lsize 0) with 4096. pose proof (Z.div_mod v 4096 ltac:(lia)). pose proof (Z.mod_pos_bound v 4096 ltac:(lia)).
    pose proof (Z.div_mod lo 4096 ltac:(lia)). lia.
  - destruct (link_above T r v 0 b Ht Hb (S k) c) as (_ & E1 & _); [pose proof (Hlev c _ _ Hc); lia | done |].
    rewrite <- Ej in E1. by rewrite (link_leaf k _ E1) in Hl.
Qed.

Lemma wiped_run T r r1 r' b p j0 j1 lo hi : T !! b = Some (0%nat, p) -> agree_run T b j0 j1 r r1 ->
  (forall j, j0 <= j < j1 -> r1 (b + 8 * j) = 0) -> (forall j, j0 <= j < j1 -> meets 0 (p * 512 + j) lo hi) ->
  wiped T r1 r' lo hi -> wiped T r r' lo hi.
Proof.
  intros Hb Hag Hz Hm Hw c k q j Hc Hj. destruct (decide (c = b /\ j0 <= j < j1)) as [[-> Hr] | Hne].
  - rewrite Hb in Hc. injection Hc as <- <-. rewrite (decide_True (P := meets _ _ _ _ /\ _)) by (split; [by apply Hm | done]).
    destruct (wiped_cases _ _ _ _ _ _ _ _ _ Hw Hb Hj) as [E | E]; [done |]. rewrite E. by apply Hz.
  - rewrite (Hw c k q j Hc Hj), (Hag c k q j Hc Hj); [done |]. destruct (decide (c = b)); [right; tauto | by left].
Qed.

(** [whole] needs to hold only of what is still there. *)
Lemma whole_sub T r r1 lo hi : whole T r lo hi -> cleared T r r1 -> whole T r1 lo hi.
Proof.
  intros Hw [Hs _] c k q i Hc Hi e s Hm Hl E0. unfold e in *.
  destruct (Hs c k q i Hc Hi) as [E | E]; rewrite E in *; [by rewrite Z.bits_0 in E0 | by apply Hw].
Qed.

Lemma run_cleared T r r1 b p j0 j1 : T !! b = Some (0%nat, p) -> agree_run T b j0 j1 r r1 ->
  (forall j, j0 <= j < j1 -> r1 (b + 8 * j) = 0) -> cleared T r r1.
Proof.
  intros Hb Hag Hz. split; intros c k q i Hc Hi.
  - destruct (decide (c = b /\ j0 <= i < j1)) as [[-> Hr] | Hne]; [left; by apply Hz |].
    right. apply (Hag c k q i Hc Hi). destruct (decide (c = b)); [right; tauto | by left].
  - intros Hl. apply (Hag c k q i Hc Hi). left. intros ->. rewrite Hb in Hc. by injection Hc as <- <-.
Qed.

Lemma unmap_pages_ok T b p lo hi : levels T -> T !! b = Some (0%nat, p) -> span 0 p lo hi ->
  forall fuel h va, ptree T (wd h) -> tabs_ok T h -> whole T (wd h) lo hi -> lo <= va < hi -> va mod 4096 = 0 ->
  (forall j, 0 <= j < 512 -> lo <= (p * 512 + j) * 4096 < va -> wd h (b + 8 * j) = 0) ->
  hi - va <= 4096 * Z.of_nat fuel ->
  exists h', vunmap_pte_loop fuel h (b + 8 * lindex 0 va + LINER_MAP_OFFSET) va hi = Done h'
    /\ ustep T h h' /\ wiped T (wd h) (wd h') lo hi.
Proof.
  intros Hlev Hb Hsp. induction fuel as [|fuel IH]; intros h va Ht Hok Hwh Hva Hmod Hz Hfuel; [lia |].
  destruct (pt_page _ _ Ht _ _ _ Hb) as (_ & Hb0 & Hb1).
  pose proof (slot_split 0 va) as Hq. rewrite (span_in 0 p lo hi va Hsp Hva) in Hq. change (lsize 0) with 4096 in Hq.
  pose proof (Z.div_mod va 4096 ltac:(lia)) as Hdm.
  destruct (pte_step_ok T b p (ptree_paged _ _ Ht) Hb h lo va hi Hok ltac:(lia) Hsp Hva Hmod Hwh)
    as (h1 & j0 & j1 & E & Hs & Hag & Hz1 & [J1 J2] & J3 & J4).
  cbn [vunmap_pte_loop]. rewrite E. cbn [obind]. set (i := lindex 0 va) in *.
  pose proof (run_cleared T (wd h) (wd h1) b p j0 j1 Hb Hag Hz1) as Hcl. pose proof (cleared_tree _ _ _ Ht Hcl) as Ht1.
  assert (Hm : forall j, j0 <= j < j1 -> meets 0 (p * 512 + j) lo hi) by (intros j Hj; unfold meets; change (lsize 0) with 4096; lia).
  assert (Hz' : forall j, 0 <= j < 512 -> lo <= (p * 512 + j) * 4096 < (p * 512 + j1) * 4096 -> wd h1 (b + 8 * j) = 0).
  { intros j Hj Hlo. destruct (decide (j0 <= j < j1)) as [| Hn]; [by apply Hz1 |].
    destruct (cl_cases _ _ _ Hcl _ _ _ j Hb Hj) as [-> | ->]; [done |]. apply Hz; lia. }
  destruct (Z.eqb_spec ((p * 512 + j1) * 4096) hi) as [Ee | Hne].
  - exists h1. split; [done |]. split; [done |]. eapply (wiped_run T _ _ _ b p j0 j1); [done.. |].
    eapply wiped_zeros; [done | done | exact Hb | exact Hsp |]. intros j Hj Hlo. apply Hz'; [done | lia].
  - assert (Hj1 : lindex 0 ((p * 512 + j1) * 4096) = j1).
    { apply (lindex_slot 0 _ p); [| change (lsize 0) with 4096; apply Z.div_mul; lia].
      assert (p * 512 + j1 < (p + 1) * 512); [| lia].
      pose proof (sn_hi _ _ _ _ Hsp) as S5. apply div_slot in S5. change (lsize 1) with (512 * 4096) in S5. lia. }
    destruct (IH h1 ((p * 512 + j1) * 4096)) as (h' & E' & Hs' & Hw'); [done | apply Hs | by eapply whole_sub | lia
      | apply Z_mod_mult | exact Hz' | lia |].
    rewrite Hj1 in E'. exists h'. split; [done |]. split; [by eapply ustep_trans |]. by eapply (wiped_run T _ _ _ b p j0 j1).
Qed.

(** ** Levels *)

(** A loop over a table of level [n], and the turn for one of its entries. *)
Definition uloop_ok (n : nat) (g : kheap -> Z -> Z -> Z -> outcome kheap) : Prop :=
  forall T h b p lo hi, levels T -> ptree T (wd h) -> tabs_ok T h -> T !! b = Some (n, p) -> span n p lo hi ->
    whole T (wd h) lo hi ->
    exists h', g h (b + 8 * lindex n lo + LINER_MAP_OFFSET) lo hi = Done h'
      /\ ustep T h h' /\ wiped T (wd h) (wd h') lo hi.

Definition uturn_ok (n : nat) (f : kheap -> Z -> Z -> Z -> outcome kheap) : Prop :=
  forall T h b p i lo hi, levels T -> ptree T (wd h) -> tabs_ok T h -> T !! b = Some (S n, p) -> 0 <= i < 512 ->
    span n (p * 512 + i) lo hi -> whole T (wd h) lo hi ->
    exists h', f h (b + 8 * i + LINER_MAP_OFFSET) lo hi = Done h'
      /\ ustep T h h' /\ wiped T (wd h) (wd h') lo hi.

(** What a turn does with an entry that links no table, and with one that does. *)
Definition clears_leaf (f : kheap -> Z -> Z -> Z -> outcome kheap) : Prop :=
  forall T h b k p i lo hi, ptree T (wd h) -> tabs_ok T h -> T !! b = Some (S k, p) -> 0 <= i < 512 ->
    Z.testbit (wd h (b + 8 * i)) 1 = false ->
    exists h', f h (b + 8 * i + LINER_MAP_OFFSET) lo hi = Done h'
      /\ ustep T h h' /\ agree_but T b i (wd h) (wd h') /\ wd h' (b + 8 * i) = 0.

Definition descends (n : nat) (f g : kheap -> Z -> Z -> Z -> outcome kheap) : Prop :=
  forall h pxd lo hi e, pxd_get h pxd = Done e -> Z.testbit e 0 = true -> Z.testbit e 1 = true ->
    f h pxd lo hi = g h (pxd_offset (lshift n) e lo) lo hi.

Lemma turn_from_loop n f g : (n <= 2)%nat -> uloop_ok n g -> clears_leaf f -> descends n f g -> uturn_ok n f.
Proof.
  intros Hn Hg Hc Hd T h b p i lo hi Hlev Ht Hok Hb Hi Hsp Hwh.
  pose proof (entry_get T h b _ i Hok Hb Hi) as Hget. set (e := wd h (b + 8 * i)) in *.
  destruct (Z.testbit e 1) eqn:E1.
  - assert (E0 : Z.testbit e 0 = true).
    { destruct (Z.testbit e 0) eqn:E0; [done |]. pose proof (pt_none _ _ Ht _ _ _ _ Hb Hi E0) as Hz. fold e in Hz.
      by rewrite Hz, Z.bits_0 in E1. }
    destruct (pt_child _ _ Ht _ _ _ _ Hb Hi E0 E1) as [Hch _].
    destruct (Hg T h _ _ lo hi Hlev Ht Hok Hch Hsp Hwh) as (h' & E & Hs & Hw). exists h'. split; [| done].
    rewrite (Hd _ _ _ _ _ Hget E0 E1). unfold e. rewrite (pxd_offset_val T (wd h) n b p i lo Ht Hb Hi E0 E1). exact E.
  - destruct (Hc T h b n p i lo hi Ht Hok Hb Hi E1) as (h' & E & Hs & Hag & Hz). exists h'. split; [done |]. split; [done |].
    apply (wiped_slot T (wd h) (wd h') b (S n) p i lo hi Ht); try done; [lia | | unfold leaf; fold e; by rewrite E1].
    split; [apply Hsp |]. intros v Hv. exact (span_in _ _ _ _ _ Hsp Hv).
Qed.

Lemma addr_end_span n p lo hi : (n <= 2)%nat -> span (S n) p lo hi -> addr_end (lsize (S n)) lo hi = piece_end n lo hi.
Proof.
  intros Hn [[S1 S2] S3 _ _ _]. destruct (Z.lt_ge_cases (lo + lsize (S n)) (2 ^ 64)) as [Hlt | Hge]; [by apply addr_end_val |].
  pose proof (lsize_pos (S n)) as Hpos. set (L := lsize (S n)) in *.
  assert (HL : exists m, 2 ^ 64 = m * L /\ L <= 2 ^ 39).
  { unfold L. destruct n as [|[|[|n]]]; [exists (2 ^ 43) | exists (2 ^ 34) | exists (2 ^ 25) | lia]; split; try done. }
  destruct HL as (m & HL & HL39). pose proof (Z.div_mod lo L ltac:(lia)). pose proof (Z.mod_pos_bound lo L ltac:(lia)).
  assert (Hlast : lo / L = m - 1).
  { symmetry. apply (Z.div_unique_pos lo L (m - 1) (lo - (m - 1) * L)); lia. }
  unfold addr_end, piece_end. fold L. rewrite Hlast.
  assert (Hu : u64 (lo + L) = lo + L - 2 ^ 64).
  { unfold u64. symmetry. apply (Z.mod_unique_pos _ _ 1); lia. }
  rewrite Hu, align_mask_pow2 by (try apply is_pow2_lsize; lia).
  rewrite Z.mod_small by lia. rewrite Z.sub_diag. change (u64 (0 - 1)) with (2 ^ 64 - 1). rewrite u64_small by lia.
  rewrite (proj2 (Z.ltb_ge (2 ^ 64 - 1) (hi - 1))) by lia. lia.
Qed.

(** The range that is left after the first entry. *)
Lemma span_piece n p lo hi : span (S n) p lo hi -> span n (p * 512 + lindex (S n) lo) lo (piece_end n lo hi).
Proof.
  intros [[S1 S2] S3 S4 S5 [S6 S7]]. pose proof (lsize_pos (S n)) as Hpos. pose proof (slot_split (S n) lo) as Hq.
  rewrite S4 in Hq. pose proof (proj1 (div_slot (S n) lo _) eq_refl) as Hsl.
  assert (Hpe : lo < piece_end n lo hi <= hi) by (unfold piece_end; lia).
  split; [lia | lia | done | rewrite <- Hq; apply div_slot; unfold piece_end in *; lia | split; [done |]].
  unfold piece_end. destruct (Z.min_spec ((lo / lsize (S n) + 1) * lsize (S n)) hi) as [[_ ->] | [_ ->]]; [| done].
  apply (mod_lsize_le 0 (S n)); [lia | apply Z_mod_mult].
Qed.

Lemma whole_split T r r1 lo mid hi : lo < mid < hi -> mid mod 65536 = 0 ->
  whole T r lo hi -> wiped T r r1 lo mid -> whole T r1 mid hi.
Proof.
  intros Hm Hmod Hw Hwp c k q i Hc Hi e s Hme Hl E0. unfold e in *. clear e.
  rewrite (Hwp c k q i Hc Hi) in *. case_decide as Hd; [by rewrite Z.bits_0 in E0 |].
  assert (Hlo : meets k s lo hi) by (unfold meets in *; lia). pose proof (lsize_pos k).
  destruct (Hw c k q i Hc Hi Hlo Hl E0) as [[W1 W2] W3]. fold s in W1, W2, W3.
  assert (Hn : ~ meets k s lo mid) by tauto. unfold meets in Hn.
  assert (mid <= s * lsize k) by lia. split; [done |]. intros -> Hcont. destruct (W3 eq_refl Hcont) as [W4 W5].
  split; [| done]. change (lsize 0) with 4096 in *. pose proof (Z.div_mod mid 65536 ltac:(lia)) as Hdm.
  pose proof (Z.div_mod s 16 ltac:(lia)). pose proof (Z.mod_pos_bound s 16 ltac:(lia)).
  assert (mid / 65536 <= s / 16); [| lia]. apply Z.div_le_lower_bound; [lia |]. lia.
Qed.

(** A border between two slots of a level cuts no block of the tables below. *)
Lemma below_border k s x : x mod lsize k = 0 -> s * lsize k < x -> (s + 1) * lsize k <= x.
Proof.
  intros Hm Hs. pose proof (lsize_pos k). pose proof (Z.div_mod x (lsize k) ltac:(lia)) as Hd.
  rewrite Hm, Z.add_0_r in Hd. assert (s < x / lsize k) by nia. nia.
Qed.

Lemma border_run x n : x mod lsize (S n) = 0 -> x mod 65536 = 0.
Proof.
  intros H. assert (H1 : x mod lsize 1 = 0) by (apply (mod_lsize_le 1 (S n)); [lia | done]).
  change (lsize 1) with (32 * 65536) in H1. pose proof (Z.div_mod x (32 * 65536) ltac:(lia)).
  symmetry. apply (Z.mod_unique_pos _ _ (32 * (x / (32 * 65536)))); lia.
Qed.

Lemma whole_piece T r b n p lo mid hi : ptree T r -> levels T -> T !! b = Some (S n, p) -> span (S n) p lo hi ->
  lo < mid < hi -> mid mod lsize (S n) = 0 -> whole T r lo hi -> whole T r lo mid.
Proof.
  intros Ht Hlev Hb Hsp Hmid Hmod Hw c k q i Hc Hi e s Hm Hl E0.
  assert (Hm' : meets k s lo hi) by (unfold meets in *; lia).
  destruct (Hw c k q i Hc Hi Hm' Hl E0) as [[W1 W2] W3]. fold e s in W1, W2, W3.
  destruct (le_gt_dec k (S n)) as [Hk | Hk].
  - split; [split; [done | apply below_border; [by apply (mod_lsize_le k (S n)) | apply Hm]] |].
    intros -> Hcont. destruct (W3 eq_refl Hcont) as [W4 W5]. split; [done |].
    pose proof (border_run mid n Hmod) as Hb16. pose proof (Z.div_mod mid 65536 ltac:(lia)).
    destruct Hm as [Hm _]. change (lsize 0) with 4096 in Hm.
    assert (s / 16 < mid / 65536); [| lia]. apply Z.div_lt_upper_bound; [lia |]. lia.
  - exfalso. destruct (meets_addr _ _ _ _ (proj1 Hmid) Hm) as (v & Hv & Hq).
    destruct (slot_addr k q i v Hi Hq) as [-> Ej]. rewrite <- (span_in _ _ _ _ v Hsp ltac:(lia)) in Hb.
    destruct (link_above T r v (S n) b Ht Hb k c) as (_ & E1 & _); [pose proof (Hlev c _ _ Hc); lia | done |].
    rewrite <- Ej in E1. fold e in E1. destruct k; [lia |]. by rewrite (link_leaf k e E1) in Hl.
Qed.

Lemma loop_from_turn n f : (n <= 2)%nat -> uturn_ok n f -> forall fuel T h b p lo hi,
  levels T -> ptree T (wd h) -> tabs_ok T h -> T !! b = Some (S n, p) -> span (S n) p lo hi -> whole T (wd h) lo hi ->
  (hi - 1) / lsize (S n) - lo / lsize (S n) < Z.of_nat fuel ->
  exists h', vunmap_loop fuel (lsize (S n)) f h (b + 8 * lindex (S n) lo + LINER_MAP_OFFSET) lo hi = Done h'
    /\ ustep T h h' /\ wiped T (wd h) (wd h') lo hi.
Proof.
  intros Hn Hf. induction fuel as [|fuel IH]; intros T h b p lo hi Hlev Ht Hok Hb Hsp Hwh Hfuel.
  all: pose proof Hsp as [[S1 S2] S3 S4 S5 [S6 S7]].
  { assert (lo / lsize (S n) <= (hi - 1) / lsize (S n)) by (apply Z.div_le_mono; [apply lsize_pos | lia]). lia. }
  cbn [vunmap_loop]. rewrite (addr_end_span n p lo hi Hn Hsp).
  pose proof (span_piece n p lo hi Hsp) as Hp. pose proof (lindex_range (S n) lo) as Hi.
  pose proof (slot_split (S n) lo) as Hq. rewrite S4 in Hq.
  pose proof (proj1 (div_slot (S n) lo _) eq_refl) as Hsl. pose proof (lsize_pos (S n)) as Hpos.
  destruct (piece_end_cases n lo hi) as [Ec | (Hlt & Epe & Hmod)].
  { rewrite Ec in Hp |- *. destruct (Hf T h b p _ lo hi Hlev Ht Hok Hb Hi Hp Hwh) as (h1 & -> & Hs & Hw).
    cbn [obind]. rewrite Z.eqb_refl. by exists h1. }
  remember (piece_end n lo hi) as nxt eqn:En.
  assert (Hnx : nxt / lsize (S n) = lo / lsize (S n) + 1) by (apply div_slot; lia).
  assert (Hmid : lo < nxt < hi) by lia.
  destruct (Hf T h b p _ lo nxt Hlev Ht Hok Hb Hi Hp) as (h1 & -> & Hs & Hw); [by eapply whole_piece |].
  cbn [obind]. rewrite (proj2 (Z.eqb_neq nxt hi)) by lia.
  assert (Hsp' : span (S n) p nxt hi).
  { split; [lia | done | apply (span_in _ _ _ _ _ Hsp); lia | done | split; [| done]].
    apply (mod_lsize_le 0 (S n)); [lia | done]. }
  destruct (IH T h1 b p nxt hi) as (h2 & E2 & Hs2 & Hw2); try done; [by eapply wiped_tree | apply Hs | | lia |].
  { eapply whole_split; [exact Hmid | by eapply border_run | exact Hwh | exact Hw]. }
  exists h2. split; [| split; [by eapply ustep_trans | by eapply wiped_trans]].
  rewrite <- E2. f_equal. pose proof (slot_split (S n) nxt) as Q2. rewrite (sn_lo _ _ _ _ Hsp') in Q2. lia.
Qed.

(** ** The three steps *)

Section Leaves.
Context (T : tables) (h : kheap) (b : Z) (k : nat) (p i : Z).
Context (Ht : ptree T (wd h)) (Hok : tabs_ok T h) (Hb : T !! b = Some (S k, p)) (Hi : 0 <= i < 512).
Context (E1 : Z.testbit (wd h (b + 8 * i)) 1 = false).

Lemma skip_leaf : exists h', none_or_clear_bad h (b + 8 * i + LINER_MAP_OFFSET) = Done (true, h')
  /\ ustep T h h' /\ agree_but T b i (wd h) (wd h') /\ wd h' (b + 8 * i) = 0.
Proof.
  unfold none_or_clear_bad. rewrite (entry_get T h b _ i Hok Hb Hi). cbn [obind].
  unfold pte_none. destruct (Z.eqb_spec (wd h (b + 8 * i)) 0) as [Hz | Hz].
  - exists h. split; [done |]. split; [by apply ustep_refl |]. split; [by intros c k' q j | done].
  - rewrite pxd_bad_val by done. destruct (entry_clear T h b _ _ i (ptree_paged _ _ Ht) Hok Hb Hi) as (h' & -> & H). by exists h'.
Qed.

Lemma huge_leaf : exists h' c, pxd_clear_huge h (b + 8 * i + LINER_MAP_OFFSET) = Done (c, h')
  /\ ustep T h h' /\ agree_but T b i (wd h) (wd h') /\ wd h' (b + 8 * i) = 0.
Proof.
  unfold pxd_clear_huge. rewrite (entry_get T h b _ i Hok Hb Hi). cbn [obind]. rewrite pxd_sect_val by done.
  destruct (Z.testbit (wd h (b + 8 * i)) 0) eqn:E0; cbn [negb].
  - destruct (entry_clear T h b _ _ i (ptree_paged _ _ Ht) Hok Hb Hi) as (h' & -> & H). by exists h', true.
  - exists h, false. split; [done |]. split; [by apply ustep_refl |]. split; [by intros c k' q j |].
    by apply (pt_none _ _ Ht _ _ _ _ Hb Hi).
Qed.
End Leaves.

(** An entry that is zero is skipped. *)
Lemma skip_zero T h b k p i : tabs_ok T h -> T !! b = Some (S k, p) -> 0 <= i < 512 -> wd h (b + 8 * i) = 0 ->
  none_or_clear_bad h (b + 8 * i + LINER_MAP_OFFSET) = Done (true, h).
Proof.
  intros Hok Hb Hi Hz. unfold none_or_clear_bad. rewrite (entry_get T h b _ i Hok Hb Hi). cbn [obind]. by rewrite Hz.
Qed.

Lemma pgd_clears : clears_leaf vunmap_pgd_step.
Proof.
  intros T h b k p i lo hi Ht Hok Hb Hi E1. unfold vunmap_pgd_step.
  destruct (skip_leaf T h b k p i Ht Hok Hb Hi E1) as (h' & -> & H). by exists h'.
Qed.

Lemma pud_clears : clears_leaf vunmap_pud_step.
Proof.
  intros T h b k p i lo hi Ht Hok Hb Hi E1. unfold vunmap_pud_step.
  destruct (huge_leaf T h b k p i Ht Hok Hb Hi E1) as (h' & c & -> & Hs & Hag & Hz). cbn [obind].
  rewrite (skip_zero T h' b k p i) by (done || apply Hs). cbn [obind]. by exists h'.
Qed.

Lemma pmd_clears : clears_leaf vunmap_pmd_step.
Proof.
  intros T h b k p i lo hi Ht Hok Hb Hi E1. unfold vunmap_pmd_step.
  destruct (huge_leaf T h b k p i Ht Hok Hb Hi E1) as (h' & c & -> & Hs & Hag & Hz). cbn [obind].
  destruct c; [by exists h' |]. rewrite (skip_zero T h' b k p i) by (done || apply Hs). cbn [obind]. by exists h'.
Qed.

Lemma no_huge h pxd e : pxd_get h pxd = Done e -> Z.testbit e 0 = true -> Z.testbit e 1 = true ->
  pxd_clear_huge h pxd = Done (false, h) /\ none_or_clear_bad h pxd = Done (false, h).
Proof.
  intros E E0 E1. destruct (link_type e E0 E1) as (L1 & L2 & L3). unfold pxd_clear_huge, none_or_clear_bad.
  rewrite E. cbn [obind]. by rewrite L1, L2, L3.
Qed.

Lemma table_turns n lo hi p : span n p lo hi -> (hi - 1) / lsize n - lo / lsize n < Z.of_nat TABLE_FUEL.
Proof.
  intros [_ _ S4 S5 _]. apply div_slot in S4, S5. rewrite lsize_S in S4, S5. pose proof (lsize_pos n) as Hpos.
  assert ((hi - 1) / lsize n < (p + 1) * 512) by (apply Z.div_lt_upper_bound; lia).
  assert (p * 512 <= lo / lsize n) by (apply Z.div_le_lower_bound; lia).
  change (Z.of_nat TABLE_FUEL) with 513. lia.
Qed.

Lemma pte_level : uloop_ok 0 (vunmap_pte_loop TABLE_FUEL).
Proof.
  intros T h b p lo hi Hlev Ht Hok Hb Hsp Hwh. pose proof Hsp as [[S1 S2] S3 S4 S5 [S6 S7]].
  apply (unmap_pages_ok T b p lo hi Hlev Hb Hsp); try done; [intros j _; lia |].
  apply div_slot in S4, S5. change (lsize 1) with (512 * 4096) in *. change (Z.of_nat TABLE_FUEL) with 513. lia.
Qed.

Lemma level_up n f : (n <= 2)%nat -> uturn_ok n f -> uloop_ok (S n) (vunmap_loop TABLE_FUEL (lsize (S n)) f).
Proof.
  intros Hn Hf T h b p lo hi Hlev Ht Hok Hb Hsp Hwh. apply (loop_from_turn n f Hn Hf TABLE_FUEL T h b p); try done.
  by eapply table_turns.
Qed.

Lemma pmd_level : uloop_ok 1 (vunmap_loop TABLE_FUEL PMD_SIZE vunmap_pmd_step).
Proof.
  apply (level_up 0); [lia |]. apply (turn_from_loop 0 _ (vunmap_pte_loop TABLE_FUEL)); [lia | exact pte_level | exact pmd_clears |].
  intros h pxd lo hi e E E0 E1. destruct (no_huge h pxd e E E0 E1) as [H1 H2].
  unfold vunmap_pmd_step, vunmap_pte_range. rewrite H1. cbn [obind]. rewrite H2. cbn [obind]. by rewrite E.
Qed.

Lemma pud_level : uloop_ok 2 (vunmap_loop TABLE_FUEL PUD_SIZE vunmap_pud_step).
Proof.
  apply (level_up 1); [lia |]. apply (turn_from_loop 1 _ (vunmap_loop TABLE_FUEL PMD_SIZE vunmap_pmd_step));
    [lia | exact pmd_level | exact pud_clears |].
  intros h pxd lo hi e E E0 E1. destruct (no_huge h pxd e E E0 E1) as [H1 H2].
  unfold vunmap_pud_step, vunmap_pmd_range. rewrite H1. cbn [obind]. rewrite H2. cbn [obind]. by rewrite E.
Qed.

Lemma pgd_level : uloop_ok 3 (vunmap_loop TABLE_FUEL PGDIR_SIZE vunmap_pgd_step).
Proof.
  apply (level_up 2); [lia |]. apply (turn_from_loop 2 _ (vunmap_loop TABLE_FUEL PUD_SIZE vunmap_pud_step));
    [lia | exact pud_level | exact pgd_clears |].
  intros h pxd lo hi e E E0 E1. destruct (no_huge h pxd e E E0 E1) as [H1 H2].
  unfold vunmap_pgd_step, vunmap_pud_range. rewrite H2. cbn [obind]. by rewrite E.
Qed.

(** ** The entry point *)

(** The kernel's tables: the directory at [root] translates the upper half. *)
Record kernel_tables (T : tables) (root : Z) (h : kheap) : Prop := {
  kt_levels : levels T;
  kt_tree : ptree T (wd h);
  kt_tabs : tabs_ok T h;
  kt_root : T !! root = Some (3%nat, 2 ^ 16 - 1);
}.

Definition kernel_addr (v : Z) : Prop := 2 ^ 64 - 2 ^ 48 <= v < 2 ^ 64.

Record unmap_call (T : tables) (r : Z -> Z) (lo hi : Z) : Prop := {
  uc_range : kernel_addr lo /\ lo < hi < 2 ^ 64;
  uc_page : lo mod 4096 = 0 /\ hi mod 4096 = 0;
  uc_whole : whole T r lo hi;
}.

Lemma kernel_slot v : kernel_addr v -> v / lsize 4 = 2 ^ 16 - 1.
Proof. intros Hv. unfold kernel_addr in Hv. apply div_slot. change (lsize 4) with (2 ^ 48). lia. Qed.

Lemma vunmap_run T root h lo hi : kernel_tables T root h -> unmap_call T (wd h) lo hi ->
  exists h', __vunmap_range_noflush (root + LINER_MAP_OFFSET) h lo hi = Done h' /\ kernel_tables T root h'
    /\ ustep T h h' /\ wiped T (wd h) (wd h') lo hi.
Proof.
  intros [K1 K2 K3 K4] [[U1 U2] U3 U4]. unfold kernel_addr in U1. unfold __vunmap_range_noflush.
  rewrite (proj2 (Z.leb_gt hi lo)) by lia.
  assert (Hsp : span 3 (2 ^ 16 - 1) lo hi).
  { split; [lia | lia | apply kernel_slot | apply kernel_slot | done]; unfold kernel_addr; lia. }
  destruct (pgd_level T h root _ lo hi K1 K2 K3 K4 Hsp U4) as (h' & E & Hs & Hw).
  exists h'. split; [| split; [| done]].
  - change PGDIR_SHIFT with (lshift 3). rewrite pxd_index_val.
    replace (root + LINER_MAP_OFFSET + 8 * lindex 3 lo) with (root + 8 * lindex 3 lo + LINER_MAP_OFFSET) by lia. exact E.
  - split; [done | by eapply wiped_tree | apply Hs | done].
Qed.

(** ** Three pages at the start of the area *)

Definition vu_root : Z := 0x70000000.
Definition vu_pte (i : Z) : Z := Z.lor (0x60000000 + 4096 * i) (Z.lor RW_ATTR 3).
Definition vu_slot : Z := (2 ^ 16 - 1) * 512 + 256.
Definition vu_tables : tables :=
  {[ vu_root := (3%nat, 2 ^ 16 - 1); vu_root + 0x1000 := (2%nat, vu_slot);
     vu_root + 0x2000 := (1%nat, vu_slot * 512); vu_root + 0x3000 := (0%nat, vu_slot * 512 * 512) ]}.
Definition vu_words : list Z :=
  replicate 256 0 ++ [vu_root + 0x1003] ++ replicate 255 0 ++ [vu_root + 0x2003] ++ replicate 511 0
  ++ [vu_root + 0x3003] ++ replicate 511 0 ++ [vu_pte 0; vu_pte 1; vu_pte 2] ++ replicate 509 0.
Definition vu_tab_mb : memblock := after (after memblock_init (OpAdd vu_root 0x4000)) (OpReserve vu_root 0x4000).
Definition vu_tab_heap : kheap := mkHeap vu_tab_mb (blit ∅ (vu_root + LINER_MAP_OFFSET) (words vu_words)).

(** The entries that are not zero. *)
Definition vu_entries : list (Z * nat * Z * Z * Z) :=
  [(vu_root, 3%nat, 2 ^ 16 - 1, 256, vu_root + 0x1003);
   (vu_root + 0x1000, 2%nat, vu_slot, 0, vu_root + 0x2003);
   (vu_root + 0x2000, 1%nat, vu_slot * 512, 0, vu_root + 0x3003);
   (vu_root + 0x3000, 0%nat, vu_slot * 512 * 512, 0, vu_pte 0);
   (vu_root + 0x3000, 0%nat, vu_slot * 512 * 512, 1, vu_pte 1);
   (vu_root + 0x3000, 0%nat, vu_slot * 512 * 512, 2, vu_pte 2)].

Definition vu_list : list (Z * (nat * Z)) :=
  [(vu_root, (3%nat, 2 ^ 16 - 1)); (vu_root + 0x1000, (2%nat, vu_slot));
   (vu_root + 0x2000, (1%nat, vu_slot * 512)); (vu_root + 0x3000, (0%nat, vu_slot * 512 * 512))].

Lemma vu_lookup b x : vu_tables !! b = Some x -> (b, x) ∈ vu_list.
Proof.
  unfold vu_tables, vu_list. intros H.
  repeat (apply lookup_insert_Some in H as [[<- <-] | [_ H]]; [set_solver |]).
  apply lookup_singleton_Some in H as [<- <-]. set_solver.
Qed.

Lemma vu_word j w : vu_words !! Z.to_nat j = Some w -> 0 <= j -> wd vu_tab_heap (vu_root + 8 * j) = w.
Proof.
  intros Hj Hn. unfold wd. cbn [kh_mem vu_tab_heap].
  replace (vu_root + 8 * j + LINER_MAP_OFFSET) with (vu_root + LINER_MAP_OFFSET + 8 * Z.of_nat (Z.to_nat j)) by lia.
  rewrite (ld64_words _ _ vu_words (Z.to_nat j) w); [done | | | done].
  - apply Forall_forall. intros x Hx. assert (H : forallb (fun w => (0 <=? w) && (w <? 2 ^ 64)) vu_words = true) by (vm_compute; reflexivity).
    rewrite forallb_forall in H. apply list_elem_of_In, H in Hx. lia.
  - intros i b Hi. rewrite blit_lookup. pose proof (lookup_lt_Some _ _ _ Hi) as Hl.
    rewrite (proj2 (Z.leb_le _ _)), (proj2 (Z.ltb_lt _ _)) by lia. cbn [andb].
    by replace (Z.to_nat _) with i by lia.
Qed.

(** Every other entry is zero. *)
Definition vu_check (b : Z) (k : nat) (p i : Z) : bool :=
  match vu_words !! Z.to_nat ((b - vu_root) / 8 + i) with
  | Some w => (w =? 0) || bool_decide ((b, k, p, i, w) ∈ vu_entries)
  | None => false
  end.

Lemma vu_entry b k p i : vu_tables !! b = Some (k, p) -> 0 <= i < 512 ->
  wd vu_tab_heap (b + 8 * i) = 0 \/ (b, k, p, i, wd vu_tab_heap (b + 8 * i)) ∈ vu_entries.
Proof.
  intros Hb Hi. apply vu_lookup in Hb.
  assert (H : forallb (fun '(b, (k, p)) => forallb (fun n => vu_check b k p (Z.of_nat n)) (seq 0 512))
    vu_list = true)
    by (vm_compute; reflexivity).
  assert (Hr : 0 <= (b - vu_root) / 8 /\ b = vu_root + 8 * ((b - vu_root) / 8)).
  { clear H. unfold vu_list in Hb. repeat (apply elem_of_cons in Hb as [[= -> _ _] | Hb]; [vm_compute; done |]).
    by apply not_elem_of_nil in Hb. }
  rewrite forallb_forall in H. apply list_elem_of_In, H in Hb. rewrite forallb_forall in Hb.
  specialize (Hb (Z.to_nat i)). rewrite in_seq in Hb. specialize (Hb ltac:(lia)). unfold vu_check in Hb.
  rewrite Z2Nat.id in Hb by lia. destruct (vu_words !! _) as [w|] eqn:E; [| done].
  rewrite (proj2 Hr). replace (vu_root + 8 * ((b - vu_root) / 8) + 8 * i) with (vu_root + 8 * ((b - vu_root) / 8 + i)) by lia.
  rewrite (vu_word _ _ E) by lia. rewrite <- (proj2 Hr). apply orb_true_iff in Hb as [Hb | Hb]; [left; lia |].
  right. by apply bool_decide_eq_true in Hb.
Qed.

Ltac vu_cases H :=
  repeat (apply elem_of_cons in H as [H | H]; [simplify_eq |]); try (by apply not_elem_of_nil in H).

Lemma vu_heap_ok : heap_ok vu_tab_heap.
Proof.
  split; [| split; vm_compute; done |].
  - refine (proj1 (history_blocks vu_tab_mb [] _)).
    eapply (hist_reserve (after memblock_init (OpAdd vu_root 0x4000)) [] vu_root 0x4000 0); [| op_ok_tac | vm_compute; reflexivity].
    apply (hist_add memblock_init [] vu_root 0x4000 0); [constructor | op_ok_tac | vm_compute; reflexivity].
  - intros a Ha. apply covered_elem in Ha as (r & Hr & Hin).
    assert (live (memory (kh_mb vu_tab_heap)) = [mkRegion 0x70000000 0x4000 0 16]) as E by (vm_compute; reflexivity).
    rewrite E in Hr. apply list_elem_of_singleton in Hr as ->. unfold rend in Hin. simpl in Hin.
    split; [lia |]. cbn [kh_mem vu_tab_heap]. rewrite blit_lookup.
    assert (length (words vu_words) = Z.to_nat 0x4000) as El by (vm_compute; reflexivity).
    rewrite El. unfold vu_root. rewrite (proj2 (Z.leb_le _ _)), (proj2 (Z.ltb_lt _ _)) by lia.
    apply lookup_lt_is_Some_2. rewrite El. lia.
Qed.

Lemma vu_tabs : tabs_ok vu_tables vu_tab_heap.
Proof.
  split; [exact vu_heap_ok |]. intros b x a Hb Hin. apply vu_lookup in Hb.
  assert (Ha : 0x70000000 <= a < 0x70000000 + 0x4000).
  { unfold in_page in Hin. unfold vu_list, vu_root in Hb. vu_cases Hb; lia. }
  assert (E : live (memory vu_tab_mb) = [mkRegion 0x70000000 0x4000 0 16]
              /\ live (reserved vu_tab_mb) = [mkRegion 0x70000000 0x4000 0 (-1)]) by (split; vm_compute; reflexivity).
  change (kh_mb vu_tab_heap) with vu_tab_mb. destruct E as [E1 E2]. split; apply covered_elem; rewrite ?E1, ?E2;
    eexists; (split; [by apply list_elem_of_singleton |]); unfold rend; simpl; lia.
Qed.

Definition vu_good (x : Z * nat * Z * Z * Z) : bool :=
  let '(b, k, p, i, e) := x in
  Z.testbit e 0 &&
  match k with
  | S k => bool_decide (vu_tables !! desc_addr 0 e = Some (k, p * 512 + i)) && (__pte_to_phys e =? desc_addr 0 e)
  | O => (0 <=? e) && (e <? 2 ^ 64) && Z.testbit e 1 && Z.testbit e 10
         && Bool.eqb (Z.testbit e 7) (negb (Z.testbit e 51) && Z.testbit e 6)
         && negb (Z.testbit e 48) && negb (Z.testbit e 49)
  end.

Lemma vu_goods : forallb vu_good vu_entries = true.
Proof. vm_compute. reflexivity. Qed.

Definition vu_lo : Z := VMALLOC_START + 4096.
Definition vu_hi : Z := VMALLOC_START + 8192.

Definition vu_inside (x : Z * nat * Z * Z * Z) : bool :=
  let '(b, k, p, i, e) := x in let s := p * 512 + i in
  negb (bool_decide (meets k s vu_lo vu_hi) && leaf k e)
  || (negb (pte_valid_cont e) && (vu_lo <=? s * lsize k) && ((s + 1) * lsize k <=? vu_hi)).

Lemma vu_inside_ok b k p i e : let s := p * 512 + i in vu_inside (b, k, p, i, e) = true ->
  meets k s vu_lo vu_hi -> leaf k e = true ->
  (vu_lo <= s * lsize k /\ (s + 1) * lsize k <= vu_hi) /\ pte_valid_cont e = false.
Proof.
  intros s He Hm Hl. unfold vu_inside in He. fold s in He. rewrite Hl, bool_decide_true in He by exact Hm.
  cbn [andb negb orb] in He. rewrite !andb_true_iff, negb_true_iff in He. destruct He as [[H1 H2] H3]. split; [lia | done].
Qed.

Section Demo.
Context (r : Z -> Z).
Context (Hr : forall b k p i, vu_tables !! b = Some (k, p) -> 0 <= i < 512 ->
  r (b + 8 * i) = 0 \/ (b, k, p, i, r (b + 8 * i)) ∈ vu_entries).
Context (L1 : r (vu_root + 8 * 256) = vu_root + 0x1003).
Context (L2 : r (vu_root + 0x1000 + 8 * 0) = vu_root + 0x2003).
Context (L3 : r (vu_root + 0x2000 + 8 * 0) = vu_root + 0x3003).

(** What holds of each entry that is not zero. *)
Lemma vu_forall (f : Z * nat * Z * Z * Z -> bool) b k p i : forallb f vu_entries = true ->
  vu_tables !! b = Some (k, p) -> 0 <= i < 512 ->
  r (b + 8 * i) = 0 \/ f (b, k, p, i, r (b + 8 * i)) = true.
Proof.
  intros Hf Hb Hi. destruct (Hr b k p i Hb Hi) as [Hz | He]; [left; exact Hz | right].
  rewrite forallb_forall in Hf. by apply Hf, list_elem_of_In.
Qed.

Lemma vu_links b k q : vu_tables !! b = Some (k, q) -> (k < 3)%nat ->
  exists b' p i, vu_tables !! b' = Some (S k, p) /\ 0 <= i < 512 /\ q = p * 512 + i
    /\ Z.testbit (r (b' + 8 * i)) 0 = true /\ Z.testbit (r (b' + 8 * i)) 1 = true
    /\ desc_addr 0 (r (b' + 8 * i)) = b.
Proof.
  intros Hb Hk. apply vu_lookup in Hb. unfold vu_list in Hb.
  apply elem_of_cons in Hb as [[= -> -> ->] | Hb]; [lia |].
  apply elem_of_cons in Hb as [[= -> -> ->] | Hb]; [exists vu_root, (2 ^ 16 - 1), 256 |].
  { rewrite L1. split_and!; lia || (vm_compute; reflexivity). }
  apply elem_of_cons in Hb as [[= -> -> ->] | Hb]; [exists (vu_root + 0x1000), vu_slot, 0 |].
  { rewrite L2. split_and!; lia || (vm_compute; reflexivity). }
  apply elem_of_cons in Hb as [[= -> -> ->] | Hb]; [exists (vu_root + 0x2000), (vu_slot * 512), 0 | by apply not_elem_of_nil in Hb].
  rewrite L3. split_and!; lia || (vm_compute; reflexivity).
Qed.

Lemma vu_tree : ptree vu_tables r.
Proof.
  split.
  - intros b k p Hb. apply vu_lookup in Hb. unfold vu_list, vu_root in Hb. vu_cases Hb; vm_compute; done.
  - intros b1 b2 x H1 H2. apply vu_lookup in H1, H2. unfold vu_list in H1, H2. vu_cases H1; vu_cases H2; done.
  - intros b k p i Hb Hi E0. destruct (vu_forall _ b k p i vu_goods Hb Hi) as [Hz | He]; [exact Hz |].
    unfold vu_good in He. rewrite E0 in He. discriminate He.
  - intros b k p i Hb Hi E0 _. destruct (vu_forall _ b _ p i vu_goods Hb Hi) as [Hz | He]; [rewrite Hz, Z.bits_0 in E0; discriminate E0 |].
    unfold vu_good in He. apply andb_true_iff in He as [_ He]. apply andb_true_iff in He as [H1 H2].
    apply bool_decide_eq_true in H1. apply Z.eqb_eq in H2. exact (conj H1 H2).
  - exact vu_links.
Qed.

Lemma vu_whole : whole vu_tables r vu_lo vu_hi.
Proof.
  intros b k p i Hb Hi e s Hm Hl E0. unfold e in *.
  destruct (vu_forall vu_inside b k p i ltac:(vm_compute; reflexivity) Hb Hi) as [Hz | He];
    [rewrite Hz, Z.bits_0 in E0; discriminate E0 |].
  destruct (vu_inside_ok b k p i _ He Hm Hl) as [H1 H2]. split; [exact H1 |].
  intros _ Hc. rewrite H2 in Hc. discriminate Hc.
Qed.
End Demo.

Lemma vu_kernel : kernel_tables vu_tables vu_root vu_tab_heap.
Proof.
  split; [| | exact vu_tabs | reflexivity].
  - intros c k q Hc. apply vu_lookup in Hc. unfold vu_list in Hc. vu_cases Hc; lia.
  - apply vu_tree; [exact vu_entry | apply (vu_word 256) | apply (vu_word 512) | apply (vu_word 1024)];
      lia || (vm_compute; reflexivity).
Qed.

Lemma vu_call : unmap_call vu_tables (wd vu_tab_heap) vu_lo vu_hi.
Proof. split; [split; vm_compute; done | vm_compute; done | exact (vu_whole _ vu_entry)]. Qed.

Lemma vu_near : vu_lo <= vu_lo < vu_hi /\ kernel_addr (vu_lo - 1) /\ ~ (vu_lo <= vu_lo - 1 < vu_hi)
  /\ kernel_addr vu_hi /\ ~ (vu_lo <= vu_hi < vu_hi).
Proof. unfold kernel_addr, vu_lo, vu_hi, VMALLOC_START. lia. Qed.

(** C13: [__vunmap_range_noflush] on page tables in memory, for a page-aligned
    range of kernel addresses that cuts no block and no contiguous run in
    two, returns; no address of the range is translated any more, every
    other kernel address translates as before, the tables keep their
    structure, and no byte outside the tables changes.  The directory is
    given by its address in the linear map. *)
Theorem vunmap_removes T root h lo hi : kernel_tables T root h -> unmap_call T (wd h) lo hi ->
  exists h', __vunmap_range_noflush (root + LINER_MAP_OFFSET) h lo hi = Done h'
    /\ kernel_tables T root h' /\ kh_mb h' = kh_mb h
    /\ (forall v, lo <= v < hi -> twalk 3 (wd h') root v = None)
    /\ (forall v, kernel_addr v -> ~ (lo <= v < hi) -> twalk 3 (wd h') root v = twalk 3 (wd h) root v)
    /\ (forall a, (forall b x, T !! b = Some x -> ~ in_page b a) ->
          kh_mem h' !! (a + LINER_MAP_OFFSET) = kh_mem h !! (a + LINER_MAP_OFFSET)).
Proof.
  intros Hk Hu. destruct (vunmap_run T root h lo hi Hk Hu) as (h' & E & Hk' & [S1 S2 S3] & Hw).
  destruct Hu as [[U1 U2] U3 U4]. destruct Hk as [K1 K2 K3 K4]. exists h'.
  split; [done |]. split; [done |]. split; [done |]. split; [| split; [| done]].
  - intros v Hv. apply (wiped_in T (wd h) _ lo hi v K2 Hw Hv). rewrite kernel_slot; [done |]. unfold kernel_addr in *. lia.
  - intros v Hv Hn. apply (wiped_out T _ _ lo hi v K2 Hw U4 Hn). by rewrite kernel_slot.
Qed.

(** Three pages are mapped; unmapping the second leaves the others. *)
Lemma vunmap_removes_witness :
  exists h', __vunmap_range_noflush (vu_root + LINER_MAP_OFFSET) vu_tab_heap vu_lo vu_hi = Done h'
    /\ option_map fst (twalk 3 (wd vu_tab_heap) vu_root vu_lo) = Some 0x60001000
    /\ twalk 3 (wd h') vu_root vu_lo = None
    /\ option_map fst (twalk 3 (wd h') vu_root (vu_lo - 1)) = Some 0x60000fff
    /\ option_map fst (twalk 3 (wd h') vu_root vu_hi) = Some 0x60002000.
Proof.
  destruct (vunmap_removes vu_tables vu_root vu_tab_heap vu_lo vu_hi vu_kernel vu_call) as (h' & E & _ & _ & Hin & Hout & _).
  exists h'. split; [exact E |].
  destruct vu_near as (N1 & N2 & N3 & N4 & N5). split; [vm_compute; reflexivity |]. split; [exact (Hin vu_lo N1) |].
  rewrite (Hout (vu_lo - 1) N2 N3), (Hout vu_hi N4 N5). split; vm_compute; reflexivity.
Defined.
