(* ===== verification/Fixmap.v ===== *)
(** * Fixed addresses: [src/src/mm/fixmap.c], [early_ioremap.c], [mmu.c] (lines 165 to 498), [fdt.c] (lines 311 to 363)

    A few pages at the top of the address space have their tables in the
    image ([bm_pte], [bm_pmd], [bm_pud]), so that a page can be mapped there
    before any memory can be allocated.  [early_ioremap] maps the registers
    of devices into seven slots of a megabyte; [create_mapping_noalloc] and
    [create_mapping_alloc] reach the tables of the kernel, which may be
    anywhere in memory, through one page of the fixed map per level.

    Memory is the word memory of [PageTable], at physical addresses.  Every
    load and store of this code is at a virtual address and goes through the
    architecture's table walk from [swapper_pg_dir], so through the tables
    the code is changing.  The translation look-aside buffer is not modelled,
    nor are barriers; [WARN] only prints. *)

From S2P Require Import Prelude PageTable Pte BootMap Memblock.

(** ** Addresses ([fixmap.h], [memory.h]) *)

Definition FIXADDR_TOP : Z := 2 ^ 64 - 0x800000.

(** [enum fixed_addresses]. *)
Definition FIX_HOLE : Z := 0.
Definition FIX_FDT_END : Z := 1.
Definition FIX_FDT : Z := FIX_FDT_END + MAX_FDT_SIZE / PAGE_SIZE + 1.
Definition FIX_EARLYCON_MEM_BASE : Z := FIX_FDT + 1.
Definition FIX_TEXT_POKE0 : Z := FIX_FDT + 2.
Definition __end_of_permanent_fixed_addresses : Z := FIX_FDT + 3.
Definition NR_FIX_BTMAPS : Z := 0x100000 / PAGE_SIZE.
Definition FIX_BTMAPS_SLOTS : nat := 7.
Definition TOTAL_FIX_BTMAPS : Z := NR_FIX_BTMAPS * Z.of_nat FIX_BTMAPS_SLOTS.
Definition FIX_BTMAP_END : Z := __end_of_permanent_fixed_addresses.
Definition FIX_BTMAP_BEGIN : Z := FIX_BTMAP_END + TOTAL_FIX_BTMAPS - 1.
Definition FIX_PTE : Z := FIX_BTMAP_BEGIN + 1.
Definition FIX_PMD : Z := FIX_BTMAP_BEGIN + 2.
Definition FIX_PUD : Z := FIX_BTMAP_BEGIN + 3.
Definition FIX_PGD : Z := FIX_BTMAP_BEGIN + 4.
Definition __end_of_fixed_addresses : Z := FIX_BTMAP_BEGIN + 5.

Definition FIXADDR_TOT_SIZE : Z := Z.shiftl __end_of_fixed_addresses PAGE_SHIFT.
Definition FIXADDR_TOT_START : Z := FIXADDR_TOP - FIXADDR_TOT_SIZE.

Definition __fix_to_virt (x : Z) : Z := u64 (FIXADDR_TOP - Z.shiftl x PAGE_SHIFT).

Definition MT_DEVICE_nGnRE : Z := 4.
Definition PROT_DEVICE_nGnRE (ng : bool) : Z :=
  Z.lor (Z.lor (Z.lor (Z.lor (PROT_DEFAULT ng) PTE_PXN) PTE_UXN) PTE_WRITE) (PTE_ATTRINDX MT_DEVICE_nGnRE).
Definition _PAGE_KERNEL_RO (ng : bool) : Z := Z.lor (Z.ldiff (PROT_NORMAL ng) PTE_WRITE) PTE_RDONLY.

(** The symbols the code uses, as the virtual addresses it uses, and the
    distance from those of the image to physical ones. *)
Record fix_syms := FixSyms {
  kimage_voffset : Z;
  use_ng : bool;
  swapper_pg_dir : Z;
  bm_pte : Z; bm_pmd : Z; bm_pud : Z;
}.

Section Fix.
Context (G : fix_syms).

Definition virt_to_kimg_phys (x : Z) : Z := u64 (x - kimage_voffset G).
Definition PAGE_KERNEL : Z := _PAGE_KERNEL (use_ng G).

(** ** Memory *)

Definition kwalk (m : mem) (va : Z) : option (Z * Z) :=
  if va / 2 ^ 48 =? 0xffff then walk 3 m (virt_to_kimg_phys (swapper_pg_dir G)) va else None.

Definition vload (m : mem) (va : Z) : outcome Z :=
  match kwalk m va with
  | Some (pa, attr) => if Z.testbit attr 10 && (pa mod 8 =? 0) then Done (rd m pa) else Bug
  | None => Bug
  end.

Definition vstore (m : mem) (va x : Z) : outcome mem :=
  match kwalk m va with
  | Some (pa, attr) => if writable attr && (pa mod 8 =? 0) then Done (wr m pa x) else Bug
  | None => Bug
  end.

(** ** Entries of the fixed map *)

Definition BM_PTE_TABLE_IDX (addr : Z) : Z := Z.shiftr addr PMD_SHIFT - Z.shiftr FIXADDR_TOT_START PMD_SHIFT.

Definition fixmap_pte (addr : Z) : Z := bm_pte G + 8 * (512 * BM_PTE_TABLE_IDX addr + pxd_index PAGE_SHIFT addr).

Definition __set_fixmap (m : mem) (idx phys flags : Z) : outcome mem :=
  let addr := __fix_to_virt idx in
  if (idx <=? FIX_HOLE) || (__end_of_fixed_addresses <=? idx) then Bug
  else
    let ptep := fixmap_pte addr in
    if negb (flags =? 0) then vstore m ptep (pfn_pte (Z.shiftr phys PAGE_SHIFT) flags)
    else vstore m ptep 0.

Definition clear_fixmap (m : mem) (idx : Z) : outcome mem := __set_fixmap m idx 0 0.

Definition set_fixmap_offset (m : mem) (idx phys : Z) : outcome (Z * mem) :=
  let! m := __set_fixmap m idx phys PAGE_KERNEL in
  Done (__fix_to_virt idx + Z.land phys (PAGE_SIZE - 1), m).

(** ** The tables of the fixed map *)

Definition table_desc (table : Z) : Z := Z.lor (Z.lor (virt_to_kimg_phys table) PG_DESC_TYPE_TABLE) PG_TABLE_ENTRY_RWX.

Fixpoint fixmap_pmd_loop (fuel : nat) (m : mem) (entry entry_end va_start va_end : Z) : outcome mem :=
  match fuel with
  | O => Fuel
  | S fuel =>
      let! m := vstore m entry (table_desc (bm_pte G + 8 * 512 * BM_PTE_TABLE_IDX va_start)) in
      let entry := entry + PG_ENTRY_BYTES in
      let va_start := addr_end PMD_SIZE va_start va_end in
      if entry <=? entry_end then fixmap_pmd_loop fuel m entry entry_end va_start va_end else Done m
  end.

Definition fixmap_init_pmd (m : mem) (pmd va_start va_end : Z) : outcome mem :=
  fixmap_pmd_loop TABLE_FUEL m (table_entry PMD_SHIFT pmd va_start) (table_entry PMD_SHIFT pmd (va_end - 1))
    va_start va_end.

Definition fixmap_init_pud (m : mem) (pud va_start va_end : Z) : outcome mem :=
  let! m := vstore m (table_entry PUD_SHIFT pud va_start) (table_desc (bm_pmd G)) in
  fixmap_init_pmd m (bm_pmd G) va_start va_end.

Definition early_fixmap_init (m : mem) : outcome mem :=
  let va_start := FIXADDR_TOT_START in
  let va_end := FIXADDR_TOP in
  let! m := vstore m (table_entry PGDIR_SHIFT (swapper_pg_dir G) FIXADDR_TOT_START) (table_desc (bm_pud G)) in
  fixmap_init_pud m (bm_pud G) va_start va_end.

(** ** Early mappings of devices *)

(** [prev_map], [prev_size] and [slot_virt]; an unused slot has a null
    [prev_map]. *)
Record io_slots := IoSlots {
  prev_map : list Z;
  prev_size : list Z;
  slot_virt : list Z;
}.

Definition io_init : io_slots :=
  IoSlots (replicate FIX_BTMAPS_SLOTS 0) (replicate FIX_BTMAPS_SLOTS 0) (replicate FIX_BTMAPS_SLOTS 0).

Fixpoint find_slot (maps : list Z) (i : nat) : option nat :=
  match maps with
  | [] => None
  | p :: maps => if p =? 0 then Some i else find_slot maps (S i)
  end.

(** [while (nrpages > 0)]. *)
Fixpoint set_pages (nrpages : nat) (m : mem) (idx phys prot : Z) : outcome mem :=
  match nrpages with
  | O => Done m
  | S n =>
      let! m := __set_fixmap m idx phys prot in
      set_pages n m (idx - 1) (u64 (phys + PAGE_SIZE)) prot
  end.

Definition __early_ioremap (m : mem) (io : io_slots) (phys size prot : Z) : outcome (Z * mem * io_slots) :=
  match find_slot (prev_map io) 0 with
  | None => Done (0, m, io)
  | Some slot =>
      let last_addr := u64 (phys + size - 1) in
      if (size =? 0) || (last_addr <? phys) then Done (0, m, io)
      else
        let io := IoSlots (prev_map io) (<[slot := size]> (prev_size io)) (slot_virt io) in
        let offset := Z.land phys (PAGE_SIZE - 1) in
        let phys := page_mask phys in
        let size := u64 (ALIGN_UP (u64 (last_addr + 1)) PAGE_SIZE - phys) in
        let nrpages := u32 (Z.shiftr size PAGE_SHIFT) in
        if NR_FIX_BTMAPS <? nrpages then Done (0, m, io)
        else
          let idx := FIX_BTMAP_BEGIN - NR_FIX_BTMAPS * Z.of_nat slot in
          let! m := set_pages (Z.to_nat nrpages) m idx phys prot in
          let p := u64 (offset + default 0 (slot_virt io !! slot)) in
          Done (p, m, IoSlots (<[slot := p]> (prev_map io)) (prev_size io) (slot_virt io))
  end.

Definition early_ioremap (m : mem) (io : io_slots) (phys size : Z) : outcome (Z * mem * io_slots) :=
  __early_ioremap m io phys size (PROT_DEVICE_nGnRE (use_ng G)).

Definition early_ioremap_setup (io : io_slots) : io_slots :=
  IoSlots (prev_map io) (prev_size io)
    (imap (fun i _ => __fix_to_virt (FIX_BTMAP_BEGIN - NR_FIX_BTMAPS * Z.of_nat i)) (slot_virt io)).

(** ** The mapper *)

(** Memory and the allocator. *)
Record fix_st := FixSt { fx_mem : mem; fx_mb : memblock }.

Definition fload (s : fix_st) (va : Z) : outcome Z := vload (fx_mem s) va.
Definition fstore (s : fix_st) (va x : Z) : outcome fix_st :=
  let! m := vstore (fx_mem s) va x in Done (FixSt m (fx_mb s)).
Definition fclear (s : fix_st) (idx : Z) : outcome fix_st :=
  let! m := clear_fixmap (fx_mem s) idx in Done (FixSt m (fx_mb s)).
(** [pud_set_fixmap], [pmd_set_fixmap], [pte_set_fixmap]. *)
Definition fset (s : fix_st) (idx phys : Z) : outcome (Z * fix_st) :=
  let! (p, m) := set_fixmap_offset (fx_mem s) idx phys in Done (p, FixSt m (fx_mb s)).

Definition NO_BLOCK_MAPPINGS : Z := 1.
Definition NO_CONT_MAPPINGS : Z := 2.
Definition NO_EXEC_MAPPINGS : Z := 4.
Definition PXD_TABLE_UXN : Z := 2 ^ 60.

Fixpoint init_pte (fuel : nat) (s : fix_st) (ptep addr end_ phys prot : Z) : outcome fix_st :=
  match fuel with
  | O => Fuel
  | S fuel =>
      let! old_pte := fload s ptep in
      let! s := fstore s ptep (pfn_pte (Z.shiftr phys PAGE_SHIFT) prot) in
      let! new := fload s ptep in
      if negb (pgattr_change_is_safe old_pte new) then Bug
      else
        let addr := u64 (addr + PAGE_SIZE) in
        if addr =? end_ then Done s
        else init_pte fuel s (ptep + 8) addr end_ (u64 (phys + PAGE_SIZE)) prot
  end.

(** Without memory the function does not return. *)
Definition pgtable_alloc (s : fix_st) : outcome (Z * fix_st) :=
  let! (pa, mb) := memblock_phys_alloc_range (fx_mb s) PAGE_SIZE PAGE_SIZE 0 0 in
  if pa =? 0 then Fuel else Done (pa, FixSt (fx_mem s) mb).

(** [memset(table, 0, PAGE_SIZE)]. *)
Fixpoint init_clear_pgtable (n : nat) (s : fix_st) (table : Z) : outcome fix_st :=
  match n with
  | O => Done s
  | S n => let! s := fstore s table 0 in init_clear_pgtable n s (table + 8)
  end.

(** The loops of the levels: [step] maps the part [addr, next) of the range
    at the entry [ptr]; [adv] is what the pointer then moves by. *)
Fixpoint map_loop (fuel : nat) (size : Z) (adv : Z -> Z -> Z) (step : fix_st -> Z -> Z -> Z -> Z -> outcome fix_st)
    (s : fix_st) (ptr addr end_ phys : Z) : outcome fix_st :=
  match fuel with
  | O => Fuel
  | S fuel =>
      let next := addr_end size addr end_ in
      let! s := step s ptr addr next phys in
      if next =? end_ then Done s
      else map_loop fuel size adv step s (ptr + adv addr next) next end_ (u64 (phys + u64 (next - addr)))
  end.

Definition one_entry (addr next : Z) : Z := 8.
Definition by_index (shift addr next : Z) : Z := 8 * (pxd_index shift next - pxd_index shift addr).

(** A new table for the entry at [pxdp], reached through the fixed address
    [idx], or the one it links: the address of the entry for [addr] in it. *)
Definition next_table (s : fix_st) (pxdp pxd idx shift addr flags : Z) : outcome (Z * fix_st) :=
  if pte_none pxd then
    let val := Z.lor (Z.lor PXD_TYPE_TABLE PXD_TABLE_UXN) PXD_TABLE_AF in
    let val := if has flags NO_EXEC_MAPPINGS then Z.lor val PMD_TABLE_PXN else val in
    let! (phys, s) := pgtable_alloc s in
    let! (p, s) := fset s idx phys in
    let! s := init_clear_pgtable 512 s p in
    let! s := fstore s pxdp (Z.lor phys val) in
    Done (p + 8 * pxd_index shift addr, s)
  else
    let! pxd := fload s pxdp in
    fset s idx (__pte_to_phys pxd + 8 * pxd_index shift addr).

Definition cont_prot (mask_size flags addr next phys prot : Z) : Z :=
  if (Z.land (Z.lor (Z.lor addr next) phys) (mask_size - 1) =? 0) && (Z.land flags NO_CONT_MAPPINGS =? 0)
  then Z.lor prot PTE_CONT else prot.

(** The entry is tested for a bad one before it is tested for none. *)
Definition init_cont_pte (s : fix_st) (pmdp addr end_ phys prot flags : Z) : outcome fix_st :=
  let! pmd := fload s pmdp in
  if pxd_sect pmd then Bug
  else if pxd_bad pmd then Bug
  else
    let! (ptep, s) := next_table s pmdp pmd FIX_PTE PAGE_SHIFT addr flags in
    let! s :=
      map_loop TABLE_FUEL CONT_PTE_SIZE (by_index PAGE_SHIFT)
        (fun s ptep addr next phys =>
           init_pte TABLE_FUEL s ptep addr next phys (cont_prot CONT_PTE_SIZE flags addr next phys prot))
        s ptep addr end_ phys in
    fclear s FIX_PTE.

(** [pmd_set_huge] and [pud_set_huge] at a virtual address. *)
Definition pmd_set_huge_at (s : fix_st) (pmdp phys prot : Z) : outcome fix_st :=
  let new := pfn_pte (Z.shiftr phys PAGE_SHIFT) (mk_sect_prot prot) in
  let! old := fload s pmdp in
  if negb (pgattr_change_is_safe old new) then Done s
  else if negb (IS_ALIGNED phys PMD_SIZE) then Bug
  else fstore s pmdp new.

Definition pud_set_huge_at (s : fix_st) (pudp phys prot : Z) : outcome fix_st :=
  let new := pfn_pte (Z.shiftr phys PAGE_SHIFT) (mk_sect_prot prot) in
  let! old := fload s pudp in
  if negb (pgattr_change_is_safe old new) then Done s
  else fstore s pudp new.

Definition use_block (size flags addr next phys : Z) : bool :=
  (Z.land (Z.lor (Z.lor addr next) phys) (size - 1) =? 0) && (Z.land flags NO_BLOCK_MAPPINGS =? 0).

Definition init_pmd_step (prot flags : Z) (s : fix_st) (pmdp addr next phys : Z) : outcome fix_st :=
  let! old_pmd := fload s pmdp in
  if use_block PMD_SIZE flags addr next phys then
    let! s := pmd_set_huge_at s pmdp phys prot in
    let! new := fload s pmdp in
    if negb (pgattr_change_is_safe old_pmd new) then Bug else Done s
  else
    let! s := init_cont_pte s pmdp addr next phys prot flags in
    let! new := fload s pmdp in
    if negb (old_pmd =? 0) && negb (old_pmd =? new) then Bug else Done s.

Definition init_pmd (s : fix_st) (pmdp addr end_ phys prot flags : Z) : outcome fix_st :=
  map_loop TABLE_FUEL PMD_SIZE one_entry (init_pmd_step prot flags) s pmdp addr end_ phys.

Definition init_cont_pmd (s : fix_st) (pudp addr end_ phys prot flags : Z) : outcome fix_st :=
  let! pud := fload s pudp in
  let! (pmdp, s) := next_table s pudp pud FIX_PMD PMD_SHIFT addr flags in
  let! s :=
    map_loop TABLE_FUEL CONT_PMD_SIZE (by_index PMD_SHIFT)
      (fun s pmdp addr next phys =>
         init_pmd s pmdp addr next phys (cont_prot CONT_PMD_SIZE flags addr next phys prot) flags)
      s pmdp addr end_ phys in
  fclear s FIX_PMD.

Definition init_pud_step (prot flags : Z) (s : fix_st) (pudp addr next phys : Z) : outcome fix_st :=
  if use_block PUD_SIZE flags addr next phys then pud_set_huge_at s pudp phys prot
  else init_cont_pmd s pudp addr next phys prot flags.

Definition init_pud (s : fix_st) (pgdp addr end_ phys prot flags : Z) : outcome fix_st :=
  let! pgd := fload s pgdp in
  let! (pudp, s) := next_table s pgdp pgd FIX_PUD PUD_SHIFT addr flags in
  let! s := map_loop TABLE_FUEL PUD_SIZE one_entry (init_pud_step prot flags) s pudp addr end_ phys in
  fclear s FIX_PUD.

Definition __create_pgd_mapping (s : fix_st) (pgdir phys virt size prot flags : Z) : outcome fix_st :=
  let pgdp := pgdir + 8 * pxd_index PGDIR_SHIFT virt in
  if negb (Z.land (Z.lxor phys virt) (PAGE_SIZE - 1) =? 0) then Done s
  else
    let phys := page_mask phys in
    let addr := page_mask virt in
    let end_ := ALIGN_UP (u64 (virt + size)) PAGE_SIZE in
    map_loop TABLE_FUEL PGDIR_SIZE one_entry
      (fun s pgdp addr next phys => init_pud s pgdp addr next phys prot flags) s pgdp addr end_ phys.

Definition PAGE_OFFSET : Z := 2 ^ 64 - 2 ^ 48.

(** [create_mapping_noalloc] and [create_mapping_alloc]: the argument that
    tells them apart is not used. *)
Definition create_mapping (s : fix_st) (phys virt size prot : Z) : outcome fix_st :=
  if virt <? PAGE_OFFSET then Done s
  else __create_pgd_mapping s (swapper_pg_dir G) phys virt size prot NO_CONT_MAPPINGS.

(** ** The device tree *)

Definition MIN_FDT_ALIGN : Z := 8.
Definition FDT_MAGIC : Z := 0xd00dfeed.

(** [fdt32_to_cpu]. *)
Definition swab32 (x : Z) : Z :=
  Z.lor (Z.lor (Z.shiftl (Z.land x 0xff) 24) (Z.shiftl (Z.land x 0xff00) 8))
        (Z.lor (Z.land (Z.shiftr x 8) 0xff00) (Z.land (Z.shiftr x 24) 0xff)).

(** The first two words of 32 bits of the blob share one of 64. *)
Definition fdt_magic (s : fix_st) (dt : Z) : outcome Z :=
  let! w := fload s dt in Done (swab32 (Z.land w 0xffffffff)).
Definition fdt_totalsize (s : fix_st) (dt : Z) : outcome Z :=
  let! w := fload s dt in Done (swab32 (Z.shiftr w 32)).

(** The pointer, and the value left in [*size] ([None]: not written). *)
Definition fixmap_remap_fdt (s : fix_st) (dt_phys prot : Z) : outcome (Z * option Z * fix_st) :=
  let dt_virt_base := __fix_to_virt FIX_FDT in
  if (dt_phys =? 0) || negb (dt_phys mod MIN_FDT_ALIGN =? 0) then Done (0, None, s)
  else
    let dt_phys_base := page_mask dt_phys in
    let offset := dt_phys mod PAGE_SIZE in
    let dt_virt := dt_virt_base + offset in
    let! s := create_mapping s dt_phys_base dt_virt_base PAGE_SIZE prot in
    let! magic := fdt_magic s dt_virt in
    if negb (magic =? FDT_MAGIC) then Done (0, None, s)
    else
      let! size := fdt_totalsize s dt_virt in
      let size := s32 size in
      if MAX_FDT_SIZE <? size then Done (0, Some size, s)
      else
        let! s :=
          if PAGE_SIZE <? u64 (offset + size)
          then create_mapping s dt_phys_base dt_virt_base (u64 (offset + size)) prot else Done s in
        Done (dt_virt, Some size, s).

(** The mapping is made again, read-only; [g_dt_virt] is the pointer kept,
    and the result of the reservation is not looked at. *)
Definition setup_machine_fdt (s : fix_st) (dt_phys g_dt_virt : Z) : outcome (Z * fix_st) :=
  let! (dt_virt, size, s) := fixmap_remap_fdt s dt_phys PAGE_KERNEL in
  if dt_virt =? 0 then Done (g_dt_virt, s)
  else
    let! (_, mb) := memblock_reserve (fx_mb s) dt_phys (u64 (default 0 size)) in
    let! (g_dt_virt, _, s) := fixmap_remap_fdt (FixSt (fx_mem s) mb) dt_phys (_PAGE_KERNEL_RO (use_ng G)) in
    Done (g_dt_virt, s).
End Fix.
