(* ===== verification/FixmapSpec.v ===== *)
(** * The fixed map and the early device mappings

    Updates of page entries are described by the function [f] from page
    numbers to new entries ([upd]); they compose, keep the tree of tables
    and change the translation of exactly the pages they name.  On them rest
    the specifications of [__set_fixmap] and of [early_ioremap]. *)

From S2P Require Import Prelude PageTable PageTableMap PtTree Pte BootMap Memblock Fixmap.

(** ** Updates of pages *)

(** What an entry of the last level translates to. *)
Definition leaf_of (e v : Z) : option (Z * Z) :=
  if Z.testbit e 0 && Z.testbit e 1 then Some (desc_addr 0 e + v mod 4096, desc_attr e) else None.

Definition page_entry_ok (e : Z) : Prop := e = 0 \/ Z.testbit e 0 = true /\ Z.testbit e 1 = true.

Definition on_table (T : tables) (a : Z) : Prop := exists c x, T !! c = Some x /\ c <= a < c + 4096.

Record upd (T : tables) (m m' : mem) (f : Z -> option Z) : Prop := {
  up_pte : forall c q i, T !! c = Some (0%nat, q) -> 0 <= i < 512 ->
    rd m' (c + 8 * i) = default (rd m (c + 8 * i)) (f (q * 512 + i));
  up_dir : forall c k q i, T !! c = Some (S k, q) -> 0 <= i < 512 -> rd m' (c + 8 * i) = rd m (c + 8 * i);
  up_out : forall a, ~ on_table T a -> rd m' a = rd m a;
  up_ok : forall s e, f s = Some e -> page_entry_ok e;
}.

Definition join (f g : Z -> option Z) (s : Z) : option Z := match g s with Some e => Some e | None => f s end.
Definition one (s0 e : Z) (s : Z) : option Z := if s =? s0 then Some e else None.

Lemma upd_refl T m : upd T m m (fun _ => None).
Proof. by split. Qed.

Lemma upd_trans T m m1 m2 f g : upd T m m1 f -> upd T m1 m2 g -> upd T m m2 (join f g).
Proof.
  intros [A1 A2 A3 A4] [B1 B2 B3 B4]. unfold join. split.
  - intros c q i Hc Hi. rewrite (B1 c q i Hc Hi), (A1 c q i Hc Hi). by destruct (g _).
  - intros c k q i Hc Hi. by rewrite (B2 c k q i Hc Hi), (A2 c k q i Hc Hi).
  - intros a Ha. by rewrite B3, A3.
  - intros s e. destruct (g s) eqn:E; [intros [= <-] | intros Hf]; eauto.
Qed.

(** The same update written differently. *)
Lemma upd_ext T m m' f g : upd T m m' f ->
  (forall c q i, T !! c = Some (0%nat, q) -> 0 <= i < 512 ->
     default (rd m (c + 8 * i)) (f (q * 512 + i)) = default (rd m (c + 8 * i)) (g (q * 512 + i))) ->
  (forall s e, g s = Some e -> page_entry_ok e) -> upd T m m' g.
Proof.
  intros [A1 A2 A3 A4] He Hg. split; [| done | done | done].
  intros c q i Hc Hi. by rewrite (A1 c q i Hc Hi), He.
Qed.

Section Space.
Context (G : fix_syms).
Let root := virt_to_kimg_phys G (swapper_pg_dir G).

(** The tables of the kernel. *)
Record kspace (T : tables) (m : mem) : Prop := {
  ks_tree : ptree T (rd m);
  ks_levels : levels T;
  ks_root : T !! root = Some (3%nat, 0xffff);
}.

Definition kaddr (v : Z) : Prop := v / 2 ^ 48 = 0xffff.

Lemma kwalk_val m v : kaddr v -> kwalk G m v = walk 3 m root v.
Proof. intros Hv. unfold kwalk. by rewrite Hv. Qed.

Lemma kaddr_root v : kaddr v -> v / lsize 4 = 0xffff.
Proof. done. Qed.

(** *** Walks *)

(** The walk from a table above passes through the table [b]. *)
Lemma walk_through T m v n b : ptree T (rd m) -> T !! b = Some (n, v / lsize (S n)) ->
  forall d c, (n + d <= 3)%nat -> T !! c = Some ((n + d)%nat, v / lsize (S (n + d))) -> walk (n + d) m c v = walk n m b v.
Proof.
  intros Ht Hb. induction d as [|d IH]; intros c Hd Hc.
  - rewrite Nat.add_0_r in *. by rewrite (pt_inj _ _ Ht _ _ _ Hc Hb).
  - replace (n + S d)%nat with (S (n + d)) in * by lia. cbn [walk].
    destruct (link_above T (rd m) v n b Ht Hb (S (n + d)) c ltac:(lia) Hc) as (E0 & E1 & _). rewrite E0, E1.
    apply IH; [lia |]. rewrite slot_split. exact (proj1 (pt_child _ _ Ht _ _ _ _ Hc (lindex_range _ v) E0 E1)).
Qed.

Lemma kwalk_page T m v c : kspace T m -> kaddr v -> T !! c = Some (0%nat, v / lsize 1) ->
  kwalk G m v = leaf_of (rd m (c + 8 * lindex 0 v)) v.
Proof.
  intros [K1 K2 K3] Hv Hc. rewrite kwalk_val by done.
  change (walk 3 m root v) with (walk (0 + 3) m root v). rewrite (walk_through T m v 0 c K1 Hc 3 root); [reflexivity | lia |]. by rewrite K3, <- (kaddr_root v Hv).
Qed.

(** An update that does not name the page of [v] leaves its translation. *)
Lemma upd_walk T m m' f v : kspace T m -> upd T m m' f -> kaddr v -> f (v / 4096) = None -> kwalk G m' v = kwalk G m v.
Proof.
  intros [K1 K2 K3] [U1 U2 U3 U4] Hv Hf. rewrite !kwalk_val by done.
  assert (H : forall n c, T !! c = Some (n, v / lsize (S n)) -> walk n m' c v = walk n m c v).
  { induction n as [|n IH]; intros c Hc; cbn [walk].
    - rewrite (U1 c _ _ Hc (lindex_range 0 v)), <- slot_split. change (lsize 0) with 4096. by rewrite Hf.
    - rewrite (U2 c n _ _ Hc (lindex_range _ v)). destruct (Z.testbit _ 0) eqn:E0; [| done].
      destruct (Z.testbit _ 1) eqn:E1; [| done]. apply IH.
      rewrite slot_split. exact (proj1 (pt_child _ _ K1 _ _ _ _ Hc (lindex_range _ v) E0 E1)). }
  apply H. by rewrite K3, <- (kaddr_root v Hv).
Qed.

Lemma upd_walk_at T m m' f v e c : kspace T m' -> upd T m m' f -> kaddr v -> T !! c = Some (0%nat, v / lsize 1) ->
  f (v / 4096) = Some e -> kwalk G m' v = leaf_of e v.
Proof.
  intros Hk [U1 _ _ _] Hv Hc Hf. rewrite (kwalk_page T m' v c Hk Hv Hc).
  rewrite (U1 c _ _ Hc (lindex_range 0 v)), <- slot_split. change (lsize 0) with 4096. by rewrite Hf.
Qed.

(** The tables stay a tree. *)
Lemma upd_space T m m' f : kspace T m -> upd T m m' f -> kspace T m'.
Proof.
  intros [[H1 H2 H3 H4 H5] K2 K3] [U1 U2 U3 U4]. split; [| done | done].
  assert (Hp : forall c q i, T !! c = Some (0%nat, q) -> 0 <= i < 512 ->
    rd m' (c + 8 * i) = rd m (c + 8 * i) \/ page_entry_ok (rd m' (c + 8 * i))).
  { intros c q i Hc Hi. rewrite (U1 c q i Hc Hi). destruct (f _) eqn:E; [right; cbn; eauto | by left]. }
  split; [done | done | | |].
  - intros b [|k] p i Hb Hi E0; [| rewrite (U2 _ _ _ _ Hb Hi) in *; eauto].
    destruct (Hp b p i Hb Hi) as [E | [E | [E _]]]; [rewrite E in *; eauto | done | congruence].
  - intros b k p i Hb Hi. rewrite (U2 _ _ _ _ Hb Hi). by apply H4.
  - intros b k q Hb Hk. destruct (H5 b k q Hb Hk) as (b' & p & i & L1 & L2 & L3). exists b', p, i.
    by rewrite (U2 _ _ _ _ L1 L2).
Qed.

(** One store to a page entry. *)
Lemma upd_store T m c q i e : kspace T m -> T !! c = Some (0%nat, q) -> 0 <= i < 512 -> page_entry_ok e ->
  upd T m (wr m (c + 8 * i) e) (one (q * 512 + i) e).
Proof.
  intros [K1 _ _] Hc Hi He. unfold one.
  assert (Hne : forall c' k q' j, T !! c' = Some (k, q') -> 0 <= j < 512 -> c + 8 * i = c' + 8 * j -> c = c' /\ i = j).
  { intros c' k q' j Hc' Hj E. destruct (pt_page _ _ K1 _ _ _ Hc) as (A & _), (pt_page _ _ K1 _ _ _ Hc') as (B & _).
    pose proof (Z.div_mod c 4096). pose proof (Z.div_mod c' 4096). lia. }
  split.
  - intros c' q' j Hc' Hj. destruct (Z.eqb_spec (q' * 512 + j) (q * 512 + i)) as [E | E]; cbn [default].
    + assert (q' = q /\ j = i) as [-> ->] by lia. rewrite (pt_inj _ _ K1 _ _ _ Hc' Hc). apply rd_wr_eq.
    + apply rd_wr_ne. intros E2. destruct (Hne _ _ _ _ Hc' Hj E2) as [-> ->]. rewrite Hc in Hc'. injection Hc' as ->. done.
  - intros c' k q' j Hc' Hj. apply rd_wr_ne. intros E2. destruct (Hne _ _ _ _ Hc' Hj E2) as [-> ->]. by rewrite Hc in Hc'.
  - intros a Ha. apply rd_wr_ne. intros <-. apply Ha. exists c, (0%nat, q). split; [done | lia].
  - intros s x. destruct (s =? _); [by intros [= <-] | done].
Qed.

(** *** Loads and stores *)

(** The kernel may write at [va], and it is the physical address [pa]. *)
Definition at_phys (m : mem) (va pa : Z) : Prop :=
  exists attr, kwalk G m va = Some (pa, attr) /\ writable attr = true /\ pa mod 8 = 0.

Lemma load_at m va pa : at_phys m va pa -> vload G m va = Done (rd m pa).
Proof.
  intros (attr & E & Hw & Ha). unfold vload. rewrite E. unfold writable in Hw. apply andb_true_iff in Hw as [-> _].
  by rewrite Ha.
Qed.

Lemma store_at m va pa x : at_phys m va pa -> vstore G m va x = Done (wr m pa x).
Proof. intros (attr & E & Hw & Ha). unfold vstore. by rewrite E, Hw, Ha. Qed.

Lemma at_kaddr m va pa : at_phys m va pa -> kaddr va.
Proof. intros (attr & E & _). unfold kwalk in E. destruct (Z.eqb_spec (va / 2 ^ 48) 0xffff); [done | discriminate E]. Qed.

Lemma upd_at T m m' f va pa : kspace T m -> upd T m m' f -> f (va / 4096) = None -> at_phys m va pa -> at_phys m' va pa.
Proof.
  intros Hk Hu Hf Hat. pose proof (at_kaddr _ _ _ Hat) as Hv. destruct Hat as (attr & E & H). exists attr.
  by rewrite (upd_walk T m m' f va Hk Hu Hv Hf).
Qed.

(** ** Entries of the fixed map *)

(** The page number of a fixed address. *)
Definition fix_page (idx : Z) : Z := FIXADDR_TOP / 4096 - idx.

Lemma fix_virt idx : 0 < idx < __end_of_fixed_addresses -> __fix_to_virt idx = fix_page idx * 4096.
Proof.
  intros Hi. change __end_of_fixed_addresses with 2313 in Hi. unfold __fix_to_virt, fix_page.
  rewrite Z.shiftl_mul_pow2 by (unfold PAGE_SHIFT; lia). change (2 ^ PAGE_SHIFT) with 4096.
  change FIXADDR_TOP with (4503599627368448 * 4096). rewrite Z.div_mul by lia. rewrite u64_small; lia.
Qed.

(** The physical address of the table of the fixed map for a page. *)
Definition FIX_PMD0 : Z := FIXADDR_TOT_START / 2 ^ 21.
Definition bm_table (t : Z) : Z := virt_to_kimg_phys G (bm_pte G) + 4096 * t.
Definition FIX_TABLES : Z := 5.

(** The fixed map: its tables are tables of the kernel and their words can
    be written at their image addresses, which lie below the fixed map. *)
Record fixmapped (T : tables) (m : mem) : Prop := {
  fm_space : kspace T m;
  fm_table : forall t, 0 <= t < FIX_TABLES -> T !! bm_table t = Some (0%nat, FIX_PMD0 + t);
  fm_image : forall a, 0 <= a < 4096 * FIX_TABLES -> a mod 8 = 0 ->
    at_phys m (bm_pte G + a) (virt_to_kimg_phys G (bm_pte G) + a);
  fm_below : bm_pte G + 4096 * FIX_TABLES <= FIXADDR_TOT_START;
}.

(** An update that leaves the image alone. *)
Definition off_image (f : Z -> option Z) : Prop :=
  forall a, 0 <= a < 4096 * FIX_TABLES -> f ((bm_pte G + a) / 4096) = None.

Lemma upd_fixmapped T m m' f : fixmapped T m -> upd T m m' f -> off_image f -> fixmapped T m'.
Proof.
  intros [F1 F2 F3 F4] Hu Ho. split; [by eapply upd_space | done | | done].
  intros a Ha H8. eapply upd_at; [exact F1 | exact Hu | by apply Ho | by apply F3].
Qed.

Lemma fix_off_image idx e : bm_pte G + 4096 * FIX_TABLES <= FIXADDR_TOT_START -> 0 < idx < __end_of_fixed_addresses ->
  off_image (one (fix_page idx) e).
Proof.
  intros Hb Hi a Ha. unfold one. destruct (Z.eqb_spec ((bm_pte G + a) / 4096) (fix_page idx)) as [E | _]; [exfalso | done].
  change __end_of_fixed_addresses with 2313 in Hi. unfold fix_page in E.
  change FIXADDR_TOP with (4503599627368448 * 4096) in E. rewrite Z.div_mul in E by lia.
  change FIXADDR_TOT_START with ((4503599627368448 - 2313) * 4096) in Hb.
  assert ((bm_pte G + a) / 4096 < 4503599627368448 - 2313) by (apply Z.div_lt_upper_bound; lia). lia.
Qed.

(** Where the entry of a fixed address is. *)
Lemma fix_entry idx : 0 < idx < __end_of_fixed_addresses ->
  let t := fix_page idx / 512 - FIX_PMD0 in let i := fix_page idx mod 512 in
  0 <= t < FIX_TABLES /\ 0 <= i < 512 /\ (FIX_PMD0 + t) * 512 + i = fix_page idx
  /\ fixmap_pte G (__fix_to_virt idx) = bm_pte G + (4096 * t + 8 * i).
Proof.
  intros Hi t i. unfold fixmap_pte. rewrite (fix_virt idx Hi). change __end_of_fixed_addresses with 2313 in Hi.
  assert (Hp : fix_page idx = 4503599627368448 - idx).
  { unfold fix_page. change FIXADDR_TOP with (4503599627368448 * 4096). by rewrite Z.div_mul by lia. }
  assert (H0 : FIX_PMD0 = 8796093022199) by reflexivity.
  assert (Ht : 0 <= t < FIX_TABLES).
  { unfold t, FIX_TABLES. rewrite H0. assert (8796093022199 <= fix_page idx / 512 < 8796093022204); [| lia].
    split; [apply Z.div_le_lower_bound | apply Z.div_lt_upper_bound]; lia. }
  assert (Hm : 0 <= i < 512) by (apply Z.mod_pos_bound; lia).
  pose proof (Z.div_mod (fix_page idx) 512 ltac:(lia)) as Hd. fold i in Hd.
  split; [done |]. split; [done |]. split; [unfold t; lia |].
  unfold BM_PTE_TABLE_IDX, pxd_index. rewrite !Z.shiftr_div_pow2 by (unfold PMD_SHIFT, PAGE_SHIFT; lia).
  change (2 ^ PMD_SHIFT) with (512 * 4096). change (2 ^ PAGE_SHIFT) with 4096.
  rewrite (Z.mul_comm 512 4096), <- Z.div_div by lia. rewrite Z.div_mul by lia.
  change 511 with (Z.ones 9). rewrite Z.land_ones by lia. change (2 ^ 9) with 512. fold i.
  change (FIXADDR_TOT_START / (4096 * 512)) with FIX_PMD0. fold t. lia.
Qed.

(** The entry a call stores. *)
Definition fix_flags (flags : Z) : Prop := flags = 0 \/ exists attr, flags = Z.lor attr 3 /\ attr_ok attr.

Definition fix_val (phys flags : Z) : Z := if flags =? 0 then 0 else Z.lor phys flags.

Lemma flags_type flags attr : flags = Z.lor attr 3 -> flags <> 0.
Proof.
  intros -> H. assert (E : Z.testbit (Z.lor attr 3) 0 = true) by (rewrite Z.lor_spec; apply orb_true_r).
  by rewrite H in E.
Qed.

Lemma page_val phys flags attr v : flags = Z.lor attr 3 -> attr_ok attr -> phys mod 4096 = 0 -> 0 <= phys < 2 ^ 48 ->
  page_entry_ok (Z.lor phys flags) /\ leaf_of (Z.lor phys flags) v = Some (phys + v mod 4096, attr).
Proof.
  intros -> Ha Hp Hr. rewrite Z.lor_assoc. change 4096 with (lsize 0) in Hp.
  destruct (leaf_bits 0 phys attr 3 ltac:(lia) Hp Ha ltac:(tauto)) as [B0 B1]. unfold leaf_of, page_entry_ok.
  rewrite B0, B1. split; [right; done |]. cbn [andb].
  by rewrite (leaf_addr 0 phys attr 3), (leaf_attr 0 phys attr 3) by (done || lia || tauto).
Qed.

Lemma fix_val_ok phys flags : fix_flags flags -> phys mod 4096 = 0 -> 0 <= phys < 2 ^ 48 -> page_entry_ok (fix_val phys flags).
Proof.
  intros [-> | (attr & E & Ha)] Hp Hr; unfold fix_val; [by left |].
  rewrite (proj2 (Z.eqb_neq flags 0)) by (by eapply flags_type). by eapply (page_val phys flags attr 0).
Qed.

Lemma pfn_page phys flags : phys mod 4096 = 0 -> 0 <= phys < 2 ^ 48 -> pfn_pte (Z.shiftr phys PAGE_SHIFT) flags = Z.lor phys flags.
Proof.
  intros Hp Hr. unfold pfn_pte. rewrite Z.shiftr_div_pow2, Z.shiftl_mul_pow2 by (unfold PAGE_SHIFT; lia).
  change (2 ^ PAGE_SHIFT) with 4096. pose proof (Z.div_mod phys 4096 ltac:(lia)). rewrite u64_small; [f_equal; lia | lia].
Qed.

Lemma set_fixmap_spec T m idx phys flags : fixmapped T m -> 0 < idx < __end_of_fixed_addresses ->
  phys mod 4096 = 0 -> 0 <= phys < 2 ^ 48 -> fix_flags flags ->
  exists m', __set_fixmap G m idx phys flags = Done m' /\ fixmapped T m'
    /\ upd T m m' (one (fix_page idx) (fix_val phys flags)).
Proof.
  intros HF Hi Hp Hr Hfl. destruct (fix_entry idx Hi) as (Ht & Hj & Hs & He).
  set (t := fix_page idx / 512 - FIX_PMD0) in *. set (i := fix_page idx mod 512) in *.
  assert (Hat : at_phys m (bm_pte G + (4096 * t + 8 * i)) (bm_table t + 8 * i)).
  { unfold bm_table. rewrite <- Z.add_assoc. apply (fm_image T m HF); [unfold FIX_TABLES in *; lia |].
    replace (4096 * t + 8 * i) with ((512 * t + i) * 8) by lia. apply Z_mod_mult. }
  assert (Hu : upd T m (wr m (bm_table t + 8 * i) (fix_val phys flags)) (one (fix_page idx) (fix_val phys flags))).
  { rewrite <- Hs. apply upd_store; [apply HF | by apply (fm_table T m HF) | done | by apply fix_val_ok]. }
  eexists. split; [| split; [| exact Hu]].
  - unfold __set_fixmap. rewrite (proj2 (Z.leb_gt _ _)), (proj2 (Z.leb_gt _ _)) by (unfold FIX_HOLE; lia). cbn [orb].
    rewrite He, pfn_page by done. rewrite !(store_at _ _ _ _ Hat). unfold fix_val. by destruct (flags =? 0).
  - eapply upd_fixmapped; [exact HF | exact Hu |]. apply fix_off_image; [apply HF | done].
Qed.

(** ** Device mappings *)

(** Consecutive pages from the fixed address [idx] on. *)
Definition page_run (s0 : Z) (n : nat) (phys prot s : Z) : option Z :=
  if (s0 <=? s) && (s <? s0 + Z.of_nat n) then Some (Z.lor (phys + 4096 * (s - s0)) prot) else None.

Lemma set_pages_spec T prot attr : prot = Z.lor attr 3 -> attr_ok attr -> forall n m idx phys, fixmapped T m ->
  Z.of_nat n <= idx < __end_of_fixed_addresses -> phys mod 4096 = 0 -> 0 <= phys -> phys + 4096 * Z.of_nat n <= 2 ^ 48 ->
  exists m', set_pages G n m idx phys prot = Done m' /\ fixmapped T m'
    /\ upd T m m' (page_run (fix_page idx) n phys prot).
Proof.
  intros Hprot Hattr. assert (Hfl : fix_flags prot) by (right; eauto). pose proof (flags_type _ _ Hprot) as Hnz.
  induction n as [|n IH]; intros m idx phys HF Hi Hp H0 Hr; cbn [set_pages].
  - assert (E : forall s, page_run (fix_page idx) 0 phys prot s = None).
    { intros s. unfold page_run. by destruct (Z.leb_spec (fix_page idx) s), (Z.ltb_spec s (fix_page idx + Z.of_nat 0)); try lia. }
    exists m. split; [done |]. split; [done |]. eapply upd_ext; [apply upd_refl | |].
    + intros c q i _ _. by rewrite E.
    + intros s e. by rewrite E.
  - destruct (set_fixmap_spec T m idx phys prot HF ltac:(lia) Hp ltac:(lia) Hfl) as (m1 & -> & HF1 & Hu1). cbn [obind].
    rewrite u64_small by (unfold PAGE_SIZE in *; lia). change PAGE_SIZE with 4096.
    assert (Hp1 : (phys + 4096) mod 4096 = 0) by (rewrite <- (Z.mul_1_l 4096) at 1; by rewrite Z_mod_plus_full).
    destruct (IH m1 (idx - 1) (phys + 4096) HF1 ltac:(lia) Hp1 ltac:(lia) ltac:(lia)) as (m2 & -> & HF2 & Hu2).
    exists m2. split; [done |]. split; [done |]. eapply upd_ext; [eapply upd_trans; [exact Hu1 | exact Hu2] | |].
    + intros c q i _ _. f_equal. unfold join, page_run, one, fix_val. rewrite (proj2 (Z.eqb_neq prot 0)) by done.
      replace (fix_page (idx - 1)) with (fix_page idx + 1) by (unfold fix_page; lia). set (s := q * 512 + i).
      destruct (Z.leb_spec (fix_page idx + 1) s), (Z.ltb_spec s (fix_page idx + 1 + Z.of_nat n)),
        (Z.leb_spec (fix_page idx) s), (Z.ltb_spec s (fix_page idx + Z.of_nat (S n))),
        (Z.eqb_spec s (fix_page idx)) as [-> | ?]; cbn [andb]; try lia; try done; do 2 f_equal; lia.
    + intros s e. unfold page_run. destruct (Z.leb_spec (fix_page idx) s), (Z.ltb_spec s (fix_page idx + Z.of_nat (S n)));
        cbn [andb]; try done. intros [= <-].
      apply (page_val (phys + 4096 * (s - fix_page idx)) prot attr 0 Hprot Hattr); [| lia].
      by rewrite Z.mul_comm, Z_mod_plus_full.
Qed.

(** The first page of a slot, and the pages of a request. *)
Definition slot_page (i : nat) : Z := fix_page (FIX_BTMAP_BEGIN - NR_FIX_BTMAPS * Z.of_nat i).
Definition slot_addr_of (i : nat) : Z := slot_page i * 4096.
Definition io_pages (phys size : Z) : Z := (phys + size - 1) / 4096 - phys / 4096 + 1.
Definition io_fits (phys size : Z) : bool := io_pages phys size <=? NR_FIX_BTMAPS.
Definition DEVICE_ATTR : Z := Z.ldiff (PROT_DEVICE_nGnRE (use_ng G)) 3.

Lemma device_prot : PROT_DEVICE_nGnRE (use_ng G) = Z.lor DEVICE_ATTR 3 /\ attr_ok DEVICE_ATTR.
Proof. unfold DEVICE_ATTR. by destruct (use_ng G); vm_compute. Qed.

(** What a slot holds: nothing, or the window of the registers [phys], [size]. *)
Abbreviation window := (option (Z * Z)).

Definition window_ok (m : mem) (i : nat) (p : Z) (w : window) : Prop :=
  match w with
  | None => p = 0
  | Some (phys, size) =>
      p = slot_addr_of i + phys mod 4096 /\ io_fits phys size = true
      /\ forall k, 0 <= k < size -> kwalk G m (p + k) = Some (phys + k, DEVICE_ATTR)
  end.

Record io_state (T : tables) (m : mem) (io : io_slots) (W : list window) : Prop := {
  is_fix : fixmapped T m;
  is_len : length W = FIX_BTMAPS_SLOTS;
  is_virt : slot_virt io = slot_addr_of <$> seq 0 FIX_BTMAPS_SLOTS;
  is_win : forall i p w, prev_map io !! i = Some p -> W !! i = Some w -> window_ok m i p w;
  is_maps : length (prev_map io) = FIX_BTMAPS_SLOTS;
}.

Fixpoint first_free (W : list window) (i : nat) : option nat :=
  match W with
  | [] => None
  | None :: _ => Some i
  | Some _ :: W => first_free W (S i)
  end.

Lemma slot_page_val i : slot_page i = 4503599627366140 + 256 * Z.of_nat i.
Proof.
  unfold slot_page, fix_page. change (FIXADDR_TOP / 4096) with 4503599627368448.
  change FIX_BTMAP_BEGIN with 2308. change NR_FIX_BTMAPS with 256. lia.
Qed.

Lemma slot_find maps : forall W i, Forall2 (fun p w => p = 0 <-> w = None) maps W -> find_slot maps i = first_free W i.
Proof.
  induction maps as [|p maps IH]; intros W i H; inversion H as [|? w ? W' Hp HW]; subst; [done |]. cbn [find_slot first_free].
  destruct w as [w|].
  - rewrite (proj2 (Z.eqb_neq p 0)) by (intros ->; discriminate (proj1 Hp eq_refl)). by apply IH.
  - by rewrite (proj2 Hp eq_refl).
Qed.

Lemma first_free_lookup W : forall i j, first_free W i = Some j -> exists d, j = (i + d)%nat /\ W !! d = Some None.
Proof.
  induction W as [|[w|] W IH]; intros i j H; cbn [first_free] in H; [done | | injection H as <-; exists 0%nat; split; [lia | done]].
  destruct (IH _ _ H) as (d & -> & Hd). exists (S d). split; [lia | done].
Qed.

Lemma state_slots T m io W : io_state T m io W -> Forall2 (fun p w => p = 0 <-> w = None) (prev_map io) W.
Proof.
  intros [_ H2 _ H4 H5]. apply Forall2_same_length_lookup. split; [exact (eq_trans H5 (eq_sym H2)) |]. intros i p w Hp Hw.
  specialize (H4 i p w Hp Hw). destruct w as [[phys size]|]; [| done]. destruct H4 as (-> & _).
  split; [| done]. intros E. unfold slot_addr_of in E. rewrite slot_page_val in E.
  pose proof (Z.mod_pos_bound phys 4096 ltac:(lia)). lia.
Qed.

(** The pages of a window are those of its slot. *)
Lemma window_page i phys size k : io_fits phys size = true -> 0 <= k < size ->
  slot_page i <= (slot_addr_of i + phys mod 4096 + k) / 4096 < slot_page i + io_pages phys size
  /\ (slot_addr_of i + phys mod 4096 + k) / 4096 - slot_page i = (phys + k) / 4096 - phys / 4096
  /\ (slot_addr_of i + phys mod 4096 + k) mod 4096 = (phys + k) mod 4096.
Proof.
  intros _ Hk. unfold slot_addr_of, io_pages. pose proof (Z.div_mod phys 4096 ltac:(lia)) as Hd.
  assert (E : slot_page i * 4096 + phys mod 4096 + k = phys + k + (slot_page i - phys / 4096) * 4096) by lia.
  rewrite E, Z_div_plus_full, Z_mod_plus_full by lia.
  assert (phys / 4096 <= (phys + k) / 4096 <= (phys + size - 1) / 4096) by (split; apply Z.div_le_mono; lia). lia.
Qed.

Lemma slots_apart i j : (i < FIX_BTMAPS_SLOTS)%nat -> (j < FIX_BTMAPS_SLOTS)%nat -> i <> j ->
  slot_page i + 256 <= slot_page j \/ slot_page j + 256 <= slot_page i.
Proof. intros _ _ Hij. rewrite !slot_page_val. lia. Qed.

Lemma slot_kaddr i v : (i < FIX_BTMAPS_SLOTS)%nat -> slot_page i <= v / 4096 < slot_page i + 256 ->
  kaddr v /\ exists c, 0 <= c < FIX_TABLES /\ v / lsize 1 = FIX_PMD0 + c.
Proof.
  intros Hi Hv. rewrite slot_page_val in Hv. unfold FIX_BTMAPS_SLOTS in Hi.
  assert (Hv2 : 4503599627366140 * 4096 <= v < 4503599627368448 * 4096).
  { pose proof (Z.div_mod v 4096 ltac:(lia)). pose proof (Z.mod_pos_bound v 4096 ltac:(lia)). lia. }
  split.
  - unfold kaddr. symmetry. apply (Z.div_unique_pos _ _ _ (v - 0xffff * 2 ^ 48)); lia.
  - exists (v / lsize 1 - FIX_PMD0). split; [| lia]. unfold FIX_TABLES. change FIX_PMD0 with 8796093022199.
    change (lsize 1) with (512 * 4096). assert (8796093022199 <= v / (512 * 4096) < 8796093022204); [| lia].
    split; [apply Z.div_le_lower_bound | apply Z.div_lt_upper_bound]; lia.
Qed.

Lemma align_up_page x : 0 < x <= 2 ^ 48 -> ALIGN_UP x PAGE_SIZE = ((x - 1) / 4096 + 1) * 4096.
Proof.
  intros Hx. unfold ALIGN_UP. change PAGE_SIZE with 4096. rewrite u64_small by lia.
  rewrite align_mask_pow2 by (apply is_pow2_PAGE_SIZE || lia). pose proof (Z.div_mod (x - 1) 4096 ltac:(lia)).
  replace (x + 4096 - 1) with ((x - 1) + 1 * 4096) by lia. rewrite Z_mod_plus_full. lia.
Qed.

(** A request that fits takes the slot. *)
Lemma ioremap_fits T m io W slot phys size : io_state T m io W -> W !! slot = Some None ->
  0 <= phys -> 0 < size -> phys + size <= 2 ^ 48 -> io_fits phys size = true ->
  let p := slot_addr_of slot + phys mod 4096 in
  exists m', set_pages G (Z.to_nat (io_pages phys size)) m (FIX_BTMAP_BEGIN - NR_FIX_BTMAPS * Z.of_nat slot)
               (phys / 4096 * 4096) (PROT_DEVICE_nGnRE (use_ng G)) = Done m'
    /\ (forall v, kaddr v -> ~ (slot_page slot <= v / 4096 < slot_page slot + 256) -> kwalk G m' v = kwalk G m v)
    /\ forall sz, io_state T m' (IoSlots (<[slot := p]> (prev_map io)) sz (slot_virt io)) (<[slot := Some (phys, size)]> W).
Proof.
  intros [S1 S2 S3 S4 S5] Hs H0 Hsz Hend Hfit p. pose proof (lookup_lt_Some _ _ _ Hs) as Hlt. rewrite S2 in Hlt.
  assert (Hlt' : (slot < 7)%nat) by exact Hlt. pose proof Hfit as Hfit'. unfold io_fits in Hfit'. change NR_FIX_BTMAPS with 256 in *.
  assert (Hpg : 1 <= io_pages phys size <= 256).
  { split; [| lia]. unfold io_pages. assert (phys / 4096 <= (phys + size - 1) / 4096) by (apply Z.div_le_mono; lia). lia. }
  destruct device_prot as [Hprot Hattr].
  destruct (set_pages_spec T _ _ Hprot Hattr (Z.to_nat (io_pages phys size)) m (FIX_BTMAP_BEGIN - 256 * Z.of_nat slot) (phys / 4096 * 4096))
    as (m' & E & HF & Hu); [done | change FIX_BTMAP_BEGIN with 2308; change __end_of_fixed_addresses with 2313; lia
    | apply Z_mod_mult | pose proof (Z.div_pos phys 4096); lia | |].
  { rewrite Z2Nat.id by lia. unfold io_pages.
    assert ((phys + size - 1) / 4096 < 2 ^ 36) by (apply Z.div_lt_upper_bound; lia). lia. }
  change (fix_page (FIX_BTMAP_BEGIN - 256 * Z.of_nat slot)) with (slot_page slot) in Hu.
  assert (Hout : forall v, kaddr v -> ~ (slot_page slot <= v / 4096 < slot_page slot + 256) -> kwalk G m' v = kwalk G m v).
  { intros v Hv Hn. apply (upd_walk T m m' _ v (fm_space _ _ S1) Hu Hv). unfold page_run.
    destruct (Z.leb_spec (slot_page slot) (v / 4096)), (Z.ltb_spec (v / 4096) (slot_page slot + Z.of_nat (Z.to_nat (io_pages phys size))));
      cbn [andb]; (done || lia). }
  exists m'. split; [exact E |]. split; [exact Hout |]. intros sz. split; cbn [prev_map slot_virt]; rewrite ?length_insert; try done.
  intros i q w. destruct (decide (i = slot)) as [-> | Hne].
  - rewrite !list_lookup_insert_eq by lia. intros [= <-] [= <-]. split; [done |]. split; [done |]. intros k Hk.
    destruct (window_page slot phys size k Hfit Hk) as (W1 & W2 & W3). fold p in W1, W2, W3.
    destruct (slot_kaddr slot (p + k) Hlt ltac:(lia)) as (Hka & c & Hc & Hvc).
    rewrite (upd_walk_at T m m' _ (p + k) (Z.lor (phys / 4096 * 4096 + 4096 * ((p + k) / 4096 - slot_page slot)) (PROT_DEVICE_nGnRE (use_ng G)))
               (bm_table c) (fm_space _ _ HF) Hu Hka); [| rewrite Hvc; by apply (fm_table _ _ HF) |].
    + rewrite W2. replace (phys / 4096 * 4096 + 4096 * ((phys + k) / 4096 - phys / 4096)) with ((phys + k) / 4096 * 4096) by lia.
      assert (0 <= (phys + k) / 4096 < 2 ^ 36) by (split; [apply Z.div_pos; lia | apply Z.div_lt_upper_bound; lia]).
      destruct (page_val ((phys + k) / 4096 * 4096) _ _ (p + k) Hprot Hattr ltac:(apply Z_mod_mult) ltac:(lia)) as [_ ->].
      rewrite W3. do 2 f_equal. pose proof (Z.div_mod (phys + k) 4096 ltac:(lia)). lia.
    + unfold page_run. rewrite Z2Nat.id by lia. rewrite (proj2 (Z.leb_le _ _)), (proj2 (Z.ltb_lt _ _)) by lia. done.
  - rewrite !list_lookup_insert_ne by done. intros Hq Hw. specialize (S4 i q w Hq Hw).
    destruct w as [[ph sz']|]; [| done]. destruct S4 as (-> & F2 & F3). split; [done |]. split; [done |]. intros k Hk.
    assert (Hi : (i < FIX_BTMAPS_SLOTS)%nat) by (rewrite <- S2; by eapply lookup_lt_Some).
    destruct (window_page i ph sz' k F2 Hk) as (W1 & _ & _). unfold io_fits in F2. change NR_FIX_BTMAPS with 256 in F2.
    destruct (slot_kaddr i (slot_addr_of i + ph mod 4096 + k) Hi ltac:(lia)) as (Hka & _).
    rewrite Hout; [by apply F3 | exact Hka |]. destruct (slots_apart i slot Hi Hlt Hne); lia.
Qed.

(** What a request gives. *)
Definition ioremap_post (T : tables) (m : mem) (io : io_slots) (W : list window) (phys size p : Z) (m' : mem)
    (io' : io_slots) : Prop :=
  match first_free W 0 with
  | None => p = 0 /\ m' = m /\ io' = io
  | Some slot =>
      if io_fits phys size then
        p = slot_addr_of slot + phys mod 4096
        /\ io_state T m' io' (<[slot := Some (phys, size)]> W)
        /\ forall v, kaddr v -> ~ (slot_addr_of slot <= v < slot_addr_of slot + 0x100000) -> kwalk G m' v = kwalk G m v
      else p = 0 /\ m' = m /\ io_state T m io' W
  end.

Lemma page_offset phys : 0 <= phys < 2 ^ 64 -> page_mask phys = phys / 4096 * 4096 /\ Z.land phys (PAGE_SIZE - 1) = phys mod 4096.
Proof.
  intros Hp. unfold page_mask. rewrite align_mask_pow2 by (apply is_pow2_PAGE_SIZE || lia). change PAGE_SIZE with 4096.
  split; [pose proof (Z.div_mod phys 4096 ltac:(lia)); lia |]. change (4096 - 1) with (Z.ones 12). by rewrite Z.land_ones by lia.
Qed.

Lemma slot_bounds i v : slot_page i <= v / 4096 < slot_page i + 256 <-> slot_addr_of i <= v < slot_addr_of i + 0x100000.
Proof.
  unfold slot_addr_of. pose proof (Z.div_mod v 4096 ltac:(lia)). pose proof (Z.mod_pos_bound v 4096 ltac:(lia)). lia.
Qed.

Lemma early_ioremap_run T m io W phys size : io_state T m io W -> 0 <= phys -> 0 < size <= 2 ^ 43 -> phys + size <= 2 ^ 48 ->
  exists p m' io', early_ioremap G m io phys size = Done (p, m', io') /\ ioremap_post T m io W phys size p m' io'.
Proof.
  intros Hst H0 Hsz Hend. unfold early_ioremap, __early_ioremap, ioremap_post.
  rewrite (slot_find _ W 0 (state_slots _ _ _ _ Hst)). destruct (first_free W 0) as [slot|] eqn:Ef; [| by exists 0, m, io].
  destruct (first_free_lookup _ _ _ Ef) as (d & -> & Hs). rewrite Nat.add_0_l in *.
  rewrite (u64_small (phys + size - 1)) by lia. rewrite (proj2 (Z.eqb_neq size 0)), (proj2 (Z.ltb_ge _ _)) by lia. cbn [orb].
  destruct (page_offset phys ltac:(lia)) as [-> ->]. rewrite (u64_small (phys + size - 1 + 1)), align_up_page by lia.
  replace (phys + size - 1 + 1 - 1) with (phys + size - 1) by lia.
  assert (Hq : phys / 4096 <= (phys + size - 1) / 4096 < phys / 4096 + 2 ^ 32 - 1).
  { split; [apply Z.div_le_mono; lia |]. apply Z.div_lt_upper_bound; [lia |]. pose proof (Z.div_mod phys 4096 ltac:(lia)).
    pose proof (Z.mod_pos_bound phys 4096 ltac:(lia)). lia. }
  assert (Hq2 : 0 <= phys / 4096 <= 2 ^ 36) by (split; [apply Z.div_pos; lia | apply Z.div_le_upper_bound; lia]).
  rewrite (u64_small (_ * 4096 - _)) by lia. replace (((phys + size - 1) / 4096 + 1) * 4096 - phys / 4096 * 4096) with (io_pages phys size * 4096) by (unfold io_pages; lia).
  rewrite Z.shiftr_div_pow2 by (unfold PAGE_SHIFT; lia). change (2 ^ PAGE_SHIFT) with 4096. rewrite Z.div_mul by lia.
  rewrite u32_small by (unfold io_pages; lia). unfold io_fits at 1. rewrite Z.leb_antisym.
  destruct (Z.ltb_spec NR_FIX_BTMAPS (io_pages phys size)) as [Hn | Hn]; cbn [negb].
  { eexists _, _, _. split; [reflexivity |]. split; [done |]. split; [done |]. by destruct Hst. }
  destruct (ioremap_fits T m io W d phys size Hst Hs H0 ltac:(lia) Hend) as (m' & E & Hout & Hst'); [unfold io_fits; lia |].
  rewrite E. cbn [obind]. cbn [slot_virt]. rewrite (is_virt _ _ _ _ Hst).
  assert (Hd : (d < FIX_BTMAPS_SLOTS)%nat) by (rewrite <- (is_len _ _ _ _ Hst); by eapply lookup_lt_Some).
  rewrite list_lookup_fmap, lookup_seq_lt by done. change (default 0 (slot_addr_of <$> Some (0 + d)%nat)) with (slot_addr_of d).
  rewrite <- (is_virt _ _ _ _ Hst). cbn [prev_map prev_size slot_virt].
  pose proof (Z.mod_pos_bound phys 4096 ltac:(lia)). unfold FIX_BTMAPS_SLOTS in Hd.
  rewrite u64_small by (unfold slot_addr_of; rewrite slot_page_val; lia). rewrite (Z.add_comm (phys mod 4096)).
  eexists _, _, _. split; [reflexivity |]. split; [done |]. split; [apply Hst' |].
  intros v Hv Hn'. apply Hout; [done |]. by rewrite slot_bounds.
Qed.
End Space.
