(* ===== verification/FixmapInit.v ===== *)
(** * Setting up the fixed map

    [early_fixmap_init] links the tables in the image into the directory of
    the kernel, each of them empty, so that no translation changes; the
    state it leaves is the one [__set_fixmap] works on. *)

From S2P Require Import Prelude PageTable PageTableMap PtTree Pte BootMap Memblock Fixmap FixmapSpec.

(** ** Linking an empty table *)

(** A page that can become a table. *)
Record blank (T : tables) (m : mem) (c : Z) : Prop := {
  bk_new : T !! c = None;
  bk_page : c mod 4096 = 0 /\ 0 <= c /\ c + 4096 <= 2 ^ 47;
  bk_zero : forall j, 0 <= j < 512 -> rd m (c + 8 * j) = 0;
}.

Record links (e c : Z) : Prop := {
  lk_valid : Z.testbit e 0 = true;
  lk_type : Z.testbit e 1 = true;
  lk_addr : desc_addr 0 e = c;
  lk_phys : __pte_to_phys e = c;
}.

Lemma pte_phys_desc e : Z.testbit e 48 = false -> Z.testbit e 49 = false -> __pte_to_phys e = desc_addr 0 e.
Proof.
  intros H1 H2. unfold __pte_to_phys, desc_addr, PTE_ADDR_LOW. apply Z.bits_inj'. intros i Hi.
  rewrite !Z.land_spec, addr_mask_spec by lia. change (lshift 0) with 12. change (2 ^ 38 - 1) with (Z.ones 38).
  rewrite Z.shiftl_spec by lia. destruct (Z.leb_spec 12 i); cbn [andb].
  - destruct (Z.ltb_spec i 48).
    + rewrite Z.ones_spec_low by lia. done.
    + destruct (Z.eq_dec i 48) as [-> | ?]; [by rewrite H1 |]. destruct (Z.eq_dec i 49) as [-> | ?]; [by rewrite H2 |].
      rewrite Z.ones_spec_high by lia. done.
  - rewrite (Z.testbit_neg_r _ (i - 12)) by lia. done.
Qed.

Section Link.
Context (G : fix_syms) (T : tables) (m : mem) (b p i c e : Z) (k : nat).
Context (Hk : kspace G T m) (Hb : T !! b = Some (S k, p)) (Hi : 0 <= i < 512) (Hz : rd m (b + 8 * i) = 0).
Context (Hc : blank T m c) (He : links e c).
Let T' := <[c := (k, p * 512 + i)]> T.
Let m' := wr m (b + 8 * i) e.

Lemma fm_link_other x y q j : T !! x = Some (y, q) -> 0 <= j < 512 -> x <> b \/ j <> i -> rd m' (x + 8 * j) = rd m (x + 8 * j).
Proof.
  intros Hx Hj Hne. apply rd_wr_ne. intros E. pose proof (ks_tree _ _ _ Hk) as Ht.
  destruct (pt_page _ _ Ht _ _ _ Hb) as (A & _), (pt_page _ _ Ht _ _ _ Hx) as (B & _).
  pose proof (Z.div_mod b 4096). pose proof (Z.div_mod x 4096). lia.
Qed.

Lemma link_page x j : x mod 4096 = 0 -> x <> b -> 0 <= j < 512 -> rd m' (x + 8 * j) = rd m (x + 8 * j).
Proof.
  intros Hx Hne Hj. apply rd_wr_ne. intros E. pose proof (ks_tree _ _ _ Hk) as Ht.
  destruct (pt_page _ _ Ht _ _ _ Hb) as (A & _). pose proof (Z.div_mod b 4096). pose proof (Z.div_mod x 4096). lia.
Qed.

Lemma link_not_b : c <> b.
Proof. intros ->. pose proof (bk_new _ _ _ Hc) as H. by rewrite Hb in H. Qed.

Lemma link_zero j : 0 <= j < 512 -> rd m' (c + 8 * j) = 0.
Proof. intros Hj. rewrite link_page; [by apply (bk_zero _ _ _ Hc) | apply (bk_page _ _ _ Hc) | exact link_not_b | done]. Qed.

(** No table has the slot yet. *)
Lemma link_fresh x : T !! x = Some (k, p * 512 + i) -> False.
Proof.
  intros Hx. pose proof (ks_tree _ _ _ Hk) as Ht. pose proof (ks_levels _ _ _ Hk _ _ _ Hb) as Hlv.
  destruct (pt_link _ _ Ht x k _ Hx ltac:(lia)) as (b' & p' & i' & L1 & L2 & L3 & L4 & _).
  assert (p' = p /\ i' = i) as [-> ->] by lia. rewrite (pt_inj _ _ Ht _ _ _ L1 Hb), Hz in L4. by rewrite Z.bits_0 in L4.
Qed.

Lemma fm_link_cases x y q j : T' !! x = Some (y, q) -> 0 <= j < 512 ->
  (x = c /\ (y, q) = (k, p * 512 + i) /\ rd m' (x + 8 * j) = 0)
  \/ (x <> c /\ T !! x = Some (y, q) /\ ((x = b /\ j = i /\ (y, q) = (S k, p) /\ rd m' (x + 8 * j) = e)
       \/ (x <> b \/ j <> i) /\ rd m' (x + 8 * j) = rd m (x + 8 * j))).
Proof.
  intros Hx Hj. unfold T' in Hx. destruct (decide (x = c)) as [-> | Hne].
  - rewrite lookup_insert_eq in Hx. injection Hx as <- <-. left. split; [done |]. split; [done |]. by apply link_zero.
  - rewrite lookup_insert_ne in Hx by done. right. split; [done |]. split; [done |].
    destruct (decide (x = b /\ j = i)) as [[-> ->] | Hn].
    + left. rewrite Hb in Hx. injection Hx as <- <-. split; [done |]. split; [done |]. split; [done |]. apply rd_wr_eq.
    + right. assert (x <> b \/ j <> i) by (destruct (decide (x = b)), (decide (j = i)); tauto). split; [done |]. by eapply fm_link_other.
Qed.

Lemma fm_link_tree : ptree T' (rd m').
Proof.
  pose proof (ks_tree _ _ _ Hk) as Ht. destruct He as [E0 E1 Ea Ep].
  split.
  - intros x y q Hx. unfold T' in Hx. apply lookup_insert_Some in Hx as [[<- _] | [_ Hx]]; [apply Hc | by eapply (pt_page _ _ Ht)].
  - intros x1 x2 [y q] H1 H2. unfold T' in H1, H2.
    apply lookup_insert_Some in H1 as [[<- [= <- <-]] | [N1 H1]], H2 as [[<- E2] | [N2 H2]]; try done.
    + by destruct (link_fresh x2).
    + injection E2 as <- <-. by destruct (link_fresh x1).
    + by eapply (pt_inj _ _ Ht).
  - intros x y q j Hx Hj Hbit. destruct (fm_link_cases x y q j Hx Hj) as [(_ & _ & ->) | (_ & Hx' & [(_ & _ & _ & E) | [_ E]])]; [done | |].
    + by rewrite E, E0 in Hbit.
    + rewrite E in *. by eapply (pt_none _ _ Ht).
  - intros x y q j Hx Hj B0 B1. destruct (fm_link_cases x _ q j Hx Hj) as [(_ & _ & E) | (Hxc & Hx' & [(-> & -> & [= -> ->] & E) | [_ E]])].
    + by rewrite E, Z.bits_0 in B0.
    + rewrite E, Ea. split; [apply lookup_insert_eq | done].
    + rewrite E in *. destruct (pt_child _ _ Ht _ _ _ _ Hx' Hj B0 B1) as [C1 C2]. split; [| done].
      unfold T'. rewrite lookup_insert_ne; [done |]. intros E'. rewrite <- E' in C1. by rewrite (bk_new _ _ _ Hc) in C1.
  - intros x y q Hx Hy. unfold T' in Hx. apply lookup_insert_Some in Hx as [[<- [= <- <-]] | [_ Hx]].
    + exists b, p, i. unfold m'. rewrite rd_wr_eq. split; [| done]. unfold T'. rewrite lookup_insert_ne; [done | exact link_not_b].
    + destruct (pt_link _ _ Ht x y q Hx Hy) as (b' & p' & i' & L1 & L2 & L3 & L4 & L5 & L6). exists b', p', i'.
      assert (Hne : b' <> b \/ i' <> i).
      { destruct (decide (b' = b)) as [-> |]; [right | by left]. intros ->. by rewrite Hz, Z.bits_0 in L4. }
      rewrite (fm_link_other _ _ _ _ L1 L2 Hne). split; [| done]. unfold T'. rewrite lookup_insert_ne; [done |].
      intros <-. by rewrite (bk_new _ _ _ Hc) in L1.
Qed.

Lemma link_space : kspace G T' m'.
Proof.
  split; [exact fm_link_tree | |].
  - intros x y q Hx. unfold T' in Hx. apply lookup_insert_Some in Hx as [[_ [= <- <-]] | [_ Hx]];
      [pose proof (ks_levels _ _ _ Hk _ _ _ Hb); lia | by eapply (ks_levels _ _ _ Hk)].
  - unfold T'. rewrite lookup_insert_ne; [apply Hk |]. intros E. pose proof (ks_root _ _ _ Hk) as H. rewrite <- E in H.
    by rewrite (bk_new _ _ _ Hc) in H.
Qed.

(** No translation changes. *)
Lemma link_walk_same v : kwalk G m' v = kwalk G m v.
Proof.
  unfold kwalk. destruct (Z.eqb_spec (v / 2 ^ 48) 0xffff) as [Hv |]; [| done]. pose proof (ks_tree _ _ _ Hk) as Ht.
  assert (H : forall n x, T !! x = Some (n, v / lsize (S n)) -> walk n m' x v = walk n m x v).
  { induction n as [|n IH]; intros x Hx; cbn [walk].
    - rewrite (fm_link_other _ _ _ _ Hx (lindex_range 0 v)); [done |]. left. intros ->. by rewrite Hb in Hx.
    - pose proof (lindex_range (S n) v) as Hj. destruct (decide (x = b /\ lindex (S n) v = i)) as [[-> Ei] | Hne].
      + rewrite Ei. assert (Em : rd m' (b + 8 * i) = e) by apply rd_wr_eq. rewrite Em, Hz, Z.bits_0. destruct He as [-> -> -> _].
        rewrite Hb in Hx. injection Hx as En _. rewrite <- En. apply walk_zero, link_zero, lindex_range.
      + rewrite (fm_link_other _ _ _ _ Hx Hj) by (destruct (decide (x = b)), (decide (lindex (S n) v = i)); tauto).
        destruct (Z.testbit _ 0) eqn:E0; [| done]. destruct (Z.testbit _ 1) eqn:E1; [| done]. apply IH.
        rewrite slot_split. exact (proj1 (pt_child _ _ Ht _ _ _ _ Hx Hj E0 E1)). }
  apply H. change (lsize 4) with (2 ^ 48). rewrite Hv. apply Hk.
Qed.

Lemma link_blank x : blank T m x -> x <> c -> blank T' m' x.
Proof.
  intros [X1 X2 X3] Hne. split; [unfold T'; by rewrite lookup_insert_ne | done |].
  intros j Hj. rewrite link_page; [by apply X3 | apply X2 | intros ->; by rewrite Hb in X1 | done].
Qed.
End Link.

(** ** [early_fixmap_init] *)

Section Init.
Context (G : fix_syms).
Let phys := virt_to_kimg_phys G.
Let root := phys (swapper_pg_dir G).

(** The image, before: its tables are blank pages, the code can write them
    and the directory, and the directory has nothing at the top. *)
Definition bm_pages : list Z := [bm_pud G; bm_pmd G] ++ ((fun t => bm_pte G + 4096 * Z.of_nat t) <$> seq 0 5).

Record image_tables (T : tables) (m : mem) : Prop := {
  im_space : kspace G T m;
  im_map : forall x a, x ∈ swapper_pg_dir G :: bm_pages -> 0 <= a < 4096 -> a mod 8 = 0 -> at_phys G m (x + a) (phys x + a);
  im_align : forall x, x ∈ swapper_pg_dir G :: bm_pages -> x mod 4096 = 0;
  im_blank : forall x, x ∈ bm_pages -> blank T m (phys x);
  im_distinct : NoDup (phys <$> bm_pages);
  im_top : rd m (root + 8 * 511) = 0;
  im_below : bm_pte G + 4096 * FIX_TABLES <= FIXADDR_TOT_START /\ swapper_pg_dir G + 4096 <= FIXADDR_TOT_START;
}.

Lemma table_desc_links x : phys x mod 4096 = 0 -> 0 <= phys x -> phys x + 4096 <= 2 ^ 47 -> links (table_desc G x) (phys x).
Proof.
  intros Hm H0 H1. assert (E : table_desc G x = Z.lor (Z.lor (phys x) PG_TABLE_ENTRY_RWX) 3).
  { unfold table_desc. fold phys. change PG_DESC_TYPE_TABLE with 3. by rewrite <- !Z.lor_assoc. }
  assert (Ha : attr_ok PG_TABLE_ENTRY_RWX) by reflexivity. change 4096 with (lsize 0) in Hm.
  destruct (leaf_bits 0 (phys x) PG_TABLE_ENTRY_RWX 3 ltac:(lia) Hm Ha ltac:(tauto)) as [B0 B1].
  rewrite E. split; [done | done | apply (leaf_addr 0); (done || lia || tauto) |].
  assert (H48 : forall n, 48 <= n < 50 -> Z.testbit (Z.lor (Z.lor (phys x) PG_TABLE_ENTRY_RWX) 3) n = false).
  { intros n Hn. rewrite !Z.lor_spec, (testbit_above (phys x) 48) by lia.
    assert (n = 48 \/ n = 49) as [-> | ->] by lia; reflexivity. }
  rewrite pte_phys_desc by (apply H48; lia). apply (leaf_addr 0); (done || lia || tauto).
Qed.

Lemma table_entry_virt n base va : (n <= 3)%nat -> 0 <= base -> base + 4096 <= 2 ^ 64 ->
  table_entry (lshift n) base va = base + 8 * lindex n va.
Proof.
  intros Hn Hb Hb'. unfold table_entry, PG_ENTRY_BYTES, PG_TABLE_BITS.
  assert (Hs : 0 <= lshift n) by (unfold lshift; lia).
  rewrite Z.shiftr_land, Z.shiftr_shiftl_l, Z.sub_diag by lia.
  change (Z.shiftl (2 ^ 9 - 1) 0) with (Z.ones 9). rewrite Z.land_ones by lia.
  rewrite Z.shiftr_div_pow2 by lia. fold (lsize n). change (2 ^ 9) with 512. fold (lindex n va).
  pose proof (lindex_range n va). apply u64_small. lia.
Qed.

(** What one store of a link does to the rest. *)
Lemma link_step T m x c b p i k : kspace G T m -> T !! b = Some (S k, p) -> 0 <= i < 512 ->
  at_phys G m x (b + 8 * i) -> rd m (b + 8 * i) = 0 -> blank T m (phys c) ->
  let T' := <[phys c := (k, p * 512 + i)]> T in
  exists m', vstore G m x (table_desc G c) = Done m' /\ kspace G T' m' /\ (forall v, kwalk G m' v = kwalk G m v)
    /\ (forall y, blank T m y -> y <> phys c -> blank T' m' y)
    /\ (forall y q z j, T !! y = Some (q, z) -> 0 <= j < 512 -> y <> b \/ j <> i -> rd m' (y + 8 * j) = rd m (y + 8 * j))
    /\ (forall j, 0 <= j < 512 -> rd m' (phys c + 8 * j) = 0)
    /\ (forall a, a <> b + 8 * i -> rd m' a = rd m a).
Proof.
  intros Hk Hb Hi Hat Hz Hc T'. destruct (bk_page _ _ _ Hc) as (A1 & A2 & A3).
  pose proof (table_desc_links c A1 A2 A3) as Hl. exists (wr m (b + 8 * i) (table_desc G c)).
  split; [by apply store_at |]. split; [by eapply link_space |]. split; [intros v; by eapply link_walk_same |].
  split; [intros y; by eapply link_blank |]. split; [intros y q z j; by eapply fm_link_other |].
  split; [intros j; by eapply link_zero | intros a Ha; apply rd_wr_ne; congruence].
Qed.

Lemma at_same m m' x pa : (forall v, kwalk G m' v = kwalk G m v) -> at_phys G m x pa -> at_phys G m' x pa.
Proof. intros Hs (attr & E & H). exists attr. by rewrite Hs. Qed.

(** The address at which the turn for table [t] starts. *)
Definition fix_va (t : Z) : Z := if t =? 0 then FIXADDR_TOT_START else (FIX_PMD0 + t) * 2 ^ 21.

Lemma fix_va_facts t : 0 <= t < 5 ->
  BM_PTE_TABLE_IDX (fix_va t) = t /\ addr_end PMD_SIZE (fix_va t) FIXADDR_TOP = fix_va (t + 1).
Proof.
  intros Ht. assert (t = 0 \/ t = 1 \/ t = 2 \/ t = 3 \/ t = 4) as H by lia.
  destruct H as [-> | [-> | [-> | [-> | ->]]]]; vm_compute; done.
Qed.

Definition PMD_SLOT : Z := FIXADDR_TOT_START / 2 ^ 30.
Definition pte_page (t : Z) : Z := bm_pte G + 4096 * t.

(** The tables grow. *)
Definition grows (T T' : tables) : Prop := forall x y, T !! x = Some y -> T' !! x = Some y.

Lemma fixmap_pmd_loop_spec n : forall fuel T m t, Z.of_nat n = 5 - t -> 0 <= t < 5 -> (n <= fuel)%nat ->
  kspace G T m -> T !! phys (bm_pmd G) = Some (1%nat, PMD_SLOT) ->
  (forall j, 503 + t <= j < 508 -> rd m (phys (bm_pmd G) + 8 * j) = 0) ->
  (forall j, 0 <= j < 512 -> at_phys G m (bm_pmd G + 8 * j) (phys (bm_pmd G) + 8 * j)) ->
  (forall u, t <= u < 5 -> blank T m (phys (pte_page u))) ->
  (forall u w, 0 <= u < 5 -> 0 <= w < 5 -> phys (pte_page u) = phys (pte_page w) -> u = w) ->
  exists T' m', fixmap_pmd_loop G fuel m (bm_pmd G + 8 * (503 + t)) (bm_pmd G + 8 * 507) (fix_va t) FIXADDR_TOP = Done m'
    /\ kspace G T' m' /\ (forall v, kwalk G m' v = kwalk G m v) /\ grows T T'
    /\ (forall u, t <= u < 5 -> T' !! phys (pte_page u) = Some (0%nat, FIX_PMD0 + u)
          /\ forall j, 0 <= j < 512 -> rd m' (phys (pte_page u) + 8 * j) = 0)
    /\ (forall y q z j, T !! y = Some (q, z) -> y <> phys (bm_pmd G) -> 0 <= j < 512 -> rd m' (y + 8 * j) = rd m (y + 8 * j))
    /\ (forall a, ~ (phys (bm_pmd G) <= a < phys (bm_pmd G) + 4096) -> rd m' a = rd m a).
Proof.
  induction n as [|n IH]; intros fuel T m t Hn Ht Hf Hk Hb Hz Hat Hbl Hd; [lia |].
  destruct fuel as [|fuel]; [lia |]. cbn [fixmap_pmd_loop]. destruct (fix_va_facts t Ht) as [-> ->].
  replace (bm_pte G + 8 * 512 * t) with (pte_page t) by (unfold pte_page; lia).
  destruct (link_step T m (bm_pmd G + 8 * (503 + t)) (pte_page t) (phys (bm_pmd G)) PMD_SLOT (503 + t) 0 Hk Hb ltac:(lia)
              (Hat (503 + t) ltac:(lia)) (Hz (503 + t) ltac:(lia)) (Hbl t ltac:(lia))) as (m1 & -> & K1 & W1 & B1 & R1 & Z1 & A1). cbn [obind].
  set (T1 := <[phys (pte_page t) := (0%nat, PMD_SLOT * 512 + (503 + t))]> T) in *.
  assert (Hslot : PMD_SLOT * 512 + (503 + t) = FIX_PMD0 + t) by (change PMD_SLOT with 17179869183; change FIX_PMD0 with 8796093022199; lia).
  assert (Hg : grows T T1).
  { intros x y Hx. unfold T1. rewrite lookup_insert_ne; [done |]. intros <-. by rewrite (bk_new _ _ _ (Hbl t ltac:(lia))) in Hx. }
  assert (Ht1 : T1 !! phys (pte_page t) = Some (0%nat, FIX_PMD0 + t)) by (unfold T1; rewrite lookup_insert_eq; by rewrite Hslot).
  change PG_ENTRY_BYTES with 8. destruct (Z.leb_spec (bm_pmd G + 8 * (503 + t) + 8) (bm_pmd G + 8 * 507)) as [Hle | Hgt].
  - destruct (IH fuel T1 m1 (t + 1)) as (T2 & m2 & E & K2 & W2 & G2 & P2 & R2 & A2); try done; try lia.
    + by apply Hg.
    + intros j Hj. rewrite (R1 _ _ _ j Hb ltac:(lia) ltac:(right; lia)). apply Hz. lia.
    + intros j Hj. eapply at_same; [exact W1 | by apply Hat].
    + intros u Hu. apply B1; [apply Hbl; lia |]. intros E. apply Hd in E; lia.
    + exists T2, m2. replace (bm_pmd G + 8 * (503 + t) + 8) with (bm_pmd G + 8 * (503 + (t + 1))) by lia.
      split; [exact E |]. split; [done |]. split; [intros v; by rewrite W2 |]. split; [intros x y Hx; by apply G2, Hg |].
      assert (Hne : phys (pte_page t) <> phys (bm_pmd G)).
      { intros E'. pose proof (bk_new _ _ _ (Hbl t ltac:(lia))) as H. by rewrite E', Hb in H. }
      split; [| split].
      * intros u Hu. destruct (decide (u = t)) as [-> |]; [| apply P2; lia]. split; [by apply G2 |].
        intros j Hj. rewrite (R2 _ _ _ _ Ht1 Hne Hj). by apply Z1.
      * intros y q z j Hy Hyb Hj. rewrite (R2 _ _ _ _ (Hg _ _ Hy) Hyb Hj). apply (R1 _ _ _ _ Hy Hj). by left.
      * intros a Ha. rewrite A2 by done. apply A1. lia.
  - exists T1, m1. split; [done |]. split; [done |]. split; [done |]. split; [done |]. split; [| split].
    + intros u Hu. assert (u = t) as -> by (clear -Hgt Hu Ht; lia). done.
    + intros y q z j Hy Hyb Hj. apply (R1 _ _ _ _ Hy Hj). by left.
    + intros a Ha. apply A1. lia.
Qed.

Lemma phys_pte t : 0 <= phys (bm_pte G) -> phys (bm_pte G) + 4096 <= 2 ^ 47 -> 0 <= t < 5 ->
  phys (pte_page t) = bm_table G t.
Proof.
  intros H0 H1 Ht. unfold bm_table, pte_page. fold phys. unfold phys, virt_to_kimg_phys in *.
  replace (bm_pte G + 4096 * t - kimage_voffset G) with (bm_pte G - kimage_voffset G + 4096 * t) by lia.
  rewrite <- u64_add_l. apply u64_small. lia.
Qed.

Lemma image_range T m x : image_tables T m -> x ∈ swapper_pg_dir G :: bm_pages -> 0 <= x /\ x + 4096 <= 2 ^ 64.
Proof.
  intros HI Hx. pose proof (at_kaddr _ _ _ _ (im_map _ _ HI x 0 Hx ltac:(lia) eq_refl)) as H0.
  pose proof (at_kaddr _ _ _ _ (im_map _ _ HI x 4088 Hx ltac:(lia) eq_refl)) as H1. unfold kaddr in *.
  assert (0xffff * 2 ^ 48 <= x + 0) by (rewrite <- H0, Z.mul_comm; apply Z.mul_div_le; lia).
  pose proof (Z.div_mod (x + 4088) (2 ^ 48) ltac:(lia)). pose proof (Z.mod_pos_bound (x + 4088) (2 ^ 48) ltac:(lia)).
  pose proof (Z.div_mod x 4096 ltac:(lia)) as Hd. rewrite (im_align _ _ HI x Hx) in Hd. lia.
Qed.

Lemma bm_elems : bm_pud G ∈ bm_pages /\ bm_pmd G ∈ bm_pages /\ forall t, 0 <= t < 5 -> pte_page t ∈ bm_pages.
Proof.
  unfold bm_pages, pte_page. split; [set_solver |]. split; [set_solver |]. intros t Ht. apply elem_of_app. right.
  apply list_elem_of_fmap. exists (Z.to_nat t). split; [f_equal; lia |]. apply elem_of_seq. lia.
Qed.

Lemma bm_differ T m : image_tables T m -> phys (bm_pud G) <> phys (bm_pmd G)
  /\ (forall t, 0 <= t < 5 -> phys (pte_page t) <> phys (bm_pud G) /\ phys (pte_page t) <> phys (bm_pmd G))
  /\ (forall u w, 0 <= u < 5 -> 0 <= w < 5 -> phys (pte_page u) = phys (pte_page w) -> u = w).
Proof.
  intros HI. pose proof (im_distinct _ _ HI) as Hnd.
  assert (Hat : forall t, 0 <= t < 5 -> (phys <$> bm_pages) !! (2 + Z.to_nat t)%nat = Some (phys (pte_page t))).
  { intros t Ht. assert (t = 0 \/ t = 1 \/ t = 2 \/ t = 3 \/ t = 4) as H by lia.
    destruct H as [-> | [-> | [-> | [-> | ->]]]]; reflexivity. }
  assert (H0 : (phys <$> bm_pages) !! 0%nat = Some (phys (bm_pud G))) by reflexivity.
  assert (H1 : (phys <$> bm_pages) !! 1%nat = Some (phys (bm_pmd G))) by reflexivity.
  pose proof (fun i j x => NoDup_lookup _ i j x Hnd) as Huniq. split; [| split].
  - intros E. rewrite <- E in H1. by specialize (Huniq _ _ _ H0 H1).
  - intros t Ht. specialize (Hat t Ht). split; intros E; rewrite E in Hat.
    + specialize (Huniq _ _ _ H0 Hat). lia.
    + specialize (Huniq _ _ _ H1 Hat). lia.
  - intros u w Hu Hw E. pose proof (Hat u Hu) as Au. rewrite E in Au. specialize (Huniq _ _ _ Au (Hat w Hw)). lia.
Qed.

(** The state after set-up: the fixed map is there and nothing is mapped in it. *)
Definition fix_empty (m : mem) : Prop := forall t j, 0 <= t < FIX_TABLES -> 0 <= j < 512 -> rd m (bm_table G t + 8 * j) = 0.

Lemma early_fixmap_run T m : image_tables T m ->
  exists T' m', early_fixmap_init G m = Done m' /\ fixmapped G T' m' /\ fix_empty m' /\ grows T T'
    /\ (forall v, kwalk G m' v = kwalk G m v)
    /\ (forall a, a <> root + 8 * 511 -> (forall x, x ∈ bm_pages -> ~ (phys x <= a < phys x + 4096)) -> rd m' a = rd m a).
Proof.
  intros HI. destruct bm_elems as (Ep & Em & Et). destruct (bm_differ T m HI) as (D1 & D2 & D3).
  pose proof (im_space _ _ HI) as K0. pose proof (ks_root _ _ _ K0) as Hroot.
  destruct (image_range T m _ HI ltac:(apply elem_of_cons; by left)) as [Rs1 Rs2].
  destruct (image_range T m (bm_pud G) HI ltac:(apply elem_of_cons; by right)) as [Ru1 Ru2].
  destruct (image_range T m (bm_pmd G) HI ltac:(apply elem_of_cons; by right)) as [Rm1 Rm2].
  assert (Hat : forall x j, x ∈ swapper_pg_dir G :: bm_pages -> 0 <= j < 512 -> at_phys G m (x + 8 * j) (phys x + 8 * j)).
  { intros x j Hx Hj. apply (im_map _ _ HI); [done | lia |]. rewrite Z.mul_comm. apply Z_mod_mult. }
  unfold early_fixmap_init, fixmap_init_pud, fixmap_init_pmd.
  change PGDIR_SHIFT with (lshift 3). rewrite (table_entry_virt 3) by lia. change (lindex 3 FIXADDR_TOT_START) with 511.
  destruct (link_step T m (swapper_pg_dir G + 8 * 511) (bm_pud G) root 0xffff 511 2 K0 Hroot ltac:(lia)
    (Hat _ 511 ltac:(apply elem_of_cons; by left) ltac:(lia)) (im_top _ _ HI) (im_blank _ _ HI _ Ep))
    as (m1 & -> & K1 & W1 & B1 & R1 & Z1 & F1). cbn [obind]. set (T1 := <[phys (bm_pud G) := _]> T) in *.
  assert (P1 : T1 !! phys (bm_pud G) = Some (2%nat, 0xffff * 512 + 511)) by apply lookup_insert_eq.
  change PUD_SHIFT with (lshift 2). rewrite (table_entry_virt 2) by lia. change (lindex 2 FIXADDR_TOT_START) with 511.
  destruct (link_step T1 m1 (bm_pud G + 8 * 511) (bm_pmd G) (phys (bm_pud G)) (0xffff * 512 + 511) 511 1 K1 P1 ltac:(lia)
    (at_same m m1 _ _ W1 (Hat (bm_pud G) 511 ltac:(apply elem_of_cons; by right) ltac:(lia))) (Z1 511 ltac:(lia))
    (B1 _ (im_blank _ _ HI _ Em) ltac:(congruence))) as (m2 & -> & K2 & W2 & B2 & R2 & Z2 & F2). cbn [obind].
  set (T2 := <[phys (bm_pmd G) := _]> T1) in *.
  assert (W02 : forall v, kwalk G m2 v = kwalk G m v) by (intros v; by rewrite W2).
  change PMD_SHIFT with (lshift 1). rewrite !(table_entry_virt 1) by lia.
  change (lindex 1 FIXADDR_TOT_START) with (503 + 0). change (lindex 1 (FIXADDR_TOP - 1)) with 507.
  change FIXADDR_TOT_START with (fix_va 0) at 1.
  destruct (fixmap_pmd_loop_spec 5 TABLE_FUEL T2 m2 0) as (T3 & m3 & E & K3 & W3 & G3 & P3 & R3 & F3);
    [lia | lia | vm_compute; lia | done | apply lookup_insert_eq | intros j Hj; apply Z2; lia | | | exact D3 |].
  { intros j Hj. eapply at_same; [exact W02 | apply Hat; [apply elem_of_cons; by right | done]]. }
  { intros u Hu. destruct (D2 u Hu) as [N1 N2]. apply B2; [apply B1; [by apply (im_blank _ _ HI), Et | done] | done]. }
  exists T3, m3. split; [exact E |].
  assert (Hp : forall u, 0 <= u < FIX_TABLES -> phys (pte_page u) = bm_table G u).
  { intros u Hu. destruct (bk_page _ _ _ (im_blank _ _ HI _ (Et 0 ltac:(lia)))) as (_ & A2 & A3).
    unfold pte_page in A2, A3. rewrite Z.mul_0_r, Z.add_0_r in A2, A3. by apply phys_pte. }
  split; [| split; [| split; [| split]]].
  - split; [done | intros t Ht; rewrite <- Hp by done; apply P3; exact Ht | | apply (proj1 (im_below _ _ HI))].
    intros a Ha H8. eapply at_same; [intros v; etransitivity; [apply W3 | apply W02] |].
    pose proof (Z.div_mod a 4096 ltac:(lia)) as Hd. pose proof (Z.mod_pos_bound a 4096 ltac:(lia)).
    assert (Hq : 0 <= a / 4096 < FIX_TABLES) by (unfold FIX_TABLES in *; split; [apply Z.div_pos | apply Z.div_lt_upper_bound]; lia).
    replace (bm_pte G + a) with (pte_page (a / 4096) + a mod 4096) by (unfold pte_page; lia).
    replace (virt_to_kimg_phys G (bm_pte G) + a) with (phys (pte_page (a / 4096)) + a mod 4096) by (rewrite Hp by done; unfold bm_table; lia).
    apply (im_map _ _ HI); [apply elem_of_cons; right; by apply Et | lia |].
    rewrite Hd in H8. replace (4096 * (a / 4096) + a mod 4096) with (a mod 4096 + 512 * (a / 4096) * 8) in H8 by lia. by rewrite Z_mod_plus_full in H8.
  - intros t j Ht Hj. rewrite <- Hp by done. by apply (P3 t Ht).
  - intros x y Hx. apply G3. unfold T2, T1. rewrite !lookup_insert_ne; [done | |]; intros E'; rewrite <- E' in Hx.
    + by rewrite (bk_new _ _ _ (im_blank _ _ HI _ Ep)) in Hx.
    + by rewrite (bk_new _ _ _ (im_blank _ _ HI _ Em)) in Hx.
  - intros v. by rewrite W3.
  - intros a Ha Hx. pose proof (Hx _ Ep). pose proof (Hx _ Em). rewrite F3, F2, F1; [done | done | lia | done].
Qed.
End Init.
