(* ===== verification/FixmapMap.v ===== *)
(** * Mapping through the fixed map

    [create_mapping] on a range whose page tables exist: each level reaches
    the next table through its own page of the fixed map, writes the page
    entries of the range and closes the page again.  The result is the
    update [paint]: the pages of the range translate to the physical range,
    no other translation changes. *)

From S2P Require Import Prelude PageTable PageTableMap PtTree Pte BootMap Memblock Fixmap FixmapSpec.

(** ** Pieces of a range *)

Lemma addr_end_min k lo hi : 0 <= k < 64 -> 0 <= lo < hi -> hi < 2 ^ 64 ->
  addr_end (2 ^ k) lo hi = Z.min ((lo / 2 ^ k + 1) * 2 ^ k) hi.
Proof.
  intros Hk Hlo Hhi. unfold addr_end. set (S := 2 ^ k). assert (HS : 0 < S) by (apply Z.pow_pos_nonneg; lia).
  assert (Hp : is_pow2 S) by (exists k; split; [lia | done]).
  assert (Hb : S * 2 ^ (64 - k) = 2 ^ 64) by (unfold S; rewrite <- Z.pow_add_r by lia; f_equal; lia).
  clearbody S. generalize dependent (2 ^ (64 - k)). intros P Hb. pose proof (Z.div_mod lo S ltac:(lia)) as Hd. pose proof (Z.mod_pos_bound lo S HS) as Hm.
  assert (Hq : lo / S < P) by (apply Z.div_lt_upper_bound; lia).
  destruct (Z.lt_ge_cases (lo / S + 1) P) as [Hlt | Hge].
  - assert (Hn : (lo / S + 1) * S + S <= 2 ^ 64) by nia. rewrite (u64_small (lo + S)) by nia.
    rewrite align_mask_pow2 by (done || nia). replace ((lo + S) mod S) with (lo mod S) by (rewrite <- (Z_mod_plus_full lo 1 S); f_equal; lia).
    replace (lo + S - lo mod S) with ((lo / S + 1) * S) by lia. rewrite !u64_small by lia.
    destruct (Z.ltb_spec ((lo / S + 1) * S - 1) (hi - 1)); lia.
  - assert (Ht : (lo / S + 1) * S = 2 ^ 64) by (replace (lo / S + 1) with P by lia; lia).
    assert (HSP : S <= 2 ^ 64) by (pose proof (Z.div_pos lo S ltac:(lia) HS); nia).
    assert (Eu : u64 (lo + S) = lo mod S).
    { unfold u64. symmetry. apply (Z.mod_unique_pos _ _ 1); [|]; lia. }
    rewrite Eu, align_mask_pow2 by (done || lia). rewrite Z.mod_mod, Z.sub_diag by lia. rewrite Ht.
    change (u64 (0 - 1)) with (2 ^ 64 - 1). rewrite (u64_small (hi - 1)) by lia.
    destruct (Z.ltb_spec (2 ^ 64 - 1) (hi - 1)); lia.
Qed.

(** ** Painting a range *)

Definition paint (prot lo hi phys s : Z) : option Z :=
  if (lo <=? s * 4096) && (s * 4096 <? hi) then Some (Z.lor (phys + (s * 4096 - lo)) prot) else None.

Lemma paint_in prot lo hi phys s : lo <= s * 4096 < hi -> paint prot lo hi phys s = Some (Z.lor (phys + (s * 4096 - lo)) prot).
Proof. intros H. unfold paint. rewrite (proj2 (Z.leb_le _ _)), (proj2 (Z.ltb_lt _ _)) by lia. done. Qed.

Lemma paint_out prot lo hi phys s : ~ (lo <= s * 4096 < hi) -> paint prot lo hi phys s = None.
Proof. intros H. unfold paint. destruct (Z.leb_spec lo (s * 4096)), (Z.ltb_spec (s * 4096) hi); (done || lia). Qed.

Lemma paint_join prot lo mid hi phys s : lo <= mid <= hi ->
  join (paint prot lo mid phys) (paint prot mid hi (phys + (mid - lo))) s = paint prot lo hi phys s.
Proof.
  intros Hm. unfold join. destruct (decide (mid <= s * 4096 < hi)).
  - rewrite !paint_in by lia. do 2 f_equal. lia.
  - rewrite (paint_out _ mid hi) by done. destruct (decide (lo <= s * 4096 < mid)).
    + by rewrite !paint_in by lia.
    + by rewrite !paint_out by lia.
Qed.

Section Map.
Context (G : fix_syms) (T : tables) (prot attr : Z) (Hprot : prot = Z.lor attr 3) (Hattr : attr_ok attr).

(** The range can be mapped: its tables exist, each page may be given its
    entry, and no block of two megabytes would be used. *)
Record ready (m : mem) (lo hi phys : Z) : Prop := {
  ry_range : 0 <= lo < hi /\ hi < 2 ^ 64 /\ kaddr lo;
  ry_page : lo mod 4096 = 0 /\ hi mod 4096 = 0 /\ phys mod 4096 = 0;
  ry_phys : 0 <= phys /\ phys + (hi - lo) <= 2 ^ 48;
  ry_tab : forall v, lo <= v < hi -> exists c, T !! c = Some (0%nat, v / lsize 1);
  ry_safe : forall c q i, T !! c = Some (0%nat, q) -> 0 <= i < 512 -> lo <= (q * 512 + i) * 4096 < hi ->
    pgattr_change_is_safe (rd m (c + 8 * i)) (Z.lor (phys + ((q * 512 + i) * 4096 - lo)) prot) = true;
  ry_block : forall s, lo <= s * 2 ^ 21 -> (s + 1) * 2 ^ 21 <= hi -> (phys + (s * 2 ^ 21 - lo)) mod 2 ^ 21 <> 0;
}.

Lemma paint_ok lo hi phys : lo mod 4096 = 0 -> phys mod 4096 = 0 -> 0 <= phys -> phys + (hi - lo) <= 2 ^ 48 ->
  forall s e, paint prot lo hi phys s = Some e -> page_entry_ok e.
Proof.
  intros Hl Hp H0 H1 s e. destruct (decide (lo <= s * 4096 < hi)); [rewrite paint_in by done | by rewrite paint_out].
  intros [= <-]. pose proof (Z.div_mod lo 4096 ltac:(lia)) as Hd. rewrite Hl in Hd.
  apply (page_val G (phys + (s * 4096 - lo)) prot attr 0 Hprot Hattr); [| lia].
  replace (phys + (s * 4096 - lo)) with (phys + (s - lo / 4096) * 4096) by lia. by rewrite Z_mod_plus_full.
Qed.

Lemma kaddr_between lo v : kaddr lo -> lo <= v < 2 ^ 64 -> kaddr v.
Proof.
  unfold kaddr. intros Hl Hv. pose proof (Z.div_mod lo (2 ^ 48) ltac:(lia)). pose proof (Z.mod_pos_bound lo (2 ^ 48) ltac:(lia)).
  symmetry. apply (Z.div_unique_pos _ _ _ (v - 0xffff * 2 ^ 48)); lia.
Qed.

Lemma mod_page_sub a b : a mod 4096 = 0 -> b mod 4096 = 0 -> (a - b) mod 4096 = 0.
Proof. intros Ha Hb. by rewrite Zminus_mod, Ha, Hb. Qed.

Lemma ready_left m lo mid hi phys : ready m lo hi phys -> lo < mid <= hi -> mid mod 4096 = 0 -> ready m lo mid phys.
Proof.
  intros [[R1 [R2 R2']] (R3 & R4 & R5) [R6 R7] R8 R9 R10] Hm Hmod. split; try done; try lia.
  - split; [lia |]. split; [lia | done].
  - intros v Hv. apply R8. lia.
  - intros c q i Hc Hi Hr. apply R9; [done | done | lia].
  - intros s H1 H2. apply R10; lia.
Qed.

Lemma ready_right m m' lo mid hi phys : ready m lo hi phys -> lo < mid < hi -> mid mod 4096 = 0 ->
  upd T m m' (paint prot lo mid phys) -> ready m' mid hi (phys + (mid - lo)).
Proof.
  intros [[R1 [R2 R2']] (R3 & R4 & R5) [R6 R7] R8 R9 R10] Hm Hmod [U1 _ _ _]. split; try lia.
  - split; [lia |]. split; [lia |]. apply (kaddr_between lo); [done | lia].
  - split; [done |]. split; [done |]. rewrite Zplus_mod, R5, mod_page_sub by done. done.
  - intros v Hv. apply R8. lia.
  - intros c q i Hc Hi Hr. rewrite (U1 c q i Hc Hi), paint_out by lia. cbn [default].
    replace (phys + (mid - lo) + ((q * 512 + i) * 4096 - mid)) with (phys + ((q * 512 + i) * 4096 - lo)) by lia.
    apply R9; [done | done | lia].
  - intros s H1 H2. replace (phys + (mid - lo) + (s * 2 ^ 21 - mid)) with (phys + (s * 2 ^ 21 - lo)) by lia. apply R10; lia.
Qed.

(** ** The pages of the fixed map that reach tables *)

(** [FIX_PTE], [FIX_PMD], [FIX_PUD]. *)
Definition win (k : nat) : Z := FIX_PTE + Z.of_nat k.

Lemma win_range k : (k <= 2)%nat -> 0 < win k < __end_of_fixed_addresses.
Proof. intros Hk. unfold win. change FIX_PTE with 2309. change __end_of_fixed_addresses with 2313. lia. Qed.

Lemma win_page k : fix_page (win k) = 4503599627366139 - Z.of_nat k.
Proof. unfold fix_page, win. change FIX_PTE with 2309. change (FIXADDR_TOP / 4096) with 4503599627368448. lia. Qed.

(** The entry of a fixed address. *)
Definition fix_get (m : mem) (idx : Z) : Z :=
  rd m (bm_table G (fix_page idx / 512 - FIX_PMD0) + 8 * (fix_page idx mod 512)).

Lemma fix_get_upd m m' f k : fixmapped G T m -> (k <= 2)%nat -> upd T m m' f ->
  fix_get m' (win k) = default (fix_get m (win k)) (f (fix_page (win k))).
Proof.
  intros HF Hk [U1 _ _ _]. destruct (fix_entry G (win k) (win_range k Hk)) as (Ht & Hi & Hs & _). unfold fix_get.
  rewrite (U1 _ _ _ (fm_table _ _ _ HF _ Ht) Hi). by rewrite Hs.
Qed.

Lemma kernel_page : PAGE_KERNEL G = Z.lor (Z.ldiff (PAGE_KERNEL G) 3) 3 /\ attr_ok (Z.ldiff (PAGE_KERNEL G) 3)
  /\ writable (Z.ldiff (PAGE_KERNEL G) 3) = true /\ PAGE_KERNEL G <> 0.
Proof. unfold PAGE_KERNEL. by destruct (use_ng G); vm_compute. Qed.

Lemma table_page m c y : fixmapped G T m -> T !! c = Some y -> c mod 4096 = 0 /\ 0 <= c < 2 ^ 48.
Proof.
  intros HF Hc. destruct y. destruct (pt_page _ _ (ks_tree _ _ _ (fm_space _ _ _ HF)) _ _ _ Hc) as (H1 & H2 & H3). lia.
Qed.

Lemma set_fixmap_inner m idx c j flags : c mod 4096 = 0 -> 0 <= c < 2 ^ 48 -> 0 <= j < 512 ->
  __set_fixmap G m idx (c + 8 * j) flags = __set_fixmap G m idx c flags.
Proof.
  intros Hc Hr Hj. unfold __set_fixmap. replace (Z.shiftr (c + 8 * j) PAGE_SHIFT) with (Z.shiftr c PAGE_SHIFT); [done |].
  rewrite !Z.shiftr_div_pow2 by (unfold PAGE_SHIFT; lia). change (2 ^ PAGE_SHIFT) with 4096.
  pose proof (Z.div_mod c 4096 ltac:(lia)). apply (Z.div_unique_pos _ _ _ (8 * j)); lia.
Qed.

Lemma open_window m mb k c y j : fixmapped G T m -> (k <= 2)%nat -> T !! c = Some y -> 0 <= j < 512 ->
  exists m', fset G (FixSt m mb) (win k) (c + 8 * j) = Done (fix_page (win k) * 4096 + 8 * j, FixSt m' mb)
    /\ fixmapped G T m' /\ upd T m m' (one (fix_page (win k)) (Z.lor c (PAGE_KERNEL G)))
    /\ forall i, 0 <= i < 512 -> at_phys G m' (fix_page (win k) * 4096 + 8 * i) (c + 8 * i).
Proof.
  intros HF Hk Hc Hj. destruct (table_page m c y HF Hc) as [Hc1 Hc2]. destruct kernel_page as (P1 & P2 & P3 & P4).
  destruct (set_fixmap_spec G T m (win k) c (PAGE_KERNEL G) HF (win_range k Hk) Hc1 Hc2) as (m' & E & HF' & Hu); [right; eauto |].
  unfold fix_val in Hu. rewrite (proj2 (Z.eqb_neq _ _) P4) in Hu.
  exists m'. split; [| split; [done |]; split; [done |]].
  - unfold fset, set_fixmap_offset. cbn [fx_mem fx_mb]. rewrite set_fixmap_inner, E by done. cbn [obind].
    rewrite (fix_virt G (win k) (win_range k Hk)). change (PAGE_SIZE - 1) with (Z.ones 12). rewrite Z.land_ones by lia.
    change (2 ^ 12) with 4096. pose proof (Z.div_mod c 4096 ltac:(lia)). do 3 f_equal.
    symmetry. apply (Z.mod_unique_pos _ _ (c / 4096)); lia.
  - intros i Hi. set (v := fix_page (win k) * 4096 + 8 * i).
    assert (Hv : v / 4096 = fix_page (win k)) by (symmetry; apply (Z.div_unique_pos _ _ _ (8 * i)); unfold v; lia).
    assert (Hvm : v mod 4096 = 8 * i) by (symmetry; apply (Z.mod_unique_pos _ _ (fix_page (win k))); unfold v; lia).
    assert (Hka : kaddr v).
    { unfold kaddr. pose proof (win_page k). symmetry. apply (Z.div_unique_pos _ _ _ (v - 0xffff * 2 ^ 48)); unfold v; lia. }
    destruct (fix_entry G (win k) (win_range k Hk)) as (Ht & Hi' & Hs & _).
    assert (Hslot : v / lsize 1 = FIX_PMD0 + (fix_page (win k) / 512 - FIX_PMD0)).
    { change (lsize 1) with (4096 * 512). rewrite <- Z.div_div, Hv by lia. lia. }
    destruct (page_val G c (PAGE_KERNEL G) _ v P1 P2 Hc1 Hc2) as [_ Hl].
    exists (Z.ldiff (PAGE_KERNEL G) 3). rewrite (upd_walk_at G T m m' _ v (Z.lor c (PAGE_KERNEL G))
      (bm_table G (fix_page (win k) / 512 - FIX_PMD0)) (fm_space _ _ _ HF') Hu Hka);
      [| rewrite Hslot; by apply (fm_table _ _ _ HF) | unfold one; rewrite Hv, Z.eqb_refl; done].
    rewrite Hl, Hvm. split; [done |]. split; [done |].
    pose proof (Z.div_mod c 4096 ltac:(lia)) as Hd. replace (c + 8 * i) with ((512 * (c / 4096) + i) * 8) by lia. apply Z_mod_mult.
Qed.

Lemma close_window m mb k : fixmapped G T m -> (k <= 2)%nat ->
  exists m', fclear G (FixSt m mb) (win k) = Done (FixSt m' mb) /\ upd T m m' (one (fix_page (win k)) 0).
Proof.
  intros HF Hk. destruct (set_fixmap_spec G T m (win k) 0 0 HF (win_range k Hk) eq_refl ltac:(lia)) as (m' & E & HF' & Hu); [by left |].
  exists m'. unfold fclear, clear_fixmap. cbn [fx_mem fx_mb]. by rewrite E.
Qed.

(** ** States between the calls *)

Section Range.
Context (LO HI : Z).
Context (Hwin : forall k, (k <= 2)%nat -> ~ (LO <= fix_page (win k) * 4096 < HI)).
Context (Himg : forall a, 0 <= a < 4096 * FIX_TABLES -> ~ (LO <= (bm_pte G + a) / 4096 * 4096 < HI)).

(** Level [n] works on the table [c] through the page [w]; the pages for
    the levels below are closed. *)
Record st (n : nat) (w c : Z) (m : mem) : Prop := {
  st_fix : fixmapped G T m;
  st_closed : forall k, (k < n)%nat -> fix_get m (win k) = 0;
  st_ptr : forall j, 0 <= j < 512 -> at_phys G m (w * 4096 + 8 * j) (c + 8 * j);
}.

(** The page is none of those below and not in the range. *)
Definition wfree (n : nat) (w : Z) : Prop :=
  ~ (LO <= w * 4096 < HI) /\ forall k, (k < n)%nat -> fix_page (win k) <> w.

Lemma ptr_page w j : 0 <= j < 512 -> (w * 4096 + 8 * j) / 4096 = w.
Proof. intros Hj. symmetry. apply (Z.div_unique_pos _ _ _ (8 * j)); lia. Qed.

Lemma st_upd n w c m m' f : (n <= 3)%nat -> st n w c m -> upd T m m' f -> off_image G f -> f w = None ->
  (forall k, (k < n)%nat -> f (fix_page (win k)) = None) -> st n w c m'.
Proof.
  intros Hn [S1 S2 S3] Hu Ho Hw Hk. split; [by eapply upd_fixmapped | |].
  - intros k Hlt. rewrite (fix_get_upd m m' f k S1 ltac:(lia) Hu), Hk by done. by apply S2.
  - intros j Hj. eapply upd_at; [apply S1 | exact Hu | by rewrite ptr_page | by apply S3].
Qed.

Lemma paint_off_image lo hi phys : LO <= lo -> hi <= HI -> off_image G (paint prot lo hi phys).
Proof. intros Hl Hh a Ha. apply paint_out. intros H. apply (Himg a Ha). lia. Qed.

Lemma st_paint n w c m m' lo hi phys : (n <= 3)%nat -> st n w c m -> wfree n w -> LO <= lo -> hi <= HI ->
  upd T m m' (paint prot lo hi phys) -> st n w c m'.
Proof.
  intros Hn Hs [W1 W2] Hl Hh Hu. eapply st_upd; [done | exact Hs | exact Hu | by apply paint_off_image | apply paint_out; lia |].
  intros k Hk. apply paint_out. pose proof (Hwin k ltac:(lia)). lia.
Qed.

(** ** The loops *)

Context (mb : memblock).

Lemma pow2_page k : 12 <= k -> forall x, (x * 2 ^ k) mod 4096 = 0.
Proof.
  intros Hk x. replace (x * 2 ^ k) with (x * 2 ^ (k - 12) * 4096); [apply Z_mod_mult |].
  rewrite <- Z.mul_assoc. f_equal. change 4096 with (2 ^ 12). rewrite <- Z.pow_add_r by lia. f_equal. lia.
Qed.

Lemma slot_pow2 k x q : 0 <= k -> x / 2 ^ k = q <-> q * 2 ^ k <= x < (q + 1) * 2 ^ k.
Proof.
  intros Hk. assert (0 < 2 ^ k) by (apply Z.pow_pos_nonneg; lia). split.
  - intros <-. pose proof (Z.div_mod x (2 ^ k) ltac:(lia)). pose proof (Z.mod_pos_bound x (2 ^ k) ltac:(lia)). lia.
  - intros Hx. symmetry. apply (Z.div_unique_pos _ _ _ (x - q * 2 ^ k)); lia.
Qed.

(** One turn: a part of the range in one piece of [2 ^ k] bytes. *)
Definition turn_ok (n : nat) (w c P k : Z) (step : fix_st -> Z -> Z -> Z -> Z -> outcome fix_st) : Prop :=
  forall m lo hi phys, st n w c m -> LO <= lo -> hi <= HI -> ready m lo hi phys ->
    (forall v, lo <= v < hi -> v / lsize (S n) = P) -> (hi - 1) / 2 ^ k = lo / 2 ^ k ->
    exists m', step (FixSt m mb) (w * 4096 + 8 * lindex n lo) lo hi phys = Done (FixSt m' mb)
      /\ upd T m m' (paint prot lo hi phys).

Definition adv_ok (n : nat) (P k : Z) (adv : Z -> Z -> Z) : Prop :=
  forall lo, lo / lsize (S n) = P -> let nxt := (lo / 2 ^ k + 1) * 2 ^ k in nxt / lsize (S n) = P ->
    8 * lindex n lo + adv lo nxt = 8 * lindex n nxt.

Lemma map_loop_ok n w c P k adv step : (n <= 3)%nat -> wfree n w -> 12 <= k < 64 -> adv_ok n P k adv -> turn_ok n w c P k step ->
  forall fuel m lo hi phys, st n w c m -> LO <= lo -> hi <= HI -> ready m lo hi phys ->
    (forall v, lo <= v < hi -> v / lsize (S n) = P) -> (hi - 1) / 2 ^ k - lo / 2 ^ k < Z.of_nat fuel ->
    exists m', map_loop fuel (2 ^ k) adv step (FixSt m mb) (w * 4096 + 8 * lindex n lo) lo hi phys = Done (FixSt m' mb)
      /\ upd T m m' (paint prot lo hi phys).
Proof.
  intros Hn Hw Hk Hadv Hstep. assert (Hpos : 0 < 2 ^ k) by (apply Z.pow_pos_nonneg; lia).
  induction fuel as [|fuel IH]; intros m lo hi phys Hst Hl Hh Hr Hsl Hf.
  all: pose proof Hr as [[R1 [R2 R2']] (R3 & R4 & R5) [R6 R7] R8 R9 R10].
  { assert (lo / 2 ^ k <= (hi - 1) / 2 ^ k) by (apply Z.div_le_mono; lia). lia. }
  cbn [map_loop]. rewrite addr_end_min by lia. set (nxt := (lo / 2 ^ k + 1) * 2 ^ k).
  pose proof (proj1 (slot_pow2 k lo _ ltac:(lia)) eq_refl) as Hlo. fold nxt in Hlo.
  destruct (Z.lt_ge_cases nxt hi) as [Hlt | Hge].
  - rewrite Z.min_l by lia.
    assert (Hnm : nxt mod 4096 = 0) by (apply pow2_page; lia).
    destruct (Hstep m lo nxt phys Hst Hl ltac:(lia)) as (m1 & -> & U1).
    { eapply ready_left; [exact Hr | lia | done]. }
    { intros v Hv. apply Hsl. lia. }
    { apply slot_pow2; [lia | fold nxt; lia]. }
    cbn [obind]. rewrite (proj2 (Z.eqb_neq nxt hi)) by lia. rewrite (u64_small (nxt - lo)), (u64_small (phys + _)) by lia.
    pose proof (Hadv lo (Hsl lo ltac:(lia)) (Hsl nxt ltac:(lia))) as Ha. cbn zeta in Ha. fold nxt in Ha.
    replace (w * 4096 + 8 * lindex n lo + adv lo nxt) with (w * 4096 + 8 * lindex n nxt) by lia.
    assert (Hq : nxt / 2 ^ k = lo / 2 ^ k + 1) by (apply Z.div_mul; lia).
    destruct (IH m1 nxt hi (phys + (nxt - lo))) as (m2 & -> & U2); [| lia | done | | | lia |].
    { eapply st_paint; [done | exact Hst | done | exact Hl | | exact U1]. lia. }
    { eapply ready_right; [exact Hr | lia | done | exact U1]. }
    { intros v Hv. apply Hsl. lia. }
    exists m2. split; [done |]. eapply upd_ext; [eapply upd_trans; [exact U1 | exact U2] | |].
    + intros x q i Hx Hi. by rewrite paint_join by lia.
    + by apply paint_ok.
  - rewrite Z.min_r by lia. destruct (Hstep m lo hi phys Hst Hl Hh Hr Hsl) as (m1 & -> & U1).
    { apply slot_pow2; [lia | fold nxt; lia]. }
    cbn [obind]. rewrite Z.eqb_refl. by exists m1.
Qed.

(** Turns of a table of level [n]: at most one per entry. *)
Lemma table_rounds n P k lo hi : lshift n <= k -> 0 <= lo < hi -> (forall v, lo <= v < hi -> v / lsize (S n) = P) ->
  (hi - 1) / 2 ^ k - lo / 2 ^ k < Z.of_nat TABLE_FUEL.
Proof.
  intros Hk Hlo Hsl. assert (Hkp : 0 <= k) by (unfold lshift in Hk; lia).
  assert (Hpos : 0 < 2 ^ k) by (apply Z.pow_pos_nonneg; lia). change (Z.of_nat TABLE_FUEL) with 513.
  pose proof (proj1 (div_slot (S n) _ _) (Hsl lo ltac:(lia))) as H1.
  pose proof (proj1 (div_slot (S n) _ _) (Hsl (hi - 1) ltac:(lia))) as H2. rewrite lsize_S in H1, H2.
  assert (Hle : lsize n <= 2 ^ k) by (unfold lsize; apply Z.pow_le_mono_r; lia). pose proof (lsize_pos n).
  pose proof (proj1 (slot_pow2 k lo _ Hkp) eq_refl) as H3.
  assert ((hi - 1) / 2 ^ k < lo / 2 ^ k + 1 + 512); [| lia]. apply Z.div_lt_upper_bound; [done |]. nia.
Qed.

Lemma by_index_ok n P k : adv_ok n P k (by_index (lshift n)).
Proof. intros lo _ nxt _. unfold by_index. rewrite !pxd_index_val. lia. Qed.

Lemma one_entry_ok n P : adv_ok n P (lshift n) one_entry.
Proof.
  intros lo Hlo nxt Hn. unfold one_entry. change (2 ^ lshift n) with (lsize n) in *. pose proof (slot_split n lo) as H1.
  pose proof (slot_split n nxt) as H2. rewrite Hlo in H1. rewrite Hn in H2.
  assert (nxt / lsize n = lo / lsize n + 1) by (apply Z.div_mul; pose proof (lsize_pos n); lia). lia.
Qed.

(** ** Pages *)

Lemma cont_prot_none size addr next phys : cont_prot size NO_CONT_MAPPINGS addr next phys prot = prot.
Proof. unfold cont_prot. change (Z.land NO_CONT_MAPPINGS NO_CONT_MAPPINGS =? 0) with false. by rewrite andb_false_r. Qed.

Lemma paint_one m c P lo phys : T !! c = Some (0%nat, P) -> kspace G T m -> lo mod 4096 = 0 -> lo / lsize 1 = P ->
  phys mod 4096 = 0 -> 0 <= phys -> phys + 4096 <= 2 ^ 48 ->
  upd T m (wr m (c + 8 * lindex 0 lo) (Z.lor phys prot)) (paint prot lo (lo + 4096) phys).
Proof.
  intros Hc Hk Hm HP Hp H0 H1. pose proof (lindex_range 0 lo) as Hi. pose proof (slot_split 0 lo) as Hs. rewrite HP in Hs.
  change (lsize 0) with 4096 in Hs. pose proof (Z.div_mod lo 4096 ltac:(lia)) as Hd.
  destruct (page_val G phys prot attr 0 Hprot Hattr Hp ltac:(lia)) as [He _].
  eapply upd_ext; [by eapply upd_store | |].
  - intros x q i _ Hi'. f_equal. unfold one. destruct (Z.eqb_spec (q * 512 + i) (P * 512 + lindex 0 lo)) as [E | E].
    + rewrite paint_in by lia. do 2 f_equal. lia.
    + rewrite paint_out by lia. done.
  - apply paint_ok; lia.
Qed.

Lemma init_pte_ok w c P : T !! c = Some (0%nat, P) -> wfree 0 w ->
  forall fuel m lo hi phys, st 0 w c m -> LO <= lo -> hi <= HI -> ready m lo hi phys ->
    (forall v, lo <= v < hi -> v / lsize 1 = P) -> hi - lo <= 4096 * Z.of_nat fuel ->
    exists m', init_pte G fuel (FixSt m mb) (w * 4096 + 8 * lindex 0 lo) lo hi phys prot = Done (FixSt m' mb)
      /\ upd T m m' (paint prot lo hi phys).
Proof.
  intros Hc Hw. induction fuel as [|fuel IH]; intros m lo hi phys Hst Hl Hh Hr Hsl Hf.
  all: pose proof Hr as [[R1 [R2 R2']] (R3 & R4 & R5) [R6 R7] R8 R9 R10].
  { lia. }
  pose proof (Z.div_mod lo 4096 ltac:(lia)) as Hd. pose proof (Z.div_mod hi 4096 ltac:(lia)) as Hd2.
  pose proof (lindex_range 0 lo) as Hi. pose proof (slot_split 0 lo) as Hs. rewrite (Hsl lo ltac:(lia)) in Hs. change (lsize 0) with 4096 in Hs.
  cbn [init_pte]. unfold fload, fstore. cbn [fx_mem fx_mb].
  rewrite (load_at G m _ _ (st_ptr _ _ _ _ Hst _ Hi)). cbn [obind]. rewrite (store_at G m _ _ _ (st_ptr _ _ _ _ Hst _ Hi)). cbn [obind fx_mem].
  rewrite pfn_page by (done || lia).
  pose proof (paint_one m c P lo phys Hc (fm_space _ _ _ (st_fix _ _ _ _ Hst)) R3 (Hsl lo ltac:(lia)) R5 R6 ltac:(lia)) as U1.
  set (m1 := wr m _ _) in *.
  assert (Hst1 : st 0 w c m1) by (eapply st_paint; [lia | exact Hst | done | exact Hl | | exact U1]; lia).
  rewrite (load_at G m1 _ _ (st_ptr _ _ _ _ Hst1 _ Hi)). cbn [obind]. unfold m1 at 1. rewrite rd_wr_eq.
  pose proof (R9 c P (lindex 0 lo) Hc Hi ltac:(lia)) as Hsafe.
  replace (phys + ((P * 512 + lindex 0 lo) * 4096 - lo)) with phys in Hsafe by lia. rewrite Hsafe. cbn [negb].
  change PAGE_SIZE with 4096. rewrite (u64_small (lo + 4096)) by lia.
  destruct (Z.eqb_spec (lo + 4096) hi) as [E | E]; [rewrite E in U1; by exists m1 |].
  rewrite (u64_small (phys + 4096)) by lia.
  assert (Hm4 : (lo + 4096) mod 4096 = 0) by (replace (lo + 4096) with ((lo / 4096 + 1) * 4096) by lia; apply Z_mod_mult).
  pose proof (slot_split 0 (lo + 4096)) as Hs2. rewrite (Hsl (lo + 4096) ltac:(lia)) in Hs2. change (lsize 0) with 4096 in Hs2.
  assert (Hd4 : (lo + 4096) / 4096 = lo / 4096 + 1) by (rewrite <- (Z.mul_1_l 4096) at 1; by rewrite Z_div_plus_full by lia).
  replace (w * 4096 + 8 * lindex 0 lo + 8) with (w * 4096 + 8 * lindex 0 (lo + 4096)) by lia.
  destruct (IH m1 (lo + 4096) hi (phys + 4096)) as (m2 & -> & U2); [done | lia | done | | intros v Hv; apply Hsl; lia | lia |].
  { replace (phys + 4096) with (phys + (lo + 4096 - lo)) by lia. eapply ready_right; [exact Hr | lia | done | exact U1]. }
  exists m2. split; [done |]. eapply upd_ext; [eapply upd_trans; [exact U1 | exact U2] | |].
  - intros x q i Hx Hi'. replace (phys + 4096) with (phys + (lo + 4096 - lo)) by lia. by rewrite paint_join by lia.
  - by apply paint_ok.
Qed.

(** ** One level *)

Definition level_ok (n : nat) (g : fix_st -> Z -> Z -> Z -> Z -> outcome fix_st) : Prop :=
  forall w b P m lo hi phys, st (S n) w b m -> wfree (S n) w -> T !! b = Some (S n, P) -> LO <= lo -> hi <= HI ->
    ready m lo hi phys -> (forall v, lo <= v < hi -> v / lsize (S n) = P * 512 + lindex (S n) lo) ->
    exists m', g (FixSt m mb) (w * 4096 + 8 * lindex (S n) lo) lo hi phys = Done (FixSt m' mb)
      /\ upd T m m' (paint prot lo hi phys).

Lemma win_ne n k : (k < n)%nat -> fix_page (win k) <> fix_page (win n).
Proof. intros Hk. rewrite !win_page. lia. Qed.

Lemma level_free n : (n <= 2)%nat -> wfree n (fix_page (win n)).
Proof. intros Hn. split; [by apply Hwin | intros k Hk; by apply win_ne]. Qed.

Section Level.
Context (n : nat) (w b P : Z) (m : mem) (lo hi phys : Z).
Context (Hn : (n <= 2)%nat) (Hst : st (S n) w b m) (Hw : wfree (S n) w) (Hb : T !! b = Some (S n, P)).
Context (Hsl : lo / lsize (S n) = P * 512 + lindex (S n) lo).
Context (k0 : nat) (y0 : Z) (Hk0 : (k0 <= n)%nat) (Hy0 : T !! y0 = Some (k0, lo / lsize (S k0))).
Let x := w * 4096 + 8 * lindex (S n) lo.
Let e := rd m (b + 8 * lindex (S n) lo).
Let c := desc_addr 0 e.

(** The entry links the table of the level. *)
Lemma level_entry : fload G (FixSt m mb) x = Done e /\ Z.testbit e 0 = true /\ Z.testbit e 1 = true
  /\ T !! c = Some (n, P * 512 + lindex (S n) lo) /\ __pte_to_phys e = c.
Proof.
  pose proof (lindex_range (S n) lo) as Hi. pose proof (ks_tree _ _ _ (fm_space _ _ _ (st_fix _ _ _ _ Hst))) as Ht.
  assert (HP : P = lo / lsize (S (S n))) by (pose proof (slot_split (S n) lo) as H; rewrite Hsl in H; lia).
  assert (Hbl : T !! b = Some (S n, lo / lsize (S (S n)))) by (by rewrite <- HP).
  destruct (link_above T (rd m) lo k0 y0 Ht Hy0 (S n) b ltac:(lia) Hbl) as (E0 & E1 & _). fold e in E0, E1.
  destruct (pt_child _ _ Ht _ _ _ _ Hb Hi E0 E1) as [C1 C2]. fold e in C1, C2. fold c in C1, C2.
  split; [| done]. unfold fload. cbn [fx_mem]. exact (load_at G m _ _ (st_ptr _ _ _ _ Hst _ Hi)).
Qed.

Lemma level_open flags : exists m1, next_table G (FixSt m mb) x e (win n) (lshift n) lo flags
    = Done (fix_page (win n) * 4096 + 8 * lindex n lo, FixSt m1 mb)
  /\ st n (fix_page (win n)) c m1 /\ upd T m m1 (one (fix_page (win n)) (Z.lor c (PAGE_KERNEL G))).
Proof.
  destruct level_entry as (Hld & E0 & E1 & Hc & Hp). destruct (link_type e E0 E1) as (_ & Hnz & _).
  destruct (open_window m mb n c _ (lindex n lo) (st_fix _ _ _ _ Hst) Hn Hc (lindex_range n lo)) as (m1 & E & HF & Hu & Hat).
  exists m1. split; [| split; [| done]].
  - unfold next_table. rewrite Hnz, Hld. cbn [obind]. by rewrite Hp, pxd_index_val.
  - split; [done | | exact Hat]. intros k Hk. rewrite (fix_get_upd m m1 _ k (st_fix _ _ _ _ Hst) ltac:(lia) Hu).
    unfold one. rewrite (proj2 (Z.eqb_neq _ _)) by (by apply win_ne). apply (st_closed _ _ _ _ Hst). lia.
Qed.

Lemma level_close m1 m2 : LO <= lo -> hi <= HI -> ready m lo hi phys -> upd T m m1 (one (fix_page (win n)) (Z.lor c (PAGE_KERNEL G))) -> fixmapped G T m2 ->
  upd T m1 m2 (paint prot lo hi phys) ->
  exists m3, fclear G (FixSt m2 mb) (win n) = Done (FixSt m3 mb) /\ upd T m m3 (paint prot lo hi phys).
Proof.
  intros Hl Hh Hr U1 HF2 U2. destruct (close_window m2 mb n HF2 Hn) as (m3 & E & U3). exists m3. split; [done |].
  pose proof Hr as [[R1 [R2 R2']] (R3 & R4 & R5) [R6 R7] _ _ _].
  eapply upd_ext; [eapply upd_trans; [eapply upd_trans; [exact U1 | exact U2] | exact U3] | |].
  - intros y q i Hy Hi. unfold join, one. set (s := q * 512 + i).
    destruct (Z.eqb_spec s (fix_page (win n))) as [E' | E'].
    + rewrite paint_out by (pose proof (Hwin n Hn); rewrite E'; lia). cbn [default].
      pose proof (st_closed _ _ _ _ Hst n ltac:(lia)) as Hz. unfold fix_get in Hz.
      destruct (fix_entry G (win n) (win_range n Hn)) as (Ht & Hj & Hs & _). rewrite <- Hs in E'. unfold s in E'.
      assert (q = FIX_PMD0 + (fix_page (win n) / 512 - FIX_PMD0) /\ i = fix_page (win n) mod 512) as [-> ->] by lia.
      rewrite (pt_inj _ _ (ks_tree _ _ _ (fm_space _ _ _ (st_fix _ _ _ _ Hst))) _ _ _ Hy (fm_table _ _ _ (st_fix _ _ _ _ Hst) _ Ht)). done.
    + by destruct (paint prot lo hi phys s).
  - by apply paint_ok.
Qed.
End Level.

(** ** The levels *)

Lemma land_zero_or a b k : 0 <= k -> Z.land (Z.lor a b) (2 ^ k - 1) = 0 -> a mod 2 ^ k = 0 /\ b mod 2 ^ k = 0.
Proof.
  intros Hk H. replace (2 ^ k - 1) with (Z.ones k) in H by (rewrite Z.ones_equiv; lia). rewrite <- !Z.land_ones by lia.
  split; apply Z.bits_inj'; intros i Hi; rewrite Z.bits_0; pose proof (f_equal (fun z => Z.testbit z i) H) as Hb;
    cbn beta in Hb; rewrite Z.land_spec, Z.lor_spec, Z.bits_0 in Hb; rewrite Z.land_spec;
    destruct (Z.testbit a i), (Z.testbit b i), (Z.testbit (Z.ones k) i); done.
Qed.

(** No block is used. *)
Lemma no_block k flags m lo hi phys : 21 <= k < 64 -> ready m lo hi phys -> use_block (2 ^ k) flags lo hi phys = false.
Proof.
  intros Hk [[R1 _] _ _ _ _ R10]. unfold use_block. apply andb_false_iff. left. apply Z.eqb_neq. intros H.
  apply land_zero_or in H as [H Hp]; [| lia]. assert (H' : Z.land (Z.lor lo hi) (2 ^ k - 1) = 0).
  { replace (2 ^ k - 1) with (Z.ones k) by (rewrite Z.ones_equiv; lia). by rewrite Z.land_ones by lia. }
  apply land_zero_or in H' as [Hl Hh]; [| lia].
  assert (Hd : 2 ^ k = 2 ^ (k - 21) * 2 ^ 21) by (rewrite <- Z.pow_add_r by lia; f_equal; lia).
  assert (Hpos : 0 < 2 ^ (k - 21)) by (apply Z.pow_pos_nonneg; lia).
  pose proof (Z.div_mod lo (2 ^ k) ltac:(lia)) as D1. pose proof (Z.div_mod hi (2 ^ k) ltac:(lia)) as D2.
  pose proof (Z.div_mod phys (2 ^ k) ltac:(lia)) as D3. rewrite Hl in D1. rewrite Hh in D2. rewrite Hp in D3.
  assert (lo / 2 ^ k < hi / 2 ^ k) by nia. rewrite Hd in *.
  apply (R10 (lo / (2 ^ (k - 21) * 2 ^ 21) * 2 ^ (k - 21))); [lia | nia |].
  rewrite Z.add_comm. replace (_ - lo) with 0 by lia. rewrite D3 at 1.
  replace (0 + (2 ^ (k - 21) * 2 ^ 21 * (phys / (2 ^ (k - 21) * 2 ^ 21)) + 0))
    with (2 ^ (k - 21) * (phys / (2 ^ (k - 21) * 2 ^ 21)) * 2 ^ 21) by lia. apply Z_mod_mult.
Qed.

Abbreviation flags := NO_CONT_MAPPINGS.

(** A function of a level gives a turn of the loop above it. *)
Lemma turn_of_level n g w c P : level_ok n g -> T !! c = Some (S n, P) -> wfree (S n) w -> turn_ok (S n) w c P (lshift (S n)) g.
Proof.
  intros Hg Hc Hw m lo hi phys Hst Hl Hh Hr Hsl Hk. pose proof Hr as [[R1 _] _ _ _ _ _].
  apply (Hg w c P m lo hi phys); try done. intros v Hv. change (2 ^ lshift (S n)) with (lsize (S n)) in Hk.
  pose proof (slot_split (S n) lo) as Hs. rewrite (Hsl lo ltac:(lia)) in Hs. rewrite <- Hs.
  assert (lo / lsize (S n) <= v / lsize (S n) <= (hi - 1) / lsize (S n)) by (split; apply Z.div_le_mono; pose proof (lsize_pos (S n)); lia). lia.
Qed.

(** Opening the page of a level does not change the range. *)
Lemma ready_open n m m1 lo hi phys v : (n <= 2)%nat -> LO <= lo -> hi <= HI -> ready m lo hi phys ->
  upd T m m1 (one (fix_page (win n)) v) -> ready m1 lo hi phys.
Proof.
  intros Hn Hl Hh [R1 R2 R3 R4 R5 R6] U1. split; try done. intros y q i Hy Hi Hin. rewrite (up_pte _ _ _ _ U1 y q i Hy Hi).
  unfold one. rewrite (proj2 (Z.eqb_neq _ _)); [by apply R5 |]. intros E. pose proof (Hwin n Hn) as H. rewrite <- E in H. lia.
Qed.

(** The part the functions of the levels share. *)
Lemma level_run n k adv step w b P m lo hi phys : (n <= 2)%nat -> lshift n <= k < 64 ->
  (forall c Q, T !! c = Some (n, Q) -> turn_ok n (fix_page (win n)) c Q k step /\ adv_ok n Q k adv) ->
  st (S n) w b m -> T !! b = Some (S n, P) -> LO <= lo -> hi <= HI -> ready m lo hi phys ->
  (forall v, lo <= v < hi -> v / lsize (S n) = P * 512 + lindex (S n) lo) ->
  let x := w * 4096 + 8 * lindex (S n) lo in
  exists e m', fload G (FixSt m mb) x = Done e /\ Z.testbit e 0 = true /\ Z.testbit e 1 = true
    /\ (let! (p, s) := next_table G (FixSt m mb) x e (win n) (lshift n) lo flags in
        let! s := map_loop TABLE_FUEL (2 ^ k) adv step s p lo hi phys in fclear G s (win n)) = Done (FixSt m' mb)
    /\ upd T m m' (paint prot lo hi phys).
Proof.
  intros Hn Hk Hstep Hst Hb Hl Hh Hr Hsl x. pose proof Hr as [[R1 _] _ _ _ _ _].
  destruct (ry_tab _ _ _ _ Hr lo ltac:(lia)) as (y & Hy).
  destruct (level_entry n w b P m lo Hn Hst Hb (Hsl lo ltac:(lia)) 0 y ltac:(lia) Hy) as (Hld & E0 & E1 & Hc & _).
  destruct (level_open n w b P m lo Hn Hst Hb (Hsl lo ltac:(lia)) 0 y ltac:(lia) Hy flags) as (m1 & Eo & Hst1 & U1).
  destruct (Hstep _ _ Hc) as [Hturn Hadv].
  destruct (map_loop_ok n (fix_page (win n)) _ _ k adv step ltac:(lia) (level_free n Hn) ltac:(unfold lshift in Hk; lia) Hadv Hturn
    TABLE_FUEL m1 lo hi phys Hst1 Hl Hh) as (m2 & E2 & U2); [by eapply ready_open | exact Hsl | eapply (table_rounds n); [lia | lia | exact Hsl] |].
  assert (HF2 : fixmapped G T m2).
  { eapply (st_fix n). eapply (st_paint n (fix_page (win n))); [lia | exact Hst1 | by apply level_free | exact Hl | exact Hh | exact U2]. }
  destruct (level_close n w b m lo hi phys Hn Hst 0%nat ltac:(lia) m1 m2 Hl Hh Hr U1 HF2 U2) as (m3 & E3 & U3).
  exists (rd m (b + 8 * lindex (S n) lo)), m3. split; [done |]. split; [done |]. split; [done |]. split; [| done].
  unfold x. rewrite Eo. cbn [obind]. rewrite E2. cbn [obind]. done.
Qed.

Lemma pte_level_maps : level_ok 0 (fun s x lo hi phys => init_cont_pte G s x lo hi phys prot flags).
Proof.
  intros w b P m lo hi phys Hst Hw Hb Hl Hh Hr Hsl.
  destruct (level_run 0 16 (by_index (lshift 0))
    (fun s ptep addr next phys => init_pte G TABLE_FUEL s ptep addr next phys (cont_prot (2 ^ 16) flags addr next phys prot))
    w b P m lo hi phys) as (e & m' & Hld & E0 & E1 & E & U);
    [lia | unfold lshift; lia | | exact Hst | exact Hb | exact Hl | exact Hh | exact Hr | exact Hsl |].
  - intros c Q Hc. split; [| apply by_index_ok]. intros m' lo' hi' phys' Hst' Hl' Hh' Hr' Hsl' Hk'. rewrite cont_prot_none.
    pose proof Hr' as [[R1' _] _ _ _ _ _].
    eapply init_pte_ok; [exact Hc | apply (level_free 0); lia | exact Hst' | done | done | done | done |].
    pose proof (proj1 (slot_pow2 16 lo' _ ltac:(lia)) eq_refl). pose proof (proj1 (slot_pow2 16 (hi' - 1) _ ltac:(lia)) Hk').
    change (Z.of_nat TABLE_FUEL) with 513. lia.
  - exists m'. split; [| done]. destruct (link_type _ E0 E1) as (L1 & _ & L3).
    unfold init_cont_pte. rewrite Hld. cbn [obind]. rewrite L1, L3. exact E.
Qed.

Lemma pmd_turn w c P : T !! c = Some (1%nat, P) -> wfree 1 w -> turn_ok 1 w c P 21 (init_pmd_step G prot flags).
Proof.
  intros Hc Hw m lo hi phys Hst Hl Hh Hr Hsl Hk. pose proof (lindex_range 1 lo) as Hi.
  destruct (turn_of_level 0 _ w c P pte_level_maps Hc Hw m lo hi phys Hst Hl Hh Hr Hsl Hk) as (m' & E & U).
  assert (Hst' : st 1 w c m') by (eapply st_paint; [lia | exact Hst | done | exact Hl | exact Hh | exact U]).
  exists m'. split; [| done]. unfold init_pmd_step, fload. cbn [fx_mem]. rewrite (load_at G m _ _ (st_ptr _ _ _ _ Hst _ Hi)). cbn [obind].
  rewrite (no_block 21 _ m) by (done || lia). rewrite E. cbn [obind fx_mem]. rewrite (load_at G m' _ _ (st_ptr _ _ _ _ Hst' _ Hi)). cbn [obind].
  rewrite (up_dir _ _ _ _ U _ _ _ _ Hc Hi), Z.eqb_refl. by rewrite andb_false_r.
Qed.

Lemma pmd_level_maps : level_ok 1 (fun s x lo hi phys => init_cont_pmd G s x lo hi phys prot flags).
Proof.
  intros w b P m lo hi phys Hst Hw Hb Hl Hh Hr Hsl.
  destruct (level_run 1 25 (by_index (lshift 1))
    (fun s pmdp addr next phys => init_pmd G s pmdp addr next phys (cont_prot (2 ^ 25) flags addr next phys prot) flags)
    w b P m lo hi phys) as (e & m' & Hld & E0 & E1 & E & U);
    [lia | unfold lshift; lia | | exact Hst | exact Hb | exact Hl | exact Hh | exact Hr | exact Hsl |].
  - intros c Q Hc. split; [| apply by_index_ok]. intros m' lo' hi' phys' Hst' Hl' Hh' Hr' Hsl' Hk'. rewrite cont_prot_none.
    pose proof Hr' as [[R1' _] _ _ _ _ _]. assert (Hwf : wfree 1 (fix_page (win 1))) by (apply level_free; lia).
    apply (map_loop_ok 1 (fix_page (win 1)) c Q 21 one_entry (init_pmd_step G prot flags));
      [lia | exact Hwf | lia | apply (one_entry_ok 1) | by apply pmd_turn | exact Hst' | exact Hl' | exact Hh' | exact Hr' | exact Hsl' |].
    eapply (table_rounds 1); [unfold lshift; lia | lia | exact Hsl'].
  - exists m'. split; [| done]. unfold init_cont_pmd. rewrite Hld. exact E.
Qed.

Lemma pud_level_maps : level_ok 2 (fun s x lo hi phys => init_pud G s x lo hi phys prot flags).
Proof.
  intros w b P m lo hi phys Hst Hw Hb Hl Hh Hr Hsl.
  destruct (level_run 2 30 one_entry (init_pud_step G prot flags)
    w b P m lo hi phys) as (e & m' & Hld & E0 & E1 & E & U);
    [lia | unfold lshift; lia | | exact Hst | exact Hb | exact Hl | exact Hh | exact Hr | exact Hsl |].
  - intros c Q Hc. split; [| apply (one_entry_ok 2)]. intros m' lo' hi' phys' Hst' Hl' Hh' Hr' Hsl' Hk'.
    unfold init_pud_step. rewrite (no_block 30 _ m') by (done || lia).
    exact (turn_of_level 1 _ (fix_page (win 2)) c Q pmd_level_maps Hc (level_free 2 ltac:(lia)) m' lo' hi' phys' Hst' Hl' Hh' Hr' Hsl' Hk').
  - exists m'. split; [| done]. unfold init_pud. rewrite Hld. exact E.
Qed.
End Range.
End Map.
