(* ===== verification/FixmapDemo.v ===== *)
(** * An image with its tables

    The image of eight pages at the start of its part of the address space:
    the directory and the tables of the fixed map, and the four tables that
    map it; a device tree blob lies above. *)

From S2P Require Import Prelude PageTable PageTableMap PtTree Pte BootMap Memblock Fixmap FixmapSpec FixmapInit.

Definition VB : Z := 2 ^ 64 - 2 ^ 47.
Definition PB : Z := 0x40000000.
Definition im_syms : fix_syms := FixSyms (VB - PB) false VB (VB + 0x3000) (VB + 0x2000) (VB + 0x1000).
Definition im_slot : Z := 0xffff * 512 + 256.
Definition im_page (t : Z) : Z := Z.lor (PB + 4096 * t) (PROT_NORMAL false).

Definition im_list : list (Z * (nat * Z)) :=
  [(PB, (3%nat, 0xffff)); (PB + 0x10000, (2%nat, im_slot)); (PB + 0x11000, (1%nat, im_slot * 512));
   (PB + 0x12000, (0%nat, im_slot * 512 * 512))].
Definition im_tables : tables := list_to_map im_list.

Definition im_entries : list (Z * Z) :=
  [(PB + 8 * 256, PB + 0x10003); (PB + 0x10000, PB + 0x11003); (PB + 0x11000, PB + 0x12003)]
  ++ [(0x48000000, 0x34120000edfe0dd0)] ++ ((fun t => (PB + 0x12000 + 8 * Z.of_nat t, im_page (Z.of_nat t))) <$> seq 0 8).
Definition im_mem : mem := list_to_map im_entries.

Lemma im_lookup b x : im_tables !! b = Some x -> (b, x) ∈ im_list.
Proof. apply elem_of_list_to_map_2. Qed.

Lemma im_rd a : rd im_mem a = 0 \/ (a, rd im_mem a) ∈ im_entries.
Proof.
  unfold rd. destruct (im_mem !! a) as [e|] eqn:E; [right | by left]. cbn [default]. by apply elem_of_list_to_map_2 in E.
Qed.

(** Facts of every entry of every table, by computation. *)
Definition im_good (b : Z) (x : nat * Z) (a e : Z) : bool :=
  let '(k, p) := x in
  negb ((b <=? a) && (a <? b + 4096))
  || Z.testbit e 0 && (((a - b) mod 8 =? 0)
     && match k with
        | S k => bool_decide (im_tables !! desc_addr 0 e = Some (k, p * 512 + (a - b) / 8)) && (__pte_to_phys e =? desc_addr 0 e)
        | O => true
        end).

Lemma im_goods : forallb (fun '(b, x) => forallb (fun '(a, e) => im_good b x a e) im_entries) im_list = true.
Proof. vm_compute. reflexivity. Qed.

Lemma im_entry b k p i : im_tables !! b = Some (k, p) -> 0 <= i < 512 ->
  rd im_mem (b + 8 * i) = 0 \/ im_good b (k, p) (b + 8 * i) (rd im_mem (b + 8 * i)) = true.
Proof.
  intros Hb Hi. destruct (im_rd (b + 8 * i)) as [Hz | He]; [by left | right]. apply im_lookup in Hb.
  pose proof im_goods as H. rewrite forallb_forall in H. apply list_elem_of_In, H in Hb. rewrite forallb_forall in Hb.
  apply list_elem_of_In, Hb in He. exact He.
Qed.

Lemma im_good_parts b k p i e : 0 <= i < 512 -> im_good b (k, p) (b + 8 * i) e = true ->
  Z.testbit e 0 = true
  /\ forall k', k = S k' -> im_tables !! desc_addr 0 e = Some (k', p * 512 + i) /\ __pte_to_phys e = desc_addr 0 e.
Proof.
  intros Hi. unfold im_good. rewrite (proj2 (Z.leb_le _ _)), (proj2 (Z.ltb_lt _ _)) by lia. cbn [andb negb orb].
  replace (b + 8 * i - b) with (i * 8) by lia. rewrite Z.div_mul by lia. intros H. apply andb_true_iff in H as [H0 H1].
  apply andb_true_iff in H1 as [_ H1]. split; [done |]. intros k' ->. apply andb_true_iff in H1 as [H1 H2].
  apply bool_decide_eq_true in H1. apply Z.eqb_eq in H2. done.
Qed.

Ltac im_cases H :=
  unfold im_list in H; repeat (apply elem_of_cons in H as [H | H]; [injection H; clear H; intros; subst |]); try (by apply not_elem_of_nil in H).

Lemma im_link b k q : im_tables !! b = Some (k, q) -> (k < 3)%nat ->
  exists b' p i, im_tables !! b' = Some (S k, p) /\ 0 <= i < 512 /\ q = p * 512 + i
    /\ Z.testbit (rd im_mem (b' + 8 * i)) 0 = true /\ Z.testbit (rd im_mem (b' + 8 * i)) 1 = true
    /\ desc_addr 0 (rd im_mem (b' + 8 * i)) = b.
Proof.
  intros Hb Hk. apply im_lookup in Hb. im_cases Hb; [lia | exists PB, 0xffff, 256 | exists (PB + 0x10000), im_slot, 0
    | exists (PB + 0x11000), (im_slot * 512), 0]; split_and!; try lia; vm_compute; reflexivity.
Qed.

Lemma im_tree : ptree im_tables (rd im_mem).
Proof.
  split.
  - intros b k p Hb. apply im_lookup in Hb. im_cases Hb; vm_compute; done.
  - intros b1 b2 x H1 H2. apply im_lookup in H1, H2. im_cases H1; im_cases H2; done.
  - intros b k p i Hb Hi E0. destruct (im_entry b k p i Hb Hi) as [Hz | He]; [exact Hz |].
    apply im_good_parts in He as [He _]; [congruence | done].
  - intros b k p i Hb Hi E0 _. destruct (im_entry b _ p i Hb Hi) as [Hz | He]; [rewrite Hz, Z.bits_0 in E0; discriminate E0 |].
    apply im_good_parts in He as [_ He]; [by apply He | done].
  - exact im_link.
Qed.

Lemma im_kspace : kspace im_syms im_tables im_mem.
Proof.
  split; [exact im_tree | | reflexivity]. intros c k q Hc. apply im_lookup in Hc. im_cases Hc; lia.
Qed.

(** ** The pages of the image *)

Lemma im_pages x : x ∈ swapper_pg_dir im_syms :: bm_pages im_syms -> exists t, 0 <= t < 8 /\ x = VB + 4096 * t.
Proof.
  intros Hx. assert (E : swapper_pg_dir im_syms :: bm_pages im_syms = (fun t => VB + 4096 * Z.of_nat t) <$> seq 0 8) by (vm_compute; reflexivity).
  rewrite E in Hx. apply list_elem_of_fmap in Hx as (n & -> & Hn). apply elem_of_seq in Hn. exists (Z.of_nat n). split; [lia | done].
Qed.

Lemma im_phys t : 0 <= t < 8 -> virt_to_kimg_phys im_syms (VB + 4096 * t) = PB + 4096 * t.
Proof. intros Ht. unfold virt_to_kimg_phys. cbn [kimage_voffset im_syms]. rewrite u64_small; unfold PB; lia. Qed.

Lemma im_at t a : 0 <= t < 8 -> 0 <= a < 4096 -> a mod 8 = 0 -> at_phys im_syms im_mem (VB + 4096 * t + a) (PB + 4096 * t + a).
Proof.
  intros Ht Ha H8. set (v := VB + 4096 * t + a). assert (Hv : VB <= v < VB + 0x8000) by (unfold v; lia).
  assert (Hka : kaddr v) by (unfold kaddr; symmetry; apply (Z.div_unique_pos _ _ _ (v - 0xffff * 2 ^ 48)); unfold VB in *; lia).
  assert (Hs : v / lsize 1 = im_slot * 512 * 512).
  { symmetry. apply (Z.div_unique_pos _ _ _ (v - VB)); [change (lsize 1) with (2 ^ 21); lia |]. change (lsize 1) with (2 ^ 21). unfold VB, im_slot. lia. }
  assert (Hq : v / 4096 = 4503565267632128 + t) by (symmetry; apply (Z.div_unique_pos _ _ _ a); unfold v, VB; lia).
  assert (Hm : v mod 4096 = a) by (symmetry; apply (Z.mod_unique_pos _ _ (4503565267632128 + t)); unfold v, VB; lia).
  assert (Hi : lindex 0 v = t).
  { unfold lindex. change (lsize 0) with 4096. rewrite Hq. symmetry. apply (Z.mod_unique_pos _ _ 8796025913344); lia. }
  assert (He : rd im_mem (PB + 0x12000 + 8 * t) = im_page t).
  { assert (t = 0 \/ t = 1 \/ t = 2 \/ t = 3 \/ t = 4 \/ t = 5 \/ t = 6 \/ t = 7) as H by lia.
    destruct H as [-> | [-> | [-> | [-> | [-> | [-> | [-> | ->]]]]]]]; vm_compute; reflexivity. }
  exists (Z.ldiff (PROT_NORMAL false) 3).
  rewrite (kwalk_page im_syms im_tables im_mem v (PB + 0x12000) im_kspace Hka) by (rewrite Hs; reflexivity).
  rewrite Hi, He. unfold im_page.
  destruct (page_val im_syms (PB + 4096 * t) (PROT_NORMAL false) (Z.ldiff (PROT_NORMAL false) 3) v) as [_ ->];
    [reflexivity | reflexivity | unfold PB; by rewrite Z.mul_comm, Z_mod_plus_full | unfold PB; lia |].
  rewrite Hm. split; [done |]. split; [reflexivity |].
  replace (PB + 4096 * t + a) with (a + (512 * t + 0x8000000) * 8) by (unfold PB; lia). by rewrite Z_mod_plus_full.
Qed.

Lemma im_blank_page t : 0 < t < 8 -> blank im_tables im_mem (PB + 4096 * t).
Proof.
  intros Ht. split.
  - assert (t = 1 \/ t = 2 \/ t = 3 \/ t = 4 \/ t = 5 \/ t = 6 \/ t = 7) as H by lia.
    destruct H as [-> | [-> | [-> | [-> | [-> | [-> | ->]]]]]]; vm_compute; reflexivity.
  - unfold PB. split; [by rewrite Z.mul_comm, Z_mod_plus_full | lia].
  - intros j Hj. destruct (im_rd (PB + 4096 * t + 8 * j)) as [Hz | He]; [exact Hz | exfalso].
    assert (H : forallb (fun '(a, _) => (a <? PB + 4096) || (PB + 0x8000 <=? a)) im_entries = true) by (vm_compute; reflexivity).
    rewrite forallb_forall in H. apply list_elem_of_In, H in He. unfold PB in He. lia.
Qed.

Lemma im_image : image_tables im_syms im_tables im_mem.
Proof.
  split.
  - exact im_kspace.
  - intros x a Hx Ha H8. apply im_pages in Hx as (t & Ht & ->). rewrite im_phys by done. by apply im_at.
  - intros x Hx. apply im_pages in Hx as (t & Ht & ->). unfold VB. by rewrite Z.mul_comm, Z_mod_plus_full.
  - intros x Hx. assert (Hx' : x ∈ swapper_pg_dir im_syms :: bm_pages im_syms) by (apply elem_of_cons; by right).
    apply im_pages in Hx' as (t & Ht & ->). rewrite im_phys by done. apply im_blank_page.
    assert (t <> 0); [| lia]. intros ->. revert Hx. vm_compute. intros Hx. repeat (apply elem_of_cons in Hx as [Hx | Hx]; [discriminate Hx |]).
    by apply not_elem_of_nil in Hx.
  - apply (bool_decide_eq_true_1 _). vm_compute. reflexivity.
  - reflexivity.
  - split; vm_compute; done.
Qed.
