(* ===== verification/FixmapTop.v ===== *)
(** * The entry points of the fixed map

    [create_mapping_noalloc] (and [create_mapping_alloc], which is the same
    code) on ranges with and without page tables, the state after set-up, and
    [fixmap_remap_fdt], which maps the device tree. *)

From S2P Require Import Prelude PageTable PageTableMap PtTree Pte BootMap Memblock.
From S2P Require Import Fixmap FixmapSpec FixmapInit FixmapMap FixmapDemo.

(** Attributes [p] may be changed to [q] on a page that stays where it is. *)
Definition may_follow (p q : Z) : Prop :=
  forall pa, pa mod 4096 = 0 -> 0 <= pa < 2 ^ 48 -> pgattr_change_is_safe (Z.lor pa p) (Z.lor pa q) = true.

Definition KEEP_MASK : Z := Z.lor (Z.lor (Z.lor (Z.lor PTE_PXN PTE_RDONLY) PTE_WRITE) PTE_NG) PTE_SWBITS_MASK.

Lemma follow_bits pa p q k : Z.ldiff (Z.lxor p q) k = 0 -> Z.ldiff (Z.lxor (Z.lor pa p) (Z.lor pa q)) k = 0.
Proof.
  intros H. apply Z.bits_inj'. intros i Hi. pose proof (f_equal (fun z => Z.testbit z i) H) as Hb. cbv beta in Hb.
  revert Hb. rewrite !Z.ldiff_spec, !Z.lxor_spec, !Z.lor_spec, !Z.bits_0.
  by destruct (Z.testbit pa i), (Z.testbit p i), (Z.testbit q i), (Z.testbit k i).
Qed.

Lemma may_follow_intro p q : Z.land p PTE_ADDR_LOW = Z.land q PTE_ADDR_LOW -> Z.testbit (Z.lor p q) 52 = false ->
  Z.testbit (Z.ldiff p q) 11 = false -> Z.ldiff (Z.lxor p q) KEEP_MASK = 0 -> may_follow p q.
Proof.
  intros H1 H2 H3 H4 pa Hm Hr. unfold pgattr_change_is_safe. fold KEEP_MASK.
  destruct (negb (pte_valid (Z.lor pa p)) || negb (pte_valid (Z.lor pa q))); [done |].
  assert (pte_pfn (Z.lor pa p) = pte_pfn (Z.lor pa q)) as ->.
  { unfold pte_pfn, __pte_to_phys. by rewrite !Z.land_lor_distr_l, H1. }
  rewrite Z.eqb_refl. cbn [negb]. change PTE_CONT with (2 ^ 52). change PTE_NG with (2 ^ 11). rewrite !has_pow2 by lia.
  assert (Z.testbit (Z.lor (Z.lor pa p) (Z.lor pa q)) 52 = false) as ->.
  { rewrite Z.lor_spec in H2. by rewrite !Z.lor_spec, (testbit_above pa 48) by lia. }
  assert (Z.testbit (Z.ldiff (Z.lor pa p) (Z.lor pa q)) 11 = false) as ->.
  { rewrite Z.ldiff_spec in H3. rewrite Z.ldiff_spec, !Z.lor_spec.
    by rewrite (testbit_multiple 0 pa) by (done || change (lshift 0) with 12; lia). }
  apply Z.eqb_eq, follow_bits. destruct (normal_attr _ && normal_attr _); [| done].
  apply Z.bits_inj'. intros i Hi. pose proof (f_equal (fun z => Z.testbit z i) H4) as Hb. cbv beta in Hb. revert Hb.
  rewrite !Z.ldiff_spec, Z.lor_spec, !Z.bits_0, negb_orb. intros Hb. by rewrite andb_assoc, Hb.
Qed.

Section Top.
Context (G : fix_syms).
Let root := virt_to_kimg_phys G (swapper_pg_dir G).

(** The kernel between two calls: the pages that reach tables are closed and
    the directory can be written at its image address. *)
Record mappable (T : tables) (m : mem) : Prop := {
  mb_fix : fixmapped G T m;
  mb_closed : forall k, (k <= 2)%nat -> fix_get G m (win k) = 0;
  mb_dir : forall j, 0 <= j < 512 -> at_phys G m (swapper_pg_dir G + 8 * j) (root + 8 * j);
  mb_align : bm_pte G mod 4096 = 0 /\ swapper_pg_dir G mod 4096 = 0;
  mb_below : swapper_pg_dir G + 4096 <= FIXADDR_TOT_START;
}.

(** The pages of a range of bytes. *)
Definition pg_lo (virt : Z) : Z := virt / 4096 * 4096.
Definition pg_hi (virt size : Z) : Z := ((virt + size - 1) / 4096 + 1) * 4096.

(** The range does not touch the pages the mapper itself works through. *)
Record outside (lo hi : Z) : Prop := {
  ou_win : hi <= fix_page (win 2) * 4096 \/ (fix_page (win 0) + 1) * 4096 <= lo;
  ou_bm : hi <= bm_pte G \/ bm_pte G + 4096 * FIX_TABLES <= lo;
  ou_dir : hi <= swapper_pg_dir G \/ swapper_pg_dir G + 4096 <= lo;
}.

Lemma outside_win lo hi : outside lo hi -> forall k, (k <= 2)%nat -> ~ (lo <= fix_page (win k) * 4096 < hi).
Proof. intros [H _ _] k Hk. rewrite !win_page in *. lia. Qed.

Lemma outside_bm lo hi : outside lo hi -> bm_pte G mod 4096 = 0 ->
  forall a, 0 <= a < 4096 * FIX_TABLES -> ~ (lo <= (bm_pte G + a) / 4096 * 4096 < hi).
Proof.
  intros [_ H _] Hm a Ha. pose proof (Z.div_mod (bm_pte G) 4096 ltac:(lia)) as D1. rewrite Hm in D1.
  pose proof (Z.div_mod (bm_pte G + a) 4096 ltac:(lia)). pose proof (Z.mod_pos_bound (bm_pte G + a) 4096 ltac:(lia)).
  unfold FIX_TABLES in *. lia.
Qed.

Lemma mappable_state T m : mappable T m -> st G T 3 (swapper_pg_dir G / 4096) root m.
Proof.
  intros [M1 M2 M3 [_ M4] _]. split; [done | intros k Hk; apply M2; lia |]. intros j Hj.
  pose proof (Z.div_mod (swapper_pg_dir G) 4096 ltac:(lia)) as Hd. rewrite M4 in Hd.
  replace (swapper_pg_dir G / 4096 * 4096) with (swapper_pg_dir G) by lia. by apply M3.
Qed.

Lemma dir_free T m lo hi : mappable T m -> outside lo hi -> wfree lo hi 3 (swapper_pg_dir G / 4096).
Proof.
  intros [_ _ _ [_ M4] M5] [_ _ O3]. pose proof (Z.div_mod (swapper_pg_dir G) 4096 ltac:(lia)) as Hd. rewrite M4 in Hd.
  split; [lia |]. intros k Hk E. rewrite win_page in E. change FIXADDR_TOT_START with (4503599627366135 * 4096) in M5. lia.
Qed.

(** After an update of pages outside. *)
Lemma mappable_upd T m m' prot lo hi phys : mappable T m -> outside lo hi -> upd T m m' (paint prot lo hi phys) -> mappable T m'.
Proof.
  intros HM HO HU. pose proof (dir_free T m lo hi HM HO) as Hw. destruct HM as [M1 M2 M3 M4 M5].
  pose proof (st_paint G T prot lo hi (outside_win lo hi HO) (outside_bm lo hi HO (proj1 M4)) 3 (swapper_pg_dir G / 4096) root m m' lo hi phys
    ltac:(lia) (mappable_state T m (Build_mappable T m M1 M2 M3 M4 M5)) Hw ltac:(lia) ltac:(lia) HU) as [S1 S2 S3].
  split; [done | intros k Hk; apply S2; lia | | done | done]. intros j Hj.
  pose proof (Z.div_mod (swapper_pg_dir G) 4096 ltac:(lia)) as Hd. rewrite (proj2 M4) in Hd. specialize (S3 j Hj).
  by replace (swapper_pg_dir G / 4096 * 4096) with (swapper_pg_dir G) in S3 by lia.
Qed.

(** What the arguments must be. *)
Record map_args (phys virt size : Z) : Prop := {
  mg_offset : phys mod 4096 = virt mod 4096;
  mg_phys : 0 <= phys < 2 ^ 48;
  mg_virt : PAGE_OFFSET <= virt;
  mg_size : 0 < size /\ virt + size + 4095 < 2 ^ 64;
}.

Lemma pg_lo_div n virt : pg_lo virt / lsize n = virt / lsize n.
Proof.
  unfold pg_lo. assert (E : lsize n = 4096 * 2 ^ (lshift n - 12)).
  { unfold lsize, lshift. change 4096 with (2 ^ 12). rewrite <- Z.pow_add_r by lia. f_equal. lia. }
  assert (0 < 2 ^ (lshift n - 12)) by (apply Z.pow_pos_nonneg; unfold lshift; lia).
  rewrite E, <- !Z.div_div by lia. by rewrite Z.div_mul by lia.
Qed.

Lemma args_range phys virt size : map_args phys virt size ->
  pg_lo virt <= virt < pg_lo virt + 4096 /\ virt + size <= pg_hi virt size < virt + size + 4096
  /\ pg_hi virt size < 2 ^ 64 /\ kaddr (pg_lo virt).
Proof.
  intros [A1 A2 A3 [A4 A5]]. unfold PAGE_OFFSET in A3. unfold pg_hi, pg_lo in *. pose proof (Z.div_mod virt 4096 ltac:(lia)) as D1.
  pose proof (Z.mod_pos_bound virt 4096 ltac:(lia)). pose proof (Z.div_mod (virt + size - 1) 4096 ltac:(lia)) as D2.
  pose proof (Z.mod_pos_bound (virt + size - 1) 4096 ltac:(lia)). split; [lia |]. split; [lia |]. split; [lia |].
  unfold kaddr. fold (pg_lo virt). change (2 ^ 48) with (lsize 4) at 1. rewrite pg_lo_div. change (lsize 4) with (2 ^ 48).
  symmetry. apply (Z.div_unique_pos _ _ _ (virt - 0xffff * 2 ^ 48)); lia.
Qed.

(** What both theorems about [create_mapping] start with. *)
Lemma create_mapping_loop m mb phys virt size prot : map_args phys virt size ->
  create_mapping G (FixSt m mb) phys virt size prot
  = map_loop TABLE_FUEL (2 ^ 39) one_entry (fun s pgdp addr next phys => init_pud G s pgdp addr next phys prot NO_CONT_MAPPINGS)
      (FixSt m mb) (swapper_pg_dir G + 8 * lindex 3 (pg_lo virt)) (pg_lo virt) (pg_hi virt size) (pg_lo phys).
Proof.
  intros HA. pose proof (args_range phys virt size HA) as (L1 & L2 & L3 & L4). destruct HA as [A1 A2 A3 [A4 A5]].
  unfold create_mapping. rewrite (proj2 (Z.ltb_ge _ _)) by lia. unfold PAGE_OFFSET in A3. unfold __create_pgd_mapping.
  assert (E : Z.land (Z.lxor phys virt) (PAGE_SIZE - 1) = 0).
  { change (PAGE_SIZE - 1) with (Z.ones 12). apply Z.bits_inj'. intros i Hi. rewrite Z.land_spec, Z.lxor_spec, Z.bits_0.
    destruct (Z.lt_ge_cases i 12); [| rewrite Z.ones_spec_high by lia; apply andb_false_r].
    change 4096 with (2 ^ 12) in A1. rewrite <- (Z.mod_pow2_bits_low phys 12 i), <- (Z.mod_pow2_bits_low virt 12 i), A1 by lia.
    by rewrite xorb_nilpotent. }
  rewrite E. cbn [negb Z.eqb]. rewrite !(fun x H => proj1 (page_offset G x H)) by lia. fold (pg_lo phys) (pg_lo virt).
  rewrite (u64_small (virt + size)) by lia. change PGDIR_SHIFT with (lshift 3). rewrite pxd_index_val.
  replace (lindex 3 virt) with (lindex 3 (pg_lo virt)) by (unfold lindex; by rewrite pg_lo_div).
  replace (ALIGN_UP (virt + size) PAGE_SIZE) with (pg_hi virt size); [done |].
  unfold ALIGN_UP. change PAGE_SIZE with 4096. rewrite u64_small by lia. rewrite align_mask_pow2 by (apply is_pow2_PAGE_SIZE || lia).
  unfold pg_hi in *. pose proof (Z.div_mod (virt + size - 1) 4096 ltac:(lia)).
  replace (virt + size + 4096 - 1) with ((virt + size - 1) + 1 * 4096) by lia. rewrite Z_mod_plus_full. lia.
Qed.

Lemma create_mapping_run T m mb phys virt size prot attr : mappable T m -> prot = Z.lor attr 3 -> attr_ok attr ->
  map_args phys virt size -> outside (pg_lo virt) (pg_hi virt size) ->
  ready T prot m (pg_lo virt) (pg_hi virt size) (pg_lo phys) ->
  exists m', create_mapping G (FixSt m mb) phys virt size prot = Done (FixSt m' mb)
    /\ upd T m m' (paint prot (pg_lo virt) (pg_hi virt size) (pg_lo phys)).
Proof.
  intros HM Hp Ha HA HO HR. pose proof (args_range phys virt size HA) as (L1 & L2 & L3 & L4).
  rewrite create_mapping_loop by done. set (lo := pg_lo virt) in *. set (hi := pg_hi virt size) in *.
  assert (Hs : forall v, lo <= v < hi -> v / lsize 4 = 0xffff).
  { intros v Hv. change (lsize 4) with (2 ^ 48). apply (kaddr_between lo); [done | lia]. }
  assert (Ed : swapper_pg_dir G = swapper_pg_dir G / 4096 * 4096).
  { pose proof (Z.div_mod (swapper_pg_dir G) 4096 ltac:(lia)) as Hd. rewrite (proj2 (mb_align _ _ HM)) in Hd. lia. }
  rewrite Ed. pose proof (outside_win lo hi HO) as Hwn. pose proof (outside_bm lo hi HO (proj1 (mb_align _ _ HM))) as Hbm.
  pose proof (ks_root _ _ _ (fm_space _ _ _ (mb_fix _ _ HM))) as Hrt.
  apply (map_loop_ok G T prot attr Hp Ha lo hi Hwn Hbm mb 3 (swapper_pg_dir G / 4096) root 0xffff 39);
    [lia | by eapply dir_free | lia | apply (one_entry_ok 3) | | by apply mappable_state | lia | lia | exact HR | exact Hs |].
  - apply (turn_of_level G T prot lo hi mb 2); [by eapply pud_level_maps | exact Hrt | by eapply dir_free].
  - eapply (table_rounds 3); [unfold lshift; lia | | exact Hs]. destruct HR as [[R _] _ _ _ _ _]. lia.
Qed.

(** The effect on translation. *)
Lemma painted_walk T m m' prot attr lo hi phys : prot = Z.lor attr 3 -> attr_ok attr -> kspace G T m -> kspace G T m' ->
  ready T prot m lo hi phys -> upd T m m' (paint prot lo hi phys) ->
  (forall v, lo <= v < hi -> kwalk G m' v = Some (phys + (v - lo), attr))
  /\ forall v, kaddr v -> ~ (lo <= v < hi) -> kwalk G m' v = kwalk G m v.
Proof.
  intros Hp Ha Hk Hk' [[R1 [R2 R2']] (R3 & R4 & R5) [R6 R7] R8 _ _] HU.
  pose proof (Z.div_mod lo 4096 ltac:(lia)) as D1. pose proof (Z.div_mod hi 4096 ltac:(lia)) as D2. split.
  - intros v Hv. destruct (R8 v Hv) as (c & Hc). pose proof (Z.div_mod v 4096 ltac:(lia)) as D3.
    pose proof (Z.mod_pos_bound v 4096 ltac:(lia)). assert (Hin : lo <= v / 4096 * 4096 < hi) by lia.
    rewrite (upd_walk_at G T m m' _ v _ c Hk' HU (kaddr_between lo v R2' ltac:(lia)) Hc (paint_in _ _ _ _ _ Hin)).
    destruct (page_val G (phys + (v / 4096 * 4096 - lo)) prot attr v Hp Ha) as [_ ->]; [| lia |].
    + replace (phys + (v / 4096 * 4096 - lo)) with (phys + (v / 4096 - lo / 4096) * 4096) by lia. by rewrite Z_mod_plus_full.
    + do 2 f_equal. lia.
  - intros v Hv Hn. apply (upd_walk G T m m' _ v Hk HU Hv). apply paint_out.
    pose proof (Z.div_mod v 4096 ltac:(lia)). pose proof (Z.mod_pos_bound v 4096 ltac:(lia)). lia.
Qed.

(** ** A range without a page table *)

Lemma no_block_at k fl lo hi phys : 21 <= k < 64 -> lo mod 2 ^ 21 <> 0 \/ phys mod 2 ^ 21 <> 0 ->
  use_block (2 ^ k) fl lo hi phys = false.
Proof.
  intros Hk Hn. unfold use_block. apply andb_false_iff. left. apply Z.eqb_neq. intros H.
  apply land_zero_or in H as [H Hp]; [| lia].
  assert (H' : Z.land (Z.lor lo hi) (2 ^ k - 1) = 0).
  { replace (2 ^ k - 1) with (Z.ones k) by (rewrite Z.ones_equiv; lia). by rewrite Z.land_ones by lia. }
  apply land_zero_or in H' as [Hl _]; [| lia].
  assert (Hd : forall x, x mod 2 ^ k = 0 -> x mod 2 ^ 21 = 0).
  { intros x Hx. assert (E : 2 ^ k = 2 ^ 21 * 2 ^ (k - 21)) by (rewrite <- Z.pow_add_r by lia; f_equal; lia).
    pose proof (Z.div_mod x (2 ^ k) ltac:(lia)) as D. rewrite Hx, E in D. rewrite D.
    replace (2 ^ 21 * 2 ^ (k - 21) * (x / (2 ^ 21 * 2 ^ (k - 21))) + 0) with (2 ^ (k - 21) * (x / (2 ^ 21 * 2 ^ (k - 21))) * 2 ^ 21) by lia.
    apply Z_mod_mult. }
  destruct Hn as [Hn | Hn]; apply Hn; auto.
Qed.

Lemma map_loop_bug fuel size adv step s ptr addr end_ phys : (forall next, step s ptr addr next phys = Bug) ->
  map_loop (S fuel) size adv step s ptr addr end_ phys = Bug.
Proof. intros H. cbn [map_loop]. by rewrite H. Qed.

Section Missing.
Context (T : tables) (mb : memblock) (prot fl lo phys y : Z).
Context (Hy : T !! y = Some (1%nat, lo / lsize 2)).
Context (Hal : lo mod 2 ^ 21 <> 0 \/ phys mod 2 ^ 21 <> 0).

(** Entering a level above the table [y] leaves its entries. *)
Lemma missing_open n w b P m : (1 <= n <= 2)%nat -> st G T (S n) w b m -> T !! b = Some (S n, P) -> P = lo / lsize (S (S n)) ->
  exists m1 c, fload G (FixSt m mb) (w * 4096 + 8 * lindex (S n) lo) = Done (rd m (b + 8 * lindex (S n) lo))
    /\ next_table G (FixSt m mb) (w * 4096 + 8 * lindex (S n) lo) (rd m (b + 8 * lindex (S n) lo)) (win n) (lshift n) lo fl
       = Done (fix_page (win n) * 4096 + 8 * lindex n lo, FixSt m1 mb)
    /\ st G T n (fix_page (win n)) c m1 /\ T !! c = Some (n, lo / lsize (S n))
    /\ rd m1 (y + 8 * lindex 1 lo) = rd m (y + 8 * lindex 1 lo).
Proof.
  intros Hn Hst Hb HP. assert (Hsl : lo / lsize (S n) = P * 512 + lindex (S n) lo) by (rewrite (slot_split (S n) lo), <- HP; done).
  destruct (level_entry G T mb n w b P m lo ltac:(lia) Hst Hb Hsl 1 y ltac:(lia) Hy) as (Hld & _ & _ & Hc & _).
  destruct (level_open G T mb n w b P m lo ltac:(lia) Hst Hb Hsl 1 y ltac:(lia) Hy fl) as (m1 & E & Hst1 & U).
  exists m1, (desc_addr 0 (rd m (b + 8 * lindex (S n) lo))). split; [exact Hld |]. split; [exact E |]. split; [exact Hst1 |].
  split; [by rewrite Hsl |]. apply (up_dir _ _ _ _ U _ _ _ _ Hy (lindex_range 1 lo)).
Qed.

Lemma cont_pmd_bug w b P m : st G T 2 w b m -> T !! b = Some (2%nat, P) -> P = lo / lsize 3 -> rd m (y + 8 * lindex 1 lo) = 0 ->
  forall hi, init_cont_pmd G (FixSt m mb) (w * 4096 + 8 * lindex 2 lo) lo hi phys prot fl = Bug.
Proof.
  intros Hst Hb HP Hz hi. destruct (missing_open 1 w b P m ltac:(lia) Hst Hb HP) as (m1 & c & Hld & E & Hst1 & Hc & Hr).
  pose proof (pt_inj _ _ (ks_tree _ _ _ (fm_space _ _ _ (st_fix _ _ _ _ _ _ Hst1))) _ _ _ Hc Hy) as ->.
  pose proof (load_at G m1 _ _ (st_ptr _ _ _ _ _ _ Hst1 _ (lindex_range 1 lo))) as Hl1. rewrite Hr, Hz in Hl1.
  unfold init_cont_pmd. rewrite Hld. cbn [obind]. change FIX_PMD with (win 1). change PMD_SHIFT with (lshift 1). rewrite E. cbn [obind].
  change TABLE_FUEL with (S 512). rewrite map_loop_bug; [done |]. intros next. unfold init_pmd. change TABLE_FUEL with (S 512).
  rewrite map_loop_bug; [done |]. intros next'. unfold init_pmd_step, fload. cbn [fx_mem]. rewrite Hl1. cbn [obind].
  change PMD_SIZE with (2 ^ 21). rewrite no_block_at by (done || lia). unfold init_cont_pte, fload. cbn [fx_mem]. by rewrite Hl1.
Qed.

Lemma init_pud_bug w b P m : st G T 3 w b m -> T !! b = Some (3%nat, P) -> P = lo / lsize 4 -> rd m (y + 8 * lindex 1 lo) = 0 ->
  forall hi, init_pud G (FixSt m mb) (w * 4096 + 8 * lindex 3 lo) lo hi phys prot fl = Bug.
Proof.
  intros Hst Hb HP Hz hi. destruct (missing_open 2 w b P m ltac:(lia) Hst Hb HP) as (m1 & c & Hld & E & Hst1 & Hc & Hr).
  unfold init_pud. rewrite Hld. cbn [obind]. change FIX_PUD with (win 2). change PUD_SHIFT with (lshift 2). rewrite E. cbn [obind].
  change TABLE_FUEL with (S 512). rewrite map_loop_bug; [done |]. intros next. unfold init_pud_step. change PUD_SIZE with (2 ^ 30).
  rewrite no_block_at by (done || lia). apply (cont_pmd_bug _ c (lo / lsize 3)); [exact Hst1 | exact Hc | done | by rewrite Hr].
Qed.
End Missing.
(** ** The device tree *)

(** The pages reserved for it. *)
Definition FDT_LO : Z := fix_page FIX_FDT * 4096.
Definition FDT_END : Z := FIXADDR_TOP - 4096.

(** Nothing is mapped there yet. *)
Definition fdt_free (T : tables) (m : mem) : Prop :=
  forall c q i, T !! c = Some (0%nat, q) -> 0 <= i < 512 -> FDT_LO <= (q * 512 + i) * 4096 < FIXADDR_TOP -> rd m (c + 8 * i) = 0.

Lemma fdt_lo_val : FDT_LO = 4503599627367934 * 4096 /\ __fix_to_virt FIX_FDT = FDT_LO /\ FDT_END = 4503599627368447 * 4096.
Proof. split; [reflexivity |]. split; reflexivity. Qed.

(** The pages from the first one to [hi]. *)
Lemma fdt_ready T m prot hi phys : mappable T m -> FDT_LO < hi <= FDT_END -> hi mod 4096 = 0 -> phys mod 4096 = 0 -> 0 <= phys ->
  phys + (hi - FDT_LO) <= 2 ^ 48 ->
  (forall c q i, T !! c = Some (0%nat, q) -> 0 <= i < 512 -> FDT_LO <= (q * 512 + i) * 4096 < hi ->
    pgattr_change_is_safe (rd m (c + 8 * i)) (Z.lor (phys + ((q * 512 + i) * 4096 - FDT_LO)) prot) = true) ->
  ready T prot m FDT_LO hi phys /\ outside FDT_LO hi.
Proof.
  intros HM Hhi Hm Hp H0 H1 Hsafe. destruct fdt_lo_val as (E1 & _ & E3).
  pose proof (fm_below _ _ _ (mb_fix _ _ HM)) as B1. pose proof (mb_below _ _ HM) as B2.
  change FIXADDR_TOT_START with (4503599627366135 * 4096) in B1, B2. split; split.
  - rewrite E1, E3 in *. split; [lia |]. split; [lia |]. reflexivity.
  - split; [by rewrite E1 |]. done.
  - lia.
  - intros v Hv. exists (bm_table G (v / lsize 1 - FIX_PMD0)).
    assert (Ht : 0 <= v / lsize 1 - FIX_PMD0 < FIX_TABLES).
    { unfold FIX_TABLES. change FIX_PMD0 with 8796093022199. change (lsize 1) with (512 * 4096). rewrite E1, E3 in *.
      assert (8796093022199 <= v / (512 * 4096) < 8796093022204); [| lia].
      split; [apply Z.div_le_lower_bound | apply Z.div_lt_upper_bound]; lia. }
    rewrite (fm_table _ _ _ (mb_fix _ _ HM) _ Ht). do 2 f_equal. lia.
  - exact Hsafe.
  - intros s Hs1 Hs2. exfalso. rewrite E1, E3 in *. lia.
  - right. rewrite win_page. rewrite E1. lia.
  - right. rewrite E1. lia.
  - right. rewrite E1. lia.
Qed.

Lemma safe_new e : pgattr_change_is_safe 0 e = true.
Proof. reflexivity. Qed.

(** The attributes of a device tree: accessed, not contiguous. *)
Record fdt_prot (prot attr : Z) : Prop := {
  fp_val : prot = Z.lor attr 3;
  fp_ok : attr_ok attr;
  fp_young : Z.testbit attr 10 = true;
  fp_cont : Z.testbit attr 52 = false;
}.

(** A blob in memory: its header, and where it lies. *)
Record fdt_blob (T : tables) (m : mem) (dt_phys size : Z) : Prop := {
  fb_phys : 0 < dt_phys /\ dt_phys mod 8 = 0 /\ dt_phys + 2 ^ 22 <= 2 ^ 48;
  fb_off : ~ on_table T dt_phys;
  fb_magic : swab32 (Z.land (rd m dt_phys) 0xffffffff) = FDT_MAGIC;
  fb_size : swab32 (Z.shiftr (rd m dt_phys) 32) = size /\ 0 < size <= MAX_FDT_SIZE;
}.

Section Fdt.
Context (T : tables) (mb : memblock) (prot attr dt_phys : Z) (Hprot : fdt_prot prot attr).
Let base := dt_phys / 4096 * 4096.
Let offset := dt_phys mod 4096.

(** The entry of a page of the blob, and the entries a mapping may find. *)
Definition fdt_entry (p q i : Z) : Z := Z.lor (base + ((q * 512 + i) * 4096 - FDT_LO)) p.
Definition fdt_old (m : mem) : Prop :=
  forall c q i, T !! c = Some (0%nat, q) -> 0 <= i < 512 -> FDT_LO <= (q * 512 + i) * 4096 < FIXADDR_TOP ->
    rd m (c + 8 * i) = 0 \/ exists p, may_follow p prot /\ rd m (c + 8 * i) = fdt_entry p q i.
Definition fdt_new (m m' : mem) : Prop :=
  forall c q i, T !! c = Some (0%nat, q) -> 0 <= i < 512 ->
    rd m' (c + 8 * i) = rd m (c + 8 * i) \/ rd m' (c + 8 * i) = fdt_entry prot q i.

Lemma fdt_painted m m' hi : upd T m m' (paint prot FDT_LO hi base) -> fdt_new m m'.
Proof.
  intros HU c q i Hc Hi. rewrite (up_pte _ _ _ _ HU c q i Hc Hi).
  destruct (decide (FDT_LO <= (q * 512 + i) * 4096 < hi)) as [Hp | Hp];
    [rewrite paint_in by exact Hp; by right | rewrite paint_out by exact Hp; by left].
Qed.

Lemma prot_follows : may_follow prot prot.
Proof.
  destruct Hprot as [P1 P2 P3 P4]. apply may_follow_intro; [done | | by rewrite Z.ldiff_diag | by rewrite Z.lxor_nilpotent].
  rewrite Z.lor_diag, P1, Z.lor_spec, P4. reflexivity.
Qed.

Lemma fdt_old_new m m' : fdt_old m -> fdt_new m m' -> fdt_old m'.
Proof.
  intros Ho Hn c q i Hc Hi Hin. destruct (Hn c q i Hc Hi) as [-> | ->]; [by apply Ho | right].
  exists prot. split; [apply prot_follows | done].
Qed.

Lemma fdt_new_trans m m1 m2 : fdt_new m m1 -> fdt_new m1 m2 -> fdt_new m m2.
Proof. intros H1 H2 c q i Hc Hi. destruct (H2 c q i Hc Hi) as [-> | ->]; [by apply H1 | by right]. Qed.

(** The first [n] bytes from the page of the blob on. *)
Lemma fdt_map m n : mappable T m -> 0 < dt_phys -> dt_phys + 2 ^ 22 <= 2 ^ 48 -> 0 < n <= 2 ^ 21 + 4088 -> fdt_old m ->
  exists m', create_mapping G (FixSt m mb) base FDT_LO n prot = Done (FixSt m' mb) /\ mappable T m'
    /\ upd T m m' (paint prot FDT_LO (pg_hi FDT_LO n) base)
    /\ (forall k, 0 <= k < n -> kwalk G m' (FDT_LO + k) = Some (base + k, attr))
    /\ (forall v, kaddr v -> ~ (FDT_LO <= v < FDT_END) -> kwalk G m' v = kwalk G m v).
Proof.
  intros HM Hd1 Hd2 Hn Hold. destruct Hprot as [P1 P2 P3 P4]. destruct fdt_lo_val as (E1 & _ & E3).
  pose proof (Z.div_mod dt_phys 4096 ltac:(lia)) as Dd. pose proof (Z.mod_pos_bound dt_phys 4096 ltac:(lia)).
  assert (Hb : 0 <= base <= dt_phys) by (unfold base; pose proof (Z.div_pos dt_phys 4096); lia).
  assert (Hbm : base mod 4096 = 0) by apply Z_mod_mult.
  assert (Elo : pg_lo FDT_LO = FDT_LO) by (unfold pg_lo; rewrite E1; by rewrite Z.div_mul by lia).
  assert (Ebase : pg_lo base = base) by (unfold pg_lo, base; by rewrite Z.div_mul by lia).
  assert (HA : map_args base FDT_LO n).
  { split; [rewrite Hbm, E1; reflexivity | lia | rewrite E1; unfold PAGE_OFFSET; lia | rewrite E1; lia]. }
  pose proof (args_range base FDT_LO n HA) as (_ & A2 & _ & _).
  assert (Hhm : pg_hi FDT_LO n mod 4096 = 0) by apply Z_mod_mult.
  assert (Hhi : FDT_LO < pg_hi FDT_LO n <= FDT_END).
  { pose proof (Z.div_mod (pg_hi FDT_LO n) 4096 ltac:(lia)) as D. rewrite E1, E3 in *. lia. }
  destruct (fdt_ready T m prot (pg_hi FDT_LO n) base HM Hhi Hhm Hbm ltac:(lia)) as [HR HO].
  { rewrite E1 in *. lia. }
  { intros c q i Hc Hi Hin. destruct (Hold c q i Hc Hi) as [-> | (p & Hf & ->)].
    - change FIXADDR_TOP with (FDT_END + 4096). lia.
    - apply safe_new.
    - apply Hf; [| rewrite E1 in *; lia]. rewrite E1. unfold base.
      replace (dt_phys / 4096 * 4096 + ((q * 512 + i) * 4096 - 4503599627367934 * 4096))
        with ((dt_phys / 4096 + (q * 512 + i) - 4503599627367934) * 4096) by lia. apply Z_mod_mult. }
  pose proof HR as HR'. pose proof HO as HO'. rewrite <- Elo in HR', HO' at 1. rewrite <- Ebase in HR' at 1.
  destruct (create_mapping_run T m mb base FDT_LO n prot attr HM P1 P2 HA HO' HR') as (m' & E & HU). rewrite Elo, Ebase in HU.
  pose proof (mappable_upd T m m' prot _ _ _ HM HO HU) as HM'. exists m'. split; [exact E |]. split; [exact HM' |]. split; [exact HU |].
  destruct (painted_walk T m m' prot attr _ _ _ P1 P2 (fm_space _ _ _ (mb_fix _ _ HM)) (fm_space _ _ _ (mb_fix _ _ HM')) HR HU) as [H1 H2].
  split.
  - intros k Hk. rewrite H1 by lia. do 2 f_equal. lia.
  - intros v Hv Hnv. apply H2; [done | lia].
Qed.
Lemma fdt_header m size v pa : kwalk G m v = Some (pa, attr) -> Z.testbit attr 10 = true -> pa mod 8 = 0 ->
  swab32 (Z.land (rd m pa) 0xffffffff) = FDT_MAGIC -> swab32 (Z.shiftr (rd m pa) 32) = size ->
  fdt_magic G (FixSt m mb) v = Done FDT_MAGIC /\ fdt_totalsize G (FixSt m mb) v = Done size.
Proof.
  intros E Hy H8 <- <-. unfold fdt_magic, fdt_totalsize, fload, vload. cbn [fx_mem]. rewrite E, Hy, H8. done.
Qed.

Lemma remap_fdt_run m size : mappable T m -> fdt_old m -> fdt_blob T m dt_phys size ->
  exists m', fixmap_remap_fdt G (FixSt m mb) dt_phys prot = Done (FDT_LO + dt_phys mod 4096, Some size, FixSt m' mb)
    /\ mappable T m'
    /\ (forall k, 0 <= k < size -> kwalk G m' (FDT_LO + dt_phys mod 4096 + k) = Some (dt_phys + k, attr))
    /\ (forall v, kaddr v -> ~ (FDT_LO <= v < FDT_END) -> kwalk G m' v = kwalk G m v)
    /\ (forall a, ~ on_table T a -> rd m' a = rd m a) /\ fdt_new m m'.
Proof.
  intros HM Hold [[D1 [D2 D3]] B2 B3 [B4 B5]]. destruct fdt_lo_val as (E1 & E2 & E3). change MAX_FDT_SIZE with (2 ^ 21) in B5.
  pose proof (Z.div_mod dt_phys 4096 ltac:(lia)) as Dd. pose proof (Z.mod_pos_bound dt_phys 4096 ltac:(lia)) as Dm.
  assert (Hoff : dt_phys mod 4096 <= 4088).
  { pose proof (Z.div_mod (dt_phys mod 4096) 8 ltac:(lia)) as D8.
    assert ((dt_phys mod 4096) mod 8 = 0); [| lia]. rewrite Dd in D2.
    replace (4096 * (dt_phys / 4096) + dt_phys mod 4096) with (dt_phys mod 4096 + 512 * (dt_phys / 4096) * 8) in D2 by lia. by rewrite Z_mod_plus_full in D2. }
  destruct (fdt_map m 4096 HM D1 D3 ltac:(lia) Hold) as (m1 & C1 & HM1 & U1 & W1 & O1).
  assert (Ho : 0 <= offset <= 4088) by (unfold offset; lia).
  assert (Hd : base + offset = dt_phys) by (unfold base, offset; lia).
  assert (Hw : rd m1 dt_phys = rd m dt_phys) by (by apply (up_out _ _ _ _ U1)).
  pose proof (W1 offset ltac:(lia)) as Wh. rewrite Hd in Wh. rewrite <- Hw in B3, B4.
  destruct (fdt_header m1 size _ _ Wh (fp_young _ _ Hprot) D2 B3 B4) as [Hmag Hsz].
  unfold fixmap_remap_fdt. rewrite (proj2 (Z.eqb_neq dt_phys 0)) by lia. change MIN_FDT_ALIGN with 8. rewrite D2. cbn [orb negb Z.eqb].
  rewrite (proj1 (page_offset G dt_phys ltac:(lia))), E2. change PAGE_SIZE with 4096. fold base offset. rewrite C1. cbn [obind].
  rewrite Hmag. cbn [obind]. rewrite Z.eqb_refl. cbn [negb]. rewrite Hsz. cbn [obind].
  assert (Es : s32 size = size) by (unfold s32; rewrite Z.mod_small by lia; lia). rewrite Es.
  change MAX_FDT_SIZE with (2 ^ 21). rewrite (proj2 (Z.ltb_ge _ _)) by lia. rewrite u64_small by lia.
  destruct (Z.ltb_spec 4096 (offset + size)) as [Hlt | Hge].
  - destruct (fdt_map m1 (offset + size) HM1 D1 D3 ltac:(lia)) as (m2 & C2 & HM2 & U2 & W2 & O2).
    { eapply fdt_old_new; [exact Hold |]. by eapply fdt_painted. }
    rewrite C2. cbn [obind]. exists m2. split; [done |]. split; [done |]. split; [| split; [| split]].
    + intros k Hk. rewrite <- Z.add_assoc, W2 by lia. do 2 f_equal. lia.
    + intros v Hv Hnv. by rewrite O2, O1.
    + intros a Ha. by rewrite (up_out _ _ _ _ U2), (up_out _ _ _ _ U1).
    + eapply fdt_new_trans; by eapply fdt_painted.
  - cbn [obind]. exists m1. split; [done |]. split; [done |]. split; [| split; [exact O1 | split; [exact (up_out _ _ _ _ U1) | by eapply fdt_painted]]].
    intros k Hk. rewrite <- Z.add_assoc, W1 by lia. do 2 f_equal. lia.
Qed.
End Fdt.
End Top.

(** ** After set-up *)

Lemma early_fixmap_ready G T m : image_tables G T m ->
  exists T' m', early_fixmap_init G m = Done m' /\ grows T T' /\ (forall v, kwalk G m' v = kwalk G m v)
    /\ mappable G T' m' /\ fdt_free T' m' /\ io_state G T' m' (early_ioremap_setup io_init) (replicate FIX_BTMAPS_SLOTS None)
    /\ (forall a, a <> virt_to_kimg_phys G (swapper_pg_dir G) + 8 * 511 ->
          (forall x, x ∈ bm_pages G -> ~ (virt_to_kimg_phys G x <= a < virt_to_kimg_phys G x + 4096)) -> rd m' a = rd m a).
Proof.
  intros HI. destruct (early_fixmap_run G T m HI) as (T' & m' & E & HF & He & Hg & Hw & Hr). exists T', m'.
  split; [exact E |]. split; [exact Hg |]. split; [exact Hw |]. split; [| split; [| split; [| exact Hr]]].
  - split; [exact HF | | | | apply (proj2 (im_below _ _ _ HI))].
    + intros k Hk. destruct (fix_entry G (win k) (win_range k Hk)) as (Ht & Hi & _). by apply He.
    + intros j Hj. eapply at_same; [exact Hw |]. apply (im_map _ _ _ HI); [apply elem_of_cons; by left | lia |].
      rewrite Z.mul_comm. apply Z_mod_mult.
    + split; apply (im_align _ _ _ HI); [apply elem_of_cons; right | apply elem_of_cons; by left].
      destruct (bm_elems G) as (_ & _ & H). specialize (H 0 ltac:(lia)). unfold pte_page in H. by rewrite Z.mul_0_r, Z.add_0_r in H.
  - intros c q i Hc Hi Hin. change FDT_LO with (4503599627367934 * 4096) in Hin. change FIXADDR_TOP with (4503599627368448 * 4096) in Hin.
    assert (Ht : 0 <= q - FIX_PMD0 < FIX_TABLES) by (unfold FIX_TABLES; change FIX_PMD0 with 8796093022199; lia).
    pose proof (fm_table _ _ _ HF _ Ht) as Hb. replace (FIX_PMD0 + (q - FIX_PMD0)) with q in Hb by lia.
    rewrite (pt_inj _ _ (ks_tree _ _ _ (fm_space _ _ _ HF)) _ _ _ Hc Hb). by apply He.
  - split; [exact HF | done | reflexivity | | reflexivity]. intros i p w Hp Hw'. cbn [prev_map early_ioremap_setup io_init] in Hp.
    apply lookup_replicate in Hp as [-> _], Hw' as [-> _]. done.
Qed.

(** ** Claims *)

(** C14: [create_mapping_noalloc] of a range whose page tables exist, with
    the same offset in a page, entries that may change and no block of two
    megabytes to use: it returns, every address of the pages of the range
    translates to its physical address with the given attributes, every
    other kernel address as before, and no word outside the tables changes;
    the mapper is ready for the next call. *)
Theorem create_mapping_maps G T m mb phys virt size prot attr :
  mappable G T m -> prot = Z.lor attr 3 -> attr_ok attr -> map_args phys virt size ->
  outside G (pg_lo virt) (pg_hi virt size) -> ready T prot m (pg_lo virt) (pg_hi virt size) (pg_lo phys) ->
  exists m', create_mapping G (FixSt m mb) phys virt size prot = Done (FixSt m' mb) /\ mappable G T m'
    /\ (forall v, pg_lo virt <= v < pg_hi virt size -> kwalk G m' v = Some (pg_lo phys + (v - pg_lo virt), attr))
    /\ (forall v, kaddr v -> ~ (pg_lo virt <= v < pg_hi virt size) -> kwalk G m' v = kwalk G m v)
    /\ (forall a, ~ on_table T a -> rd m' a = rd m a).
Proof.
  intros HM Hp Ha HA HO HR. destruct (create_mapping_run G T m mb phys virt size prot attr HM Hp Ha HA HO HR) as (m' & E & HU).
  pose proof (mappable_upd G T m m' prot _ _ _ HM HO HU) as HM'. exists m'. split; [exact E |]. split; [exact HM' |].
  destruct (painted_walk G T m m' prot attr _ _ _ Hp Ha (fm_space _ _ _ (mb_fix _ _ _ HM)) (fm_space _ _ _ (mb_fix _ _ _ HM')) HR HU) as [H1 H2].
  split; [exact H1 |]. split; [exact H2 | exact (up_out _ _ _ _ HU)].
Qed.

(** C40: neither [create_mapping_noalloc] nor [create_mapping_alloc] can add a
    page table: when the entry for the first page is empty and the request
    does not begin with a block, the kernel stops at the test for a bad
    entry, whatever memory is free. *)
Theorem create_mapping_no_new_table G T m mb phys virt size prot y :
  mappable G T m -> map_args phys virt size -> T !! y = Some (1%nat, pg_lo virt / lsize 2) ->
  rd m (y + 8 * lindex 1 (pg_lo virt)) = 0 -> pg_lo virt mod 2 ^ 21 <> 0 \/ pg_lo phys mod 2 ^ 21 <> 0 ->
  create_mapping G (FixSt m mb) phys virt size prot = Bug.
Proof.
  intros HM HA Hy Hz Hal. pose proof (args_range G phys virt size HA) as (L1 & L2 & L3 & L4).
  rewrite create_mapping_loop by done. change TABLE_FUEL with (S 512). apply map_loop_bug. intros next.
  replace (swapper_pg_dir G + 8 * lindex 3 (pg_lo virt)) with (swapper_pg_dir G / 4096 * 4096 + 8 * lindex 3 (pg_lo virt)).
  - eapply init_pud_bug; [exact Hy | exact Hal | by apply mappable_state | apply (ks_root _ _ _ (fm_space _ _ _ (mb_fix _ _ _ HM))) | | exact Hz].
    symmetry. exact L4.
  - pose proof (Z.div_mod (swapper_pg_dir G) 4096 ltac:(lia)) as Hd. rewrite (proj2 (mb_align _ _ _ HM)) in Hd. lia.
Qed.

(** C16: [early_fixmap_init] on an image whose tables are blank returns and
    changes no translation; it leaves the state every later use of the fixed
    map needs: the mapper can be called, the pages of the device tree are
    free, and the seven device slots of [early_ioremap_setup] are empty. *)
Theorem early_fixmap_init_state G T m : image_tables G T m ->
  exists T' m', early_fixmap_init G m = Done m' /\ grows T T' /\ (forall v, kwalk G m' v = kwalk G m v)
    /\ mappable G T' m' /\ fdt_free T' m' /\ io_state G T' m' (early_ioremap_setup io_init) (replicate FIX_BTMAPS_SLOTS None).
Proof.
  intros HI. destruct (early_fixmap_ready G T m HI) as (T' & m' & E & Hg & Hw & HM & Hf & Hio & _). by exists T', m'.
Qed.

(** C15: [early_ioremap] refines a table of seven windows: a request of at most
    256 pages takes the first free slot, its address is the one returned, the
    whole register range translates to it as device memory, the windows made
    before stay, and no address outside the slot changes; a larger request
    of up to 2^43 bytes, or one without a free slot, gets a null pointer and
    maps nothing.  (From 2^44 bytes on the number of pages wraps at 32
    bits.) *)
Theorem early_ioremap_refines G T m io W phys size :
  io_state G T m io W -> 0 <= phys -> 0 < size <= 2 ^ 43 -> phys + size <= 2 ^ 48 ->
  exists p m' io', early_ioremap G m io phys size = Done (p, m', io') /\ ioremap_post G T m io W phys size p m' io'.
Proof. apply early_ioremap_run. Qed.

(** ** On the image of [FixmapDemo] *)

Lemma early_fixmap_init_state_witness :
  exists T' m', early_fixmap_init im_syms im_mem = Done m' /\ mappable im_syms T' m'
    /\ kwalk im_syms m' (VB + 0x3008) = Some (PB + 0x3008, Z.ldiff (PROT_NORMAL false) 3).
Proof.
  destruct (early_fixmap_init_state im_syms im_tables im_mem im_image) as (T' & m' & E & _ & Hw & HM & _). exists T', m'.
  split; [exact E |]. split; [exact HM |]. rewrite Hw. vm_compute. reflexivity.
Defined.

(** The distributor of the interrupt controller. *)
Lemma early_ioremap_refines_witness :
  exists T' m' p m'' io'', early_fixmap_init im_syms im_mem = Done m'
    /\ early_ioremap im_syms m' (early_ioremap_setup io_init) 0x8000000 0x10000 = Done (p, m'', io'')
    /\ p = slot_addr_of 0 /\ io_state im_syms T' m'' io'' (Some (0x8000000, 0x10000) :: replicate 6 None).
Proof.
  destruct (early_fixmap_ready im_syms im_tables im_mem im_image) as (T' & m' & E & _ & _ & _ & _ & Hio & _).
  destruct (early_ioremap_refines im_syms T' m' _ _ 0x8000000 0x10000 Hio) as (p & m'' & io'' & E2 & Hp); [lia | lia | lia |].
  exists T', m', p, m'', io''. split; [exact E |]. split; [exact E2 |]. destruct Hp as (Hp1 & Hp2 & _).
  split; [| exact Hp2]. rewrite Hp1. change (0x8000000 mod 4096) with 0. apply Z.add_0_r.
Defined.

(** *** The numbers of the two requests below *)

Lemma demo_lo : pg_lo FDT_LO = FDT_LO.
Proof. vm_compute. reflexivity. Qed.

Lemma demo_hi : pg_hi FDT_LO 0x2000 = FDT_LO + 0x2000.
Proof. vm_compute. reflexivity. Qed.

Lemma demo_phys : pg_lo 0x48000000 = 0x48000000.
Proof. vm_compute. reflexivity. Qed.

Lemma demo_map_args : map_args 0x48000000 FDT_LO 0x2000.
Proof. split; [reflexivity | lia | vm_compute; discriminate | split; [lia | reflexivity]]. Qed.

Lemma demo_prot : fdt_prot (PAGE_KERNEL im_syms) (Z.ldiff (PAGE_KERNEL im_syms) 3).
Proof. split; reflexivity. Qed.

Lemma demo_ready T m : mappable im_syms T m -> fdt_free T m ->
  outside im_syms (pg_lo FDT_LO) (pg_hi FDT_LO 0x2000)
  /\ ready T (PAGE_KERNEL im_syms) m (pg_lo FDT_LO) (pg_hi FDT_LO 0x2000) (pg_lo 0x48000000).
Proof.
  intros HM Hf. rewrite demo_lo, demo_hi, demo_phys.
  destruct (fdt_ready im_syms T m (PAGE_KERNEL im_syms) (FDT_LO + 0x2000) 0x48000000 HM) as [HR HO];
    [vm_compute; done | reflexivity | reflexivity | lia | vm_compute; discriminate | | by split].
  intros c q i Hc Hi Hin. rewrite (Hf c q i Hc Hi); [reflexivity |]. change FIXADDR_TOP with (FDT_LO + 0x202000). lia.
Qed.

(** Two pages of the fixed map. *)
Lemma create_mapping_maps_witness :
  exists T' m' m'', early_fixmap_init im_syms im_mem = Done m' /\ mappable im_syms T' m''
    /\ create_mapping im_syms (FixSt m' memblock_init) 0x48000000 FDT_LO 0x2000 (PAGE_KERNEL im_syms) = Done (FixSt m'' memblock_init)
    /\ kwalk im_syms m'' (FDT_LO + 0x1234) = Some (0x48001234, Z.ldiff (PAGE_KERNEL im_syms) 3).
Proof.
  destruct (early_fixmap_ready im_syms im_tables im_mem im_image) as (T' & m' & E & _ & _ & HM & Hf & _ & _).
  destruct (demo_ready T' m' HM Hf) as [HO HR]. destruct demo_prot as [P1 P2].
  destruct (create_mapping_maps im_syms T' m' memblock_init _ _ _ _ _ HM P1 P2 demo_map_args HO HR)
    as (m'' & E2 & HM2 & Hin & _).
  exists T', m', m''. split; [exact E |]. split; [exact HM2 |]. split; [exact E2 |].
  rewrite demo_lo, demo_hi, demo_phys in Hin. rewrite Hin by lia. replace (0x48000000 + (FDT_LO + 0x1234 - FDT_LO)) with 0x48001234 by lia. exact eq_refl.
Defined.

Lemma demo_gap_args : map_args 0x48001000 (VB + 0x201000) 0x1000.
Proof. split; [reflexivity | lia | vm_compute; discriminate | split; [lia | reflexivity]]. Qed.

Lemma demo_gap_lo : pg_lo (VB + 0x201000) = VB + 0x201000.
Proof. vm_compute. reflexivity. Qed.

Lemma demo_gap_table : im_tables !! (PB + 0x11000) = Some (1%nat, (VB + 0x201000) / lsize 2).
Proof. vm_compute. reflexivity. Qed.

Lemma demo_gap_index : lindex 1 (VB + 0x201000) = 1.
Proof. vm_compute. reflexivity. Qed.

Lemma demo_gap_entry : rd im_mem (PB + 0x11000 + 8 * 1) = 0.
Proof. vm_compute. reflexivity. Qed.

(** Words of the image above its tables of the fixed map. *)
Lemma demo_above x a : x ∈ bm_pages im_syms -> PB + 0x8000 <= a ->
  ~ (virt_to_kimg_phys im_syms x <= a < virt_to_kimg_phys im_syms x + 4096).
Proof.
  intros Hx Ha. assert (Hx' : x ∈ swapper_pg_dir im_syms :: bm_pages im_syms) by (apply elem_of_cons; by right).
  apply im_pages in Hx' as (t & Ht & ->). rewrite im_phys by exact Ht. lia.
Qed.

(** The page above the first two megabytes of the image has no page table. *)
Lemma create_mapping_no_new_table_witness :
  exists m', early_fixmap_init im_syms im_mem = Done m'
    /\ create_mapping im_syms (FixSt m' memblock_init) 0x48001000 (VB + 0x201000) 0x1000 (PAGE_KERNEL im_syms) = Bug.
Proof.
  destruct (early_fixmap_ready im_syms im_tables im_mem im_image) as (T' & m' & E & Hg & _ & HM & _ & _ & Hr).
  exists m'. split; [exact E |].
  apply (create_mapping_no_new_table im_syms T' m' memblock_init _ _ _ _ (PB + 0x11000) HM demo_gap_args);
    rewrite demo_gap_lo.
  - apply Hg. exact demo_gap_table.
  - rewrite demo_gap_index. rewrite Hr; [exact demo_gap_entry | |].
    + discriminate.
    + intros x Hx. apply demo_above; [exact Hx | lia].
  - left. discriminate.
Defined.
