(* ===== verification/FixmapFdt.v ===== *)
(** * The device tree in the kernel: [setup_machine_fdt]

    The blob is mapped in the fixed map twice, first writable and then
    read-only over the same entries, and the memory it lies in is reserved in
    between. *)

From S2P Require Import Prelude PageTable PageTableMap PtTree Pte BootMap.
From S2P Require Import Memblock MemblockList MemblockArray MemblockRange MemblockAlloc.
From S2P Require Import Fixmap FixmapSpec FixmapInit FixmapMap FixmapDemo FixmapTop.

Definition RW_ATTR (ng : bool) : Z := Z.ldiff (_PAGE_KERNEL ng) 3.
Definition RO_ATTR (ng : bool) : Z := Z.ldiff (_PAGE_KERNEL_RO ng) 3.

Lemma rw_prot G : fdt_prot (PAGE_KERNEL G) (RW_ATTR (use_ng G)).
Proof. unfold PAGE_KERNEL. destruct (use_ng G); split; vm_compute; reflexivity. Qed.

Lemma ro_prot ng : fdt_prot (_PAGE_KERNEL_RO ng) (RO_ATTR ng).
Proof. destruct ng; split; vm_compute; reflexivity. Qed.

Lemma ro_follows G : may_follow (PAGE_KERNEL G) (_PAGE_KERNEL_RO (use_ng G)).
Proof. unfold PAGE_KERNEL. destruct (use_ng G); apply may_follow_intro; vm_compute; reflexivity. Qed.

(** The first mapping leaves entries the second may replace. *)
Lemma rw_leaves_ro G T m m' dt_phys : fdt_free T m -> fdt_new T (PAGE_KERNEL G) dt_phys m m' ->
  fdt_old T (_PAGE_KERNEL_RO (use_ng G)) dt_phys m'.
Proof.
  intros Hf Hn c q i Hc Hi Hin. destruct (Hn c q i Hc Hi) as [-> | ->].
  - left. by apply (Hf c q i).
  - right. exists (PAGE_KERNEL G). split; [apply ro_follows | done].
Qed.

Lemma blob_kept T m m' dt_phys size : fdt_blob T m dt_phys size -> (forall a, ~ on_table T a -> rd m' a = rd m a) ->
  fdt_blob T m' dt_phys size.
Proof. intros [B1 B2 B3 B4] H. split; [done | done | |]; by rewrite (H dt_phys B2). Qed.

(** What the reservation does. *)
Lemma reserve_block mb base size : mb_inv mb -> op_ok mb (OpReserve base size) -> base + size <= PHYS_ADDR_MAX ->
  exists mb', memblock_reserve mb base size = Done (0, mb') /\ mb_inv mb'
    /\ same_set (covers (memory mb')) (covers (memory mb))
    /\ same_set (covers (reserved mb')) (fun a => covers (reserved mb) a \/ block base size a).
Proof.
  intros Hi Ho Hb. destruct (run_op_refines mb _ Hi Ho) as (r & mb' & E & I & (-> & S1 & S2) & _).
  exists mb'. split; [exact E |]. split; [exact I |]. split; [exact S1 |].
  intros a. rewrite (S2 a). unfold in_range, block. by rewrite Z.min_l by lia.
Qed.

(** C17: [setup_machine_fdt] on a device tree blob with a valid header of at
    most two megabytes: the pointer it keeps leads to the blob, every byte of
    which translates, readable and not writable; the memory of the blob is
    reserved and no other memory is, so the allocator never hands it out; no
    address outside the pages of the fixed map kept for it changes its
    translation and no word outside the tables its value. *)
Theorem setup_machine_fdt_maps G T m mb dt_phys size g :
  mappable G T m -> fdt_free T m -> fdt_blob T m dt_phys size -> mb_inv mb -> op_ok mb (OpReserve dt_phys size) ->
  exists p m' mb', setup_machine_fdt G (FixSt m mb) dt_phys g = Done (p, FixSt m' mb') /\ mappable G T m' /\ mb_inv mb'
    /\ (forall k, 0 <= k < size -> kwalk G m' (p + k) = Some (dt_phys + k, RO_ATTR (use_ng G)))
    /\ writable (RO_ATTR (use_ng G)) = false
    /\ same_set (covers (memory mb')) (covers (memory mb))
    /\ same_set (covers (reserved mb')) (fun a => covers (reserved mb) a \/ block dt_phys size a)
    /\ (forall v, kaddr v -> ~ (FDT_LO <= v < FDT_END) -> kwalk G m' v = kwalk G m v)
    /\ (forall a, ~ on_table T a -> rd m' a = rd m a).
Proof.
  intros HM Hf Hb Hi Ho. pose proof (fb_phys _ _ _ _ Hb) as (D1 & D2 & D3). pose proof (proj2 (fb_size _ _ _ _ Hb)) as D4.
  change MAX_FDT_SIZE with (2 ^ 21) in D4.
  destruct (remap_fdt_run G T mb (PAGE_KERNEL G) _ dt_phys (rw_prot G) m size HM) as (m1 & E1 & HM1 & _ & O1 & K1 & N1);
    [intros c q i Hc Hq Hin; left; by apply (Hf c q i) | done |].
  destruct (reserve_block mb dt_phys size Hi Ho) as (mb' & Er & I' & S1 & S2); [unfold PHYS_ADDR_MAX; lia |].
  destruct (remap_fdt_run G T mb' _ _ dt_phys (ro_prot (use_ng G)) m1 size HM1 (rw_leaves_ro G T m m1 dt_phys Hf N1)
    (blob_kept T m m1 dt_phys size Hb K1)) as (m2 & E2 & HM2 & W2 & O2 & K2 & _).
  exists (FDT_LO + dt_phys mod 4096), m2, mb'. unfold setup_machine_fdt. rewrite E1. cbn [obind fx_mb fx_mem default].
  pose proof (Z.mod_pos_bound dt_phys 4096 ltac:(lia)). rewrite (proj2 (Z.eqb_neq _ _)) by (change FDT_LO with (4503599627367934 * 4096); lia).
  change (id size) with size. rewrite (u64_small size) by lia. rewrite Er. cbn [obind]. rewrite E2. split; [done |]. split; [done |]. split; [done |].
  split; [exact W2 |]. split; [by destruct (use_ng G) |]. split; [done |]. split; [done |]. split.
  - intros v Hv Hn. by rewrite O2, O1.
  - intros a Ha. by rewrite K2, K1.
Qed.

(** ** On the image of [FixmapDemo] *)

(** The blob of the image, 0x1234 bytes. *)
Lemma demo_blob T m : mappable im_syms T m -> rd m 0x48000000 = 0x34120000edfe0dd0 -> fdt_blob T m 0x48000000 0x1234.
Proof.
  intros HM Ew.
  split; [split; [lia | split; [reflexivity | lia]] | | by rewrite Ew | split; [by rewrite Ew | vm_compute; split; [reflexivity | discriminate]]].
  intros (c & [k q] & Hc & Ha). pose proof (ks_tree _ _ _ (fm_space _ _ _ (mb_fix _ _ _ HM))) as Ht.
  destruct (pt_page _ _ Ht _ _ _ Hc) as (A1 & _). pose proof (Z.div_mod c 4096 ltac:(lia)) as D.
  assert (c = 0x48000000) as -> by lia. pose proof (pt_none _ _ Ht _ _ _ 0 Hc ltac:(lia)) as Hn.
  change (0x48000000 + 8 * 0) with 0x48000000 in Hn. rewrite Ew in Hn. discriminate (Hn eq_refl).
Qed.

Lemma demo_word : rd im_mem 0x48000000 = 0x34120000edfe0dd0.
Proof. vm_compute. reflexivity. Qed.

Lemma demo_reserve_ok : op_ok memblock_init (OpReserve 0x48000000 0x1234).
Proof. op_ok_tac. Qed.

Lemma setup_machine_fdt_maps_witness :
  exists T' m' p m'' mb'', early_fixmap_init im_syms im_mem = Done m'
    /\ setup_machine_fdt im_syms (FixSt m' memblock_init) 0x48000000 0 = Done (p, FixSt m'' mb'')
    /\ mappable im_syms T' m'' /\ kwalk im_syms m'' (p + 0x1233) = Some (0x48001233, RO_ATTR false)
    /\ covers (reserved mb'') 0x48001000.
Proof.
  destruct (early_fixmap_ready im_syms im_tables im_mem im_image) as (T' & m' & E & _ & _ & HM & Hf & _ & Hr).
  assert (Ew : rd m' 0x48000000 = 0x34120000edfe0dd0).
  { rewrite Hr; [exact demo_word | discriminate |]. intros x Hx. apply demo_above; [exact Hx | unfold PB; lia]. }
  destruct (setup_machine_fdt_maps im_syms T' m' memblock_init _ _ 0 HM Hf (demo_blob T' m' HM Ew) memblock_init_inv demo_reserve_ok)
    as (p & m'' & mb'' & E2 & HM2 & _ & Hin & _ & _ & Hres & _).
  exists T', m', p, m'', mb''. split; [exact E |]. split; [exact E2 |]. split; [exact HM2 |]. split; [apply Hin; lia |].
  apply Hres. right. unfold block. lia.
Defined.
